(* ===== verification/_CoqProject ===== *)
-Q . S2P
Prelude.v
Text.v
Ranking.v
Pricing.v
Splits.v
Fees.v
Composition.v
Allocation.v
Sha256.v
Settlement.v
Format.v
Keyring.v
Journal.v
PaymentOps.v
Prog.v
PaymentFlows.v
PaymentSafety.v
Charging.v
Tables.v
Inventory.v
Claims.v
SeatMap.v
SeatClaims.v
InventoryMoves.v
ClaimMoves.v
SeatMoves.v
InventorySafety.v
ClaimLife.v
Availability.v
SeatSafety.v
SeatReads.v
SeatOrder.v
Projections.v
BestSeats.v
Geometry.v
GeometryOrder.v
CatalogEvents.v
CatalogConsumer.v
ConsumerRuns.v
ConsumerSafety.v
Offering.v
Paging.v
Readiness.v
Reprocess.v
SeatMaps.v
SeatMapSafety.v
SeatMapTrees.v
SeatMapSale.v
PinDrain.v
PinSafety.v
Admission.v
Lifecycle.v
Trail.v
Gate.v
Reconcile.v
TicketOps.v
TrailRuns.v
AccessRuns.v
GateSafety.v
Retries.v
TrailIntegrity.v
TrailAudit.v
AuditSafety.v
Orders.v
Reversals.v
OrderMoves.v
OrderSafety.v
OrderLeases.v
SalePlan.v
Protocol.v
RecoveryRunner.v
RecoveryEvidence.v
CheckoutService.v
CheckoutOrder.v
RefundService.v
RefundOrder.v
ExchangeService.v
ExchangeOrder.v
ReserveService.v
ReserveOrder.v
