(* ===== verification/Prelude.v ===== *)
(** * A verification library for the ticketing platform

    The platform sells tickets through five Go services. [catalog] says what a
    ticket costs and who its fees belong to, [inventory] says whether it is
    there to sell, [commerce] composes the amount and drives an order,
    [payments] moves the money and keeps the signed record of it, [access]
    admits the holder at the gate. The library models the cores of these, each
    from the lines of the source, and proves what each owes the others.

    ** The parts and where they are

    Foundations. This file: results, booleans as propositions, sorting, 32- and
    64-bit wrap-around. [Text], [Format]: newline-separated records, timestamps,
    JSON maps, as the signed forms use them. [Sha256]: SHA-256, HMAC and
    hexadecimal, executable. [Tables]: tables as finite maps, SQL sums. [Prog]:
    handlers as programs of atomic statements, every interleaving of them with
    crashes, and the rely-guarantee condition [wp] that proves an invariant of
    them.

    Money, from the rule to the ledger.
    - [Ranking]: the contest that the three resolvers of catalog decide, stated
      once, with the interface [Ranked] that each kind of rule implements.
      [Pricing] (catalog store/pricing.go), [Fees] (fees.go, the attachment of
      fees_postgres.go) and [Splits] (splits.go) are the resolvers as written.
    - [Composition]: commerce api/catalog_fees.go and catalog_pricing.go, with
      the parts of server.go's reserve handler that quote before the hold and
      charge after it. The resolvers' answers arrive as decoded documents.
    - [Allocation]: payments splits/splits.go. [Settlement]: the plan half of
      store/settlement.go. [Keyring]: store/keyring.go. [Journal]: the facts of
      store/store.go and the ledger half of settlement.go, whose [Append] calls
      [Settlement.BuildSettlementEntries] and [Keyring.sign].
    - [PaymentOps]: psp/port.go, and the operation, compensation and refund
      leg tables (store.go, refund_legs.go, arithmetic.go). [PaymentFlows]:
      the handlers of payments api/server.go, psp.go and partial_refund.go, as
      programs over [PaymentOps] and [Journal] that query a provider.
      [PaymentSafety] is their invariant, [Charging] the success of the append
      that follows a capture.

    Capacity. All of inventory's store/.
    - [Inventory]: the tables of the migrations, the predicates and sums of the
      queries, the shared statements. [Claims]: every transaction of store.go,
      operational.go, reservations.go, capacity.go, channel_allocations.go,
      presale_codes.go and offering.go that writes, seats apart. [SeatMap],
      [SeatClaims]: seat_claims.go, the stored geometry of a seated pool and its
      validation, holds of named and of best-available seats, the orphan rule,
      the occupancy read, the verdicts on the claims behind catalog's pins.
    - [InventoryMoves]: the moves an operation is made of, with the condition of
      each, and what each does to the quantities. [ClaimMoves], [SeatMoves]:
      every operation is a sequence of moves. This is a refinement: invariants
      are proved of the moves alone, in [InventorySafety], [ClaimLife] and
      [SeatSafety].
    - [Availability]: the reads (public, staff, channel, histories, statuses).
      [SeatReads]: the occupancy read, the orphan rule and the verdicts, against
      what holds do. [SeatOrder], [Projections]: what the validation of a
      geometry accepts, and that only that is stored. [BestSeats]: the search of
      the best seats, which the code states over islands of consecutive
      positions, against a plain search from left to right.

    What inventory hears from catalog. All of inventory's consumer/.
    - [Geometry]: consumer/catalog.go, the classification of catalog's answers and
      the derivation of a projection. [GeometryOrder]: what is derived is what the
      store's validation accepts. [CatalogEvents]: quarantine.go, parked.go and
      moot.go of the store. [CatalogConsumer]: consumer.go and reprocess.go, the
      handlers over the interface [catalogStore] that [CatalogEvents] implements.
      [Readiness]: the latch and the start of the service (reconcile.go), as a
      step relation. [Reprocess]: cmd/inventory/reprocess.go. [Paging]: the loop
      that both commands of inventory are.
    - [ConsumerRuns], [ConsumerSafety], [Offering]: what deliveries do, in any
      order and number.

    Seat maps. Catalog's postgres_seat_maps.go and its HTTP shell where another
    service depends on it.
    - [SeatMaps]: the tables of the migrations and every transaction. [SeatMapSafety],
      [SeatMapTrees]: what interleaved runs of them keep. [SeatMapSale]: catalog's
      geometry through inventory's consumer into a pool.
    - [PinDrain]: cmd/inventory/reconcile_pins.go, over its collaborators as a
      record, and over catalog and inventory themselves. [PinSafety]: what it does.

    The gate. All of access's trail, gate and reconciliation.
    - [Lifecycle]: internal/lifecycle, the canonical texts that are hashed and
      signed, the Merkle root of a checkpoint, the signing keys.
    - [Admission]: store/conflicts.go, validity.go and the alarm transitions of
      scan.go. [Trail]: the trail's tables, the append and the verification of a
      ticket (lifecycle.go). [Gate]: scans, redemptions, the degraded mode and
      the alarms (scan.go, postgres.go, lifecycle.go). [Reconcile]: what offline
      scanners send later, and slot policies (reconcile.go, policy.go).
      [TicketOps]: issuance, delivery, refunds, exchanges, redeliveries, the
      voided feed (postgres.go, refunds.go, exchanges.go, redeliveries.go,
      voided_feed.go). [TrailAudit]: checkpoints, the adoption of old history,
      epoch seals and the offline verifier (lifecycle_checkpoint.go,
      lifecycle_verify.go).
    - [TrailRuns]: every operation of these is a composition of a few
      statements, so a preorder that each statement keeps is kept by all
      ([framed]); tables only grow. [AccessRuns]: runs of requests, and of
      arbitrary damage to the trail. [GateSafety], [Retries],
      [TrailIntegrity], [AuditSafety]: what holds of them.

    The order. Commerce's store/ with the handlers and workers that drive it.
    - [Orders]: the columns of its four work queues (section [Leases]); reservations,
      orders, the outbox (store.go, the statements of api/server.go); store/recovery.go
      (section [Recovery]). [Reversals]: refunds.go, voids.go, exchanges.go,
      exchange_unwind.go and the two queues refund_reversal.go and
      exchange_reversal.go, with the replacement rows of api/exchanges.go.
    - [OrderMoves]: every statement as a request, runs of them, what the handlers
      pass to them, and what each may do to each row. [OrderSafety], [OrderLeases]:
      what runs keep.
    - [SalePlan]: the snapshot of the fees and the settlement plan read back from it
      (api/catalog_fees.go), up to payments' ledger lines.
    - [Protocol]: workers and handlers as trees of typed calls whose answers are
      arbitrary; their traces, what a call's past allows, how many calls there are; and
      the drain of a queue (worklease/lifecycle.go), which the runners share.
      [ReserveService], [CheckoutService] (api/server.go), [ExchangeService]
      (api/exchanges.go, exchangeunwind/), [RefundService] (refunds/service.go,
      exchanges/service.go, reversal/runner.go, exchangesweep/runner.go),
      [RecoveryRunner] (recovery/clients.go, runner.go, worklease/lease.go) are such
      trees; [ReserveOrder], [CheckoutOrder], [ExchangeOrder], [RefundOrder] and
      [RecoveryEvidence] say what each call waits for. The answer of a store call is any
      that the statement's type has; that the statements of [Orders] and [Reversals]
      keep their tables under any order of requests is what [OrderSafety] adds.

    State corresponds to the code as follows. A table is a [gmap] from its key,
    or a list of rows where insertion order matters; a row is a record with the
    columns the statements read. A Go function returning [(T, error)] is a
    function into [result]; a transaction is a function from the tables to a
    result with new tables, and an error leaves the tables as they were, as the
    rollback does. [int64] and [int32] are [Z] with the wrap-around of each
    operator written out ([wrap64], [wrap32]); that an arithmetic result is exact
    is always proved. CHECK, UNIQUE and foreign-key constraints a statement can
    meet are part of the statement. Ids that PostgreSQL draws, and the readings
    of its clocks, are arguments, so that theorems quantify over them.

    ** What the theorems show

    Prices, splits and fees: the amount is that of the rule that wins the declared
    contest, every loser is reported with a true reason, load order and other
    channels do not matter, errors are characterised. Composition: percentages
    are exact floors, a breakdown is exact and complete, a quote accepted before
    the hold composes after it for every quantity. Settlement: a fee split
    conserves its cents by largest remainder, a plan is settled exactly when it
    is sound, its lines sum to the capture, its digest identifies it (or
    exhibits a SHA-256 collision).

    Money: the keyring accepts exactly sound configurations; the journal stays
    verifiable across rotations, appends exactly once, commits to its history by
    its head, and its ledger attributes every captured cent. In every
    interleaving of the money handlers, with crashes and retries, refunds never
    exceed the capture, whole and partial refunds exclude each other, completed
    money is in the journal; a plan validated before the capture is accepted
    after it.

    Capacity: no run of inventory operations oversells a pool, exceeds a
    channel's or a presale code's cap, or loses count of what is confirmed; a
    claim only moves forward; the figures shown to buyers and staff are the
    quantity the next hold is granted, without wrapping. No seat is ever sold
    twice; the seat map a buyer reads is what a hold is decided by; the orphan
    rule names exactly the seats a request would strand; the best available seats
    are the first run a plain search finds; a claim that was called dead, so that
    its pins could be removed, stays dead.

    Between catalog and inventory: a message that is settled is accounted for, an
    event changes the inventory once, and what a pool offers does not depend on
    the order of delivery. A service that is ready has nothing pending in its
    quarantine; the commands that drain a table end, and work each row once. A
    geometry becomes a projection exactly when its rows with seats have ids of
    their own, numbered in declared order. A seat that is pinned is in the current
    version of its family, a published version does not change, and a pool can be
    provisioned with every published map that is within inventory's read limit. The
    drain of the pins takes none but
    those of dead claims.

    The gate: it admits exactly what the conflict projection, evaluated later in
    any order of arrival, does not hold against the entry. In every run, and
    whatever is done to the chains, a ticket is let in within its allowance and
    an exchanged order admits one side. A scan is retried safely, an offline
    admission is recorded once. The trail of an honest service verifies as long as
    the tickets of an order are of one slot, a verified head commits to its ticket's history, the root of a checkpoint to
    its leaves, and the offline audit accepts a trail exactly when the gate
    accepts each of its tickets.

    The order: whatever requests, retries and workers run, in any order, an order ends
    once, is refunded, voided or exchanged but never two of these, is refunded for no
    more than was sold, and owes exactly one event, which says what its row says; a row
    that a worker has leased is in no other worker's batch. Whatever the other services
    answer: a hold is asked and a row inserted at the quoted price of the claim that was
    taken; a checkout charges once, for places it holds, completes only what is paid,
    and gives places back only on a payment that failed; an exchange moves the
    difference once and journals both legs before it settles; a refund voids tickets only
    once the money is back, and returns places only once the tickets are void; the
    recovery releases a seat only with proof that no money is live, and gives every claim
    back unless the statement that does fails, which leaves it to its lease; an exchange is unwound only without money. What
    a checkout charges, payments can settle from the stored snapshot.

    ** Bounds and fuel

    [Sha256.blocks] takes sixteen words per unit of fuel and gets one unit per
    word of the padded message; [Format.trim_with] drops at least one byte per
    unit and gets one per byte of its text; the loops of the resolvers, the allocation and the
    ledger are structural in the list they range over. None of them can run out,
    so no theorem carries a hypothesis on fuel. A handler is a finite tree of
    statements; an interleaving is a sequence of steps of any length over any
    number of handlers. A run of the inventory is a finite list of operations of
    any length, and so is one of the gate. The backfill of access takes one batch
    per unit of fuel and gets one unit per ticket. The commands that drain a table
    page by page get one unit per row and one for the page that is empty; the
    start of the service makes the three attempts the code makes. A protocol of commerce
    is a finite tree: its batches are lists, and a pass over a queue of reversals takes
    at most 64 batches, which is the code's own bound. Where a property needs that the transactions of a pool take its
    lock in the order they read [now()], it says so, and an example shows the run
    that breaks it otherwise.

    ** What is not modelled, and why

    JSON decoding, authentication, routing, metrics and configuration: transport
    around the decoded request. The provider adapters (Stripe, the fake): code
    over a remote service; the handlers are proved for any provider that does not
    deny a charge it captured. The SQL that loads candidate rules: the resolvers
    take the loaded rules, in any order. Generated API types, the gateway and the
    web client: glue. Decoding is an argument where the code branches on it: a body
    or a message is a decoded value or undecodable, and so it is in the consumer.
    The binding of streams and durable consumers, and the event catalog emits of a
    publication: the deliveries a run quantifies over stand for them. The tables of
    organizers that catalog's rows refer to. The Ed25519 primitives and the generation of UUIDs: classes
    with the laws the code relies on, and executable instances of them for the
    witnesses. Of access, the queue that publishes owed alarms, and the HTTP
    server, devices and timeouts of the scanners. Statements other than those of one
    pool's transactions are not interleaved inside them, nor, in access and commerce,
    those of one ticket's or order's: the row lock excludes it. The change and checkpoint
    ids of access are places in their tables, as the sequences of one writer at a time
    give them out. Of catalog, the lifecycle of slots, its transitions and public reads:
    SQL over tables that no other modelled part writes. Of commerce: the partner routes
    and the staff sale, which put a credential around the same reserve and checkout; the
    cancellation run, which refunds order by order through [RefundService] from tables
    of its own; customer accounts, the claim of a past order, the wallet and the mailers,
    which read orders and do not move them; and the gauges. *)

From Stdlib Require Import OrdersEx.
From Stdlib Require Export ZArith Lia String.
From stdpp Require Export base tactics list sorting strings gmap countable.
#[global] Open Scope Z_scope.

(** ** Results *)

(** A Go function that returns [(T, error)] is a function into [result E T]:
    [Ok] is a nil error, [Err] carries the error value. *)
Inductive result (E T : Type) : Type :=
| Ok (x : T)
| Err (e : E).
Arguments Ok {E T} _.
Arguments Err {E T} _.

#[export] Instance result_ret E : MRet (result E) := λ T x, Ok x.
#[export] Instance result_bind E : MBind (result E) :=
  λ T U k m, match m with Ok x => k x | Err e => Err e end.
#[export] Instance result_fmap E : FMap (result E) :=
  λ T U f m, match m with Ok x => Ok (f x) | Err e => Err e end.

#[export] Instance result_eq_dec {E T} `{EqDecision E, EqDecision T} : EqDecision (result E T).
Proof. solve_decision. Defined.

(** [if bad then return err], the guard that opens most Go functions. *)
Definition refuse_if {E} (b : bool) (e : E) : result E unit :=
  if b then Err e else Ok tt.

Definition is_ok {E T} (m : result E T) : bool :=
  match m with Ok _ => true | Err _ => false end.

Lemma bind_Ok {E T U} (m : result E T) (k : T → result E U) y :
  (m ≫= k) = Ok y ↔ ∃ x, m = Ok x ∧ k x = Ok y.
Proof. destruct m; cbn; naive_solver. Qed.

Lemma bind_Err {E T U} (m : result E T) (k : T → result E U) e :
  m ≫= k = Err e ↔ m = Err e ∨ ∃ x, m = Ok x ∧ k x = Err e.
Proof. destruct m as [x|e']; cbn; naive_solver. Qed.

Lemma refuse_if_Ok {E} b (e : E) u : refuse_if b e = Ok u ↔ b = false.
Proof. destruct b, u; cbn; naive_solver. Qed.

(** Opens every [bind], guard, [if] and [match] of a hypothesis that says a
    computation succeeded. *)
Ltac ok_step :=
  match goal with
  | H : Err _ = Ok _ |- _ => discriminate H
  | H : Ok _ = Err _ |- _ => discriminate H
  | H : Ok _ = Ok _ |- _ => injection H as H; subst
  | H : (_ ≫= _) = Ok _ |- _ => apply bind_Ok in H as (? & ? & H)
  | H : refuse_if _ _ = Ok _ |- _ => apply refuse_if_Ok in H
  | H : (if ?b then _ else _) = Ok _ |- _ => destruct b eqn:?
  | H : match ?m with _ => _ end = Ok _ |- _ => destruct m eqn:?
  | H : (let '_ := ?m in _) = Ok _ |- _ => destruct m eqn:?
  end.
Ltac ok_inv := repeat (ok_step; cbn beta iota in *; try discriminate).

(** Turns boolean facts about [Z], [&&], [||] and [negb] into propositions. *)
Ltac zbool :=
  repeat match goal with
  | H : (_ && _) = true |- _ => apply andb_prop in H as [? ?]
  | H : (_ && _) = false |- _ => apply andb_false_iff in H
  | H : (_ || _) = false |- _ => apply orb_false_elim in H as [? ?]
  | H : (_ || _) = true |- _ => apply orb_true_iff in H
  | H : negb _ = true |- _ => apply negb_true_iff in H
  | H : negb _ = false |- _ => apply negb_false_iff in H
  | H : (_ <? _) = true |- _ => apply Z.ltb_lt in H
  | H : (_ <? _) = false |- _ => apply Z.ltb_ge in H
  | H : (_ <=? _) = true |- _ => apply Z.leb_le in H
  | H : (_ <=? _) = false |- _ => apply Z.leb_gt in H
  | H : (_ =? _) = true |- _ => apply Z.eqb_eq in H
  | H : (_ =? _) = false |- _ => apply Z.eqb_neq in H
  | H : (_ >? _) = _ |- _ => rewrite Z.gtb_ltb in H
  | H : (_ >=? _) = _ |- _ => rewrite Z.geb_leb in H
  | H : bool_decide _ = true |- _ => apply bool_decide_eq_true in H
  | H : bool_decide _ = false |- _ => apply bool_decide_eq_false in H
  end.

(** ** Machine integers *)

(** A Go [int64] or [int32] is a [Z] in range; the arithmetic operators wrap.
    Division truncates toward zero, as Go's does. *)
Definition MaxInt64 : Z := 9223372036854775807.
Definition MinInt64 : Z := -9223372036854775808.
Definition MaxInt32 : Z := 2147483647.
Definition MinInt32 : Z := -2147483648.

Definition int64 (z : Z) : Prop := MinInt64 ≤ z ≤ MaxInt64.
Definition int32 (z : Z) : Prop := MinInt32 ≤ z ≤ MaxInt32.

Definition wrap64 (z : Z) : Z := (z - MinInt64) `mod` 18446744073709551616 + MinInt64.
Definition wrap32 (z : Z) : Z := (z - MinInt32) `mod` 4294967296 + MinInt32.

Definition add64 (a b : Z) : Z := wrap64 (a + b).
Definition sub64 (a b : Z) : Z := wrap64 (a - b).
Definition mul64 (a b : Z) : Z := wrap64 (a * b).
Definition quot64 (a b : Z) : Z := wrap64 (Z.quot a b).
Definition rem64 (a b : Z) : Z := Z.rem a b.

Lemma wrap64_id z : int64 z → wrap64 z = z.
Proof. unfold int64, wrap64, MinInt64, MaxInt64. intros. rewrite Z.mod_small; lia. Qed.

Lemma wrap64_range z : int64 (wrap64 z).
Proof.
  unfold int64, wrap64, MinInt64, MaxInt64.
  pose proof (Z.mod_pos_bound (z - -9223372036854775808) 18446744073709551616). lia.
Qed.

Lemma wrap32_id z : int32 z → wrap32 z = z.
Proof. unfold int32, wrap32, MinInt32, MaxInt32. intros. rewrite Z.mod_small; lia. Qed.

Lemma int32_int64 z : int32 z → int64 z.
Proof. unfold int32, int64, MinInt32, MaxInt32, MinInt64, MaxInt64. lia. Qed.

Lemma wrap64_add a b : add64 (wrap64 a) b = wrap64 (a + b).
Proof.
  unfold add64, wrap64, MinInt64. f_equal.
  replace ((a - -9223372036854775808) mod 18446744073709551616 + -9223372036854775808 + b - -9223372036854775808)
    with ((a - -9223372036854775808) mod 18446744073709551616 + b) by ring.
  rewrite Zplus_mod_idemp_l. f_equal. ring.
Qed.

Lemma add64_id a b : int64 (a + b) → add64 a b = a + b.
Proof. apply wrap64_id. Qed.
Lemma sub64_id a b : int64 (a - b) → sub64 a b = a - b.
Proof. apply wrap64_id. Qed.
Lemma mul64_id a b : int64 (a * b) → mul64 a b = a * b.
Proof. apply wrap64_id. Qed.

Lemma quot64_id a b : int64 a → 0 < b → quot64 a b = Z.quot a b.
Proof.
  intros Ha Hb. apply wrap64_id. unfold int64, MinInt64, MaxInt64 in *.
  destruct (Z.eq_dec b 1) as [->|]; [rewrite Z.quot_1_r; lia|].
  assert (Z.abs (Z.quot a b) ≤ Z.abs a).
  { rewrite <-Z.quot_abs by lia.
    rewrite (Z.abs_eq b) by lia. apply Z.quot_le_upper_bound; nia. }
  assert (a = MinInt64 → Z.abs (Z.quot a b) ≤ 4611686018427387904).
  { intros ->. rewrite <-Z.quot_abs by lia. rewrite (Z.abs_eq b) by lia.
    apply Z.quot_le_upper_bound; unfold MinInt64; lia. }
  unfold MinInt64 in *. lia.
Qed.

(** The decomposition [floor(a*b/10000) = (a/10000)*b + floor((a mod 10000)*b/10000)]. *)
Lemma rate_decomposition a b : 0 ≤ a → 0 ≤ b →
  a * b / 10000 = a / 10000 * b + a mod 10000 * b / 10000.
Proof.
  intros. rewrite (Z.div_mod a 10000) at 1 by lia.
  replace ((10000 * (a / 10000) + a mod 10000) * b)
    with ((a / 10000 * b) * 10000 + a mod 10000 * b) by ring.
  rewrite Z.div_add_l by lia. done.
Qed.

Lemma int64_nonneg z : 0 ≤ z ≤ MaxInt64 → int64 z.
Proof. unfold int64, MinInt64. lia. Qed.

(** Products of a quotient and of a remainder by 10000 with a rate of at most
    10000 stay in range. *)
Lemma bps_products_int64 x y b :
  0 ≤ x → 0 ≤ y < 10000 → 0 ≤ b ≤ 10000 → 10000 * x ≤ MaxInt64 → int64 (x * b) ∧ int64 (y * b).
Proof.
  intros. split; apply int64_nonneg; (split; [nia|]).
  - etrans; [apply (Z.mul_le_mono_nonneg_l _ 10000); lia|lia].
  - unfold MaxInt64. nia.
Qed.

Create Rewrite HintDb int64.
#[export] Hint Rewrite add64_id sub64_id mul64_id using (unfold int64, MinInt64, MaxInt64 in *; lia) : int64.
Create HintDb go discriminated.
Create Rewrite HintDb go_sums.
#[export] Hint Resolve wrap64_range int32_int64 int64_nonneg : go.

(** ** Orders used as sort and ranking keys *)

(** What Go's [sort] asks of its [less]: a strict weak order. *)
Class LessOrder {A} (less : A → A → bool) : Prop := {
  less_asym a b : less a b = true → less b a = false;
  less_ntrans a b c : less b a = false → less c b = false → less c a = false;
}.

Lemma less_irrefl {A} (less : A → A → bool) `{!LessOrder less} a : less a a = false.
Proof. destruct (less a a) eqn:E; [|done]. by rewrite (less_asym _ _ E) in E. Qed.

Lemma less_trans {A} (less : A → A → bool) `{!LessOrder less} a b c :
  less a b = true → less b c = true → less a c = true.
Proof.
  intros Hab Hbc. destruct (less a c) eqn:Hac; [done|].
  pose proof (less_asym _ _ Hbc) as Hcb.
  rewrite (less_ntrans b c a Hcb Hac) in Hab. done.
Qed.

(** Go compares strings byte by byte, and so does [String.ltb]. *)
#[export] Instance string_less : LessOrder String.ltb.
Proof.
  assert (Hc : ∀ a b, String.ltb a b = true ↔ String_as_OT.lt a b).
  { intros a b. unfold String.ltb, String_as_OT.lt.
    change (String_as_OT.compare a b) with (String.compare a b).
    destruct (String.compare a b); naive_solver. }
  pose proof String_as_OT.lt_strorder as [Hirr Htr].
  assert (Htri : ∀ a b, String.ltb a b = false → a = b ∨ String.ltb b a = true).
  { intros a b. unfold String.ltb. rewrite (String.compare_antisym b a).
    destruct (String.compare a b) eqn:E; cbn; intros; [left|done|by right].
    by apply String.compare_eq_iff. }
  split.
  - intros a b Hab. destruct (String.ltb b a) eqn:Hba; [|done].
    apply Hc in Hab, Hba. destruct (Hirr a). by eapply Htr.
  - intros a b c Hba Hcb. destruct (String.ltb c a) eqn:Hca; [|done].
    destruct (Htri _ _ Hba) as [->|Hab]; [congruence|].
    destruct (Htri _ _ Hcb) as [->|Hbc]; [congruence|].
    apply Hc in Hca, Hab, Hbc. destruct (Hirr c).
    eapply Htr; [exact Hca|]. by eapply Htr.
Qed.

Lemma string_ltb_total a b : String.ltb a b = false → String.ltb b a = false → a = b.
Proof.
  unfold String.ltb. rewrite (String.compare_antisym b a).
  destruct (String.compare a b) eqn:E; cbn; try done.
  intros _ _. by apply String.compare_eq_iff.
Qed.

#[export] Instance Zltb_less : LessOrder Z.ltb.
Proof. split; intros; rewrite ?Z.ltb_lt, ?Z.ltb_ge in *; lia. Qed.

(** Orders pulled back along a key, and lexicographic combinations. *)
Definition on_key {A B} (k : A → B) (less : B → B → bool) (a b : A) : bool := less (k a) (k b).

#[export] Instance on_key_less {A B} (k : A → B) less : LessOrder less → LessOrder (on_key k less).
Proof. intros [Ha Ht]. split; unfold on_key; eauto. Qed.

Definition lex {A} (l1 l2 : A → A → bool) (a b : A) : bool :=
  if l1 a b then true else if l1 b a then false else l2 a b.

#[export] Instance lex_less {A} (l1 l2 : A → A → bool) :
  LessOrder l1 → LessOrder l2 → LessOrder (lex l1 l2).
Proof.
  intros H1 H2. unfold lex. split.
  - intros a b. destruct (l1 a b) eqn:E1.
    + by rewrite (less_asym _ _ E1).
    + destruct (l1 b a) eqn:E2; [done|]. apply less_asym.
  - intros a b c. destruct (l1 b a) eqn:Eba; [done|].
    destruct (l1 c b) eqn:Ecb; [done|].
    rewrite (less_ntrans a b c Eba Ecb).
    destruct (l1 a b) eqn:Eab.
    + intros _ _. destruct (l1 a c) eqn:Eac; [done|].
      rewrite (less_ntrans b c a Ecb Eac) in Eab. done.
    + destruct (l1 b c) eqn:Ebc.
      * intros _ _. destruct (l1 a c) eqn:Eac; [done|].
        rewrite (less_ntrans c a b Eac Eba) in Ebc. done.
      * intros Hb Hc. destruct (l1 a c) eqn:Eac; [done|].
        by apply (less_ntrans a b c).
Qed.

(** ** Sorting *)

(** [sort.Slice] and [sort.SliceStable] as insertion sort. [sort.Slice] may
    order equal elements in any way; [isort_unique] says that makes no
    difference when no two distinct elements compare equal. *)
Section Sort.
Context {A : Type} (less : A → A → bool).

Fixpoint insert_sorted (x : A) (l : list A) : list A :=
  match l with
  | [] => [x]
  | y :: l' => if less y x then y :: insert_sorted x l' else x :: y :: l'
  end.

Definition isort (l : list A) : list A := foldr insert_sorted [] l.

(** [a] may stand before [b]. *)
Definition not_after (a b : A) : Prop := less b a = false.

Lemma insert_sorted_perm x l : insert_sorted x l ≡ₚ x :: l.
Proof. induction l as [|y l IH]; cbn; [done|]. destruct (less y x); [rewrite IH; apply Permutation_swap|done]. Qed.

Lemma isort_perm l : isort l ≡ₚ l.
Proof. induction l as [|x l IH]; cbn; [done|]. by rewrite insert_sorted_perm, IH. Qed.

Lemma elem_of_isort x l : x ∈ isort l ↔ x ∈ l.
Proof. by rewrite isort_perm. Qed.

(** A filtered-out element leaves no trace on the sorted, filtered list. *)
Lemma filter_insert_sorted (f : A → bool) x l :
  f x = false → List.filter f (insert_sorted x l) = List.filter f l.
Proof.
  intros Hf. induction l as [|y l IH]; cbn; [by rewrite Hf|].
  destruct (less y x); cbn; [by rewrite IH|by rewrite Hf].
Qed.

Context `{!LessOrder less}.

Lemma insert_sorted_sorted x l :
  StronglySorted not_after l → StronglySorted not_after (insert_sorted x l).
Proof.
  induction 1 as [|y l Hl IH Hy]; cbn; [repeat constructor|].
  destruct (less y x) eqn:E.
  - constructor; [done|]. rewrite insert_sorted_perm. constructor; [|done]. by apply less_asym.
  - constructor; [by constructor|]. constructor; [done|].
    rewrite List.Forall_forall in *. intros z Hz. apply (less_ntrans x y z); [done|by apply Hy].
Qed.

Lemma isort_sorted l : StronglySorted not_after (isort l).
Proof. induction l; cbn; [constructor|]. by apply insert_sorted_sorted. Qed.

(** Selecting commutes with sorting. *)
Lemma filter_insert_kept (f : A → bool) x l :
  f x = true → StronglySorted not_after l →
  List.filter f (insert_sorted x l) = insert_sorted x (List.filter f l).
Proof.
  intros Hf. induction 1 as [|y l Hl IH Hy]; cbn; [by rewrite Hf|].
  destruct (less y x) eqn:E; cbn.
  - destruct (f y); cbn; [by rewrite E, IH|done].
  - rewrite Hf. assert (Hz : ∀ z, z ∈ List.filter f (y :: l) → less z x = false).
    { intros z Hz. apply list_elem_of_In, List.filter_In in Hz as [[<-|Hz] _]; [done|].
      rewrite List.Forall_forall in Hy. apply (less_ntrans x y z); [done|by apply Hy]. }
    change (if f y then y :: List.filter f l else List.filter f l) with (List.filter f (y :: l)).
    destruct (List.filter f (y :: l)) as [|z r]; [done|]. cbn. rewrite (Hz z); [done|apply list_elem_of_here].
Qed.

Lemma filter_isort (f : A → bool) l : List.filter f (isort l) = isort (List.filter f l).
Proof.
  induction l as [|x l IH]; [done|].
  change (isort (x :: l)) with (insert_sorted x (isort l)).
  destruct (f x) eqn:Hf; cbn [List.filter]; rewrite Hf.
  - rewrite filter_insert_kept by (done || apply isort_sorted). by rewrite IH.
  - by rewrite filter_insert_sorted.
Qed.

(** A last element that nothing follows stays last. *)
Lemma isort_snoc l e : (∀ y, y ∈ l → less e y = false) → isort (l ++ [e]) = isort l ++ [e].
Proof.
  intros He. induction l as [|y l IH]; [done|].
  change (insert_sorted y (isort (l ++ [e])) = insert_sorted y (isort l) ++ [e]).
  rewrite IH by (intros; apply He; by apply list_elem_of_further).
  assert (Hey : less e y = false) by apply He, list_elem_of_here. clear IH He.
  induction (isort l) as [|z k IH]; cbn; [by rewrite Hey|]. destruct (less z y); cbn; [by rewrite IH|done].
Qed.

Lemma isort_unique l1 l2 :
  (∀ a b, a ∈ l1 → b ∈ l1 → less a b = false → less b a = false → a = b) →
  l1 ≡ₚ l2 → StronglySorted not_after l2 → isort l1 = l2.
Proof.
  intros Hinj Hp H2.
  apply (StronglySorted_unique_strong not_after); [|apply isort_sorted|done|by rewrite isort_perm].
  intros a b Ha Hb. rewrite elem_of_isort in Ha. rewrite <-Hp in Hb. unfold not_after. auto.
Qed.

Lemma isort_perm_eq l1 l2 :
  (∀ a b, a ∈ l1 → b ∈ l1 → less a b = false → less b a = false → a = b) →
  l1 ≡ₚ l2 → isort l1 = isort l2.
Proof.
  intros Hinj Hp. apply isort_unique; [done|by rewrite isort_perm|apply isort_sorted].
Qed.
End Sort.

Lemma StronglySorted_bool_filter {A} (R : A → A → Prop) (f : A → bool) l :
  StronglySorted R l → StronglySorted R (List.filter f l).
Proof.
  induction 1 as [|x l Hl IH Hx]; cbn; [constructor|]. destruct (f x); [|done].
  constructor; [done|]. rewrite List.Forall_forall in *.
  intros y [Hy _]%List.filter_In. by apply Hx.
Qed.

Lemma StronglySorted_map {A B} (R : B → B → Prop) (f : A → B) l :
  StronglySorted (λ a b, R (f a) (f b)) l → StronglySorted R (map f l).
Proof.
  induction 1 as [|x l Hl IH Hx]; cbn; constructor; [done|].
  rewrite List.Forall_forall in *. intros y (z & <- & Hz)%List.in_map_iff. by apply Hx.
Qed.

(** Sorting commutes with a map that preserves the comparison. *)
Lemma isort_map {A B} (lessA : A → A → bool) (lessB : B → B → bool) (g : A → B) l :
  (∀ a b, lessB (g a) (g b) = lessA a b) → isort lessB (map g l) = map g (isort lessA l).
Proof.
  intros Hg.
  assert (Hins : ∀ x k, insert_sorted lessB (g x) (map g k) = map g (insert_sorted lessA x k)).
  { intros x k. induction k as [|y k IH]; cbn; [done|]. rewrite Hg, IH. by destruct (lessA y x). }
  induction l as [|x l IH]; [done|].
  change (insert_sorted lessB (g x) (isort lessB (map g l)) = map g (insert_sorted lessA x (isort lessA l))).
  by rewrite IH, Hins.
Qed.

Lemma bool_filter_map {A B} (f : A → bool) (h : B → bool) (g : A → B) l :
  (∀ a, h (g a) = f a) → List.filter h (map g l) = map g (List.filter f l).
Proof. intros Hf. induction l as [|x l IH]; cbn; [done|]. rewrite Hf, IH. by destruct (f x). Qed.

Lemma sorted_strings_strict l :
  StronglySorted (not_after String.ltb) l → NoDup l →
  StronglySorted (λ a b, String.ltb a b = true) l.
Proof.
  induction 1 as [|x l Hl IH Hx]; intros Hnd; constructor.
  - apply IH. by inversion Hnd.
  - rewrite List.Forall_forall in *. intros y Hy. specialize (Hx y Hy).
    destruct (String.ltb x y) eqn:E; [done|]. pose proof (string_ltb_total _ _ E Hx) as ->.
    inversion Hnd as [|? ? Hni]; subst. destruct Hni. by apply list_elem_of_In.
Qed.

(** ** Selecting the best element of a list *)

(** [best := x; for _, r := range l { if beats(r, best) { best = r } }] *)
Definition best_of {A} (beats : A → A → bool) (x : A) (l : list A) : A :=
  fold_left (λ w r, if beats r w then r else w) l x.

Lemma best_of_ext {A} (f g : A → A → bool) x l :
  (∀ a b, f a b = g a b) → best_of f x l = best_of g x l.
Proof.
  intros H. unfold best_of. revert x. induction l as [|y l IH]; intros x; cbn; [done|].
  by rewrite H, IH.
Qed.

Section Best.
Context {A : Type} (beats : A → A → bool) `{!LessOrder beats}.

Lemma best_of_elem x l : best_of beats x l ∈ x :: l.
Proof.
  unfold best_of. revert x. induction l as [|y l IH]; intros x; cbn.
  { by apply list_elem_of_singleton. }
  specialize (IH (if beats y x then y else x)). rewrite !elem_of_cons in *.
  destruct (beats y x); tauto.
Qed.

Lemma best_of_unbeaten x l y : y ∈ x :: l → beats y (best_of beats x l) = false.
Proof.
  unfold best_of. revert x y. induction l as [|z l IH]; intros x y Hy; cbn.
  { apply list_elem_of_singleton in Hy as ->. by apply less_irrefl. }
  destruct (beats z x) eqn:E.
  - rewrite !elem_of_cons in Hy. destruct Hy as [->|Hy]; [|by apply IH, elem_of_cons].
    apply (less_ntrans _ z); [apply IH, list_elem_of_here|by apply less_asym].
  - rewrite !elem_of_cons in Hy. destruct Hy as [->|[->|Hy]]; [apply IH, list_elem_of_here| |by apply IH, list_elem_of_further].
    apply (less_ntrans _ x); [apply IH, list_elem_of_here|done].
Qed.

(** Any unbeaten element is the one selected when ties are impossible. *)
Lemma best_of_unique x l w :
  (∀ a b, a ∈ x :: l → b ∈ x :: l → beats a b = false → beats b a = false → a = b) →
  w ∈ x :: l → (∀ y, y ∈ x :: l → beats y w = false) → best_of beats x l = w.
Proof.
  intros Hinj Hw Hmin. apply Hinj; [apply best_of_elem|done| |].
  - apply Hmin, best_of_elem.
  - by apply best_of_unbeaten.
Qed.
End Best.

(** ** Lists *)

#[export] Instance bool_filter_Permutation {A} (f : A → bool) :
  Proper (Permutation ==> Permutation) (List.filter f).
Proof.
  intros l1 l2. induction 1; cbn; repeat case_match; try done.
  - by constructor.
  - apply Permutation_swap.
  - by etrans.
Qed.

Lemma elem_of_bool_filter {A} (f : A → bool) l x : x ∈ List.filter f l ↔ x ∈ l ∧ f x = true.
Proof. rewrite !list_elem_of_In. apply List.filter_In. Qed.

Lemma bool_filter_split {A} (f : A → bool) l :
  l ≡ₚ List.filter f l ++ List.filter (λ x, negb (f x)) l.
Proof.
  induction l as [|x l IH]; cbn; [done|]. destruct (f x); cbn.
  - by constructor.
  - rewrite <-Permutation_middle. by constructor.
Qed.

Fixpoint sumZ (l : list Z) : Z := match l with [] => 0 | x :: l' => x + sumZ l' end.

Lemma sumZ_app l1 l2 : sumZ (l1 ++ l2) = sumZ l1 + sumZ l2.
Proof. induction l1; cbn; lia. Qed.

#[export] Instance sumZ_Permutation : Proper (Permutation ==> eq) sumZ.
Proof. induction 1; cbn; lia. Qed.

Lemma sumZ_nonneg l : Forall (λ x, 0 ≤ x) l → 0 ≤ sumZ l.
Proof. induction 1; cbn; lia. Qed.

Lemma sumZ_elem l x : Forall (λ x, 0 ≤ x) l → x ∈ l → x ≤ sumZ l.
Proof.
  induction 1 as [|y l Hy Hl IH]; [by intros ?%elem_of_nil|].
  pose proof (sumZ_nonneg l Hl). intros [->|Hx]%elem_of_cons; cbn; [lia|]. specialize (IH Hx). lia.
Qed.

#[export] Hint Rewrite @sumZ_app : go_sums.
#[export] Hint Resolve StronglySorted_bool_filter StronglySorted_map : go.
#[export] Hint Resolve sumZ_nonneg less_irrefl isort_sorted best_of_elem : go.

(** ** Searching a list that grows *)

Lemma find_prefix {A} (P : A → bool) l l' x :
  l `prefix_of` l' → List.find P l = Some x → List.find P l' = Some x.
Proof.
  intros [k ->]. induction l as [|y l IH]; [done|]. cbn. destruct (P y); [done|exact IH].
Qed.

Lemma find_snoc_new {A} (P : A → bool) l x : List.find P l = None → P x = true → List.find P (l ++ [x]) = Some x.
Proof. intros Hn Hx. induction l as [|y l IH]; cbn in *; [by rewrite Hx|]. destruct (P y); [done|auto]. Qed.

(** ** Loops that may return early *)

Fixpoint fold_result {E S A} (step : S → A → result E S) (s : S) (l : list A) : result E S :=
  match l with
  | [] => Ok s
  | x :: l' => match step s x with Ok s' => fold_result step s' l' | Err e => Err e end
  end.

Lemma fold_result_app {E S A} (step : S → A → result E S) s l1 l2 :
  fold_result step s (l1 ++ l2) =
  match fold_result step s l1 with Ok s' => fold_result step s' l2 | Err e => Err e end.
Proof. revert s. induction l1 as [|x l1 IH]; intros s; cbn; [done|]. by destruct (step s x). Qed.

(** A loop over elements of several keys, with one state per key, is the loops
    over the elements of each key. *)
Section KeyedFold.
Context {E S A K : Type} `{Countable K} (key : A → K) (init : S) (step : S → A → result E S).

Definition keyed_step (m : gmap K S) (x : A) : result E (gmap K S) :=
  match step (default init (m !! key x)) x with
  | Ok s => Ok (<[key x := s]> m)
  | Err e => Err e
  end.

Definition of_key (k : K) (l : list A) : list A := List.filter (λ x, bool_decide (key x = k)) l.

Lemma keyed_fold_Ok l m m' k :
  fold_result keyed_step m l = Ok m' →
  fold_result step (default init (m !! k)) (of_key k l) = Ok (default init (m' !! k)) ∧
  (of_key k l = [] → m' !! k = m !! k) ∧ (of_key k l ≠ [] → is_Some (m' !! k)).
Proof.
  revert m. induction l as [|x l IH]; intros m; cbn; [by intros [= ->]|].
  unfold keyed_step at 1. destruct (step _ x) as [s|] eqn:Es; [|done]. intros Hm.
  destruct (IH _ Hm) as (H1 & H2 & H3). case_bool_decide as Hk; subst; cbn.
  - rewrite Es. rewrite lookup_insert_eq in H1, H2. split; [exact H1|]. split; [done|]. intros _.
    destruct (decide (of_key (key x) l = [])) as [Hn|Hn]; [rewrite (H2 Hn); eauto|auto].
  - rewrite lookup_insert_ne in H1, H2 by done. auto.
Qed.

Lemma keyed_fold_exists l m :
  (∀ k, ∃ s, fold_result step (default init (m !! k)) (of_key k l) = Ok s) →
  ∃ m', fold_result keyed_step m l = Ok m'.
Proof.
  revert m. induction l as [|x l IH]; intros m Hk; cbn; [by eauto|].
  destruct (Hk (key x)) as [s Hs]. cbn in Hs. rewrite bool_decide_true in Hs by done. cbn in Hs.
  unfold keyed_step at 1. destruct (step _ x) as [s1|] eqn:Es; [|done]. apply IH. intros k.
  destruct (decide (key x = k)) as [<-|Hne].
  - rewrite lookup_insert_eq. eauto.
  - rewrite lookup_insert_ne by done. specialize (Hk k). cbn in Hk.
    by rewrite bool_decide_false in Hk by done.
Qed.
End KeyedFold.

(** ** Maps of slices *)

(** [m[k] = append(m[k], x)] on a Go [map[string][]T]. *)
Definition append_at {A} (m : gmap string (list A)) (k : string) (x : A) : gmap string (list A) :=
  <[k := default [] (m !! k) ++ [x]]> m.

(** [for _, x := range l { m[key(x)] = append(m[key(x)], x) }]. *)
Definition group_by {A} (key : A → string) (l : list A) : gmap string (list A) :=
  fold_left (λ m x, append_at m (key x) x) l ∅.

Lemma group_by_snoc {A} (key : A → string) l x :
  group_by key (l ++ [x]) = append_at (group_by key l) (key x) x.
Proof. unfold group_by. by rewrite fold_left_app. Qed.

Lemma group_by_lookup {A} (key : A → string) l k :
  default [] (group_by key l !! k) = List.filter (λ x, bool_decide (key x = k)) l.
Proof.
  induction l as [|x l IH] using rev_ind; [done|].
  rewrite group_by_snoc, List.filter_app; cbn. unfold append_at.
  case_bool_decide as Hk; subst.
  - by rewrite lookup_insert_eq, <-IH.
  - by rewrite lookup_insert_ne, app_nil_r.
Qed.

Lemma group_by_is_Some {A} (key : A → string) l k :
  is_Some (group_by key l !! k) ↔ ∃ x, x ∈ l ∧ key x = k.
Proof.
  induction l as [|x l IH] using rev_ind.
  { split; [by intros [? ?]|]. by intros (? & ?%elem_of_nil & _). }
  rewrite group_by_snoc. unfold append_at. setoid_rewrite elem_of_app.
  destruct (decide (key x = k)) as [<-|Hk].
  - rewrite lookup_insert_eq. split; [|by eauto]. intros _. exists x. split; [right; by apply list_elem_of_singleton|done].
  - rewrite lookup_insert_ne, IH by done. split; [naive_solver|].
    intros (y & [Hy|Hy%list_elem_of_singleton] & Hky); [by eauto|congruence].
Qed.

(** Appending what is not there yet: a [seen] set beside a slice. *)
Definition note {A} `{EqDecision A} (l : list A) (x : A) : list A :=
  if bool_decide (x ∈ l) then l else l ++ [x].

Definition note_all {A} `{EqDecision A} (l : list A) (xs : list A) : list A := fold_left note xs l.

Lemma elem_of_note_all {A} `{EqDecision A} xs (l : list A) x :
  x ∈ note_all l xs ↔ x ∈ l ∨ x ∈ xs.
Proof.
  unfold note_all. revert l. induction xs as [|y xs IH]; intros l; cbn.
  - rewrite elem_of_nil. tauto.
  - rewrite IH, elem_of_cons. unfold note. case_bool_decide; rewrite ?elem_of_app, ?list_elem_of_singleton; naive_solver.
Qed.

Lemma note_all_NoDup {A} `{EqDecision A} xs (l : list A) : NoDup l → NoDup (note_all l xs).
Proof.
  unfold note_all. revert l. induction xs as [|y xs IH]; intros l Hl; cbn; [done|].
  apply IH. unfold note. case_bool_decide as Hy; [done|].
  apply list.NoDup_app. split_and!; [done| |apply NoDup_singleton].
  intros x Hx ->%list_elem_of_singleton. done.
Qed.

(** [uuid.UUID] comes from a package outside the repository. The code compares
    values, uses them as map keys, renders them with [String()], and parses
    text with [uuid.Parse]; distinct values render to distinct text. *)
Class UUID : Type := {
  uuid : Type;
  uuid_eq_dec :: EqDecision uuid;
  uuid_countable :: Countable uuid;
  uuid_Nil : uuid;
  uuid_String : uuid → string;
  uuid_Parse : string → option uuid;
}.

(** The documented behaviour the properties rely on. *)
Class UUIDLaws `{UUID} : Prop := {
  uuid_String_inj : Inj (=) (=) uuid_String;
}.
#[export] Existing Instance uuid_String_inj.

(** The order of the canonical text, the last tie-break of every comparator. *)
Definition uuid_ltb `{UUID} (a b : uuid) : bool := String.ltb (uuid_String a) (uuid_String b).

#[export] Instance uuid_less `{UUID} : LessOrder uuid_ltb.
Proof. apply (on_key_less uuid_String String.ltb), _. Qed.

Lemma uuid_ltb_total `{UUIDLaws} a b : uuid_ltb a b = false → uuid_ltb b a = false → a = b.
Proof. intros H1 H2. apply (inj uuid_String). by apply string_ltb_total. Qed.

(** Two lists sorted by id that carry the same ids carry them in the same order. *)
Lemma sorted_ids_eq `{UUIDLaws} {A} (f : A → uuid) (l1 l2 : list A) :
  StronglySorted (not_after (on_key f uuid_ltb)) l1 →
  StronglySorted (not_after (on_key f uuid_ltb)) l2 →
  l1 ≡ₚ l2 → map f l1 = map f l2.
Proof.
  intros H1 H2 Hp. apply (StronglySorted_unique_strong (not_after uuid_ltb)).
  - intros a b _ _. unfold not_after. intros. by apply uuid_ltb_total.
  - by apply StronglySorted_map.
  - by apply StronglySorted_map.
  - by apply Permutation_map.
Qed.

Lemma sorted_by_id_eq `{UUIDLaws} {A} (f : A → uuid) (l1 l2 : list A) :
  StronglySorted (not_after (on_key f uuid_ltb)) l1 →
  StronglySorted (not_after (on_key f uuid_ltb)) l2 →
  l1 ≡ₚ l2 → NoDup (map f l1) → l1 = l2.
Proof.
  intros H1 H2 Hp Hnd. pose proof (sorted_ids_eq f l1 l2 H1 H2 Hp) as Hm.
  apply (StronglySorted_unique_strong (not_after (on_key f uuid_ltb))); [|done..].
  intros a b Ha Hb Hab Hba. rewrite <-Hp in Hb.
  assert (f a = f b) as Hf by (by apply uuid_ltb_total).
  apply list_elem_of_lookup in Ha as [i Hi], Hb as [j Hj].
  assert (i = j) as ->; [|congruence].
  eapply NoDup_lookup; [exact Hnd|..]; change (map f l1) with (f <$> l1);
    rewrite list_lookup_fmap, ?Hi, ?Hj; cbn; [done|by rewrite Hf].
Qed.

(** Taking out the one element that carries an id. *)
Lemma NoDup_map_eq {A B} (f : A → B) l a b : NoDup (map f l) → a ∈ l → b ∈ l → f a = f b → a = b.
Proof.
  intros Hnd Ha Hb Hf. apply list_elem_of_lookup in Ha as [i Hi], Hb as [j Hj].
  assert (i = j) as ->; [|congruence]. eapply NoDup_lookup; [exact Hnd|..]; change (map f l) with (f <$> l);
    rewrite list_lookup_fmap, ?Hi, ?Hj; cbn; [done|by rewrite Hf].
Qed.

Lemma NoDup_map_filter {A B} (f : A → B) g l : NoDup (map f l) → NoDup (map f (List.filter g l)).
Proof.
  induction l as [|x l IH]; cbn; [done|]. rewrite list.NoDup_cons. intros [Hni Hnd].
  destruct (g x); cbn; [|by apply IH]. rewrite list.NoDup_cons. split; [|by apply IH].
  intros Hin. apply Hni. apply list_elem_of_In in Hin. apply List.in_map_iff in Hin as (y & <- & Hy).
  apply List.filter_In in Hy as [Hy _]. by apply list_elem_of_In, List.in_map.
Qed.

Lemma bool_filter_all {A} (g : A → bool) l : (∀ x, x ∈ l → g x = true) → List.filter g l = l.
Proof.
  induction l as [|x l IH]; cbn; intros H; [done|].
  rewrite (H x), IH; [done| |apply list_elem_of_here]. intros y Hy. apply H. by apply list_elem_of_further.
Qed.

Lemma take_out_by_id {A} `{EqDecision B} (f : A → B) l w :
  NoDup (map f l) → w ∈ l →
  l ≡ₚ w :: List.filter (λ r, negb (bool_decide (f r = f w))) l.
Proof.
  induction l as [|x l IH]; cbn; [by intros _ ?%elem_of_nil|].
  rewrite list.NoDup_cons. intros [Hni Hnd] [->|Hw]%elem_of_cons.
  - rewrite bool_decide_true by done; cbn. rewrite bool_filter_all; [done|].
    intros y Hy. rewrite bool_decide_false; [done|]. intros Hf. apply Hni. rewrite <-Hf.
    by apply list_elem_of_In, List.in_map, list_elem_of_In.
  - rewrite bool_decide_false; cbn.
    + rewrite Permutation_swap. constructor. by apply IH.
    + intros Hf. apply Hni. rewrite Hf. by apply list_elem_of_In, List.in_map, list_elem_of_In.
Qed.

Definition is_None {A} (o : option A) : bool := match o with None => true | Some _ => false end.

(** A [time.Time] is an instant in nanoseconds; [Before] is [<]. The zero
    value is the start of year 1. *)
Definition time : Type := Z.
Definition before (a b : time) : bool := a <? b.
Definition zero_time : time := -62135596800000000000.
Definition is_zero_time (t : time) : bool := t =? zero_time.

(** A concrete instance for the witnesses: identifiers that are their own text. *)
Definition text_uuid : UUID := {|
  uuid := string;
  uuid_Nil := "00000000-0000-0000-0000-000000000000"%string;
  uuid_String := λ s, s;
  uuid_Parse := λ s, if (String.length s =? 36)%nat then Some s else None;
|}.

Lemma text_uuid_laws : @UUIDLaws text_uuid.
Proof. split. intros x y H. exact H. Qed.
