(* ===== verification/Text.v ===== *)
(** * Newline-separated text

    The plan digest and the journal's canonical form are lists of fields joined
    by newlines. Splitting undoes joining as long as no field carries one. Also the
    currency codes, and the characters of a text as the databases count them. *)

From S2P Require Import Prelude.

Definition newline_char : Ascii.ascii := Ascii.ascii_of_nat 10.
Definition newline : string := String newline_char "".

(** [strings.Join]. *)
Fixpoint join (sep : string) (l : list string) : string :=
  match l with
  | [] => ""
  | [x] => x
  | x :: l' => x +:+ sep +:+ join sep l'
  end.

Fixpoint one_line (s : string) : bool :=
  match s with
  | EmptyString => true
  | String c s' => negb (bool_decide (c = newline_char)) && one_line s'
  end.

Fixpoint split_lines (s : string) : list string :=
  match s with
  | EmptyString => [EmptyString]
  | String c s' =>
      if bool_decide (c = newline_char) then EmptyString :: split_lines s'
      else match split_lines s' with
           | h :: t => String c h :: t
           | [] => [String c EmptyString]
           end
  end.

Lemma split_lines_one x : one_line x = true → split_lines x = [x].
Proof.
  induction x as [|c x IH]; cbn; [done|]. case_bool_decide; [done|]. cbn. intros Hx. by rewrite IH.
Qed.

Lemma split_lines_app x y :
  one_line x = true → split_lines (x +:+ newline +:+ y) = x :: split_lines y.
Proof.
  induction x as [|c x IH]; intros Hx; [done|].
  cbn [one_line] in Hx. apply andb_prop in Hx as [Hc Hx]. specialize (IH Hx).
  apply negb_true_iff in Hc.
  change (String c x +:+ newline +:+ y) with (String c (x +:+ newline +:+ y)).
  cbn [split_lines]. by rewrite Hc, IH.
Qed.

Lemma split_lines_join l :
  l ≠ [] → Forall (λ x, one_line x = true) l → split_lines (join newline l) = l.
Proof.
  intros Hne Hall. induction Hall as [|x [|y l] Hx Hl IH]; [done|by apply split_lines_one|].
  change (join newline (x :: y :: l)) with (x +:+ newline +:+ join newline (y :: l)). rewrite split_lines_app by done. by rewrite IH.
Qed.

Lemma join_inj l1 l2 :
  l1 ≠ [] → l2 ≠ [] → Forall (λ x, one_line x = true) l1 → Forall (λ x, one_line x = true) l2 →
  join newline l1 = join newline l2 → l1 = l2.
Proof. intros H1 H2 F1 F2 E. by rewrite <-(split_lines_join l1), <-(split_lines_join l2), E. Qed.

Lemma one_line_app x y : one_line (x +:+ y) = one_line x && one_line y.
Proof.
  induction x as [|c x IH]; [done|]. change (String c x +:+ y) with (String c (x +:+ y)).
  cbn [one_line]. by rewrite IH, andb_assoc.
Qed.

(** The shape of an ISO 4217 code: three upper-case ASCII letters. The function
    is written out in four places of the repository, under three names. *)
Definition isUpper (c : Ascii.ascii) : bool :=
  let n := Ascii.nat_of_ascii c in (65 <=? n)%nat && (n <=? 90)%nat.

Definition isISOCurrency (c : string) : bool :=
  if negb (String.length c =? 3)%nat then false
  else forallb isUpper (list_ascii_of_string c).

(** Characters of a UTF-8 text: the bytes that do not continue one. *)
Definition starts_char (c : Ascii.ascii) : bool :=
  let n := Ascii.nat_of_ascii c in negb ((128 <=? n)%nat && (n <? 192)%nat).
Definition char_count (s : string) : nat := length (List.filter starts_char (list_ascii_of_string s)).
