(* ===== verification/Ranking.v ===== *)
(** * The vocabulary and the ranking the three rule resolvers of catalog share

    [services/catalog/internal/store] resolves price rules (pricing.go), fee
    rules (fees.go) and split schedules (splits.go) with three comparators
    written out three times. This file holds what they have in common as data
    (scope levels, loss reasons), the interface [Ranked] a rule kind offers to
    the ranking, the ranking as a declarative order [Outranks] and the contest
    [Wins] it decides. [Pricing], [Fees] and [Splits] translate each resolver
    as it is written and discharge the interface. *)

From S2P Require Import Prelude.

(** ** Scope levels (pricing.go) *)

(** [ScopeLevel] is a string type: a value outside the five constants is
    representable, and [matchesScope] rejects it. *)
Inductive ScopeLevel :=
| ScopeTicketType
| ScopeSlot
| ScopeSeries
| ScopeEvent
| ScopeVenue
| ScopeOther (s : string).

#[export] Instance ScopeLevel_eq_dec : EqDecision ScopeLevel.
Proof. solve_decision. Defined.

(** The map [scopeRank]; a missing key reads as the zero value. *)
Definition scopeRank (l : ScopeLevel) : Z :=
  match l with
  | ScopeTicketType => 0
  | ScopeSlot => 1
  | ScopeSeries => 2
  | ScopeEvent => 3
  | ScopeVenue => 4
  | ScopeOther _ => 0
  end.

Inductive LossReason :=
| ReasonLessSpecific
| ReasonForcedBroaderScope
| ReasonExcludedByForcedRule
| ReasonLowerForcedScope
| ReasonLowerPriority
| ReasonStableIDTiebreak
| ReasonOutsideWindowPast
| ReasonOutsideWindowFuture
| ReasonLessChannelSpecific.

#[export] Instance LossReason_eq_dec : EqDecision LossReason.
Proof. solve_decision. Defined.

Section Data.
Context `{UU : UUID}.

Record PricingScopes := {
  sc_TicketTypeID : uuid;
  sc_SlotID : uuid;
  sc_SeriesID : option uuid;
  sc_EventID : uuid;
  sc_VenueID : uuid;
}.

(** The pair [(ScopeLevel, ScopeID)] a rule attaches to names one of the
    identities derived from the request. *)
Definition InScope (s : PricingScopes) (l : ScopeLevel) (id : uuid) : Prop :=
  match l with
  | ScopeTicketType => id = sc_TicketTypeID s
  | ScopeSlot => id = sc_SlotID s
  | ScopeSeries => sc_SeriesID s = Some id
  | ScopeEvent => id = sc_EventID s
  | ScopeVenue => id = sc_VenueID s
  | ScopeOther _ => False
  end.

Definition in_scopeb (s : PricingScopes) (l : ScopeLevel) (id : uuid) : bool :=
  match l with
  | ScopeTicketType => bool_decide (id = sc_TicketTypeID s)
  | ScopeSlot => bool_decide (id = sc_SlotID s)
  | ScopeSeries => match sc_SeriesID s with Some x => bool_decide (id = x) | None => false end
  | ScopeEvent => bool_decide (id = sc_EventID s)
  | ScopeVenue => bool_decide (id = sc_VenueID s)
  | ScopeOther _ => false
  end.

Lemma in_scopeb_spec s l id : in_scopeb s l id = true ↔ InScope s l id.
Proof.
  destruct l; cbn; rewrite ?bool_decide_eq_true; try done.
  destruct (sc_SeriesID s); rewrite ?bool_decide_eq_true; naive_solver.
Qed.
End Data.

(** ** The ranking interface *)

Class Ranked `{UU : UUID} (R : Type) := {
  rk_id : R → uuid;
  rk_level : R → ScopeLevel;
  rk_scope_id : R → uuid;
  rk_channel : R → option string;
  rk_priority : R → Z;
  rk_forced : R → bool;
  rk_from : R → option time;
  rk_until : R → option time;
}.

Section Ranking.
Context `{UU : UUID} {R : Type} `{!Ranked R}.

Definition rk_rank (r : R) : Z := scopeRank (rk_level r).
(** 0 for an exact channel, 1 for a channel-agnostic rule. *)
Definition rk_specificity (r : R) : Z :=
  match rk_channel r with Some _ => 0 | None => 1 end.

(** The half-open window [[from, until)]; an absent bound does not bound. *)
Definition InWindow (at_ : time) (r : R) : Prop :=
  (∀ f, rk_from r = Some f → f ≤ at_) ∧ (∀ u, rk_until r = Some u → at_ < u).

(** A rule with no channel serves every request; a rule with a channel serves
    the requests that name exactly it. *)
Definition ServesChannel (requested : option string) (r : R) : Prop :=
  rk_channel r = None ∨ rk_channel r = requested.

(** [a] comes before [b]: a narrower scope, then an exact channel, both
    inverted among forced rules; then the higher priority; then the id. *)
Inductive Outranks (forced : bool) (a b : R) : Prop :=
| outranks_scope :
    (if forced then rk_rank b < rk_rank a else rk_rank a < rk_rank b) → Outranks forced a b
| outranks_channel :
    rk_rank a = rk_rank b →
    (if forced then rk_specificity b < rk_specificity a
     else rk_specificity a < rk_specificity b) → Outranks forced a b
| outranks_priority :
    rk_rank a = rk_rank b → rk_specificity a = rk_specificity b →
    rk_priority b < rk_priority a → Outranks forced a b
| outranks_id :
    rk_rank a = rk_rank b → rk_specificity a = rk_specificity b →
    rk_priority a = rk_priority b → uuid_ltb (rk_id a) (rk_id b) = true → Outranks forced a b.

(** The contest: among the rules that may compete, a forced one excludes
    every unforced one, and the winner outranks all that remain. *)
Record Wins (competes : R → Prop) (w : R) : Prop := {
  wins_competes : competes w;
  wins_forced : rk_forced w = false → ∀ r, competes r → rk_forced r = false;
  wins_outranks : ∀ r, competes r → rk_forced r = rk_forced w →
    r ≠ w → Outranks (rk_forced w) w r;
}.

(** Only the extension of the competing predicate matters. *)
#[export] Instance Wins_proper : Proper (pointwise_relation R iff ==> eq ==> iff) Wins.
Proof.
  assert (Hmono : ∀ P Q : R → Prop, (∀ r, P r ↔ Q r) → ∀ w, Wins P w → Wins Q w).
  { intros P Q HPQ w [E F O]. split; setoid_rewrite <-HPQ; done. }
  intros P Q HPQ w ? <-. split; apply Hmono; [exact HPQ|]. intros r. symmetry. apply HPQ.
Qed.

(** *** The same order as a boolean comparator *)

Definition signed (inverted : bool) (k : R → Z) (r : R) : Z := if inverted then - k r else k r.

Definition outranksb (inverted : bool) : R → R → bool :=
  lex (on_key (signed inverted rk_rank) Z.ltb)
 (lex (on_key (signed inverted rk_specificity) Z.ltb)
 (lex (on_key (λ r, - rk_priority r) Z.ltb)
      (on_key rk_id uuid_ltb))).

#[export] Instance outranksb_less inverted : LessOrder (outranksb inverted).
Proof. apply _. Qed.

Lemma outranksb_spec inverted a b : outranksb inverted a b = true ↔ Outranks inverted a b.
Proof.
  unfold outranksb, lex, on_key, signed.
  split.
  - intros H.
    destruct inverted; repeat (case_match; zbool); try done;
      first [ apply outranks_scope; lia | apply outranks_channel; lia
            | apply outranks_priority; lia | apply outranks_id; [lia..|done] ].
  - intros [H|? H|? ? H|? ? ? H]; destruct inverted;
      repeat (case_match; zbool); solve [done | exfalso; lia].
Qed.

(** The nested comparison as the resolvers write it. *)
Definition ranked_beats (challenger best : R) (inverted : bool) : bool :=
  if negb (rk_rank challenger =? rk_rank best) then
    (if inverted then rk_rank challenger >? rk_rank best else rk_rank challenger <? rk_rank best)
  else if negb (rk_specificity challenger =? rk_specificity best) then
    (if inverted then rk_specificity challenger >? rk_specificity best
     else rk_specificity challenger <? rk_specificity best)
  else if negb (rk_priority challenger =? rk_priority best)
  then rk_priority challenger >? rk_priority best
  else uuid_ltb (rk_id challenger) (rk_id best).

Lemma ranked_beats_outranksb c b inverted : ranked_beats c b inverted = outranksb inverted c b.
Proof.
  unfold ranked_beats, outranksb, lex, on_key, signed.
  apply eq_bool_prop_intro.
  destruct inverted; repeat case_match; zbool; rewrite ?Z.gtb_ltb; try done;
    zbool; try lia; rewrite ?Is_true_true, ?Z.ltb_lt; lia.
Qed.

Definition serves_channelb (requested : option string) (r : R) : bool :=
  match rk_channel r with
  | None => true
  | Some c => match requested with Some q => bool_decide (c = q) | None => false end
  end.

Lemma serves_channelb_spec q r : serves_channelb q r = true ↔ ServesChannel q r.
Proof.
  unfold serves_channelb, ServesChannel.
  destruct (rk_channel r), q; rewrite ?bool_decide_eq_true; naive_solver.
Qed.

Lemma outranksb_total `{!UUIDLaws} inverted a b :
  outranksb inverted a b = false → outranksb inverted b a = false → rk_id a = rk_id b.
Proof.
  unfold outranksb, lex, on_key. intros H1 H2.
  repeat (case_match; try done). by apply uuid_ltb_total.
Qed.

(** The competition of the Go code: the forced rules if there is one. *)
Definition competition (l : list R) : list R :=
  if existsb rk_forced l then List.filter rk_forced l else l.

Definition contest (l : list R) : option R :=
  match competition l with
  | [] => None
  | x :: l' => Some (best_of (outranksb (existsb rk_forced l)) x l')
  end.

Lemma elem_of_competition l r :
  r ∈ competition l ↔ r ∈ l ∧ rk_forced r = existsb rk_forced l
    ∨ r ∈ l ∧ existsb rk_forced l = false.
Proof.
  unfold competition. destruct (existsb rk_forced l) eqn:E.
  - rewrite elem_of_bool_filter. naive_solver.
  - naive_solver.
Qed.

Lemma existsb_forced_false l :
  existsb rk_forced l = false ↔ ∀ r, r ∈ l → rk_forced r = false.
Proof.
  induction l as [|x l IH]; cbn; [set_solver|].
  rewrite orb_false_iff, IH. setoid_rewrite elem_of_cons. naive_solver.
Qed.

Lemma existsb_forced_true l :
  existsb rk_forced l = true ↔ ∃ r, r ∈ l ∧ rk_forced r = true.
Proof.
  induction l as [|x l IH]; cbn; [set_solver|].
  rewrite orb_true_iff, IH. setoid_rewrite elem_of_cons. naive_solver.
Qed.

Lemma contest_None l : contest l = None ↔ l = [].
Proof.
  unfold contest. split; [|by intros ->].
  destruct (competition l) as [|x l'] eqn:E; [|done]. intros _.
  unfold competition in E. destruct (existsb rk_forced l) eqn:F; [|done].
  apply existsb_forced_true in F as (r & Hr & Hf).
  assert (r ∈ List.filter rk_forced l) as Hin by (by apply elem_of_bool_filter).
  rewrite E in Hin. by apply elem_of_nil in Hin.
Qed.

(** Rules with equal ids are equal: what makes the last tie-break decisive. *)
Definition ids_distinct (l : list R) : Prop :=
  ∀ a b, a ∈ l → b ∈ l → rk_id a = rk_id b → a = b.

Lemma contest_forced l w : contest l = Some w → rk_forced w = existsb rk_forced l.
Proof.
  unfold contest. destruct (competition l) as [|x l'] eqn:E; [done|]. intros [= <-].
  pose proof (best_of_elem (outranksb (existsb rk_forced l)) x l') as H.
  rewrite <-E in H. apply elem_of_competition in H as [[_ ?]|[Hin Hf]]; [done|].
  etrans; [exact (proj1 (existsb_forced_false l) Hf _ Hin)|done].
Qed.

Lemma contest_elem l w : contest l = Some w → w ∈ l.
Proof.
  unfold contest. destruct (competition l) as [|x l'] eqn:E; [done|]. intros [= <-].
  pose proof (best_of_elem (outranksb (existsb rk_forced l)) x l') as H.
  rewrite <-E in H. apply elem_of_competition in H. tauto.
Qed.

Lemma contest_unbeaten l w r :
  contest l = Some w → r ∈ l → rk_forced r = rk_forced w →
  outranksb (rk_forced w) r w = false.
Proof.
  intros Hw Hr Hf. pose proof (contest_forced _ _ Hw) as Hex. revert Hw.
  unfold contest. destruct (competition l) as [|x l'] eqn:E; [done|]. intros [= <-].
  rewrite Hex. apply best_of_unbeaten; [apply _|].
  rewrite <-E, elem_of_competition. left. by rewrite Hf, Hex.
Qed.

(** The selection loop decides the declarative contest. *)
Lemma contest_wins `{!UUIDLaws} l w :
  ids_distinct l → contest l = Some w → Wins (.∈ l) w.
Proof.
  intros Hid Hw. pose proof (contest_elem _ _ Hw) as Hin.
  pose proof (contest_forced _ _ Hw) as Hf. split; [done|..].
  - rewrite Hf. intros Hex. by apply existsb_forced_false.
  - intros r Hr Hrf Hne. apply outranksb_spec.
    destruct (outranksb (rk_forced w) w r) eqn:E; [done|]. destruct Hne.
    apply Hid; [done..|]. symmetry. eapply outranksb_total; [exact E|].
    by eapply contest_unbeaten.
Qed.

Lemma wins_unique `{!UUIDLaws} (P : R → Prop) w1 w2 :
  EqDecision R → Wins P w1 → Wins P w2 → w1 = w2.
Proof.
  intros Hdec [E1 F1 O1] [E2 F2 O2]. destruct (decide (w1 = w2)) as [|Hne]; [done|exfalso].
  assert (Hf : rk_forced w1 = rk_forced w2).
  { destruct (rk_forced w1) eqn:A, (rk_forced w2) eqn:B; try done.
    - specialize (F2 eq_refl _ E1). congruence.
    - specialize (F1 eq_refl _ E2). congruence. }
  assert (Ha := O1 w2 E2 (eq_sym Hf) (not_eq_sym Hne)).
  assert (Hb := O2 w1 E1 Hf Hne). rewrite <-Hf in Hb.
  apply outranksb_spec in Ha, Hb. by rewrite (less_asym _ _ Ha) in Hb.
Qed.

Lemma ids_distinct_perm l1 l2 : l1 ≡ₚ l2 → ids_distinct l1 → ids_distinct l2.
Proof. intros Hp H a b. rewrite <-Hp. apply H. Qed.

Lemma ids_distinct_filter f l : ids_distinct l → ids_distinct (List.filter f l).
Proof. intros H a b Ha Hb. apply elem_of_bool_filter in Ha as [??], Hb as [??]. by apply H. Qed.

Lemma NoDup_ids_distinct l : NoDup (map rk_id l) → ids_distinct l.
Proof.
  intros Hnd a b Ha Hb Hab.
  apply list_elem_of_lookup in Ha as [i Hi], Hb as [j Hj].
  assert (i = j) as ->; [|congruence].
  eapply NoDup_lookup; [exact Hnd|..]; change (map rk_id l) with (rk_id <$> l);
    rewrite list_lookup_fmap, ?Hi, ?Hj; cbn; [done|by rewrite Hab].
Qed.

(** *** Windows *)

(** The [switch] of every resolver: past first, then future. *)
Definition window_reason (at_ : time) (r : R) : option LossReason :=
  if match rk_until r with Some u => negb (before at_ u) | None => false end
  then Some ReasonOutsideWindowPast
  else if match rk_from r with Some f => before at_ f | None => false end
  then Some ReasonOutsideWindowFuture
  else None.

Lemma window_reason_None at_ r : window_reason at_ r = None ↔ InWindow at_ r.
Proof.
  unfold window_reason, InWindow, before.
  destruct (rk_until r) as [u|], (rk_from r) as [f|];
    try destruct (Z.ltb_spec at_ u); try destruct (Z.ltb_spec at_ f); cbn; split.
  all: try (intros; discriminate).
  all: try (intros _; split; intros x E; simplify_eq; lia).
  all: intros [Hf Hu]; try reflexivity; exfalso.
  all: try specialize (Hf _ eq_refl); try specialize (Hu _ eq_refl); lia.
Qed.

(** A loss reason says which comparison the rule lost. *)
Definition Explains (at_ : time) (w r : R) (why : LossReason) : Prop :=
  match why with
  | ReasonOutsideWindowPast => ∃ u, rk_until r = Some u ∧ u ≤ at_
  | ReasonOutsideWindowFuture => ∃ f, rk_from r = Some f ∧ at_ < f
  | ReasonForcedBroaderScope =>
      rk_forced w = true ∧ rk_forced r = false ∧ rk_rank r < rk_rank w
  | ReasonExcludedByForcedRule =>
      rk_forced w = true ∧ rk_forced r = false ∧ rk_rank w ≤ rk_rank r
  | ReasonLowerForcedScope =>
      rk_forced w = true ∧ rk_forced r = true ∧ rk_rank r < rk_rank w
  | ReasonLessSpecific =>
      rk_forced w = false ∧ rk_forced r = false ∧ rk_rank w < rk_rank r
  | ReasonLessChannelSpecific =>
      rk_forced w = rk_forced r ∧ rk_rank w = rk_rank r ∧
      (if rk_forced w then rk_channel w = None ∧ is_Some (rk_channel r)
       else is_Some (rk_channel w) ∧ rk_channel r = None)
  | ReasonLowerPriority =>
      rk_forced w = rk_forced r ∧ rk_rank w = rk_rank r ∧
      rk_specificity w = rk_specificity r ∧ rk_priority r < rk_priority w
  | ReasonStableIDTiebreak =>
      rk_forced w = rk_forced r ∧ rk_rank w = rk_rank r ∧
      rk_specificity w = rk_specificity r ∧ rk_priority r = rk_priority w ∧
      uuid_ltb (rk_id w) (rk_id r) = true
  end.

(** The comparator-side reason, common to the three [lossReason] functions. *)
Definition rank_reason (r w : R) : LossReason :=
  if rk_forced w && negb (rk_forced r) then
    if rk_rank w >? rk_rank r then ReasonForcedBroaderScope else ReasonExcludedByForcedRule
  else if negb (rk_rank r =? rk_rank w) then
    if rk_forced w then ReasonLowerForcedScope else ReasonLessSpecific
  else if negb (rk_specificity r =? rk_specificity w) then ReasonLessChannelSpecific
  else if negb (rk_priority r =? rk_priority w) then ReasonLowerPriority
  else ReasonStableIDTiebreak.

Lemma rank_reason_explains at_ (P : R → Prop) w r :
  Wins P w → P r → r ≠ w → Explains at_ w r (rank_reason r w).
Proof.
  intros [Ew Fw Ow] Pr Hne. unfold rank_reason.
  destruct (rk_forced w) eqn:Hfw, (rk_forced r) eqn:Hfr; cbn [andb negb].
  2: { destruct (_ >? _) eqn:E; zbool; cbn; auto. }
  2: { by rewrite (Fw eq_refl _ Pr) in Hfr. }
  all: specialize (Ow r Pr ltac:(congruence) Hne); unfold rk_specificity in *.
  all: destruct (Z.eqb_spec (rk_rank r) (rk_rank w)); cbn [negb];
    [|destruct Ow; cbn in *; auto with lia].
  all: destruct (rk_channel w) eqn:Hcw, (rk_channel r) eqn:Hcr; cbn [Z.eqb negb].
  all: try (destruct (Z.eqb_spec (rk_priority r) (rk_priority w)); cbn [negb]).
  all: destruct Ow as [H|? H|? ? H|? ? ? H]; cbn in *; unfold rk_specificity in *;
    rewrite ?Hcw, ?Hcr, ?Hfw, ?Hfr in *; try lia; repeat split; eauto; lia.
Qed.

Lemma window_reason_explains at_ w r why : window_reason at_ r = Some why → Explains at_ w r why.
Proof.
  unfold window_reason, before.
  destruct (rk_until r) as [u|] eqn:Hu, (rk_from r) as [f|] eqn:Hf; cbn;
    repeat case_match; zbool; intros [= <-]; cbn; eauto with lia.
Qed.

(** *** The abstract specification of a resolver *)

(** What a resolver owes its caller over the rules [l] it considered: a winner
    of the contest among the rules in their window, or none when no rule is;
    every other considered rule reported once; every reason true. *)
Record Adjudicates (at_ : time) (l : list R) (winner : option R)
    (losers : list (R * LossReason)) : Prop := {
  adj_winner :
    match winner with
    | Some w => Wins (λ r, r ∈ l ∧ InWindow at_ r) w
    | None => ∀ r, r ∈ l → ¬ InWindow at_ r
    end;
  adj_complete : map fst losers ++ option_list winner ≡ₚ l;
  adj_truthful : ∀ r why, (r, why) ∈ losers → Explains at_ (default r winner) r why;
}.

#[export] Instance Adjudicates_proper at_ :
  Proper (Permutation ==> eq ==> Permutation ==> iff) (Adjudicates at_).
Proof.
  assert (Hone : ∀ l1 l2 w k1 k2, l1 ≡ₚ l2 → k1 ≡ₚ k2 →
    Adjudicates at_ l1 w k1 → Adjudicates at_ l2 w k2).
  { intros l1 l2 w k1 k2 Hl Hk [W C T]. split.
    - destruct w as [w|]; [|intros r; rewrite <-Hl; apply W].
      destruct W as [E F O]. split; setoid_rewrite <-Hl; done.
    - by rewrite <-Hk, C.
    - intros r why. rewrite <-Hk. apply T. }
  intros l1 l2 Hl w ? <- k1 k2 Hk. split; eapply Hone; done.
Qed.

Definition open_rules (at_ : time) (l : list R) : list R :=
  List.filter (λ r, bool_decide (window_reason at_ r = None)) l.

Definition shut_rules (at_ : time) (l : list R) : list (R * LossReason) :=
  omap (λ r, pair r <$> window_reason at_ r) l.

Definition ranked_losers (w : R) (l : list R) : list (R * LossReason) :=
  map (λ r, (r, rank_reason r w))
    (List.filter (λ r, negb (bool_decide (rk_id r = rk_id w))) l).

Definition all_losers (at_ : time) (l : list R) (winner : option R) : list (R * LossReason) :=
  shut_rules at_ l ++
  match winner with Some w => ranked_losers w (open_rules at_ l) | None => [] end.

Lemma elem_of_open_rules at_ l r : r ∈ open_rules at_ l ↔ r ∈ l ∧ InWindow at_ r.
Proof.
  unfold open_rules. by rewrite elem_of_bool_filter, bool_decide_eq_true, window_reason_None.
Qed.

Lemma open_shut_perm at_ l : map fst (shut_rules at_ l) ++ open_rules at_ l ≡ₚ l.
Proof.
  unfold shut_rules, open_rules. induction l as [|r l IH]; cbn; [done|].
  destruct (window_reason at_ r); cbn; [by constructor|].
  rewrite <-Permutation_middle. by constructor.
Qed.

Lemma shut_rules_explained at_ l w r why :
  (r, why) ∈ shut_rules at_ l → Explains at_ w r why.
Proof.
  unfold shut_rules. intros (x & _ & Hx)%list_elem_of_omap.
  destruct (window_reason at_ x) eqn:E; cbn in Hx; simplify_eq. by apply window_reason_explains.
Qed.

(** The contest over the open rules meets the specification, whatever order
    the losers are reported in. *)
Lemma contest_adjudicates `{!UUIDLaws} at_ l losers :
  NoDup (map rk_id l) →
  losers ≡ₚ all_losers at_ l (contest (open_rules at_ l)) →
  Adjudicates at_ l (contest (open_rules at_ l)) losers.
Proof.
  intros Hnd Hp.
  assert (Hids : ids_distinct (open_rules at_ l)) by (by apply ids_distinct_filter, NoDup_ids_distinct).
  assert (Hwin : ∀ w, contest (open_rules at_ l) = Some w → Wins (λ r, r ∈ l ∧ InWindow at_ r) w).
  { intros w Hw. destruct (contest_wins _ w Hids Hw) as [E F O].
    split; setoid_rewrite <-elem_of_open_rules; done. }
  unfold all_losers in Hp.
  destruct (contest (open_rules at_ l)) as [w|] eqn:Hc; split; cbn [default option_list].
  - by apply Hwin.
  - rewrite Hp, map_app, <-app_assoc. unfold ranked_losers. rewrite map_map; cbn. rewrite map_id.
    etrans; [|apply (open_shut_perm at_)]. f_equiv.
    rewrite (Permutation_app_comm _ [w]). symmetry. apply (take_out_by_id rk_id).
    + by apply NoDup_map_filter.
    + by apply contest_elem.
  - intros r why. rewrite Hp, elem_of_app. intros [Hr|Hr]; [by eapply shut_rules_explained|].
    unfold ranked_losers in Hr. apply list_elem_of_In, List.in_map_iff in Hr as (x & Hx & Hin).
    apply list_elem_of_In, elem_of_bool_filter in Hin as [Hin Hne%negb_true_iff]. simplify_eq.
    apply bool_decide_eq_false in Hne. apply elem_of_open_rules in Hin.
    eapply rank_reason_explains; [by apply Hwin|done|congruence].
  - intros r Hr Hopen. apply contest_None in Hc.
    assert (r ∈ open_rules at_ l) as Hin by (by apply elem_of_open_rules).
    rewrite Hc in Hin. by apply elem_of_nil in Hin.
  - rewrite Hp, !app_nil_r. apply contest_None in Hc.
    etrans; [|apply (open_shut_perm at_)]. by rewrite Hc, app_nil_r.
  - intros r why. rewrite Hp, app_nil_r. by apply shut_rules_explained.
Qed.

(** A specification that determines the winner determines it whatever the order. *)
Lemma adjudicated_winner_unique `{!UUIDLaws, !EqDecision R} at_ l1 l2 w1 w2 k1 k2 :
  l1 ≡ₚ l2 → Adjudicates at_ l1 w1 k1 → Adjudicates at_ l2 w2 k2 → w1 = w2.
Proof.
  intros Hp [W1 _ _] [W2 _ _].
  destruct w1 as [w1|], w2 as [w2|]; [f_equal| | |done].
  - eapply wins_unique; [done|exact W1|]. destruct W2 as [E F O].
    split; setoid_rewrite Hp; done.
  - destruct (wins_competes _ _ W1) as [Hin Hopen]. rewrite Hp in Hin. by destruct (W2 w1).
  - destruct (wins_competes _ _ W2) as [Hin Hopen]. rewrite <-Hp in Hin. by destruct (W1 w2).
Qed.
End Ranking.

(** A map that preserves what the ranking reads carries the contest over. *)
Section Transport.
Context `{UU : UUID} {R1 R2 : Type} `{!Ranked R1, !Ranked R2} (g : R1 → R2).

Record Preserves : Prop := {
  pres_id r : rk_id (g r) = rk_id r;
  pres_level r : rk_level (g r) = rk_level r;
  pres_channel r : rk_channel (g r) = rk_channel r;
  pres_priority r : rk_priority (g r) = rk_priority r;
  pres_forced r : rk_forced (g r) = rk_forced r;
  pres_from r : rk_from (g r) = rk_from r;
  pres_until r : rk_until (g r) = rk_until r;
}.
Hypothesis Hg : Preserves.

Lemma preserves_outranksb inverted a b : outranksb inverted (g a) (g b) = outranksb inverted a b.
Proof.
  destruct Hg as [Hi Hl Hc Hp _ _ _].
  unfold outranksb, lex, on_key, signed, rk_rank, rk_specificity. by rewrite !Hi, !Hl, !Hc, !Hp.
Qed.

Lemma best_of_map inverted x l :
  best_of (outranksb inverted) (g x) (map g l) = g (best_of (outranksb inverted) x l).
Proof.
  unfold best_of. revert x. induction l as [|y l IH]; intros x; cbn; [done|].
  rewrite preserves_outranksb, <-IH. by destruct (outranksb inverted y x).
Qed.

Lemma existsb_forced_map l : existsb rk_forced (map g l) = existsb rk_forced l.
Proof. induction l; cbn; [done|]. by rewrite (pres_forced Hg), IHl. Qed.

Lemma filter_forced_map l : List.filter rk_forced (map g l) = map g (List.filter rk_forced l).
Proof. induction l as [|x l IH]; cbn; [done|]. rewrite (pres_forced Hg), IH. by destruct (rk_forced x). Qed.

Lemma contest_map l : contest (map g l) = g <$> contest l.
Proof.
  unfold contest, competition. rewrite existsb_forced_map, filter_forced_map.
  destruct (existsb rk_forced l); [destruct (List.filter rk_forced l)|destruct l]; cbn; [done| |done|];
    by rewrite best_of_map.
Qed.

Lemma open_rules_map at_ l : open_rules at_ (map g l) = map g (open_rules at_ l).
Proof.
  unfold open_rules. induction l as [|x l IH]; cbn; [done|]. rewrite IH.
  replace (window_reason at_ (g x)) with (window_reason at_ x); [by case_bool_decide|].
  unfold window_reason. by rewrite (pres_from Hg), (pres_until Hg).
Qed.
End Transport.

#[export] Hint Resolve contest_elem ids_distinct_filter window_reason_explains : go.
