(* ===== verification/Pricing.v ===== *)
(** * Price-rule resolution

    [services/catalog/internal/store/pricing.go]: [SelectPricingRule] chooses
    one unit price among the rules that attach to a ticket type's five scopes
    and reports why every other considered rule lost. The definitions follow
    the Go function step by step; the theorems relate them to the declarative
    contest of [Ranking]. *)

From S2P Require Import Prelude Ranking.

Section Pricing.
Context `{UU : UUID}.

Record Money := { m_Amount : Z; m_Currency : string }.

Record PriceRule := {
  pr_ID : uuid;
  pr_OrganizerID : uuid;
  pr_ScopeLevel : ScopeLevel;
  pr_ScopeID : uuid;
  pr_ActionKind : string;
  pr_Amount : Z;
  pr_Currency : string;
  pr_Priority : Z;
  pr_ForceAncestorOverride : bool;
  pr_EffectiveFrom : option time;
  pr_EffectiveUntil : option time;
  pr_ChannelCode : option string;
  pr_CreatedAt : time;
}.

#[export] Instance PriceRule_eq_dec : EqDecision PriceRule.
Proof. solve_decision. Defined.

Record PricingCandidates := {
  pc_BasePrice : Money;
  pc_Scopes : PricingScopes;
  pc_Rules : list PriceRule;
  pc_Channel : option string;
}.

Record LosingPriceRule := { lp_Rule : PriceRule; lp_Reason : LossReason }.

Record RuleSelection := {
  rs_ResolverVersion : Z;
  rs_EvaluatedAt : time;
  rs_OrganizerID : uuid;
  rs_PerformanceID : uuid;
  rs_BasePrice : Money;
  rs_ResolvedPrice : Money;
  rs_Channel : option string;
  rs_Winner : option PriceRule;
  rs_Candidates : list LosingPriceRule;
  rs_FallbackReason : option string;
}.

Definition PricingResolverVersion : Z := 3.
Definition FallbackNoEligibleRule : string := "no_eligible_rule".

(** The two errors, with the values their messages carry. *)
Inductive PriceError :=
| ErrDuplicatePriceRuleID (id : uuid)
| ErrPriceRuleCurrencyMismatch (id : uuid) (rule_currency base_currency : string).

Definition isPast (at_ : time) (r : PriceRule) : bool :=
  match pr_EffectiveUntil r with Some u => negb (before at_ u) | None => false end.

Definition notYet (at_ : time) (r : PriceRule) : bool :=
  match pr_EffectiveFrom r with Some f => before at_ f | None => false end.

Definition sortedCandidates (losers : list LosingPriceRule) : list LosingPriceRule :=
  isort (on_key (λ l, pr_ID (lp_Rule l)) uuid_ltb) losers.

Definition matchesScope (r : PriceRule) (s : PricingScopes) : bool :=
  match pr_ScopeLevel r with
  | ScopeTicketType => bool_decide (pr_ScopeID r = sc_TicketTypeID s)
  | ScopeSlot => bool_decide (pr_ScopeID r = sc_SlotID s)
  | ScopeSeries =>
      match sc_SeriesID s with Some x => bool_decide (pr_ScopeID r = x) | None => false end
  | ScopeEvent => bool_decide (pr_ScopeID r = sc_EventID s)
  | ScopeVenue => bool_decide (pr_ScopeID r = sc_VenueID s)
  | ScopeOther _ => false
  end.

Definition priceChannelEligible (r : PriceRule) (requested : option string) : bool :=
  match pr_ChannelCode r with
  | None => true
  | Some c => match requested with Some q => bool_decide (c = q) | None => false end
  end.

Definition priceChannelSpecificity (r : PriceRule) : Z :=
  match pr_ChannelCode r with Some _ => 0 | None => 1 end.

Definition beats (challenger best : PriceRule) (inverted : bool) : bool :=
  let cr := scopeRank (pr_ScopeLevel challenger) in
  let br := scopeRank (pr_ScopeLevel best) in
  if negb (cr =? br) then (if inverted then cr >? br else cr <? br)
  else
    let cc := priceChannelSpecificity challenger in
    let bc := priceChannelSpecificity best in
    if negb (cc =? bc) then (if inverted then cc >? bc else cc <? bc)
    else if negb (pr_Priority challenger =? pr_Priority best)
    then pr_Priority challenger >? pr_Priority best
    else uuid_ltb (pr_ID challenger) (pr_ID best).

Definition lossReason (loser winner : PriceRule) : LossReason :=
  if pr_ForceAncestorOverride winner && negb (pr_ForceAncestorOverride loser) then
    if scopeRank (pr_ScopeLevel winner) >? scopeRank (pr_ScopeLevel loser)
    then ReasonForcedBroaderScope else ReasonExcludedByForcedRule
  else if negb (scopeRank (pr_ScopeLevel loser) =? scopeRank (pr_ScopeLevel winner)) then
    if pr_ForceAncestorOverride winner then ReasonLowerForcedScope else ReasonLessSpecific
  else if negb (priceChannelSpecificity loser =? priceChannelSpecificity winner)
  then ReasonLessChannelSpecific
  else if negb (pr_Priority loser =? pr_Priority winner) then ReasonLowerPriority
  else ReasonStableIDTiebreak.

(** The [seen] loop: the first rule whose id an earlier rule carried. *)
Fixpoint duplicateID (seen : list uuid) (rules : list PriceRule) : option uuid :=
  match rules with
  | [] => None
  | r :: rules' =>
      if bool_decide (pr_ID r ∈ seen) then Some (pr_ID r)
      else duplicateID (pr_ID r :: seen) rules'
  end.

(** The currency loop: the first rule that is not past and is in another currency. *)
Definition currencyMismatch (at_ : time) (currency : string) (rules : list PriceRule)
    : option PriceRule :=
  List.find (λ r, negb (isPast at_ r) && negb (bool_decide (pr_Currency r = currency))) rules.

(** The window [switch]: the losers it records, the rules it lets through. *)
Definition windowLosers (at_ : time) (rules : list PriceRule) : list LosingPriceRule :=
  omap (λ r,
    if isPast at_ r then Some {| lp_Rule := r; lp_Reason := ReasonOutsideWindowPast |}
    else if notYet at_ r then Some {| lp_Rule := r; lp_Reason := ReasonOutsideWindowFuture |}
    else None) rules.

Definition windowEligible (at_ : time) (rules : list PriceRule) : list PriceRule :=
  List.filter (λ r, negb (isPast at_ r) && negb (notYet at_ r)) rules.

Definition SelectPricingRule (at_ : time) (inp : PricingCandidates)
    : result PriceError RuleSelection :=
  let base := {|
    rs_ResolverVersion := PricingResolverVersion;
    rs_EvaluatedAt := at_;
    rs_OrganizerID := uuid_Nil;
    rs_PerformanceID := sc_SlotID (pc_Scopes inp);
    rs_BasePrice := pc_BasePrice inp;
    rs_ResolvedPrice := pc_BasePrice inp;
    rs_Channel := pc_Channel inp;
    rs_Winner := None;
    rs_Candidates := [];
    rs_FallbackReason := None |} in
  let scoped := List.filter (λ r, matchesScope r (pc_Scopes inp)) (pc_Rules inp) in
  let scoped := isort (on_key pr_ID uuid_ltb) scoped in
  let scoped := List.filter (λ r, priceChannelEligible r (pc_Channel inp)) scoped in
  match duplicateID [] scoped with
  | Some id => Err (ErrDuplicatePriceRuleID id)
  | None =>
  match currencyMismatch at_ (m_Currency (pc_BasePrice inp)) scoped with
  | Some r =>
      Err (ErrPriceRuleCurrencyMismatch (pr_ID r) (pr_Currency r) (m_Currency (pc_BasePrice inp)))
  | None =>
  let eligible := windowEligible at_ scoped in
  let window := windowLosers at_ scoped in
  let forcedPresent := existsb pr_ForceAncestorOverride eligible in
  let competition :=
    if forcedPresent then List.filter pr_ForceAncestorOverride eligible else eligible in
  match competition with
  | [] =>
      Ok {| rs_ResolverVersion := rs_ResolverVersion base;
            rs_EvaluatedAt := rs_EvaluatedAt base;
            rs_OrganizerID := rs_OrganizerID base;
            rs_PerformanceID := rs_PerformanceID base;
            rs_BasePrice := rs_BasePrice base;
            rs_ResolvedPrice := rs_ResolvedPrice base;
            rs_Channel := rs_Channel base;
            rs_Winner := None;
            rs_Candidates := sortedCandidates window;
            rs_FallbackReason := Some FallbackNoEligibleRule |}
  | first :: rest =>
      let winner := best_of (λ c b, beats c b forcedPresent) first rest in
      let losers := window ++
        map (λ r, {| lp_Rule := r; lp_Reason := lossReason r winner |})
          (List.filter (λ r, negb (bool_decide (pr_ID r = pr_ID winner))) eligible) in
      Ok {| rs_ResolverVersion := rs_ResolverVersion base;
            rs_EvaluatedAt := rs_EvaluatedAt base;
            rs_OrganizerID := rs_OrganizerID base;
            rs_PerformanceID := rs_PerformanceID base;
            rs_BasePrice := rs_BasePrice base;
            rs_ResolvedPrice := {| m_Amount := pr_Amount winner; m_Currency := pr_Currency winner |};
            rs_Channel := rs_Channel base;
            rs_Winner := Some winner;
            rs_Candidates := sortedCandidates losers;
            rs_FallbackReason := rs_FallbackReason base |}
  end end end.

(** ** The resolver discharges the ranking interface *)

#[export] Instance PriceRule_ranked : Ranked PriceRule := {|
  rk_id := pr_ID;
  rk_level := pr_ScopeLevel;
  rk_scope_id := pr_ScopeID;
  rk_channel := pr_ChannelCode;
  rk_priority := pr_Priority;
  rk_forced := pr_ForceAncestorOverride;
  rk_from := pr_EffectiveFrom;
  rk_until := pr_EffectiveUntil;
|}.

(** The comparator, the reasons and the filters are the shared ones, unfolded. *)
Lemma beats_outranksb c b inverted : beats c b inverted = outranksb inverted c b.
Proof. exact (ranked_beats_outranksb c b inverted). Qed.

Lemma lossReason_rank r w : lossReason r w = rank_reason r w.
Proof. reflexivity. Qed.

Lemma matchesScope_spec r s :
  matchesScope r s = true ↔ InScope s (pr_ScopeLevel r) (pr_ScopeID r).
Proof. exact (in_scopeb_spec s _ _). Qed.

Lemma priceChannelEligible_spec r q : priceChannelEligible r q = true ↔ ServesChannel q r.
Proof. exact (serves_channelb_spec q r). Qed.

Lemma window_reason_switch at_ r :
  window_reason at_ r =
    if isPast at_ r then Some ReasonOutsideWindowPast
    else if notYet at_ r then Some ReasonOutsideWindowFuture else None.
Proof. reflexivity. Qed.

Lemma windowEligible_open at_ l : windowEligible at_ l = open_rules at_ l.
Proof.
  apply List.filter_ext. intros r. rewrite window_reason_switch.
  by destruct (isPast at_ r), (notYet at_ r).
Qed.

Definition loser_pair (l : LosingPriceRule) : PriceRule * LossReason := (lp_Rule l, lp_Reason l).

Lemma windowLosers_shut at_ l : map loser_pair (windowLosers at_ l) = shut_rules at_ l.
Proof.
  unfold windowLosers, shut_rules. induction l as [|r l IH]; cbn; [done|].
  rewrite window_reason_switch. destruct (isPast at_ r), (notYet at_ r); cbn; by rewrite ?IH.
Qed.

(** The rules that compete for a request, window aside, and with it. *)
Definition Considered (inp : PricingCandidates) (r : PriceRule) : Prop :=
  r ∈ pc_Rules inp ∧ InScope (pc_Scopes inp) (pr_ScopeLevel r) (pr_ScopeID r) ∧
  ServesChannel (pc_Channel inp) r.

Definition Applicable (at_ : time) (inp : PricingCandidates) (r : PriceRule) : Prop :=
  Considered inp r ∧ InWindow at_ r.

(** The list the loops after the two filters and the sort range over. *)
Definition considered (inp : PricingCandidates) : list PriceRule :=
  List.filter (λ r, priceChannelEligible r (pc_Channel inp))
    (isort (on_key pr_ID uuid_ltb)
      (List.filter (λ r, matchesScope r (pc_Scopes inp)) (pc_Rules inp))).

Lemma elem_of_considered inp r : r ∈ considered inp ↔ Considered inp r.
Proof.
  unfold considered, Considered.
  rewrite elem_of_bool_filter, elem_of_isort, elem_of_bool_filter,
    matchesScope_spec, priceChannelEligible_spec. tauto.
Qed.

Lemma considered_perm inp :
  considered inp ≡ₚ List.filter (λ r, matchesScope r (pc_Scopes inp) &&
    priceChannelEligible r (pc_Channel inp)) (pc_Rules inp).
Proof.
  unfold considered. rewrite isort_perm.
  induction (pc_Rules inp) as [|r l IH]; cbn; [done|].
  destruct (matchesScope r (pc_Scopes inp)); cbn; [|done].
  destruct (priceChannelEligible r (pc_Channel inp)); [by constructor|done].
Qed.

Lemma considered_sorted inp :
  StronglySorted (not_after (on_key pr_ID uuid_ltb)) (considered inp).
Proof. apply StronglySorted_bool_filter, isort_sorted, _. Qed.

Lemma duplicateID_None seen l :
  duplicateID seen l = None ↔ NoDup (map pr_ID l) ∧ ∀ r, r ∈ l → pr_ID r ∉ seen.
Proof.
  revert seen. induction l as [|r l IH]; intros seen; cbn.
  { split; [|done]. split; [constructor|]. by intros ? ?%elem_of_nil. }
  case_bool_decide as Hs.
  - split; [done|]. intros [_ H]. by destruct (H r (list_elem_of_here _ _)).
  - rewrite IH, list.NoDup_cons. split.
    + intros [Hnd Hn]. split.
      * split; [|done]. intros (x & Hid & Hx)%list_elem_of_In%List.in_map_iff.
        apply list_elem_of_In in Hx. apply (Hn x Hx). rewrite Hid. by left.
      * intros x [->|Hx]%elem_of_cons; [done|]. intros ?. apply (Hn x Hx). by right.
    + intros [[Hni Hnd] Hn]. split; [done|].
      intros x Hx [Hid|Hseen]%elem_of_cons; [|by apply (Hn x (list_elem_of_further _ _ _ Hx))].
      apply Hni. rewrite <-Hid. by apply list_elem_of_In, List.in_map, list_elem_of_In.
Qed.

Lemma duplicateID_ids seen l1 l2 :
  map pr_ID l1 = map pr_ID l2 → duplicateID seen l1 = duplicateID seen l2.
Proof.
  revert seen l2. induction l1 as [|a l1 IH]; intros seen [|b l2]; cbn; try done.
  intros [= -> Hm]. case_bool_decide; [done|]. by apply IH.
Qed.

Lemma currencyMismatch_None at_ c l :
  currencyMismatch at_ c l = None ↔ ∀ r, r ∈ l → isPast at_ r = false → pr_Currency r = c.
Proof.
  unfold currencyMismatch. induction l as [|r l IH]; cbn; [set_solver|].
  setoid_rewrite elem_of_cons.
  destruct (isPast at_ r) eqn:Ep; cbn; [naive_solver congruence|].
  case_bool_decide as Hc; cbn; [naive_solver|].
  split; [done|]. intros H. by destruct Hc; apply H; [left|].
Qed.

Lemma SelectPricingRule_considered at_ inp1 inp2 :
  pc_BasePrice inp1 = pc_BasePrice inp2 → pc_Scopes inp1 = pc_Scopes inp2 →
  pc_Channel inp1 = pc_Channel inp2 → considered inp1 = considered inp2 →
  SelectPricingRule at_ inp1 = SelectPricingRule at_ inp2.
Proof.
  intros Hb Hs Hc H. unfold SelectPricingRule. cbn zeta.
  fold (considered inp1). fold (considered inp2). by rewrite H, Hb, Hs, Hc.
Qed.

(** Opens a successful resolution: the ids are distinct, the currencies agree,
    and either nothing is in its window or the contest has a winner. *)
Lemma SelectPricingRule_cases at_ inp s :
  SelectPricingRule at_ inp = Ok s →
  NoDup (map pr_ID (considered inp)) ∧
  (∀ r, r ∈ considered inp → isPast at_ r = false →
     pr_Currency r = m_Currency (pc_BasePrice inp)) ∧
  rs_Winner s = contest (windowEligible at_ (considered inp)) ∧
  match rs_Winner s with
  | None =>
      windowEligible at_ (considered inp) = [] ∧ rs_ResolvedPrice s = pc_BasePrice inp ∧
      rs_FallbackReason s = Some FallbackNoEligibleRule ∧
      rs_Candidates s = sortedCandidates (windowLosers at_ (considered inp))
  | Some w =>
      rs_ResolvedPrice s = {| m_Amount := pr_Amount w; m_Currency := pr_Currency w |} ∧
      rs_FallbackReason s = None ∧
      rs_Candidates s = sortedCandidates (windowLosers at_ (considered inp) ++
        map (λ r, {| lp_Rule := r; lp_Reason := lossReason r w |})
          (List.filter (λ r, negb (bool_decide (pr_ID r = pr_ID w)))
             (windowEligible at_ (considered inp))))
  end.
Proof.
  unfold SelectPricingRule. cbn zeta. fold (considered inp).
  destruct (duplicateID [] (considered inp)) eqn:Hd; [done|].
  apply duplicateID_None in Hd as [Hnd _].
  destruct (currencyMismatch _ _ _) eqn:Hc; [done|].
  pose proof (proj1 (currencyMismatch_None _ _ _) Hc) as Hcur.
  pose proof (contest_None (windowEligible at_ (considered inp))) as Hnone.
  unfold contest, competition in *. cbn [rk_forced PriceRule_ranked] in *.
  destruct (if existsb pr_ForceAncestorOverride (windowEligible at_ (considered inp)) then _ else _)
    as [|x l']; intros [= <-]; cbn.
  - split_and!; try done. by apply Hnone.
  - split_and!; try done. f_equal. apply best_of_ext. intros. apply beats_outranksb.
Qed.

Lemma in_window_not_past at_ r : InWindow at_ r → isPast at_ r = false.
Proof.
  rewrite <-window_reason_None, window_reason_switch. by destruct (isPast at_ r).
Qed.

Lemma pricing_adjudicates `{!UUIDLaws} at_ inp s :
  SelectPricingRule at_ inp = Ok s →
  Adjudicates at_ (considered inp) (rs_Winner s) (map loser_pair (rs_Candidates s)).
Proof.
  intros (Hnd & _ & Hw & Hcase)%SelectPricingRule_cases.
  rewrite windowEligible_open in *. rewrite Hw in Hcase |- *.
  apply contest_adjudicates; [done|]. unfold all_losers.
  destruct (contest _) as [w|]; destruct_and! Hcase;
    match goal with H : rs_Candidates _ = _ |- _ => rewrite H end;
    unfold sortedCandidates; rewrite isort_perm, ?map_app, windowLosers_shut, ?app_nil_r; [|done].
  apply Permutation_app_head. unfold ranked_losers. rewrite map_map.
  erewrite map_ext; [done|]. intros r. unfold loser_pair; cbn. by rewrite lossReason_rank.
Qed.

(** ** Properties *)

(** C38 (functional). A successful resolution charges the rule that wins the
    declared contest: it attaches to one of the request's scopes, serves its
    channel, is inside its window, is forced if any such rule is, and
    outranks every other competitor; the price is that rule's amount in the
    ticket type's own currency. With no applicable rule the ticket type's
    own price is the answer. *)
Theorem pricing_charges_the_winner `{!UUIDLaws} at_ inp s :
  SelectPricingRule at_ inp = Ok s →
  match rs_Winner s with
  | Some w =>
      Wins (Applicable at_ inp) w ∧
      rs_ResolvedPrice s =
        {| m_Amount := pr_Amount w; m_Currency := m_Currency (pc_BasePrice inp) |} ∧
      rs_FallbackReason s = None
  | None =>
      (∀ r, ¬ Applicable at_ inp r) ∧ rs_ResolvedPrice s = pc_BasePrice inp ∧
      rs_FallbackReason s = Some FallbackNoEligibleRule
  end.
Proof.
  intros Hs. pose proof (adj_winner _ _ _ _ (pricing_adjudicates _ _ _ Hs)) as Hwin.
  apply SelectPricingRule_cases in Hs as (_ & Hcur & _ & Hcase).
  assert (Happ : pointwise_relation _ iff (Applicable at_ inp)
    (λ r, r ∈ considered inp ∧ InWindow at_ r)).
  { intros r. unfold Applicable. by rewrite elem_of_considered. }
  destruct (rs_Winner s) as [w|]; destruct_and! Hcase; rewrite ?Happ; split_and!; try done.
  - destruct (wins_competes _ _ Hwin) as [Hcons Hopen].
    by rewrite <-(Hcur w Hcons (in_window_not_past _ _ Hopen)).
  - intros r [Hcons Hopen]%Happ. by apply (Hwin r).
Qed.

(** The provenance is complete and truthful: the candidates
    and the winner together are exactly the rules that attach to the request's
    scopes and serve its channel, each once, in id order, and the reason
    given for each loser names the comparison it really lost. *)
Theorem pricing_provenance_complete `{!UUIDLaws} at_ inp s :
  SelectPricingRule at_ inp = Ok s →
  map lp_Rule (rs_Candidates s) ++ option_list (rs_Winner s) ≡ₚ
    List.filter (λ r, matchesScope r (pc_Scopes inp) &&
      priceChannelEligible r (pc_Channel inp)) (pc_Rules inp) ∧
  StronglySorted (not_after (on_key (λ l, pr_ID (lp_Rule l)) uuid_ltb)) (rs_Candidates s) ∧
  ∀ l, l ∈ rs_Candidates s →
    Explains at_ (default (lp_Rule l) (rs_Winner s)) (lp_Rule l) (lp_Reason l).
Proof.
  intros Hs. pose proof (pricing_adjudicates _ _ _ Hs) as [_ Hperm Htrue].
  rewrite map_map in Hperm. rewrite <-considered_perm. split_and!; [done|..].
  - apply SelectPricingRule_cases in Hs as (_ & _ & _ & Hcase).
    destruct (rs_Winner s); destruct_and! Hcase;
      match goal with H : rs_Candidates _ = _ |- _ => rewrite H end; apply isort_sorted, _.
  - intros l Hl. apply Htrue. change (lp_Rule l, lp_Reason l) with (loser_pair l).
    by apply list_elem_of_In, List.in_map, list_elem_of_In.
Qed.

(** The whole answer, errors included, is independent of the
    order in which the candidate rules were loaded. *)
Theorem pricing_order_independent `{!UUIDLaws} at_ inp rules :
  pc_Rules inp ≡ₚ rules →
  SelectPricingRule at_ inp =
  SelectPricingRule at_ {| pc_BasePrice := pc_BasePrice inp; pc_Scopes := pc_Scopes inp;
                           pc_Rules := rules; pc_Channel := pc_Channel inp |}.
Proof.
  intros Hp. set (inp' := Build_PricingCandidates _ _ _ _).
  assert (Hc : considered inp ≡ₚ considered inp') by (rewrite !considered_perm; cbn; by rewrite Hp).
  pose proof (considered_sorted inp) as S1. pose proof (considered_sorted inp') as S2.
  destruct (duplicateID [] (considered inp)) as [id|] eqn:Hd.
  - pose proof (duplicateID_ids [] _ _ (sorted_ids_eq _ _ _ S1 S2 Hc)) as Hd'. rewrite Hd in Hd'.
    unfold SelectPricingRule. cbn zeta. fold (considered inp). fold (considered inp').
    by rewrite Hd, <-Hd'.
  - apply SelectPricingRule_considered; [done..|].
    apply duplicateID_None in Hd as [Hnd _]. by apply (sorted_by_id_eq pr_ID).
Qed.

Lemma pricing_errors at_ inp :
  is_ok (SelectPricingRule at_ inp) = true ↔
  NoDup (map pr_ID (considered inp)) ∧
  ∀ r, Considered inp r → (∀ u, pr_EffectiveUntil r = Some u → at_ < u) →
    pr_Currency r = m_Currency (pc_BasePrice inp).
Proof.
  assert (Hpast : ∀ r, isPast at_ r = false ↔ ∀ u, pr_EffectiveUntil r = Some u → at_ < u).
  { intros r. unfold isPast, before. destruct (pr_EffectiveUntil r) as [u|]; [|naive_solver].
    rewrite negb_false_iff, Z.ltb_lt. naive_solver. }
  unfold SelectPricingRule. cbn zeta. fold (considered inp).
  pose proof (duplicateID_None [] (considered inp)) as Hd.
  pose proof (currencyMismatch_None at_ (m_Currency (pc_BasePrice inp)) (considered inp)) as Hc.
  setoid_rewrite elem_of_considered in Hc. setoid_rewrite Hpast in Hc.
  destruct (duplicateID [] (considered inp)) as [id|].
  { cbn. split; [done|]. intros [Hnd _].
    assert (Some id = None) by (apply Hd; split; [done|]; intros; apply not_elem_of_nil). done. }
  destruct (currencyMismatch _ _ _) as [r|].
  { cbn. split; [done|]. intros [_ Hcur]. by assert (Some r = None) by (by apply Hc). }
  destruct (if existsb _ _ then _ else _); cbn; split; try done; intros _;
    (split; [by apply Hd|by apply Hc]).
Qed.

(** A resolution fails in exactly two situations: two rules that
    compete for the request share an id, or one that is not past is in another
    currency. In every other case there is a price. *)
Theorem pricing_fails_only_on_bad_configuration at_ inp :
  is_ok (SelectPricingRule at_ inp) = true ↔
  NoDup (map pr_ID (considered inp)) ∧
  ∀ r, Considered inp r → (∀ u, pr_EffectiveUntil r = Some u → at_ < u) →
    pr_Currency r = m_Currency (pc_BasePrice inp).
Proof. apply pricing_errors. Qed.

(** Another channel's rules are invisible: whatever they say,
    whatever their currency, window or id, the answer is the same without
    them. *)
Theorem pricing_ignores_other_channels at_ inp r :
  ¬ ServesChannel (pc_Channel inp) r →
  SelectPricingRule at_ {| pc_BasePrice := pc_BasePrice inp; pc_Scopes := pc_Scopes inp;
                           pc_Rules := r :: pc_Rules inp; pc_Channel := pc_Channel inp |}
  = SelectPricingRule at_ inp.
Proof.
  intros Hr. apply SelectPricingRule_considered; [done..|]. unfold considered; cbn.
  destruct (matchesScope r (pc_Scopes inp)); [|done]. cbn.
  assert (Hf : priceChannelEligible r (pc_Channel inp) = false).
  { apply not_true_is_false. by rewrite priceChannelEligible_spec. }
  by apply filter_insert_sorted.
Qed.
End Pricing.

(** ** A concrete resolution

    An event-wide rule, a narrower one for the requested channel, an expired
    one and a forced venue rule of another channel. *)
#[local] Existing Instance text_uuid.
#[local] Existing Instance text_uuid_laws.

Definition example_scopes : PricingScopes := {|
  sc_TicketTypeID := "type"%string; sc_SlotID := "slot"%string; sc_SeriesID := None;
  sc_EventID := "event"%string; sc_VenueID := "venue"%string |}.

Definition example_rule (id : string) (level : ScopeLevel) (scope : string) (amount : Z)
    (channel : option string) (forced : bool) (until : option time) : PriceRule := {|
  pr_ID := id; pr_OrganizerID := "org"%string; pr_ScopeLevel := level; pr_ScopeID := scope;
  pr_ActionKind := "absolute"; pr_Amount := amount; pr_Currency := "EUR"; pr_Priority := 0;
  pr_ForceAncestorOverride := forced; pr_EffectiveFrom := None; pr_EffectiveUntil := until;
  pr_ChannelCode := channel; pr_CreatedAt := 0 |}.

Definition example_event_rule := example_rule "b" ScopeEvent "event" 3000 None false None.
Definition example_slot_rule := example_rule "a" ScopeSlot "slot" 2500 (Some "web"%string) false None.
Definition example_other_rule := example_rule "d" ScopeVenue "venue" 100 (Some "pos"%string) true None.

Definition example_candidates : PricingCandidates := {|
  pc_BasePrice := {| m_Amount := 2000; m_Currency := "EUR" |};
  pc_Scopes := example_scopes;
  pc_Rules := [example_event_rule; example_slot_rule;
               example_rule "c" ScopeTicketType "type" 1 None false (Some 5)];
  pc_Channel := Some "web"%string |}.

Lemma pricing_charges_the_winner_witness :
  ∃ s, SelectPricingRule 10 example_candidates = Ok s ∧
    Wins (Applicable 10 example_candidates) example_slot_rule ∧
    rs_ResolvedPrice s = {| m_Amount := 2500; m_Currency := "EUR" |}.
Proof.
  destruct (SelectPricingRule 10 example_candidates) as [s|] eqn:E; [|vm_compute in E; discriminate E].
  exists s. split; [reflexivity|]. pose proof (pricing_charges_the_winner _ _ _ E) as H.
  vm_compute in E. injection E as <-. destruct H as (Hw & Hp & _). split; [exact Hw|reflexivity].
Defined.

Lemma pricing_provenance_complete_witness :
  ∃ s, SelectPricingRule 10 example_candidates = Ok s ∧ length (rs_Candidates s) = 2%nat ∧
    ∀ l, l ∈ rs_Candidates s → Explains 10 example_slot_rule (lp_Rule l) (lp_Reason l).
Proof.
  destruct (SelectPricingRule 10 example_candidates) as [s|] eqn:E; [|vm_compute in E; discriminate E].
  exists s. split; [reflexivity|]. pose proof (pricing_provenance_complete _ _ _ E) as (_ & _ & H).
  vm_compute in E. injection E as <-. split; [reflexivity|exact H].
Defined.

Lemma pricing_order_independent_witness :
  SelectPricingRule 10 example_candidates =
  SelectPricingRule 10 {| pc_BasePrice := pc_BasePrice example_candidates;
    pc_Scopes := pc_Scopes example_candidates; pc_Rules := rev (pc_Rules example_candidates);
    pc_Channel := pc_Channel example_candidates |}.
Proof. apply (pricing_order_independent 10 example_candidates). apply Permutation_rev. Defined.

Lemma pricing_ignores_other_channels_witness :
  is_ok (SelectPricingRule 10 {| pc_BasePrice := pc_BasePrice example_candidates;
    pc_Scopes := pc_Scopes example_candidates;
    pc_Rules := example_other_rule :: pc_Rules example_candidates;
    pc_Channel := pc_Channel example_candidates |}) = true.
Proof.
  rewrite (pricing_ignores_other_channels 10 example_candidates example_other_rule).
  - vm_compute. reflexivity.
  - intros [H|H]; vm_compute in H; discriminate H.
Defined.
