(* ===== verification/Splits.v ===== *)
(** * Split-schedule resolution

    [services/catalog/internal/store/splits.go]: [SelectSplitSchedule] chooses
    which schedule says who a fee is owed to. It has no error to return, so it
    carries no duplicate-id guard; the last property shows what that costs. *)

From S2P Require Import Prelude Ranking.

Section Splits.
Context `{UU : UUID}.

(** [SplitMode] is a string type; its zero value is the empty string. *)
Inductive SplitMode := SplitModeUnset | SplitModeSplit | SplitModeUnsplit.

Inductive SplitReason := SplitReasonNone | SplitReasonNoSchedule | SplitReasonOutsideWindow.

Definition SplitResolverVersion : Z := 1.

Record Payee := {
  py_ID : uuid;
  py_OrganizerID : uuid;
  py_Kind : string;
  py_DisplayName : string;
  py_ExternalReference : option string;
}.

Record SplitPart := { sp_Payee : Payee; sp_ShareBps : Z }.

Record SplitSchedule := {
  ss_ID : uuid;
  ss_OrganizerID : uuid;
  ss_ScopeLevel : ScopeLevel;
  ss_ScopeID : uuid;
  ss_FeeCode : string;
  ss_ChannelCode : option string;
  ss_Priority : Z;
  ss_ForceAncestorOverride : bool;
  ss_EffectiveFrom : option time;
  ss_EffectiveUntil : option time;
  ss_Parts : list SplitPart;
}.

#[export] Instance Payee_eq_dec : EqDecision Payee.
Proof. solve_decision. Defined.
#[export] Instance SplitPart_eq_dec : EqDecision SplitPart.
Proof. solve_decision. Defined.
#[export] Instance SplitSchedule_eq_dec : EqDecision SplitSchedule.
Proof. solve_decision. Defined.

Record LosingSplitSchedule := { ls_Schedule : SplitSchedule; ls_Reason : LossReason }.

Record SplitSelection := {
  sl_ResolverVersion : Z;
  sl_Mode : SplitMode;
  sl_Reason : SplitReason;
  sl_Winner : option SplitSchedule;
  sl_Candidates : list LosingSplitSchedule;
}.

Definition splitIsPast (at_ : time) (s : SplitSchedule) : bool :=
  match ss_EffectiveUntil s with Some u => negb (before at_ u) | None => false end.

Definition splitNotYet (at_ : time) (s : SplitSchedule) : bool :=
  match ss_EffectiveFrom s with Some f => before at_ f | None => false end.

Definition splitChannelEligible (s : SplitSchedule) (requested : option string) : bool :=
  match ss_ChannelCode s with
  | None => true
  | Some c => match requested with Some q => bool_decide (c = q) | None => false end
  end.

Definition splitChannelSpecificity (s : SplitSchedule) : Z :=
  match ss_ChannelCode s with Some _ => 0 | None => 1 end.

Definition splitMatchesScope (s : SplitSchedule) (sc : PricingScopes) : bool :=
  match ss_ScopeLevel s with
  | ScopeTicketType => bool_decide (ss_ScopeID s = sc_TicketTypeID sc)
  | ScopeSlot => bool_decide (ss_ScopeID s = sc_SlotID sc)
  | ScopeSeries =>
      match sc_SeriesID sc with Some x => bool_decide (ss_ScopeID s = x) | None => false end
  | ScopeEvent => bool_decide (ss_ScopeID s = sc_EventID sc)
  | ScopeVenue => bool_decide (ss_ScopeID s = sc_VenueID sc)
  | ScopeOther _ => false
  end.

Definition splitBeats (challenger best : SplitSchedule) (inverted : bool) : bool :=
  let cr := scopeRank (ss_ScopeLevel challenger) in
  let br := scopeRank (ss_ScopeLevel best) in
  if negb (cr =? br) then (if inverted then cr >? br else cr <? br)
  else
    let cc := splitChannelSpecificity challenger in
    let bc := splitChannelSpecificity best in
    if negb (cc =? bc) then (if inverted then cc >? bc else cc <? bc)
    else if negb (ss_Priority challenger =? ss_Priority best)
    then ss_Priority challenger >? ss_Priority best
    else uuid_ltb (ss_ID challenger) (ss_ID best).

Definition splitLossReason (loser winner : SplitSchedule) : LossReason :=
  if ss_ForceAncestorOverride winner && negb (ss_ForceAncestorOverride loser) then
    if scopeRank (ss_ScopeLevel winner) >? scopeRank (ss_ScopeLevel loser)
    then ReasonForcedBroaderScope else ReasonExcludedByForcedRule
  else if negb (scopeRank (ss_ScopeLevel loser) =? scopeRank (ss_ScopeLevel winner)) then
    if ss_ForceAncestorOverride winner then ReasonLowerForcedScope else ReasonLessSpecific
  else if negb (splitChannelSpecificity loser =? splitChannelSpecificity winner)
  then ReasonLessChannelSpecific
  else if negb (ss_Priority loser =? ss_Priority winner) then ReasonLowerPriority
  else ReasonStableIDTiebreak.

Definition sortedSplitLosers (losers : list LosingSplitSchedule) : list LosingSplitSchedule :=
  isort (on_key (λ l, ss_ID (ls_Schedule l)) uuid_ltb) losers.

Definition splitWindowLosers (at_ : time) (l : list SplitSchedule) : list LosingSplitSchedule :=
  omap (λ s,
    if splitIsPast at_ s then Some {| ls_Schedule := s; ls_Reason := ReasonOutsideWindowPast |}
    else if splitNotYet at_ s then Some {| ls_Schedule := s; ls_Reason := ReasonOutsideWindowFuture |}
    else None) l.

Definition splitWindowEligible (at_ : time) (l : list SplitSchedule) : list SplitSchedule :=
  List.filter (λ s, negb (splitIsPast at_ s) && negb (splitNotYet at_ s)) l.

Definition SelectSplitSchedule (at_ : time) (code : string) (channel : option string)
    (scopes : PricingScopes) (schedules : list SplitSchedule) : SplitSelection :=
  let unsplit reason losers := {|
    sl_ResolverVersion := SplitResolverVersion; sl_Mode := SplitModeUnsplit;
    sl_Reason := reason; sl_Winner := None; sl_Candidates := losers |} in
  let scoped := List.filter (λ s,
    bool_decide (ss_FeeCode s = code) && splitMatchesScope s scopes &&
    splitChannelEligible s channel) schedules in
  match scoped with
  | [] => unsplit SplitReasonNoSchedule []
  | _ =>
  let scoped := isort (on_key ss_ID uuid_ltb) scoped in
  let eligible := splitWindowEligible at_ scoped in
  let windowLosers := splitWindowLosers at_ scoped in
  match eligible with
  | [] => unsplit SplitReasonOutsideWindow (sortedSplitLosers windowLosers)
  | _ =>
  let forcedPresent := existsb ss_ForceAncestorOverride eligible in
  let competition :=
    if forcedPresent then List.filter ss_ForceAncestorOverride eligible else eligible in
  match competition with
  | [] => unsplit SplitReasonOutsideWindow [] (* not reached: the partition keeps a rule *)
  | first :: rest =>
      let winner := best_of (λ c b, splitBeats c b forcedPresent) first rest in
      let losers := windowLosers ++
        map (λ s, {| ls_Schedule := s; ls_Reason := splitLossReason s winner |})
          (List.filter (λ s, negb (bool_decide (ss_ID s = ss_ID winner))) eligible) in
      {| sl_ResolverVersion := SplitResolverVersion; sl_Mode := SplitModeSplit;
         sl_Reason := SplitReasonNone; sl_Winner := Some winner;
         sl_Candidates := sortedSplitLosers losers |}
  end end end.

(** ** The resolver discharges the ranking interface *)

#[export] Instance SplitSchedule_ranked : Ranked SplitSchedule := {|
  rk_id := ss_ID;
  rk_level := ss_ScopeLevel;
  rk_scope_id := ss_ScopeID;
  rk_channel := ss_ChannelCode;
  rk_priority := ss_Priority;
  rk_forced := ss_ForceAncestorOverride;
  rk_from := ss_EffectiveFrom;
  rk_until := ss_EffectiveUntil;
|}.

(** The comparator, the reasons and the filters are the shared ones, unfolded. *)
Lemma splitBeats_outranksb c b inverted : splitBeats c b inverted = outranksb inverted c b.
Proof. exact (ranked_beats_outranksb c b inverted). Qed.

Lemma splitLossReason_rank r w : splitLossReason r w = rank_reason r w.
Proof. reflexivity. Qed.

Lemma splitMatchesScope_spec r s :
  splitMatchesScope r s = true ↔ InScope s (ss_ScopeLevel r) (ss_ScopeID r).
Proof. exact (in_scopeb_spec s _ _). Qed.

Lemma splitChannelEligible_spec r q : splitChannelEligible r q = true ↔ ServesChannel q r.
Proof. exact (serves_channelb_spec q r). Qed.

Lemma split_window_switch at_ s :
  window_reason at_ s =
    if splitIsPast at_ s then Some ReasonOutsideWindowPast
    else if splitNotYet at_ s then Some ReasonOutsideWindowFuture else None.
Proof. reflexivity. Qed.

Lemma splitWindowEligible_open at_ l : splitWindowEligible at_ l = open_rules at_ l.
Proof.
  apply List.filter_ext. intros s. rewrite split_window_switch.
  by destruct (splitIsPast at_ s), (splitNotYet at_ s).
Qed.

Definition split_loser_pair (l : LosingSplitSchedule) : SplitSchedule * LossReason :=
  (ls_Schedule l, ls_Reason l).

Lemma splitWindowLosers_shut at_ l :
  map split_loser_pair (splitWindowLosers at_ l) = shut_rules at_ l.
Proof.
  unfold splitWindowLosers, shut_rules. induction l as [|s l IH]; cbn; [done|].
  rewrite split_window_switch. destruct (splitIsPast at_ s), (splitNotYet at_ s); cbn; by rewrite ?IH.
Qed.

(** The schedules that compete for a fee code's split. *)
Definition split_scoped code channel scopes (schedules : list SplitSchedule) :=
  List.filter (λ s, bool_decide (ss_FeeCode s = code) && splitMatchesScope s scopes &&
    splitChannelEligible s channel) schedules.

Lemma elem_of_split_scoped code channel scopes l s :
  s ∈ split_scoped code channel scopes l ↔
  s ∈ l ∧ ss_FeeCode s = code ∧ InScope scopes (ss_ScopeLevel s) (ss_ScopeID s) ∧
  ServesChannel channel s.
Proof.
  unfold split_scoped. rewrite elem_of_bool_filter, !andb_true_iff, bool_decide_eq_true,
    splitMatchesScope_spec, splitChannelEligible_spec. tauto.
Qed.

Lemma SelectSplitSchedule_cases at_ code channel scopes l :
  let s := SelectSplitSchedule at_ code channel scopes l in
  let sorted := isort (on_key ss_ID uuid_ltb) (split_scoped code channel scopes l) in
  sl_Winner s = contest (open_rules at_ sorted) ∧
  map split_loser_pair (sl_Candidates s) ≡ₚ all_losers at_ sorted (sl_Winner s) ∧
  (sl_Mode s = SplitModeSplit ↔ is_Some (sl_Winner s)) ∧
  (sl_Reason s = SplitReasonNoSchedule ↔ split_scoped code channel scopes l = []).
Proof.
  cbn zeta. unfold SelectSplitSchedule. fold (split_scoped code channel scopes l).
  assert (Hsome : ∀ w : SplitSchedule, is_Some (Some w)) by eauto.
  assert (Hnil : is_Some (@None SplitSchedule) → False) by (by intros []).
  destruct (split_scoped code channel scopes l) as [|x0 l0] eqn:Hl; [by split_and!|].
  set (sorted := isort _ _). rewrite splitWindowEligible_open.
  pose proof (contest_None (open_rules at_ sorted)) as Hnone. unfold all_losers.
  destruct (open_rules at_ sorted) as [|y l1] eqn:Ho.
  { cbn [sl_Winner sl_Candidates sl_Mode sl_Reason]. split_and!; [done| |done..].
    unfold sortedSplitLosers. by rewrite isort_perm, splitWindowLosers_shut, app_nil_r. }
  rewrite <-Ho in *. unfold contest, competition in *. cbn [rk_forced SplitSchedule_ranked] in *.
  destruct (if existsb ss_ForceAncestorOverride _ then _ else _) as [|z l2].
  { assert (open_rules at_ sorted = []) by (by apply Hnone). congruence. }
  cbn [sl_Winner sl_Candidates sl_Mode sl_Reason]. split_and!; [| |done..].
  - f_equal. apply best_of_ext. intros. apply splitBeats_outranksb.
  - unfold sortedSplitLosers. rewrite isort_perm, map_app, splitWindowLosers_shut.
    apply Permutation_app_head. unfold ranked_losers. rewrite map_map.
    erewrite map_ext; [done|]. intros r. unfold split_loser_pair; cbn. by rewrite splitLossReason_rank.
Qed.

(** ** Properties *)

(** C39 (refinement). When the schedules that compete for a fee code carry
    distinct ids, the resolver meets the abstract specification of the
    ranking: the winner of the contest among the schedules in their window,
    every other one reported once with a true reason; the mode is [split]
    exactly when there is a winner, and the reason is [no_schedule] exactly
    when nothing competed. *)
Theorem splits_adjudicated `{!UUIDLaws} at_ code channel scopes schedules :
  NoDup (map ss_ID (split_scoped code channel scopes schedules)) →
  let s := SelectSplitSchedule at_ code channel scopes schedules in
  Adjudicates at_ (split_scoped code channel scopes schedules)
    (sl_Winner s) (map split_loser_pair (sl_Candidates s)) ∧
  (sl_Mode s = SplitModeSplit ↔ is_Some (sl_Winner s)) ∧
  (sl_Reason s = SplitReasonNoSchedule ↔
    ∀ x, x ∈ schedules → ¬ (ss_FeeCode x = code ∧
      InScope scopes (ss_ScopeLevel x) (ss_ScopeID x) ∧ ServesChannel channel x)).
Proof.
  intros Hnd s.
  destruct (SelectSplitSchedule_cases at_ code channel scopes schedules) as (Hw & Hk & Hm & Hr).
  fold s in Hw, Hk, Hm, Hr. split_and!; [|done|].
  - rewrite <-(isort_perm (on_key ss_ID uuid_ltb) (split_scoped _ _ _ _)).
    rewrite Hw in Hk |- *. apply contest_adjudicates; [|done].
    by rewrite isort_perm.
  - rewrite Hr.
    split.
    + intros Hnil x Hx Hc. assert (x ∈ split_scoped code channel scopes schedules) as Hin
        by (by apply elem_of_split_scoped). rewrite Hnil in Hin. by apply elem_of_nil in Hin.
    + intros Hno. apply elem_of_nil_inv. intros x [Hx Hc]%elem_of_split_scoped. by apply (Hno x Hx).
Qed.

(** With distinct ids the resolution does not depend on the
    order in which the schedules were loaded. *)
Theorem splits_order_independent `{!UUIDLaws} at_ code channel scopes l1 l2 :
  NoDup (map ss_ID (split_scoped code channel scopes l1)) → l1 ≡ₚ l2 →
  SelectSplitSchedule at_ code channel scopes l1 = SelectSplitSchedule at_ code channel scopes l2.
Proof.
  intros Hnd Hp.
  assert (Hs : split_scoped code channel scopes l1 ≡ₚ split_scoped code channel scopes l2).
  { unfold split_scoped. by rewrite Hp. }
  assert (Hsort : isort (on_key ss_ID uuid_ltb) (split_scoped code channel scopes l1)
                = isort (on_key ss_ID uuid_ltb) (split_scoped code channel scopes l2)).
  { assert (Hid : ids_distinct (split_scoped code channel scopes l1)) by (by apply NoDup_ids_distinct).
    apply isort_perm_eq; [apply _| |done]. intros a b Ha Hb Hab Hba. apply Hid; [done..|]. by apply uuid_ltb_total. }
  unfold SelectSplitSchedule. fold (split_scoped code channel scopes l1).
  fold (split_scoped code channel scopes l2).
  destruct (split_scoped code channel scopes l1), (split_scoped code channel scopes l2);
    [done|by apply Permutation_nil_cons in Hs|by apply Permutation_sym, Permutation_nil_cons in Hs|].
  by rewrite Hsort.
Qed.

(** The hypothesis is needed: two schedules that share an id and
    tie on every ranking axis are settled by their load order, they pay
    different payees, and neither resolution reports the other schedule. The
    price and fee resolvers refuse this input. *)
Theorem splits_duplicate_ids_follow_load_order :
  ∃ at_ code channel scopes a b,
    ss_ID a = ss_ID b ∧ ss_Parts a ≠ ss_Parts b ∧
    sl_Winner (SelectSplitSchedule at_ code channel scopes [a; b]) = Some a ∧
    sl_Winner (SelectSplitSchedule at_ code channel scopes [b; a]) = Some b ∧
    sl_Candidates (SelectSplitSchedule at_ code channel scopes [a; b]) = [] ∧
    sl_Candidates (SelectSplitSchedule at_ code channel scopes [b; a]) = [].
Proof.
  set (mk parts := {|
    ss_ID := uuid_Nil; ss_OrganizerID := uuid_Nil; ss_ScopeLevel := ScopeEvent;
    ss_ScopeID := uuid_Nil; ss_FeeCode := "service"; ss_ChannelCode := None;
    ss_Priority := 0; ss_ForceAncestorOverride := false; ss_EffectiveFrom := None;
    ss_EffectiveUntil := None; ss_Parts := parts |}).
  set (payee := {| py_ID := uuid_Nil; py_OrganizerID := uuid_Nil; py_Kind := "venue";
    py_DisplayName := ""; py_ExternalReference := None |}).
  exists 0, "service"%string, None,
    {| sc_TicketTypeID := uuid_Nil; sc_SlotID := uuid_Nil; sc_SeriesID := None;
       sc_EventID := uuid_Nil; sc_VenueID := uuid_Nil |},
    (mk []), (mk [{| sp_Payee := payee; sp_ShareBps := 10000 |}]).
  pose proof (less_irrefl uuid_ltb uuid_Nil) as Hirr.
  unfold SelectSplitSchedule, on_key, splitBeats; cbn.
  repeat first [rewrite Hirr | rewrite bool_decide_true by done]; cbn.
  unfold on_key, splitBeats; cbn.
  repeat (first [rewrite Hirr | rewrite bool_decide_true by done]; cbn).
  by split_and!.
Qed.
End Splits.

(** ** A concrete resolution *)
#[local] Existing Instance text_uuid.
#[local] Existing Instance text_uuid_laws.

Definition example_schedule (id : string) (level : ScopeLevel) (scope : string) (bps : Z) : SplitSchedule := {|
  ss_ID := id; ss_OrganizerID := "org"%string; ss_ScopeLevel := level; ss_ScopeID := scope;
  ss_FeeCode := "service"; ss_ChannelCode := None; ss_Priority := 0; ss_ForceAncestorOverride := false;
  ss_EffectiveFrom := None; ss_EffectiveUntil := None;
  ss_Parts := [{| sp_Payee := {| py_ID := "p"%string; py_OrganizerID := "org"%string; py_Kind := "venue";
                                 py_DisplayName := "Hall"; py_ExternalReference := None |};
                  sp_ShareBps := bps |}] |}.

Definition example_split_scopes : PricingScopes := {|
  sc_TicketTypeID := "type"%string; sc_SlotID := "slot"%string; sc_SeriesID := None;
  sc_EventID := "event"%string; sc_VenueID := "venue"%string |}.

Definition example_schedules : list SplitSchedule :=
  [example_schedule "v" ScopeVenue "venue" 10000; example_schedule "e" ScopeEvent "event" 10000].

Lemma example_schedule_ids :
  NoDup (map ss_ID (split_scoped "service" None example_split_scopes example_schedules)).
Proof. apply (bool_decide_unpack _). vm_compute. exact I. Defined.

Lemma splits_adjudicated_witness :
  let s := SelectSplitSchedule 0 "service" None example_split_scopes example_schedules in
  sl_Winner s = Some (example_schedule "e" ScopeEvent "event" 10000) ∧
  Adjudicates 0 (split_scoped "service" None example_split_scopes example_schedules)
    (sl_Winner s) (map split_loser_pair (sl_Candidates s)).
Proof.
  split; [vm_compute; reflexivity|].
  apply (splits_adjudicated 0 "service" None example_split_scopes example_schedules).
  exact example_schedule_ids.
Defined.

Lemma splits_order_independent_witness :
  SelectSplitSchedule 0 "service" None example_split_scopes example_schedules =
  SelectSplitSchedule 0 "service" None example_split_scopes (rev example_schedules).
Proof. apply (splits_order_independent _ _ _ _ _ _ example_schedule_ids). apply Permutation_rev. Defined.
