(* ===== verification/Fees.v ===== *)
(** * Fee-rule resolution

    [services/catalog/internal/store/fees.go]: [SelectFeeRules] resolves one
    winner per fee code among the rules that attach to a ticket type. The
    definitions follow the Go function; the theorems relate every code's
    outcome to the contest of [Ranking], and the whole resolver to the price
    resolver of [Pricing], whose comparator fees.go duplicates on purpose. *)

From S2P Require Import Prelude Ranking Pricing Splits.

Section Fees.
Context `{UU : UUID}.

Inductive FeeBasis :=
| BasisPerTicketFixed | BasisPerOrderFixed | BasisPercentageBps | BasisOther (s : string).

Inductive FeeIncidence := IncidencePassedOn | IncidenceAbsorbed | IncidenceOther (s : string).

#[export] Instance FeeBasis_eq_dec : EqDecision FeeBasis.
Proof. solve_decision. Defined.
#[export] Instance FeeIncidence_eq_dec : EqDecision FeeIncidence.
Proof. solve_decision. Defined.

Definition FeeResolverVersion : Z := 1.

Record FeeRule := {
  fr_ID : uuid;
  fr_OrganizerID : uuid;
  fr_ScopeLevel : ScopeLevel;
  fr_ScopeID : uuid;
  fr_FeeCode : string;
  fr_Basis : FeeBasis;
  fr_Amount : option Z;
  fr_RateBps : option Z;
  fr_Currency : string;
  fr_Incidence : FeeIncidence;
  fr_ChannelCode : option string;
  fr_Priority : Z;
  fr_ForceAncestorOverride : bool;
  fr_EffectiveFrom : option time;
  fr_EffectiveUntil : option time;
  fr_CreatedAt : time;
}.

#[export] Instance FeeRule_eq_dec : EqDecision FeeRule.
Proof. solve_decision. Defined.

Record LosingFeeRule := { lf_Rule : FeeRule; lf_Reason : LossReason }.

Record FeeCodeSelection := {
  fc_FeeCode : string;
  fc_Winner : option FeeRule;
  fc_Candidates : list LosingFeeRule;
  fc_Split : SplitSelection;
}.

Record FeeSelection := {
  fs_ResolverVersion : Z;
  fs_EvaluatedAt : time;
  fs_OrganizerID : uuid;
  fs_PerformanceID : uuid;
  fs_Currency : string;
  fs_Channel : option string;
  fs_Fees : list FeeCodeSelection;
}.

Record FeeCandidates := {
  fcd_Currency : string;
  fcd_Scopes : PricingScopes;
  fcd_Channel : option string;
  fcd_Rules : list FeeRule;
}.

Inductive FeeError :=
| ErrDuplicateFeeRuleID (id : uuid)
| ErrFeeRuleCurrencyMismatch (id : uuid) (rule_currency ticket_currency : string).

Definition feeIsPast (at_ : time) (r : FeeRule) : bool :=
  match fr_EffectiveUntil r with Some u => negb (before at_ u) | None => false end.

Definition feeNotYet (at_ : time) (r : FeeRule) : bool :=
  match fr_EffectiveFrom r with Some f => before at_ f | None => false end.

Definition feeChannelEligible (r : FeeRule) (requested : option string) : bool :=
  match fr_ChannelCode r with
  | None => true
  | Some c => match requested with Some q => bool_decide (c = q) | None => false end
  end.

Definition channelSpecificity (r : FeeRule) : Z :=
  match fr_ChannelCode r with Some _ => 0 | None => 1 end.

Definition feeMatchesScope (r : FeeRule) (s : PricingScopes) : bool :=
  match fr_ScopeLevel r with
  | ScopeTicketType => bool_decide (fr_ScopeID r = sc_TicketTypeID s)
  | ScopeSlot => bool_decide (fr_ScopeID r = sc_SlotID s)
  | ScopeSeries =>
      match sc_SeriesID s with Some x => bool_decide (fr_ScopeID r = x) | None => false end
  | ScopeEvent => bool_decide (fr_ScopeID r = sc_EventID s)
  | ScopeVenue => bool_decide (fr_ScopeID r = sc_VenueID s)
  | ScopeOther _ => false
  end.

Definition feeBeats (challenger best : FeeRule) (inverted : bool) : bool :=
  let cr := scopeRank (fr_ScopeLevel challenger) in
  let br := scopeRank (fr_ScopeLevel best) in
  if negb (cr =? br) then (if inverted then cr >? br else cr <? br)
  else
    let cc := channelSpecificity challenger in
    let bc := channelSpecificity best in
    if negb (cc =? bc) then (if inverted then cc >? bc else cc <? bc)
    else if negb (fr_Priority challenger =? fr_Priority best)
    then fr_Priority challenger >? fr_Priority best
    else uuid_ltb (fr_ID challenger) (fr_ID best).

Definition feeLossReason (loser winner : FeeRule) : LossReason :=
  if fr_ForceAncestorOverride winner && negb (fr_ForceAncestorOverride loser) then
    if scopeRank (fr_ScopeLevel winner) >? scopeRank (fr_ScopeLevel loser)
    then ReasonForcedBroaderScope else ReasonExcludedByForcedRule
  else if negb (scopeRank (fr_ScopeLevel loser) =? scopeRank (fr_ScopeLevel winner)) then
    if fr_ForceAncestorOverride winner then ReasonLowerForcedScope else ReasonLessSpecific
  else if negb (channelSpecificity loser =? channelSpecificity winner)
  then ReasonLessChannelSpecific
  else if negb (fr_Priority loser =? fr_Priority winner) then ReasonLowerPriority
  else ReasonStableIDTiebreak.

(** [Split] is the zero value here: the store fills it in afterwards. *)
Definition zeroSplit : SplitSelection := {|
  sl_ResolverVersion := 0; sl_Mode := SplitModeUnset; sl_Reason := SplitReasonNone;
  sl_Winner := None; sl_Candidates := [] |}.

Definition sortFeeLosers (l : list LosingFeeRule) : list LosingFeeRule :=
  isort (on_key (λ x, fr_ID (lf_Rule x)) uuid_ltb) l.

Definition selectOneFeeCode (code : string) (competitors : list FeeRule)
    (windowLosers : list LosingFeeRule) : FeeCodeSelection :=
  let forcedPresent := existsb fr_ForceAncestorOverride competitors in
  let competition :=
    if forcedPresent then List.filter fr_ForceAncestorOverride competitors else competitors in
  match competition with
  | [] =>
      {| fc_FeeCode := code; fc_Winner := None;
         fc_Candidates := sortFeeLosers windowLosers; fc_Split := zeroSplit |}
  | first :: rest =>
      let winner := best_of (λ c b, feeBeats c b forcedPresent) first rest in
      let losers := windowLosers ++
        map (λ r, {| lf_Rule := r; lf_Reason := feeLossReason r winner |})
          (List.filter (λ r, negb (bool_decide (fr_ID r = fr_ID winner))) competitors) in
      {| fc_FeeCode := code; fc_Winner := Some winner;
         fc_Candidates := sortFeeLosers losers; fc_Split := zeroSplit |}
  end.

(** The [seen] loop skips the rules of other channels. *)
Fixpoint duplicateFeeID (channel : option string) (seen : list uuid) (rules : list FeeRule)
    : option uuid :=
  match rules with
  | [] => None
  | r :: rules' =>
      if negb (feeChannelEligible r channel) then duplicateFeeID channel seen rules'
      else if bool_decide (fr_ID r ∈ seen) then Some (fr_ID r)
      else duplicateFeeID channel (fr_ID r :: seen) rules'
  end.

(** The currency loop does not skip them. *)
Definition feeCurrencyMismatch (at_ : time) (currency : string) (rules : list FeeRule)
    : option FeeRule :=
  List.find (λ r, negb (feeIsPast at_ r) && negb (bool_decide (fr_Currency r = currency))) rules.

Definition feeWindowLosers (at_ : time) (rules : list FeeRule) : list LosingFeeRule :=
  omap (λ r,
    if feeIsPast at_ r then Some {| lf_Rule := r; lf_Reason := ReasonOutsideWindowPast |}
    else if feeNotYet at_ r then Some {| lf_Rule := r; lf_Reason := ReasonOutsideWindowFuture |}
    else None) rules.

Definition feeWindowEligible (at_ : time) (rules : list FeeRule) : list FeeRule :=
  List.filter (λ r, negb (feeIsPast at_ r) && negb (feeNotYet at_ r)) rules.

Definition SelectFeeRules (at_ : time) (inp : FeeCandidates) : result FeeError FeeSelection :=
  let scoped := List.filter (λ r, feeMatchesScope r (fcd_Scopes inp)) (fcd_Rules inp) in
  let scoped := isort (on_key fr_ID uuid_ltb) scoped in
  match duplicateFeeID (fcd_Channel inp) [] scoped with
  | Some id => Err (ErrDuplicateFeeRuleID id)
  | None =>
  match feeCurrencyMismatch at_ (fcd_Currency inp) scoped with
  | Some r => Err (ErrFeeRuleCurrencyMismatch (fr_ID r) (fr_Currency r) (fcd_Currency inp))
  | None =>
  let served := List.filter (λ r, feeChannelEligible r (fcd_Channel inp)) scoped in
  let eligible := feeWindowEligible at_ served in
  let windowLosers := group_by (λ l, fr_FeeCode (lf_Rule l)) (feeWindowLosers at_ served) in
  let byCode := group_by fr_FeeCode eligible in
  let codes := note_all [] (map fr_FeeCode eligible) in
  let codes := note_all codes (map fst (map_to_list windowLosers)) in
  let codes := isort String.ltb codes in
  Ok {| fs_ResolverVersion := FeeResolverVersion;
        fs_EvaluatedAt := at_;
        fs_OrganizerID := uuid_Nil;
        fs_PerformanceID := sc_SlotID (fcd_Scopes inp);
        fs_Currency := fcd_Currency inp;
        fs_Channel := fcd_Channel inp;
        fs_Fees := map (λ code, selectOneFeeCode code (default [] (byCode !! code))
                                  (default [] (windowLosers !! code))) codes |}
  end end.

(** The last step of [ResolveTicketTypeFees]: the split of every fee, against
    the schedules read in the same transaction, and the organizer. *)
Definition withSplits (at_ : time) (organizer : uuid) (channel : option string)
    (scopes : PricingScopes) (schedules : list SplitSchedule) (s : FeeSelection) : FeeSelection := {|
  fs_ResolverVersion := fs_ResolverVersion s;
  fs_EvaluatedAt := fs_EvaluatedAt s;
  fs_OrganizerID := organizer;
  fs_PerformanceID := fs_PerformanceID s;
  fs_Currency := fs_Currency s;
  fs_Channel := fs_Channel s;
  fs_Fees := map (λ f, {|
    fc_FeeCode := fc_FeeCode f; fc_Winner := fc_Winner f; fc_Candidates := fc_Candidates f;
    fc_Split := SelectSplitSchedule at_ (fc_FeeCode f) channel scopes schedules |}) (fs_Fees s);
|}.

(** ** The resolver discharges the ranking interface *)

#[export] Instance FeeRule_ranked : Ranked FeeRule := {|
  rk_id := fr_ID;
  rk_level := fr_ScopeLevel;
  rk_scope_id := fr_ScopeID;
  rk_channel := fr_ChannelCode;
  rk_priority := fr_Priority;
  rk_forced := fr_ForceAncestorOverride;
  rk_from := fr_EffectiveFrom;
  rk_until := fr_EffectiveUntil;
|}.

Lemma feeBeats_outranksb c b inverted : feeBeats c b inverted = outranksb inverted c b.
Proof. exact (ranked_beats_outranksb c b inverted). Qed.

Lemma feeLossReason_rank r w : feeLossReason r w = rank_reason r w.
Proof. reflexivity. Qed.

Lemma feeMatchesScope_spec r s :
  feeMatchesScope r s = true ↔ InScope s (fr_ScopeLevel r) (fr_ScopeID r).
Proof. exact (in_scopeb_spec s _ _). Qed.

Lemma feeChannelEligible_spec r q : feeChannelEligible r q = true ↔ ServesChannel q r.
Proof. exact (serves_channelb_spec q r). Qed.

Lemma fee_window_switch at_ r :
  window_reason at_ r =
    if feeIsPast at_ r then Some ReasonOutsideWindowPast
    else if feeNotYet at_ r then Some ReasonOutsideWindowFuture else None.
Proof. reflexivity. Qed.

Definition fee_loser_pair (l : LosingFeeRule) : FeeRule * LossReason := (lf_Rule l, lf_Reason l).

(** The rules attached to the request's scopes, in id order; those that also
    serve its channel; and those among them that carry a code. *)
Definition fee_scoped (inp : FeeCandidates) : list FeeRule :=
  isort (on_key fr_ID uuid_ltb)
    (List.filter (λ r, feeMatchesScope r (fcd_Scopes inp)) (fcd_Rules inp)).

Definition fee_served (inp : FeeCandidates) : list FeeRule :=
  List.filter (λ r, feeChannelEligible r (fcd_Channel inp)) (fee_scoped inp).

Definition fee_code_rules (inp : FeeCandidates) (code : string) : list FeeRule :=
  List.filter (λ r, bool_decide (fr_FeeCode r = code)) (fee_served inp).

Lemma elem_of_fee_scoped inp r :
  r ∈ fee_scoped inp ↔
  r ∈ fcd_Rules inp ∧ InScope (fcd_Scopes inp) (fr_ScopeLevel r) (fr_ScopeID r).
Proof. unfold fee_scoped. by rewrite elem_of_isort, elem_of_bool_filter, feeMatchesScope_spec. Qed.

Lemma elem_of_fee_served inp r :
  r ∈ fee_served inp ↔ r ∈ fee_scoped inp ∧ ServesChannel (fcd_Channel inp) r.
Proof. unfold fee_served. by rewrite elem_of_bool_filter, feeChannelEligible_spec. Qed.

Lemma elem_of_fee_code_rules inp code r :
  r ∈ fee_code_rules inp code ↔ r ∈ fee_served inp ∧ fr_FeeCode r = code.
Proof. unfold fee_code_rules. by rewrite elem_of_bool_filter, bool_decide_eq_true. Qed.

Lemma bool_filter_comm {A} (f g : A → bool) l :
  List.filter f (List.filter g l) = List.filter g (List.filter f l).
Proof.
  induction l as [|x l IH]; cbn; [done|].
  destruct (f x) eqn:F, (g x) eqn:G; cbn; rewrite ?F, ?G, IH; done.
Qed.

Lemma fee_byCode_open at_ inp code :
  default [] (group_by fr_FeeCode (feeWindowEligible at_ (fee_served inp)) !! code)
  = open_rules at_ (fee_code_rules inp code).
Proof.
  rewrite group_by_lookup. unfold feeWindowEligible, open_rules, fee_code_rules.
  rewrite bool_filter_comm. apply List.filter_ext. intros r.
  rewrite fee_window_switch. by destruct (feeIsPast at_ r), (feeNotYet at_ r).
Qed.

Lemma fee_byCode_shut at_ inp code :
  map fee_loser_pair (default [] (group_by (λ l, fr_FeeCode (lf_Rule l))
    (feeWindowLosers at_ (fee_served inp)) !! code))
  = shut_rules at_ (fee_code_rules inp code).
Proof.
  rewrite group_by_lookup. unfold feeWindowLosers, shut_rules, fee_code_rules.
  induction (fee_served inp) as [|r l IH]; cbn; [done|].
  case_bool_decide as Hc; cbn; rewrite fee_window_switch || idtac;
    destruct (feeIsPast at_ r); [|destruct (feeNotYet at_ r)|..|destruct (feeNotYet at_ r)]; cbn;
    rewrite ?(bool_decide_true _ Hc), ?(bool_decide_false _ Hc); cbn; by rewrite ?IH.
Qed.

Lemma selectOneFeeCode_cases code competitors window :
  fc_FeeCode (selectOneFeeCode code competitors window) = code ∧
  fc_Winner (selectOneFeeCode code competitors window) = contest competitors ∧
  map fee_loser_pair (fc_Candidates (selectOneFeeCode code competitors window)) ≡ₚ
    map fee_loser_pair window ++
    match contest competitors with Some w => ranked_losers w competitors | None => [] end.
Proof.
  unfold selectOneFeeCode, contest, competition. cbn [rk_forced FeeRule_ranked].
  destruct (if existsb fr_ForceAncestorOverride competitors then _ else _) as [|x l];
    cbn [fc_FeeCode fc_Winner fc_Candidates]; split_and!; try done; unfold sortFeeLosers.
  - by rewrite isort_perm, app_nil_r.
  - f_equal. apply best_of_ext. intros. apply feeBeats_outranksb.
  - rewrite isort_perm, map_app. apply Permutation_app_head.
    rewrite (best_of_ext (λ c b, feeBeats c b _) (outranksb (existsb fr_ForceAncestorOverride competitors)))
      by (intros; apply feeBeats_outranksb).
    unfold ranked_losers. rewrite map_map. erewrite map_ext; [done|]. intros r.
    unfold fee_loser_pair; cbn. by rewrite feeLossReason_rank.
Qed.

Lemma duplicateFeeID_None channel seen l :
  duplicateFeeID channel seen l = None ↔
  NoDup (map fr_ID (List.filter (λ r, feeChannelEligible r channel) l)) ∧
  ∀ r, r ∈ l → feeChannelEligible r channel = true → fr_ID r ∉ seen.
Proof.
  revert seen. induction l as [|r l IH]; intros seen; cbn.
  { split; [|done]. split; [constructor|]. by intros ? ?%elem_of_nil. }
  destruct (feeChannelEligible r channel) eqn:Hc; cbn.
  2: { rewrite IH. setoid_rewrite elem_of_cons. naive_solver congruence. }
  case_bool_decide as Hs.
  - split; [done|]. intros [_ H]. by apply (H r (list_elem_of_here _ _) Hc) in Hs.
  - rewrite IH, list.NoDup_cons. split.
    + intros [Hnd Hn]. split.
      * split; [|done]. intros (x & Hid & Hx)%list_elem_of_In%List.in_map_iff.
        apply list_elem_of_In, elem_of_bool_filter in Hx as [Hx Hxc].
        apply (Hn x Hx Hxc). rewrite Hid. by left.
      * intros x [->|Hx]%elem_of_cons Hxc; [done|]. intros ?. apply (Hn x Hx Hxc). by right.
    + intros [[Hni Hnd] Hn]. split; [done|].
      intros x Hx Hxc [Hid|Hseen]%elem_of_cons.
      * apply Hni. rewrite <-Hid. apply list_elem_of_In, List.in_map, list_elem_of_In.
        by apply elem_of_bool_filter.
      * by apply (Hn x (list_elem_of_further _ _ _ Hx) Hxc).
Qed.

Lemma feeCurrencyMismatch_None at_ c l :
  feeCurrencyMismatch at_ c l = None ↔ ∀ r, r ∈ l → feeIsPast at_ r = false → fr_Currency r = c.
Proof.
  unfold feeCurrencyMismatch. induction l as [|r l IH]; cbn; [set_solver|].
  setoid_rewrite elem_of_cons.
  destruct (feeIsPast at_ r) eqn:Ep; cbn; [naive_solver congruence|].
  case_bool_decide as Hc; cbn; [naive_solver|].
  split; [done|]. intros H. by destruct Hc; apply H; [left|].
Qed.

(** The codes the resolver visits: those some competing rule carries. *)
Definition fee_codes (at_ : time) (inp : FeeCandidates) : list string :=
  isort String.ltb (note_all
    (note_all [] (map fr_FeeCode (feeWindowEligible at_ (fee_served inp))))
    (map fst (map_to_list (group_by (λ l, fr_FeeCode (lf_Rule l))
      (feeWindowLosers at_ (fee_served inp)))))).

Lemma elem_of_fee_codes at_ inp code :
  code ∈ fee_codes at_ inp ↔ fee_code_rules inp code ≠ [].
Proof.
  unfold fee_codes. rewrite elem_of_isort, !elem_of_note_all, elem_of_nil.
  assert (Hfst : ∀ (A : Type) (m : gmap string A) k, k ∈ map fst (map_to_list m) ↔ is_Some (m !! k)).
  { intros A m k. rewrite list_elem_of_In, List.in_map_iff. setoid_rewrite <-list_elem_of_In.
    split.
    - intros ([k' v] & Hk & Hv); cbn in Hk; subst. exists v. by apply elem_of_map_to_list.
    - intros [v Hv]. exists (k, v). split; [done|]. by apply elem_of_map_to_list. }
  rewrite Hfst, group_by_is_Some.
  assert (Hel : code ∈ map fr_FeeCode (feeWindowEligible at_ (fee_served inp)) ↔
    ∃ r, r ∈ feeWindowEligible at_ (fee_served inp) ∧ fr_FeeCode r = code).
  { rewrite list_elem_of_In, List.in_map_iff. setoid_rewrite <-list_elem_of_In. naive_solver. }
  rewrite Hel. unfold feeWindowEligible, feeWindowLosers.
  assert (Hex : fee_code_rules inp code ≠ [] ↔ ∃ r, r ∈ fee_served inp ∧ fr_FeeCode r = code).
  { setoid_rewrite <-elem_of_fee_code_rules. split.
    - intros Hne. destruct (fee_code_rules inp code) as [|r l]; [done|]. exists r. apply list_elem_of_here.
    - intros [r Hr] Hnil. rewrite Hnil in Hr. by apply elem_of_nil in Hr. }
  rewrite Hex. split.
  - intros [[[]|(r & Hr & Hc)]|(l & Hl & Hc)].
    + apply elem_of_bool_filter in Hr as [Hr _]. eauto.
    + apply list_elem_of_omap in Hl as (r & Hr & Hl).
      destruct (feeIsPast at_ r), (feeNotYet at_ r); simplify_eq; cbn; eauto.
  - intros (r & Hr & Hc).
    destruct (feeIsPast at_ r) eqn:Ep; [right|destruct (feeNotYet at_ r) eqn:En; [right|left; right]].
    + eexists; split; [apply list_elem_of_omap; exists r; by rewrite Ep|done].
    + eexists; split; [apply list_elem_of_omap; exists r; by rewrite Ep, En|done].
    + exists r. split; [|done]. apply elem_of_bool_filter. by rewrite Ep, En.
Qed.

Lemma fee_codes_strict at_ inp : StronglySorted (λ a b, String.ltb a b = true) (fee_codes at_ inp).
Proof.
  apply sorted_strings_strict; [apply isort_sorted, _|].
  unfold fee_codes. rewrite isort_perm. by do 2 apply note_all_NoDup; constructor.
Qed.

(** Opens a successful resolution. *)
Lemma SelectFeeRules_cases at_ inp s :
  SelectFeeRules at_ inp = Ok s →
  NoDup (map fr_ID (fee_served inp)) ∧
  (∀ r, r ∈ fee_scoped inp → feeIsPast at_ r = false → fr_Currency r = fcd_Currency inp) ∧
  fs_Currency s = fcd_Currency inp ∧
  fs_Fees s = map (λ code, selectOneFeeCode code
    (open_rules at_ (fee_code_rules inp code))
    (default [] (group_by (λ l, fr_FeeCode (lf_Rule l))
       (feeWindowLosers at_ (fee_served inp)) !! code))) (fee_codes at_ inp).
Proof.
  unfold SelectFeeRules. cbn zeta. fold (fee_scoped inp). fold (fee_served inp).
  destruct (duplicateFeeID _ _ _) eqn:Hd; [done|].
  apply duplicateFeeID_None in Hd as [Hnd _].
  destruct (feeCurrencyMismatch _ _ _) eqn:Hc; [done|].
  pose proof (proj1 (feeCurrencyMismatch_None _ _ _) Hc) as Hcur.
  intros [= <-]; cbn [fs_Currency fs_Fees]. split_and!; try done.
  apply map_ext. intros code. by rewrite fee_byCode_open.
Qed.

Lemma fee_code_ids inp code :
  NoDup (map fr_ID (fee_served inp)) → NoDup (map fr_ID (fee_code_rules inp code)).
Proof. apply NoDup_map_filter. Qed.

Lemma elem_of_fees `{!UUIDLaws} at_ inp s f :
  SelectFeeRules at_ inp = Ok s → f ∈ fs_Fees s →
  fee_code_rules inp (fc_FeeCode f) ≠ [] ∧
  Adjudicates at_ (fee_code_rules inp (fc_FeeCode f)) (fc_Winner f)
    (map fee_loser_pair (fc_Candidates f)).
Proof.
  intros (Hnd & _ & _ & ->)%SelectFeeRules_cases.
  intros (code & <- & Hcode)%list_elem_of_In%List.in_map_iff.
  apply list_elem_of_In, elem_of_fee_codes in Hcode.
  destruct (selectOneFeeCode_cases code (open_rules at_ (fee_code_rules inp code))
    (default [] (group_by (λ l, fr_FeeCode (lf_Rule l))
      (feeWindowLosers at_ (fee_served inp)) !! code))) as (-> & -> & Hk).
  split; [done|]. apply contest_adjudicates; [by apply fee_code_ids|].
  unfold all_losers. by rewrite Hk, fee_byCode_shut.
Qed.

Lemma fee_served_perm inp rules :
  fcd_Rules inp ≡ₚ rules →
  fee_scoped inp ≡ₚ fee_scoped {| fcd_Currency := fcd_Currency inp; fcd_Scopes := fcd_Scopes inp;
                                  fcd_Channel := fcd_Channel inp; fcd_Rules := rules |}.
Proof. intros Hp. unfold fee_scoped; cbn [fcd_Rules fcd_Scopes]. by rewrite !isort_perm, Hp. Qed.

(** Price rules read as fee rules of one code. *)
Definition toFee (code : string) (r : PriceRule) : FeeRule := {|
  fr_ID := pr_ID r; fr_OrganizerID := pr_OrganizerID r; fr_ScopeLevel := pr_ScopeLevel r;
  fr_ScopeID := pr_ScopeID r; fr_FeeCode := code; fr_Basis := BasisPerTicketFixed;
  fr_Amount := Some (pr_Amount r); fr_RateBps := None; fr_Currency := pr_Currency r;
  fr_Incidence := IncidencePassedOn; fr_ChannelCode := pr_ChannelCode r;
  fr_Priority := pr_Priority r; fr_ForceAncestorOverride := pr_ForceAncestorOverride r;
  fr_EffectiveFrom := pr_EffectiveFrom r; fr_EffectiveUntil := pr_EffectiveUntil r;
  fr_CreatedAt := pr_CreatedAt r |}.

Lemma toFee_preserves code : Preserves (toFee code).
Proof. by split. Qed.

Definition asFees (code : string) (inp : PricingCandidates) : FeeCandidates := {|
  fcd_Currency := m_Currency (pc_BasePrice inp); fcd_Scopes := pc_Scopes inp;
  fcd_Channel := pc_Channel inp; fcd_Rules := map (toFee code) (pc_Rules inp) |}.

Lemma fee_served_asFees code inp : fee_served (asFees code inp) = map (toFee code) (considered inp).
Proof.
  unfold fee_served, fee_scoped, considered. cbn [asFees fcd_Rules fcd_Scopes fcd_Channel].
  rewrite (bool_filter_map (λ r, matchesScope r (pc_Scopes inp))) by done.
  rewrite (isort_map (on_key pr_ID uuid_ltb)) by done.
  by apply bool_filter_map.
Qed.

Lemma fee_code_rules_asFees code inp :
  fee_code_rules (asFees code inp) code = map (toFee code) (considered inp).
Proof.
  unfold fee_code_rules. rewrite fee_served_asFees. apply bool_filter_all.
  intros x (r & <- & _)%list_elem_of_In%List.in_map_iff. by apply bool_decide_true.
Qed.

Lemma fee_code_rules_other code code' inp :
  code' ≠ code → fee_code_rules (asFees code inp) code' = [].
Proof.
  intros Hne. apply elem_of_nil_inv. intros x [Hx Hc]%elem_of_fee_code_rules.
  rewrite fee_served_asFees in Hx.
  apply list_elem_of_In, List.in_map_iff in Hx as (r & <- & _). cbn in Hc. congruence.
Qed.

(** A strictly sorted list all of whose elements are one value. *)
Lemma strict_singleton (l : list string) c :
  StronglySorted (λ a b, String.ltb a b = true) l → (∀ x, x ∈ l ↔ x = c) → l = [c].
Proof.
  intros Hs Hl. destruct l as [|a [|b l]].
  - assert (Hin : c ∈ []) by (by apply Hl). by apply elem_of_nil in Hin.
  - f_equal. apply Hl, list_elem_of_here.
  - assert (a = c) as -> by (apply Hl, list_elem_of_here).
    assert (b = c) as -> by (apply Hl, list_elem_of_further, list_elem_of_here).
    inversion Hs as [|? ? _ Hall]; subst. inversion Hall; subst.
    rewrite (less_irrefl String.ltb) in *. done.
Qed.

(** ** Properties *)

(** A successful resolution lists the fee codes in strictly
    ascending order, one entry for exactly the codes that some considered rule
    carries, and every entry meets the abstract specification of the ranking
    over the rules of its code. *)
Theorem fees_adjudicated `{!UUIDLaws} at_ inp s :
  SelectFeeRules at_ inp = Ok s →
  StronglySorted (λ a b, String.ltb a b = true) (map fc_FeeCode (fs_Fees s)) ∧
  (∀ code, code ∈ map fc_FeeCode (fs_Fees s) ↔
    ∃ r, r ∈ fcd_Rules inp ∧ fr_FeeCode r = code ∧
      InScope (fcd_Scopes inp) (fr_ScopeLevel r) (fr_ScopeID r) ∧
      ServesChannel (fcd_Channel inp) r) ∧
  ∀ f, f ∈ fs_Fees s →
    Adjudicates at_ (fee_code_rules inp (fc_FeeCode f)) (fc_Winner f)
      (map fee_loser_pair (fc_Candidates f)).
Proof.
  intros Hs.
  assert (Hcodes : map fc_FeeCode (fs_Fees s) = fee_codes at_ inp).
  { apply SelectFeeRules_cases in Hs as (_ & _ & _ & ->). rewrite map_map.
    erewrite map_ext; [apply map_id|]. intros code; cbn beta.
    exact (proj1 (selectOneFeeCode_cases _ _ _)). }
  rewrite Hcodes. split_and!.
  - apply fee_codes_strict.
  - intros code. rewrite elem_of_fee_codes. split.
    + intros Hne. destruct (fee_code_rules inp code) as [|r l] eqn:E; [done|].
      assert (Hr : r ∈ fee_code_rules inp code) by (rewrite E; apply list_elem_of_here).
      apply elem_of_fee_code_rules in Hr as [[[??]%elem_of_fee_scoped ?]%elem_of_fee_served ?].
      by exists r.
    + intros (r & Hr & Hc & Hsc & Hch) Hnil.
      assert (Hin : r ∈ fee_code_rules inp code).
      { apply elem_of_fee_code_rules. split; [|done]. apply elem_of_fee_served.
        split; [|done]. by apply elem_of_fee_scoped. }
      rewrite Hnil in Hin. by apply elem_of_nil in Hin.
  - intros f Hf. by apply (elem_of_fees at_ inp s f Hs Hf).
Qed.

Lemma fee_errors at_ inp :
  is_ok (SelectFeeRules at_ inp) = true ↔
  NoDup (map fr_ID (fee_served inp)) ∧
  ∀ r, r ∈ fcd_Rules inp → InScope (fcd_Scopes inp) (fr_ScopeLevel r) (fr_ScopeID r) →
    (∀ u, fr_EffectiveUntil r = Some u → at_ < u) → fr_Currency r = fcd_Currency inp.
Proof.
  assert (Hpast : ∀ r, feeIsPast at_ r = false ↔ ∀ u, fr_EffectiveUntil r = Some u → at_ < u).
  { intros r. unfold feeIsPast, before. destruct (fr_EffectiveUntil r) as [u|]; [|naive_solver].
    rewrite negb_false_iff, Z.ltb_lt. naive_solver. }
  unfold SelectFeeRules. cbn zeta. fold (fee_scoped inp).
  pose proof (duplicateFeeID_None (fcd_Channel inp) [] (fee_scoped inp)) as Hd.
  fold (fee_served inp) in Hd |- *.
  pose proof (feeCurrencyMismatch_None at_ (fcd_Currency inp) (fee_scoped inp)) as Hc.
  setoid_rewrite elem_of_fee_scoped in Hc. setoid_rewrite Hpast in Hc.
  destruct (duplicateFeeID _ _ _) as [id|].
  { cbn. split; [done|]. intros [Hnd _].
    assert (Some id = None) by (apply Hd; split; [done|]; intros; apply not_elem_of_nil). done. }
  destruct (feeCurrencyMismatch _ _ _) as [r|].
  { cbn. split; [done|]. intros [_ Hcur]. assert (Some r = None); [|done]. apply Hc.
    intros r' [??] ?. by apply Hcur. }
  cbn. split; [|done]. intros _. split; [by apply Hd|]. intros r ???. by apply Hc.
Qed.

(** The fee resolver fails in exactly two situations: two rules
    that attach to the request and serve its channel share an id, or a rule
    that attaches to it and is not past, of whatever channel, is in another
    currency. *)
Theorem fees_fail_only_on_bad_configuration at_ inp :
  is_ok (SelectFeeRules at_ inp) = true ↔
  NoDup (map fr_ID (fee_served inp)) ∧
  ∀ r, r ∈ fcd_Rules inp → InScope (fcd_Scopes inp) (fr_ScopeLevel r) (fr_ScopeID r) →
    (∀ u, fr_EffectiveUntil r = Some u → at_ < u) → fr_Currency r = fcd_Currency inp.
Proof. apply fee_errors. Qed.

(** fees.go repeats the comparator of pricing.go, and the
    two agree: when the fee resolver answers for price rules read as fee rules
    of one code, the price resolver answers too, with the same winner, and the
    fee resolver lists that code alone, or nothing when no rule competes. *)
Theorem fees_agree_with_pricing at_ code inp f :
  SelectFeeRules at_ (asFees code inp) = Ok f →
  ∃ s, SelectPricingRule at_ inp = Ok s ∧
    if bool_decide (considered inp = []) then fs_Fees f = [] ∧ rs_Winner s = None
    else map (λ e, (fc_FeeCode e, fc_Winner e)) (fs_Fees f) = [(code, toFee code <$> rs_Winner s)].
Proof.
  intros Hf.
  assert (Hok : is_ok (SelectPricingRule at_ inp) = true).
  { assert (Hfok : is_ok (SelectFeeRules at_ (asFees code inp)) = true) by (by rewrite Hf).
    apply fee_errors in Hfok as [Hnd Hcur].
    apply pricing_errors. rewrite fee_served_asFees, map_map in Hnd. split; [done|].
    intros r (Hr & Hs & Hc) Hu. apply (Hcur (toFee code r)); [|done..].
    by apply list_elem_of_In, List.in_map, list_elem_of_In. }
  destruct (SelectPricingRule at_ inp) as [s|] eqn:Hs; [|done]. exists s. split; [done|].
  apply SelectPricingRule_cases in Hs as (_ & _ & Hw & _). rewrite windowEligible_open in Hw.
  apply SelectFeeRules_cases in Hf as (_ & _ & _ & ->).
  case_bool_decide as Hnil.
  - rewrite Hw, Hnil. split; [|done].
    destruct (fee_codes at_ (asFees code inp)) as [|c l] eqn:E; [done|].
    assert (Hc : c ∈ fee_codes at_ (asFees code inp)) by (rewrite E; apply list_elem_of_here).
    apply elem_of_fee_codes in Hc.
    destruct (decide (c = code)) as [->|Hne]; [|by rewrite fee_code_rules_other in Hc].
    by rewrite fee_code_rules_asFees, Hnil in Hc.
  - rewrite (strict_singleton (fee_codes at_ (asFees code inp)) code).
    + cbn [map]. destruct (selectOneFeeCode_cases code
        (open_rules at_ (fee_code_rules (asFees code inp) code))
        (default [] (group_by (λ l, fr_FeeCode (lf_Rule l))
          (feeWindowLosers at_ (fee_served (asFees code inp))) !! code))) as (-> & -> & _).
      rewrite fee_code_rules_asFees, (open_rules_map _ (toFee_preserves code)),
        (contest_map _ (toFee_preserves code)). by rewrite Hw.
    + apply fee_codes_strict.
    + intros c. rewrite elem_of_fee_codes. split.
      * intros Hc. destruct (decide (c = code)) as [|Hne]; [done|].
        by rewrite fee_code_rules_other in Hc.
      * intros ->. rewrite fee_code_rules_asFees. by destruct (considered inp).
Qed.
End Fees.

(** ** A concrete resolution *)
#[local] Existing Instance text_uuid.
#[local] Existing Instance text_uuid_laws.

Definition example_fee (id code : string) (level : ScopeLevel) (scope : string) : FeeRule := {|
  fr_ID := id; fr_OrganizerID := "org"%string; fr_ScopeLevel := level; fr_ScopeID := scope;
  fr_FeeCode := code; fr_Basis := BasisPercentageBps; fr_Amount := None; fr_RateBps := Some 250;
  fr_Currency := "EUR"; fr_Incidence := IncidencePassedOn; fr_ChannelCode := None; fr_Priority := 0;
  fr_ForceAncestorOverride := false; fr_EffectiveFrom := None; fr_EffectiveUntil := None;
  fr_CreatedAt := 0 |}.

Definition example_fees : FeeCandidates := {|
  fcd_Currency := "EUR"; fcd_Scopes := example_scopes; fcd_Channel := None;
  fcd_Rules := [example_fee "2" "service" ScopeEvent "event"; example_fee "1" "levy" ScopeVenue "venue";
                example_fee "3" "service" ScopeSlot "slot"] |}.

Lemma fees_adjudicated_witness :
  ∃ s, SelectFeeRules 0 example_fees = Ok s ∧
    map (λ f, (fc_FeeCode f, fr_ID <$> fc_Winner f)) (fs_Fees s) =
      [("levy", Some "1"); ("service", Some "3")]%string ∧
    ∀ f, f ∈ fs_Fees s → Adjudicates 0 (fee_code_rules example_fees (fc_FeeCode f)) (fc_Winner f)
      (map fee_loser_pair (fc_Candidates f)).
Proof.
  destruct (SelectFeeRules 0 example_fees) as [s|] eqn:E; [|vm_compute in E; discriminate E].
  exists s. split; [reflexivity|]. pose proof (fees_adjudicated _ _ _ E) as (_ & _ & H).
  split; [|exact H]. vm_compute in E. injection E as <-. vm_compute. reflexivity.
Defined.

Lemma fees_agree_with_pricing_witness :
  ∃ s, SelectPricingRule 10 example_candidates = Ok s ∧
    match SelectFeeRules 10 (asFees "x" example_candidates) with
    | Ok f => map (λ e, (fc_FeeCode e, fc_Winner e)) (fs_Fees f) = [("x"%string, toFee "x" <$> rs_Winner s)]
    | Err _ => False
    end.
Proof.
  destruct (SelectFeeRules 10 (asFees "x" example_candidates)) as [f|] eqn:E;
    [|vm_compute in E; discriminate E].
  destruct (fees_agree_with_pricing _ _ _ _ E) as (s & Hs & H). exists s. split; [exact Hs|].
  rewrite bool_decide_false in H; [exact H|]. intros Hn. vm_compute in Hn. discriminate Hn.
Defined.
