(* ===== verification/Composition.v ===== *)
(** * Sale-time composition: what a fee rule costs

    [services/commerce/internal/api/catalog_fees.go] and catalog_pricing.go.
    Catalog says which price and which fee rules apply; commerce refuses an
    answer it cannot trust ([priceResolution_validate], [feeResolution_validate])
    and is the only place a fee becomes money ([computeFeeBreakdown]). Amounts
    are Go [int64]s: every operator wraps, and the checks of the code are what
    keeps the results exact. The JSON decoding of the two answers is not
    modelled: the records are the decoded documents. *)

From S2P Require Import Prelude Text.

(** The two error classes the handlers tell apart, with what each message says. *)
Inductive SaleError :=
| errFeeTotalOverflow (why : string)
| errResolveUnusable (why : string)
| errResolveUnavailable (why : string).

#[export] Instance SaleError_eq_dec : EqDecision SaleError.
Proof. solve_decision. Defined.

Definition is_overflow (e : SaleError) : bool :=
  match e with errFeeTotalOverflow _ => true | _ => false end.

(** ** Checked arithmetic *)

Definition checkedMul (a b : Z) : result SaleError Z :=
  if (a <? 0) || (b <? 0) then Err (errFeeTotalOverflow "negative operand")
  else if negb (a =? 0) && (b >? quot64 MaxInt64 a) then Err (errFeeTotalOverflow "product")
  else Ok (mul64 a b).

Definition checkedAdd (a b : Z) : result SaleError Z :=
  if (a <? 0) || (b <? 0) then Err (errFeeTotalOverflow "negative operand")
  else if a >? sub64 MaxInt64 b then Err (errFeeTotalOverflow "sum")
  else Ok (add64 a b).

Definition checkedSub (a b : Z) : result SaleError Z :=
  if (a <? 0) || (b <? 0) || (a <? b) then Err (errFeeTotalOverflow "difference")
  else Ok (sub64 a b).

Definition feeFromRate (unitFace rateBps : Z) : result SaleError Z :=
  if (unitFace <? 0) || (rateBps <? 0) then Err (errFeeTotalOverflow "negative operand")
  else
    hi ← checkedMul (quot64 unitFace 10000) rateBps;
    let lo := quot64 (mul64 (rem64 unitFace 10000) rateBps) 10000 in
    checkedAdd hi lo.

Lemma checkedMul_Ok a b c : int64 a → int64 b →
  checkedMul a b = Ok c ↔ 0 ≤ a ∧ 0 ≤ b ∧ a * b ≤ MaxInt64 ∧ c = a * b.
Proof.
  intros Ha Hb. unfold checkedMul. destruct ((a <? 0) || (b <? 0)) eqn:E; zbool.
  { split; [done|]. intros. destruct E; zbool; lia. }
  destruct (Z.eqb_spec a 0) as [->|Hne]; cbn [negb andb].
  { rewrite Z.mul_0_l. unfold mul64. rewrite wrap64_id by done. unfold MaxInt64. naive_solver lia. }
  unfold int64, MinInt64 in *.
  rewrite quot64_id, Z.gtb_ltb by (unfold int64, MaxInt64, MinInt64; lia).
  assert (Hq : a * b ≤ MaxInt64 ↔ b ≤ Z.quot MaxInt64 a).
  { rewrite Z.quot_div_nonneg by (unfold MaxInt64; lia). split; intros.
    - apply Z.div_le_lower_bound; lia.
    - pose proof (Z.mul_div_le MaxInt64 a). nia. }
  destruct (Z.ltb_spec (Z.quot MaxInt64 a) b); cbn.
  - split; [done|lia].
  - rewrite mul64_id by (unfold int64, MinInt64; nia). naive_solver lia.
Qed.

Lemma checkedAdd_Ok a b c : int64 a → int64 b →
  checkedAdd a b = Ok c ↔ 0 ≤ a ∧ 0 ≤ b ∧ a + b ≤ MaxInt64 ∧ c = a + b.
Proof.
  intros Ha Hb. unfold checkedAdd. destruct ((a <? 0) || (b <? 0)) eqn:E; zbool.
  { split; [done|]. intros. destruct E; zbool; lia. }
  unfold int64, MinInt64 in *.
  rewrite sub64_id, Z.gtb_ltb by (unfold int64, MinInt64; lia).
  destruct (Z.ltb_spec (MaxInt64 - b) a); [split; [done|lia]|].
  rewrite add64_id by (unfold int64, MinInt64; lia). naive_solver lia.
Qed.

Lemma checkedSub_Ok a b c : int64 a → int64 b →
  checkedSub a b = Ok c ↔ 0 ≤ b ≤ a ∧ c = a - b.
Proof.
  intros Ha Hb. unfold checkedSub, int64, MinInt64 in *.
  destruct (Z.ltb_spec a 0), (Z.ltb_spec b 0), (Z.ltb_spec a b); cbn;
    try (split; [done|lia]).
  rewrite sub64_id by (unfold int64, MinInt64; lia). naive_solver lia.
Qed.

Lemma checkedMul_overflows a b e : checkedMul a b = Err e → is_overflow e = true.
Proof. unfold checkedMul. repeat case_match; naive_solver. Qed.
Lemma checkedAdd_overflows a b e : checkedAdd a b = Err e → is_overflow e = true.
Proof. unfold checkedAdd. repeat case_match; naive_solver. Qed.
Lemma feeFromRate_overflows a b e : feeFromRate a b = Err e → is_overflow e = true.
Proof.
  unfold feeFromRate. destruct (_ || _); [by intros [= <-]|].
  destruct (checkedMul _ _) eqn:E; cbn; [apply checkedAdd_overflows|].
  intros [= <-]. by eapply checkedMul_overflows.
Qed.

#[export] Hint Resolve checkedMul_overflows checkedAdd_overflows feeFromRate_overflows : go.

Lemma feeFromRate_Ok face rate v : int64 face → int32 rate →
  feeFromRate face rate = Ok v ↔
  0 ≤ face ∧ 0 ≤ rate ∧ face * rate / 10000 ≤ MaxInt64 ∧ v = face * rate / 10000.
Proof.
  intros Hf Hr. unfold feeFromRate.
  destruct ((face <? 0) || (rate <? 0)) eqn:E; zbool.
  { split; [done|]. intros. destruct E; zbool; lia. }
  rewrite bind_Ok, (rate_decomposition face rate) by lia.
  unfold rem64. rewrite quot64_id, Z.rem_mod_nonneg, Z.quot_div_nonneg by (done || lia).
  pose proof (Z.mod_pos_bound face 10000). pose proof (Z.div_pos face 10000).
  assert (Hd : face / 10000 ≤ face) by (apply Z.div_le_upper_bound; lia).
  unfold int64, int32, MinInt64, MaxInt64, MinInt32, MaxInt32 in *.
  assert (0 ≤ face mod 10000 * rate ≤ 9999 * 2147483647) by nia.
  rewrite mul64_id by (unfold int64, MinInt64, MaxInt64; lia).
  rewrite quot64_id, Z.quot_div_nonneg by (unfold int64, MinInt64, MaxInt64; lia).
  assert (0 ≤ face mod 10000 * rate / 10000 ≤ 2147483647).
  { split; [apply Z.div_pos; lia|apply Z.div_le_upper_bound; lia]. }
  assert (0 ≤ face / 10000 * rate) by nia.
  split.
  - intros (hi & Hm & Ha). apply checkedMul_Ok in Hm; [|unfold int64, MinInt64, MaxInt64; lia..].
    unfold MaxInt64 in Hm. destruct Hm as (? & ? & ? & ->).
    apply checkedAdd_Ok in Ha; [|unfold int64, MinInt64, MaxInt64; lia..]. unfold MaxInt64 in Ha. lia.
  - intros (? & ? & ? & ->). eexists. rewrite checkedMul_Ok by (unfold int64, MinInt64, MaxInt64; lia).
    split; [split_and!; unfold MaxInt64; [lia..|done]|].
    apply checkedAdd_Ok; unfold int64, MinInt64, MaxInt64; lia.
Qed.

Section Composition.
Context `{UU : UUID}.

Definition maxContractAmount : Z := 9007199254740991.

Record resolvedMoney := { rm_Amount : Z; rm_Currency : string }.

#[export] Instance resolvedMoney_eq_dec : EqDecision resolvedMoney.
Proof. solve_decision. Defined.

Record resolvedRule := {
  rr_RuleID : uuid;
  rr_ScopeLevel : string;
  rr_ScopeID : uuid;
  rr_ActionKind : string;
  rr_Amount : Z;
  rr_Currency : string;
}.

Record priceResolution := {
  pz_ResolverVersion : Z;
  pz_EvaluatedAt : time;
  pz_OrganizerID : uuid;
  pz_PerformanceID : uuid;
  pz_BasePrice : resolvedMoney;
  pz_ResolvedPrice : resolvedMoney;
  pz_Winner : option resolvedRule;
  pz_FallbackReason : option string;
  pz_ChannelCode : option string;
}.

Record resolvedFeeRule := {
  rf_RuleID : uuid;
  rf_FeeCode : string;
  rf_Basis : string;
  rf_Amount : option Z;
  rf_RateBps : option Z;
  rf_Currency : string;
  rf_Incidence : string;
}.

Record resolvedFeeCode := { rc_FeeCode : string; rc_Winner : option resolvedFeeRule }.

Record feeResolution := {
  fz_ResolverVersion : Z;
  fz_EvaluatedAt : time;
  fz_OrganizerID : uuid;
  fz_PerformanceID : uuid;
  fz_Currency : string;
  fz_ChannelCode : option string;
  fz_Fees : list resolvedFeeCode;
}.

Record feeBreakdownItem := {
  fb_FeeCode : string;
  fb_Basis : string;
  fb_Incidence : string;
  fb_Amount : Z;
  fb_Currency : string;
}.

Record feeComposition := {
  cp_Items : list feeBreakdownItem;
  cp_PassedOnTotal : Z;
  cp_AbsorbedTotal : Z;
}.

Definition basisPerTicketFixed : string := "per_ticket_fixed".
Definition basisPerOrderFixed : string := "per_order_fixed".
Definition basisPercentageBps : string := "percentage_bps".
Definition incidencePassedOn : string := "passed_on".
Definition incidenceAbsorbed : string := "absorbed".

Definition seqb (a b : string) : bool := bool_decide (a = b).

(** The [switch w.Basis] of the loop body. *)
Definition feeAmount (w : resolvedFeeRule) (unitFace q : Z) : result SaleError Z :=
  if seqb (rf_Basis w) basisPerTicketFixed then
    match rf_Amount w with
    | None => Err (errResolveUnusable (rf_Basis w +:+ " carries no amount"))
    | Some a => checkedMul a q
    end
  else if seqb (rf_Basis w) basisPerOrderFixed then
    match rf_Amount w with
    | None => Err (errResolveUnusable (rf_Basis w +:+ " carries no amount"))
    | Some a => Ok a
    end
  else if seqb (rf_Basis w) basisPercentageBps then
    match rf_RateBps w with
    | None => Err (errResolveUnusable (rf_Basis w +:+ " carries no rate"))
    | Some r => perTicket ← feeFromRate unitFace r; checkedMul perTicket q
    end
  else Err (errResolveUnusable ("unsupported fee basis " +:+ rf_Basis w)).

(** The [switch w.Incidence] of the loop body, after the append. *)
Definition addIncidence (w : resolvedFeeRule) (amount : Z) (out : feeComposition)
    : result SaleError feeComposition :=
  if seqb (rf_Incidence w) incidencePassedOn then
    t ← checkedAdd (cp_PassedOnTotal out) amount;
    Ok {| cp_Items := cp_Items out; cp_PassedOnTotal := t; cp_AbsorbedTotal := cp_AbsorbedTotal out |}
  else if seqb (rf_Incidence w) incidenceAbsorbed then
    t ← checkedAdd (cp_AbsorbedTotal out) amount;
    Ok {| cp_Items := cp_Items out; cp_PassedOnTotal := cp_PassedOnTotal out; cp_AbsorbedTotal := t |}
  else Err (errResolveUnusable ("unknown incidence " +:+ rf_Incidence w)).

Definition breakdownItem (w : resolvedFeeRule) (amount : Z) : feeBreakdownItem := {|
  fb_FeeCode := rf_FeeCode w; fb_Basis := rf_Basis w; fb_Incidence := rf_Incidence w;
  fb_Amount := amount; fb_Currency := rf_Currency w |}.

(** The loop over the resolved codes. *)
Fixpoint breakdownLoop (unitFace q : Z) (currency : string) (fees : list resolvedFeeCode)
    (out : feeComposition) : result SaleError feeComposition :=
  match fees with
  | [] => Ok out
  | f :: fees' =>
      match rc_Winner f with
      | None => breakdownLoop unitFace q currency fees' out
      | Some w =>
          if negb (seqb (rf_Currency w) currency)
          then Err (errResolveUnusable ("fee " +:+ rf_FeeCode w +:+ " is " +:+ rf_Currency w
                                        +:+ ", the sale is " +:+ currency))
          else
            amount ← feeAmount w unitFace q;
            if amount <? 0 then Err (errResolveUnusable ("negative fee " +:+ rf_FeeCode w))
            else
              out' ← addIncidence w amount {|
                cp_Items := cp_Items out ++ [breakdownItem w amount];
                cp_PassedOnTotal := cp_PassedOnTotal out;
                cp_AbsorbedTotal := cp_AbsorbedTotal out |};
              breakdownLoop unitFace q currency fees' out'
      end
  end.

Definition computeFeeBreakdown (fees : list resolvedFeeCode) (unitFace quantity : Z)
    (currency : string) : result SaleError feeComposition :=
  if quantity <? 1 then Err (errFeeTotalOverflow "quantity below 1")
  else breakdownLoop unitFace quantity currency fees
         {| cp_Items := []; cp_PassedOnTotal := 0; cp_AbsorbedTotal := 0 |}.

Definition composedTotal (faceValue passedOn : Z) : result SaleError Z :=
  checkedAdd faceValue passedOn.

Definition checkCompositionFits (fees : list resolvedFeeCode) (p : resolvedMoney)
    (faceValue quantity : Z) : result SaleError unit :=
  composition ← computeFeeBreakdown fees (rm_Amount p) quantity (rm_Currency p);
  _ ← composedTotal faceValue (cp_PassedOnTotal composition);
  Ok tt.

Definition priceResolution_total (p : priceResolution) (quantity : Z) : Z :=
  mul64 (rm_Amount (pz_ResolvedPrice p)) quantity.

(** ** What commerce refuses to build a sale on *)

Definition bad {T} (why : string) : result SaleError T := Err (errResolveUnusable why).

(** [if cond { return bad(why) }]. *)
Definition bad_if (cond : bool) (why : string) : result SaleError unit :=
  refuse_if cond (errResolveUnusable why).

Definition isISO4217 (c : string) : bool := isISOCurrency c.

Definition checkMoney (field : string) (m : resolvedMoney) : result SaleError unit :=
  if rm_Amount m <? 0 then bad ("negative " +:+ field)
  else if rm_Amount m >? maxContractAmount then bad (field +:+ " exceeds the contract's Money range")
  else if negb (isISO4217 (rm_Currency m)) then bad (field +:+ " carries a malformed currency")
  else Ok tt.

(** A present pointer that differs from what was asked. *)
Definition echoes_other (echoed : option string) (asked : option string) : bool :=
  match echoed, asked with Some e, Some a => negb (seqb e a) | _, _ => false end.

Definition present {T} (o : option T) : bool := match o with Some _ => true | None => false end.

Definition winner_disagrees (w : resolvedRule) (m : resolvedMoney) : bool :=
  negb (rr_Amount w =? rm_Amount m) || negb (seqb (rr_Currency w) (rm_Currency m)).

Definition winner_anonymous (w : resolvedRule) : bool :=
  bool_decide (rr_RuleID w = uuid_Nil) || seqb (rr_ScopeLevel w) "" ||
  bool_decide (rr_ScopeID w = uuid_Nil).

Definition priceResolution_validate (p : priceResolution) (organizerID : uuid) (quantity : Z)
    (channel : option string) : result SaleError unit :=
  _ ← bad_if (present (pz_ChannelCode p) && negb (present channel))
    "price resolution echoes a channel the sale did not request";
  _ ← bad_if (echoes_other (pz_ChannelCode p) channel)
    "price resolution echoes a different channel";
  _ ← bad_if (negb (present (pz_ChannelCode p)) && present channel)
    "price resolution omits the channel the sale requested";
  _ ← bad_if (pz_ResolverVersion p <? 1) "resolver_version below 1";
  _ ← checkMoney "base_price" (pz_BasePrice p);
  _ ← bad_if (negb (seqb (rm_Currency (pz_BasePrice p)) (rm_Currency (pz_ResolvedPrice p))))
    "base_price and resolved_price are in different currencies";
  _ ← bad_if (is_zero_time (pz_EvaluatedAt p)) "missing evaluated_at";
  _ ← bad_if (negb (bool_decide (pz_OrganizerID p = organizerID)))
    "resolution is for a different organizer";
  _ ← bad_if (bool_decide (pz_PerformanceID p = uuid_Nil)) "no performance id";
  _ ← bad_if (Bool.eqb (present (pz_Winner p)) (present (pz_FallbackReason p)))
    "winner and fallback_reason are not mutually exclusive";
  _ ← match pz_FallbackReason p with
      | Some why =>
          _ ← bad_if (negb (seqb why "no_eligible_rule")) ("unknown fallback_reason " +:+ why);
          bad_if (negb (bool_decide (pz_ResolvedPrice p = pz_BasePrice p)))
            "fallback did not resolve to the base price"
      | None => Ok tt
      end;
  _ ← match pz_Winner p with
      | Some w =>
          _ ← bad_if (negb (seqb (rr_ActionKind w) "absolute"))
            ("unsupported action_kind " +:+ rr_ActionKind w);
          _ ← bad_if (winner_disagrees w (pz_ResolvedPrice p))
            "resolved_price disagrees with the winning rule";
          bad_if (winner_anonymous w) "winner is missing its identity"
      | None => Ok tt
      end;
  _ ← bad_if (rm_Amount (pz_ResolvedPrice p) <? 0) "negative resolved price";
  _ ← bad_if (negb (seqb (rm_Currency (pz_ResolvedPrice p)) "EUR")) "commerce sells in EUR only";
  bad_if ((quantity <? 1) || (rm_Amount (pz_ResolvedPrice p) >? quot64 MaxInt64 quantity))
    "resolved price overflows the order total".

Definition checkFeeValue (w : resolvedFeeRule) : result SaleError unit :=
  if seqb (rf_Basis w) basisPerTicketFixed || seqb (rf_Basis w) basisPerOrderFixed then
    match rf_Amount w with
    | None => bad (rf_Basis w +:+ " carries no amount")
    | Some a =>
        _ ← bad_if (present (rf_RateBps w)) (rf_Basis w +:+ " carries a rate as well as an amount");
        bad_if ((a <? 0) || (a >? maxContractAmount)) "fee amount is outside the contract's Money range"
    end
  else if seqb (rf_Basis w) basisPercentageBps then
    match rf_RateBps w with
    | None => bad "percentage_bps carries no rate"
    | Some r =>
        _ ← bad_if (present (rf_Amount w)) "percentage_bps carries an amount as well as a rate";
        bad_if ((r <? 0) || (r >? 10000)) "rate_bps outside 0..10000"
    end
  else bad ("unsupported fee basis " +:+ rf_Basis w).

(** The body of the loop over [f.Fees] for a code that has a winner. *)
Definition checkFeeWinner (c : resolvedFeeCode) (w : resolvedFeeRule) : result SaleError unit :=
  _ ← bad_if (negb (seqb (rf_FeeCode w) (rc_FeeCode c)))
    "winner's fee code disagrees with its resolution entry";
  _ ← bad_if (bool_decide (rf_RuleID w = uuid_Nil)) "winner is missing its identity";
  _ ← checkFeeValue w;
  _ ← bad_if (negb (seqb (rf_Incidence w) incidencePassedOn) &&
              negb (seqb (rf_Incidence w) incidenceAbsorbed)) ("unknown incidence " +:+ rf_Incidence w);
  bad_if (negb (isISO4217 (rf_Currency w))) "fee rule carries a malformed currency".

Fixpoint checkFeeCodes (seen : list string) (fees : list resolvedFeeCode) : result SaleError unit :=
  match fees with
  | [] => Ok tt
  | c :: fees' =>
      _ ← bad_if (seqb (rc_FeeCode c) "") "a fee code is empty";
      _ ← bad_if (bool_decide (rc_FeeCode c ∈ seen)) ("duplicate fee code " +:+ rc_FeeCode c);
      _ ← match rc_Winner c with None => Ok tt | Some w => checkFeeWinner c w end;
      checkFeeCodes (rc_FeeCode c :: seen) fees'
  end.

Definition feeResolution_validate (f : feeResolution) (organizerID performanceID : uuid)
    (channel : option string) : result SaleError unit :=
  _ ← bad_if (fz_ResolverVersion f <? 1) "fee resolver_version below 1";
  _ ← bad_if (is_zero_time (fz_EvaluatedAt f)) "missing evaluated_at";
  _ ← bad_if (negb (bool_decide (fz_OrganizerID f = organizerID)))
    "fee resolution is for a different organizer";
  _ ← bad_if (bool_decide (fz_PerformanceID f = uuid_Nil)) "fee resolution names no performance";
  _ ← bad_if (negb (bool_decide (fz_PerformanceID f = performanceID)))
    "fee resolution is for a different performance";
  _ ← bad_if (negb (isISO4217 (fz_Currency f))) "fee resolution carries a malformed currency";
  _ ← bad_if (negb (present channel) && present (fz_ChannelCode f))
    "resolution echoes a channel the sale did not request";
  _ ← bad_if (present channel &&
              match fz_ChannelCode f with None => true | Some e => echoes_other (Some e) channel end)
    "resolution echoes a different channel";
  checkFeeCodes [] (fz_Fees f).

(** ** The reservation handler's composition (server.go, [reserveWithScope]) *)

(** What a call to catalog brought back: nothing usable as an answer (a
    transport failure or another status than 200), a body that does not decode
    or that jsonb cannot store, or the decoded document. *)
Inductive answer (T : Type) :=
| Unavailable
| Undecodable
| Document (d : T).
#[global] Arguments Unavailable {T}.
#[global] Arguments Undecodable {T}.
#[global] Arguments Document {T} _.

Definition resolveTicketTypePrice (a : answer priceResolution) (organizerID : uuid) (quantity : Z)
    (channel : option string) : result SaleError priceResolution :=
  match a with
  | Unavailable => Err (errResolveUnavailable "catalog")
  | Undecodable => bad "body is not a PriceResolution"
  | Document p => _ ← priceResolution_validate p organizerID quantity channel; Ok p
  end.

Definition resolveTicketTypeFees (a : answer feeResolution) (organizerID performanceID : uuid)
    (channel : option string) : result SaleError feeResolution :=
  match a with
  | Unavailable => Err (errResolveUnavailable "catalog")
  | Undecodable => bad "body is not a FeeResolution"
  | Document f => _ ← feeResolution_validate f organizerID performanceID channel; Ok f
  end.

Record Refusal := { status : Z; message : string }.
Definition refuse {T} (code : Z) (why : string) : result Refusal T :=
  Err {| status := code; message := why |}.

Definition unresolved {T} (e : SaleError) (why : string) : result Refusal T :=
  match e with
  | errResolveUnavailable _ => refuse 502 "catalog unavailable"
  | _ => refuse 500 why
  end.

(** Everything the handler decides before it asks inventory for a hold. *)
Definition quoteBeforeHold (pa : answer priceResolution) (fa : answer feeResolution)
    (organizerID : uuid) (units : Z) (channel : option string)
    : result Refusal (priceResolution * feeResolution) :=
  match resolveTicketTypePrice pa organizerID units channel with
  | Err e => unresolved e "price resolution unusable"
  | Ok resolution =>
  match resolveTicketTypeFees fa organizerID (pz_PerformanceID resolution) channel with
  | Err e => unresolved e "fee resolution unusable"
  | Ok fees =>
  if negb (seqb (fz_Currency fees) (rm_Currency (pz_ResolvedPrice resolution)))
  then refuse 500 "fee resolution unusable"
  else match checkCompositionFits (fz_Fees fees) (pz_ResolvedPrice resolution)
               (priceResolution_total resolution units) units with
       | Err _ => refuse 400 "order total out of range"
       | Ok _ => Ok (resolution, fees)
       end
  end end.

Record Charge := { ch_FaceValue : Z; ch_Composition : feeComposition; ch_Total : Z }.

(** What it computes once the hold exists, at the quantity the claim has. *)
Definition chargeAfterHold (resolution : priceResolution) (fees : feeResolution) (quantity : Z)
    : result Refusal Charge :=
  let faceValue := priceResolution_total resolution quantity in
  match computeFeeBreakdown (fz_Fees fees) (rm_Amount (pz_ResolvedPrice resolution)) quantity
          (rm_Currency (pz_ResolvedPrice resolution)) with
  | Err _ => refuse 500 "fee composition failed after the hold"
  | Ok composition =>
  match composedTotal faceValue (cp_PassedOnTotal composition) with
  | Err _ => refuse 500 "fee composition failed after the hold"
  | Ok total => Ok {| ch_FaceValue := faceValue; ch_Composition := composition; ch_Total := total |}
  end end.

(** ** The exact fee, over unbounded integers *)

(** What a rule costs [q] tickets of face [face], when the rule carries the
    value its basis needs and no operand is negative. *)
Definition exactFee (face q : Z) (w : resolvedFeeRule) : option Z :=
  if seqb (rf_Basis w) basisPerTicketFixed then
    match rf_Amount w with Some a => if 0 <=? a then Some (a * q) else None | None => None end
  else if seqb (rf_Basis w) basisPerOrderFixed then
    match rf_Amount w with Some a => if 0 <=? a then Some a else None | None => None end
  else if seqb (rf_Basis w) basisPercentageBps then
    match rf_RateBps w with
    | Some r => if (0 <=? face) && (0 <=? r) then Some (face * r / 10000 * q) else None
    | None => None
    end
  else None.

Definition KnownIncidence (w : resolvedFeeRule) : Prop :=
  rf_Incidence w = incidencePassedOn ∨ rf_Incidence w = incidenceAbsorbed.

Definition Charged (face q : Z) (currency : string) (w : resolvedFeeRule) (a : Z) : Prop :=
  rf_Currency w = currency ∧ exactFee face q w = Some a ∧ KnownIncidence w.

(** The codes that have a live rule. *)
Definition winners (fees : list resolvedFeeCode) : list resolvedFeeRule := omap rc_Winner fees.

(** What the items of one incidence add up to. *)
Definition borne (incidence : string) (items : list feeBreakdownItem) : Z :=
  sumZ (map fb_Amount (List.filter (λ i, seqb (fb_Incidence i) incidence) items)).

Definition composition_of (items : list feeBreakdownItem) : feeComposition := {|
  cp_Items := items;
  cp_PassedOnTotal := borne incidencePassedOn items;
  cp_AbsorbedTotal := borne incidenceAbsorbed items |}.

(** The Go types of a rule's fields. *)
Definition fee_typed (w : resolvedFeeRule) : Prop :=
  (∀ a, rf_Amount w = Some a → int64 a) ∧ (∀ r, rf_RateBps w = Some r → int32 r).

Definition fees_typed (fees : list resolvedFeeCode) : Prop :=
  Forall fee_typed (winners fees).

Lemma seqb_true a b : seqb a b = true ↔ a = b.
Proof. apply bool_decide_eq_true. Qed.
Lemma seqb_refl a : seqb a a = true.
Proof. by apply seqb_true. Qed.

Lemma exactFee_nonneg face q w a : 0 ≤ q → exactFee face q w = Some a → 0 ≤ a.
Proof.
  intros Hq. unfold exactFee. repeat case_match; intros; simplify_eq; zbool; try nia.
  match goal with |- 0 ≤ ?x / ?d * _ => pose proof (Z.div_pos x d) end. nia.
Qed.

Lemma feeAmount_Ok face q w a :
  fee_typed w → int64 face → int32 q → 1 ≤ q →
  feeAmount w face q = Ok a ∧ 0 ≤ a ↔ exactFee face q w = Some a ∧ a ≤ MaxInt64.
Proof.
  intros [Ha Hr] Hf Hq Hq1. pose proof (int32_int64 _ Hq) as Hq64.
  assert (Hsmall : ∀ z, int64 z → z ≤ MaxInt64) by (unfold int64; lia).
  unfold feeAmount, exactFee.
  destruct (seqb (rf_Basis w) basisPerTicketFixed).
  { destruct (rf_Amount w) as [b|]; [|naive_solver]. specialize (Ha b eq_refl).
    rewrite checkedMul_Ok by done. destruct (Z.leb_spec 0 b); naive_solver lia. }
  destruct (seqb (rf_Basis w) basisPerOrderFixed).
  { destruct (rf_Amount w) as [b|]; [|naive_solver]. specialize (Hsmall b (Ha b eq_refl)).
    destruct (Z.leb_spec 0 b); naive_solver lia. }
  destruct (seqb (rf_Basis w) basisPercentageBps); [|naive_solver].
  destruct (rf_RateBps w) as [r|]; [|naive_solver]. specialize (Hr r eq_refl).
  rewrite bind_Ok. setoid_rewrite feeFromRate_Ok; [|done..].
  assert (Hv : ∀ v, 0 ≤ v ≤ MaxInt64 → int64 v) by (unfold int64, MinInt64; lia).
  split.
  - intros [(v & (? & ? & Hle & ->) & Hm) ?].
    assert (0 ≤ face * r / 10000) by (apply Z.div_pos; nia).
    apply checkedMul_Ok in Hm as (? & ? & ? & ->); [|by apply Hv|done].
    destruct (Z.leb_spec 0 face), (Z.leb_spec 0 r); cbn; try lia. done.
  - destruct (Z.leb_spec 0 face), (Z.leb_spec 0 r); cbn; intros [[= <-] ?].
    assert (0 ≤ face * r / 10000) by (apply Z.div_pos; nia).
    split; [|nia]. exists (face * r / 10000). split; [split_and!; [done..|nia|done]|].
    apply checkedMul_Ok; [apply Hv; nia|done|]. split_and!; [done|lia|done|done].
Qed.

Lemma borne_app inc i1 i2 : borne inc (i1 ++ i2) = borne inc i1 + borne inc i2.
Proof. unfold borne. by rewrite List.filter_app, map_app, sumZ_app. Qed.

Lemma borne_nonneg inc items : Forall (λ i, 0 ≤ fb_Amount i) items → 0 ≤ borne inc items.
Proof.
  unfold borne. induction 1 as [|i l Hi _ IH]; cbn; [lia|].
  destruct (seqb (fb_Incidence i) inc); cbn; lia.
Qed.

Lemma borne_cons_bound inc i items :
  Forall (λ i, 0 ≤ fb_Amount i) (i :: items) → 0 ≤ borne inc [i] ≤ borne inc (i :: items).
Proof.
  intros H. inversion H as [|? ? Hi Hl]; subst.
  pose proof (borne_nonneg inc items Hl). change (i :: items) with ([i] ++ items).
  rewrite borne_app. unfold borne at 1 2. cbn. destruct (seqb _ _); cbn; lia.
Qed.

(** One item counts toward its own incidence. *)
Lemma borne_own w a : borne (rf_Incidence w) [breakdownItem w a] = a.
Proof. unfold borne. cbn [List.filter fb_Incidence breakdownItem]. rewrite seqb_refl. cbn. lia. Qed.

Lemma charged_items_nonneg face q cur ws amounts :
  0 ≤ q → Forall2 (Charged face q cur) ws amounts →
  Forall (λ i, 0 ≤ fb_Amount i) (zip_with breakdownItem ws amounts).
Proof.
  intros Hq. induction 1 as [|w a ws amounts (_ & Ha & _) _ IH]; cbn; constructor; [|done].
  by apply exactFee_nonneg in Ha.
Qed.

Definition totals_in_range (out : feeComposition) : Prop :=
  0 ≤ cp_PassedOnTotal out ≤ MaxInt64 ∧ 0 ≤ cp_AbsorbedTotal out ≤ MaxInt64.

(** A composition with more items charged, over unbounded integers. *)
Definition add_items (out : feeComposition) (items : list feeBreakdownItem) : feeComposition := {|
  cp_Items := cp_Items out ++ items;
  cp_PassedOnTotal := cp_PassedOnTotal out + borne incidencePassedOn items;
  cp_AbsorbedTotal := cp_AbsorbedTotal out + borne incidenceAbsorbed items |}.

Lemma add_items_nil out : add_items out [] = out.
Proof. destruct out. unfold add_items, borne; cbn. by rewrite app_nil_r, !Z.add_0_r. Qed.

Lemma add_items_cons out i items : add_items out (i :: items) = add_items (add_items out [i]) items.
Proof.
  unfold add_items. cbn [cp_Items cp_PassedOnTotal cp_AbsorbedTotal].
  change (i :: items) with ([i] ++ items).
  by rewrite !borne_app, <-app_assoc, !Z.add_assoc.
Qed.

Lemma addIncidence_Ok w a out out' :
  0 ≤ a ≤ MaxInt64 → totals_in_range out →
  addIncidence w a {| cp_Items := cp_Items out ++ [breakdownItem w a];
                      cp_PassedOnTotal := cp_PassedOnTotal out;
                      cp_AbsorbedTotal := cp_AbsorbedTotal out |} = Ok out' ↔
  KnownIncidence w ∧ out' = add_items out [breakdownItem w a] ∧ totals_in_range out'.
Proof.
  intros Ha [Hp Hb].
  assert (H64 : ∀ z, 0 ≤ z ≤ MaxInt64 → int64 z) by (unfold int64, MinInt64; lia).
  unfold addIncidence, KnownIncidence, add_items, borne, totals_in_range.
  cbn [List.filter fb_Incidence breakdownItem cp_Items cp_PassedOnTotal cp_AbsorbedTotal].
  destruct (seqb (rf_Incidence w) incidencePassedOn) eqn:E1;
    destruct (seqb (rf_Incidence w) incidenceAbsorbed) eqn:E2; cbn [map sumZ fb_Amount breakdownItem].
  1: { apply seqb_true in E1, E2. rewrite E1 in E2; vm_compute in E2; discriminate. }
  3: { split; [done|]. intros ([E|E] & _); rewrite E in *; by rewrite seqb_refl in *. }
  all: apply seqb_true in E1 || apply seqb_true in E2.
  all: rewrite bind_Ok; setoid_rewrite checkedAdd_Ok; [|by apply H64..].
  all: split; [intros (t & (? & ? & ? & ->) & [= <-])|intros (_ & -> & H1 & H2)];
    cbn [cp_PassedOnTotal cp_AbsorbedTotal] in *.
  1, 3: split_and!; [tauto|f_equal; lia|lia..].
  all: eexists; split; [split_and!; [..|reflexivity]; lia|]; do 2 f_equal; lia.
Qed.

Lemma add_items_range out items :
  totals_in_range out → Forall (λ i, 0 ≤ fb_Amount i) items →
  totals_in_range (add_items out items) ↔
  cp_PassedOnTotal (add_items out items) ≤ MaxInt64 ∧ cp_AbsorbedTotal (add_items out items) ≤ MaxInt64.
Proof.
  intros [??] Hnn. pose proof (borne_nonneg incidencePassedOn items Hnn).
  pose proof (borne_nonneg incidenceAbsorbed items Hnn).
  unfold totals_in_range; cbn. lia.
Qed.

Lemma add_items_range_prefix out i items :
  totals_in_range out → Forall (λ i, 0 ≤ fb_Amount i) (i :: items) →
  totals_in_range (add_items out (i :: items)) → totals_in_range (add_items out [i]).
Proof.
  intros Hr Hnn. pose proof (borne_cons_bound incidencePassedOn i items Hnn).
  pose proof (borne_cons_bound incidenceAbsorbed i items Hnn).
  unfold totals_in_range in *. cbn [add_items cp_PassedOnTotal cp_AbsorbedTotal]. lia.
Qed.

(** A charged item that keeps the totals in range is in range itself. *)
Lemma item_in_range w a out :
  KnownIncidence w → totals_in_range out → 0 ≤ a →
  totals_in_range (add_items out [breakdownItem w a]) → a ≤ MaxInt64.
Proof.
  intros Hk [??] ? [Hp Ha]. cbn [add_items cp_PassedOnTotal cp_AbsorbedTotal] in *.
  pose proof (borne_own w a) as Hb. destruct Hk as [Hk|Hk]; rewrite Hk in Hb; lia.
Qed.

(** The loop adds the exact fees to whatever it started from. *)
Lemma breakdownLoop_Ok face q cur fees out out' :
  fees_typed fees → int64 face → int32 q → 1 ≤ q → totals_in_range out →
  breakdownLoop face q cur fees out = Ok out' ↔
  ∃ amounts, Forall2 (Charged face q cur) (winners fees) amounts ∧
    out' = add_items out (zip_with breakdownItem (winners fees) amounts) ∧ totals_in_range out'.
Proof.
  intros Ht Hf Hq Hq1. revert out. induction fees as [|f fees IH]; intros out Hout; cbn.
  { split.
    - intros [= <-]. exists []. split; [constructor|]. by rewrite add_items_nil.
    - intros (amounts & Hall & -> & _). by rewrite add_items_nil. }
  unfold fees_typed, winners in *. cbn in Ht |- *. destruct (rc_Winner f) as [w|]; [|by apply IH].
  inversion Ht as [|? ? Hw Htl]; subst. specialize (IH Htl).
  destruct (seqb (rf_Currency w) cur) eqn:Hc; cbn [negb].
  2: { split; [done|]. intros (amounts & Hall & _).
       inversion Hall as [|? ? ? ? (Hcur & _) _]; subst. by rewrite seqb_refl in Hc. }
  apply seqb_true in Hc. rewrite bind_Ok. split.
  - intros (a & Ham & H). destruct (Z.ltb_spec a 0) as [|Ha0]; [done|].
    destruct (proj1 (feeAmount_Ok face q w a Hw Hf Hq Hq1) (conj Ham Ha0)) as [Hex Hmax].
    apply bind_Ok in H as (out1 & Hadd & Hrest).
    apply addIncidence_Ok in Hadd as (Hk & -> & Hr1); [|lia|done].
    apply IH in Hrest as (amounts & Hall & -> & Hr); [|done].
    exists (a :: amounts). split; [by constructor|]. cbn [zip_with].
    split; [symmetry; apply add_items_cons|done].
  - intros (amounts & Hall & -> & Hr).
    pose proof (charged_items_nonneg face q cur _ _ ltac:(lia) Hall) as Hnn.
    inversion Hall as [|? a ? amounts' (_ & Hex & Hk) Hall']; subst amounts. cbn [zip_with] in Hnn, Hr |- *.
    pose proof (exactFee_nonneg face q w a ltac:(lia) Hex) as Ha0.
    pose proof (add_items_range_prefix _ _ _ Hout Hnn Hr) as Hr1.
    pose proof (item_in_range w a out Hk Hout Ha0 Hr1) as Hmax.
    exists a. destruct (proj2 (feeAmount_Ok face q w a Hw Hf Hq Hq1) (conj Hex Hmax)) as [Hamt _].
    split; [done|]. rewrite (proj2 (Z.ltb_ge a 0)) by lia. apply bind_Ok.
    exists (add_items out [breakdownItem w a]).
    split; [by apply addIncidence_Ok; [lia|done|]|]. apply IH; [done|].
    exists amounts'. split_and!; [done|apply add_items_cons|done].
Qed.

Lemma computeFeeBreakdown_Ok fees face q cur out :
  fees_typed fees → int64 face → int32 q →
  computeFeeBreakdown fees face q cur = Ok out ↔
  1 ≤ q ∧ ∃ amounts, Forall2 (Charged face q cur) (winners fees) amounts ∧
    out = composition_of (zip_with breakdownItem (winners fees) amounts) ∧
    cp_PassedOnTotal out ≤ MaxInt64 ∧ cp_AbsorbedTotal out ≤ MaxInt64.
Proof.
  intros Ht Hf Hq. unfold computeFeeBreakdown.
  destruct (Z.ltb_spec q 1) as [|Hq1]; [split; [done|lia]|].
  set (zero := {| cp_Items := []; cp_PassedOnTotal := 0; cp_AbsorbedTotal := 0 |}).
  assert (Hz : totals_in_range zero) by (unfold totals_in_range, MaxInt64; cbn; lia).
  assert (Hadd : ∀ items, add_items zero items = composition_of items) by done.
  rewrite breakdownLoop_Ok by done. setoid_rewrite Hadd. split.
  - intros (amounts & Hall & -> & [??]). split; [done|]. exists amounts. split_and!; [done..|lia|lia].
  - intros (_ & amounts & Hall & -> & ? & ?). exists amounts. split_and!; [done..|].
    pose proof (charged_items_nonneg face q cur _ _ ltac:(lia) Hall) as Hnn.
    rewrite <-Hadd in *. by apply add_items_range.
Qed.

(** Fees do not decrease with the quantity. *)
Lemma exactFee_mono face q q' w a :
  0 ≤ q' ≤ q → exactFee face q w = Some a → ∃ a', exactFee face q' w = Some a' ∧ a' ≤ a.
Proof.
  intros Hq. unfold exactFee. repeat case_match; intros; simplify_eq; zbool; eexists; (split; [done|]);
    try nia; try lia.
  match goal with |- ?x / ?d * _ ≤ _ => pose proof (Z.div_pos x d) end. nia.
Qed.

Lemma charged_mono face q q' cur ws amounts :
  0 ≤ q' ≤ q → Forall2 (Charged face q cur) ws amounts →
  ∃ amounts', Forall2 (Charged face q' cur) ws amounts' ∧ Forall2 Z.le amounts' amounts.
Proof.
  intros Hq. induction 1 as [|w a ws amounts (Hc & Ha & Hk) _ (l & Hl & Hle)]; [by exists []|].
  destruct (exactFee_mono face q q' w a Hq Ha) as (a' & Ha' & ?).
  exists (a' :: l). split; constructor; done.
Qed.

Lemma borne_mono inc ws l l' :
  length ws = length l → Forall2 Z.le l' l →
  borne inc (zip_with breakdownItem ws l') ≤ borne inc (zip_with breakdownItem ws l).
Proof.
  intros Hlen Hle. revert ws Hlen. induction Hle as [|a' a l' l Ha _ IH]; intros [|w ws] Hlen; try done.
  cbn [zip_with]. injection Hlen as Hlen. specialize (IH ws Hlen).
  unfold borne in *. cbn [List.filter fb_Incidence breakdownItem].
  destruct (seqb (rf_Incidence w) inc); cbn [map sumZ fb_Amount breakdownItem]; lia.
Qed.

Lemma computeFeeBreakdown_mono fees face q q' cur out :
  fees_typed fees → int64 face → int32 q → 1 ≤ q' ≤ q →
  computeFeeBreakdown fees face q cur = Ok out →
  ∃ out', computeFeeBreakdown fees face q' cur = Ok out' ∧
    cp_PassedOnTotal out' ≤ cp_PassedOnTotal out ∧ cp_AbsorbedTotal out' ≤ cp_AbsorbedTotal out.
Proof.
  intros Ht Hf Hq Hle H. apply computeFeeBreakdown_Ok in H as (_ & amounts & Hall & -> & ? & ?); [|done..].
  destruct (charged_mono face q q' cur _ _ ltac:(lia) Hall) as (l & Hl & Hll).
  pose proof (borne_mono incidencePassedOn _ _ _ (list.Forall2_length _ _ _ Hall) Hll).
  pose proof (borne_mono incidenceAbsorbed _ _ _ (list.Forall2_length _ _ _ Hall) Hll).
  cbn [composition_of cp_PassedOnTotal cp_AbsorbedTotal] in *.
  eexists. split; [apply computeFeeBreakdown_Ok; [done..| |]|].
  - unfold int32, MinInt32 in *. lia.
  - split; [lia|]. exists l. split_and!; [done..| |]; cbn; lia.
  - cbn. lia.
Qed.

(** Fees per ticket add up over a split of the quantity. *)
Definition PerTicket (w : resolvedFeeRule) : Prop := rf_Basis w ≠ basisPerOrderFixed.

Lemma charged_add face q1 q2 cur ws amounts :
  0 ≤ q1 → 0 ≤ q2 → Forall PerTicket ws → Forall2 (Charged face (q1 + q2) cur) ws amounts →
  ∃ l1 l2, Forall2 (Charged face q1 cur) ws l1 ∧ Forall2 (Charged face q2 cur) ws l2 ∧
    amounts = zip_with Z.add l1 l2.
Proof.
  intros H1 H2 Hp Hall. induction Hall as [|w a ws amounts (Hc & Ha & Hk) _ IH]; [by exists [], []|].
  inversion Hp as [|? ? Hw Hws]; subst. destruct (IH Hws) as (l1 & l2 & ? & ? & ->).
  assert (∃ a1 a2, exactFee face q1 w = Some a1 ∧ exactFee face q2 w = Some a2 ∧ a = a1 + a2)
    as (a1 & a2 & ? & ? & ->).
  { unfold exactFee in *. destruct (seqb (rf_Basis w) basisPerOrderFixed) eqn:E.
    { by apply seqb_true in E. }
    repeat case_match; simplify_eq; do 2 eexists; split_and!; try done; ring. }
  exists (a1 :: l1), (a2 :: l2). by split_and!; [constructor..|].
Qed.

Lemma borne_add inc ws l1 l2 :
  length ws = length l1 → length ws = length l2 →
  borne inc (zip_with breakdownItem ws (zip_with Z.add l1 l2)) =
  borne inc (zip_with breakdownItem ws l1) + borne inc (zip_with breakdownItem ws l2).
Proof.
  revert l1 l2. induction ws as [|w ws IH]; intros [|a1 l1] [|a2 l2] E1 E2; try done.
  injection E1 as E1; injection E2 as E2. specialize (IH l1 l2 E1 E2).
  cbn [zip_with]. unfold borne in *. cbn [List.filter fb_Incidence breakdownItem].
  destruct (seqb (rf_Incidence w) inc); cbn [map sumZ fb_Amount breakdownItem]; lia.
Qed.

(** What a validated price guarantees about the money. *)
Lemma validated_price p org q ch :
  int32 q → priceResolution_validate p org q ch = Ok tt →
  1 ≤ q ∧ 0 ≤ rm_Amount (pz_ResolvedPrice p) ∧
  rm_Amount (pz_ResolvedPrice p) * q ≤ MaxInt64 ∧ rm_Currency (pz_ResolvedPrice p) = "EUR"%string.
Proof.
  intros Hq. unfold priceResolution_validate, bad_if. intros H.
  repeat match type of H with
  | (_ ≫= _) = Ok _ => apply bind_Ok in H as (? & ?H & H)
  end.
  repeat match goal with H : refuse_if _ _ = Ok _ |- _ => apply refuse_if_Ok in H end.
  repeat match goal with H : _ || _ = false |- _ => apply orb_false_elim in H as [??] end.
  zbool. repeat match goal with H : seqb _ _ = true |- _ => apply seqb_true in H end.
  unfold int32, MaxInt32 in *.
  match goal with H : _ ≤ quot64 _ _ |- _ =>
    rewrite quot64_id, Z.quot_div_nonneg in H by (unfold int64, MinInt64, MaxInt64; lia) end.
  pose proof (Z.mul_div_le MaxInt64 q). split_and!; try done; nia.
Qed.

(** The Go types of the two documents' numbers. *)
Definition answers_typed (p : priceResolution) (f : feeResolution) : Prop :=
  int64 (rm_Amount (pz_ResolvedPrice p)) ∧ fees_typed (fz_Fees f).

Lemma quote_Ok pa fa org units ch p f :
  quoteBeforeHold pa fa org units ch = Ok (p, f) →
  priceResolution_validate p org units ch = Ok tt ∧
  feeResolution_validate f org (pz_PerformanceID p) ch = Ok tt ∧
  fz_Currency f = rm_Currency (pz_ResolvedPrice p) ∧
  checkCompositionFits (fz_Fees f) (pz_ResolvedPrice p) (priceResolution_total p units) units = Ok tt.
Proof.
  unfold quoteBeforeHold, unresolved, refuse.
  destruct (resolveTicketTypePrice _ _ _ _) as [p'|e] eqn:Ep; [|by destruct e].
  destruct (resolveTicketTypeFees _ _ _ _) as [f'|e] eqn:Ef; [|by destruct e].
  destruct (seqb (fz_Currency f') _) eqn:Ec; cbn [negb]; [|done]. apply seqb_true in Ec.
  destruct (checkCompositionFits _ _ _ _) as [[]|] eqn:Efit; [|done]. intros [= -> ->].
  unfold resolveTicketTypePrice, resolveTicketTypeFees, bad in *.
  destruct pa, fa; try done.
  apply bind_Ok in Ep as ([] & ? & [= ->]), Ef as ([] & ? & [= ->]). done.
Qed.

(** Decides the comparisons of wire constants. *)
Ltac wire :=
  repeat match goal with
  | |- context [seqb ?a ?b] =>
      let v := eval vm_compute in (seqb a b) in
      match v with
      | true => change (seqb a b) with true
      | false => change (seqb a b) with false
      end
  end; cbn match.

(** What a validated resolution guarantees about each live rule. *)
Definition WellFormedFee (w : resolvedFeeRule) : Prop :=
  KnownIncidence w ∧
  ((rf_Basis w = basisPerTicketFixed ∨ rf_Basis w = basisPerOrderFixed) ∧
     (∃ a, rf_Amount w = Some a ∧ 0 ≤ a ≤ maxContractAmount) ∧ rf_RateBps w = None
   ∨ rf_Basis w = basisPercentageBps ∧
     (∃ r, rf_RateBps w = Some r ∧ 0 ≤ r ≤ 10000) ∧ rf_Amount w = None).

Lemma checkFeeValue_Ok w :
  checkFeeValue w = Ok tt → KnownIncidence w → WellFormedFee w.
Proof.
  unfold checkFeeValue, bad_if, bad, present. intros H Hk. split; [done|].
  destruct (seqb _ basisPerTicketFixed || seqb _ basisPerOrderFixed) eqn:E.
  - left. apply orb_true_iff in E. rewrite !seqb_true in E.
    destruct (rf_Amount w) as [a|]; [|done]. apply bind_Ok in H as ([] & H1 & H2).
    apply refuse_if_Ok in H1, H2. destruct (rf_RateBps w); [done|]. zbool.
    split_and!; [done| |done]. exists a. split; [done|lia].
  - right. destruct (seqb _ basisPercentageBps) eqn:E3; [|done]. apply seqb_true in E3.
    destruct (rf_RateBps w) as [r|]; [|done]. apply bind_Ok in H as ([] & H1 & H2).
    apply refuse_if_Ok in H1, H2. destruct (rf_Amount w); [done|]. zbool.
    split_and!; [done| |done]. exists r. split; [done|lia].
Qed.

Lemma checkFeeCodes_Ok seen fees :
  checkFeeCodes seen fees = Ok tt →
  Forall WellFormedFee (winners fees) ∧ NoDup (map rc_FeeCode fees) ∧
  ∀ c, c ∈ map rc_FeeCode fees → c ∉ seen.
Proof.
  revert seen. induction fees as [|c fees IH]; intros seen; cbn.
  { intros _. split_and!; [constructor|constructor|]. by intros ? ?%elem_of_nil. }
  intros ([] & _ & ([] & Hseen & ([] & Hw & Hrest)%bind_Ok)%bind_Ok)%bind_Ok.
  apply refuse_if_Ok, bool_decide_eq_false in Hseen.
  destruct (IH _ Hrest) as (Hall & Hnd & Hni). split_and!.
  - unfold winners in *; cbn. destruct (rc_Winner c) as [w|]; [|done]. constructor; [|done].
    unfold checkFeeWinner in Hw.
    apply bind_Ok in Hw as ([] & _ & ([] & _ & ([] & Hv & ([] & Hi & _)%bind_Ok)%bind_Ok)%bind_Ok).
    apply checkFeeValue_Ok; [done|]. apply refuse_if_Ok in Hi. unfold KnownIncidence.
    destruct (seqb _ incidencePassedOn) eqn:E1; [left; by apply seqb_true|].
    destruct (seqb _ incidenceAbsorbed) eqn:E2; [right; by apply seqb_true|done].
  - constructor; [|done]. intros Hin. apply (Hni _ Hin). apply list_elem_of_here.
  - intros x [->|Hx]%elem_of_cons; [done|]. intros Hs. apply (Hni _ Hx). by apply list_elem_of_further.
Qed.

Lemma feeResolution_validate_Ok f org perf ch :
  feeResolution_validate f org perf ch = Ok tt →
  Forall WellFormedFee (winners (fz_Fees f)) ∧ NoDup (map rc_FeeCode (fz_Fees f)).
Proof.
  unfold feeResolution_validate. intros H.
  repeat match type of H with (_ ≫= _) = Ok _ => apply bind_Ok in H as (? & _ & H) end.
  by apply checkFeeCodes_Ok in H as (? & ? & _).
Qed.

Lemma feeAmount_wellformed face q w :
  WellFormedFee w → int64 face → int32 q →
  match feeAmount w face q with Ok a => 0 ≤ a ≤ MaxInt64 | Err e => is_overflow e = true end.
Proof.
  intros [_ Hw] Hf Hq%int32_int64. unfold feeAmount.
  assert (Hmul : ∀ a, int64 a → match checkedMul a q with
    Ok c => 0 ≤ c ≤ MaxInt64 | Err e => is_overflow e = true end).
  { intros a Ha. destruct (checkedMul a q) eqn:E; [|by eapply checkedMul_overflows].
    apply checkedMul_Ok in E; [nia|done..]. }
  destruct Hw as [([-> | ->] & (a & -> & Ha) & _)|(-> & (r & -> & Hr) & _)]; wire.
  - apply Hmul. unfold int64, MinInt64, MaxInt64, maxContractAmount in *. lia.
  - unfold MaxInt64, maxContractAmount in *. lia.
  - destruct (feeFromRate face r) as [v|] eqn:E; cbn; [|by eapply feeFromRate_overflows].
    apply feeFromRate_Ok in E; [|done|unfold int32, MinInt32, MaxInt32; lia].
    destruct E as (? & ? & ? & ->). apply Hmul.
    assert (0 ≤ face * r / 10000) by (apply Z.div_pos; nia). unfold int64, MinInt64. lia.
Qed.

Lemma addIncidence_overflows w a out e :
  KnownIncidence w → addIncidence w a out = Err e → is_overflow e = true.
Proof.
  unfold KnownIncidence, addIncidence. intros Hk.
  destruct (seqb _ incidencePassedOn) eqn:E1; [|destruct (seqb _ incidenceAbsorbed) eqn:E2].
  3: { destruct Hk as [E|E]; rewrite E in *; by rewrite seqb_refl in *. }
  all: destruct (checkedAdd _ _) eqn:E; cbn; intros [= <-]; by eapply checkedAdd_overflows.
Qed.

(** ** Properties *)

(** C40 (bounds). Of a face that is an int64 and a rate that is an int32, a percentage
    fee is the exact floor of [face * bps / 10000] when neither is negative and that
    floor is representable, and the error of the class errFeeTotalOverflow in every
    other case; for a face that is not negative and a rate between 0 and 10000, the
    rates the contract admits, it always is representable, and never exceeds the face.
    No intermediate product restricts the inputs. *)
Theorem fee_rate_exact face rate : int64 face → int32 rate →
  (∀ v, feeFromRate face rate = Ok v ↔
     0 ≤ face ∧ 0 ≤ rate ∧ face * rate / 10000 ≤ MaxInt64 ∧ v = face * rate / 10000) ∧
  (face < 0 ∨ rate < 0 ∨ MaxInt64 < face * rate / 10000 → ∃ why, feeFromRate face rate = Err (errFeeTotalOverflow why)) ∧
  (0 ≤ face → 0 ≤ rate ≤ 10000 →
     feeFromRate face rate = Ok (face * rate / 10000) ∧ face * rate / 10000 ≤ face).
Proof.
  intros Hf Hr. split_and!; [intros v; by apply feeFromRate_Ok| |].
  { intros Hout. destruct (feeFromRate face rate) as [v|e] eqn:E; [apply feeFromRate_Ok in E; [lia|done..]|].
    apply feeFromRate_overflows in E. destruct e as [why| |]; [by exists why|done..]. }
  intros H0 [??].
  assert (face * rate / 10000 ≤ face) by (apply Z.div_le_upper_bound; nia).
  split; [|done]. apply feeFromRate_Ok; [done..|]. unfold int64 in Hf. lia.
Qed.

(** The breakdown is exact, and complete: it succeeds if and
    only if the quantity is positive, every live rule is in the sale's
    currency, of a known basis and incidence, with the value its basis needs,
    and the two totals fit an [int64]; then it itemises every live rule, at
    zero too, with its exact fee, in the order of the resolution, and the two
    totals are the sums of the items of each incidence. *)
Theorem breakdown_exact fees face q cur out :
  fees_typed fees → int64 face → int32 q →
  computeFeeBreakdown fees face q cur = Ok out ↔
  1 ≤ q ∧ ∃ amounts, Forall2 (Charged face q cur) (winners fees) amounts ∧
    out = composition_of (zip_with breakdownItem (winners fees) amounts) ∧
    cp_PassedOnTotal out ≤ MaxInt64 ∧ cp_AbsorbedTotal out ≤ MaxInt64.
Proof. apply computeFeeBreakdown_Ok. Qed.

(** The handler's claim that composition cannot fail after the
    hold: a quote accepted for [units] tickets leads to a charge for every
    positive quantity the claim may be reduced to, and the charge is the exact
    face value plus the fees passed on to the buyer. *)
Theorem composition_never_fails_after_the_hold pa fa org units ch p f q :
  int32 units → answers_typed p f →
  quoteBeforeHold pa fa org units ch = Ok (p, f) → 1 ≤ q ≤ units →
  ∃ c, chargeAfterHold p f q = Ok c ∧
    ch_FaceValue c = rm_Amount (pz_ResolvedPrice p) * q ∧
    ch_Total c = ch_FaceValue c + borne incidencePassedOn (cp_Items (ch_Composition c)) ∧
    int64 (ch_Total c).
Proof.
  intros Hu [Hp Hf] (Hvp & _ & _ & Hfit)%quote_Ok Hq.
  apply validated_price in Hvp as (? & ? & Hmax & _); [|done].
  assert (int64 (rm_Amount (pz_ResolvedPrice p) * units)) by (unfold int64, MinInt64; nia).
  assert (int64 (rm_Amount (pz_ResolvedPrice p) * q)) by (unfold int64, MinInt64; nia).
  assert (int32 q) by (unfold int32, MinInt32 in *; lia).
  unfold checkCompositionFits, composedTotal, priceResolution_total in Hfit.
  rewrite mul64_id in Hfit by done.
  apply bind_Ok in Hfit as (o & Ho & (t & Ht & _)%bind_Ok).
  destruct (computeFeeBreakdown_mono _ _ _ q _ _ Hf Hp Hu Hq Ho) as (o' & Ho' & Hpass & _).
  pose proof Ho' as (_ & amounts & Hall & Heq & Hpo & _)%computeFeeBreakdown_Ok; [|done..].
  pose proof (charged_items_nonneg _ q _ _ _ ltac:(lia) Hall) as Hnn.
  pose proof (borne_nonneg incidencePassedOn _ Hnn) as Hpos.
  assert (Hpt : cp_PassedOnTotal o' = borne incidencePassedOn (cp_Items o')) by (by rewrite Heq).
  assert (0 ≤ cp_PassedOnTotal o') by (by rewrite Heq).
  pose proof Ho as (_ & am & _ & _ & Hom & _)%computeFeeBreakdown_Ok; [|done..].
  apply checkedAdd_Ok in Ht as (? & ? & ? & _); [|done|unfold int64, MinInt64; lia].
  assert (Htot : checkedAdd (rm_Amount (pz_ResolvedPrice p) * q) (cp_PassedOnTotal o')
    = Ok (rm_Amount (pz_ResolvedPrice p) * q + cp_PassedOnTotal o')).
  { apply checkedAdd_Ok; [done|unfold int64, MinInt64; lia|]. split_and!; [nia..|done]. }
  unfold chargeAfterHold, composedTotal, priceResolution_total. rewrite mul64_id, Ho', Htot by done.
  eexists. split; [done|]. cbn [ch_FaceValue ch_Total ch_Composition].
  rewrite <-Hpt. split_and!; [done..|unfold int64, MinInt64; nia].
Qed.

(** The unit of rounding is the ticket: without per-order
    fees, what [q1 + q2] tickets cost is what [q1] tickets and [q2] tickets
    cost, fee by fee, however the cart groups them. *)
Theorem per_ticket_fees_do_not_depend_on_grouping fees face q1 q2 cur out :
  fees_typed fees → int64 face → int32 (q1 + q2) → 1 ≤ q1 → 1 ≤ q2 →
  Forall PerTicket (winners fees) →
  computeFeeBreakdown fees face (q1 + q2) cur = Ok out →
  ∃ o1 o2, computeFeeBreakdown fees face q1 cur = Ok o1 ∧
    computeFeeBreakdown fees face q2 cur = Ok o2 ∧
    map fb_Amount (cp_Items out) =
      zip_with Z.add (map fb_Amount (cp_Items o1)) (map fb_Amount (cp_Items o2)) ∧
    cp_PassedOnTotal out = cp_PassedOnTotal o1 + cp_PassedOnTotal o2 ∧
    cp_AbsorbedTotal out = cp_AbsorbedTotal o1 + cp_AbsorbedTotal o2.
Proof.
  intros Ht Hf Hq H1 H2 Hper (_ & amounts & Hall & -> & Hpm & Ham)%computeFeeBreakdown_Ok; [|done..].
  assert (int32 q1 ∧ int32 q2) as [??] by (unfold int32, MinInt32 in *; lia).
  destruct (charged_add face q1 q2 cur _ _ ltac:(lia) ltac:(lia) Hper Hall) as (l1 & l2 & Hl1 & Hl2 & ->).
  pose proof (list.Forall2_length _ _ _ Hl1) as E1. pose proof (list.Forall2_length _ _ _ Hl2) as E2.
  assert (Hn : ∀ inc, 0 ≤ borne inc (zip_with breakdownItem (winners fees) l1) ∧
                      0 ≤ borne inc (zip_with breakdownItem (winners fees) l2)).
  { intros inc. split; eapply borne_nonneg, charged_items_nonneg; [|exact Hl1| |exact Hl2]; lia. }
  cbn [composition_of cp_PassedOnTotal cp_AbsorbedTotal cp_Items] in *.
  rewrite !borne_add in * by done.
  pose proof (Hn incidencePassedOn). pose proof (Hn incidenceAbsorbed).
  eexists _, _. split_and!.
  - apply computeFeeBreakdown_Ok; [done..|]. split; [done|]. exists l1. split_and!; [done..| |]; cbn; lia.
  - apply computeFeeBreakdown_Ok; [done..|]. split; [done|]. exists l2. split_and!; [done..| |]; cbn; lia.
  - cbn. clear -E1 E2. revert l1 l2 E1 E2.
    induction (winners fees) as [|w ws IH]; intros [|a1 l1] [|a2 l2] E1 E2; try done.
    cbn. f_equal. apply IH; [by injection E1|by injection E2].
  - done.
  - done.
Qed.

(** A validated resolution can fail to compose in one way only
    besides the overflow it is refused for: a live rule in another currency
    than the sale's. *)
Theorem validated_fees_fail_only_by_overflow f org perf ch face q cur e :
  feeResolution_validate f org perf ch = Ok tt → int64 face → int32 q →
  Forall (λ w, rf_Currency w = cur) (winners (fz_Fees f)) →
  computeFeeBreakdown (fz_Fees f) face q cur = Err e → is_overflow e = true.
Proof.
  intros (Hwf & _)%feeResolution_validate_Ok Hf Hq Hcur. unfold computeFeeBreakdown.
  destruct (q <? 1); [by intros [= <-]|].
  generalize {| cp_Items := []; cp_PassedOnTotal := 0; cp_AbsorbedTotal := 0 |}.
  induction (fz_Fees f) as [|c fees IH]; intros out; cbn; [done|].
  unfold winners in Hwf, Hcur; cbn in Hwf, Hcur. destruct (rc_Winner c) as [w|]; [|by apply IH].
  inversion Hwf as [|? ? Hw Hwf']; inversion Hcur as [|? ? Hc Hcur']; subst.
  rewrite seqb_refl; cbn. pose proof (feeAmount_wellformed face q w Hw Hf Hq) as Ha.
  destruct (feeAmount w face q) as [a|]; cbn; [|by intros [= <-]].
  destruct (Z.ltb_spec a 0); [lia|].
  destruct (addIncidence _ _ _) eqn:Ei; cbn; [by apply IH|].
  intros [= <-]. eapply addIncidence_overflows; [apply Hw|done].
Qed.
End Composition.

(** ** A concrete sale: a service fee of 3.33% passed on, a levy absorbed and a
    fixed delivery fee per order *)
#[local] Existing Instance text_uuid.

Definition example_rate (id code currency : string) : resolvedFeeCode := {|
  rc_FeeCode := code; rc_Winner := Some {|
    rf_RuleID := id; rf_FeeCode := code; rf_Basis := basisPercentageBps; rf_Amount := None;
    rf_RateBps := Some 333; rf_Currency := currency; rf_Incidence := incidencePassedOn |} |}.

Definition example_fixed (id code basis incidence : string) (amount : Z) : resolvedFeeCode := {|
  rc_FeeCode := code; rc_Winner := Some {|
    rf_RuleID := id; rf_FeeCode := code; rf_Basis := basis; rf_Amount := Some amount;
    rf_RateBps := None; rf_Currency := "EUR"; rf_Incidence := incidence |} |}.

Definition example_resolution (fees : list resolvedFeeCode) : feeResolution := {|
  fz_ResolverVersion := 1; fz_EvaluatedAt := 1; fz_OrganizerID := "org"%string;
  fz_PerformanceID := "slot"%string; fz_Currency := "EUR"; fz_ChannelCode := None; fz_Fees := fees |}.

Definition example_price : priceResolution := {|
  pz_ResolverVersion := 3; pz_EvaluatedAt := 1; pz_OrganizerID := "org"%string;
  pz_PerformanceID := "slot"%string;
  pz_BasePrice := {| rm_Amount := 150; rm_Currency := "EUR" |};
  pz_ResolvedPrice := {| rm_Amount := 150; rm_Currency := "EUR" |};
  pz_Winner := None; pz_FallbackReason := Some "no_eligible_rule"%string; pz_ChannelCode := None |}.

Definition example_sale_fees : list resolvedFeeCode :=
  [example_rate "r1" "service" "EUR"; example_fixed "r2" "levy" basisPerTicketFixed incidenceAbsorbed 20].

Definition example_order_fees : list resolvedFeeCode :=
  example_sale_fees ++ [example_fixed "r3" "delivery" basisPerOrderFixed incidencePassedOn 300].

Lemma example_fees_typed : fees_typed example_order_fees.
Proof.
  unfold fees_typed. cbn.
  repeat match goal with |- Forall _ (_ :: _) => apply List.Forall_cons | |- Forall _ [] => apply List.Forall_nil end;
    (split; intros ? E; cbn in E; first [discriminate E | injection E as <-; vm_compute; split; discriminate]).
Defined.

Lemma example_sale_typed : fees_typed example_sale_fees.
Proof.
  unfold fees_typed. cbn.
  repeat match goal with |- Forall _ (_ :: _) => apply List.Forall_cons | |- Forall _ [] => apply List.Forall_nil end;
    (split; intros ? E; cbn in E; first [discriminate E | injection E as <-; vm_compute; split; discriminate]).
Defined.

(** Closes [int64 n] and [int32 n] at a numeral. *)
Ltac in_range := unfold int64, int32, MinInt64, MaxInt64, MinInt32, MaxInt32; lia.

Lemma fee_rate_exact_witness : feeFromRate 1000000000000 10000 = Ok 1000000000000.
Proof. apply (proj2 (proj2 (fee_rate_exact 1000000000000 10000 ltac:(in_range) ltac:(in_range)))); in_range. Defined.

Lemma breakdown_exact_witness :
  ∃ out, computeFeeBreakdown example_order_fees 150 3 "EUR" = Ok out ∧
    cp_PassedOnTotal out = 4 * 3 + 300 ∧ cp_AbsorbedTotal out = 20 * 3.
Proof.
  eexists. split.
  - apply (breakdown_exact example_order_fees 150 3 "EUR"); [exact example_fees_typed|in_range..|].
    split; [lia|]. exists [12; 60; 300]. split; [|split; [reflexivity|split; vm_compute; discriminate]].
    repeat apply List.Forall2_cons; [..|apply List.Forall2_nil];
      (split; [reflexivity|split; [vm_compute; reflexivity|first [left; reflexivity|right; reflexivity]]]).
  - split; vm_compute; reflexivity.
Defined.

Lemma composition_never_fails_after_the_hold_witness :
  ∃ c, chargeAfterHold example_price (example_resolution example_order_fees) 2 = Ok c ∧
    ch_Total c = 300 + 308.
Proof.
  destruct (composition_never_fails_after_the_hold (Document example_price)
    (Document (example_resolution example_order_fees)) "org"%string 3 None example_price
    (example_resolution example_order_fees) 2) as (c & Hc & _).
  - in_range.
  - split; [vm_compute; split; discriminate|exact example_fees_typed].
  - vm_compute. reflexivity.
  - lia.
  - exists c. split; [exact Hc|]. vm_compute in Hc. injection Hc as <-. reflexivity.
Defined.

Lemma per_ticket_fees_do_not_depend_on_grouping_witness :
  ∃ o1 o2, computeFeeBreakdown example_sale_fees 150 1 "EUR" = Ok o1 ∧
    computeFeeBreakdown example_sale_fees 150 2 "EUR" = Ok o2 ∧
    cp_PassedOnTotal o1 + cp_PassedOnTotal o2 = 12.
Proof.
  destruct (per_ticket_fees_do_not_depend_on_grouping example_sale_fees 150 1 2 "EUR"
    (composition_of (zip_with breakdownItem (winners example_sale_fees) [12; 60])))
    as (o1 & o2 & H1 & H2 & _ & Hp & _).
  - exact example_sale_typed.
  - in_range.
  - in_range.
  - lia.
  - lia.
  - repeat constructor; intros E; vm_compute in E; discriminate E.
  - vm_compute. reflexivity.
  - exists o1, o2. split; [exact H1|]. split; [exact H2|]. rewrite <-Hp. reflexivity.
Defined.

Lemma validated_fees_fail_only_by_overflow_witness :
  let fees := [example_fixed "r" "service" basisPerTicketFixed incidencePassedOn maxContractAmount] in
  ∃ e, computeFeeBreakdown fees 150 2000 "EUR" = Err e ∧ is_overflow e = true.
Proof.
  intros fees. destruct (computeFeeBreakdown fees 150 2000 "EUR") as [o|e] eqn:E;
    [vm_compute in E; discriminate E|]. exists e. split; [reflexivity|].
  apply (validated_fees_fail_only_by_overflow (example_resolution fees) "org"%string "slot"%string None
    150 2000 "EUR" e); [vm_compute; reflexivity|in_range..| |exact E].
  repeat constructor.
Defined.

(** The comment on [errFeeTotalOverflow] promises an unusable document a 500. A
    validated resolution whose live rule is in another currency than the sale
    composes to [errResolveUnusable], and the handler answers 400. *)
Example foreign_currency_fee_answers_400 :
  let f := example_resolution [example_rate "r1" "service" "USD"] in
  feeResolution_validate f "org"%string "slot"%string None = Ok tt ∧
  (∃ why, computeFeeBreakdown (fz_Fees f) 150 1 "EUR" = Err (errResolveUnusable why)) ∧
  quoteBeforeHold (Document example_price) (Document f) "org"%string 1 None
    = refuse 400 "order total out of range".
Proof. vm_compute. split_and!; [reflexivity|eexists; reflexivity|reflexivity]. Qed.
