(* ===== verification/Allocation.v ===== *)
(** * Splitting a fee between its payees

    [services/payments/internal/splits/splits.go]: [Allocate] turns an amount in
    whole cents and shares in basis points into whole-cent parts by largest
    remainder. The arithmetic wraps at 64 bits as Go's does; the lemmas show no
    intermediate leaves the range, so the parts are the exact ones. *)

From S2P Require Import Prelude.

Section Allocation.
Context `{UU : UUID}.

Record Share := { sh_PayeeID : uuid; sh_ShareBps : Z }.
Record Part := { pt_PayeeID : uuid; pt_Amount : Z }.

Inductive SplitError :=
| ErrUnbalanced (got : Z)
| ErrMalformedNegativeAmount (amount : Z)
| ErrMalformedNoParts
| ErrMalformedShare (bps : Z)
| ErrMalformedDuplicatePayee (id : uuid)
| ErrMalformedResidue (residue : Z)
| ErrMalformedNegativePart (amount : Z)
| ErrMalformedPartsOverflow.

Definition TotalBps : Z := 10000.

(** The validating loop, with its running total. *)
Fixpoint checkShares (seen : list uuid) (total : Z) (shares : list Share) : result SplitError Z :=
  match shares with
  | [] => Ok total
  | s :: shares' =>
      if (sh_ShareBps s <? 0) || (sh_ShareBps s >? TotalBps) then Err (ErrMalformedShare (sh_ShareBps s))
      else if bool_decide (sh_PayeeID s ∈ seen) then Err (ErrMalformedDuplicatePayee (sh_PayeeID s))
      else checkShares (sh_PayeeID s :: seen) (add64 total (sh_ShareBps s)) shares'
  end.

Definition shareBase (q r : Z) (s : Share) : Z :=
  add64 (mul64 q (sh_ShareBps s)) (quot64 (mul64 r (sh_ShareBps s)) TotalBps).

Definition shareFrac (r : Z) (s : Share) : Z := rem64 (mul64 r (sh_ShareBps s)) TotalBps.

Definition basePart (q r : Z) (s : Share) : Part :=
  {| pt_PayeeID := sh_PayeeID s; pt_Amount := shareBase q r s |}.

(** [parts[i].Amount++]. *)
Definition bump (parts : list Part) (i : nat) : list Part :=
  alter (λ p, {| pt_PayeeID := pt_PayeeID p; pt_Amount := add64 (pt_Amount p) 1 |}) i parts.

Definition fracAt (fracs : list Z) (i : nat) : Z := default 0 (fracs !! i).

(** [sort.SliceStable] of the indices by remainder, largest first. *)
Definition rankByFrac (fracs : list Z) : list nat :=
  isort (λ i j, fracAt fracs i >? fracAt fracs j) (seq 0 (length fracs)).

Definition Allocate (amount : Z) (shares : list Share) : result SplitError (list Part) :=
  if amount <? 0 then Err (ErrMalformedNegativeAmount amount)
  else if bool_decide (length shares = 0%nat) then Err ErrMalformedNoParts
  else
    total ← checkShares [] 0 shares;
    if negb (total =? TotalBps) then Err (ErrUnbalanced total)
    else
      let work := isort (on_key sh_PayeeID uuid_ltb) shares in
      let q := quot64 amount TotalBps in
      let r := rem64 amount TotalBps in
      let parts := map (basePart q r) work in
      let fracs := map (shareFrac r) work in
      let distributed := fold_left (λ d p, add64 d (pt_Amount p)) parts 0 in
      let residue := sub64 amount distributed in
      if (residue <? 0) || (residue >=? Z.of_nat (length parts)) then Err (ErrMalformedResidue residue)
      else Ok (fold_left bump (take (Z.to_nat residue) (rankByFrac fracs)) parts).

Fixpoint sumFrom (total : Z) (parts : list Part) : result SplitError Z :=
  match parts with
  | [] => Ok total
  | p :: parts' =>
      if pt_Amount p <? 0 then Err (ErrMalformedNegativePart (pt_Amount p))
      else if total >? sub64 MaxInt64 (pt_Amount p) then Err ErrMalformedPartsOverflow
      else sumFrom (add64 total (pt_Amount p)) parts'
  end.

Definition Sum (parts : list Part) : result SplitError Z := sumFrom 0 parts.

(** ** The shares the code accepts *)

Record ValidShares (shares : list Share) : Prop := {
  vs_nonempty : shares ≠ [];
  vs_range : Forall (λ s, 0 ≤ sh_ShareBps s ≤ TotalBps) shares;
  vs_payees : NoDup (map sh_PayeeID shares);
  vs_total : sumZ (map sh_ShareBps shares) = TotalBps;
}.

#[export] Instance ValidShares_Permutation : Proper (Permutation ==> iff) ValidShares.
Proof.
  assert (H : ∀ l1 l2, l1 ≡ₚ l2 → ValidShares l1 → ValidShares l2).
  { intros l1 l2 Hp [Hn Hr Hu Ht]. split.
    - intros ->. by apply Permutation_sym, Permutation_nil in Hp.
    - by rewrite <-Hp.
    - by rewrite <-Hp.
    - by rewrite <-Hp. }
  intros l1 l2 Hp. split; by apply H.
Qed.

(** The running total fits as long as fewer than 2^49 shares are summed; the
    sum of the shares that passed the range check bounds it anyway. *)
Lemma checkShares_Ok seen total shares t :
  0 ≤ total → total + TotalBps * Z.of_nat (length shares) ≤ MaxInt64 →
  checkShares seen total shares = Ok t ↔
  Forall (λ s, 0 ≤ sh_ShareBps s ≤ TotalBps) shares ∧ NoDup (map sh_PayeeID shares) ∧
  (∀ s, s ∈ shares → sh_PayeeID s ∉ seen) ∧ t = total + sumZ (map sh_ShareBps shares).
Proof.
  revert seen total. induction shares as [|s shares IH]; intros seen total H0 Hmax; cbn.
  { rewrite Z.add_0_r. split; [|naive_solver]. intros [= <-].
    split_and!; [constructor|constructor| |done]. by intros ? ?%elem_of_nil. }
  cbn in Hmax. unfold TotalBps in *. rewrite Z.gtb_ltb.
  destruct ((sh_ShareBps s <? 0) || (10000 <? sh_ShareBps s)) eqn:E; zbool.
  { split; [done|]. intros (Hr & _). inversion Hr; subst. destruct E; zbool; lia. }
  case_bool_decide as Hs.
  { split; [done|]. intros (_ & _ & Hn & _). by destruct (Hn s (list_elem_of_here _ _)). }
  rewrite add64_id by (unfold int64, MinInt64; lia). rewrite IH by lia.
  rewrite list.NoDup_cons. split.
  - intros (Hr & Hnd & Hn & ->). split_and!; [by constructor; [lia|]| |done| |lia].
    + intros (x & Hx & Hin)%list_elem_of_In%List.in_map_iff. apply list_elem_of_In in Hin.
      apply (Hn x Hin). rewrite Hx. apply list_elem_of_here.
    + intros x [->|Hx]%elem_of_cons; [done|]. intros Hin. apply (Hn x Hx). by apply list_elem_of_further.
  - intros (Hr & [Hni Hnd] & Hn & ->). inversion Hr; subst. split_and!; [done|done| |lia].
    intros x Hx [Hid|Hin]%elem_of_cons.
    + apply Hni. rewrite <-Hid. by apply list_elem_of_In, List.in_map, list_elem_of_In.
    + by apply (Hn x (list_elem_of_further _ _ _ Hx)).
Qed.

(** ** The exact parts *)

(** A share's floor and the remainder it competes with. *)
Definition floorPart (amount : Z) (s : Share) : Z := amount * sh_ShareBps s / TotalBps.
Definition remainder (amount : Z) (s : Share) : Z := (amount * sh_ShareBps s) `mod` TotalBps.

Lemma share_exact amount s :
  0 ≤ amount ≤ MaxInt64 → 0 ≤ sh_ShareBps s ≤ TotalBps →
  shareBase (quot64 amount TotalBps) (rem64 amount TotalBps) s = floorPart amount s ∧
  shareFrac (rem64 amount TotalBps) s = remainder amount s ∧
  0 ≤ floorPart amount s ≤ amount.
Proof.
  intros Ha Hb. unfold shareBase, shareFrac, floorPart, remainder, TotalBps, rem64 in *.
  assert (Hfl : 0 ≤ amount * sh_ShareBps s / 10000 ≤ amount).
  { split; [apply Z.div_pos; nia|apply Z.div_le_upper_bound; nia]. }
  rewrite quot64_id, Z.rem_mod_nonneg, Z.quot_div_nonneg by first [by apply int64_nonneg|lia].
  pose proof (Z.mod_pos_bound amount 10000 ltac:(lia)) as Hy.
  pose proof (Z.div_pos amount 10000 ltac:(lia) ltac:(lia)) as Hx.
  pose proof (Z.mul_div_le amount 10000 ltac:(lia)) as Hxa.
  destruct (bps_products_int64 _ _ _ Hx Hy Hb ltac:(lia)) as [Hqb Hrb].
  assert (Hr : 0 ≤ amount mod 10000 * sh_ShareBps s) by (apply Z.mul_nonneg_nonneg; lia).
  rewrite (mul64_id _ _ Hqb), (mul64_id _ _ Hrb), (quot64_id _ 10000 Hrb eq_refl),
    (Z.quot_div_nonneg _ 10000 Hr eq_refl), (Z.rem_mod_nonneg _ 10000 Hr eq_refl).
  rewrite Zmult_mod_idemp_l. split_and!; [|done|apply Hfl..].
  rewrite (rate_decomposition amount) in Hfl |- * by lia.
  apply add64_id, int64_nonneg. split; [apply Hfl|]. etrans; [apply Hfl|apply Ha].
Qed.

(** The floors fall short of the amount by less than one cent per share. *)
Lemma floors_residue amount shares :
  0 ≤ amount → Forall (λ s, 0 ≤ sh_ShareBps s ≤ TotalBps) shares →
  TotalBps * sumZ (map (floorPart amount) shares) + sumZ (map (remainder amount) shares)
    = amount * sumZ (map sh_ShareBps shares) ∧
  0 ≤ sumZ (map (floorPart amount) shares) ∧
  0 ≤ sumZ (map (remainder amount) shares) ≤ (TotalBps - 1) * Z.of_nat (length shares).
Proof.
  intros Ha. unfold floorPart, remainder, TotalBps.
  induction 1 as [|s shares Hs _ IH]; cbn; [lia|].
  pose proof (Z.div_mod (amount * sh_ShareBps s) 10000).
  pose proof (Z.mod_pos_bound (amount * sh_ShareBps s) 10000).
  pose proof (Z.div_pos (amount * sh_ShareBps s) 10000). nia.
Qed.

Lemma distributed_sum parts d :
  0 ≤ d → Forall (λ p, 0 ≤ pt_Amount p) parts → d + sumZ (map pt_Amount parts) ≤ MaxInt64 →
  fold_left (λ d p, add64 d (pt_Amount p)) parts d = d + sumZ (map pt_Amount parts).
Proof.
  intros Hd Hp. revert d Hd. induction Hp as [|p parts Hp Hps IH]; intros d Hd Hmax; cbn in *; [lia|].
  assert (0 ≤ sumZ (map pt_Amount parts)) by (apply sumZ_nonneg; by apply Forall_map).
  rewrite add64_id by (unfold int64, MinInt64; lia). rewrite IH by lia. lia.
Qed.

(** ** Handing out the residue *)

Lemma rankByFrac_perm fracs : rankByFrac fracs ≡ₚ seq 0 (length fracs).
Proof. apply isort_perm. Qed.

#[local] Instance fracAt_less fracs : LessOrder (λ i j, fracAt fracs i >? fracAt fracs j).
Proof. split; intros; rewrite ?Z.gtb_ltb, ?Z.ltb_lt, ?Z.ltb_ge in *; lia. Qed.

Lemma bump_length parts i : length (bump parts i) = length parts.
Proof. apply length_alter. Qed.

Lemma bumps_payees idx parts :
  map pt_PayeeID (fold_left bump idx parts) = map pt_PayeeID parts.
Proof.
  revert parts. induction idx as [|i idx IH]; intros parts; cbn; [done|].
  rewrite IH. unfold bump. clear IH. revert i.
  induction parts as [|p parts IHp]; intros [|i]; cbn; try done. f_equal. apply IHp.
Qed.

Definition can_bump (parts : list Part) (i : nat) : Prop :=
  ∃ p, parts !! i = Some p ∧ 0 ≤ pt_Amount p < MaxInt64.

Lemma bump_other parts i j : i ≠ j → bump parts i !! j = parts !! j.
Proof. intros. by apply list_lookup_alter_ne. Qed.

Lemma bump_sum parts i :
  can_bump parts i → sumZ (map pt_Amount (bump parts i)) = sumZ (map pt_Amount parts) + 1.
Proof.
  intros (p & Hp & Hr). revert i Hp. unfold bump.
  induction parts as [|p' parts IH]; intros [|i] Hp; cbn in *; try done.
  - injection Hp as ->. rewrite add64_id by (unfold int64, MinInt64; lia). lia.
  - rewrite (IH i Hp). lia.
Qed.

Lemma can_bump_later parts i idx :
  i ∉ idx → Forall (can_bump parts) idx → Forall (can_bump (bump parts i)) idx.
Proof.
  intros Hi. rewrite !list.Forall_forall. intros H j Hj. destruct (H j Hj) as (p & Hp & Hr).
  exists p. rewrite bump_other; [done|]. intros E. apply Hi. by rewrite E.
Qed.

(** Every index listed once gains one cent, and no other part changes. *)
Lemma bumps_sum idx parts :
  NoDup idx → Forall (can_bump parts) idx →
  sumZ (map pt_Amount (fold_left bump idx parts)) =
  sumZ (map pt_Amount parts) + Z.of_nat (length idx).
Proof.
  revert parts. induction idx as [|j idx IH]; intros parts Hnd Hr; cbn [fold_left length]; [lia|].
  apply list.NoDup_cons in Hnd as [Hj Hnd]. inversion Hr as [|? ? Hb Hr']; subst.
  rewrite IH by (done || by apply can_bump_later). rewrite bump_sum by done. lia.
Qed.

Lemma bumps_lookup idx parts i :
  NoDup idx → Forall (can_bump parts) idx →
  pt_Amount <$> fold_left bump idx parts !! i =
  (λ p, if bool_decide (i ∈ idx) then pt_Amount p + 1 else pt_Amount p) <$> parts !! i.
Proof.
  revert parts. induction idx as [|j idx IH]; intros parts Hnd Hr; cbn [fold_left].
  { by destruct (parts !! i). }
  apply list.NoDup_cons in Hnd as [Hj Hnd]. inversion Hr as [|? ? Hb Hr']; subst.
  rewrite IH by (done || by apply can_bump_later).
  destruct (decide (i = j)) as [->|Hne].
  - destruct Hb as (p & Hp & Hpr). unfold bump.
    rewrite list_lookup_alter_eq, bool_decide_false, bool_decide_true, Hp by (done || apply list_elem_of_here).
    cbn. f_equal. apply add64_id. unfold int64, MinInt64. lia.
  - rewrite bump_other by done. destruct (parts !! i); cbn; [|done]. f_equal.
    do 2 case_bool_decide; set_solver.
Qed.

(** ** The allocation, exactly *)

Definition by_payee (shares : list Share) : list Share := isort (on_key sh_PayeeID uuid_ltb) shares.

Definition exactPart (amount : Z) (s : Share) : Part :=
  {| pt_PayeeID := sh_PayeeID s; pt_Amount := floorPart amount s |}.

Definition residueOf (amount : Z) (shares : list Share) : Z :=
  amount - sumZ (map (floorPart amount) shares).

(** The indices of the shares that get a leftover cent. *)
Definition topped_up (amount : Z) (shares : list Share) : list nat :=
  take (Z.to_nat (residueOf amount shares)) (rankByFrac (map (remainder amount) shares)).

Lemma valid_share shares s : ValidShares shares → s ∈ shares → 0 ≤ sh_ShareBps s ≤ TotalBps.
Proof. intros [_ Hr _ _] Hs. rewrite list.Forall_forall in Hr. by apply Hr. Qed.

Lemma residue_bounds amount shares :
  0 ≤ amount → ValidShares shares →
  0 ≤ residueOf amount shares < Z.of_nat (length shares) ∧
  0 ≤ sumZ (map (floorPart amount) shares).
Proof.
  intros Ha [Hn Hr _ Ht]. destruct (floors_residue amount shares Ha Hr) as (H1 & H2 & H3).
  rewrite Ht in H1. unfold residueOf, TotalBps in *.
  destruct shares as [|s shares]; [done|]. cbn [length] in *. lia.
Qed.

Lemma floor_le_sum amount shares s :
  0 ≤ amount → ValidShares shares → s ∈ shares →
  0 ≤ floorPart amount s ≤ sumZ (map (floorPart amount) shares).
Proof.
  intros Ha Hv Hs.
  assert (Hpos : ∀ x, x ∈ shares → 0 ≤ floorPart amount x).
  { intros x Hx. pose proof (valid_share _ _ Hv Hx). unfold floorPart, TotalBps in *. apply Z.div_pos; nia. }
  split; [by apply Hpos|]. clear Hv. induction shares as [|x shares IH]; [by apply elem_of_nil in Hs|].
  cbn. assert (0 ≤ sumZ (map (floorPart amount) shares)).
  { apply sumZ_nonneg, Forall_map, list.Forall_forall. intros y Hy. by apply Hpos, list_elem_of_further. }
  apply elem_of_cons in Hs as [->|Hs]; [lia|].
  pose proof (Hpos x (list_elem_of_here _ _)).
  specialize (IH Hs (λ y Hy, Hpos y (list_elem_of_further _ _ _ Hy))). lia.
Qed.

Lemma topped_up_NoDup amount shares : NoDup (topped_up amount shares).
Proof.
  unfold topped_up. eapply sublist_NoDup; [|apply sublist_take].
  rewrite rankByFrac_perm. apply NoDup_seq.
Qed.

Lemma topped_up_bound amount shares i : i ∈ topped_up amount shares → (i < length shares)%nat.
Proof.
  unfold topped_up. intros (k & Hk & _)%elem_of_take. apply list_elem_of_lookup_2 in Hk.
  rewrite rankByFrac_perm, length_map in Hk. apply elem_of_seq in Hk. lia.
Qed.

(** A share that gets a cent leaves room for it. *)
Lemma topped_up_can_bump amount shares :
  0 ≤ amount ≤ MaxInt64 → ValidShares shares →
  Forall (can_bump (map (exactPart amount) shares)) (topped_up amount shares).
Proof.
  intros Ha Hv. rewrite list.Forall_forall. intros i Hi.
  pose proof (topped_up_bound _ _ _ Hi) as Hlt.
  destruct (lookup_lt_is_Some_2 shares i Hlt) as [s Hs].
  exists (exactPart amount s). split.
  { change (map (exactPart amount) shares) with (exactPart amount <$> shares).
    by rewrite list_lookup_fmap, Hs. }
  pose proof (floor_le_sum amount shares s ltac:(lia) Hv (list_elem_of_lookup_2 _ _ _ Hs)).
  destruct (residue_bounds amount shares ltac:(lia) Hv) as [[? _] _].
  assert (residueOf amount shares ≠ 0).
  { intros E. unfold topped_up in Hi. rewrite E in Hi. by apply elem_of_nil in Hi. }
  unfold residueOf in *. cbn. lia.
Qed.

(** The slice is one a machine can hold: its basis points cannot overflow. *)
Definition addressable (shares : list Share) : Prop :=
  TotalBps * Z.of_nat (length shares) ≤ MaxInt64.

Lemma checked_shares shares t :
  addressable shares →
  shares ≠ [] ∧ checkShares [] 0 shares = Ok t ∧ t = TotalBps ↔ ValidShares shares ∧ t = TotalBps.
Proof.
  intros Hl. unfold addressable in Hl. rewrite checkShares_Ok by lia. split.
  - intros (Hn & (Hr & Hd & _ & Ht) & E). split; [|done]. split; [done..|lia].
  - intros ([Hn Hr Hd Ht] & ->). split_and!; try done; try lia. intros ? ?. apply not_elem_of_nil.
Qed.

Lemma Allocate_valid amount shares :
  0 ≤ amount ≤ MaxInt64 → addressable shares → ValidShares shares →
  Allocate amount shares =
    Ok (fold_left bump (topped_up amount (by_payee shares)) (map (exactPart amount) (by_payee shares))).
Proof.
  intros Ha Hl Hv. pose proof Hv as Hv'.
  rewrite <-(isort_perm (on_key sh_PayeeID uuid_ltb) shares) in Hv'. fold (by_payee shares) in Hv'.
  unfold Allocate. rewrite (proj2 (Z.ltb_ge amount 0)) by lia.
  destruct (proj2 (checked_shares shares TotalBps Hl) (conj Hv eq_refl)) as (Hn & -> & _).
  rewrite bool_decide_false by (by destruct shares). cbn -[TotalBps Z.to_nat].
  rewrite Z.eqb_refl; cbn [negb]. fold (by_payee shares).
  assert (Hparts : map (basePart (quot64 amount TotalBps) (rem64 amount TotalBps)) (by_payee shares)
                   = map (exactPart amount) (by_payee shares)).
  { apply map_ext_in. intros s Hs%list_elem_of_In. unfold basePart, exactPart. f_equal.
    by apply (share_exact amount s Ha (valid_share _ _ Hv' Hs)). }
  assert (Hfracs : map (shareFrac (rem64 amount TotalBps)) (by_payee shares)
                   = map (remainder amount) (by_payee shares)).
  { apply map_ext_in. intros s Hs%list_elem_of_In.
    by apply (share_exact amount s Ha (valid_share _ _ Hv' Hs)). }
  rewrite Hparts, Hfracs.
  destruct (residue_bounds amount _ (proj1 Ha) Hv') as [Hres Hsum].
  assert (Hmap : map pt_Amount (map (exactPart amount) (by_payee shares))
                 = map (floorPart amount) (by_payee shares)) by (by rewrite map_map).
  rewrite distributed_sum; rewrite ?Hmap; [|lia| |unfold residueOf in Hres; lia].
  2: { apply Forall_map, list.Forall_forall. intros s Hs. by apply (floor_le_sum amount _ s (proj1 Ha) Hv'). }
  rewrite Z.add_0_l, sub64_id by (apply int64_nonneg; unfold residueOf in Hres; lia).
  fold (residueOf amount (by_payee shares)). rewrite length_map, Z.geb_leb.
  rewrite (proj2 (Z.ltb_ge _ 0)), (proj2 (Z.leb_gt _ _)) by lia. done.
Qed.

Lemma Allocate_ok_valid amount shares :
  addressable shares → is_ok (Allocate amount shares) = true → 0 ≤ amount ∧ ValidShares shares.
Proof.
  intros Hl. unfold Allocate. destruct (Z.ltb_spec amount 0); [done|].
  case_bool_decide as Hlen; [done|].
  destruct (checkShares [] 0 shares) as [t|] eqn:Hc; cbn [mbind result_bind]; [|done].
  destruct (Z.eqb_spec t TotalBps) as [->|]; [|done]. intros _. split; [done|].
  apply (checked_shares shares TotalBps Hl). split_and!; [by intros ->|done..].
Qed.

Lemma by_payee_valid shares : ValidShares (by_payee shares) ↔ ValidShares shares.
Proof. unfold by_payee. by rewrite isort_perm. Qed.

Lemma topped_up_length amount shares :
  0 ≤ amount → ValidShares shares →
  Z.of_nat (length (topped_up amount shares)) = residueOf amount shares.
Proof.
  intros Ha Hv. destruct (residue_bounds amount shares Ha Hv) as [Hr _].
  unfold topped_up. rewrite length_take, rankByFrac_perm, length_seq, length_map. lia.
Qed.

(** The larger remainders are topped up first. *)
Lemma topped_up_largest amount shares i j si sj :
  i ∈ topped_up amount shares → j ∉ topped_up amount shares →
  shares !! i = Some si → shares !! j = Some sj → remainder amount sj ≤ remainder amount si.
Proof.
  unfold topped_up. set (order := rankByFrac _). set (k := Z.to_nat _). intros Hi Hj Hsi Hsj.
  assert (Hjo : j ∈ drop k order).
  { assert (Hin : j ∈ order).
    { unfold order. rewrite rankByFrac_perm, length_map. apply elem_of_seq.
      apply lookup_lt_Some in Hsj. lia. }
    rewrite <-(take_drop k order) in Hin. apply elem_of_app in Hin as [|]; done. }
  assert (Hs : StronglySorted (not_after (λ i j, fracAt (map (remainder amount) shares) i >?
      fracAt (map (remainder amount) shares) j)) (take k order ++ drop k order)).
  { rewrite take_drop. apply isort_sorted, fracAt_less. }
  pose proof (StronglySorted_app_1_elem_of _ _ _ i j Hs Hi Hjo) as Hle. unfold not_after, fracAt in Hle.
  change (map (remainder amount) shares) with (remainder amount <$> shares) in Hle.
  rewrite !list_lookup_fmap, Hsi, Hsj in Hle. cbn in Hle. zbool. lia.
Qed.

Lemma allocate_facts amount shares parts :
  0 ≤ amount ≤ MaxInt64 → addressable shares → Allocate amount shares = Ok parts →
  sumZ (map pt_Amount parts) = amount ∧
  map pt_PayeeID parts = map sh_PayeeID (by_payee shares) ∧
  ∀ i s p, by_payee shares !! i = Some s → parts !! i = Some p →
    floorPart amount s ≤ pt_Amount p ≤ floorPart amount s + 1.
Proof.
  intros Ha Hl Hp.
  destruct (Allocate_ok_valid amount shares Hl ltac:(by rewrite Hp)) as [H0 Hv].
  rewrite Allocate_valid in Hp by done. injection Hp as <-.
  pose proof (proj2 (by_payee_valid shares) Hv) as Hv'. pose proof (topped_up_NoDup amount (by_payee shares)) as Hnd.
  pose proof (topped_up_can_bump amount _ Ha Hv') as Hb. split_and!.
  - rewrite bumps_sum, topped_up_length, map_map by done. unfold residueOf.
    change (map (λ x, pt_Amount (exactPart amount x)) (by_payee shares)) with (map (floorPart amount) (by_payee shares)). lia.
  - by rewrite bumps_payees, map_map.
  - intros i s p Hs Hp. pose proof (bumps_lookup _ _ i Hnd Hb) as H. rewrite Hp in H.
    change (map (exactPart amount) (by_payee shares)) with (exactPart amount <$> by_payee shares) in H.
    rewrite list_lookup_fmap, Hs in H. cbn in H. injection H as ->. case_bool_decide; lia.
Qed.

(** ** Properties *)

(** C22 (functional). [Allocate] conserves the money. It accepts an amount and
    shares exactly when the amount is not negative and the shares are a
    non-empty set of distinct payees whose basis points are in range and total
    10000; the residue error is unreachable. Then the parts sum to the amount
    to the cent, one part per share in payee order, each the floor of its
    exact share or one cent more. *)
Theorem allocate_conserves amount shares :
  int64 amount → addressable shares →
  (is_ok (Allocate amount shares) = true ↔ 0 ≤ amount ∧ ValidShares shares) ∧
  ∀ parts, Allocate amount shares = Ok parts →
    sumZ (map pt_Amount parts) = amount ∧
    map pt_PayeeID parts = map sh_PayeeID (by_payee shares) ∧
    ∀ i s p, by_payee shares !! i = Some s → parts !! i = Some p →
      floorPart amount s ≤ pt_Amount p ≤ floorPart amount s + 1.
Proof.
  intros [_ Ha] Hl. split.
  { split; [by apply Allocate_ok_valid|]. intros [? ?]. by rewrite Allocate_valid. }
  intros parts Hp. apply allocate_facts; [|done..].
  by destruct (Allocate_ok_valid amount shares Hl ltac:(by rewrite Hp)).
Qed.

(** Largest remainder: a share that receives a leftover cent
    has at least the remainder of any share that does not. *)
Theorem allocate_by_largest_remainder amount shares parts i j si sj pi pj :
  int64 amount → addressable shares → Allocate amount shares = Ok parts →
  by_payee shares !! i = Some si → parts !! i = Some pi → pt_Amount pi = floorPart amount si + 1 →
  by_payee shares !! j = Some sj → parts !! j = Some pj → pt_Amount pj = floorPart amount sj →
  remainder amount sj ≤ remainder amount si.
Proof.
  intros [_ Ha] Hl Hp Hsi Hpi Ei Hsj Hpj Ej.
  destruct (Allocate_ok_valid amount shares Hl ltac:(by rewrite Hp)) as [H0 Hv].
  rewrite Allocate_valid in Hp by done. injection Hp as <-.
  pose proof (proj2 (by_payee_valid shares) Hv) as Hv'. pose proof (topped_up_NoDup amount (by_payee shares)) as Hnd.
  pose proof (topped_up_can_bump amount _ (conj H0 Ha) Hv') as Hb.
  pose proof (bumps_lookup _ _ i Hnd Hb) as Hi. pose proof (bumps_lookup _ _ j Hnd Hb) as Hj.
  rewrite Hpi in Hi. rewrite Hpj in Hj.
  change (map (exactPart amount) (by_payee shares)) with (exactPart amount <$> by_payee shares) in Hi, Hj.
  rewrite list_lookup_fmap, Hsi in Hi. rewrite list_lookup_fmap, Hsj in Hj.
  cbn in Hi, Hj. injection Hi as Hi. injection Hj as Hj.
  apply (topped_up_largest amount (by_payee shares) i j); [..|done|done];
    case_bool_decide; case_bool_decide; first [done|lia].
Qed.

(** Who is paid what does not depend on the order in which
    the shares are read: two readings of one set of shares get the same parts,
    or are both refused. *)
Theorem allocate_order_independent `{!UUIDLaws} amount l1 l2 :
  int64 amount → addressable l1 → l1 ≡ₚ l2 →
  (is_ok (Allocate amount l1) = is_ok (Allocate amount l2)) ∧
  (is_ok (Allocate amount l1) = true → Allocate amount l1 = Allocate amount l2).
Proof.
  intros [_ Ha] Hl Hp. assert (Hl2 : addressable l2) by (unfold addressable in *; by rewrite <-Hp).
  assert (Hiff : is_ok (Allocate amount l1) = true ↔ is_ok (Allocate amount l2) = true).
  { split; intros Hok; apply Allocate_ok_valid in Hok as [? Hv]; [|done| |done].
    - rewrite Hp in Hv. by rewrite Allocate_valid.
    - rewrite <-Hp in Hv. by rewrite Allocate_valid. }
  split; [destruct (is_ok (Allocate amount l1)), (is_ok (Allocate amount l2)); naive_solver|].
  intros [? Hv]%Allocate_ok_valid; [|done]. pose proof Hv as Hv2. rewrite Hp in Hv2.
  rewrite !Allocate_valid by done. assert (by_payee l1 = by_payee l2) as ->; [|done].
  apply (sorted_by_id_eq sh_PayeeID); unfold by_payee; [apply isort_sorted, _..| |].
  - by rewrite !isort_perm.
  - rewrite isort_perm. by apply vs_payees.
Qed.
End Allocation.

(** ** A concrete allocation: one cent between three payees *)
#[local] Existing Instance text_uuid.
#[local] Existing Instance text_uuid_laws.

Definition example_shares : list Share :=
  [{| sh_PayeeID := "b"%string; sh_ShareBps := 3333 |}; {| sh_PayeeID := "a"%string; sh_ShareBps := 3334 |};
   {| sh_PayeeID := "c"%string; sh_ShareBps := 3333 |}].

Definition example_part (id : string) (amount : Z) : Part :=
  {| pt_PayeeID := id; pt_Amount := amount |}.

Lemma allocate_conserves_witness :
  ∃ parts, Allocate 1 example_shares = Ok parts ∧ sumZ (map pt_Amount parts) = 1.
Proof.
  destruct (Allocate 1 example_shares) as [parts|] eqn:E; [|vm_compute in E; discriminate E].
  exists parts. split; [reflexivity|].
  apply (allocate_conserves 1 example_shares); [vm_compute; split; discriminate|vm_compute; discriminate|exact E].
Defined.

Lemma allocate_by_largest_remainder_witness :
  remainder 1 {| sh_PayeeID := "b"%string; sh_ShareBps := 3333 |} ≤
  remainder 1 {| sh_PayeeID := "a"%string; sh_ShareBps := 3334 |}.
Proof.
  apply (allocate_by_largest_remainder 1 example_shares
    [example_part "a" 1; example_part "b" 0; example_part "c" 0] 0 1 _ _
    (example_part "a" 1) (example_part "b" 0));
    first [vm_compute; reflexivity|vm_compute; split; discriminate|vm_compute; discriminate].
Defined.

Lemma allocate_order_independent_witness :
  Allocate 1 example_shares = Allocate 1 (rev example_shares).
Proof.
  apply (allocate_order_independent 1 example_shares (rev example_shares));
    [vm_compute; split; discriminate|vm_compute; discriminate|apply Permutation_rev|vm_compute; reflexivity].
Defined.
