(* ===== verification/Sha256.v ===== *)
(** * SHA-256, HMAC and hexadecimal text

    The parts of Go's [crypto/sha256], [crypto/hmac] and [encoding/hex] that the
    payments store calls, written out so that the hashes of the model are the
    hashes of the program. A Go [[]byte] is a [string]. Nothing here assumes the
    hash to be injective: the properties that need it exhibit the collision. *)

From S2P Require Import Prelude.

Definition bytes : Type := string.

(** A nil slice, what a Go map of slices answers for an absent key. *)
Definition nil_bytes : bytes := ""%string.

Definition byte_of_Z (z : Z) : Ascii.ascii := Ascii.ascii_of_N (Z.to_N (z `mod` 256)).
Definition Z_of_byte (a : Ascii.ascii) : Z := Z.of_N (Ascii.N_of_ascii a).

Definition bytes_of_list (l : list Z) : bytes := string_of_list_ascii (map byte_of_Z l).
Definition list_of_bytes (b : bytes) : list Z := map Z_of_byte (list_ascii_of_string b).

(** ** 32-bit words *)
Definition word (z : Z) : Z := z `mod` 4294967296.
Definition addw (a b : Z) : Z := word (a + b).
Definition rotr (n x : Z) : Z := Z.lor (Z.shiftr x n) (word (Z.shiftl x (32 - n))).

Definition xor3 (a b c : Z) : Z := Z.lxor a (Z.lxor b c).
Definition big0 (x : Z) : Z := xor3 (rotr 2 x) (rotr 13 x) (rotr 22 x).
Definition big1 (x : Z) : Z := xor3 (rotr 6 x) (rotr 11 x) (rotr 25 x).
Definition small0 (x : Z) : Z := xor3 (rotr 7 x) (rotr 18 x) (Z.shiftr x 3).
Definition small1 (x : Z) : Z := xor3 (rotr 17 x) (rotr 19 x) (Z.shiftr x 10).
Definition choose (x y z : Z) : Z := Z.lxor (Z.land x y) (Z.land (Z.lxor x 4294967295) z).
Definition majority (x y z : Z) : Z := xor3 (Z.land x y) (Z.land x z) (Z.land y z).

Definition round_constants : list Z := [
  1116352408; 1899447441; 3049323471; 3921009573; 961987163; 1508970993; 2453635748; 2870763221;
  3624381080; 310598401; 607225278; 1426881987; 1925078388; 2162078206; 2614888103; 3248222580;
  3835390401; 4022224774; 264347078; 604807628; 770255983; 1249150122; 1555081692; 1996064986;
  2554220882; 2821834349; 2952996808; 3210313671; 3336571891; 3584528711; 113926993; 338241895;
  666307205; 773529912; 1294757372; 1396182291; 1695183700; 1986661051; 2177026350; 2456956037;
  2730485921; 2820302411; 3259730800; 3345764771; 3516065817; 3600352804; 4094571909; 275423344;
  430227734; 506948616; 659060556; 883997877; 958139571; 1322822218; 1537002063; 1747873779;
  1955562222; 2024104815; 2227730452; 2361852424; 2428436474; 2756734187; 3204031479; 3329325298].

Definition initial_state : list Z :=
  [1779033703; 3144134277; 1013904242; 2773480762; 1359893119; 2600822924; 528734635; 1541459225].

(** The message schedule, most recent word first. *)
Fixpoint extend_schedule (n : nat) (w : list Z) : list Z :=
  match n with
  | O => w
  | S n' =>
      let t := word (small1 (nth 1 w 0) + nth 6 w 0 + small0 (nth 14 w 0) + nth 15 w 0) in
      extend_schedule n' (t :: w)
  end.

Definition sha_round (s : list Z) (kw : Z * Z) : list Z :=
  match s with
  | [a; b; c; d; e; f; g; h] =>
      let t1 := word (h + big1 e + choose e f g + fst kw + snd kw) in
      let t2 := word (big0 a + majority a b c) in
      [addw t1 t2; a; b; c; addw d t1; e; f; g]
  | _ => s
  end.

Definition compress (s block : list Z) : list Z :=
  let w := rev (extend_schedule 48 (rev block)) in
  zip_with addw s (fold_left sha_round (combine round_constants w) s).

(** ** Blocks of sixteen big-endian words *)
Fixpoint words_of (l : list Z) : list Z :=
  match l with
  | a :: b :: c :: d :: l' => (((a * 256 + b) * 256 + c) * 256 + d) :: words_of l'
  | _ => []
  end.

Definition word_bytes (w : Z) : list Z := map (λ k, (w / k) `mod` 256) [16777216; 65536; 256; 1].

Definition pad (l : list Z) : list Z :=
  let n := Z.of_nat (length l) in
  let zeros := Z.to_nat ((55 - n) `mod` 64) in
  l ++ 128 :: repeat 0 zeros ++ word_bytes (8 * n / 4294967296) ++ word_bytes (word (8 * n)).

Fixpoint blocks (fuel : nat) (l : list Z) : list (list Z) :=
  match fuel, l with
  | S fuel', _ :: _ => take 16 l :: blocks fuel' (drop 16 l)
  | _, _ => []
  end.

Definition Sum256 (b : bytes) : bytes :=
  let w := words_of (pad (list_of_bytes b)) in
  bytes_of_list (concat (map word_bytes (fold_left compress (blocks (length w) w) initial_state))).

(** A digest is 32 bytes: eight words through every block. *)
Lemma sha_round_length s kw : length (sha_round s kw) = length s.
Proof. by do 9 (destruct s as [|? s]; try done). Qed.

Lemma compress_length s block : length s = 8%nat → length (compress s block) = 8%nat.
Proof.
  intros Hs. unfold compress. rewrite length_zip_with, Hs.
  enough (∀ kws s', length (fold_left sha_round kws s') = length s') as -> by (by rewrite Hs).
  induction kws as [|kw kws IH]; intros s'; cbn [fold_left]; [done|]. by rewrite IH, sha_round_length.
Qed.

Lemma Sum256_length b : String.length (Sum256 b) = 32%nat.
Proof.
  unfold Sum256, bytes_of_list. generalize (blocks (length (words_of (pad (list_of_bytes b)))) (words_of (pad (list_of_bytes b)))).
  intros bs. enough (Hl : ∀ s, length s = 8%nat → length (fold_left compress bs s) = 8%nat).
  { specialize (Hl initial_state eq_refl). revert Hl. generalize (fold_left compress bs initial_state). intros s Hs.
    do 9 (destruct s as [|? s]; try done). }
  induction bs as [|x bs IH]; intros s Hs; cbn [fold_left]; [done|]. by apply IH, compress_length.
Qed.

(** ** Hexadecimal text *)
Definition hex_digit (z : Z) : Ascii.ascii :=
  Ascii.ascii_of_N (Z.to_N (if z <? 10 then 48 + z else 87 + z)).

Definition Hex (b : bytes) : string :=
  string_of_list_ascii (concat (map (λ c, [hex_digit (Z_of_byte c / 16); hex_digit (Z_of_byte c `mod` 16)])
    (list_ascii_of_string b))).

Example sha256_empty :
  Hex (Sum256 "") = "e3b0c44298fc1c149afbf4c8996fb92427ae41e4649b934ca495991b7852b855"%string.
Proof. vm_compute. reflexivity. Qed.

Example sha256_abc :
  Hex (Sum256 "abc") = "ba7816bf8f01cfea414140de5dae2223b00361a396177a9cb410ff61f20015ad"%string.
Proof. vm_compute. reflexivity. Qed.

Example sha256_two_blocks :
  Hex (Sum256 "abcdbcdecdefdefgefghfghighijhijkijkljklmklmnlmnomnopnopq")
  = "248d6a61d20638b8e5c026930c3e6039a33ce45964ff2167f6ecedd419db06c1"%string.
Proof. vm_compute. reflexivity. Qed.

(** ** HMAC-SHA-256 *)

(** keyring.go, [effectiveHMACKey]: the block HMAC signs with. *)
Definition effectiveHMACKey (key : bytes) : bytes :=
  let k := if (64 <? String.length key)%nat then Sum256 key else key in
  bytes_of_list (take 64 (list_of_bytes k ++ repeat 0 64)).

Definition mask (m : Z) (b : bytes) : bytes := bytes_of_list (map (Z.lxor m) (list_of_bytes b)).

Definition hmac (key msg : bytes) : bytes :=
  let k := effectiveHMACKey key in
  Sum256 (mask 92 k +:+ Sum256 (mask 54 k +:+ msg)).

Example hmac_rfc4231_case_2 :
  Hex (hmac "Jefe" "what do ya want for nothing?")
  = "5bdcc146bf60754e6a042426089575c75a003f089d2739839dec58b964ec3843"%string.
Proof. vm_compute. reflexivity. Qed.

(** ** Hexadecimal text identifies the bytes *)

Definition unhex_digit (c : Ascii.ascii) : Z :=
  let n := Z_of_byte c in if n <? 58 then n - 48 else n - 87.

Fixpoint unhex (l : list Ascii.ascii) : list Ascii.ascii :=
  match l with
  | a :: b :: l' => byte_of_Z (unhex_digit a * 16 + unhex_digit b) :: unhex l'
  | _ => []
  end.

Lemma unhex_byte c :
  byte_of_Z (unhex_digit (hex_digit (Z_of_byte c / 16)) * 16 + unhex_digit (hex_digit (Z_of_byte c `mod` 16))) = c.
Proof. destruct c as [[] [] [] [] [] [] [] []]; vm_compute; reflexivity. Qed.

Lemma unhex_Hex b : string_of_list_ascii (unhex (list_ascii_of_string (Hex b))) = b.
Proof.
  unfold Hex. rewrite list_ascii_of_string_of_list_ascii.
  transitivity (string_of_list_ascii (list_ascii_of_string b));
    [|apply string_of_list_ascii_of_string]. f_equal.
  induction (list_ascii_of_string b) as [|c l IH]; [done|].
  cbn [map concat app unhex]. by rewrite unhex_byte, IH.
Qed.

#[export] Instance Hex_inj : Inj (=) (=) Hex.
Proof. intros a b E. by rewrite <-(unhex_Hex a), <-(unhex_Hex b), E. Qed.

(** Two different inputs with one hash. *)
Definition Collision (a b : bytes) : Prop := a ≠ b ∧ Sum256 a = Sum256 b.

(** Digests chained to a previous one of a fixed length commit to both parts. *)
Lemma chained_digest_inj p1 p2 c1 c2 :
  String.length p1 = String.length p2 → Sum256 (p1 +:+ c1) = Sum256 (p2 +:+ c2) →
  (p1 = p2 ∧ c1 = c2) ∨ Collision (p1 +:+ c1) (p2 +:+ c2).
Proof.
  intros Hl Hh. destruct (decide (p1 +:+ c1 = p2 +:+ c2)) as [E|]; [left|by right].
  clear Hh. revert p2 Hl E. induction p1 as [|a p1 IH]; intros [|b p2] Hl E; try done.
  cbn in Hl. change (String a (p1 +:+ c1) = String b (p2 +:+ c2)) in E. injection E as -> E.
  injection Hl as Hl. destruct (IH p2 Hl E) as [-> ->]. done.
Qed.
