(* ===== verification/Settlement.v ===== *)
(** * The settlement ledger: who is owed what out of a capture

    [services/payments/internal/store/settlement.go]. [BuildSettlementEntries]
    turns commerce's plan into ledger lines or refuses it before any money
    moves. The two running totals of the loop wrap at 64 bits in the code and in
    the model; the theorems show that no accepted plan wraps them. *)

From stdpp Require Import pretty.
From S2P Require Import Prelude Text Allocation Sha256.
#[local] Open Scope Z_scope.

Section Settlement.
Context `{UU : UUID}.

(** [EntryKind] is a string type; the migration's backfill kind is the one
    other value the database knows. *)
Inductive EntryKind := EntryFaceValue | EntryFee | EntryOther (s : string).

Definition kind_text (k : EntryKind) : string :=
  match k with EntryFaceValue => "face_value" | EntryFee => "fee" | EntryOther s => s end.

Record PayeeRef := {
  ref_ID : uuid;
  ref_Kind : string;
  ref_DisplayName : string;
  ref_ExternalReference : option string;
}.

Record FeeLine := {
  fl_FeeCode : string;
  fl_Incidence : string;
  fl_Amount : Z;
  fl_Currency : string;
  fl_Shares : list Share;
  fl_Payees : gmap uuid PayeeRef;
}.

Record SettlementPlan := {
  sp_FaceValue : Z;
  sp_PassedOn : Z;
  sp_Absorbed : Z;
  sp_TotalAmount : Z;
  sp_Currency : string;
  sp_Fees : list FeeLine;
}.

Record SettlementEntry := {
  se_Kind : EntryKind;
  se_Payee : option PayeeRef;
  se_FeeCode : string;
  se_Incidence : string;
  se_Amount : Z;
  se_Currency : string;
}.

Inductive SettlementError :=
| ErrSettlementUnbalanced (why : string)
| ErrSettlementPlanUnusable (why : string).

Definition unusable {T} (why : string) : result SettlementError T := Err (ErrSettlementPlanUnusable why).

(** [passedOnSeen] and [absorbedSeen]. *)
Definition seen : Type := Z * Z.

(** The [switch f.Incidence], written twice in the loop. *)
Definition seeIncidence (f : FeeLine) (s : seen) : result SettlementError seen :=
  if bool_decide (fl_Incidence f = "passed_on"%string) then Ok (add64 s.1 (fl_Amount f), s.2)
  else if bool_decide (fl_Incidence f = "absorbed"%string) then Ok (s.1, add64 s.2 (fl_Amount f))
  else unusable ("fee " +:+ fl_FeeCode f +:+ " has unknown incidence " +:+ fl_Incidence f).

Definition feeEntry (f : FeeLine) (payee : option PayeeRef) (amount : Z) : SettlementEntry := {|
  se_Kind := EntryFee; se_Payee := payee; se_FeeCode := fl_FeeCode f;
  se_Incidence := fl_Incidence f; se_Amount := amount; se_Currency := fl_Currency f |}.

(** The loop over the allocated parts. *)
Fixpoint partEntries (f : FeeLine) (parts : list Part) : result SettlementError (list SettlementEntry) :=
  match parts with
  | [] => Ok []
  | p :: parts' =>
      match fl_Payees f !! pt_PayeeID p with
      | None => unusable ("fee " +:+ fl_FeeCode f +:+ " names a payee it carries no identity for")
      | Some ref =>
          rest ← partEntries f parts';
          Ok (feeEntry f (Some ref) (pt_Amount p) :: rest)
      end
  end.

(** What one fee appends before its incidence is counted. *)
Definition feeEntries (f : FeeLine) : result SettlementError (list SettlementEntry) :=
  if bool_decide (length (fl_Shares f) = 0%nat) then Ok [feeEntry f None (fl_Amount f)]
  else
    match Allocate (fl_Amount f) (fl_Shares f) with
    | Err _ => unusable ("fee " +:+ fl_FeeCode f)
    | Ok parts => partEntries f parts
    end.

Fixpoint settleLoop (currency : string) (fees : list FeeLine) (entries : list SettlementEntry) (s : seen)
    : result SettlementError (list SettlementEntry * seen) :=
  match fees with
  | [] => Ok (entries, s)
  | f :: fees' =>
      if negb (bool_decide (fl_Currency f = currency))
      then unusable ("fee " +:+ fl_FeeCode f +:+ " is in another currency")
      else if fl_Amount f <? 0 then unusable ("fee " +:+ fl_FeeCode f +:+ " is negative")
      else
        es ← feeEntries f;
        s' ← seeIncidence f s;
        settleLoop currency fees' (entries ++ es) s'
  end.

Fixpoint sumEntriesFrom (total : Z) (entries : list SettlementEntry) : result SettlementError Z :=
  match entries with
  | [] => Ok total
  | e :: entries' =>
      if (se_Amount e >? 0) && (total >? sub64 MaxInt64 (se_Amount e))
      then Err (ErrSettlementUnbalanced "entries overflow int64")
      else if (se_Amount e <? 0) && (total <? sub64 MinInt64 (se_Amount e))
      then Err (ErrSettlementUnbalanced "entries underflow int64")
      else sumEntriesFrom (add64 total (se_Amount e)) entries'
  end.

Definition sumEntries (entries : list SettlementEntry) : result SettlementError Z :=
  sumEntriesFrom 0 entries.

Definition organizerEntry (plan : SettlementPlan) : SettlementEntry := {|
  se_Kind := EntryFaceValue; se_Payee := None; se_FeeCode := ""; se_Incidence := "";
  se_Amount := sub64 (sp_FaceValue plan) (sp_Absorbed plan); se_Currency := sp_Currency plan |}.

Definition BuildSettlementEntries (plan : SettlementPlan) (capturedAmount : Z)
    : result SettlementError (list SettlementEntry) :=
  if bool_decide (sp_Currency plan = ""%string) then unusable "no currency"
  else if (sp_FaceValue plan <? 0) || (sp_PassedOn plan <? 0) || (sp_Absorbed plan <? 0)
  then unusable "a negative component"
  else if negb (sp_TotalAmount plan =? capturedAmount) then unusable "plan total, captured"
  else if sp_FaceValue plan >? sub64 MaxInt64 (sp_PassedOn plan) then unusable "face + passed_on overflows"
  else if negb (add64 (sp_FaceValue plan) (sp_PassedOn plan) =? sp_TotalAmount plan)
  then unusable "face + passed_on != total"
  else
    '(entries, (passedOnSeen, absorbedSeen)) ← settleLoop (sp_Currency plan) (sp_Fees plan) [] (0, 0);
    if negb (passedOnSeen =? sp_PassedOn plan) then unusable "passed-on fees total"
    else if negb (absorbedSeen =? sp_Absorbed plan) then unusable "absorbed fees total"
    else
      let entries := entries ++ [organizerEntry plan] in
      total ← sumEntries entries;
      if negb (total =? capturedAmount) then Err (ErrSettlementUnbalanced "entries sum to")
      else Ok entries.

(** One line of the digest: [fmt.Sprintf("%s|%s|%s|%s|%d|%s", ...)]. *)
Definition digestLine (e : SettlementEntry) : string :=
  let payee := match se_Payee e with Some p => uuid_String (ref_ID p) | None => ""%string end in
  kind_text (se_Kind e) +:+ "|" +:+ se_FeeCode e +:+ "|" +:+ se_Incidence e +:+ "|" +:+ payee
    +:+ "|" +:+ pretty (se_Amount e) +:+ "|" +:+ se_Currency e.

Definition digestText (entries : list SettlementEntry) : bytes :=
  join newline (isort String.ltb (map digestLine entries)).

Definition PlanDigest (entries : list SettlementEntry) : string := Hex (Sum256 (digestText entries)).

(** ** What a plan must be *)

Definition KnownFeeIncidence (f : FeeLine) : Prop :=
  fl_Incidence f = "passed_on"%string ∨ fl_Incidence f = "absorbed"%string.

(** A fee that can be attributed: to nobody, or to payees it can name. *)
Record SettleableFee (currency : string) (f : FeeLine) : Prop := {
  sf_currency : fl_Currency f = currency;
  sf_amount : 0 ≤ fl_Amount f;
  sf_incidence : KnownFeeIncidence f;
  sf_shares : fl_Shares f ≠ [] →
    ValidShares (fl_Shares f) ∧ ∀ s, s ∈ fl_Shares f → is_Some (fl_Payees f !! sh_PayeeID s);
}.

(** What the fees of one incidence come to. *)
Definition charged (incidence : string) (fees : list FeeLine) : Z :=
  sumZ (map fl_Amount (List.filter (λ f, bool_decide (fl_Incidence f = incidence)) fees)).

Record Settleable (plan : SettlementPlan) (captured : Z) : Prop := {
  pl_currency : sp_Currency plan ≠ ""%string;
  pl_face : 0 ≤ sp_FaceValue plan;
  pl_total : sp_TotalAmount plan = captured ∧ sp_FaceValue plan + sp_PassedOn plan = captured;
  pl_fees : Forall (SettleableFee (sp_Currency plan)) (sp_Fees plan);
  pl_passed : sp_PassedOn plan = charged "passed_on" (sp_Fees plan);
  pl_absorbed : sp_Absorbed plan = charged "absorbed" (sp_Fees plan);
  pl_fits : sumZ (map fl_Amount (sp_Fees plan)) ≤ MaxInt64;
}.

(** The Go types of a plan's numbers. *)
Record plan_typed (plan : SettlementPlan) : Prop := {
  pt_face : int64 (sp_FaceValue plan);
  pt_passed : int64 (sp_PassedOn plan);
  pt_absorbed : int64 (sp_Absorbed plan);
  pt_total : int64 (sp_TotalAmount plan);
  pt_fees : Forall (λ f, int64 (fl_Amount f) ∧ addressable (fl_Shares f)) (sp_Fees plan);
}.

Definition amounts (entries : list SettlementEntry) : Z := sumZ (map se_Amount entries).

(** The lines of one fee: its money, all of it, under its own code. *)
Record LinesOf (f : FeeLine) (es : list SettlementEntry) : Prop := {
  lo_sum : amounts es = fl_Amount f;
  lo_nonneg : Forall (λ e, 0 ≤ se_Amount e) es;
  lo_shape : Forall (λ e, se_Kind e = EntryFee ∧ se_FeeCode e = fl_FeeCode f ∧
    se_Incidence e = fl_Incidence f ∧ se_Currency e = fl_Currency f) es;
  lo_payees : map (λ e, ref_ID <$> se_Payee e) es =
    if bool_decide (length (fl_Shares f) = 0%nat) then [None]
    else map (λ s, ref_ID <$> fl_Payees f !! sh_PayeeID s) (by_payee (fl_Shares f));
}.

Lemma partEntries_Ok f parts es :
  partEntries f parts = Ok es ↔
  ∃ refs, Forall2 (λ p ref, fl_Payees f !! pt_PayeeID p = Some ref) parts refs ∧
    es = zip_with (λ p ref, feeEntry f (Some ref) (pt_Amount p)) parts refs.
Proof.
  revert es. induction parts as [|p parts IH]; intros es; cbn.
  { split; [intros [= <-]; by exists []|]. intros (refs & _ & ->). done. }
  destruct (fl_Payees f !! pt_PayeeID p) as [ref|] eqn:E.
  - rewrite bind_Ok. split.
    + intros (rest & (refs & H & ->)%IH & [= <-]). exists (ref :: refs). split; [by constructor|done].
    + intros (refs & H & ->). inversion H as [|? ref' ? refs' E' H']; subst. rewrite E in E'.
      injection E' as <-. eexists. split; [|done]. apply IH. by eexists.
  - split; [done|]. intros (refs & H & _). inversion H; subst. congruence.
Qed.

Lemma zip_entries_amounts f parts refs :
  length parts = length refs →
  map se_Amount (zip_with (λ p ref, feeEntry f (Some ref) (pt_Amount p)) parts refs) = map pt_Amount parts.
Proof. revert refs. induction parts; intros [|]; cbn; try done. intros [= E]. f_equal. auto. Qed.

Lemma parts_nonneg amount shares parts :
  0 ≤ amount ≤ MaxInt64 → addressable shares → Allocate amount shares = Ok parts →
  Forall (λ p, 0 ≤ pt_Amount p) parts.
Proof.
  intros Ha Hl Hp. destruct (allocate_facts amount shares parts) as (_ & Hids & Hb); [done..|].
  rewrite list.Forall_forall. intros p (i & Hi)%list_elem_of_lookup.
  assert (Hlen : length parts = length (by_payee shares)).
  { rewrite <-(length_map pt_PayeeID parts), Hids. apply length_map. }
  destruct (lookup_lt_is_Some_2 (by_payee shares) i) as [s Hs].
  { rewrite <-Hlen. by eapply lookup_lt_Some. }
  specialize (Hb i s p Hs Hi).
  destruct (Allocate_ok_valid amount shares Hl ltac:(by rewrite Hp)) as [_ Hv].
  pose proof (proj2 (by_payee_valid shares) Hv) as Hv'.
  pose proof (floor_le_sum amount _ s (proj1 Ha) Hv' (list_elem_of_lookup_2 _ _ _ Hs)). lia.
Qed.

Lemma feeEntries_lines f es :
  0 ≤ fl_Amount f ≤ MaxInt64 → addressable (fl_Shares f) → feeEntries f = Ok es →
  LinesOf f es ∧ (fl_Shares f ≠ [] →
    ValidShares (fl_Shares f) ∧ ∀ s, s ∈ fl_Shares f → is_Some (fl_Payees f !! sh_PayeeID s)).
Proof.
  intros Ha Hl. unfold feeEntries. case_bool_decide as Hlen.
  { intros [= <-]. split; [|intros Hne; by destruct (fl_Shares f)].
    split; [unfold amounts; cbn; lia|repeat constructor; cbn; lia|by repeat constructor|].
    by rewrite bool_decide_true. }
  destruct (Allocate (fl_Amount f) (fl_Shares f)) as [parts|] eqn:Hp; [|done].
  intros (refs & Hrefs & ->)%partEntries_Ok.
  pose proof (list.Forall2_length _ _ _ Hrefs) as Hlr.
  destruct (allocate_facts _ _ _ Ha Hl Hp) as (Hsum & Hids & _).
  assert (Hpay : map (λ s, fl_Payees f !! sh_PayeeID s) (by_payee (fl_Shares f)) = map Some refs).
  { rewrite <-(map_map sh_PayeeID (λ i, fl_Payees f !! i)), <-Hids, map_map.
    clear -Hrefs. induction Hrefs as [|p ref parts refs H _ IH]; cbn; [done|]. by rewrite H, IH. }
  split; [split|intros _; split].
  - unfold amounts. by rewrite zip_entries_amounts.
  - pose proof (parts_nonneg _ _ _ Ha Hl Hp) as Hnn. clear -Hnn.
    revert refs. induction Hnn; intros [|ref refs]; cbn; constructor; auto.
  - clear. revert refs. induction parts; intros [|ref refs]; cbn; constructor; auto.
  - rewrite bool_decide_false by done.
    transitivity (map (λ o, ref_ID <$> o) (map Some refs)); [|by rewrite <-Hpay, map_map].
    clear -Hlr. revert refs Hlr. induction parts; intros [|ref refs] E; cbn; try done.
    injection E as E. f_equal. by apply IHparts.
  - by apply (Allocate_ok_valid (fl_Amount f)); [|rewrite Hp].
  - intros s Hs. rewrite <-(elem_of_isort (on_key sh_PayeeID uuid_ltb)) in Hs. fold (by_payee (fl_Shares f)) in Hs.
    assert (Hin : fl_Payees f !! sh_PayeeID s ∈ map Some refs).
    { rewrite <-Hpay. apply list_elem_of_In, (List.in_map (λ s, fl_Payees f !! sh_PayeeID s)). by apply list_elem_of_In. }
    apply list_elem_of_In, List.in_map_iff in Hin as (ref & <- & _). by eexists.
Qed.

Lemma feeEntries_total f :
  0 ≤ fl_Amount f ≤ MaxInt64 → addressable (fl_Shares f) →
  (fl_Shares f ≠ [] → ValidShares (fl_Shares f) ∧
     ∀ s, s ∈ fl_Shares f → is_Some (fl_Payees f !! sh_PayeeID s)) →
  ∃ es, feeEntries f = Ok es.
Proof.
  intros Ha Hl Hok. unfold feeEntries. case_bool_decide as Hlen; [by eexists|].
  destruct Hok as [Hv Hpay]; [by intros E; rewrite E in Hlen|].
  destruct (Allocate (fl_Amount f) (fl_Shares f)) as [parts|e] eqn:Hp.
  2: { rewrite Allocate_valid in Hp by done. done. }
  destruct (allocate_facts _ _ _ Ha Hl Hp) as (_ & Hids & _).
  assert (Hall : Forall (λ p, is_Some (fl_Payees f !! pt_PayeeID p)) parts).
  { rewrite list.Forall_forall. intros p Hpin.
    assert (Hin : pt_PayeeID p ∈ map pt_PayeeID parts) by (by apply list_elem_of_In, List.in_map, list_elem_of_In).
    rewrite Hids in Hin. apply list_elem_of_In, List.in_map_iff in Hin as (s & <- & Hs).
    apply Hpay. apply list_elem_of_In in Hs. by rewrite <-(elem_of_isort (on_key sh_PayeeID uuid_ltb)). }
  clear -Hall. induction Hall as [|p parts [ref Hp] _ [es IH]]; cbn; [by eexists|].
  rewrite Hp, IH. by eexists.
Qed.

Lemma seeIncidence_Ok f a b s' :
  seeIncidence f (wrap64 a, wrap64 b) = Ok s' ↔
  KnownFeeIncidence f ∧
  s' = (wrap64 (a + charged "passed_on" [f]), wrap64 (b + charged "absorbed" [f])).
Proof.
  unfold seeIncidence, KnownFeeIncidence, charged. cbn [fst snd List.filter].
  case_bool_decide as H1.
  { rewrite (bool_decide_false (fl_Incidence f = "absorbed"%string)) by (by rewrite H1). cbn.
    rewrite wrap64_add, !Z.add_0_r. naive_solver. }
  case_bool_decide as H2; cbn.
  - rewrite wrap64_add, !Z.add_0_r. naive_solver.
  - naive_solver.
Qed.

Lemma charged_cons inc f fees : charged inc (f :: fees) = charged inc [f] + charged inc fees.
Proof. unfold charged. cbn [List.filter]. case_bool_decide; cbn; lia. Qed.

Lemma settleLoop_Ok cur fees entries a b out :
  Forall (λ f, int64 (fl_Amount f) ∧ addressable (fl_Shares f)) fees →
  settleLoop cur fees entries (wrap64 a, wrap64 b) = Ok out ↔
  Forall (SettleableFee cur) fees ∧
  ∃ ess, Forall2 (λ f es, feeEntries f = Ok es) fees ess ∧
    out = (entries ++ concat ess,
      (wrap64 (a + charged "passed_on" fees), wrap64 (b + charged "absorbed" fees))).
Proof.
  intros Ht. revert entries a b. induction Ht as [|f fees [[_ Hmax] Hl] _ IH]; intros entries a b.
  { cbn [settleLoop]. unfold charged; cbn. rewrite !Z.add_0_r. split.
    - intros [= <-]. split; [constructor|]. exists []. cbn. by rewrite app_nil_r.
    - intros (_ & ess & H & ->). inversion H; subst. cbn. by rewrite app_nil_r. }
  cbn [settleLoop]. rewrite (charged_cons "passed_on" f fees), (charged_cons "absorbed" f fees), !Z.add_assoc. split.
  - case_bool_decide as Hc; cbn [negb]; [|done]. destruct (Z.ltb_spec (fl_Amount f) 0) as [|H0]; [done|].
    intros (es & Hes & (s' & Hs & Hrest)%bind_Ok)%bind_Ok.
    apply seeIncidence_Ok in Hs as [Hk ->]. apply IH in Hrest as (Hall & ess & Hess & ->).
    destruct (feeEntries_lines f es (conj H0 Hmax) Hl Hes) as [_ Hsh].
    split; [by constructor|]. exists (es :: ess). split; [by constructor|]. cbn. by rewrite app_assoc.
  - intros (Hall & ess & Hess & ->). inversion Hall as [|? ? [Hc H0 Hk Hsh] Hall']; subst.
    inversion Hess as [|? es ? ess' He Hess']; subst. rewrite bool_decide_true by done. cbn [negb].
    rewrite (proj2 (Z.ltb_ge _ 0)) by done. apply bind_Ok. exists es. split; [done|].
    apply bind_Ok. eexists. split; [by apply seeIncidence_Ok|]. apply IH. split; [done|].
    exists ess'. split; [done|]. cbn. by rewrite app_assoc.
Qed.

Lemma sumEntriesFrom_app total es rest t :
  0 ≤ total ≤ MaxInt64 → Forall (λ e, 0 ≤ se_Amount e ≤ MaxInt64) es →
  sumEntriesFrom total (es ++ rest) = Ok t ↔
  total + amounts es ≤ MaxInt64 ∧ sumEntriesFrom (total + amounts es) rest = Ok t.
Proof.
  intros Ht Hes. revert total Ht. induction Hes as [|e es He Hes IH]; intros total Ht.
  { unfold amounts; cbn. rewrite Z.add_0_r. naive_solver lia. }
  assert (Hpos : 0 ≤ amounts es).
  { apply sumZ_nonneg, Forall_map. eapply List.Forall_impl; [|exact Hes]. cbn. lia. }
  assert (Hcons : amounts (e :: es) = se_Amount e + amounts es) by done.
  rewrite Hcons, Z.add_assoc. cbn [app sumEntriesFrom].
  rewrite sub64_id by (apply int64_nonneg; lia). rewrite (proj2 (Z.ltb_ge (se_Amount e) 0)) by lia.
  rewrite !Z.gtb_ltb. cbn [andb].
  destruct (Z.ltb_spec 0 (se_Amount e)), (Z.ltb_spec (MaxInt64 - se_Amount e) total); cbn [andb];
    first [split; [done|lia]|rewrite add64_id by (apply int64_nonneg; lia); apply IH; lia].
Qed.

Lemma sumEntriesFrom_last total e t :
  0 ≤ total ≤ MaxInt64 → - MaxInt64 ≤ se_Amount e ≤ MaxInt64 → total + se_Amount e ≤ MaxInt64 →
  sumEntriesFrom total [e] = Ok t ↔ t = total + se_Amount e.
Proof.
  intros Ht He Hs. cbn [sumEntriesFrom]. rewrite !Z.gtb_ltb.
  assert (H1 : (0 <? se_Amount e) && (sub64 MaxInt64 (se_Amount e) <? total) = false).
  { apply andb_false_iff. destruct (Z.ltb_spec 0 (se_Amount e)); [right|by left].
    rewrite sub64_id by (apply int64_nonneg; lia). apply Z.ltb_ge. lia. }
  assert (H2 : (se_Amount e <? 0) && (total <? sub64 MinInt64 (se_Amount e)) = false).
  { apply andb_false_iff. destruct (Z.ltb_spec (se_Amount e) 0); [right|by left].
    rewrite sub64_id by (unfold int64, MinInt64, MaxInt64 in *; lia). apply Z.ltb_ge.
    unfold MinInt64, MaxInt64 in *. lia. }
  rewrite H1, H2, add64_id by (unfold int64, MinInt64, MaxInt64 in *; lia). naive_solver.
Qed.

(** The lines of every fee together. *)
Lemma all_lines cur fees ess :
  Forall (λ f, int64 (fl_Amount f) ∧ addressable (fl_Shares f)) fees →
  Forall (SettleableFee cur) fees → Forall2 (λ f es, feeEntries f = Ok es) fees ess →
  Forall2 LinesOf fees ess ∧ amounts (concat ess) = sumZ (map fl_Amount fees) ∧
  Forall (λ e, 0 ≤ se_Amount e ≤ MaxInt64) (concat ess).
Proof.
  intros Ht Hf Hess. induction Hess as [|f es fees ess He _ IH]; [by repeat constructor|].
  inversion Ht as [|? ? [[_ Hm] Hl] Ht']; inversion Hf as [|? ? [_ Hpos _ _] Hf']; subst.
  destruct (IH Ht' Hf') as (Hlines & Hsum & Hall).
  destruct (feeEntries_lines f es (conj Hpos Hm) Hl He) as [Hlo _]. split_and!.
  - by constructor.
  - cbn. unfold amounts in *. rewrite map_app, sumZ_app, Hsum. by rewrite <-(lo_sum _ _ Hlo).
  - cbn. apply Forall_app. split; [|done].
    rewrite list.Forall_forall. intros e Hin. pose proof (lo_nonneg _ _ Hlo) as Hnn.
    split; [by rewrite list.Forall_forall in Hnn; apply Hnn|].
    transitivity (amounts es); [|rewrite (lo_sum _ _ Hlo); done].
    apply sumZ_elem; [by apply Forall_map|]. by apply list_elem_of_In, List.in_map, list_elem_of_In.
Qed.

Lemma charged_one inc f :
  charged inc [f] = if bool_decide (fl_Incidence f = inc) then fl_Amount f else 0.
Proof. unfold charged. cbn [List.filter]. case_bool_decide; cbn; lia. Qed.

Lemma charged_total cur fees :
  Forall (SettleableFee cur) fees →
  sumZ (map fl_Amount fees) = charged "passed_on" fees + charged "absorbed" fees ∧
  0 ≤ charged "passed_on" fees ∧ 0 ≤ charged "absorbed" fees.
Proof.
  induction 1 as [|f fees [_ H0 Hk _] _ IH]; [by unfold charged; cbn|].
  rewrite (charged_cons "passed_on" f fees), (charged_cons "absorbed" f fees).
  rewrite !charged_one. cbn [map sumZ].
  destruct Hk as [-> | ->]; repeat case_bool_decide; try discriminate; try done; lia.
Qed.

Lemma Build_Ok plan captured entries :
  plan_typed plan → int64 captured →
  BuildSettlementEntries plan captured = Ok entries ↔
  Settleable plan captured ∧
  ∃ ess, Forall2 (λ f es, feeEntries f = Ok es) (sp_Fees plan) ess ∧
    entries = concat ess ++ [organizerEntry plan].
Proof.
  intros [[_ Hf] [_ Hp] [_ Hab] [_ Ht] Htf] Hcap. unfold BuildSettlementEntries.
  case_bool_decide as Hcur; [split; [done|by intros [[] _]]|].
  destruct ((_ || _) || _) eqn:Eneg; zbool.
  { split; [done|]. intros [[_ H1 [_ H2] H3 H4 H5 _] _]. pose proof (charged_total _ _ H3).
    destruct Eneg as [Eneg|]; zbool; [destruct Eneg; zbool|]; lia. }
  destruct (Z.eqb_spec (sp_TotalAmount plan) captured) as [Htot|]; cbn [negb];
    [|split; [done|by intros [[_ _ [] _ _ _ _] _]]].
  rewrite sub64_id, Z.gtb_ltb by (apply int64_nonneg; lia).
  destruct (Z.ltb_spec (MaxInt64 - sp_PassedOn plan) (sp_FaceValue plan)).
  { split; [done|]. intros [[_ _ [] _ _ _ _] _]. unfold int64 in *. lia. }
  rewrite add64_id by (apply int64_nonneg; lia).
  destruct (Z.eqb_spec (sp_FaceValue plan + sp_PassedOn plan) (sp_TotalAmount plan)) as [Hsum|]; cbn [negb];
    [|split; [done|intros [[_ _ [] _ _ _ _] _]; lia]].
  change (0, 0) with (wrap64 0, wrap64 0). rewrite bind_Ok.
  setoid_rewrite settleLoop_Ok; [|done]. cbn [app]. split.
  - intros ([es [p a]] & (Hall & ess & Hess & [= -> -> ->]) & Hrun). rewrite !Z.add_0_l in Hrun.
    destruct (Z.eqb_spec (wrap64 (charged "passed_on" (sp_Fees plan))) (sp_PassedOn plan)) as [Hpo|]; [|done].
    destruct (Z.eqb_spec (wrap64 (charged "absorbed" (sp_Fees plan))) (sp_Absorbed plan)) as [Hao|]; [|done].
    cbn [negb] in Hrun. apply bind_Ok in Hrun as (t & Hs & Hend).
    destruct (all_lines _ _ _ Htf Hall Hess) as (_ & Hes & Hrange).
    apply sumEntriesFrom_app in Hs as [Hfit _]; [|unfold MaxInt64; lia|done]. rewrite Hes, Z.add_0_l in Hfit.
    destruct (charged_total _ _ Hall) as (Hc & ? & ?).
    rewrite wrap64_id in Hpo, Hao by (apply int64_nonneg; lia).
    destruct (t =? captured); [|done]. injection Hend as <-. split; [|by exists ess].
    split; try done; lia.
  - intros [[_ _ _ Hall Hpo Hao Hfit] (ess & Hess & ->)].
    destruct (all_lines _ _ _ Htf Hall Hess) as (_ & Hes & Hrange).
    destruct (charged_total _ _ Hall) as (Hc & ? & ?).
    exists (concat ess, (wrap64 (charged "passed_on" (sp_Fees plan)), wrap64 (charged "absorbed" (sp_Fees plan)))).
    split; [split; [done|by exists ess]|].
    rewrite (wrap64_id (charged "passed_on" _)), (wrap64_id (charged "absorbed" _)) by (apply int64_nonneg; lia).
    rewrite <-Hpo, <-Hao, !Z.eqb_refl. cbn [negb]. apply bind_Ok. exists captured.
    assert (Horg : se_Amount (organizerEntry plan) = sp_FaceValue plan - sp_Absorbed plan).
    { apply sub64_id. unfold int64, MinInt64, MaxInt64 in *. lia. }
    split; [|by rewrite Z.eqb_refl]. apply sumEntriesFrom_app; [unfold MaxInt64; lia|done|].
    split; [lia|]. apply sumEntriesFrom_last; lia.
Qed.

Lemma organizer_amount plan : plan_typed plan → 0 ≤ sp_FaceValue plan → 0 ≤ sp_Absorbed plan →
  se_Amount (organizerEntry plan) = sp_FaceValue plan - sp_Absorbed plan.
Proof. intros [[] [] [] [] _] ? ?. apply sub64_id. unfold int64, MinInt64, MaxInt64 in *. lia. Qed.

(** The lines of an accepted plan sum to the capture. *)
Lemma settled_amounts plan captured entries :
  plan_typed plan → int64 captured → BuildSettlementEntries plan captured = Ok entries → amounts entries = captured.
Proof.
  intros Ht Hc ([Hcur Hf [H1 H2] Hall Hpo Hao Hfit] & ess & Hess & ->)%Build_Ok; [|done..].
  destruct (all_lines _ _ _ (pt_fees _ Ht) Hall Hess) as (_ & Hsum & _).
  destruct (charged_total _ _ Hall) as (Hch & ? & ?).
  unfold amounts in *. rewrite map_app, sumZ_app, Hsum. cbn [map sumZ]. rewrite organizer_amount by (done || lia). lia.
Qed.

Lemma feeEntries_exist plan captured :
  plan_typed plan → Settleable plan captured →
  ∃ ess, Forall2 (λ f es, feeEntries f = Ok es) (sp_Fees plan) ess.
Proof.
  intros [_ _ _ _ Ht] [_ _ _ Hall _ _ _].
  induction Ht as [|f fees [[_ Hm] Hl] _ IH]; [by exists []|].
  inversion Hall as [|? ? [_ H0 _ Hsh] Hall']; subst. destruct (IH Hall') as [ess Hess].
  destruct (feeEntries_total f (conj H0 Hm) Hl Hsh) as [es Hes]. exists (es :: ess). by constructor.
Qed.

(** The same plan with its fees listed in another order. *)
Definition with_fees (plan : SettlementPlan) (fees : list FeeLine) : SettlementPlan := {|
  sp_FaceValue := sp_FaceValue plan; sp_PassedOn := sp_PassedOn plan; sp_Absorbed := sp_Absorbed plan;
  sp_TotalAmount := sp_TotalAmount plan; sp_Currency := sp_Currency plan; sp_Fees := fees |}.

Lemma settleable_permuted plan captured fees :
  sp_Fees plan ≡ₚ fees → Settleable plan captured → Settleable (with_fees plan fees) captured.
Proof.
  intros Hp [Hc Hf Ht Hall Hpo Hao Hfit].
  split; cbn; [done..|by rewrite <-Hp| | |by rewrite <-Hp]; unfold charged; by rewrite <-Hp.
Qed.

Lemma entries_permuted fees1 fees2 ess1 :
  fees1 ≡ₚ fees2 → Forall2 (λ f es, feeEntries f = Ok es) fees1 ess1 →
  ∃ ess2, Forall2 (λ f es, feeEntries f = Ok es) fees2 ess2 ∧ concat ess1 ≡ₚ concat ess2.
Proof.
  intros Hp. revert ess1.
  induction Hp as [|f l1 l2 _ IH|f1 f2 l|l1 l2 l3 _ IH1 _ IH2]; intros ess H.
  - inversion H; subst. by exists [].
  - inversion H as [|? es ? ess' ? H']; subst. destruct (IH _ H') as (ess2 & ? & Hc).
    exists (es :: ess2). split; [by constructor|]. cbn. by rewrite Hc.
  - inversion H as [|? e1 ? ? ? H']; subst. inversion H' as [|? e2 ? ess' ? H'']; subst.
    exists (e2 :: e1 :: ess'). split; [by repeat constructor|]. cbn.
    by rewrite !app_assoc, (Permutation_app_comm e1 e2).
  - destruct (IH1 _ H) as (ess2 & H2 & Hc). destruct (IH2 _ H2) as (ess3 & H3 & Hc').
    exists ess3. split; [done|]. by rewrite Hc.
Qed.

Lemma isort_strings_perm l1 l2 : l1 ≡ₚ l2 → isort String.ltb l1 = isort String.ltb l2.
Proof. apply isort_perm_eq; [apply _|]. intros a b _ _. apply string_ltb_total. Qed.

Lemma PlanDigest_perm e1 e2 : map digestLine e1 ≡ₚ map digestLine e2 → PlanDigest e1 = PlanDigest e2.
Proof. intros H. unfold PlanDigest, digestText. by rewrite (isort_strings_perm _ _ H). Qed.

(** ** Properties *)

(** A plan is settled if and only if it is sound: its total is the
    money captured and is face value plus passed-on fees; every fee is in the
    plan's currency, not negative, of a known incidence, and either unsplit or
    split between payees it names; and the plan's two fee totals are those of
    the fees it lists. The one further condition is that the fees together fit
    an [int64]; the final balance check never fires. *)
Theorem settlement_accepts_exactly_sound_plans plan captured :
  plan_typed plan → int64 captured →
  (is_ok (BuildSettlementEntries plan captured) = true ↔ Settleable plan captured).
Proof.
  intros Ht Hc. split.
  - destruct (BuildSettlementEntries plan captured) as [es|] eqn:E; [|done]. intros _.
    by apply Build_Ok in E as [? _].
  - intros Hs. destruct (feeEntries_exist plan captured Ht Hs) as [ess Hess].
    assert (E : BuildSettlementEntries plan captured = Ok (concat ess ++ [organizerEntry plan])).
    { apply Build_Ok; [done..|]. split; [done|by exists ess]. }
    by rewrite E.
Qed.

(** C21 (functional). The ledger balances: the lines of an accepted plan sum to
    the money captured. There is one line group per fee, whose lines carry that
    fee's code, incidence and currency, name its payees (or nobody) and sum to
    the fee, absorbed fees included; and one organizer line, the face value
    less the fees absorbed. *)
Theorem settlement_balances plan captured entries :
  plan_typed plan → int64 captured → BuildSettlementEntries plan captured = Ok entries →
  amounts entries = captured ∧
  ∃ groups organizer, entries = concat groups ++ [organizer] ∧
    Forall2 LinesOf (sp_Fees plan) groups ∧
    se_Kind organizer = EntryFaceValue ∧ se_Payee organizer = None ∧
    se_Amount organizer = sp_FaceValue plan - charged "absorbed" (sp_Fees plan).
Proof.
  intros Ht Hc Hb. pose proof (settled_amounts _ _ _ Ht Hc Hb) as Hsum.
  apply Build_Ok in Hb as ([Hcur Hf [H1 H2] Hall Hpo Hao Hfit] & ess & Hess & ->); [|done..].
  destruct (all_lines _ _ _ (pt_fees _ Ht) Hall Hess) as (Hlines & _ & _).
  destruct (charged_total _ _ Hall) as (_ & _ & Hab).
  split; [done|]. exists ess, (organizerEntry plan). split_and!; [done..|]. rewrite organizer_amount by (done || lia). lia.
Qed.

(** The digest identifies the attribution. A retry that lists
    the same fees in another order is accepted with the same digest; and two
    non-empty sets of lines with one digest carry the same lines, up to order,
    or their digested texts are a collision of SHA-256, as long as no line
    contains a newline. *)
Theorem plan_digest_identifies_attribution plan captured entries fees :
  plan_typed plan → int64 captured → sp_Fees plan ≡ₚ fees →
  BuildSettlementEntries plan captured = Ok entries →
  (∃ entries', BuildSettlementEntries (with_fees plan fees) captured = Ok entries' ∧
     PlanDigest entries' = PlanDigest entries) ∧
  ∀ other, other ≠ [] →
    Forall (λ e, one_line (digestLine e) = true) (entries ++ other) →
    PlanDigest other = PlanDigest entries →
    map digestLine other ≡ₚ map digestLine entries ∨ Collision (digestText other) (digestText entries).
Proof.
  intros Ht Hc Hp (Hs & ess & Hess & ->)%Build_Ok; [|done..]. split.
  - destruct (entries_permuted _ _ _ Hp Hess) as (ess' & Hess' & Hperm).
    exists (concat ess' ++ [organizerEntry plan]). split.
    + apply Build_Ok; [|done|].
      * destruct Ht as [? ? ? ? Hf]. split; try done. cbn. by rewrite <-Hp.
      * split; [by apply settleable_permuted|]. by exists ess'.
    + apply PlanDigest_perm. by rewrite Hperm.
  - intros other Hne [Hone1 Hone2]%Forall_app Hd. unfold PlanDigest in Hd. apply (inj Hex) in Hd.
    set (entries := concat ess ++ [organizerEntry plan]) in *.
    destruct (decide (digestText other = digestText entries)) as [E|]; [unfold digestText in E|by right].
    left. rewrite <-(isort_perm String.ltb (map digestLine other)),
      <-(isort_perm String.ltb (map digestLine entries)).
    assert (Hnil : ∀ l, l ≠ [] → isort String.ltb (map digestLine l) ≠ []).
    { intros l Hl E0. pose proof (isort_perm String.ltb (map digestLine l)) as Hpl. rewrite E0 in Hpl.
      apply Permutation_nil in Hpl. by destruct l. }
    assert (Hlines : ∀ l, Forall (λ e, one_line (digestLine e) = true) l →
      Forall (λ x, one_line x = true) (isort String.ltb (map digestLine l))).
    { intros l Hl. rewrite isort_perm. by apply Forall_map. }
    apply join_inj in E; [by rewrite E|by apply Hnil| |by apply Hlines..].
    apply Hnil. unfold entries. by destruct (concat ess).
Qed.
End Settlement.

(** ** A concrete capture: 50.00 face, a 3.01 fee passed on and split three
    ways, a 2.00 fee absorbed and unsplit *)
#[local] Existing Instance text_uuid.

Definition example_payee (id : string) : PayeeRef := {|
  ref_ID := id; ref_Kind := "venue"; ref_DisplayName := id; ref_ExternalReference := None |}.

Definition example_service_fee : FeeLine := {|
  fl_FeeCode := "service"; fl_Incidence := "passed_on"; fl_Amount := 301; fl_Currency := "EUR";
  fl_Shares := example_shares;
  fl_Payees := <["a"%string := example_payee "a"]> (<["b"%string := example_payee "b"]>
                 (<["c"%string := example_payee "c"]> ∅)) |}.

Definition example_levy : FeeLine := {|
  fl_FeeCode := "levy"; fl_Incidence := "absorbed"; fl_Amount := 200; fl_Currency := "EUR";
  fl_Shares := []; fl_Payees := ∅ |}.

Definition example_plan : SettlementPlan := {|
  sp_FaceValue := 5000; sp_PassedOn := 301; sp_Absorbed := 200; sp_TotalAmount := 5301;
  sp_Currency := "EUR"; sp_Fees := [example_service_fee; example_levy] |}.

Lemma example_plan_typed : plan_typed example_plan.
Proof.
  split; [vm_compute; split; discriminate..|].
  apply List.Forall_cons; [|apply List.Forall_cons; [|apply List.Forall_nil]];
    (split; [vm_compute; split; discriminate|vm_compute; discriminate]).
Defined.

Lemma example_captured : int64 5301.
Proof. vm_compute; split; discriminate. Defined.

Lemma settlement_accepts_exactly_sound_plans_witness : Settleable example_plan 5301.
Proof.
  apply (settlement_accepts_exactly_sound_plans example_plan 5301 example_plan_typed example_captured).
  vm_compute. reflexivity.
Defined.

Lemma settlement_balances_witness :
  ∃ entries, BuildSettlementEntries example_plan 5301 = Ok entries ∧
    map se_Amount entries = [101; 100; 100; 200; 4800] ∧ amounts entries = 5301.
Proof.
  destruct (BuildSettlementEntries example_plan 5301) as [es|] eqn:E; [|vm_compute in E; discriminate E].
  exists es. split; [reflexivity|].
  pose proof (settlement_balances _ _ _ example_plan_typed example_captured E) as [H _].
  split; [|exact H]. vm_compute in E. injection E as <-. vm_compute. reflexivity.
Defined.

Lemma plan_digest_identifies_attribution_witness :
  ∃ e1 e2, BuildSettlementEntries example_plan 5301 = Ok e1 ∧
    BuildSettlementEntries (with_fees example_plan [example_levy; example_service_fee]) 5301 = Ok e2 ∧
    PlanDigest e2 = PlanDigest e1.
Proof.
  destruct (BuildSettlementEntries example_plan 5301) as [es|] eqn:E; [|vm_compute in E; discriminate E].
  destruct (plan_digest_identifies_attribution _ _ _ [example_levy; example_service_fee]
    example_plan_typed example_captured (perm_swap _ _ _) E) as [(e2 & H2 & Hd) _].
  exists es, e2. split; [reflexivity|]. split; [exact H2|exact Hd].
Defined.
