(* ===== verification/Format.v ===== *)
(** * Text the standard library renders

    [time.Time.Format(time.RFC3339Nano)] in UTC, [json.Marshal] of a
    [map[string]string], and [strings.TrimSpace], as far as the services use
    them: strings hold valid UTF-8, which is what JSON decoding and PostgreSQL
    text deliver. The renderings the journal signs are shown injective. *)

From Stdlib Require Import Ascii.
From stdpp Require Import pretty.
From S2P Require Import Prelude Text Sha256.
#[local] Open Scope Z_scope.

(** ** Fixed-width decimal fields *)

Definition digit (n : Z) : Ascii.ascii := Ascii.ascii_of_N (Z.to_N (48 + n `mod` 10)).

Fixpoint digits (w : nat) (n : Z) : list Ascii.ascii :=
  match w with
  | O => []
  | S w' => digits w' (n / 10) ++ [digit n]
  end.

Lemma digits_length w n : length (digits w n) = w.
Proof. revert n. induction w as [|w IH]; intros n; cbn; [done|]. rewrite length_app, IH. cbn. lia. Qed.

Lemma digit_inj a b : digit a = digit b → a `mod` 10 = b `mod` 10.
Proof.
  unfold digit. intros E.
  pose proof (Z.mod_pos_bound a 10 ltac:(lia)). pose proof (Z.mod_pos_bound b 10 ltac:(lia)).
  apply (f_equal Ascii.N_of_ascii) in E. rewrite !Ascii.N_ascii_embedding in E by lia. lia.
Qed.

Lemma digits_inj w a b : 0 ≤ a < 10 ^ Z.of_nat w → 0 ≤ b < 10 ^ Z.of_nat w → digits w a = digits w b → a = b.
Proof.
  revert a b. induction w as [|w IH]; intros a b Ha Hb E; [cbn in *; lia|].
  rewrite Nat2Z.inj_succ, Z.pow_succ_r in Ha, Hb by lia.
  cbn in E. apply app_inj_tail in E as [E1 E2]. apply digit_inj in E2.
  apply IH in E1; [|split; [apply Z.div_pos; lia|apply Z.div_lt_upper_bound; lia]..].
  rewrite (Z.div_mod a 10), (Z.div_mod b 10), E1, E2 by lia. done.
Qed.

(** ** Civil dates *)

Definition leap (y : Z) : bool := (y `mod` 4 =? 0) && (negb (y `mod` 100 =? 0) || (y `mod` 400 =? 0)).

(** Days from 1 January of year 1 to 1 January of year [y]. *)
Definition days_before_year (y : Z) : Z := let p := y - 1 in 365 * p + p / 4 - p / 100 + p / 400.

Definition year_of (d : Z) : Z :=
  let y := d * 400 / 146097 + 1 in
  if d <? days_before_year y then y - 1 else if days_before_year (y + 1) <=? d then y + 1 else y.

Definition month_starts (l : bool) : list Z :=
  let s := if l then 1 else 0 in
  [0; 31; 59 + s; 90 + s; 120 + s; 151 + s; 181 + s; 212 + s; 243 + s; 273 + s; 304 + s; 334 + s].

Definition month_of (l : bool) (yday : Z) : nat := length (List.filter (λ s, s <=? yday) (month_starts l)).
Definition day_of (l : bool) (yday : Z) : Z := yday - nth (pred (month_of l yday)) (month_starts l) 0 + 1.

Lemma year_of_bounds d : 0 ≤ d - days_before_year (year_of d) < 366.
Proof.
  unfold year_of. set (y := d * 400 / 146097 + 1).
  assert (Hy : 146097 * (y - 1) ≤ d * 400 < 146097 * y).
  { subst y. pose proof (Z.div_mod (d * 400) 146097 ltac:(lia)).
    pose proof (Z.mod_pos_bound (d * 400) 146097 ltac:(lia)). lia. }
  clearbody y. unfold days_before_year.
  assert (Hq : ∀ x k, 0 < k → k * (x / k) ≤ x < k * (x / k) + k).
  { intros x k Hk. pose proof (Z.div_mod x k ltac:(lia)). pose proof (Z.mod_pos_bound x k Hk). lia. }
  cbn zeta.
  pose proof (Hq (y - 1) 4 ltac:(lia)). pose proof (Hq (y - 1) 100 ltac:(lia)). pose proof (Hq (y - 1) 400 ltac:(lia)).
  pose proof (Hq (y + 1 - 1) 4 ltac:(lia)). pose proof (Hq (y + 1 - 1) 100 ltac:(lia)).
  pose proof (Hq (y + 1 - 1) 400 ltac:(lia)).
  pose proof (Hq (y - 1 - 1) 4 ltac:(lia)). pose proof (Hq (y - 1 - 1) 100 ltac:(lia)).
  pose proof (Hq (y - 1 - 1) 400 ltac:(lia)).
  destruct (Z.ltb_spec d (365 * (y - 1) + (y - 1) / 4 - (y - 1) / 100 + (y - 1) / 400)); [lia|].
  destruct (Z.leb_spec (365 * (y + 1 - 1) + (y + 1 - 1) / 4 - (y + 1 - 1) / 100 + (y + 1 - 1) / 400) d); lia.
Qed.

Lemma day_of_bounds l yday : 0 ≤ yday < 366 → 0 ≤ day_of l yday < 100 ∧ (month_of l yday < 100)%nat.
Proof.
  intros H.
  assert (Hall : forallb (λ n, let z := Z.of_nat n in
    (0 <=? day_of l z) && (day_of l z <? 100) && (month_of l z <? 100)%nat) (seq 0 366) = true)
    by (destruct l; vm_compute; reflexivity).
  rewrite forallb_forall in Hall. specialize (Hall (Z.to_nat yday)).
  rewrite Z2Nat.id in Hall by lia. cbn zeta in Hall.
  assert (Hin : In (Z.to_nat yday) (seq 0 366)) by (apply in_seq; lia).
  specialize (Hall Hin). zbool. apply Nat.ltb_lt in H1. lia.
Qed.

(** ** RFC 3339 with nanoseconds *)

Definition nanos_per_day : Z := 86400000000000.
Definition days_to_1970 : Z := 719162.

(** Days since 1 January of year 1. *)
Definition day_number (t : time) : Z := t / nanos_per_day + days_to_1970.
Definition nano_of_day (t : time) : Z := t `mod` nanos_per_day.

Definition is_zero_digit (c : Ascii.ascii) : bool := bool_decide (c = digit 0).

Fixpoint strip_zeros (l : list Ascii.ascii) : list Ascii.ascii :=
  match l with
  | [] => []
  | c :: l' => match strip_zeros l' with
               | [] => if is_zero_digit c then [] else [c]
               | r => c :: r
               end
  end.

Definition dot : Ascii.ascii := "."%char.

Definition fraction_text (nanos : Z) : list Ascii.ascii :=
  match strip_zeros (digits 9 nanos) with [] => [] | r => dot :: r end.

Definition year_text (y : Z) : list Ascii.ascii :=
  if (0 <=? y) && (y <=? 9999) then digits 4 y
  else if y <? 0 then "-"%char :: (if -9999 <=? y then digits 4 (- y) else list_ascii_of_string (pretty (- y)))
  else list_ascii_of_string (pretty y).

Definition clock_text (n : Z) : list Ascii.ascii :=
  let s := n / 1000000000 in
  digits 2 (s / 3600) ++ ":"%char :: digits 2 ((s / 60) `mod` 60) ++ ":"%char :: digits 2 (s `mod` 60)
  ++ fraction_text (n `mod` 1000000000).

Definition RFC3339Nano (t : time) : string :=
  let d := day_number t in
  let y := year_of d in
  let yday := d - days_before_year y in
  string_of_list_ascii
    (year_text y ++ "-"%char :: digits 2 (Z.of_nat (month_of (leap y) yday)) ++ "-"%char
     :: digits 2 (day_of (leap y) yday) ++ "T"%char :: clock_text (nano_of_day t) ++ ["Z"%char]).

Example rfc3339_epoch : RFC3339Nano 0 = "1970-01-01T00:00:00Z"%string.
Proof. vm_compute. reflexivity. Qed.
Example rfc3339_leap_day : RFC3339Nano 1709210096120450000 = "2024-02-29T12:34:56.12045Z"%string.
Proof. vm_compute. reflexivity. Qed.
Example rfc3339_year_end : RFC3339Nano 946684799999999999 = "1999-12-31T23:59:59.999999999Z"%string.
Proof. vm_compute. reflexivity. Qed.
Example rfc3339_zero : RFC3339Nano zero_time = "0001-01-01T00:00:00Z"%string.
Proof. vm_compute. reflexivity. Qed.

(** Instants whose year has four digits, the range JSON and RFC 3339 allow. *)
Definition four_digit_year (t : time) : bool :=
  let y := year_of (day_number t) in (0 <=? y) && (y <=? 9999).

Lemma strip_zeros_inj l1 l2 : length l1 = length l2 → strip_zeros l1 = strip_zeros l2 → l1 = l2.
Proof.
  revert l2. induction l1 as [|a l1 IH]; intros [|b l2] Hl E; try done.
  injection Hl as Hl. specialize (IH l2 Hl). cbn in E. unfold is_zero_digit in E.
  destruct (strip_zeros l1) as [|x r1], (strip_zeros l2) as [|y r2];
    repeat case_bool_decide; simplify_eq; try (by rewrite IH); try done.
Qed.

Lemma fraction_text_inj a b : 0 ≤ a < 1000000000 → 0 ≤ b < 1000000000 → fraction_text a = fraction_text b → a = b.
Proof.
  intros Ha Hb E. apply (digits_inj 9); [done|done|]. apply strip_zeros_inj; [by rewrite !digits_length|].
  unfold fraction_text in E. destruct (strip_zeros (digits 9 a)), (strip_zeros (digits 9 b)); naive_solver.
Qed.

Lemma digits_app_inj w a b (x y : list Ascii.ascii) :
  digits w a ++ x = digits w b ++ y → digits w a = digits w b ∧ x = y.
Proof. apply app_inj_1. by rewrite !digits_length. Qed.

Lemma clock_text_inj a b :
  0 ≤ a < nanos_per_day → 0 ≤ b < nanos_per_day →
  clock_text a ++ ["Z"%char] = clock_text b ++ ["Z"%char] → a = b.
Proof.
  unfold nanos_per_day. intros Ha Hb E. apply app_inj_tail in E as [E _].
  unfold clock_text in E.
  pose proof (Z.div_mod a 1000000000 ltac:(lia)) as Da. pose proof (Z.div_mod b 1000000000 ltac:(lia)) as Db.
  pose proof (Z.mod_pos_bound a 1000000000 ltac:(lia)) as Ma. pose proof (Z.mod_pos_bound b 1000000000 ltac:(lia)) as Mb.
  apply digits_app_inj in E as [Eh E]. apply (f_equal (drop 1)) in E; cbn [drop] in E. apply digits_app_inj in E as [Em E].
  apply (f_equal (drop 1)) in E; cbn [drop] in E. apply digits_app_inj in E as [Es Ef].
  apply fraction_text_inj in Ef; [|done..].
  set (sa := a / 1000000000) in *. set (sb := b / 1000000000) in *.
  assert (0 ≤ sa < 86400) by lia. assert (0 ≤ sb < 86400) by lia. clearbody sa sb.
  assert (Hs : sa = sb); [|lia]. clear Da Db Ma Mb Ef Ha Hb.
  pose proof (Z.div_mod sa 60 ltac:(lia)). pose proof (Z.div_mod sb 60 ltac:(lia)).
  pose proof (Z.mod_pos_bound sa 60 ltac:(lia)). pose proof (Z.mod_pos_bound sb 60 ltac:(lia)).
  pose proof (Z.div_mod (sa / 60) 60 ltac:(lia)). pose proof (Z.div_mod (sb / 60) 60 ltac:(lia)).
  pose proof (Z.mod_pos_bound (sa / 60) 60 ltac:(lia)). pose proof (Z.mod_pos_bound (sb / 60) 60 ltac:(lia)).
  pose proof (Z.div_div sa 60 60 ltac:(lia) ltac:(lia)) as D1. pose proof (Z.div_div sb 60 60 ltac:(lia) ltac:(lia)) as D2.
  change (60 * 60) with 3600 in D1, D2. rewrite <-D1, <-D2 in Eh.
  apply digits_inj in Eh; [|lia..]. apply digits_inj in Em; [|lia..]. apply digits_inj in Es; [|lia..]. lia.
Qed.

Lemma date_inj d1 d2 :
  let y1 := year_of d1 in let y2 := year_of d2 in
  let n1 := d1 - days_before_year y1 in let n2 := d2 - days_before_year y2 in
  y1 = y2 → month_of (leap y1) n1 = month_of (leap y2) n2 → day_of (leap y1) n1 = day_of (leap y2) n2 → d1 = d2.
Proof. cbn zeta. unfold day_of. intros Hy Hm Hd. rewrite Hm, Hy in Hd. lia. Qed.

Lemma RFC3339Nano_inj t1 t2 :
  four_digit_year t1 = true → four_digit_year t2 = true → RFC3339Nano t1 = RFC3339Nano t2 → t1 = t2.
Proof.
  unfold four_digit_year, RFC3339Nano. intros H1 H2 E.
  apply (f_equal list_ascii_of_string) in E. rewrite !list_ascii_of_string_of_list_ascii in E.
  pose proof (year_of_bounds (day_number t1)) as B1. pose proof (year_of_bounds (day_number t2)) as B2.
  unfold year_text in E. rewrite H1, H2 in E. zbool.
  apply day_of_bounds with (l := leap (year_of (day_number t1))) in B1 as [? ?].
  apply day_of_bounds with (l := leap (year_of (day_number t2))) in B2 as [? ?].
  apply digits_app_inj in E as [Ey E]. apply (f_equal (drop 1)) in E; cbn [drop] in E.
  apply digits_app_inj in E as [Em E]. apply (f_equal (drop 1)) in E; cbn [drop] in E.
  apply digits_app_inj in E as [Ed E]. apply (f_equal (drop 1)) in E; cbn [drop] in E.
  apply clock_text_inj in E; [|apply Z.mod_pos_bound; unfold nanos_per_day; lia..].
  apply digits_inj in Ey; [|lia..]. apply digits_inj in Em; [|lia..]. apply digits_inj in Ed; [|lia..].
  apply Nat2Z.inj in Em. pose proof (date_inj _ _ Ey Em Ed) as Hdate.
  unfold day_number, nano_of_day in *.
  rewrite (Z.div_mod t1 nanos_per_day), (Z.div_mod t2 nanos_per_day) by (unfold nanos_per_day; lia). lia.
Qed.

Lemma one_line_digits w n l :
  one_line (string_of_list_ascii l) = true → one_line (string_of_list_ascii (digits w n ++ l)) = true.
Proof.
  revert n l. induction w as [|w IH]; intros n l Hl; [done|]. cbn. rewrite <-app_assoc. apply IH. cbn.
  rewrite Hl, andb_true_r, bool_decide_false; [done|]. unfold digit, newline_char. intros E.
  apply (f_equal Ascii.N_of_ascii) in E. pose proof (Z.mod_pos_bound n 10 ltac:(lia)).
  rewrite Ascii.N_ascii_embedding in E by lia.
  change (Ascii.N_of_ascii (Ascii.ascii_of_nat 10)) with 10%N in E. lia.
Qed.

Lemma one_line_strip l : one_line (string_of_list_ascii l) = true → one_line (string_of_list_ascii (strip_zeros l)) = true.
Proof.
  induction l as [|c l IH]; [done|]. cbn. intros [Hc Hl]%andb_prop. specialize (IH Hl).
  destruct (strip_zeros l); [destruct (is_zero_digit c)|]; cbn in *; rewrite ?Hc; auto.
Qed.

Lemma one_line_list_app l1 l2 :
  one_line (string_of_list_ascii (l1 ++ l2)) = one_line (string_of_list_ascii l1) && one_line (string_of_list_ascii l2).
Proof. induction l1 as [|c l1 IH]; cbn; [done|]. by rewrite IH, andb_assoc. Qed.

Lemma RFC3339Nano_one_line t : four_digit_year t = true → one_line (RFC3339Nano t) = true.
Proof.
  unfold four_digit_year, RFC3339Nano, year_text, clock_text, fraction_text. intros ->.
  assert (Hd : ∀ w n, one_line (string_of_list_ascii (digits w n)) = true).
  { intros w n. rewrite <-(app_nil_r (digits w n)). by apply one_line_digits. }
  pose proof (one_line_strip _ (Hd 9%nat (nano_of_day t `mod` 1000000000))) as Hf.
  destruct (strip_zeros _);
    repeat (rewrite ?one_line_list_app, ?Hd; cbn [app string_of_list_ascii one_line andb negb bool_decide]);
    [reflexivity|]. cbn [string_of_list_ascii one_line] in Hf. rewrite Hf. reflexivity.
Qed.

Lemma pretty_N_char_one_line x s : one_line (String (pretty_N_char x) s) = one_line s.
Proof. unfold pretty_N_char. cbn [one_line]. repeat case_match; reflexivity. Qed.

Lemma pretty_N_go_one_line x s : one_line s = true → one_line (pretty_N_go x s) = true.
Proof.
  revert s. induction (N.lt_wf_0 x) as [x _ IH]; intros s Hs.
  destruct (decide (0 < x)%N) as [Hx|Hx].
  - rewrite pretty_N_go_step by done. apply IH; [by apply N.div_lt|]. by rewrite pretty_N_char_one_line.
  - assert (x = 0%N) as -> by lia. by rewrite pretty_N_go_0.
Qed.

Lemma one_line_pretty (z : Z) : one_line (pretty z) = true.
Proof.
  assert (Hn : ∀ n : N, one_line (pretty n) = true).
  { intros n. unfold pretty, pretty_N. case_decide; [done|]. by apply pretty_N_go_one_line. }
  destruct z as [|p|p]; [reflexivity|exact (Hn (N.pos p))|].
  change (one_line (String "-" (pretty (N.pos p))) = true). cbn [one_line]. by rewrite Hn.
Qed.

(** ** JSON strings and objects *)

Definition quote : string := String (Ascii.ascii_of_nat 34) "".

(** [appendString] with HTML escaping, one byte at a time. *)
Definition escape_byte (c : ascii) : string :=
  let n := Z_of_byte c in
  if n =? 34 then "\" +:+ quote
  else if n =? 92 then "\\"
  else if n =? 8 then "\b" else if n =? 12 then "\f" else if n =? 10 then "\n"
  else if n =? 13 then "\r" else if n =? 9 then "\t"
  else if (n <? 32) || (n =? 60) || (n =? 62) || (n =? 38)
  then "\u00" +:+ String (hex_digit (n / 16)) (String (hex_digit (n `mod` 16)) "")
  else String c "".

(** U+2028 and U+2029, the bytes E2 80 A8 and E2 80 A9, are escaped too. *)
Definition line_separator (a b c : ascii) : bool :=
  (Z_of_byte a =? 226) && (Z_of_byte b =? 128) && ((Z_of_byte c =? 168) || (Z_of_byte c =? 169)).

Fixpoint json_escape (s : string) : string :=
  match s with
  | EmptyString => ""
  | String a s' =>
      match s' with
      | String b (String c r) =>
          if line_separator a b c
          then "\u202" +:+ String (hex_digit (Z_of_byte c - 160)) (json_escape r)
          else escape_byte a +:+ json_escape s'
      | _ => escape_byte a +:+ json_escape s'
      end
  end.

Definition json_string (s : string) : string := quote +:+ json_escape s +:+ quote.

(** [json.Marshal] of a [map[string]string]: keys sorted, nil is null. *)
Definition json_marshal (m : option (gmap string string)) : string :=
  match m with
  | None => "null"
  | Some m =>
      "{" +:+ join "," (map (λ kv, json_string kv.1 +:+ ":" +:+ json_string kv.2)
                          (isort (on_key fst String.ltb) (map_to_list m))) +:+ "}"
  end.

Definition unescape_letter (c : ascii) : ascii :=
  match c with
  | "b" => byte_of_Z 8 | "f" => byte_of_Z 12 | "n" => byte_of_Z 10 | "r" => byte_of_Z 13 | "t" => byte_of_Z 9
  | _ => c
  end%char.

Fixpoint json_unescape (s : string) : string :=
  match s with
  | String "\" (String "u" (String a (String _ (String c (String d r))))) =>
      if Ascii.eqb a "2"
      then String (byte_of_Z 226) (String (byte_of_Z 128) (String (byte_of_Z (160 + unhex_digit d)) (json_unescape r)))
      else String (byte_of_Z (unhex_digit c * 16 + unhex_digit d)) (json_unescape r)
  | String "\" (String e r) => String (unescape_letter e) (json_unescape r)
  | String c r => String c (json_unescape r)
  | EmptyString => ""
  end.

Lemma unescape_byte c r : json_unescape (escape_byte c +:+ r) = String c (json_unescape r).
Proof. destruct c as [[] [] [] [] [] [] [] []]; reflexivity. Qed.

Lemma line_separator_bytes a b c :
  line_separator a b c = true →
  a = byte_of_Z 226 ∧ b = byte_of_Z 128 ∧ (c = byte_of_Z 168 ∨ c = byte_of_Z 169).
Proof.
  unfold line_separator. intros H. zbool.
  assert (Hin : ∀ x z, Z_of_byte x = z → x = byte_of_Z z).
  { intros x z <-. destruct x as [[] [] [] [] [] [] [] []]; reflexivity. }
  destruct H0; zbool; auto.
Qed.

Lemma unescape_separator a b c r :
  line_separator a b c = true →
  json_unescape ("\u202" +:+ String (hex_digit (Z_of_byte c - 160)) r) = String a (String b (String c (json_unescape r))).
Proof. intros (-> & -> & [-> | ->])%line_separator_bytes; reflexivity. Qed.

Lemma json_unescape_escape s : json_unescape (json_escape s) = s.
Proof.
  remember (String.length s) as n eqn:Hn. assert (Hle : (String.length s ≤ n)%nat) by lia. clear Hn.
  revert s Hle. induction n as [|n IH]; intros [|a s] Hle; cbn in Hle; try done; [lia|].
  assert (Hplain : json_unescape (escape_byte a +:+ json_escape s) = String a s).
  { rewrite unescape_byte, IH by lia. done. }
  destruct s as [|b [|c r]]; [exact Hplain..|].
  change (json_unescape (if line_separator a b c
          then "\u202" +:+ String (hex_digit (Z_of_byte c - 160)) (json_escape r)
          else escape_byte a +:+ json_escape (String b (String c r))) = String a (String b (String c r))).
  destruct (line_separator a b c) eqn:Es; [|exact Hplain].
  rewrite (unescape_separator a b c) by done. rewrite IH; [done|cbn in *; lia].
Qed.

#[export] Instance json_escape_inj : Inj (=) (=) json_escape.
Proof. intros a b E. by rewrite <-(json_unescape_escape a), <-(json_unescape_escape b), E. Qed.

Lemma escape_byte_one_line c : one_line (escape_byte c) = true.
Proof. destruct c as [[] [] [] [] [] [] [] []]; reflexivity. Qed.

Lemma json_escape_one_line s : one_line (json_escape s) = true.
Proof.
  remember (String.length s) as n eqn:Hn. assert (Hle : (String.length s ≤ n)%nat) by lia. clear Hn.
  revert s Hle. induction n as [|n IH]; intros [|a s] Hle; cbn in Hle; try done; [lia|].
  assert (Hplain : one_line (escape_byte a +:+ json_escape s) = true).
  { rewrite one_line_app, escape_byte_one_line, IH by lia. done. }
  destruct s as [|b [|c r]]; [exact Hplain..|].
  change (one_line (if line_separator a b c
          then "\u202" +:+ String (hex_digit (Z_of_byte c - 160)) (json_escape r)
          else escape_byte a +:+ json_escape (String b (String c r))) = true).
  destruct (line_separator a b c) eqn:Es; [|exact Hplain].
  rewrite one_line_app. cbn [one_line]. rewrite IH by (cbn in *; lia).
  apply line_separator_bytes in Es as (_ & _ & [-> | ->]); reflexivity.
Qed.

Lemma string_app_assoc x y z : (x +:+ y) +:+ z = x +:+ (y +:+ z).
Proof. induction x as [|c x IH]; [done|]. exact (f_equal (String c) IH). Qed.

(** One-field objects are told apart by their value. *)
Lemma json_marshal_one k v :
  json_marshal (Some {[k := v]}) = "{" +:+ json_string k +:+ ":" +:+ json_string v +:+ "}".
Proof.
  cbn [json_marshal]. rewrite map_to_list_singleton. cbn [isort foldr insert_sorted map join fst snd].
  by rewrite !string_app_assoc.
Qed.

Lemma app_string_inj_l a x y : a +:+ x = a +:+ y → x = y.
Proof. induction a as [|c a IH]; [done|]. intros [= E]. by apply IH. Qed.

Lemma app_string_inj_r a x y : x +:+ a = y +:+ a → x = y.
Proof.
  intros E. apply (f_equal list_ascii_of_string) in E.
  assert (Happ : ∀ u, list_ascii_of_string (u +:+ a) = list_ascii_of_string u ++ list_ascii_of_string a).
  { induction u as [|c u IH]; [done|]. change (String c u +:+ a) with (String c (u +:+ a)). cbn. by rewrite IH. }
  rewrite !Happ in E. apply app_inv_tail in E.
  by rewrite <-(string_of_list_ascii_of_string x), <-(string_of_list_ascii_of_string y), E.
Qed.

Lemma json_marshal_one_inj k v w : json_marshal (Some {[k := v]}) = json_marshal (Some {[k := w]}) → v = w.
Proof.
  rewrite !json_marshal_one. intros E%app_string_inj_l%app_string_inj_l%app_string_inj_l%app_string_inj_r.
  unfold json_string in E. apply app_string_inj_l, app_string_inj_r in E. by apply (inj json_escape).
Qed.

Lemma json_marshal_one_one_line k v : one_line (json_marshal (Some {[k := v]})) = true.
Proof.
  rewrite json_marshal_one. unfold json_string. rewrite !one_line_app, !json_escape_one_line. reflexivity.
Qed.

(** ** Trimming *)

(** The UTF-8 text of every rune [unicode.IsSpace] accepts. *)
Definition rune (l : list Z) : string := bytes_of_list l.
Definition spaces : list string := map rune [
  [9]; [10]; [11]; [12]; [13]; [32]; [194; 133]; [194; 160]; [225; 154; 128];
  [226; 128; 128]; [226; 128; 129]; [226; 128; 130]; [226; 128; 131]; [226; 128; 132]; [226; 128; 133];
  [226; 128; 134]; [226; 128; 135]; [226; 128; 136]; [226; 128; 137]; [226; 128; 138];
  [226; 128; 168]; [226; 128; 169]; [226; 128; 175]; [226; 129; 159]; [227; 128; 128]].

(** Drops leading spaces; a list of bytes has at most as many spaces as bytes. *)
Fixpoint trim_with (sp : list string) (fuel : nat) (s : string) : string :=
  match fuel with
  | O => s
  | S fuel' =>
      match List.find (λ p, String.prefix p s) sp with
      | Some p => trim_with sp fuel' (String.substring (String.length p) (String.length s) s)
      | None => s
      end
  end.

Definition TrimLeft (s : string) : string := trim_with spaces (String.length s) s.
Definition TrimRight (s : string) : string :=
  String.rev (trim_with (map String.rev spaces) (String.length s) (String.rev s)).
Definition TrimSpace (s : string) : string := TrimRight (TrimLeft s).

Example trim_both : TrimSpace ("  a b" +:+ rune [194; 160; 10]) = "a b"%string.
Proof. vm_compute. reflexivity. Qed.
