(* ===== verification/Keyring.v ===== *)
(** * The journal's signing keys

    [services/payments/internal/store/keyring.go]: the ring an operator
    configures, how it is parsed, what it refuses, and signing and verifying
    with it. Base64 is the standard library's, written out. *)

From Stdlib Require Import Ascii.
From S2P Require Import Prelude Text Sha256 Format.
#[local] Open Scope Z_scope.

(** ** encoding/base64 *)

Definition base64_value (c : ascii) : option Z :=
  let n := Z_of_byte c in
  if (65 <=? n) && (n <=? 90) then Some (n - 65)
  else if (97 <=? n) && (n <=? 122) then Some (n - 71)
  else if (48 <=? n) && (n <=? 57) then Some (n + 4)
  else if n =? 43 then Some 62 else if n =? 47 then Some 63 else None.

(** The decoder skips line breaks. *)
Definition significant (s : string) : list ascii :=
  List.filter (λ c, negb ((Z_of_byte c =? 10) || (Z_of_byte c =? 13))) (list_ascii_of_string s).

Definition bytes2 (a b : Z) : list Z := [(a * 4 + b / 16) `mod` 256].
Definition bytes3 (a b c : Z) : list Z := bytes2 a b ++ [((b * 16) + c / 4) `mod` 256].
Definition bytes4 (a b c d : Z) : list Z := bytes3 a b c ++ [((c * 64) + d) `mod` 256].

Fixpoint raw_decode (l : list ascii) : option (list Z) :=
  match l with
  | [] => Some []
  | [_] => None
  | [a; b] => x ← base64_value a; y ← base64_value b; Some (bytes2 x y)
  | [a; b; c] => x ← base64_value a; y ← base64_value b; z ← base64_value c; Some (bytes3 x y z)
  | a :: b :: c :: d :: l' =>
      x ← base64_value a; y ← base64_value b; z ← base64_value c; w ← base64_value d;
      rest ← raw_decode l'; Some (bytes4 x y z w ++ rest)
  end.

Definition equals_sign : ascii := "="%char.

Fixpoint std_decode (l : list ascii) : option (list Z) :=
  match l with
  | [] => Some []
  | a :: b :: c :: d :: l' =>
      if bool_decide (d = equals_sign) then
        if bool_decide (l' = []) then
          if bool_decide (c = equals_sign)
          then x ← base64_value a; y ← base64_value b; Some (bytes2 x y)
          else x ← base64_value a; y ← base64_value b; z ← base64_value c; Some (bytes3 x y z)
        else None
      else
        x ← base64_value a; y ← base64_value b; z ← base64_value c; w ← base64_value d;
        rest ← std_decode l'; Some (bytes4 x y z w ++ rest)
  | _ => None
  end.

Definition RawStdEncoding_DecodeString (s : string) : option bytes := bytes_of_list <$> raw_decode (significant s).
Definition StdEncoding_DecodeString (s : string) : option bytes := bytes_of_list <$> std_decode (significant s).

Definition base64Decodings (s : string) : list bytes :=
  List.filter (λ b, negb (bool_decide (b = ""%string)))
    (omap id [RawStdEncoding_DecodeString s; StdEncoding_DecodeString s]).

Example base64_padded_and_not :
  base64Decodings "c2VjcmV0LXNlY3JldC0xMg==" = ["secret-secret-12"]%string
  ∧ base64Decodings "c2VjcmV0LXNlY3JldC0xMg" = ["secret-secret-12"]%string
  ∧ base64Decodings "YWJj" = ["abc"; "abc"]%string.
Proof. vm_compute. done. Qed.

(** ** strings.Split and strings.Cut on one byte *)

Fixpoint split_on (c : ascii) (s : string) : list string :=
  match s with
  | EmptyString => [EmptyString]
  | String a s' =>
      if Ascii.eqb a c then EmptyString :: split_on c s'
      else match split_on c s' with h :: t => String a h :: t | [] => [String a EmptyString] end
  end.

Fixpoint cut_on (c : ascii) (s : string) : option (string * string) :=
  match s with
  | EmptyString => None
  | String a s' => if Ascii.eqb a c then Some (EmptyString, s') else (λ p, (String a p.1, p.2)) <$> cut_on c s'
  end.

(** ** The ring *)

Record Keyring := { activeKID : string; keys : gmap string bytes }.

Inductive KeyringError :=
| ActiveRequired
| InvalidKID (kid : string)
| ActiveTooShort
| EmptyEntry
| MalformedEntry
| NotBase64 (kid : string)
| HistoricalTooShort (kid : string)
| DuplicateKID (kid : string)
| ActiveIsEncodingOf (kid : string)
| AliasOf (other kid : string).

Definition minSecretLen : nat := 16.

Definition alphanumeric (c : ascii) : bool :=
  let n := Z_of_byte c in
  ((65 <=? n) && (n <=? 90)) || ((97 <=? n) && (n <=? 122)) || ((48 <=? n) && (n <=? 57)).
Definition kid_char (c : ascii) : bool :=
  alphanumeric c || (Z_of_byte c =? 46) || (Z_of_byte c =? 95) || (Z_of_byte c =? 47) || (Z_of_byte c =? 45).

(** [kidPattern]: [^[A-Za-z0-9][A-Za-z0-9._/-]{0,127}$]. *)
Definition validKID (kid : string) : bool :=
  match list_ascii_of_string kid with
  | [] => false
  | c :: rest => alphanumeric c && forallb kid_char rest && (length rest <=? 127)%nat
  end.

(** One segment of [JOURNAL_HISTORICAL_KEYS], up to its length check. *)
Definition parseEntry (item : string) : result KeyringError (string * bytes) :=
  let item := TrimSpace item in
  if bool_decide (item = ""%string) then Err EmptyEntry
  else
    match cut_on equals_sign item with
    | None => Err MalformedEntry
    | Some (kid, encoded) =>
        if bool_decide (encoded = ""%string) then Err MalformedEntry
        else if negb (validKID kid) then Err (InvalidKID kid)
        else
          match RawStdEncoding_DecodeString encoded with
          | None => Err (NotBase64 kid)
          | Some secret =>
              if (String.length secret <? minSecretLen)%nat then Err (HistoricalTooShort kid)
              else Ok (kid, secret)
          end
    end.

(** The loop body after parsing: [ring.keys] and [material] grow together. *)
Definition addHistorical (activeDecodings : list bytes) (e : string * bytes)
    (s : gmap string bytes * gmap bytes string) : result KeyringError (gmap string bytes * gmap bytes string) :=
  let '(ring, material) := s in
  let '(kid, secret) := e in
  match ring !! kid with
  | Some _ => Err (DuplicateKID kid)
  | None =>
      if bool_decide (secret ∈ activeDecodings) then Err (ActiveIsEncodingOf kid)
      else
        match material !! effectiveHMACKey secret with
        | Some other => Err (AliasOf other kid)
        | None => Ok (<[kid := secret]> ring, <[effectiveHMACKey secret := kid]> material)
        end
  end.

Fixpoint addAll (activeDecodings : list bytes) (items : list string) (s : gmap string bytes * gmap bytes string)
    : result KeyringError (gmap string bytes * gmap bytes string) :=
  match items with
  | [] => Ok s
  | item :: items' =>
      e ← parseEntry item;
      s' ← addHistorical activeDecodings e s;
      addAll activeDecodings items' s'
  end.

Definition historicalItems (historical : string) : list string :=
  if bool_decide (historical = ""%string) then [] else split_on ","%char historical.

Definition NewKeyring (kid : string) (activeKey : bytes) (historical : string) : result KeyringError Keyring :=
  if bool_decide (kid = ""%string) || bool_decide (activeKey = ""%string) then Err ActiveRequired
  else if negb (validKID kid) then Err (InvalidKID kid)
  else if (String.length activeKey <? minSecretLen)%nat then Err ActiveTooShort
  else
    s ← addAll (base64Decodings activeKey) (historicalItems historical)
          ({[kid := activeKey]}, {[effectiveHMACKey activeKey := kid]});
    Ok {| activeKID := kid; keys := s.1 |}.

Definition Has (k : Keyring) (kid : string) : bool := bool_decide (is_Some (keys k !! kid)).

Definition keyFor (k : Keyring) (kid : string) : option bytes := keys k !! kid.

Definition sign (key sum : bytes) : bytes := hmac key sum.

(** [k.keys[k.activeKID]] of a Go map: the zero value when absent. *)
Definition ring_sign (k : Keyring) (sum : bytes) : bytes := sign (default nil_bytes (keys k !! activeKID k)) sum.

Inductive KeyError := UnknownKeyID | InvalidSignature.

Definition ring_verify (k : Keyring) (kid : string) (sum signature : bytes) : result KeyError unit :=
  match keyFor k kid with
  | None => Err UnknownKeyID
  | Some key => if bool_decide (sign key sum = signature) then Ok tt else Err InvalidSignature
  end.

(** ** What a configuration must be *)

Record SoundRing (kid : string) (activeKey : bytes) (entries : list (string * bytes)) : Prop := {
  sr_active_kid : validKID kid = true;
  sr_active_len : (minSecretLen ≤ String.length activeKey)%nat;
  sr_kids : NoDup (kid :: map fst entries);
  sr_effective : NoDup (map effectiveHMACKey (activeKey :: map snd entries));
  sr_not_encoded : Forall (λ e, e.2 ∉ base64Decodings activeKey) entries;
}.

Definition ring_of (kid : string) (activeKey : bytes) (entries : list (string * bytes)) : Keyring :=
  {| activeKID := kid; keys := list_to_map ((kid, activeKey) :: entries) |}.

Definition material_of (acc : list (string * bytes)) : gmap bytes string :=
  list_to_map ((λ e, (effectiveHMACKey e.2, e.1)) <$> acc).

Definition distinct (acc : list (string * bytes)) : Prop :=
  NoDup (fst <$> acc) ∧ NoDup (effectiveHMACKey <$> (snd <$> acc)).

Lemma material_keys acc :
  ((λ e : string * bytes, (effectiveHMACKey e.2, e.1)) <$> acc).*1 = effectiveHMACKey <$> (snd <$> acc).
Proof. by rewrite <-!list_fmap_compose. Qed.

Lemma distinct_snoc acc e :
  distinct (acc ++ [e]) ↔
  distinct acc ∧ (e.1 ∉ (fst <$> acc)) ∧ effectiveHMACKey e.2 ∉ (effectiveHMACKey <$> (snd <$> acc)).
Proof.
  unfold distinct. rewrite !fmap_app, !list.NoDup_app. cbn.
  setoid_rewrite list_elem_of_singleton. pose proof (NoDup_singleton e.1).
  pose proof (NoDup_singleton (effectiveHMACKey e.2)). naive_solver.
Qed.

Lemma addHistorical_Ok dec e acc s :
  distinct acc →
  addHistorical dec e (list_to_map acc, material_of acc) = Ok s ↔
  distinct (acc ++ [e]) ∧ (e.2 ∉ dec) ∧ s = (list_to_map (acc ++ [e]), material_of (acc ++ [e])).
Proof.
  intros Hd. rewrite distinct_snoc. destruct e as [kid secret]. unfold addHistorical, material_of; cbn [fst snd].
  destruct (list_to_map acc !! kid) as [old|] eqn:Ek.
  { split; [done|]. intros ((_ & Hk & _) & _). apply not_elem_of_list_to_map in Hk. congruence. }
  apply not_elem_of_list_to_map in Ek.
  case_bool_decide as Hin; [split; [done|naive_solver]|].
  destruct (list_to_map _ !! effectiveHMACKey secret) as [other|] eqn:Em.
  { split; [done|]. intros ((_ & _ & Hm) & _). rewrite <-material_keys in Hm.
    apply not_elem_of_list_to_map in Hm. congruence. }
  apply not_elem_of_list_to_map in Em. rewrite fmap_app; cbn.
  rewrite !list_to_map_snoc by done. rewrite material_keys in Em. naive_solver.
Qed.

Lemma distinct_prefix acc es : distinct (acc ++ es) → distinct acc.
Proof. unfold distinct. rewrite !fmap_app, !list.NoDup_app. naive_solver. Qed.

Lemma addAll_Ok dec items acc s :
  distinct acc →
  addAll dec items (list_to_map acc, material_of acc) = Ok s ↔
  ∃ es, mapM parseEntry items = Ok es ∧ distinct (acc ++ es) ∧ Forall (λ e, (e.2 ∉ dec)) es ∧
    s = (list_to_map (acc ++ es), material_of (acc ++ es)).
Proof.
  revert acc. induction items as [|item items IH]; intros acc Hd; cbn [addAll mapM].
  { split.
    - intros [= <-]. exists []. rewrite app_nil_r. auto.
    - intros (es & [= <-] & _ & _ & ->). by rewrite app_nil_r. }
  rewrite bind_Ok. setoid_rewrite bind_Ok. setoid_rewrite bind_Ok. split.
  - intros (e & Hp & s' & Ha & H). apply addHistorical_Ok in Ha as (Hd' & Hn & ->); [|done].
    apply IH in H as (es & Hm & Hd2 & Hf & ->); [|done]. exists (e :: es).
    rewrite <-app_assoc in *. split_and!; [eauto|done|by constructor|done].
  - intros (es' & (e & Hp & es & Hm & [= <-]) & Hd2 & Hf & ->). inversion Hf; subst.
    replace (acc ++ e :: es) with ((acc ++ [e]) ++ es) in * by by rewrite <-app_assoc.
    pose proof (distinct_prefix _ _ Hd2) as Hd1.
    exists e. split; [done|]. eexists. split; [by apply addHistorical_Ok|]. apply IH; [done|]. eauto.
Qed.

(** [NewKeyring] accepts exactly the sound configurations: the active id
    and secret are well-formed, every segment of the historical list parses, no
    two ids and no two keys HMAC would sign alike occur, and the active secret is
    not the base64 of a historical one; the ring is then exactly the configured
    ids with their secrets. *)
Theorem keyring_accepts_exactly_sound_rings kid activeKey historical ring :
  NewKeyring kid activeKey historical = Ok ring ↔
  ∃ entries, mapM parseEntry (historicalItems historical) = Ok entries ∧
    SoundRing kid activeKey entries ∧ ring = ring_of kid activeKey entries.
Proof.
  unfold NewKeyring, ring_of.
  assert (Hd : distinct [(kid, activeKey)]) by (split; apply NoDup_singleton).
  pose proof (λ s, addAll_Ok (base64Decodings activeKey) (historicalItems historical) [(kid, activeKey)] s Hd) as Hall.
  cbn [app] in Hall.
  change (list_to_map [(kid, activeKey)]) with ({[kid := activeKey]} : gmap string bytes) in Hall.
  change (material_of [(kid, activeKey)]) with ({[effectiveHMACKey activeKey := kid]} : gmap bytes string) in Hall.
  split.
  - intros H. ok_inv. zbool. apply Nat.ltb_ge in Heqb1.
    apply Hall in H0 as (es & Hm & [Hd1 Hd2] & Hf & ->). by exists es.
  - intros (es & Hm & [Hk Hl Hk1 Hk2 Hf] & ->).
    rewrite Hk. rewrite (bool_decide_false (kid = _)), (bool_decide_false (activeKey = _)); cbn [orb negb].
    + apply Nat.ltb_ge in Hl. rewrite Hl. apply bind_Ok.
      exists (list_to_map ((kid, activeKey) :: es), material_of ((kid, activeKey) :: es)). split; [|reflexivity].
      apply Hall. exists es. split_and!; [done|split; [exact Hk1|exact Hk2]|done|done].
    + intros ->. cbn in Hl. unfold minSecretLen in Hl. lia.
    + by intros ->.
Qed.

(** A ring built by [NewKeyring] finds its active key. *)
Lemma ring_of_active kid activeKey entries : keys (ring_of kid activeKey entries) !! kid = Some activeKey.
Proof. apply lookup_insert_eq. Qed.

Example keyring_rotation :
  NewKeyring "v2" "second-secret-key" "v1=Zmlyc3Qtc2VjcmV0LWtleQ" =
  Ok (ring_of "v2" "second-secret-key" [("v1", "first-secret-key")]%string).
Proof. vm_compute. reflexivity. Qed.

Example keyring_refuses_pasted_base64 :
  NewKeyring "v2" "Zmlyc3Qtc2VjcmV0LWtleQ==" "v1=Zmlyc3Qtc2VjcmV0LWtleQ" = Err (ActiveIsEncodingOf "v1").
Proof. vm_compute. reflexivity. Qed.
