(* ===== verification/Journal.v ===== *)
(** * The signed journal and its settlement ledger

    [services/payments/internal/store]: store.go (facts, the hash chain,
    [AppendWithSettlement], [Verify]) and the part of settlement.go that writes
    and reads ledger rows. The tables are a map of heads and two lists of rows
    in insertion order; an append is the transaction under the organizer's head
    lock, its constraint triggers checked at commit. *)

From stdpp Require Import pretty.
From S2P Require Import Prelude Text Allocation Sha256 Settlement Format Keyring.
#[local] Open Scope Z_scope.

Section Journal.
Context `{UU : UUID}.

(** ** Data *)

Record Fact := {
  f_ID : uuid;
  f_OrganizerID : uuid;
  f_Type : string;
  f_OccurredAt : time;
  f_BuyerID : uuid;
  f_Amount : Z;
  f_Currency : string;
  f_Payload : option (gmap string string);
}.

Record Entry := {
  e_Fact : Fact;
  e_Sequence : Z;
  e_PreviousHash : bytes;
  e_EntryHash : bytes;
  e_Signature : bytes;
  e_KeyID : string;
}.

Record LedgerRow := {
  lr_OrganizerID : uuid;
  lr_OrderID : uuid;
  lr_FactID : uuid;
  lr_Entry : SettlementEntry;
}.

Record JournalDB := {
  jd_heads : gmap uuid (Z * bytes);
  jd_entries : list Entry;
  jd_ledger : list LedgerRow;
}.

Inductive JournalError :=
| InvalidFact
| UnsupportedCurrency
| UnsupportedType
| PayloadKeyRefused
| OrderIDRequired
| AmountNotPositive
| FactIDReused
| SettlementRefused (e : SettlementError)
| StatementFailed.

(** ** Facts *)

Definition payload_get (f : Fact) (k : string) : string :=
  default ""%string (f_Payload f ≫= λ m, m !! k).

(** The canonical form: ten newline-separated fields. *)
Definition canonical_fields (f : Fact) (seq : Z) : list string := [
  "1"; uuid_String (f_OrganizerID f); pretty seq; uuid_String (f_ID f); f_Type f;
  RFC3339Nano (f_OccurredAt f); uuid_String (f_BuyerID f); pretty (f_Amount f); f_Currency f;
  json_marshal (f_Payload f)]%string.

Definition canonical (f : Fact) (seq : Z) : bytes := join newline (canonical_fields f seq).

Definition hash (prev canonical : bytes) : bytes := Sum256 (prev +:+ canonical).

Definition SupportedCurrencies (c : string) : bool := bool_decide (c = "EUR"%string).

Definition moneyMovingTypes : list string :=
  ["payment.authorized"; "payment.captured"; "payment.voided"; "payment.refunded"; "order.refunded"]%string.

Definition allowedTypes : list string := [
  "order.created"; "order.completed"; "order.failed"; "order.refunded"; "order.exchange.reversed";
  "order.exchange.sold"; "payment.authorized"; "payment.captured"; "payment.declined"; "payment.timeout";
  "payment.voided"; "payment.refunded"]%string.

(** [strings.ToLower] on ASCII letters and [strings.Contains]: the keys they
    are applied to are refused whatever the answer unless they are [order_id]. *)
Definition lower (s : string) : string :=
  string_of_list_ascii (map (λ c, let n := Z_of_byte c in
    if (65 <=? n) && (n <=? 90) then byte_of_Z (n + 32) else c) (list_ascii_of_string s)).

Fixpoint contains (sub s : string) : bool :=
  String.prefix sub s || match s with EmptyString => false | String _ s' => contains sub s' end.

Definition forbidden_key (k : string) : bool :=
  let l := lower k in
  contains "email" l || contains "name" l || contains "pan" l || contains "cvv" l ||
  negb (bool_decide (k = "order_id"%string)).

Definition payload_keys (f : Fact) : list string :=
  match f_Payload f with Some m => (map_to_list m).*1 | None => [] end.

Definition validate (f : Fact) : result JournalError unit :=
  if bool_decide (f_ID f = uuid_Nil) || bool_decide (f_OrganizerID f = uuid_Nil) ||
     bool_decide (f_BuyerID f = uuid_Nil) || (f_Amount f <? 0) then Err InvalidFact
  else if negb (SupportedCurrencies (f_Currency f)) then Err UnsupportedCurrency
  else if negb (bool_decide (f_Type f ∈ allowedTypes)) then Err UnsupportedType
  else if existsb forbidden_key (payload_keys f) then Err PayloadKeyRefused
  else if match uuid_Parse (payload_get f "order_id") with None => true | Some _ => false end
  then Err OrderIDRequired
  else if bool_decide (f_Type f ∈ moneyMovingTypes) && (f_Amount f <=? 0) then Err AmountNotPositive
  else Ok tt.

(** ** The ledger rows of a fact *)

Definition row_key (r : LedgerRow) : uuid * string * option uuid * string :=
  (lr_FactID r, kind_text (se_Kind (lr_Entry r)), ref_ID <$> se_Payee (lr_Entry r), se_FeeCode (lr_Entry r)).

(** [settlement_entries_shape], the column checks and the unique key of
    migration 0004; an empty fee code or incidence is stored as NULL. *)
Definition row_shape (e : SettlementEntry) : bool :=
  isISOCurrency (se_Currency e) &&
  match se_Kind e with
  | EntryFee =>
      negb (bool_decide (se_FeeCode e = ""%string)) && (0 <=? se_Amount e) &&
      (bool_decide (se_Incidence e = "passed_on"%string) || bool_decide (se_Incidence e = "absorbed"%string))
  | EntryFaceValue =>
      match se_Payee e with None => true | Some _ => false end &&
      bool_decide (se_FeeCode e = ""%string) && bool_decide (se_Incidence e = ""%string)
  | EntryOther _ => false
  end.

Definition row_insertable (r : LedgerRow) (ledger : list LedgerRow) : bool :=
  row_shape (lr_Entry r) && negb (bool_decide (row_key r ∈ map row_key ledger)).

Fixpoint insertRows (f : Fact) (orderID : uuid) (entries : list SettlementEntry) (ledger : list LedgerRow)
    : result JournalError (list LedgerRow) :=
  match entries with
  | [] => Ok ledger
  | e :: entries' =>
      if match se_Kind e with EntryOther _ => true | _ => false end
      then Err (SettlementRefused (ErrSettlementPlanUnusable "entry kind is not writable at runtime"))
      else
        let r := {| lr_OrganizerID := f_OrganizerID f; lr_OrderID := orderID; lr_FactID := f_ID f;
                    lr_Entry := e |} in
        if row_insertable r ledger then insertRows f orderID entries' (ledger ++ [r]) else Err StatementFailed
  end.

Definition insertSettlement (f : Fact) (entries : list SettlementEntry) (ledger : list LedgerRow)
    : result JournalError (list LedgerRow) :=
  if bool_decide (length entries = 0%nat) then Ok ledger
  else
    match uuid_Parse (payload_get f "order_id") with
    | None => Err (SettlementRefused (ErrSettlementPlanUnusable "settlement needs an order_id on the fact"))
    | Some orderID => insertRows f orderID entries ledger
    end.

Definition rows_of (factID : uuid) (ledger : list LedgerRow) : list LedgerRow :=
  List.filter (λ r, bool_decide (lr_FactID r = factID)) ledger.

Definition ledger_total (rows : list LedgerRow) : Z := sumZ (map (λ r, se_Amount (lr_Entry r)) rows).

(** Migration 0004's deferred triggers, for the fact of one transaction:
    [settlement_must_balance] on each row and [capture_must_settle]. *)
Definition row_matches (f : Fact) (r : LedgerRow) : bool :=
  bool_decide (f_Type f = "payment.captured"%string) &&
  bool_decide (lr_OrganizerID r = f_OrganizerID f) &&
  bool_decide (se_Currency (lr_Entry r) = f_Currency f) &&
  bool_decide (uuid_String (lr_OrderID r) = payload_get f "order_id").

Definition commit_checks (f : Fact) (ledger : list LedgerRow) : bool :=
  let mine := rows_of (f_ID f) ledger in
  forallb (row_matches f) mine &&
  (bool_decide (length mine = 0%nat) || (ledger_total mine =? f_Amount f)) &&
  negb (bool_decide (f_Type f = "payment.captured"%string) && bool_decide (length mine = 0%nat)).

(** ** Appending *)

Definition zero_hash : bytes := bytes_of_list (repeat 0 32).

Definition loadExistingFact (f : Fact) (db : JournalDB) : result JournalError (option Entry) :=
  match List.find (λ e, bool_decide (f_ID (e_Fact e) = f_ID f)) (jd_entries db) with
  | None => Ok None
  | Some e =>
      if bool_decide (canonical f (e_Sequence e) = canonical (e_Fact e) (e_Sequence e)) then Ok (Some e)
      else Err FactIDReused
  end.

Definition normalize (now : time) (f : Fact) : Fact := {|
  f_ID := f_ID f; f_OrganizerID := f_OrganizerID f; f_Type := f_Type f;
  f_OccurredAt := let t := if is_zero_time (f_OccurredAt f) then now else f_OccurredAt f in t - t mod 1000;
  f_BuyerID := f_BuyerID f; f_Amount := f_Amount f; f_Currency := f_Currency f; f_Payload := f_Payload f |}.

(** The primary key, [UNIQUE (organizer_id, sequence)] and the column checks
    [validate] does not already imply. *)
Definition entry_insertable (e : Entry) (db : JournalDB) : bool :=
  (0 <? e_Sequence e) && (String.length (e_PreviousHash e) =? 32)%nat &&
  (String.length (e_EntryHash e) =? 32)%nat && (String.length (e_Signature e) =? 32)%nat &&
  forallb (λ x, negb (bool_decide (f_ID (e_Fact x) = f_ID (e_Fact e))) &&
                negb (bool_decide (f_OrganizerID (e_Fact x) = f_OrganizerID (e_Fact e) ∧
                                   e_Sequence x = e_Sequence e))) (jd_entries db).

Definition head_of (db : JournalDB) (org : uuid) : Z * bytes := default (0, zero_hash) (jd_heads db !! org).

Definition next_entry (ring : Keyring) (f : Fact) (head : Z * bytes) : Entry :=
  let seq := add64 head.1 1 in
  let sum := hash head.2 (canonical f seq) in
  {| e_Fact := f; e_Sequence := seq; e_PreviousHash := head.2; e_EntryHash := sum;
     e_Signature := ring_sign ring sum; e_KeyID := activeKID ring |}.

Definition AppendWithSettlement (now : time) (ring : Keyring) (f : Fact) (settlement : list SettlementEntry)
    (db : JournalDB) : result JournalError (JournalDB * Entry * bool) :=
  _ ← validate f;
  let f := normalize now f in
  found ← loadExistingFact f db;
  match found with
  | Some existing => Ok (db, existing, true)
  | None =>
      let e := next_entry ring f (head_of db (f_OrganizerID f)) in
      if negb (entry_insertable e db) then Err StatementFailed
      else
        ledger ← insertSettlement f settlement (jd_ledger db);
        if negb (commit_checks f ledger) then Err StatementFailed
        else
          Ok ({| jd_heads := <[f_OrganizerID f := (e_Sequence e, e_EntryHash e)]> (jd_heads db);
                 jd_entries := jd_entries db ++ [e]; jd_ledger := ledger |}, e, false)
  end.

Definition Append (now : time) (ring : Keyring) (f : Fact) (db : JournalDB) :=
  AppendWithSettlement now ring f [] db.

(** ** Verifying *)

Inductive VerifyError :=
| SequenceGap | PreviousHashMismatch | InvalidHash | BadSignature (e : KeyError) | HeadMismatch | MissingHead.

(** One entry against its organizer's [prev] and [seq]. *)
Definition verifyLink (ring : Keyring) (st : Z * bytes) (e : Entry) : result VerifyError (Z * bytes) :=
  if negb (e_Sequence e =? add64 st.1 1) then Err SequenceGap
  else if negb (bool_decide (st.2 = e_PreviousHash e)) then Err PreviousHashMismatch
  else
    let sum := hash st.2 (canonical (e_Fact e) (e_Sequence e)) in
    if negb (bool_decide (sum = e_EntryHash e)) then Err InvalidHash
    else
      match ring_verify ring (e_KeyID e) sum (e_Signature e) with
      | Err k => Err (BadSignature k)
      | Ok _ => Ok (e_Sequence e, sum)
      end.

Definition e_org (e : Entry) : uuid := f_OrganizerID (e_Fact e).

(** [prevByOrg] and [seqByOrg], which are written together. *)
Definition verifyEntries (ring : Keyring) (l : list Entry) : result VerifyError (gmap uuid (Z * bytes)) :=
  fold_result (keyed_step e_org (0, zero_hash) (verifyLink ring)) ∅ l.

(** The head loop consumes [seqByOrg] as it goes. *)
Definition verifyHead (byOrg : gmap uuid (Z * bytes)) (remaining : gmap uuid (Z * bytes))
    (row : uuid * (Z * bytes)) : result VerifyError (gmap uuid (Z * bytes)) :=
  if negb (default 0 (fst <$> remaining !! row.1) =? row.2.1) ||
     negb (bool_decide (default nil_bytes (snd <$> byOrg !! row.1) = row.2.2))
  then Err HeadMismatch
  else Ok (delete row.1 remaining).

(** [ORDER BY organizer_id, sequence]. *)
Definition entry_less : Entry → Entry → bool := lex (on_key e_org uuid_ltb) (on_key e_Sequence Z.ltb).

Definition verify (ring : Keyring) (db : JournalDB) : result VerifyError unit :=
  match verifyEntries ring (isort entry_less (jd_entries db)) with
  | Err e => Err e
  | Ok byOrg =>
      match fold_result (verifyHead byOrg) byOrg (map_to_list (jd_heads db)) with
      | Err e => Err e
      | Ok remaining => if bool_decide (remaining = ∅) then Ok tt else Err MissingHead
      end
  end.

(** ** Reading an order's ledger *)

Record LedgerLine := {
  ll_Kind : EntryKind;
  ll_Amount : Z;
  ll_Currency : string;
  ll_PayeeID : option uuid;
  ll_PayeeKind : option string;
  ll_PayeeDisplayName : option string;
  ll_FeeCode : option string;
  ll_Incidence : option string;
}.

Definition line_of (r : LedgerRow) : LedgerLine :=
  let e := lr_Entry r in
  let orNull (s : string) := if bool_decide (s = ""%string) then None else Some s in
  {| ll_Kind := se_Kind e; ll_Amount := se_Amount e; ll_Currency := se_Currency e;
     ll_PayeeID := ref_ID <$> se_Payee e; ll_PayeeKind := ref_Kind <$> se_Payee e;
     ll_PayeeDisplayName := ref_DisplayName <$> se_Payee e;
     ll_FeeCode := orNull (se_FeeCode e); ll_Incidence := orNull (se_Incidence e) |}.

(** [NULLS FIRST]. *)
Definition null_first {A} (less : A → A → bool) (a b : option A) : bool :=
  match a, b with
  | None, Some _ => true
  | Some x, Some y => less x y
  | _, None => false
  end.

(** [collate] is the database's text collation. *)
Definition line_less (collate : string → string → bool) : LedgerLine → LedgerLine → bool :=
  lex (on_key (λ l, kind_text (ll_Kind l)) collate)
    (lex (on_key ll_FeeCode (null_first collate)) (on_key ll_PayeeID (null_first uuid_ltb))).

Definition ReadOrderSettlement (collate : string → string → bool) (org order : uuid) (db : JournalDB) : list LedgerLine * Z * string :=
  let out := isort (line_less collate) (map line_of
    (List.filter (λ r, bool_decide (lr_OrganizerID r = org ∧ lr_OrderID r = order)) (jd_ledger db))) in
  (out, fold_left (λ t l, add64 t (ll_Amount l)) out 0, default ""%string (ll_Currency <$> list.last out)).

(** ** What the verifier checks, per organizer *)

Definition entries_of (org : uuid) (db : JournalDB) : list Entry :=
  of_key e_org org (isort entry_less (jd_entries db)).

Definition chain (ring : Keyring) (l : list Entry) : result VerifyError (Z * bytes) :=
  fold_result (verifyLink ring) (0, zero_hash) l.

Record JournalIntact (ring : Keyring) (db : JournalDB) : Prop := {
  ji_chained org : ∃ st, chain ring (entries_of org db) = Ok st ∧
    (entries_of org db ≠ [] → jd_heads db !! org = Some st);
  ji_no_entry org : entries_of org db = [] → ∀ h, jd_heads db !! org = Some h → h = (0, nil_bytes);
}.

Lemma verifyHead_Ok byOrg remaining l r :
  NoDup l.*1 →
  fold_result (verifyHead byOrg) remaining l = Ok r ↔
  (∀ o h, (o, h) ∈ l → default 0 (fst <$> remaining !! o) = h.1 ∧ default nil_bytes (snd <$> byOrg !! o) = h.2) ∧
  (∀ o, r !! o = if bool_decide (o ∈ l.*1) then None else remaining !! o).
Proof.
  revert remaining. induction l as [|[o h] l IH]; intros rem Hnd; cbn [fold_result].
  - split; [intros [= <-]; split; [by intros ? ? ?%elem_of_nil|done]|].
    intros [_ Hr]. f_equal. apply map_eq. intros o. by rewrite Hr.
  - cbn in Hnd. apply list.NoDup_cons in Hnd as [Hno Hnd]. unfold verifyHead at 1; cbn [fst snd].
    destruct (Z.eqb_spec (default 0 (fst <$> rem !! o)) h.1) as [Eseq|Eseq]; cbn.
    2: { split; [done|]. intros [H _]. destruct (H o h); [apply list_elem_of_here|done]. }
    case_bool_decide as Eh; cbn.
    2: { split; [done|]. intros [H _]. destruct (H o h); [apply list_elem_of_here|done]. }
    assert (Hdel : ∀ o' h', (o', h') ∈ l → delete o rem !! o' = rem !! o').
    { intros o' h' Hin. apply lookup_delete_ne. intros ->. apply Hno, list_elem_of_fmap. by exists (o', h'). }
    assert (Hr : ∀ o', (if bool_decide (o' ∈ ((o, h) :: l).*1) then None else rem !! o') =
                       (if bool_decide (o' ∈ l.*1) then None else delete o rem !! o')).
    { intros o'. destruct (decide (o' = o)) as [->|Hne].
      - rewrite lookup_delete_eq, bool_decide_true by (cbn; apply list_elem_of_here). by destruct (bool_decide _).
      - rewrite lookup_delete_ne by done. cbn. rewrite (bool_decide_ext (o' ∈ o :: l.*1) (o' ∈ l.*1)); [done|].
        rewrite elem_of_cons. tauto. }
    rewrite IH by done. setoid_rewrite Hr. split; intros [H Hrr]; (split; [intros o' h' Hin|done]).
    + apply elem_of_cons in Hin as [[= -> ->]|Hin]; [done|]. rewrite <-(Hdel _ _ Hin). by apply H.
    + rewrite (Hdel _ _ Hin). apply H. by apply list_elem_of_further.
Qed.

Lemma elem_of_head_keys (m : gmap uuid (Z * bytes)) o : o ∈ (map_to_list m).*1 ↔ is_Some (m !! o).
Proof.
  rewrite list_elem_of_fmap. split.
  - intros ([o' h] & -> & Hin). apply elem_of_map_to_list in Hin. eauto.
  - intros [h Hh]. exists (o, h). split; [done|by apply elem_of_map_to_list].
Qed.

Lemma verifyEntries_chains ring db byOrg org :
  verifyEntries ring (isort entry_less (jd_entries db)) = Ok byOrg →
  chain ring (entries_of org db) = Ok (default (0, zero_hash) (byOrg !! org)) ∧
  (entries_of org db = [] ↔ byOrg !! org = None).
Proof.
  intros Hv. destruct (keyed_fold_Ok _ _ _ _ _ _ org Hv) as (H1 & H2 & H3).
  rewrite lookup_empty in H1, H2. split; [exact H1|]. split; [exact H2|].
  intros Hn. unfold entries_of. destruct (of_key e_org org _) eqn:He; [done|].
  destruct (H3 ltac:(done)) as [? Hs]. congruence.
Qed.

Lemma verify_intact ring db : verify ring db = Ok tt ↔ JournalIntact ring db.
Proof.
  unfold verify. split.
  - destruct (verifyEntries _ _) as [byOrg|] eqn:Ev; [|done].
    destruct (fold_result _ _ _) as [r|] eqn:Eh; [|done]. case_bool_decide as Hr; [|done]. intros _. subst r.
    apply verifyHead_Ok in Eh as [Hm Hr]; [|apply NoDup_fst_map_to_list].
    assert (Hhead : ∀ o h, jd_heads db !! o = Some h →
      default 0 (fst <$> byOrg !! o) = h.1 ∧ default nil_bytes (snd <$> byOrg !! o) = h.2).
    { intros o h Ho. apply Hm. by apply elem_of_map_to_list. }
    split.
    + intros org. destruct (verifyEntries_chains ring db byOrg org Ev) as [Hc Hn].
      eexists. split; [exact Hc|]. intros Hne.
      destruct (byOrg !! org) as [st|] eqn:Eo; [|by destruct Hne; apply Hn].
      specialize (Hr org). rewrite lookup_empty in Hr. case_bool_decide as Hin; [|congruence].
      apply elem_of_head_keys in Hin as [[h1 h2] Hh]. destruct (Hhead _ _ Hh) as [E1 E2].
      rewrite Eo in E1, E2. cbn in E1, E2. subst h1 h2. by destruct st.
    + intros org Hn [h1 h2] Hh. apply (verifyEntries_chains ring db byOrg org Ev) in Hn.
      destruct (Hhead _ _ Hh) as [E1 E2]. rewrite Hn in E1, E2. cbn in E1, E2. by subst h1 h2.
  - intros [Hc Hno].
    destruct (keyed_fold_exists e_org (0, zero_hash) (verifyLink ring) (isort entry_less (jd_entries db)) ∅)
      as [byOrg Ev].
    { intros k. rewrite lookup_empty. destruct (Hc k) as (st & Hst & _). by exists st. }
    change (verifyEntries ring (isort entry_less (jd_entries db)) = Ok byOrg) in Ev. rewrite Ev.
    assert (Eh : fold_result (verifyHead byOrg) byOrg (map_to_list (jd_heads db)) = Ok ∅);
      [|rewrite Eh; by rewrite bool_decide_true].
    apply verifyHead_Ok; [apply NoDup_fst_map_to_list|]. split.
    + intros o h Hh. apply elem_of_map_to_list in Hh.
      destruct (verifyEntries_chains ring db byOrg o Ev) as [Hcb Hn].
      destruct (Hc o) as (st & Hst & Hhd). destruct (byOrg !! o) as [st'|] eqn:Eo.
      * assert (entries_of o db ≠ []) as Hne by (intros H; apply Hn in H; congruence).
        specialize (Hhd Hne). cbn [from_option id] in Hcb. assert (h = st') as -> by congruence. done.
      * by rewrite (Hno o (proj2 Hn eq_refl) h Hh).
    + intros o. rewrite lookup_empty. case_bool_decide as Hin; [done|].
      destruct (verifyEntries_chains ring db byOrg o Ev) as [_ Hn]. symmetry. apply Hn.
      destruct (Hc o) as (st & _ & Hh). destruct (entries_of o db); [done|].
      destruct Hin. apply elem_of_head_keys. rewrite Hh by done. eauto.
Qed.

(** The column checks of [journal_entries] that the chain relies on. *)
Definition columns_ok (e : Entry) : Prop :=
  0 < e_Sequence e ≤ MaxInt64 ∧ String.length (e_PreviousHash e) = 32%nat.
Definition tables_ok (db : JournalDB) : Prop := Forall columns_ok (jd_entries db).

Lemma verifyLink_Ok ring st e st' :
  verifyLink ring st e = Ok st' ↔
  e_Sequence e = add64 st.1 1 ∧ e_PreviousHash e = st.2 ∧
  e_EntryHash e = hash st.2 (canonical (e_Fact e) (e_Sequence e)) ∧
  ring_verify ring (e_KeyID e) (e_EntryHash e) (e_Signature e) = Ok tt ∧
  st' = (e_Sequence e, e_EntryHash e).
Proof.
  unfold verifyLink. destruct (Z.eqb_spec (e_Sequence e) (add64 st.1 1)) as [E|E]; cbn [negb]; [|naive_solver].
  case_bool_decide as E2; cbn [negb]; [|naive_solver].
  case_bool_decide as E3; cbn [negb]; [|naive_solver]. rewrite E3.
  destruct (ring_verify _ _ _ _) as [[]|]; naive_solver.
Qed.

Lemma link_successor ring st e st' :
  columns_ok e → 0 ≤ st.1 ≤ MaxInt64 → verifyLink ring st e = Ok st' → e_Sequence e = st.1 + 1.
Proof.
  intros [Hpos _] Hst (Hseq & _)%verifyLink_Ok.
  destruct (Z.eq_dec st.1 MaxInt64) as [Hm|]; [|rewrite Hseq; apply add64_id, int64_nonneg; lia].
  assert (add64 MaxInt64 1 = MinInt64) as Hw by reflexivity. rewrite Hm, Hw in Hseq. unfold MinInt64 in *. lia.
Qed.

Lemma chain_sequences ring l st st' :
  Forall columns_ok l → 0 ≤ st.1 ≤ MaxInt64 → fold_result (verifyLink ring) st l = Ok st' →
  st.1 ≤ st'.1 ≤ MaxInt64 ∧ Forall (λ y, st.1 < e_Sequence y ≤ st'.1) l.
Proof.
  intros Hl. revert st.
  induction Hl as [|e l He Hl IH]; intros st Hst; cbn; [intros [= <-]; split; [lia|constructor]|].
  destruct (verifyLink ring st e) as [st1|] eqn:El; [|done].
  pose proof (link_successor ring st e st1 He Hst El) as Hs. destruct He as [Hpos _].
  apply verifyLink_Ok in El as (_ & _ & _ & _ & ->). intros Hf.
  apply IH in Hf as [H1 H2]; cbn in *; [|lia]. split; [lia|]. constructor; [lia|].
  eapply List.Forall_impl; [|exact H2]. cbn. intros. lia.
Qed.

Lemma ring_verify_mono ring ring' kid sum sg :
  keys ring ⊆ keys ring' → ring_verify ring kid sum sg = Ok tt → ring_verify ring' kid sum sg = Ok tt.
Proof.
  unfold ring_verify, keyFor. intros Hsub. destruct (keys ring !! kid) as [k|] eqn:Ek; [|done].
  by rewrite (lookup_weaken _ _ _ _ Ek Hsub).
Qed.

Lemma chain_mono ring ring' l st st' :
  keys ring ⊆ keys ring' → fold_result (verifyLink ring) st l = Ok st' →
  fold_result (verifyLink ring') st l = Ok st'.
Proof.
  intros Hsub. revert st. induction l as [|e l IH]; intros st; cbn; [done|].
  destruct (verifyLink ring st e) as [st1|] eqn:El; [|done].
  apply verifyLink_Ok in El as (H1 & H2 & H3 & H4 & ->). intros Hf.
  assert (Hl : verifyLink ring' st e = Ok (e_Sequence e, e_EntryHash e)); [|rewrite Hl; by apply IH].
  apply verifyLink_Ok. split_and!; try done. by apply (ring_verify_mono ring).
Qed.

Lemma entries_of_sorted org db : entries_of org db = isort entry_less (of_key e_org org (jd_entries db)).
Proof. apply filter_isort, _. Qed.

Lemma elem_of_entries_of org db e : e ∈ entries_of org db ↔ e ∈ jd_entries db ∧ e_org e = org.
Proof.
  rewrite entries_of_sorted, elem_of_isort. unfold of_key. by rewrite elem_of_bool_filter, bool_decide_eq_true.
Qed.

Lemma entries_of_columns org db : tables_ok db → Forall columns_ok (entries_of org db).
Proof.
  unfold tables_ok. rewrite !list.Forall_forall. intros H e He. apply H. by apply elem_of_entries_of in He as [? _].
Qed.

(** What a successful append did. *)
Lemma Append_Ok now ring f settlement db db' e replay :
  AppendWithSettlement now ring f settlement db = Ok (db', e, replay) ↔
  validate f = Ok tt ∧
  let f' := normalize now f in
  match List.find (λ x, bool_decide (f_ID (e_Fact x) = f_ID f)) (jd_entries db) with
  | Some x => canonical f' (e_Sequence x) = canonical (e_Fact x) (e_Sequence x) ∧
              db' = db ∧ e = x ∧ replay = true
  | None =>
      e = next_entry ring f' (head_of db (f_OrganizerID f)) ∧ entry_insertable e db = true ∧ replay = false ∧
      insertSettlement f' settlement (jd_ledger db) = Ok (jd_ledger db') ∧
      commit_checks f' (jd_ledger db') = true ∧
      jd_heads db' = <[f_OrganizerID f := (e_Sequence e, e_EntryHash e)]> (jd_heads db) ∧
      jd_entries db' = jd_entries db ++ [e]
  end.
Proof.
  unfold AppendWithSettlement. rewrite bind_Ok. cbn zeta. unfold loadExistingFact.
  change (f_ID (normalize now f)) with (f_ID f). split.
  - intros ([] & Hv & H). split; [done|]. apply bind_Ok in H as (found & Hf & H).
    destruct (List.find _ _) as [x|].
    + case_bool_decide; [|done]. injection Hf as <-. by injection H as <- <- <-.
    + injection Hf as <-. cbn [f_OrganizerID normalize] in H.
      destruct (entry_insertable _ _) eqn:Ei; cbn [negb] in H; [|done].
      apply bind_Ok in H as (ledger & Hl & H). destruct (commit_checks _ _) eqn:Ec; cbn [negb] in H; [|done].
      injection H as <- <- <-. by split_and!.
  - intros (Hv & H). exists tt. split; [done|]. apply bind_Ok. destruct (List.find _ _) as [x|].
    + destruct H as (Hc & -> & -> & ->). exists (Some x). by rewrite bool_decide_true.
    + destruct H as (He & Hi & -> & Hs & Hcm & Hh & Hen). exists None. split; [done|]. cbn [f_OrganizerID normalize].
      rewrite <-He, Hi. cbn [negb]. rewrite Hs. cbn [mbind result_bind]. rewrite Hcm. cbn [negb].
      destruct db'. cbn in *. by subst.
Qed.

Lemma entry_insertable_inv e db :
  entry_insertable e db = true →
  0 < e_Sequence e ∧ String.length (e_PreviousHash e) = 32%nat ∧
  ∀ x, x ∈ jd_entries db → f_ID (e_Fact x) ≠ f_ID (e_Fact e).
Proof.
  unfold entry_insertable. intros H. zbool. apply Nat.eqb_eq in H3. split_and!; [done..|].
  rewrite forallb_forall in H0. intros x Hx Heq. specialize (H0 x ltac:(by apply list_elem_of_In)).
  rewrite bool_decide_true in H0 by done. done.
Qed.

(** One entry joins its organizer's chain and no other. *)
Lemma entries_of_snoc db db' e org :
  jd_entries db' = jd_entries db ++ [e] →
  (∀ y, y ∈ entries_of (e_org e) db → e_Sequence y < e_Sequence e) →
  entries_of org db' = entries_of org db ++ (if bool_decide (e_org e = org) then [e] else []).
Proof.
  intros Hen Hlast. rewrite !entries_of_sorted, Hen. unfold of_key at 1. rewrite List.filter_app. cbn.
  case_bool_decide as Ho; [|by rewrite !app_nil_r]. subst org. apply isort_snoc. intros y Hy.
  assert (Hy' : y ∈ entries_of (e_org e) db) by (by rewrite entries_of_sorted, elem_of_isort).
  pose proof (Hlast y Hy') as Hs. apply elem_of_entries_of in Hy' as [_ Hyo].
  unfold entry_less, lex, on_key. rewrite Hyo, !(less_irrefl uuid_ltb). apply Z.ltb_ge. lia.
Qed.

(** The chain state an intact journal holds for an organizer whose next entry
    can be inserted is its head. *)
Lemma intact_head ring db org :
  JournalIntact ring db → String.length (head_of db org).2 = 32%nat →
  chain ring (entries_of org db) = Ok (head_of db org).
Proof.
  intros [Hc Hno] Hlen. destruct (Hc org) as (st & Hst & Hh). unfold head_of in *.
  destruct (entries_of org db) eqn:He; [|by rewrite Hh by done].
  injection Hst as <-. destruct (jd_heads db !! org) as [h|] eqn:Eh; [|done].
  rewrite (Hno org He h Eh) in Hlen. done.
Qed.

Lemma ring_verify_sign ring sum :
  is_Some (keys ring !! activeKID ring) →
  ring_verify ring (activeKID ring) sum (ring_sign ring sum) = Ok tt.
Proof.
  intros [k Hk]. unfold ring_verify, keyFor, ring_sign. rewrite Hk. by rewrite bool_decide_true.
Qed.

Lemma next_entry_links ring f head :
  is_Some (keys ring !! activeKID ring) →
  verifyLink ring head (next_entry ring f head) =
  Ok (e_Sequence (next_entry ring f head), e_EntryHash (next_entry ring f head)).
Proof.
  intros Hk. apply verifyLink_Ok. unfold next_entry.
  cbn [e_Sequence e_PreviousHash e_EntryHash e_Fact e_KeyID e_Signature]. split_and!; try done.
  by apply ring_verify_sign.
Qed.

(** C16 (invariant). Appending keeps the journal verifiable, across key rotations: if the
    whole journal verifies under a ring, then after any successful append
    signed by a ring that still holds every one of those keys and its own active
    key, the journal verifies under the new ring. *)
Theorem append_keeps_journal_verifiable now ring ring' f settlement db db' e replay :
  tables_ok db → verify ring db = Ok tt →
  keys ring ⊆ keys ring' → is_Some (keys ring' !! activeKID ring') →
  AppendWithSettlement now ring' f settlement db = Ok (db', e, replay) →
  tables_ok db' ∧ verify ring' db' = Ok tt.
Proof.
  rewrite !verify_intact. intros Ht Hi Hsub Hk Ha. apply Append_Ok in Ha as [_ Ha].
  assert (Hi' : JournalIntact ring' db).
  { destruct Hi as [Hc Hno]. split; [|done]. intros org. destruct (Hc org) as (st & Hst & Hh).
    exists st. split; [by apply (chain_mono ring)|done]. }
  cbn zeta in Ha. destruct (List.find _ _); [by destruct Ha as (_ & -> & _)|].
  destruct Ha as (He & Hins & _ & _ & _ & Hheads & Hen). set (org := f_OrganizerID f) in *.
  apply entry_insertable_inv in Hins as (Hpos & Hlen & _).
  assert (Hprev : e_PreviousHash e = (head_of db org).2) by (by rewrite He). rewrite Hprev in Hlen.
  pose proof (intact_head ring' db org Hi' Hlen) as Hhead. unfold chain in Hhead.
  assert (Hlink : verifyLink ring' (head_of db org) e = Ok (e_Sequence e, e_EntryHash e))
    by (rewrite He; by apply next_entry_links).
  assert (Horg : e_org e = org) by (by rewrite He).
  destruct (chain_sequences ring' (entries_of org db) (0, zero_hash) (head_of db org)) as [Hr Hall];
    [by apply entries_of_columns|cbn; unfold MaxInt64; lia|exact Hhead|].
  assert (Hone : Forall columns_ok [e]).
  { constructor; [|constructor]. split; [|by rewrite Hprev]. split; [done|].
    rewrite He. cbn. apply wrap64_range. }
  destruct (chain_sequences ring' [e] (head_of db org) (e_Sequence e, e_EntryHash e)) as [_ Hse];
    [done|cbn in Hr; lia|cbn; by rewrite Hlink|].
  apply list.Forall_cons in Hse as [Hlt _].
  split; [by unfold tables_ok; rewrite Hen, Forall_app|].
  assert (Hsnoc : ∀ o, entries_of o db' = entries_of o db ++ (if bool_decide (org = o) then [e] else [])).
  { intros o. rewrite <-Horg. apply (entries_of_snoc db db' e o Hen). rewrite Horg. intros y Hy.
    rewrite list.Forall_forall in Hall. specialize (Hall y Hy). lia. }
  split.
  - intros o. rewrite Hsnoc, Hheads. case_bool_decide as Ho.
    + subst o. exists (e_Sequence e, e_EntryHash e). rewrite lookup_insert_eq. split; [|done].
      unfold chain. rewrite fold_result_app, Hhead. cbn. by rewrite Hlink.
    + rewrite app_nil_r, lookup_insert_ne by done. apply Hi'.
  - intros o. rewrite Hsnoc, Hheads. case_bool_decide as Ho; [by intros [_ ?]%app_eq_nil|].
    rewrite app_nil_r, lookup_insert_ne by done. apply Hi'.
Qed.

(** The stored entry an append answers with. *)
Lemma Append_stored now ring f settlement db db1 e replay :
  AppendWithSettlement now ring f settlement db = Ok (db1, e, replay) →
  List.find (λ x, bool_decide (f_ID (e_Fact x) = f_ID f)) (jd_entries db1) = Some e ∧
  canonical (normalize now f) (e_Sequence e) = canonical (e_Fact e) (e_Sequence e).
Proof.
  intros [_ H]%Append_Ok. cbn zeta in H. destruct (List.find _ _) as [x|] eqn:Ef.
  - destruct H as (Hc & -> & -> & _). done.
  - destruct H as (-> & _ & _ & _ & _ & _ & ->). split; [|done].
    apply find_snoc_new; [done|]. by rewrite bool_decide_true.
Qed.

(** C33 (roundtrip). A fact is appended exactly once. After a successful append, and in
    every later state of the append-only table: appending the same fact again, when it
    carries the time it occurred at, answers the same entry as a replay and changes
    nothing, whatever the clock, the ring or the settlement passed; a fact without a
    time is given the clock's, and replays at a clock that gives it the same one; and
    whatever signs differently under the same id is refused, another fact and a fact
    without a time that is retried at another clock alike. *)
Theorem append_exactly_once now ring f settlement db db1 e replay :
  AppendWithSettlement now ring f settlement db = Ok (db1, e, replay) →
  ∀ db2 now2 ring2 settlement2, jd_entries db1 `prefix_of` jd_entries db2 →
    (is_zero_time (f_OccurredAt f) = false ∨ now2 - now2 mod 1000 = now - now mod 1000 →
     AppendWithSettlement now2 ring2 f settlement2 db2 = Ok (db2, e, true)) ∧
    ∀ g, validate g = Ok tt → f_ID g = f_ID f →
      canonical (normalize now2 g) (e_Sequence e) ≠ canonical (normalize now f) (e_Sequence e) →
      AppendWithSettlement now2 ring2 g settlement2 db2 = Err FactIDReused.
Proof.
  intros Ha db2 now2 ring2 s2 Hp. pose proof (Append_stored _ _ _ _ _ _ _ _ Ha) as [Hf Hc].
  apply (find_prefix _ _ _ _ Hp) in Hf. apply Append_Ok in Ha as [Hv _]. split.
  - intros Hz. assert (Hn : normalize now2 f = normalize now f).
    { unfold normalize. cbv zeta. destruct Hz as [-> | Hz]; [done|]. destruct (is_zero_time _); [by rewrite Hz|done]. }
    apply Append_Ok. split; [done|]. cbn zeta. rewrite Hf, Hn. by split_and!.
  - intros g Hg Hid Hne. unfold AppendWithSettlement, loadExistingFact. rewrite Hg; cbn [mbind result_bind].
    change (f_ID (normalize now2 g)) with (f_ID g). rewrite Hid, Hf.
    rewrite bool_decide_false; [done|]. by rewrite <-Hc.
Qed.

(** ** The canonical form identifies the fact *)

(** What every fact that passed [validate] satisfies: single-line fields, a
    year RFC 3339 can write, and an [order_id] alone in the payload. *)
Definition signable (f : Fact) : bool :=
  one_line (uuid_String (f_OrganizerID f)) && one_line (uuid_String (f_ID f)) &&
  one_line (uuid_String (f_BuyerID f)) && one_line (f_Type f) && one_line (f_Currency f) &&
  four_digit_year (f_OccurredAt f) &&
  bool_decide (f_Payload f = Some {["order_id"%string := payload_get f "order_id"]}).

Lemma canonical_one_line f n : signable f = true → Forall (λ x, one_line x = true) (canonical_fields f n).
Proof.
  unfold signable. intros H. zbool. unfold canonical_fields.
  repeat (constructor; [first [done|apply one_line_pretty|by apply RFC3339Nano_one_line|idtac]|]); [|constructor].
  rewrite H0. apply json_marshal_one_one_line.
Qed.

(** The facts [AppendWithSettlement] writes are signable. *)
Lemma validated_signable now f :
  uuid_Parse ""%string = None → validate f = Ok tt → four_digit_year (f_OccurredAt (normalize now f)) = true →
  (∀ u, u ∈ [f_OrganizerID f; f_ID f; f_BuyerID f] → one_line (uuid_String u) = true) →
  signable (normalize now f) = true.
Proof.
  intros Hnil Hv Hy Hu. unfold validate in Hv. ok_inv. zbool. clear Hv.
  unfold signable. cbn [f_OrganizerID f_ID f_BuyerID f_Type f_Currency f_Payload normalize].
  rewrite Hy, !Hu by (rewrite !elem_of_cons; auto).
  assert (Ht : one_line (f_Type f) = true).
  { assert (Hall : forallb one_line allowedTypes = true) by reflexivity.
    rewrite forallb_forall in Hall. apply Hall. by apply list_elem_of_In. }
  unfold SupportedCurrencies in Heqb0. apply bool_decide_eq_true in Heqb0. rewrite Ht, Heqb0.
  apply bool_decide_eq_true. unfold payload_get in *. unfold payload_keys in Heqb2.
  cbn [f_Payload normalize].
  destruct (f_Payload f) as [m|]; [|by cbn in Heqb3; rewrite Hnil in Heqb3]. f_equal.
  cbn [mbind option_bind] in *. apply map_eq. intros k.
  destruct (decide (k = "order_id"%string)) as [->|Hk].
  - rewrite lookup_singleton_eq. destruct (m !! "order_id"%string) eqn:E; [done|].
    cbn in Heqb3. by rewrite Hnil in Heqb3.
  - rewrite lookup_singleton_ne by done. destruct (m !! k) as [v|] eqn:E; [|done].
    exfalso. rewrite <-not_true_iff_false in Heqb2. apply Heqb2, existsb_exists. exists k. split.
    + apply list_elem_of_In, list_elem_of_fmap. exists (k, v). split; [done|by apply elem_of_map_to_list].
    + unfold forbidden_key. rewrite (bool_decide_false (k = _)) by done. by rewrite !orb_true_r.
Qed.

Lemma canonical_inj `{!UUIDLaws} f g n m :
  signable f = true → signable g = true → canonical f n = canonical g m → f = g ∧ n = m.
Proof.
  intros Hf Hg E. apply join_inj in E; [|done|done|by apply canonical_one_line..].
  unfold signable in Hf, Hg. zbool. unfold canonical_fields in E. simplify_eq.
  match goal with H : RFC3339Nano _ = RFC3339Nano _ |- _ => apply RFC3339Nano_inj in H; [|done..] end.
  split; [|done]. rewrite H8, H1 in H21. apply json_marshal_one_inj in H21.
  rewrite H21 in H8. rewrite <-H1 in H8. destruct f, g; cbn in *; congruence.
Qed.

(** What an entry's hash is the SHA-256 of. *)
Definition hashed (e : Entry) : bytes := e_PreviousHash e +:+ canonical (e_Fact e) (e_Sequence e).

Lemma chain_commits `{!UUIDLaws} ring1 ring2 l1 l2 st :
  Forall columns_ok l1 → Forall columns_ok l2 →
  Forall (λ e, signable (e_Fact e) = true) l1 → Forall (λ e, signable (e_Fact e) = true) l2 →
  chain ring1 l1 = Ok st → chain ring2 l2 = Ok st →
  map e_Fact l1 = map e_Fact l2 ∨
  ∃ e1 e2, e1 ∈ l1 ∧ e2 ∈ l2 ∧ Collision (hashed e1) (hashed e2).
Proof.
  assert (Hzero : 0 ≤ ((0, zero_hash) : Z * bytes).1 ≤ MaxInt64) by (cbn; unfold MaxInt64; lia).
  revert l2 st. induction l1 as [|e1 l1 IH] using rev_ind; intros l2 st C1 C2 S1 S2 H1 H2.
  { injection H1 as <-. apply chain_sequences in H2 as [_ Hs]; [|done..]. left.
    destruct l2 as [|y l2]; [done|]. apply list.Forall_cons in Hs as [Hs _]. cbn in Hs. lia. }
  destruct l2 as [|e2 l2 _] using rev_ind.
  { injection H2 as <-. apply chain_sequences in H1 as [_ Hs]; [|done..].
    apply Forall_app in Hs as [_ [Hs _]%list.Forall_cons]. cbn in Hs. lia. }
  apply Forall_app in C1 as [C1 [Ce1 _]%list.Forall_cons], C2 as [C2 [Ce2 _]%list.Forall_cons].
  apply Forall_app in S1 as [S1 [Se1 _]%list.Forall_cons], S2 as [S2 [Se2 _]%list.Forall_cons].
  unfold chain in H1, H2. rewrite fold_result_app in H1, H2.
  destruct (fold_result (verifyLink ring1) _ l1) as [st1|] eqn:F1; [|done].
  destruct (fold_result (verifyLink ring2) _ l2) as [st2|] eqn:F2; [|done].
  cbn [fold_result] in H1, H2.
  destruct (verifyLink ring1 st1 e1) as [x1|] eqn:L1; [|done]. injection H1 as ->.
  destruct (verifyLink ring2 st2 e2) as [x2|] eqn:L2; [|done]. injection H2 as ->.
  destruct (chain_sequences _ _ _ _ C1 Hzero F1) as [B1 _]. destruct (chain_sequences _ _ _ _ C2 Hzero F2) as [B2 _].
  cbn [fst] in B1, B2.
  pose proof (link_successor ring1 st1 e1 st Ce1 B1 L1) as N1.
  pose proof (link_successor ring2 st2 e2 st Ce2 B2 L2) as N2.
  apply verifyLink_Ok in L1 as (_ & P1 & X1 & _ & ->). apply verifyLink_Ok in L2 as (_ & P2 & X2 & _ & [= Eq Eh]).
  rewrite Eh, X2 in X1. symmetry in X1. destruct Ce1 as [_ W1], Ce2 as [_ W2]. rewrite P1 in W1. rewrite P2 in W2.
  apply chained_digest_inj in X1 as [[Ep Ec]|Hcol]; [| |congruence].
  2: { right. exists e1, e2. unfold hashed. rewrite P1, P2.
    split; [|split; [|exact Hcol]]; apply elem_of_app; right; apply list_elem_of_here. }
  apply canonical_inj in Ec as [Ef _]; [|done..].
  destruct (IH l2 st1 C1 C2 S1 S2 F1) as [Hm|(a & b & Ha & Hb & Hcol)].
  2: { rewrite !map_app; cbn; rewrite Hm, Ef; auto. }
  2: { right. exists a, b. split; [|split; [|exact Hcol]]; apply elem_of_app; by left. }
  unfold chain. rewrite F2. f_equal. destruct st1, st2. cbn in *. f_equal; [lia|done].
Qed.

(** The head commits to the history: if two journals verify and carry the
    same head for an organizer, their facts for that organizer are the same
    sequence, or two of their entries hashed different bytes to one SHA-256. *)
Theorem head_commits_to_history `{!UUIDLaws} ring1 ring2 db1 db2 org :
  verify ring1 db1 = Ok tt → verify ring2 db2 = Ok tt → tables_ok db1 → tables_ok db2 →
  (∀ e, e ∈ jd_entries db1 ∨ e ∈ jd_entries db2 → signable (e_Fact e) = true) →
  jd_heads db1 !! org = jd_heads db2 !! org →
  map e_Fact (entries_of org db1) = map e_Fact (entries_of org db2) ∨
  ∃ e1 e2, e1 ∈ entries_of org db1 ∧ e2 ∈ entries_of org db2 ∧ Collision (hashed e1) (hashed e2).
Proof.
  rewrite !verify_intact. intros V1 V2 T1 T2 Hsig Hh.
  pose proof (entries_of_columns org db1 T1) as C1. pose proof (entries_of_columns org db2 T2) as C2.
  assert (S1 : Forall (λ e, signable (e_Fact e) = true) (entries_of org db1)).
  { apply list.Forall_forall. intros e [He _]%elem_of_entries_of. auto. }
  assert (S2 : Forall (λ e, signable (e_Fact e) = true) (entries_of org db2)).
  { apply list.Forall_forall. intros e [He _]%elem_of_entries_of. auto. }
  destruct (ji_chained _ _ V1 org) as (s1 & K1 & E1). destruct (ji_chained _ _ V2 org) as (s2 & K2 & E2).
  pose proof (ji_no_entry _ _ V1 org) as Z1. pose proof (ji_no_entry _ _ V2 org) as Z2.
  destruct (entries_of org db1) as [|x1 l1], (entries_of org db2) as [|x2 l2]; [auto|..].
  - specialize (E2 ltac:(done)). rewrite Hh in Z1. specialize (Z1 eq_refl _ E2). subst s2.
    apply chain_sequences in K2 as [_ Hs]; [|done|cbn; unfold MaxInt64; lia].
    apply list.Forall_cons in Hs as [Hs _]. cbn in Hs. lia.
  - specialize (E1 ltac:(done)). rewrite <-Hh in Z2. specialize (Z2 eq_refl _ E1). subst s1.
    apply chain_sequences in K1 as [_ Hs]; [|done|cbn; unfold MaxInt64; lia].
    apply list.Forall_cons in Hs as [Hs _]. cbn in Hs. lia.
  - specialize (E1 ltac:(done)). specialize (E2 ltac:(done)). rewrite Hh, E2 in E1. injection E1 as ->.
    by apply (chain_commits ring1 ring2 (x1 :: l1) (x2 :: l2) s1).
Qed.

(** ** Reading back what was attributed *)

Definition captured (f : Fact) : bool := bool_decide (f_Type f = "payment.captured"%string).

Definition for_order (org order : uuid) (f : Fact) : bool :=
  captured f && bool_decide (f_OrganizerID f = org) &&
  bool_decide (payload_get f "order_id" = uuid_String order).

(** The money the journal says was captured for an order. *)
Definition captured_for (org order : uuid) (db : JournalDB) : Z :=
  sumZ (map f_Amount (List.filter (for_order org order) (map e_Fact (jd_entries db)))).

Definition order_rows (org order : uuid) (ledger : list LedgerRow) : list LedgerRow :=
  List.filter (λ r, bool_decide (lr_OrganizerID r = org ∧ lr_OrderID r = order)) ledger.

Record Attributed (db : JournalDB) : Prop := {
  at_facts : Forall (λ r, lr_FactID r ∈ map (λ e, f_ID (e_Fact e)) (jd_entries db)) (jd_ledger db);
  at_entry : Forall (λ e, let rows := rows_of (f_ID (e_Fact e)) (jd_ledger db) in
    ledger_total rows = (if captured (e_Fact e) then f_Amount (e_Fact e) else 0) ∧
    (rows ≠ [] ↔ captured (e_Fact e) = true)) (jd_entries db);
  at_order org order : ledger_total (order_rows org order (jd_ledger db)) = captured_for org order db;
}.

Lemma insertRows_Ok f oid entries ledger ledger' :
  insertRows f oid entries ledger = Ok ledger' →
  ∃ rows, ledger' = ledger ++ rows ∧
    Forall (λ r, lr_FactID r = f_ID f ∧ lr_OrganizerID r = f_OrganizerID f ∧ lr_OrderID r = oid) rows ∧
    map lr_Entry rows = entries.
Proof.
  revert ledger. induction entries as [|e entries IH]; intros ledger; cbn [insertRows].
  { intros [= <-]. exists []. by rewrite app_nil_r. }
  destruct (match se_Kind e with EntryOther _ => true | _ => false end); [done|].
  destruct (row_insertable _ _); [|done]. intros (rows & -> & Hr & <-)%IH.
  eexists (_ :: rows). rewrite <-app_assoc. split; [done|]. split; [|done]. by constructor.
Qed.

Lemma insertSettlement_Ok f entries ledger ledger' :
  insertSettlement f entries ledger = Ok ledger' →
  ∃ oid rows, ledger' = ledger ++ rows ∧
    Forall (λ r, lr_FactID r = f_ID f ∧ lr_OrganizerID r = f_OrganizerID f ∧ lr_OrderID r = oid) rows ∧
    map lr_Entry rows = entries.
Proof.
  unfold insertSettlement. case_bool_decide as Hl.
  - intros [= <-]. exists uuid_Nil, []. rewrite app_nil_r. by destruct entries.
  - destruct (uuid_Parse _) as [oid|]; [|done]. intros (rows & ?)%insertRows_Ok. by exists oid, rows.
Qed.

Lemma rows_of_app id l1 l2 : rows_of id (l1 ++ l2) = rows_of id l1 ++ rows_of id l2.
Proof. apply List.filter_app. Qed.
Lemma ledger_total_app l1 l2 : ledger_total (l1 ++ l2) = ledger_total l1 + ledger_total l2.
Proof. unfold ledger_total. by rewrite map_app, sumZ_app. Qed.

Lemma bool_filter_none {A} (P : A → bool) l : Forall (λ x, P x = false) l → List.filter P l = [].
Proof. induction 1 as [|x l Hx _ IH]; cbn; [done|]. by rewrite Hx. Qed.

Lemma bool_filter_every {A} (P : A → bool) l : Forall (λ x, P x = true) l → List.filter P l = l.
Proof. induction 1 as [|x l Hx _ IH]; cbn; [done|]. by rewrite Hx, IH. Qed.

(** What the triggers let through for a fresh fact with the given rows. *)
Lemma commit_rows f ledger rows :
  Forall (λ r, lr_FactID r ≠ f_ID f) ledger → Forall (λ r, lr_FactID r = f_ID f) rows →
  commit_checks f (ledger ++ rows) = true →
  rows_of (f_ID f) (ledger ++ rows) = rows ∧
  Forall (λ r, uuid_String (lr_OrderID r) = payload_get f "order_id") rows ∧
  ledger_total rows = (if captured f then f_Amount f else 0) ∧ (rows ≠ [] ↔ captured f = true).
Proof.
  intros Hold Hnew Hc.
  assert (Hrows : rows_of (f_ID f) (ledger ++ rows) = rows).
  { rewrite rows_of_app. unfold rows_of.
    rewrite (bool_filter_none _ ledger), (bool_filter_every _ rows); [done|..].
    - eapply List.Forall_impl; [|exact Hnew]. cbn. intros r Hr. by apply bool_decide_eq_true.
    - eapply List.Forall_impl; [|exact Hold]. cbn. intros r Hr. by apply bool_decide_eq_false. }
  split; [done|]. unfold commit_checks in Hc. rewrite Hrows in Hc. fold (captured f) in Hc. zbool.
  rewrite forallb_forall in H. setoid_rewrite <-list_elem_of_In in H.
  split.
  { apply list.Forall_forall. intros r Hr. specialize (H r Hr). unfold row_matches in H. zbool. done. }
  destruct rows as [|r rows].
  - cbn in H0. destruct (captured f); cbn in H0; [by destruct H0|]. done.
  - specialize (H r (list_elem_of_here _ _)). unfold row_matches in H. fold (captured f) in H.
    destruct (captured f); [|done]. split; [|done]. by destruct H1; zbool.
Qed.

Lemma order_rows_new `{!UUIDLaws} f oid rows org order :
  Forall (λ r, lr_FactID r = f_ID f ∧ lr_OrganizerID r = f_OrganizerID f ∧ lr_OrderID r = oid) rows →
  Forall (λ r, uuid_String (lr_OrderID r) = payload_get f "order_id") rows →
  (rows ≠ [] ↔ captured f = true) →
  order_rows org order rows = if for_order org order f then rows else [].
Proof.
  intros Hr Ho Hne. unfold for_order, order_rows. destruct rows as [|r0 rows]; [by case_match|].
  assert (captured f = true) as -> by (by apply Hne). cbn [andb].
  assert (Hoid : uuid_String oid = payload_get f "order_id").
  { apply list.Forall_cons in Hr as [(_ & _ & <-) _]. by apply list.Forall_cons in Ho as [<- _]. }
  rewrite <-Hoid. rewrite <-bool_decide_and. case_bool_decide as Hd.
  - destruct Hd as [<- Hs%(inj uuid_String)]. subst order. apply bool_filter_every.
    eapply List.Forall_impl; [|exact Hr]. cbn. intros r (_ & ? & ?). by apply bool_decide_eq_true.
  - apply bool_filter_none. eapply List.Forall_impl; [|exact Hr]. cbn. intros r (_ & H1 & H2).
    apply bool_decide_eq_false. intros [E1 E2]. apply Hd. by subst.
Qed.

Lemma Append_attributed `{!UUIDLaws} now ring f settlement db db' e replay :
  Attributed db → AppendWithSettlement now ring f settlement db = Ok (db', e, replay) → Attributed db'.
Proof.
  intros [Hfacts Hentry Horder] [_ Ha]%Append_Ok. cbn zeta in Ha.
  destruct (List.find _ _); [by destruct Ha as (_ & -> & _)|].
  destruct Ha as (He & Hins & _ & Hset & Hcm & _ & Hen). set (f' := normalize now f) in *.
  apply entry_insertable_inv in Hins as (_ & _ & Hfresh).
  assert (Hef : e_Fact e = f') by (by rewrite He). rewrite Hef in Hfresh.
  apply insertSettlement_Ok in Hset as (oid & rows & Hl & Hrows & _). rewrite Hl in Hcm.
  assert (Hold : Forall (λ r, lr_FactID r ≠ f_ID f') (jd_ledger db)).
  { eapply List.Forall_impl; [|exact Hfacts]. cbn. intros r Hr Heq. rewrite Heq in Hr.
    apply list_elem_of_In, List.in_map_iff in Hr as (x & Hx & Hin%list_elem_of_In). by apply (Hfresh x). }
  assert (Hids : Forall (λ r, lr_FactID r = f_ID f') rows) by (eapply List.Forall_impl; [|exact Hrows]; by intros ? (? & _)).
  destruct (commit_rows f' _ _ Hold Hids Hcm) as (Hmine & Hpay & Htot & Hne).
  split.
  - rewrite Hl, Hen. apply Forall_app. rewrite map_app. split.
    + eapply List.Forall_impl; [|exact Hfacts]. cbn. intros r Hr. apply elem_of_app. by left.
    + eapply List.Forall_impl; [|exact Hids]. cbn. intros r ->. apply elem_of_app. right.
      rewrite Hef. by apply list_elem_of_singleton.
  - rewrite Hl, Hen. apply Forall_app. split; [|constructor; [|done]].
    + apply list.Forall_forall. intros x Hx. rewrite list.Forall_forall in Hentry. specialize (Hentry x Hx).
      cbn zeta in *. rewrite rows_of_app. unfold rows_of at 2 4. rewrite bool_filter_none, app_nil_r; [done|].
      eapply List.Forall_impl; [|exact Hids]. cbn. intros r ->. apply bool_decide_eq_false.
      intros E. by apply (Hfresh x).
    + cbn zeta. rewrite Hef, Hmine. done.
  - intros org order. rewrite Hl. unfold order_rows. rewrite List.filter_app.
    change (List.filter _ rows) with (order_rows org order rows).
    change (List.filter _ (jd_ledger db)) with (order_rows org order (jd_ledger db)).
    rewrite ledger_total_app, Horder, (order_rows_new f' oid) by done.
    unfold captured_for. rewrite Hen, map_app, List.filter_app, map_app, sumZ_app. f_equal.
    cbn [map List.filter]. rewrite Hef. destruct (for_order org order f') eqn:Efo; [|done].
    cbn [map sumZ]. rewrite Htot. unfold for_order in Efo. by destruct (captured f'); [lia|].
Qed.

Record AppendRequest := {
  ar_now : time; ar_ring : Keyring; ar_fact : Fact; ar_settlement : list SettlementEntry }.

(** Appends one after another; a refused one leaves the state as it was. *)
Definition journal_run (requests : list AppendRequest) (db : JournalDB) : JournalDB :=
  fold_left (λ db r, match AppendWithSettlement (ar_now r) (ar_ring r) (ar_fact r) (ar_settlement r) db with
                     | Ok (db', _, _) => db' | Err _ => db end) requests db.

Definition empty_journal : JournalDB := {| jd_heads := ∅; jd_entries := []; jd_ledger := [] |}.

Lemma journal_run_attributed `{!UUIDLaws} requests db : Attributed db → Attributed (journal_run requests db).
Proof.
  unfold journal_run. revert db. induction requests as [|r requests IH]; intros db Hdb; cbn; [done|]. apply IH.
  destruct (AppendWithSettlement _ _ _ _ _) as [[[db' e] replay]|] eqn:E; [|done].
  by apply (Append_attributed _ _ _ _ _ _ _ _ Hdb E).
Qed.

Lemma wrapped_total out z :
  fold_left (λ t l, add64 t (ll_Amount l)) out (wrap64 z) = wrap64 (z + sumZ (map ll_Amount out)).
Proof.
  revert z. induction out as [|l out IH]; intros z; cbn [fold_left map sumZ]; [by rewrite Z.add_0_r|].
  by rewrite wrap64_add, IH, Z.add_assoc.
Qed.

(** Whatever is appended, with whatever settlement, the ledger attributes
    every capture and nothing else: the rows of a fact sum to its amount if it
    is a capture, and only captures have rows; and reading an order's ledger
    totals, at 64 bits, to the money the journal says was captured for it. *)
Theorem ledger_attributes_every_capture `{!UUIDLaws} requests :
  let db := journal_run requests empty_journal in
  (∀ e, e ∈ jd_entries db → let rows := rows_of (f_ID (e_Fact e)) (jd_ledger db) in
    ledger_total rows = (if captured (e_Fact e) then f_Amount (e_Fact e) else 0) ∧
    (rows ≠ [] ↔ captured (e_Fact e) = true)) ∧
  ∀ collate org order, (ReadOrderSettlement collate org order db).1.2 = wrap64 (captured_for org order db).
Proof.
  intros db. assert (Hat : Attributed db) by (apply journal_run_attributed; split; [constructor..|done]).
  destruct Hat as [_ Hentry Horder]. split; [by apply list.Forall_forall|].
  intros collate org order. rewrite <-Horder. unfold ReadOrderSettlement. cbn [fst snd].
  change 0 with (wrap64 0) at 1. rewrite wrapped_total, isort_perm, map_map. done.
Qed.
End Journal.

(** ** A concrete journal: one capture of 53.01, attributed *)
#[local] Existing Instance text_uuid.

Definition example_ring : Keyring := ring_of "local-v1" "local-signing-key" [].

Definition example_fact : Fact := {|
  f_ID := "fact"%string; f_OrganizerID := "org"%string; f_Type := "payment.captured";
  f_OccurredAt := 1709210096120450000; f_BuyerID := "buyer"%string; f_Amount := 5301; f_Currency := "EUR";
  f_Payload := Some {["order_id"%string := "7f9c24e8-3b12-4fef-91e0-5a1f8d6b2c11"%string]} |}.

Definition example_entries : list SettlementEntry :=
  match BuildSettlementEntries example_plan 5301 with Ok es => es | Err _ => [] end.

Definition example_request : AppendRequest := {|
  ar_now := 1709210097000000000; ar_ring := example_ring; ar_fact := example_fact;
  ar_settlement := example_entries |}.

Definition example_entry : Entry :=
  next_entry example_ring (normalize (ar_now example_request) example_fact) (0, zero_hash).

Definition example_journal : JournalDB := journal_run [example_request] empty_journal.

Lemma example_append :
  AppendWithSettlement (ar_now example_request) example_ring example_fact example_entries empty_journal
  = Ok (example_journal, example_entry, false).
Proof. vm_compute. reflexivity. Qed.

Lemma example_verifies : verify example_ring example_journal = Ok tt.
Proof. vm_compute. reflexivity. Qed.

Lemma example_rows : jd_entries example_journal = [example_entry].
Proof. destruct (proj1 (Append_Ok _ _ _ _ _ _ _ _) example_append) as [_ (_ & _ & _ & _ & _ & _ & H)]. exact H. Qed.

Lemma example_tables : tables_ok example_journal.
Proof.
  unfold tables_ok. rewrite example_rows. constructor; [|constructor].
  split; [split; [reflexivity|discriminate]|reflexivity].
Qed.

Lemma example_signable e : e ∈ jd_entries example_journal → signable (e_Fact e) = true.
Proof. rewrite example_rows. intros ->%list_elem_of_singleton. vm_compute. reflexivity. Qed.

Lemma append_keeps_journal_verifiable_witness :
  tables_ok example_journal ∧ verify example_ring example_journal = Ok tt.
Proof.
  refine (append_keeps_journal_verifiable (ar_now example_request) example_ring example_ring example_fact
    example_entries empty_journal example_journal example_entry false _ _ _ _ example_append).
  - constructor.
  - vm_compute. reflexivity.
  - reflexivity.
  - exists "local-signing-key"%string. vm_compute. reflexivity.
Defined.

Lemma append_exactly_once_witness :
  AppendWithSettlement 0 example_ring example_fact [] example_journal = Ok (example_journal, example_entry, true).
Proof.
  refine (proj1 (append_exactly_once (ar_now example_request) example_ring example_fact example_entries
    empty_journal example_journal example_entry false example_append example_journal 0 example_ring [] _) _).
  - exists []. rewrite app_nil_r. reflexivity.
  - left. vm_compute. reflexivity.
Defined.

Lemma head_commits_to_history_witness :
  map e_Fact (entries_of "org"%string example_journal) = map e_Fact (entries_of "org"%string example_journal)
  ∨ ∃ e1 e2, e1 ∈ entries_of "org"%string example_journal ∧ e2 ∈ entries_of "org"%string example_journal ∧
    Collision (hashed e1) (hashed e2).
Proof.
  apply (@head_commits_to_history text_uuid text_uuid_laws example_ring example_ring example_journal
    example_journal "org"%string); [exact example_verifies..|exact example_tables|exact example_tables| |reflexivity].
  intros e [He|He]; exact (example_signable e He).
Defined.

Lemma ledger_attributes_every_capture_witness :
  captured_for "org"%string "7f9c24e8-3b12-4fef-91e0-5a1f8d6b2c11"%string example_journal = 5301 ∧
  (ReadOrderSettlement String.ltb "org"%string "7f9c24e8-3b12-4fef-91e0-5a1f8d6b2c11"%string
     example_journal).1.2 = 5301.
Proof.
  assert (H : captured_for "org"%string "7f9c24e8-3b12-4fef-91e0-5a1f8d6b2c11"%string example_journal = 5301)
    by (vm_compute; reflexivity).
  split; [exact H|].
  pose proof (proj2 (@ledger_attributes_every_capture text_uuid text_uuid_laws [example_request])
    String.ltb "org"%string "7f9c24e8-3b12-4fef-91e0-5a1f8d6b2c11"%string) as Hread.
  change (journal_run [example_request] empty_journal) with example_journal in Hread.
  rewrite H in Hread. exact Hread.
Defined.
