(* ===== verification/PaymentOps.v ===== *)
(** * Payments: the provider port, operations, compensations and refund legs

    [services/payments/internal]: psp/port.go, the vocabulary every provider's answer is
    normalised to and the validation each answer passes before payments writes anything
    (the providers themselves are outside); store/store.go (operations and whole
    compensations), refund_legs.go (partial refunds) and arithmetic.go. The
    database is a record of the three tables; each function on it is atomic: a
    single statement, or the transaction of a method that holds the operation's
    row lock. The methods made of several autocommitted statements are programs of
    these, in [PaymentFlows].
    [now] is the statement's [now()]. The tables' CHECK and UNIQUE constraints
    are part of the statements: a row they forbid is [ErrDatabase]. *)

From S2P Require Import Prelude Text Sha256.

(** ** The payment-provider port *)

(** [Outcome] is a string type: an adapter can return a value outside the
    constants, and [Validate] refuses it. *)
Inductive Outcome :=
| Authorized | Captured | Declined | Timeout | Unknown | Voided | Refunded | OutcomeOther (s : string).

#[export] Instance Outcome_eq_dec : EqDecision Outcome.
Proof. solve_decision. Defined.

Record ConfirmedMoney := { cm_Amount : Z; cm_Currency : string }.

Record Result := {
  r_Outcome : Outcome;
  r_Captured : bool;
  r_Authorized : bool;
  r_TerminalNoSideEffect : bool;
  r_ProviderRef : string;
  r_ProviderChargeRef : string;
  r_Confirmed : option ConfirmedMoney;
}.

Definition Agrees (c : option ConfirmedMoney) (amount : Z) (currency : string) : bool :=
  match c with
  | None => false
  | Some m => (cm_Amount m =? amount) && bool_decide (cm_Currency m = currency)
  end.

Definition validate_money (m : ConfirmedMoney) : bool :=
  if cm_Amount m <? 0 then false
  else if negb (isISOCurrency (cm_Currency m)) then false
  else true.

Definition validateConfirmed (r : Result) : bool :=
  match r_Confirmed r with
  | None => true
  | Some m =>
      if negb (validate_money m) then false
      else match r_Outcome r with
           | Captured | Refunded => negb (cm_Amount m =? 0)
           | _ => false
           end
  end.

(** [Validate() == nil]. *)
Definition Validate (r : Result) : bool :=
  if negb (validateConfirmed r) then false
  else
    match r_Outcome r with
    | Captured => r_Captured r && r_Authorized r && negb (r_TerminalNoSideEffect r)
    | Authorized => r_Authorized r && negb (r_Captured r) && negb (r_TerminalNoSideEffect r)
    | Declined | Timeout => negb (r_Captured r) && negb (r_Authorized r) && r_TerminalNoSideEffect r
    | Unknown => negb (r_Captured r) && negb (r_Authorized r) && negb (r_TerminalNoSideEffect r)
    | Voided => negb (r_Captured r) && negb (r_Authorized r) && r_TerminalNoSideEffect r
    | Refunded => negb (r_Captured r) && negb (r_Authorized r) && negb (r_TerminalNoSideEffect r)
    | OutcomeOther _ => false
    end.

(** A provider answer that passed the checks of a write sink agrees with the
    money it was asked for. *)
Lemma Agrees_spec c amount currency :
  Agrees c amount currency = true ↔ c = Some {| cm_Amount := amount; cm_Currency := currency |}.
Proof.
  unfold Agrees. destruct c as [[a cur]|]; cbn; [|done].
  rewrite andb_true_iff, Z.eqb_eq, bool_decide_eq_true. naive_solver.
Qed.

Lemma validated_confirmation r m :
  Validate r = true → r_Confirmed r = Some m →
  (r_Outcome r = Captured ∨ r_Outcome r = Refunded) ∧ 0 < cm_Amount m ∧ isISOCurrency (cm_Currency m) = true.
Proof.
  unfold Validate, validateConfirmed, validate_money. intros Hv Hm. rewrite Hm in Hv.
  destruct (Z.ltb_spec (cm_Amount m) 0); cbn in Hv; [done|].
  destruct (isISOCurrency (cm_Currency m)); cbn in Hv; [|done].
  destruct (Z.eqb_spec (cm_Amount m) 0), (r_Outcome r); cbn in Hv; try done; split_and!; auto; lia.
Qed.

(** ** The tables of payments and their statements *)

Section PaymentOps.
Context `{UU : UUID}.

(** ** Rows *)

Record OperationRow := {
  op_fingerprint : string;
  op_order_id : uuid;
  op_buyer_id : uuid;
  op_request_amount : Z;
  op_request_currency : string;
  op_payment_method_ref : string;
  op_settlement_digest : option string;
  op_status : option string;
  op_fact_id : option uuid;
  op_occurred_at : time;
  op_lease_until : time;
  op_provider_payment_ref : option string;
  op_provider_charge_ref : option string;
  op_provider_state : option string;
  op_authorized_amount : option Z;
  op_captured_amount : option Z;
  op_confirmed_captured_amount : option Z;
  op_confirmed_currency : option string;
}.

Record CompensationRow := {
  co_provider_key : string;
  co_status : option string;
  co_provider_ref : option string;
  co_fact_id : option uuid;
  co_amount : Z;
  co_currency : string;
  co_bound_at : time;
  co_confirmed_amount : option Z;
  co_confirmed_currency : option string;
}.

Record LegRow := {
  lg_provider_key : string;
  lg_amount : Z;
  lg_currency : string;
  lg_status : string;
  lg_provider_ref : option string;
  lg_fact_id : option uuid;
  lg_bound_at : time;
  lg_confirmed_amount : option Z;
  lg_confirmed_currency : option string;
}.

(** A charge is an organizer and an idempotency key. *)
Definition charge_key : Type := uuid * string.

Record PaymentDB := {
  db_operations : gmap charge_key OperationRow;
  db_compensations : gmap (charge_key * string) CompensationRow;
  db_legs : gmap (charge_key * string) LegRow;
}.

Definition no_payments : PaymentDB := {| db_operations := ∅; db_compensations := ∅; db_legs := ∅ |}.

Definition set_operation (c : charge_key) (r : OperationRow) (db : PaymentDB) : PaymentDB := {|
  db_operations := <[c := r]> (db_operations db);
  db_compensations := db_compensations db; db_legs := db_legs db |}.
Definition set_compensation (c : charge_key) (kind : string) (r : CompensationRow) (db : PaymentDB) : PaymentDB := {|
  db_operations := db_operations db;
  db_compensations := <[(c, kind) := r]> (db_compensations db); db_legs := db_legs db |}.
Definition set_leg (c : charge_key) (key : string) (r : LegRow) (db : PaymentDB) : PaymentDB := {|
  db_operations := db_operations db; db_compensations := db_compensations db;
  db_legs := <[(c, key) := r]> (db_legs db) |}.

(** The legs bound against one charge. *)
Definition legs_of (c : charge_key) (db : PaymentDB) : list LegRow :=
  map snd (List.filter (λ kv, bool_decide (kv.1.1 = c)) (map_to_list (db_legs db))).
Definition refunded_sum (c : charge_key) (db : PaymentDB) : Z := sumZ (map lg_amount (legs_of c db)).

Inductive PaymentError :=
| ErrNoRows
| ErrDatabase
| Refused (msg : string)
| ErrRefundExceedsCapture
| ErrWholeRefundBound
| ErrRefundLegsBound
| ErrOperationNotCompleted
| ErrCompensationNotCompleted
| ErrRefundLegNotCompleted.

(** ** arithmetic.go *)

Definition checkedAddMoney (a b : Z) : option Z :=
  if (a <? 0) || (b <? 0) then None
  else if a >? sub64 MaxInt64 b then None
  else Some (add64 a b).

(** ** Values of the Go API *)

Record OperationRequest := {
  rq_OrderID : uuid;
  rq_BuyerID : uuid;
  rq_Amount : Z;
  rq_Currency : string;
  rq_PaymentMethodRef : string;
  rq_SettlementDigest : string;
}.

Record ProviderResult := {
  pv_PaymentRef : string;
  pv_ChargeRef : string;
  pv_State : string;
  pv_AuthorizedAmount : Z;
  pv_CapturedAmount : Z;
  pv_ConfirmedCapturedAmount : option Z;
  pv_ConfirmedCurrency : string;
}.

Record ConfirmedRefund := { cf_Amount : Z; cf_Currency : string }.

(** SQL's [NULLIF(x,'')] and [COALESCE(a,b)]. *)
Definition nullif (s : string) : option string := if bool_decide (s = ""%string) then None else Some s.
Definition coalesce {A} (a b : option A) : option A := match a with Some x => Some x | None => b end.

(** [t.Truncate(time.Microsecond)]. *)
Definition truncate_us (t : time) : time := t - t `mod` 1000.

(** [CHECK (... IS NULL AND ... IS NULL OR ... NOT NULL AND ... NOT NULL)], with
    the checks on the two columns. *)
Definition paired_money (amount : option Z) (currency : option string) : bool :=
  match amount, currency with
  | None, None => true
  | Some a, Some c => (0 <=? a) && isISOCurrency c
  | _, _ => false
  end.

Definition nonneg (o : option Z) : bool := match o with Some a => 0 <=? a | None => true end.

Definition operation_checks (r : OperationRow) : bool :=
  (0 <=? op_request_amount r) && isISOCurrency (op_request_currency r) &&
  nonneg (op_authorized_amount r) && nonneg (op_captured_amount r) &&
  paired_money (op_confirmed_captured_amount r) (op_confirmed_currency r).

Definition lease : Z := 30000000000.

(** ** Operations *)

Definition fresh_operation (now : time) (fingerprint : string) (req : OperationRequest) : OperationRow := {|
  op_fingerprint := fingerprint; op_order_id := rq_OrderID req; op_buyer_id := rq_BuyerID req;
  op_request_amount := rq_Amount req; op_request_currency := rq_Currency req;
  op_payment_method_ref := rq_PaymentMethodRef req;
  op_settlement_digest := nullif (rq_SettlementDigest req);
  op_status := None; op_fact_id := None; op_occurred_at := now; op_lease_until := now + lease;
  op_provider_payment_ref := None; op_provider_charge_ref := None; op_provider_state := None;
  op_authorized_amount := None; op_captured_amount := None;
  op_confirmed_captured_amount := None; op_confirmed_currency := None |}.

(** The [UPDATE] that renews an expired lease and adopts a missing digest. *)
Definition retake (now : time) (digest : string) (r : OperationRow) : OperationRow := {|
  op_fingerprint := op_fingerprint r; op_order_id := op_order_id r; op_buyer_id := op_buyer_id r;
  op_request_amount := op_request_amount r; op_request_currency := op_request_currency r;
  op_payment_method_ref := op_payment_method_ref r;
  op_settlement_digest := coalesce (op_settlement_digest r) (nullif digest);
  op_status := op_status r; op_fact_id := op_fact_id r; op_occurred_at := op_occurred_at r;
  op_lease_until := now + lease;
  op_provider_payment_ref := op_provider_payment_ref r; op_provider_charge_ref := op_provider_charge_ref r;
  op_provider_state := op_provider_state r; op_authorized_amount := op_authorized_amount r;
  op_captured_amount := op_captured_amount r;
  op_confirmed_captured_amount := op_confirmed_captured_amount r;
  op_confirmed_currency := op_confirmed_currency r |}.

Record Bound := { bd_Status : string; bd_FactID : uuid; bd_OccurredAt : time; bd_Replay : bool }.

Definition bound_answer (r : OperationRow) : Bound := {|
  bd_Status := default ""%string (op_status r); bd_FactID := default uuid_Nil (op_fact_id r);
  bd_OccurredAt := truncate_us (op_occurred_at r);
  bd_Replay := match op_status r with Some _ => true | None => false end |}.

(** The statements of [BindOperation]: [INSERT ... ON CONFLICT DO NOTHING], and
    the guarded [UPDATE] that takes an expired lease. Each answers the rows it
    affected. *)
Definition insertOperation (now : time) (c : charge_key) (fingerprint : string) (req : OperationRequest)
    (db : PaymentDB) : result PaymentError (PaymentDB * bool) :=
  let fresh := fresh_operation now fingerprint req in
  if negb (operation_checks fresh) then Err ErrDatabase
  else
    match db_operations db !! c with
    | None => Ok (set_operation c fresh db, true)
    | Some _ => Ok (db, false)
    end.

Definition takeLease (now : time) (c : charge_key) (digest : string) (db : PaymentDB) : PaymentDB * bool :=
  match db_operations db !! c with
  | None => (db, false)
  | Some r =>
      if match op_status r with None => true | Some _ => false end && (op_lease_until r <=? now)
      then (set_operation c (retake now digest r) db, true)
      else (db, false)
  end.

Record Operation := {
  Op_Status : string;
  Op_FactID : uuid;
  Op_OccurredAt : time;
  Op_Resolved : bool;
  Op_RequestFingerprint : string;
  Op_OrderID : uuid;
  Op_BuyerID : uuid;
  Op_RequestAmount : Z;
  Op_RequestCurrency : string;
  Op_PaymentMethodRef : string;
  Op_ProviderPaymentRef : string;
  Op_ProviderChargeRef : string;
  Op_ProviderState : string;
  Op_AuthorizedAmount : Z;
  Op_CapturedAmount : Z;
  Op_ConfirmedCapturedAmount : option Z;
  Op_ConfirmedCurrency : string;
}.

Definition read_operation (r : OperationRow) : Operation := {|
  Op_Status := default ""%string (op_status r); Op_FactID := default uuid_Nil (op_fact_id r);
  Op_OccurredAt := truncate_us (op_occurred_at r);
  Op_Resolved := match op_status r with Some _ => true | None => false end;
  Op_RequestFingerprint := op_fingerprint r; Op_OrderID := op_order_id r; Op_BuyerID := op_buyer_id r;
  Op_RequestAmount := op_request_amount r; Op_RequestCurrency := op_request_currency r;
  Op_PaymentMethodRef := op_payment_method_ref r;
  Op_ProviderPaymentRef := default ""%string (op_provider_payment_ref r);
  Op_ProviderChargeRef := default ""%string (op_provider_charge_ref r);
  Op_ProviderState := default ""%string (op_provider_state r);
  Op_AuthorizedAmount := default 0 (op_authorized_amount r);
  Op_CapturedAmount := default 0 (op_captured_amount r);
  Op_ConfirmedCapturedAmount := op_confirmed_captured_amount r;
  Op_ConfirmedCurrency := default ""%string (op_confirmed_currency r) |}.

Definition LookupOperation (c : charge_key) (db : PaymentDB) : option Operation :=
  read_operation <$> db_operations db !! c.

(** The guarded [UPDATE] of [CompleteOperation]. *)
Definition resolve (status : string) (factID : uuid) (p : ProviderResult) (r : OperationRow) : OperationRow := {|
  op_fingerprint := op_fingerprint r; op_order_id := op_order_id r; op_buyer_id := op_buyer_id r;
  op_request_amount := op_request_amount r; op_request_currency := op_request_currency r;
  op_payment_method_ref := op_payment_method_ref r; op_settlement_digest := op_settlement_digest r;
  op_status := Some status; op_fact_id := Some factID;
  op_occurred_at := op_occurred_at r; op_lease_until := op_lease_until r;
  op_provider_payment_ref := nullif (pv_PaymentRef p); op_provider_charge_ref := nullif (pv_ChargeRef p);
  op_provider_state := nullif (pv_State p);
  op_authorized_amount := Some (pv_AuthorizedAmount p); op_captured_amount := Some (pv_CapturedAmount p);
  op_confirmed_captured_amount := pv_ConfirmedCapturedAmount p;
  op_confirmed_currency := nullif (pv_ConfirmedCurrency p) |}.

Definition resolveOperation (c : charge_key) (status : string) (factID : uuid) (p : ProviderResult)
    (db : PaymentDB) : result PaymentError (PaymentDB * bool) :=
  match db_operations db !! c with
  | None => Ok (db, false)
  | Some r =>
      match op_status r with
      | Some _ => Ok (db, false)
      | None =>
          let r' := resolve status factID p r in
          if operation_checks r' then Ok (set_operation c r' db, true) else Err ErrDatabase
      end
  end.

(** The [WHERE] clause of [RecordProviderState]. *)
Definition may_record (state : string) (r : OperationRow) : bool :=
  match op_provider_state r with
  | None => true
  | Some s => bool_decide (s = "authorized"%string) || bool_decide (s = state)
  end.

Definition observe (p : ProviderResult) (r : OperationRow) : OperationRow := {|
  op_fingerprint := op_fingerprint r; op_order_id := op_order_id r; op_buyer_id := op_buyer_id r;
  op_request_amount := op_request_amount r; op_request_currency := op_request_currency r;
  op_payment_method_ref := op_payment_method_ref r; op_settlement_digest := op_settlement_digest r;
  op_status := op_status r; op_fact_id := op_fact_id r;
  op_occurred_at := op_occurred_at r; op_lease_until := op_lease_until r;
  op_provider_payment_ref := coalesce (nullif (pv_PaymentRef p)) (op_provider_payment_ref r);
  op_provider_charge_ref := coalesce (nullif (pv_ChargeRef p)) (op_provider_charge_ref r);
  op_provider_state := nullif (pv_State p);
  op_authorized_amount := Some (pv_AuthorizedAmount p); op_captured_amount := Some (pv_CapturedAmount p);
  op_confirmed_captured_amount := coalesce (pv_ConfirmedCapturedAmount p) (op_confirmed_captured_amount r);
  op_confirmed_currency := coalesce (nullif (pv_ConfirmedCurrency p)) (op_confirmed_currency r) |}.

Definition RecordProviderState (c : charge_key) (p : ProviderResult) (db : PaymentDB)
    : result PaymentError (PaymentDB * bool) :=
  match db_operations db !! c with
  | None => Ok (db, false)
  | Some r =>
      if may_record (pv_State p) r then
        let r' := observe p r in
        if operation_checks r' then Ok (set_operation c r' db, true) else Err ErrDatabase
      else Ok (db, false)
  end.

(** ** Whole compensations *)

Definition NUL : string := String (Ascii.ascii_of_nat 0) "".

Definition CompensationKey (c : charge_key) (kind : string) : string :=
  "psp-comp-v1:" +:+ Hex (Sum256 (uuid_String c.1 +:+ NUL +:+ c.2 +:+ NUL +:+ kind)).

Definition RefundLegKey (c : charge_key) (refundKey : string) : string :=
  "psp-refund-leg-v1:" +:+ Hex (Sum256 (uuid_String c.1 +:+ NUL +:+ c.2 +:+ NUL +:+ refundKey)).

Definition compensation_checks (kind : string) (r : CompensationRow) : bool :=
  (bool_decide (kind = "void"%string) || bool_decide (kind = "refund"%string)) &&
  (0 <=? co_amount r) && isISOCurrency (co_currency r) &&
  match co_confirmed_amount r, co_confirmed_currency r with
  | None, None => true
  | Some a, Some cur => (0 <? a) && isISOCurrency cur
  | _, _ => false
  end.

Definition fresh_compensation (now : time) (c : charge_key) (kind : string) (amount : Z) (currency : string)
    : CompensationRow := {|
  co_provider_key := CompensationKey c kind; co_status := None; co_provider_ref := None; co_fact_id := None;
  co_amount := amount; co_currency := currency; co_bound_at := now;
  co_confirmed_amount := None; co_confirmed_currency := None |}.

Definition BindCompensation (now : time) (c : charge_key) (kind : string) (amount : Z) (currency : string)
    (db : PaymentDB) : result PaymentError (PaymentDB * CompensationRow) :=
  match db_operations db !! c with
  | None => Err ErrNoRows
  | Some _ =>
      match db_compensations db !! (c, kind) with
      | Some r => Ok (db, r)
      | None =>
          if bool_decide (kind = "refund"%string) && negb (bool_decide (length (legs_of c db) = 0%nat))
          then Err ErrRefundLegsBound
          else
            let r := fresh_compensation now c kind amount currency in
            if compensation_checks kind r then Ok (set_compensation c kind r db, r) else Err ErrDatabase
      end
  end.

Definition complete_compensation (status providerRef : string) (factID : uuid)
    (confirmed : option (Z * string)) (r : CompensationRow) : CompensationRow := {|
  co_provider_key := co_provider_key r; co_status := Some status; co_provider_ref := nullif providerRef;
  co_fact_id := Some factID; co_amount := co_amount r; co_currency := co_currency r;
  co_bound_at := co_bound_at r; co_confirmed_amount := fst <$> confirmed;
  co_confirmed_currency := snd <$> confirmed |}.

(** What the [switch kind] of [CompleteCompensation] stores, or its refusal. *)
Definition confirmed_columns (kind : string) (confirmed : ConfirmedRefund)
    : result PaymentError (option (Z * string)) :=
  if bool_decide (kind = "refund"%string) then
    if (cf_Amount confirmed <=? 0) || negb (isISOCurrency (cf_Currency confirmed))
    then Err ErrCompensationNotCompleted
    else Ok (Some (cf_Amount confirmed, cf_Currency confirmed))
  else if bool_decide (kind = "void"%string) then
    if (cf_Amount confirmed =? 0) && bool_decide (cf_Currency confirmed = ""%string) then Ok None
    else Err ErrCompensationNotCompleted
  else Err ErrCompensationNotCompleted.

Definition resolveCompensation (c : charge_key) (kind status providerRef : string) (factID : uuid)
    (columns : option (Z * string)) (db : PaymentDB) : PaymentDB * bool :=
  match db_compensations db !! (c, kind) with
  | None => (db, false)
  | Some r =>
      match co_status r with
      | Some _ => (db, false)
      | None => (set_compensation c kind (complete_compensation status providerRef factID columns r) db, true)
      end
  end.

Definition RecordCompensationProviderRef (c : charge_key) (kind providerRef : string) (db : PaymentDB)
    : PaymentDB :=
  match db_compensations db !! (c, kind) with
  | Some r =>
      match co_status r with
      | None => set_compensation c kind {|
          co_provider_key := co_provider_key r; co_status := None; co_provider_ref := Some providerRef;
          co_fact_id := co_fact_id r; co_amount := co_amount r; co_currency := co_currency r;
          co_bound_at := co_bound_at r; co_confirmed_amount := co_confirmed_amount r;
          co_confirmed_currency := co_confirmed_currency r |} db
      | Some _ => db
      end
  | None => db
  end.

(** ** Refund legs *)

Definition fresh_leg (now : time) (c : charge_key) (refundKey : string) (amount : Z) (currency : string)
    : LegRow := {|
  lg_provider_key := RefundLegKey c refundKey; lg_amount := amount; lg_currency := currency;
  lg_status := "bound"; lg_provider_ref := None; lg_fact_id := None; lg_bound_at := now;
  lg_confirmed_amount := None; lg_confirmed_currency := None |}.

(** [UNIQUE (organizer_id, provider_idempotency_key)] and the leg's checks. *)
Definition leg_insertable (c : charge_key) (r : LegRow) (db : PaymentDB) : bool :=
  (0 <? lg_amount r) && isISOCurrency (lg_currency r) &&
  forallb (λ kv, negb (bool_decide (kv.1.1.1 = c.1 ∧ lg_provider_key kv.2 = lg_provider_key r)))
    (map_to_list (db_legs db)).

Definition BindRefundLeg (now : time) (c : charge_key) (refundKey : string) (amount : Z) (currency : string)
    (db : PaymentDB) : result PaymentError (PaymentDB * LegRow) :=
  if amount <=? 0 then Err (Refused "refund amount must be positive")
  else
  match db_operations db !! c with
  | None => Err ErrNoRows
  | Some op =>
  match db_legs db !! (c, refundKey) with
  | Some leg => Ok (db, leg)
  | None =>
      if negb (bool_decide (default ""%string (op_provider_state op) = "captured"%string)) ||
         (default 0 (op_captured_amount op) <=? 0)
      then Err (Refused "refund requires captured money")
      else if negb (bool_decide (op_request_currency op = currency))
      then Err (Refused "refund currency does not match the captured currency")
      else if match db_compensations db !! (c, "refund"%string) with Some _ => true | None => false end
      then Err ErrWholeRefundBound
      else if refunded_sum c db >? MaxInt64 then Err ErrDatabase
      else
        match checkedAddMoney (refunded_sum c db) amount with
        | None => Err ErrRefundExceedsCapture
        | Some total =>
            if total >? default 0 (op_captured_amount op) then Err ErrRefundExceedsCapture
            else
              let leg := fresh_leg now c refundKey amount currency in
              if leg_insertable c leg db then Ok (set_leg c refundKey leg db, leg) else Err ErrDatabase
        end
  end end.

Definition complete_leg (providerRef : string) (factID : uuid) (confirmed : ConfirmedRefund) (r : LegRow)
    : LegRow := {|
  lg_provider_key := lg_provider_key r; lg_amount := lg_amount r; lg_currency := lg_currency r;
  lg_status := "refunded"; lg_provider_ref := nullif providerRef; lg_fact_id := Some factID;
  lg_bound_at := lg_bound_at r; lg_confirmed_amount := Some (cf_Amount confirmed);
  lg_confirmed_currency := Some (cf_Currency confirmed) |}.

(** [fact_id uuid UNIQUE], over every leg but the one updated. *)
Definition fact_unused (c : charge_key) (refundKey : string) (factID : uuid) (db : PaymentDB) : bool :=
  forallb (λ kv, bool_decide (kv.1 = (c, refundKey)) || negb (bool_decide (lg_fact_id kv.2 = Some factID)))
    (map_to_list (db_legs db)).

Definition resolveLeg (c : charge_key) (refundKey providerRef : string) (factID : uuid)
    (confirmed : ConfirmedRefund) (db : PaymentDB) : result PaymentError (PaymentDB * bool) :=
  match db_legs db !! (c, refundKey) with
  | None => Ok (db, false)
  | Some r =>
      if bool_decide (lg_status r = "bound"%string) then
        if (0 <? cf_Amount confirmed) && isISOCurrency (cf_Currency confirmed) && fact_unused c refundKey factID db
        then Ok (set_leg c refundKey (complete_leg providerRef factID confirmed r) db, true)
        else Err ErrDatabase
      else Ok (db, false)
  end.

(** ** Lemmas on the tables *)

Lemma checkedAddMoney_Some a b t : 0 ≤ a ≤ MaxInt64 → int64 b →
  checkedAddMoney a b = Some t ↔ 0 ≤ b ∧ a + b ≤ MaxInt64 ∧ t = a + b.
Proof.
  intros Ha Hb. unfold checkedAddMoney. destruct ((a <? 0) || (b <? 0)) eqn:E; zbool.
  { split; [done|]. intros. destruct E; zbool; lia. }
  rewrite sub64_id, Z.gtb_ltb by (unfold int64, MinInt64 in *; lia).
  destruct (Z.ltb_spec (MaxInt64 - b) a); [split; [done|lia]|].
  rewrite add64_id by (apply int64_nonneg; lia). naive_solver lia.
Qed.

Definition leg_list (c : charge_key) (l : list ((charge_key * string) * LegRow)) : list LegRow :=
  map snd (List.filter (λ kv, bool_decide (kv.1.1 = c)) l).

#[export] Instance leg_list_Permutation c : Proper (Permutation ==> Permutation) (leg_list c).
Proof. intros l1 l2 Hp. unfold leg_list. by rewrite Hp. Qed.

Lemma legs_of_fresh c c' k leg db :
  db_legs db !! (c, k) = None →
  legs_of c' (set_leg c k leg db) ≡ₚ (if bool_decide (c = c') then [leg] else []) ++ legs_of c' db.
Proof.
  intros Hn. unfold legs_of, set_leg; cbn [db_legs].
  change (map snd (List.filter _ ?l)) with (leg_list c' l).
  rewrite (map_to_list_insert _ _ _ Hn). unfold leg_list; cbn. by case_bool_decide.
Qed.

Lemma legs_of_update c c' k old leg db :
  db_legs db !! (c, k) = Some old → lg_amount leg = lg_amount old →
  map lg_amount (legs_of c' (set_leg c k leg db)) ≡ₚ map lg_amount (legs_of c' db).
Proof.
  intros Ho Ha. unfold legs_of, set_leg; cbn [db_legs].
  change (map snd (List.filter _ ?l)) with (leg_list c' l).
  assert (Hd : delete (c, k) (db_legs db) !! (c, k) = None) by apply lookup_delete_eq.
  rewrite <-insert_delete_eq, (map_to_list_insert _ _ _ Hd).
  rewrite <-(insert_delete_id (db_legs db) (c, k) old Ho) at 2.
  rewrite (map_to_list_insert _ _ _ Hd). unfold leg_list; cbn. case_bool_decide; cbn; [|done]. by rewrite Ha.
Qed.

Lemma elem_of_legs_of c db leg : leg ∈ legs_of c db ↔ ∃ k, db_legs db !! (c, k) = Some leg.
Proof.
  unfold legs_of. rewrite list_elem_of_In, List.in_map_iff. setoid_rewrite <-list_elem_of_In.
  setoid_rewrite elem_of_bool_filter. setoid_rewrite bool_decide_eq_true. split.
  - intros ([[c' k] x] & <- & Hin & Hc). cbn in Hc. subst. exists k. by apply elem_of_map_to_list.
  - intros [k Hk]. exists ((c, k), leg). split_and!; [done|by apply elem_of_map_to_list|done].
Qed.

Lemma refunded_sum_fresh c c' k leg db :
  db_legs db !! (c, k) = None →
  refunded_sum c' (set_leg c k leg db) =
  (if bool_decide (c = c') then lg_amount leg else 0) + refunded_sum c' db.
Proof.
  intros Hn. unfold refunded_sum. rewrite (legs_of_fresh c c' k leg db Hn).
  case_bool_decide; cbn; lia.
Qed.

Lemma refunded_sum_update c c' k old leg db :
  db_legs db !! (c, k) = Some old → lg_amount leg = lg_amount old →
  refunded_sum c' (set_leg c k leg db) = refunded_sum c' db.
Proof. intros Ho Ha. unfold refunded_sum. by rewrite (legs_of_update c c' k old leg db Ho Ha). Qed.

(** What [BindRefundLeg] did when it succeeded. *)
Lemma BindRefundLeg_Ok now c k amount cur db db' leg :
  int64 amount → 0 ≤ refunded_sum c db →
  BindRefundLeg now c k amount cur db = Ok (db', leg) →
  0 < amount ∧ (db_legs db !! (c, k) = Some leg ∧ db' = db ∨
  ∃ op, db_operations db !! c = Some op ∧ db_legs db !! (c, k) = None ∧
    op_provider_state op = Some "captured"%string ∧ op_request_currency op = cur ∧
    db_compensations db !! (c, "refund"%string) = None ∧
    refunded_sum c db + amount ≤ default 0 (op_captured_amount op) ∧
    leg = fresh_leg now c k amount cur ∧ db' = set_leg c k leg db).
Proof.
  intros Hamt H0. unfold BindRefundLeg. destruct (Z.leb_spec amount 0); [done|].
  destruct (db_operations db !! c) as [op|] eqn:Hop; [|done].
  destruct (db_legs db !! (c, k)) as [old|] eqn:Hleg; [intros [= <- <-]; auto|].
  destruct (_ || _) eqn:Estate; [done|]. zbool.
  destruct (bool_decide (op_request_currency op = cur)) eqn:Ecur; cbn [negb]; [|done]. zbool.
  destruct (db_compensations db !! (c, "refund"%string)) eqn:Ecomp; [done|].
  destruct (refunded_sum c db >? MaxInt64) eqn:Esum; [done|]. zbool.
  destruct (checkedAddMoney (refunded_sum c db) amount) as [t|] eqn:Eadd; [|done].
  apply checkedAddMoney_Some in Eadd as (_ & _ & ->); [|lia|done].
  destruct (_ >? default 0 _) eqn:Eceil; [done|]. zbool.
  destruct (leg_insertable _ _ _); [|done]. intros [= <- <-]. split; [done|]. right.
  exists op. split_and!; try done.
  destruct (op_provider_state op); cbn in *; [by f_equal|done].
Qed.
End PaymentOps.
