(* ===== verification/Prog.v ===== *)
(** * Handlers as programs, and what holds in every interleaving

    A request handler is a program of atomic statements on the database and
    calls to an outside party, run beside other handlers. [prog] is its shape,
    [run] its execution alone with scripted answers, [sys_step] the execution of
    any number of them with crashes, and [wp] the rely-guarantee condition that
    makes an invariant hold whatever the interleaving. *)

From S2P Require Import Prelude.

Section Prog.
Context {W Q R : Type}.

Inductive prog (A : Type) : Type :=
| Ret (a : A)
| Stmt (X : Type) (f : W → W * X) (k : X → prog A)
| Ask (q : Q) (k : R → prog A).
#[global] Arguments Ret {A} a.
#[global] Arguments Stmt {A X} f k.
#[global] Arguments Ask {A} q k.

Fixpoint pbind {A B} (p : prog A) (k : A → prog B) : prog B :=
  match p with
  | Ret a => k a
  | Stmt f c => Stmt f (λ x, pbind (c x) k)
  | Ask q c => Ask q (λ r, pbind (c r) k)
  end.

#[global] Instance prog_ret : MRet prog := @Ret.
#[global] Instance prog_bind : MBind prog := λ A B k p, pbind p k.

(** One statement, and one call. *)
Definition stmt {X} (f : W → W * X) : prog X := Stmt f Ret.
Definition query {X} (f : W → X) : prog X := Stmt (λ w, (w, f w)) Ret.
Definition ask (q : Q) : prog R := Ask q Ret.

(** Alone, with the outside party answering from a script; [None] when the
    script is too short. The queries asked are returned with the state. *)
Fixpoint run {A} (p : prog A) (script : list R) (w : W) : option (W * A * list Q) :=
  match p with
  | Ret a => Some (w, a, [])
  | Stmt f k => let '(w', x) := f w in run (k x) script w'
  | Ask q k =>
      match script with
      | [] => None
      | r :: script' => (λ o, (o.1, q :: o.2)) <$> run (k r) script' w
      end
  end.

(** ** Many handlers at once *)

Context {A : Type} (handler : prog A → Prop) (answers : Q → R → Prop) (environment : W → W → Prop).

Definition system : Type := W * list (prog A).

Inductive sys_step : system → system → Prop :=
| sys_start w ts p : handler p → sys_step (w, ts) (w, ts ++ [p])
| sys_stmt w ts i X (f : W → W * X) k :
    ts !! i = Some (Stmt f k) → sys_step (w, ts) ((f w).1, <[i := k (f w).2]> ts)
| sys_ask w ts i q k r :
    ts !! i = Some (Ask q k) → answers q r → sys_step (w, ts) (w, <[i := k r]> ts)
| sys_crash w ts i : sys_step (w, ts) (w, delete i ts)
| sys_environment w w' ts : environment w w' → sys_step (w, ts) (w', ts).

Definition reachable (w0 : W) (s : system) : Prop := rtc sys_step (w0, []) s.

Lemma steps_of_run (p : prog A) script w w' a qs ts :
  run p script w = Some (w', a, qs) → Forall2 answers qs (take (length qs) script) →
  rtc sys_step (w, ts ++ [p]) (w', ts ++ [Ret a]).
Proof.
  assert (Hi : ∀ q : prog A, (ts ++ [q]) !! length ts = Some q) by (intros; by apply list_lookup_middle).
  assert (Hset : ∀ q q' : prog A, <[length ts := q']> (ts ++ [q]) = ts ++ [q']).
  { intros q q'. pose proof (insert_app_r ts [q] 0 q') as H. rewrite Nat.add_0_r in H. exact H. }
  revert script w qs. induction p as [b|X f k IH|q k IH]; intros script w qs; cbn.
  - intros [= <- <- <-] _. constructor.
  - destruct (f w) as [w1 x] eqn:Ef. intros Hr Ha. eapply rtc_l; [|by eapply (IH x)].
    pose proof (sys_stmt w (ts ++ [Stmt f k]) (length ts) X f k (Hi _)) as Hs. by rewrite Hset, Ef in Hs.
  - destruct script as [|r script]; [done|].
    destruct (run (k r) script w) as [[[w1 b] qs1]|] eqn:Er; [|done]. intros [= <- <- <-] Ha. cbn in Ha.
    apply Forall2_cons_1 in Ha as [Hq Ha]. eapply rtc_l; [|by eapply (IH r)].
    pose proof (sys_ask w (ts ++ [Ask q k]) (length ts) q k r (Hi _) Hq) as Hs. by rewrite Hset in Hs.
Qed.

(** A handler run alone is one of the system's executions. *)
Lemma reachable_run w0 w ts p script w' a qs :
  reachable w0 (w, ts) → handler p → run p script w = Some (w', a, qs) →
  Forall2 answers qs (take (length qs) script) → reachable w0 (w', ts ++ [Ret a]).
Proof.
  unfold reachable. intros Hr Hp Hrun Ha. etrans; [exact Hr|]. eapply rtc_l; [by apply sys_start|]. by eapply steps_of_run.
Qed.

(** ** The rely-guarantee condition *)

Section WP.
Context (inv : W → Prop) (evolves : W → W → Prop) `{!PreOrder evolves}.

(** Whatever others did before it, every statement keeps the invariant and
    only does what others may rely on. *)
Fixpoint wp {B} (p : prog B) (post : B → W → Prop) (w : W) : Prop :=
  match p with
  | Ret a => post a w
  | Stmt f k => ∀ w', evolves w w' → inv w' →
      inv (f w').1 ∧ evolves w' (f w').1 ∧ wp (k (f w').2) post (f w').1
  | Ask q k => ∀ w' r, evolves w w' → inv w' → answers q r → wp (k r) post w'
  end.

(** Postconditions that survive the others' steps. *)
Definition stable (P : W → Prop) : Prop := ∀ w w', evolves w w' → P w → P w'.

Lemma wp_stable {B} (p : prog B) post :
  (∀ b, stable (post b)) → stable (wp p post).
Proof.
  intros Hpost w w' He. destruct p as [b|X f k|q k]; cbn.
  - by apply Hpost.
  - intros H w2 He2. apply H. by etrans.
  - intros H w2 r He2. apply H. by etrans.
Qed.

Lemma wp_mono {B} (p : prog B) (post post' : B → W → Prop) w :
  (∀ b w', post b w' → post' b w') → wp p post w → wp p post' w.
Proof.
  intros Hp. revert w. induction p as [b|X f k IH|q k IH]; intros w; cbn; [auto|..].
  - intros H w' He Hi. destruct (H w' He Hi) as (? & ? & ?). auto.
  - intros H w' r He Hi Ha. apply IH. by apply H.
Qed.

Lemma wp_bind {B C} (p : prog B) (k : B → prog C) post w :
  wp p (λ b w', wp (k b) post w') w → wp (p ≫= k) post w.
Proof.
  change (p ≫= k) with (pbind p k). revert w. induction p as [b|X f c IH|q c IH]; intros w; cbn; [done|..].
  - intros H w' He Hi. destruct (H w' He Hi) as (? & ? & ?). auto.
  - intros H w' r He Hi Ha. apply IH. by apply H.
Qed.

Lemma wp_stmt {X} (f : W → W * X) post w :
  (∀ w', evolves w w' → inv w' → inv (f w').1 ∧ evolves w' (f w').1 ∧ post (f w').2 (f w').1) →
  wp (stmt f) post w.
Proof. done. Qed.

Lemma wp_query {X} (f : W → X) post w :
  (∀ w', evolves w w' → inv w' → post (f w') w') → wp (query f) post w.
Proof. intros H w' He Hi. cbn. split; [done|]. split; [done|]. auto. Qed.

Lemma wp_ask q post w :
  (∀ w' r, evolves w w' → inv w' → answers q r → post r w') → wp (ask q) post w.
Proof. done. Qed.

(** Every handler meets the condition from every state of the invariant, so
    the invariant holds in every reachable state. *)
Lemma invariant_of_wp w0 s :
  (∀ p w, handler p → inv w → wp p (λ _ _, True) w) →
  (∀ w w', environment w w' → inv w → inv w' ∧ evolves w w') →
  inv w0 → reachable w0 s → inv s.1.
Proof.
  intros Hh Henv H0 Hr.
  assert (Hs : stable (λ w, True)) by done.
  set (good := λ s : system, inv s.1 ∧ Forall (λ p, wp p (λ _ _, True) s.1) s.2).
  assert (Hgood : good (w0, [])) by (split; [done|constructor]).
  revert Hgood. unfold reachable in Hr. clear H0. induction Hr as [s|s1 s2 s3 Hstep _ IH]; [by intros []|].
  intros [Hi Hall]. apply IH.
  assert (Hmove : ∀ w w' ts, evolves w w' → Forall (λ p, wp p (λ _ _, True) w) ts →
    Forall (λ p : prog A, wp p (λ _ _, True) w') ts).
  { intros w w' ts He. apply List.Forall_impl. intros p. by apply (wp_stable p (λ _ _, True)). }
  destruct Hstep as [w ts p Hp|w ts i X f k Hi'|w ts i q k r Hi' Ha|w ts i|w w' ts He]; cbn in *.
  - split; cbn; [done|]. apply Forall_app. split; [done|]. constructor; [by apply Hh|done].
  - pose proof (Forall_lookup_1 _ _ _ _ Hall Hi') as Hw. cbn in Hw.
    destruct (Hw w ltac:(done) Hi) as (H1 & H2 & H3).
    split; cbn; [done|]. apply Forall_insert; [by apply (Hmove w)|done].
  - pose proof (Forall_lookup_1 _ _ _ _ Hall Hi') as Hw. cbn in Hw.
    split; cbn; [done|]. apply Forall_insert; [done|]. by apply Hw.
  - split; cbn; [done|]. by apply Forall_delete.
  - destruct (Henv w w' He Hi) as [H1 H2]. split; cbn; [done|]. by apply (Hmove w).
Qed.
End WP.
End Prog.
Arguments prog : clear implicits.
