(* ===== verification/PaymentFlows.v ===== *)
(** * The payment handlers

    [services/payments/internal/api]: server.go, psp.go and partial_refund.go
    over the store. A handler is a program of database statements and provider
    calls, from the decoded request on; it answers a status code and a body. The
    statements are the store's; a method made of several autocommitted statements
    is a program of them, so that other handlers can run in between. A statement
    that fails for a reason outside the database's constraints is a crash of the
    handler. *)

From stdpp Require Import pretty.
From S2P Require Import Prelude Text Allocation Sha256 Settlement PaymentOps Format Keyring Journal Prog.
#[local] Open Scope Z_scope.

Section Flows.
Context `{UU : UUID}.

(** [uuid.NewSHA1(uuid.NameSpaceOID, ...)], of the uuid package. *)
Context (NewSHA1 : string → uuid).
(** The server's journal keyring and [StatusReplayRetention]. *)
Context (ring : Keyring) (retention : Z).

(** ** Handlers' decisions *)

(** [resolvedResult]: the answer of a locally resolved operation. *)
Definition stored_result (o : Outcome) (captured authorized terminal : bool) : Result := {|
  r_Outcome := o; r_Captured := captured; r_Authorized := authorized; r_TerminalNoSideEffect := terminal;
  r_ProviderRef := ""; r_ProviderChargeRef := ""; r_Confirmed := None |}.

Definition resolvedResult (op : Operation) : option Result :=
  if bool_decide (Op_Status op = "captured"%string) then Some (stored_result Captured true true false)
  else if bool_decide (Op_Status op = "declined"%string) then Some (stored_result Declined false false true)
  else if bool_decide (Op_Status op = "timeout"%string) then Some (stored_result Timeout false false true)
  else None.

Definition providerStateResult (op : Operation) : option Result :=
  if bool_decide (Op_ProviderState op = "authorized"%string) then Some (stored_result Authorized false true false)
  else if bool_decide (Op_ProviderState op = "captured"%string) then Some (stored_result Captured true true false)
  else if bool_decide (Op_ProviderState op = "declined"%string) then Some (stored_result Declined false false true)
  else if bool_decide (Op_ProviderState op = "timeout"%string) then Some (stored_result Timeout false false true)
  else if bool_decide (Op_ProviderState op = "voided"%string) then Some (stored_result Voided false false true)
  else None.

Definition statusReplayDeadline (op : Operation) (retention : Z) : option time :=
  if (retention <=? 0) || Op_Resolved op || negb (bool_decide (Op_ProviderPaymentRef op = ""%string))
  then None else Some (Op_OccurredAt op + retention).

Definition compensationAllowed (op : Operation) (kind : string) : result string unit :=
  if bool_decide (Op_OrderID op = uuid_Nil) || bool_decide (Op_BuyerID op = uuid_Nil) ||
     bool_decide (Op_RequestCurrency op = ""%string)
  then Err "operation carries no compensation evidence"%string
  else if bool_decide (kind = "void"%string) then
    if negb (bool_decide (Op_ProviderState op = "authorized"%string)) ||
       negb (Op_CapturedAmount op =? 0) || (Op_AuthorizedAmount op <=? 0)
    then Err "void requires an authorized, uncaptured operation"%string else Ok tt
  else if bool_decide (kind = "refund"%string) then
    if negb (bool_decide (Op_ProviderState op = "captured"%string)) || (Op_CapturedAmount op <=? 0)
    then Err "refund requires captured money"%string else Ok tt
  else Err "unknown compensation kind"%string.

Definition compensationBasis (op : Operation) (kind : string) : Z * string :=
  if bool_decide (kind = "void"%string) then (Op_AuthorizedAmount op, Op_RequestCurrency op)
  else (Op_CapturedAmount op, Op_RequestCurrency op).

Definition confirmed_of (r : Result) : option Z * string :=
  match r_Confirmed r with
  | Some m => (Some (cm_Amount m), cm_Currency m)
  | None => (None, ""%string)
  end.

Definition evidence (r : Result) (state : string) (authorized captured : Z) (confirmed : option Z * string)
    : ProviderResult := {|
  pv_PaymentRef := r_ProviderRef r; pv_ChargeRef := r_ProviderChargeRef r; pv_State := state;
  pv_AuthorizedAmount := authorized; pv_CapturedAmount := captured;
  pv_ConfirmedCapturedAmount := confirmed.1; pv_ConfirmedCurrency := confirmed.2 |}.

(** The charge handler's [switch result.Outcome]: the status an accepted answer
    completes the operation with, and its evidence. *)
Definition chargeEvidence (r : Result) (amount : Z) : option (string * ProviderResult) :=
  match r_Outcome r with
  | Captured => Some ("captured"%string, evidence r "captured" amount amount (confirmed_of r))
  | Declined => Some ("declined"%string, evidence r "declined" 0 0 (None, ""%string))
  | Timeout => Some ("timeout"%string, evidence r "timeout" 0 0 (None, ""%string))
  | _ => None
  end.

(** What a provider's status answer is worth as evidence. *)
Definition statusEvidence (r : Result) (op : Operation) : option ProviderResult :=
  match r_Outcome r with
  | Authorized => Some (evidence r "authorized" (Op_RequestAmount op) 0 (None, ""%string))
  | Captured => Some (evidence r "captured" (Op_RequestAmount op) (Op_RequestAmount op) (confirmed_of r))
  | Voided => Some (evidence r "voided" 0 0 (None, ""%string))
  | Declined => Some (evidence r "declined" 0 0 (None, ""%string))
  | Timeout => Some (evidence r "timeout" 0 0 (None, ""%string))
  | _ => None
  end.

Definition confirmedCapture (op : Operation) : option (Z * string) :=
  (λ a, (a, Op_ConfirmedCurrency op)) <$> Op_ConfirmedCapturedAmount op.

Definition confirmedCompensation (r : CompensationRow) : option (Z * string) :=
  (λ a, (a, default ""%string (co_confirmed_currency r))) <$> co_confirmed_amount r.

(** ** The world of a handler *)

Record World := { w_now : time; w_db : PaymentDB; w_journal : JournalDB }.

Definition with_db (w : World) (db : PaymentDB) : World :=
  {| w_now := w_now w; w_db := db; w_journal := w_journal w |}.
Definition with_journal (w : World) (j : JournalDB) : World :=
  {| w_now := w_now w; w_db := w_db w; w_journal := j |}.

Inductive Query :=
| QAuthorize (c : charge_key) (order buyer : uuid) (amount : Z) (currency token : string)
| QStatus (c : charge_key) (providerRef : string) (amount : Z) (currency token : string)
| QRefundStatus (providerRef : string)
| QVoid (providerRef idempotencyKey : string)
| QRefund (providerRef idempotencyKey : string) (amount : Z) (currency : string).

Inductive ProviderError := ErrInvalidToken | RefundFailed (ref : string) | ErrRefundPending | ProviderFailure.

(** A provider call returns a result and an error. *)
Definition ProviderAnswer : Type := Result * option ProviderError.

Inductive Body :=
| BodyError (msg : string)
| BodyCharge (status : string) (payment_id : uuid) (sequence : option Z) (replay : bool)
| BodyCompensation (status : string) (fact_id : uuid) (replay : bool)
| BodyLeg (status : string) (fact_id : uuid) (amount : Z) (currency : string) (replay : bool)
| BodyStatus (r : Result) (authorized captured : Z) (confirmed : option (Z * string))
| BodyFact (sequence : Z) (hash : string) (replay : bool).

Record Answer := { an_code : Z; an_body : Body }.

Definition answer (code : Z) (b : Body) : prog World Query ProviderAnswer Answer :=
  Ret {| an_code := code; an_body := b |}.
Definition refuse (code : Z) (msg : string) : prog World Query ProviderAnswer Answer :=
  answer code (BodyError msg).

(** [refused]: only a marked refusal may speak. *)
Definition refused (code : Z) (e : PaymentError) : prog World Query ProviderAnswer Answer :=
  match e with
  | Refused msg => refuse code msg
  | _ => refuse 500 "internal error"
  end.

(** A statement that can fail: an error leaves the database as it was. *)
Definition attempt {X} (f : time → PaymentDB → result PaymentError (PaymentDB * X)) (w : World)
    : World * result PaymentError X :=
  match f (w_now w) (w_db w) with
  | Ok (db, x) => (with_db w db, Ok x)
  | Err e => (w, Err e)
  end.

Definition perform {X} (f : time → PaymentDB → PaymentDB * X) (w : World) : World * X :=
  let '(db, x) := f (w_now w) (w_db w) in (with_db w db, x).

Definition append (f : Fact) (settlement : list SettlementEntry) (w : World)
    : World * result JournalError (Entry * bool) :=
  match AppendWithSettlement (w_now w) ring f settlement (w_journal w) with
  | Ok (j, e, replay) => (with_journal w j, Ok (e, replay))
  | Err e => (w, Err e)
  end.

Abbreviation handler_prog := (prog World Query ProviderAnswer).

(** ** Store methods of several statements *)

Definition BindOperation (c : charge_key) (fingerprint : string) (req : OperationRequest)
    : handler_prog (result PaymentError Bound) :=
  inserted ← stmt (attempt (λ now db, insertOperation now c fingerprint req db));
  match inserted with
  | Err e => mret (Err e)
  | Ok inserted =>
      row ← query (λ w, db_operations (w_db w) !! c);
      match row with
      | None => mret (Err ErrNoRows)
      | Some r =>
          if negb (bool_decide (op_fingerprint r = fingerprint))
          then mret (Err (Refused "idempotency key reused with different request"))
          else
            match inserted, op_status r with
            | false, None =>
                if match op_settlement_digest r with
                   | Some d => negb (bool_decide (d = rq_SettlementDigest req))
                   | None => false
                   end
                then mret (Err (Refused "idempotency key reused with a different settlement plan"))
                else
                  taken ← stmt (perform (λ now db, takeLease now c (rq_SettlementDigest req) db));
                  if taken : bool then mret (Ok (bound_answer r))
                  else mret (Err (Refused "payment operation in progress"))
            | _, _ => mret (Ok (bound_answer r))
            end
      end
  end.

Definition CompleteOperation (c : charge_key) (status : string) (factID : uuid) (p : ProviderResult)
    : handler_prog (result PaymentError unit) :=
  written ← stmt (attempt (λ _ db, resolveOperation c status factID p db));
  match written with
  | Err e => mret (Err e)
  | Ok true => mret (Ok tt)
  | Ok false =>
      existing ← query (λ w, LookupOperation c (w_db w));
      match existing with
      | Some op =>
          if negb (Op_Resolved op) then mret (Err ErrOperationNotCompleted)
          else if negb (bool_decide (Op_FactID op = factID)) then mret (Err ErrOperationNotCompleted)
          else mret (Ok tt)
      | None => mret (Err ErrOperationNotCompleted)
      end
  end.

Definition completed (o : option CompensationRow) : option CompensationRow :=
  match o with
  | Some r => match co_status r with Some _ => Some r | None => None end
  | None => None
  end.

Definition CompleteCompensation (c : charge_key) (kind status providerRef : string) (factID : uuid)
    (confirmed : ConfirmedRefund) : handler_prog (result PaymentError unit) :=
  match confirmed_columns kind confirmed with
  | Err e => mret (Err e)
  | Ok columns =>
      written ← stmt (perform (λ _ db, resolveCompensation c kind status providerRef factID columns db));
      if written : bool then mret (Ok tt)
      else
        existing ← query (λ w, db_compensations (w_db w) !! (c, kind));
        match completed existing with
        | Some r =>
            if bool_decide (default uuid_Nil (co_fact_id r) = factID) then mret (Ok tt)
            else mret (Err ErrCompensationNotCompleted)
        | None => mret (Err ErrCompensationNotCompleted)
        end
  end.

Definition leg_completed (r : LegRow) : bool := bool_decide (lg_status r = "refunded"%string).

Definition CompleteRefundLeg (c : charge_key) (refundKey providerRef : string) (factID : uuid)
    (confirmed : ConfirmedRefund) : handler_prog (result PaymentError unit) :=
  if (cf_Amount confirmed <=? 0) || bool_decide (cf_Currency confirmed = ""%string)
  then mret (Err ErrRefundLegNotCompleted)
  else
    written ← stmt (attempt (λ _ db, resolveLeg c refundKey providerRef factID confirmed db));
    match written with
    | Err e => mret (Err e)
    | Ok true => mret (Ok tt)
    | Ok false =>
        existing ← query (λ w, db_legs (w_db w) !! (c, refundKey));
        match existing with
        | Some r =>
            if negb (leg_completed r) then mret (Err ErrRefundLegNotCompleted)
            else if negb (bool_decide (default uuid_Nil (lg_fact_id r) = factID))
            then mret (Err ErrRefundLegNotCompleted)
            else mret (Ok tt)
        | None => mret (Err ErrRefundLegNotCompleted)
        end
    end.

(** ** POST /internal/charges *)

Record planPart := {
  pp_PayeeID : uuid; pp_Kind : string; pp_DisplayName : string; pp_ExternalReference : option string;
  pp_ShareBps : Z }.

Record planFee := {
  pf_FeeCode : string; pf_Incidence : string; pf_Amount : Z; pf_Currency : string; pf_Parts : list planPart }.

Record settlementPlanRequest := {
  pr_FaceValue : Z; pr_PassedOn : Z; pr_Absorbed : Z; pr_TotalAmount : Z; pr_Currency : string;
  pr_Fees : list planFee }.

Record chargeRequest := {
  in_OrderID : uuid;
  in_OrganizerID : uuid;
  in_BuyerID : uuid;
  in_Amount : Z;
  in_Currency : string;
  in_PaymentToken : string;
  in_Settlement : option settlementPlanRequest;
}.

Definition part_payee (p : planPart) : PayeeRef := {|
  ref_ID := pp_PayeeID p; ref_Kind := pp_Kind p; ref_DisplayName := pp_DisplayName p;
  ref_ExternalReference := pp_ExternalReference p |}.

Definition toStorePlan (p : settlementPlanRequest) : SettlementPlan := {|
  sp_FaceValue := pr_FaceValue p; sp_PassedOn := pr_PassedOn p; sp_Absorbed := pr_Absorbed p;
  sp_TotalAmount := pr_TotalAmount p; sp_Currency := pr_Currency p;
  sp_Fees := map (λ f, {|
    fl_FeeCode := pf_FeeCode f; fl_Incidence := pf_Incidence f; fl_Amount := pf_Amount f;
    fl_Currency := pf_Currency f;
    fl_Shares := map (λ q, {| sh_PayeeID := pp_PayeeID q; sh_ShareBps := pp_ShareBps q |}) (pf_Parts f);
    fl_Payees := fold_left (λ m q, <[pp_PayeeID q := part_payee q]> m) (pf_Parts f) ∅ |}) (pr_Fees p) |}.

Definition chargeFingerprint (r : chargeRequest) : string :=
  Hex (Sum256 (join newline [uuid_String (in_OrderID r); uuid_String (in_BuyerID r); pretty (in_Amount r);
                             in_Currency r; in_PaymentToken r])).

Definition key_missing (key : string) : bool := bool_decide (key = ""%string) || (200 <? String.length key)%nat.

Definition factID (c : charge_key) (factType : string) : uuid :=
  NewSHA1 ("payment:" +:+ uuid_String c.1 +:+ ":" +:+ c.2 +:+ ":" +:+ factType).

Definition payment_fact (id : uuid) (c : charge_key) (factType : string) (occurred : time) (buyer order : uuid)
    (amount : Z) (currency : string) : Fact := {|
  f_ID := id; f_OrganizerID := c.1; f_Type := factType; f_OccurredAt := occurred; f_BuyerID := buyer;
  f_Amount := amount; f_Currency := currency;
  f_Payload := Some {["order_id"%string := uuid_String order]} |}.

(** A resolved charge's code and body. *)
Definition replay_code (status : string) : Z :=
  if bool_decide (status = "declined"%string) then 402
  else if bool_decide (status = "timeout"%string) then 408 else 200.

Definition charge_fact (c : charge_key) (r : chargeRequest) (factType : string) (occurred : time) : Fact :=
  payment_fact (factID c factType) c factType occurred (in_BuyerID r) (in_OrderID r) (in_Amount r) (in_Currency r).

(** A capture appends its authorization first; false is a failed append. *)
Definition appendAuthorization (c : charge_key) (r : chargeRequest) (occurred : time) (status : string)
    : handler_prog bool :=
  if bool_decide (status = "captured"%string) then
    appended ← stmt (append (charge_fact c r "payment.authorized" occurred) []);
    mret (is_ok appended)
  else mret true.

(** From the provider's accepted answer on: the facts, then the completion.
    Only a capture carries the settlement. *)
Definition settleCharge (c : charge_key) (r : chargeRequest) (plan : list SettlementEntry) (occurred : time)
    (status : string) (p : ProviderResult) : handler_prog Answer :=
  let factType := "payment." +:+ status in
  authorized ← appendAuthorization c r occurred status;
  if negb authorized then refuse 500 "journal append failed"
  else
    let settlement := if bool_decide (status = "captured"%string) then plan else [] in
    appended ← stmt (append (charge_fact c r factType occurred) settlement);
    match appended with
    | Err _ => refuse 500 "journal append failed"
    | Ok (e, replay) =>
        done ← CompleteOperation c status (factID c factType) p;
        match done with
        | Err _ => refuse 500 "persist payment result"
        | Ok _ => answer (replay_code status)
                    (BodyCharge status (factID c factType) (Some (e_Sequence e)) replay)
        end
    end.

(** What a bound operation is charged with. *)
Definition operation_request (r : chargeRequest) (plan : list SettlementEntry) : OperationRequest := {|
  rq_OrderID := in_OrderID r; rq_BuyerID := in_BuyerID r; rq_Amount := in_Amount r;
  rq_Currency := in_Currency r; rq_PaymentMethodRef := in_PaymentToken r;
  rq_SettlementDigest := PlanDigest plan |}.

Definition invalid_charge (r : chargeRequest) : bool :=
  bool_decide (in_OrderID r = uuid_Nil) || bool_decide (in_OrganizerID r = uuid_Nil) ||
  bool_decide (in_BuyerID r = uuid_Nil) || (in_Amount r <=? 0) || negb (SupportedCurrencies (in_Currency r)).

(** The provider is asked, and its answer checked before anything is written. *)
Definition submitCharge (c : charge_key) (r : chargeRequest) (plan : list SettlementEntry) (occurred : time)
    : handler_prog Answer :=
  '(result, err) ← ask (QAuthorize c (in_OrderID r) (in_BuyerID r) (in_Amount r) (in_Currency r) (in_PaymentToken r));
  match err with
  | Some ErrInvalidToken => refuse 400 "invalid payment token"
  | Some _ => refuse 500 "payment provider error"
  | None =>
      if negb (Validate result) then refuse 500 "invalid payment outcome"
      else if bool_decide (r_Outcome result = Captured) &&
              negb (Agrees (r_Confirmed result) (in_Amount r) (in_Currency r))
      then refuse 502 "provider confirmed a different amount than requested"
      else
        match chargeEvidence result (in_Amount r) with
        | None => refuse 500 "unsupported payment outcome"
        | Some (status, p) => settleCharge c r plan occurred status p
        end
  end.

(** The answer an already decided operation gives, or a reused key's. *)
Definition priorAnswer (fingerprint : string) (prior : option Operation) : option Answer :=
  match prior with
  | None => None
  | Some op =>
      if negb (bool_decide (Op_RequestFingerprint op = fingerprint))
      then Some {| an_code := 409; an_body := BodyError "idempotency key reused with different request" |}
      else if Op_Resolved op
      then Some {| an_code := replay_code (Op_Status op);
                   an_body := BodyCharge (Op_Status op) (Op_FactID op) None true |}
      else None
  end.

Definition charge (header : string) (r : chargeRequest) : handler_prog Answer :=
  let key := TrimSpace header in
  let c : charge_key := (in_OrganizerID r, key) in
  if key_missing key then refuse 400 "Idempotency-Key required"
  else if invalid_charge r then refuse 400 "invalid charge"
  else
    prior ← query (λ w, LookupOperation c (w_db w));
    match priorAnswer (chargeFingerprint r) prior with
    | Some a => mret a
    | None =>
        match in_Settlement r with
        | None => refuse 400 "a charge must carry a settlement plan"
        | Some s =>
            match BuildSettlementEntries (toStorePlan s) (in_Amount r) with
            | Err _ => refuse 500 "settlement plan unusable"
            | Ok plan =>
                bound ← BindOperation c (chargeFingerprint r) (operation_request r plan);
                match bound with
                | Err e => refused 409 e
                | Ok b =>
                    if bd_Replay b
                    then answer (replay_code (bd_Status b)) (BodyCharge (bd_Status b) (bd_FactID b) None true)
                    else submitCharge c r plan (bd_OccurredAt b)
                end
            end
        end
    end.

(** ** GET /internal/psp/status *)

(** From a validated provider answer on. *)
Definition recordStatus (c : charge_key) (op : Operation) (result : Result) : handler_prog Answer :=
  if bool_decide (r_Outcome result = Captured) &&
     negb (Agrees (r_Confirmed result) (Op_RequestAmount op) (Op_RequestCurrency op))
  then refuse 502 "provider confirmed a different amount than requested"
  else
    match statusEvidence result op with
    | None => answer 200 (BodyStatus result 0 0 None)
    | Some learned =>
        recorded ← stmt (attempt (λ _ db, RecordProviderState c learned db));
        match recorded with
        | Err _ => refuse 500 "persist provider state"
        | Ok true =>
            answer 200 (BodyStatus result (pv_AuthorizedAmount learned) (pv_CapturedAmount learned)
              ((λ a, (a, pv_ConfirmedCurrency learned)) <$> pv_ConfirmedCapturedAmount learned))
        | Ok false =>
            fresh ← query (λ w, LookupOperation c (w_db w));
            match fresh with
            | None => refuse 500 "lookup operation"
            | Some fresh =>
                match providerStateResult fresh with
                | None => refuse 500 "provider evidence inconsistent"
                | Some stored => answer 200 (BodyStatus stored (Op_AuthorizedAmount fresh)
                                   (Op_CapturedAmount fresh) (confirmedCapture fresh))
                end
            end
        end
    end.

Definition pspStatus (c : charge_key) : handler_prog Answer :=
  found ← query (λ w, LookupOperation c (w_db w));
  match found with
  | None => refuse 404 "operation not found"
  | Some op =>
      refund ← query (λ w, completed (db_compensations (w_db w) !! (c, "refund"%string)));
      match refund with
      | Some r => answer 200 (BodyStatus (stored_result Refunded false false false) 0 0 (confirmedCompensation r))
      | None =>
          void ← query (λ w, completed (db_compensations (w_db w) !! (c, "void"%string)));
          match void with
          | Some _ => answer 200 (BodyStatus (stored_result Voided false false true) 0 0 None)
          | None =>
              match resolvedResult op with
              | Some r => answer 200 (BodyStatus r (Op_AuthorizedAmount op) (Op_CapturedAmount op)
                                        (confirmedCapture op))
              | None =>
                  now ← query w_now;
                  if match statusReplayDeadline op retention with Some d => before d now | None => false end
                  then refuse 409 "status replay window expired; manual reconciliation required"
                  else
                    '(result, err) ← ask (QStatus c (Op_ProviderPaymentRef op) (Op_RequestAmount op)
                                           (Op_RequestCurrency op) (Op_PaymentMethodRef op));
                    match err with
                    | Some _ => refuse 502 "provider status unresolved"
                    | None =>
                        if negb (Validate result) then refuse 500 "invalid provider status"
                        else recordStatus c op result
                    end
              end
          end
      end
  end.

(** ** POST /internal/psp/void and /internal/psp/refund *)

Definition failedRefund422 (err : ProviderError) : bool :=
  match err with
  | RefundFailed ref => (3 <? String.length ref)%nat && String.prefix "re_" ref
  | _ => false
  end.

(** The [switch] on kind and recorded reference: what is asked of the provider. *)
Definition compensationQuery (op : Operation) (kind : string) (row : CompensationRow) (amount : Z)
    (currency : string) : Query :=
  if bool_decide (kind = "void"%string) then QVoid (Op_ProviderPaymentRef op) (co_provider_key row)
  else if negb (bool_decide (default ""%string (co_provider_ref row) = ""%string))
  then QRefundStatus (default ""%string (co_provider_ref row))
  else QRefund (Op_ProviderPaymentRef op) (co_provider_key row) amount currency.

Definition wantOutcome (kind : string) : Outcome :=
  if bool_decide (kind = "void"%string) then Voided else Refunded.
Definition compensationStatus (kind : string) : string :=
  if bool_decide (kind = "void"%string) then "voided" else "refunded".

Definition confirmed_refund (o : Outcome) (m : option ConfirmedMoney) : ConfirmedRefund :=
  match o, m with
  | Refunded, Some m => {| cf_Amount := cm_Amount m; cf_Currency := cm_Currency m |}
  | _, _ => {| cf_Amount := 0; cf_Currency := "" |}
  end.

(** From a provider answer that proves the compensation on: fact, completion. *)
Definition settleCompensation (c : charge_key) (kind : string) (op : Operation) (row : CompensationRow)
    (amount : Z) (currency : string) (result : Result) : handler_prog Answer :=
  let status := compensationStatus kind in
  let id := factID c ("payment." +:+ status) in
  appended ← stmt (append (payment_fact id c ("payment." +:+ status) (truncate_us (co_bound_at row))
                             (Op_BuyerID op) (Op_OrderID op) amount currency) []);
  match appended with
  | Err _ => refuse 500 "journal append failed"
  | Ok _ =>
      done ← CompleteCompensation c kind status (r_ProviderRef result) id
               (confirmed_refund (wantOutcome kind) (r_Confirmed result));
      match done with
      | Err _ => refuse 500 "persist compensation result"
      | Ok _ => answer 200 (BodyCompensation status id false)
      end
  end.

(** The provider failed: a pending refund's reference is durable progress. *)
Definition compensationFailed (c : charge_key) (kind : string) (row : CompensationRow) (result : Result)
    (err : ProviderError) : handler_prog Answer :=
  if failedRefund422 err then refuse 422 "provider refund failed"
  else
    match err with
    | ErrRefundPending =>
        if negb (bool_decide (r_ProviderRef result = ""%string)) &&
           bool_decide (default ""%string (co_provider_ref row) = ""%string)
        then
          _ ← stmt (perform (λ _ db, (RecordCompensationProviderRef c kind (r_ProviderRef result) db, tt)));
          refuse 502 "provider compensation unresolved"
        else refuse 502 "provider compensation unresolved"
    | _ => refuse 502 "provider compensation unresolved"
    end.

Definition submitCompensation (c : charge_key) (kind : string) (op : Operation) (row : CompensationRow)
    (amount : Z) (currency : string) : handler_prog Answer :=
  '(result, err) ← ask (compensationQuery op kind row amount currency);
  match err with
  | Some err => compensationFailed c kind row result err
  | None =>
      if negb (Validate result) then refuse 500 "invalid provider result"
      else if negb (bool_decide (r_Outcome result = wantOutcome kind))
      then refuse 502 "provider compensation unresolved"
      else if bool_decide (wantOutcome kind = Refunded) && negb (Agrees (r_Confirmed result) amount currency)
      then refuse 502 "provider confirmed a different refund amount than requested"
      else settleCompensation c kind op row amount currency result
  end.

Definition compensation_replay (r : CompensationRow) : handler_prog Answer :=
  answer 200 (BodyCompensation (default ""%string (co_status r)) (default uuid_Nil (co_fact_id r)) true).

(** The basis: recorded when the compensation is already bound, derived from the
    operation's evidence otherwise. *)
Definition basis (op : Operation) (kind : string) (existing : option CompensationRow)
    : result string (Z * string) :=
  match existing with
  | Some r => Ok (co_amount r, co_currency r)
  | None => match compensationAllowed op kind with
            | Err e => Err e
            | Ok _ => Ok (compensationBasis op kind)
            end
  end.

Definition compensate (org : uuid) (idempotencyKey : string) (kind : string) : handler_prog Answer :=
  let key := TrimSpace idempotencyKey in
  let c : charge_key := (org, key) in
  if bool_decide (org = uuid_Nil) || key_missing key
  then refuse 400 "organizer_id and idempotency_key required"
  else
    found ← query (λ w, LookupOperation c (w_db w));
    match found with
    | None => refuse 404 "operation not found"
    | Some op =>
        existing ← query (λ w, db_compensations (w_db w) !! (c, kind));
        match completed existing with
        | Some r => compensation_replay r
        | None =>
            match basis op kind existing with
            | Err e => refuse 409 e
            | Ok (amount, currency) =>
                bound ← stmt (attempt (λ now db, BindCompensation now c kind amount currency db));
                match bound with
                | Err ErrRefundLegsBound => refuse 409 "partial refund legs exist for this operation"
                | Err _ => refuse 500 "bind compensation"
                | Ok row =>
                    match co_status row with
                    | Some _ => compensation_replay row
                    | None => submitCompensation c kind op row amount currency
                    end
                end
            end
        end
    end.

Definition pspVoid (org : uuid) (key : string) : handler_prog Answer := compensate org key "void".
Definition pspRefund (org : uuid) (key : string) : handler_prog Answer := compensate org key "refund".

(** ** POST /internal/psp/partial-refund *)

Record partialRefundRequest := {
  pq_OrganizerID : uuid; pq_IdempotencyKey : string; pq_RefundKey : string; pq_Amount : Z; pq_Currency : string }.

Definition refundLegFactID (c : charge_key) (refundKey : string) : uuid :=
  NewSHA1 ("payment-leg:" +:+ uuid_String c.1 +:+ ":" +:+ c.2 +:+ ":" +:+ refundKey).

Definition leg_fact (c : charge_key) (refundKey : string) (op : Operation) (leg : LegRow) : Fact :=
  payment_fact (refundLegFactID c refundKey) c "payment.refunded" (truncate_us (lg_bound_at leg))
    (Op_BuyerID op) (Op_OrderID op) (lg_amount leg) (lg_currency leg).

Definition settleLeg (c : charge_key) (refundKey : string) (op : Operation) (leg : LegRow) (result : Result)
    (m : ConfirmedMoney) : handler_prog Answer :=
  let id := refundLegFactID c refundKey in
  appended ← stmt (append (leg_fact c refundKey op leg) []);
  match appended with
  | Err _ => refuse 500 "journal append failed"
  | Ok _ =>
      done ← CompleteRefundLeg c refundKey (r_ProviderRef result) id
               {| cf_Amount := cm_Amount m; cf_Currency := cm_Currency m |};
      match done with
      | Err _ => refuse 500 "persist refund leg result"
      | Ok _ => answer 200 (BodyLeg "refunded" id (lg_amount leg) (lg_currency leg) false)
      end
  end.

Definition submitLeg (c : charge_key) (refundKey : string) (op : Operation) (leg : LegRow)
    : handler_prog Answer :=
  '(result, err) ← ask (QRefund (Op_ProviderPaymentRef op) (lg_provider_key leg) (lg_amount leg) (lg_currency leg));
  match err with
  | Some err => if failedRefund422 err then refuse 422 "provider refund failed"
                else refuse 502 "provider refund unresolved"
  | None =>
      if negb (Validate result) then refuse 500 "invalid provider result"
      else if negb (bool_decide (r_Outcome result = Refunded)) then refuse 502 "provider refund unresolved"
      else
        match r_Confirmed result with
        | Some m =>
            if negb (Agrees (Some m) (lg_amount leg) (lg_currency leg))
            then refuse 502 "provider confirmed a different refund amount than requested"
            else settleLeg c refundKey op leg result m
        | None => refuse 502 "provider confirmed a different refund amount than requested"
        end
  end.

Definition pspPartialRefund (r : partialRefundRequest) : handler_prog Answer :=
  let key := TrimSpace (pq_IdempotencyKey r) in
  let refundKey := TrimSpace (pq_RefundKey r) in
  let c : charge_key := (pq_OrganizerID r, key) in
  if bool_decide (pq_OrganizerID r = uuid_Nil) || key_missing key || key_missing refundKey ||
     (pq_Amount r <=? 0) || negb (String.length (pq_Currency r) =? 3)%nat
  then refuse 400 "organizer_id, idempotency_key, refund_key, positive amount and currency required"
  else
    found ← query (λ w, LookupOperation c (w_db w));
    match found with
    | None => refuse 404 "operation not found"
    | Some op =>
        bound ← stmt (attempt (λ now db, BindRefundLeg now c refundKey (pq_Amount r) (pq_Currency r) db));
        match bound with
        | Err ErrNoRows => refuse 404 "operation not found"
        | Err ErrRefundExceedsCapture => refuse 409 "refund legs would exceed the captured amount"
        | Err ErrWholeRefundBound => refuse 409 "a whole refund is already bound for this operation"
        | Err e => refused 409 e
        | Ok leg =>
            if leg_completed leg
            then answer 200 (BodyLeg (lg_status leg) (default uuid_Nil (lg_fact_id leg)) (lg_amount leg)
                               (lg_currency leg) true)
            else submitLeg c refundKey op leg
        end
    end.

(** ** POST /internal/facts *)

Definition fact_refusal (e : JournalError) : bool :=
  match e with SettlementRefused _ | StatementFailed => false | _ => true end.

Definition fact (f : Fact) : handler_prog Answer :=
  appended ← stmt (append f []);
  match appended with
  | Err e => if fact_refusal e then refuse 400 "refused" else refuse 500 "internal error"
  | Ok (e, replay) => answer 200 (BodyFact (e_Sequence e) (Hex (e_EntryHash e)) replay)
  end.
End Flows.

(** ** A concrete run: a capture of 53.01, then a partial refund of 13.01 *)
#[local] Existing Instance text_uuid.

Definition example_sha1 (s : string) : @uuid text_uuid := "id:" +:+ s.
Definition example_order : string := "7f9c24e8-3b12-4fef-91e0-5a1f8d6b2c11".

Definition charge_in (currency : string) : chargeRequest := {|
  in_OrderID := example_order; in_OrganizerID := "org"%string; in_BuyerID := "buyer"%string; in_Amount := 5301;
  in_Currency := "EUR"; in_PaymentToken := "tok";
  in_Settlement := Some {| pr_FaceValue := 5000; pr_PassedOn := 301; pr_Absorbed := 0; pr_TotalAmount := 5301;
    pr_Currency := currency; pr_Fees := [{| pf_FeeCode := "service"; pf_Incidence := "passed_on"; pf_Amount := 301;
      pf_Currency := currency; pf_Parts := [] |}] |} |}.

Definition example_charge : chargeRequest := charge_in "EUR".

Definition example_refund : partialRefundRequest := {|
  pq_OrganizerID := "org"%string; pq_IdempotencyKey := "k1"; pq_RefundKey := "r1"; pq_Amount := 1301;
  pq_Currency := "EUR" |}.

(** A provider that moves what it is asked to move. *)
Definition honest_answer (q : Query) : ProviderAnswer :=
  let moved o captured amount currency := ({| r_Outcome := o; r_Captured := captured; r_Authorized := captured;
    r_TerminalNoSideEffect := false; r_ProviderRef := "ref"; r_ProviderChargeRef := "ch";
    r_Confirmed := Some {| cm_Amount := amount; cm_Currency := currency |} |}, None) in
  match q with
  | QAuthorize _ _ _ amount currency _ | QStatus _ _ amount currency _ => moved Captured true amount currency
  | QRefund _ _ amount currency => moved Refunded false amount currency
  | QVoid _ _ | QRefundStatus _ => (stored_result Unknown false false false, Some ProviderFailure)
  end.

Definition example_world : World := {|
  w_now := 1709210096120450000; w_db := no_payments; w_journal := empty_journal |}.

Definition after {A} (o : option (World * A * list Query)) : World :=
  match o with Some (w, _, _) => w | None => example_world end.

Definition charged_run (currency : string) := run (charge example_sha1 example_ring "k1" (charge_in currency))
  [honest_answer (QAuthorize ("org"%string, "k1"%string) example_order "buyer"%string 5301 "EUR" "tok")] example_world.
Definition charged_world : World := after (charged_run "EUR").

Definition refunded_run := run (pspPartialRefund example_sha1 example_ring example_refund)
  [honest_answer (QRefund "ref" "" 1301 "EUR")] charged_world.
Definition refunded_world : World := after refunded_run.
