(* ===== verification/PaymentSafety.v ===== *)
(** * What the payment handlers keep true together

    The invariant of the payments database and journal under any number of
    concurrent handlers of [PaymentFlows], crashes included. The provider is
    outside: the one thing relied on is that it does not call a charge it
    captured declined, timed out or voided. *)

From stdpp Require Import pretty.
From S2P Require Import Prelude Text Allocation Sha256 Settlement PaymentOps Format Keyring Journal Prog PaymentFlows.
#[local] Open Scope Z_scope.

Section Safety.
Context `{UU : UUID} (NewSHA1 : string → uuid) (ring : Keyring) (retention : Z).

(** The charges submitted to the service, and which of them the provider ever
    captures. *)
Context (submitted : chargeRequest → Prop) (captures : charge_key → bool).
Context (answers : Query → ProviderAnswer → Prop).

Definition same_charge (a b : chargeRequest) : Prop :=
  in_OrderID a = in_OrderID b ∧ in_BuyerID a = in_BuyerID b ∧ in_Amount a = in_Amount b ∧
  in_Currency a = in_Currency b.

(** A result is no statement against the capture of its charge. *)
Definition consistent (c : charge_key) (r : Result) : Prop :=
  (r_Outcome r = Captured → captures c = true) ∧
  (r_Outcome r = Declined ∨ r_Outcome r = Timeout ∨ r_Outcome r = Voided → captures c = false).

(** Documented behaviour of what is outside: the provider's terminal outcomes
    (port.go: no side effect) are final for a charge, and the fingerprints of
    the submitted charges are SHA-256 digests without a collision among them. *)
Record Outside : Prop := {
  os_authorize c o b a cur t r : answers (QAuthorize c o b a cur t) (r, None) → consistent c r;
  os_status c ref a cur t r : answers (QStatus c ref a cur t) (r, None) → consistent c r;
  os_fingerprint a b : submitted a → submitted b →
    chargeFingerprint a = chargeFingerprint b → same_charge a b;
}.

(** ** The invariant *)

Definition journalled (f : Fact) (w : World) : Prop :=
  ∃ e now, e ∈ jd_entries (w_journal w) ∧ f_ID (e_Fact e) = f_ID f ∧
    canonical (normalize now f) (e_Sequence e) = canonical (e_Fact e) (e_Sequence e).

Definition operation_fact (c : charge_key) (r : OperationRow) (factType : string) : Fact :=
  payment_fact (factID NewSHA1 c factType) c factType (truncate_us (op_occurred_at r))
    (op_buyer_id r) (op_order_id r) (op_request_amount r) (op_request_currency r).

Definition captured_state : option string := Some "captured"%string.

Record op_ok (w : World) (c : charge_key) (r : OperationRow) : Prop := {
  oo_from : ∃ q, submitted q ∧ op_fingerprint r = chargeFingerprint q ∧
    op_order_id r = in_OrderID q ∧ op_buyer_id r = in_BuyerID q ∧
    op_request_amount r = in_Amount q ∧ op_request_currency r = in_Currency q;
  oo_amount : 0 < op_request_amount r ≤ MaxInt64;
  oo_captured : op_provider_state r = captured_state →
    op_captured_amount r = Some (op_request_amount r) ∧ captures c = true;
  oo_authorized : op_provider_state r = Some "authorized"%string → op_authorized_amount r = Some (op_request_amount r);
  oo_status s : op_status r = Some s →
    op_provider_state r = Some s ∧ s ≠ "authorized"%string ∧ journalled (operation_fact c r ("payment." +:+ s)) w;
}.

Definition refund_of (c : charge_key) (w : World) : option CompensationRow :=
  db_compensations (w_db w) !! (c, "refund"%string).

Record leg_ok (w : World) (c : charge_key) (k : string) (leg : LegRow) (op : OperationRow) : Prop := {
  lo_operation : db_operations (w_db w) !! c = Some op;
  lo_captured : op_provider_state op = captured_state;
  lo_exclusive : refund_of c w = None;
  lo_amount : 0 < lg_amount leg ≤ MaxInt64;
  lo_completed : leg_completed leg = true →
    lg_confirmed_amount leg = Some (lg_amount leg) ∧ lg_confirmed_currency leg = Some (lg_currency leg) ∧
    journalled (leg_fact NewSHA1 c k (read_operation op) leg) w;
}.

Definition compensation_fact (c : charge_key) (kind : string) (op : OperationRow) (row : CompensationRow) : Fact :=
  let factType := "payment." +:+ compensationStatus kind in
  payment_fact (factID NewSHA1 c factType) c factType (truncate_us (co_bound_at row))
    (op_buyer_id op) (op_order_id op) (co_amount row) (co_currency row).

Record comp_ok (w : World) (c : charge_key) (kind : string) (row : CompensationRow) (op : OperationRow)
    : Prop := {
  co_operation : db_operations (w_db w) !! c = Some op;
  co_basis : co_amount row = op_request_amount op ∧ co_currency row = op_request_currency op;
  co_refund : kind = "refund"%string → op_provider_state op = captured_state;
  co_completed s : co_status row = Some s →
    journalled (compensation_fact c kind op row) w ∧
    (kind = "refund"%string → co_confirmed_amount row = Some (co_amount row) ∧
                              co_confirmed_currency row = Some (co_currency row));
}.

Record inv (w : World) : Prop := {
  in_ops c r : db_operations (w_db w) !! c = Some r → op_ok w c r;
  in_legs c k leg : db_legs (w_db w) !! (c, k) = Some leg → ∃ op, leg_ok w c k leg op;
  in_comps c kind row : db_compensations (w_db w) !! (c, kind) = Some row → ∃ op, comp_ok w c kind row op;
  in_ceiling c op : db_operations (w_db w) !! c = Some op →
    refunded_sum c (w_db w) ≤ op_request_amount op;
}.

(** ** What other handlers may rely on *)

Definition op_identity (r : OperationRow) :=
  (op_fingerprint r, op_order_id r, op_buyer_id r, op_request_amount r, op_request_currency r, op_occurred_at r).
Definition leg_identity (r : LegRow) := (lg_provider_key r, lg_amount r, lg_currency r, lg_bound_at r).
Definition comp_identity (r : CompensationRow) := (co_provider_key r, co_amount r, co_currency r, co_bound_at r).

(** Rows of a table stay and keep their identity. *)
Definition kept `{Countable K} {V I} (identity : V → I) (m m' : gmap K V) : Prop :=
  ∀ k v, m !! k = Some v → ∃ v', m' !! k = Some v' ∧ identity v' = identity v.

Record evolves (w w' : World) : Prop := {
  ev_ops : kept op_identity (db_operations (w_db w)) (db_operations (w_db w'));
  ev_captured c r r' : db_operations (w_db w) !! c = Some r → db_operations (w_db w') !! c = Some r' →
    op_provider_state r = captured_state → op_provider_state r' = captured_state;
  ev_legs : kept leg_identity (db_legs (w_db w)) (db_legs (w_db w'));
  ev_comps : kept comp_identity (db_compensations (w_db w)) (db_compensations (w_db w'));
  ev_journal : jd_entries (w_journal w) `prefix_of` jd_entries (w_journal w');
}.

Lemma kept_refl `{Countable K} {V I} (identity : V → I) (m : gmap K V) : kept identity m m.
Proof. intros k v Hv. eauto. Qed.

Lemma kept_trans `{Countable K} {V I} (identity : V → I) (m1 m2 m3 : gmap K V) :
  kept identity m1 m2 → kept identity m2 m3 → kept identity m1 m3.
Proof. intros H1 H2 k v (v2 & Hv2 & E2)%H1. apply H2 in Hv2 as (v3 & Hv3 & E3). exists v3. split; [done|congruence]. Qed.

Lemma kept_insert `{Countable K} {V I} (identity : V → I) (m : gmap K V) k v :
  (∀ v0, m !! k = Some v0 → identity v = identity v0) → kept identity m (<[k := v]> m).
Proof.
  intros Hid k' v' Hv'. destruct (decide (k = k')) as [<-|].
  - rewrite lookup_insert_eq. eauto.
  - rewrite lookup_insert_ne by done. eauto.
Qed.

#[local] Hint Resolve kept_refl kept_insert : core.

#[export] Instance evolves_preorder : PreOrder evolves.
Proof.
  split.
  - intros w. split; auto. congruence.
  - intros w1 w2 w3 [O1 C1 L1 K1 J1] [O2 C2 L2 K2 J2]. split; [by eapply kept_trans| |by eapply kept_trans..|by etrans].
    intros c r r3 Hr Hr3 Hs. destruct (O1 c r Hr) as (r2 & Hr2 & _). eauto.
Qed.

Lemma journalled_stable f : stable evolves (journalled f).
Proof.
  intros w w' [_ _ _ _ [l Hl]] (e & now & He & H). exists e, now. split; [|done]. rewrite Hl. apply elem_of_app. by left.
Qed.

Lemma op_ok_later w w' c r : evolves w w' → op_ok w c r → op_ok w' c r.
Proof.
  intros He [Hf Ha Hc Hu Hs]. split; try done. intros s Hst. destruct (Hs s Hst) as (H1 & H2 & H3).
  split_and!; [done..|]. by apply (journalled_stable _ w).
Qed.

(** ** Statements keep the invariant *)

Definition keeps (w w' : World) : Prop := inv w' ∧ evolves w w'.

Lemma keeps_refl w : inv w → keeps w w.
Proof. intros H. by split. Qed.

Lemma no_legs_without_operation w c :
  inv w → db_operations (w_db w) !! c = None → legs_of c (w_db w) = [].
Proof.
  intros Hi Hn. destruct (legs_of c (w_db w)) as [|leg l] eqn:E; [done|].
  assert (Hin : leg ∈ legs_of c (w_db w)) by (rewrite E; apply list_elem_of_here).
  apply elem_of_legs_of in Hin as [k Hk]. destruct (in_legs _ Hi _ _ _ Hk) as [op [Hop _ _ _ _]]. congruence.
Qed.

(** A row of the operations table is written. *)
Lemma keeps_set_operation w c r :
  inv w → op_ok w c r →
  (∀ r0, db_operations (w_db w) !! c = Some r0 →
     op_identity r = op_identity r0 ∧ (op_provider_state r0 = captured_state → op_provider_state r = captured_state)) →
  keeps w (with_db w (set_operation c r (w_db w))).
Proof.
  intros Hi Hr Hold. assert (He : evolves w (with_db w (set_operation c r (w_db w)))).
  { split; cbn; auto.
    - apply kept_insert. intros r0 H0. by apply Hold.
    - intros c' r1 r2. destruct (decide (c = c')) as [<-|]; [rewrite lookup_insert_eq|rewrite lookup_insert_ne by done; congruence].
      intros H1 [= <-]. by apply Hold. }
  split; [|done]. split; cbn.
  - intros c' r'. destruct (decide (c = c')) as [<-|].
    + rewrite lookup_insert_eq. intros [= <-]. by apply (op_ok_later w).
    + rewrite lookup_insert_ne by done. intros H. apply (op_ok_later w); [done|]. by apply Hi.
  - intros c' k leg Hleg. destruct (in_legs _ Hi _ _ _ Hleg) as [op [H1 H2 H3 H4 H5]].
    destruct (decide (c = c')) as [<-|].
    + destruct (Hold op H1) as [Hid Hst]. exists r. split; cbn; auto; [by rewrite lookup_insert_eq|].
      unfold op_identity in Hid. intros Hd. destruct (H5 Hd) as (? & ? & Hj). split_and!; [done..|].
      unfold leg_fact in *. cbn [Op_BuyerID Op_OrderID read_operation] in *.
      replace (op_buyer_id r) with (op_buyer_id op) by congruence.
      by replace (op_order_id r) with (op_order_id op) by congruence.
    + exists op. split; cbn; auto. by rewrite lookup_insert_ne.
  - intros c' k row Hrow. destruct (in_comps _ Hi _ _ _ Hrow) as [op [H1 [Hb1 Hb2] H2 H3]].
    destruct (decide (c = c')) as [<-|].
    + destruct (Hold op H1) as [Hid Hst]. unfold op_identity in Hid. exists r. split; cbn; [by rewrite lookup_insert_eq|..].
      * split; congruence.
      * auto.
      * intros s Hs. destruct (H3 s Hs) as [Hj ?]. split; [|done]. unfold compensation_fact in *.
        replace (op_buyer_id r) with (op_buyer_id op) by congruence.
        by replace (op_order_id r) with (op_order_id op) by congruence.
    + exists op. split; cbn; auto. by rewrite lookup_insert_ne.
  - intros c' op. change (refunded_sum c' (set_operation c r (w_db w))) with (refunded_sum c' (w_db w)).
    destruct (decide (c = c')) as [<-|].
    + rewrite lookup_insert_eq. intros [= <-]. destruct (db_operations (w_db w) !! c) as [r0|] eqn:E0.
      * destruct (Hold r0 eq_refl) as [Hid _]. unfold op_identity in Hid.
        pose proof (in_ceiling _ Hi _ _ E0). assert (op_request_amount r = op_request_amount r0) as -> by congruence. done.
      * unfold refunded_sum. rewrite (no_legs_without_operation w c Hi E0). cbn. destruct Hr. lia.
    + rewrite lookup_insert_ne by done. apply Hi.
Qed.

(** A refund leg is bound or completed. *)
Lemma keeps_set_leg w c k leg op :
  inv w → leg_ok w c k leg op →
  (∀ old, db_legs (w_db w) !! (c, k) = Some old → leg_identity leg = leg_identity old) →
  (db_legs (w_db w) !! (c, k) = None → refunded_sum c (w_db w) + lg_amount leg ≤ op_request_amount op) →
  keeps w (with_db w (set_leg c k leg (w_db w))).
Proof.
  intros Hi Hleg Hold Hfresh. split; split; cbn; auto; [..|congruence].
  - intros c' r Hr. destruct (in_ops _ Hi _ _ Hr). by split.
  - intros c' k' l'. destruct (decide ((c, k) = (c', k'))) as [[= <- <-]|].
    + rewrite lookup_insert_eq. intros [= <-]. exists op. by destruct Hleg.
    + rewrite lookup_insert_ne by done. intros Hl. destruct (in_legs _ Hi _ _ _ Hl) as [op' []]. by exists op'.
  - intros c' k' row Hrow. destruct (in_comps _ Hi _ _ _ Hrow) as [op' []]. by exists op'.
  - intros c' op' Hop'. pose proof (in_ceiling _ Hi _ _ Hop') as Hc.
    destruct (db_legs (w_db w) !! (c, k)) as [old|] eqn:E.
    + rewrite (refunded_sum_update _ _ _ old); [done..|]. specialize (Hold old eq_refl). unfold leg_identity in Hold. congruence.
    + rewrite refunded_sum_fresh by done. case_bool_decide as Hcc; [|done]. subst c'. specialize (Hfresh eq_refl).
      destruct Hleg as [Hop _ _ _ _]. assert (op' = op) as -> by congruence. lia.
Qed.

(** A compensation is bound, annotated or completed. *)
Lemma keeps_set_compensation w c kind row op :
  inv w → comp_ok w c kind row op →
  (∀ old, db_compensations (w_db w) !! (c, kind) = Some old → comp_identity row = comp_identity old) →
  (db_compensations (w_db w) !! (c, kind) = None → kind = "refund"%string → legs_of c (w_db w) = []) →
  keeps w (with_db w (set_compensation c kind row (w_db w))).
Proof.
  intros Hi Hrow Hold Hfresh. split; split; cbn; auto; [..|congruence].
  - intros c' r Hr. destruct (in_ops _ Hi _ _ Hr). by split.
  - intros c' k' l' Hl. destruct (in_legs _ Hi _ _ _ Hl) as [op' [H1 H2 H3 H4 H5]]. exists op'. split; try done.
    unfold refund_of in *. cbn. destruct (decide ((c, kind) = (c', "refund"%string))) as [[= <- ->]|].
    + exfalso. specialize (Hfresh H3 eq_refl). assert (Hin : l' ∈ legs_of c (w_db w)) by (apply elem_of_legs_of; eauto).
      rewrite Hfresh in Hin. by apply elem_of_nil in Hin.
    + by rewrite lookup_insert_ne.
  - intros c' kind' row'. destruct (decide ((c, kind) = (c', kind'))) as [[= <- <-]|].
    + rewrite lookup_insert_eq. intros [= <-]. exists op. by destruct Hrow.
    + rewrite lookup_insert_ne by done. intros Hr. destruct (in_comps _ Hi _ _ _ Hr) as [op' []]. by exists op'.
  - apply Hi.
Qed.

(** An append, which leaves the fact in the journal when it succeeds. *)
Lemma append_keeps f settlement w :
  inv w → keeps w (append ring f settlement w).1 ∧
  (is_ok (append ring f settlement w).2 = true → journalled f (append ring f settlement w).1).
Proof.
  intros Hi. unfold append.
  destruct (AppendWithSettlement (w_now w) ring f settlement (w_journal w)) as [[[j e] replay]|] eqn:Ha; cbn [fst snd];
    [|split; [by apply keeps_refl|done]].
  assert (He : evolves w (with_journal w j)).
  { split; cbn; auto; [congruence|]. apply Append_Ok in Ha as [_ Ha]. cbn zeta in Ha. destruct (List.find _ _).
    - destruct Ha as (_ & -> & _). done.
    - destruct Ha as (_ & _ & _ & _ & _ & _ & ->). by apply prefix_app_r. }
  split; [split; [|done]|].
  - pose proof (journalled_stable) as Hst. split; cbn.
    + intros c r Hr. apply (op_ok_later w); [done|]. by apply Hi.
    + intros c k leg Hl. destruct (in_legs _ Hi _ _ _ Hl) as [op [H1 H2 H3 H4 H5]]. exists op. split; try done.
      intros Hd. destruct (H5 Hd) as (? & ? & Hj). split_and!; [done..|]. by apply (Hst _ w).
    + intros c k row Hr. destruct (in_comps _ Hi _ _ _ Hr) as [op [H1 Hb H2 H3]]. exists op. split; try done.
      intros s Hs. destruct (H3 s Hs) as [Hj ?]. split; [|done]. by apply (Hst _ w).
    + apply Hi.
  - intros _. apply Append_stored in Ha as [Hf Hc]. apply List.find_some in Hf as [Hin Hid].
    apply bool_decide_eq_true in Hid. exists e, (w_now w). split_and!; [by apply list_elem_of_In|done..].
Qed.

(** ** The charge handler *)

Context (outside : Outside).

Abbreviation wpi := (wp answers inv evolves).

(** The handler's charge is bound under this key, since [occurred]. *)
Definition bound_row (c : charge_key) (q : chargeRequest) (occurred : time) (w : World) : Prop :=
  ∃ r, db_operations (w_db w) !! c = Some r ∧ op_fingerprint r = chargeFingerprint q ∧
    truncate_us (op_occurred_at r) = occurred.

Lemma bound_row_stable c q t : stable evolves (bound_row c q t).
Proof.
  intros w w' [Hops _ _ _ _] (r & Hr & Hf & Ht). apply Hops in Hr as (r' & Hr' & Hid).
  unfold op_identity in Hid. exists r'. split_and!; [done|congruence|]. rewrite <-Ht. f_equal. congruence.
Qed.

Lemma row_of_charge w c q r :
  inv w → submitted q → db_operations (w_db w) !! c = Some r → op_fingerprint r = chargeFingerprint q →
  op_order_id r = in_OrderID q ∧ op_buyer_id r = in_BuyerID q ∧ op_request_amount r = in_Amount q ∧
  op_request_currency r = in_Currency q.
Proof.
  intros Hi Hq Hr Hf. destruct (in_ops _ Hi _ _ Hr) as [(q' & Hq' & Hf' & -> & -> & -> & ->) _ _ _ _].
  apply (os_fingerprint outside); [done..|]. congruence.
Qed.

Lemma operation_fact_of_charge w c q r factType t :
  inv w → submitted q → db_operations (w_db w) !! c = Some r → op_fingerprint r = chargeFingerprint q →
  truncate_us (op_occurred_at r) = t → operation_fact c r factType = charge_fact NewSHA1 c q factType t.
Proof.
  intros Hi Hq Hr Hf Ht. destruct (row_of_charge w c q r Hi Hq Hr Hf) as (H1 & H2 & H3 & H4).
  unfold operation_fact, charge_fact. by rewrite H1, H2, H3, H4, Ht.
Qed.

Lemma keeps_insert now c q plan w :
  inv w → submitted q → 0 < in_Amount q ≤ MaxInt64 → db_operations (w_db w) !! c = None →
  keeps w (with_db w (set_operation c (fresh_operation now (chargeFingerprint q) (operation_request q plan)) (w_db w))).
Proof.
  intros Hi Hq Ha Hn. apply keeps_set_operation; [done| |intros r0; congruence].
  split; cbn; [by exists q|done..].
Qed.

Lemma keeps_take_lease now c digest r w :
  inv w → db_operations (w_db w) !! c = Some r → keeps w (with_db w (set_operation c (retake now digest r) (w_db w))).
Proof.
  intros Hi Hr. destruct (in_ops _ Hi _ _ Hr) as [Hf Ha Hc Hu Hs].
  apply keeps_set_operation; [done|by split|]. intros r0 H0. assert (r0 = r) as -> by congruence. by split.
Qed.

Lemma wp_BindOperation c q plan w :
  submitted q → 0 < in_Amount q ≤ MaxInt64 →
  wpi (BindOperation c (chargeFingerprint q) (operation_request q plan))
    (λ b w', match b with Ok b => bound_row c q (bd_OccurredAt b) w' | Err _ => True end) w.
Proof.
  intros Hq Ha. unfold BindOperation. apply wp_bind, wp_stmt. intros w1 _ Hi1. unfold attempt, insertOperation.
  destruct (operation_checks _); cbn [negb]; [|cbn; split; [done|split; [done|done]]].
  assert (Hrest : ∀ (ins : bool) w2, wpi
    (row ← query (λ w, db_operations (w_db w) !! c);
      match row with
      | None => mret (Err ErrNoRows)
      | Some r =>
          if negb (bool_decide (op_fingerprint r = chargeFingerprint q))
          then mret (Err (Refused "idempotency key reused with different request"))
          else
            match ins, op_status r with
            | false, None =>
                if match op_settlement_digest r with
                   | Some d => negb (bool_decide (d = rq_SettlementDigest (operation_request q plan)))
                   | None => false
                   end
                then mret (Err (Refused "idempotency key reused with a different settlement plan"))
                else
                  taken ← stmt (perform (λ now db, takeLease now c (rq_SettlementDigest (operation_request q plan)) db));
                  if taken : bool then mret (Ok (bound_answer r))
                  else mret (Err (Refused "payment operation in progress"))
            | _, _ => mret (Ok (bound_answer r))
            end
      end) (λ b w', match b with Ok b => bound_row c q (bd_OccurredAt b) w' | Err _ => True end) w2).
  { intros ins w2. apply wp_bind, wp_query; [apply _|]. intros w3 _ Hi3.
    destruct (db_operations (w_db w3) !! c) as [r|] eqn:Er; [|done].
    case_bool_decide as Hfp; cbn [negb]; [|done].
    assert (Hb : bound_row c q (truncate_us (op_occurred_at r)) w3) by (by exists r).
    destruct ins; [exact Hb|]. destruct (op_status r) eqn:Est; [exact Hb|].
    destruct (match op_settlement_digest r with Some _ => _ | None => _ end); [done|].
    apply wp_bind, wp_stmt. intros w4 He4 Hi4. apply (bound_row_stable _ _ _ _ _ He4) in Hb.
    unfold perform, takeLease. destruct (db_operations (w_db w4) !! c) as [r4|] eqn:Er4; [|by destruct w4].
    destruct (_ && _); cbn [fst snd]; [|by destruct w4].
    destruct (keeps_take_lease (w_now w4) c (rq_SettlementDigest (operation_request q plan)) r4 w4 Hi4 Er4) as [H1 H2].
    split; [done|]. split; [done|]. by apply (bound_row_stable _ _ _ _ _ H2). }
  destruct (db_operations (w_db w1) !! c) as [r|] eqn:Er; cbn [fst snd].
  - replace (with_db w1 (w_db w1)) with w1 by (by destruct w1). split; [done|]. split; [done|]. apply (Hrest false).
  - destruct (keeps_insert (w_now w1) c q plan w1 Hi1 Hq Ha Er) as [H1 H2].
    split; [done|]. split; [done|]. apply (Hrest true).
Qed.

Lemma charge_evidence r amount status p c :
  chargeEvidence r amount = Some (status, p) → consistent c r →
  nullif (pv_State p) = Some status ∧ status ≠ "authorized"%string ∧
  (captures c = true → status = "captured"%string) ∧
  (status = "captured"%string → pv_CapturedAmount p = amount ∧ captures c = true).
Proof.
  unfold chargeEvidence, consistent. intros H [H1 H2].
  destruct (r_Outcome r); try done; injection H as <- <-; cbn; (split; [done|]); (split; [done|]).
  - split; [done|]. intros _. split; [done|by apply H1].
  - split; [|done]. intros Hc. rewrite H2 in Hc by auto. done.
  - split; [|done]. intros Hc. rewrite H2 in Hc by auto. done.
Qed.

(** The fact is in the journal and the operation is completed under it. *)
Lemma wp_CompleteOperation c q status t p id w :
  submitted q → bound_row c q t w → journalled (charge_fact NewSHA1 c q ("payment." +:+ status) t) w →
  nullif (pv_State p) = Some status → status ≠ "authorized"%string →
  (captures c = true → status = "captured"%string) →
  (status = "captured"%string → pv_CapturedAmount p = in_Amount q ∧ captures c = true) →
  wpi (CompleteOperation c status id p) (λ _ _, True) w.
Proof.
  intros Hq Hb Hj Hst Hna Hcap Hcapd. unfold CompleteOperation. apply wp_bind, wp_stmt. intros w1 He Hi.
  apply (bound_row_stable _ _ _ _ _ He) in Hb as (r & Hr & Hf & Ht).
  apply (journalled_stable _ _ _ He) in Hj.
  assert (Htail : ∀ w2, wpi
    (existing ← query (λ w, LookupOperation c (w_db w));
      match existing with
      | Some op =>
          if negb (Op_Resolved op) then mret (Err ErrOperationNotCompleted)
          else if negb (bool_decide (Op_FactID op = id)) then mret (Err ErrOperationNotCompleted)
          else mret (Ok tt)
      | None => mret (Err ErrOperationNotCompleted)
      end) (λ _ _, True) w2).
  { intros w2. apply wp_bind, wp_query; [apply _|]. intros w3 _ _.
    destruct (LookupOperation c (w_db w3)); [|done]. destruct (negb _); [done|]. by destruct (negb _). }
  unfold attempt, resolveOperation. rewrite Hr. destruct (op_status r) eqn:Estatus; cbn [fst snd].
  { replace (with_db w1 (w_db w1)) with w1 by (by destruct w1). split; [done|]. split; [done|]. apply Htail. }
  destruct (operation_checks _); cbn [fst snd]; [|split; [done|split; [done|done]]].
  destruct (row_of_charge w1 c q r Hi Hq Hr Hf) as (E1 & E2 & E3 & E4).
  destruct (in_ops _ Hi _ _ Hr) as [Hfrom Ham Hocap _ _].
  assert (Hok : op_ok w1 c (resolve status id p r)).
  { split; cbn; [done|done|..].
    - rewrite Hst. intros [= ->]. destruct (Hcapd eq_refl) as [-> ?]. by rewrite E3.
    - rewrite Hst. by intros [= ->].
    - intros s [= <-]. split_and!; [done..|].
      change (journalled (operation_fact c r ("payment." +:+ status)) w1).
      by rewrite (operation_fact_of_charge w1 c q r _ t). }
  destruct (keeps_set_operation w1 c (resolve status id p r) Hi Hok) as [K1 K2]; [|done].
  intros r0 H0. assert (r0 = r) as -> by congruence. split; [done|]. cbn. intros Hs.
  destruct (Hocap Hs) as [_ Hcc]. rewrite Hst. by rewrite (Hcap Hcc).
Qed.

Lemma wp_append f settlement (post : result JournalError (Entry * bool) → World → Prop) w :
  (∀ w' x, evolves w w' → inv w' → (is_ok x = true → journalled f w') → post x w') →
  wpi (stmt (append ring f settlement)) post w.
Proof.
  intros Hpost. apply wp_stmt. intros w1 He Hi. destruct (append_keeps f settlement w1 Hi) as [[H1 H2] H3].
  split; [done|]. split; [done|]. apply Hpost; [by etrans|done|done].
Qed.

Lemma wp_settleCharge c q plan t status p w :
  submitted q → bound_row c q t w → nullif (pv_State p) = Some status → status ≠ "authorized"%string →
  (captures c = true → status = "captured"%string) →
  (status = "captured"%string → pv_CapturedAmount p = in_Amount q ∧ captures c = true) →
  wpi (settleCharge NewSHA1 ring c q plan t status p) (λ _ _, True) w.
Proof.
  intros Hq Hb Hst Hna Hcap Hcapd. unfold settleCharge.
  apply wp_bind. apply (wp_mono _ _ _ _ (λ _ w', bound_row c q t w')).
  2: { unfold appendAuthorization. case_bool_decide; [|exact Hb]. apply wp_bind, wp_append.
       intros w1 x He _ _. by apply (bound_row_stable _ _ _ _ _ He). }
  intros ok w1 Hb1. destruct ok; cbn [negb]; [|done]. apply wp_bind, wp_append. intros w2 x He _ Hj.
  apply (bound_row_stable _ _ _ _ _ He) in Hb1. destruct x as [[e replay]|]; [|done]. specialize (Hj eq_refl).
  apply wp_bind. eapply wp_mono; [|by apply (wp_CompleteOperation c q status t)].
  intros [[]|] w3 _; done.
Qed.

Lemma wp_charge header q w :
  submitted q → in_Amount q ≤ MaxInt64 → wpi (charge NewSHA1 ring header q) (λ _ _, True) w.
Proof.
  intros Hq Hmax. unfold charge. destruct (key_missing _); [done|]. destruct (invalid_charge q) eqn:Hinv; [done|].
  unfold invalid_charge in Hinv. zbool. set (c := (in_OrganizerID q, TrimSpace header)).
  apply wp_bind, wp_query; [apply _|]. intros w1 _ _. destruct (priorAnswer _ _); [done|].
  destruct (in_Settlement q) as [s|]; [|done].
  destruct (BuildSettlementEntries (toStorePlan s) (in_Amount q)) as [plan|]; [|done].
  apply wp_bind. eapply wp_mono; [|by apply (wp_BindOperation c q plan)].
  intros [b|e] w2 Hb; [|by destruct e]. destruct (bd_Replay b); [done|].
  unfold submitCharge. apply wp_bind, wp_ask. intros w3 [result err] He _ Ha.
  destruct err as [err|]; [by destruct err|]. destruct (Validate result); cbn [negb]; [|done].
  destruct (_ && _); [done|]. destruct (chargeEvidence result (in_Amount q)) as [[status p]|] eqn:Ev; [|done].
  pose proof (os_authorize outside _ _ _ _ _ _ _ Ha) as Hcons.
  destruct (charge_evidence _ _ _ _ _ Ev Hcons) as (H1' & H2' & H3' & H4').
  apply wp_settleCharge; [done| |done..]. by apply (bound_row_stable _ _ _ _ _ He).
Qed.

(** ** The status handler *)

Lemma status_evidence r op p c :
  statusEvidence r op = Some p → consistent c r →
  (captures c = true → pv_State p = "captured"%string ∨ pv_State p = "authorized"%string) ∧
  pv_State p ≠ ""%string ∧
  (pv_State p = "captured"%string → pv_CapturedAmount p = Op_RequestAmount op ∧ captures c = true) ∧
  (pv_State p = "authorized"%string → pv_AuthorizedAmount p = Op_RequestAmount op).
Proof.
  unfold statusEvidence, consistent. intros H [H1 H2].
  destruct (r_Outcome r); try done; injection H as <-; cbn; (split; [intros Hc|split; [done|split; intros Hc]]);
    try discriminate Hc; auto; try (rewrite H2 in Hc by auto; discriminate Hc).
Qed.

(** Evidence on an operation whose request amount is [amount]. *)
Lemma keeps_record c p w db' landed amount :
  inv w → RecordProviderState c p (w_db w) = Ok (db', landed) →
  (∀ r, db_operations (w_db w) !! c = Some r → op_request_amount r = amount) →
  pv_State p ≠ ""%string →
  (pv_State p = "captured"%string → pv_CapturedAmount p = amount ∧ captures c = true) →
  (pv_State p = "authorized"%string → pv_AuthorizedAmount p = amount) →
  keeps w (with_db w db').
Proof.
  intros Hi. unfold RecordProviderState. assert (Hsame : keeps w (with_db w (w_db w))).
  { replace (with_db w (w_db w)) with w by (by destruct w). by apply keeps_refl. }
  destruct (db_operations (w_db w) !! c) as [r|] eqn:Hr; [|by intros [= <- <-]].
  destruct (may_record (pv_State p) r) eqn:Hmay; [|by intros [= <- <-]].
  destruct (operation_checks _); [|done]. intros [= <- <-] Ham Hne Hcap Hauth.
  specialize (Ham r eq_refl). destruct (in_ops _ Hi _ _ Hr) as [Hf Ha Hc Hu Hs].
  assert (Hnull : nullif (pv_State p) = Some (pv_State p)) by (unfold nullif; by rewrite bool_decide_false).
  apply keeps_set_operation; [done|split; cbn; try done|].
  - rewrite Hnull. intros [= E]. destruct (Hcap E) as [-> ?]. by rewrite Ham.
  - rewrite Hnull. intros [= E]. by rewrite (Hauth E), Ham.
  - intros s Est. destruct (Hs s Est) as (Hst & Hna & Hj). split_and!; [|done..]. rewrite Hnull. f_equal.
    unfold may_record in Hmay. rewrite Hst in Hmay. zbool. by destruct Hmay as [E|E]; zbool.
  - intros r0 H0. assert (r0 = r) as -> by congruence. split; [done|]. cbn. intros E.
    unfold may_record in Hmay. rewrite E in Hmay. cbn in Hmay. rewrite Hnull.
    zbool. destruct Hmay as [Hm|Hm]; zbool; [done|]. unfold captured_state. by rewrite Hm.
Qed.

(** What a looked-up operation's request amount is worth later. *)
Definition amount_is (c : charge_key) (amount : Z) (w : World) : Prop :=
  ∀ r, db_operations (w_db w) !! c = Some r → op_request_amount r = amount.

Definition known_operation (c : charge_key) (op : Operation) (w : World) : Prop :=
  ∃ r, db_operations (w_db w) !! c = Some r ∧ op_request_amount r = Op_RequestAmount op ∧
    op_request_currency r = Op_RequestCurrency op ∧ op_order_id r = Op_OrderID op ∧ op_buyer_id r = Op_BuyerID op.

Lemma known_operation_stable c op : stable evolves (known_operation c op).
Proof.
  intros w w' [Hops _ _ _ _] (r & Hr & H1 & H2 & H3 & H4). apply Hops in Hr as (r' & Hr' & Hid).
  unfold op_identity in Hid. exists r'. split_and!; [done|congruence..].
Qed.

Lemma known_lookup c op w : LookupOperation c (w_db w) = Some op → known_operation c op w.
Proof.
  unfold LookupOperation. destruct (db_operations (w_db w) !! c) as [r|] eqn:E; [|done].
  intros [= <-]. by exists r.
Qed.

Lemma wp_recordStatus c op result w :
  known_operation c op w → consistent c result → wpi (recordStatus c op result) (λ _ _, True) w.
Proof.
  intros Hk Hcons. unfold recordStatus. destruct (_ && _); [done|].
  destruct (statusEvidence result op) as [learned|] eqn:Ev; [|done].
  destruct (status_evidence _ _ _ c Ev Hcons) as (_ & Hne & Hcap & Hauth).
  apply wp_bind, wp_stmt. intros w1 He Hi. apply (known_operation_stable _ _ _ _ He) in Hk as (r & Hr & Ham & _).
  unfold attempt. destruct (RecordProviderState c learned (w_db w1)) as [[db' landed]|] eqn:Erec; cbn [fst snd];
    [|by split_and!].
  destruct (keeps_record c learned w1 db' landed (Op_RequestAmount op) Hi Erec) as [K1 K2]; [|done..|].
  { intros r' Hr'. congruence. }
  split; [done|]. split; [done|]. destruct landed; [done|].
  apply wp_bind, wp_query; [apply _|]. intros w2 _ _. destruct (LookupOperation c (w_db w2)) as [fresh|]; [|done].
  by destruct (providerStateResult fresh).
Qed.

Lemma wp_pspStatus c w : wpi (pspStatus retention c) (λ _ _, True) w.
Proof.
  unfold pspStatus. apply wp_bind, wp_query; [apply _|]. intros w1 _ _.
  destruct (LookupOperation c (w_db w1)) as [op|] eqn:Eop; [|done]. apply known_lookup in Eop.
  apply wp_bind, wp_query; [apply _|]. intros w2 He2 _. destruct (completed _); [done|].
  apply wp_bind, wp_query; [apply _|]. intros w3 He3 _. destruct (completed _); [done|].
  destruct (resolvedResult op); [done|]. apply wp_bind, wp_query; [apply _|]. intros w4 He4 _.
  destruct (match statusReplayDeadline op retention with Some d => _ | None => _ end); [done|].
  apply wp_bind, wp_ask. intros w5 [result err] He5 _ Ha. destruct err; [done|].
  destruct (Validate result); cbn [negb]; [|done]. apply wp_recordStatus; [|by apply (os_status outside _ _ _ _ _ _ Ha)].
  eapply known_operation_stable; [exact He5|]. eapply known_operation_stable; [exact He4|].
  eapply known_operation_stable; [exact He3|]. by eapply known_operation_stable.
Qed.

(** ** Refund legs *)

Definition known_leg (c : charge_key) (k : string) (leg : LegRow) (w : World) : Prop :=
  ∃ l, db_legs (w_db w) !! (c, k) = Some l ∧ leg_identity l = leg_identity leg.

Lemma known_leg_stable c k leg : stable evolves (known_leg c k leg).
Proof.
  intros w w' [_ _ Hlegs _ _] (l & Hl & Hid). apply Hlegs in Hl as (l' & Hl' & Hid'). exists l'. by split; [|congruence].
Qed.

Lemma keeps_bind_leg now c k amount cur w db' leg :
  inv w → int64 amount → BindRefundLeg now c k amount cur (w_db w) = Ok (db', leg) →
  keeps w (with_db w db') ∧ known_leg c k leg (with_db w db').
Proof.
  intros Hi Ham Hb.
  assert (H0 : 0 ≤ refunded_sum c (w_db w)).
  { apply sumZ_nonneg, Forall_map, list.Forall_forall. intros l [k' Hl]%elem_of_legs_of.
    destruct (in_legs _ Hi _ _ _ Hl) as [op [_ _ _ ? _]]. lia. }
  apply BindRefundLeg_Ok in Hb as [Hpos [[Hl ->]|(op & Hop & Hnone & Hst & Hcur & Hcomp & Hceil & -> & ->)]]; [..|done|done].
  - replace (with_db w (w_db w)) with w by (by destruct w). split; [by apply keeps_refl|]. by exists leg.
  - destruct (in_ops _ Hi _ _ Hop) as [_ Hra Hcap _ _]. destruct (Hcap Hst) as [Hca _]. rewrite Hca in Hceil. cbn in Hceil.
    split.
    + apply (keeps_set_leg w c k _ op); [done| |by intros old; congruence|done].
      split; cbn; try done. unfold int64 in Ham. lia.
    + exists (fresh_leg now c k amount cur). cbn. by rewrite lookup_insert_eq.
Qed.

Lemma leg_fact_identity c k op l leg :
  leg_identity l = leg_identity leg → leg_fact NewSHA1 c k op l = leg_fact NewSHA1 c k op leg.
Proof. unfold leg_identity, leg_fact. intros [= _ -> -> ->]. done. Qed.

Lemma wp_CompleteRefundLeg c k ref op leg m w :
  known_operation c op w → known_leg c k leg w → journalled (leg_fact NewSHA1 c k op leg) w →
  cm_Amount m = lg_amount leg → cm_Currency m = lg_currency leg →
  wpi (CompleteRefundLeg c k ref (refundLegFactID NewSHA1 c k) {| cf_Amount := cm_Amount m; cf_Currency := cm_Currency m |})
    (λ _ _, True) w.
Proof.
  intros Hop Hleg Hj Hma Hmc. unfold CompleteRefundLeg. destruct (_ || _); [done|].
  apply wp_bind, wp_stmt. intros w1 He Hi.
  apply (known_operation_stable _ _ _ _ He) in Hop as (r & Hr & Ham & _ & Hord & Hbuy).
  apply (known_leg_stable _ _ _ _ _ He) in Hleg as (l & Hl & Hid). apply (journalled_stable _ _ _ He) in Hj.
  assert (Htail : ∀ w2, wpi
    (existing ← query (λ w, db_legs (w_db w) !! (c, k));
        match existing with
        | Some r =>
            if negb (leg_completed r) then mret (Err ErrRefundLegNotCompleted)
            else if negb (bool_decide (default uuid_Nil (lg_fact_id r) = refundLegFactID NewSHA1 c k))
            then mret (Err ErrRefundLegNotCompleted)
            else mret (Ok tt)
        | None => mret (Err ErrRefundLegNotCompleted)
        end) (λ _ _, True) w2).
  { intros w2. apply wp_bind, wp_query; [apply _|]. intros w3 _ _.
    destruct (db_legs (w_db w3) !! (c, k)); [|done]. destruct (negb _); [done|]. by destruct (negb _). }
  assert (Hsame : with_db w1 (w_db w1) = w1) by (by destruct w1).
  unfold attempt, resolveLeg. rewrite Hl. case_bool_decide as Hbound; cbn [fst snd].
  2: { rewrite Hsame. split; [done|]. split; [done|]. apply Htail. }
  destruct (_ && _); cbn [fst snd]; [|by split_and!].
  destruct (in_legs _ Hi _ _ _ Hl) as [op' [H1 H2 H3 H4 _]]. assert (op' = r) as -> by congruence.
  destruct (keeps_set_leg w1 c k (complete_leg ref (refundLegFactID NewSHA1 c k)
    {| cf_Amount := cm_Amount m; cf_Currency := cm_Currency m |} l) r Hi) as [K1 K2]; [|..|by split_and!].
  - split; cbn; try done. intros _. pose proof Hid as Hid'. unfold leg_identity in Hid'. injection Hid' as _ E1 E2 _.
    split_and!; [congruence..|].
    replace (leg_fact _ _ _ _ _) with (leg_fact NewSHA1 c k op leg); [done|].
    rewrite <-(leg_fact_identity c k op l leg Hid). unfold leg_fact. cbn.
    by rewrite Hord, Hbuy.
  - intros old Hold. assert (old = l) as -> by congruence. done.
  - intros Hn. congruence.
Qed.

Lemma wp_pspPartialRefund r w :
  int64 (pq_Amount r) → wpi (pspPartialRefund NewSHA1 ring r) (λ _ _, True) w.
Proof.
  intros Ham. unfold pspPartialRefund. destruct (_ || _); [done|].
  set (c := (pq_OrganizerID r, TrimSpace (pq_IdempotencyKey r))). set (k := TrimSpace (pq_RefundKey r)).
  apply wp_bind, wp_query; [apply _|]. intros w1 _ _.
  destruct (LookupOperation c (w_db w1)) as [op|] eqn:Eop; [|done]. apply known_lookup in Eop.
  apply wp_bind, wp_stmt. intros w2 He2 Hi2. apply (known_operation_stable _ _ _ _ He2) in Eop. unfold attempt.
  destruct (BindRefundLeg _ _ _ _ _ _) as [[db' leg]|e] eqn:Eb; cbn [fst snd];
    [|split; [done|split; [done|by destruct e]]].
  destruct (keeps_bind_leg _ _ _ _ _ _ _ _ Hi2 Ham Eb) as [[K1 K2] Hleg].
  split; [done|]. split; [done|]. destruct (leg_completed leg); [done|].
  apply (known_operation_stable _ _ _ _ K2) in Eop.
  unfold submitLeg. apply wp_bind, wp_ask. intros w3 [result err] He3 _ _.
  apply (known_operation_stable _ _ _ _ He3) in Eop. apply (known_leg_stable _ _ _ _ _ He3) in Hleg.
  destruct err as [err|]; [by destruct (failedRefund422 err)|].
  destruct (Validate result); cbn [negb]; [|done]. destruct (negb _); [done|].
  destruct (r_Confirmed result) as [m|]; [|done]. destruct (Agrees (Some m) _ _) eqn:Eag; cbn [negb]; [|done].
  apply Agrees_spec in Eag. injection Eag as ->. unfold settleLeg. apply wp_bind, wp_append.
  intros w4 x He4 _ Hj. destruct x as [[e rep]|]; [|done]. specialize (Hj eq_refl).
  apply (known_operation_stable _ _ _ _ He4) in Eop. apply (known_leg_stable _ _ _ _ _ He4) in Hleg.
  apply wp_bind. eapply wp_mono; [|by apply (wp_CompleteRefundLeg c k (r_ProviderRef result) op leg)].
  intros [[]|] w5 _; done.
Qed.

(** ** Whole compensations *)

Definition known_comp (c : charge_key) (kind : string) (row : CompensationRow) (w : World) : Prop :=
  ∃ r, db_compensations (w_db w) !! (c, kind) = Some r ∧ comp_identity r = comp_identity row.

Lemma known_comp_stable c kind row : stable evolves (known_comp c kind row).
Proof.
  intros w w' [_ _ _ Hc _] (r & Hr & Hid). apply Hc in Hr as (r' & Hr' & Hid'). exists r'. by split; [|congruence].
Qed.

(** The basis of a compensation: the charge's whole amount, captured for a refund. *)
Definition known_basis (c : charge_key) (kind : string) (amount : Z) (currency : string) (w : World) : Prop :=
  ∃ r, db_operations (w_db w) !! c = Some r ∧ amount = op_request_amount r ∧ currency = op_request_currency r ∧
    (kind = "refund"%string → op_provider_state r = captured_state).

Lemma known_basis_stable c kind amount currency : stable evolves (known_basis c kind amount currency).
Proof.
  intros w w' [Hops Hcap _ _ _] (r & Hr & -> & -> & Hst). destruct (Hops c r Hr) as (r' & Hr' & Hid).
  unfold op_identity in Hid. exists r'. split_and!; [done|congruence..|]. eauto.
Qed.

Lemma basis_known w c kind op existing amount currency :
  inv w → LookupOperation c (w_db w) = Some op → (kind = "void"%string ∨ kind = "refund"%string) →
  existing = None → basis op kind existing = Ok (amount, currency) → known_basis c kind amount currency w.
Proof.
  intros Hi Hop Hkind ->. unfold LookupOperation in Hop.
  destruct (db_operations (w_db w) !! c) as [r|] eqn:Hr; [|done]. injection Hop as <-.
  destruct (in_ops _ Hi _ _ Hr) as [_ _ Hcap Hauth _].
  unfold basis, compensationAllowed, compensationBasis, read_operation. cbn.
  destruct (_ || _); [done|]. destruct Hkind as [-> | ->]; cbn.
  - destruct (bool_decide (default ""%string (op_provider_state r) = "authorized"%string)) eqn:Es; cbn; [|done].
    zbool. destruct (op_provider_state r) as [s|] eqn:Est; [|done]. cbn in Es. subst s.
    destruct (_ || _); [done|]. rewrite (Hauth eq_refl). intros [= <- <-]. by exists r.
  - destruct (bool_decide (default ""%string (op_provider_state r) = "captured"%string)) eqn:Es; cbn; [|done].
    zbool. destruct (op_provider_state r) as [s|] eqn:Est; [|done]. cbn in Es. subst s.
    rewrite (bool_decide_false ("refund"%string = "void"%string)) by done. destruct (Hcap eq_refl) as [-> _].
    destruct (_ <=? 0); [done|]. intros [= <- <-]. by exists r.
Qed.

Lemma comp_basis w c kind row :
  inv w → db_compensations (w_db w) !! (c, kind) = Some row →
  known_basis c kind (co_amount row) (co_currency row) w.
Proof. intros Hi Hr. destruct (in_comps _ Hi _ _ _ Hr) as [op [H1 [H2 H3] H4 _]]. by exists op. Qed.

Lemma keeps_bind_compensation now c kind amount currency w db' row :
  inv w → known_basis c kind amount currency w →
  BindCompensation now c kind amount currency (w_db w) = Ok (db', row) →
  keeps w (with_db w db') ∧ known_comp c kind row (with_db w db') ∧
  co_amount row = amount ∧ co_currency row = currency.
Proof.
  intros Hi (r & Hr & -> & -> & Hst). unfold BindCompensation. rewrite Hr.
  destruct (db_compensations (w_db w) !! (c, kind)) as [old|] eqn:Eold.
  { intros [= <- <-]. replace (with_db w (w_db w)) with w by (by destruct w).
    destruct (in_comps _ Hi _ _ _ Eold) as [op [H1 [H2 H3] H4 _]]. assert (op = r) as -> by congruence.
    split_and!; [by apply keeps_refl|by exists old|done..]. }
  destruct (_ && _) eqn:Elegs; [done|]. destruct (compensation_checks _ _); [|done]. intros [= <- <-].
  split_and!; [|by eexists; cbn; rewrite lookup_insert_eq|done..].
  apply (keeps_set_compensation w c kind _ r); [done|by split|intros old; congruence|].
  intros _ ->. rewrite (bool_decide_true ("refund"%string = _)) in Elegs by done. cbn [andb] in Elegs. zbool.
  by destruct (legs_of c (w_db w)).
Qed.

Lemma keeps_annotate c kind ref w :
  inv w → keeps w (with_db w (RecordCompensationProviderRef c kind ref (w_db w))).
Proof.
  intros Hi. unfold RecordCompensationProviderRef.
  assert (Hsame : keeps w (with_db w (w_db w))).
  { replace (with_db w (w_db w)) with w by (by destruct w). by apply keeps_refl. }
  destruct (db_compensations (w_db w) !! (c, kind)) as [r|] eqn:Er; [|done].
  destruct (co_status r) eqn:Es; [done|]. destruct (in_comps _ Hi _ _ _ Er) as [op [H1 H2 H3 H4]].
  apply (keeps_set_compensation w c kind _ op); [done|by split| |congruence].
  intros old Hold. assert (old = r) as -> by congruence. done.
Qed.

Lemma wp_CompleteCompensation c kind op row ref result w :
  (kind = "void"%string ∨ kind = "refund"%string) →
  known_operation c op w → known_comp c kind row w → 
  journalled (payment_fact (factID NewSHA1 c ("payment." +:+ compensationStatus kind)) c
    ("payment." +:+ compensationStatus kind) (truncate_us (co_bound_at row)) (Op_BuyerID op) (Op_OrderID op)
    (co_amount row) (co_currency row)) w →
  (kind = "refund"%string → r_Confirmed result = Some {| cm_Amount := co_amount row; cm_Currency := co_currency row |}) →
  wpi (CompleteCompensation c kind (compensationStatus kind) ref
         (factID NewSHA1 c ("payment." +:+ compensationStatus kind))
         (confirmed_refund (wantOutcome kind) (r_Confirmed result))) (λ _ _, True) w.
Proof.
  intros Hkind Hop Hrow Hj Hconf. unfold CompleteCompensation.
  destruct (confirmed_columns _ _) as [columns|] eqn:Ecol; [|done].
  assert (Hcols : kind = "refund"%string → columns = Some (co_amount row, co_currency row)).
  { intros ->. rewrite (Hconf eq_refl) in Ecol. change (wantOutcome "refund") with Refunded in Ecol.
    unfold confirmed_columns, confirmed_refund in Ecol. rewrite (bool_decide_true ("refund"%string = _)) in Ecol by done.
    cbn [cf_Amount cf_Currency cm_Amount cm_Currency] in Ecol.
    destruct ((co_amount row <=? 0) || _); [done|]. by injection Ecol as <-. }
  apply wp_bind, wp_stmt. intros w1 He Hi.
  apply (known_operation_stable _ _ _ _ He) in Hop as (r & Hr & _ & _ & Hord & Hbuy).
  apply (known_comp_stable _ _ _ _ _ He) in Hrow as (row1 & Hrow1 & Hid). apply (journalled_stable _ _ _ He) in Hj.
  assert (Hsame : with_db w1 (w_db w1) = w1) by (by destruct w1).
  unfold perform, resolveCompensation. rewrite Hrow1. destruct (co_status row1) eqn:Es; cbn [fst snd].
  { rewrite Hsame. split; [done|]. split; [done|]. apply wp_bind, wp_query; [apply _|]. intros w3 _ _.
    destruct (completed _); [|done]. by destruct (bool_decide _). }
  destruct (in_comps _ Hi _ _ _ Hrow1) as [op1 [H1 H2 H3 H4]]. assert (op1 = r) as -> by congruence.
  unfold comp_identity in Hid. injection Hid as _ E2 E3 E4.
  destruct (keeps_set_compensation w1 c kind (complete_compensation (compensationStatus kind) ref
    (factID NewSHA1 c ("payment." +:+ compensationStatus kind)) columns row1) r Hi) as [K1 K2]; [|..|by split_and!].
  - split; cbn; try done. intros s _. split.
    + unfold compensation_fact. cbn. by rewrite E2, E3, E4, Hord, Hbuy.
    + intros Hk. rewrite (Hcols Hk). cbn. by rewrite E2, E3.
  - intros old Hold. assert (old = row1) as -> by congruence. done.
  - congruence.
Qed.

Lemma wp_compensate org key kind w :
  (kind = "void"%string ∨ kind = "refund"%string) → wpi (compensate NewSHA1 ring org key kind) (λ _ _, True) w.
Proof.
  intros Hkind. unfold compensate. destruct (_ || _); [done|]. set (c := (org, TrimSpace key)).
  apply wp_bind, wp_query; [apply _|]. intros w1 _ Hi1.
  destruct (LookupOperation c (w_db w1)) as [op|] eqn:Eop; [|done]. pose proof (known_lookup _ _ _ Eop) as Hop.
  apply wp_bind, wp_query; [apply _|]. intros w2 He2 Hi2.
  match goal with |- context [completed ?e] => remember e as existing eqn:Erow end.
  destruct (completed existing); [done|]. destruct (basis op kind existing) as [[amount currency]|e] eqn:Eb; [|done].
  assert (Hb : known_basis c kind amount currency w2).
  { destruct existing as [row|]; symmetry in Erow.
    - injection Eb as <- <-. by apply comp_basis.
    - eapply known_basis_stable; [exact He2|]. by apply (basis_known w1 c kind op None). }
  apply (known_operation_stable _ _ _ _ He2) in Hop.
  apply wp_bind, wp_stmt. intros w3 He3 Hi3. apply (known_operation_stable _ _ _ _ He3) in Hop.
  apply (known_basis_stable _ _ _ _ _ _ He3) in Hb. unfold attempt.
  destruct (BindCompensation _ _ _ _ _ _) as [[db' row]|e] eqn:Ebind; cbn [fst snd];
    [|split; [done|split; [done|by destruct e]]].
  destruct (keeps_bind_compensation _ _ _ _ _ _ _ _ Hi3 Hb Ebind) as ([K1 K2] & Hrow & <- & <-).
  split; [done|]. split; [done|]. apply (known_operation_stable _ _ _ _ K2) in Hop.
  destruct (co_status row) eqn:Es; [done|]. unfold submitCompensation.
  apply wp_bind, wp_ask. intros w4 [result err] He4 _ _.
  apply (known_operation_stable _ _ _ _ He4) in Hop. apply (known_comp_stable _ _ _ _ _ He4) in Hrow.
  destruct err as [err|].
  { unfold compensationFailed. destruct (failedRefund422 err); [done|]. destruct err; try done.
    destruct (_ && _); [|done]. apply wp_bind, wp_stmt. intros w5 _ Hi5. unfold perform; cbn [fst snd].
    destruct (keeps_annotate c kind (r_ProviderRef result) w5 Hi5). by split_and!. }
  destruct (Validate result); cbn [negb]; [|done]. destruct (negb _); [done|].
  destruct (_ && _) eqn:Eag; [done|]. unfold settleCompensation. apply wp_bind, wp_append.
  intros w5 x He5 _ Hj. destruct x as [[e rep]|]; [|done]. specialize (Hj eq_refl).
  apply (known_operation_stable _ _ _ _ He5) in Hop. apply (known_comp_stable _ _ _ _ _ He5) in Hrow.
  apply wp_bind. eapply wp_mono; [|apply (wp_CompleteCompensation c kind op row); try done].
  - intros [[]|] w6 _; done.
  - intros ->. cbn in Eag. apply Agrees_spec. by apply negb_false_iff.
Qed.

Lemma wp_fact f w : wpi (fact ring f) (λ _ _, True) w.
Proof.
  unfold fact. apply wp_bind, wp_append. intros w1 [[e replay]|e] _ _ _; [done|]. by destruct (fact_refusal e).
Qed.

(** ** The service *)

(** The money endpoints, on any request. *)
Inductive payment_handler : prog World Query ProviderAnswer Answer → Prop :=
| serve_charge header q : submitted q → in_Amount q ≤ MaxInt64 → payment_handler (charge NewSHA1 ring header q)
| serve_status c : payment_handler (pspStatus retention c)
| serve_void org key : payment_handler (pspVoid NewSHA1 ring org key)
| serve_refund org key : payment_handler (pspRefund NewSHA1 ring org key)
| serve_partial_refund r : int64 (pq_Amount r) → payment_handler (pspPartialRefund NewSHA1 ring r)
| serve_fact f : payment_handler (fact ring f).

Definition time_passes (w w' : World) : Prop :=
  w_now w ≤ w_now w' ∧ w_db w' = w_db w ∧ w_journal w' = w_journal w.

Definition service_reaches (w0 : World) (s : World * list (prog World Query ProviderAnswer Answer)) : Prop :=
  w_db w0 = no_payments ∧ reachable payment_handler answers time_passes w0 s.

Lemma service_invariant w0 s : service_reaches w0 s → inv s.1.
Proof.
  intros [H0 Hr]. apply (invariant_of_wp payment_handler answers time_passes inv evolves w0); [..|done].
  - intros p w Hp _. destruct Hp.
    + by apply wp_charge.
    + apply wp_pspStatus.
    + apply wp_compensate. auto.
    + apply wp_compensate. auto.
    + by apply wp_pspPartialRefund.
    + apply wp_fact.
  - intros w w' (_ & Hdb & Hj) Hi. assert (He : evolves w w').
    { split; rewrite ?Hdb, ?Hj; auto. congruence. }
    split; [|done]. destruct Hi as [H1 H2 H3 H4]. split; rewrite ?Hdb; [..|done].
    + intros c r Hr'. apply (op_ok_later w); [done|]. by apply H1.
    + intros c k leg Hl. destruct (H2 _ _ _ Hl) as [op [A1 A2 A3 A4 A5]]. exists op.
      split; unfold refund_of in *; rewrite ?Hdb; try done. intros Hd. destruct (A5 Hd) as (? & ? & ?).
      split_and!; [done..|]. by apply (journalled_stable _ w).
    + intros c k row Hrow. destruct (H3 _ _ _ Hrow) as [op [A1 A2 A3 A4]]. exists op. split; rewrite ?Hdb; try done.
      intros x Hx. destruct (A4 x Hx). split; [|done]. by apply (journalled_stable _ w).
  - split; rewrite H0; cbn; intros *; rewrite lookup_empty; done.
Qed.

(** The money a charge has given back or is about to, and the money the
    operation says was captured. *)
Definition money_back (c : charge_key) (db : PaymentDB) : Z :=
  refunded_sum c db + default 0 (co_amount <$> db_compensations db !! (c, "refund"%string)).

Definition money_captured (c : charge_key) (db : PaymentDB) : Z :=
  match db_operations db !! c with
  | Some r => if bool_decide (op_provider_state r = captured_state) then default 0 (op_captured_amount r) else 0
  | None => 0
  end.

Lemma inv_refund_ceiling w c :
  inv w → money_back c (w_db w) ≤ money_captured c (w_db w).
Proof.
  intros Hi. unfold money_back. destruct (legs_of c (w_db w)) as [|leg l] eqn:El.
  - unfold refunded_sum. rewrite El. cbn.
    destruct (db_compensations (w_db w) !! (c, "refund"%string)) as [row|] eqn:Er; cbn.
    + destruct (in_comps _ Hi _ _ _ Er) as [op [H1 [H2 _] H3 _]]. unfold money_captured. rewrite H1.
      rewrite bool_decide_true by auto. destruct (oo_captured _ _ _ (in_ops _ Hi _ _ H1) (H3 eq_refl)) as [-> _].
      cbn. lia.
    + unfold money_captured. destruct (db_operations (w_db w) !! c) as [r|] eqn:Eo; [|done].
      case_bool_decide as Hs; [|done]. destruct (oo_captured _ _ _ (in_ops _ Hi _ _ Eo) Hs) as [-> _].
      pose proof (oo_amount _ _ _ (in_ops _ Hi _ _ Eo)). cbn. lia.
  - assert (Hin : leg ∈ legs_of c (w_db w)) by (rewrite El; apply list_elem_of_here).
    apply elem_of_legs_of in Hin as [k Hk]. destruct (in_legs _ Hi _ _ _ Hk) as [op [H1 H2 H3 H4 _]].
    unfold refund_of in H3. rewrite H3. unfold money_captured. rewrite H1, bool_decide_true by done.
    destruct (oo_captured _ _ _ (in_ops _ Hi _ _ H1) H2) as [-> _]. cbn.
    pose proof (in_ceiling _ Hi _ _ H1). lia.
Qed.

(** ** Properties *)

(** C9 (safety). In every state that any interleaving of the money endpoints reaches,
    crashes and retries included, what has been refunded or is bound to be
    refunded against a charge, in partial legs and in a whole refund together,
    is at most what was captured for it. *)
Theorem refunds_never_exceed_capture w0 s c :
  service_reaches w0 s → money_back c (w_db s.1) ≤ money_captured c (w_db s.1).
Proof. intros Hr. apply inv_refund_ceiling. by eapply service_invariant. Qed.

(** A charge has partial refund legs or a whole refund, never both, in any
    reachable state; and either kind exists only against captured money, with
    the whole captured amount as the basis of the whole refund. *)
Theorem whole_and_partial_refunds_exclude w0 s c :
  service_reaches w0 s →
  (∀ k leg, db_legs (w_db s.1) !! (c, k) = Some leg →
     db_compensations (w_db s.1) !! (c, "refund"%string) = None ∧ 0 < lg_amount leg ≤ money_captured c (w_db s.1)) ∧
  (∀ row, db_compensations (w_db s.1) !! (c, "refund"%string) = Some row →
     legs_of c (w_db s.1) = [] ∧ co_amount row = money_captured c (w_db s.1)).
Proof.
  intros Hr. apply service_invariant in Hr as Hi. split.
  - intros k leg Hl. destruct (in_legs _ Hi _ _ _ Hl) as [op [H1 H2 H3 H4 _]]. split; [exact H3|]. split; [lia|].
    pose proof (inv_refund_ceiling s.1 c Hi) as Hc. unfold money_back in Hc. unfold refund_of in H3. rewrite H3 in Hc.
    cbn in Hc. unfold refunded_sum in Hc. assert (lg_amount leg ≤ sumZ (map lg_amount (legs_of c (w_db s.1)))); [|lia].
    apply sumZ_elem.
    + apply Forall_map, list.Forall_forall. intros l [k' Hl']%elem_of_legs_of.
      destruct (in_legs _ Hi _ _ _ Hl') as [? [_ _ _ ? _]]. lia.
    + apply list_elem_of_In, List.in_map, list_elem_of_In, elem_of_legs_of. by exists k.
  - intros row Hrow. destruct (in_comps _ Hi _ _ _ Hrow) as [op [H1 [H2 _] H3 _]]. split.
    + destruct (legs_of c (w_db s.1)) as [|leg l] eqn:El; [done|].
      assert (Hin : leg ∈ legs_of c (w_db s.1)) by (rewrite El; apply list_elem_of_here).
      apply elem_of_legs_of in Hin as [k Hk]. destruct (in_legs _ Hi _ _ _ Hk) as [? [_ _ H5 _ _]].
      unfold refund_of in H5. congruence.
    + unfold money_captured. rewrite H1, bool_decide_true by auto.
      destruct (oo_captured _ _ _ (in_ops _ Hi _ _ H1) (H3 eq_refl)) as [-> _]. done.
Qed.

(** C17 (invariant). Nothing is recorded as done that the journal does not say: in every
    reachable state a resolved charge, a completed compensation and a completed
    refund leg each have their fact, with the row's own buyer, order, amount and
    currency, in the signed journal; and a completed refund carries the
    provider's confirmation of exactly the amount bound. *)
Theorem completed_money_is_journalled w0 s c :
  service_reaches w0 s →
  (∀ r status, db_operations (w_db s.1) !! c = Some r → op_status r = Some status →
     op_provider_state r = Some status ∧ journalled (operation_fact c r ("payment." +:+ status)) s.1) ∧
  (∀ k leg, db_legs (w_db s.1) !! (c, k) = Some leg → leg_completed leg = true →
     ∃ op, db_operations (w_db s.1) !! c = Some op ∧
       lg_confirmed_amount leg = Some (lg_amount leg) ∧ lg_confirmed_currency leg = Some (lg_currency leg) ∧
       journalled (leg_fact NewSHA1 c k (read_operation op) leg) s.1) ∧
  (∀ kind row status, db_compensations (w_db s.1) !! (c, kind) = Some row → co_status row = Some status →
     ∃ op, db_operations (w_db s.1) !! c = Some op ∧ journalled (compensation_fact c kind op row) s.1 ∧
       (kind = "refund"%string → co_confirmed_amount row = Some (co_amount row))).
Proof.
  intros Hr. apply service_invariant in Hr as Hi. split_and!.
  - intros r status Hop Hs. destruct (oo_status _ _ _ (in_ops _ Hi _ _ Hop) status Hs) as (? & _ & ?). done.
  - intros k leg Hl Hd. destruct (in_legs _ Hi _ _ _ Hl) as [op [H1 _ _ _ H5]]. exists op. by destruct (H5 Hd) as (? & ? & ?).
  - intros kind row status Hrow Hs. destruct (in_comps _ Hi _ _ _ Hrow) as [op [H1 _ _ H4]].
    destruct (H4 status Hs) as [Hj Hconf]. exists op. split_and!; [done..|]. intros Hk. by destruct (Hconf Hk).
Qed.
End Safety.

(** ** The concrete run of [PaymentFlows], in the service *)
#[local] Existing Instance text_uuid.

Definition example_submitted (q : chargeRequest) : Prop := q = example_charge.
Definition example_captures (c : charge_key) : bool := true.
Definition example_answers (q : Query) (a : ProviderAnswer) : Prop := a = honest_answer q.

Lemma example_outside : Outside example_submitted example_captures example_answers.
Proof.
  split.
  - intros c o b a cur t r [= ->]. split; [reflexivity|]. intros [H|[H|H]]; discriminate H.
  - intros c ref a cur t r [= ->]. split; [reflexivity|]. intros [H|[H|H]]; discriminate H.
  - intros a b -> -> _. repeat split.
Qed.

Definition example_key : charge_key := ("org"%string, "k1"%string).

(** What a run asked, when it ended. *)
Definition asked {A} (o : option (World * A * list Query)) : option (list Query) := (λ x, x.2) <$> o.

Lemma after_asked {A} (o : option (World * A * list Query)) qs :
  asked o = Some qs → ∃ a, o = Some (after o, a, qs).
Proof. destruct o as [[[w a] q]|]; [|discriminate]. intros [= <-]. by exists a. Qed.

Lemma example_facts :
  asked (charged_run "EUR") = Some [QAuthorize example_key example_order "buyer"%string 5301 "EUR" "tok"] ∧
  asked refunded_run = Some [QRefund "ref" (RefundLegKey example_key "r1") 1301 "EUR"] ∧
  leg_completed <$> db_legs (w_db refunded_world) !! (example_key, "r1"%string) = Some true ∧
  money_back example_key (w_db refunded_world) = 1301.
Proof. vm_compute. repeat split. Qed.

Lemma example_reached :
  ∃ threads, service_reaches example_sha1 example_ring 0 example_submitted example_answers example_world
    (refunded_world, threads).
Proof.
  destruct example_facts as (H1 & H2 & _).
  apply after_asked in H1 as [a1 H1]. apply after_asked in H2 as [a2 H2].
  eexists. split; [reflexivity|].
  eapply reachable_run; [eapply reachable_run; [constructor|apply serve_charge|exact H1|]|apply serve_partial_refund|exact H2|].
  - reflexivity.
  - vm_compute. discriminate.
  - constructor; [reflexivity|constructor].
  - vm_compute. split; discriminate.
  - constructor; [reflexivity|constructor].
Qed.

#[local] Opaque refunded_world.

Lemma refunds_never_exceed_capture_witness :
  money_back example_key (w_db refunded_world) = 1301 ∧
  money_back example_key (w_db refunded_world) ≤ money_captured example_key (w_db refunded_world).
Proof.
  split; [exact (proj2 (proj2 (proj2 example_facts)))|]. destruct example_reached as [threads H].
  exact (refunds_never_exceed_capture example_sha1 example_ring 0 _ _ _ example_outside _ _ example_key H).
Defined.

Lemma fmap_true {A} (f : A → bool) (o : option A) : f <$> o = Some true → ∃ x, o = Some x ∧ f x = true.
Proof. destruct o as [x|]; [|discriminate]. intros [= H]. by exists x. Qed.

Lemma example_leg : ∃ leg, db_legs (w_db refunded_world) !! (example_key, "r1"%string) = Some leg ∧
  leg_completed leg = true.
Proof. exact (fmap_true leg_completed _ (proj1 (proj2 (proj2 example_facts)))). Qed.

Lemma whole_and_partial_refunds_exclude_witness :
  db_compensations (w_db refunded_world) !! (example_key, "refund"%string) = None.
Proof.
  destruct example_reached as [threads H]. destruct example_leg as (leg & Hleg & _).
  exact (proj1 (proj1 (whole_and_partial_refunds_exclude example_sha1 example_ring 0 _ _ _ example_outside _ _
    example_key H) _ _ Hleg)).
Defined.

Lemma completed_money_is_journalled_witness :
  ∃ leg op, db_legs (w_db refunded_world) !! (example_key, "r1"%string) = Some leg ∧
    lg_confirmed_amount leg = Some (lg_amount leg) ∧
    journalled (leg_fact example_sha1 example_key "r1" (read_operation op) leg) refunded_world.
Proof.
  destruct example_reached as [threads H]. destruct example_leg as (leg & Hleg & Hdone).
  destruct (completed_money_is_journalled example_sha1 example_ring 0 _ _ _ example_outside _ _ example_key H)
    as (_ & Hlegs & _).
  destruct (Hlegs _ _ Hleg Hdone) as (op & _ & Hc & _ & Hj). exists leg, op. split; [exact Hleg|]. split; [exact Hc|exact Hj].
Defined.
