(* ===== verification/Charging.v ===== *)
(** * A validated plan settles when the money is captured

    What the charge handler ([PaymentFlows.charge]) relies on when it validates
    the settlement plan before it asks the provider: the capture's append, with
    that plan, is accepted by the journal and by the constraints of the
    settlement table. The conditions are the ones the handler checks, plus two it
    leaves to its caller: the plan's currency is the charge's, and its fee codes
    are present and distinct. *)

From stdpp Require Import pretty.
From S2P Require Import Prelude Text Allocation Sha256 Settlement PaymentOps Format Keyring Journal Prog PaymentFlows.
#[local] Open Scope Z_scope.

Section Charging.
Context `{UU : UUID}.

Definition entry_key (e : SettlementEntry) : string * option uuid * string :=
  (kind_text (se_Kind e), ref_ID <$> se_Payee e, se_FeeCode e).

(** ** The rows of a plan can be inserted *)

Definition row_for (f : Fact) (oid : uuid) (e : SettlementEntry) : LedgerRow := {|
  lr_OrganizerID := f_OrganizerID f; lr_OrderID := oid; lr_FactID := f_ID f; lr_Entry := e |}.

Lemma insertRows_succeeds f oid entries ledger :
  Forall (λ e, row_shape e = true) entries → NoDup (map entry_key entries) →
  Forall (λ r, lr_FactID r = f_ID f → entry_key (lr_Entry r) ∉ map entry_key entries) ledger →
  insertRows f oid entries ledger = Ok (ledger ++ map (row_for f oid) entries).
Proof.
  intros Hs. revert ledger. induction Hs as [|e entries He _ IH]; intros ledger Hnd Hfresh; cbn.
  { by rewrite app_nil_r. }
  cbn in Hnd. apply list.NoDup_cons in Hnd as [Hni Hnd].
  assert (Hk : match se_Kind e with EntryOther _ => true | _ => false end = false).
  { unfold row_shape in He. destruct (se_Kind e); [done..|]. by rewrite andb_false_r in He. }
  rewrite Hk. unfold row_insertable. change {| lr_OrganizerID := _ |} with (row_for f oid e).
  change (lr_Entry (row_for f oid e)) with e. rewrite He.
  assert (Hin : row_key (row_for f oid e) ∉ map row_key ledger).
  { intros Hin. apply list_elem_of_In, List.in_map_iff in Hin as (r & Hr & Hrl%list_elem_of_In).
    rewrite list.Forall_forall in Hfresh. unfold row_key in Hr. injection Hr as E1 E2 E3 E4.
    apply (Hfresh r Hrl E1). cbn. apply elem_of_cons. left. unfold entry_key. cbn in *. by rewrite E2, E3, E4. }
  rewrite bool_decide_false by exact Hin. cbn [andb negb]. rewrite IH; [by rewrite <-app_assoc|done|].
  apply Forall_app. split.
  - eapply List.Forall_impl; [|exact Hfresh]. cbn. intros r Hr E Hin'. apply (Hr E). by apply elem_of_cons; right.
  - constructor; [|constructor]. intros _. exact Hni.
Qed.

(** ** The lines of a plan *)

(** The caller's part: fee codes present and distinct, payees under their ids. *)
Record CleanPlan (plan : SettlementPlan) : Prop := {
  cp_codes : NoDup (map fl_FeeCode (sp_Fees plan));
  cp_named : Forall (λ f, fl_FeeCode f ≠ ""%string) (sp_Fees plan);
  cp_payees : Forall (λ f, ∀ id ref, fl_Payees f !! id = Some ref → ref_ID ref = id) (sp_Fees plan);
}.

Lemma fee_lines_shape f es :
  LinesOf f es → KnownFeeIncidence f → fl_FeeCode f ≠ ""%string → isISOCurrency (fl_Currency f) = true →
  Forall (λ e, row_shape e = true) es.
Proof.
  intros [_ Hnn Hsh _] Hinc Hcode Hcur. apply list.Forall_forall. intros e He.
  rewrite list.Forall_forall in Hnn, Hsh. specialize (Hnn e He). destruct (Hsh e He) as (H1 & H2 & H3 & H4).
  unfold row_shape. rewrite H1, H2, H3, H4, Hcur, bool_decide_false by done. apply Z.leb_le in Hnn. rewrite Hnn.
  cbn [andb negb]. destruct Hinc as [-> | ->]; reflexivity.
Qed.

Lemma fee_lines_keys f es :
  LinesOf f es → (fl_Shares f ≠ [] →
    ValidShares (fl_Shares f) ∧ ∀ s, s ∈ fl_Shares f → is_Some (fl_Payees f !! sh_PayeeID s)) →
  (∀ id ref, fl_Payees f !! id = Some ref → ref_ID ref = id) →
  NoDup (map entry_key es) ∧ Forall (λ k, k.2 = fl_FeeCode f ∧ k.1.1 = "fee"%string) (map entry_key es).
Proof.
  intros [_ _ Hsh Hpay] Hval Hkey.
  assert (Hkeys : map entry_key es = map (λ p, ("fee"%string, p, fl_FeeCode f)) (map (λ e, ref_ID <$> se_Payee e) es)).
  { rewrite map_map. apply map_ext_in. intros e He. rewrite list.Forall_forall in Hsh.
    destruct (Hsh e) as (H1 & H2 & _); [by apply list_elem_of_In|]. unfold entry_key. by rewrite H1, H2. }
  split.
  2: { rewrite Hkeys. apply Forall_map, Forall_true. done. }
  assert (Hinj : Inj (=) (=) (λ p : option uuid, ("fee"%string, p, fl_FeeCode f))) by (intros a b; congruence).
  rewrite Hkeys, Hpay. apply (NoDup_fmap_2 (λ p, ("fee"%string, p, fl_FeeCode f))).
  case_bool_decide as Hlen; [apply NoDup_singleton|].
  destruct Hval as [Hv Hsome]; [by intros E; rewrite E in Hlen|].
  apply by_payee_valid in Hv as Hv'.
  assert (Hids : map (λ s, ref_ID <$> fl_Payees f !! sh_PayeeID s) (by_payee (fl_Shares f)) =
    map Some (map sh_PayeeID (by_payee (fl_Shares f)))).
  { rewrite map_map. apply map_ext_in. intros s Hs%list_elem_of_In. unfold by_payee in Hs.
    rewrite elem_of_isort in Hs. destruct (Hsome s Hs) as [ref Href]. rewrite Href. cbn. f_equal. by apply Hkey. }
  rewrite Hids. apply (NoDup_fmap_2 Some). apply Hv'.
Qed.

Lemma all_keys fees ess :
  Forall2 (λ f es, NoDup (map entry_key es) ∧
    Forall (λ k, k.2 = fl_FeeCode f ∧ k.1.1 = "fee"%string) (map entry_key es)) fees ess →
  NoDup (map fl_FeeCode fees) →
  NoDup (map entry_key (concat ess)) ∧
  Forall (λ k, k.2 ∈ map fl_FeeCode fees ∧ k.1.1 = "fee"%string) (map entry_key (concat ess)).
Proof.
  induction 1 as [|f es fees ess [Hnd Hk] _ IH]; cbn; [intros _; split; constructor|].
  intros [Hni Hnd2]%list.NoDup_cons. destruct (IH Hnd2) as [IH1 IH2]. rewrite map_app. split.
  - apply list.NoDup_app. split_and!; [done| |done]. intros k Hin1 Hin2.
    rewrite list.Forall_forall in Hk, IH2. destruct (Hk k Hin1) as [E _]. destruct (IH2 k Hin2) as [Hin _].
    rewrite E in Hin. done.
  - apply Forall_app. split.
    + eapply List.Forall_impl; [|exact Hk]. cbn. intros k [-> ->]. split; [apply list_elem_of_here|done].
    + eapply List.Forall_impl; [|exact IH2]. cbn. intros k [? ->]. split; [by apply list_elem_of_further|done].
Qed.

(** The lines an accepted, clean plan builds are insertable. *)
Lemma plan_rows plan captured entries :
  plan_typed plan → int64 captured → isISOCurrency (sp_Currency plan) = true → CleanPlan plan →
  BuildSettlementEntries plan captured = Ok entries →
  entries ≠ [] ∧ Forall (λ e, row_shape e = true) entries ∧ NoDup (map entry_key entries) ∧
  Forall (λ e, se_Currency e = sp_Currency plan) entries ∧ amounts entries = captured.
Proof.
  intros Ht Hc Hiso [Hcodes Hnamed Hpayees] Hb. pose proof Hb as Hb'.
  apply Build_Ok in Hb' as (Hs & ess & Hess & ->); [|done..]. destruct Hs as [Hcur Hf [H1 H2] Hall Hpo Hao Hfit].
  destruct (all_lines _ _ _ (pt_fees _ Ht) Hall Hess) as (Hlines & Hsum & _).
  destruct (charged_total _ _ Hall) as (Hch & ? & ?).
  assert (Horg : se_Amount (organizerEntry plan) = sp_FaceValue plan - sp_Absorbed plan).
  { destruct Ht as [[] [] [] [] _]. apply sub64_id. unfold int64, MinInt64, MaxInt64 in *. lia. }
  assert (Hfees : Forall2 (λ f es, Forall (λ e, row_shape e = true) es ∧
    Forall (λ e, se_Currency e = sp_Currency plan) es) (sp_Fees plan) ess).
  { clear -Hall Hnamed Hlines Hiso. induction Hlines as [|f es fees ess Hl _ IH]; [constructor|].
    inversion Hall as [|? ? [Hfc _ Hinc _] Hall']; inversion Hnamed; subst. constructor; [|by apply IH]. split.
    - apply (fee_lines_shape f); [done..|by rewrite Hfc].
    - eapply List.Forall_impl; [|apply (lo_shape _ _ Hl)]. cbn. intros e (_ & _ & _ & ->). done. }
  assert (Hkeys : Forall2 (λ f es, NoDup (map entry_key es) ∧
    Forall (λ k, k.2 = fl_FeeCode f ∧ k.1.1 = "fee"%string) (map entry_key es)) (sp_Fees plan) ess).
  { clear -Hall Hpayees Hlines. induction Hlines as [|f es fees ess Hl _ IH]; [constructor|].
    inversion Hall as [|? ? [_ _ _ Hsh] Hall']; inversion Hpayees; subst. constructor; [|by apply IH].
    by apply fee_lines_keys. }
  destruct (all_keys _ _ Hkeys Hcodes) as [Hnd Hkind].
  assert (Hconcat : Forall (λ e, row_shape e = true ∧ se_Currency e = sp_Currency plan) (concat ess)).
  { clear -Hfees. induction Hfees as [|f es fees ess [Ha Hb] _ IH]; cbn; [constructor|].
    apply Forall_app. split; [|done]. rewrite list.Forall_forall in *. intros e He. split; auto. }
  split_and!.
  - by destruct (concat ess).
  - apply Forall_app. split; [eapply List.Forall_impl; [|exact Hconcat]; by intros ? []|].
    constructor; [|constructor]. unfold row_shape, organizerEntry. cbn. by rewrite Hiso.
  - rewrite map_app. apply list.NoDup_app. split_and!; [done| |apply NoDup_singleton].
    intros k Hk Hin. apply list_elem_of_singleton in Hin. rewrite list.Forall_forall in Hkind.
    destruct (Hkind k Hk) as [_ E]. by subst k.
  - apply Forall_app. split; [eapply List.Forall_impl; [|exact Hconcat]; by intros ? []|by repeat constructor].
  - unfold amounts in *. rewrite map_app, sumZ_app, Hsum. cbn [map sumZ]. lia.
Qed.

(** ** The capture's append *)

Lemma wire_plan_clean (p : settlementPlanRequest) :
  NoDup (map pf_FeeCode (pr_Fees p)) → Forall (λ f, pf_FeeCode f ≠ ""%string) (pr_Fees p) →
  CleanPlan (toStorePlan p).
Proof.
  intros Hnd Hne. split; cbn.
  - by rewrite map_map.
  - apply Forall_map. exact Hne.
  - apply Forall_map, list.Forall_forall. intros f _. cbn.
    assert (Hinv : ∀ parts (m : gmap uuid PayeeRef), (∀ id ref, m !! id = Some ref → ref_ID ref = id) →
      ∀ id ref, fold_left (λ m q, <[pp_PayeeID q := part_payee q]> m) parts m !! id = Some ref → ref_ID ref = id).
    { induction parts as [|q parts IH]; intros m Hm; cbn; [done|]. apply IH. intros id ref.
      destruct (decide (pp_PayeeID q = id)) as [<-|]; [rewrite lookup_insert_eq; by intros [= <-]|].
      rewrite lookup_insert_ne by done. apply Hm. }
    apply Hinv. intros id ref. by rewrite lookup_empty.
Qed.

Lemma validate_capture (NewSHA1 : string → uuid) c r t :
  invalid_charge r = false → c.1 = in_OrganizerID r → factID NewSHA1 c "payment.captured" ≠ uuid_Nil →
  uuid_Parse (uuid_String (in_OrderID r)) = Some (in_OrderID r) →
  validate (charge_fact NewSHA1 c r "payment.captured" t) = Ok tt.
Proof.
  unfold invalid_charge. intros Hv Hc Hid Hp. zbool. unfold validate, charge_fact, payment_fact.
  cbn [f_ID f_OrganizerID f_BuyerID f_Amount f_Currency f_Type f_Payload].
  rewrite Hc, (bool_decide_false _ Hid), !bool_decide_false by done.
  assert ((in_Amount r <? 0) = false) as -> by (apply Z.ltb_ge; lia). rewrite H0. cbn [orb negb].
  assert (bool_decide ("payment.captured"%string ∈ allowedTypes) = true) as -> by reflexivity. cbn [negb].
  unfold payload_keys, payload_get; cbn [f_Payload mbind option_bind].
  rewrite map_to_list_singleton, lookup_singleton_eq. cbn [from_option id]. rewrite Hp.
  cbn [fmap list_fmap fst existsb orb].
  assert (forbidden_key "order_id" = false) as -> by reflexivity. cbn [orb].
  assert ((in_Amount r <=? 0) = false) as -> by (apply Z.leb_gt; lia). by rewrite andb_false_r.
Qed.

(** C32 (liveness). A plan the handler accepted before asking the provider is accepted
    again when the money has been captured: for a valid charge whose plan is in
    its own currency and names each fee code once, the append of the capture
    with that plan succeeds whenever the journal has room for its next entry,
    and the ledger then holds exactly the plan's lines under the capture. *)
Theorem captured_charge_settles (NewSHA1 : string → uuid) now ring c r s plan j t :
  let f := charge_fact NewSHA1 c r "payment.captured" t in
  invalid_charge r = false → int64 (in_Amount r) → c.1 = in_OrganizerID r →
  BuildSettlementEntries (toStorePlan s) (in_Amount r) = Ok plan → plan_typed (toStorePlan s) →
  pr_Currency s = in_Currency r → NoDup (map pf_FeeCode (pr_Fees s)) →
  Forall (λ f, pf_FeeCode f ≠ ""%string) (pr_Fees s) →
  uuid_Parse (uuid_String (in_OrderID r)) = Some (in_OrderID r) → f_ID f ≠ uuid_Nil →
  (∀ e, e ∈ jd_entries j → f_ID (e_Fact e) ≠ f_ID f) →
  (∀ row, row ∈ jd_ledger j → lr_FactID row ≠ f_ID f) →
  entry_insertable (next_entry ring (normalize now f) (head_of j (f_OrganizerID f))) j = true →
  ∃ j' e, AppendWithSettlement now ring f plan j = Ok (j', e, false) ∧
    map lr_Entry (rows_of (f_ID f) (jd_ledger j')) = plan.
Proof.
  intros f Hv Ham Hc Hb Ht Hcur Hnd Hne Hparse Hid Hfresh Hrows Hins.
  pose proof Hv as Hv'. unfold invalid_charge in Hv'. zbool.
  assert (Heur : in_Currency r = "EUR"%string) by (unfold SupportedCurrencies in H0; by apply bool_decide_eq_true in H0).
  destruct (plan_rows _ _ _ Ht Ham ltac:(cbn; by rewrite Hcur, Heur) (wire_plan_clean s Hnd Hne) Hb)
    as (Hnil & Hshape & Hkeys & Hcurs & Hsum).
  set (rows := map (row_for (normalize now f) (in_OrderID r)) plan).
  assert (Hall : Forall (λ x, lr_FactID x = f_ID f) rows) by (apply Forall_map, Forall_true; done).
  assert (Hold : Forall (λ x, lr_FactID x ≠ f_ID f) (jd_ledger j)) by (by apply list.Forall_forall).
  assert (Hmine : rows_of (f_ID f) (jd_ledger j ++ rows) = rows).
  { rewrite rows_of_app. unfold rows_of. rewrite bool_filter_none, bool_filter_every; [done|..].
    - eapply List.Forall_impl; [|exact Hall]. cbn. intros x Hx. by apply bool_decide_eq_true.
    - eapply List.Forall_impl; [|exact Hold]. cbn. intros x Hx. by apply bool_decide_eq_false. }
  assert (Hentries : map lr_Entry rows = plan) by (unfold rows; rewrite map_map; apply map_id).
  assert (Hlen : length rows ≠ 0%nat) by (intros E; apply Hnil; rewrite <-Hentries; by destruct rows).
  set (e := next_entry ring (normalize now f) (head_of j (f_OrganizerID f))).
  exists {| jd_heads := <[f_OrganizerID f := (e_Sequence e, e_EntryHash e)]> (jd_heads j);
            jd_entries := jd_entries j ++ [e]; jd_ledger := jd_ledger j ++ rows |}, e.
  cbn [jd_ledger]. rewrite Hmine. split; [|done].
  apply Append_Ok. split; [by apply validate_capture|]. cbn zeta.
  destruct (List.find _ (jd_entries j)) as [x|] eqn:Ef.
  { apply List.find_some in Ef as [Hx%list_elem_of_In Hx2%bool_decide_eq_true]. by destruct (Hfresh x Hx). }
  split_and!; [done..| | |done|done].
  - unfold insertSettlement. rewrite bool_decide_false by (by destruct plan).
    change (payload_get (normalize now f) "order_id") with (uuid_String (in_OrderID r)). rewrite Hparse.
    apply insertRows_succeeds; [done..|]. eapply List.Forall_impl; [|exact Hold]. cbn. intros x Hx E. done.
  - unfold commit_checks. change (f_ID (normalize now f)) with (f_ID f). cbn [jd_ledger]. rewrite Hmine.
    rewrite (bool_decide_false (length rows = 0%nat)) by done. rewrite andb_false_r. cbn [negb orb].
    rewrite andb_true_r. apply andb_true_iff. split.
    + apply forallb_forall. intros x Hx%list_elem_of_In. unfold rows in Hx.
      apply list_elem_of_In, List.in_map_iff in Hx as (y & <- & Hy%list_elem_of_In).
      unfold row_matches. rewrite !bool_decide_true; [done|done| |done|done].
      rewrite list.Forall_forall in Hcurs. cbn. rewrite (Hcurs y Hy). exact Hcur.
    + apply Z.eqb_eq. unfold ledger_total. rewrite <-map_map, Hentries. exact Hsum.
Qed.
End Charging.

(** ** The concrete charge of [PaymentFlows] *)
#[local] Existing Instance text_uuid.

Definition wire_plan (currency : string) : settlementPlanRequest :=
  default {| pr_FaceValue := 0; pr_PassedOn := 0; pr_Absorbed := 0; pr_TotalAmount := 0; pr_Currency := "";
             pr_Fees := [] |} (in_Settlement (charge_in currency)).

Definition example_lines : list SettlementEntry :=
  match BuildSettlementEntries (toStorePlan (wire_plan "EUR")) 5301 with Ok es => es | Err _ => [] end.

Lemma captured_charge_settles_witness :
  ∃ j e, AppendWithSettlement 1709210096120450000 example_ring
      (charge_fact example_sha1 ("org"%string, "k1"%string) example_charge "payment.captured" 1709210096120450000)
      example_lines empty_journal = Ok (j, e, false).
Proof.
  destruct (captured_charge_settles example_sha1 1709210096120450000 example_ring ("org"%string, "k1"%string)
    example_charge (wire_plan "EUR") example_lines empty_journal 1709210096120450000) as (j & e & H & _).
  - vm_compute. reflexivity.
  - vm_compute. split; discriminate.
  - reflexivity.
  - vm_compute. reflexivity.
  - split; [vm_compute; split; discriminate..|].
    apply List.Forall_cons; [|apply List.Forall_nil]. split; vm_compute; [split; discriminate|discriminate].
  - reflexivity.
  - apply NoDup_singleton.
  - apply List.Forall_cons; [discriminate|apply List.Forall_nil].
  - reflexivity.
  - discriminate.
  - intros x Hx. apply elem_of_nil in Hx. destruct Hx.
  - intros x Hx. apply elem_of_nil in Hx. destruct Hx.
  - vm_compute. reflexivity.
  - exists j, e. exact H.
Defined.

(** What the caller's part is for: a plan in another currency than the charge
    passes the handler's validation, the provider captures, and only then does
    the settlement table refuse the append: 500, and no capture in the journal. *)
Example foreign_plan_is_refused_after_the_capture :
  is_ok (BuildSettlementEntries (toStorePlan (wire_plan "USD")) 5301) = true ∧
  match charged_run "USD" with
  | Some (w, a, queries) =>
      queries = [QAuthorize ("org"%string, "k1"%string) example_order "buyer"%string 5301 "EUR" "tok"] ∧
      an_code a = 500 ∧
      existsb (λ e, bool_decide (f_Type (e_Fact e) = "payment.captured"%string)) (jd_entries (w_journal w)) = false
  | None => False
  end.
Proof. vm_compute. split_and!; reflexivity. Qed.
