(* ===== verification/Tables.v ===== *)
(** * Tables as finite maps, and totals over their rows

    A table keyed by an id is a [gmap]; SQL's [sum(...)] over its rows is [total].
    An UPDATE of one row moves a total by the change of that row, an UPDATE of
    many rows is a map over the table. *)

From S2P Require Import Prelude.

Section Totals.
Context {K R : Type} `{Countable K}.
Implicit Types (m : gmap K R) (g : R → Z).

Definition total g m : Z := map_fold (λ _ r acc, g r + acc) 0 m.

Lemma total_empty g : total g ∅ = 0.
Proof. apply map_fold_empty. Qed.

Lemma total_fresh g m i r : m !! i = None → total g (<[i := r]> m) = g r + total g m.
Proof. intros Hi. unfold total. rewrite map_fold_insert_L; [done|intros; lia|done]. Qed.

Lemma total_delete g m i r : m !! i = Some r → total g m = g r + total g (delete i m).
Proof.
  intros Hi. rewrite <-(insert_delete_id m i r Hi) at 1. apply total_fresh, lookup_delete_eq.
Qed.

Lemma total_insert g m i r r' :
  m !! i = Some r → total g (<[i := r']> m) = total g m - g r + g r'.
Proof.
  intros Hi. rewrite <-insert_delete_eq, total_fresh by apply lookup_delete_eq.
  rewrite (total_delete g m i r Hi). lia.
Qed.

Lemma total_fmap g (h : R → R) m : total g (h <$> m) = total (λ r, g (h r)) m.
Proof.
  induction m as [|i r m Hi IH] using map_ind; [done|].
  rewrite fmap_insert, !total_fresh, IH; [done|done|by rewrite lookup_fmap, Hi].
Qed.

Lemma total_le g g' m :
  (∀ i r, m !! i = Some r → g r ≤ g' r) → total g m ≤ total g' m.
Proof.
  induction m as [|i r m Hi IH] using map_ind; intros Hle; [by rewrite !total_empty|].
  rewrite !total_fresh by done. pose proof (Hle i r ltac:(by rewrite lookup_insert_eq)) as H1.
  enough (total g m ≤ total g' m) by lia. apply IH. intros j r' Hj. apply (Hle j).
  by rewrite lookup_insert_ne by congruence.
Qed.

Lemma total_ext g g' m : (∀ i r, m !! i = Some r → g r = g' r) → total g m = total g' m.
Proof. intros He. apply Z.le_antisymm; apply total_le; intros i r Hi; rewrite (He i r Hi); lia. Qed.

Lemma total_zero m : total (λ _, 0) m = 0.
Proof.
  induction m as [|i r m Hi IH] using map_ind; [apply total_empty|].
  rewrite total_fresh by done. lia.
Qed.

Lemma total_nonneg g m : (∀ i r, m !! i = Some r → 0 ≤ g r) → 0 ≤ total g m.
Proof. intros Hg. rewrite <-(total_zero m). by apply total_le. Qed.

Lemma total_add g g' m : total (λ r, g r + g' r) m = total g m + total g' m.
Proof.
  induction m as [|i r m Hi IH] using map_ind; [by rewrite !total_empty|].
  rewrite !total_fresh, IH by done. lia.
Qed.

(** The rows that satisfy a predicate, SELECT without an order. *)
Definition rows_where (f : R → bool) m : list R := List.filter f (map snd (map_to_list m)).

Lemma elem_of_rows_where f m r : r ∈ rows_where f m ↔ f r = true ∧ ∃ i, m !! i = Some r.
Proof.
  unfold rows_where. rewrite elem_of_bool_filter.
  change (map snd (map_to_list m)) with ((map_to_list m).*2). rewrite list_elem_of_fmap. split.
  - intros [([i x] & -> & Hx%elem_of_map_to_list) Hf]. split; [done|by exists i].
  - intros [Hf [i Hi]]. split; [|done]. exists (i, r). by rewrite elem_of_map_to_list.
Qed.

(** Does a row that satisfies a predicate exist? *)
Definition some_row (f : R → bool) m : bool := negb (bool_decide (rows_where f m = [])).

Lemma some_row_true f m : some_row f m = true ↔ ∃ i r, m !! i = Some r ∧ f r = true.
Proof.
  unfold some_row. rewrite negb_true_iff, bool_decide_eq_false. split.
  - destruct (rows_where f m) as [|r l] eqn:E; [done|]. intros _.
    assert (r ∈ rows_where f m) as Hr by (rewrite E; apply list_elem_of_here).
    apply elem_of_rows_where in Hr as [Hf [i Hi]]. by exists i, r.
  - intros (i & r & Hi & Hf) E. apply (not_elem_of_nil (A := R) r). rewrite <-E.
    apply elem_of_rows_where. split; [done|by exists i].
Qed.

Lemma some_row_false f m : some_row f m = false ↔ ∀ i r, m !! i = Some r → f r = false.
Proof.
  rewrite <-not_true_iff_false, some_row_true. split.
  - intros Hn i r Hi. apply not_true_iff_false. intros Hf. apply Hn. by exists i, r.
  - intros Hall (i & r & Hi & Hf). by rewrite (Hall i r Hi) in Hf.
Qed.
End Totals.

(** Renaming the rows of a table by a function of the row. *)
Lemma total_insert_same {K R} `{Countable K} (g : R → Z) (m : gmap K R) i r r' :
  m !! i = Some r → g r' = g r → total g (<[i := r']> m) = total g m.
Proof. intros Hi Hg. rewrite (total_insert g m i r r' Hi). lia. Qed.

(** Tables that only grow. *)
Section Growing.
Context {K R : Type} `{Countable K}.
Implicit Types (m : gmap K R) (f : R → bool).

Lemma total_subseteq (g : R → Z) m m' : (∀ r, 0 ≤ g r) → m ⊆ m' → total g m ≤ total g m'.
Proof.
  intros Hg. revert m'. induction m as [|i r m Hi IH] using map_ind; intros m' Hm.
  - rewrite total_empty. by apply total_nonneg.
  - assert (Hr : m' !! i = Some r) by (eapply lookup_weaken; [|exact Hm]; apply lookup_insert_eq).
    rewrite total_fresh, (total_delete g m' i r Hr) by done. enough (total g m ≤ total g (delete i m')) by lia.
    apply IH, map_subseteq_spec. intros j x Hj. rewrite lookup_delete_ne by congruence.
    eapply lookup_weaken; [|exact Hm]. by rewrite lookup_insert_ne by congruence.
Qed.

Lemma some_row_subseteq f m m' : m ⊆ m' → some_row f m = true → some_row f m' = true.
Proof. rewrite !some_row_true. intros Hm (i & r & Hi & Hf). exists i, r. split; [by eapply lookup_weaken|done]. Qed.

Lemma count_rows f m : Z.of_nat (length (List.filter (λ p, f p.2) (map_to_list m))) = total (λ r, if f r then 1 else 0) m.
Proof.
  induction m as [|i r m Hi IH] using map_ind; [by rewrite map_to_list_empty, total_empty|].
  rewrite map_to_list_insert, total_fresh by done. cbn [List.filter snd]. destruct (f r); cbn [length]; lia.
Qed.
End Growing.
