(* ===== verification/Inventory.v ===== *)
(** * Inventory: pools, claims and the statements on them

    [services/inventory/internal/store]: the tables of the migrations as one
    record, the predicates every query of the package is built from (store.go,
    channel_allocations.go, capacity.go, offering.go), and the statements the
    operations of [Claims] share. An operation is one transaction under its pool's
    row lock, and is modelled as one atomic step; what PostgreSQL's two clocks
    can disagree about is in [Clock]. [ErrDatabase] stands for any error of the
    driver: a constraint of the migrations, or a column that does not fit the Go
    variable it is scanned into. *)

From stdpp Require Import pretty.
From S2P Require Import Prelude Text Sha256 Format Tables.
#[local] Open Scope Z_scope.

Section Inventory.
Context `{UU : UUID}.

(** ** Time

    [now()] is frozen when the transaction starts, before it waits for the pool
    lock; [clock_timestamp()] advances. The fields are the readings a transaction
    takes, in the order it takes them. *)
Record Clock := {
  ck_now : time;      (** [now()] *)
  ck_window : time;   (** the channel's window, or a draw-down's expiry *)
  ck_code : time;     (** [redeemPresaleCode]'s one sample *)
  ck_reserve : time;  (** the allocations a public hold leaves room for *)
  ck_insert : time;   (** the anchor of a granted TTL *)
}.

Definition clock_ok (ck : Clock) : bool :=
  (ck_now ck <=? ck_window ck) && (ck_window ck <=? ck_code ck) &&
  (ck_code ck <=? ck_reserve ck) && (ck_reserve ck <=? ck_insert ck).

(** A [timestamptz] holds microseconds. *)
Definition to_timestamptz (t : time) : time := t - t `mod` 1000.

(** ** Rows *)

Inductive ClaimStatus := Held | Finalizing | Confirmed | Released | Expired.
Inductive ClaimKind := Buyer | Operational | Reservation.

#[export] Instance ClaimStatus_eq_dec : EqDecision ClaimStatus.
Proof. solve_decision. Defined.
#[export] Instance ClaimKind_eq_dec : EqDecision ClaimKind.
Proof. solve_decision. Defined.

Record Claim := {
  cl_ID : uuid;
  cl_OrganizerID : uuid;
  cl_PoolID : uuid;
  cl_Quantity : Z;
  cl_Returned : Z;
  cl_TicketTypeID : option uuid;
  cl_UnitAmount : option Z;
  cl_Currency : option string;
  cl_Status : ClaimStatus;
  cl_Channel : option string;
  cl_PresaleCode : option string;
  cl_ExpiresAt : option time;
  cl_Kind : ClaimKind;
  cl_Purpose : option string;
  cl_Label : option string;
  cl_Counterparty : option string;
  cl_Key : string;
  cl_Fingerprint : string;
  cl_ResellerScope : option uuid;
  cl_StaffScope : bool;
}.

Record Pool := {
  po_OrganizerID : uuid;
  po_Capacity : Z;
  po_Confirmed : Z;
  po_Target : option Z;
  po_Seated : bool;
  po_Archived : bool;
  po_Closed : bool;
  po_Revision : Z;
  po_SeatMap : option uuid;
  po_Orphan : bool;
}.

Record ChannelAllocation := {
  al_Channel : string;
  al_Cap : Z;
  al_ReleaseAt : option time;
  al_OpensAt : option time;
  al_ClosesAt : option time;
  al_RequiresCode : bool;
  al_SoldBy : option uuid;
}.

Record PresaleCode := {
  pc_MaxRedemptions : option Z;
  pc_OpensAt : option time;
  pc_ClosesAt : option time;
}.

Record HistoryRow := {
  hi_OrganizerID : uuid;
  hi_ClaimID : option uuid;
  hi_RelatedID : option uuid;
  hi_PoolID : option uuid;
  hi_Action : string;
  hi_Actor : string;
  hi_Reason : string;
  hi_Quantity : Z;
  hi_QuantityAfter : Z;
  hi_StatusAfter : string;
  hi_Target : option Z;
  hi_Key : option string;
  hi_Fingerprint : option string;
}.

Record SeatRow := { st_PoolID : uuid; st_ClaimedAt : time; st_ReleasedAt : option time }.

(** A seat of a projection: its neighbours in its row, and its place in the order
    of the rows; a projection of old has no order. *)
Record SeatAdjacencyRow := {
  sj_SeatIdentity : string;
  sj_Left : option string;
  sj_Right : option string;
  sj_RowKey : option string;
  sj_Position : option Z;
  sj_RowRank : option Z;
}.

(** A presale code is an organizer, a channel and the code: it spans pools. *)
Definition code_key : Type := uuid * string * string.

Record InventoryDB := {
  in_pools : gmap uuid Pool;
  in_claims : gmap uuid Claim;
  in_allocations : gmap uuid (list ChannelAllocation);
  in_codes : gmap code_key PresaleCode;
  in_history : list HistoryRow;
  in_seats : gmap (uuid * string) SeatRow;
  in_closures : gmap (uuid * uuid) (bool * Z);
  in_events : gset uuid;
  in_adjacency : gmap (uuid * string) SeatAdjacencyRow;
}.

Definition empty_inventory : InventoryDB := {|
  in_pools := ∅; in_claims := ∅; in_allocations := ∅; in_codes := ∅; in_history := [];
  in_seats := ∅; in_closures := ∅; in_events := ∅; in_adjacency := ∅ |}.

Definition with_pools (f : gmap uuid Pool → gmap uuid Pool) (db : InventoryDB) : InventoryDB := {|
  in_pools := f (in_pools db); in_claims := in_claims db; in_allocations := in_allocations db;
  in_codes := in_codes db; in_history := in_history db; in_seats := in_seats db;
  in_closures := in_closures db; in_events := in_events db;
  in_adjacency := in_adjacency db |}.
Definition with_claims (f : gmap uuid Claim → gmap uuid Claim) (db : InventoryDB) : InventoryDB := {|
  in_pools := in_pools db; in_claims := f (in_claims db); in_allocations := in_allocations db;
  in_codes := in_codes db; in_history := in_history db; in_seats := in_seats db;
  in_closures := in_closures db; in_events := in_events db;
  in_adjacency := in_adjacency db |}.
Definition with_allocations (f : gmap uuid (list ChannelAllocation) → gmap uuid (list ChannelAllocation))
    (db : InventoryDB) : InventoryDB := {|
  in_pools := in_pools db; in_claims := in_claims db; in_allocations := f (in_allocations db);
  in_codes := in_codes db; in_history := in_history db; in_seats := in_seats db;
  in_closures := in_closures db; in_events := in_events db;
  in_adjacency := in_adjacency db |}.
Definition with_codes (f : gmap code_key PresaleCode → gmap code_key PresaleCode) (db : InventoryDB) : InventoryDB := {|
  in_pools := in_pools db; in_claims := in_claims db; in_allocations := in_allocations db;
  in_codes := f (in_codes db); in_history := in_history db; in_seats := in_seats db;
  in_closures := in_closures db; in_events := in_events db;
  in_adjacency := in_adjacency db |}.
Definition with_history (f : list HistoryRow → list HistoryRow) (db : InventoryDB) : InventoryDB := {|
  in_pools := in_pools db; in_claims := in_claims db; in_allocations := in_allocations db;
  in_codes := in_codes db; in_history := f (in_history db); in_seats := in_seats db;
  in_closures := in_closures db; in_events := in_events db;
  in_adjacency := in_adjacency db |}.
Definition with_seats (f : gmap (uuid * string) SeatRow → gmap (uuid * string) SeatRow) (db : InventoryDB) : InventoryDB := {|
  in_pools := in_pools db; in_claims := in_claims db; in_allocations := in_allocations db;
  in_codes := in_codes db; in_history := in_history db; in_seats := f (in_seats db);
  in_closures := in_closures db; in_events := in_events db;
  in_adjacency := in_adjacency db |}.
Definition with_closures (f : gmap (uuid * uuid) (bool * Z) → gmap (uuid * uuid) (bool * Z)) (db : InventoryDB) : InventoryDB := {|
  in_pools := in_pools db; in_claims := in_claims db; in_allocations := in_allocations db;
  in_codes := in_codes db; in_history := in_history db; in_seats := in_seats db;
  in_closures := f (in_closures db); in_events := in_events db;
  in_adjacency := in_adjacency db |}.
Definition with_events (f : gset uuid → gset uuid) (db : InventoryDB) : InventoryDB := {|
  in_pools := in_pools db; in_claims := in_claims db; in_allocations := in_allocations db;
  in_codes := in_codes db; in_history := in_history db; in_seats := in_seats db;
  in_closures := in_closures db; in_events := f (in_events db);
  in_adjacency := in_adjacency db |}.
Definition with_adjacency (f : gmap (uuid * string) SeatAdjacencyRow → gmap (uuid * string) SeatAdjacencyRow)
    (db : InventoryDB) : InventoryDB := {|
  in_pools := in_pools db; in_claims := in_claims db; in_allocations := in_allocations db;
  in_codes := in_codes db; in_history := in_history db; in_seats := in_seats db;
  in_closures := in_closures db; in_events := in_events db;
  in_adjacency := f (in_adjacency db) |}.

Definition set_pool (p : uuid) (r : Pool) : InventoryDB → InventoryDB := with_pools (<[p := r]>).
Definition set_claim (r : Claim) : InventoryDB → InventoryDB := with_claims (<[cl_ID r := r]>).

(** UPDATEs of one column or two. *)
Definition set_status (st : ClaimStatus) (r : Claim) : Claim := {|
  cl_ID := cl_ID r; cl_OrganizerID := cl_OrganizerID r; cl_PoolID := cl_PoolID r; cl_Quantity := cl_Quantity r;
  cl_Returned := cl_Returned r; cl_TicketTypeID := cl_TicketTypeID r; cl_UnitAmount := cl_UnitAmount r;
  cl_Currency := cl_Currency r; cl_Status := st; cl_Channel := cl_Channel r; cl_PresaleCode := cl_PresaleCode r;
  cl_ExpiresAt := cl_ExpiresAt r; cl_Kind := cl_Kind r; cl_Purpose := cl_Purpose r; cl_Label := cl_Label r;
  cl_Counterparty := cl_Counterparty r; cl_Key := cl_Key r; cl_Fingerprint := cl_Fingerprint r;
  cl_ResellerScope := cl_ResellerScope r; cl_StaffScope := cl_StaffScope r |}.
Definition set_quantities (q returned : Z) (r : Claim) : Claim := {|
  cl_ID := cl_ID r; cl_OrganizerID := cl_OrganizerID r; cl_PoolID := cl_PoolID r; cl_Quantity := q;
  cl_Returned := returned; cl_TicketTypeID := cl_TicketTypeID r; cl_UnitAmount := cl_UnitAmount r;
  cl_Currency := cl_Currency r; cl_Status := cl_Status r; cl_Channel := cl_Channel r; cl_PresaleCode := cl_PresaleCode r;
  cl_ExpiresAt := cl_ExpiresAt r; cl_Kind := cl_Kind r; cl_Purpose := cl_Purpose r; cl_Label := cl_Label r;
  cl_Counterparty := cl_Counterparty r; cl_Key := cl_Key r; cl_Fingerprint := cl_Fingerprint r;
  cl_ResellerScope := cl_ResellerScope r; cl_StaffScope := cl_StaffScope r |}.
Definition set_capacity (capacity : Z) (target : option Z) (p : Pool) : Pool := {|
  po_OrganizerID := po_OrganizerID p; po_Capacity := capacity; po_Confirmed := po_Confirmed p; po_Target := target;
  po_Seated := po_Seated p; po_Archived := po_Archived p; po_Closed := po_Closed p; po_Revision := po_Revision p;
  po_SeatMap := po_SeatMap p; po_Orphan := po_Orphan p |}.
Definition set_confirmed (confirmed : Z) (p : Pool) : Pool := {|
  po_OrganizerID := po_OrganizerID p; po_Capacity := po_Capacity p; po_Confirmed := confirmed; po_Target := po_Target p;
  po_Seated := po_Seated p; po_Archived := po_Archived p; po_Closed := po_Closed p; po_Revision := po_Revision p;
  po_SeatMap := po_SeatMap p; po_Orphan := po_Orphan p |}.
Definition set_offering (archived closed : bool) (p : Pool) : Pool := {|
  po_OrganizerID := po_OrganizerID p; po_Capacity := po_Capacity p; po_Confirmed := po_Confirmed p; po_Target := po_Target p;
  po_Seated := po_Seated p; po_Archived := archived; po_Closed := closed; po_Revision := po_Revision p;
  po_SeatMap := po_SeatMap p; po_Orphan := po_Orphan p |}.
Definition set_revision (rev : Z) (p : Pool) : Pool := {|
  po_OrganizerID := po_OrganizerID p; po_Capacity := po_Capacity p; po_Confirmed := po_Confirmed p; po_Target := po_Target p;
  po_Seated := po_Seated p; po_Archived := po_Archived p; po_Closed := po_Closed p; po_Revision := rev;
  po_SeatMap := po_SeatMap p; po_Orphan := po_Orphan p |}.
Definition set_orphan (on : bool) (p : Pool) : Pool := {|
  po_OrganizerID := po_OrganizerID p; po_Capacity := po_Capacity p; po_Confirmed := po_Confirmed p; po_Target := po_Target p;
  po_Seated := po_Seated p; po_Archived := po_Archived p; po_Closed := po_Closed p; po_Revision := po_Revision p;
  po_SeatMap := po_SeatMap p; po_Orphan := on |}.

Inductive InventoryError :=
| BadRequest (msg : string)
| ErrNotFound
| ErrUnavailable
| ErrSoldOut
| ErrConflict
| ErrChannelWindowClosed
| ErrPresaleCodeInvalid
| ErrPresaleCodeInvalidInput
| ErrIdempotency
| ErrPoolKindMismatch
| ErrSlotArchived
| ErrSlotClosed
| ErrAllocationCapsExceedCapacity
| AllocationCapBelowConsumption (channel : string)
| ErrAllocationRevisionMismatch
| AllocationWindowReversed (channel : string)
| ErrRefundReturnExceedsClaim
| ErrRefundReturnNotConfirmed
| ErrRefundReturnConflict
| ErrPartialSeatedReturn
| ErrSeatSetInvalid
| ErrSeatTaken (seats : list string)
| ErrSeatOrphaned (seats : list string)
| ErrSeatProjectionIncomplete
| ErrBestAvailableUnavailable
| ErrBestAvailableUnsupported
| ErrDatabase.

#[export] Instance InventoryError_eq_dec : EqDecision InventoryError.
Proof. solve_decision. Defined.

(** ** Transactions

    The body of a transaction either fails, and is rolled back, or commits with
    an answer, which can itself be an error: an expiry found on the way is
    committed, then refused. *)
Abbreviation tx A := (result InventoryError (InventoryDB * result InventoryError A)).

Definition commit {A} (db : InventoryDB) (a : A) : tx A := Ok (db, Ok a).
Definition commit_refusal {A} (db : InventoryDB) (e : InventoryError) : tx A := Ok (db, Err e).

Definition transaction {A} (body : InventoryDB → tx A) (db : InventoryDB)
    : InventoryDB * result InventoryError A :=
  match body db with Ok (db', r) => (db', r) | Err e => (db, Err e) end.

(** [Scan] into an [int32] of a SQL sum. *)
Definition scan32 (n : Z) : result InventoryError Z := if n >? MaxInt32 then Err ErrDatabase else Ok n.

(** ** The predicates

    The column comparisons with a NULL on one side are [false] in SQL. *)

Definition after_or_null (t : time) (o : option time) : bool :=
  match o with Some e => e >? t | None => true end.
Definition passed (t : time) (o : option time) : bool :=
  match o with Some e => e <=? t | None => false end.

(** [liveClaims], judged at [now()]. *)
Definition liveClaims (now : time) (r : Claim) : bool :=
  match cl_Status r with
  | Held => after_or_null now (cl_ExpiresAt r)
  | Finalizing => true
  | _ => false
  end.

(** [Claim.expired], at the snapshot time of the row. *)
Definition expired (now : time) (r : Claim) : bool :=
  bool_decide (cl_Status r = Held) && passed now (cl_ExpiresAt r).

Definition activeAllocation (clock : time) (a : ChannelAllocation) : bool := after_or_null clock (al_ReleaseAt a).

Definition windowOpen (clock : time) (opens closes : option time) : bool :=
  match opens with Some t => t <=? clock | None => true end && after_or_null clock closes.

Definition consumingClaims (now : time) (r : Claim) : bool :=
  bool_decide (cl_Status r = Confirmed) || liveClaims now r.

Definition presaleUsageClaims (r : Claim) : bool :=
  match cl_Status r with Confirmed | Finalizing | Held => true | _ => false end.

Definition consumedQuantity (r : Claim) : Z :=
  if bool_decide (cl_Status r = Confirmed) then cl_Quantity r - cl_Returned r else cl_Quantity r.

(** ** The sums *)

Definition in_pool (p : uuid) (r : Claim) : bool := bool_decide (cl_PoolID r = p).
Definition on_channel (ch : string) (r : Claim) : bool := bool_decide (cl_Channel r = Some ch).
Definition cites (k : code_key) (r : Claim) : bool :=
  bool_decide (cl_OrganizerID r = k.1.1) && on_channel k.1.2 r && bool_decide (cl_PresaleCode r = Some k.2).

Definition counted (b : bool) (q : Z) : Z := if b then q else 0.

Definition held_quantity (now : time) (p : uuid) (db : InventoryDB) : Z :=
  total (λ r, counted (in_pool p r && liveClaims now r) (cl_Quantity r)) (in_claims db).

Definition channel_consumed (now : time) (p : uuid) (ch : string) (db : InventoryDB) : Z :=
  total (λ r, counted (in_pool p r && on_channel ch r && consumingClaims now r) (consumedQuantity r)) (in_claims db).

Definition codeRedeemedQuantity (k : code_key) (db : InventoryDB) : Z :=
  total (λ r, counted (cites k r && presaleUsageClaims r) (consumedQuantity r)) (in_claims db).

Definition allocations_of (p : uuid) (db : InventoryDB) : list ChannelAllocation :=
  default [] (in_allocations db !! p).

(** The room a public hold must leave: [reservedForChannelsSQL]. *)
Definition reservedForChannels (now clock : time) (p : uuid) (db : InventoryDB) : Z :=
  sumZ (map (λ a, Z.max (al_Cap a - channel_consumed now p (al_Channel a) db) 0)
    (List.filter (activeAllocation clock) (allocations_of p db))).

Definition active_on (clock : time) (p : uuid) (ch : string) (db : InventoryDB) : option ChannelAllocation :=
  List.find (λ a, bool_decide (al_Channel a = ch) && activeAllocation clock a) (allocations_of p db).

(** ** Columns and constraints *)

(** The text after its first [n] characters. *)
Fixpoint drop_chars (n : nat) (s : string) : string :=
  match s with
  | EmptyString => EmptyString
  | String c s' =>
      if starts_char c then match n with O => s | S m => drop_chars m s' end else drop_chars n s'
  end.

Definition is_space (c : Ascii.ascii) : bool := (Ascii.nat_of_ascii c =? 32)%nat.

(** [varchar(3)] drops spaces past the third character and refuses anything else there. *)
Definition storedCurrency (currency : string) : string :=
  let rest := drop_chars 3 currency in
  if (3 <? char_count currency)%nat && forallb is_space (list_ascii_of_string rest)
  then substring 0 (String.length currency - String.length rest) currency
  else currency.

Definition nullif (s : string) : option string := if bool_decide (s = ""%string) then None else Some s.

Definition short_text (o : option string) : bool :=
  match o with Some s => (1 <=? char_count s)%nat && (char_count s <=? 100)%nat | None => true end.
Definition not_blank (s : string) : bool := negb (forallb is_space (list_ascii_of_string s)).

(** [claims_kind_shape] of migration 0007. *)
Definition kind_shape (r : Claim) : bool :=
  match cl_Kind r with
  | Buyer =>
      negb (is_None (cl_ExpiresAt r)) && is_None (cl_Purpose r) && is_None (cl_Label r) && is_None (cl_Counterparty r)
  | Operational =>
      is_None (cl_ExpiresAt r) &&
      match cl_Purpose r with
      | Some p => bool_decide (p ∈ ["house"; "artist"; "kill"; "other"]%string)
      | None => false
      end &&
      match cl_Label r with Some l => not_blank l | None => false end &&
      is_None (cl_Channel r) && is_None (cl_Counterparty r)
  | Reservation =>
      negb (is_None (cl_ExpiresAt r)) &&
      match cl_Counterparty r with Some c => not_blank c | None => false end &&
      is_None (cl_Purpose r) && is_None (cl_Label r)
  end.

Definition claim_checks (r : Claim) : bool :=
  (0 <? cl_Quantity r) && (0 <=? cl_Returned r) && (cl_Returned r <=? cl_Quantity r) &&
  match cl_UnitAmount r with Some a => 0 <=? a | None => true end &&
  match cl_Currency r with Some c => (char_count c <=? 3)%nat | None => true end &&
  short_text (cl_Channel r) && short_text (cl_PresaleCode r) &&
  (is_None (cl_PresaleCode r) || negb (is_None (cl_Channel r))) &&
  (negb (cl_StaffScope r) || is_None (cl_ResellerScope r)) &&
  kind_shape r.

(** The three idempotency namespaces are partial unique indexes over one set of columns. *)
Definition same_scope (org : uuid) (key : string) (reseller : option uuid) (staff : bool) (r : Claim) : bool :=
  bool_decide (cl_OrganizerID r = org) && bool_decide (cl_Key r = key) &&
  bool_decide (cl_ResellerScope r = reseller) && Bool.eqb (cl_StaffScope r) staff.

Definition find_claim (org : uuid) (key : string) (reseller : option uuid) (staff : bool) (db : InventoryDB)
    : option Claim :=
  head (rows_where (same_scope org key reseller staff) (in_claims db)).

Definition insertClaim (r : Claim) (db : InventoryDB) : result InventoryError InventoryDB :=
  match in_claims db !! cl_ID r, in_pools db !! cl_PoolID r with
  | None, Some _ =>
      if negb (claim_checks r) then Err ErrDatabase
      else if negb (is_None (find_claim (cl_OrganizerID r) (cl_Key r) (cl_ResellerScope r) (cl_StaffScope r) db))
      then Err ErrIdempotency
      else Ok (set_claim r db)
  | _, _ => Err ErrDatabase
  end.

(** ** claim_history *)

Definition status_text (s : ClaimStatus) : string :=
  match s with
  | Held => "held" | Finalizing => "finalizing" | Confirmed => "confirmed"
  | Released => "released" | Expired => "expired"
  end.

Definition history_insertable (h : HistoryRow) (db : InventoryDB) : bool :=
  not_blank (hi_Actor h) && not_blank (hi_Reason h) && (0 <? hi_Quantity h) && (0 <=? hi_QuantityAfter h) &&
  match hi_Key h with
  | Some k => forallb (λ x, negb (bool_decide (hi_OrganizerID x = hi_OrganizerID h ∧ hi_Key x = Some k))) (in_history db)
  | None => true
  end.

Definition insertHistory (h : HistoryRow) (db : InventoryDB) : result InventoryError InventoryDB :=
  if history_insertable h db then Ok (with_history (λ l, l ++ [h]) db) else Err ErrDatabase.

Definition claim_event (org claim : uuid) (related : option uuid) (action actor reason : string) (qty qtyAfter : Z)
    (statusAfter : string) (request : option (string * string)) : HistoryRow := {|
  hi_OrganizerID := org; hi_ClaimID := Some claim; hi_RelatedID := related; hi_PoolID := None;
  hi_Action := action; hi_Actor := actor; hi_Reason := reason; hi_Quantity := qty; hi_QuantityAfter := qtyAfter;
  hi_StatusAfter := statusAfter; hi_Target := None; hi_Key := fst <$> request; hi_Fingerprint := snd <$> request |}.

Definition appendHistory (org claim : uuid) (related : option uuid) (action actor reason : string) (qty qtyAfter : Z)
    (statusAfter : string) (request : option (string * string)) : InventoryDB → result InventoryError InventoryDB :=
  insertHistory (claim_event org claim related action actor reason qty qtyAfter statusAfter request).

Definition expiry_event (r : Claim) : HistoryRow :=
  claim_event (cl_OrganizerID r) (cl_ID r) None "expire" "system" "ttl_elapsed" (cl_Quantity r) 0 "expired" None.

(** ** Shared statements *)

Definition terminal (s : ClaimStatus) : bool := match s with Expired | Released => true | _ => false end.

Definition seat_due (p : uuid) (db : InventoryDB) (k : uuid * string) (s : SeatRow) : bool :=
  bool_decide (st_PoolID s = p) && is_None (st_ReleasedAt s) &&
  match in_claims db !! k.1 with Some r => in_pool p r && terminal (cl_Status r) | None => false end.

Definition release_seat (now : time) (s : SeatRow) : SeatRow := {|
  st_PoolID := st_PoolID s; st_ClaimedAt := st_ClaimedAt s; st_ReleasedAt := Some now |}.

(** A released seat is not released before it was claimed. *)
Definition releasable (now : time) (s : SeatRow) : bool := st_ClaimedAt s <=? now.

Definition release_seats_where (due : uuid * string → SeatRow → bool) (now : time) (db : InventoryDB)
    : result InventoryError InventoryDB :=
  if forallb (λ ks, implb (due ks.1 ks.2) (releasable now ks.2)) (map_to_list (in_seats db))
  then Ok (with_seats (map_imap (λ k s, Some (if due k s then release_seat now s else s))) db)
  else Err ErrDatabase.

Definition releaseSeatsForTerminal (now : time) (p : uuid) (db : InventoryDB) : result InventoryError InventoryDB :=
  release_seats_where (seat_due p db) now db.

(** Demand follows a draining cut down to its target. *)
Definition reconciled (target held : Z) (p : Pool) : Pool :=
  set_capacity (Z.max target (po_Confirmed p + held))
    (if po_Confirmed p + held <=? target then None else Some target) p.

Definition reconcileCapacity (now : time) (p : uuid) (db : InventoryDB) : result InventoryError InventoryDB :=
  match in_pools db !! p with
  | Some pool =>
      match po_Target pool with
      | Some target =>
          let held := held_quantity now p db in
          if po_Confirmed pool + held >? MaxInt32 then Err ErrDatabase
          else Ok (set_pool p (reconciled target held pool) db)
      | None => Ok db
      end
  | None => Ok db
  end.

Definition due (now : time) (p : uuid) (r : Claim) : bool := in_pool p r && expired now r.

Definition sweep (now : time) (p : uuid) (r : Claim) : Claim := if due now p r then set_status Expired r else r.

Definition sweepExpired (now : time) (p : uuid) (db : InventoryDB) : result InventoryError InventoryDB :=
  let swept := rows_where (due now p) (in_claims db) in
  let db := with_claims (fmap (sweep now p)) db in
  let db := with_history (λ l, l ++ map expiry_event swept) db in
  db ← releaseSeatsForTerminal now p db;
  reconcileCapacity now p db.

Definition offeringStatus (archived closed : bool) : string :=
  if archived then "archived" else if closed then "closed" else "open".

Definition guardOffering (p : Pool) : result InventoryError unit :=
  if po_Archived p then Err ErrSlotArchived else if po_Closed p then Err ErrSlotClosed else Ok tt.

(** SELECT ... FOR UPDATE of a pool of the organizer. *)
Definition pool_of_org (org p : uuid) (db : InventoryDB) : result InventoryError Pool :=
  match in_pools db !! p with
  | Some pool => if bool_decide (po_OrganizerID pool = org) then Ok pool else Err ErrNotFound
  | None => Err ErrNotFound
  end.

(** New demand is admitted against a draining cut's target. *)
Definition limit (p : Pool) : Z := default (po_Capacity p) (po_Target p).

(** ** Request identity *)

Definition opFingerprint (parts : list string) : string :=
  Hex (Sum256 ("[" +:+ join " " parts +:+ "]")).

Definition fingerprint (org slot ticketType : uuid) (qty unitAmount : Z) (currency channel presaleCode : string)
    (reseller : option uuid) : string :=
  let s := join ":" [uuid_String org; uuid_String slot; uuid_String ticketType; pretty qty; pretty unitAmount; currency] in
  let s := if bool_decide (channel = ""%string) then s else s +:+ ":" +:+ channel in
  let s := if bool_decide (presaleCode = ""%string) then s
           else s +:+ ":c" +:+ pretty (String.length channel) +:+ ":" +:+ channel +:+
                ":p" +:+ pretty (String.length presaleCode) +:+ ":" +:+ presaleCode in
  let s := match reseller with
           | Some r => s +:+ ":r" +:+ pretty (String.length (uuid_String r)) +:+ ":" +:+ uuid_String r
           | None => s
           end in
  Hex (Sum256 s).

Definition sellerAdmits (soldBy caller : option uuid) : bool :=
  match soldBy with None => true | Some s => bool_decide (caller = Some s) end.

(** The registry of staff operations. *)
Definition registryLookup (org : uuid) (key fp : string) (db : InventoryDB)
    : result InventoryError (option HistoryRow) :=
  match List.find (λ h, bool_decide (hi_OrganizerID h = org ∧ hi_Key h = Some key)) (in_history db) with
  | None => Ok None
  | Some h => if bool_decide (default ""%string (hi_Fingerprint h) = fp) then Ok (Some h) else Err ErrIdempotency
  end.
End Inventory.

Abbreviation tx A := (result InventoryError (InventoryDB * result InventoryError A)).
