(* ===== verification/Claims.v ===== *)
(** * The inventory operations

    [services/inventory/internal/store]: provisioning and refund returns, buyer
    holds and their transitions (store.go), staff holds (operational.go), group
    reservations (reservations.go), capacity (capacity.go), channel allocations
    (channel_allocations.go), presale codes (presale_codes.go) and the offering
    state (offering.go). Each is the body of one transaction; the fresh ids it
    draws are arguments, and so is the [Clock] it reads. *)

From stdpp Require Import pretty.
From S2P Require Import Prelude Text Sha256 Format Tables Inventory.
#[local] Open Scope Z_scope.

Section Claims.
Context `{UU : UUID}.

(** ** presale_codes.go *)

Definition redeemPresaleCode (t : time) (org slot : uuid) (channel code : string) (qty : Z) (db : InventoryDB)
    : result InventoryError unit :=
  if bool_decide (code = ""%string) then Err ErrPresaleCodeInvalid
  else
  match List.find (λ a, bool_decide (al_Channel a = channel)) (allocations_of slot db) with
  | None => Err ErrDatabase
  | Some a =>
  match in_codes db !! (org, channel, code) with
  | None => Err ErrPresaleCodeInvalid
  | Some c =>
      if negb (windowOpen t (al_OpensAt a) (al_ClosesAt a)) || negb (windowOpen t (pc_OpensAt c) (pc_ClosesAt c))
      then Err ErrPresaleCodeInvalid
      else
        match pc_MaxRedemptions c with
        | None => Ok tt
        | Some max =>
            if codeRedeemedQuantity (org, channel, code) db + qty >? max
            then Err ErrPresaleCodeInvalid else Ok tt
        end
  end end.

Definition window_ordered (opens closes : option time) : bool :=
  match opens, closes with Some o, Some c => o <? c | _, _ => true end.

Definition validatePresaleCode (k : code_key) (c : PresaleCode) : result InventoryError unit :=
  if bool_decide (k.1.1 = uuid_Nil) then Err ErrPresaleCodeInvalidInput
  else if (String.length k.1.2 <? 1)%nat || (100 <? String.length k.1.2)%nat then Err ErrPresaleCodeInvalidInput
  else if (String.length k.2 <? 1)%nat || (100 <? String.length k.2)%nat then Err ErrPresaleCodeInvalidInput
  else if match pc_MaxRedemptions c with Some m => m <=? 0 | None => false end then Err ErrPresaleCodeInvalidInput
  else if negb (window_ordered (pc_OpensAt c) (pc_ClosesAt c)) then Err ErrPresaleCodeInvalidInput
  else Ok tt.

Definition IssuePresaleCode (k : code_key) (c : PresaleCode) (db : InventoryDB) : tx PresaleCode :=
  _ ← validatePresaleCode k c;
  commit (with_codes (<[k := c]>) db) c.

(** ** store.go: Provision *)

Definition new_pool (org : uuid) (capacity : Z) : Pool := {|
  po_OrganizerID := org; po_Capacity := capacity; po_Confirmed := 0; po_Target := None; po_Seated := false;
  po_Archived := false; po_Closed := false; po_Revision := 0; po_SeatMap := None; po_Orphan := false |}.

Definition untouched (slot org : uuid) (pool : Pool) (db : InventoryDB) : bool :=
  bool_decide (po_OrganizerID pool = org) && (po_Confirmed pool =? 0) &&
  negb (some_row (in_pool slot) (in_claims db)) &&
  forallb (λ h, negb (bool_decide (hi_PoolID h = Some slot))) (in_history db).

Definition Provision (eventID slot org : uuid) (capacity : Z) (db : InventoryDB) : tx unit :=
  if capacity <=? 0 then Err (BadRequest "capacity must be positive")
  else if bool_decide (eventID ∈ in_events db) then commit db tt
  else
    let db := with_events (λ s, {[eventID]} ∪ s) db in
    match in_pools db !! slot with
    | None => commit (set_pool slot (new_pool org capacity) db) tt
    | Some pool =>
        if untouched slot org pool db then
          if match po_Target pool with Some t => capacity <=? t | None => false end then Err ErrDatabase
          else commit (set_pool slot (set_capacity capacity (po_Target pool) pool) db) tt
        else commit db tt
    end.

(** ** store.go: CreateHold *)

Record HoldRequest := {
  hr_OrganizerID : uuid;
  hr_SlotID : uuid;
  hr_TicketTypeID : uuid;
  hr_Quantity : Z;
  hr_UnitAmount : Z;
  hr_Currency : string;
  hr_Channel : string;
  hr_Key : string;
  hr_PresaleCode : string;
  hr_Reseller : option uuid;
}.

Definition hold_fingerprint (rq : HoldRequest) : string :=
  fingerprint (hr_OrganizerID rq) (hr_SlotID rq) (hr_TicketTypeID rq) (hr_Quantity rq) (hr_UnitAmount rq)
    (hr_Currency rq) (hr_Channel rq) (hr_PresaleCode rq) (hr_Reseller rq).

(** What identifies a request beyond its key. *)
Definition same_request (rq : HoldRequest) (r : Claim) : bool :=
  bool_decide (cl_Fingerprint r = hold_fingerprint rq) &&
  bool_decide (default ""%string (cl_Channel r) = hr_Channel rq) &&
  bool_decide (default ""%string (cl_Currency r) = storedCurrency (hr_Currency rq)).

(** The channel's own refusals, before any capacity arithmetic: window, then
    seller, then code. *)
Definition channelGate (ck : Clock) (org slot : uuid) (channel code : string) (reseller : option uuid) (qty : Z)
    (db : InventoryDB) : result InventoryError (option ChannelAllocation) :=
  if bool_decide (channel = ""%string) then Ok None
  else
  match active_on (ck_window ck) slot channel db with
  | None => Ok None
  | Some a =>
      if negb (windowOpen (ck_window ck) (al_OpensAt a) (al_ClosesAt a)) then Err ErrChannelWindowClosed
      else if negb (sellerAdmits (al_SoldBy a) reseller) then Err ErrUnavailable
      else if al_RequiresCode a
      then _ ← redeemPresaleCode (ck_code ck) org slot channel code qty db; Ok (Some a)
      else Ok (Some a)
  end.

(** A code is recorded only where the allocation asked for one. *)
Definition recorded_code (a : option ChannelAllocation) (code : string) : string :=
  match a with Some a => if al_RequiresCode a then code else "" | None => "" end.

Definition channelHeadroom (now : time) (slot : uuid) (channel : string) (a : option ChannelAllocation) (qty : Z)
    (db : InventoryDB) : result InventoryError unit :=
  match a with
  | None => Err ErrUnavailable
  | Some a => if channel_consumed now slot channel db + qty >? al_Cap a then Err ErrUnavailable else Ok tt
  end.

Definition globalShort (pool : Pool) (held qty : Z) : bool := po_Confirmed pool + held + qty >? limit pool.

Definition holdHeadroom (ck : Clock) (slot : uuid) (channel : string) (a : option ChannelAllocation) (pool : Pool)
    (qty : Z) (db : InventoryDB) : result InventoryError unit :=
  held ← scan32 (held_quantity (ck_now ck) slot db);
  if negb (bool_decide (channel = ""%string)) then
    if globalShort pool held qty then Err ErrUnavailable
    else channelHeadroom (ck_now ck) slot channel a qty db
  else
    let publicRemaining :=
      limit pool - po_Confirmed pool - held - reservedForChannels (ck_now ck) (ck_reserve ck) slot db in
    if publicRemaining <=? 0 then Err ErrSoldOut
    else if (qty >? publicRemaining) || globalShort pool held qty then Err ErrUnavailable
    else Ok tt.

Definition buyer_claim (id org slot ticketType : uuid) (qty unitAmount : Z) (currency : string)
    (channel code : option string) (expires : time) (key fp : string) (reseller : option uuid) (staff : bool) : Claim := {|
  cl_ID := id; cl_OrganizerID := org; cl_PoolID := slot; cl_Quantity := qty; cl_Returned := 0;
  cl_TicketTypeID := Some ticketType; cl_UnitAmount := Some unitAmount; cl_Currency := Some (storedCurrency currency);
  cl_Status := Held; cl_Channel := channel; cl_PresaleCode := code; cl_ExpiresAt := Some expires; cl_Kind := Buyer;
  cl_Purpose := None; cl_Label := None; cl_Counterparty := None; cl_Key := key; cl_Fingerprint := fp;
  cl_ResellerScope := reseller; cl_StaffScope := staff |}.

Definition hold_claim (ttl : Z) (ck : Clock) (id : uuid) (rq : HoldRequest) (code : string) : Claim :=
  buyer_claim id (hr_OrganizerID rq) (hr_SlotID rq) (hr_TicketTypeID rq) (hr_Quantity rq) (hr_UnitAmount rq)
    (hr_Currency rq) (nullif (hr_Channel rq)) (nullif code) (ck_insert ck + ttl) (hr_Key rq) (hold_fingerprint rq)
    (hr_Reseller rq) false.

Definition recordHold (ttl : Z) (ck : Clock) (id : uuid) (rq : HoldRequest) (a : option ChannelAllocation) (db : InventoryDB)
    : tx (Claim * bool) :=
  let c := hold_claim ttl ck id rq (recorded_code a (hr_PresaleCode rq)) in
  db ← insertClaim c db;
  db ← appendHistory (hr_OrganizerID rq) id None "create" "buyer" "public_hold" (hr_Quantity rq) (hr_Quantity rq) "held" None db;
  commit db (c, false).

Definition grantHold (ttl : Z) (ck : Clock) (id : uuid) (rq : HoldRequest) (pool : Pool) (db : InventoryDB)
    : tx (Claim * bool) :=
  let org := hr_OrganizerID rq in let slot := hr_SlotID rq in let qty := hr_Quantity rq in
  _ ← guardOffering pool;
  db ← sweepExpired (ck_now ck) slot db;
  a ← channelGate ck org slot (hr_Channel rq) (hr_PresaleCode rq) (hr_Reseller rq) qty db;
  _ ← holdHeadroom ck slot (hr_Channel rq) a pool qty db;
  recordHold ttl ck id rq a db.

Definition expire_claim (r : Claim) (db : InventoryDB) : result InventoryError InventoryDB :=
  insertHistory (expiry_event r) (set_claim (set_status Expired r) db).

Definition CreateHold (ttl : Z) (ck : Clock) (id : uuid) (rq : HoldRequest) (db : InventoryDB) : tx (Claim * bool) :=
  if hr_Quantity rq <=? 0 then Err (BadRequest "quantity must be positive")
  else
    pool ← pool_of_org (hr_OrganizerID rq) (hr_SlotID rq) db;
    if po_Seated pool then Err ErrPoolKindMismatch
    else
    match find_claim (hr_OrganizerID rq) (hr_Key rq) (hr_Reseller rq) false db with
    | Some existing =>
        if negb (same_request rq existing) then Err ErrIdempotency
        else if expired (ck_now ck) existing
        then db ← expire_claim existing db; commit_refusal db ErrConflict
        else commit db (existing, true)
    | None => grantHold ttl ck id rq pool db
    end.

(** ** store.go: Transition *)

Definition claim_of_org (org id : uuid) (db : InventoryDB) : result InventoryError Claim :=
  match in_claims db !! id with
  | Some r => if bool_decide (cl_OrganizerID r = org) then Ok r else Err ErrNotFound
  | None => Err ErrNotFound
  end.

(** The claim as the checkout finds it: an expiry that is due is written first. *)
Definition settleExpiry (now : time) (r : Claim) (db : InventoryDB) : result InventoryError (InventoryDB * Claim) :=
  if expired now r then
    db ← expire_claim r db;
    db ← releaseSeatsForTerminal now (cl_PoolID r) db;
    db ← reconcileCapacity now (cl_PoolID r) db;
    Ok (db, set_status Expired r)
  else Ok (db, r).

Definition addConfirmed (p : uuid) (qty : Z) (db : InventoryDB) : result InventoryError InventoryDB :=
  match in_pools db !! p with
  | Some pool =>
      if po_Confirmed pool + qty >? MaxInt32 then Err ErrDatabase
      else Ok (set_pool p (set_confirmed (po_Confirmed pool + qty) pool) db)
  | None => Ok db
  end.

Definition finishClaim (now : time) (org : uuid) (target : ClaimStatus) (r : Claim) (db : InventoryDB) : tx Claim :=
  db ← (if bool_decide (target = Confirmed) then addConfirmed (cl_PoolID r) (cl_Quantity r) db else Ok db);
  let r' := set_status target r in
  let db := set_claim r' db in
  db ← (if bool_decide (target = Released) then
          db ← releaseSeatsForTerminal now (cl_PoolID r) db;
          reconcileCapacity now (cl_PoolID r) db
        else Ok db);
  let action := if bool_decide (target = Released) then "release"%string else "confirm"%string in
  let after := if bool_decide (target = Released) then 0 else cl_Quantity r in
  db ← appendHistory org (cl_ID r) None action "commerce" "checkout" (cl_Quantity r) after (status_text target) None db;
  commit db r'.

Definition Transition (ck : Clock) (org id : uuid) (target : ClaimStatus) (db : InventoryDB) : tx Claim :=
  let now := ck_now ck in
  r ← claim_of_org org id db;
  if negb (bool_decide (cl_Kind r = Buyer)) then Err ErrConflict
  else
    settled ← settleExpiry now r db;
    let db := fst settled in let r := snd settled in
    if bool_decide (cl_Status r = target) then commit db r
    else if bool_decide (target = Finalizing ∧ cl_Status r = Confirmed) then commit db r
    else if bool_decide (target = Released ∧ cl_Status r = Expired) then commit db r
    else if bool_decide (target = Finalizing ∧ cl_Status r = Held) then
      let db := set_claim (set_status Finalizing r) db in
      db ← appendHistory org id None "finalize" "commerce" "checkout" (cl_Quantity r) (cl_Quantity r) "finalizing" None db;
      commit db (set_status Finalizing r)
    else if negb (bool_decide (cl_Status r = Held)) && negb (bool_decide (cl_Status r = Finalizing))
    then Err ErrConflict
    else finishClaim now org target r db.

(** ** capacity.go *)

Record CapacityAdjustment := {
  ca_Before : Z; ca_Capacity : Z; ca_Target : option Z; ca_Status : string; ca_Replay : bool }.

Definition capacity_event (org slot : uuid) (actor reason key fp : string) (adj : CapacityAdjustment) : HistoryRow := {|
  hi_OrganizerID := org; hi_ClaimID := None; hi_RelatedID := None; hi_PoolID := Some slot;
  hi_Action := "adjust_capacity"; hi_Actor := actor; hi_Reason := reason; hi_Quantity := ca_Before adj;
  hi_QuantityAfter := ca_Capacity adj; hi_StatusAfter := ca_Status adj; hi_Target := ca_Target adj;
  hi_Key := Some key; hi_Fingerprint := Some fp |}.

Definition adjusted (newCap demand before : Z) : CapacityAdjustment :=
  if newCap <? demand
  then {| ca_Before := before; ca_Capacity := wrap32 demand; ca_Target := Some newCap; ca_Status := "clamped"; ca_Replay := false |}
  else {| ca_Before := before; ca_Capacity := newCap; ca_Target := None; ca_Status := "applied"; ca_Replay := false |}.

Definition AdjustCapacity (ck : Clock) (org slot : uuid) (newCap : Z) (actor reason key : string) (db : InventoryDB)
    : tx CapacityAdjustment :=
  if newCap <=? 0 then Err (BadRequest "capacity must be positive")
  else
    let fp := opFingerprint ["adjust-capacity"; uuid_String org; uuid_String slot; pretty newCap]%string in
    pool ← pool_of_org org slot db;
    prior ← registryLookup org key fp db;
    match prior with
    | Some h => commit db {| ca_Before := hi_Quantity h; ca_Capacity := hi_QuantityAfter h; ca_Target := hi_Target h;
                             ca_Status := hi_StatusAfter h; ca_Replay := true |}
    | None =>
        if po_Archived pool then Err ErrSlotArchived
        else
          db ← sweepExpired (ck_now ck) slot db;
          pool ← pool_of_org org slot db;
          held ← scan32 (held_quantity (ck_now ck) slot db);
          let adj := adjusted newCap (po_Confirmed pool + held) (po_Capacity pool) in
          let db := set_pool slot (set_capacity (ca_Capacity adj) (ca_Target adj) pool) db in
          db ← insertHistory (capacity_event org slot actor reason key fp adj) db;
          commit db adj
    end.

(** ** channel_allocations.go *)

Fixpoint checkAllocations (seen : list string) (allocs : list ChannelAllocation) (total : Z)
    : result InventoryError Z :=
  match allocs with
  | [] => Ok total
  | a :: rest =>
      if bool_decide (al_Channel a = ""%string) || (al_Cap a <=? 0)
      then Err (BadRequest "allocation needs a channel and a positive cap")
      else if bool_decide (al_Channel a ∈ seen) then Err (BadRequest "duplicate channel")
      else checkAllocations (al_Channel a :: seen) rest (total + al_Cap a)
  end.

Definition reversed_window (allocs : list ChannelAllocation) : option ChannelAllocation :=
  List.find (λ a, negb (window_ordered (al_OpensAt a) (al_ClosesAt a))) allocs.

Definition below_consumption (now : time) (slot : uuid) (db : InventoryDB) (allocs : list ChannelAllocation)
    : option ChannelAllocation :=
  List.find (λ a, channel_consumed now slot (al_Channel a) db >? al_Cap a) allocs.

Definition ReplaceChannelAllocations (ck : Clock) (org slot : uuid) (allocs : list ChannelAllocation)
    (expectedRevision : option Z) (db : InventoryDB) : tx (list ChannelAllocation) :=
  total ← checkAllocations [] allocs 0;
  pool ← pool_of_org org slot db;
  if match expectedRevision with Some r => negb (r =? po_Revision pool) | None => false end
  then Err ErrAllocationRevisionMismatch
  else if po_Seated pool && negb (bool_decide (allocs = [])) then Err ErrPoolKindMismatch
  else
  match reversed_window allocs with
  | Some a => Err (AllocationWindowReversed (al_Channel a))
  | None =>
  if total >? limit pool then Err ErrAllocationCapsExceedCapacity
  else
  match below_consumption (ck_now ck) slot db allocs with
  | Some a => Err (AllocationCapBelowConsumption (al_Channel a))
  | None =>
      if negb (forallb (λ a, short_text (Some (al_Channel a))) allocs) then Err ErrDatabase
      else
        let db := with_allocations (<[slot := allocs]>) db in
        commit (set_pool slot (set_revision (po_Revision pool + 1) pool) db) allocs
  end end.

(** ** operational.go *)

Record StaffHold := { sh_ID : uuid; sh_Quantity : Z; sh_Status : string; sh_Replay : bool }.

Definition staff_claim (id org slot : uuid) (qty : Z) (kind : ClaimKind) (purpose label counterparty : option string)
    (channel code : option string) (expires : option time) (key fp : string) : Claim := {|
  cl_ID := id; cl_OrganizerID := org; cl_PoolID := slot; cl_Quantity := qty; cl_Returned := 0;
  cl_TicketTypeID := None; cl_UnitAmount := None; cl_Currency := None;
  cl_Status := Held; cl_Channel := channel; cl_PresaleCode := code; cl_ExpiresAt := expires; cl_Kind := kind;
  cl_Purpose := purpose; cl_Label := label; cl_Counterparty := counterparty; cl_Key := key; cl_Fingerprint := fp;
  cl_ResellerScope := None; cl_StaffScope := true |}.

Definition nil_or (o : option uuid) : uuid := default uuid_Nil o.

Definition PlaceOperationalHold (ck : Clock) (id org slot : uuid) (qty : Z) (purpose label actor reason key : string)
    (db : InventoryDB) : tx StaffHold :=
  if qty <=? 0 then Err (BadRequest "quantity must be positive")
  else
    let fp := opFingerprint ["op-place"; uuid_String org; uuid_String slot; pretty qty; purpose; label]%string in
    pool ← pool_of_org org slot db;
    if po_Seated pool then Err ErrPoolKindMismatch
    else
      prior ← registryLookup org key fp db;
      match prior with
      | Some h => commit db {| sh_ID := nil_or (hi_ClaimID h); sh_Quantity := hi_Quantity h;
                               sh_Status := hi_StatusAfter h; sh_Replay := true |}
      | None =>
          _ ← guardOffering pool;
          db ← sweepExpired (ck_now ck) slot db;
          held ← scan32 (held_quantity (ck_now ck) slot db);
          if globalShort pool held qty then Err ErrUnavailable
          else
            db ← insertClaim (staff_claim id org slot qty Operational (Some purpose) (Some label) None None None None key fp) db;
            db ← appendHistory org id None "place" actor reason qty qty "held" (Some (key, fp)) db;
            commit db {| sh_ID := id; sh_Quantity := qty; sh_Status := "held"; sh_Replay := false |}
      end.

(** [lockOperational], and its counterpart inside [DrawDownGroupReservation]. *)
Definition claim_of_kind (kind : ClaimKind) (org id : uuid) (db : InventoryDB) : result InventoryError Claim :=
  r ← claim_of_org org id db;
  if bool_decide (cl_Kind r = kind) then Ok r else Err ErrNotFound.

(** Take [qty] out of a held claim: all of it releases the claim, which keeps
    its quantity for the record. *)
Definition carve (qty : Z) (r : Claim) : Claim :=
  if qty =? cl_Quantity r then set_status Released r else set_quantities (cl_Quantity r - qty) (cl_Returned r) r.
Definition carved_status (qty : Z) (r : Claim) : string := if qty =? cl_Quantity r then "released" else "held".
Definition carved_remaining (qty : Z) (r : Claim) : Z := if qty =? cl_Quantity r then 0 else cl_Quantity r - qty.

Definition ReleaseOperational (ck : Clock) (org id : uuid) (qty : Z) (actor reason key : string) (db : InventoryDB)
    : tx StaffHold :=
  if qty <=? 0 then Err (BadRequest "quantity must be positive")
  else
    let fp := opFingerprint ["op-release"; uuid_String org; uuid_String id; pretty qty]%string in
    _ ← claim_of_org org id db;
    prior ← registryLookup org key fp db;
    match prior with
    | Some h => commit db {| sh_ID := nil_or (hi_ClaimID h); sh_Quantity := hi_QuantityAfter h;
                             sh_Status := hi_StatusAfter h; sh_Replay := true |}
    | None =>
        r ← claim_of_kind Operational org id db;
        if negb (bool_decide (cl_Status r = Held)) || (qty >? cl_Quantity r) then Err ErrConflict
        else
          let db := set_claim (carve qty r) db in
          db ← appendHistory org id None "release" actor reason qty (carved_remaining qty r) (carved_status qty r)
                 (Some (key, fp)) db;
          db ← reconcileCapacity (ck_now ck) (cl_PoolID r) db;
          commit db {| sh_ID := id; sh_Quantity := carved_remaining qty r; sh_Status := carved_status qty r; sh_Replay := false |}
    end.

Record ConvertResult := { cr_Child : Claim; cr_SourceRemaining : Z; cr_SourceStatus : string; cr_Replay : bool }.

Definition replayConvert (h : HistoryRow) (related : uuid) (db : InventoryDB) : tx ConvertResult :=
  match in_claims db !! related with
  | Some child => commit db {| cr_Child := child; cr_SourceRemaining := hi_QuantityAfter h;
                               cr_SourceStatus := hi_StatusAfter h; cr_Replay := true |}
  | None => Err ErrDatabase
  end.

(** A registered conversion names the child it made. *)
Definition converted (prior : option HistoryRow) : option (HistoryRow * uuid) :=
  h ← prior; related ← hi_RelatedID h; Some (h, related).

(** The quantity-neutral swap both conversions make: a child buyer hold against
    the source it is carved from. *)
Definition carveChild (action actor reason key fp : string) (org : uuid) (qty : Z) (source child : Claim)
    (db : InventoryDB) : tx ConvertResult :=
  db ← insertClaim child db;
  let db := set_claim (carve qty source) db in
  db ← appendHistory org (cl_ID source) (Some (cl_ID child)) action actor reason qty (carved_remaining qty source)
         (carved_status qty source) (Some (key, fp)) db;
  commit db {| cr_Child := child; cr_SourceRemaining := carved_remaining qty source;
               cr_SourceStatus := carved_status qty source; cr_Replay := false |}.

Definition ConvertOperational (ttl : Z) (ck : Clock) (child org id ticketType expectedSlot : uuid) (qty unitAmount : Z)
    (currency actor reason key : string) (db : InventoryDB) : tx ConvertResult :=
  if qty <=? 0 then Err (BadRequest "quantity must be positive")
  else
    let fp := opFingerprint ["op-convert"; uuid_String org; uuid_String id; pretty qty; uuid_String ticketType;
                             uuid_String expectedSlot; pretty unitAmount; currency]%string in
    _ ← claim_of_org org id db;
    prior ← registryLookup org key fp db;
    match converted prior with
    | Some (h, related) => replayConvert h related db
    | None =>
        r ← claim_of_kind Operational org id db;
        if negb (bool_decide (cl_PoolID r = expectedSlot)) then Err ErrConflict
        else if negb (bool_decide (cl_Status r = Held)) || (qty >? cl_Quantity r) then Err ErrConflict
        else
          carveChild "convert" actor reason key fp org qty r
            (buyer_claim child org (cl_PoolID r) ticketType qty unitAmount currency None None (ck_insert ck + ttl) key fp None true) db
    end.

(** ** reservations.go *)

Record ReservationRequest := {
  gr_OrganizerID : uuid;
  gr_SlotID : uuid;
  gr_Quantity : Z;
  gr_Counterparty : string;
  gr_ExpiresAt : time;
  gr_Channel : string;
  gr_Actor : string;
  gr_Reason : string;
  gr_Key : string;
  gr_PresaleCode : string;
  gr_Reseller : option uuid;
}.

Definition reservation_fingerprint (rq : ReservationRequest) : string :=
  opFingerprint (["grp-place"%string; uuid_String (gr_OrganizerID rq); uuid_String (gr_SlotID rq); pretty (gr_Quantity rq);
                  gr_Counterparty rq; RFC3339Nano (gr_ExpiresAt rq); gr_Channel rq] ++
    if bool_decide (gr_PresaleCode rq = ""%string) then []
    else [("c" +:+ pretty (String.length (gr_Channel rq)) +:+ ":" +:+ gr_Channel rq +:+ ":p" +:+
           pretty (String.length (gr_PresaleCode rq)) +:+ ":" +:+ gr_PresaleCode rq)%string]).

Definition reservationHeadroom (ck : Clock) (slot : uuid) (channel : string) (a : option ChannelAllocation) (pool : Pool)
    (qty : Z) (db : InventoryDB) : result InventoryError unit :=
  held ← scan32 (held_quantity (ck_now ck) slot db);
  if globalShort pool held qty then Err ErrUnavailable
  else if negb (bool_decide (channel = ""%string)) then channelHeadroom (ck_now ck) slot channel a qty db
  else if po_Confirmed pool + held + qty + reservedForChannels (ck_now ck) (ck_reserve ck) slot db >? limit pool
  then Err ErrUnavailable
  else Ok tt.

Definition reservation_claim (id : uuid) (rq : ReservationRequest) (code : string) : Claim :=
  staff_claim id (gr_OrganizerID rq) (gr_SlotID rq) (gr_Quantity rq) Reservation None None (Some (gr_Counterparty rq))
    (nullif (gr_Channel rq)) (nullif code) (Some (to_timestamptz (gr_ExpiresAt rq))) (gr_Key rq) (reservation_fingerprint rq).

Definition placeReservation (ck : Clock) (id : uuid) (rq : ReservationRequest) (pool : Pool) (db : InventoryDB)
    : tx StaffHold :=
  let org := gr_OrganizerID rq in let slot := gr_SlotID rq in let qty := gr_Quantity rq in
  _ ← guardOffering pool;
  if negb (to_timestamptz (gr_ExpiresAt rq) >? ck_window ck) then Err ErrConflict
  else
    db ← sweepExpired (ck_now ck) slot db;
    a ← channelGate ck org slot (gr_Channel rq) (gr_PresaleCode rq) (gr_Reseller rq) qty db;
    _ ← reservationHeadroom ck slot (gr_Channel rq) a pool qty db;
    db ← insertClaim (reservation_claim id rq (recorded_code a (gr_PresaleCode rq))) db;
    db ← appendHistory org id None "reserve" (gr_Actor rq) (gr_Reason rq) qty qty "held"
           (Some (gr_Key rq, reservation_fingerprint rq)) db;
    commit db {| sh_ID := id; sh_Quantity := qty; sh_Status := "held"; sh_Replay := false |}.

Definition PlaceGroupReservation (ck : Clock) (id : uuid) (rq : ReservationRequest) (db : InventoryDB) : tx StaffHold :=
  if gr_Quantity rq <=? 0 then Err (BadRequest "quantity must be positive")
  else
    pool ← pool_of_org (gr_OrganizerID rq) (gr_SlotID rq) db;
    if po_Seated pool then Err ErrPoolKindMismatch
    else
      prior ← registryLookup (gr_OrganizerID rq) (gr_Key rq) (reservation_fingerprint rq) db;
      match prior with
      | Some h => commit db {| sh_ID := nil_or (hi_ClaimID h); sh_Quantity := hi_Quantity h;
                               sh_Status := hi_StatusAfter h; sh_Replay := true |}
      | None => placeReservation ck id rq pool db
      end.

Definition DrawDownGroupReservation (ttl : Z) (ck : Clock) (child org id ticketType expectedSlot : uuid)
    (qty unitAmount : Z) (currency actor reason key : string) (db : InventoryDB) : tx ConvertResult :=
  if qty <=? 0 then Err (BadRequest "quantity must be positive")
  else
    let fp := opFingerprint ["grp-draw"; uuid_String org; uuid_String id; pretty qty; uuid_String ticketType;
                             uuid_String expectedSlot; pretty unitAmount; currency]%string in
    _ ← claim_of_org org id db;
    prior ← registryLookup org key fp db;
    match converted prior with
    | Some (h, related) => replayConvert h related db
    | None =>
        r ← claim_of_kind Reservation org id db;
        if expired (ck_window ck) r then
          db ← expire_claim r db;
          db ← reconcileCapacity (ck_now ck) (cl_PoolID r) db;
          commit_refusal db ErrConflict
        else if negb (bool_decide (cl_PoolID r = expectedSlot)) then Err ErrConflict
        else if negb (bool_decide (cl_Status r = Held)) || (qty >? cl_Quantity r) then Err ErrConflict
        else
          carveChild "draw_down" actor reason key fp org qty r
            (buyer_claim child org (cl_PoolID r) ticketType qty unitAmount currency (cl_Channel r) (cl_PresaleCode r)
               (ck_insert ck + ttl) key fp None true) db
    end.

(** ** refund_returns.go *)

Record RefundCapacityReturn := { rr_Quantity : Z; rr_Unreturned : Z; rr_Replay : bool }.

Definition refundReturnKey (refundID : uuid) : string := "refund:" +:+ uuid_String refundID.
Definition refundReturnFingerprint (org id : uuid) (qty : Z) : string :=
  opFingerprint ["refund-return"; uuid_String org; uuid_String id; pretty qty]%string.

Definition seats_of (id : uuid) (db : InventoryDB) : list (uuid * string) :=
  List.filter (λ k, bool_decide (k.1 = id)) (map fst (map_to_list (in_seats db))).

(** A full return of a seated claim frees its seats; a partial one has no answer. *)
Definition returnSeats (now : time) (r : Claim) (qty : Z) (db : InventoryDB) : result InventoryError InventoryDB :=
  if bool_decide (seats_of (cl_ID r) db = []) then Ok db
  else if negb (cl_Returned r =? 0) || negb (qty =? cl_Quantity r) then Err ErrPartialSeatedReturn
  else release_seats_where (λ k s, bool_decide (k.1 = cl_ID r) && is_None (st_ReleasedAt s)) now db.

Definition returnQuantity (p : uuid) (qty : Z) (db : InventoryDB) : result InventoryError InventoryDB :=
  match in_pools db !! p with
  | Some pool =>
      if po_Confirmed pool >=? qty then Ok (set_pool p (set_confirmed (po_Confirmed pool - qty) pool) db)
      else Err ErrRefundReturnExceedsClaim
  | None => Err ErrRefundReturnExceedsClaim
  end.

Definition updateClaim (r : Claim) (db : InventoryDB) : result InventoryError InventoryDB :=
  if claim_checks r then Ok (set_claim r db) else Err ErrDatabase.

Definition applyReturn (now : time) (org refundID : uuid) (r : Claim) (qty : Z) (db : InventoryDB)
    : tx RefundCapacityReturn :=
  db ← returnSeats now r qty db;
  db ← returnQuantity (cl_PoolID r) qty db;
  db ← updateClaim (set_quantities (cl_Quantity r) (cl_Returned r + qty) r) db;
  db ← reconcileCapacity now (cl_PoolID r) db;
  let after := cl_Quantity r - cl_Returned r - qty in
  db ← appendHistory org (cl_ID r) None "refund_return" "commerce" "refund" qty after "confirmed"
         (Some (refundReturnKey refundID, refundReturnFingerprint org (cl_ID r) qty)) db;
  commit db {| rr_Quantity := qty; rr_Unreturned := after; rr_Replay := false |}.

Definition ReturnRefundedCapacity (ck : Clock) (org id refundID : uuid) (qty : Z) (db : InventoryDB)
    : tx RefundCapacityReturn :=
  if qty <? 1 then Err (BadRequest "refund return quantity must be positive")
  else
    r ← claim_of_org org id db;
    match List.find (λ h, bool_decide (hi_OrganizerID h = org ∧ hi_Key h = Some (refundReturnKey refundID))) (in_history db) with
    | Some h =>
        if negb (bool_decide (hi_Fingerprint h = Some (refundReturnFingerprint org id qty))) then Err ErrRefundReturnConflict
        else commit db {| rr_Quantity := qty; rr_Unreturned := hi_QuantityAfter h; rr_Replay := true |}
    | None =>
        if negb (bool_decide (cl_Status r = Confirmed)) || negb (bool_decide (cl_Kind r = Buyer))
        then Err ErrRefundReturnNotConfirmed
        else if wrap32 (cl_Returned r + qty) >? cl_Quantity r then Err ErrRefundReturnExceedsClaim
        else applyReturn (ck_now ck) org refundID r qty db
    end.

(** ** offering.go *)

Definition ApplyArchive (eventID p : uuid) (db : InventoryDB) : tx unit :=
  match in_pools db !! p with
  | None => Err ErrNotFound
  | Some pool =>
      if bool_decide (eventID ∈ in_events db) then commit db tt
      else
        let db := with_events (λ s, {[eventID]} ∪ s) db in
        commit (set_pool p (set_offering true (po_Closed pool) pool) db) tt
  end.

(** Versions are ordered per performance; a stale one changes nothing. *)
Definition upsert_closure (p performance : uuid) (closed : bool) (version : Z) (m : gmap (uuid * uuid) (bool * Z))
    : gmap (uuid * uuid) (bool * Z) :=
  match m !! (p, performance) with
  | Some (_, v) => if v <? version then <[(p, performance) := (closed, version)]> m else m
  | None => <[(p, performance) := (closed, version)]> m
  end.

Definition any_closed (p : uuid) (m : gmap (uuid * uuid) (bool * Z)) : bool :=
  existsb (λ kv, bool_decide (kv.1.1 = p) && kv.2.1) (map_to_list m).

Definition ApplyClosure (eventID p performance : uuid) (closed : bool) (version : Z) (db : InventoryDB) : tx unit :=
  match in_pools db !! p with
  | None => Err ErrNotFound
  | Some pool =>
      if bool_decide (eventID ∈ in_events db) then commit db tt
      else if version <? 1 then Err ErrDatabase
      else
        let db := with_events (λ s, {[eventID]} ∪ s) db in
        let db := with_closures (upsert_closure p performance closed version) db in
        commit (set_pool p (set_offering (po_Archived pool) (any_closed p (in_closures db)) pool) db) tt
  end.
End Claims.
