(* ===== verification/SeatMap.v ===== *)
(** * The seats of a pool

    [services/inventory/internal/store/seat_claims.go]: the projection of a seat
    map that a seated pool carries (each seat's neighbours, and where it is
    ordered the place of each seat in its row), how a projection is checked where
    it is written, and the provisioning of a seated pool.

    Every refusal of a projection wraps [ErrSeatProjectionIncomplete]; which seat
    its text names is not modelled. *)

From stdpp Require Import pretty.
From S2P Require Import Prelude Text Sha256 Format Tables Inventory Claims.
#[local] Open Scope Z_scope.

Section SeatMap.
Context `{UU : UUID}.
Implicit Types (r a : SeatAdjacencyRow) (rows : list SeatAdjacencyRow) (db : InventoryDB).

(** ** Edges *)

Definition names r (id : string) : bool := bool_decide (sj_Left r = Some id) || bool_decide (sj_Right r = Some id).

Definition edges r : list string := option_list (sj_Left r) ++ option_list (sj_Right r).

Definition byID rows : gmap string SeatAdjacencyRow := foldl (λ m r, <[sj_SeatIdentity r := r]> m) ∅ rows.

(** Every neighbour a seat names has a row, which names the seat back. *)
Definition edges_back (m : gmap string SeatAdjacencyRow) r : bool :=
  forallb (λ n, match m !! n with Some other => names other (sj_SeatIdentity r) | None => false end) (edges r).

(** ** The order *)

Record OrderState := {
  os_ordered : nat;
  os_seen : gmap string (gmap Z string);
  os_rankOf : gmap string Z;
  os_keyOf : gmap Z string;
}.

Definition order_start : OrderState := {| os_ordered := 0; os_seen := ∅; os_rankOf := ∅; os_keyOf := ∅ |}.

(** A row whose place is wholly given takes a position nobody has, in a row with
    one rank, a rank with one row. *)
Definition order_row (st : OrderState) r : result InventoryError OrderState :=
  match sj_RowKey r, sj_Position r, sj_RowRank r with
  | None, None, None => Ok st
  | Some key, Some pos, Some rank =>
      let seen := default ∅ (os_seen st !! key) in
      if bool_decide (TrimSpace key = ""%string) || (pos <=? 0) || (rank <=? 0) then Err ErrSeatProjectionIncomplete
      else if negb (is_None (seen !! pos)) then Err ErrSeatProjectionIncomplete
      else if match os_rankOf st !! key with Some prior => negb (prior =? rank) | None => false end then Err ErrSeatProjectionIncomplete
      else if match os_keyOf st !! rank with Some prior => negb (bool_decide (prior = key)) | None => false end
      then Err ErrSeatProjectionIncomplete
      else Ok {| os_ordered := S (os_ordered st); os_seen := <[key := <[pos := sj_SeatIdentity r]> seen]> (os_seen st);
                 os_rankOf := <[key := rank]> (os_rankOf st); os_keyOf := <[rank := key]> (os_keyOf st) |}
  | _, _, _ => Err ErrSeatProjectionIncomplete
  end.

Definition add_position (m : gmap string (gmap Z SeatAdjacencyRow)) r : gmap string (gmap Z SeatAdjacencyRow) :=
  match sj_RowKey r, sj_Position r with
  | Some key, Some pos => <[key := <[pos := r]> (default ∅ (m !! key))]> m
  | _, _ => m
  end.

Definition byRowPos rows : gmap string (gmap Z SeatAdjacencyRow) := foldl add_position ∅ rows.

(** An edge names the seat at the position beside, and only if there is one. *)
Definition beside (seats : gmap Z SeatAdjacencyRow) (edge : option string) (pos : Z) : bool :=
  match seats !! pos, edge with
  | None, None => true
  | Some want, Some e => bool_decide (e = sj_SeatIdentity want)
  | _, _ => false
  end.

Definition seat_fits (seats : gmap Z SeatAdjacencyRow) (pos : Z) : bool :=
  match seats !! pos with
  | Some seat => beside seats (sj_Left seat) (pos - 1) && beside seats (sj_Right seat) (pos + 1)
  | None => false
  end.

(** The positions of a row run from 1, and its edges are those of the positions. *)
Definition row_fits (seats : gmap Z SeatAdjacencyRow) : bool := forallb (seat_fits seats) (map Z.of_nat (List.seq 1 (size seats))).

Definition validateAdjacencyOrder rows : result InventoryError unit :=
  st ← fold_result order_row order_start rows;
  if negb (os_ordered st =? 0)%nat && negb (os_ordered st =? length rows)%nat then Err ErrSeatProjectionIncomplete
  else if (os_ordered st =? 0)%nat then Ok tt
  else if forallb (λ p, row_fits p.2) (map_to_list (byRowPos rows)) then Ok tt
  else Err ErrSeatProjectionIncomplete.

Definition validateAdjacency rows : result InventoryError unit :=
  if forallb (edges_back (byID rows)) rows then validateAdjacencyOrder rows else Err ErrSeatProjectionIncomplete.

(** ** Provisioning *)

Definition seated_pool (org seatMap : uuid) (capacity : Z) (orphanPrevention : bool) : Pool := {|
  po_OrganizerID := org; po_Capacity := capacity; po_Confirmed := 0; po_Target := None; po_Seated := true;
  po_Archived := false; po_Closed := false; po_Revision := 0; po_SeatMap := Some seatMap; po_Orphan := orphanPrevention |}.

Definition projection_of (slot : uuid) db : list SeatAdjacencyRow :=
  map snd (List.filter (λ p : uuid * string * SeatAdjacencyRow, bool_decide (p.1.1 = slot)) (map_to_list (in_adjacency db))).

(** What is stored and what is published describe one geometry: the same edges,
    and the same place in the row where one is stored. Ranks may differ. *)
Definition same_geometry (slot : uuid) db a : bool :=
  match in_adjacency db !! (slot, sj_SeatIdentity a) with
  | None => false
  | Some r =>
      bool_decide (sj_Left r = sj_Left a) && bool_decide (sj_Right r = sj_Right a) &&
      match sj_RowKey r with
      | Some key =>
          negb (is_None (sj_RowRank a)) && bool_decide (sj_RowKey a = Some key) &&
          bool_decide (sj_Position a = Some (default 0 (sj_Position r)))
      | None => true
      end
  end.

Definition not_blank_or_null (o : option string) : bool := match o with Some s => not_blank s | None => true end.

(** The constraints of migrations 0011 and 0018. *)
Definition order_shape a : bool :=
  match sj_RowKey a, sj_Position a, sj_RowRank a with
  | None, None, None => true
  | Some key, Some pos, Some rank => not_blank key && (0 <? pos) && (0 <? rank)
  | _, _, _ => false
  end.

Definition place_taken (slot : uuid) a db : bool :=
  negb (is_None (sj_RowKey a)) &&
  existsb (λ r, negb (bool_decide (sj_SeatIdentity r = sj_SeatIdentity a)) && bool_decide (sj_RowRank r = sj_RowRank a) &&
                bool_decide (sj_RowKey r = sj_RowKey a) && bool_decide (sj_Position r = sj_Position a)) (projection_of slot db).

(** The order takes what is published, the edges of a stored row stay. *)
Definition merged_row (slot : uuid) db a : SeatAdjacencyRow :=
  match in_adjacency db !! (slot, sj_SeatIdentity a) with
  | Some r => {| sj_SeatIdentity := sj_SeatIdentity r; sj_Left := sj_Left r; sj_Right := sj_Right r;
                 sj_RowKey := sj_RowKey a; sj_Position := sj_Position a; sj_RowRank := sj_RowRank a |}
  | None => a
  end.

Definition upsert_adjacency (slot : uuid) db a : result InventoryError InventoryDB :=
  if not_blank (sj_SeatIdentity a) && not_blank_or_null (sj_Left a) && not_blank_or_null (sj_Right a) && order_shape a &&
     negb (place_taken slot a db)
  then Ok (with_adjacency (<[(slot, sj_SeatIdentity a) := merged_row slot db a]>) db)
  else Err ErrDatabase.

(** The pool, or the flag of the pool that is there and is the same. *)
Definition seat_pool (slot org seatMap : uuid) (capacity : Z) (orphanPrevention : bool) db : result InventoryError InventoryDB :=
  match in_pools db !! slot with
  | None => Ok (set_pool slot (seated_pool org seatMap capacity orphanPrevention) db)
  | Some pool =>
      if negb (po_Seated pool) || negb (bool_decide (po_OrganizerID pool = org)) || negb (bool_decide (po_SeatMap pool = Some seatMap))
      then Err ErrPoolKindMismatch
      else if orphanPrevention then Ok (set_pool slot (set_orphan true pool) db) else Ok db
  end.

Definition describes_stored (slot : uuid) (adjacency : list SeatAdjacencyRow) db : bool :=
  let stored := length (projection_of slot db) in
  (stored =? 0)%nat || (length adjacency =? 0)%nat ||
  ((stored =? length adjacency)%nat && forallb (same_geometry slot db) adjacency).

Definition ProvisionSeated (eventID slot org seatMap : uuid) (capacity : Z) (orphanPrevention : bool)
    (adjacency : list SeatAdjacencyRow) db : tx unit :=
  _ ← validateAdjacency adjacency;
  if capacity <=? 0 then Err (BadRequest "capacity must be positive")
  else if bool_decide (seatMap = uuid_Nil) then Err (BadRequest "seated pool requires a seat map")
  else if orphanPrevention && bool_decide (length adjacency = 0%nat)
  then Err (BadRequest "orphan-prevention pool requires a seat adjacency projection")
  else if bool_decide (eventID ∈ in_events db) then commit db tt
  else
    let db := with_events (λ s, {[eventID]} ∪ s) db in
    db ← seat_pool slot org seatMap capacity orphanPrevention db;
    if negb (describes_stored slot adjacency db) then Err ErrSeatProjectionIncomplete
    else db ← fold_result (upsert_adjacency slot) db adjacency; commit db tt.
End SeatMap.
