(* ===== verification/SeatClaims.v ===== *)
(** * Seat holds

    [services/inventory/internal/store/seat_claims.go]: holding named seats, the
    choice of the best available run, what a pool's seats look like to a buyer,
    and the verdicts on the claims catalog's pins name. Each operation is the body
    of one transaction under its pool's row lock, as in [Claims].

    PostgreSQL's text order is modelled as the order of the bytes. Positions are
    unbounded integers: where a projection is valid they are at most its size. *)

From stdpp Require Import pretty.
From S2P Require Import Prelude Text Sha256 Format Tables Inventory Claims SeatMap.
#[local] Open Scope Z_scope.

Section SeatClaims.
Context `{UU : UUID}.
Implicit Types (db : InventoryDB) (slot : uuid) (seat : string) (canon : list string).

(** ** What occupies a seat *)

Definition live_seat slot seat (k : uuid * string) (s : SeatRow) : bool :=
  bool_decide (st_PoolID s = slot) && bool_decide (k.2 = seat) && is_None (st_ReleasedAt s).

Definition seat_rows db : list (uuid * string * SeatRow) := map_to_list (in_seats db).

(** A row of the partial unique index. *)
Definition seat_held slot db seat : bool := existsb (λ ks, live_seat slot seat ks.1 ks.2) (seat_rows db).

(** The seats of [seatOccupancySeatsQuery] and of the [taken] and [occupied]
    sets: a live row whose claim still consumes. *)
Definition seat_taken (now : time) slot db seat : bool :=
  existsb (λ ks, live_seat slot seat ks.1 ks.2 &&
    match in_claims db !! ks.1.1 with Some r => consumingClaims now r | None => false end) (seat_rows db).

Definition contendedSeats slot canon db : list string :=
  isort String.ltb (List.filter (seat_held slot db) canon).

(** ** The orphan rule *)

Definition adjacent slot db seat : option SeatAdjacencyRow := in_adjacency db !! (slot, seat).

Definition neighbours slot db seat : list string := match adjacent slot db seat with Some r => edges r | None => [] end.

(** [projectionGapsQuery]: the rows the answer rests on are there, and what they
    name names them back. *)
Definition needed slot db canon : list string := canon ++ mjoin (map (neighbours slot db) canon).

Definition gap slot db seat : bool :=
  match adjacent slot db seat with
  | None => true
  | Some r => existsb (λ n, match adjacent slot db n with Some b => negb (names b seat) | None => false end) (edges r)
  end.

(** [orphanedSeatsQuery]: among the neighbours of the request, the free seats
    that have a neighbour and none that is free. *)
Definition candidates slot db canon : list string :=
  List.filter (λ n, negb (bool_decide (n ∈ canon))) (remove_dups (mjoin (map (neighbours slot db) canon))).

Definition scope slot db canon : list string :=
  candidates slot db canon ++ mjoin (map (neighbours slot db) (candidates slot db canon)).

Definition occupied (now : time) slot db canon seat : bool :=
  bool_decide (seat ∈ canon) || (bool_decide (seat ∈ scope slot db canon) && seat_taken now slot db seat).

Definition stranded (now : time) slot db canon seat : bool :=
  match adjacent slot db seat with
  | Some r =>
      negb (is_None (sj_Left r) && is_None (sj_Right r)) && negb (occupied now slot db canon seat) &&
      forallb (occupied now slot db canon) (edges r)
  | None => false
  end.

Definition orphanedSeats (now : time) slot canon db : result InventoryError (list string) :=
  if existsb (gap slot db) (needed slot db canon) then Err ErrSeatProjectionIncomplete
  else Ok (isort String.ltb (List.filter (stranded now slot db canon) (candidates slot db canon))).

(** ** Requests *)

Definition MaxSeatsPerHold : Z := 50.

Definition pinnedBy (claim : uuid) : string := "hold:" +:+ uuid_String claim.

Record PinRef := { pr_SeatMapID : uuid; pr_Seats : list string; pr_PinnedBy : string }.

Record SeatHold := {
  sh_Claim : Claim;
  sh_SeatMapID : uuid;
  sh_Seats : list string;
  sh_PinnedBy : string;
  sh_Replay : bool;
  sh_ExpiredPins : list PinRef;
}.

Definition add_seat (out : list string) (s : string) : result InventoryError (list string) :=
  let s := TrimSpace s in
  if bool_decide (s = ""%string) then Err ErrSeatSetInvalid
  else if bool_decide (s ∈ out) then Ok out
  else Ok (out ++ [s]).

Definition canonicalSeats (seats : list string) : result InventoryError (list string) :=
  out ← fold_result add_seat [] seats;
  if bool_decide (length out = 0%nat) || (MaxSeatsPerHold <? Z.of_nat (length out)) then Err ErrSeatSetInvalid
  else Ok (isort String.ltb out).

Definition json_array (l : list string) : string := "[" +:+ join "," (map json_string l) +:+ "]".

Definition seatFingerprint (org slot ticketType : uuid) (seats : list string) (unitAmount : Z) (currency : string) : string :=
  Hex (Sum256 ("seat:" +:+ join ":" [uuid_String org; uuid_String slot; uuid_String ticketType; json_array seats; pretty unitAmount; currency])).

Definition bestAvailableFingerprint (org slot ticketType : uuid) (count unitAmount : Z) (currency : string) : string :=
  Hex (Sum256 ("best:" +:+ join ":" [uuid_String org; uuid_String slot; uuid_String ticketType; pretty count; pretty unitAmount; currency])).

(** ** The steps the two holds share *)

(** The locked read of the pool. *)
Definition seated_of_org (org slot : uuid) db : result InventoryError (Pool * uuid) :=
  pool ← pool_of_org org slot db;
  match po_SeatMap pool with
  | Some m => if po_Seated pool then Ok (pool, m) else Err ErrPoolKindMismatch
  | None => Err ErrPoolKindMismatch
  end.

Definition of_claim (id : uuid) (k : uuid * string) (s : SeatRow) : bool := bool_decide (k.1 = id) && is_None (st_ReleasedAt s).

(** A spent key: its hold ran out, and its seats go with it. *)
Definition expire_seats (now : time) (r : Claim) db : result InventoryError InventoryDB :=
  db ← expire_claim r db; release_seats_where (of_claim (cl_ID r)) now db.

Definition expiring (now : time) slot db (ks : uuid * string * SeatRow) : bool :=
  bool_decide (st_PoolID ks.2 = slot) && is_None (st_ReleasedAt ks.2) &&
  match in_claims db !! ks.1.1 with Some r => expired now r | None => false end.

Definition seatsAboutToExpire (now : time) slot (seatMap : uuid) db : list PinRef :=
  let rows := map fst (List.filter (expiring now slot db) (seat_rows db)) in
  map (λ id, {| pr_SeatMapID := seatMap; pr_Seats := map snd (List.filter (λ k : uuid * string, bool_decide (k.1 = id)) rows);
                pr_PinnedBy := pinnedBy id |})
    (isort uuid_ltb (remove_dups (map fst rows))).

(** The ceiling: what is confirmed and held leaves room under the limit. *)
Definition seatCeiling (now : time) slot (pool : Pool) (qty : Z) db : result InventoryError unit :=
  held ← scan32 (held_quantity now slot db); refuse_if (globalShort pool held qty) ErrUnavailable.

(** The arbitration of a set of seats. *)
Definition arbitrate (now : time) slot (pool : Pool) canon db : result InventoryError unit :=
  let contended := contendedSeats slot canon db in
  if negb (bool_decide (length contended = 0%nat)) then Err (ErrSeatTaken contended)
  else if po_Orphan pool then
    seats ← orphanedSeats now slot canon db;
    if negb (bool_decide (length seats = 0%nat)) then Err (ErrSeatOrphaned seats) else Ok tt
  else Ok tt.

(** The insert of a seat, under [claim_seats_one_live_per_seat]. *)
Definition insert_seat (now : time) (id slot : uuid) db seat : result InventoryError InventoryDB :=
  if negb (is_None (in_seats db !! (id, seat))) || negb (not_blank seat) then Err ErrDatabase
  else if seat_held slot db seat then Err (ErrSeatTaken [])
  else Ok (with_seats (<[(id, seat) := {| st_PoolID := slot; st_ClaimedAt := now; st_ReleasedAt := None |}]>) db).

Record SeatRequest := {
  sq_OrganizerID : uuid;
  sq_SlotID : uuid;
  sq_TicketTypeID : uuid;
  sq_UnitAmount : Z;
  sq_Currency : string;
  sq_Key : string;
}.

Definition seat_claim (ttl : Z) (ck : Clock) (id : uuid) (rq : SeatRequest) (qty : Z) (fp : string) : Claim :=
  buyer_claim id (sq_OrganizerID rq) (sq_SlotID rq) (sq_TicketTypeID rq) qty (sq_UnitAmount rq) (sq_Currency rq)
    None None (ck_insert ck + ttl) (sq_Key rq) fp None false.

Definition recordSeatHold (ttl : Z) (ck : Clock) (id : uuid) (rq : SeatRequest) (seatMap : uuid) (fp : string) (canon : list string)
    (pins : list PinRef) db : tx SeatHold :=
  let qty := Z.of_nat (length canon) in
  let c := seat_claim ttl ck id rq qty fp in
  db ← insertClaim c db;
  db ← fold_result (insert_seat (ck_now ck) id (sq_SlotID rq)) db canon;
  db ← appendHistory (sq_OrganizerID rq) id None "create" "buyer" "seat_hold" qty qty "held" None db;
  commit db {| sh_Claim := c; sh_SeatMapID := seatMap; sh_Seats := canon; sh_PinnedBy := pinnedBy id; sh_Replay := false;
               sh_ExpiredPins := pins |}.

Definition replay_hold (seatMap : uuid) (r : Claim) (seats : list string) : SeatHold :=
  {| sh_Claim := r; sh_SeatMapID := seatMap; sh_Seats := seats; sh_PinnedBy := pinnedBy (cl_ID r); sh_Replay := true; sh_ExpiredPins := [] |}.

(** ** Named seats *)

Definition grantSeats (ttl : Z) (ck : Clock) (id : uuid) (rq : SeatRequest) (pool : Pool) (seatMap : uuid) (fp : string) canon db
    : tx SeatHold :=
  let slot := sq_SlotID rq in let now := ck_now ck in
  _ ← guardOffering pool;
  let pins := seatsAboutToExpire now slot seatMap db in
  db ← sweepExpired now slot db;
  _ ← seatCeiling now slot pool (Z.of_nat (length canon)) db;
  _ ← arbitrate now slot pool canon db;
  recordSeatHold ttl ck id rq seatMap fp canon pins db.

Definition CreateSeatHold (ttl : Z) (ck : Clock) (id : uuid) (rq : SeatRequest) (seats : list string) db : tx SeatHold :=
  canon ← canonicalSeats seats;
  pm ← seated_of_org (sq_OrganizerID rq) (sq_SlotID rq) db;
  let fp := seatFingerprint (sq_OrganizerID rq) (sq_SlotID rq) (sq_TicketTypeID rq) canon (sq_UnitAmount rq) (sq_Currency rq) in
  match find_claim (sq_OrganizerID rq) (sq_Key rq) None false db with
  | Some existing =>
      if negb (bool_decide (cl_Fingerprint existing = fp)) then Err ErrIdempotency
      else if expired (ck_now ck) existing
      then db ← expire_seats (ck_now ck) existing db; commit_refusal db ErrConflict
      else if terminal (cl_Status existing) then Err ErrConflict
      else commit db (replay_hold pm.2 existing canon)
  | None => grantSeats ttl ck id rq pm.1 pm.2 fp canon db
  end.

(** ** The best available run *)

Definition MaxBestAvailableScan : nat := 400.

(** A seat of the projection that has a place in the order. *)
Record PlacedSeat := { ps_Seat : string; ps_Row : string; ps_Rank : Z; ps_Position : Z; ps_Edges : bool }.

Definition placed (r : SeatAdjacencyRow) : option PlacedSeat :=
  match sj_RowKey r, sj_RowRank r, sj_Position r with
  | Some key, Some rank, Some pos =>
      Some {| ps_Seat := sj_SeatIdentity r; ps_Row := key; ps_Rank := rank; ps_Position := pos;
              ps_Edges := negb (is_None (sj_Left r) && is_None (sj_Right r)) |}
  | _, _, _ => None
  end.

Definition row_before : PlacedSeat → PlacedSeat → bool := lex (on_key ps_Rank Z.ltb) (on_key ps_Row String.ltb).
Definition place_before : PlacedSeat → PlacedSeat → bool := lex row_before (on_key ps_Position Z.ltb).

Definition same_row (a b : PlacedSeat) : bool := bool_decide (ps_Row a = ps_Row b).

Definition placed_seats slot db : list PlacedSeat := omap placed (projection_of slot db).

Definition ordered_seats (scan : nat) slot db : list PlacedSeat := take scan (isort place_before (placed_seats slot db)).

(** The seats up to two places outside of what was scanned of a row. *)
Definition in_context (ordered : list PlacedSeat) (a : PlacedSeat) : bool :=
  let row := List.filter (same_row a) ordered in
  match row with
  | [] => false
  | x :: _ =>
      let lo := foldr (λ b, Z.min (ps_Position b)) (ps_Position x) row in
      let hi := foldr (λ b, Z.max (ps_Position b)) (ps_Position x) row in
      bool_decide (ps_Position a ∈ [lo - 2; lo - 1; hi + 1; hi + 2])
  end.

Definition context_seats (ordered : list PlacedSeat) slot db : list PlacedSeat :=
  ordered ++ List.filter (in_context ordered) (placed_seats slot db).

Definition free_of (now : time) slot db (l : list PlacedSeat) : list PlacedSeat :=
  List.filter (λ a, negb (seat_taken now slot db (ps_Seat a))) l.

(** [position - row_number()], constant along a run of neighbours. *)
Definition row_number (free : list PlacedSeat) (a : PlacedSeat) : Z :=
  1 + Z.of_nat (length (List.filter (λ b, same_row a b && (ps_Position b <? ps_Position a)) free)).
Definition island (free : list PlacedSeat) (a : PlacedSeat) : Z := ps_Position a - row_number free a.

Definition in_window (free : list PlacedSeat) (n : Z) (a b : PlacedSeat) : bool :=
  same_row a b && (island free b =? island free a) && (ps_Position a <=? ps_Position b) && (ps_Position b <? ps_Position a + n).

Definition window (free : list PlacedSeat) (n : Z) (a : PlacedSeat) : list PlacedSeat :=
  isort (on_key ps_Position Z.ltb) (List.filter (in_window free n a) free).

(** [HAVING count( * ) = n]: the start of a window, with the window. *)
Definition windows (free : list PlacedSeat) (n : Z) : list (PlacedSeat * list PlacedSeat) :=
  List.filter (λ w, Z.of_nat (length w.2) =? n) (map (λ a, (a, window free n a)) free).

(** The place outside the window beside a seat that flanks it. *)
Definition outside (lo : Z) (x : PlacedSeat) : Z := if ps_Position x <? lo then ps_Position x - 1 else ps_Position x + 1.

Definition strands (freeContext : list PlacedSeat) (lo hi : Z) (a x : PlacedSeat) : bool :=
  same_row a x && bool_decide (ps_Position x ∈ [lo - 1; hi + 1]) && ps_Edges x &&
  negb (existsb (λ o, same_row x o && (ps_Position o =? outside lo x)) freeContext).

Definition legal (orphanPrevention : bool) (freeContext : list PlacedSeat) (w : PlacedSeat * list PlacedSeat) : bool :=
  let lo := foldr (λ b, Z.min (ps_Position b)) (ps_Position w.1) w.2 in
  let hi := foldr (λ b, Z.max (ps_Position b)) (ps_Position w.1) w.2 in
  negb orphanPrevention || negb (existsb (strands freeContext lo hi w.1) freeContext).

Definition bestAvailableRun (now : time) (scan : nat) slot (orphanPrevention : bool) (count : Z) db : result InventoryError (list string) :=
  let ordered := ordered_seats scan slot db in
  let free := free_of now slot db ordered in
  let freeContext := free_of now slot db (context_seats ordered slot db) in
  match isort (on_key fst place_before) (List.filter (legal orphanPrevention freeContext) (windows free count)) with
  | [] => Err ErrBestAvailableUnavailable
  | w :: _ => Ok (map ps_Seat w.2)
  end.

Definition nulls_last {A} (ltb : A → A → bool) (a b : option A) : bool :=
  match a, b with Some x, Some y => ltb x y | Some _, None => true | None, _ => false end.

(** The seats a claim was given, in the projection's order, and how many it still
    holds. *)
Definition claimed_before slot db : string → string → bool :=
  let at_ {A} (f : SeatAdjacencyRow → option A) (s : string) : option A := adjacent slot db s ≫= f in
  lex (on_key (at_ sj_RowRank) (nulls_last Z.ltb))
    (lex (on_key (at_ sj_RowKey) (nulls_last String.ltb)) (lex (on_key (at_ sj_Position) (nulls_last Z.ltb)) String.ltb)).

Definition claimedSeats slot (id : uuid) db : list string * nat :=
  let rows := List.filter (λ ks : uuid * string * SeatRow, bool_decide (ks.1.1 = id) && bool_decide (st_PoolID ks.2 = slot)) (seat_rows db) in
  (isort (claimed_before slot db) (map (λ ks, ks.1.2) rows), length (List.filter (λ ks, is_None (st_ReleasedAt ks.2)) rows)).

Definition has_order slot db : bool := existsb (λ r, negb (is_None (sj_RowKey r))) (projection_of slot db).

Definition grantBest (ttl : Z) (ck : Clock) (id : uuid) (rq : SeatRequest) (scan : nat) (pool : Pool) (seatMap : uuid) (fp : string)
    (count : Z) db : tx SeatHold :=
  let slot := sq_SlotID rq in let now := ck_now ck in
  _ ← guardOffering pool;
  let pins := seatsAboutToExpire now slot seatMap db in
  db ← sweepExpired now slot db;
  _ ← seatCeiling now slot pool count db;
  if negb (has_order slot db) then Err ErrBestAvailableUnsupported
  else
    canon ← bestAvailableRun now scan slot (po_Orphan pool) count db;
    _ ← arbitrate now slot pool canon db;
    recordSeatHold ttl ck id rq seatMap fp canon pins db.

(** The replay reads what the claim was given, and refuses one that does not hold
    all of it. *)
Definition replayBest slot (seatMap : uuid) (r : Claim) db : tx SeatHold :=
  let given := claimedSeats slot (cl_ID r) db in
  if negb (given.2 =? length given.1)%nat || negb (Z.of_nat given.2 =? cl_Quantity r) then Err ErrConflict
  else commit db (replay_hold seatMap r given.1).

Definition CreateBestAvailableSeatHold (ttl : Z) (ck : Clock) (id : uuid) (rq : SeatRequest) (scan : nat) (count : Z) db : tx SeatHold :=
  if (count <=? 0) || (MaxSeatsPerHold <? count) then Err ErrSeatSetInvalid
  else
    pm ← seated_of_org (sq_OrganizerID rq) (sq_SlotID rq) db;
    let fp := bestAvailableFingerprint (sq_OrganizerID rq) (sq_SlotID rq) (sq_TicketTypeID rq) count (sq_UnitAmount rq) (sq_Currency rq) in
    match find_claim (sq_OrganizerID rq) (sq_Key rq) None false db with
    | Some existing =>
        if negb (bool_decide (cl_Fingerprint existing = fp)) then Err ErrIdempotency
        else if expired (ck_now ck) existing
        then db ← expire_seats (ck_now ck) existing db; commit_refusal db ErrConflict
        else if terminal (cl_Status existing) then Err ErrConflict
        else replayBest (sq_SlotID rq) pm.2 existing db
    | None => grantBest ttl ck id rq scan pm.1 pm.2 fp count db
    end.

(** ** Reads *)

Record SeatOccupancy := { so_SeatMapID : uuid; so_OfferingStatus : string; so_RemainingCapacity : Z; so_Unavailable : list string }.

Definition remaining_capacity (now : time) slot (pool : Pool) db : Z :=
  let remaining := limit pool - po_Confirmed pool - held_quantity now slot db in
  if po_Archived pool || po_Closed pool then 0 else if 0 <? remaining then wrap32 remaining else 0.

Definition unavailable_seats (now : time) slot db : list string :=
  isort String.ltb (map (λ ks, ks.1.2) (List.filter (λ ks : uuid * string * SeatRow, live_seat slot ks.1.2 ks.1 ks.2 &&
    match in_claims db !! ks.1.1 with Some r => consumingClaims now r | None => false end) (seat_rows db))).

Definition seatOccupancy (now : time) (org slot : uuid) db : result InventoryError SeatOccupancy :=
  pm ← seated_of_org org slot db;
  Ok {| so_SeatMapID := pm.2; so_OfferingStatus := offeringStatus (po_Archived pm.1) (po_Closed pm.1);
        so_RemainingCapacity := remaining_capacity now slot pm.1 db; so_Unavailable := unavailable_seats now slot db |}.

Definition SeatPinRef (org id : uuid) db : option PinRef :=
  match in_claims db !! id with
  | Some r =>
      if negb (bool_decide (cl_OrganizerID r = org)) then None
      else
        match in_pools db !! cl_PoolID r ≫= po_SeatMap with
        | None => None
        | Some m =>
            let seats := isort String.ltb (map snd (seats_of id db)) in
            if bool_decide (length seats = 0%nat) then None
            else Some {| pr_SeatMapID := m; pr_Seats := seats; pr_PinnedBy := pinnedBy id |}
        end
  | None => None
  end.

(** ** The verdicts on catalog's pins *)

Inductive SeatClaimState := SeatClaimLive | SeatClaimDead | SeatClaimUnknown.

Definition live_seats (id : uuid) db : nat := length (List.filter (λ ks, of_claim id ks.1 ks.2) (seat_rows db)).

Definition claim_state slot (id : uuid) db : SeatClaimState :=
  match in_claims db !! id with
  | None => SeatClaimUnknown
  | Some r =>
      if negb (in_pool slot r) then SeatClaimUnknown
      else
        match cl_Status r with
        | Held | Finalizing => SeatClaimLive
        | Confirmed =>
            if (0 <? cl_Quantity r) && (cl_Returned r =? cl_Quantity r)
            then if (live_seats id db =? 0)%nat then SeatClaimDead else SeatClaimUnknown
            else SeatClaimLive
        | Expired | Released => SeatClaimDead
        end
  end.

(** One pool: its expiries are settled first, so a verdict is of what this commits. *)
Definition classifySeatClaimsInPool (ck : Clock) slot (ids : list uuid) (out : gmap uuid SeatClaimState) db
    : tx (gmap uuid SeatClaimState) :=
  db ← sweepExpired (ck_now ck) slot db;
  commit db (foldl (λ m id, match in_claims db !! id with
                            | Some r => if in_pool slot r then <[id := claim_state slot id db]> m else m
                            | None => m
                            end) out ids).

(** The claims by pool, in the order the pools appear. *)
Definition add_to_pool (slot id : uuid) (l : list (uuid * list uuid)) : list (uuid * list uuid) :=
  if bool_decide (slot ∈ map fst l) then map (λ p, if bool_decide (p.1 = slot) then (p.1, p.2 ++ [id]) else p) l
  else l ++ [(slot, [id])].

Definition group_claim db (st : gmap uuid SeatClaimState * list (uuid * list uuid)) (id : uuid) :=
  if negb (is_None (st.1 !! id)) then st
  else
    let out := <[id := SeatClaimUnknown]> st.1 in
    match in_claims db !! id with
    | None => (out, st.2)
    | Some r => (out, add_to_pool (cl_PoolID r) id st.2)
    end.

(** One transaction per pool; [clock] are the readings of the pool's. *)
Fixpoint classify_pools (clock : uuid → Clock) (pools : list (uuid * list uuid)) (out : gmap uuid SeatClaimState) db
    : InventoryDB * result InventoryError (gmap uuid SeatClaimState) :=
  match pools with
  | [] => (db, Ok out)
  | (slot, ids) :: pools' =>
      match transaction (classifySeatClaimsInPool (clock slot) slot ids out) db with
      | (db, Ok out) => classify_pools clock pools' out db
      | refused => refused
      end
  end.

Definition ReconcileSeatClaimStates (clock : uuid → Clock) (claimIDs : list uuid) db
    : InventoryDB * result InventoryError (gmap uuid SeatClaimState) :=
  let st := foldl (group_claim db) (∅, []) claimIDs in classify_pools clock st.2 st.1 db.
End SeatClaims.
