(* ===== verification/InventoryMoves.v ===== *)
(** * What the inventory operations do to the tables

    Every operation of [Claims] is a sequence of moves: the changes of the pools,
    claims, allocations and codes it commits, each with the condition the
    operation established for it. The invariants of [InventorySafety] are proved
    of the moves. *)

From stdpp Require Import pretty.
From S2P Require Import Prelude Text Sha256 Format Tables Inventory Claims SeatMap SeatClaims.
#[local] Open Scope Z_scope.

Section Moves.
Context `{UU : UUID}.

(** ** Consumption

    Every ceiling of the package bounds one sum: what the confirmed claims have
    not returned plus what the open ones ask for, over the claims with given
    immutable columns. [counts None] counts every open claim, [counts (Some now)]
    the live ones. *)
Definition open (r : Claim) : bool := match cl_Status r with Held | Finalizing => true | _ => false end.

Definition counts (o : option time) (r : Claim) : bool :=
  match o with None => open r | Some now => liveClaims now r end.

Definition is_confirmed (r : Claim) : bool := bool_decide (cl_Status r = Confirmed).

Definition identity (r : Claim) : uuid * uuid * option string * option string :=
  (cl_OrganizerID r, cl_PoolID r, cl_Channel r, cl_PresaleCode r).

Definition weight (o : option time) (sel : uuid * uuid * option string * option string → bool) (r : Claim) : Z :=
  counted (sel (identity r) && (is_confirmed r || counts o r)) (consumedQuantity r).

Definition consumption (o : option time) sel (m : gmap uuid Claim) : Z := total (weight o sel) m.

Definition of_pool (p : uuid) (x : uuid * uuid * option string * option string) : bool := bool_decide (x.1.1.2 = p).
Definition of_channel (p : uuid) (ch : string) (x : uuid * uuid * option string * option string) : bool :=
  of_pool p x && bool_decide (x.1.2 = Some ch).
Definition of_code (k : code_key) (x : uuid * uuid * option string * option string) : bool :=
  bool_decide (x.1.1.1 = k.1.1) && bool_decide (x.1.2 = Some k.1.2) && bool_decide (x.2 = Some k.2).

Lemma channel_consumed_consumption now p ch db :
  channel_consumed now p ch db = consumption (Some now) (of_channel p ch) (in_claims db).
Proof. reflexivity. Qed.

Lemma code_redeemed_consumption k db :
  codeRedeemedQuantity k db = consumption None (of_code k) (in_claims db).
Proof.
  unfold codeRedeemedQuantity, consumption. apply total_ext. intros i r _.
  unfold weight, of_code, cites, on_channel, is_confirmed, presaleUsageClaims, counts, open. cbn.
  by destruct (cl_Status r); cbn.
Qed.

Definition confirmed_quantity (p : uuid) (m : gmap uuid Claim) : Z :=
  total (λ r, counted (in_pool p r && is_confirmed r) (cl_Quantity r - cl_Returned r)) m.

Lemma pool_consumption o p m :
  consumption o (of_pool p) m =
  confirmed_quantity p m + total (λ r, counted (in_pool p r && counts o r) (cl_Quantity r)) m.
Proof.
  unfold consumption, confirmed_quantity. rewrite <-total_add. apply total_ext. intros i r _.
  unfold weight, of_pool, in_pool, is_confirmed, consumedQuantity, counts, open, liveClaims. cbn.
  destruct (bool_decide (cl_PoolID r = p)), (cl_Status r), o as [now|]; cbn; try lia.
  all: repeat (case_bool_decide; try discriminate); unfold counted; cbn; lia.
Qed.

(** ** The shape of the rows *)
Record RowOk (db : InventoryDB) (id : uuid) (r : Claim) : Prop := {
  ro_id : cl_ID r = id;
  ro_checks : claim_checks r = true;
  ro_pool : is_Some (in_pools db !! cl_PoolID r);
  ro_returned : cl_Status r ≠ Confirmed → cl_Returned r = 0;
}.

Record PoolOk (m : gmap uuid Claim) (p : uuid) (pool : Pool) : Prop := {
  pk_confirmed : po_Confirmed pool = confirmed_quantity p m;
  pk_target t : po_Target pool = Some t → t ≤ po_Capacity pool;
  pk_int32 : po_Confirmed pool ≤ MaxInt32;
}.

Record Sound (db : InventoryDB) : Prop := {
  sd_rows id r : in_claims db !! id = Some r → RowOk db id r;
  sd_pools p pool : in_pools db !! p = Some pool → PoolOk (in_claims db) p pool;
  sd_channels p : NoDup (map al_Channel (allocations_of p db));
}.

Lemma checks_quantities r : claim_checks r = true → 0 < cl_Quantity r ∧ 0 ≤ cl_Returned r ≤ cl_Quantity r.
Proof. unfold claim_checks. intros H. zbool. lia. Qed.

Lemma checks_status st r : claim_checks (set_status st r) = claim_checks r.
Proof. reflexivity. Qed.

Lemma consumed_nonneg r : claim_checks r = true → 0 ≤ consumedQuantity r.
Proof. intros H%checks_quantities. unfold consumedQuantity. case_bool_decide; lia. Qed.

Lemma weight_nonneg o sel r : claim_checks r = true → 0 ≤ weight o sel r.
Proof. intros H%consumed_nonneg. unfold weight, counted. destruct (_ && _); lia. Qed.

Lemma counts_weaken t t' r : t ≤ t' → counts (Some t') r = true → counts (Some t) r = true.
Proof.
  unfold counts, liveClaims, after_or_null. intros Ht. destruct (cl_Status r); [|done..].
  destruct (cl_ExpiresAt r); [|done]. rewrite !Z.gtb_lt. lia.
Qed.

Lemma counts_open t r : counts (Some t) r = true → counts None r = true.
Proof. unfold counts, open, liveClaims. by destruct (cl_Status r). Qed.

Lemma not_expired_live now r : cl_Status r = Held → expired now r = false → counts (Some now) r = true.
Proof.
  unfold expired, counts, liveClaims, passed, after_or_null. intros ->. rewrite bool_decide_true by done. cbn.
  destruct (cl_ExpiresAt r); [|done]. rewrite Z.gtb_lt, Z.leb_gt. done.
Qed.

(** What the admission of a new claim established: its quantity fits under the
    pool's limit, its channel's cap and its code's cap, every open claim counted. *)
Record Admissible (db : InventoryDB) (r : Claim) (pool : Pool) : Prop := {
  ad_limit : consumption None (of_pool (cl_PoolID r)) (in_claims db) + cl_Quantity r ≤ limit pool;
  ad_channel ch : cl_Channel r = Some ch → ∃ a, a ∈ allocations_of (cl_PoolID r) db ∧ al_Channel a = ch ∧
    consumption None (of_channel (cl_PoolID r) ch) (in_claims db) + cl_Quantity r ≤ al_Cap a;
  ad_code ch code : cl_Channel r = Some ch → cl_PresaleCode r = Some code →
    ∃ c, in_codes db !! (cl_OrganizerID r, ch, code) = Some c ∧
    ∀ max, pc_MaxRedemptions c = Some max →
      consumption None (of_code (cl_OrganizerID r, ch, code)) (in_claims db) + cl_Quantity r ≤ max;
}.

(** A claim that has nothing left to sell or to return. *)
Definition finished (r : Claim) : bool :=
  terminal (cl_Status r) || (is_confirmed r && (cl_Returned r =? cl_Quantity r)).

(** The tables the ceilings read do not change. *)
Definition calm (db db' : InventoryDB) : Prop :=
  in_pools db' = in_pools db ∧ in_claims db' = in_claims db ∧
  in_allocations db' = in_allocations db ∧ in_codes db' = in_codes db.

Lemma calm_allocations db db' p a : calm db db' → a ∈ allocations_of p db' → a ∈ allocations_of p db.
Proof. intros (_ & _ & H & _). unfold allocations_of. by rewrite H. Qed.

Lemma calm_codes db db' k c : calm db db' → in_codes db' !! k = Some c → in_codes db !! k = Some c.
Proof. intros (_ & _ & _ & H). by rewrite H. Qed.

Lemma release_seats_calm d t db db' : release_seats_where d t db = Ok db' → calm db db'.
Proof. unfold release_seats_where. case_match; [|done]. by intros [= <-]. Qed.

Lemma insert_seat_calm t id slot seat db db' : insert_seat t id slot db seat = Ok db' → calm db db'.
Proof. unfold insert_seat. do 2 (case_match; [done|]). by intros [= <-]. Qed.

Lemma upserts_calm slot rows : ∀ db db', fold_result (upsert_adjacency slot) db rows = Ok db' →
  calm db db' ∧ in_seats db' = in_seats db.
Proof.
  induction rows as [|a rows IH]; cbn; intros db db'; [by intros [= <-]|]. intros (db1 & H1 & [(?&?&?&?) ?]%IH)%bind_Ok.
  unfold upsert_adjacency in H1. destruct (_ && _); [|done]. by injection H1 as <-.
Qed.

(** ** Moves

    What a request may be at liberty to do: cut a capacity below its demand,
    which leaves a target to drain to, issue a code again with a cap below what it
    has redeemed, or publish a projection that lists a seat twice. *)
Record Liberties := { cuts_below : bool; lowers_codes : bool; repeats_seats : bool }.

Inductive move (lib : Liberties) (ck : Clock) (db : InventoryDB) : InventoryDB → Prop :=
| mv_idle db' : calm db db' → in_seats db' = in_seats db → in_adjacency db' = in_adjacency db → move lib ck db db'
| mv_pool p pool pool' :
    in_pools db !! p = Some pool → po_Confirmed pool' = po_Confirmed pool →
    po_Capacity pool' = po_Capacity pool → po_Target pool' = po_Target pool → move lib ck db (set_pool p pool' db)
| mv_provision p pool :
    in_pools db !! p = None → 0 < po_Capacity pool → po_Confirmed pool = 0 → po_Target pool = None →
    move lib ck db (set_pool p pool db)
| mv_resize p pool capacity :
    in_pools db !! p = Some pool → po_Confirmed pool = 0 → 0 < capacity →
    (∀ id r, in_claims db !! id = Some r → in_pool p r = false) →
    (∀ t, po_Target pool = Some t → t ≤ capacity) →
    move lib ck db (set_pool p (set_capacity capacity (po_Target pool) pool) db)
| mv_sweep p : move lib ck db (with_claims (fmap (sweep (ck_now ck) p)) db)
| mv_expire r : in_claims db !! cl_ID r = Some r → cl_Status r = Held → move lib ck db (set_claim (set_status Expired r) db)
| mv_finalize r :
    in_claims db !! cl_ID r = Some r → cl_Status r = Held → counts (Some (ck_now ck)) r = true →
    move lib ck db (set_claim (set_status Finalizing r) db)
| mv_confirm r pool :
    in_claims db !! cl_ID r = Some r → counts (Some (ck_now ck)) r = true → in_pools db !! cl_PoolID r = Some pool →
    po_Confirmed pool + cl_Quantity r ≤ MaxInt32 →
    move lib ck db (set_claim (set_status Confirmed r)
      (set_pool (cl_PoolID r) (set_confirmed (po_Confirmed pool + cl_Quantity r) pool) db))
| mv_release r :
    in_claims db !! cl_ID r = Some r → open r = true → move lib ck db (set_claim (set_status Released r) db)
| mv_return r pool qty :
    in_claims db !! cl_ID r = Some r → cl_Status r = Confirmed → in_pools db !! cl_PoolID r = Some pool →
    0 < qty → qty ≤ po_Confirmed pool → claim_checks (set_quantities (cl_Quantity r) (cl_Returned r + qty) r) = true →
    move lib ck db (set_claim (set_quantities (cl_Quantity r) (cl_Returned r + qty) r)
      (set_pool (cl_PoolID r) (set_confirmed (po_Confirmed pool - qty) pool) db))
| mv_carve r qty :
    in_claims db !! cl_ID r = Some r → cl_Status r = Held → 0 < qty → qty ≤ cl_Quantity r →
    move lib ck db (set_claim (carve qty r) db)
| mv_convert r child :
    in_claims db !! cl_ID r = Some r → cl_Status r = Held → counts (Some (ck_now ck)) r = true →
    in_claims db !! cl_ID child = None → claim_checks child = true → cl_Status child = Held → cl_Returned child = 0 →
    identity child = identity r → cl_Quantity child ≤ cl_Quantity r →
    move lib ck db (set_claim (carve (cl_Quantity child) r) (set_claim child db))
| mv_admit r pool :
    in_claims db !! cl_ID r = None → in_pools db !! cl_PoolID r = Some pool → claim_checks r = true →
    cl_Status r = Held → cl_Returned r = 0 →
    Admissible db r pool →
    move lib ck db (set_claim r db)
| mv_reconcile p pool t :
    in_pools db !! p = Some pool → po_Target pool = Some t →
    move lib ck db (set_pool p (reconciled t (held_quantity (ck_now ck) p db) pool) db)
| mv_adjust p pool capacity target :
    in_pools db !! p = Some pool → consumption None (of_pool p) (in_claims db) ≤ capacity →
    (∀ t, target = Some t → t ≤ capacity ∧ cuts_below lib = true) →
    move lib ck db (set_pool p (set_capacity capacity target pool) db)
| mv_allocations p allocs :
    NoDup (map al_Channel allocs) →
    (∀ a, a ∈ allocs → consumption (Some (ck_now ck)) (of_channel p (al_Channel a)) (in_claims db) ≤ al_Cap a) →
    move lib ck db (with_allocations (<[p := allocs]>) db)
| mv_code k c :
    (∀ max, pc_MaxRedemptions c = Some max → codeRedeemedQuantity k db ≤ max ∨ lowers_codes lib = true) →
    move lib ck db (with_codes (<[k := c]>) db)
| mv_release_seats d t db' :
    release_seats_where d t db = Ok db' →
    (∀ k s, in_seats db !! k = Some s → d k s = true → ∃ r, in_claims db !! k.1 = Some r ∧ finished r = true) →
    move lib ck db db'
| mv_seat t r seat db' :
    in_claims db !! cl_ID r = Some r → cl_Status r = Held → insert_seat t (cl_ID r) (cl_PoolID r) db seat = Ok db' → move lib ck db db'
| mv_project slot rows db' :
    validateAdjacency rows = Ok tt → describes_stored slot rows db = true →
    (repeats_seats lib = false → NoDup (map sj_SeatIdentity rows)) →
    fold_result (upsert_adjacency slot) db rows = Ok db' → move lib ck db db'.

(** ** How a move changes consumption *)

Definition in_step (ck : Clock) (o : option time) : Prop := o = None ∨ o = Some (ck_now ck).

Lemma in_step_counts ck o r : in_step ck o → counts (Some (ck_now ck)) r = true → counts o r = true.
Proof. intros [->| ->]; [apply counts_open|done]. Qed.

Section Consumption.
Context (o : option time) (sel : uuid * uuid * option string * option string → bool).

Lemma weight_terminal st r : terminal st = true → weight o sel (set_status st r) = 0.
Proof. unfold weight, counted, is_confirmed, counts, open, liveClaims. destruct st, o; cbn; try done; by rewrite andb_false_r. Qed.

Lemma weight_le_quantity r : claim_checks r = true → cl_Returned r = 0 → weight o sel r ≤ counted (sel (identity r)) (cl_Quantity r).
Proof.
  intros Hc Hr. apply checks_quantities in Hc. unfold weight, counted, consumedQuantity.
  destruct (sel (identity r)); cbn; [|lia]. destruct (_ || _); [|lia]. case_bool_decide; lia.
Qed.

Lemma weight_counted r : counts o r = true → cl_Returned r = 0 → weight o sel r = counted (sel (identity r)) (cl_Quantity r).
Proof.
  intros Hc Hr. unfold weight, counted, consumedQuantity. rewrite Hc, orb_true_r, andb_true_r.
  destruct (sel (identity r)); [|done]. case_bool_decide; lia.
Qed.

Lemma weight_finalize r : counts o r = true → cl_Returned r = 0 → weight o sel (set_status Finalizing r) = weight o sel r.
Proof. intros Hc Hr. rewrite !weight_counted by (done || by destruct o). done. Qed.

Lemma weight_confirm r : counts o r = true → cl_Returned r = 0 → weight o sel (set_status Confirmed r) = weight o sel r.
Proof.
  intros Hc Hr. rewrite (weight_counted r) by done. unfold weight, counted, consumedQuantity, is_confirmed. cbn.
  rewrite bool_decide_true by done. cbn. rewrite andb_true_r.
  change (identity (set_status Confirmed r)) with (identity r). destruct (sel _); lia.
Qed.

Lemma weight_carve qty r : claim_checks r = true → cl_Returned r = 0 → cl_Status r = Held → 0 < qty ≤ cl_Quantity r →
  weight o sel (carve qty r) ≤ weight o sel r ∧
  (counts o r = true → weight o sel (carve qty r) = weight o sel r - counted (sel (identity r)) qty).
Proof.
  intros Hck Hr Hs Hq. unfold carve. destruct (Z.eqb_spec qty (cl_Quantity r)) as [->|Hne].
  - rewrite weight_terminal by done. split; [by apply weight_nonneg|].
    intros Hc. rewrite (weight_counted r) by done. lia.
  - assert (weight o sel (set_quantities (cl_Quantity r - qty) (cl_Returned r) r) =
            weight o sel r - counted (sel (identity r) && counts o r) qty) as ->.
    { unfold weight, counted, consumedQuantity, is_confirmed. cbn. rewrite Hs.
      rewrite !(bool_decide_false (Held = Confirmed)) by done. cbn.
      replace (counts o (set_quantities (cl_Quantity r - qty) (cl_Returned r) r)) with (counts o r) by by destruct o.
      change (identity (set_quantities _ _ r)) with (identity r). destruct (sel _ && counts o r); lia. }
    split; [unfold counted; destruct (_ && _); lia|]. intros ->. by rewrite andb_true_r.
Qed.
End Consumption.

(** ** Moves keep the rows sound *)

Lemma confirmed_insert p m r r' : m !! cl_ID r = Some r → cl_PoolID r' = cl_PoolID r →
  confirmed_quantity p (<[cl_ID r := r']> m) =
  confirmed_quantity p m
  + counted (bool_decide (cl_PoolID r = p))
      (counted (is_confirmed r') (cl_Quantity r' - cl_Returned r') - counted (is_confirmed r) (cl_Quantity r - cl_Returned r)).
Proof.
  intros Hr Hp. unfold confirmed_quantity. rewrite (total_insert _ _ _ r) by done.
  unfold in_pool, counted. rewrite Hp. repeat case_bool_decide; cbn; destruct (is_confirmed r), (is_confirmed r'); lia.
Qed.

Lemma confirmed_fresh p m r : m !! cl_ID r = None → cl_Status r = Held →
  confirmed_quantity p (<[cl_ID r := r]> m) = confirmed_quantity p m.
Proof.
  intros Hr Hs. unfold confirmed_quantity. rewrite total_fresh by done.
  unfold is_confirmed, counted. rewrite Hs, (bool_decide_false (Held = Confirmed)) by done.
  rewrite andb_false_r. lia.
Qed.

Lemma confirmed_sweep now q p m : confirmed_quantity p (sweep now q <$> m) = confirmed_quantity p m.
Proof.
  unfold confirmed_quantity. rewrite total_fmap. apply total_ext. intros i r _.
  unfold sweep, due, expired. destruct (in_pool q r); cbn; [|done].
  case_bool_decide as Hs; cbn; [|done]. destruct (passed _ _); [|done].
  unfold in_pool, is_confirmed. cbn. rewrite Hs. done.
Qed.

(** The invariant, when only the claims change. *)
Lemma sound_claims db m : Sound db →
  (∀ id r, m !! id = Some r → RowOk db id r) →
  (∀ p, confirmed_quantity p m = confirmed_quantity p (in_claims db)) →
  Sound (with_claims (λ _, m) db).
Proof.
  intros [Hr Hp Hc] Hm Hq. split; cbn; [|intros p pool Hpool|done].
  - intros id r Hid. destruct (Hm id r Hid) as [H1 H2 H3 H4]. by split.
  - destruct (Hp p pool Hpool). split; [|done|done]. by rewrite Hq.
Qed.

(** The invariant, when one pool changes. *)
Lemma sound_pool db p pool : Sound db → PoolOk (in_claims db) p pool → Sound (set_pool p pool db).
Proof.
  intros [Hr Hp Hc] Hok. split; cbn; [|intros q pool' Hpool|done].
  - intros id r Hid. destruct (Hr id r Hid) as [H1 H2 H3 H4]. split; [done..| |done].
    cbn. destruct (decide (p = cl_PoolID r)) as [->|]; [by rewrite lookup_insert_eq; eexists|by rewrite lookup_insert_ne].
  - destruct (decide (p = q)) as [->|]; [rewrite lookup_insert_eq in Hpool; by simplify_eq|].
    rewrite lookup_insert_ne in Hpool by done. by apply Hp.
Qed.

(** One row changes, and with it perhaps its pool's counter. *)
Lemma sound_row db r r' : Sound db → in_claims db !! cl_ID r = Some r →
  cl_ID r' = cl_ID r → cl_PoolID r' = cl_PoolID r → claim_checks r' = true →
  (cl_Status r' ≠ Confirmed → cl_Returned r' = 0) →
  counted (is_confirmed r') (cl_Quantity r' - cl_Returned r') = counted (is_confirmed r) (cl_Quantity r - cl_Returned r) →
  Sound (set_claim r' db).
Proof.
  intros Hs Hr Hid Hp Hc Hret Hq. unfold set_claim. rewrite Hid.
  apply (sound_claims db (<[cl_ID r := r']> (in_claims db))); [done| |].
  - intros id x. destruct (decide (cl_ID r = id)) as [<-|].
    + rewrite lookup_insert_eq. intros [= <-]. destruct (sd_rows _ Hs _ _ Hr). split; [done|done| |done]. by rewrite Hp.
    + rewrite lookup_insert_ne by done. apply (sd_rows _ Hs).
  - intros p. rewrite (confirmed_insert p _ r r') by done. rewrite Hq. unfold counted. case_bool_decide; lia.
Qed.

(** The counter and its claim move together. *)
Lemma sound_row_counter db r r' pool confirmed : Sound db → in_claims db !! cl_ID r = Some r →
  in_pools db !! cl_PoolID r = Some pool →
  cl_ID r' = cl_ID r → cl_PoolID r' = cl_PoolID r → claim_checks r' = true → is_confirmed r' = true →
  confirmed = po_Confirmed pool + (cl_Quantity r' - cl_Returned r')
              - counted (is_confirmed r) (cl_Quantity r - cl_Returned r) →
  confirmed ≤ MaxInt32 →
  Sound (set_claim r' (set_pool (cl_PoolID r) (set_confirmed confirmed pool) db)).
Proof.
  intros Hs Hr Hpool Hid Hp Hc Hcf -> H32. destruct Hs as [Hrows Hpools Hch].
  pose proof Hcf as Hst. unfold is_confirmed in Hst. apply bool_decide_eq_true in Hst. split; [| |done].
  - intros id x. unfold set_claim. cbn. rewrite Hid. destruct (decide (cl_ID r = id)) as [<-|].
    + rewrite lookup_insert_eq. intros [= <-]. split; [done|done| |done].
      cbn. rewrite Hp, lookup_insert_eq. by eexists.
    + rewrite lookup_insert_ne by done. intros Hx. destruct (Hrows _ _ Hx) as [H1 H2 H3 H4]. split; [done..| |done].
      cbn. destruct (decide (cl_PoolID r = cl_PoolID x)) as [->|]; [by rewrite lookup_insert_eq; eexists|by rewrite lookup_insert_ne].
  - intros q pool' Hq. unfold set_claim, set_pool in *. cbn in *. rewrite Hid.
    destruct (decide (cl_PoolID r = q)) as [<-|Hne].
    + rewrite lookup_insert_eq in Hq. injection Hq as <-. destruct (Hpools _ _ Hpool) as [H1 H2 H3]. split; [|done|done].
      cbn. rewrite (confirmed_insert _ _ r r'), bool_decide_true by done. rewrite Hcf. cbn. rewrite H1. lia.
    + rewrite lookup_insert_ne in Hq by done. destruct (Hpools _ _ Hq). split; [|done|done].
      rewrite (confirmed_insert _ _ r r'), bool_decide_false by done. cbn. lia.
Qed.

Lemma is_confirmed_not r : cl_Status r ≠ Confirmed → is_confirmed r = false.
Proof. intros. by apply bool_decide_eq_false. Qed.

Lemma open_not_confirmed r : open r = true → cl_Status r ≠ Confirmed.
Proof. unfold open. by destruct (cl_Status r). Qed.

Lemma counts_open_status o r : counts o r = true → open r = true.
Proof. destruct o; [apply counts_open|done]. Qed.

Lemma carve_fields qty r : cl_ID (carve qty r) = cl_ID r ∧ identity (carve qty r) = identity r ∧ cl_PoolID (carve qty r) = cl_PoolID r.
Proof. unfold carve. by case_match. Qed.

Lemma carve_checks qty r : claim_checks r = true → cl_Returned r = 0 → 0 < qty ≤ cl_Quantity r → claim_checks (carve qty r) = true.
Proof.
  unfold carve. intros Hc Hr Hq. destruct (Z.eqb_spec qty (cl_Quantity r)) as [->|Hne]; [done|].
  unfold claim_checks in *. cbn. rewrite <-!andb_assoc in *.
  do 3 (apply andb_prop in Hc as [_ Hc]).
  apply andb_true_intro; split; [apply Z.ltb_lt; lia|].
  do 2 (apply andb_true_intro; split; [apply Z.leb_le; lia|]). exact Hc.
Qed.

Lemma carve_status qty r : cl_Status r = Held → cl_Returned r = 0 →
  cl_Status (carve qty r) ≠ Confirmed ∧ cl_Returned (carve qty r) = 0.
Proof. unfold carve. intros Hs Hr. case_match; cbn; [done|]. by rewrite Hs. Qed.

Lemma not_confirmed_counted r : cl_Status r ≠ Confirmed → counted (is_confirmed r) (cl_Quantity r - cl_Returned r) = 0.
Proof. intros. by rewrite is_confirmed_not. Qed.

(** A row that is not confirmed, changed into one that is not. *)
Lemma sound_open_row db r r' : Sound db → in_claims db !! cl_ID r = Some r → cl_Status r ≠ Confirmed →
  cl_ID r' = cl_ID r → cl_PoolID r' = cl_PoolID r → claim_checks r' = true →
  cl_Status r' ≠ Confirmed → cl_Returned r' = 0 → Sound (set_claim r' db).
Proof. intros. eapply sound_row; [done..|]. by rewrite !not_confirmed_counted. Qed.

Lemma sound_insert db r : Sound db → in_claims db !! cl_ID r = None → is_Some (in_pools db !! cl_PoolID r) →
  claim_checks r = true → cl_Status r = Held → cl_Returned r = 0 → Sound (set_claim r db).
Proof.
  intros Hs Hr Hp Hc Hst Hret. apply (sound_claims db (<[cl_ID r := r]> (in_claims db))); [done| |].
  - intros id x. destruct (decide (cl_ID r = id)) as [<-|].
    + rewrite lookup_insert_eq. intros [= <-]. by split.
    + rewrite lookup_insert_ne by done. apply (sd_rows _ Hs).
  - intros p. by apply confirmed_fresh.
Qed.

Lemma confirmed_elsewhere p m : (∀ id r, m !! id = Some r → in_pool p r = false) → confirmed_quantity p m = 0.
Proof. intros Hn. rewrite <-(total_zero m). apply total_ext. intros i r Hi. by rewrite (Hn i r Hi). Qed.

Lemma sound_calm db db' : calm db db' → Sound db → Sound db'.
Proof.
  intros (H1 & H2 & H3 & H4) [Hr Hp Hc]. split.
  - intros id r. rewrite H2. intros Hid. destruct (Hr id r Hid). split; [done..| |done]. by rewrite H1.
  - intros p pool. rewrite H1, H2. apply Hp.
  - intros p. unfold allocations_of. rewrite H3. apply Hc.
Qed.

Lemma move_sound lib ck db db' : move lib ck db db' → Sound db → Sound db'.
Proof.
  intros Hm Hs. destruct Hm as [db' Hcalm _ _|p pool pool' Hp H1 H2 H3|p pool Hp Hc H0 Ht|p pool cap Hp H0 Hc Hn Ht|p
    |r Hr Hst|r Hr Hst Hl|r pool Hr Hl Hp H32|r Hr Ho|r pool qty Hr Hst Hp Hq Hle Hck|r qty Hr Hst Hq Hle
    |r child Hr Hst Hl Hf Hck Hcs Hcr Hid Hle|r pool Hf Hp Hck Hst Hret _|p pool t Hp Ht|p pool cap target Hp Hd Ht|p allocs Hnd Ha|k c Hco|d t db' Hrel _|t r seat db' _ _ Hins|slot rows db' _ _ _ Hproj].
  - by eapply sound_calm.
  - apply sound_pool; [done|]. destruct (sd_pools _ Hs _ _ Hp). split; [by rewrite H1|by rewrite H2, H3|by rewrite H1].
  - apply sound_pool; [done|]. split; [|by rewrite Ht|rewrite H0; done]. rewrite H0. symmetry. apply confirmed_elsewhere. intros id r Hid.
    destruct (ro_pool _ _ _ (sd_rows _ Hs _ _ Hid)) as [x Hx]. apply bool_decide_eq_false. congruence.
  - apply sound_pool; [done|]. destruct (sd_pools _ Hs _ _ Hp). by split.
  - apply sound_claims; [done| |intros q; apply confirmed_sweep]. intros id r.
    rewrite lookup_fmap, fmap_Some. intros (x & Hx & ->). destruct (sd_rows _ Hs _ _ Hx) as [? ? ? Hret].
    unfold sweep, due, expired. destruct (in_pool p x), (bool_decide_reflect (cl_Status x = Held)); cbn; try by split.
    destruct (passed _ _); [|by split]. split; try done. intros _. apply Hret. congruence.
  - destruct (sd_rows _ Hs _ _ Hr). apply (sound_open_row db r); try done; [congruence|cbn; apply ro_returned0; congruence].
  - destruct (sd_rows _ Hs _ _ Hr). apply (sound_open_row db r); try done; [congruence|cbn; apply ro_returned0; congruence].
  - destruct (sd_rows _ Hs _ _ Hr). apply counts_open, open_not_confirmed in Hl.
    apply sound_row_counter; try done; [].
    rewrite not_confirmed_counted by done. cbn. rewrite ro_returned0 by done. lia.
  - destruct (sd_rows _ Hs _ _ Hr). apply open_not_confirmed in Ho. apply (sound_open_row db r); try done. by apply ro_returned0.
  - destruct (sd_rows _ Hs _ _ Hr). apply sound_row_counter; try done; [by apply bool_decide_eq_true| |].
    + unfold is_confirmed. rewrite Hst. rewrite bool_decide_true by done. cbn. lia.
    + destruct (sd_pools _ Hs _ _ Hp). lia.
  - destruct (sd_rows _ Hs _ _ Hr). assert (cl_Returned r = 0) as H0 by (apply ro_returned0; congruence).
    destruct (carve_fields qty r) as (? & _ & ?). destruct (carve_status qty r) as [? ?]; [done..|].
    apply (sound_open_row db r); try done; [congruence|by apply carve_checks].
  - destruct (sd_rows _ Hs _ _ Hr). assert (cl_Returned r = 0) as H0 by (apply ro_returned0; congruence).
    destruct (carve_fields (cl_Quantity child) r) as (? & _ & ?). destruct (carve_status (cl_Quantity child) r) as [? ?]; [done..|].
    assert (cl_PoolID child = cl_PoolID r) as Hpid by (unfold identity in Hid; congruence).
    assert (Sound (set_claim child db)) as Hs' by (apply sound_insert; [done|done|by rewrite Hpid|done..]).
    apply (sound_open_row _ r); try done; [|congruence|].
    + unfold set_claim. cbn. rewrite lookup_insert_ne; [done|]. congruence.
    + apply carve_checks; [done..|]. apply checks_quantities in Hck. lia.
  - by apply sound_insert.
  - apply sound_pool; [done|]. destruct (sd_pools _ Hs _ _ Hp). split; [done| |done]. cbn. intros t'. case_match; [done|]. intros [= <-]. lia.
  - apply sound_pool; [done|]. destruct (sd_pools _ Hs _ _ Hp). split; [done| |done]. intros t Hx. by apply Ht.
  - destruct Hs as [H1 H2 H3]. split; [|done|].
    + intros id r Hid. destruct (H1 id r Hid). by split.
    + intros q. unfold allocations_of. cbn. destruct (decide (p = q)) as [->|]; [by rewrite lookup_insert_eq|].
      rewrite lookup_insert_ne by done. apply H3.
  - destruct Hs as [H1 H2 H3]. split; [|done|done]. intros id r Hid. destruct (H1 id r Hid). by split.
  - eapply sound_calm; [by eapply release_seats_calm|done].
  - eapply sound_calm; [by eapply insert_seat_calm|done].
  - eapply sound_calm; [by eapply upserts_calm|done].
Qed.

(** ** Moves keep the ceilings *)

Definition no_target (db : InventoryDB) : Prop := ∀ p pool, in_pools db !! p = Some pool → po_Target pool = None.

(** No pool is asked for more than its capacity. *)
Definition Fits (o : option time) (db : InventoryDB) : Prop :=
  ∀ p pool, in_pools db !! p = Some pool → consumption o (of_pool p) (in_claims db) ≤ po_Capacity pool.
(** No channel is asked for more than its cap. *)
Definition Caps (o : option time) (db : InventoryDB) : Prop :=
  ∀ p a, a ∈ allocations_of p db → consumption o (of_channel p (al_Channel a)) (in_claims db) ≤ al_Cap a.
(** No presale code is redeemed past its cap. *)
Definition Codes (db : InventoryDB) : Prop :=
  ∀ k c max, in_codes db !! k = Some c → pc_MaxRedemptions c = Some max →
    consumption None (of_code k) (in_claims db) ≤ max.

Lemma consumption_row o sel m r r' : m !! cl_ID r = Some r → cl_ID r' = cl_ID r →
  weight o sel r' ≤ weight o sel r → consumption o sel (<[cl_ID r' := r']> m) ≤ consumption o sel m.
Proof. intros Hr -> Hw. unfold consumption. rewrite (total_insert _ _ _ r) by done. lia. Qed.

Lemma consumption_sweep o sel now p m : (∀ id r, m !! id = Some r → claim_checks r = true) →
  consumption o sel (sweep now p <$> m) ≤ consumption o sel m.
Proof.
  intros Hc. unfold consumption. rewrite total_fmap. apply total_le. intros i r Hi. unfold sweep.
  destruct (due now p r); [|lia]. rewrite weight_terminal by done. eapply weight_nonneg, Hc, Hi.
Qed.

(** The claims after a move ask for no more, except for the claim it admits. *)
Lemma move_consumption lib ck o sel db db' : Sound db → in_step ck o → move lib ck db db' →
  consumption o sel (in_claims db') ≤ consumption o sel (in_claims db) ∨
  ∃ r pool, db' = set_claim r db ∧ in_pools db !! cl_PoolID r = Some pool ∧ Admissible db r pool ∧
    consumption o sel (in_claims db') ≤ consumption o sel (in_claims db) + counted (sel (identity r)) (cl_Quantity r).
Proof.
  intros Hs Ho Hm. destruct Hm as [db' Hcalm _ _|p pool pool' Hp H1 H2 H3|p pool Hp Hc H0 Ht|p pool cap Hp H0 Hc Hn Ht|p
    |r Hr Hst|r Hr Hst Hl|r pool Hr Hl Hp H32|r Hr Hop|r pool qty Hr Hst Hp Hq Hle Hck|r qty Hr Hst Hq Hle
    |r child Hr Hst Hl Hf Hck Hcs Hcr Hid Hle|r pool Hf Hp Hck Hst Hret Had|p pool t Hp Ht|p pool cap target Hp Hd Ht|p allocs Hnd Ha|k c Hco|d t db' Hrel _|t r seat db' _ _ Hins|slot rows db' _ _ _ Hproj];
    try (left; cbn [in_claims set_pool with_pools with_allocations with_codes]; reflexivity);
    try (apply release_seats_calm in Hrel as Hcalm); try (apply insert_seat_calm in Hins as Hcalm);
    try (apply upserts_calm in Hproj as [Hcalm _]);
    try (destruct Hcalm as (_ & Hcl & _); left; rewrite Hcl; reflexivity).
  - left. apply consumption_sweep. intros id r Hid. by destruct (sd_rows _ Hs _ _ Hid).
  - left. destruct (sd_rows _ Hs _ _ Hr). apply (consumption_row _ _ _ r); [done..|].
    rewrite weight_terminal by done. by apply weight_nonneg.
  - left. destruct (sd_rows _ Hs _ _ Hr). apply (consumption_row _ _ _ r); [done..|].
    rewrite weight_finalize; [done|by eapply in_step_counts|apply ro_returned0; congruence].
  - left. destruct (sd_rows _ Hs _ _ Hr). apply (consumption_row _ _ _ r); [done..|].
    rewrite weight_confirm; [done|by eapply in_step_counts|]. apply ro_returned0. by apply counts_open, open_not_confirmed in Hl.
  - left. destruct (sd_rows _ Hs _ _ Hr). apply (consumption_row _ _ _ r); [done..|].
    rewrite weight_terminal by done. by apply weight_nonneg.
  - left. apply (consumption_row _ _ _ r); [done..|]. unfold weight, counted, consumedQuantity, is_confirmed. cbn.
    rewrite Hst, bool_decide_true by done. cbn.
    change (identity (set_quantities _ _ r)) with (identity r). destruct (sel _); cbn; lia.
  - left. destruct (sd_rows _ Hs _ _ Hr). destruct (carve_fields qty r) as (? & _ & _).
    apply (consumption_row _ _ _ r); [done..|]. apply weight_carve; [done| |done..]. apply ro_returned0. congruence.
  - left. destruct (sd_rows _ Hs _ _ Hr) as [_ Hckr _ Hretr]. specialize (Hretr ltac:(congruence)).
    destruct (carve_fields (cl_Quantity child) r) as (Hcid & _ & _). pose proof (checks_quantities _ Hck) as [Hq _].
    unfold set_claim, consumption. cbn. rewrite Hcid, (total_insert _ _ _ r) by (rewrite lookup_insert_ne by congruence; done).
    rewrite total_fresh by done.
    destruct (weight_carve o sel (cl_Quantity child) r) as [_ Hw]; [done..|]. rewrite Hw by (by eapply in_step_counts).
    pose proof (weight_le_quantity o sel child Hck Hcr) as Hchild. rewrite Hid in Hchild. lia.
  - right. exists r, pool. split_and!; [done..|]. unfold set_claim, consumption. cbn. rewrite total_fresh by done.
    pose proof (weight_le_quantity o sel r Hck Hret). lia.
Qed.

Lemma consumption_mono o o' sel db : Sound db →
  (∀ r, counts o r = true → counts o' r = true) →
  consumption o sel (in_claims db) ≤ consumption o' sel (in_claims db).
Proof.
  intros Hs Hw. apply total_le. intros i r Hi. pose proof (ro_checks _ _ _ (sd_rows _ Hs _ _ Hi)) as Hc.
  pose proof (weight_nonneg o' sel r Hc) as H0. apply consumed_nonneg in Hc. unfold weight, counted in *.
  specialize (Hw r). destruct (sel (identity r)); cbn in *; [|lia].
  destruct (is_confirmed r); cbn in *; [lia|]. destruct (counts o r); [rewrite Hw; [lia|done]|lia].
Qed.

Lemma consumption_open o sel db : Sound db →
  consumption o sel (in_claims db) ≤ consumption None sel (in_claims db).
Proof. intros Hs. apply consumption_mono; [done|]. apply counts_open_status. Qed.

Lemma consumption_later t t' sel db : Sound db → t ≤ t' →
  consumption (Some t') sel (in_claims db) ≤ consumption (Some t) sel (in_claims db).
Proof. intros Hs Ht. apply consumption_mono; [done|]. intros r. by apply counts_weaken. Qed.

(** The open claims of a pool ask, and its capacity does not move under them. *)
Definition same_capacity (db db' : InventoryDB) : Prop :=
  ∀ p pool', in_pools db' !! p = Some pool' → ∃ pool, in_pools db !! p = Some pool ∧
    po_Capacity pool' = po_Capacity pool ∧ po_Target pool' = po_Target pool.

Lemma same_capacity_pool db p pool pool' : in_pools db !! p = Some pool →
  po_Capacity pool' = po_Capacity pool → po_Target pool' = po_Target pool → same_capacity db (set_pool p pool' db).
Proof.
  intros Hp H1 H2 q x. cbn. destruct (decide (p = q)) as [<-|].
  - rewrite lookup_insert_eq. intros [= <-]. by exists pool.
  - rewrite lookup_insert_ne by done. intros Hx. by exists x.
Qed.

(** Either the capacities stay, or the claims do and one pool changes. *)
Lemma move_capacity lib ck db db' : move lib ck db db' →
  same_capacity db db' ∨
  ∃ p pool', db' = set_pool p pool' db ∧
    ((in_pools db !! p = None ∧ po_Target pool' = None ∧ 0 < po_Capacity pool') ∨
     (∃ pool, in_pools db !! p = Some pool ∧
        (((∀ id r, in_claims db !! id = Some r → in_pool p r = false) ∧ 0 < po_Capacity pool' ∧ po_Target pool' = po_Target pool) ∨
         (∃ t, po_Target pool = Some t ∧ pool' = reconciled t (held_quantity (ck_now ck) p db) pool) ∨
         (consumption None (of_pool p) (in_claims db) ≤ po_Capacity pool' ∧ (po_Target pool' ≠ None → cuts_below lib = true))))).
Proof.
  destruct 1 as [db' Hcalm _ _|p pool pool' Hp H1 H2 H3|p pool Hp Hc H0 Ht|p pool cap Hp H0 Hc Hn Ht|p
    |r Hr Hst|r Hr Hst Hl|r pool Hr Hl Hp H32|r Hr Hop|r pool qty Hr Hst Hp Hq Hle Hck|r qty Hr Hst Hq Hle
    |r child Hr Hst Hl Hf Hck Hcs Hcr Hid Hle|r pool Hf Hp Hck Hst Hret Had|p pool t Hp Ht|p pool cap target Hp Hd Ht|p allocs Hnd Ha|k c Hco|d t db' Hrel _|t r seat db' _ _ Hins|slot rows db' _ _ _ Hproj];
    try (apply release_seats_calm in Hrel as Hcalm); try (apply insert_seat_calm in Hins as Hcalm);
    try (apply upserts_calm in Hproj as [Hcalm _]);
    try (destruct Hcalm as (Hpl & _); left; intros q x Hx; exists x; rewrite Hpl in Hx; done);
    try (left; intros q x Hx; exists x; cbn in *; done).
  - left. by eapply same_capacity_pool.
  - right. exists p, pool. split; [done|]. by left.
  - right. eexists p, _. split; [done|]. right. exists pool. split; [done|]. left. done.
  - left. apply (same_capacity_pool db (cl_PoolID r) pool); done.
  - left. apply (same_capacity_pool db (cl_PoolID r) pool); done.
  - right. eexists p, _. split; [done|]. right. exists pool. split; [done|]. right. left. by exists t.
  - right. eexists p, _. split; [done|]. right. exists pool. split; [done|]. right. right. split; [done|].
    cbn. destruct target as [t|]; [|done]. intros _. by apply (Ht t).
Qed.

Lemma consumption_elsewhere o p m : (∀ id r, m !! id = Some r → in_pool p r = false) → consumption o (of_pool p) m = 0.
Proof.
  intros Hn. rewrite <-(total_zero m). apply total_ext. intros i r Hi. unfold weight, of_pool. cbn.
  specialize (Hn i r Hi). unfold in_pool in Hn. by rewrite Hn.
Qed.

Lemma Fits_move lib ck o db db' : Sound db → in_step ck o → (o = None → no_target db) →
  move lib ck db db' → Fits o db → Fits o db'.
Proof.
  intros Hs Ho Hno Hm Hf p pool' Hp.
  destruct (move_capacity _ _ _ _ Hm) as [Hsame|(q & pq & -> & Hq)].
  - destruct (Hsame _ _ Hp) as (pool & Hpool & -> & _).
    destruct (move_consumption _ _ o (of_pool p) _ _ Hs Ho Hm) as [Hle|(r & pool_r & -> & Hr & Had & Hle)].
    { specialize (Hf _ _ Hpool). lia. }
    destruct (decide (cl_PoolID r = p)) as [<-|Hne].
    + assert (pool_r = pool) as -> by congruence.
      assert (of_pool (cl_PoolID r) (identity r) = true) as Hsel by by apply bool_decide_eq_true.
      rewrite Hsel in Hle. cbn [counted] in Hle.
      pose proof (consumption_open o (of_pool (cl_PoolID r)) _ Hs).
      pose proof (ad_limit _ _ _ Had) as Hlim. assert (limit pool ≤ po_Capacity pool).
      { unfold limit. destruct (po_Target pool) eqn:Ht; cbn; [|lia]. by apply (sd_pools _ Hs _ _ Hr). }
      lia.
    + specialize (Hf _ _ Hpool). assert (of_pool p (identity r) = false) as Hsel by by apply bool_decide_eq_false.
      rewrite Hsel in Hle. cbn [counted] in Hle. lia.
  - cbn in Hp. destruct (decide (q = p)) as [->|]; [|rewrite lookup_insert_ne in Hp by done; by apply Hf].
    rewrite lookup_insert_eq in Hp. injection Hp as ->. cbn [in_claims set_pool with_pools].
    destruct Hq as [(Hn & _ & Hc)|(pool & Hpool & [(Hn & Hc & _)|[(t & Ht & ->)|[Hc _]]])].
    + rewrite consumption_elsewhere; [lia|]. intros id r Hid. apply bool_decide_eq_false. intros <-.
      destruct (ro_pool _ _ _ (sd_rows _ Hs _ _ Hid)). congruence.
    + rewrite consumption_elsewhere; [lia|done].
    + destruct Ho as [->| ->]; [rewrite (Hno eq_refl _ _ Hpool) in Ht; done|].
      rewrite pool_consumption. rewrite <-(pk_confirmed _ _ _ (sd_pools _ Hs _ _ Hpool)).
      unfold reconciled, held_quantity. cbn. lia.
    + pose proof (consumption_open o (of_pool p) _ Hs). lia.
Qed.

Lemma no_target_move lib ck db db' : cuts_below lib = false → move lib ck db db' → no_target db → no_target db'.
Proof.
  intros Hcut Hm Hno p pool' Hp. destruct (move_capacity _ _ _ _ Hm) as [Hsame|(q & pq & -> & Hq)].
  - destruct (Hsame _ _ Hp) as (pool & Hpool & _ & ->). by apply (Hno p).
  - cbn in Hp. destruct (decide (q = p)) as [->|]; [|rewrite lookup_insert_ne in Hp by done; by apply (Hno p)].
    rewrite lookup_insert_eq in Hp. injection Hp as ->.
    destruct Hq as [(_ & ? & _)|(pool & Hpool & [(_ & _ & ->)|[(t & Ht & _)|[_ Hc]]])]; [done|by apply (Hno p)| |].
    + rewrite (Hno _ _ Hpool) in Ht. done.
    + destruct (po_Target pool'); [|done]. rewrite Hcut in Hc. exfalso. by discriminate Hc.
Qed.

Lemma Caps_move lib ck db db' : Sound db → move lib ck db db' →
  Caps (Some (ck_now ck)) db → Caps (Some (ck_now ck)) db'.
Proof.
  intros Hs Hm Hc p a Ha. set (o := Some (ck_now ck)). assert (Ho : in_step ck o) by by right.
  destruct (move_consumption _ _ o (of_channel p (al_Channel a)) _ _ Hs Ho Hm) as [Hle|(r & pool & -> & Hr & Had & Hle)].
  - assert (a ∈ allocations_of p db ∨ consumption o (of_channel p (al_Channel a)) (in_claims db) ≤ al_Cap a) as [Hin|].
    { destruct Hm as [db' Hcalm _ _| | | | | | | | | | | | | | |q allocs Hnd Hal| |d t db' Hrel%release_seats_calm _|t r seat db' _ _ Hins%insert_seat_calm|slot rows db' _ _ _ Hproj%upserts_calm];
        try (left; unfold allocations_of in *; cbn in Ha; congruence);
        try (left; by eapply calm_allocations); try (left; eapply calm_allocations; [apply Hproj|done]).
      unfold allocations_of in Ha |- *. cbn in Ha. destruct (decide (q = p)) as [->|].
      - rewrite lookup_insert_eq in Ha. cbn in Ha. right. by apply Hal.
      - rewrite lookup_insert_ne in Ha by done. by left. }
    + specialize (Hc p a Hin). fold o in Hc. lia.
    + lia.
  - change (a ∈ allocations_of p db) in Ha. specialize (Hc p a Ha).
    fold o in Hc. destruct (of_channel p (al_Channel a) (identity r)) eqn:Hsel; cbn [counted] in Hle; [|lia].
    unfold of_channel, of_pool, identity in Hsel. cbn in Hsel. zbool. subst p.
    destruct (ad_channel _ _ _ Had _ H0) as (b & Hb & Hch & Hcap).
    assert (b = a) as ->.
    { pose proof (sd_channels _ Hs (cl_PoolID r)) as Hnd. apply list_elem_of_lookup in Ha as [i Hi], Hb as [j Hj].
      assert (i = j) as ->; [|congruence]. eapply NoDup_lookup; [exact Hnd|..];
        change (map al_Channel ?l) with (al_Channel <$> l); rewrite list_lookup_fmap, ?Hi, ?Hj; cbn; [done|by rewrite Hch]. }
    pose proof (consumption_open o (of_channel (cl_PoolID r) (al_Channel a)) _ Hs). lia.
Qed.

Lemma Codes_move lib ck db db' : lowers_codes lib = false → Sound db → move lib ck db db' → Codes db → Codes db'.
Proof.
  intros Hl Hs Hm Hc k c max Hk Hmax. assert (Ho : in_step ck None) by by left.
  destruct (move_consumption _ _ None (of_code k) _ _ Hs Ho Hm) as [Hle|(r & pool & -> & Hr & Had & Hle)].
  - assert (in_codes db !! k = Some c ∨ codeRedeemedQuantity k db ≤ max) as [Hold|Hold].
    { destruct Hm as [db' Hcalm _ _| | | | | | | | | | | | | | | |k' c' Hco|d t db' Hrel%release_seats_calm _|t r seat db' _ _ Hins%insert_seat_calm|slot rows db' _ _ _ Hproj%upserts_calm];
        try (left; cbn in Hk; congruence); try (left; by eapply calm_codes); try (left; eapply calm_codes; [apply Hproj|done]).
      cbn in Hk. destruct (decide (k' = k)) as [->|]; [|rewrite lookup_insert_ne in Hk by done; by left].
      rewrite lookup_insert_eq in Hk. injection Hk as ->. destruct (Hco _ Hmax); [by right|congruence]. }
    + specialize (Hc _ _ _ Hold Hmax). lia.
    + rewrite code_redeemed_consumption in Hold. lia.
  - cbn in Hk. specialize (Hc _ _ _ Hk Hmax). destruct (of_code k (identity r)) eqn:Hsel; cbn [counted] in Hle; [|lia].
    destruct k as [[org ch] code]. unfold of_code, identity in Hsel. cbn in Hsel. zbool. subst org.
    destruct (ad_code _ _ _ Had _ _ H1 H0) as (c' & Hc' & Hcap).
    assert (Some c' = Some c) as [= ->] by exact (eq_trans (eq_sym Hc') Hk). specialize (Hcap _ Hmax). lia.
Qed.
End Moves.
