(* ===== verification/ClaimMoves.v ===== *)
(** * The inventory operations are sequences of moves

    For each operation of [Claims]: whatever it commits is reached by moves of
    [InventoryMoves], so the conditions of the moves are what its code checks. *)

From stdpp Require Import pretty.
From S2P Require Import Prelude Text Sha256 Format Tables Inventory Claims InventoryMoves.
#[local] Open Scope Z_scope.

Section ClaimMoves.
Context `{UU : UUID}.

(** ** Statements *)
Section Statements.
Context (lib : Liberties) (ck : Clock).
Abbreviation now := (ck_now ck).
Abbreviation steps := (rtc (move lib ck)).

(** Neither the tables the ceilings read nor the seats nor their projections change. *)
Definition idle (db db' : InventoryDB) : Prop :=
  calm db db' ∧ in_seats db' = in_seats db ∧ in_adjacency db' = in_adjacency db.

Lemma idle_steps db db' : idle db db' → steps db db'.
Proof. intros (? & ? & ?). by apply rtc_once, mv_idle. Qed.

Lemma idle_after db db1 db2 : steps db db1 → idle db1 db2 → steps db db2.
Proof. intros H1 H2%idle_steps. by etransitivity. Qed.

Lemma insertHistory_idle h db db' : insertHistory h db = Ok db' → idle db db'.
Proof. unfold insertHistory. case_match; [|done]. by intros [= <-]. Qed.

Lemma seat_due_finished p db k s : seat_due p db k s = true → ∃ r, in_claims db !! k.1 = Some r ∧ finished r = true.
Proof.
  unfold seat_due. intros H. destruct (in_claims db !! k.1) as [r|]; [|by zbool]. exists r. split; [done|].
  unfold finished. zbool. by apply orb_true_iff; left.
Qed.

Lemma releaseSeats_steps t p db db' : releaseSeatsForTerminal t p db = Ok db' → steps db db' ∧ calm db db'.
Proof.
  intros H. split; [|by eapply release_seats_calm]. apply rtc_once. eapply mv_release_seats; [exact H|].
  intros k s _. apply seat_due_finished.
Qed.

(** What a sweep and a reconciliation leave of the pools. *)
Definition same_limits (db db' : InventoryDB) : Prop :=
  ∀ p pool, in_pools db !! p = Some pool → ∃ pool', in_pools db' !! p = Some pool' ∧
    limit pool' = limit pool ∧ po_Confirmed pool' = po_Confirmed pool ∧ po_OrganizerID pool' = po_OrganizerID pool.

Lemma same_limits_refl db : same_limits db db.
Proof. intros p pool Hp. by exists pool. Qed.

Lemma limit_reconciled t held pool : po_Target pool = Some t → limit (reconciled t held pool) = limit pool.
Proof. intros Ht. unfold limit, reconciled. cbn. rewrite Ht. case_match; cbn; [|done]. zbool. lia. Qed.

Lemma reconcile_steps p db db' : reconcileCapacity now p db = Ok db' →
  steps db db' ∧ same_limits db db' ∧ in_claims db' = in_claims db ∧
  in_allocations db' = in_allocations db ∧ in_codes db' = in_codes db.
Proof.
  unfold reconcileCapacity. destruct (in_pools db !! p) as [pool|] eqn:Hp.
  2: { intros [= <-]. split; [done|]. by split; [apply same_limits_refl|]. }
  destruct (po_Target pool) as [t|] eqn:Ht.
  2: { intros [= <-]. split; [done|]. by split; [apply same_limits_refl|]. }
  destruct (_ >? _) eqn:Hgt; [done|]. intros [= <-]. split; [by apply rtc_once, mv_reconcile|]. split; [|done].
  intros q x Hx. cbn. destruct (decide (p = q)) as [->|].
  - rewrite lookup_insert_eq. eexists. split; [done|]. simplify_eq. by rewrite limit_reconciled.
  - rewrite lookup_insert_ne by done. by exists x.
Qed.

Lemma sweep_steps p db db' : sweepExpired now p db = Ok db' →
  steps db db' ∧ same_limits db db' ∧ in_claims db' = sweep now p <$> in_claims db ∧
  in_allocations db' = in_allocations db ∧ in_codes db' = in_codes db.
Proof.
  unfold sweepExpired. intros (db1 & H1 & H2)%bind_Ok.
  apply releaseSeats_steps in H1 as [H1 (Hp & Hc & Ha & Hk)]. cbn in Hp, Hc, Ha, Hk.
  apply reconcile_steps in H2 as (H2 & Hl & Hc2 & Ha2 & Hk2). split_and!; [| |congruence..].
  - eapply rtc_l; [apply (mv_sweep _ _ _ p)|]. etransitivity; [|exact H2]. etransitivity; [|exact H1]. by apply idle_steps.
  - intros q pool Hq. apply Hl. by rewrite Hp.
Qed.

Lemma counts_settled r : expired now r = false → counts (Some now) r = counts None r.
Proof.
  intros He. unfold counts, open, liveClaims. destruct (cl_Status r) eqn:Hs; [|done..].
  pose proof (not_expired_live _ _ Hs He) as Hl. unfold counts, liveClaims in Hl. by rewrite Hs in Hl.
Qed.

(** After its sweep a transaction sees no claim of the pool that is due: the
    live claims are the open ones. *)
Lemma swept_consumption sel p (m : gmap uuid Claim) : (∀ x, sel x = true → x.1.1.2 = p) →
  consumption None sel (sweep now p <$> m) = consumption (Some now) sel (sweep now p <$> m).
Proof.
  intros Hsel. apply total_ext. intros i r. rewrite lookup_fmap, fmap_Some. intros (x & _ & ->).
  unfold weight. destruct (sel (identity (sweep now p x))) eqn:E; [|done]. rewrite <-counts_settled; [done|].
  apply Hsel in E. unfold sweep, due, in_pool in *. destruct (bool_decide (cl_PoolID x = p) && expired now x) eqn:Hd; [done|].
  rewrite bool_decide_true in Hd by exact E. exact Hd.
Qed.
End Statements.

(** Finding a claim by its key finds a claim of the table. *)
Lemma find_claim_Some org key reseller staff db r : find_claim org key reseller staff db = Some r →
  same_scope org key reseller staff r = true ∧ ∃ i, in_claims db !! i = Some r.
Proof.
  unfold find_claim. destruct (rows_where _ _) as [|x l] eqn:E; [done|]. intros [= ->].
  apply elem_of_rows_where. rewrite E. apply list_elem_of_here.
Qed.

Lemma pool_of_org_Ok org p db pool : pool_of_org org p db = Ok pool → in_pools db !! p = Some pool ∧ po_OrganizerID pool = org.
Proof. unfold pool_of_org. destruct (in_pools db !! p); [|done]. case_bool_decide; [|done]. by intros [= ->]. Qed.

Lemma claim_of_org_Ok org id db r : claim_of_org org id db = Ok r → in_claims db !! id = Some r ∧ cl_OrganizerID r = org.
Proof. unfold claim_of_org. destruct (in_claims db !! id); [|done]. case_bool_decide; [|done]. by intros [= ->]. Qed.

Lemma claim_of_kind_Ok kind org id db r : claim_of_kind kind org id db = Ok r →
  in_claims db !! id = Some r ∧ cl_OrganizerID r = org ∧ cl_Kind r = kind.
Proof.
  unfold claim_of_kind. intros (x & Hx%claim_of_org_Ok & H)%bind_Ok. case_bool_decide; [|done]. injection H as ->. by destruct Hx.
Qed.

Lemma insertClaim_Ok r db db' : insertClaim r db = Ok db' ↔
  db' = set_claim r db ∧ in_claims db !! cl_ID r = None ∧ is_Some (in_pools db !! cl_PoolID r) ∧ claim_checks r = true ∧
  find_claim (cl_OrganizerID r) (cl_Key r) (cl_ResellerScope r) (cl_StaffScope r) db = None.
Proof.
  unfold insertClaim. destruct (in_claims db !! cl_ID r) eqn:H1; [naive_solver|].
  destruct (in_pools db !! cl_PoolID r) eqn:H2; [|naive_solver].
  destruct (claim_checks r); cbn; [|naive_solver]. destruct (find_claim _ _ _ _ _); cbn; naive_solver.
Qed.

Section Operations.
Context (lib : Liberties) (ck : Clock).
Abbreviation now := (ck_now ck).
Abbreviation steps := (rtc (move lib ck)).

Lemma steps_sound db db' : steps db db' → Sound db → Sound db'.
Proof. induction 1; [done|]. intros Hs. apply IHrtc. by eapply move_sound. Qed.

Lemma row_at db r i : Sound db → in_claims db !! i = Some r → in_claims db !! cl_ID r = Some r.
Proof. intros Hs Hr. by rewrite (ro_id _ _ _ (sd_rows _ Hs _ _ Hr)). Qed.

Lemma expired_held t r : expired t r = true → cl_Status r = Held.
Proof. unfold expired. intros H. by zbool. Qed.

Lemma expire_steps r i t db db' : Sound db → in_claims db !! i = Some r → expired t r = true →
  expire_claim r db = Ok db' → steps db db' ∧ in_claims db' = <[cl_ID r := set_status Expired r]> (in_claims db).
Proof.
  intros Hs Hr He%expired_held H%insertHistory_idle. split.
  - eapply idle_after; [|exact H]. apply rtc_once, mv_expire; [by eapply row_at|done].
  - by destruct H as [(_ & -> & _) _].
Qed.

(** ** Admission *)

Lemma nullif_Some s t : nullif s = Some t → s = t ∧ t ≠ ""%string.
Proof. unfold nullif. case_bool_decide; [done|]. by intros [= ->]. Qed.

Lemma active_on_Some t p ch db a : active_on t p ch db = Some a → a ∈ allocations_of p db ∧ al_Channel a = ch.
Proof. intros [Hin H]%List.find_some. zbool. split; [by apply list_elem_of_In|done]. Qed.

(** What passing the channel's gate says about the code that will be recorded. *)
Lemma channelGate_Ok org slot channel code reseller qty db a : channelGate ck org slot channel code reseller qty db = Ok a →
  (∀ x, a = Some x → x ∈ allocations_of slot db ∧ al_Channel x = channel) ∧
  (recorded_code a code ≠ ""%string → ∃ c, in_codes db !! (org, channel, recorded_code a code) = Some c ∧
     ∀ max, pc_MaxRedemptions c = Some max → codeRedeemedQuantity (org, channel, recorded_code a code) db + qty ≤ max).
Proof.
  unfold channelGate. case_bool_decide; [by intros [= <-]|].
  destruct (active_on _ _ _ _) as [x|] eqn:Hx; [|by intros [= <-]].
  apply active_on_Some in Hx. destruct (negb _); [done|]. destruct (negb _); [done|].
  destruct (al_RequiresCode x) eqn:Hq.
  - intros ([] & Hr & [= <-])%bind_Ok. split; [by intros ? [= <-]|]. unfold recorded_code. rewrite Hq. intros _.
    unfold redeemPresaleCode in Hr. destruct (bool_decide (code = ""%string)); [done|]. destruct (List.find _ _); [|done].
    destruct (in_codes db !! _) as [pc|] eqn:Hc; [|done]. exists pc. split; [done|]. intros max Hm. rewrite Hm in Hr.
    destruct (_ || _); [done|]. destruct (_ >? _) eqn:Hgt; [done|]. zbool. lia.
  - intros [= <-]. split; [by intros ? [= <-]|]. unfold recorded_code. by rewrite Hq.
Qed.

Lemma channelHeadroom_Ok slot channel a qty db u : channelHeadroom now slot channel a qty db = Ok u →
  ∃ x, a = Some x ∧ channel_consumed now slot channel db + qty ≤ al_Cap x.
Proof. unfold channelHeadroom. destruct a as [x|]; [|done]. case_match; [done|]. intros _. exists x. zbool. split; [done|lia]. Qed.

(** An admission after a sweep: the headroom found for the live claims is there
    for the open ones. *)
Lemma admitted slot db0 db pool0 r (a : option ChannelAllocation) (code : string) : Sound db0 →
  in_pools db0 !! slot = Some pool0 → sweepExpired now slot db0 = Ok db →
  cl_PoolID r = slot → 0 ≤ cl_Quantity r →
  globalShort pool0 (held_quantity now slot db) (cl_Quantity r) = false →
  (∀ ch, cl_Channel r = Some ch → ∃ u, channelHeadroom now slot ch a (cl_Quantity r) db = Ok u) →
  (∀ ch, cl_Channel r = Some ch → ∃ reseller, channelGate ck (cl_OrganizerID r) slot ch code reseller (cl_Quantity r) db = Ok a) →
  cl_PresaleCode r = nullif (recorded_code a code) →
  ∃ pool, in_pools db !! slot = Some pool ∧ Admissible db r pool.
Proof.
  intros Hs Hp Hsw <- Hq Hg Hch Hgate Hcode.
  destruct (sweep_steps lib _ _ _ _ Hsw) as (Hst & Hl & Hcl & Ha & Hk).
  destruct (Hl _ _ Hp) as (pool & Hpool & Hlim & Hconf & _). exists pool. split; [done|].
  pose proof (steps_sound _ _ Hst Hs) as Hs'.
  assert (Hsw_c : ∀ sel, (∀ x, sel x = true → x.1.1.2 = cl_PoolID r) →
    consumption None sel (in_claims db) = consumption (Some now) sel (in_claims db)).
  { intros sel. rewrite Hcl. apply swept_consumption. }
  split.
  - rewrite Hsw_c by (intros x Hx; by apply bool_decide_eq_true in Hx). rewrite pool_consumption.
    rewrite <-(pk_confirmed _ _ _ (sd_pools _ Hs' _ _ Hpool)). unfold globalShort in Hg. zbool.
    rewrite Hlim, Hconf. unfold held_quantity in Hg. cbn [counts]. lia.
  - intros ch Hc. destruct (Hch ch Hc) as [u Hu]. destruct (Hgate ch Hc) as [reseller Hg'].
    apply channelHeadroom_Ok in Hu as (x & -> & Hcap). apply channelGate_Ok in Hg' as [Hx _].
    destruct (Hx x eq_refl) as [Hin <-]. exists x. split_and!; [done..|].
    rewrite Hsw_c; [by rewrite <-channel_consumed_consumption|].
    intros y Hy. unfold of_channel, of_pool in Hy. by zbool.
  - intros ch c Hc Hpc. rewrite Hcode in Hpc. apply nullif_Some in Hpc as [Hrec Hne].
    destruct (Hgate ch Hc) as [reseller Hg']. apply channelGate_Ok in Hg' as [_ Hcd]. rewrite Hrec in Hcd.
    destruct (Hcd Hne) as (pc & Hpc & Hmax). exists pc. split; [done|]. intros max Hm. specialize (Hmax max Hm).
    by rewrite <-code_redeemed_consumption.
Qed.

Lemma scan32_Ok n m : scan32 n = Ok m → m = n ∧ n ≤ MaxInt32.
Proof. unfold scan32. destruct (_ >? _) eqn:H; [done|]. intros [= ->]. zbool. by split; [|lia]. Qed.

Lemma holdHeadroom_Ok slot channel a pool qty db u : holdHeadroom ck slot channel a pool qty db = Ok u →
  globalShort pool (held_quantity now slot db) qty = false ∧
  (channel ≠ ""%string → ∃ v, channelHeadroom now slot channel a qty db = Ok v).
Proof.
  unfold holdHeadroom. intros (held & [-> _]%scan32_Ok & H)%bind_Ok. case_bool_decide as Hc; cbn in H.
  - destruct (_ <=? 0); [done|]. destruct (_ || _) eqn:E; [done|]. by apply orb_false_iff in E as [_ E].
  - destruct (globalShort _ _ _) eqn:E; [done|]. split; [done|]. intros _. by exists u.
Qed.

Lemma reservationHeadroom_Ok slot channel a pool qty db u : reservationHeadroom ck slot channel a pool qty db = Ok u →
  globalShort pool (held_quantity now slot db) qty = false ∧
  (channel ≠ ""%string → ∃ v, channelHeadroom now slot channel a qty db = Ok v).
Proof.
  unfold reservationHeadroom. intros (held & [-> _]%scan32_Ok & H)%bind_Ok.
  destruct (globalShort _ _ _); [done|]. split; [done|]. intros Hc. rewrite bool_decide_false in H by done. by exists u.
Qed.

(** The whole of an admission: sweep, headroom, insert, and what no ceiling reads. *)
Lemma admit_idle slot db0 db db1 db2 pool0 r (a : option ChannelAllocation) (channel code : string) reseller :
  Sound db0 → in_pools db0 !! slot = Some pool0 → sweepExpired now slot db0 = Ok db →
  cl_PoolID r = slot → cl_Channel r = nullif channel → cl_Status r = Held → cl_Returned r = 0 →
  cl_PresaleCode r = nullif (recorded_code a code) →
  channelGate ck (cl_OrganizerID r) slot channel code reseller (cl_Quantity r) db = Ok a →
  globalShort pool0 (held_quantity now slot db) (cl_Quantity r) = false ∧
  (channel ≠ ""%string → ∃ v, channelHeadroom now slot channel a (cl_Quantity r) db = Ok v) →
  insertClaim r db = Ok db1 → idle db1 db2 →
  steps db0 db2.
Proof.
  intros Hs Hp Hsw Hslot Hch Hst Hret Hcode Hgate [Hg Hhead] Hi Hh.
  apply insertClaim_Ok in Hi as (-> & Hf & _ & Hck & _).
  destruct (sweep_steps lib ck _ _ _ Hsw) as (Hsteps & _).
  destruct (admitted slot db0 db pool0 r a code) as (pool & Hpool & Had); try done.
  - apply checks_quantities in Hck. lia.
  - intros ch Hc. rewrite Hch in Hc. apply nullif_Some in Hc as [<- Hne]. by apply Hhead.
  - intros ch Hc. rewrite Hch in Hc. apply nullif_Some in Hc as [<- Hne]. by exists reseller.
  - eapply idle_after; [|exact Hh]. etransitivity; [exact Hsteps|]. apply rtc_once.
    apply (mv_admit _ _ _ r pool); try done. by rewrite Hslot.
Qed.

Lemma admit_steps slot db0 db db1 db2 h pool0 r (a : option ChannelAllocation) (channel code : string) reseller :
  Sound db0 → in_pools db0 !! slot = Some pool0 → sweepExpired now slot db0 = Ok db →
  cl_PoolID r = slot → cl_Channel r = nullif channel → cl_Status r = Held → cl_Returned r = 0 →
  cl_PresaleCode r = nullif (recorded_code a code) →
  channelGate ck (cl_OrganizerID r) slot channel code reseller (cl_Quantity r) db = Ok a →
  globalShort pool0 (held_quantity now slot db) (cl_Quantity r) = false ∧
  (channel ≠ ""%string → ∃ v, channelHeadroom now slot channel a (cl_Quantity r) db = Ok v) →
  insertClaim r db = Ok db1 → insertHistory h db1 = Ok db2 →
  steps db0 db2.
Proof. intros ??????????? Hh%insertHistory_idle. by eapply admit_idle. Qed.

(** ** The operations *)

Definition Moves {A} (body : InventoryDB → tx A) : Prop :=
  ∀ db db' r, body db = Ok (db', r) → Sound db → steps db db'.

Lemma grantHold_moves ttl id rq db db' pool r : Sound db → in_pools db !! hr_SlotID rq = Some pool →
  grantHold ttl ck id rq pool db = Ok (db', r) → steps db db'.
Proof.
  unfold grantHold. intros Hs Hp (u & _ & H)%bind_Ok.
  apply bind_Ok in H as (db1 & Hsw & H). apply bind_Ok in H as (a & Hg & H). apply bind_Ok in H as (v & Hh & H).
  unfold recordHold in H. apply bind_Ok in H as (db2 & Hi & H). apply bind_Ok in H as (db3 & Hhist & [= <- _]).
  apply holdHeadroom_Ok in Hh. by eapply (admit_steps (hr_SlotID rq) _ _ _ _ _ _ (hold_claim ttl ck id rq _)); [..|exact Hi|exact Hhist].
Qed.

Lemma CreateHold_moves ttl id rq : Moves (CreateHold ttl ck id rq).
Proof.
  intros db db' r. unfold CreateHold. destruct (_ <=? 0); [done|]. intros (pool & [Hp _]%pool_of_org_Ok & H)%bind_Ok Hs.
  destruct (po_Seated pool); [done|]. destruct (find_claim _ _ _ _ _) as [x|] eqn:Hf; [|by eapply grantHold_moves].
  apply find_claim_Some in Hf as (_ & i & Hx). destruct (negb _); [done|]. destruct (expired _ _) eqn:He.
  - apply bind_Ok in H as (db1 & H1 & [= <- _]). by eapply expire_steps in H1 as [? _].
  - by injection H as <- _.
Qed.

(** An expiry that is due is written, and the claim read is not due any more. *)
Lemma settleExpiry_steps r db db1 r1 : Sound db → in_claims db !! cl_ID r = Some r → settleExpiry now r db = Ok (db1, r1) →
  steps db db1 ∧ in_claims db1 !! cl_ID r1 = Some r1 ∧ cl_ID r1 = cl_ID r ∧ cl_Kind r1 = cl_Kind r ∧ expired now r1 = false.
Proof.
  intros Hs Hr. unfold settleExpiry. destruct (expired now r) eqn:He; [|intros [= <- <-]; done].
  intros (dbA & HA & H)%bind_Ok. apply bind_Ok in H as (dbB & HB & H). apply bind_Ok in H as (dbC & HC & [= <- <-]).
  eapply expire_steps in HA as [HA Hcl]; [|done..].
  apply (reconcile_steps lib ck) in HC as (HC & _ & Hcc & _).
  apply (releaseSeats_steps lib ck) in HB as [HB (_ & HBc & _)].
  split; [etransitivity; [exact HA|]; by etransitivity|]. split; [|done].
  rewrite Hcc, HBc, Hcl. cbn. by rewrite lookup_insert_eq.
Qed.

Definition checkout_target (st : ClaimStatus) : Prop := st = Finalizing ∨ st = Confirmed ∨ st = Released.

Lemma confirm_steps r db db1 : Sound db → in_claims db !! cl_ID r = Some r → counts (Some now) r = true →
  addConfirmed (cl_PoolID r) (cl_Quantity r) db = Ok db1 → steps db (set_claim (set_status Confirmed r) db1).
Proof.
  intros Hs Hr Hl. unfold addConfirmed. destruct (ro_pool _ _ _ (sd_rows _ Hs _ _ Hr)) as [pool Hp]. rewrite Hp.
  destruct (_ >? _) eqn:Hgt; [done|]. intros [= <-]. zbool. apply rtc_once, mv_confirm; [done..|lia].
Qed.

Lemma finishClaim_steps org target r db db' x : Sound db → in_claims db !! cl_ID r = Some r →
  counts (Some now) r = true → target = Confirmed ∨ target = Released →
  finishClaim now org target r db = Ok (db', x) → steps db db'.
Proof.
  unfold finishClaim. intros Hs Hr Hl Ht (db1 & H1 & H)%bind_Ok.
  apply bind_Ok in H as (db2 & H2 & H). apply bind_Ok in H as (db3 & H3%insertHistory_idle & [= <- _]).
  eapply idle_after; [|exact H3]. destruct Ht as [-> | ->].
  - rewrite bool_decide_true in H1 by done. rewrite bool_decide_false in H2 by done. injection H2 as <-. by eapply confirm_steps.
  - rewrite bool_decide_false in H1 by done. rewrite bool_decide_true in H2 by done. injection H1 as <-.
    apply bind_Ok in H2 as (dbA & [HA _]%(releaseSeats_steps lib ck) & HB). apply (reconcile_steps lib ck) in HB as (HB & _).
    etransitivity; [|exact HB]. etransitivity; [|exact HA]. apply rtc_once, mv_release; [done|by eapply counts_open_status].
Qed.

Lemma Transition_moves org id target : checkout_target target → Moves (Transition ck org id target).
Proof.
  intros Ht db db' x. unfold Transition. intros (r & [Hr _]%claim_of_org_Ok & H)%bind_Ok Hs.
  destruct (negb _); [done|]. apply bind_Ok in H as ([db1 r1] & H1 & H). cbn [fst snd] in H.
  apply settleExpiry_steps in H1 as (Hst & Hr1 & _ & _ & He); [|done|by eapply row_at].
  assert (Hs1 : Sound db1) by by eapply steps_sound.
  assert (Hlive : cl_Status r1 = Held ∨ cl_Status r1 = Finalizing → counts (Some now) r1 = true).
  { intros [?|E]; [by apply not_expired_live|]. unfold counts, liveClaims. by rewrite E. }
  case_bool_decide as Hne; [by injection H as <- _|].
  do 2 (destruct (bool_decide _); [by injection H as <- _|]). case_bool_decide as Hfin.
  - destruct Hfin as [-> Hheld]. apply bind_Ok in H as (db2 & Hh%insertHistory_idle & [= <- _]).
    eapply idle_after; [|exact Hh]. etransitivity; [exact Hst|]. apply rtc_once, mv_finalize; [done..|by apply Hlive; left].
  - destruct (negb _ && negb _) eqn:Hopen; [done|].
    apply andb_false_iff in Hopen. rewrite !negb_false_iff, !bool_decide_eq_true in Hopen.
    etransitivity; [exact Hst|]. apply (finishClaim_steps org target r1 db1 db' x); [done|done|by apply Hlive| |done].
    destruct Ht as [-> |Ht]; [|done]. exfalso. destruct Hopen as [Hh|Hf]; [by apply Hfin|by apply Hne].
Qed.

Lemma bounded_wrap32 n : 0 ≤ n ≤ 2 * MaxInt32 → 0 ≤ wrap32 n → wrap32 n = n.
Proof.
  intros Hn H. destruct (Z.le_gt_cases n MaxInt32); [apply wrap32_id; unfold int32, MinInt32; lia|].
  revert H. unfold wrap32, MaxInt32, MinInt32 in *. rewrite <-(Z.mod_unique _ _ 1 (n - 2147483648)); lia.
Qed.

(** A cut that leaves a target takes the liberty to make one. *)
Lemma AdjustCapacity_moves org slot newCap actor reason key db db' r :
  AdjustCapacity ck org slot newCap actor reason key db = Ok (db', r) → Sound db →
  (∀ adj, r = Ok adj → ca_Replay adj = false → ca_Target adj ≠ None → cuts_below lib = true) → steps db db'.
Proof.
  unfold AdjustCapacity. destruct (_ <=? 0); [done|]. intros (pool0 & _ & H)%bind_Ok Hs Hcut.
  apply bind_Ok in H as (prior & _ & H). destruct prior; [by injection H as <- _|].
  destruct (po_Archived _); [done|]. apply bind_Ok in H as (db1 & Hsw & H).
  apply bind_Ok in H as (pool & [Hp _]%pool_of_org_Ok & H). apply bind_Ok in H as (held & [-> Hheld]%scan32_Ok & H).
  apply bind_Ok in H as (db2 & Hh & [= <- <-]). specialize (Hcut _ eq_refl).
  apply (sweep_steps lib ck) in Hsw as (Hst & _ & Hcl & _). pose proof (steps_sound _ _ Hst Hs) as Hs1.
  destruct (sd_pools _ Hs1 _ _ Hp) as [Hconf _ H32].
  set (demand := po_Confirmed pool + held_quantity now slot db1) in *.
  assert (Hdemand : consumption None (of_pool slot) (in_claims db1) = demand).
  { rewrite Hcl. rewrite swept_consumption by (intros x Hx; by apply bool_decide_eq_true in Hx).
    rewrite pool_consumption. unfold demand, held_quantity. by rewrite Hconf, Hcl. }
  assert (0 ≤ demand) by (rewrite <-Hdemand; apply total_nonneg; intros i x Hx; by eapply weight_nonneg, ro_checks, sd_rows).
  assert (0 ≤ ca_Capacity (adjusted newCap demand (po_Capacity pool))) as Hpos.
  { unfold insertHistory, history_insertable in Hh. destruct (_ && _) eqn:E in Hh; [|done]. cbn in E. by zbool. }
  apply insertHistory_idle in Hh. eapply idle_after; [|exact Hh]. etransitivity; [exact Hst|].
  apply rtc_once. unfold adjusted in *. destruct (newCap <? demand) eqn:Hlt; cbn in *; zbool.
  - rewrite bounded_wrap32 in * by lia. apply mv_adjust; [done|lia|]. intros t [= <-]. split; [lia|by apply Hcut].
  - apply mv_adjust; [done|lia|done].
Qed.

Lemma PlaceOperationalHold_moves id org slot qty purpose label actor reason key :
  Moves (PlaceOperationalHold ck id org slot qty purpose label actor reason key).
Proof.
  intros db db' r. unfold PlaceOperationalHold. destruct (_ <=? 0); [done|].
  intros (pool & [Hp _]%pool_of_org_Ok & H)%bind_Ok Hs. destruct (po_Seated _); [done|].
  apply bind_Ok in H as (prior & _ & H). destruct prior; [by injection H as <- _|].
  apply bind_Ok in H as (u & _ & H). apply bind_Ok in H as (db1 & Hsw & H).
  apply bind_Ok in H as (held & [-> _]%scan32_Ok & H). destruct (globalShort _ _ _) eqn:Hg; [done|].
  apply bind_Ok in H as (db2 & Hi & H). apply bind_Ok in H as (db3 & Hh & [= <- _]).
  by eapply (admit_steps slot _ _ _ _ _ _ _ None ""%string ""%string None); [..|exact Hi|exact Hh].
Qed.

Lemma placeReservation_moves id rq pool db db' r : Sound db → in_pools db !! gr_SlotID rq = Some pool →
  placeReservation ck id rq pool db = Ok (db', r) → steps db db'.
Proof.
  unfold placeReservation. intros Hs Hp (u & _ & H)%bind_Ok. destruct (negb _); [done|].
  apply bind_Ok in H as (db1 & Hsw & H). apply bind_Ok in H as (a & Hg & H). apply bind_Ok in H as (v & Hh & H).
  apply bind_Ok in H as (db2 & Hi & H). apply bind_Ok in H as (db3 & Hhist & [= <- _]).
  apply reservationHeadroom_Ok in Hh.
  by eapply (admit_steps (gr_SlotID rq) _ _ _ _ _ _ (reservation_claim id rq _)); [..|exact Hi|exact Hhist].
Qed.

Lemma PlaceGroupReservation_moves id rq : Moves (PlaceGroupReservation ck id rq).
Proof.
  intros db db' r. unfold PlaceGroupReservation. destruct (_ <=? 0); [done|].
  intros (pool & [Hp _]%pool_of_org_Ok & H)%bind_Ok Hs. destruct (po_Seated _); [done|].
  apply bind_Ok in H as (prior & _ & H). destruct prior; [by injection H as <- _|]. by eapply placeReservation_moves.
Qed.

Lemma held_not_over (st : ClaimStatus) n m : negb (bool_decide (st = Held)) || (n >? m) = false → st = Held ∧ n ≤ m.
Proof. intros H. apply orb_false_iff in H as [H1 H2]. zbool. by split. Qed.

Lemma ReleaseOperational_moves org id qty actor reason key : Moves (ReleaseOperational ck org id qty actor reason key).
Proof.
  intros db db' x. unfold ReleaseOperational. destruct (_ <=? 0) eqn:Hq; [done|]. intros (r0 & _ & H)%bind_Ok Hs.
  apply bind_Ok in H as (prior & _ & H). destruct prior; [by injection H as <- _|].
  apply bind_Ok in H as (r & (Hr & _ & _)%claim_of_kind_Ok & H). destruct (_ || _) eqn:Ho; [done|].
  apply held_not_over in Ho as [Hst Hle]. apply bind_Ok in H as (db1 & H1%insertHistory_idle & H).
  apply bind_Ok in H as (db2 & H2 & [= <- _]). apply (reconcile_steps lib ck) in H2 as (H2 & _).
  etransitivity; [|exact H2]. eapply idle_after; [|exact H1]. zbool. apply rtc_once, mv_carve; [by eapply row_at|done|lia..].
Qed.

Lemma carveChild_steps action actor reason key fp org qty r child db db' x :
  Sound db → in_claims db !! cl_ID r = Some r → cl_Status r = Held → counts (Some now) r = true →
  cl_Status child = Held → cl_Returned child = 0 → identity child = identity r → cl_Quantity child = qty → qty ≤ cl_Quantity r →
  carveChild action actor reason key fp org qty r child db = Ok (db', x) → steps db db'.
Proof.
  unfold carveChild. intros Hs Hr Hst Hl Hcs Hcr Hid <- Hle H. apply bind_Ok in H as (db1 & (-> & Hf & _ & Hck & _)%insertClaim_Ok & H).
  apply bind_Ok in H as (db2 & H2%insertHistory_idle & [= <- _]).
  eapply idle_after; [|exact H2]. by apply rtc_once, mv_convert.
Qed.

(** An operational hold has no expiry and no channel, so no code either. *)
Lemma operational_shape r : claim_checks r = true → cl_Kind r = Operational →
  cl_ExpiresAt r = None ∧ cl_Channel r = None ∧ cl_PresaleCode r = None.
Proof.
  unfold claim_checks, kind_shape. intros H Hk. rewrite Hk in H. zbool.
  destruct (cl_ExpiresAt r), (cl_Channel r), (cl_PresaleCode r); naive_solver.
Qed.

Lemma replay_same h related db db' r : replayConvert h related db = Ok (db', r) → db' = db.
Proof. unfold replayConvert. case_match; [|done]. by intros [= <- _]. Qed.

Lemma ConvertOperational_moves ttl child org id ticketType expectedSlot qty unitAmount currency actor reason key :
  Moves (ConvertOperational ttl ck child org id ticketType expectedSlot qty unitAmount currency actor reason key).
Proof.
  intros db db' x. unfold ConvertOperational. destruct (_ <=? 0); [done|]. intros (r0 & _ & H)%bind_Ok Hs.
  apply bind_Ok in H as (prior & _ & H). destruct (converted prior) as [[h related]|].
  { by apply replay_same in H as ->. }
  apply bind_Ok in H as (r & (Hr & Horg & Hk)%claim_of_kind_Ok & H). destruct (negb _); [done|].
  destruct (_ || _) eqn:Ho; [done|]. apply held_not_over in Ho as [Hst Hle].
  destruct (operational_shape r) as (He & Hc & Hp); [by eapply ro_checks, sd_rows|done|].
  eapply carveChild_steps; [..|exact H]; try done; [by eapply row_at| |].
  - apply not_expired_live; [done|]. unfold expired, passed. rewrite He. by rewrite andb_false_r.
  - unfold identity, buyer_claim. cbn. congruence.
Qed.

Lemma expired_later t t' r : t ≤ t' → expired t' r = false → expired t r = false.
Proof.
  unfold expired, passed. intros Ht H. destruct (bool_decide _); [|done]. cbn in *.
  destruct (cl_ExpiresAt r); [|done]. zbool. lia.
Qed.

Lemma DrawDown_moves ttl child org id ticketType expectedSlot qty unitAmount currency actor reason key : clock_ok ck = true →
  Moves (DrawDownGroupReservation ttl ck child org id ticketType expectedSlot qty unitAmount currency actor reason key).
Proof.
  intros Hck db db' x. unfold DrawDownGroupReservation. destruct (_ <=? 0); [done|]. intros (r0 & _ & H)%bind_Ok Hs.
  apply bind_Ok in H as (prior & _ & H). destruct (converted prior) as [[h related]|].
  { by apply replay_same in H as ->. }
  apply bind_Ok in H as (r & (Hr & Horg & Hk)%claim_of_kind_Ok & H). destruct (expired _ r) eqn:He.
  - apply bind_Ok in H as (db1 & H1 & H). apply bind_Ok in H as (db2 & H2 & [= <- _]).
    eapply expire_steps in H1 as [H1 _]; [|done..]. apply (reconcile_steps lib ck) in H2 as (H2 & _). by etransitivity.
  - destruct (negb _); [done|]. destruct (_ || _) eqn:Ho; [done|]. apply held_not_over in Ho as [Hst Hle].
    eapply carveChild_steps; [..|exact H]; try done; [by eapply row_at| |].
    + apply not_expired_live; [done|]. eapply expired_later, He. unfold clock_ok in Hck. by zbool.
    + unfold identity, buyer_claim. cbn. congruence.
Qed.

(** The seats of a claim returned in full are released before the return is
    written; the result is that of releasing them after. *)
Lemma return_steps r qty db db1 db2 db3 : in_claims db !! cl_ID r = Some r → cl_Status r = Confirmed → 0 < qty →
  returnSeats now r qty db = Ok db1 → returnQuantity (cl_PoolID r) qty db1 = Ok db2 →
  updateClaim (set_quantities (cl_Quantity r) (cl_Returned r + qty) r) db2 = Ok db3 → steps db db3.
Proof.
  intros Hr Hst Hq H1 H2 H3. assert (Hc : calm db db1).
  { unfold returnSeats in H1. case_bool_decide; [by injection H1 as <-|]. destruct (_ || _); [done|]. by eapply release_seats_calm. }
  destruct Hc as (Hp1 & _). unfold returnQuantity in H2. rewrite Hp1 in H2.
  destruct (in_pools db !! _) as [pool|] eqn:Hp; [|done]. destruct (_ >=? _) eqn:Hge; [|done].
  injection H2 as <-. unfold updateClaim in H3. destruct (claim_checks _) eqn:Hck; [|done]. injection H3 as <-. zbool.
  set (r' := set_quantities _ _ r) in *.
  transitivity (set_claim r' (set_pool (cl_PoolID r) (set_confirmed (po_Confirmed pool - qty) pool) db)).
  { apply rtc_once, mv_return; [done..|lia|done]. }
  unfold returnSeats in H1. case_bool_decide as Hseats; [by injection H1 as <-|]. destruct (_ || _) eqn:Hw; [done|]. zbool.
  apply rtc_once, (mv_release_seats _ _ _ (λ k s, bool_decide (k.1 = cl_ID r) && is_None (st_ReleasedAt s)) now).
  - unfold release_seats_where in H1 |- *. cbn [in_seats set_claim set_pool with_claims with_pools].
    destruct (forallb _ _); [|done]. by injection H1 as <-.
  - cbn. intros k s _ [Hd%bool_decide_eq_true _]%andb_prop. exists r'. rewrite Hd, lookup_insert_eq. split; [done|].
    unfold finished, is_confirmed. cbn. rewrite Hst. cbn. apply Z.eqb_eq. lia.
Qed.

Lemma ReturnRefundedCapacity_moves org id refundID qty : Moves (ReturnRefundedCapacity ck org id refundID qty).
Proof.
  intros db db' x. unfold ReturnRefundedCapacity. destruct (_ <? 1) eqn:Hq; [done|].
  intros (r & [Hr _]%claim_of_org_Ok & H)%bind_Ok Hs. destruct (List.find _ _).
  { destruct (negb _); [done|]. by injection H as <- _. }
  destruct (negb _ || negb _) eqn:Hc; [done|]. apply orb_false_iff in Hc as [Hc _]. apply negb_false_iff, bool_decide_eq_true in Hc.
  destruct (_ >? _); [done|]. unfold applyReturn in H. apply bind_Ok in H as (db1 & H1 & H).
  apply bind_Ok in H as (db2 & H2 & H). apply bind_Ok in H as (db3 & H3 & H). apply bind_Ok in H as (db4 & H4 & H).
  apply bind_Ok in H as (db5 & H5%insertHistory_idle & [= <- _]). apply (reconcile_steps lib ck) in H4 as (H4 & _).
  eapply idle_after; [|exact H5]. etransitivity; [|exact H4]. apply Z.ltb_ge in Hq. eapply (return_steps r qty); [by eapply row_at|exact Hc|lia|exact H1|exact H2|exact H3].
Qed.

Lemma checkAllocations_NoDup seen allocs n m : checkAllocations seen allocs n = Ok m →
  NoDup (map al_Channel allocs) ∧ ∀ a, a ∈ allocs → al_Channel a ∉ seen.
Proof.
  revert seen n. induction allocs as [|a allocs IH]; cbn; intros seen n.
  - intros _. split; [constructor|]. intros a Ha. by apply not_elem_of_nil in Ha.
  - destruct (_ || _); [done|]. case_bool_decide as Hin; [done|]. intros [Hnd Hns]%IH. split.
    + apply list.NoDup_cons. split; [|done]. intros (b & Hb & Hb')%list_elem_of_fmap. apply (Hns b Hb').
      rewrite <-Hb. apply list_elem_of_here.
    + intros b [-> |Hb]%list.elem_of_cons; [done|]. specialize (Hns b Hb). by apply not_elem_of_cons in Hns as [_ ?].
Qed.

Lemma ReplaceChannelAllocations_moves org slot allocs expected : Moves (ReplaceChannelAllocations ck org slot allocs expected).
Proof.
  intros db db' x. unfold ReplaceChannelAllocations. intros (n & [Hnd _]%checkAllocations_NoDup & H)%bind_Ok Hs.
  apply bind_Ok in H as (pool & [Hp _]%pool_of_org_Ok & H). destruct (match expected with Some _ => _ | None => _ end); [done|].
  destruct (_ && _); [done|]. destruct (reversed_window _); [done|]. destruct (_ >? _); [done|].
  destruct (below_consumption _ _ _ _) eqn:Hb; [done|]. destruct (negb _); [done|]. injection H as <- _.
  eapply rtc_l; [apply (mv_allocations _ _ _ slot allocs); [done|]|by apply rtc_once, (mv_pool _ _ _ slot pool)].
  intros a Ha. unfold below_consumption in Hb. eapply List.find_none in Hb; [|by apply list_elem_of_In].
  cbn in Hb. rewrite <-channel_consumed_consumption. zbool. lia.
Qed.

Lemma Provision_moves eventID slot org capacity : Moves (Provision eventID slot org capacity).
Proof.
  intros db db' x. unfold Provision. destruct (_ <=? 0) eqn:Hc; [done|]. zbool. case_bool_decide; [by intros [= <- _]|].
  set (db1 := with_events _ db). assert (idle db db1) as Hi%(idle_steps lib ck) by done. intros H0 Hs.
  transitivity db1; [exact Hi|]. change (in_pools db) with (in_pools db1) in H0. destruct (in_pools db1 !! slot) as [pool|] eqn:Hp.
  2: { injection H0 as <- _. by apply rtc_once, mv_provision. }
  destruct (untouched slot org pool db1) eqn:Hu; [|by injection H0 as <- _].
  destruct (match po_Target pool with Some _ => _ | None => _ end) eqn:Ht; [done|]. injection H0 as <- _.
  unfold untouched in Hu. zbool. apply rtc_once, mv_resize; [done..| |].
  - intros id r Hr. match goal with H : some_row _ _ = false |- _ => by eapply some_row_false in H end.
  - intros t Hpt. rewrite Hpt in Ht. zbool. lia.
Qed.

Lemma idle_pool_steps db db1 p pool pool' : idle db db1 → in_pools db !! p = Some pool →
  po_Confirmed pool' = po_Confirmed pool → po_Capacity pool' = po_Capacity pool → po_Target pool' = po_Target pool →
  steps db (set_pool p pool' db1).
Proof.
  intros Hi Hp H1 H2 H3. etransitivity; [by apply idle_steps|]. apply rtc_once, (mv_pool _ _ _ p pool); try done.
  destruct Hi as [(Hi & _) _]. by rewrite Hi.
Qed.

Lemma ApplyArchive_moves eventID p : Moves (ApplyArchive eventID p).
Proof.
  intros db db' x. unfold ApplyArchive. destruct (in_pools db !! p) as [pool|] eqn:Hp; [|done].
  case_bool_decide; intros [= <- _] _; [done|]. by eapply idle_pool_steps.
Qed.

Lemma ApplyClosure_moves eventID p performance closed version : Moves (ApplyClosure eventID p performance closed version).
Proof.
  intros db db' x. unfold ApplyClosure. destruct (in_pools db !! p) as [pool|] eqn:Hp; [|done].
  case_bool_decide; [by intros [= <- _] _|]. destruct (_ <? 1); [done|]. intros [= <- _] _. by eapply idle_pool_steps.
Qed.

(** Issuing a code again below what it has redeemed is a liberty too. *)
Lemma IssuePresaleCode_moves k c db db' r : IssuePresaleCode k c db = Ok (db', r) →
  (∀ max, pc_MaxRedemptions c = Some max → codeRedeemedQuantity k db ≤ max ∨ lowers_codes lib = true) → steps db db'.
Proof.
  unfold IssuePresaleCode. intros (u & _ & [= <- _])%bind_Ok Hc. by apply rtc_once, mv_code.
Qed.
End Operations.
End ClaimMoves.
