(* ===== verification/SeatMoves.v ===== *)
(** * The seat operations are sequences of moves

    Provisioning a seated pool, holding named seats or the best available ones,
    and settling a pool for its verdicts are moves of [InventoryMoves] too: a hold
    of seats is admitted as a hold of a quantity is, and its seat rows, like the
    projection, are read by no ceiling. *)

From stdpp Require Import pretty.
From S2P Require Import Prelude Text Sha256 Format Tables Inventory Claims SeatMap SeatClaims InventoryMoves ClaimMoves.
#[local] Open Scope Z_scope.

Section SeatMoves.
Context `{UU : UUID} (lib : Liberties) (ck : Clock).
Abbreviation now := (ck_now ck).
Abbreviation steps := (rtc (move lib ck)).

#[export] Instance idle_preorder : PreOrder idle.
Proof.
  split; [by intros db|]. intros db1 db2 db3 [(?&?&?&?) [? ?]] [(?&?&?&?) [? ?]]. repeat split; congruence.
Qed.

(** The seats of a claim, one insert after another. *)
Lemma insert_seats_steps r l : ∀ db db', in_claims db !! cl_ID r = Some r → cl_Status r = Held →
  fold_result (insert_seat now (cl_ID r) (cl_PoolID r)) db l = Ok db' → steps db db'.
Proof.
  induction l as [|seat l IH]; cbn; intros db db' Hr Hh; [by intros [= <-]|]. intros (db1 & H1 & H2)%bind_Ok.
  eapply rtc_l; [by eapply mv_seat|]. apply IH; [|done..]. apply insert_seat_calm in H1 as (_ & -> & _). done.
Qed.

Lemma seat_pool_steps slot org seatMap capacity on db db' : 0 < capacity →
  seat_pool slot org seatMap capacity on db = Ok db' → steps db db'.
Proof.
  unfold seat_pool. intros Hc. destruct (in_pools db !! slot) as [pool|] eqn:Hp.
  - destruct (_ || _); [done|]. destruct on; intros [= <-]; [|done]. by apply rtc_once, (mv_pool _ _ _ slot pool).
  - intros [= <-]. by apply rtc_once, mv_provision.
Qed.

Lemma ProvisionSeated_moves eventID slot org seatMap capacity on adjacency :
  (repeats_seats lib = false → NoDup (map sj_SeatIdentity adjacency)) →
  Moves lib ck (ProvisionSeated eventID slot org seatMap capacity on adjacency).
Proof.
  intros Hnd db db' x. unfold ProvisionSeated. intros ([] & Hv & H)%bind_Ok _. destruct (_ <=? 0) eqn:Hc; [done|]. zbool.
  case_bool_decide as Hnil; [done|]. destruct (_ && _); [done|]. case_bool_decide as Hev; [by injection H as <- _|].
  apply bind_Ok in H as (db1 & H1 & H). destruct (describes_stored _ _ _) eqn:Hd; [|done]. apply bind_Ok in H as (db2 & H2 & [= <- _]).
  set (db0 := with_events _ db) in H1. transitivity db0; [by apply idle_steps|]. eapply seat_pool_steps in H1; [|done].
  etransitivity; [exact H1|]. by eapply rtc_once, mv_project.
Qed.

Lemma expire_seats_steps r i db db' : Sound db → in_claims db !! i = Some r → expired now r = true →
  expire_seats now r db = Ok db' → steps db db'.
Proof.
  intros Hs Hr He (db1 & H1 & H2)%bind_Ok. eapply expire_steps in H1 as [H1 Hcl]; [|done..].
  etransitivity; [exact H1|]. eapply rtc_once, mv_release_seats; [exact H2|].
  intros k s _ [Hk%bool_decide_eq_true _]%andb_prop. rewrite Hcl, Hk. eexists. by rewrite lookup_insert_eq.
Qed.

Lemma seated_of_org_Ok org slot db pm : seated_of_org org slot db = Ok pm →
  in_pools db !! slot = Some pm.1 ∧ po_OrganizerID pm.1 = org ∧ po_SeatMap pm.1 = Some pm.2 ∧ po_Seated pm.1 = true.
Proof.
  unfold seated_of_org. intros (pool & [Hp Ho]%pool_of_org_Ok & H)%bind_Ok.
  destruct (po_SeatMap pool) eqn:Hm; [|done]. destruct (po_Seated pool) eqn:Hseat; [|done]. by injection H as <-.
Qed.

Lemma seatCeiling_Ok slot pool qty db u : seatCeiling now slot pool qty db = Ok u →
  globalShort pool (held_quantity now slot db) qty = false.
Proof. unfold seatCeiling. by intros (held & [-> _]%scan32_Ok & H%refuse_if_Ok)%bind_Ok. Qed.

(** What recording a hold of seats commits. *)
Lemma recordSeatHold_Ok ttl id rq seatMap fp canon pins db db' h :
  recordSeatHold ttl ck id rq seatMap fp canon pins db = Ok (db', h) →
  ∃ db1 db2, insertClaim (seat_claim ttl ck id rq (Z.of_nat (length canon)) fp) db = Ok db1 ∧
    fold_result (insert_seat now id (sq_SlotID rq)) db1 canon = Ok db2 ∧
    idle db2 db' ∧
    h = Ok {| sh_Claim := seat_claim ttl ck id rq (Z.of_nat (length canon)) fp; sh_SeatMapID := seatMap; sh_Seats := canon;
              sh_PinnedBy := pinnedBy id; sh_Replay := false; sh_ExpiredPins := pins |}.
Proof.
  unfold recordSeatHold. intros (db1 & Hi & H)%bind_Ok. apply bind_Ok in H as (db2 & Hf & H).
  apply bind_Ok in H as (db3 & Hh%insertHistory_idle & [= <- <-]). exists db1, db2. done.
Qed.

Lemma recordSeatHold_steps ttl id rq seatMap fp canon pins pool db0 db db' h :
  Sound db0 → in_pools db0 !! sq_SlotID rq = Some pool → sweepExpired now (sq_SlotID rq) db0 = Ok db →
  globalShort pool (held_quantity now (sq_SlotID rq) db) (Z.of_nat (length canon)) = false →
  recordSeatHold ttl ck id rq seatMap fp canon pins db = Ok (db', h) → steps db0 db'.
Proof.
  intros Hs Hp Hsw Hg (db1 & db2 & Hi & Hf & Hid & _)%recordSeatHold_Ok.
  set (r := seat_claim ttl ck id rq (Z.of_nat (length canon)) fp) in *. eapply idle_after; [|exact Hid].
  transitivity db1.
  - by eapply (admit_idle lib ck (sq_SlotID rq) db0 db db1 db1 pool r None "" "" None).
  - eapply (insert_seats_steps r canon); [|done|exact Hf]. apply insertClaim_Ok in Hi as (-> & _). cbn. by rewrite lookup_insert_eq.
Qed.

Lemma CreateSeatHold_moves ttl id rq seats : Moves lib ck (CreateSeatHold ttl ck id rq seats).
Proof.
  intros db db' x. unfold CreateSeatHold. intros (canon & _ & H)%bind_Ok Hs.
  apply bind_Ok in H as (pm & (Hp & _)%seated_of_org_Ok & H). destruct (find_claim _ _ _ _ _) as [r|] eqn:Hf.
  - apply find_claim_Some in Hf as (_ & i & Hr). destruct (negb _); [done|]. destruct (expired _ _) eqn:He.
    + apply bind_Ok in H as (db1 & H1 & [= <- _]). by eapply expire_seats_steps.
    + destruct (terminal _); [done|]. by injection H as <- _.
  - unfold grantSeats in H. apply bind_Ok in H as (u & _ & H). apply bind_Ok in H as (db1 & Hsw & H).
    apply bind_Ok in H as (v & Hc%seatCeiling_Ok & H). apply bind_Ok in H as (w & _ & H).
    by eapply recordSeatHold_steps.
Qed.

(** What the query finds has the length that was asked for. *)
Lemma bestAvailableRun_length t scan slot on count db seats : bestAvailableRun t scan slot on count db = Ok seats →
  Z.of_nat (length seats) = count.
Proof.
  unfold bestAvailableRun. destruct (isort _ _) as [|w l] eqn:E; [done|]. intros [= <-].
  assert (w ∈ isort (on_key fst place_before) (List.filter (legal on (free_of t slot db (context_seats (ordered_seats scan slot db) slot db)))
    (windows (free_of t slot db (ordered_seats scan slot db)) count))) as Hw by (rewrite E; apply list_elem_of_here).
  apply elem_of_isort, elem_of_bool_filter in Hw as [Hw _]. unfold windows in Hw. apply elem_of_bool_filter in Hw as [_ Hw].
  zbool. by rewrite length_map.
Qed.

Lemma CreateBestAvailableSeatHold_moves ttl id rq scan count :
  Moves lib ck (CreateBestAvailableSeatHold ttl ck id rq scan count).
Proof.
  intros db db' x. unfold CreateBestAvailableSeatHold. destruct (_ || _); [done|]. intros (pm & (Hp & _)%seated_of_org_Ok & H)%bind_Ok Hs.
  destruct (find_claim _ _ _ _ _) as [r|] eqn:Hf.
  - apply find_claim_Some in Hf as (_ & i & Hr). destruct (negb _); [done|]. destruct (expired _ _) eqn:He.
    + apply bind_Ok in H as (db1 & H1 & [= <- _]). by eapply expire_seats_steps.
    + destruct (terminal _); [done|]. unfold replayBest in H. destruct (_ || _); [done|]. by injection H as <- _.
  - unfold grantBest in H. apply bind_Ok in H as (u & _ & H). apply bind_Ok in H as (db1 & Hsw & H).
    apply bind_Ok in H as (v & Hc%seatCeiling_Ok & H). destruct (negb _); [done|].
    apply bind_Ok in H as (canon & Hn%bestAvailableRun_length & H). apply bind_Ok in H as (w & _ & H).
    eapply recordSeatHold_steps; try done. by rewrite Hn.
Qed.

Lemma classifySeatClaims_moves slot ids out : Moves lib ck (classifySeatClaimsInPool ck slot ids out).
Proof.
  intros db db' x. unfold classifySeatClaimsInPool. intros (db1 & H1 & [= <- _])%bind_Ok _. by apply (sweep_steps lib ck) in H1 as [? _].
Qed.
End SeatMoves.
