(* ===== verification/InventorySafety.v ===== *)
(** * What the inventory never does

    Runs of the operations of [Claims], in any order and with any clocks the
    database can hand out, from an empty inventory: pools are not oversold,
    channels and presale codes stay under their caps, and a pool's counter is the
    sum of its confirmed claims. The life of one claim is in [ClaimLife]. *)

From stdpp Require Import pretty.
From S2P Require Import Prelude Text Sha256 Format Tables Inventory Claims SeatMap SeatClaims InventoryMoves ClaimMoves SeatMoves.
#[local] Open Scope Z_scope.

Section Runs.
Context `{UU : UUID}.

(** ** Requests and runs

    A request with the fresh id it would draw. *)
Inductive InventoryRequest :=
| OpProvision (eventID slot org : uuid) (capacity : Z)
| OpIssueCode (k : code_key) (c : PresaleCode)
| OpCreateHold (id : uuid) (rq : HoldRequest)
| OpTransition (org id : uuid) (target : ClaimStatus)
| OpAdjustCapacity (org slot : uuid) (newCap : Z) (actor reason key : string)
| OpAllocations (org slot : uuid) (allocs : list ChannelAllocation) (expected : option Z)
| OpPlaceOperational (id org slot : uuid) (qty : Z) (purpose label actor reason key : string)
| OpReleaseOperational (org id : uuid) (qty : Z) (actor reason key : string)
| OpConvertOperational (child org id ticketType slot : uuid) (qty unitAmount : Z) (currency actor reason key : string)
| OpPlaceReservation (id : uuid) (rq : ReservationRequest)
| OpDrawDown (child org id ticketType slot : uuid) (qty unitAmount : Z) (currency actor reason key : string)
| OpReturnRefund (org id refundID : uuid) (qty : Z)
| OpArchive (eventID slot : uuid)
| OpClosure (eventID slot performance : uuid) (closed : bool) (version : Z)
| OpProvisionSeated (eventID slot org seatMap : uuid) (capacity : Z) (orphanPrevention : bool) (adjacency : list SeatAdjacencyRow)
| OpSeatHold (id : uuid) (rq : SeatRequest) (seats : list string)
| OpBestAvailable (id : uuid) (rq : SeatRequest) (scan : nat) (count : Z)
| OpClassifySeats (slot : uuid) (ids : list uuid).

(** What a request leaves in the database, whatever it answers. *)
Definition effect {A} (body : InventoryDB → tx A) (db : InventoryDB) : InventoryDB := fst (transaction body db).

Definition perform (ttl : Z) (ck : Clock) (op : InventoryRequest) : InventoryDB → InventoryDB :=
  match op with
  | OpProvision e slot org capacity => effect (Provision e slot org capacity)
  | OpIssueCode k c => effect (IssuePresaleCode k c)
  | OpCreateHold id rq => effect (CreateHold ttl ck id rq)
  | OpTransition org id target => effect (Transition ck org id target)
  | OpAdjustCapacity org slot cap actor reason key => effect (AdjustCapacity ck org slot cap actor reason key)
  | OpAllocations org slot allocs expected => effect (ReplaceChannelAllocations ck org slot allocs expected)
  | OpPlaceOperational id org slot qty purpose label actor reason key =>
      effect (PlaceOperationalHold ck id org slot qty purpose label actor reason key)
  | OpReleaseOperational org id qty actor reason key => effect (ReleaseOperational ck org id qty actor reason key)
  | OpConvertOperational child org id tk slot qty amount currency actor reason key =>
      effect (ConvertOperational ttl ck child org id tk slot qty amount currency actor reason key)
  | OpPlaceReservation id rq => effect (PlaceGroupReservation ck id rq)
  | OpDrawDown child org id tk slot qty amount currency actor reason key =>
      effect (DrawDownGroupReservation ttl ck child org id tk slot qty amount currency actor reason key)
  | OpReturnRefund org id refundID qty => effect (ReturnRefundedCapacity ck org id refundID qty)
  | OpArchive e slot => effect (ApplyArchive e slot)
  | OpClosure e slot perf closed version => effect (ApplyClosure e slot perf closed version)
  | OpProvisionSeated e slot org m capacity on adjacency => effect (ProvisionSeated e slot org m capacity on adjacency)
  | OpSeatHold id rq seats => effect (CreateSeatHold ttl ck id rq seats)
  | OpBestAvailable id rq scan count => effect (CreateBestAvailableSeatHold ttl ck id rq scan count)
  | OpClassifySeats slot ids => effect (classifySeatClaimsInPool ck slot ids ∅)
  end.

Definition trace : Type := list (Clock * InventoryRequest).

Fixpoint run (ttl : Z) (l : trace) (db : InventoryDB) : InventoryDB :=
  match l with [] => db | (ck, op) :: l => run ttl l (perform ttl ck op db) end.

(** A condition on each request of a run and the database it meets. *)
Fixpoint along (P : Clock → InventoryRequest → InventoryDB → bool) (ttl : Z) (l : trace) (db : InventoryDB) : bool :=
  match l with [] => true | (ck, op) :: l => P ck op db && along P ttl l (perform ttl ck op db) end.

(** The readings of one transaction do not go back, and a checkout moves a claim
    to one of the three states its endpoints name. *)
Definition well_formed (ck : Clock) (op : InventoryRequest) (_ : InventoryDB) : bool :=
  clock_ok ck &&
  match op with OpTransition _ _ t => bool_decide (t ∈ [Finalizing; Confirmed; Released]) | _ => true end.

(** Is the request a new capacity cut below the demand, which leaves a target? *)
Definition clamps (ck : Clock) (op : InventoryRequest) (db : InventoryDB) : bool :=
  match op with
  | OpAdjustCapacity org slot cap actor reason key =>
      match snd (transaction (AdjustCapacity ck org slot cap actor reason key) db) with
      | Ok adj => negb (ca_Replay adj) && negb (is_None (ca_Target adj))
      | Err _ => false
      end
  | _ => false
  end.
Definition unclamped (ck : Clock) (op : InventoryRequest) (db : InventoryDB) : bool := negb (clamps ck op db).

(** A code is not issued again with a cap below what it has redeemed. *)
Definition covers_redemptions (_ : Clock) (op : InventoryRequest) (db : InventoryDB) : bool :=
  match op with
  | OpIssueCode k c => match pc_MaxRedemptions c with Some m => codeRedeemedQuantity k db <=? m | None => true end
  | _ => true
  end.

(** A projection lists no seat twice. *)
Definition distinct_seats (_ : Clock) (op : InventoryRequest) (_ : InventoryDB) : bool :=
  match op with
  | OpProvisionSeated _ _ _ _ _ _ adjacency => bool_decide (NoDup (map sj_SeatIdentity adjacency))
  | _ => true
  end.

(** The transactions start in order, the first not before [from], the last not
    after [til]. *)
Fixpoint in_order (from : time) (l : trace) (til : time) : bool :=
  match l with [] => from <=? til | (ck, _) :: l => (from <=? ck_now ck) && in_order (ck_now ck) l til end.

(** ** Every request is a sequence of moves *)

Lemma effect_moves lib ck {A} (body : InventoryDB → tx A) db : Moves lib ck body → Sound db →
  rtc (move lib ck) db (effect body db).
Proof.
  intros Hm Hs. unfold effect, transaction. destruct (body db) as [[db' r]|e] eqn:H; [by eapply Hm|done].
Qed.

Lemma perform_moves lib ttl ck op db : Sound db → well_formed ck op db = true →
  (clamps ck op db = true → cuts_below lib = true) → (covers_redemptions ck op db = false → lowers_codes lib = true) →
  (distinct_seats ck op db = false → repeats_seats lib = true) →
  rtc (move lib ck) db (perform ttl ck op db).
Proof.
  unfold well_formed. intros Hs [Hck Hop]%andb_prop Hcl Hco Hrs. destruct op; cbn [perform].
  2: { unfold effect, transaction. destruct (IssuePresaleCode _ _ db) as [[db' r]|e] eqn:H; [|done].
       eapply IssuePresaleCode_moves; [exact H|]. intros max Hmax. cbn in Hco. rewrite Hmax in Hco.
       destruct (Z.leb_spec (codeRedeemedQuantity k db) max); [by left|right; by apply Hco]. }
  4: { unfold effect, clamps, transaction in *. destruct (AdjustCapacity _ _ _ _ _ _ _ db) as [[db' r]|e] eqn:H; [|done].
       eapply AdjustCapacity_moves; [exact H|done|]. intros adj -> Hr Ht. apply Hcl. cbn. rewrite Hr. by destruct (ca_Target adj). }
  all: apply effect_moves; [|done].
  - apply Provision_moves.
  - apply CreateHold_moves.
  - apply Transition_moves. apply bool_decide_eq_true in Hop. unfold checkout_target. set_solver.
  - apply ReplaceChannelAllocations_moves.
  - apply PlaceOperationalHold_moves.
  - apply ReleaseOperational_moves.
  - apply ConvertOperational_moves.
  - apply PlaceGroupReservation_moves.
  - by apply DrawDown_moves.
  - apply ReturnRefundedCapacity_moves.
  - apply ApplyArchive_moves.
  - apply ApplyClosure_moves.
  - apply ProvisionSeated_moves. intros Hl. cbn in Hrs. case_bool_decide as Hd; [done|]. by rewrite Hrs in Hl.
  - apply CreateSeatHold_moves.
  - apply CreateBestAvailableSeatHold_moves.
  - apply classifySeatClaims_moves.
Qed.

Definition free : Liberties := {| cuts_below := true; lowers_codes := true; repeats_seats := true |}.

Lemma perform_moves_any ttl ck op db : Sound db → well_formed ck op db = true → rtc (move free ck) db (perform ttl ck op db).
Proof. intros. by apply perform_moves. Qed.

Lemma perform_sound ttl ck op db : well_formed ck op db = true → Sound db → Sound (perform ttl ck op db).
Proof. intros Hw Hs. eapply steps_sound; [by eapply perform_moves_any|done]. Qed.

Lemma empty_sound : Sound empty_inventory.
Proof. split; [intros id r H|intros p pool H|intros p; constructor]; cbn in H; by rewrite lookup_empty in H. Qed.

(** An invariant of the moves holds along a run. *)
Lemma run_sound ttl l : ∀ db, along well_formed ttl l db = true → Sound db → Sound (run ttl l db).
Proof.
  induction l as [|[ck op] l IH]; cbn; intros db Hw Hs; [done|]. apply andb_prop in Hw as [Hw Hl].
  apply IH; [done|]. by apply perform_sound.
Qed.

Section Steps.
Context (lib : Liberties) (ck : Clock) (I : InventoryDB → Prop).
Hypothesis step : ∀ db db', Sound db → move lib ck db db' → I db → I db'.

Lemma steps_keep db db' : rtc (move lib ck) db db' → Sound db → I db → I db'.
Proof.
  induction 1 as [|db db1 db' Hm _ IH]; [done|]. intros Hs Hi. apply IH; [by eapply move_sound|by eapply step].
Qed.
End Steps.

(** A condition that depends on the time of the last transaction, and on which
    waiting has no effect. *)
Section InOrder.
Context (ttl : Z) (I : time → InventoryDB → Prop).
Hypothesis later : ∀ t t' db, Sound db → t ≤ t' → I t db → I t' db.
Hypothesis step : ∀ ck db db', Sound db → move free ck db db' → I (ck_now ck) db → I (ck_now ck) db'.

Lemma run_in_order l : ∀ from til db, along well_formed ttl l db = true → in_order from l til = true →
  Sound db → I from db → I til (run ttl l db).
Proof.
  induction l as [|[ck op] l IH]; cbn; intros from til db Hw Ho Hs Hi; zbool; [by eapply later|].
  assert (Hop : well_formed ck op db = true) by done.
  apply (IH (ck_now ck)); [done..|by apply perform_sound|].
  eapply (steps_keep free ck (I (ck_now ck))); [by apply step|by apply perform_moves_any|done|by eapply later].
Qed.
End InOrder.

(** A condition that holds whatever the clocks, in runs that keep to [P]. *)
Section AnyOrder.
Context (ttl : Z) (P : Clock → InventoryRequest → InventoryDB → bool) (lib : Liberties) (I : InventoryDB → Prop).
Hypothesis cuts : ∀ ck op db, P ck op db = true → clamps ck op db = true → cuts_below lib = true.
Hypothesis lowers : ∀ ck op db, P ck op db = true → covers_redemptions ck op db = false → lowers_codes lib = true.
Hypothesis repeats : ∀ ck op db, P ck op db = true → distinct_seats ck op db = false → repeats_seats lib = true.
Hypothesis step : ∀ ck db db', Sound db → move lib ck db db' → I db → I db'.

Lemma run_any_order l : ∀ db, along well_formed ttl l db = true → along P ttl l db = true →
  Sound db → I db → I (run ttl l db).
Proof.
  induction l as [|[ck op] l IH]; cbn; intros db Hw Hp Hs Hi; [done|].
  apply andb_prop in Hw as [Hw Hwl], Hp as [Hp Hpl]. apply IH; [done..|by apply perform_sound|].
  eapply (steps_keep lib ck I); [by apply step| |done|done].
  apply perform_moves; [done..|by apply cuts|by apply lowers|by apply repeats].
Qed.
End AnyOrder.

(** ** Ceilings *)

Lemma Fits_later t t' db : Sound db → t ≤ t' → Fits (Some t) db → Fits (Some t') db.
Proof. intros Hs Ht Hf p pool Hp. specialize (Hf p pool Hp). pose proof (consumption_later t t' (of_pool p) db Hs Ht). lia. Qed.

Lemma Caps_later t t' db : Sound db → t ≤ t' → Caps (Some t) db → Caps (Some t') db.
Proof.
  intros Hs Ht Hc p a Ha. specialize (Hc p a Ha). pose proof (consumption_later t t' (of_channel p (al_Channel a)) db Hs Ht). lia.
Qed.

Lemma Fits_empty o : Fits o empty_inventory.
Proof. intros p pool H. cbn in H. by rewrite lookup_empty in H. Qed.
Lemma Caps_empty o : Caps o empty_inventory.
Proof. intros p a H. unfold allocations_of in H. cbn in H. rewrite lookup_empty in H. by apply not_elem_of_nil in H. Qed.

(** What the open claims of a pool ask for, due or not. *)
Definition open_quantity (p : uuid) (db : InventoryDB) : Z :=
  total (λ r, counted (in_pool p r && open r) (cl_Quantity r)) (in_claims db).

(** C1 (safety). A pool is never oversold. However the provisionings, holds,
    checkouts, cuts, allocations, staff operations, reservations, refunds and
    offering changes of a run follow each other, and whatever each of them
    answers, as long as the transactions take the pool's lock in the order they
    started: what is confirmed and what live claims hold never exceed the
    capacity of the pool, cuts below the demand included. *)
Theorem no_oversell ttl l from til p pool :
  along well_formed ttl l empty_inventory = true → in_order from l til = true →
  in_pools (run ttl l empty_inventory) !! p = Some pool →
  po_Confirmed pool + held_quantity til p (run ttl l empty_inventory) ≤ po_Capacity pool.
Proof.
  intros Hw Ho Hp. pose proof (run_sound _ _ _ Hw empty_sound) as Hs.
  rewrite (pk_confirmed _ _ _ (sd_pools _ Hs _ _ Hp)).
  change (held_quantity til p ?db) with (total (λ r, counted (in_pool p r && counts (Some til) r) (cl_Quantity r)) (in_claims db)).
  rewrite <-pool_consumption. revert p pool Hp. change (Fits (Some til) (run ttl l empty_inventory)).
  eapply (run_in_order ttl (λ t, Fits (Some t))); [apply Fits_later| |done..|apply empty_sound|apply Fits_empty].
  intros ck db db' Hsd Hm. by apply (Fits_move free ck); [|right| |].
Qed.

(** With no cut below the demand, the order the transactions
    started in does not matter, and nor does the sweep of expired holds: what is
    confirmed and what all open claims ask for, those already due included,
    never exceed the capacity. *)
Theorem no_oversell_any_order ttl l p pool :
  along well_formed ttl l empty_inventory = true → along unclamped ttl l empty_inventory = true →
  in_pools (run ttl l empty_inventory) !! p = Some pool →
  po_Confirmed pool + open_quantity p (run ttl l empty_inventory) ≤ po_Capacity pool.
Proof.
  intros Hw Hu Hp. pose proof (run_sound _ _ _ Hw empty_sound) as Hs.
  rewrite (pk_confirmed _ _ _ (sd_pools _ Hs _ _ Hp)).
  change (open_quantity p ?db) with (total (λ r, counted (in_pool p r && counts None r) (cl_Quantity r)) (in_claims db)).
  rewrite <-pool_consumption. revert p pool Hp.
  enough (no_target (run ttl l empty_inventory) ∧ Fits None (run ttl l empty_inventory)) as [_ H] by exact H.
  apply (run_any_order ttl unclamped {| cuts_below := false; lowers_codes := true; repeats_seats := true |} (λ db, no_target db ∧ Fits None db)); try done.
  - intros ck op db H1 H2. unfold unclamped in H1. by rewrite H2 in H1.
  - intros ck db db' Hsd Hm [Hn Hf]. split.
    + by apply (no_target_move _ _ _ _ (eq_refl : cuts_below {| cuts_below := false; lowers_codes := true; repeats_seats := true |} = false) Hm).
    + exact (Fits_move _ _ None _ _ Hsd (or_introl eq_refl) (λ _, Hn) Hm Hf).
  - apply empty_sound.
Qed.

(** A channel never consumes more than the cap its allocation
    sets: its confirmed claims less what refunds returned, its live buyer holds
    and its live group reservations, drawn down or not, counted together. *)
Theorem channel_cap_holds ttl l from til p a :
  along well_formed ttl l empty_inventory = true → in_order from l til = true →
  a ∈ allocations_of p (run ttl l empty_inventory) →
  channel_consumed til p (al_Channel a) (run ttl l empty_inventory) ≤ al_Cap a.
Proof.
  intros Hw Ho. rewrite channel_consumed_consumption. revert p a.
  change (Caps (Some til) (run ttl l empty_inventory)).
  eapply (run_in_order ttl (λ t, Caps (Some t))); [apply Caps_later| |done..|apply empty_sound|apply Caps_empty].
  intros ck db db' Hsd Hm. by apply (Caps_move free).
Qed.

(** A presale code is never redeemed past its cap, over all the
    pools it unlocks and whatever the clocks, as long as it is not issued again
    with a cap below what it has redeemed: confirmed claims less what refunds
    returned, and every open claim that cites it, expired but unswept ones too. *)
Theorem presale_cap_holds ttl l k c max :
  along well_formed ttl l empty_inventory = true → along covers_redemptions ttl l empty_inventory = true →
  in_codes (run ttl l empty_inventory) !! k = Some c → pc_MaxRedemptions c = Some max →
  codeRedeemedQuantity k (run ttl l empty_inventory) ≤ max.
Proof.
  intros Hw Hc. rewrite code_redeemed_consumption. revert k c max.
  change (Codes (run ttl l empty_inventory)).
  apply (run_any_order ttl covers_redemptions {| cuts_below := true; lowers_codes := false; repeats_seats := true |}); try done.
  - intros ck op db H1 H2. congruence.
  - intros ck db db' Hsd Hm. exact (Codes_move _ _ _ _ (eq_refl : lowers_codes {| cuts_below := true; lowers_codes := false; repeats_seats := true |} = false) Hsd Hm).
  - apply empty_sound.
Qed.

(** The counter a pool keeps of its confirmed quantity is, after
    any run, the sum over its confirmed claims of what refunds have not returned;
    it stays within [int32] and never goes negative, so neither does the sum a
    refund takes from. *)
Theorem confirmed_counter_exact ttl l p pool :
  along well_formed ttl l empty_inventory = true →
  in_pools (run ttl l empty_inventory) !! p = Some pool →
  po_Confirmed pool =
    total (λ r, counted (in_pool p r && bool_decide (cl_Status r = Confirmed)) (cl_Quantity r - cl_Returned r))
      (in_claims (run ttl l empty_inventory)) ∧
  0 ≤ po_Confirmed pool ≤ MaxInt32.
Proof.
  intros Hw Hp. pose proof (run_sound _ _ _ Hw empty_sound) as Hs.
  destruct (sd_pools _ Hs _ _ Hp) as [Hc _ H32]. split_and!; [exact Hc| |done].
  rewrite Hc. apply total_nonneg. intros i r Hr. destruct (sd_rows _ Hs _ _ Hr) as [_ Hck _ _].
  apply checks_quantities in Hck. unfold counted. destruct (_ && _); lia.
Qed.
End Runs.

(** ** A pool's day *)
#[local] Existing Instance text_uuid.

Definition at_time (t : time) : Clock := {| ck_now := t; ck_window := t; ck_code := t; ck_reserve := t; ck_insert := t |}.

Definition day_hold (channel code key : string) (qty : Z) : HoldRequest := {|
  hr_OrganizerID := "org"%string; hr_SlotID := "slot"%string; hr_TicketTypeID := "type"%string; hr_Quantity := qty; hr_UnitAmount := 2500;
  hr_Currency := "EUR"; hr_Channel := channel; hr_Key := key; hr_PresaleCode := code; hr_Reseller := None |}.

Definition web : ChannelAllocation := {|
  al_Channel := "web"; al_Cap := 4; al_ReleaseAt := None; al_OpensAt := None; al_ClosesAt := None;
  al_RequiresCode := true; al_SoldBy := None |}.

Definition early : PresaleCode := {| pc_MaxRedemptions := Some 3; pc_OpensAt := None; pc_ClosesAt := None |}.

(** Presale, public sale, checkout, a cut below the demand, a refund, a release. *)
Definition day : trace := [
  (at_time 0, OpProvision "e1" "slot" "org" 10);
  (at_time 1, OpAllocations "org" "slot" [web] None);
  (at_time 2, OpIssueCode ("org", "web", "EARLY")%string early);
  (at_time 10, OpCreateHold "a" (day_hold "web" "EARLY" "k1" 3));
  (at_time 20, OpCreateHold "b" (day_hold "" "" "k2" 6));
  (at_time 21, OpCreateHold "c" (day_hold "web" "EARLY" "k3" 1));
  (at_time 30, OpTransition "org" "a" Finalizing);
  (at_time 31, OpTransition "org" "a" Confirmed);
  (at_time 40, OpAdjustCapacity "org" "slot" 5 "staff" "fire marshal" "k4");
  (at_time 50, OpReturnRefund "org" "a" "refund-1" 1);
  (at_time 70, OpTransition "org" "b" Released)]%string.

Definition day_until (n : nat) : trace := firstn n day.
Definition pool_after (l : trace) : option (Z * Z * option Z) :=
  (λ p, (po_Capacity p, po_Confirmed p, po_Target p)) <$> in_pools (run 100 l empty_inventory) !! "slot"%string.

Example day_sold : pool_after (day_until 8) = Some (10, 3, None).
Proof. vm_compute. reflexivity. Qed.
Example day_cut : pool_after (day_until 9) = Some (9, 3, Some 5).
Proof. vm_compute. reflexivity. Qed.
Example day_refunded : pool_after (day_until 10) = Some (8, 2, Some 5).
Proof. vm_compute. reflexivity. Qed.
Example day_settled : pool_after day = Some (5, 2, None).
Proof. vm_compute. reflexivity. Qed.

(** A checkout that started before a hold fell due, and got the pool's lock after
    a release had settled a cut without that hold, still confirms it: six seats
    are sold of a capacity of four. [no_oversell] excludes the reordering,
    [no_oversell_any_order] the cut. *)
Definition late_checkout : trace := [
  (at_time 0, OpProvision "e1" "slot" "org" 10);
  (at_time 10, OpCreateHold "a" (day_hold "" "" "k1" 6));
  (at_time 20, OpCreateHold "b" (day_hold "" "" "k2" 3));
  (at_time 50, OpAdjustCapacity "org" "slot" 4 "staff" "fire marshal" "k3");
  (at_time 111, OpTransition "org" "b" Released);
  (at_time 105, OpTransition "org" "a" Finalizing);
  (at_time 112, OpTransition "org" "a" Confirmed)]%string.

Example late_checkout_oversells :
  along well_formed 100 late_checkout empty_inventory = true ∧ pool_after late_checkout = Some (4, 6, None).
Proof. split; vm_compute; reflexivity. Qed.

(** The same reordering past a channel: its cap is lowered under a hold that fell
    due, and the late checkout confirms the hold. [channel_cap_holds] excludes it. *)
Definition narrowed : ChannelAllocation := {|
  al_Channel := "web"; al_Cap := 1; al_ReleaseAt := None; al_OpensAt := None; al_ClosesAt := None;
  al_RequiresCode := true; al_SoldBy := None |}.

Definition late_channel_checkout : trace :=
  take 4 day ++ [
  (at_time 111, OpAllocations "org" "slot" [narrowed] None);
  (at_time 105, OpTransition "org" "a" Finalizing);
  (at_time 112, OpTransition "org" "a" Confirmed)]%string.

Example late_checkout_exceeds_the_cap :
  let db := run 100 late_channel_checkout empty_inventory in
  allocations_of ("slot"%string : uuid) db = [narrowed] ∧ channel_consumed 112 ("slot"%string : uuid) "web" db = 3.
Proof. split; vm_compute; reflexivity. Qed.

(** ** The ceilings on that day *)
Definition slot : uuid := "slot"%string.

Definition cut_pool : Pool := {|
  po_OrganizerID := "org"%string; po_Capacity := 9; po_Confirmed := 3; po_Target := Some 5; po_Seated := false;
  po_Archived := false; po_Closed := false; po_Revision := 1; po_SeatMap := None; po_Orphan := false |}.

#[local] Abbreviation cut_db := (run 100 (day_until 9) empty_inventory).

Lemma day_well_formed : along well_formed 100 (day_until 9) empty_inventory = true.
Proof. vm_compute. reflexivity. Qed.
Lemma day_cut_pool : in_pools cut_db !! "slot"%string = Some cut_pool.
Proof. vm_compute. reflexivity. Qed.

Lemma no_oversell_witness :
  in_order 0 (day_until 9) 40 = true ∧ po_Confirmed cut_pool + held_quantity 40 slot cut_db ≤ po_Capacity cut_pool.
Proof.
  assert (H : in_order 0 (day_until 9) 40 = true) by (vm_compute; reflexivity).
  exact (conj H (no_oversell 100 (day_until 9) 0 40 _ cut_pool day_well_formed H day_cut_pool)).
Defined.

(** Before the cut, read backwards in time: [c] came to the lock last. *)
Definition disordered : trace :=
  take 4 day ++ [(at_time 9, OpCreateHold "c" (day_hold "" "" "k3" 5)); (at_time 300, OpCreateHold "b" (day_hold "" "" "k2" 7))]%string.
Definition disordered_pool : Pool := {|
  po_OrganizerID := "org"%string; po_Capacity := 10; po_Confirmed := 0; po_Target := None; po_Seated := false;
  po_Archived := false; po_Closed := false; po_Revision := 1; po_SeatMap := None; po_Orphan := false |}.

Lemma no_oversell_any_order_witness :
  along unclamped 100 disordered empty_inventory = true ∧
  po_Confirmed disordered_pool + open_quantity slot (run 100 disordered empty_inventory) ≤ po_Capacity disordered_pool.
Proof.
  assert (H1 : along well_formed 100 disordered empty_inventory = true) by (vm_compute; reflexivity).
  assert (H2 : along unclamped 100 disordered empty_inventory = true) by (vm_compute; reflexivity).
  assert (H3 : in_pools (run 100 disordered empty_inventory) !! "slot"%string = Some disordered_pool) by (vm_compute; reflexivity).
  exact (conj H2 (no_oversell_any_order 100 disordered _ disordered_pool H1 H2 H3)).
Defined.

Lemma channel_cap_holds_witness :
  web ∈ allocations_of slot cut_db ∧ channel_consumed 40 slot "web" cut_db ≤ 4.
Proof.
  assert (H : web ∈ allocations_of slot cut_db).
  { replace (allocations_of slot cut_db) with [web] by (vm_compute; reflexivity). apply list_elem_of_here. }
  assert (Ho : in_order 0 (day_until 9) 40 = true) by (vm_compute; reflexivity).
  exact (conj H (channel_cap_holds 100 (day_until 9) 0 40 _ web day_well_formed Ho H)).
Defined.

Lemma presale_cap_holds_witness :
  pc_MaxRedemptions early = Some 3 ∧ codeRedeemedQuantity ("org", "web", "EARLY")%string cut_db ≤ 3.
Proof.
  assert (H1 : along covers_redemptions 100 (day_until 9) empty_inventory = true) by (vm_compute; reflexivity).
  assert (H2 : in_codes cut_db !! ("org", "web", "EARLY")%string = Some early) by (vm_compute; reflexivity).
  exact (conj eq_refl (presale_cap_holds 100 (day_until 9) _ early 3 day_well_formed H1 H2 eq_refl)).
Defined.

Lemma confirmed_counter_exact_witness :
  3 = total (λ r, counted (in_pool slot r && bool_decide (cl_Status r = Confirmed)) (cl_Quantity r - cl_Returned r))
        (in_claims cut_db) ∧ 0 ≤ 3 ≤ MaxInt32.
Proof. exact (confirmed_counter_exact 100 (day_until 9) _ cut_pool day_well_formed day_cut_pool). Defined.
