(* ===== verification/ClaimLife.v ===== *)
(** * The life of a claim

    What may become of a row of [claims] over any run of the inventory: its
    identity is fixed, its status moves forward to a terminal one, its quantity
    only shrinks while it is held, and refunds only add to what it returned. *)

From stdpp Require Import pretty.
From S2P Require Import Prelude Text Sha256 Format Tables Inventory Claims InventoryMoves ClaimMoves InventorySafety.
#[local] Open Scope Z_scope.

Section ClaimLife.
Context `{UU : UUID}.

(** The states reachable from a state: a held claim is finalized, confirmed,
    released or expired, a finalizing one is confirmed or released. *)
Definition leads_to (a b : ClaimStatus) : bool :=
  match a with
  | Held => true
  | Finalizing => bool_decide (b ∈ [Finalizing; Confirmed; Released])
  | _ => bool_decide (a = b)
  end.

(** The columns no statement writes. *)
Definition fixed (r : Claim) :=
  (cl_ID r, identity r, cl_TicketTypeID r, cl_UnitAmount r, cl_Currency r, cl_ExpiresAt r, cl_Kind r, cl_Key r,
   cl_Fingerprint r, cl_ResellerScope r, cl_StaffScope r).

Record Descends (r r' : Claim) : Prop := {
  ds_fixed : fixed r' = fixed r;
  ds_status : leads_to (cl_Status r) (cl_Status r') = true;
  ds_quantity : cl_Quantity r' ≤ cl_Quantity r;
  ds_settled : cl_Status r ≠ Held → cl_Quantity r' = cl_Quantity r;
  ds_returned : cl_Returned r ≤ cl_Returned r';
  ds_terminal : terminal (cl_Status r) = true → r' = r;
}.

Lemma leads_to_trans a b c : leads_to a b = true → leads_to b c = true → leads_to a c = true.
Proof. by destruct a, b, c. Qed.

#[export] Instance Descends_preorder : PreOrder Descends.
Proof.
  split.
  - intros r. split; try done. destruct (cl_Status r); reflexivity.
  - intros r1 r2 r3 [F1 S1 Q1 N1 R1 T1] [F2 S2 Q2 N2 R2 T2]. split; [congruence|by eapply leads_to_trans|lia| |lia|].
    + intros Hh. rewrite N2, N1; [done|done|]. intros E. rewrite E in S1. by destruct (cl_Status r1).
    + intros Ht. rewrite T2; [by apply T1|]. by rewrite (T1 Ht).
Qed.

(** Every row of one table has a successor in the other. *)
Definition Lives (m m' : gmap uuid Claim) : Prop := ∀ id r, m !! id = Some r → ∃ r', m' !! id = Some r' ∧ Descends r r'.

#[export] Instance Lives_preorder : PreOrder Lives.
Proof.
  split; [intros m id r Hr; by exists r|]. intros m1 m2 m3 H1 H2 id r Hr.
  destruct (H1 id r Hr) as (r' & Hr' & D1). destruct (H2 id r' Hr') as (r'' & Hr'' & D2).
  exists r''. split; [done|]. by etransitivity.
Qed.

Lemma lives_row m r r' : m !! cl_ID r = Some r → Descends r r' → Lives m (<[cl_ID r' := r']> m).
Proof.
  intros Hr Hd id x Hx. assert (cl_ID r' = cl_ID r) as -> by by injection (ds_fixed _ _ Hd).
  destruct (decide (cl_ID r = id)) as [<-|].
  - rewrite lookup_insert_eq. exists r'. split; [done|]. by simplify_eq.
  - rewrite lookup_insert_ne by done. by exists x.
Qed.

Lemma lives_fresh m r : m !! cl_ID r = None → Lives m (<[cl_ID r := r]> m).
Proof. intros Hr id x Hx. exists x. split; [|done]. rewrite lookup_insert_ne; congruence. Qed.

Lemma descends_status st r : terminal (cl_Status r) = false → leads_to (cl_Status r) st = true → Descends r (set_status st r).
Proof. intros Ht Hl. split; try done; [cbn; lia..|congruence]. Qed.

Lemma descends_carve qty r : cl_Status r = Held → 0 < qty → Descends r (carve qty r).
Proof.
  intros Hs Hq. unfold carve. destruct (_ =? _); [apply descends_status; by rewrite Hs|].
  split; cbn; try done; rewrite ?Hs; try done; lia.
Qed.

Lemma lives_sweep now p m : Lives m (sweep now p <$> m).
Proof.
  intros id r Hr. exists (sweep now p r). split; [by rewrite lookup_fmap, Hr|]. unfold sweep, due.
  destruct (in_pool p r), (expired now r) eqn:He; cbn; try done. apply expired_held in He.
  apply descends_status; by rewrite He.
Qed.

Lemma move_lives lib ck db db' : Sound db → move lib ck db db' → Lives (in_claims db) (in_claims db').
Proof.
  intros Hs Hm. destruct Hm as [db' Hcalm _ _|p pool pool' Hp H1 H2 H3|p pool Hp Hc H0 Ht|p pool cap Hp H0 Hc Hn Ht|p
    |r Hr Hst|r Hr Hst Hl|r pool Hr Hl Hp H32|r Hr Ho|r pool qty Hr Hst Hp Hq Hle Hck|r qty Hr Hst Hq Hle
    |r child Hr Hst Hl Hf Hck Hcs Hcr Hid Hle|r pool Hf Hp Hck Hst Hret Had|p pool t Hp Ht|p pool cap target Hp Hd Ht|p allocs Hnd Ha|k c Hco|d t db' Hrel%release_seats_calm _|t r seat db' _ _ Hins%insert_seat_calm|slot rows db' _ _ _ Hproj%upserts_calm];
    try reflexivity.
  - by destruct Hcalm as (_ & -> & _).
  - apply lives_sweep.
  - apply (lives_row _ r); [done|]. by apply descends_status; rewrite Hst.
  - apply (lives_row _ r); [done|]. by apply descends_status; rewrite Hst.
  - apply (lives_row _ r); [done|]. apply counts_open in Hl. unfold counts, open in Hl.
    apply descends_status; by destruct (cl_Status r).
  - apply (lives_row _ r); [done|]. unfold open in Ho. apply descends_status; by destruct (cl_Status r).
  - apply (lives_row _ r); [done|]. split; cbn; rewrite ?Hst; try done; lia.
  - apply (lives_row _ r); [done|]. by apply descends_carve.
  - transitivity (in_claims (set_claim child db)); [by apply lives_fresh|].
    apply (lives_row _ r); [cbn; rewrite lookup_insert_ne; congruence|].
    apply descends_carve; [done|]. apply checks_quantities in Hck. lia.
  - by apply lives_fresh.
  - by destruct Hrel as (_ & -> & _).
  - by destruct Hins as (_ & -> & _).
  - by destruct Hproj as [(_ & -> & _) _].
Qed.

Lemma run_lives ttl l : ∀ db, along well_formed ttl l db = true → Sound db → Lives (in_claims db) (in_claims (run ttl l db)).
Proof.
  induction l as [|[ck op] l IH]; cbn; intros db Hw Hs; [done|]. apply andb_prop in Hw as [Hw Hl].
  transitivity (in_claims (perform ttl ck op db)); [|by apply IH; [|apply perform_sound]].
  apply (steps_keep free ck (λ db', Lives (in_claims db) (in_claims db')) ) with (db := db); [| |done|done].
  - intros db1 db2 Hs1 Hm H1. etransitivity; [exact H1|]. by eapply move_lives.
  - by apply perform_moves_any.
Qed.

Lemma along_app P ttl l1 l2 : ∀ db, along P ttl (l1 ++ l2) db = along P ttl l1 db && along P ttl l2 (run ttl l1 db).
Proof. induction l1 as [|[ck op] l1 IH]; intros db; cbn; [done|]. by rewrite IH, andb_assoc. Qed.

Lemma run_app ttl l1 l2 : ∀ db, run ttl (l1 ++ l2) db = run ttl l2 (run ttl l1 db).
Proof. induction l1 as [|[ck op] l1 IH]; intros db; cbn; [done|]. apply IH. Qed.

(** C34 (invariant). A claim only moves forward. Between any two moments of any
    run the claim is still there, with the identity, price, kind, expiry and
    request it was made with; its status is one its status led to, so a released
    or expired claim never changes again and a confirmed one stays confirmed; its
    quantity only shrank, and only while it was held; what refunds returned of it
    only grew, and never past its quantity. *)
Theorem claim_moves_forward ttl l1 l2 id r :
  along well_formed ttl (l1 ++ l2) empty_inventory = true →
  in_claims (run ttl l1 empty_inventory) !! id = Some r →
  ∃ r', in_claims (run ttl (l1 ++ l2) empty_inventory) !! id = Some r' ∧ Descends r r' ∧
    0 ≤ cl_Returned r' ≤ cl_Quantity r'.
Proof.
  rewrite along_app, run_app. intros [H1 H2]%andb_prop Hr.
  pose proof (run_sound _ _ _ H1 empty_sound) as Hs1. pose proof (run_sound _ _ _ H2 Hs1) as Hs2.
  destruct (run_lives _ _ _ H2 Hs1 id r Hr) as (r' & Hr' & Hd). exists r'. split_and!; [done|done|..];
    destruct (sd_rows _ Hs2 _ _ Hr') as [_ Hck _ _]; apply checks_quantities in Hck; lia.
Qed.
End ClaimLife.

#[local] Existing Instance text_uuid.

(** The presale hold of [day], confirmed and refunded one seat of three. *)
Definition presale_hold : Claim :=
  hold_claim 100 (at_time 10) ("a"%string : uuid) (day_hold "web" "EARLY" "k1" 3) "EARLY".

Lemma claim_moves_forward_witness :
  in_claims (run 100 (take 4 day) empty_inventory) !! ("a"%string : uuid) = Some presale_hold ∧
  ∃ r', in_claims (run 100 (take 4 day ++ drop 4 (day_until 10)) empty_inventory) !! ("a"%string : uuid) = Some r' ∧
    Descends presale_hold r' ∧ 0 ≤ cl_Returned r' ≤ cl_Quantity r'.
Proof.
  assert (H1 : along well_formed 100 (take 4 day ++ drop 4 (day_until 10)) empty_inventory = true) by (vm_compute; reflexivity).
  assert (H2 : in_claims (run 100 (take 4 day) empty_inventory) !! ("a"%string : uuid) = Some presale_hold) by (vm_compute; reflexivity).
  exact (conj H2 (claim_moves_forward 100 (take 4 day) (drop 4 (day_until 10)) _ presale_hold H1 H2)).
Defined.
