(* ===== verification/Availability.v ===== *)
(** * What the inventory reports

    The reads of [services/inventory/internal/store]: the public availability
    (store.go), the staff breakdown and the claim history (operational.go), the
    channel breakdown (channel_allocations.go), the capacity history (capacity.go)
    and the presale statuses (presale_codes.go). They run outside the pool lock,
    each statement with its own clock readings, and sweep nothing. The figure they
    report is the quantity the next hold is granted. *)

From stdpp Require Import pretty.
From S2P Require Import Prelude Text Sha256 Format Tables Inventory Claims InventoryMoves ClaimMoves InventorySafety.
#[local] Open Scope Z_scope.

Section Availability.
Context `{UU : UUID}.

(** [now()] and [clock_timestamp()] of the statements a read executes. *)
Record ReadClock := {
  rc_pool : time;      (** [now()] of the pool's statement *)
  rc_channel : time;   (** the clock at which the channel's row is judged *)
  rc_sum : time;       (** [now()] of the statement that sums consumption *)
  rc_reserve : time;   (** the clock at which it judges the allocations *)
}.

Record Available := {
  av_Capacity : Z;
  av_Held : Z;
  av_Confirmed : Z;
  av_Available : Z;
  av_OfferingStatus : string;
}.

(** The clamp floor a draining cut follows, as the reads derive it. *)
Definition effectiveCapacity (capacity : Z) (target : option Z) (confirmed held : Z) : Z :=
  wrap32 (Z.max (default capacity target) (confirmed + held)).

Definition clampAvailable (v : Z) : Z := if v <? 0 then 0 else wrap32 v.

(** What the pool has left, whoever asks. *)
Definition pool_remaining (pool : Pool) (effective held : Z) : Z :=
  if bool_decide (offeringStatus (po_Archived pool) (po_Closed pool) = "open"%string)
  then effective - po_Confirmed pool - held else 0.

Definition report (pool : Pool) (effective held available : Z) : Available := {|
  av_Capacity := effective; av_Held := held; av_Confirmed := po_Confirmed pool; av_Available := available;
  av_OfferingStatus := offeringStatus (po_Archived pool) (po_Closed pool) |}.

(** The channel's claimable quantity: none without an active allocation whose
    window is open. *)
Definition channel_available (rc : ReadClock) (slot : uuid) (channel : string) (remaining : Z) (db : InventoryDB) : Z :=
  match active_on (rc_channel rc) slot channel db with
  | None => 0
  | Some a =>
      if windowOpen (rc_channel rc) (al_OpensAt a) (al_ClosesAt a)
      then clampAvailable (Z.min remaining (al_Cap a - channel_consumed (rc_sum rc) slot channel db))
      else 0
  end.

Definition Availability (rc : ReadClock) (org slot : uuid) (channel : string) (db : InventoryDB)
    : result InventoryError Available :=
  pool ← pool_of_org org slot db;
  held ← scan32 (held_quantity (rc_pool rc) slot db);
  let effective := effectiveCapacity (po_Capacity pool) (po_Target pool) (po_Confirmed pool) held in
  let remaining := pool_remaining pool effective held in
  let available :=
    if negb (bool_decide (channel = ""%string)) then channel_available rc slot channel remaining db
    else clampAvailable (remaining - reservedForChannels (rc_sum rc) (rc_reserve rc) slot db) in
  Ok (report pool effective held available).

(** ** Staff reads *)

Record ChannelAvailability := {
  ch_Allocation : ChannelAllocation;
  ch_Released : bool;
  ch_WindowOpen : bool;
  ch_Held : Z;
  ch_Confirmed : Z;
  ch_Available : Z;
}.

Definition channel_held (now : time) (p : uuid) (ch : string) (db : InventoryDB) : Z :=
  total (λ r, counted (in_pool p r && on_channel ch r && liveClaims now r) (cl_Quantity r)) (in_claims db).
Definition channel_confirmed (p : uuid) (ch : string) (db : InventoryDB) : Z :=
  total (λ r, counted (in_pool p r && on_channel ch r && bool_decide (cl_Status r = Confirmed)) (consumedQuantity r)) (in_claims db).

Definition channel_row (rc : ReadClock) (slot : uuid) (remaining : Z) (db : InventoryDB) (a : ChannelAllocation)
    : result InventoryError ChannelAvailability :=
  held ← scan32 (channel_held (rc_sum rc) slot (al_Channel a) db);
  confirmed ← scan32 (channel_confirmed slot (al_Channel a) db);
  let released := passed (rc_channel rc) (al_ReleaseAt a) in
  let isOpen := windowOpen (rc_channel rc) (al_OpensAt a) (al_ClosesAt a) in
  Ok {| ch_Allocation := a; ch_Released := released; ch_WindowOpen := isOpen; ch_Held := held; ch_Confirmed := confirmed;
        ch_Available := if negb released && isOpen then clampAvailable (Z.min remaining (al_Cap a - held - confirmed)) else 0 |}.

Definition by_channel (a b : ChannelAllocation) : bool := String.ltb (al_Channel a) (al_Channel b).

Definition channelAvailabilities (rc : ReadClock) (slot : uuid) (remaining : Z) (db : InventoryDB)
    : result InventoryError (list ChannelAvailability) :=
  mapM (channel_row rc slot remaining db) (isort by_channel (allocations_of slot db)).

Record StaffView := {
  sv_Capacity : Z;
  sv_Target : option Z;
  sv_BuyerHeld : Z;
  sv_OperationalHeld : Z;
  sv_ReservationHeld : Z;
  sv_Confirmed : Z;
  sv_Available : Z;
  sv_PublicAvailable : Z;
  sv_OfferingStatus : string;
  sv_Channels : list ChannelAvailability;
  sv_Seated : bool;
  sv_Revision : Z;
}.

Definition held_of_kind (kind : ClaimKind) (now : time) (p : uuid) (db : InventoryDB) : Z :=
  total (λ r, counted (in_pool p r && bool_decide (cl_Kind r = kind) && liveClaims now r) (cl_Quantity r)) (in_claims db).

Definition StaffAvailability (rc : ReadClock) (org slot : uuid) (db : InventoryDB) : result InventoryError StaffView :=
  pool ← pool_of_org org slot db;
  buyer ← scan32 (held_of_kind Buyer (rc_pool rc) slot db);
  operational ← scan32 (held_of_kind Operational (rc_pool rc) slot db);
  reservation ← scan32 (held_of_kind Reservation (rc_pool rc) slot db);
  let effective := effectiveCapacity (po_Capacity pool) (po_Target pool) (po_Confirmed pool)
                     (wrap32 (wrap32 (buyer + operational) + reservation)) in
  let left := wrap32 (wrap32 (wrap32 (wrap32 (effective - po_Confirmed pool) - buyer) - operational) - reservation) in
  let isOpen := bool_decide (offeringStatus (po_Archived pool) (po_Closed pool) = "open"%string) in
  let remaining := if isOpen then left else 0 in
  channels ← channelAvailabilities rc slot remaining db;
  Ok {| sv_Capacity := effective; sv_Target := po_Target pool; sv_BuyerHeld := buyer; sv_OperationalHeld := operational;
        sv_ReservationHeld := reservation; sv_Confirmed := po_Confirmed pool; sv_Available := remaining;
        sv_PublicAvailable := clampAvailable (remaining - reservedForChannels (rc_sum rc) (rc_reserve rc) slot db);
        sv_OfferingStatus := offeringStatus (po_Archived pool) (po_Closed pool); sv_Channels := channels;
        sv_Seated := po_Seated pool; sv_Revision := po_Revision pool |}.

(** History is read in the order it was appended. *)
Definition History (org id : uuid) (db : InventoryDB) : result InventoryError (list HistoryRow) :=
  _ ← claim_of_org org id db;
  Ok (List.filter (λ h, bool_decide (hi_OrganizerID h = org) && bool_decide (hi_ClaimID h = Some id)) (in_history db)).

Definition CapacityHistory (org slot : uuid) (db : InventoryDB) : result InventoryError (list HistoryRow) :=
  _ ← pool_of_org org slot db;
  Ok (List.filter (λ h, bool_decide (hi_OrganizerID h = org) && bool_decide (hi_PoolID h = Some slot)) (in_history db)).

(** The pools a consumer still has to follow: published ones and their closure. *)
Definition ListPublishedPoolOfferings (db : InventoryDB) : list (uuid * bool) :=
  map (λ kv : uuid * Pool, (kv.1, po_Closed kv.2))
    (List.filter (λ kv : uuid * Pool, negb (po_Archived kv.2)) (map_to_list (in_pools db))).

Definition ClaimIsSeated (org id : uuid) (db : InventoryDB) : result InventoryError bool :=
  _ ← claim_of_org org id db;
  Ok (negb (bool_decide (seats_of id db = []))).

Record PresaleCodeStatus := {
  ps_Code : string;
  ps_Issued : PresaleCode;
  ps_Redeemed : Z;
  ps_Remaining : option Z;
  ps_WindowOpen : bool;
  ps_Exhausted : bool;
}.

(** The operator's count leaves out expired holds no terminal write has reached. *)
Definition code_live_quantity (now : time) (k : code_key) (db : InventoryDB) : Z :=
  total (λ r, counted (cites k r && consumingClaims now r) (consumedQuantity r)) (in_claims db).

Definition code_status (rc : ReadClock) (db : InventoryDB) (kc : code_key * PresaleCode) : PresaleCodeStatus :=
  let redeemed := code_live_quantity (rc_sum rc) kc.1 db in
  let remaining := (λ m, Z.max (m - redeemed) 0) <$> pc_MaxRedemptions kc.2 in
  {| ps_Code := kc.1.2; ps_Issued := kc.2; ps_Redeemed := redeemed; ps_Remaining := remaining;
     ps_WindowOpen := windowOpen (rc_channel rc) (pc_OpensAt kc.2) (pc_ClosesAt kc.2);
     ps_Exhausted := bool_decide (remaining = Some 0) |}.

Definition by_code (a b : code_key * PresaleCode) : bool := String.ltb a.1.2 b.1.2.

Definition PresaleCodeStatuses (rc : ReadClock) (org : uuid) (channel : string) (db : InventoryDB) : list PresaleCodeStatus :=
  map (code_status rc db)
    (isort by_code (List.filter (λ kc : code_key * PresaleCode, bool_decide (kc.1.1 = (org, channel))) (map_to_list (in_codes db)))).
End Availability.

(** ** What a read says is what a hold gets *)
Section Reads.
Context `{UU : UUID}.

(** The readings of a read taken at the instant of a hold. *)
Definition reading (ck : Clock) : ReadClock := {|
  rc_pool := ck_now ck; rc_channel := ck_window ck; rc_sum := ck_now ck; rc_reserve := ck_reserve ck |}.

(** A read of one pool, its counters as the columns hold them. *)
Record Readable (t : time) (p : uuid) (pool : Pool) (db : InventoryDB) : Prop := {
  rb_sound : Sound db;
  rb_pool : in_pools db !! p = Some pool;
  rb_fits : po_Confirmed pool + held_quantity t p db ≤ po_Capacity pool;
  rb_int32 : po_Capacity pool ≤ MaxInt32;
  rb_allocations a : a ∈ allocations_of p db → al_Channel a ≠ ""%string ∧ al_Cap a ≤ MaxInt32;
}.

Lemma total_counted_nonneg (f : Claim → bool) (g : Claim → Z) db :
  Sound db → (∀ r, claim_checks r = true → 0 ≤ g r) → 0 ≤ total (λ r, counted (f r) (g r)) (in_claims db).
Proof.
  intros Hs Hg. apply total_nonneg. intros i r Hr. specialize (Hg r (ro_checks _ _ _ (sd_rows _ Hs _ _ Hr))).
  unfold counted. destruct (f r); lia.
Qed.

Lemma quantity_nonneg r : claim_checks r = true → 0 ≤ cl_Quantity r.
Proof. intros H%checks_quantities. lia. Qed.

Section OneRead.
Context (t : time) (p : uuid) (pool : Pool) (db : InventoryDB) (Hr : Readable t p pool db).

Lemma held_nonneg : 0 ≤ held_quantity t p db.
Proof. apply total_counted_nonneg; [apply Hr|apply quantity_nonneg]. Qed.

Lemma confirmed_nonneg : 0 ≤ po_Confirmed pool.
Proof.
  rewrite (pk_confirmed _ _ _ (sd_pools _ (rb_sound _ _ _ _ Hr) _ _ (rb_pool _ _ _ _ Hr))).
  apply total_counted_nonneg; [apply Hr|]. intros r H%checks_quantities. lia.
Qed.

Lemma target_below : default (po_Capacity pool) (po_Target pool) ≤ po_Capacity pool.
Proof.
  destruct (po_Target pool) eqn:Ht; cbn; [|lia].
  by apply (sd_pools _ (rb_sound _ _ _ _ Hr) _ _ (rb_pool _ _ _ _ Hr)).
Qed.

Lemma effective_exact :
  effectiveCapacity (po_Capacity pool) (po_Target pool) (po_Confirmed pool) (held_quantity t p db) =
  Z.max (limit pool) (po_Confirmed pool + held_quantity t p db).
Proof.
  pose proof held_nonneg. pose proof confirmed_nonneg. pose proof target_below. destruct Hr.
  apply wrap32_id. unfold int32, limit, MinInt32, MaxInt32 in *. lia.
Qed.

Lemma held_fits : scan32 (held_quantity t p db) = Ok (held_quantity t p db).
Proof.
  pose proof confirmed_nonneg. destruct Hr. unfold scan32. destruct (_ >? _) eqn:E; [|done]. zbool. lia.
Qed.
End OneRead.

Lemma reserved_nonneg now clock p db : 0 ≤ reservedForChannels now clock p db.
Proof. unfold reservedForChannels. induction (List.filter _ _) as [|a l IH]; cbn; lia. Qed.

Lemma clamp_exact v : v ≤ MaxInt32 → clampAvailable v = Z.max v 0.
Proof.
  intros Hv. unfold clampAvailable. destruct (Z.ltb_spec v 0); [lia|].
  rewrite wrap32_id; [lia|]. unfold int32, MinInt32. lia.
Qed.

Lemma open_offering pool : guardOffering pool = Ok tt ↔ offeringStatus (po_Archived pool) (po_Closed pool) = "open"%string.
Proof. unfold guardOffering, offeringStatus. by destruct (po_Archived pool), (po_Closed pool). Qed.

(** ** A sweep changes nothing a read counts *)

Lemma sweep_tables now p db db' : sweepExpired now p db = Ok db' →
  in_claims db' = sweep now p <$> in_claims db ∧ in_allocations db' = in_allocations db.
Proof. intros H. by apply (sweep_steps free (Build_Clock now now now now now)) in H as (_ & _ & ? & ? & _). Qed.

Lemma sweep_total now p db db' (f : Claim → bool) (g : Claim → Z) : sweepExpired now p db = Ok db' →
  (∀ r, f (set_status Expired r) = false) → (∀ r, expired now r = true → f r = false) →
  total (λ r, counted (f r) (g r)) (in_claims db') = total (λ r, counted (f r) (g r)) (in_claims db).
Proof.
  intros [-> _]%sweep_tables H1 H2. rewrite total_fmap.
  apply total_ext. intros i r _. unfold sweep, due. destruct (in_pool p r), (expired now r) eqn:He; cbn [andb]; try done.
  by rewrite H1, (H2 r He).
Qed.

Lemma expired_not_live now r : expired now r = true → liveClaims now r = false.
Proof.
  unfold expired, liveClaims, passed, after_or_null. intros H. apply andb_prop in H as [->%bool_decide_eq_true H].
  destruct (cl_ExpiresAt r); [|done]. zbool. lia.
Qed.

Lemma expired_not_consuming now r : expired now r = true → consumingClaims now r = false.
Proof.
  intros H. unfold consumingClaims. rewrite (expired_not_live now r H), orb_false_r. apply bool_decide_eq_false.
  apply expired_held in H. congruence.
Qed.

Lemma held_swept now p db db' : sweepExpired now p db = Ok db' → held_quantity now p db' = held_quantity now p db.
Proof.
  intros H. apply (sweep_total now p); [done|intros r; apply andb_false_r|].
  intros r He. by rewrite (expired_not_live now r He), andb_false_r.
Qed.

Lemma channel_swept now p ch db db' : sweepExpired now p db = Ok db' → channel_consumed now p ch db' = channel_consumed now p ch db.
Proof.
  intros H. apply (sweep_total now p); [done| |].
  - intros r. unfold consumingClaims. cbn. rewrite bool_decide_false by done. apply andb_false_r.
  - intros r He. by rewrite (expired_not_consuming now r He), andb_false_r.
Qed.

Lemma allocations_swept now p q db db' : sweepExpired now p db = Ok db' → allocations_of q db' = allocations_of q db.
Proof. intros [_ Ha]%sweep_tables. unfold allocations_of. by rewrite Ha. Qed.

Lemma reserved_swept now p clock db db' : sweepExpired now p db = Ok db' →
  reservedForChannels now clock p db' = reservedForChannels now clock p db.
Proof.
  intros H. unfold reservedForChannels. rewrite (allocations_swept _ _ _ _ _ H). f_equal. apply List.map_ext.
  intros a. by rewrite (channel_swept _ _ _ _ _ H).
Qed.

(** ** Parts of the sums *)

Lemma mapM_result_elem {E A B} (f : A → result E B) l k y : mapM f l = Ok k → y ∈ k → ∃ x, x ∈ l ∧ f x = Ok y.
Proof.
  revert k. induction l as [|x l IH]; cbn; intros k Hk Hy; [by injection Hk as <-; apply not_elem_of_nil in Hy|].
  apply bind_Ok in Hk as (b & Hb & Hk). apply bind_Ok in Hk as (k' & Hk' & Hk). injection Hk as <-.
  apply list.elem_of_cons in Hy as [-> |Hy]; [exists x; split; [apply list_elem_of_here|done]|].
  destruct (IH _ Hk' Hy) as (x' & Hx & Hf). exists x'. split; [by apply list_elem_of_further|done].
Qed.

(** Held claims by kind are held claims. *)
Lemma kinds_partition now p db :
  held_of_kind Buyer now p db + held_of_kind Operational now p db + held_of_kind Reservation now p db = held_quantity now p db.
Proof.
  unfold held_of_kind, held_quantity. rewrite <-!total_add. apply total_ext. intros i r _. unfold counted.
  destruct (in_pool p r), (liveClaims now r), (cl_Kind r); repeat (case_bool_decide; try done); cbn; lia.
Qed.

Lemma channel_parts now p ch db : channel_consumed now p ch db = channel_held now p ch db + channel_confirmed p ch db.
Proof.
  unfold channel_consumed, channel_held, channel_confirmed. rewrite <-total_add. apply total_ext. intros i r _.
  unfold counted, consumingClaims, consumedQuantity, liveClaims. destruct (in_pool p r && on_channel ch r); cbn; [|lia].
  destruct (cl_Status r); repeat (case_bool_decide; try done); cbn; lia.
Qed.

(** The first active allocation of a channel is its only one. *)
Lemma active_on_row t p a db : NoDup (map al_Channel (allocations_of p db)) → a ∈ allocations_of p db →
  active_on t p (al_Channel a) db = if passed t (al_ReleaseAt a) then None else Some a.
Proof.
  unfold active_on. generalize (allocations_of p db) as l. induction l as [|b l IH]; cbn; intros Hnd Ha.
  { by apply not_elem_of_nil in Ha. }
  apply list.NoDup_cons in Hnd as [Hb Hnd]. apply list.elem_of_cons in Ha as [<- |Ha].
  - rewrite bool_decide_true by done. unfold activeAllocation, after_or_null, passed.
    destruct (al_ReleaseAt a) as [r|]; cbn; [|done]. rewrite Z.gtb_ltb.
    destruct (Z.ltb_spec t r), (Z.leb_spec r t); try lia; [done|].
    destruct (List.find _ l) as [x|] eqn:Hf; [|done]. apply List.find_some in Hf as [Hin Hx]. zbool.
    exfalso. apply Hb. rewrite <-H1. by apply list_elem_of_In, List.in_map.
  - rewrite bool_decide_false; [by apply IH|]. intros E. apply Hb. rewrite E. by apply list_elem_of_In, List.in_map, list_elem_of_In.
Qed.

(** ** The read decides the hold *)

Section Agreement.
Context (ck : Clock) (slot : uuid) (pool : Pool) (db : InventoryDB) (Hr : Readable (ck_now ck) slot pool db).
Abbreviation now := (ck_now ck).
Abbreviation room := (limit pool - po_Confirmed pool - held_quantity now slot db).

Lemma room_bound : room ≤ MaxInt32.
Proof.
  pose proof (held_nonneg _ _ _ _ Hr). pose proof (confirmed_nonneg _ _ _ _ Hr). pose proof (target_below _ _ _ _ Hr).
  destruct Hr. unfold limit. lia.
Qed.

(** What is left of the pool, nothing of one off sale. *)
Abbreviation left := (if bool_decide (offeringStatus (po_Archived pool) (po_Closed pool) = "open"%string) then Z.max room 0 else 0).

Lemma left_bound : 0 ≤ left ≤ MaxInt32.
Proof. pose proof room_bound. unfold MaxInt32 in *. case_bool_decide; lia. Qed.

Lemma left_exact :
  pool_remaining pool (Z.max (limit pool) (po_Confirmed pool + held_quantity now slot db)) (held_quantity now slot db) = left.
Proof. unfold pool_remaining. case_bool_decide; lia. Qed.

(** What a read finds. *)
Lemma Availability_exact org channel : po_OrganizerID pool = org →
  Availability (reading ck) org slot channel db = Ok (report pool
    (Z.max (limit pool) (po_Confirmed pool + held_quantity now slot db)) (held_quantity now slot db)
    (if bool_decide (channel = ""%string)
     then Z.max (left - reservedForChannels now (ck_reserve ck) slot db) 0
     else channel_available (reading ck) slot channel left db)).
Proof.
  intros Ho. unfold Availability, pool_of_org. rewrite (rb_pool _ _ _ _ Hr), (bool_decide_true _ Ho). cbn [mbind result_bind].
  cbn [rc_pool reading]. rewrite (held_fits _ _ _ _ Hr). cbn [mbind result_bind]. rewrite (effective_exact _ _ _ _ Hr), left_exact.
  do 2 f_equal. case_bool_decide as Hc; cbn [negb]; [|done]. apply clamp_exact.
  pose proof left_bound. pose proof (reserved_nonneg now (ck_reserve ck) slot db). lia.
Qed.

Lemma kind_nonneg kind : 0 ≤ held_of_kind kind now slot db.
Proof. apply total_counted_nonneg; [apply Hr|apply quantity_nonneg]. Qed.

(** The headroom a hold finds after its sweep is the figure of the read. *)
Lemma headroom_exact channel al qty db' org code reseller : 0 < qty → sweepExpired now slot db = Ok db' →
  channelGate ck org slot channel code reseller qty db' = Ok al → channel ≠ ""%string →
  holdHeadroom ck slot channel al pool qty db' =
  if qty <=? channel_available (reading ck) slot channel (Z.max room 0) db then Ok tt else Err ErrUnavailable.
Proof.
  intros Hq Hsw Hg Hc. unfold holdHeadroom. rewrite (held_swept _ _ _ _ Hsw), (held_fits _ _ _ _ Hr). cbn [mbind result_bind].
  rewrite (bool_decide_false _ Hc). cbn [negb].
  unfold channelGate in Hg. rewrite (bool_decide_false _ Hc) in Hg.
  assert (Ha : active_on (ck_window ck) slot channel db' = active_on (ck_window ck) slot channel db).
  { unfold active_on. by rewrite (allocations_swept _ _ _ _ _ Hsw). }
  rewrite Ha in Hg. unfold channel_available. cbn [rc_channel rc_sum reading].
  destruct (active_on _ _ _ _) as [a|] eqn:Hact.
  2: { injection Hg as <-. destruct (Z.leb_spec qty 0); [lia|]. cbn. by destruct (globalShort _ _ _). }
  destruct (windowOpen _ _ _); cbn in Hg; [|done]. destruct (negb _); [done|].
  assert (al = Some a) as -> by (destruct (al_RequiresCode a); [apply bind_Ok in Hg as (_ & _ & Hg)|]; congruence).
  cbn [channelHeadroom]. rewrite (channel_swept _ _ _ _ _ Hsw). pose proof room_bound.
  rewrite clamp_exact by (unfold MaxInt32 in *; lia). unfold globalShort. rewrite !Z.gtb_ltb.
  repeat match goal with |- context [?a <? ?b] => destruct (Z.ltb_spec a b) | |- context [?a <=? ?b] => destruct (Z.leb_spec a b) end;
    try done; lia.
Qed.

Lemma public_headroom_exact al qty db' : 0 < qty → sweepExpired now slot db = Ok db' →
  holdHeadroom ck slot "" al pool qty db' =
  let left := Z.max (Z.max room 0 - reservedForChannels now (ck_reserve ck) slot db) 0 in
  if qty <=? left then Ok tt else Err (if left =? 0 then ErrSoldOut else ErrUnavailable).
Proof.
  intros Hq Hsw. unfold holdHeadroom. rewrite (held_swept _ _ _ _ Hsw), (held_fits _ _ _ _ Hr). cbn [mbind result_bind].
  rewrite bool_decide_true by done. cbn [negb]. rewrite (reserved_swept _ _ _ _ _ Hsw).
  pose proof (reserved_nonneg now (ck_reserve ck) slot db). cbv zeta. unfold globalShort. rewrite !Z.gtb_ltb.
  repeat match goal with
    | |- context [?a <? ?b] => destruct (Z.ltb_spec a b) | |- context [?a <=? ?b] => destruct (Z.leb_spec a b)
    | |- context [?a =? ?b] => destruct (Z.eqb_spec a b) end; cbn; try done; lia.
Qed.

(** The breakdown of the staff read, in [int32] as the Go adds it up. *)
Lemma staff_left :
  let b := held_of_kind Buyer now slot db in let o := held_of_kind Operational now slot db in
  let g := held_of_kind Reservation now slot db in
  let e := Z.max (limit pool) (po_Confirmed pool + held_quantity now slot db) in
  effectiveCapacity (po_Capacity pool) (po_Target pool) (po_Confirmed pool) (wrap32 (wrap32 (b + o) + g)) = e ∧
  (if bool_decide (offeringStatus (po_Archived pool) (po_Closed pool) = "open"%string)
   then wrap32 (wrap32 (wrap32 (wrap32 (e - po_Confirmed pool) - b) - o) - g) else 0) = left.
Proof.
  cbv zeta. rewrite <-(effective_exact _ _ _ _ Hr), <-left_exact, <-(effective_exact _ _ _ _ Hr).
  pose proof (kinds_partition now slot db) as Hk. pose proof (confirmed_nonneg _ _ _ _ Hr).
  pose proof (kind_nonneg Buyer). pose proof (kind_nonneg Operational). pose proof (kind_nonneg Reservation).
  pose proof (effective_exact _ _ _ _ Hr) as He. pose proof (target_below _ _ _ _ Hr). pose proof Hr as [_ _ Hfits H32 _].
  assert (Hw : ∀ z, 0 ≤ z ≤ MaxInt32 → wrap32 z = z) by (intros z Hz; apply wrap32_id; unfold int32, MinInt32, MaxInt32 in *; lia).
  unfold limit in He. split.
  - rewrite (Hw (held_of_kind Buyer now slot db + held_of_kind Operational now slot db)), Hw, Hk by lia. done.
  - unfold pool_remaining. case_bool_decide; [|done]. rewrite He.
    set (e := Z.max _ _) in *. rewrite (Hw (e - po_Confirmed pool)), (Hw (_ - held_of_kind Buyer now slot db)),
      (Hw (_ - held_of_kind Operational now slot db)), Hw by lia. lia.
Qed.

(** A row of the breakdown reads as its channel alone. *)
Lemma row_exact a row : a ∈ allocations_of slot db → channel_row (reading ck) slot left db a = Ok row →
  ch_Allocation row = a ∧ ch_Available row = channel_available (reading ck) slot (al_Channel a) left db.
Proof.
  unfold channel_row. intros Ha (h & [-> _]%scan32_Ok & H)%bind_Ok. apply bind_Ok in H as (c & [-> _]%scan32_Ok & [= <-]).
  cbn [ch_Allocation ch_Available]. split; [done|]. unfold channel_available. cbn [rc_channel rc_sum reading].
  rewrite (active_on_row _ _ _ _ (sd_channels _ (rb_sound _ _ _ _ Hr) slot) Ha).
  destruct (passed _ _); [done|]. cbn [negb andb]. destruct (windowOpen _ _ _); [|done].
  rewrite channel_parts, Z.sub_add_distr. reflexivity.
Qed.
End Agreement.

(** The availability read and the claim path are one rule. On
    a pool that is on sale, whose counters are as the invariants leave them, a
    hold that its channel's window, seller and code let through is recorded
    exactly when it asks for no more than the read reports at that instant;
    otherwise it is refused, as sold out when the public figure is zero and as
    unavailable in every other case, and nothing is written. *)
Theorem availability_decides_holds ttl ck id rq pool db db' a al :
  Readable (ck_now ck) (hr_SlotID rq) pool db → po_OrganizerID pool = hr_OrganizerID rq → guardOffering pool = Ok tt →
  0 < hr_Quantity rq →
  Availability (reading ck) (hr_OrganizerID rq) (hr_SlotID rq) (hr_Channel rq) db = Ok a →
  sweepExpired (ck_now ck) (hr_SlotID rq) db = Ok db' →
  channelGate ck (hr_OrganizerID rq) (hr_SlotID rq) (hr_Channel rq) (hr_PresaleCode rq) (hr_Reseller rq) (hr_Quantity rq) db' = Ok al →
  grantHold ttl ck id rq pool db =
  if hr_Quantity rq <=? av_Available a then recordHold ttl ck id rq al db'
  else Err (if bool_decide (hr_Channel rq = ""%string) && (av_Available a =? 0) then ErrSoldOut else ErrUnavailable).
Proof.
  intros Hr Ho Hopen Hq Ha Hsw Hg. rewrite (Availability_exact ck _ _ _ Hr _ _ Ho) in Ha. injection Ha as <-.
  rewrite (bool_decide_true _ (proj1 (open_offering _) Hopen)).
  unfold grantHold. rewrite Hopen. cbn [mbind result_bind]. rewrite Hsw. cbn [mbind result_bind]. rewrite Hg. cbn [mbind result_bind].
  cbn [av_Available report]. case_bool_decide as Hc; cbn [andb].
  - rewrite Hc, (public_headroom_exact ck _ _ _ Hr) by done. cbv zeta. by destruct (_ <=? _).
  - rewrite (headroom_exact ck _ _ _ Hr _ _ _ db' _ _ _ Hq Hsw Hg Hc). by destruct (_ <=? _).
Qed.

(** Staff and buyers are told the same. On a pool whose
    counters are as the invariants leave them, the public figure of the staff read
    is the one the public read gives, with the same capacity, and its holds by
    kind add up to the held total; and each channel of the breakdown shows what a
    read of that channel alone shows, zero for a released one and for one whose
    window is closed. No [int32] of the staff read wraps. *)
Theorem staff_read_agrees ck slot pool db v :
  Readable (ck_now ck) slot pool db → StaffAvailability (reading ck) (po_OrganizerID pool) slot db = Ok v →
  (∃ a, Availability (reading ck) (po_OrganizerID pool) slot "" db = Ok a ∧ sv_PublicAvailable v = av_Available a ∧
     sv_Capacity v = av_Capacity a ∧ sv_BuyerHeld v + sv_OperationalHeld v + sv_ReservationHeld v = av_Held a) ∧
  ∀ row, row ∈ sv_Channels v →
    ∃ a, Availability (reading ck) (po_OrganizerID pool) slot (al_Channel (ch_Allocation row)) db = Ok a ∧
      ch_Available row = av_Available a.
Proof.
  intros Hr Hv. unfold StaffAvailability, pool_of_org in Hv. rewrite (rb_pool _ _ _ _ Hr), bool_decide_true in Hv by done.
  cbn [mbind result_bind rc_pool reading] in Hv. apply bind_Ok in Hv as (b & [-> _]%scan32_Ok & Hv).
  apply bind_Ok in Hv as (o & [-> _]%scan32_Ok & Hv). apply bind_Ok in Hv as (g & [-> _]%scan32_Ok & Hv).
  pose proof (staff_left ck _ _ _ Hr) as (He & Hl). rewrite He, Hl in Hv.
  apply bind_Ok in Hv as (rows & Hrows & Hv). injection Hv as <-. cbn. split.
  - eexists. split; [by apply (Availability_exact ck _ _ _ Hr)|]. cbn. split_and!; [|done|apply kinds_partition].
    apply clamp_exact. pose proof (left_bound ck _ _ _ Hr). pose proof (reserved_nonneg (ck_now ck) (ck_reserve ck) slot db). lia.
  - intros row Hin. unfold channelAvailabilities in Hrows.
    destruct (mapM_result_elem _ _ _ _ Hrows Hin) as (a & Ha & Hrow). rewrite elem_of_isort in Ha.
    destruct (row_exact ck _ _ _ Hr _ _ Ha Hrow) as [-> ->]. destruct (rb_allocations _ _ _ _ Hr a Ha) as [Hne _].
    eexists. split; [by apply (Availability_exact ck _ _ _ Hr)|]. cbn. by rewrite (bool_decide_false _ Hne).
Qed.
End Reads.

(** ** On the day of [InventorySafety] *)
#[local] Existing Instance text_uuid.
#[local] Abbreviation presale_db := (run 100 (day_until 4) empty_inventory).

Definition org : uuid := "org"%string.
Definition claim_b : uuid := "b"%string.

Definition presale_pool : Pool := {|
  po_OrganizerID := "org"%string; po_Capacity := 10; po_Confirmed := 0; po_Target := None; po_Seated := false;
  po_Archived := false; po_Closed := false; po_Revision := 1; po_SeatMap := None; po_Orphan := false |}.

Lemma presale_readable : Readable 20 slot presale_pool presale_db.
Proof.
  split.
  - apply run_sound; [vm_compute; reflexivity|apply empty_sound].
  - vm_compute. reflexivity.
  - vm_compute. discriminate.
  - vm_compute. discriminate.
  - replace (allocations_of slot presale_db) with [web] by (vm_compute; reflexivity).
    intros a ->%list_elem_of_singleton. split; [discriminate|vm_compute; discriminate].
Qed.

Definition presale_swept : InventoryDB := match sweepExpired 20 slot presale_db with Ok db => db | Err _ => presale_db end.

Lemma presale_sweep : sweepExpired 20 slot presale_db = Ok presale_swept.
Proof.
  assert (H : is_ok (sweepExpired 20 slot presale_db) = true) by (vm_compute; reflexivity).
  unfold presale_swept. by destruct (sweepExpired 20 slot presale_db).
Qed.

(** Seven left, one of them promised to the presale channel. *)
Definition presale_read : Available := {|
  av_Capacity := 10; av_Held := 3; av_Confirmed := 0; av_Available := 6; av_OfferingStatus := "open" |}.

Lemma availability_decides_holds_witness :
  Availability (reading (at_time 20)) org slot "" presale_db = Ok presale_read ∧
  grantHold 100 (at_time 20) claim_b (day_hold "" "" "k2" 7) presale_pool presale_db =
  if 7 <=? 6 then recordHold 100 (at_time 20) claim_b (day_hold "" "" "k2" 7) None presale_swept
  else Err (if bool_decide (""%string = ""%string) && (6 =? 0) then ErrSoldOut else ErrUnavailable).
Proof.
  assert (H1 : Availability (reading (at_time 20)) org slot "" presale_db = Ok presale_read) by (vm_compute; reflexivity).
  exact (conj H1 (availability_decides_holds 100 (at_time 20) claim_b (day_hold "" "" "k2" 7) presale_pool presale_db
    presale_swept presale_read None presale_readable eq_refl eq_refl eq_refl H1 presale_sweep eq_refl)).
Defined.

Lemma staff_read_agrees_witness :
  ∃ v, StaffAvailability (reading (at_time 20)) org slot presale_db = Ok v ∧
    (∃ a, Availability (reading (at_time 20)) org slot "" presale_db = Ok a ∧ sv_PublicAvailable v = av_Available a ∧
       sv_Capacity v = av_Capacity a ∧ sv_BuyerHeld v + sv_OperationalHeld v + sv_ReservationHeld v = av_Held a) ∧
    ∀ row, row ∈ sv_Channels v →
      ∃ a, Availability (reading (at_time 20)) org slot (al_Channel (ch_Allocation row)) presale_db = Ok a ∧
        ch_Available row = av_Available a.
Proof.
  assert (Hok : is_ok (StaffAvailability (reading (at_time 20)) org slot presale_db) = true) by (vm_compute; reflexivity).
  destruct (StaffAvailability (reading (at_time 20)) org slot presale_db) as [v|e] eqn:H; [|discriminate Hok].
  exact (ex_intro _ v (conj eq_refl (staff_read_agrees (at_time 20) slot presale_pool presale_db v presale_readable H))).
Defined.
