(* ===== verification/SeatSafety.v ===== *)
(** * Seats are sold once

    The seat rows over the runs of [InventorySafety]: every row belongs to a claim
    of its pool, a seat of a pool has at most one live row, and a row is released
    only where its claim is finished. What the reads of a pool's seats promise to
    a buyer, and what the verdicts on catalog's pins promise to the service that
    frees them. *)

From stdpp Require Import pretty.
From S2P Require Import Prelude Text Sha256 Format Tables Inventory Claims SeatMap SeatClaims InventoryMoves ClaimMoves SeatMoves InventorySafety ClaimLife.
#[local] Open Scope Z_scope.

Section SeatSafety.
Context `{UU : UUID}.

(** ** The seat rows *)

Definition live_row (s : SeatRow) : bool := is_None (st_ReleasedAt s).

Record SeatsOk (db : InventoryDB) : Prop := {
  sk_owned k s : in_seats db !! k = Some s → ∃ r, in_claims db !! k.1 = Some r ∧ cl_PoolID r = st_PoolID s;
  sk_one c1 c2 seat s1 s2 : in_seats db !! (c1, seat) = Some s1 → in_seats db !! (c2, seat) = Some s2 →
    live_row s1 = true → live_row s2 = true → st_PoolID s1 = st_PoolID s2 → c1 = c2;
  sk_released k s r : in_seats db !! k = Some s → live_row s = false → in_claims db !! k.1 = Some r → finished r = true;
}.

Lemma empty_seats : SeatsOk empty_inventory.
Proof.
  split; [intros k s H|intros c1 c2 seat s1 s2 H|intros k s r H]; exfalso;
    cbn in H; by rewrite lookup_empty in H.
Qed.

(** A finished claim stays finished. *)
Lemma finished_descends r r' : Descends r r' → claim_checks r' = true → finished r = true → finished r' = true.
Proof.
  intros Hd Hck%checks_quantities Hf. unfold finished in *. destruct (terminal (cl_Status r)) eqn:Ht.
  - by rewrite (ds_terminal _ _ Hd Ht), Ht.
  - cbn in Hf. unfold is_confirmed in *. zbool. pose proof (ds_status _ _ Hd) as Hst. pose proof (ds_returned _ _ Hd).
    rewrite (ds_settled _ _ Hd) in Hck by congruence. assert (cl_Status r' = Confirmed) as E.
    { revert Hst. rewrite H. cbn. case_bool_decide as E; [by rewrite E|done]. }
    rewrite E. cbn. apply Z.eqb_eq. rewrite (ds_settled _ _ Hd) by congruence. lia.
Qed.

Lemma seats_lives db db' : in_seats db' = in_seats db → Lives (in_claims db) (in_claims db') →
  (∀ id r, in_claims db' !! id = Some r → claim_checks r = true) → SeatsOk db → SeatsOk db'.
Proof.
  intros Hse Hl Hck [Ho H1 Hr]. split; rewrite Hse; [|exact H1|].
  - intros k s Hk. destruct (Ho k s Hk) as (r & Hc & Hp). destruct (Hl _ _ Hc) as (r' & Hc' & Hd). exists r'. split; [done|].
    pose proof (ds_fixed _ _ Hd) as Hf. unfold fixed, identity in Hf. congruence.
  - intros k s r' Hk Hlive Hc'. destruct (Ho k s Hk) as (r & Hc & _). destruct (Hl _ _ Hc) as (r'' & Hc'' & Hd).
    assert (r'' = r') as -> by congruence. eapply finished_descends; [exact Hd|by eapply Hck|by eapply Hr].
Qed.

Definition released_by (d : uuid * string → SeatRow → bool) (t : time) (m : gmap (uuid * string) SeatRow) :=
  map_imap (λ k s, Some (if d k s then release_seat t s else s)) m.

Lemma released_by_Some d t m k s : released_by d t m !! k = Some s ↔
  ∃ s0, m !! k = Some s0 ∧ s = if d k s0 then release_seat t s0 else s0.
Proof.
  unfold released_by. rewrite map_lookup_imap. destruct (m !! k) as [s0|]; cbn; naive_solver.
Qed.

Lemma release_seats_Ok d t db db' : release_seats_where d t db = Ok db' → db' = with_seats (released_by d t) db.
Proof. unfold release_seats_where. destruct (forallb _ _); [|done]. by intros [= <-]. Qed.

Lemma seats_release d t db db' : release_seats_where d t db = Ok db' →
  (∀ k s, in_seats db !! k = Some s → d k s = true → ∃ r, in_claims db !! k.1 = Some r ∧ finished r = true) →
  SeatsOk db → SeatsOk db'.
Proof.
  intros ->%release_seats_Ok Hfin [Ho H1 Hr].
  assert (Hlive : ∀ k s, in_seats (with_seats (released_by d t) db) !! k = Some s → live_row s = true → in_seats db !! k = Some s).
  { intros k s (s0 & Hk & ->)%released_by_Some Hl. by destruct (d k s0). }
  split.
  - intros k s (s0 & Hk & ->)%released_by_Some. destruct (Ho k s0 Hk) as (r & Hc & Hp). exists r. split; [done|]. by destruct (d k s0).
  - intros c1 c2 seat s1 s2 Hs1 Hs2 L1 L2. by eapply H1; [eapply Hlive|eapply Hlive|..].
  - intros k s r (s0 & Hk & ->)%released_by_Some Hl Hc. change (in_claims db !! k.1 = Some r) in Hc. destruct (d k s0) eqn:Hd.
    + destruct (Hfin _ _ Hk Hd) as (r' & Hc' & Hf). congruence.
    + by eapply Hr.
Qed.

Lemma seat_held_true slot db seat : seat_held slot db seat = true ↔
  ∃ c s, in_seats db !! (c, seat) = Some s ∧ st_PoolID s = slot ∧ live_row s = true.
Proof.
  unfold seat_held, seat_rows. rewrite existsb_exists. split.
  - intros ([[c n] s] & Hin%list_elem_of_In%elem_of_map_to_list & Hl). unfold live_seat in Hl. cbn in Hl. zbool. subst n. by exists c, s.
  - intros (c & s & Hin & Hp & Hl). exists ((c, seat), s). split; [by apply list_elem_of_In, elem_of_map_to_list|].
    unfold live_seat. cbn. rewrite !bool_decide_true by done. exact Hl.
Qed.

Lemma insert_seat_Ok t id slot db seat db' : insert_seat t id slot db seat = Ok db' →
  in_seats db !! (id, seat) = None ∧ seat_held slot db seat = false ∧ not_blank seat = true ∧
  db' = with_seats (<[(id, seat) := {| st_PoolID := slot; st_ClaimedAt := t; st_ReleasedAt := None |}]>) db.
Proof.
  unfold insert_seat. destruct (in_seats db !! (id, seat)); [done|]. cbn. destruct (not_blank seat); [|done]. cbn.
  destruct (seat_held _ _ _) eqn:Hh; [done|]. by intros [= <-].
Qed.

Lemma seats_insert t r seat db db' : in_claims db !! cl_ID r = Some r →
  insert_seat t (cl_ID r) (cl_PoolID r) db seat = Ok db' → SeatsOk db → SeatsOk db'.
Proof.
  intros Hc (Hnew & Hfree & _ & ->)%insert_seat_Ok [Ho H1 Hr]. set (row := {| st_PoolID := _ |}).
  assert (Hrow : ∀ k s, in_seats (with_seats (<[(cl_ID r, seat) := row]>) db) !! k = Some s →
    k = (cl_ID r, seat) ∧ s = row ∨ k ≠ (cl_ID r, seat) ∧ in_seats db !! k = Some s).
  { intros k s. cbn. destruct (decide ((cl_ID r, seat) = k)) as [<-|]; [rewrite lookup_insert_eq; naive_solver|].
    rewrite lookup_insert_ne by done. naive_solver. }
  assert (Hothers : ∀ c s, in_seats db !! (c, seat) = Some s → live_row s = true → st_PoolID s ≠ cl_PoolID r).
  { intros c s Hs Hl Hp. apply not_true_iff_false in Hfree. apply Hfree, seat_held_true. by exists c, s. }
  split.
  - intros k s [[-> ->]|[_ Hk]]%Hrow; [by exists r|by apply Ho].
  - intros c1 c2 n s1 s2 [[E1 ->]|[N1 Hs1]]%Hrow [[E2 ->]|[N2 Hs2]]%Hrow L1 L2 Hp; [congruence|..|by eapply H1].
    + injection E1 as -> ->. by destruct (Hothers _ _ Hs2 L2).
    + injection E2 as -> ->. by destruct (Hothers _ _ Hs1 L1).
  - intros k s x [[-> ->]|[_ Hk]]%Hrow Hl Hx; [done|by eapply Hr].
Qed.

Lemma move_seats lib ck db db' : Sound db → move lib ck db db' → SeatsOk db → SeatsOk db'.
Proof.
  intros Hs Hm. pose proof (move_lives _ _ _ _ Hs Hm) as Hl. pose proof (move_sound _ _ _ _ Hm Hs) as Hs'.
  assert (Hck : ∀ id r, in_claims db' !! id = Some r → claim_checks r = true) by (intros id r Hr; by eapply ro_checks, sd_rows).
  destruct Hm as [| | | | | | | | | | | | | | | | | | |slot rows db' _ _ _ Hproj%upserts_calm]; try (by apply seats_lives);
    [by eapply seats_release|by eapply seats_insert|].
  apply seats_lives; [apply Hproj|done..].
Qed.

Lemma run_seats ttl l : ∀ db, along well_formed ttl l db = true → Sound db → SeatsOk db → SeatsOk (run ttl l db).
Proof.
  induction l as [|[ck op] l IH]; cbn; intros db Hw Hs Hk; [done|]. apply andb_prop in Hw as [Hw Hl].
  apply IH; [done|by apply perform_sound|].
  eapply (steps_keep free ck SeatsOk); [|by apply perform_moves_any|done|done]. intros db1 db2. apply move_seats.
Qed.

(** C2 (safety). A seat is never sold twice. However provisionings, holds of named
    seats, best-available holds, checkouts, refunds, expiries and every other
    operation of the inventory follow each other, and whatever the clocks: no seat
    of a pool is listed by two claims that both stand, a claim standing until it
    is released, has expired or has been returned in full. An expired hold nobody
    has swept yet still stands. *)
Theorem seat_never_sold_twice ttl l c1 c2 r1 r2 seat s1 s2 :
  along well_formed ttl l empty_inventory = true →
  let db := run ttl l empty_inventory in
  in_claims db !! c1 = Some r1 → in_claims db !! c2 = Some r2 → finished r1 = false → finished r2 = false →
  in_seats db !! (c1, seat) = Some s1 → in_seats db !! (c2, seat) = Some s2 → st_PoolID s1 = st_PoolID s2 →
  c1 = c2.
Proof.
  intros Hw db H1 H2 F1 F2 S1 S2 Hp. assert (Hk : SeatsOk db) by (apply run_seats; [done|apply empty_sound|apply empty_seats]).
  apply (sk_one _ Hk c1 c2 seat s1 s2); [done..| | |done]; apply not_false_iff_true; intros Hl.
  - pose proof (sk_released _ Hk _ _ r1 S1 Hl H1). congruence.
  - pose proof (sk_released _ Hk _ _ r2 S2 Hl H2). congruence.
Qed.
End SeatSafety.

#[local] Existing Instance text_uuid.

(** ** A row of six seats

    Two of them held by name, the next two found as the best available, and the
    first two bought and returned in full. *)
Definition seat_name (i : Z) : string := "A" +:+ pretty i.

Definition row_seat (i : Z) : SeatAdjacencyRow := {|
  sj_SeatIdentity := seat_name i; sj_Left := if i =? 1 then None else Some (seat_name (i - 1));
  sj_Right := if i =? 6 then None else Some (seat_name (i + 1));
  sj_RowKey := Some "A"%string; sj_Position := Some i; sj_RowRank := Some 1 |}.

Definition row_a : list SeatAdjacencyRow := map row_seat [1; 2; 3; 4; 5; 6].

Definition seat_request (key : string) : SeatRequest := {|
  sq_OrganizerID := "org"%string; sq_SlotID := "slot"%string; sq_TicketTypeID := "tt"%string; sq_UnitAmount := 2500;
  sq_Currency := "EUR"; sq_Key := key |}.

Definition seat_day : trace := [
  (at_time 0, OpProvisionSeated "e1" "slot" "org" "map" 6 true row_a);
  (at_time 10, OpSeatHold "a" (seat_request "k1") ["A2"; "A1"]);
  (at_time 20, OpBestAvailable "b" (seat_request "k2") 400 2);
  (at_time 30, OpTransition "org" "a" Confirmed);
  (at_time 40, OpReturnRefund "org" "a" "refund" 2);
  (at_time 50, OpSeatHold "c" (seat_request "k3") ["A1"; "A2"])]%string.

Definition seat_db (n : nat) : InventoryDB := run 100 (firstn n seat_day) empty_inventory.

Definition seats_listed (db : InventoryDB) : list (string * string * bool) :=
  isort (lex (on_key (λ x, x.1.1) String.ltb) (on_key (λ x, x.1.2) String.ltb))
    (map (λ ks, (ks.1.1, ks.1.2, live_row ks.2)) (map_to_list (in_seats db))).

Example seats_held : seats_listed (seat_db 3) =
  [("a", "A1", true); ("a", "A2", true); ("b", "A3", true); ("b", "A4", true)]%string.
Proof. vm_compute. reflexivity. Qed.

Example seats_sold_again : seats_listed (seat_db 6) =
  [("a", "A1", false); ("a", "A2", false); ("b", "A3", true); ("b", "A4", true); ("c", "A1", true); ("c", "A2", true)]%string.
Proof. vm_compute. reflexivity. Qed.

Definition held_row (t : time) : SeatRow := {| st_PoolID := ("slot"%string : uuid); st_ClaimedAt := t; st_ReleasedAt := None |}.

Definition claim_at (n : nat) (id : uuid) : Claim :=
  default (seat_claim 0 (at_time 0) id (seat_request "") 1 "") (in_claims (seat_db n) !! id).

Lemma seat_never_sold_twice_witness :
  let c : uuid := "c"%string in in_seats (seat_db 6) !! (c, "A1"%string) = Some (held_row 50) ∧ c = c.
Proof.
  assert (Hw : along well_formed 100 seat_day empty_inventory = true) by (vm_compute; reflexivity).
  assert (H1 : in_claims (seat_db 6) !! ("c"%string : uuid) = Some (claim_at 6 ("c"%string : uuid))) by (vm_compute; reflexivity).
  assert (H2 : finished (claim_at 6 ("c"%string : uuid)) = false) by (vm_compute; reflexivity).
  assert (H3 : in_seats (seat_db 6) !! (("c"%string : uuid), "A1"%string) = Some (held_row 50)) by (vm_compute; reflexivity).
  exact (conj H3 (seat_never_sold_twice 100 seat_day ("c"%string : uuid) ("c"%string : uuid) _ _ "A1" (held_row 50) (held_row 50)
    Hw H1 H1 H2 H2 H3 H3 eq_refl)).
Defined.

(** A retry of the hold that was bought and returned in full is answered as a
    hold of its seats, although it has none and they are on sale again; the retry
    of a best-available hold in the same state is refused. *)
Definition best_day : trace := [
  (at_time 0, OpProvisionSeated "e1" "slot" "org" "map" 6 true row_a);
  (at_time 10, OpBestAvailable "a" (seat_request "k1") 400 2);
  (at_time 30, OpTransition "org" "a" Confirmed);
  (at_time 40, OpReturnRefund "org" "a" "refund" 2)]%string.

Definition hold_answer (r : InventoryDB * result InventoryError SeatHold) : option (list string * bool) :=
  match r.2 with Ok h => Some (sh_Seats h, sh_Replay h) | Err _ => None end.

Example returned_hold_replays :
  hold_answer (transaction (CreateSeatHold 100 (at_time 45) ("z"%string : uuid) (seat_request "k1") ["A1"; "A2"]%string) (seat_db 5))
    = Some (["A1"; "A2"]%string, true) ∧
  live_seats ("a"%string : uuid) (seat_db 5) = 0%nat ∧
  snd (transaction (CreateBestAvailableSeatHold 100 (at_time 45) ("z"%string : uuid) (seat_request "k1") 400 2) (run 100 best_day empty_inventory))
    = Err ErrConflict.
Proof. repeat split; vm_compute; reflexivity. Qed.
