(* ===== verification/SeatReads.v ===== *)
(** * What the seats of a pool promise

    The occupancy read and the arbitration of a hold are one rule; the orphan rule
    strands no seat, and refuses exactly for the seats a hold would strand; a
    verdict that a claim is dead is final. *)

From stdpp Require Import pretty.
From S2P Require Import Prelude Text Sha256 Format Tables Inventory Claims SeatMap SeatClaims InventoryMoves ClaimMoves SeatMoves InventorySafety ClaimLife Availability SeatSafety.
#[local] Open Scope Z_scope.

Section SeatReads.
Context `{UU : UUID}.

(** ** The sweep and the seats *)

Lemma reconcile_seats t p db db' : reconcileCapacity t p db = Ok db' → in_seats db' = in_seats db ∧ in_adjacency db' = in_adjacency db.
Proof.
  unfold reconcileCapacity. destruct (in_pools db !! p) as [pool|]; [|by intros [= <-]].
  destruct (po_Target pool); [|by intros [= <-]]. destruct (_ >? _); [done|]. by intros [= <-].
Qed.

Lemma sweep_seats now slot db db' : sweepExpired now slot db = Ok db' →
  in_seats db' = released_by (seat_due slot (with_claims (fmap (sweep now slot)) db)) now (in_seats db) ∧
  in_adjacency db' = in_adjacency db.
Proof.
  unfold sweepExpired. intros (db1 & H1%release_seats_Ok & [H2 H3]%reconcile_seats)%bind_Ok. by rewrite H2, H3, H1.
Qed.

Lemma consuming_swept now slot r : consumingClaims now (sweep now slot r) = consumingClaims now r.
Proof.
  unfold sweep, due. destruct (in_pool slot r), (expired now r) eqn:He; cbn [andb]; try done.
  rewrite (expired_not_consuming now r He). done.
Qed.

Lemma swept_terminal now slot r : in_pool slot r = true → terminal (cl_Status (sweep now slot r)) = negb (consumingClaims now r).
Proof.
  intros Hp. unfold sweep, due. rewrite Hp. cbn [andb]. destruct (expired now r) eqn:He; cbn.
  - by rewrite (expired_not_consuming now r He).
  - unfold consumingClaims, liveClaims. destruct (cl_Status r) eqn:Hs; cbn; try done.
    pose proof (not_expired_live now r Hs He) as Hl. unfold counts, liveClaims in Hl. rewrite Hs in Hl. by rewrite Hl.
Qed.

Lemma seat_taken_true now slot db seat : seat_taken now slot db seat = true ↔
  ∃ c s r, in_seats db !! (c, seat) = Some s ∧ st_PoolID s = slot ∧ live_row s = true ∧
    in_claims db !! c = Some r ∧ consumingClaims now r = true.
Proof.
  unfold seat_taken, seat_rows. rewrite existsb_exists. split.
  - intros ([[c n] s] & Hin%list_elem_of_In%elem_of_map_to_list & Hl). unfold live_seat in Hl. cbn in Hl. zbool. subst n.
    destruct (in_claims db !! c) as [r|] eqn:Hc; [|done]. by exists c, s, r.
  - intros (c & s & r & Hin & Hp & Hl & Hc & Hcons). exists ((c, seat), s). split; [by apply list_elem_of_In, elem_of_map_to_list|].
    unfold live_seat. cbn. rewrite !bool_decide_true by done. rewrite Hc, Hcons, andb_true_r. exact Hl.
Qed.

Section Swept.
Context (now : time) (slot : uuid) (db db' : InventoryDB).
Hypothesis Hk : SeatsOk db.
Hypothesis Hsw : sweepExpired now slot db = Ok db'.

(** The live rows of the pool the sweep leaves are those of claims that consume. *)
Lemma swept_live c seat s r : in_seats db !! (c, seat) = Some s → st_PoolID s = slot → live_row s = true →
  in_claims db !! c = Some r →
  (∃ s', in_seats db' !! (c, seat) = Some s' ∧ st_PoolID s' = slot ∧ live_row s' = true) ↔ consumingClaims now r = true.
Proof.
  intros Hs Hp Hl Hc. destruct (sk_owned _ Hk _ _ Hs) as (r0 & Hc0 & Hpool). cbn in Hc0. assert (r0 = r) as -> by congruence.
  assert (Hin : in_pool slot r = true) by (apply bool_decide_eq_true; congruence).
  destruct (sweep_seats _ _ _ _ Hsw) as [-> _].
  set (d := seat_due slot _). assert (Hd : d (c, seat) s = negb (consumingClaims now r)).
  { unfold d, seat_due, live_row in *. cbn. rewrite lookup_fmap, Hc, Hl. cbn. rewrite (bool_decide_true _ Hp). cbn.
    replace (in_pool slot (sweep now slot r)) with (in_pool slot r) by (unfold sweep; by destruct (due _ _ _)).
    by rewrite Hin, swept_terminal. }
  split.
  - intros (s' & (s0 & Hs0 & ->)%released_by_Some & _ & Hl'). assert (s0 = s) as -> by congruence. rewrite Hd in Hl'.
    by destruct (consumingClaims now r).
  - intros Hcons. exists s. split; [|done]. apply released_by_Some. exists s. by rewrite Hd, Hcons.
Qed.

Lemma swept_row c seat s' : in_seats db' !! (c, seat) = Some s' → live_row s' = true → in_seats db !! (c, seat) = Some s'.
Proof.
  destruct (sweep_seats _ _ _ _ Hsw) as [-> _]. intros (s0 & Hs0 & ->)%released_by_Some. by destruct (seat_due _ _ _ _).
Qed.

Lemma held_after_sweep seat : seat_held slot db' seat = seat_taken now slot db seat.
Proof.
  apply eq_true_iff_eq. rewrite seat_held_true, seat_taken_true. split.
  - intros (c & s & Hs & Hp & Hl). pose proof (swept_row _ _ _ Hs Hl) as Hs0.
    destruct (sk_owned _ Hk _ _ Hs0) as (r & Hc & _). exists c, s, r. split_and!; [done..|].
    apply (swept_live c seat s r); try done. by exists s.
  - intros (c & s & r & Hs & Hp & Hl & Hc & Hcons). apply (swept_live c seat s r) in Hcons as (s' & ? & ? & ?); [|done..]. by exists c, s'.
Qed.

Lemma taken_after_sweep seat : seat_taken now slot db' seat = seat_taken now slot db seat.
Proof.
  assert (Hcl : in_claims db' = sweep now slot <$> in_claims db) by by apply sweep_tables in Hsw as [? _].
  rewrite <-held_after_sweep. apply eq_true_iff_eq. rewrite seat_held_true, seat_taken_true. split.
  - intros (c & s & r & Hs & Hp & Hl & _). by exists c, s.
  - intros (c & s & Hs & Hp & Hl). pose proof (swept_row _ _ _ Hs Hl) as Hs0.
    destruct (sk_owned _ Hk _ _ Hs0) as (r & Hc & _). cbn in Hc. exists c, s, (sweep now slot r). split_and!; [done..| |].
    + by rewrite Hcl, lookup_fmap, Hc.
    + rewrite consuming_swept. apply (swept_live c seat s r); try done. by exists s.
Qed.

Lemma adjacent_after_sweep seat : adjacent slot db' seat = adjacent slot db seat.
Proof. unfold adjacent. by destruct (sweep_seats _ _ _ _ Hsw) as [_ ->]. Qed.

Lemma neighbours_after_sweep seat : neighbours slot db' seat = neighbours slot db seat.
Proof. unfold neighbours. by rewrite adjacent_after_sweep. Qed.
End Swept.

Lemma unavailable_taken now slot db seat : seat ∈ unavailable_seats now slot db ↔ seat_taken now slot db seat = true.
Proof.
  unfold unavailable_seats. rewrite elem_of_isort. unfold seat_taken. rewrite existsb_exists.
  change (map ?f ?l) with (f <$> l). rewrite list_elem_of_fmap. split.
  - intros (ks & -> & [Hin Hl]%elem_of_bool_filter). exists ks. split; [by apply list_elem_of_In|exact Hl].
  - intros (ks & Hin%list_elem_of_In & Hl). assert (ks.1.2 = seat) as E.
    { unfold live_seat in Hl. zbool. done. }
    exists ks. split; [done|]. apply elem_of_bool_filter. split; [done|]. rewrite E. exact Hl.
Qed.

(** ** The read and the hold *)

Lemma canonical_sorted seats canon : canonicalSeats seats = Ok canon →
  isort String.ltb canon = canon ∧ 0 < Z.of_nat (length canon) ≤ MaxSeatsPerHold.
Proof.
  unfold canonicalSeats. intros (out & _ & H)%bind_Ok. destruct (_ || _) eqn:E; [done|]. injection H as <-. split.
  - apply (isort_perm_eq String.ltb); [intros a b _ _; apply string_ltb_total|apply isort_perm].
  - apply orb_false_iff in E as [E1 E2]. rewrite (Permutation_length (isort_perm String.ltb out)). zbool. lia.
Qed.

Lemma contended_exact now slot db db' canon : SeatsOk db → sweepExpired now slot db = Ok db' → isort String.ltb canon = canon →
  contendedSeats slot canon db' = List.filter (λ s, bool_decide (s ∈ unavailable_seats now slot db)) canon.
Proof.
  intros Hk Hsw Hsorted. unfold contendedSeats.
  rewrite (List.filter_ext (seat_held slot db') (λ s, bool_decide (s ∈ unavailable_seats now slot db))).
  - by rewrite <-(filter_isort String.ltb), Hsorted.
  - intros s. rewrite (held_after_sweep now slot db db' Hk Hsw). apply eq_true_iff_eq.
    by rewrite bool_decide_eq_true, unavailable_taken.
Qed.

Section Hold.
Context (ttl : Z) (ck : Clock) (id : uuid) (rq : SeatRequest) (pool : Pool) (seatMap : uuid) (db db' : InventoryDB).
Abbreviation slot := (sq_SlotID rq).
Abbreviation now := (ck_now ck).
Hypothesis Hk : SeatsOk db.
Hypothesis Hr : Readable now slot pool db.
Hypothesis Hsw : sweepExpired now slot db = Ok db'.

Lemma ceiling_exact qty : 0 < qty → guardOffering pool = Ok tt →
  seatCeiling now slot pool qty db' = if qty <=? remaining_capacity now slot pool db then Ok tt else Err ErrUnavailable.
Proof.
  intros Hq Hopen. unfold seatCeiling. rewrite (held_swept _ _ _ _ Hsw), (held_fits now slot pool db Hr).
  cbn [mbind result_bind]. unfold refuse_if, globalShort, remaining_capacity.
  assert (po_Archived pool || po_Closed pool = false) as ->.
  { unfold guardOffering in Hopen. by destruct (po_Archived pool), (po_Closed pool). }
  pose proof (held_nonneg now slot pool db Hr). pose proof (confirmed_nonneg now slot pool db Hr).
  pose proof (target_below now slot pool db Hr) as Ht. fold (limit pool) in Ht. pose proof (rb_int32 _ _ _ _ Hr).
  destruct (Z.ltb_spec 0 (limit pool - po_Confirmed pool - held_quantity now slot db)).
  - rewrite wrap32_id by (unfold int32, MinInt32, MaxInt32 in *; lia).
    destruct (_ >? _) eqn:E1, (_ <=? _) eqn:E2; zbool; try done; lia.
  - destruct (_ >? _) eqn:E1, (_ <=? _) eqn:E2; zbool; try done; lia.
Qed.

(** The seat map a buyer reads and the arbitration of a hold are
    one rule. On a pool that is on sale, whose counters are as the invariants
    leave them, a hold of named seats at the instant of the read is refused as
    unavailable exactly when it names more seats than the read says remain, and
    otherwise as taken exactly when it names a seat the read lists, naming those
    seats and no other; where neither is so, only the orphan rule of a pool that
    carries it stands between the request and its seats. *)
Theorem seat_read_decides_holds seats canon fp occ :
  po_OrganizerID pool = sq_OrganizerID rq → po_Seated pool = true → po_SeatMap pool = Some seatMap → guardOffering pool = Ok tt →
  canonicalSeats seats = Ok canon → seatOccupancy now (sq_OrganizerID rq) slot db = Ok occ →
  let wanted := List.filter (λ s, bool_decide (s ∈ so_Unavailable occ)) canon in
  grantSeats ttl ck id rq pool seatMap fp canon db =
  if so_RemainingCapacity occ <? Z.of_nat (length canon) then Err ErrUnavailable
  else if negb (bool_decide (wanted = [])) then Err (ErrSeatTaken wanted)
  else
    _ ← (if po_Orphan pool then
           stranded ← orphanedSeats now slot canon db';
           refuse_if (negb (bool_decide (stranded = []))) (ErrSeatOrphaned stranded)
         else Ok tt);
    recordSeatHold ttl ck id rq seatMap fp canon (seatsAboutToExpire now slot seatMap db) db'.
Proof.
  intros Hog Hseat Hmap Hopen [Hsorted Hn]%canonical_sorted Hocc wanted.
  unfold seatOccupancy, seated_of_org, pool_of_org in Hocc. rewrite (rb_pool _ _ _ _ Hr) in Hocc.
  rewrite bool_decide_true in Hocc by done. cbn [mbind result_bind] in Hocc. rewrite Hmap, Hseat in Hocc. injection Hocc as <-.
  unfold grantSeats. rewrite Hopen. cbn [mbind result_bind]. rewrite Hsw. cbn [mbind result_bind].
  rewrite ceiling_exact by (done || lia). cbn [so_RemainingCapacity fst snd]. rewrite Z.leb_antisym.
  destruct (_ <? _); cbn [negb mbind result_bind]; [done|].
  unfold arbitrate. rewrite (contended_exact now slot db db' canon Hk Hsw Hsorted).
  change (List.filter _ canon) with wanted. destruct wanted as [|s w]; cbn [length].
  - rewrite !bool_decide_true by done. cbn [negb]. destruct (po_Orphan pool); [|done].
    destruct (orphanedSeats now slot canon db') as [l|e]; cbn [mbind result_bind]; [|done].
    destruct l; cbn [length]; [by rewrite !bool_decide_true|by rewrite !bool_decide_false].
  - rewrite !bool_decide_false by done. done.
Qed.
End Hold.

(** ** The orphan rule *)

(** A free seat beside the request, all of whose neighbours are taken or requested. *)
Record Strands (now : time) (slot : uuid) (db : InventoryDB) (canon : list string) (n : string) : Prop := {
  sn_outside : n ∉ canon;
  sn_beside : ∃ s, s ∈ canon ∧ n ∈ neighbours slot db s;
  sn_free : seat_taken now slot db n = false;
  sn_paired : neighbours slot db n ≠ [];
  sn_shut m : m ∈ neighbours slot db n → m ∈ canon ∨ seat_taken now slot db m = true;
}.

Lemma neighbours_pair slot db n : neighbours slot db n = match adjacent slot db n with Some r => edges r | None => [] end.
Proof. reflexivity. Qed.

Lemma elem_of_mjoin_map {A B} (f : A → list B) l y : y ∈ mjoin (map f l) ↔ ∃ x, x ∈ l ∧ y ∈ f x.
Proof.
  induction l as [|x l IH]; cbn.
  - split; [intros H|intros (x & H & _)]; by apply not_elem_of_nil in H.
  - rewrite elem_of_app, IH. setoid_rewrite list.elem_of_cons. naive_solver.
Qed.

Lemma candidate_spec slot db canon n : n ∈ candidates slot db canon ↔ ((n ∉ canon) ∧ ∃ s, s ∈ canon ∧ n ∈ neighbours slot db s).
Proof.
  unfold candidates. rewrite elem_of_bool_filter, elem_of_remove_dups, elem_of_mjoin_map.
  rewrite negb_true_iff, bool_decide_eq_false. naive_solver.
Qed.

Lemma edges_nil r : edges r = [] ↔ is_None (sj_Left r) && is_None (sj_Right r) = true.
Proof. unfold edges. by destruct (sj_Left r), (sj_Right r). Qed.

(** Among the candidates and their neighbours the query's scope sees everything. *)
Lemma stranded_exact now slot db canon n : n ∈ candidates slot db canon →
  stranded now slot db canon n = true ↔ Strands now slot db canon n.
Proof.
  intros Hc. pose proof Hc as [Hout Hbes]%candidate_spec. unfold stranded.
  assert (Hn : occupied now slot db canon n = seat_taken now slot db n).
  { unfold occupied, scope. rewrite bool_decide_false, bool_decide_true; [done| |done]. apply elem_of_app. by left. }
  assert (Hm : ∀ m, m ∈ neighbours slot db n → occupied now slot db canon m = true ↔ (m ∈ canon ∨ seat_taken now slot db m = true)).
  { intros m Hin. unfold occupied, scope. rewrite orb_true_iff, bool_decide_eq_true, (bool_decide_true (m ∈ _)); [done|].
    apply elem_of_app. right. apply elem_of_mjoin_map. by exists n. }
  pose proof (neighbours_pair slot db n) as Hnb. destruct (adjacent slot db n) as [r|] eqn:Ha.
  2: { split; [done|]. intros [_ _ _ Hp _]. by rewrite Hnb in Hp. }
  rewrite Hn, !andb_true_iff, !negb_true_iff, forallb_forall. rewrite <-not_true_iff_false, <-edges_nil, <-Hnb. split.
  - intros [[Hp Hf] Hall]. split; try done. intros m Hin. by apply (Hm m Hin), Hall, list_elem_of_In.
  - intros [_ _ Hf Hp Hs]. split_and!; [done..|]. intros m Hin%list_elem_of_In. by apply (Hm m Hin), Hs.
Qed.

Lemma orphaned_exact now slot canon db l n : orphanedSeats now slot canon db = Ok l → n ∈ l ↔ Strands now slot db canon n.
Proof.
  unfold orphanedSeats. destruct (existsb _ _); [done|]. intros [= <-]. rewrite elem_of_isort, elem_of_bool_filter. split.
  - intros [Hc Hs]. by apply stranded_exact in Hs.
  - intros H. assert (n ∈ candidates slot db canon) as Hc by (apply candidate_spec; split; apply H). split; [done|]. by apply stranded_exact.
Qed.

(** Where the projection is whole around the request, a neighbour names its seat back. *)
Lemma projected_back now slot canon db l s n : orphanedSeats now slot canon db = Ok l → s ∈ canon → n ∈ neighbours slot db s →
  s ∈ neighbours slot db n.
Proof.
  unfold orphanedSeats. destruct (existsb _ _) eqn:E; [done|]. intros _ Hs Hn.
  assert (Hgap : ∀ x, x ∈ needed slot db canon → gap slot db x = false).
  { intros x Hx. apply not_true_iff_false. intros Hg. apply not_true_iff_false in E. apply E, existsb_exists.
    exists x. split; [by apply list_elem_of_In|done]. }
  assert (Gs : gap slot db s = false) by (apply Hgap, elem_of_app; by left).
  assert (Gn : gap slot db n = false).
  { apply Hgap, elem_of_app. right. apply elem_of_mjoin_map. by exists s. }
  unfold gap in Gs, Gn. rewrite neighbours_pair in Hn |- *. destruct (adjacent slot db s) as [r|]; [|done].
  destruct (adjacent slot db n) as [b|] eqn:Hb; [|done].
  destruct (names b s) eqn:Hnames.
  - unfold names in Hnames. unfold edges. apply elem_of_app. apply orb_true_iff in Hnames as [H|H]; apply bool_decide_eq_true in H; rewrite H; [left|right]; apply list_elem_of_here.
  - exfalso. apply not_true_iff_false in Gs. apply Gs, existsb_exists. exists n. split; [by apply list_elem_of_In|]. by rewrite Hb, Hnames.
Qed.

(** ** What a granted hold takes *)

Lemma insert_seats_Ok t id slot l : ∀ db db', fold_result (insert_seat t id slot) db l = Ok db' →
  in_claims db' = in_claims db ∧ in_adjacency db' = in_adjacency db ∧
  ∀ k, in_seats db' !! k = if bool_decide (k.1 = id ∧ k.2 ∈ l)
    then Some {| st_PoolID := slot; st_ClaimedAt := t; st_ReleasedAt := None |} else in_seats db !! k.
Proof.
  induction l as [|n l IH]; cbn; intros db db'.
  - intros [= <-]. split_and!; [done..|]. intros k. rewrite bool_decide_false; [done|]. intros [_ H]. by apply not_elem_of_nil in H.
  - intros (db1 & (_ & _ & _ & ->)%insert_seat_Ok & (Hc & Ha & Hs)%IH)%bind_Ok. split_and!; [done..|]. intros k.
    rewrite Hs. cbn. case_bool_decide as H1; case_bool_decide as H2; try done.
    + exfalso. apply H2. split; [apply H1|]. apply list.elem_of_cons. right. apply H1.
    + destruct H2 as [H2 Hin]. apply list.elem_of_cons in Hin as [Hin|Hin]; [|naive_solver].
      destruct k as [c x]. cbn in *. subst. by rewrite lookup_insert_eq.
    + rewrite lookup_insert_ne; [done|]. intros <-. apply H2. split; [done|]. apply list_elem_of_here.
Qed.

Lemma seat_claim_consumes ttl ck id rq qty fp : clock_ok ck = true → 0 < ttl →
  consumingClaims (ck_now ck) (seat_claim ttl ck id rq qty fp) = true.
Proof.
  intros Hck Ht. unfold consumingClaims, liveClaims. cbn. apply orb_true_iff. right. unfold clock_ok in Hck. zbool.
  apply Z.gtb_lt. lia.
Qed.

Section Granted.
Context (ttl : Z) (ck : Clock) (id : uuid) (rq : SeatRequest) (pool : Pool) (seatMap : uuid) (fp : string) (pins : list PinRef).
Context (canon : list string) (db db' : InventoryDB) (h : result InventoryError SeatHold).
Abbreviation slot := (sq_SlotID rq).
Abbreviation now := (ck_now ck).
Hypothesis Hck : clock_ok ck = true.
Hypothesis Httl : 0 < ttl.
Hypothesis Hk : SeatsOk db.
Hypothesis Hrec : recordSeatHold ttl ck id rq seatMap fp canon pins db = Ok (db', h).

Lemma recorded : (∃ c, in_claims db' !! id = Some c ∧ consumingClaims now c = true ∧ cl_Quantity c = Z.of_nat (length canon)) ∧
  (∀ c, c ≠ id → in_claims db' !! c = in_claims db !! c) ∧ in_adjacency db' = in_adjacency db ∧
  ∀ k, in_seats db' !! k = if bool_decide (k.1 = id ∧ k.2 ∈ canon)
    then Some {| st_PoolID := slot; st_ClaimedAt := now; st_ReleasedAt := None |} else in_seats db !! k.
Proof.
  apply recordSeatHold_Ok in Hrec as (db1 & db2 & Hi & Hf & ((_ & Hcl & _) & Hse & Had) & _).
  apply insertClaim_Ok in Hi as (-> & _). apply insert_seats_Ok in Hf as (Hc2 & Ha2 & Hs2).
  split_and!.
  - exists (seat_claim ttl ck id rq (Z.of_nat (length canon)) fp). rewrite Hcl, Hc2. split_and!; [|by apply seat_claim_consumes|done].
    cbn. by rewrite lookup_insert_eq.
  - intros c Hc. rewrite Hcl, Hc2. cbn. by rewrite lookup_insert_ne.
  - by rewrite Had, Ha2.
  - intros k. by rewrite Hse, Hs2.
Qed.

Lemma was_fresh : in_claims db !! id = None ∧ ∀ seat, in_seats db !! (id, seat) = None.
Proof.
  apply recordSeatHold_Ok in Hrec as (db1 & db2 & Hi & _). apply insertClaim_Ok in Hi as (_ & Hf & _). split; [exact Hf|].
  intros seat. destruct (in_seats db !! (id, seat)) as [s|] eqn:Hs; [|done].
  destruct (sk_owned _ Hk _ _ Hs) as (r & Hr & _). cbn in *. congruence.
Qed.

Lemma taken_after_hold seat : seat_taken now slot db' seat = true ↔ (seat ∈ canon ∨ seat_taken now slot db seat = true).
Proof.
  destruct recorded as ((c & Hc & Hcons & _) & Hothers & _ & Hseats). destruct was_fresh as [Hf Hfs]. rewrite !seat_taken_true. split.
  - intros (x & s & r & Hs & Hp & Hl & Hr & Hcr). rewrite Hseats in Hs. case_bool_decide as Hd; [by left; apply Hd|].
    right. exists x, s, r. split_and!; try done. rewrite <-Hothers; [done|]. intros ->. by rewrite Hfs in Hs.
  - intros [Hin|(x & s & r & Hs & Hp & Hl & Hr & Hcr)].
    + eexists id, _, c. split_and!; [|..]; [rewrite Hseats; by rewrite bool_decide_true|done..].
    + exists x, s, r. assert (x ≠ id) as Hx by (intros ->; congruence). split_and!; try done; [|by rewrite Hothers].
      rewrite Hseats, bool_decide_false; [done|]. by intros [? _].
Qed.

Lemma granted_strands_none : arbitrate now slot pool canon db = Ok tt → po_Orphan pool = true →
  ∀ s n, s ∈ canon → n ∈ neighbours slot db' s → seat_taken now slot db' n = false →
  ∃ m, m ∈ neighbours slot db' n ∧ seat_taken now slot db' m = false.
Proof.
  unfold arbitrate. intros Harb Ho s n Hs. rewrite Ho in Harb. case_bool_decide; [|done]. cbn [negb] in Harb.
  apply bind_Ok in Harb as (l & Hl & Hnil). case_bool_decide as Hn0; [|done].
  assert (Hnb : ∀ x, neighbours slot db' x = neighbours slot db x).
  { intros x. unfold neighbours, adjacent. destruct recorded as (_ & _ & -> & _). done. }
  rewrite !Hnb. intros Hn Hfree.
  assert (Hfree' : (n ∉ canon) ∧ seat_taken now slot db n = false).
  { rewrite <-not_true_iff_false, taken_after_hold in Hfree. rewrite <-not_true_iff_false. tauto. }
  destruct (List.find (λ m, negb (seat_taken now slot db' m)) (neighbours slot db n)) as [m|] eqn:Hfind.
  - apply List.find_some in Hfind as [Hm Hfm%negb_true_iff]. exists m. split; [by apply list_elem_of_In|done].
  - exfalso. assert (n ∈ l) as Hin.
    { apply (orphaned_exact _ _ _ _ _ _ Hl). split; [apply Hfree'|by exists s|apply Hfree'| |].
      - intros E. pose proof (projected_back _ _ _ _ _ _ _ Hl Hs Hn) as Hback. rewrite E in Hback. by apply not_elem_of_nil in Hback.
      - intros m Hm%list_elem_of_In. pose proof (List.find_none _ _ Hfind m Hm) as Hmt. apply negb_false_iff in Hmt. by apply taken_after_hold. }
    destruct l; [by apply not_elem_of_nil in Hin|done].
Qed.
End Granted.

Lemma sweep_error now slot db e : sweepExpired now slot db = Err e → e = ErrDatabase.
Proof.
  unfold sweepExpired. intros [H|(d & _ & H)]%bind_Err.
  - unfold releaseSeatsForTerminal, release_seats_where in H. destruct (forallb _ _); congruence.
  - unfold reconcileCapacity in H. destruct (in_pools d !! slot) as [pool|]; [|done]. destruct (po_Target pool); [|done].
    destruct (_ >? _); congruence.
Qed.

Lemma insert_seats_error t id slot l e : ∀ db, fold_result (insert_seat t id slot) db l = Err e → e = ErrDatabase ∨ e = ErrSeatTaken [].
Proof.
  induction l as [|n l IH]; cbn; intros db; [done|]. intros [H|(d & _ & H)]%bind_Err; [|by eapply IH].
  unfold insert_seat in H. destruct (_ || _); [left; congruence|]. destruct (seat_held _ _ _); [right; congruence|done].
Qed.

Lemma record_error ttl ck id rq m fp canon pins db e : recordSeatHold ttl ck id rq m fp canon pins db = Err e →
  e ∈ [ErrDatabase; ErrIdempotency; ErrSeatTaken []].
Proof.
  unfold recordSeatHold. intros [H|(d & _ & H)]%bind_Err.
  { unfold insertClaim in H. destruct (in_claims db !! id) eqn:E1; cbn in H; rewrite E1 in H; [injection H as <-; set_solver|].
    destruct (in_pools db !! sq_SlotID rq); [|injection H as <-; set_solver].
    destruct (negb _); [injection H as <-; set_solver|]. destruct (negb _); [injection H as <-; set_solver|done]. }
  apply bind_Err in H as [H|(d2 & _ & H)]; [apply insert_seats_error in H; set_solver|].
  apply bind_Err in H as [H|(d3 & _ & H)]; [|done].
  unfold appendHistory, insertHistory in H. destruct (history_insertable _ _); [done|]. injection H as <-. set_solver.
Qed.

Lemma strands_ext now slot db db' canon n : (∀ x, seat_taken now slot db' x = seat_taken now slot db x) →
  (∀ x, neighbours slot db' x = neighbours slot db x) → Strands now slot db' canon n ↔ Strands now slot db canon n.
Proof.
  intros Hx Hn. split; intros [H1 (s & Hs & Hb) H3 H4 H5]; split; try done; try (exists s; split; [done|]); rewrite ?Hn, ?Hx in *; try done.
  - intros m Hm. rewrite <-Hx. by apply H5.
  - intros m Hm. rewrite Hx. by apply H5.
Qed.

(** The orphan rule is exact. On a pool that carries it, a granted
    hold of named seats or of the best available ones leaves no seat beside its own
    free with no free neighbour; and a hold of named seats is refused for orphans
    exactly by naming the seats it would strand, the free ones beside the request
    all of whose neighbours are taken or requested, of which there is one at least. *)
Theorem orphan_rule_is_exact ttl ck id rq pool seatMap fp scan count canon db :
  clock_ok ck = true → 0 < ttl → Sound db → SeatsOk db → po_Orphan pool = true →
  let slot := sq_SlotID rq in let now := ck_now ck in
  (∀ db' h, grantSeats ttl ck id rq pool seatMap fp canon db = Ok (db', Ok h) ∨
            grantBest ttl ck id rq scan pool seatMap fp count db = Ok (db', Ok h) →
     ∀ s n, s ∈ sh_Seats h → n ∈ neighbours slot db' s → seat_taken now slot db' n = false →
       ∃ m, m ∈ neighbours slot db' n ∧ seat_taken now slot db' m = false) ∧
  (∀ l, grantSeats ttl ck id rq pool seatMap fp canon db = Err (ErrSeatOrphaned l) →
     l ≠ [] ∧ ∀ n, n ∈ l ↔ Strands now slot db canon n).
Proof.
  intros Hck Ht Hs Hk Ho slot now. split.
  - intros db' h Hgrant. assert (∃ dbs canon' pins, sweepExpired now slot db = Ok dbs ∧ arbitrate now slot pool canon' dbs = Ok tt ∧
      recordSeatHold ttl ck id rq seatMap fp canon' pins dbs = Ok (db', Ok h)) as (dbs & canon' & pins & Hsw & Harb & Hrec).
    { destruct Hgrant as [H|H].
      - unfold grantSeats in H. apply bind_Ok in H as (u & _ & H). apply bind_Ok in H as (dbs & Hsw & H).
        apply bind_Ok in H as (v & _ & H). apply bind_Ok in H as ([] & Harb & H). eauto 10.
      - unfold grantBest in H. apply bind_Ok in H as (u & _ & H). apply bind_Ok in H as (dbs & Hsw & H).
        apply bind_Ok in H as (v & _ & H). destruct (negb _); [done|]. apply bind_Ok in H as (c & _ & H).
        apply bind_Ok in H as ([] & Harb & H). eauto 10. }
    assert (Hks : SeatsOk dbs).
    { apply (sweep_steps free ck) in Hsw as [Hst _]. apply (steps_keep free ck SeatsOk) with (db := db); try done.
      intros d d'. apply move_seats. }
    assert (sh_Seats h = canon') as -> by (apply recordSeatHold_Ok in Hrec as (? & ? & _ & _ & _ & [= ->]); done).
    by eapply granted_strands_none.
  - intros l Hl. unfold grantSeats in Hl. apply bind_Err in Hl as [Hl|(u & _ & Hl)].
    { unfold guardOffering in Hl. destruct (po_Archived pool); [done|]. by destruct (po_Closed pool). }
    apply bind_Err in Hl as [Hl%sweep_error|(dbs & Hsw & Hl)]; [done|].
    apply bind_Err in Hl as [Hl|(v & _ & Hl)].
    { unfold seatCeiling, scan32 in Hl. apply bind_Err in Hl as [Hl|(z & _ & Hl)]; [by destruct (_ >? _)|].
      unfold refuse_if in Hl. by destruct (globalShort _ _ _). }
    apply bind_Err in Hl as [Hl|(w & _ & Hl%record_error)]; [|set_solver].
    unfold arbitrate in Hl. destruct (negb _); [done|]. rewrite Ho in Hl. apply bind_Err in Hl as [Hl|(l' & Hl' & Hl)].
    { unfold orphanedSeats in Hl. by destruct (existsb _ _). }
    case_bool_decide as Hne; [done|]. injection Hl as ->. split; [by intros ->|]. intros n.
    rewrite (orphaned_exact _ _ _ _ _ _ Hl'). fold slot now.
    assert (Hx : ∀ x, seat_taken now slot dbs x = seat_taken now slot db x) by (intros x; by apply taken_after_sweep).
    assert (Hn : ∀ x, neighbours slot dbs x = neighbours slot db x) by (intros x; by eapply neighbours_after_sweep).
    by apply strands_ext.
Qed.

(** ** The verdicts *)

Lemma live_seats_zero id db : live_seats id db = 0%nat ↔ ∀ seat s, in_seats db !! (id, seat) = Some s → live_row s = false.
Proof.
  unfold live_seats, seat_rows. rewrite length_zero_iff_nil. split.
  - intros Hnil seat s Hs. apply not_true_iff_false. intros Hl.
    assert (((id, seat), s) ∈ List.filter (λ ks, of_claim id ks.1 ks.2) (map_to_list (in_seats db))) as Hin.
    { apply elem_of_bool_filter. split; [by apply elem_of_map_to_list|]. unfold of_claim. cbn. by rewrite bool_decide_true. }
    rewrite Hnil in Hin. by apply not_elem_of_nil in Hin.
  - intros Hall. destruct (List.filter _ _) as [|[[c seat] s] l] eqn:E; [done|].
    assert (((c, seat), s) ∈ List.filter (λ ks, of_claim id ks.1 ks.2) (map_to_list (in_seats db))) as Hin
      by (rewrite E; apply list_elem_of_here).
    apply elem_of_bool_filter in Hin as [Hs%elem_of_map_to_list [Hc%bool_decide_eq_true Hl]%andb_prop]. cbn in Hc, Hl. subst c.
    apply Hall in Hs. unfold live_row in Hs. congruence.
Qed.

(** A finished claim of the pool with no seat left. *)
Definition Freed (slot id : uuid) (db : InventoryDB) : Prop :=
  (∃ r, in_claims db !! id = Some r ∧ cl_PoolID r = slot ∧ finished r = true) ∧ live_seats id db = 0%nat.

Lemma move_freed lib ck slot id db db' : Sound db → move lib ck db db' → Freed slot id db → Freed slot id db'.
Proof.
  intros Hs Hm [(r & Hr & Hp & Hf) Hl]. pose proof (move_sound _ _ _ _ Hm Hs) as Hs'.
  destruct (move_lives _ _ _ _ Hs Hm id r Hr) as (r' & Hr' & Hd). split.
  - exists r'. split_and!; [done| |].
    + pose proof (ds_fixed _ _ Hd) as Hfx. unfold fixed, identity in Hfx. congruence.
    + eapply finished_descends; [exact Hd| |done]. by eapply ro_checks, sd_rows.
  - rewrite live_seats_zero in Hl |- *.
    assert (Hsame : in_seats db' = in_seats db → ∀ seat s, in_seats db' !! (id, seat) = Some s → live_row s = false).
    { intros ->. exact Hl. }
    destruct Hm as [db' Hcalm Hse| | | | | | | | | | | | | | | | |d t db' Hrel _|t x seat db' Hx Hh Hins|p rows db' _ _ _ Hproj%upserts_calm];
      try (by apply Hsame); try (by apply Hsame, Hproj).
    + apply release_seats_Ok in Hrel as ->. intros seat s (s0 & Hs0 & ->)%released_by_Some. apply Hl in Hs0. by destruct (d _ _).
    + apply insert_seat_Ok in Hins as (_ & _ & _ & ->). intros seat' s. cbn.
      destruct (decide ((cl_ID x, seat) = (id, seat'))) as [E|Hne]; [|rewrite lookup_insert_ne by done; apply Hl].
      injection E as E1 E2. rewrite E1 in Hx. assert (x = r) as -> by congruence. unfold finished, is_confirmed in Hf. by rewrite Hh in Hf.
Qed.

Lemma run_freed ttl slot id l : ∀ db, along well_formed ttl l db = true → Sound db → Freed slot id db → Freed slot id (run ttl l db).
Proof.
  induction l as [|[ck op] l IH]; cbn; intros db Hw Hs Hf; [done|]. apply andb_prop in Hw as [Hw Hl].
  apply IH; [done|by apply perform_sound|].
  eapply (steps_keep free ck (Freed slot id)); [|by apply perform_moves_any|done|done]. intros db1 db2. apply move_freed.
Qed.

Lemma finished_dead slot id db : Sound db → Freed slot id db → claim_state slot id db = SeatClaimDead.
Proof.
  intros Hs [(r & Hr & Hp & Hf) Hl]. unfold claim_state. rewrite Hr. unfold in_pool. rewrite bool_decide_true by done. cbn [negb].
  pose proof (checks_quantities _ (ro_checks _ _ _ (sd_rows _ Hs _ _ Hr))) as [Hq _]. unfold finished, is_confirmed in Hf.
  destruct (cl_Status r); cbn in Hf; try done. apply andb_prop in Hf as [_ ->]. by rewrite Hl, (proj2 (Z.ltb_lt _ _) Hq).
Qed.

Lemma classified_spec ck slot ids out db db' verdicts : classifySeatClaimsInPool ck slot ids out db = Ok (db', Ok verdicts) →
  sweepExpired (ck_now ck) slot db = Ok db' ∧
  ∀ id v, verdicts !! id = Some v → out !! id = Some v ∨
    v = claim_state slot id db' ∧ ∃ r, in_claims db' !! id = Some r ∧ cl_PoolID r = slot.
Proof.
  unfold classifySeatClaimsInPool. intros (d & Hsw & [= <- <-])%bind_Ok. split; [done|]. revert out.
  induction ids as [|x ids IH]; cbn; intros out id v; [by left|]. intros [H|H]%IH; [|by right].
  destruct (in_claims d !! x) as [r|] eqn:Hr; [|by left]. destruct (in_pool slot r) eqn:Hp; [|by left].
  destruct (decide (x = id)) as [->|]; [|rewrite lookup_insert_ne in H by done; by left].
  rewrite lookup_insert_eq in H. injection H as <-. right. split; [done|]. exists r. split; [done|]. by apply bool_decide_eq_true in Hp.
Qed.

(** What a verdict of the transaction says of the claim. *)
Section Verdict.
Context (ck : Clock) (slot id : uuid) (ids : list uuid) (out verdicts : gmap uuid SeatClaimState) (v : SeatClaimState) (db db' : InventoryDB).
Hypothesis sound : Sound db.
Hypothesis seats : SeatsOk db.
Hypothesis classified : classifySeatClaimsInPool ck slot ids out db = Ok (db', Ok verdicts).
Hypothesis verdict : verdicts !! id = Some v.
Hypothesis fresh : out !! id ≠ Some v.

Lemma verdict_sound : Sound db'.
Proof. apply classified_spec in classified as [Hsw _]. apply (sweep_steps free ck) in Hsw as [Hst _]. by eapply steps_sound. Qed.

Lemma verdict_row : ∃ r, in_claims db' !! id = Some r ∧ cl_PoolID r = slot ∧ v =
  match cl_Status r with
  | Held | Finalizing => SeatClaimLive
  | Confirmed => if cl_Returned r =? cl_Quantity r then if (live_seats id db' =? 0)%nat then SeatClaimDead else SeatClaimUnknown else SeatClaimLive
  | _ => SeatClaimDead
  end.
Proof.
  pose proof verdict_sound as Hs'. apply classified_spec in classified as [_ Hspec]. destruct (Hspec _ _ verdict) as [Ho|[-> (r & Hr & Hp)]]; [done|].
  pose proof (checks_quantities _ (ro_checks _ _ _ (sd_rows _ Hs' _ _ Hr))) as [Hq _]. exists r. split_and!; [done..|].
  unfold claim_state. rewrite Hr. unfold in_pool. rewrite bool_decide_true by done. cbn [negb]. by rewrite (proj2 (Z.ltb_lt _ _) Hq).
Qed.

Lemma verdict_live r : in_claims db' !! id = Some r → v = SeatClaimLive ↔ finished r = false.
Proof.
  destruct verdict_row as (r' & -> & _ & ->). intros [= ->]. unfold finished, is_confirmed. destruct (cl_Status r); cbn; try done.
  destruct (_ =? _); [|done]. by destruct (_ =? _)%nat.
Qed.

Lemma verdict_freed : v = SeatClaimDead → Freed slot id db'.
Proof.
  destruct verdict_row as (r & Hr & Hp & Hst). rewrite Hst. intros Hdead. pose proof (proj1 (classified_spec _ _ _ _ _ _ _ classified)) as Hsw. split.
  - exists r. split_and!; [done..|]. unfold finished, is_confirmed. destruct (cl_Status r); cbn; try done. by destruct (_ =? _).
  - destruct (terminal (cl_Status r)) eqn:Ht.
    + apply live_seats_zero. intros seat s Hseat. apply not_true_iff_false. intros Hlive.
      pose proof (swept_row _ _ _ _ Hsw _ _ _ Hseat Hlive) as Hs0. destruct (sk_owned _ seats _ _ Hs0) as (r0 & Hr0 & Hp0). cbn in Hr0.
      assert (Hcl : in_claims db' = sweep (ck_now ck) slot <$> in_claims db) by by apply sweep_tables in Hsw as [? _].
      rewrite Hcl, lookup_fmap, Hr0 in Hr. injection Hr as <-.
      assert (cl_PoolID r0 = slot) as Hpr by (revert Hp; unfold sweep; by destruct (due _ _ _)).
      rewrite swept_terminal in Ht by by apply bool_decide_eq_true.
      assert (consumingClaims (ck_now ck) r0 = true) as Hc; [|by rewrite Hc in Ht].
      apply (swept_live (ck_now ck) slot db db' seats Hsw id seat s r0); try done; [congruence|]. exists s. split_and!; [done|congruence|done].
    + destruct (cl_Status r); cbn in Ht; try done. destruct (_ =? _); [|done]. destruct (Nat.eqb_spec (live_seats id db') 0); done.
Qed.
End Verdict.

(** A verdict on the claim behind a pin can be acted on. In any run,
    the transaction that settles a pool and classifies its claims calls a claim
    live exactly when it still stands; and once it has called a claim dead, the
    claim has no live seat and never gets one again, whatever is done to the
    inventory after, so its verdict stays dead and its seats can be freed. *)
Theorem dead_verdict_is_final ttl l ck slot ids db' verdicts id v :
  along well_formed ttl l empty_inventory = true →
  classifySeatClaimsInPool ck slot ids ∅ (run ttl l empty_inventory) = Ok (db', Ok verdicts) → verdicts !! id = Some v →
  (∃ r, in_claims db' !! id = Some r ∧ cl_PoolID r = slot ∧ (v = SeatClaimLive ↔ finished r = false)) ∧
  (v = SeatClaimDead → ∀ l', along well_formed ttl l' db' = true →
     live_seats id (run ttl l' db') = 0%nat ∧ claim_state slot id (run ttl l' db') = SeatClaimDead).
Proof.
  intros Hw Hcls Hv. set (db := run ttl l empty_inventory) in *.
  assert (Hs : Sound db) by (apply run_sound; [done|apply empty_sound]).
  assert (Hk : SeatsOk db) by (apply run_seats; [done|apply empty_sound|apply empty_seats]).
  assert (Hnew : (∅ : gmap uuid SeatClaimState) !! id ≠ Some v) by (by rewrite lookup_empty).
  pose proof (verdict_sound _ _ _ _ _ _ _ Hs Hcls) as Hs'. split.
  - destruct (verdict_row _ _ _ _ _ _ _ _ _ Hs Hcls Hv Hnew) as (r & Hr & Hp & _). exists r. split_and!; [done..|].
    by apply (verdict_live ck slot id ids ∅ verdicts v db db').
  - intros Hd l' Hl'. assert (Hf : Freed slot id (run ttl l' db')).
    { apply run_freed; [done..|]. by apply (verdict_freed ck slot id ids ∅ verdicts v db db'). }
    split; [apply Hf|]. apply finished_dead; [by apply run_sound|done].
Qed.
End SeatReads.

#[local] Existing Instance text_uuid.

(** ** On the row of [SeatSafety] *)
Definition six_pool : Pool := {|
  po_OrganizerID := "org"%string; po_Capacity := 6; po_Confirmed := 0; po_Target := None; po_Seated := true;
  po_Archived := false; po_Closed := false; po_Revision := 0; po_SeatMap := Some ("map"%string : uuid); po_Orphan := true |}.

Definition swept_or (t : time) (db : InventoryDB) : InventoryDB :=
  match sweepExpired t slot db with Ok db => db | Err _ => db end.

Lemma six_readable : Readable 30 slot six_pool (seat_db 3).
Proof.
  split.
  - apply run_sound; [vm_compute; reflexivity|apply empty_sound].
  - vm_compute. reflexivity.
  - vm_compute. discriminate.
  - vm_compute. discriminate.
  - replace (allocations_of slot (seat_db 3)) with (@nil ChannelAllocation) by (vm_compute; reflexivity).
    intros a H. by apply not_elem_of_nil in H.
Qed.

Lemma six_seats : SeatsOk (seat_db 3).
Proof. apply run_seats; [vm_compute; reflexivity|apply empty_sound|apply empty_seats]. Qed.

Lemma six_swept : sweepExpired 30 slot (seat_db 3) = Ok (swept_or 30 (seat_db 3)).
Proof.
  assert (H : is_ok (sweepExpired 30 slot (seat_db 3)) = true) by (vm_compute; reflexivity).
  unfold swept_or. destruct (sweepExpired 30 slot (seat_db 3)) as [d|e] eqn:E; [reflexivity|discriminate H].
Qed.

Definition six_occupancy : SeatOccupancy := {|
  so_SeatMapID := ("map"%string : uuid); so_OfferingStatus := "open"; so_RemainingCapacity := 2;
  so_Unavailable := ["A1"; "A2"; "A3"; "A4"]%string |}.

(** The read lists four seats and leaves two: a hold of [A4] and [A5] is refused
    for [A4]. *)
Lemma seat_read_decides_holds_witness :
  seatOccupancy 30 ("org"%string : uuid) slot (seat_db 3) = Ok six_occupancy ∧
  grantSeats 100 (at_time 30) ("d"%string : uuid) (seat_request "k9") six_pool ("map"%string : uuid) "fp" ["A4"; "A5"]%string (seat_db 3)
  = Err (ErrSeatTaken ["A4"%string]).
Proof.
  assert (H1 : seatOccupancy 30 ("org"%string : uuid) slot (seat_db 3) = Ok six_occupancy) by (vm_compute; reflexivity).
  assert (H2 : canonicalSeats ["A5"; "A4"]%string = Ok ["A4"; "A5"]%string) by (vm_compute; reflexivity).
  exact (conj H1 (seat_read_decides_holds 100 (at_time 30) ("d"%string : uuid) (seat_request "k9") six_pool ("map"%string : uuid)
    (seat_db 3) (swept_or 30 (seat_db 3)) six_seats six_readable six_swept ["A5"; "A4"]%string ["A4"; "A5"]%string "fp" six_occupancy
    eq_refl eq_refl eq_refl eq_refl H2 H1)).
Defined.

(** [A5] alone would leave [A6] alone. *)
Lemma orphan_rule_is_exact_witness :
  ["A6"%string] ≠ [] ∧ ∀ m, m ∈ ["A6"%string] ↔ Strands 30 slot (seat_db 3) ["A5"%string] m.
Proof.
  assert (H : grantSeats 100 (at_time 30) ("d"%string : uuid) (seat_request "k9") six_pool ("map"%string : uuid) "fp" ["A5"%string] (seat_db 3)
    = Err (ErrSeatOrphaned ["A6"%string])) by (vm_compute; reflexivity).
  exact (proj2 (orphan_rule_is_exact 100 (at_time 30) ("d"%string : uuid) (seat_request "k9") six_pool ("map"%string : uuid) "fp" 400 1
    ["A5"%string] (seat_db 3) eq_refl eq_refl (rb_sound _ _ _ _ six_readable) six_seats eq_refl) _ H).
Defined.

Definition classified : InventoryDB * gmap (uuid : Type) SeatClaimState :=
  match classifySeatClaimsInPool (at_time 45) slot ["a"; "b"]%string ∅ (seat_db 5) with
  | Ok (db, Ok v) => (db, v)
  | _ => (seat_db 5, ∅)
  end.

(** The claim returned in full is dead, and what sells its seats again changes nothing to it. *)
Lemma dead_verdict_is_final_witness :
  classified.2 !! ("a"%string : uuid) = Some SeatClaimDead ∧
  live_seats ("a"%string : uuid) (run 100 (drop 5 seat_day) classified.1) = 0%nat ∧
  claim_state slot ("a"%string : uuid) (run 100 (drop 5 seat_day) classified.1) = SeatClaimDead.
Proof.
  assert (Hw : along well_formed 100 (take 5 seat_day) empty_inventory = true) by (vm_compute; reflexivity).
  assert (Hok : classifySeatClaimsInPool (at_time 45) slot ["a"; "b"]%string ∅ (seat_db 5) = Ok (classified.1, Ok classified.2)).
  { assert (H : match classifySeatClaimsInPool (at_time 45) slot ["a"; "b"]%string ∅ (seat_db 5) with Ok (_, Ok _) => true | _ => false end = true)
      by (vm_compute; reflexivity).
    unfold classified. destruct (classifySeatClaimsInPool _ _ _ _ (seat_db 5)) as [[d [v|e]]|e]; [reflexivity|discriminate H|discriminate H]. }
  assert (Hv : classified.2 !! ("a"%string : uuid) = Some SeatClaimDead) by (vm_compute; reflexivity).
  assert (Hw' : along well_formed 100 (drop 5 seat_day) classified.1 = true) by (vm_compute; reflexivity).
  exact (conj Hv (proj2 (dead_verdict_is_final 100 (take 5 seat_day) (at_time 45) slot ["a"; "b"]%string
    classified.1 classified.2 ("a"%string : uuid) SeatClaimDead Hw Hok Hv) eq_refl (drop 5 seat_day) Hw')).
Defined.
