(* ===== verification/SeatOrder.v ===== *)
(** * Valid projections

    What [validateAdjacency] accepts, exactly: every edge is named back, and where the rows
    are ordered the positions of a row run from 1 without a gap or a repetition
    and the edges are those of the positions beside. *)

From stdpp Require Import pretty.
From S2P Require Import Prelude Text Sha256 Format Tables Inventory Claims SeatMap.
#[local] Open Scope Z_scope.

Section SeatOrder.
Context `{UU : UUID}.
Implicit Types (r o : SeatAdjacencyRow) (rows pre : list SeatAdjacencyRow).

(** The place of a seat: its row, its position in it and the rank of the row. *)
Definition place r : option (string * Z * Z) :=
  match sj_RowKey r, sj_Position r, sj_RowRank r with Some k, Some p, Some n => Some (k, p, n) | _, _, _ => None end.

Definition spot r : option (string * Z) := (λ x : string * Z * Z, x.1) <$> place r.

Definition unplaced r : Prop := sj_RowKey r = None ∧ sj_Position r = None ∧ sj_RowRank r = None.

Record Ordered rows : Prop := {
  or_placed r : r ∈ rows → ∃ k p n, place r = Some (k, p, n) ∧ 0 < p ∧ 0 < n ∧ TrimSpace k ≠ ""%string;
  or_distinct r o kp : r ∈ rows → o ∈ rows → spot r = Some kp → spot o = Some kp → r = o;
  or_rank r o k p q n m : r ∈ rows → o ∈ rows → place r = Some (k, p, n) → place o = Some (k, q, m) → n = m;
  or_key r o j k p q n : r ∈ rows → o ∈ rows → place r = Some (j, p, n) → place o = Some (k, q, n) → j = k;
  or_dense r k p q : r ∈ rows → spot r = Some (k, p) → 1 ≤ q ≤ p → ∃ o, o ∈ rows ∧ spot o = Some (k, q);
  or_left r k p e : r ∈ rows → spot r = Some (k, p) →
    sj_Left r = Some e ↔ ∃ o, o ∈ rows ∧ spot o = Some (k, p - 1) ∧ sj_SeatIdentity o = e;
  or_right r k p e : r ∈ rows → spot r = Some (k, p) →
    sj_Right r = Some e ↔ ∃ o, o ∈ rows ∧ spot o = Some (k, p + 1) ∧ sj_SeatIdentity o = e;
}.

Record Valid rows : Prop := {
  vd_back r e : r ∈ rows → e ∈ edges r → ∃ o, o ∈ rows ∧ sj_SeatIdentity o = e ∧ sj_SeatIdentity r ∈ edges o;
  vd_order : (∀ r, r ∈ rows → unplaced r) ∨ Ordered rows;
}.

(** ** The scan of the order *)

Record OrderInv pre (st : OrderState) : Prop := {
  oi_shape r : r ∈ pre → unplaced r ∨ ∃ k p n, place r = Some (k, p, n) ∧ 0 < p ∧ 0 < n ∧ TrimSpace k ≠ ""%string;
  oi_spots : NoDup (omap spot pre);
  oi_seen k p : is_Some (default ∅ (os_seen st !! k) !! p) ↔ (k, p) ∈ omap spot pre;
  oi_rank k n : os_rankOf st !! k = Some n ↔ ∃ r p, r ∈ pre ∧ place r = Some (k, p, n);
  oi_key k n : os_keyOf st !! n = Some k ↔ ∃ r p, r ∈ pre ∧ place r = Some (k, p, n);
  oi_count : os_ordered st = length (omap place pre);
}.

Lemma elem_of_snoc {A} (l : list A) x y : y ∈ l ++ [x] ↔ y ∈ l ∨ y = x.
Proof. rewrite elem_of_app, list_elem_of_singleton. done. Qed.

Lemma place_spot r k p n : place r = Some (k, p, n) → spot r = Some (k, p).
Proof. unfold spot. by intros ->. Qed.

Lemma spot_place r k p : spot r = Some (k, p) → ∃ n, place r = Some (k, p, n).
Proof. unfold spot. destruct (place r) as [[[k' p'] n]|]; cbn; [|done]. intros [= -> ->]. by exists n. Qed.

Lemma unplaced_place r : unplaced r → place r = None ∧ spot r = None.
Proof. unfold spot, place. intros (H & _). by rewrite H. Qed.

Lemma elem_of_spots rows kp : kp ∈ omap spot rows ↔ ∃ r, r ∈ rows ∧ spot r = Some kp.
Proof. apply list_elem_of_omap. Qed.

Lemma order_start_inv : OrderInv [] order_start.
Proof.
  split; cbn; [| | | | |done].
  - intros r Hr. by apply not_elem_of_nil in Hr.
  - constructor.
  - intros k p. rewrite lookup_empty. cbn. rewrite lookup_empty. split; [by intros [? ?]|]. intros H. by apply not_elem_of_nil in H.
  - intros k n. rewrite lookup_empty. split; [done|]. intros (r & p & H & _). by apply not_elem_of_nil in H.
  - intros k n. rewrite lookup_empty. split; [done|]. intros (r & p & H & _). by apply not_elem_of_nil in H.
Qed.

(** A row without a place changes nothing. *)
Lemma order_skip pre st r : OrderInv pre st → unplaced r → OrderInv (pre ++ [r]) st.
Proof.
  intros [H1 H2 H3 H4 H5 H6] Hu. destruct (unplaced_place r Hu) as [Hp Hs]. split.
  - intros x [Hx| ->]%elem_of_snoc; [by apply H1|by left].
  - rewrite omap_app. cbn. by rewrite Hs, app_nil_r.
  - intros k p. rewrite omap_app. cbn. by rewrite Hs, app_nil_r.
  - intros k n. rewrite H4. setoid_rewrite elem_of_snoc. split; [naive_solver|]. intros (x & p & [Hx| ->] & Hpl); [naive_solver|congruence].
  - intros k n. rewrite H5. setoid_rewrite elem_of_snoc. split; [naive_solver|]. intros (x & p & [Hx| ->] & Hpl); [naive_solver|congruence].
  - rewrite omap_app. cbn. by rewrite Hp, app_nil_r.
Qed.

Lemma order_row_Ok st r st' : order_row st r = Ok st' →
  unplaced r ∧ st' = st ∨
  ∃ k p n, place r = Some (k, p, n) ∧ 0 < p ∧ 0 < n ∧ TrimSpace k ≠ ""%string ∧
    default ∅ (os_seen st !! k) !! p = None ∧
    (∀ m, os_rankOf st !! k = Some m → m = n) ∧ (∀ j, os_keyOf st !! n = Some j → j = k) ∧
    st' = {| os_ordered := S (os_ordered st); os_seen := <[k := <[p := sj_SeatIdentity r]> (default ∅ (os_seen st !! k))]> (os_seen st);
             os_rankOf := <[k := n]> (os_rankOf st); os_keyOf := <[n := k]> (os_keyOf st) |}.
Proof.
  unfold order_row, unplaced, place. destruct (sj_RowKey r) as [k|], (sj_Position r) as [p|], (sj_RowRank r) as [n|]; try done.
  2: { intros [= <-]. by left. }
  destruct (_ || _ || _) eqn:E; [done|]. apply orb_false_iff in E as [[E1 E2]%orb_false_iff E3].
  destruct (default ∅ (os_seen st !! k) !! p) eqn:Hseen; [done|]. cbn [is_None negb].
  destruct (match os_rankOf st !! k with Some _ => _ | None => _ end) eqn:Hr; [done|].
  destruct (match os_keyOf st !! n with Some _ => _ | None => _ end) eqn:Hk; [done|]. intros [= <-]. right. exists k, p, n.
  zbool. split_and!; [done|lia|lia|done|done| | |done].
  - intros m Hm. rewrite Hm in Hr. by zbool.
  - intros j Hj. rewrite Hj in Hk. by zbool.
Qed.

Lemma order_step pre st r st' : OrderInv pre st → order_row st r = Ok st' → OrderInv (pre ++ [r]) st'.
Proof.
  intros Hi [[Hu ->]|(k & p & n & Hpl & Hp & Hn & Htrim & Hnew & Hr & Hk & ->)]%order_row_Ok; [by apply order_skip|].
  pose proof (place_spot _ _ _ _ Hpl) as Hsp. destruct Hi as [H1 H2 H3 H4 H5 H6]. split; cbn [os_ordered os_seen os_rankOf os_keyOf].
  - intros x [Hx| ->]%elem_of_snoc; [by apply H1|]. right. by exists k, p, n.
  - rewrite omap_app. cbn. rewrite Hsp. apply list.NoDup_app. split_and!; [done| |apply list.NoDup_singleton].
    intros x Hx ->%list_elem_of_singleton. apply H3 in Hx. rewrite Hnew in Hx. by destruct Hx.
  - intros k' p'. rewrite omap_app. cbn. rewrite Hsp, elem_of_snoc, <-H3. destruct (decide (k = k')) as [->|Hne].
    + rewrite lookup_insert_eq. cbn. destruct (decide (p = p')) as [->|]; [rewrite lookup_insert_eq; naive_solver|].
      rewrite lookup_insert_ne by done. split; [naive_solver|]. intros [?|[= ?]]; naive_solver.
    + rewrite lookup_insert_ne by done. split; [naive_solver|]. intros [?|[= ?]]; naive_solver.
  - intros k' n'. setoid_rewrite elem_of_snoc. destruct (decide (k = k')) as [->|Hne].
    + rewrite lookup_insert_eq. split; [intros [= <-]; eexists r, p; naive_solver|]. intros (x & q & [Hx| ->] & Hplx); [|congruence].
      f_equal. symmetry. apply Hr, H4. by exists x, q.
    + rewrite lookup_insert_ne by done. rewrite H4. split; [naive_solver|]. intros (x & q & [Hx| ->] & Hplx); [naive_solver|congruence].
  - intros k' n'. setoid_rewrite elem_of_snoc. destruct (decide (n = n')) as [->|Hne].
    + rewrite lookup_insert_eq. split; [intros [= <-]; eexists r, p; naive_solver|]. intros (x & q & [Hx| ->] & Hplx); [|congruence].
      f_equal. symmetry. apply Hk, H5. by exists x, q.
    + rewrite lookup_insert_ne by done. rewrite H5. split; [naive_solver|]. intros (x & q & [Hx| ->] & Hplx); [naive_solver|congruence].
  - rewrite omap_app. cbn. rewrite Hpl, length_app, H6. cbn. lia.
Qed.

Lemma order_fold rows : ∀ pre st st', OrderInv pre st → fold_result order_row st rows = Ok st' → OrderInv (pre ++ rows) st'.
Proof.
  induction rows as [|r rows IH]; cbn; intros pre st st' Hi.
  - intros [= <-]. by rewrite app_nil_r.
  - intros (st1 & H1 & H2)%bind_Ok. rewrite cons_middle, app_assoc. eapply IH; [|exact H2]. by eapply order_step.
Qed.

(** ** Rows by position *)

Definition at_pos (m : gmap string (gmap Z SeatAdjacencyRow)) (kp : string * Z) : option SeatAdjacencyRow :=
  default ∅ (m !! kp.1) !! kp.2.

(** Every row of a list takes a position or none. *)
Definition whole r : Prop := unplaced r ∨ ∃ k p n, place r = Some (k, p, n).

Lemma whole_spot r : whole r → match sj_RowKey r, sj_Position r with Some k, Some p => spot r = Some (k, p) | _, _ => spot r = None end.
Proof.
  unfold whole, unplaced, spot, place. intros [(-> & Hp & _)|(k & p & n & H)]; [done|].
  destruct (sj_RowKey r), (sj_Position r), (sj_RowRank r); try done.
Qed.

Lemma add_position_at m r kp : whole r →
  at_pos (add_position m r) kp = if bool_decide (spot r = Some kp) then Some r else at_pos m kp.
Proof.
  intros Hw%whole_spot. unfold add_position, at_pos. destruct kp as [k p]. cbn.
  destruct (sj_RowKey r) as [j|], (sj_Position r) as [q|]; try (rewrite Hw; by rewrite bool_decide_false).
  rewrite Hw. case_bool_decide as H.
  - injection H as -> ->. rewrite lookup_insert_eq. cbn. by rewrite lookup_insert_eq.
  - destruct (decide (j = k)) as [->|].
    + rewrite lookup_insert_eq. cbn. rewrite lookup_insert_ne; [done|congruence].
    + by rewrite lookup_insert_ne.
Qed.

Lemma foldl_position_at rows kp : (∀ r, r ∈ rows → whole r) → NoDup (omap spot rows) → ∀ m,
  at_pos (foldl add_position m rows) kp = match List.find (λ r, bool_decide (spot r = Some kp)) rows with Some r => Some r | None => at_pos m kp end.
Proof.
  induction rows as [|r rows IH]; intros Hw Hnd m; cbn; [done|].
  assert (Hwr : whole r) by apply Hw, list_elem_of_here.
  assert (Hws : ∀ x, x ∈ rows → whole x) by (intros x Hx; by apply Hw, list_elem_of_further).
  assert (Hnd' : NoDup (omap spot rows)) by (cbn in Hnd; destruct (spot r); [by apply list.NoDup_cons in Hnd as [_ ?]|done]).
  rewrite (IH Hws Hnd'), add_position_at by done. case_bool_decide as Hs; [|done].
  destruct (List.find _ _) as [x|] eqn:Hf; [|done]. exfalso. apply List.find_some in Hf as [Hx%list_elem_of_In Hxs%bool_decide_eq_true].
  cbn in Hnd. rewrite Hs in Hnd. apply list.NoDup_cons in Hnd as [Hn _]. apply Hn, elem_of_spots. by exists x.
Qed.

Lemma NoDup_omap_inj {A B} (f : A → option B) l x y b : NoDup (omap f l) → x ∈ l → y ∈ l → f x = Some b → f y = Some b → x = y.
Proof.
  induction l as [|z l IH]; cbn; intros Hnd Hx Hy Fx Fy; [by apply not_elem_of_nil in Hx|].
  apply list.elem_of_cons in Hx, Hy. assert (Hnd' : NoDup (omap f l)) by (destruct (f z); [by apply list.NoDup_cons in Hnd as [_ ?]|done]).
  assert (Hout : ∀ w, w ∈ l → f w = Some b → f z ≠ Some b).
  { intros w Hw Fw Fz. rewrite Fz in Hnd. apply list.NoDup_cons in Hnd as [Hn _]. apply Hn, list_elem_of_omap. by exists w. }
  destruct Hx as [->|Hx], Hy as [->|Hy]; [done| | |by apply IH]; exfalso; by eapply Hout.
Qed.

Section Positions.
Context (rows : list SeatAdjacencyRow).
Hypothesis Hw : ∀ r, r ∈ rows → whole r.
Hypothesis Hnd : NoDup (omap spot rows).

Lemma byRowPos_at kp r : at_pos (byRowPos rows) kp = Some r ↔ r ∈ rows ∧ spot r = Some kp.
Proof.
  unfold byRowPos. rewrite foldl_position_at by done. replace (at_pos ∅ kp) with (@None SeatAdjacencyRow).
  2: { unfold at_pos. by rewrite lookup_empty. }
  destruct (List.find _ _) as [x|] eqn:Hf.
  - apply List.find_some in Hf as [Hx%list_elem_of_In Hxs%bool_decide_eq_true]. split; [by intros [= <-]|].
    intros [Hr Hs]. f_equal. by eapply (NoDup_omap_inj spot rows).
  - split; [done|]. intros [Hr%list_elem_of_In Hs]. pose proof (List.find_none _ _ Hf r Hr) as H. cbn in H. zbool. done.
Qed.
End Positions.

Lemma dense_dom {A} (m : gmap Z A) : (∀ i, 1 ≤ i ≤ Z.of_nat (size m) → is_Some (m !! i)) →
  ∀ p, is_Some (m !! p) → 1 ≤ p ≤ Z.of_nat (size m).
Proof.
  intros Hall p Hp. set (l := map Z.of_nat (List.seq 1 (size m))).
  assert (Hl : ∀ i, i ∈ l ↔ 1 ≤ i ≤ Z.of_nat (size m)).
  { intros i. unfold l. rewrite list_elem_of_In, in_map_iff. setoid_rewrite in_seq. split; [intros (x & <- & ?); lia|].
    intros Hi. exists (Z.to_nat i). lia. }
  assert (Hdup : NoDup l).
  { apply base.NoDup_ListNoDup. apply Finite.Injective_map_NoDup; [intros x y; lia|apply seq_NoDup]. }
  assert (Heq : list_to_set (C := gset Z) l ≡ dom m).
  { apply set_subseteq_size_equiv.
    - intros i Hi%elem_of_list_to_set%Hl. apply elem_of_dom. by apply Hall.
    - rewrite size_list_to_set by done. unfold l. rewrite length_map, length_seq, size_dom. lia. }
  apply Hl. apply elem_of_dom in Hp. rewrite <-Heq in Hp. by apply elem_of_list_to_set in Hp.
Qed.

(** ** What is accepted is valid *)

Lemma omap_full {A B} (f : A → option B) l : length (omap f l) = length l → ∀ x, x ∈ l → is_Some (f x).
Proof.
  assert (Hle : ∀ l, (length (omap f l) <= length l)%nat) by (intros k; induction k as [|y k IH]; cbn; [lia|destruct (f y); cbn; lia]).
  induction l as [|y l IH]; cbn; intros Hlen x Hx; [by apply not_elem_of_nil in Hx|]. specialize (Hle l).
  destruct (f y) eqn:Hy; cbn in Hlen; [|lia]. apply list.elem_of_cons in Hx as [-> |Hx]; [by rewrite Hy|]. apply IH; [lia|done].
Qed.

Lemma omap_empty {A B} (f : A → option B) l : omap f l = [] → ∀ x, x ∈ l → f x = None.
Proof.
  induction l as [|y l IH]; cbn; intros Hnil x Hx; [by apply not_elem_of_nil in Hx|].
  destruct (f y) eqn:Hy; [done|]. apply list.elem_of_cons in Hx as [-> |Hx]; [done|by apply IH].
Qed.

Lemma byID_elem rows id o : byID rows !! id = Some o → o ∈ rows ∧ sj_SeatIdentity o = id.
Proof.
  unfold byID. assert (Hg : ∀ l (m : gmap string SeatAdjacencyRow), foldl (λ m r, <[sj_SeatIdentity r := r]> m) m l !! id = Some o →
    (o ∈ l ∧ sj_SeatIdentity o = id) ∨ m !! id = Some o).
  { induction l as [|r l IH]; cbn; intros m H; [by right|]. destruct (IH _ H) as [[Hin Hid]|Hm].
    - left. split; [by apply list_elem_of_further|done].
    - destruct (decide (sj_SeatIdentity r = id)) as [Hr|Hr].
      + rewrite Hr, lookup_insert_eq in Hm. injection Hm as <-. left. split; [apply list_elem_of_here|done].
      + rewrite lookup_insert_ne in Hm by done. by right. }
  intros [?|H]%Hg; [done|]. by rewrite lookup_empty in H.
Qed.

Lemma names_edges o id : names o id = true ↔ id ∈ edges o.
Proof.
  unfold names, edges. rewrite orb_true_iff, !bool_decide_eq_true, elem_of_app.
  destruct (sj_Left o), (sj_Right o); cbn; rewrite ?list_elem_of_singleton; split; intros [H|H];
    try (by apply not_elem_of_nil in H); naive_solver.
Qed.

Lemma elem_of_edges r e : e ∈ edges r ↔ sj_Left r = Some e ∨ sj_Right r = Some e.
Proof. rewrite <-names_edges. unfold names. by rewrite orb_true_iff, !bool_decide_eq_true. Qed.

Lemma beside_iff m e p : beside m e p = true → ∀ x, e = Some x ↔ ∃ o, m !! p = Some o ∧ sj_SeatIdentity o = x.
Proof.
  unfold beside. intros H x. destruct (m !! p) as [o|], e as [y|]; try done; [|naive_solver].
  zbool. subst. split; [intros [= <-]; by exists o|]. intros (o' & [= <-] & <-). done.
Qed.

Section Accepted.
Context (rows : list SeatAdjacencyRow) (st : OrderState).
Hypothesis Hinv : OrderInv rows st.
Hypothesis Hall : os_ordered st = length rows.
Hypothesis Hfits : forallb (λ p, row_fits p.2) (map_to_list (byRowPos rows)) = true.

Lemma accepted_placed r : r ∈ rows → ∃ k p n, place r = Some (k, p, n) ∧ 0 < p ∧ 0 < n ∧ TrimSpace k ≠ ""%string.
Proof.
  intros Hr. destruct (oi_shape _ _ Hinv r Hr) as [Hu|H]; [|done]. exfalso.
  destruct (omap_full place rows) with (x := r) as [x Hx]; [by rewrite <-(oi_count _ _ Hinv)|done|].
  by rewrite (proj1 (unplaced_place r Hu)) in Hx.
Qed.

Lemma accepted_whole r : r ∈ rows → whole r.
Proof. intros (k & p & n & H & _)%accepted_placed. right. by exists k, p, n. Qed.

(** The seats of a row by position, every one of them where its edges say. *)
Lemma accepted_row r k p : r ∈ rows → spot r = Some (k, p) → ∃ seats,
  (∀ q o, seats !! q = Some o ↔ o ∈ rows ∧ spot o = Some (k, q)) ∧ p ≤ Z.of_nat (size seats) ∧
  ∀ q, 1 ≤ q ≤ Z.of_nat (size seats) → seat_fits seats q = true.
Proof.
  intros Hr Hs. pose proof (byRowPos_at rows accepted_whole (oi_spots _ _ Hinv)) as Hat.
  destruct (byRowPos rows !! k) as [seats|] eqn:Hk.
  2: { pose proof (proj2 (Hat (k, p) r) (conj Hr Hs)) as H. unfold at_pos in H. cbn in H. rewrite Hk in H. cbn in H. by rewrite lookup_empty in H. }
  assert (Hseats : ∀ q o, seats !! q = Some o ↔ o ∈ rows ∧ spot o = Some (k, q)).
  { intros q o. rewrite <-(Hat (k, q) o). unfold at_pos. cbn. by rewrite Hk. }
  assert (Hfit : ∀ q, 1 ≤ q ≤ Z.of_nat (size seats) → seat_fits seats q = true).
  { intros q Hq. rewrite forallb_forall in Hfits. specialize (Hfits (k, seats)). cbn in Hfits.
    unfold row_fits in Hfits. rewrite forallb_forall in Hfits. apply Hfits; [by apply list_elem_of_In, elem_of_map_to_list|].
    apply in_map_iff. exists (Z.to_nat q). rewrite in_seq. lia. }
  exists seats. split_and!; [done| |done]. apply (dense_dom seats).
  - intros i Hi. specialize (Hfit i Hi). unfold seat_fits in Hfit. destruct (seats !! i); [by eexists|done].
  - exists r. by apply Hseats.
Qed.

Lemma accepted_edges r k p : r ∈ rows → spot r = Some (k, p) →
  (∀ e, sj_Left r = Some e ↔ ∃ o, o ∈ rows ∧ spot o = Some (k, p - 1) ∧ sj_SeatIdentity o = e) ∧
  (∀ e, sj_Right r = Some e ↔ ∃ o, o ∈ rows ∧ spot o = Some (k, p + 1) ∧ sj_SeatIdentity o = e).
Proof.
  intros Hr Hs. destruct (accepted_row r k p Hr Hs) as (seats & Hseats & Hp & Hfit).
  assert (1 ≤ p) as Hp1.
  { destruct (accepted_placed r Hr) as (k' & p' & n & Hpl & ? & _). apply place_spot in Hpl. rewrite Hs in Hpl. injection Hpl as <- <-. lia. }
  specialize (Hfit p (conj Hp1 Hp)). unfold seat_fits in Hfit. rewrite (proj2 (Hseats p r) (conj Hr Hs)) in Hfit.
  apply andb_prop in Hfit as [Hl Hrr]. split; intros e.
  - rewrite (beside_iff _ _ _ Hl). setoid_rewrite Hseats. naive_solver.
  - rewrite (beside_iff _ _ _ Hrr). setoid_rewrite Hseats. naive_solver.
Qed.

Lemma accepted_ordered : Ordered rows.
Proof.
  split.
  - apply accepted_placed.
  - intros r o kp Hr Ho. apply (NoDup_omap_inj spot rows); [apply Hinv|done..].
  - intros r o k p q n m Hr Ho Hpr Hpo. pose proof (proj2 (oi_rank _ _ Hinv k n) (ex_intro _ r (ex_intro _ p (conj Hr Hpr)))).
    pose proof (proj2 (oi_rank _ _ Hinv k m) (ex_intro _ o (ex_intro _ q (conj Ho Hpo)))). congruence.
  - intros r o j k p q n Hr Ho Hpr Hpo. pose proof (proj2 (oi_key _ _ Hinv j n) (ex_intro _ r (ex_intro _ p (conj Hr Hpr)))).
    pose proof (proj2 (oi_key _ _ Hinv k n) (ex_intro _ o (ex_intro _ q (conj Ho Hpo)))). congruence.
  - intros r k p q Hr Hs Hq. destruct (accepted_row r k p Hr Hs) as (seats & Hseats & Hp & Hfit).
    specialize (Hfit q). unfold seat_fits in Hfit. destruct (seats !! q) as [o|] eqn:Ho; [|exfalso; by specialize (Hfit ltac:(lia))].
    exists o. by apply Hseats.
  - intros r k p e Hr Hs. by apply accepted_edges.
  - intros r k p e Hr Hs. by apply accepted_edges.
Qed.
End Accepted.

Lemma validateAdjacencyOrder_Ok rows : validateAdjacencyOrder rows = Ok tt → (∀ r, r ∈ rows → unplaced r) ∨ Ordered rows.
Proof.
  unfold validateAdjacencyOrder. intros (st & Hst & H)%bind_Ok. apply (order_fold rows [] _ _ order_start_inv) in Hst. cbn [app] in Hst.
  destruct (Nat.eqb_spec (os_ordered st) 0) as [H0|H0]; cbn [negb andb] in H.
  - left. intros r Hr. destruct (oi_shape _ _ Hst r Hr) as [|(k & p & n & Hp & _)]; [done|]. exfalso.
    assert (omap place rows = []) as Hnil by (apply length_zero_iff_nil; rewrite <-(oi_count _ _ Hst); done).
    by rewrite (omap_empty _ _ Hnil r Hr) in Hp.
  - destruct (Nat.eqb_spec (os_ordered st) (length rows)) as [Hn|]; [|done]. cbn [negb] in H.
    destruct (forallb _ _) eqn:Hf; [|done]. right. by eapply accepted_ordered.
Qed.

Lemma validateAdjacency_Ok rows : validateAdjacency rows = Ok tt → Valid rows.
Proof.
  unfold validateAdjacency. destruct (forallb _ _) eqn:Hb; [|done]. intros H. split; [|by apply validateAdjacencyOrder_Ok].
  intros r e Hr He. rewrite forallb_forall in Hb. specialize (Hb r). unfold edges_back in Hb.
  rewrite forallb_forall in Hb. specialize (Hb (proj1 (list_elem_of_In _ _) Hr) e (proj1 (list_elem_of_In _ _) He)).
  destruct (byID rows !! e) as [o|] eqn:Ho; [|done]. apply byID_elem in Ho as [Ho Hid]. exists o. split_and!; [done|done|].
  by apply names_edges.
Qed.

(** ** What is valid is accepted *)

Lemma byID_complete rows r : NoDup (map sj_SeatIdentity rows) → r ∈ rows → byID rows !! sj_SeatIdentity r = Some r.
Proof.
  unfold byID. intros Hnd Hr. assert (Hg : ∀ l (m : gmap string SeatAdjacencyRow), NoDup (map sj_SeatIdentity l) → r ∈ l →
    foldl (λ m r, <[sj_SeatIdentity r := r]> m) m l !! sj_SeatIdentity r = Some r); [|by apply Hg].
  assert (Hk : ∀ l (m : gmap string SeatAdjacencyRow), sj_SeatIdentity r ∉ map sj_SeatIdentity l →
    foldl (λ m r, <[sj_SeatIdentity r := r]> m) m l !! sj_SeatIdentity r = m !! sj_SeatIdentity r).
  { induction l as [|x l IH]; cbn; intros m Hn; [done|]. apply not_elem_of_cons in Hn as [Hn1 Hn2]. rewrite IH by done. by apply lookup_insert_ne. }
  induction l as [|x l IH]; cbn; intros m Hl Hin; [by apply not_elem_of_nil in Hin|].
  apply list.NoDup_cons in Hl as [Hx Hl]. apply list.elem_of_cons in Hin as [->|Hin]; [rewrite Hk by done; apply lookup_insert_eq|by apply IH].
Qed.

(** A set of positive numbers without gaps below any of its members holds the
    numbers up to its size. *)
Lemma dense_size {A} (m : gmap Z A) : (∀ p, is_Some (m !! p) → 0 < p) → (∀ p q, is_Some (m !! p) → 1 ≤ q ≤ p → is_Some (m !! q)) →
  ∀ q, 1 ≤ q ≤ Z.of_nat (size m) → is_Some (m !! q).
Proof.
  intros Hpos Hdown q Hq. destruct (m !! q) eqn:Hn; [by eexists|]. exfalso.
  set (l := map Z.of_nat (List.seq 1 (Z.to_nat (q - 1)))).
  assert (Hsub : dom m ⊆ list_to_set (C := gset Z) l).
  { intros p Hp%elem_of_dom. apply elem_of_list_to_set. unfold l. apply list_elem_of_In, in_map_iff. exists (Z.to_nat p).
    pose proof (Hpos p Hp). rewrite in_seq. destruct (Z.le_gt_cases q p) as [Hle|]; [|lia].
    destruct (Hdown p q Hp) as [? Hs]; [lia|congruence]. }
  apply subseteq_size in Hsub. rewrite size_dom in Hsub.
  rewrite size_list_to_set in Hsub.
  2: { apply base.NoDup_ListNoDup. apply Finite.Injective_map_NoDup; [intros x y; lia|apply seq_NoDup]. }
  unfold l in *. rewrite length_map, length_seq in *. lia.
Qed.

Section Accepts.
Context (rows : list SeatAdjacencyRow).
Hypothesis Hids : NoDup (map sj_SeatIdentity rows).
Hypothesis Hord : Ordered rows.

Lemma ordered_step pre r st : OrderInv pre st → pre ++ [r] ⊆ rows → NoDup (pre ++ [r]) → is_ok (order_row st r) = true.
Proof.
  intros Hi Hsub Hnd. assert (Hr : r ∈ rows) by (apply Hsub, elem_of_snoc; by right).
  assert (Hpre : ∀ x, x ∈ pre → x ∈ rows) by (intros x Hx; apply Hsub, elem_of_snoc; by left).
  destruct (or_placed _ Hord r Hr) as (k & p & n & Hpl & Hp & Hn & Ht). unfold order_row.
  pose proof Hpl as Hpl'. unfold place in Hpl'. destruct (sj_RowKey r), (sj_Position r), (sj_RowRank r); try done. injection Hpl' as -> -> ->.
  rewrite bool_decide_false by done. destruct (Z.leb_spec p 0); [lia|]. destruct (Z.leb_spec n 0); [lia|]. cbn [orb].
  destruct (default ∅ (os_seen st !! k) !! p) eqn:Hs; cbn [is_None negb].
  { exfalso. assert ((k, p) ∈ omap spot pre) as (x & Hx & Hsx)%elem_of_spots by (apply (oi_seen _ _ Hi); by rewrite Hs).
    assert (x = r) as -> by (eapply (or_distinct _ Hord); [by apply Hpre|done|done|by eapply place_spot]).
    apply list.NoDup_app in Hnd as (_ & Hnd & _). apply (Hnd r Hx), list_elem_of_here. }
  destruct (os_rankOf st !! k) as [m|] eqn:Hk.
  - apply (oi_rank _ _ Hi) in Hk as (x & q & Hx & Hpx). assert (n = m) as -> by (eapply (or_rank _ Hord); [exact Hr|by apply Hpre|done..]).
    rewrite Z.eqb_refl. cbn [negb]. destruct (os_keyOf st !! m) as [j|] eqn:Hj; [|done].
    apply (oi_key _ _ Hi) in Hj as (y & q' & Hy & Hpy). assert (j = k) as -> by (eapply (or_key _ Hord); [by apply Hpre|exact Hr|done..]).
    by rewrite bool_decide_true.
  - destruct (os_keyOf st !! n) as [j|] eqn:Hj; [|done].
    apply (oi_key _ _ Hi) in Hj as (y & q' & Hy & Hpy). assert (j = k) as -> by (eapply (or_key _ Hord); [by apply Hpre|exact Hr|done..]).
    by rewrite bool_decide_true.
Qed.

Lemma ordered_fold l : ∀ pre st, pre ++ l ⊆ rows → NoDup (pre ++ l) → OrderInv pre st →
  ∃ st', fold_result order_row st l = Ok st' ∧ OrderInv (pre ++ l) st'.
Proof.
  induction l as [|r l IH]; cbn; intros pre st Hsub Hnd Hi; [exists st; by rewrite app_nil_r|].
  rewrite cons_middle, app_assoc in *. assert (Hok : is_ok (order_row st r) = true).
  { apply (ordered_step pre); [done| |].
    - intros x Hx. apply Hsub, elem_of_app. by left.
    - by apply list.NoDup_app in Hnd as (? & _). }
  destruct (order_row st r) as [st1|] eqn:H1; [|done]. apply IH; [done..|by eapply order_step].
Qed.

Lemma rows_unrepeated : NoDup rows.
Proof. by eapply NoDup_fmap_1. Qed.

Lemma spots_unrepeated l : NoDup l → l ⊆ rows → NoDup (omap spot l).
Proof.
  induction l as [|r l IH]; cbn; intros Hnd Hsub; [constructor|]. apply list.NoDup_cons in Hnd as [Hr Hnd].
  assert (Hl : l ⊆ rows) by (intros x Hx; by apply Hsub, list_elem_of_further). destruct (spot r) as [kp|] eqn:Hs; [|by apply IH].
  apply list.NoDup_cons. split; [|by apply IH]. intros (x & Hx & Hsx)%elem_of_spots.
  assert (r = x) as ->; [|done]. eapply (or_distinct _ Hord); [apply Hsub, list_elem_of_here|by apply Hl|done|done].
Qed.

Lemma ordered_whole r : r ∈ rows → whole r.
Proof. intros Hr. destruct (or_placed _ Hord r Hr) as (k & p & n & H & _). right. by exists k, p, n. Qed.

Lemma edge_beside (seats : gmap Z SeatAdjacencyRow) k e p : (∀ q o, seats !! q = Some o ↔ o ∈ rows ∧ spot o = Some (k, q)) →
  (∀ x, e = Some x ↔ ∃ o, o ∈ rows ∧ spot o = Some (k, p) ∧ sj_SeatIdentity o = x) → beside seats e p = true.
Proof.
  intros Hs He. unfold beside. destruct (seats !! p) as [o|] eqn:Ho.
  - apply Hs in Ho as [Ho1 Ho2]. rewrite (proj2 (He (sj_SeatIdentity o)) (ex_intro _ o (conj Ho1 (conj Ho2 eq_refl)))). by apply bool_decide_eq_true.
  - destruct e as [x|]; [|done]. destruct (proj1 (He x) eq_refl) as (o & Ho1 & Ho2 & _). by rewrite (proj2 (Hs p o) (conj Ho1 Ho2)) in Ho.
Qed.

Lemma ordered_fits : forallb (λ p, row_fits p.2) (map_to_list (byRowPos rows)) = true.
Proof.
  pose proof (byRowPos_at rows ordered_whole (spots_unrepeated rows rows_unrepeated (λ _ H, H))) as Hat.
  apply forallb_forall. intros [k seats] Hin%list_elem_of_In%elem_of_map_to_list. cbn.
  assert (Hseats : ∀ q o, seats !! q = Some o ↔ o ∈ rows ∧ spot o = Some (k, q)).
  { intros q o. rewrite <-(Hat (k, q) o). unfold at_pos. cbn. by rewrite Hin. }
  unfold row_fits. apply forallb_forall. intros q (i & <- & Hi%in_seq)%in_map_iff.
  destruct (dense_size seats) with (q := Z.of_nat i) as [r Hr]; [| |lia|].
  - intros p [o [Ho1 Ho2]%Hseats]. destruct (or_placed _ Hord o Ho1) as (k' & p' & n & Hpl & ? & _).
    apply place_spot in Hpl. rewrite Ho2 in Hpl. injection Hpl as <- <-. lia.
  - intros p q [o [Ho1 Ho2]%Hseats] Hq. destruct (or_dense _ Hord o k p q Ho1 Ho2 Hq) as (o' & ? & ?). exists o'. by apply Hseats.
  - unfold seat_fits. rewrite Hr. apply Hseats in Hr as [Hr1 Hr2].
    rewrite (edge_beside seats k) by (done || intros x; by apply (or_left _ Hord)).
    rewrite (edge_beside seats k) by (done || intros x; by apply (or_right _ Hord)). done.
Qed.

Lemma ordered_accepted : validateAdjacencyOrder rows = Ok tt.
Proof.
  unfold validateAdjacencyOrder. destruct (ordered_fold rows [] order_start) as (st & -> & Hi); [done|apply rows_unrepeated|apply order_start_inv|].
  cbn [mbind result_bind]. cbn [app] in Hi.
  assert (Hc : os_ordered st = length rows).
  { rewrite (oi_count _ _ Hi). assert (Hg : ∀ l, l ⊆ rows → length (omap place l) = length l); [|by apply Hg].
    induction l as [|r l IH]; cbn; intros Hsub; [done|]. destruct (or_placed _ Hord r) as (k & p & n & -> & _); [apply Hsub, list_elem_of_here|].
    cbn. rewrite IH; [done|]. intros x Hx. by apply Hsub, list_elem_of_further. }
  rewrite Hc, Nat.eqb_refl, andb_false_r, ordered_fits. by destruct (_ =? _)%nat.
Qed.
End Accepts.

(** The validation of rows that repeat no seat accepts the valid ones and no others. *)
Lemma validateAdjacency_iff rows : NoDup (map sj_SeatIdentity rows) → validateAdjacency rows = Ok tt ↔ Valid rows.
Proof.
  intros Hids. split; [apply validateAdjacency_Ok|]. intros [Hb Ho]. unfold validateAdjacency.
  replace (forallb _ _) with true.
  2: { symmetry. apply forallb_forall. intros r Hr%list_elem_of_In. apply forallb_forall. intros e He%list_elem_of_In.
       destruct (Hb r e Hr He) as (o & Ho1 & <- & Ho2). rewrite byID_complete by done. by apply names_edges. }
  destruct Ho as [Hu|Ho]; [|by apply ordered_accepted]. unfold validateAdjacencyOrder.
  replace (fold_result order_row order_start rows) with (Ok order_start : result InventoryError OrderState); [done|].
  clear Hb Hids. induction rows as [|r rows IH]; [done|]. cbn [fold_result].
  destruct (Hu r (list_elem_of_here _ _)) as (H1 & H2 & H3). unfold order_row at 1. rewrite H1, H2, H3. apply IH.
  intros x Hx. by apply Hu, list_elem_of_further.
Qed.
End SeatOrder.
