(* ===== verification/Projections.v ===== *)
(** * Stored projections

    Over any run whose projections list no seat twice, what a pool stores of its
    seats is what [validateAdjacency] accepts: a provisioning writes a projection
    into an empty pool or over one of the same geometry, and nothing else writes
    one. *)

From stdpp Require Import pretty.
From S2P Require Import Prelude Text Sha256 Format Tables Inventory Claims SeatMap SeatClaims InventoryMoves ClaimMoves SeatMoves InventorySafety ClaimLife Availability SeatSafety SeatReads SeatOrder.
#[local] Open Scope Z_scope.

Section Projections.
Context `{UU : UUID}.
Implicit Types (slot : uuid) (r a : SeatAdjacencyRow) (rows : list SeatAdjacencyRow) (db : InventoryDB).

Lemma elem_of_projection slot db r : r ∈ projection_of slot db ↔ ∃ s, in_adjacency db !! (slot, s) = Some r.
Proof.
  unfold projection_of. change (map snd ?l) with (snd <$> l). rewrite list_elem_of_fmap. split.
  - intros ([[p s] x] & -> & [Hin%elem_of_map_to_list Hp%bool_decide_eq_true]%elem_of_bool_filter). cbn in *. subst p. by exists s.
  - intros (s & Hs). exists ((slot, s), r). split; [done|]. apply elem_of_bool_filter.
    split; [by apply elem_of_map_to_list|by apply bool_decide_eq_true].
Qed.

(** What is stored for a pool is a list of rows. *)
Definition Stores slot db rows : Prop := ∀ s r, in_adjacency db !! (slot, s) = Some r ↔ r ∈ rows ∧ sj_SeatIdentity r = s.

Lemma stores_elem slot db rows : Stores slot db rows → ∀ r, r ∈ projection_of slot db ↔ r ∈ rows.
Proof. intros Hst r. rewrite elem_of_projection. setoid_rewrite (Hst _ r). naive_solver. Qed.

Lemma stores_lookup slot db rows r : Stores slot db rows → r ∈ projection_of slot db → in_adjacency db !! (slot, sj_SeatIdentity r) = Some r.
Proof. intros Hst Hr. apply Hst. split; [|done]. by apply (stores_elem slot db). Qed.

(** The seats of the table are listed once. *)
Lemma stored_NoDup slot db rows : Stores slot db rows → NoDup (map sj_SeatIdentity (projection_of slot db)).
Proof.
  intros Hst. assert (map sj_SeatIdentity (projection_of slot db) =
    map (λ p : uuid * string * SeatAdjacencyRow, p.1.2) (List.filter (λ p, bool_decide (p.1.1 = slot)) (map_to_list (in_adjacency db)))) as ->.
  { unfold projection_of. rewrite map_map. apply map_ext_in. intros [[p s] r] [Hin%list_elem_of_In Hp]%filter_In.
    apply elem_of_map_to_list in Hin. cbn in *. apply bool_decide_eq_true in Hp. subst p. by apply Hst in Hin as [_ ?]. }
  set (l := List.filter _ _).
  assert (Hl : NoDup (map fst l)) by (apply NoDup_map_filter, NoDup_fst_map_to_list).
  assert (Hslot : ∀ p, p ∈ l → p.1.1 = slot) by (intros p [_ H%bool_decide_eq_true]%elem_of_bool_filter; done).
  clearbody l. induction l as [|[[p s] r] l IH]; cbn in *; [constructor|]. apply list.NoDup_cons in Hl as [Hn Hl].
  apply list.NoDup_cons. split; [|apply IH; [done|]; intros q Hq; by apply Hslot, list_elem_of_further].
  intros Hs. apply Hn. change (map ?f l) with (f <$> l) in *. apply list_elem_of_fmap in Hs as ([[p' s'] r'] & -> & Hin).
  apply list_elem_of_fmap. exists ((p', s'), r'). split; [|done]. cbn. f_equal.
  pose proof (Hslot _ (list_elem_of_here _ _)) as E1. pose proof (Hslot _ (list_elem_of_further _ _ _ Hin)) as E2. cbn in *. congruence.
Qed.

(** ** The upserts *)

Lemma merged_absent slot db a : in_adjacency db !! (slot, sj_SeatIdentity a) = None → merged_row slot db a = a.
Proof. unfold merged_row. by intros ->. Qed.

Lemma merged_same slot db rows a : Stores slot db rows → same_geometry slot db a = true → merged_row slot db a = a.
Proof.
  unfold same_geometry, merged_row. intros Hst. destruct (in_adjacency db !! _) as [r|] eqn:Hr; [|done].
  apply Hst in Hr as [_ Hid]. intros [[Hl Hrr]%andb_prop _]%andb_prop. zbool. destruct a, r. cbn in *. congruence.
Qed.

Lemma upserts_stored slot rows : ∀ db db', NoDup (map sj_SeatIdentity rows) → (∀ a, a ∈ rows → merged_row slot db a = a) →
  fold_result (upsert_adjacency slot) db rows = Ok db' →
  ∀ k, in_adjacency db' !! k = match List.find (λ a, bool_decide (k = (slot, sj_SeatIdentity a))) rows with
    Some a => Some a | None => in_adjacency db !! k end.
Proof.
  induction rows as [|a rows IH]; cbn; intros db db' Hnd Hm; [by intros [= <-]|].
  apply list.NoDup_cons in Hnd as [Hnew Hnd]. intros (db1 & H1 & H2)%bind_Ok k.
  unfold upsert_adjacency in H1. destruct (_ && _); [|done]. injection H1 as <-.
  rewrite (Hm a) in H2 by apply list_elem_of_here. rewrite (IH (with_adjacency <[(slot, sj_SeatIdentity a) := a]> db) db' Hnd); [|clear H2|exact H2].
  - case_bool_decide as Hk.
    + destruct (List.find _ _) as [x|] eqn:Hf.
      * exfalso. apply List.find_some in Hf as [Hx Hxk%bool_decide_eq_true]. apply Hnew. change (map ?f rows) with (f <$> rows).
        apply list_elem_of_fmap. exists x. split; [congruence|by apply list_elem_of_In].
      * cbn. by rewrite Hk, lookup_insert_eq.
    + destruct (List.find _ _); [done|]. cbn. by rewrite lookup_insert_ne.
  - intros x Hx. pose proof (Hm x (list_elem_of_further _ _ _ Hx)) as Hmx. unfold merged_row in *. cbn.
    rewrite lookup_insert_ne; [done|]. intros [= E]. apply Hnew. rewrite E. change (map ?f rows) with (f <$> rows). by apply list_elem_of_fmap_2.
Qed.

(** The pool stores a list of rows that validates. *)
Definition Projected slot db : Prop :=
  ∃ rows, Stores slot db rows ∧ validateAdjacency rows = Ok tt ∧ NoDup (map sj_SeatIdentity rows).

Lemma projected_same slot db db' : in_adjacency db' = in_adjacency db → Projected slot db → Projected slot db'.
Proof. intros E (rows & Hst & H). exists rows. split; [|done]. intros s r. rewrite E. apply Hst. Qed.

Lemma upserts_elsewhere slot p rows : ∀ db db' s, p ≠ slot → fold_result (upsert_adjacency p) db rows = Ok db' →
  in_adjacency db' !! (slot, s) = in_adjacency db !! (slot, s).
Proof.
  induction rows as [|a rows IH]; cbn; intros db db' s Hne; [by intros [= <-]|]. intros (db1 & H1 & H2)%bind_Ok.
  unfold upsert_adjacency in H1. destruct (_ && _); [|done]. injection H1 as <-. rewrite (IH _ _ _ Hne H2). cbn.
  rewrite lookup_insert_ne; congruence.
Qed.

Lemma projected_upserts slot rows db db' : validateAdjacency rows = Ok tt → describes_stored slot rows db = true →
  NoDup (map sj_SeatIdentity rows) → fold_result (upsert_adjacency slot) db rows = Ok db' → Projected slot db → Projected slot db'.
Proof.
  intros Hv Hd Hnd Hf (old & Hst & Hvo & Hndo). unfold describes_stored in Hd.
  destruct (Nat.eqb_spec (length rows) 0) as [H0|H0].
  { destruct rows; [|done]. cbn in Hf. injection Hf as <-. by exists old. }
  assert (Hcase : (∀ s, in_adjacency db !! (slot, s) = None) ∨
    length (projection_of slot db) = length rows ∧ ∀ a, a ∈ rows → same_geometry slot db a = true).
  { destruct (Nat.eqb_spec (length (projection_of slot db)) 0) as [Hz|Hz]; cbn [orb] in Hd.
    - left. intros s. destruct (in_adjacency db !! (slot, s)) as [r|] eqn:Hr; [|done].
      assert (r ∈ projection_of slot db) as Hin by (apply elem_of_projection; by exists s).
      apply nil_length_inv in Hz. rewrite Hz in Hin. by apply not_elem_of_nil in Hin.
    - right. apply andb_prop in Hd as [Hl%Nat.eqb_eq Hg]. split; [done|]. rewrite forallb_forall in Hg.
      intros a Ha. by apply Hg, list_elem_of_In. }
  assert (Hm : ∀ a, a ∈ rows → merged_row slot db a = a).
  { intros a Ha. destruct Hcase as [Hn|[_ Hg]]; [by apply merged_absent|by eapply merged_same, Hg]. }
  exists rows. split_and!; [|done..]. intros s r. rewrite (upserts_stored slot rows db db' Hnd Hm Hf). split.
  - destruct (List.find _ _) as [a|] eqn:Hfind.
    + intros [= <-]. apply List.find_some in Hfind as [Ha%list_elem_of_In Hk%bool_decide_eq_true]. split; [done|congruence].
    + intros Hr. exfalso. destruct Hcase as [Hn|[Hl Hg]]; [by rewrite Hn in Hr|].
      assert (Hsub : map sj_SeatIdentity rows ⊆+ map sj_SeatIdentity (projection_of slot db)).
      { apply NoDup_submseteq; [done|]. intros x. change (map ?f ?l) with (f <$> l). rewrite !list_elem_of_fmap.
        intros (a & -> & Ha). specialize (Hg a Ha). unfold same_geometry in Hg.
        destruct (in_adjacency db !! _) as [b|] eqn:Hb; [|done]. exists b. split; [by apply Hst in Hb as [_ ?]|].
        apply elem_of_projection. by eexists. }
      apply submseteq_length_Permutation in Hsub; [|rewrite !length_map; lia].
      assert (s ∈ map sj_SeatIdentity (projection_of slot db)) as Hin.
      { change (map ?f ?l) with (f <$> l). apply list_elem_of_fmap. exists r. split; [by apply Hst in Hr as [_ ?]|].
        apply elem_of_projection. by exists s. }
      rewrite <-Hsub in Hin. change (map ?f ?l) with (f <$> l) in Hin. apply list_elem_of_fmap in Hin as (a & -> & Ha%list_elem_of_In).
      pose proof (List.find_none _ _ Hfind a Ha) as Hna. cbn in Hna. by rewrite bool_decide_true in Hna.
  - intros [Hr <-]. destruct (List.find _ _) as [a|] eqn:Hfind.
    + apply List.find_some in Hfind as [Ha%list_elem_of_In Hk%bool_decide_eq_true]. f_equal.
      injection Hk as Hk. apply list_elem_of_lookup in Hr as [i Hi], Ha as [j Hj].
      assert (i = j) as ->; [|congruence]. eapply NoDup_lookup; [exact Hnd|..];
        change (map ?f ?l) with (f <$> l); rewrite list_lookup_fmap, ?Hi, ?Hj; cbn; [done|by rewrite Hk].
    + pose proof (List.find_none _ _ Hfind r (proj1 (list_elem_of_In _ _) Hr)) as H. cbn in H. by rewrite bool_decide_true in H.
Qed.

Lemma move_projected lib ck db db' : repeats_seats lib = false → move lib ck db db' →
  (∀ slot, Projected slot db) → ∀ slot, Projected slot db'.
Proof.
  intros Hlib Hm Hall slot.
  destruct Hm as [db' _ _ Ha| | | | | | | | | | | | | | | | |d t db' Hrel _|t r seat db' _ _ Hins|p rows db' Hv Hd Hnd Hf];
    try (by apply (projected_same slot db)).
  - apply release_seats_Ok in Hrel as ->. by apply (projected_same slot db).
  - apply insert_seat_Ok in Hins as (_ & _ & _ & ->). by apply (projected_same slot db).
  - destruct (decide (p = slot)) as [->|Hne].
    + eapply projected_upserts; try done. by apply Hnd.
    + destruct (Hall slot) as (old & Hst & H). exists old. split; [|done]. intros s r.
      rewrite (upserts_elsewhere slot p rows db db' s Hne Hf). apply Hst.
Qed.

Definition unrepeated : Liberties := {| cuts_below := true; lowers_codes := true; repeats_seats := false |}.

Lemma run_projected ttl l : ∀ db, along well_formed ttl l db = true → along distinct_seats ttl l db = true → Sound db →
  (∀ slot, Projected slot db) → ∀ slot, Projected slot (run ttl l db).
Proof.
  intros db Hw Hd Hs. apply (run_any_order ttl distinct_seats unrepeated (λ db, ∀ slot, Projected slot db)); try done.
  - intros ck op d H1 H2. by rewrite H1 in H2.
  - intros ck d d' _. by apply move_projected.
Qed.

Lemma empty_projected slot : Projected slot empty_inventory.
Proof.
  exists []. split_and!; [|done|constructor]. intros s r. cbn. rewrite lookup_empty. split; [done|].
  intros [H _]. by apply not_elem_of_nil in H.
Qed.

Lemma projected_valid slot db : Projected slot db → Valid (projection_of slot db).
Proof.
  intros (rows & Hst & Hv%validateAdjacency_Ok & _). pose proof (stores_elem slot db rows Hst) as He.
  destruct Hv as [Hb Ho]. split; [|destruct Ho as [Hu|[P D R K N L Rt]]; [left|right; split]]; setoid_rewrite He; try done.
Qed.

(** C36 (type). What is stored of a pool's seats is well formed. Over any run whose
    projections list no seat twice: a pool stores each of its seats under its own
    name; every neighbour a seat names is stored and names it back; and either no
    seat has a place, or every seat has one, no two the same, the positions of a
    row run from 1 without a gap, a row has one rank and a rank one row, and the
    neighbours of a seat are the seats at the positions beside it and no others. *)
Theorem stored_projection_is_well_formed ttl l slot :
  along well_formed ttl l empty_inventory = true → along distinct_seats ttl l empty_inventory = true →
  let db := run ttl l empty_inventory in
  Valid (projection_of slot db) ∧
  ∀ s r, in_adjacency db !! (slot, s) = Some r → sj_SeatIdentity r = s ∧ r ∈ projection_of slot db.
Proof.
  intros Hw Hd db. assert (Hp : Projected slot db) by (apply run_projected; [done..|apply empty_sound|apply empty_projected]).
  split; [by apply projected_valid|]. destruct Hp as (rows & Hst & _). intros s r Hr. split; [by apply Hst in Hr as [_ ?]|].
  apply elem_of_projection. by exists s.
Qed.
End Projections.

#[local] Existing Instance text_uuid.

Lemma stored_projection_is_well_formed_witness :
  in_adjacency (seat_db 6) !! (slot, "A2"%string) = Some (row_seat 2) ∧
  Valid (projection_of slot (seat_db 6)) ∧
  ∀ s r, in_adjacency (seat_db 6) !! (slot, s) = Some r → sj_SeatIdentity r = s ∧ r ∈ projection_of slot (seat_db 6).
Proof.
  assert (H1 : along well_formed 100 seat_day empty_inventory = true) by (vm_compute; reflexivity).
  assert (H2 : along distinct_seats 100 seat_day empty_inventory = true) by (vm_compute; reflexivity).
  assert (H3 : in_adjacency (seat_db 6) !! (slot, "A2"%string) = Some (row_seat 2)) by (vm_compute; reflexivity).
  exact (conj H3 (stored_projection_is_well_formed 100 seat_day slot H1 H2)).
Defined.

(** A projection that lists a seat twice validates, and is stored as one that
    does not: the seat keeps the edges it was first listed with and takes the
    place it was last listed at, so its neighbour is not named back. *)
Definition twice_listed : list SeatAdjacencyRow :=
  let seat s l r k p n := {| sj_SeatIdentity := s; sj_Left := l; sj_Right := r; sj_RowKey := Some k; sj_Position := Some p; sj_RowRank := Some n |} in
  [seat "S" None None "B" 1 2; seat "S" None (Some "T") "A" 1 1; seat "T" (Some "S") None "A" 2 1]%string.

Definition twice_db : InventoryDB :=
  run 100 [(at_time 0, OpProvisionSeated "e1" "slot" "org" "map" 3 true twice_listed)]%string empty_inventory.

Example repeated_seat_is_stored_invalid :
  validateAdjacency twice_listed = Ok tt ∧ length (projection_of slot twice_db) = 2%nat ∧
  forallb (edges_back (byID (projection_of slot twice_db))) (projection_of slot twice_db) = false ∧
  orphanedSeats 10 slot ["T"%string] twice_db = Err ErrSeatProjectionIncomplete.
Proof. repeat split; vm_compute; reflexivity. Qed.
