(* ===== verification/BestSeats.v ===== *)
(** * The best available seats

    The query of [bestAvailableRun] finds runs as islands of equal position less
    row number. Over a valid projection that is the plain search of
    [firstLegalRun]: the first seat of the scan from which enough free seats
    follow one another, such that the run leaves no free seat beside it alone. *)

From stdpp Require Import pretty.
From S2P Require Import Prelude Text Sha256 Format Tables Inventory Claims SeatMap SeatClaims InventoryMoves ClaimMoves SeatMoves InventorySafety ClaimLife Availability SeatSafety SeatReads SeatOrder Projections.
#[local] Open Scope Z_scope.

#[export] Instance PlacedSeat_eq_dec : EqDecision PlacedSeat.
Proof. solve_decision. Defined.

Section Islands.
Implicit Types (a b x : PlacedSeat) (free : list PlacedSeat).

(** ** Positions *)

Definition zrange (lo : Z) (n : nat) : list Z := map (λ i, lo + Z.of_nat i) (List.seq 0 n).

Lemma elem_of_zrange lo n i : i ∈ zrange lo n ↔ lo ≤ i < lo + Z.of_nat n.
Proof.
  unfold zrange. rewrite list_elem_of_In, in_map_iff. setoid_rewrite in_seq. split; [intros (x & <- & ?); lia|].
  intros Hi. exists (Z.to_nat (i - lo)). lia.
Qed.

Lemma zrange_NoDup lo n : NoDup (zrange lo n).
Proof. apply base.NoDup_ListNoDup, Finite.Injective_map_NoDup; [intros x y; lia|apply seq_NoDup]. Qed.

Lemma zrange_length lo n : length (zrange lo n) = n.
Proof. unfold zrange. by rewrite length_map, length_seq. Qed.

(** Distinct positions fill a range exactly when there are as many as it has. *)
Lemma distinct_fill (l : list Z) lo n : NoDup l → (∀ i, i ∈ l → lo ≤ i < lo + Z.of_nat n) →
  (length l <= n)%nat ∧ (length l = n ↔ ∀ i, lo ≤ i < lo + Z.of_nat n → i ∈ l).
Proof.
  intros Hnd Hin. assert (Hsub : l ⊆+ zrange lo n) by (apply NoDup_submseteq; [done|]; intros i Hi; by apply elem_of_zrange, Hin).
  pose proof (submseteq_length _ _ Hsub) as Hlen. rewrite zrange_length in Hlen. split; [done|]. split.
  - intros Heq i Hi. apply submseteq_length_Permutation in Hsub; [|rewrite zrange_length; lia]. rewrite Hsub. by apply elem_of_zrange.
  - intros Hall. assert (Hsup : zrange lo n ⊆+ l).
    { apply NoDup_submseteq; [apply zrange_NoDup|]. intros i Hi%elem_of_zrange. by apply Hall. }
    apply submseteq_length in Hsup. rewrite zrange_length in Hsup. lia.
Qed.

Lemma same_row_iff a b : same_row a b = true ↔ ps_Row a = ps_Row b.
Proof. unfold same_row. apply bool_decide_eq_true. Qed.

(** The seat of a row at a position. *)
Definition seat_at free a (i : Z) : option PlacedSeat := List.find (λ x, same_row a x && (ps_Position x =? i)) free.

(** The seats at the [n] positions from that of [a]. *)
Definition run_from free a (n : nat) : option (list PlacedSeat) := mapM (seat_at free a) (zrange (ps_Position a) n).

Lemma seat_at_Some free a i x : seat_at free a i = Some x → x ∈ free ∧ ps_Row x = ps_Row a ∧ ps_Position x = i.
Proof.
  intros [Hx H]%List.find_some. apply andb_prop in H as [Hr Hp]. apply same_row_iff in Hr. zbool.
  split; [by apply list_elem_of_In|by split].
Qed.

Lemma seat_at_None free a i : seat_at free a i = None → ∀ x, x ∈ free → ps_Row x = ps_Row a → ps_Position x ≠ i.
Proof.
  intros H x Hx%list_elem_of_In Hr Hp. pose proof (List.find_none _ _ H x Hx) as Hn. cbn in Hn.
  rewrite (proj2 (same_row_iff a x) (eq_sym Hr)) in Hn. cbn in Hn. by apply Z.eqb_neq in Hn.
Qed.

Section Free.
Context (free : list PlacedSeat).
Hypothesis Hnd : NoDup free.
Hypothesis Huniq : ∀ a b, a ∈ free → b ∈ free → ps_Row a = ps_Row b → ps_Position a = ps_Position b → a = b.

Lemma seat_at_spec a x i : seat_at free a i = Some x ↔ x ∈ free ∧ ps_Row x = ps_Row a ∧ ps_Position x = i.
Proof.
  split; [apply seat_at_Some|]. intros (Hx & Hr & Hp). destruct (seat_at free a i) as [y|] eqn:E.
  - apply seat_at_Some in E as (Hy & Hyr & Hyp). f_equal. apply Huniq; congruence.
  - by destruct (seat_at_None _ _ _ E x Hx Hr Hp).
Qed.

(** Positions of distinct seats of one row are distinct. *)
Lemma positions_NoDup a (f : PlacedSeat → bool) : (∀ x, f x = true → ps_Row x = ps_Row a) →
  NoDup (map ps_Position (List.filter f free)).
Proof.
  intros Hf. assert (Hg : ∀ l, NoDup l → (∀ x, x ∈ l → x ∈ free) → NoDup (map ps_Position (List.filter f l))).
  { induction l as [|x l IH]; cbn; intros Hl Hsub; [constructor|]. apply list.NoDup_cons in Hl as [Hn Hl].
    assert (Hs : ∀ y, y ∈ l → y ∈ free) by (intros y Hy; by apply Hsub, list_elem_of_further).
    destruct (f x) eqn:Hx; [|by apply IH]. cbn. apply list.NoDup_cons. split; [|by apply IH].
    change (map ?g ?k) with (g <$> k). intros (y & Hp & [Hy Hfy]%elem_of_bool_filter)%list_elem_of_fmap. apply Hn.
    assert (x = y) as ->; [|done]. apply Huniq; [apply Hsub, list_elem_of_here|by apply Hs| |done]. by rewrite (Hf x Hx), (Hf y Hfy). }
  by apply Hg.
Qed.

Definition between a (lo hi : Z) x : bool := same_row a x && (lo <=? ps_Position x) && (ps_Position x <? hi).

Lemma between_row a lo hi x : between a lo hi x = true → ps_Row x = ps_Row a.
Proof. unfold between, same_row. intros H. zbool. done. Qed.

Lemma between_fill a lo (n : nat) :
  (length (List.filter (between a lo (lo + Z.of_nat n)) free) <= n)%nat ∧
  (length (List.filter (between a lo (lo + Z.of_nat n)) free) = n ↔
   ∀ i, lo ≤ i < lo + Z.of_nat n → is_Some (seat_at free a i)).
Proof.
  set (l := List.filter _ free). rewrite <-(length_map ps_Position l).
  destruct (distinct_fill (map ps_Position l) lo n) as [Hle Hiff].
  - by apply (positions_NoDup a), between_row.
  - change (map ?g ?k) with (g <$> k). intros i (x & -> & [_ Hb]%elem_of_bool_filter)%list_elem_of_fmap. unfold between in Hb. zbool. lia.
  - split; [done|]. rewrite Hiff. change (map ?g ?k) with (g <$> k). split; intros Hall i Hi.
    + specialize (Hall i Hi). apply list_elem_of_fmap in Hall as (x & -> & [Hx Hb]%elem_of_bool_filter). exists x.
      apply seat_at_spec. split_and!; [done|by eapply between_row|done].
    + destruct (Hall i Hi) as [x (Hx & Hr & <-)%seat_at_spec]. apply list_elem_of_fmap. exists x. split; [done|].
      apply elem_of_bool_filter. split; [done|]. unfold between. rewrite (proj2 (same_row_iff a x) (eq_sym Hr)).
      cbn. apply andb_true_intro. split; [apply Z.leb_le|apply Z.ltb_lt]; lia.
Qed.

(** ** Islands *)

Lemma filter_split {A} (f g h : A → bool) (l : list A) : (∀ y : A, f y = g y || h y) → (∀ y : A, g y && h y = false) →
  length (List.filter f l) = (length (List.filter g l) + length (List.filter h l))%nat.
Proof.
  intros Hf Hd. induction l as [|y l IH]; cbn; [done|]. specialize (Hf y). specialize (Hd y).
  destruct (f y), (g y), (h y); cbn in *; try done; lia.
Qed.

Lemma row_number_step a b : ps_Row b = ps_Row a → ps_Position a ≤ ps_Position b →
  row_number free b = row_number free a + Z.of_nat (length (List.filter (between a (ps_Position a) (ps_Position b)) free)).
Proof.
  intros Hr Hp. unfold row_number.
  rewrite (filter_split (λ x, same_row b x && (ps_Position x <? ps_Position b)) (λ x, same_row a x && (ps_Position x <? ps_Position a))
    (between a (ps_Position a) (ps_Position b)) free); [lia|..]; intros x; unfold between, same_row; rewrite ?Hr;
    destruct (bool_decide _); cbn; try done;
    destruct (Z.ltb_spec (ps_Position x) (ps_Position b)), (Z.ltb_spec (ps_Position x) (ps_Position a)), (Z.leb_spec (ps_Position a) (ps_Position x));
    cbn; try done; lia.
Qed.

(** One island: the positions between are filled. *)
Lemma island_filled a b : ps_Row b = ps_Row a → ps_Position a ≤ ps_Position b →
  island free b = island free a ↔ ∀ i, ps_Position a ≤ i < ps_Position b → is_Some (seat_at free a i).
Proof.
  intros Hr Hp. unfold island. rewrite (row_number_step a b Hr Hp).
  destruct (between_fill a (ps_Position a) (Z.to_nat (ps_Position b - ps_Position a))) as [_ Hiff].
  rewrite Z2Nat.id in Hiff by lia. replace (ps_Position a + (ps_Position b - ps_Position a)) with (ps_Position b) in Hiff by lia.
  rewrite <-Hiff. lia.
Qed.

Lemma run_is_Some a n : is_Some (run_from free a n) ↔ ∀ i, ps_Position a ≤ i < ps_Position a + Z.of_nat n → is_Some (seat_at free a i).
Proof.
  unfold run_from. rewrite mapM_is_Some. rewrite list.Forall_forall. setoid_rewrite elem_of_zrange. done.
Qed.

Lemma run_positions a n w : run_from free a n = Some w → map ps_Position w = zrange (ps_Position a) n.
Proof.
  unfold run_from. rewrite mapM_Some. induction 1 as [|i x l k H _ IH]; cbn; [done|].
  apply seat_at_Some in H as (_ & _ & ->). by rewrite IH.
Qed.

Lemma run_elem a n w x : run_from free a n = Some w →
  x ∈ w ↔ x ∈ free ∧ ps_Row x = ps_Row a ∧ ps_Position a ≤ ps_Position x < ps_Position a + Z.of_nat n.
Proof.
  intros Hw. split.
  - intros Hx. assert (ps_Position x ∈ zrange (ps_Position a) n) as Hp.
    { rewrite <-(run_positions a n w Hw). change (map ?g ?k) with (g <$> k). by apply list_elem_of_fmap_2. }
    apply elem_of_zrange in Hp. unfold run_from in Hw. rewrite mapM_Some in Hw.
    apply list_elem_of_lookup in Hx as [i Hi]. destruct (Forall2_lookup_r _ _ _ _ _ Hw Hi) as (z & _ & Hz).
    by apply seat_at_Some in Hz as (? & ? & _).
  - intros (Hx & Hr & Hp). apply elem_of_zrange, list_elem_of_lookup in Hp as [i Hi].
    unfold run_from in Hw. rewrite mapM_Some in Hw. destruct (Forall2_lookup_l _ _ _ _ _ Hw Hi) as (y & Hy & Hz).
    assert (y = x) as ->; [|by eapply list_elem_of_lookup_2].
    apply seat_at_Some in Hz as (Hyf & Hyr & Hyp). apply Huniq; congruence.
Qed.

Lemma sorted_positions (w : list PlacedSeat) lo n : map ps_Position w = zrange lo n → StronglySorted (not_after (on_key ps_Position Z.ltb)) w.
Proof.
  assert (Hz : ∀ m k, StronglySorted (λ i j, Z.ltb j i = false) (map (λ i, lo + Z.of_nat i) (List.seq k m))).
  { induction m as [|m IH]; intros k; cbn; constructor; [apply IH|]. apply List.Forall_forall.
    intros z (j & <- & Hj%in_seq)%in_map_iff. apply Z.ltb_ge. lia. }
  specialize (Hz n 0%nat). fold (zrange lo n) in Hz. intros E. rewrite <-E in Hz. clear E.
  induction w as [|x w IH]; cbn in *; constructor; inversion Hz as [|? ? Hs Hall]; subst; [by apply IH|].
  rewrite List.Forall_forall in *. intros y Hy. unfold not_after, on_key. apply Hall. by apply in_map.
Qed.

(** The window of the query that has its length is the run, and there is one
    exactly where the run is. *)
Lemma in_window_row n a x : in_window free n a x = true → ps_Row x = ps_Row a ∧ ps_Position a ≤ ps_Position x < ps_Position a + n.
Proof. unfold in_window, same_row. intros H. zbool. split; [done|lia]. Qed.

Lemma window_of_run a n w : a ∈ free → run_from free a n = Some w → window free (Z.of_nat n) a = w.
Proof.
  intros Ha Hw. unfold window. apply (isort_unique (on_key ps_Position Z.ltb)); [| |by eapply sorted_positions, run_positions].
  - intros x y [Hx [Hxr _]%in_window_row]%elem_of_bool_filter [Hy [Hyr _]%in_window_row]%elem_of_bool_filter H1 H2.
    unfold on_key in *. zbool. apply Huniq; [done|done|congruence|lia].
  - apply NoDup_Permutation.
    + by apply base.NoDup_ListNoDup, List.NoDup_filter, base.NoDup_ListNoDup.
    + apply (NoDup_fmap_1 ps_Position). change (ps_Position <$> w) with (map ps_Position w). rewrite (run_positions a n w Hw). apply zrange_NoDup.
    + intros x. rewrite (run_elem a n w x Hw), elem_of_bool_filter. split.
      * intros [Hx [Hr Hp]%in_window_row]. done.
      * intros (Hx & Hr & Hp). split; [done|]. unfold in_window. rewrite (proj2 (same_row_iff a x) (eq_sym Hr)). cbn.
        assert (island free x = island free a) as ->.
        { apply island_filled; [done|lia|]. intros i Hi. apply (proj1 (run_is_Some a n)); [by exists w|lia]. }
        rewrite Z.eqb_refl. cbn. apply andb_true_intro. split; [apply Z.leb_le|apply Z.ltb_lt]; lia.
Qed.

Lemma run_of_window a n : a ∈ free → length (window free (Z.of_nat n) a) = n → is_Some (run_from free a n).
Proof.
  intros Ha Hlen. apply run_is_Some. set (l := List.filter (in_window free (Z.of_nat n) a) free).
  assert (Hl : length (map ps_Position l) = n).
  { rewrite length_map. unfold window in Hlen. fold l in Hlen. by rewrite (Permutation_length (isort_perm _ l)) in Hlen. }
  destruct (distinct_fill (map ps_Position l) (ps_Position a) n) as [_ Hfill].
  3: { intros i Hi. apply (proj1 Hfill Hl) in Hi. change (map ?g ?k) with (g <$> k) in Hi. apply list_elem_of_fmap in Hi as (x & -> & [Hx [Hr _]%in_window_row]%elem_of_bool_filter).
    exists x. by apply seat_at_spec. }
  - apply (positions_NoDup a). intros x Hx. by apply in_window_row in Hx as [? _].
  - change (map ?g ?k) with (g <$> k). intros i (x & -> & [_ Hx%in_window_row]%elem_of_bool_filter)%list_elem_of_fmap. apply Hx.
Qed.
End Free.
End Islands.

Section BestSeats.
Context `{UU : UUID}.
Implicit Types (slot : uuid) (db : InventoryDB) (a b x : PlacedSeat).

(** ** The plain search *)

(** The free seat at [i] has no free seat at [j] beside it. *)
Definition alone (everyone : list PlacedSeat) a (i j : Z) : bool :=
  negb (is_None (seat_at everyone a i)) && is_None (seat_at everyone a j).

Definition leaves_alone (everyone : list PlacedSeat) a (n : nat) : bool :=
  let p := ps_Position a in let q := p + Z.of_nat n in
  alone everyone a (p - 1) (p - 2) || alone everyone a q (q + 1).

Definition startable (on : bool) (free everyone : list PlacedSeat) (n : nat) a : bool :=
  negb (is_None (run_from free a n)) && (negb on || negb (leaves_alone everyone a n)).

Definition firstLegalRun (now : time) (scan : nat) slot (on : bool) (n : nat) db : option (list string) :=
  let free := free_of now slot db (ordered_seats scan slot db) in
  let everyone := free_of now slot db (placed_seats slot db) in
  a ← List.find (startable on free everyone n) free;
  map ps_Seat <$> run_from free a n.

(** ** Placed seats of a valid projection *)

Lemma placed_place r a : placed r = Some a ↔
  place r = Some (ps_Row a, ps_Position a, ps_Rank a) ∧ ps_Seat a = sj_SeatIdentity r ∧
  ps_Edges a = negb (is_None (sj_Left r) && is_None (sj_Right r)).
Proof.
  unfold placed, place. destruct a as [s k n p e]. cbn. destruct (sj_RowKey r), (sj_RowRank r), (sj_Position r); naive_solver.
Qed.

Lemma place_before_total a b : place_before a b = false → place_before b a = false →
  ps_Rank a = ps_Rank b ∧ ps_Row a = ps_Row b ∧ ps_Position a = ps_Position b.
Proof.
  unfold place_before, row_before, lex, on_key. intros H1 H2.
  destruct (Z.ltb_spec (ps_Rank a) (ps_Rank b)); [by destruct (ps_Rank a <? ps_Rank b)|].
  destruct (Z.ltb_spec (ps_Rank b) (ps_Rank a)); [by destruct (ps_Rank b <? ps_Rank a)|].
  destruct (String.ltb (ps_Row a) (ps_Row b)) eqn:E1; [done|]. destruct (String.ltb (ps_Row b) (ps_Row a)) eqn:E2; [done|].
  pose proof (string_ltb_total _ _ E1 E2). zbool. split_and!; [lia|done|lia].
Qed.

Lemma place_before_row a b : ps_Row a = ps_Row b → ps_Rank a = ps_Rank b → place_before a b = (ps_Position a <? ps_Position b).
Proof.
  unfold place_before, row_before, lex, on_key. intros -> ->. rewrite Z.ltb_irrefl. by rewrite (less_irrefl String.ltb).
Qed.

Section Valid.
Context (slot : uuid) (db : InventoryDB).
Hypothesis Hproj : Projected slot db.

Lemma placed_elem a : a ∈ placed_seats slot db ↔ ∃ r, r ∈ projection_of slot db ∧ placed r = Some a.
Proof. unfold placed_seats. apply list_elem_of_omap. Qed.

Lemma placed_ordered a : a ∈ placed_seats slot db → Ordered (projection_of slot db).
Proof.
  intros (r & Hr & [Hp _]%placed_place)%placed_elem. destruct (projected_valid _ _ Hproj) as [_ [Hu|]]; [|done].
  exfalso. by rewrite (proj1 (unplaced_place r (Hu r Hr))) in Hp.
Qed.

Lemma placed_inj a b : a ∈ placed_seats slot db → b ∈ placed_seats slot db →
  ps_Row a = ps_Row b → ps_Position a = ps_Position b → a = b.
Proof.
  intros Ha Hb Hr Hp. pose proof (placed_ordered a Ha) as Ho. apply placed_elem in Ha as (r & Hra & Hpa), Hb as (o & Hob & Hpb).
  pose proof Hpa as [Hla _]%placed_place. pose proof Hpb as [Hlb _]%placed_place.
  assert (r = o) as ->; [|congruence]. apply (or_distinct _ Ho r o (ps_Row a, ps_Position a)); [done|done|by eapply place_spot|].
  rewrite Hr, Hp. by eapply place_spot.
Qed.

Lemma placed_rank a b : a ∈ placed_seats slot db → b ∈ placed_seats slot db → ps_Row a = ps_Row b → ps_Rank a = ps_Rank b.
Proof.
  intros Ha Hb Hr. pose proof (placed_ordered a Ha) as Ho. apply placed_elem in Ha as (r & Hra & [Hla _]%placed_place), Hb as (o & Hob & [Hlb _]%placed_place).
  rewrite Hr in Hla. by eapply (or_rank _ Ho r o).
Qed.

Lemma placed_NoDup : NoDup (placed_seats slot db).
Proof.
  destruct Hproj as (rows & Hst & _). pose proof (stored_NoDup slot db rows Hst) as Hnd. unfold placed_seats.
  induction (projection_of slot db) as [|r l IH]; cbn in *; [constructor|]. apply list.NoDup_cons in Hnd as [Hn Hnd].
  destruct (placed r) as [a|] eqn:Ha; [|by apply IH]. apply list.NoDup_cons. split; [|by apply IH].
  intros (o & Ho & Hpo)%list_elem_of_omap. apply Hn. change (map ?g ?k) with (g <$> k). apply list_elem_of_fmap. exists o. split; [|done].
  apply placed_place in Ha as (_ & Ha & _), Hpo as (_ & Hpo & _). congruence.
Qed.

(** Two placed seats under one name are one. *)
Lemma placed_name a b : a ∈ placed_seats slot db → b ∈ placed_seats slot db → ps_Seat a = ps_Seat b → a = b.
Proof.
  intros (r & Hr & Hpa)%placed_elem (o & Ho & Hpb)%placed_elem Hs. destruct Hproj as (rows & Hst & _).
  pose proof (stores_lookup _ _ _ r Hst Hr) as H1. pose proof (stores_lookup _ _ _ o Hst Ho) as H2.
  apply placed_place in Hpa as (Hla & Hsa & Hea), Hpb as (Hlb & Hsb & Heb). rewrite <-Hsa in H1. rewrite <-Hsb, <-Hs in H2.
  assert (r = o) as -> by congruence. destruct a, b. cbn in *. congruence.
Qed.

(** The neighbours of a placed seat are the seats at the positions beside it. *)
Lemma placed_neighbours a e : a ∈ placed_seats slot db →
  e ∈ neighbours slot db (ps_Seat a) ↔ ∃ b, b ∈ placed_seats slot db ∧ ps_Row b = ps_Row a ∧ ps_Seat b = e ∧
    (ps_Position b = ps_Position a - 1 ∨ ps_Position b = ps_Position a + 1).
Proof.
  intros Ha. pose proof (placed_ordered a Ha) as Ho. pose proof Ha as (r & Hr & Hpa)%placed_elem. destruct Hproj as (rows & Hst & _).
  pose proof (stores_lookup _ _ _ r Hst Hr) as Hlk. pose proof Hpa as (Hla & Hsa & _)%placed_place.
  unfold neighbours, adjacent. rewrite Hsa, Hlk. pose proof (place_spot _ _ _ _ Hla) as Hspot.
  assert (Hside : ∀ q, (∃ o, o ∈ projection_of slot db ∧ spot o = Some (ps_Row a, q) ∧ sj_SeatIdentity o = e) ↔
    ∃ b, b ∈ placed_seats slot db ∧ ps_Row b = ps_Row a ∧ ps_Seat b = e ∧ ps_Position b = q).
  { intros q. split.
    - intros (o & Hoin & [n Hpo]%spot_place & <-).
      exists {| ps_Seat := sj_SeatIdentity o; ps_Row := ps_Row a; ps_Rank := n; ps_Position := q; ps_Edges := negb (is_None (sj_Left o) && is_None (sj_Right o)) |}.
      split_and!; try done. apply placed_elem. exists o. split; [done|]. by apply placed_place.
    - intros (b & (o & Hoin & (Hpo & Hso & _)%placed_place)%placed_elem & Hrow & <- & <-). exists o. split_and!; [done| |done].
      rewrite <-Hrow. by eapply place_spot. }
  rewrite elem_of_edges, (or_left _ Ho r _ _ e Hr Hspot), (or_right _ Ho r _ _ e Hr Hspot), !Hside. naive_solver.
Qed.

Lemma placed_edges a b : a ∈ placed_seats slot db → b ∈ placed_seats slot db → ps_Row b = ps_Row a →
  ps_Position b = ps_Position a - 1 ∨ ps_Position b = ps_Position a + 1 → ps_Edges a = true.
Proof.
  intros Ha Hb Hr Hp. assert (ps_Seat b ∈ neighbours slot db (ps_Seat a)) as Hn by (apply placed_neighbours; [done|by exists b]).
  pose proof Ha as (r & Hrin & (Hla & Hsa & ->)%placed_place)%placed_elem. destruct Hproj as (rows & Hst & _).
  unfold neighbours, adjacent in Hn. rewrite Hsa, (stores_lookup _ _ _ r Hst Hrin) in Hn. unfold edges in Hn.
  destruct (sj_Left r), (sj_Right r); cbn in Hn |- *; try done. by apply not_elem_of_nil in Hn.
Qed.

(** ** The scan *)

Lemma ordered_sorted scan : StronglySorted (not_after place_before) (ordered_seats scan slot db).
Proof.
  unfold ordered_seats. pose proof (isort_sorted place_before (placed_seats slot db)) as Hs.
  revert scan. induction Hs as [|x l Hl IH Hx]; intros [|k]; cbn; constructor; [apply IH|].
  rewrite List.Forall_forall in *. intros y Hy%list_elem_of_In. apply Hx, list_elem_of_In.
  apply elem_of_take in Hy as (i & Hi & _). by eapply list_elem_of_lookup_2.
Qed.

Lemma ordered_elem scan a : a ∈ ordered_seats scan slot db → a ∈ placed_seats slot db.
Proof. unfold ordered_seats. intros (i & Hi & _)%elem_of_take. by apply list_elem_of_lookup_2, elem_of_isort in Hi. Qed.

Lemma ordered_NoDup scan : NoDup (ordered_seats scan slot db).
Proof.
  unfold ordered_seats. eapply sublist_NoDup; [|apply sublist_take]. rewrite isort_perm. apply placed_NoDup.
Qed.

(** What stands before a seat of the scan is in the scan. *)
Lemma ordered_prefix scan a b : a ∈ placed_seats slot db → b ∈ ordered_seats scan slot db → place_before a b = true →
  a ∈ ordered_seats scan slot db.
Proof.
  unfold ordered_seats. intros Ha Hb Hlt. rewrite <-(elem_of_isort place_before) in Ha.
  pose proof (isort_sorted place_before (placed_seats slot db)) as Hs. set (L := isort place_before (placed_seats slot db)) in *.
  rewrite <-(take_drop scan L) in Ha, Hs. apply elem_of_app in Ha as [Ha|Ha]; [done|]. exfalso.
  clearbody L. revert Hs Hb. generalize (take scan L). intros front Hs Hb. induction front as [|y front IH]; cbn in *; [by apply not_elem_of_nil in Hb|].
  inversion Hs as [|? ? Hs' Hall]; subst. apply list.elem_of_cons in Hb as [->|Hb]; [|by apply IH].
  rewrite List.Forall_forall in Hall. specialize (Hall a). unfold not_after in Hall. rewrite Hall in Hlt; [done|].
  apply list_elem_of_In, elem_of_app. by right.
Qed.

(** ** The query is the search *)

Lemma free_elem t l a : a ∈ free_of t slot db l ↔ a ∈ l ∧ seat_taken t slot db (ps_Seat a) = false.
Proof. unfold free_of. by rewrite elem_of_bool_filter, negb_true_iff. Qed.

Lemma free_NoDup t l : NoDup l → NoDup (free_of t slot db l).
Proof. intros H. by apply base.NoDup_ListNoDup, List.NoDup_filter, base.NoDup_ListNoDup. Qed.

Lemma seat_at_is_Some e a q : is_Some (seat_at e a q) ↔ ∃ x, x ∈ e ∧ ps_Row x = ps_Row a ∧ ps_Position x = q.
Proof.
  split; [intros [x H]; exists x; by apply seat_at_Some|]. intros (x & Hx & Hr & Hp).
  destruct (seat_at e a q) eqn:E; [by eexists|]. by destruct (seat_at_None _ _ _ E x Hx Hr Hp).
Qed.

Lemma is_None_is_Some {A} (o : option A) : is_None o = false ↔ is_Some o.
Proof. by split; destruct o. Qed.

Lemma alone_true e a i j : alone e a i j = true ↔ is_Some (seat_at e a i) ∧ ¬ is_Some (seat_at e a j).
Proof.
  unfold alone. rewrite andb_true_iff, negb_true_iff, is_None_is_Some, <-(is_None_is_Some (seat_at e a j)).
  by rewrite not_false_iff_true.
Qed.

Section Search.
Context (t : time) (scan n : nat) (on : bool).
Hypothesis Hn : (0 < n)%nat.
Abbreviation free := (free_of t slot db (ordered_seats scan slot db)).
Abbreviation everyone := (free_of t slot db (placed_seats slot db)).
Abbreviation context := (free_of t slot db (context_seats (ordered_seats scan slot db) slot db)).

Lemma free_placed a : a ∈ free → a ∈ placed_seats slot db.
Proof. intros [H _]%free_elem. by eapply ordered_elem. Qed.

Lemma free_inj a b : a ∈ free → b ∈ free → ps_Row a = ps_Row b → ps_Position a = ps_Position b → a = b.
Proof. intros Ha%free_placed Hb%free_placed. by apply placed_inj. Qed.

Section OneRun.
Context (a : PlacedSeat) (w : list PlacedSeat).
Hypothesis Ha : a ∈ free.
Hypothesis Hw : run_from free a n = Some w.
Abbreviation p := (ps_Position a).

Lemma run_member x : x ∈ w ↔ x ∈ free ∧ ps_Row x = ps_Row a ∧ p ≤ ps_Position x < p + Z.of_nat n.
Proof. apply run_elem; [apply free_inj|done]. Qed.

Lemma run_last : ∃ z, z ∈ w ∧ ps_Row z = ps_Row a ∧ ps_Position z = p + Z.of_nat n - 1.
Proof.
  destruct (proj1 (run_is_Some free a n) (ex_intro _ w Hw) (p + Z.of_nat n - 1)) as [z Hz]; [lia|].
  apply seat_at_Some in Hz as (Hzf & Hzr & Hzp). exists z. split_and!; [|done..]. apply run_member. split_and!; [done..|lia|lia].
Qed.

Lemma min_position l q : (∀ x, x ∈ l → q ≤ ps_Position x) → foldr (λ b, Z.min (ps_Position b)) q l = q.
Proof.
  induction l as [|x l IH]; cbn; intros Hl; [done|]. rewrite IH by (intros y Hy; by apply Hl, list_elem_of_further).
  specialize (Hl x (list_elem_of_here _ _)). lia.
Qed.

Lemma max_position l d q : (∀ x, x ∈ l → ps_Position x ≤ q) → d ≤ q → (∃ x, x ∈ l ∧ ps_Position x = q) →
  foldr (λ b, Z.max (ps_Position b)) d l = q.
Proof.
  intros Hl Hd (z & Hz & Hzq). apply Z.le_antisymm.
  - clear z Hz Hzq. induction l as [|x l IH]; cbn; [done|]. pose proof (Hl x (list_elem_of_here _ _)).
    specialize (IH (λ y Hy, Hl y (list_elem_of_further _ _ _ Hy))). lia.
  - clear Hl. induction l as [|x l IH]; cbn; [by apply not_elem_of_nil in Hz|]. apply list.elem_of_cons in Hz as [->|Hz]; [lia|].
    specialize (IH Hz). lia.
Qed.

(** The context sees what there is beside the run. *)
Lemma context_sees q : q ∈ [p - 2; p - 1; p + Z.of_nat n; p + Z.of_nat n + 1] →
  is_Some (seat_at context a q) ↔ is_Some (seat_at everyone a q).
Proof.
  intros Hq. rewrite !seat_at_is_Some. split; intros (x & [Hx Hfree]%free_elem & Hr & Hp); exists x; (split; [|done]); apply free_elem; (split; [|done]).
  - apply elem_of_app in Hx as [Hx|[Hx _]%elem_of_bool_filter]; [by eapply ordered_elem|done].
  - unfold context_seats. apply elem_of_app. set (ord := ordered_seats scan slot db).
    destruct (decide (x ∈ ord)) as [Hin|Hout]; [by left|]. right. apply elem_of_bool_filter. split; [done|].
    assert (Hbelow : ∀ y, y ∈ ord → ps_Row y = ps_Row x → ps_Position y < ps_Position x).
    { intros y Hy Hyr. destruct (Z.lt_ge_cases (ps_Position y) (ps_Position x)) as [|Hge]; [done|]. exfalso. apply Hout.
      pose proof (ordered_elem scan y Hy) as Hyp. destruct (decide (ps_Position y = ps_Position x)) as [He|Hne].
      - assert (x = y) as ->; [|done]. by apply placed_inj.
      - eapply (ordered_prefix scan x y); [done|exact Hy|]. rewrite place_before_row; [apply Z.ltb_lt; lia|done|by apply placed_rank]. }
    destruct run_last as (z & Hzw & Hzr & Hzp). apply run_member in Hzw as ([Hzo _]%free_elem & _).
    unfold in_context. set (row := List.filter (same_row x) ord).
    assert (Hz : z ∈ row) by (apply elem_of_bool_filter; split; [done|apply same_row_iff; congruence]).
    assert (Hrow : ∀ y, y ∈ row → ps_Position y < ps_Position x).
    { intros y [Hy Hyr%same_row_iff]%elem_of_bool_filter. by apply Hbelow. }
    destruct row as [|y row']; [by apply not_elem_of_nil in Hz|].
    set (hi := foldr (λ b, Z.max (ps_Position b)) (ps_Position y) (y :: row')).
    assert (Hhi : ps_Position z ≤ hi ∧ hi < ps_Position x).
    { unfold hi. split.
      - clear -Hz. generalize (ps_Position y). induction (y :: row') as [|b l IH]; intros d; [by apply not_elem_of_nil in Hz|].
        cbn. apply list.elem_of_cons in Hz as [->|Hz]; [lia|]. specialize (IH Hz d). lia.
      - pose proof (Hrow y (list_elem_of_here _ _)) as Hy. clear -Hrow Hy. revert Hy. generalize (ps_Position y). revert Hrow.
        generalize (y :: row'). induction l as [|b l IH]; cbn; intros Hrow d Hd; [done|].
        pose proof (Hrow b (list_elem_of_here _ _)). specialize (IH (λ c Hc, Hrow c (list_elem_of_further _ _ _ Hc)) d Hd). lia. }
    assert (ps_Position x = hi + 1 ∨ ps_Position x = hi + 2) as Hx' by (rewrite Hzp, Hp in Hhi; set_unfold; lia).
    apply bool_decide_eq_true. set_unfold. tauto.
Qed.

Lemma legal_run : legal on context (a, w) = negb on || negb (leaves_alone everyone a n).
Proof.
  unfold legal. cbn [fst snd]. rewrite min_position by (intros x Hx; by apply run_member in Hx as (_ & _ & ? & _)).
  rewrite (max_position w p (p + Z.of_nat n - 1)); [|intros x (_ & _ & ?)%run_member; lia|lia|].
  2: { destruct run_last as (z & ? & _ & ?). by exists z. }
  destruct on; [|done]. cbn [negb orb]. f_equal. apply eq_true_iff_eq.
  unfold leaves_alone. rewrite existsb_exists, orb_true_iff, !alone_true.
  assert (Hsees : ∀ q, q ∈ [p - 2; p - 1; p + Z.of_nat n; p + Z.of_nat n + 1] → is_Some (seat_at context a q) ↔ is_Some (seat_at everyone a q))
    by apply context_sees.
  rewrite <-!Hsees by (set_unfold; lia).
  assert (Hout : ∀ x, ps_Row x = ps_Row a → ∀ q, negb (existsb (λ o, same_row x o && (ps_Position o =? q)) context) = true ↔ ¬ is_Some (seat_at context a q)).
  { intros x Hxr q. rewrite negb_true_iff, <-not_true_iff_false, existsb_exists, seat_at_is_Some.
    apply not_iff_compat. split.
    - intros (o & Ho%list_elem_of_In & H). apply andb_prop in H as [Hr%same_row_iff Hp%Z.eqb_eq]. exists o. split_and!; [done|congruence|done].
    - intros (o & Ho & Hr & Hp). exists o. split; [by apply list_elem_of_In|]. apply andb_true_intro.
      split; [apply same_row_iff; congruence|by apply Z.eqb_eq]. }
  split.
  - intros (x & Hx%list_elem_of_In & Hs). unfold strands in Hs. apply andb_prop in Hs as [Hs Hno]. apply andb_prop in Hs as [Hs He].
    apply andb_prop in Hs as [Hr%same_row_iff Hp%bool_decide_eq_true]. rewrite (Hout x (eq_sym Hr)) in Hno. unfold outside in Hno.
    assert (Hat : ∀ q, ps_Position x = q → is_Some (seat_at context a q)) by (intros q <-; apply seat_at_is_Some; by exists x).
    destruct (Z.ltb_spec (ps_Position x) p).
    + left. assert (ps_Position x = p - 1) as E by (set_unfold; lia). split; [by apply Hat|]. rewrite E in Hno.
      by replace (p - 1 - 1) with (p - 2) in Hno by lia.
    + right. assert (ps_Position x = p + Z.of_nat n) as E by (set_unfold; lia). split; [by apply Hat|]. by rewrite E in Hno.
  - assert (Hedge : ∀ x y, x ∈ context → y ∈ free → ps_Row x = ps_Row a → ps_Row y = ps_Row a →
      ps_Position y = ps_Position x - 1 ∨ ps_Position y = ps_Position x + 1 → ps_Edges x = true).
    { intros x y [Hx _]%free_elem Hy%free_placed Hxr Hyr Hp. apply (placed_edges x y); [|done|congruence|exact Hp].
      apply elem_of_app in Hx as [Hx|[Hx _]%elem_of_bool_filter]; [by eapply ordered_elem|done]. }
    destruct run_last as (z & Hzw & Hzr & Hzp). apply run_member in Hzw as (Hzf & _).
    intros [[(x & Hx & Hr & Hp)%seat_at_is_Some Hno]|[(x & Hx & Hr & Hp)%seat_at_is_Some Hno]]; exists x; (split; [by apply list_elem_of_In|]);
      unfold strands; rewrite (proj2 (same_row_iff a x) (eq_sym Hr)), bool_decide_true by (set_unfold; lia); cbn [andb].
    + rewrite (Hedge x a) by (done || lia). cbn [andb]. apply (Hout x Hr). unfold outside. rewrite Hp.
      rewrite (proj2 (Z.ltb_lt _ _)) by lia. by replace (p - 1 - 1) with (p - 2) by lia.
    + rewrite (Hedge x z) by (done || lia). cbn [andb]. apply (Hout x Hr). unfold outside. rewrite Hp.
      rewrite (proj2 (Z.ltb_ge _ _)) by lia. done.
Qed.
End OneRun.

Lemma window_startable a : a ∈ free →
  (Z.of_nat (length (window free (Z.of_nat n) a)) =? Z.of_nat n) && legal on context (a, window free (Z.of_nat n) a)
  = startable on free everyone n a.
Proof.
  intros Ha. unfold startable. destruct (run_from free a n) as [w|] eqn:Hw; cbn [is_None negb andb].
  - rewrite (window_of_run free (free_NoDup t _ (ordered_NoDup scan)) free_inj a n w Ha Hw).
    assert (length w = n) as Hl by (rewrite <-(length_map ps_Position w), (run_positions free a n w Hw); apply zrange_length).
    rewrite Hl, Z.eqb_refl. cbn [andb]. by apply legal_run.
  - apply andb_false_iff. left. apply Z.eqb_neq. intros Hl. apply Nat2Z.inj in Hl.
    apply (run_of_window free (free_NoDup t _ (ordered_NoDup scan)) free_inj) in Hl as [w Hw']; [congruence|done].
Qed.

Lemma find_head {A} (f : A → bool) l : List.find f l = head (List.filter f l).
Proof. induction l as [|y l IH]; cbn; [done|]. by destruct (f y). Qed.

Lemma filter_map_filter {A B} (g : A → B) (P L : B → bool) (f : A → bool) l : (∀ y, y ∈ l → P (g y) && L (g y) = f y) →
  List.filter L (List.filter P (map g l)) = map g (List.filter f l).
Proof.
  induction l as [|y l IH]; cbn; intros Hf; [done|]. rewrite <-(Hf y (list_elem_of_here _ _)).
  specialize (IH (λ z Hz, Hf z (list_elem_of_further _ _ _ Hz))).
  destruct (P (g y)); cbn; [destruct (L (g y)); cbn|]; by rewrite IH.
Qed.

Lemma query_is_search : bestAvailableRun t scan slot on (Z.of_nat n) db =
  match firstLegalRun t scan slot on n db with Some seats => Ok seats | None => Err ErrBestAvailableUnavailable end.
Proof.
  unfold bestAvailableRun, firstLegalRun, windows. set (g := λ a, (a, window free (Z.of_nat n) a)).
  rewrite (filter_map_filter g _ _ (startable on free everyone n)) by (intros y Hy; by apply window_startable).
  rewrite (isort_map place_before (on_key fst place_before) g) by done.
  rewrite (isort_unique place_before (List.filter (startable on free everyone n) free) (List.filter (startable on free everyone n) free)).
  - rewrite find_head. destruct (List.filter _ free) as [|a l] eqn:E; cbn [map head mbind option_bind]; [done|].
    assert (a ∈ List.filter (startable on free everyone n) free) as Ha by (rewrite E; apply list_elem_of_here).
    apply elem_of_bool_filter in Ha as [Ha Hst]. unfold startable in Hst. destruct (run_from free a n) as [w|] eqn:Hw; [|done].
    cbn [fmap option_fmap option_map g snd]. f_equal. f_equal.
    by apply (window_of_run free (free_NoDup t _ (ordered_NoDup scan)) free_inj).
  - intros a b [Ha%free_placed _]%elem_of_bool_filter [Hb%free_placed _]%elem_of_bool_filter H1 H2.
    destruct (place_before_total a b H1 H2) as (_ & Hr & Hp). by apply placed_inj.
  - done.
  - unfold free_of. do 2 apply StronglySorted_bool_filter. apply ordered_sorted.
Qed.

(** ** What the search finds is not refused *)

Lemma found_run seats : firstLegalRun t scan slot on n db = Some seats → ∃ a w, a ∈ free ∧ run_from free a n = Some w ∧
  seats = map ps_Seat w ∧ negb on || negb (leaves_alone everyone a n) = true.
Proof.
  unfold firstLegalRun. destruct (List.find _ _) as [a|] eqn:Hf; cbn [mbind option_bind]; [|done].
  apply List.find_some in Hf as [Ha%list_elem_of_In Hst]. unfold startable in Hst. apply andb_prop in Hst as [Hr Hl].
  destruct (run_from free a n) as [w|] eqn:Hw; [|done]. intros [= <-]. by exists a, w.
Qed.

Lemma valid_no_gap s : gap slot db s = false ∨ adjacent slot db s = None.
Proof.
  unfold gap. destruct (adjacent slot db s) as [r|] eqn:Hr; [|by right]. left. apply not_true_iff_false. rewrite existsb_exists.
  intros (m & Hm%list_elem_of_In & Hb). destruct (projected_valid _ _ Hproj) as [Hback _]. destruct Hproj as (rows & Hst & _).
  assert (r ∈ projection_of slot db) as Hin by (apply elem_of_projection; by exists s).
  assert (sj_SeatIdentity r = s) as Hs by by apply Hst in Hr as [_ ?].
  destruct (Hback r m Hin Hm) as (o & Ho & Hom & Hback'). pose proof (stores_lookup _ _ _ o Hst Ho) as Hlk.
  unfold adjacent in Hb. rewrite <-Hom, Hlk in Hb. apply negb_true_iff in Hb. apply names_edges in Hback'. congruence.
Qed.

Lemma valid_neighbour s m : m ∈ neighbours slot db s → is_Some (adjacent slot db m).
Proof.
  unfold neighbours. destruct (adjacent slot db s) as [r|] eqn:Hr; [|intros H; by apply not_elem_of_nil in H]. intros Hm.
  destruct (projected_valid _ _ Hproj) as [Hback _]. destruct Hproj as (rows & Hst & _).
  destruct (Hback r m) as (o & Ho & <- & _); [apply elem_of_projection; by exists s|done|].
  exists o. by apply (stores_lookup _ _ _ o Hst Ho).
Qed.

Lemma placed_adjacent a : a ∈ placed_seats slot db → is_Some (adjacent slot db (ps_Seat a)).
Proof.
  intros (r & Hr & (_ & -> & _)%placed_place)%placed_elem. destruct Hproj as (rows & Hst & _). exists r. by apply (stores_lookup _ _ _ r Hst).
Qed.

Lemma found_strands_none seats m : on = true → firstLegalRun t scan slot on n db = Some seats → ¬ Strands t slot db seats m.
Proof.
  intros Hon (a & w & Ha & Hw & -> & Hleg)%found_run [Hout (s & Hs & Hm) Hfree Hpair Hshut]. rewrite Hon in Hleg. cbn [negb orb] in Hleg.
  apply negb_true_iff, orb_false_iff in Hleg as [Hl Hr].
  assert (Hnames : ∀ x, x ∈ placed_seats slot db → ps_Seat x ∈ map ps_Seat w → x ∈ w).
  { intros x Hx. change (map ?g ?k) with (g <$> k). intros (y & Hxy & Hy)%list_elem_of_fmap.
    assert (x = y) as ->; [|done]. apply placed_name; [done| |done]. apply (run_member a w Hw) in Hy as [Hy _]. by apply free_placed. }
  change (map ?g ?k) with (g <$> k) in Hs. apply list_elem_of_fmap in Hs as (b & -> & Hb). pose proof Hb as (Hbf & Hbr & Hbp)%(run_member a w Hw).
  apply placed_neighbours in Hm as (c & Hc & Hcr & <- & Hcp); [|by apply free_placed].
  assert (Hce : c ∈ everyone) by by apply free_elem.
  assert (Hcw : ¬ (ps_Position a ≤ ps_Position c < ps_Position a + Z.of_nat n)).
  { intros Hcin. apply Hout. change (map ?g ?k) with (g <$> k). apply list_elem_of_fmap. exists c. split; [done|].
    destruct (proj1 (run_is_Some free a n) (ex_intro _ w Hw) _ Hcin) as [y (Hy & Hyr & Hyp)%seat_at_Some].
    assert (c = y) as ->; [apply placed_inj; [done|by apply free_placed|congruence|done]|]. apply (run_member a w Hw). split_and!; [done..|lia|lia]. }
  assert (Halone : ∀ i j, ps_Position c = i → (j = i - 1 ∨ j = i + 1) → ¬ (ps_Position a ≤ j < ps_Position a + Z.of_nat n) →
    alone everyone a i j = false → False).
  { intros i j Hi Hj Hjout Hal. assert (¬ ¬ is_Some (seat_at everyone a j)) as Hd.
    { intros Hno. apply not_true_iff_false in Hal. apply Hal, alone_true. split; [|done]. apply seat_at_is_Some. exists c. split_and!; [done|congruence|done]. }
    apply Hd. intros [d Hdd]. apply Hd. intros _. apply seat_at_Some in Hdd as (Hde & Hdr & Hdp). apply free_elem in Hde as [Hdpl Hdfree].
    destruct (Hshut (ps_Seat d)) as [Hin|Htaken]; [| |congruence].
    - apply placed_neighbours; [done|]. exists d. split_and!; [done|congruence|done|lia].
    - apply Hnames in Hin as (_ & _ & Hin)%(run_member a w Hw); [|done]. lia. }
  destruct (Z.lt_ge_cases (ps_Position c) (ps_Position a)).
  - apply (Halone (ps_Position a - 1) (ps_Position a - 2)); [lia|lia|lia|done].
  - apply (Halone (ps_Position a + Z.of_nat n) (ps_Position a + Z.of_nat n + 1)); [lia|lia|lia|done].
Qed.

Lemma found_not_orphaned seats : on = true → firstLegalRun t scan slot on n db = Some seats → orphanedSeats t slot seats db = Ok [].
Proof.
  intros Hon Hf. unfold orphanedSeats. pose proof Hf as (a & w & Ha & Hw & Hs & _)%found_run.
  assert (existsb (gap slot db) (needed slot db seats) = false) as ->.
  { apply not_true_iff_false. rewrite existsb_exists. intros (m & Hm%list_elem_of_In & Hg).
    destruct (valid_no_gap m) as [Hno|Hno]; [congruence|]. apply elem_of_app in Hm as [Hm|Hm].
    - rewrite Hs in Hm. change (map ?g ?k) with (g <$> k) in Hm. apply list_elem_of_fmap in Hm as (x & -> & [Hx _]%(run_member a w Hw)).
      destruct (placed_adjacent x (free_placed x Hx)). congruence.
    - apply elem_of_mjoin_map in Hm as (s & _ & Hm). destruct (valid_neighbour s m Hm). congruence. }
  f_equal. destruct (List.filter _ _) as [|m l] eqn:E; [done|]. exfalso.
  assert (m ∈ List.filter (stranded t slot db seats) (candidates slot db seats)) as Hm by (rewrite E; apply list_elem_of_here).
  apply elem_of_bool_filter in Hm as [Hc Hst]. apply (found_strands_none seats m Hon Hf). by apply stranded_exact.
Qed.

Lemma found_free seats s : firstLegalRun t scan slot on n db = Some seats → s ∈ seats → seat_taken t slot db s = false.
Proof.
  intros (a & w & Ha & Hw & -> & _)%found_run. change (map ?g ?k) with (g <$> k). intros (x & -> & [Hx _]%(run_member a w Hw))%list_elem_of_fmap.
  by apply free_elem in Hx as [_ ?].
Qed.

Lemma found_length seats : firstLegalRun t scan slot on n db = Some seats → length seats = n.
Proof.
  intros (a & w & Ha & Hw & -> & _)%found_run. rewrite length_map, <-(length_map ps_Position w), (run_positions free a n w Hw). apply zrange_length.
Qed.
End Search.
End Valid.

Lemma firstLegalRun_ext t scan slot on n db db' : in_adjacency db' = in_adjacency db →
  (∀ s, seat_taken t slot db' s = seat_taken t slot db s) → firstLegalRun t scan slot on n db' = firstLegalRun t scan slot on n db.
Proof.
  intros Ha Ht. assert (Hf : ∀ l, free_of t slot db' l = free_of t slot db l).
  { intros l. unfold free_of. apply List.filter_ext. intros x. by rewrite Ht. }
  assert (Hp : projection_of slot db' = projection_of slot db) by (unfold projection_of; by rewrite Ha).
  unfold firstLegalRun, ordered_seats, placed_seats. rewrite Hp, !Hf. done.
Qed.

(** C35 (equivalence). The best available seats are the first run the plain search
    finds. On a pool that is on sale, whose counters and projection are as the
    invariants leave them, the query over islands of positions takes the first
    seat of the scan, rows in order of rank, from which as many free seats follow
    one another as were asked for, skipping on a pool with the orphan rule a start
    that would leave a free seat beside the run alone; the pool's ceiling is
    judged before, a projection without an order refuses, and what the search
    finds is always recorded: the arbitration that follows it refuses nothing. *)
Theorem best_available_is_first_legal_run ttl ck id rq scan pool seatMap fp n db db' :
  let slot := sq_SlotID rq in let now := ck_now ck in
  SeatsOk db → Projected slot db → Readable now slot pool db → sweepExpired now slot db = Ok db' → guardOffering pool = Ok tt → (0 < n)%nat →
  grantBest ttl ck id rq scan pool seatMap fp (Z.of_nat n) db =
  if remaining_capacity now slot pool db <? Z.of_nat n then Err ErrUnavailable
  else if negb (has_order slot db) then Err ErrBestAvailableUnsupported
  else match firstLegalRun now scan slot (po_Orphan pool) n db with
       | None => Err ErrBestAvailableUnavailable
       | Some seats => recordSeatHold ttl ck id rq seatMap fp seats (seatsAboutToExpire now slot seatMap db) db'
       end.
Proof.
  intros slot now Hk Hp Hr Hsw Hopen Hn. unfold grantBest. rewrite Hopen. cbn [mbind result_bind]. fold slot now. rewrite Hsw. cbn [mbind result_bind].
  rewrite (ceiling_exact ck rq pool db db' Hr Hsw) by (done || lia). fold slot now. rewrite Z.leb_antisym.
  destruct (_ <? _); cbn [negb mbind result_bind]; [done|].
  pose proof (proj2 (sweep_seats _ _ _ _ Hsw)) as Ha.
  assert (has_order slot db' = has_order slot db) as -> by (unfold has_order, projection_of; by rewrite Ha).
  destruct (negb _); [done|].
  assert (Ht : ∀ s, seat_taken now slot db' s = seat_taken now slot db s) by (intros s; by apply taken_after_sweep).
  pose proof (projected_same slot db db' Ha Hp) as Hp'.
  rewrite (query_is_search slot db' Hp' now scan n (po_Orphan pool) Hn), (firstLegalRun_ext _ _ _ _ _ db db' Ha Ht).
  destruct (firstLegalRun _ _ _ _ _ db) as [seats|] eqn:Hfind; cbn [mbind result_bind]; [|done].
  rewrite <-(firstLegalRun_ext _ _ _ _ _ db db' Ha Ht) in Hfind.
  assert (arbitrate now slot pool seats db' = Ok tt) as ->; [|done]. unfold arbitrate, contendedSeats.
  assert (List.filter (seat_held slot db') seats = []) as ->.
  { destruct (List.filter _ seats) as [|s l] eqn:E; [done|]. exfalso.
    assert (s ∈ List.filter (seat_held slot db') seats) as Hs by (rewrite E; apply list_elem_of_here).
    apply elem_of_bool_filter in Hs as [Hs Hh]. rewrite (held_after_sweep now slot db db' Hk Hsw), <-Ht in Hh.
    by rewrite (found_free slot db' Hp' now scan n (po_Orphan pool) seats s Hfind Hs) in Hh. }
  cbn [isort foldr length]. rewrite bool_decide_true by done. cbn [negb]. destruct (po_Orphan pool) eqn:Ho; [|done].
  by rewrite (found_not_orphaned slot db' Hp' now scan n true Hn seats eq_refl Hfind).
Qed.
End BestSeats.

#[local] Existing Instance text_uuid.

Lemma best_available_is_first_legal_run_witness :
  firstLegalRun 15 400 slot true 2 (seat_db 2) = Some ["A3"; "A4"]%string ∧
  grantBest 100 (at_time 15) ("d"%string : uuid) (seat_request "k9") 400 six_pool ("map"%string : uuid) "fp" 2 (seat_db 2) =
  recordSeatHold 100 (at_time 15) ("d"%string : uuid) (seat_request "k9") ("map"%string : uuid) "fp" ["A3"; "A4"]%string
    (seatsAboutToExpire 15 slot ("map"%string : uuid) (seat_db 2)) (swept_or 15 (seat_db 2)).
Proof.
  assert (Hw : along well_formed 100 (take 2 seat_day) empty_inventory = true) by (vm_compute; reflexivity).
  assert (Hd : along distinct_seats 100 (take 2 seat_day) empty_inventory = true) by (vm_compute; reflexivity).
  pose proof (run_sound 100 (take 2 seat_day) empty_inventory Hw empty_sound) as Hs.
  pose proof (run_seats 100 (take 2 seat_day) empty_inventory Hw empty_sound empty_seats) as Hk.
  pose proof (run_projected 100 (take 2 seat_day) empty_inventory Hw Hd empty_sound empty_projected slot) as Hp.
  assert (Hr : Readable 15 slot six_pool (seat_db 2)).
  { split; [exact Hs|vm_compute; reflexivity|vm_compute; discriminate|vm_compute; discriminate|].
    replace (allocations_of slot (seat_db 2)) with (@nil ChannelAllocation) by (vm_compute; reflexivity).
    intros a H. by apply not_elem_of_nil in H. }
  assert (Hsw : sweepExpired 15 slot (seat_db 2) = Ok (swept_or 15 (seat_db 2))).
  { assert (H : is_ok (sweepExpired 15 slot (seat_db 2)) = true) by (vm_compute; reflexivity).
    unfold swept_or. destruct (sweepExpired 15 slot (seat_db 2)) as [d|e] eqn:E; [reflexivity|discriminate H]. }
  assert (Hf : firstLegalRun 15 400 slot true 2 (seat_db 2) = Some ["A3"; "A4"]%string) by (vm_compute; reflexivity).
  split; [exact Hf|].
  pose proof (best_available_is_first_legal_run 100 (at_time 15) ("d"%string : uuid) (seat_request "k9") 400 six_pool ("map"%string : uuid) "fp" 2
    (seat_db 2) (swept_or 15 (seat_db 2)) Hk Hp Hr Hsw eq_refl (Nat.lt_0_succ 1)) as H.
  assert (H1 : (remaining_capacity 15 slot six_pool (seat_db 2) <? 2) = false) by (vm_compute; reflexivity).
  assert (H2 : has_order slot (seat_db 2) = true) by (vm_compute; reflexivity).
  change (sq_SlotID (seat_request "k9")) with slot in H. change (ck_now (at_time 15)) with 15 in H. change (Z.of_nat 2) with 2 in H.
  change (po_Orphan six_pool) with true in H. rewrite H1, H2, Hf in H. exact H.
Defined.

(** Two of the last three seats would leave one alone, a hold of all three does not. *)
Definition short_row : InventoryDB := run 100 [
  (at_time 0, OpProvisionSeated "e1" "slot" "org" "map" 6 true row_a);
  (at_time 10, OpSeatHold "a" (seat_request "k1") ["A2"; "A1"; "A3"])]%string empty_inventory.

Example best_of_a_short_row :
  firstLegalRun 25 400 slot true 2 short_row = None ∧ firstLegalRun 25 400 slot true 3 short_row = Some ["A4"; "A5"; "A6"]%string.
Proof. split; vm_compute; reflexivity. Qed.
