(* ===== verification/Geometry.v ===== *)
(** * Catalog's answers

    [services/inventory/internal/consumer/catalog.go]: what inventory makes of
    the answers catalog gives it. An answer arrives as a status or as a decoded
    document; the resolver accepts only what it can wholly understand and sorts
    every failure into a class its caller disposes of: retry, park, terminate.

    Decoding JSON is not modelled: a body is undecodable, or is a document, alone
    or followed by other bytes. Two reads have a cap past which they refuse; a
    geometry is cut at its cap instead, and is what the bytes before it decode to:
    [SeatMapAdjacency] reads the bytes, with the decoder as an argument. *)

From stdpp Require Import pretty.
From S2P Require Import Prelude Text Sha256 Format Tables Inventory.
#[local] Open Scope Z_scope.

Inductive ResolveError :=
| ErrPerformanceNotFound
| errResolveUnavailable
| errCatalogUnusable
| ErrGeometryInvalid
| ErrPoolStateNotFound
| ErrSeatPinRejected
| ErrSeatPinPageTooLarge
| errUnclassified.

#[export] Instance ResolveError_eq_dec : EqDecision ResolveError.
Proof. solve_decision. Defined.

(** What an HTTP exchange gives: no answer or a body that broke off, a status, a
    body past the cap, one that does not decode, or a document. *)
Inductive Answer (B : Type) :=
| NoAnswer
| StatusOf (code : Z)
| TooLong
| Undecodable
| Document (body : B) (alone : bool).
Arguments NoAnswer {B}.
Arguments StatusOf {B} _.
Arguments TooLong {B}.
Arguments Undecodable {B}.
Arguments Document {B} _ _.

Definition StatusOK : Z := 200.
Definition StatusNotFound : Z := 404.
Definition StatusConflict : Z := 409.
Definition StatusGone : Z := 410.

Section Geometry.
Context `{UU : UUID}.

(** ** The capacity of a published slot *)

Record PublishedPerformance := {
  pp_OrganizerID : uuid;
  pp_Capacity : Z;
  pp_CapacityGroupID : option uuid;
  pp_SharedCapacity : option Z;
}.

Definition resolvePublishedPerformance (a : Answer PublishedPerformance) : result ResolveError PublishedPerformance :=
  match a with
  | NoAnswer => Err errResolveUnavailable
  | StatusOf code => if code =? StatusNotFound then Err ErrPerformanceNotFound else Err errResolveUnavailable
  | TooLong | Undecodable => Err errCatalogUnusable
  | Document b _ =>
      if bool_decide (pp_OrganizerID b = uuid_Nil) || (pp_Capacity b <=? 0) then Err errCatalogUnusable
      else if negb (Bool.eqb (is_None (pp_CapacityGroupID b)) (is_None (pp_SharedCapacity b))) ||
              match pp_SharedCapacity b with Some c => c <=? 0 | None => false end ||
              bool_decide (pp_CapacityGroupID b = Some uuid_Nil)
      then Err errCatalogUnusable
      else Ok b
  end.

(** ** The offer state of a pool *)

Record PoolOfferState := { os_Kind : string; os_Lifecycle : string; os_ClosureStatus : string; os_ClosureVersion : Z }.

Definition resolvePoolOfferState (a : Answer PoolOfferState) : result ResolveError PoolOfferState :=
  match a with
  | StatusOf code => if code =? StatusNotFound then Err ErrPoolStateNotFound else Err errUnclassified
  | NoAnswer | TooLong | Undecodable => Err errUnclassified
  | Document b _ =>
      if bool_decide (os_Kind b = "festival"%string)
      then Ok {| os_Kind := "festival"; os_Lifecycle := ""; os_ClosureStatus := ""; os_ClosureVersion := 0 |}
      else if bool_decide (os_Kind b = "performance"%string) then
        if negb (bool_decide (os_Lifecycle b ∈ ["draft"; "published"; "archived"]%string)) then Err errUnclassified
        else if negb (bool_decide (os_ClosureStatus b ∈ ["open"; "closed"]%string)) then Err errUnclassified
        else if os_ClosureVersion b <? 0 then Err errUnclassified
        else Ok b
      else Err errUnclassified
  end.

(** ** The geometry of a seat map *)

Record geometrySeat := { gs_SeatIdentity : string; gs_Position : Z }.
Record geometryRow := { gr_ID : uuid; gr_Position : Z; gr_Seats : list geometrySeat }.
Record geometrySection := { ge_Position : Z; ge_Rows : list geometryRow }.
Record Geometry := { ge_ID : uuid; ge_Status : string; ge_Sections : list geometrySection }.

Record SeatAdjacency := {
  sa_SeatIdentity : string;
  sa_Left : option string;
  sa_Right : option string;
  sa_RowKey : string;
  sa_Position : Z;
  sa_RowRank : Z;
}.

Record rowRef := { rf_sectionPos : Z; rf_rowPos : Z; rf_seq : Z; rf_row : geometryRow }.

(** A position is positive and nothing beside it has the same. *)
Definition new_position (seen : gset Z) (pos : Z) : result ResolveError (gset Z) :=
  if pos <=? 0 then Err ErrGeometryInvalid
  else if bool_decide (pos ∈ seen) then Err ErrGeometryInvalid
  else Ok ({[pos]} ∪ seen).

Definition ref_row (sectionPos : Z) (st : gset Z * list rowRef) (row : geometryRow) : result ResolveError (gset Z * list rowRef) :=
  rowPositions ← new_position st.1 (gr_Position row);
  Ok (rowPositions, st.2 ++ [{| rf_sectionPos := sectionPos; rf_rowPos := gr_Position row; rf_seq := Z.of_nat (length st.2); rf_row := row |}]).

Definition ref_section (st : gset Z * list rowRef) (s : geometrySection) : result ResolveError (gset Z * list rowRef) :=
  sectionPositions ← new_position st.1 (ge_Position s);
  refs ← fold_result (ref_row (ge_Position s)) (∅, st.2) (ge_Rows s);
  Ok (sectionPositions, refs.2).

Definition ref_before : rowRef → rowRef → bool :=
  lex (on_key rf_sectionPos Z.ltb) (lex (on_key rf_rowPos Z.ltb) (on_key rf_seq Z.ltb)).

(** An identity is compared and stored trimmed. *)
Definition new_identity (st : gset string * list string) (s : geometrySeat) : result ResolveError (gset string * list string) :=
  let id := TrimSpace (gs_SeatIdentity s) in
  if bool_decide (id = ""%string) then Err ErrGeometryInvalid
  else if bool_decide (id ∈ st.1) then Err ErrGeometryInvalid
  else Ok ({[id]} ∪ st.1, st.2 ++ [id]).

(** A seat's neighbours are the seats before and after it, its position its place. *)
Definition adjacency_of (rowKey : string) (rank : Z) (identities : list string) (i : nat) (id : string) : SeatAdjacency := {|
  sa_SeatIdentity := id;
  sa_Left := match i with O => None | S j => identities !! j end;
  sa_Right := identities !! S i;
  sa_RowKey := rowKey; sa_Position := wrap32 (Z.of_nat i + 1); sa_RowRank := rank |}.

Definition row_adjacency (rowKey : string) (rank : Z) (identities : list string) : list SeatAdjacency :=
  imap (adjacency_of rowKey rank identities) identities.

Definition derive_row (st : Z * gset string * list SeatAdjacency) (ref : rowRef) : result ResolveError (Z * gset string * list SeatAdjacency) :=
  let '(rank, seen, out) := st in
  let row := rf_row ref in
  let rank := wrap32 (rank + 1) in
  _ ← fold_result new_position ∅ (map gs_Position (gr_Seats row));
  ids ← fold_result new_identity (seen, []) (isort (on_key gs_Position Z.ltb) (gr_Seats row));
  if bool_decide (gr_ID row = uuid_Nil) then Err ErrGeometryInvalid
  else Ok (rank, ids.1, out ++ row_adjacency (uuid_String (gr_ID row)) rank ids.2).

Definition derive_adjacency (g : Geometry) : result ResolveError (list SeatAdjacency) :=
  refs ← fold_result ref_section (∅, []) (ge_Sections g);
  st ← fold_result derive_row (0, ∅, []) (isort ref_before refs.2);
  if bool_decide (length st.2 = 0%nat) then Err ErrGeometryInvalid else Ok st.2.

Definition resolveSeatMapGeometry (seatMapID : uuid) (a : Answer Geometry) : result ResolveError (list SeatAdjacency) :=
  match a with
  | NoAnswer => Err errUnclassified
  | StatusOf code => if (code =? StatusNotFound) || (code =? StatusGone) then Err ErrGeometryInvalid else Err errUnclassified
  | TooLong | Undecodable => Err ErrGeometryInvalid
  | Document g alone =>
      if negb alone then Err ErrGeometryInvalid
      else if negb (bool_decide (ge_ID g = seatMapID)) then Err ErrGeometryInvalid
      else if negb (bool_decide (ge_Status g = "published"%string)) then Err ErrGeometryInvalid
      else derive_adjacency g
  end.

(** ** The read of a geometry *)

Definition maxGeometryBytes : Z := 8388608.

(** [io.ReadAll] of an [io.LimitReader]. *)
Fixpoint read_limited (n : Z) (body : string) : string :=
  match body with
  | EmptyString => EmptyString
  | String c body => if n <=? 0 then EmptyString else String c (read_limited (n - 1) body)
  end.

(** Nothing came back, or a status with the bytes that came, which may have broken off. *)
Inductive Response := NoResponse | Replied (code : Z) (body : string) (whole : bool).

(** The first value that the bytes hold, and whether it is the only one. *)
Definition read_geometry (decode : string → option (Geometry * bool)) (r : Response) : Answer Geometry :=
  match r with
  | NoResponse => NoAnswer
  | Replied code body whole =>
      if negb (code =? StatusOK) then StatusOf code
      else if negb whole && (Z.of_nat (String.length body) <? maxGeometryBytes) then NoAnswer
      else match decode (read_limited maxGeometryBytes body) with
           | Some (g, alone) => Document g alone
           | None => Undecodable
           end
  end.

Definition SeatMapAdjacency (decode : string → option (Geometry * bool)) (seatMapID : uuid) (r : Response) : result ResolveError (list SeatAdjacency) :=
  resolveSeatMapGeometry seatMapID (read_geometry decode r).

Lemma read_limited_all n body : Z.of_nat (String.length body) ≤ n → read_limited n body = body.
Proof.
  revert n. induction body as [|c body IH]; intros n Hn; [done|]. cbn [read_limited String.length] in *.
  destruct (Z.leb_spec n 0); [lia|]. f_equal. apply IH. lia.
Qed.

(** A whole document within the cap is what it decodes to. *)
Lemma SeatMapAdjacency_whole decode id body g : Z.of_nat (String.length body) ≤ maxGeometryBytes → decode body = Some (g, true) →
  SeatMapAdjacency decode id (Replied StatusOK body true) = resolveSeatMapGeometry id (Document g true).
Proof. intros Hl Hd. unfold SeatMapAdjacency. cbn [read_geometry negb andb]. by rewrite Z.eqb_refl, read_limited_all, Hd. Qed.

(** The row of the store that the consumer makes of a derived seat. *)
Definition stored_row (a : SeatAdjacency) : SeatAdjacencyRow := {|
  sj_SeatIdentity := sa_SeatIdentity a; sj_Left := sa_Left a; sj_Right := sa_Right a;
  sj_RowKey := Some (sa_RowKey a); sj_Position := Some (sa_Position a); sj_RowRank := Some (sa_RowRank a) |}.

(** ** Pins *)

Record SeatPin := {
  sp_ID : uuid;
  sp_OrganizerID : uuid;
  sp_SeatMapID : uuid;
  sp_SeatIdentity : string;
  sp_PinnedBy : string;
}.

Definition pin_complete (p : SeatPin) : bool :=
  negb (bool_decide (sp_ID p = uuid_Nil)) && negb (bool_decide (sp_OrganizerID p = uuid_Nil)) &&
  negb (bool_decide (sp_SeatMapID p = uuid_Nil)) && negb (bool_decide (TrimSpace (sp_SeatIdentity p) = ""%string)) &&
  negb (bool_decide (TrimSpace (sp_PinnedBy p) = ""%string)).

(** A row is complete and past the row before it. *)
Definition accept_pin (st : uuid * list SeatPin) (p : SeatPin) : result ResolveError (uuid * list SeatPin) :=
  if negb (pin_complete p) then Err errUnclassified
  else if negb (bool_decide (st.1 = uuid_Nil)) && negb (uuid_ltb st.1 (sp_ID p)) then Err errUnclassified
  else Ok (sp_ID p, st.2 ++ [p]).

(** The body is [None] where the document has no pins. *)
Definition listSeatPins (after : uuid) (limit : Z) (a : Answer (option (list SeatPin))) : result ResolveError (list SeatPin) :=
  if limit <=? 0 then Err errUnclassified
  else
    match a with
    | NoAnswer | StatusOf _ | Undecodable => Err errUnclassified
    | TooLong => Err ErrSeatPinPageTooLarge
    | Document b alone =>
        if negb alone then Err errUnclassified
        else match b with
             | None => Err errUnclassified
             | Some pins =>
                 if Z.of_nat (length pins) >? limit then Err errUnclassified
                 else st ← fold_result accept_pin (after, []) pins; Ok st.2
             end
    end.

(** The answer is a status or none; only a conflict is catalog's refusal of the
    seats, and no seats need no request. *)
Definition batchPin (seats : list string) (a : option Z) : result ResolveError unit :=
  if bool_decide (length seats = 0%nat) then Ok tt
  else match a with
       | None => Err errUnclassified
       | Some code => if code =? StatusOK then Ok tt else if code =? StatusConflict then Err ErrSeatPinRejected else Err errUnclassified
       end.
End Geometry.
