(* ===== verification/GeometryOrder.v ===== *)
(** * The projection of a geometry

    What the derivation of [consumer/catalog.go] (Geometry.v) makes of a seat map:
    the rows in their declared order are numbered from 1, the seats of each in
    theirs, and the store's validation (SeatMap.v) accepts the result exactly if
    no two rows with seats share an id. *)

From stdpp Require Import pretty.
From S2P Require Import Prelude Text Sha256 Format Tables Inventory Claims SeatMap SeatClaims InventoryMoves ClaimMoves SeatMoves InventorySafety SeatOrder Projections Geometry.
#[local] Open Scope Z_scope.

Section GeometryOrder.
Context `{UU : UUID}.
Implicit Types (r o : SeatAdjacencyRow) (ids : list string).

(** ** What is derived *)

(** The identities of a row, in the order of their positions, trimmed. *)
Definition row_identities (row : geometryRow) : list string :=
  map (λ s, TrimSpace (gs_SeatIdentity s)) (isort (on_key gs_Position Z.ltb) (gr_Seats row)).

Definition row_key (row : geometryRow) : string := uuid_String (gr_ID row).

(** The numbered rows that have seats, with their keys. *)
Record Block := { bl_key : string; bl_rank : Z; bl_ids : list string }.

Definition block_seats (b : Block) : list SeatAdjacency := row_adjacency (bl_key b) (bl_rank b) (bl_ids b).

Fixpoint blocks_of (rank : Z) (rows : list geometryRow) : list Block :=
  match rows with
  | [] => []
  | row :: rows => {| bl_key := row_key row; bl_rank := rank + 1; bl_ids := row_identities row |} :: blocks_of (rank + 1) rows
  end.

(** The rows of a map in their declared order: by the position of the section,
    then by their own. *)
Definition declared_rows (g : Geometry) : list geometryRow :=
  List.concat (map (λ s, isort (on_key gr_Position Z.ltb) (ge_Rows s)) (isort (on_key ge_Position Z.ltb) (ge_Sections g))).

Lemma new_identities seats : ∀ seen ids seen' ids', fold_result new_identity (seen, ids) seats = Ok (seen', ids') →
  ids' = ids ++ map (λ s, TrimSpace (gs_SeatIdentity s)) seats ∧
  Forall (λ id, id ≠ ""%string ∧ id ∉ seen) (map (λ s, TrimSpace (gs_SeatIdentity s)) seats) ∧
  NoDup (map (λ s, TrimSpace (gs_SeatIdentity s)) seats) ∧
  seen' = seen ∪ list_to_set (map (λ s, TrimSpace (gs_SeatIdentity s)) seats).
Proof.
  induction seats as [|s seats IH]; cbn; intros seen ids seen' ids'; [intros [= <- <-]; rewrite app_nil_r; split_and!; [done|constructor|constructor|set_solver]|].
  unfold new_identity at 1. set (id := TrimSpace (gs_SeatIdentity s)). case_bool_decide as He; [done|]. case_bool_decide as Hs; [done|]. cbn.
  intros (-> & Hf & Hnd & ->)%IH. split_and!.
  - by rewrite <-app_assoc.
  - constructor; [done|]. eapply list.Forall_impl; [exact Hf|]. cbn. intros x [? Hx]. split; [done|]. set_solver.
  - apply list.NoDup_cons. split; [|done]. intros Hin. rewrite list.Forall_forall in Hf. destruct (Hf _ Hin) as [_ Hx]. set_solver.
  - set_solver.
Qed.

(** ** Positions *)

Lemma new_positions l : ∀ seen seen', fold_result new_position seen l = Ok seen' → NoDup l ∧ (∀ x, x ∈ l → x ∉ seen) ∧ (∀ x, x ∈ l → 0 < x).
Proof.
  induction l as [|x l IH]; cbn; intros seen seen'; [intros _; split_and!; [constructor|intros x Hx; by apply not_elem_of_nil in Hx..]|].
  unfold new_position at 1. destruct (Z.leb_spec x 0); [done|]. case_bool_decide as Hs; [done|]. intros (Hnd & Hn & Hp)%IH. split_and!.
  - apply list.NoDup_cons. split; [|done]. intros Hin. specialize (Hn x Hin). set_solver.
  - intros y [->|Hy]%list.elem_of_cons; [done|]. specialize (Hn y Hy). set_solver.
  - intros y [->|Hy]%list.elem_of_cons; [done|]. auto.
Qed.

(** ** The rows, as they arrive and as they are declared *)

Definition ref_tag (ref : rowRef) : Z * geometryRow := (rf_sectionPos ref, rf_row ref).

Definition section_tags (s : geometrySection) (rows : list geometryRow) : list (Z * geometryRow) := map (pair (ge_Position s)) rows.

Definition tag_before : Z * geometryRow → Z * geometryRow → bool := lex (on_key fst Z.ltb) (on_key (λ t, gr_Position t.2) Z.ltb).

Lemma ref_rows pos rows : ∀ seen refs seen' refs', fold_result (ref_row pos) (seen, refs) rows = Ok (seen', refs') →
  map ref_tag refs' = map ref_tag refs ++ map (pair pos) rows ∧
  (Forall (λ ref, rf_rowPos ref = gr_Position (rf_row ref)) refs → Forall (λ ref, rf_rowPos ref = gr_Position (rf_row ref)) refs') ∧
  fold_result new_position seen (map gr_Position rows) = Ok seen'.
Proof.
  induction rows as [|row rows IH]; cbn; intros seen refs seen' refs'; [intros [= <- <-]; by rewrite app_nil_r|].
  unfold ref_row at 1. cbn. destruct (new_position seen (gr_Position row)) as [seen1|] eqn:Hn; cbn; [|done]. intros (Ht & Hf & Hp)%IH. split_and!.
  - rewrite Ht, map_app, <-app_assoc. done.
  - intros Hr. apply Hf, Forall_app. split; [done|]. by repeat constructor.
  - done.
Qed.

Lemma ref_sections l : ∀ seen refs seen' refs', fold_result ref_section (seen, refs) l = Ok (seen', refs') →
  map ref_tag refs' = map ref_tag refs ++ List.concat (map (λ s, section_tags s (ge_Rows s)) l) ∧
  (Forall (λ ref, rf_rowPos ref = gr_Position (rf_row ref)) refs → Forall (λ ref, rf_rowPos ref = gr_Position (rf_row ref)) refs') ∧
  fold_result new_position seen (map ge_Position l) = Ok seen' ∧
  Forall (λ s, NoDup (map gr_Position (ge_Rows s))) l.
Proof.
  induction l as [|s l IH]; cbn; intros seen refs seen' refs'; [intros [= <- <-]; rewrite app_nil_r; split_and!; [done..|constructor]|].
  unfold ref_section at 1. cbn. destruct (new_position seen (ge_Position s)) as [seen1|] eqn:Hn; cbn; [|done].
  destruct (fold_result (ref_row _) _ _) as [[rp refs1]|] eqn:Hr; cbn; [|done]. apply ref_rows in Hr as (Ht1 & Hf1 & Hp1).
  intros (Ht & Hf & Hp & Hall)%IH. split_and!.
  - rewrite Ht, Ht1, <-app_assoc. done.
  - auto.
  - done.
  - constructor; [|done]. by apply new_positions in Hp1 as [? _].
Qed.

(** Sorting the rows as they arrived is sorting the sections, and the rows of each. *)
Lemma sorted_weaken {A} (R R' : A → A → Prop) l : (∀ a b, a ∈ l → b ∈ l → R a b → R' a b) → StronglySorted R l → StronglySorted R' l.
Proof.
  intros Hr H. induction H as [|x l Hl IH Hx]; constructor.
  - apply IH. intros a b Ha Hb. apply Hr; by apply list_elem_of_further.
  - rewrite List.Forall_forall in *. intros y Hy. apply Hr; [apply list_elem_of_here|apply list_elem_of_further; by apply list_elem_of_In|by apply Hx].
Qed.

Lemma sorted_concat {A B} (R : B → B → Prop) (f : A → list B) l : (∀ s, s ∈ l → StronglySorted R (f s)) →
  StronglySorted (λ s t, ∀ x y, x ∈ f s → y ∈ f t → R x y) l → StronglySorted R (List.concat (map f l)).
Proof.
  intros Hf H. induction H as [|s l Hl IH Hs]; cbn; [constructor|]. apply StronglySorted_app_2.
  - intros x y Hx Hy. apply list_elem_of_In, in_concat in Hy as (ys & (t & <- & Ht)%in_map_iff & Hy%list_elem_of_In).
    rewrite List.Forall_forall in Hs. by apply (Hs t Ht).
  - apply Hf, list_elem_of_here.
  - apply IH. intros t Ht. by apply Hf, list_elem_of_further.
Qed.

Lemma perm_concat {A B} (f f' : A → list B) l l' : (∀ s, f s ≡ₚ f' s) → l ≡ₚ l' → List.concat (map f l) ≡ₚ List.concat (map f' l').
Proof.
  intros Hf Hp. transitivity (List.concat (map f' l)).
  - clear Hp. induction l as [|s l IH]; cbn; [done|]. by rewrite Hf, IH.
  - rewrite <-!flat_map_concat_map. by apply Permutation_flat_map.
Qed.

Lemma elem_of_tags l t : t ∈ List.concat (map (λ s, section_tags s (ge_Rows s)) l) ↔ ∃ s, s ∈ l ∧ t.1 = ge_Position s ∧ t.2 ∈ ge_Rows s.
Proof.
  rewrite list_elem_of_In, in_concat. split.
  - intros (ts & (s & <- & Hs)%in_map_iff & (row & <- & Hrow)%in_map_iff). exists s. by rewrite !list_elem_of_In.
  - intros (s & Hs & Hf & Hr). exists (section_tags s (ge_Rows s)). rewrite list_elem_of_In in Hs. split; [by apply (in_map (λ s, section_tags s (ge_Rows s)))|].
    destruct t as [p row]. cbn in *. subst p. apply in_map, list_elem_of_In, Hr.
Qed.

Lemma on_Z_tie {A} (k : A → Z) a b : on_key k Z.ltb a b = false → on_key k Z.ltb b a = false → k a = k b.
Proof. unfold on_key. lia. Qed.

Lemma tag_tie a b : tag_before a b = false → tag_before b a = false → a.1 = b.1 ∧ gr_Position a.2 = gr_Position b.2.
Proof.
  unfold tag_before, lex. destruct (on_key fst Z.ltb a b) eqn:H1; [done|]. destruct (on_key fst Z.ltb b a) eqn:H2; [done|].
  intros H3 H4. split; [by apply (on_Z_tie fst)|by apply (on_Z_tie (λ t : Z * geometryRow, gr_Position t.2))].
Qed.

Lemma tags_distinct l a b : NoDup (map ge_Position l) → Forall (λ s, NoDup (map gr_Position (ge_Rows s))) l →
  a ∈ List.concat (map (λ s, section_tags s (ge_Rows s)) l) → b ∈ List.concat (map (λ s, section_tags s (ge_Rows s)) l) →
  tag_before a b = false → tag_before b a = false → a = b.
Proof.
  intros Hsec Hrows (s & Hs & Ha1 & Ha2)%elem_of_tags (t & Ht & Hb1 & Hb2)%elem_of_tags H1 H2. destruct (tag_tie a b H1 H2) as [Hp Hr].
  assert (s = t) as -> by (apply (NoDup_map_eq ge_Position l); [done..|by rewrite <-Ha1, <-Hb1]).
  rewrite list.Forall_forall in Hrows. destruct a as [pa ra], b as [pb rb]. cbn in *. subst pa pb. f_equal.
  by apply (NoDup_map_eq gr_Position (ge_Rows t)); [apply Hrows| | |].
Qed.

Lemma declared_sorted l : NoDup (map ge_Position l) →
  StronglySorted (not_after tag_before)
    (List.concat (map (λ s, section_tags s (isort (on_key gr_Position Z.ltb) (ge_Rows s))) (isort (on_key ge_Position Z.ltb) l))).
Proof.
  intros Hnd. apply sorted_concat.
  - intros s _. apply StronglySorted_map. apply sorted_weaken with (R := not_after (on_key gr_Position Z.ltb)); [|apply isort_sorted, _].
    intros a b _ _. unfold not_after, tag_before, lex, on_key. cbn. rewrite Z.ltb_irrefl. done.
  - assert (Hnd' : NoDup (map ge_Position (isort (on_key ge_Position Z.ltb) l))) by (by rewrite isort_perm).
    pose proof (isort_sorted (on_key ge_Position Z.ltb) l) as Hs. revert Hnd' Hs. generalize (isort (on_key ge_Position Z.ltb) l). clear.
    intros l Hnd Hs. induction Hs as [|s l Hl IH Hx]; constructor; cbn in Hnd; apply list.NoDup_cons in Hnd as [Hs Hnd]; [by apply IH|].
    rewrite List.Forall_forall in *. intros t Ht x y (row & <- & _)%list_elem_of_In%in_map_iff (row' & <- & _)%list_elem_of_In%in_map_iff.
    specialize (Hx t Ht). unfold not_after, tag_before, lex, on_key in *. cbn.
    assert (ge_Position s ≠ ge_Position t) by (intros He; apply Hs; rewrite He; by apply list_elem_of_In, in_map).
    destruct (Z.ltb_spec (ge_Position t) (ge_Position s)); [lia|]. destruct (Z.ltb_spec (ge_Position s) (ge_Position t)); [done|lia].
Qed.

Lemma declared_order (g : Geometry) refs positions : fold_result ref_section (∅, []) (ge_Sections g) = Ok (positions, refs) →
  map rf_row (isort ref_before refs) = declared_rows g.
Proof.
  intros (Ht & Hf & Hp & Hrows)%ref_sections. apply new_positions in Hp as (Hsec & _ & _). cbn [map app] in Ht. specialize (Hf (List.Forall_nil _)).
  assert (Hl : map ref_tag (isort ref_before refs) =
    List.concat (map (λ s, section_tags s (isort (on_key gr_Position Z.ltb) (ge_Rows s))) (isort (on_key ge_Position Z.ltb) (ge_Sections g)))).
  { apply (StronglySorted_unique_strong (not_after tag_before)).
    - intros a b Ha Hb H1 H2.
      assert (Hin : ∀ x, x ∈ map ref_tag (isort ref_before refs) → x ∈ List.concat (map (λ s, section_tags s (ge_Rows s)) (ge_Sections g))).
      { intros x. rewrite isort_perm, Ht. done. }
      assert (Hin' : ∀ x, x ∈ List.concat (map (λ s, section_tags s (isort (on_key gr_Position Z.ltb) (ge_Rows s))) (isort (on_key ge_Position Z.ltb) (ge_Sections g))) →
        x ∈ List.concat (map (λ s, section_tags s (ge_Rows s)) (ge_Sections g))).
      { intros x Hx. eapply elem_of_Permutation_proper; [|exact Hx]. symmetry.
        apply perm_concat; [intros s; unfold section_tags; by rewrite isort_perm|apply isort_perm]. }
      eapply tags_distinct; [exact Hsec|exact Hrows|by apply Hin|by apply Hin'|exact H2|exact H1].
    - apply StronglySorted_map. apply sorted_weaken with (R := not_after ref_before).
      + intros a b Ha Hb. rewrite elem_of_isort in Ha, Hb. rewrite list.Forall_forall in Hf. unfold not_after, ref_before, tag_before, lex, on_key, ref_tag. cbn.
        rewrite <-(Hf a Ha), <-(Hf b Hb). destruct (_ <? _); [done|]. destruct (_ <? _); [done|]. destruct (_ <? _); done.
      + apply isort_sorted. apply lex_less; [apply on_key_less, _|apply lex_less; apply on_key_less, _].
    - by apply declared_sorted.
    - rewrite isort_perm, Ht. apply perm_concat; [intros s; unfold section_tags; by rewrite isort_perm|symmetry; apply isort_perm]. }
  assert (Hm : map snd (map ref_tag (isort ref_before refs)) = declared_rows g); [|by rewrite map_map in Hm].
  rewrite Hl. unfold declared_rows. rewrite concat_map, map_map. f_equal. apply map_ext. intros s. unfold section_tags. by rewrite map_map, map_id.
Qed.

(** ** The seats, row by row *)

Lemma derive_rows refs : ∀ rank seen out rank' seen' out', fold_result derive_row (rank, seen, out) refs = Ok (rank', seen', out') →
  0 ≤ rank → rank + Z.of_nat (length refs) ≤ MaxInt32 →
  let rows := map rf_row refs in
  out' = out ++ List.concat (map block_seats (blocks_of rank rows)) ∧
  Forall (λ id, id ≠ ""%string ∧ id ∉ seen) (List.concat (map row_identities rows)) ∧ NoDup (List.concat (map row_identities rows)).
Proof.
  induction refs as [|ref refs IH]; cbn [fold_result map length blocks_of List.concat]; intros rank seen out rank' seen' out' Hd H0 Hlen.
  { injection Hd as <- <- <-. rewrite app_nil_r. split_and!; [done|constructor|constructor]. }
  revert Hd. unfold derive_row at 1. rewrite wrap32_id by (unfold int32, MinInt32, MaxInt32 in *; lia).
  destruct (fold_result new_position _ _); cbn; [|done].
  destruct (fold_result new_identity _ _) as [[seen1 ids]|] eqn:Hi; cbn; [|done]. apply new_identities in Hi as (-> & Hf1 & Hnd1 & ->).
  case_bool_decide; [done|]. intros (-> & Hf & Hnd)%IH; [|lia..]. cbn [app]. fold (row_identities (rf_row ref)) in *. split_and!.
  - by rewrite <-app_assoc.
  - apply Forall_app. split; [done|]. eapply list.Forall_impl; [exact Hf|]. cbn; intros ? [? Hx]. split; [done|]. set_solver.
  - apply list.NoDup_app. split_and!; [done| |done]. intros y Hx Hx'. rewrite list.Forall_forall in Hf. destruct (Hf y Hx') as [_ Hn]. set_solver.
Qed.

Lemma blocks_keys rank rows : map bl_key (blocks_of rank rows) = map row_key rows.
Proof. revert rank. induction rows as [|row rows IH]; intros rank; cbn; [done|]. by rewrite IH. Qed.

Lemma blocks_ids rank rows : map bl_ids (blocks_of rank rows) = map row_identities rows.
Proof. revert rank. induction rows as [|row rows IH]; intros rank; cbn; [done|]. by rewrite IH. Qed.

Lemma blocks_rank rank rows b : b ∈ blocks_of rank rows → rank < bl_rank b.
Proof.
  revert rank. induction rows as [|row rows IH]; intros rank; cbn; [by intros ?%not_elem_of_nil|].
  intros [->|Hb]%list.elem_of_cons; cbn; [lia|]. apply IH in Hb. lia.
Qed.

Lemma blocks_ranks rank rows : NoDup (map bl_rank (blocks_of rank rows)).
Proof.
  revert rank. induction rows as [|row rows IH]; intros rank; cbn; [constructor|]. apply list.NoDup_cons. split; [|done].
  intros (b & Hr & Hb)%list_elem_of_In%in_map_iff. apply list_elem_of_In, blocks_rank in Hb. lia.
Qed.

Section Blocks.
Context (bs : list Block).
Hypothesis ranks : NoDup (map bl_rank bs).
Hypothesis ranks_positive : ∀ b, b ∈ bs → 0 < bl_rank b.
Hypothesis keys_shown : ∀ b, b ∈ bs → TrimSpace (bl_key b) ≠ ""%string.
Hypothesis sizes : ∀ b, b ∈ bs → Z.of_nat (length (bl_ids b)) ≤ MaxInt32.

Definition projected : list SeatAdjacencyRow := map stored_row (List.concat (map block_seats bs)).

(** The seat at a place of a row. *)
Definition seat_at (b : Block) (i : nat) (id : string) : SeatAdjacencyRow := stored_row (adjacency_of (bl_key b) (bl_rank b) (bl_ids b) i id).

Lemma elem_of_projected r : r ∈ projected ↔ ∃ b i id, b ∈ bs ∧ bl_ids b !! i = Some id ∧ r = seat_at b i id.
Proof.
  unfold projected. rewrite list_elem_of_In, in_map_iff. split.
  - intros (a & <- & (ys & (b & <- & Hb)%in_map_iff & Ha%list_elem_of_In)%in_concat). unfold block_seats, row_adjacency in Ha.
    apply elem_of_lookup_imap in Ha as (i & id & -> & Hi). exists b, i, id. by rewrite list_elem_of_In.
  - intros (b & i & id & Hb & Hi & ->). exists (adjacency_of (bl_key b) (bl_rank b) (bl_ids b) i id). split; [done|]. apply in_concat.
    exists (block_seats b). split; [apply in_map; by apply list_elem_of_In|]. apply list_elem_of_In. unfold block_seats, row_adjacency.
    apply elem_of_lookup_imap. by exists i, id.
Qed.

Lemma projected_ids : map sj_SeatIdentity projected = List.concat (map bl_ids bs).
Proof.
  unfold projected. rewrite map_map, concat_map, map_map. f_equal. apply map_ext. intros b. unfold block_seats, row_adjacency.
  change (sj_SeatIdentity ∘ stored_row <$> imap (adjacency_of (bl_key b) (bl_rank b) (bl_ids b)) (bl_ids b) = bl_ids b).
  rewrite fmap_imap. apply list_eq. intros i. rewrite list_lookup_imap. by destruct (bl_ids b !! i).
Qed.

Lemma seat_position b i id : b ∈ bs → bl_ids b !! i = Some id → wrap32 (Z.of_nat i + 1) = Z.of_nat i + 1.
Proof. intros Hb Hi%lookup_lt_Some. apply wrap32_id. specialize (sizes b Hb). unfold int32, MinInt32 in *. lia. Qed.

Lemma seat_place b i id : b ∈ bs → bl_ids b !! i = Some id → place (seat_at b i id) = Some (bl_key b, Z.of_nat i + 1, bl_rank b).
Proof. intros Hb Hi. unfold place, seat_at. cbn. by rewrite (seat_position b i id). Qed.
Lemma seat_spot b i id : b ∈ bs → bl_ids b !! i = Some id → spot (seat_at b i id) = Some (bl_key b, Z.of_nat i + 1).
Proof. intros Hb Hi. unfold spot. by rewrite (seat_place b i id). Qed.

Lemma rank_block b c : b ∈ bs → c ∈ bs → bl_rank b = bl_rank c → b = c.
Proof. intros Hb Hc. by apply (NoDup_map_eq bl_rank bs). Qed.

(** The keys tell the rows that have seats apart. *)
Definition keyed_apart : Prop := ∀ b c, b ∈ bs → c ∈ bs → bl_ids b ≠ [] → bl_ids c ≠ [] → bl_key b = bl_key c → b = c.

Lemma seated_block b i id : bl_ids b !! i = Some id → bl_ids b ≠ [].
Proof. intros H Hn. by rewrite Hn in H. Qed.

Lemma beside_seat b i id e : bl_ids b !! i = Some id →
  (sj_Left (seat_at b i id) = Some e ↔ ∃ j, i = S j ∧ bl_ids b !! j = Some e) ∧ (sj_Right (seat_at b i id) = Some e ↔ bl_ids b !! S i = Some e).
Proof.
  intros Hi. split; [|done]. cbn. destruct i as [|j]; cbn.
  - split; [done|]. by intros (j & ? & _).
  - split; [by exists j|]. by intros (k & [= ->] & ?).
Qed.

Lemma projected_ordered : keyed_apart → Ordered projected.
Proof.
  intros Hk.
  assert (Hspot : ∀ o k p, o ∈ projected → spot o = Some (k, p) → ∃ b i id, b ∈ bs ∧ bl_ids b !! i = Some id ∧ o = seat_at b i id ∧ bl_key b = k ∧ Z.of_nat i + 1 = p).
  { intros o k p (b & i & id & Hb & Hi & ->)%elem_of_projected Ho. rewrite (seat_spot b i id) in Ho by done. injection Ho as <- <-. eauto 10. }
  assert (Hin : ∀ b i id, b ∈ bs → bl_ids b !! i = Some id → seat_at b i id ∈ projected) by (intros; apply elem_of_projected; eauto 10).
  assert (Hside : ∀ b i id e d, b ∈ bs → bl_ids b !! i = Some id →
    (∃ o, o ∈ projected ∧ spot o = Some (bl_key b, Z.of_nat i + 1 + d) ∧ sj_SeatIdentity o = e) ↔ ∃ j, Z.of_nat j = Z.of_nat i + d ∧ bl_ids b !! j = Some e).
  { intros b i id e d Hb Hi. split.
    - intros (o & Ho & Hs & <-). destruct (Hspot o _ _ Ho Hs) as (c & j & id' & Hc & Hj & -> & Hkey & Hp).
      assert (c = b) as -> by (apply Hk; eauto using seated_block). exists j. split; [lia|done].
    - intros (j & Hj & He). exists (seat_at b j e). split_and!; [by apply Hin| |done]. rewrite (seat_spot b j e) by done. do 2 f_equal. lia. }
  split.
  - intros r (b & i & id & Hb & Hi & ->)%elem_of_projected. exists (bl_key b), (Z.of_nat i + 1), (bl_rank b).
    split_and!; [by apply seat_place|lia|by apply ranks_positive|by apply keys_shown].
  - intros r o [k p] Hr Ho Hsr Hso. destruct (Hspot r k p Hr Hsr) as (b & i & id & Hb & Hi & -> & Hkb & Hpb).
    destruct (Hspot o k p Ho Hso) as (c & j & id' & Hc & Hj & -> & Hkc & Hpc).
    assert (b = c) as -> by (apply Hk; eauto using seated_block; congruence). assert (i = j) as -> by lia. rewrite Hi in Hj. by injection Hj as ->.
  - intros r o k p q n m (b & i & id & Hb & Hi & ->)%elem_of_projected (c & j & id' & Hc & Hj & ->)%elem_of_projected.
    rewrite (seat_place b i id), (seat_place c j id') by done. intros [= Hkb _ <-] [= Hkc _ <-]. f_equal. apply Hk; eauto using seated_block. congruence.
  - intros r o j k p q n (b & i & id & Hb & Hi & ->)%elem_of_projected (c & i' & id' & Hc & Hi' & ->)%elem_of_projected.
    rewrite (seat_place b i id), (seat_place c i' id') by done. intros [= <- _ Hn] [= <- _ Hm]. f_equal. apply rank_block; [done..|congruence].
  - intros r k p q Hr Hs Hq. destruct (Hspot r k p Hr Hs) as (b & i & id & Hb & Hi & -> & <- & <-).
    destruct (lookup_lt_is_Some_2 (bl_ids b) (Z.to_nat (q - 1))) as [e He]; [apply lookup_lt_Some in Hi; lia|].
    exists (seat_at b (Z.to_nat (q - 1)) e). split; [by apply Hin|]. rewrite (seat_spot b _ e) by done. do 2 f_equal. lia.
  - intros r k p e Hr Hs. destruct (Hspot r k p Hr Hs) as (b & i & id & Hb & Hi & -> & <- & <-).
    rewrite (proj1 (beside_seat b i id e Hi)). replace (Z.of_nat i + 1 - 1) with (Z.of_nat i + 1 + (-1)) by lia. rewrite (Hside b i id) by done.
    split; intros (j & Hj & He); exists j; (split; [lia|done]).
  - intros r k p e Hr Hs. destruct (Hspot r k p Hr Hs) as (b & i & id & Hb & Hi & -> & <- & <-).
    rewrite (proj2 (beside_seat b i id e Hi)), (Hside b i id) by done.
    split; [intros He; exists (S i); split; [lia|done]|intros (j & Hj & He)]. by replace (S i) with j by lia.
Qed.

Lemma projected_mutual r e : r ∈ projected → e ∈ edges r → ∃ o, o ∈ projected ∧ sj_SeatIdentity o = e ∧ sj_SeatIdentity r ∈ edges o.
Proof.
  intros (b & i & id & Hb & Hi & ->)%elem_of_projected He.
  assert (Hin : ∀ j x, bl_ids b !! j = Some x → seat_at b j x ∈ projected) by (intros; apply elem_of_projected; eauto 10).
  apply elem_of_edges in He as [He|He]; apply (beside_seat b i id e Hi) in He as He'.
  - destruct He' as (j & -> & Hj). exists (seat_at b j e). split_and!; [by apply Hin|done|]. apply elem_of_edges. by right.
  - exists (seat_at b (S i) e). split_and!; [by apply Hin|done|]. apply elem_of_edges. by left.
Qed.

Lemma projected_valid_iff : projected ≠ [] → Valid projected ↔ keyed_apart.
Proof.
  intros Hne. split.
  - intros [_ Ho] b c Hb Hc Hib Hic Hk. destruct (bl_ids b) as [|x l] eqn:Eb; [done|]. destruct (bl_ids c) as [|y l'] eqn:Ec; [done|].
    assert (Hx : bl_ids b !! 0%nat = Some x) by (by rewrite Eb). assert (Hy : bl_ids c !! 0%nat = Some y) by (by rewrite Ec).
    destruct Ho as [Hu|Ho].
    + destruct (Hu (seat_at b 0 x)) as [? _]; [apply elem_of_projected; eauto 10|done].
    + apply rank_block; [done..|]. eapply (or_rank _ Ho (seat_at b 0 x) (seat_at c 0 y)); [apply elem_of_projected; eauto 10..| |].
      * by apply seat_place.
      * rewrite Hk. by apply seat_place.
  - intros Hk. split; [apply projected_mutual|]. right. by apply projected_ordered.
Qed.
End Blocks.

(** ** What is trimmed is not blank *)

Lemma substring_shorter m n s : (String.length (String.substring m n s) ≤ String.length s - m)%nat.
Proof.
  revert m n. induction s as [|c s IH]; intros [|m] [|n]; cbn; try lia.
  - specialize (IH 0%nat n). lia.
  - apply IH.
  - apply IH.
Qed.

Lemma trim_with_ends sp n s : (∀ p, p ∈ sp → p ≠ ""%string) → (String.length s ≤ n)%nat → ∀ p, p ∈ sp → String.prefix p (trim_with sp n s) = false.
Proof.
  intros Hsp. revert s. induction n as [|n IH]; intros s Hn p Hp; cbn.
  - destruct s; [|cbn in Hn; lia]. specialize (Hsp p Hp). by destruct p.
  - destruct (List.find _ sp) as [q|] eqn:Hq.
    + apply List.find_some in Hq as [Hq%list_elem_of_In Hqs]. apply IH; [|done]. specialize (Hsp q Hq).
      pose proof (substring_shorter (String.length q) (String.length s) s). destruct q, s; cbn in *; try done; lia.
    + apply (List.find_none _ _ Hq), list_elem_of_In, Hp.
Qed.

Lemma bytes_of_rev s : list_ascii_of_string (String.rev s) = List.rev (list_ascii_of_string s).
Proof.
  assert (Hg : ∀ s t, list_ascii_of_string (String.rev_app s t) = List.rev (list_ascii_of_string s) ++ list_ascii_of_string t).
  { clear. intros s. induction s as [|c s IH]; intros t; cbn; [done|]. rewrite IH. cbn. by rewrite <-app_assoc. }
  unfold String.rev. rewrite Hg. apply app_nil_r.
Qed.

Lemma length_rev_string s : String.length (String.rev s) = String.length s.
Proof.
  assert (Hl : ∀ s, length (list_ascii_of_string s) = String.length s) by (clear; intros s; induction s; cbn; congruence).
  by rewrite <-!Hl, bytes_of_rev, length_rev.
Qed.

Lemma trimmed_not_blank s : TrimSpace s ≠ ""%string → not_blank (TrimSpace s) = true.
Proof.
  unfold TrimSpace, TrimRight. set (t := TrimLeft s). set (u := trim_with _ _ _). intros Hne.
  assert (Hp : String.prefix " " u = false).
  { apply trim_with_ends; [|by rewrite length_rev_string|by apply (bool_decide_unpack _); vm_compute].
    intros p Hp. apply (proj1 (List.Forall_forall (λ p, p ≠ ""%string) (map String.rev spaces))); [|by apply list_elem_of_In].
    apply (bool_decide_unpack _). by vm_compute. }
  unfold not_blank. rewrite bytes_of_rev. destruct u as [|c u]; [done|]. cbn. rewrite forallb_app. cbn.
  replace (is_space c) with false; [by rewrite andb_false_r|]. unfold is_space. symmetry. apply Nat.eqb_neq. intros Hc.
  assert (c = Ascii.ascii_of_nat 32) as -> by (by rewrite <-(Ascii.ascii_nat_embedding c), Hc). by destruct u.
Qed.

(** ** A fresh pool takes what is valid *)

Definition storable r : Prop :=
  not_blank (sj_SeatIdentity r) = true ∧ not_blank_or_null (sj_Left r) = true ∧ not_blank_or_null (sj_Right r) = true ∧ order_shape r = true.

Lemma upserts_succeed slot rows : Ordered rows → (∀ r, r ∈ rows → storable r) → ∀ l pre db, rows = pre ++ l →
  NoDup (map sj_SeatIdentity rows) → Stores slot db pre → ∃ db', fold_result (upsert_adjacency slot) db l = Ok db' ∧ Stores slot db' rows ∧ in_pools db' = in_pools db.
Proof.
  intros Ho Hs l. induction l as [|r l IH]; intros pre db Heq Hnd Hst; [exists db; by rewrite Heq, app_nil_r|].
  assert (Hr : r ∈ rows) by (rewrite Heq; apply elem_of_app; right; apply list_elem_of_here).
  assert (Habs : in_adjacency db !! (slot, sj_SeatIdentity r) = None).
  { destruct (in_adjacency db !! _) as [o|] eqn:Hl; [|done]. apply Hst in Hl as [Hin Hid]. rewrite Heq, map_app in Hnd.
    apply list.NoDup_app in Hnd as (_ & Hd & _). exfalso. apply (Hd (sj_SeatIdentity r)); [|apply list_elem_of_here].
    rewrite <-Hid. apply list_elem_of_In, in_map, list_elem_of_In, Hin. }
  assert (Hfree : place_taken slot r db = false).
  { unfold place_taken. apply andb_false_iff. right. apply not_true_iff_false. intros (o & Hin & Hp)%existsb_exists.
    apply list_elem_of_In, (stores_elem slot db pre Hst) in Hin. apply andb_prop in Hp as [Hp Hpos%bool_decide_eq_true].
    apply andb_prop in Hp as [Hp Hkey%bool_decide_eq_true]. apply andb_prop in Hp as [Hid _]. apply negb_true_iff, bool_decide_eq_false in Hid. apply Hid.
    destruct (or_placed _ Ho r Hr) as (k & p & n & Hpl & _). f_equal. apply (or_distinct _ Ho o r (k, p)); [| |..].
    - rewrite Heq. apply elem_of_app. by left.
    - done.
    - assert (Hoin : o ∈ rows) by (rewrite Heq; apply elem_of_app; by left). destruct (or_placed _ Ho o Hoin) as (k' & p' & n' & Hpo & _).
      rewrite (place_spot _ _ _ _ Hpo). unfold place in Hpl, Hpo. rewrite Hkey, Hpos in Hpo.
      destruct (sj_RowKey r), (sj_Position r), (sj_RowRank r), (sj_RowRank o); try done. injection Hpl as -> -> ->. injection Hpo as <- <- <-. done.
    - by eapply place_spot. }
  cbn. unfold upsert_adjacency at 1. destruct (Hs r Hr) as (-> & -> & -> & ->). rewrite Hfree, (merged_absent _ _ _ Habs). cbn [andb negb].
  destruct (IH (pre ++ [r]) (with_adjacency <[(slot, sj_SeatIdentity r) := r]> db)) as (db' & -> & Hst' & Hp); [by rewrite <-app_assoc|done| |by exists db'].
  intros s o. cbn. rewrite elem_of_snoc. destruct (decide (s = sj_SeatIdentity r)) as [->|Hne].
  - rewrite lookup_insert_eq. split; [intros [= <-]; auto|]. intros [[Hin|Hor] Hid]; [|by rewrite Hor].
    exfalso. pose proof (proj2 (Hst (sj_SeatIdentity r) o) (conj Hin Hid)) as Hl. congruence.
  - rewrite lookup_insert_ne by congruence. rewrite (Hst s o). split; [by intros [? ?]; auto|]. intros [[Hin|Hor] Hid]; [done|congruence].
Qed.

(** ** The theorem *)

Definition seated (row : geometryRow) : bool := negb (length (gr_Seats row) =? 0)%nat.

Definition seated_rows (g : Geometry) : list geometryRow := List.filter seated (declared_rows g).

Definition block_seated (b : Block) : bool := negb (length (bl_ids b) =? 0)%nat.

Lemma blocks_seated rank rows : map bl_key (List.filter block_seated (blocks_of rank rows)) = map row_key (List.filter seated rows).
Proof.
  revert rank. induction rows as [|row rows IH]; intros rank; cbn; [done|]. unfold block_seated at 1, seated at 1. cbn.
  unfold row_identities. rewrite length_map, isort_perm. destruct (_ =? _)%nat; cbn; by rewrite IH.
Qed.

Lemma keyed_apart_NoDup bs : NoDup (map bl_rank bs) → keyed_apart bs ↔ NoDup (map bl_key (List.filter block_seated bs)).
Proof.
  intros Hr.
  assert (Hin : ∀ b, b ∈ List.filter block_seated bs ↔ b ∈ bs ∧ bl_ids b ≠ []).
  { intros b. rewrite elem_of_bool_filter. unfold block_seated. destruct (bl_ids b); cbn; naive_solver. }
  split.
  - intros Hk. assert (Hnd : NoDup (List.filter block_seated bs)).
    { apply (NoDup_fmap_1 bl_rank). apply NoDup_map_filter, Hr. }
    assert (Hg : ∀ l, NoDup l → (∀ b, b ∈ l → b ∈ List.filter block_seated bs) → NoDup (map bl_key l)); [|by apply Hg].
    induction l as [|b l IH]; cbn; [constructor|]. intros [Hb Hl]%list.NoDup_cons Hsub. apply list.NoDup_cons. split.
    + intros (c & Hc & Hcl%list_elem_of_In)%list_elem_of_In%in_map_iff. apply Hb.
      destruct (proj1 (Hin b) (Hsub b (list_elem_of_here _ _))) as [Hb1 Hb2].
      destruct (proj1 (Hin c) (Hsub c (list_elem_of_further _ _ _ Hcl))) as [Hc1 Hc2]. by rewrite (Hk b c Hb1 Hc1 Hb2 Hc2 (eq_sym Hc)).
    + apply IH; [done|]. intros c Hc. by apply Hsub, list_elem_of_further.
  - intros Hnd b c Hb Hc Hib Hic Hk. by apply (NoDup_map_eq bl_key _ b c Hnd); [apply Hin..|].
Qed.

Lemma length_block b (bs : list Block) : b ∈ bs → (length (bl_ids b) ≤ length (List.concat (map block_seats bs)))%nat.
Proof.
  induction bs as [|c bs IH]; cbn; [by intros ?%not_elem_of_nil|]. rewrite length_app.
  intros [->|Hb]%list.elem_of_cons; [|specialize (IH Hb); lia]. unfold block_seats, row_adjacency. rewrite length_imap. lia.
Qed.

(** ** What is derived at all *)

Record Proper (g : Geometry) : Prop := {
  pr_sections : NoDup (map ge_Position (ge_Sections g)) ∧ ∀ s, s ∈ ge_Sections g → 0 < ge_Position s;
  pr_rows s : s ∈ ge_Sections g → NoDup (map gr_Position (ge_Rows s)) ∧ ∀ row, row ∈ ge_Rows s → 0 < gr_Position row;
  pr_seats row : row ∈ declared_rows g → NoDup (map gs_Position (gr_Seats row)) ∧ ∀ seat, seat ∈ gr_Seats row → 0 < gs_Position seat;
  pr_ids row : row ∈ declared_rows g → gr_ID row ≠ uuid_Nil;
  pr_identities : NoDup (List.concat (map row_identities (declared_rows g)));
  pr_named id : id ∈ List.concat (map row_identities (declared_rows g)) → id ≠ ""%string;
  pr_some : seated_rows g ≠ [];
}.

Lemma new_positions_ok l : ∀ seen, NoDup l → (∀ x, x ∈ l → 0 < x) → (∀ x, x ∈ l → x ∉ seen) → ∃ seen', fold_result new_position seen l = Ok seen'.
Proof.
  induction l as [|x l IH]; cbn; intros seen Hnd Hp Hn; [by eexists|]. apply list.NoDup_cons in Hnd as [Hx Hnd].
  unfold new_position at 1. specialize (Hp x (list_elem_of_here _ _)) as Hpx. destruct (Z.leb_spec x 0); [lia|].
  rewrite bool_decide_false by apply Hn, list_elem_of_here. apply IH; [done| |].
  - intros y Hy. apply Hp. by apply list_elem_of_further.
  - intros y Hy. specialize (Hn y (list_elem_of_further _ _ _ Hy)). set_solver.
Qed.

Lemma ref_rows_ok pos rows : ∀ seen refs, (∃ seen', fold_result new_position seen (map gr_Position rows) = Ok seen') →
  ∃ st, fold_result (ref_row pos) (seen, refs) rows = Ok st.
Proof.
  induction rows as [|row rows IH]; cbn; intros seen refs [seen' Hp]; [by eexists|]. unfold ref_row at 1. cbn.
  destruct (new_position seen _); [|done]. cbn. apply IH. by exists seen'.
Qed.

Lemma ref_sections_ok l : ∀ seen refs, (∃ seen', fold_result new_position seen (map ge_Position l) = Ok seen') →
  (∀ s, s ∈ l → ∃ seen', fold_result new_position ∅ (map gr_Position (ge_Rows s)) = Ok seen') →
  ∃ positions refs', fold_result ref_section (seen, refs) l = Ok (positions, refs').
Proof.
  induction l as [|s l IH]; cbn; intros seen refs [seen' Hp] Hr; [by eexists _, _|]. unfold ref_section at 1. cbn.
  destruct (new_position seen _); [|done]. cbn. destruct (ref_rows_ok (ge_Position s) (ge_Rows s) ∅ refs) as [[rp refs1] ->]; [apply Hr, list_elem_of_here|].
  cbn. apply IH; [by exists seen'|]. intros t Ht. by apply Hr, list_elem_of_further.
Qed.

Lemma new_identities_ok seats : ∀ seen ids, NoDup (map (λ s, TrimSpace (gs_SeatIdentity s)) seats) →
  (∀ id, id ∈ map (λ s, TrimSpace (gs_SeatIdentity s)) seats → id ≠ ""%string ∧ id ∉ seen) → ∃ st, fold_result new_identity (seen, ids) seats = Ok st.
Proof.
  induction seats as [|s seats IH]; cbn; intros seen ids Hnd Hid; [by eexists|]. apply list.NoDup_cons in Hnd as [Hs Hnd].
  destruct (Hid _ (list_elem_of_here _ _)) as [Hne Hnew]. unfold new_identity at 1. rewrite (bool_decide_false _ Hne), (bool_decide_false _ Hnew). apply IH; [done|].
  intros id Hin. destruct (Hid id (list_elem_of_further _ _ _ Hin)) as [? Hn]. split; [done|]. intros [->%elem_of_singleton|?]%elem_of_union; done.
Qed.

Lemma derive_rows_ok refs : ∀ rank seen out, NoDup (List.concat (map row_identities (map rf_row refs))) →
  (∀ id, id ∈ List.concat (map row_identities (map rf_row refs)) → id ≠ ""%string ∧ id ∉ seen) →
  (∀ row, row ∈ map rf_row refs → gr_ID row ≠ uuid_Nil ∧ ∃ seen', fold_result new_position ∅ (map gs_Position (gr_Seats row)) = Ok seen') →
  ∃ st, fold_result derive_row (rank, seen, out) refs = Ok st.
Proof.
  induction refs as [|ref refs IH]; cbn; intros rank seen out Hnd Hid Hrow; [by eexists|]. unfold derive_row at 1.
  destruct (Hrow _ (list_elem_of_here _ _)) as [Hnil [seen' ->]]. cbn [mbind result_bind]. apply list.NoDup_app in Hnd as (Hnd1 & Hdis & Hnd).
  unfold row_identities at 1 in Hnd1.
  destruct (new_identities_ok (isort (on_key gs_Position Z.ltb) (gr_Seats (rf_row ref))) seen [] Hnd1) as [[seen1 ids] Hids].
  { intros id Hin. apply Hid, elem_of_app. by left. }
  rewrite Hids. cbn [mbind result_bind fst snd]. apply new_identities in Hids as (_ & _ & _ & ->). rewrite (bool_decide_false _ Hnil). apply IH; [done| |].
  - intros id Hin. destruct (Hid id) as [Hne Hn]; [apply elem_of_app; by right|]. split; [done|].
    intros [?|Hin'%elem_of_list_to_set]%elem_of_union; [done|]. by apply (Hdis id Hin').
  - intros row Hin. by apply Hrow, list_elem_of_further.
Qed.

Lemma derive_proper g : Proper g → Z.of_nat (length (declared_rows g)) ≤ MaxInt32 → ∃ out, derive_adjacency g = Ok out.
Proof.
  intros [[Hs1 Hs2] Hr Hseat Hid Hnd Hnamed Hsome] Hlen. unfold derive_adjacency.
  assert (Hpos : ∀ {A} (k : A → Z) l, NoDup (map k l) → (∀ x, x ∈ l → 0 < k x) → ∃ seen', fold_result new_position ∅ (map k l) = Ok seen').
  { intros A k l H1 H2. apply new_positions_ok; [done| |set_solver]. intros x (y & <- & Hy%list_elem_of_In)%list_elem_of_In%in_map_iff. auto. }
  destruct (ref_sections_ok (ge_Sections g) ∅ []) as (positions & refs & Hrefs); [by apply Hpos|intros s H; destruct (Hr s H); by apply Hpos|].
  rewrite Hrefs. cbn [mbind result_bind snd]. pose proof (declared_order g refs positions Hrefs) as Hd.
  destruct (derive_rows_ok (isort ref_before refs) 0 ∅ []) as [[[rank seen] out] Hfold]; rewrite ?Hd.
  - done.
  - intros id Hin. split; [auto|set_solver].
  - intros row Hin. split; [auto|]. destruct (Hseat row Hin). by apply Hpos.
  - rewrite Hfold. cbn [mbind result_bind snd]. apply derive_rows in Hfold as (Heq & _ & _); [|done|by rewrite <-Hd, length_map in Hlen].
    rewrite bool_decide_false; [by eexists|]. rewrite Heq, Hd. cbn [app]. intros H0. apply Hsome.
    destruct (seated_rows g) as [|row l] eqn:Hl; [done|]. exfalso. assert (Hin : row ∈ seated_rows g) by (rewrite Hl; apply list_elem_of_here).
    unfold seated_rows in Hin. apply elem_of_bool_filter in Hin as [Hin Hseated]. unfold seated in Hseated.
    assert (Hb : ∃ b, b ∈ blocks_of 0 (declared_rows g) ∧ bl_ids b = row_identities row).
    { apply list_elem_of_In, (in_map row_identities) in Hin. rewrite <-(blocks_ids 0) in Hin. apply in_map_iff in Hin as (b & Hb & Hbin).
      exists b. by rewrite list_elem_of_In. }
    destruct Hb as (b & Hb%length_block & Hbi). rewrite Hbi in Hb. unfold row_identities in Hb. rewrite length_map, isort_perm in Hb.
    destruct (Nat.eqb_spec (length (gr_Seats row)) 0); [done|lia].
Qed.

(** The text of an id begins and ends in no blank. *)
Definition printable (id : uuid) : Prop := uuid_String id ≠ ""%string ∧ TrimSpace (uuid_String id) = uuid_String id.

Lemma storable_projected bs : (∀ b, b ∈ bs → 0 < bl_rank b ∧ not_blank (bl_key b) = true ∧ Z.of_nat (length (bl_ids b)) ≤ MaxInt32) →
  Forall (λ id, not_blank id = true) (List.concat (map bl_ids bs)) → ∀ r, r ∈ projected bs → storable r.
Proof.
  intros Hbs Hids r (b & i & id & Hb & Hi & ->)%elem_of_projected. destruct (Hbs b Hb) as (Hrank & Hkey & Hsize). rewrite list.Forall_forall in Hids.
  assert (Hid : ∀ j x, bl_ids b !! j = Some x → not_blank x = true).
  { intros j x Hj. apply Hids, list_elem_of_In, in_concat. exists (bl_ids b). split; [by apply in_map, list_elem_of_In|].
    by apply list_elem_of_In, list_elem_of_lookup_2 with j. }
  unfold storable, order_shape, seat_at. cbn. rewrite (Hid i id Hi), Hkey. split_and!; [done| | |].
  - destruct i as [|j]; [done|]. unfold not_blank_or_null. destruct (bl_ids b !! j) eqn:Hj; [by apply (Hid j)|done].
  - unfold not_blank_or_null. destruct (bl_ids b !! S i) eqn:Hj; [by apply (Hid (S i))|done].
  - rewrite wrap32_id; [|apply lookup_lt_Some in Hi; unfold int32, MinInt32; lia]. cbn [andb]. destruct (Z.ltb_spec 0 (Z.of_nat i + 1)); [|lia].
    by apply Z.ltb_lt.
Qed.

(** ** A geometry that was derived *)

Section Derived.
Context (g : Geometry) (out : list SeatAdjacency).
Hypothesis derived : derive_adjacency g = Ok out.
Hypothesis few_rows : Z.of_nat (length (declared_rows g)) ≤ MaxInt32.

Lemma derived_facts : out = List.concat (map block_seats (blocks_of 0 (declared_rows g))) ∧ out ≠ [] ∧
  Forall (λ id, id ≠ ""%string) (List.concat (map row_identities (declared_rows g))) ∧ NoDup (List.concat (map row_identities (declared_rows g))).
Proof.
  clear -derived few_rows. unfold derive_adjacency in derived.
  apply bind_Ok in derived as ([positions refs] & Hrefs & Hd). apply bind_Ok in Hd as ([[rank seen] out'] & Hfold & Hd). cbn [fst snd] in *.
  case_bool_decide as Hne; [done|]. injection Hd as ->. pose proof (declared_order g refs positions Hrefs) as Hdecl.
  apply derive_rows in Hfold as (Heq & Hids & Hnd); [|done|rewrite <-Hdecl, length_map in few_rows; lia].
  rewrite Hdecl in *. split_and!; [done|by destruct out| |done]. eapply list.Forall_impl; [exact Hids|]. by intros x [? _].
Qed.

Lemma derived_identities : map sj_SeatIdentity (map stored_row out) = List.concat (map row_identities (declared_rows g)).
Proof.
  destruct derived_facts as (-> & _). change (map stored_row _) with (projected (blocks_of 0 (declared_rows g))). by rewrite projected_ids, blocks_ids.
Qed.

Context `{!UUIDLaws}.
Hypothesis few_seats : Z.of_nat (length out) ≤ MaxInt32.
Hypothesis shown : ∀ row, row ∈ declared_rows g → printable (gr_ID row).

Lemma block_keys b : b ∈ blocks_of 0 (declared_rows g) → bl_key b ≠ ""%string ∧ TrimSpace (bl_key b) = bl_key b.
Proof.
  intros Hb. assert (Hk : bl_key b ∈ map row_key (declared_rows g)) by (rewrite <-(blocks_keys 0); by apply list_elem_of_In, in_map, list_elem_of_In).
  apply list_elem_of_In, in_map_iff in Hk as (row & <- & Hrow%list_elem_of_In). by apply shown.
Qed.

Lemma block_key_shown b : b ∈ blocks_of 0 (declared_rows g) → TrimSpace (bl_key b) ≠ ""%string.
Proof. intros [Hk1 Hk2]%block_keys. by rewrite Hk2. Qed.

Lemma block_size b : b ∈ blocks_of 0 (declared_rows g) → Z.of_nat (length (bl_ids b)) ≤ MaxInt32.
Proof. intros Hb%length_block. destruct derived_facts as (Heq & _). rewrite <-Heq in Hb. lia. Qed.

Lemma ids_apart : NoDup (map gr_ID (seated_rows g)) ↔ keyed_apart (blocks_of 0 (declared_rows g)).
Proof.
  rewrite keyed_apart_NoDup by apply blocks_ranks. unfold seated_rows. rewrite blocks_seated. unfold row_key.
  rewrite <-(map_map gr_ID uuid_String). symmetry. apply (NoDup_fmap uuid_String).
Qed.

Lemma derived_valid : validateAdjacency (map stored_row out) = Ok tt ↔ NoDup (map gr_ID (seated_rows g)).
Proof.
  destruct derived_facts as (Heq & Hne & _ & Hnd). rewrite validateAdjacency_iff by (by rewrite derived_identities). rewrite ids_apart, Heq.
  apply projected_valid_iff; [apply blocks_ranks|intros b; apply blocks_rank|apply block_key_shown|apply block_size|].
  change (projected ?bs) with (map stored_row (List.concat (map block_seats bs))). rewrite <-Heq. by destruct out.
Qed.

Lemma derived_storable r : r ∈ map stored_row out → storable r.
Proof.
  destruct derived_facts as (Heq & _ & Hids & _). rewrite Heq. apply storable_projected.
  - intros b Hb. split_and!; [by apply (blocks_rank 0) in Hb| |by apply block_size]. destruct (block_keys b Hb) as [Hk1 Hk2]. rewrite <-Hk2.
    apply trimmed_not_blank. by rewrite Hk2.
  - rewrite blocks_ids. rewrite list.Forall_forall in Hids |- *. intros x Hx. specialize (Hids x Hx).
    apply list_elem_of_In, in_concat in Hx as (ids & (row & <- & _)%in_map_iff & (seat & <- & _)%in_map_iff). by apply trimmed_not_blank.
Qed.

Lemma derived_provisions eventID slot org seatMap capacity orphan db : NoDup (map gr_ID (seated_rows g)) → 0 < capacity → seatMap ≠ uuid_Nil →
  (eventID ∉ in_events db) → in_pools db !! slot = None → (∀ s, in_adjacency db !! (slot, s) = None) →
  ∃ db', ProvisionSeated eventID slot org seatMap capacity orphan (map stored_row out) db = Ok (db', Ok tt) ∧
    in_pools db' !! slot = Some (seated_pool org seatMap capacity orphan) ∧ Stores slot db' (map stored_row out).
Proof.
  intros Hdist Hcap Hmap Hev Hpool Hadj. destruct derived_facts as (Heq & Hne & _ & Hnd).
  assert (Hnone : projection_of slot (with_events (λ s, {[eventID]} ∪ s) db) = []).
  { destruct (projection_of _ _) as [|r l] eqn:Hp; [done|]. assert (r ∈ r :: l) as Hin by apply list_elem_of_here.
    rewrite <-Hp in Hin. apply elem_of_projection in Hin as [s Hs]. cbn in Hs. by rewrite Hadj in Hs. }
  unfold ProvisionSeated. rewrite (proj2 derived_valid Hdist). cbn [mbind result_bind]. destruct (Z.leb_spec capacity 0); [lia|].
  rewrite (bool_decide_false _ Hmap), (bool_decide_false (length (map stored_row out) = 0%nat)) by (rewrite length_map; by destruct out).
  rewrite andb_false_r, (bool_decide_false _ Hev).
  unfold seat_pool. cbn [in_pools with_events]. rewrite Hpool. cbn [mbind result_bind]. unfold describes_stored.
  change (projection_of slot (set_pool slot ?p ?d)) with (projection_of slot d). rewrite Hnone. cbn [length Nat.eqb orb negb].
  assert (Ho : Ordered (map stored_row out)).
  { rewrite Heq. apply projected_ordered; [apply blocks_ranks|intros b; apply blocks_rank|apply block_key_shown|apply block_size|by apply ids_apart]. }
  destruct (upserts_succeed slot (map stored_row out) Ho derived_storable) with (l := map stored_row out) (pre := @nil SeatAdjacencyRow)
    (db := set_pool slot (seated_pool org seatMap capacity orphan) (with_events (λ s, {[eventID]} ∪ s) db)) as (db' & Hup & Hst & Hpools); [done|by rewrite derived_identities| |].
  - intros k r. cbn. rewrite Hadj. split; [done|]. by intros [?%not_elem_of_nil _].
  - rewrite Hup. cbn. exists db'. split_and!; [done| |done]. rewrite Hpools. cbn. by rewrite lookup_insert_eq.
Qed.
End Derived.

(** C27 (equivalence). What inventory derives from a seat map is the map. Number
    the rows of the map in their declared order, by the place of the section and
    then of the row, and the seats of each row in theirs: the projection lists
    exactly these seats, each beside its neighbours in the row. The store accepts
    it exactly if no two rows with seats have one id; and then a publication of
    the map provisions a fresh pool, which stores precisely this projection. *)
Theorem geometry_becomes_a_projection `{!UUIDLaws} g out : derive_adjacency g = Ok out →
  Z.of_nat (length (declared_rows g)) ≤ MaxInt32 → Z.of_nat (length out) ≤ MaxInt32 → (∀ row, row ∈ declared_rows g → printable (gr_ID row)) →
  out = List.concat (map block_seats (blocks_of 0 (declared_rows g))) ∧
  let rows := map stored_row out in
  (validateAdjacency rows = Ok tt ↔ NoDup (map gr_ID (seated_rows g))) ∧
  ∀ eventID slot org seatMap capacity orphan db, NoDup (map gr_ID (seated_rows g)) → 0 < capacity → seatMap ≠ uuid_Nil →
    (eventID ∉ in_events db) → in_pools db !! slot = None → (∀ s, in_adjacency db !! (slot, s) = None) →
    ∃ db', ProvisionSeated eventID slot org seatMap capacity orphan rows db = Ok (db', Ok tt) ∧
      in_pools db' !! slot = Some (seated_pool org seatMap capacity orphan) ∧ Stores slot db' rows.
Proof.
  intros Hd Hrows Hout Hshown. split; [by apply derived_facts|]. split; [by apply derived_valid|].
  intros *. by apply (derived_provisions g out).
Qed.
End GeometryOrder.

#[local] Existing Instance text_uuid.

Definition a_seat (label : string) (position : Z) : geometrySeat := {| gs_SeatIdentity := label; gs_Position := position |}.

(** The balcony is listed first and comes second; the seats of a row are numbered with gaps. *)
Definition two_sections (balcony : string) : Geometry := {|
  ge_ID := "map"%string : uuid; ge_Status := "published"; ge_Sections := [
    {| ge_Position := 2; ge_Rows := [{| gr_ID := balcony : uuid; gr_Position := 1; gr_Seats := [a_seat "B/1/1" 7] |}] |};
    {| ge_Position := 1; ge_Rows := [
        {| gr_ID := "row b"%string : uuid; gr_Position := 9; gr_Seats := [] |};
        {| gr_ID := "row a"%string : uuid; gr_Position := 3; gr_Seats := [a_seat "S/1/2 " 20; a_seat "S/1/1" 10] |}] |}] |}.

Definition two_projected : list SeatAdjacency := match derive_adjacency (two_sections "row c") with Ok out => out | Err _ => [] end.

Example two_projected_seats : map (λ a, (sa_SeatIdentity a, sa_Left a, sa_Right a, sa_Position a, sa_RowRank a)) two_projected =
  [("S/1/1", None, Some "S/1/2", 1, 1); ("S/1/2", Some "S/1/1", None, 2, 1); ("B/1/1", None, None, 1, 3)]%string.
Proof. vm_compute. reflexivity. Qed.

Lemma geometry_becomes_a_projection_witness :
  NoDup (map gr_ID (seated_rows (two_sections "row c"))) ∧ validateAdjacency (map stored_row two_projected) = Ok tt.
Proof.
  assert (Hp : ∀ row, row ∈ declared_rows (two_sections "row c") → printable (gr_ID row)).
  { assert (Hf : Forall (λ row, printable (gr_ID row)) (declared_rows (two_sections "row c"))) by (apply (bool_decide_unpack _); vm_compute; exact I).
    rewrite list.Forall_forall in Hf. exact Hf. }
  assert (Hnd : NoDup (map gr_ID (seated_rows (two_sections "row c")))) by (apply (bool_decide_unpack _); vm_compute; exact I).
  assert (Hd : derive_adjacency (two_sections "row c") = Ok two_projected) by (vm_compute; reflexivity).
  split; [exact Hnd|].
  assert (H1 : Z.of_nat (length (declared_rows (two_sections "row c"))) ≤ MaxInt32) by (vm_compute; discriminate).
  assert (H2 : Z.of_nat (length two_projected) ≤ MaxInt32) by (vm_compute; discriminate).
  destruct (@geometry_becomes_a_projection text_uuid text_uuid_laws (two_sections "row c") two_projected Hd H1 H2 Hp) as (_ & Hv & _).
  exact (proj2 Hv Hnd).
Defined.

(** The resolver takes two rows of one id for a geometry; the store does not. *)
Example repeated_row_is_derived_and_refused :
  match derive_adjacency (two_sections "row a") with Ok out => validateAdjacency (map stored_row out) | Err _ => Ok tt end = Err ErrSeatProjectionIncomplete.
Proof. vm_compute. reflexivity. Qed.
