(* ===== verification/CatalogEvents.v ===== *)
(** * Events from catalog: what the database keeps of them

    The tables of [services/inventory/internal/store/] quarantine.go, parked.go and
    moot.go beside the inventory's own, their transactions, the variants of each
    subject that this binary reads, and the interface [catalogStore] through which
    the handlers reach the database. A call to the database can fail before it
    commits, and can commit and lose its answer. *)

From stdpp Require Import pretty.
From S2P Require Import Prelude Text Sha256 Format Tables Inventory Claims SeatMap Availability Geometry.
#[local] Open Scope Z_scope.

(** ** Subjects *)

Definition subjectPublished : string := "platform.catalog.performance.published".
Definition subjectArchived : string := "platform.catalog.performance.archived".
Definition subjectClosed : string := "platform.catalog.performance.closed".
Definition subjectReopened : string := "platform.catalog.performance.reopened".

Definition maxKnownPublicationSchema : Z := 5.

(** The first and the last variant of each subject that this binary reads. *)
Definition knownSchemas (subject : string) : option (Z * Z) :=
  if bool_decide (subject = subjectPublished) then Some (1, maxKnownPublicationSchema)
  else if bool_decide (subject = subjectArchived) then Some (2, 3)
  else if bool_decide (subject = subjectClosed) then Some (1, 1)
  else if bool_decide (subject = subjectReopened) then Some (1, 1)
  else None.

Definition SupportsCatalogSchema (subject : string) (schema : Z) : bool :=
  match knownSchemas subject with Some (lo, hi) => (lo <=? schema) && (schema <=? hi) | None => false end.

(** ** The tables *)

Inductive MootSource := MootSourcePublication | MootSourceClosure.

#[export] Instance MootSource_eq_dec : EqDecision MootSource.
Proof. solve_decision. Defined.

#[export] Instance MootSource_countable : Countable MootSource.
Proof.
  apply (inj_countable' (λ s, match s with MootSourcePublication => true | MootSourceClosure => false end)
    (λ b, if b : bool then MootSourcePublication else MootSourceClosure)). by intros [].
Defined.

Inductive EventError :=
| StoreError (e : InventoryError)
| ErrCatalogQuarantineFull
| ErrCatalogQuarantineCollision
| ErrCatalogParkedCollision
| ErrOutage
| errRequarantineRefused.

#[export] Instance EventError_eq_dec : EqDecision EventError.
Proof. solve_decision. Defined.

Record QuarantineRow := {
  qr_Schema : Z;
  qr_Envelope : string;
  qr_FirstSeen : time;
  qr_LastSeen : time;
  qr_ReinjectedAt : option time;
}.

Definition MaxCatalogQuarantinePending : Z := 10000.
Definition CatalogQuarantineRetention : Z := 7 * 24 * 3600 * 1000000000.

Definition pending (row : QuarantineRow) : bool := is_None (qr_ReinjectedAt row).

(** A resolved row past its retention. *)
Definition outdated (now : time) (row : QuarantineRow) : bool :=
  match qr_ReinjectedAt row with Some t => t <? now - CatalogQuarantineRetention | None => false end.

Section CatalogEvents.
Context `{UU : UUID}.

Record ParkedCatalogEvent := {
  pe_Subject : string;
  pe_EventID : uuid;
  pe_OrganizerID : uuid;
  pe_SlotID : uuid;
  pe_Schema : Z;
  pe_Envelope : string;
  pe_Deliveries : Z;
  pe_Reason : ResolveError;
}.

Record EventDB := {
  ed_Inv : InventoryDB;
  ed_Quarantine : gmap (string * uuid) QuarantineRow;
  ed_Parked : gmap (string * uuid) ParkedCatalogEvent;
  ed_Moot : gmap (uuid * uuid * MootSource) uuid;
}.
Implicit Types (db : EventDB).

Definition with_inv (f : InventoryDB → InventoryDB) db : EventDB := {|
  ed_Inv := f (ed_Inv db); ed_Quarantine := ed_Quarantine db; ed_Parked := ed_Parked db; ed_Moot := ed_Moot db |}.
Definition with_quarantine (q : gmap (string * uuid) QuarantineRow) db : EventDB := {|
  ed_Inv := ed_Inv db; ed_Quarantine := q; ed_Parked := ed_Parked db; ed_Moot := ed_Moot db |}.
Definition with_parked (f : gmap (string * uuid) ParkedCatalogEvent → gmap (string * uuid) ParkedCatalogEvent) db : EventDB := {|
  ed_Inv := ed_Inv db; ed_Quarantine := ed_Quarantine db; ed_Parked := f (ed_Parked db); ed_Moot := ed_Moot db |}.
Definition with_moot (f : gmap (uuid * uuid * MootSource) uuid → gmap (uuid * uuid * MootSource) uuid) db : EventDB := {|
  ed_Inv := ed_Inv db; ed_Quarantine := ed_Quarantine db; ed_Parked := ed_Parked db; ed_Moot := f (ed_Moot db) |}.

Definition consumed db (eventID : uuid) : bool := bool_decide (eventID ∈ in_events (ed_Inv db)).
Definition consume (eventID : uuid) db : EventDB := with_inv (with_events (λ s, {[eventID]} ∪ s)) db.

(** ** quarantine.go *)

Definition pending_rows db : list (string * uuid * QuarantineRow) :=
  List.filter (λ kr : string * uuid * QuarantineRow, pending kr.2) (map_to_list (ed_Quarantine db)).

Definition prune (now : time) (q : gmap (string * uuid) QuarantineRow) : gmap (string * uuid) QuarantineRow :=
  filter (λ kr, outdated now kr.2 = false) q.

Definition QuarantineCatalogEvent (limit : Z) (now : time) (subject : string) (eventID : uuid) (schema : Z) (envelope : string) db
    : result EventError (EventDB * unit) :=
  let q := prune now (ed_Quarantine db) in
  match q !! (subject, eventID) with
  | Some row =>
      if negb (qr_Schema row =? schema) || negb (bool_decide (qr_Envelope row = envelope)) then Err ErrCatalogQuarantineCollision
      else Ok (with_quarantine (<[(subject, eventID) := {| qr_Schema := qr_Schema row; qr_Envelope := qr_Envelope row;
                 qr_FirstSeen := qr_FirstSeen row; qr_LastSeen := now; qr_ReinjectedAt := qr_ReinjectedAt row |}]> q) db, tt)
  | None =>
      if Z.of_nat (length (pending_rows (with_quarantine q db))) >=? limit then Err ErrCatalogQuarantineFull
      else if schema <=? 0 then Err (StoreError ErrDatabase)
      else Ok (with_quarantine (<[(subject, eventID) := {| qr_Schema := schema; qr_Envelope := envelope;
                 qr_FirstSeen := now; qr_LastSeen := now; qr_ReinjectedAt := None |}]> q) db, tt)
  end.

Definition HasPendingCatalogQuarantine db : bool := negb (bool_decide (length (pending_rows db) = 0%nat)).

(** Oldest first, then by subject and id. *)
Definition quarantine_key (kr : string * uuid * QuarantineRow) : time * string * uuid := (qr_FirstSeen kr.2, kr.1.1, kr.1.2).

Definition key_before : time * string * uuid → time * string * uuid → bool :=
  lex (on_key (λ k, k.1.1) Z.ltb) (lex (on_key (λ k, k.1.2) String.ltb) (on_key snd uuid_ltb)).

Definition ListCatalogQuarantine (after : option (time * string * uuid)) (limit : nat) db : list (string * uuid * QuarantineRow) :=
  take limit (isort (on_key quarantine_key key_before)
    (List.filter (λ kr, match after with Some k => key_before k (quarantine_key kr) | None => true end) (pending_rows db))).

Definition MarkCatalogEventReinjected (now : time) (subject : string) (eventID : uuid) db : EventDB :=
  match ed_Quarantine db !! (subject, eventID) with
  | Some row =>
      if pending row
      then with_quarantine (<[(subject, eventID) := {| qr_Schema := qr_Schema row; qr_Envelope := qr_Envelope row;
             qr_FirstSeen := qr_FirstSeen row; qr_LastSeen := qr_LastSeen row; qr_ReinjectedAt := Some now |}]> (ed_Quarantine db)) db
      else db
  | None => db
  end.

(** ** parked.go *)

(** The answer says whether the row is new; the first copy stays. *)
Definition ParkCatalogEvent (e : ParkedCatalogEvent) db : result EventError (EventDB * bool) :=
  match ed_Parked db !! (pe_Subject e, pe_EventID e) with
  | Some stored => if bool_decide (pe_Envelope stored = pe_Envelope e) then Ok (db, false) else Err ErrCatalogParkedCollision
  | None =>
      if (pe_Schema e <=? 0) || (pe_Deliveries e <=? 0) then Err (StoreError ErrDatabase)
      else Ok (with_parked (<[(pe_Subject e, pe_EventID e) := e]>) db, true)
  end.

(** ** moot.go

    Only the record of a publication lets a later event through. *)

Definition RecordMootSlot (eventID organizerID slotID : uuid) (source : MootSource) db : result EventError (EventDB * unit) :=
  let db := consume eventID db in
  Ok (match ed_Moot db !! (organizerID, slotID, source) with
      | Some _ => db
      | None => with_moot (<[(organizerID, slotID, source) := eventID]>) db
      end, tt).

Definition moot_without_pool (organizerID slotID poolID : uuid) db : bool :=
  is_None (in_pools (ed_Inv db) !! poolID) && negb (is_None (ed_Moot db !! (organizerID, slotID, MootSourcePublication))).

Definition ConsumeMootOffering (eventID organizerID slotID poolID : uuid) db : result EventError (EventDB * bool) :=
  if moot_without_pool organizerID slotID poolID db && negb (consumed db eventID) then Ok (consume eventID db, true)
  else if consumed db eventID && moot_without_pool organizerID slotID poolID db then Ok (db, true)
  else Ok (db, false).

(** ** The store the handlers are given *)

Record catalogStore (S : Type) := {
  cs_Provision : uuid → uuid → uuid → Z → S → S * result EventError unit;
  cs_ProvisionSeated : uuid → uuid → uuid → uuid → Z → bool → list SeatAdjacencyRow → S → S * result EventError unit;
  cs_ApplyArchive : uuid → uuid → S → S * result EventError unit;
  cs_ApplyClosure : uuid → uuid → uuid → bool → Z → S → S * result EventError unit;
  cs_QuarantineCatalogEvent : string → uuid → Z → string → S → S * result EventError unit;
  cs_RecordMootSlot : uuid → uuid → uuid → MootSource → S → S * result EventError unit;
  cs_ConsumeMootOffering : uuid → uuid → uuid → uuid → S → S * result EventError bool;
  cs_ParkCatalogEvent : ParkedCatalogEvent → S → S * result EventError bool;
}.
Arguments cs_Provision {S}.
Arguments cs_ProvisionSeated {S}.
Arguments cs_ApplyArchive {S}.
Arguments cs_ApplyClosure {S}.
Arguments cs_QuarantineCatalogEvent {S}.
Arguments cs_RecordMootSlot {S}.
Arguments cs_ConsumeMootOffering {S}.
Arguments cs_ParkCatalogEvent {S}.

(** How a call to the database goes: as the transaction says, not at all, or
    committed with its answer lost. *)
Inductive Fault := Clean | Refused | Lost.

Inductive StoreCall := CallApply | CallQuarantine | CallMoot | CallConsumeMoot | CallPark.

Definition lift {A} (body : InventoryDB → tx A) db : result EventError (EventDB * A) :=
  match body (ed_Inv db) with
  | Ok (inv, Ok a) => Ok (with_inv (λ _, inv) db, a)
  | Ok (_, Err e) | Err e => Err (StoreError e)
  end.

Definition attempt {A} (fault : Fault) (body : EventDB → result EventError (EventDB * A)) db : EventDB * result EventError A :=
  match fault with
  | Refused => (db, Err ErrOutage)
  | Clean => match body db with Ok (db', a) => (db', Ok a) | Err e => (db, Err e) end
  | Lost => match body db with Ok (db', _) => (db', Err ErrOutage) | Err e => (db, Err e) end
  end.

Definition Postgres (limit : Z) (now : time) (fault : StoreCall → Fault) : catalogStore EventDB := {|
  cs_Provision e slot org capacity := attempt (fault CallApply) (lift (Provision e slot org capacity));
  cs_ProvisionSeated e slot org seatMap capacity orphan adjacency :=
    attempt (fault CallApply) (lift (ProvisionSeated e slot org seatMap capacity orphan adjacency));
  cs_ApplyArchive e pool := attempt (fault CallApply) (lift (ApplyArchive e pool));
  cs_ApplyClosure e pool perf closed version := attempt (fault CallApply) (lift (ApplyClosure e pool perf closed version));
  cs_QuarantineCatalogEvent subject e schema envelope :=
    attempt (fault CallQuarantine) (QuarantineCatalogEvent limit now subject e schema envelope);
  cs_RecordMootSlot e org slot source := attempt (fault CallMoot) (RecordMootSlot e org slot source);
  cs_ConsumeMootOffering e org slot pool := attempt (fault CallConsumeMoot) (ConsumeMootOffering e org slot pool);
  cs_ParkCatalogEvent p := attempt (fault CallPark) (ParkCatalogEvent p) |}.
End CatalogEvents.
Arguments cs_Provision {UU S}.
Arguments cs_ProvisionSeated {UU S}.
Arguments cs_ApplyArchive {UU S}.
Arguments cs_ApplyClosure {UU S}.
Arguments cs_QuarantineCatalogEvent {UU S}.
Arguments cs_RecordMootSlot {UU S}.
Arguments cs_ConsumeMootOffering {UU S}.
Arguments cs_ParkCatalogEvent {UU S}.
