(* ===== verification/CatalogConsumer.v ===== *)
(** * The consumer of catalog events

    [services/inventory/internal/consumer/consumer.go], the handling of one
    delivered message, and reprocess.go, which runs the same handling over a
    quarantined event. A handler asks its questions from the outside in: is the
    envelope readable, is the variant one this binary knows, is the payload valid,
    what does catalog say, what does the store. Every branch makes one disposition. *)

From stdpp Require Import pretty.
From S2P Require Import Prelude Text Sha256 Format Tables Inventory Claims SeatMap Availability Geometry CatalogEvents.
#[local] Open Scope Z_scope.

(** ** Messages *)

Inductive Disposition := Ack | Nak | NakWithDelay | Term.

#[export] Instance Disposition_eq_dec : EqDecision Disposition.
Proof. solve_decision. Defined.

Record Decoded {UU : UUID} (T : Type) := { ev_ID : uuid; ev_Type : string; ev_Schema : Z; ev_Data : T }.
Arguments ev_ID {UU T} _.
Arguments ev_Type {UU T} _.
Arguments ev_Schema {UU T} _.
Arguments ev_Data {UU T} _.

Record publicationData {UU : UUID} := {
  pd_PerformanceID : uuid;
  pd_OrganizerID : uuid;
  pd_Capacity : Z;
  pd_CapacityGroupID : option uuid;
  pd_SharedCapacity : option Z;
  pd_SeatMapID : option uuid;
  pd_OrphanPreventionEnabled : bool;
}.

Record archivedData {UU : UUID} := { ad_PerformanceID : uuid; ad_OrganizerID : uuid; ad_CapacityGroupID : option uuid }.

Record closureData {UU : UUID} := { cd_PerformanceID : uuid; cd_OrganizerID : uuid; cd_Version : Z }.

(** What the bytes of a message and of an envelope's data decode to. *)
Class Decoder {UU : UUID} : Type := {
  unmarshalEnvelope : string → option (Decoded string);
  unmarshalPublication : string → option (Decoded publicationData);
  unmarshalArchived : string → option archivedData;
  unmarshalClosure : string → option closureData;
}.

(** Two decodings of the same bytes read the same members. *)
Class DecoderLaws {UU : UUID} {DD : Decoder} : Prop := {
  unmarshal_same_header raw e p : unmarshalEnvelope raw = Some e → unmarshalPublication raw = Some p →
    ev_ID p = ev_ID e ∧ ev_Schema p = ev_Schema e;
}.

Section CatalogConsumer.
Context `{UU : UUID} {DD : Decoder}.

(** The exact bytes, and the count of deliveries where the broker gives one. *)
Record Message := { ms_Subject : string; ms_Data : string; ms_NumDelivered : option Z }.

Record Resolver := {
  rs_PublishedPerformance : uuid → result ResolveError PublishedPerformance;
  rs_PoolOfferState : uuid → result ResolveError PoolOfferState;
  rs_SeatMapAdjacency : uuid → result ResolveError (list SeatAdjacency);
}.

(** The resolver over the answers catalog gives. *)
Definition CatalogResolver (performance : uuid → Answer PublishedPerformance) (offer : uuid → Answer PoolOfferState)
    (geometry : uuid → Answer Geometry) : Resolver := {|
  rs_PublishedPerformance id := resolvePublishedPerformance (performance id);
  rs_PoolOfferState id := resolvePoolOfferState (offer id);
  rs_SeatMapAdjacency id := resolveSeatMapGeometry id (geometry id) |}.

(** ** What a publication provisions *)

Record ProvisionInput := {
  pi_organizerID : uuid;
  pi_poolID : uuid;
  pi_capacity : Z;
  pi_seatMapID : uuid;
  pi_orphanPrevention : bool;
  pi_adjacency : list SeatAdjacencyRow;
}.

Inductive PublicationError := Invalid | Unresolved (e : ResolveError).

Definition quantity_input (org pool : uuid) (capacity : Z) : ProvisionInput := {|
  pi_organizerID := org; pi_poolID := pool; pi_capacity := capacity; pi_seatMapID := uuid_Nil;
  pi_orphanPrevention := false; pi_adjacency := [] |}.

Definition set_adjacency (l : list SeatAdjacencyRow) (i : ProvisionInput) : ProvisionInput := {|
  pi_organizerID := pi_organizerID i; pi_poolID := pi_poolID i; pi_capacity := pi_capacity i; pi_seatMapID := pi_seatMapID i;
  pi_orphanPrevention := pi_orphanPrevention i; pi_adjacency := l |}.

Definition resolveSeatMapAdjacency (resolver : option Resolver) (i : ProvisionInput) (allowInvalidFallback : bool)
    : result PublicationError ProvisionInput :=
  match resolver with
  | None => Err Invalid
  | Some rs =>
      match rs_SeatMapAdjacency rs (pi_seatMapID i) with
      | Ok adjacency => Ok (set_adjacency (map stored_row adjacency) i)
      | Err ErrGeometryInvalid => if allowInvalidFallback then Ok i else Err (Unresolved ErrGeometryInvalid)
      | Err _ => Err (Unresolved errResolveUnavailable)
      end
  end.

Definition seated_publication (resolver : option Resolver) (d : publicationData) (orphan : bool) : result PublicationError ProvisionInput :=
  match pd_SeatMapID d with
  | None => Err Invalid
  | Some seatMap =>
      if bool_decide (seatMap = uuid_Nil) then Err Invalid
      else if negb (is_None (pd_CapacityGroupID d)) || negb (is_None (pd_SharedCapacity d)) then Err Invalid
      else if pd_Capacity d <=? 0 then Err Invalid
      else resolveSeatMapAdjacency resolver {| pi_organizerID := pd_OrganizerID d; pi_poolID := pd_PerformanceID d;
             pi_capacity := pd_Capacity d; pi_seatMapID := seatMap; pi_orphanPrevention := orphan; pi_adjacency := [] |} (negb orphan)
  end.

Definition resolved_publication (resolver : option Resolver) (d : publicationData) : result PublicationError ProvisionInput :=
  match resolver with
  | None => Err Invalid
  | Some rs =>
      match rs_PublishedPerformance rs (pd_PerformanceID d) with
      | Err e => Err (Unresolved e)
      | Ok p =>
          if negb (bool_decide (pp_OrganizerID p = pd_OrganizerID d)) then Err Invalid
          else match pp_CapacityGroupID p with
               | None =>
                   if negb (is_None (pp_SharedCapacity p)) || (pp_Capacity p <=? 0) then Err Invalid
                   else Ok (quantity_input (pp_OrganizerID p) (pd_PerformanceID d) (pp_Capacity p))
               | Some group =>
                   match pp_SharedCapacity p with
                   | Some shared =>
                       if bool_decide (group = uuid_Nil) || (shared <=? 0) then Err Invalid
                       else Ok (quantity_input (pp_OrganizerID p) group shared)
                   | None => Err Invalid
                   end
               end
      end
  end.

Definition provisionInput (resolver : option Resolver) (e : Decoded publicationData) : result PublicationError ProvisionInput :=
  let d := ev_Data e in
  if bool_decide (ev_ID e = uuid_Nil) || bool_decide (pd_PerformanceID d = uuid_Nil) || bool_decide (pd_OrganizerID d = uuid_Nil)
  then Err Invalid
  else if ev_Schema e =? 2 then
    if pd_Capacity d <=? 0 then Err Invalid
    else if negb (is_None (pd_CapacityGroupID d)) || negb (is_None (pd_SharedCapacity d)) then Err Invalid
    else Ok (quantity_input (pd_OrganizerID d) (pd_PerformanceID d) (pd_Capacity d))
  else if ev_Schema e =? 4 then seated_publication resolver d false
  else if ev_Schema e =? 5 then seated_publication resolver d (pd_OrphanPreventionEnabled d)
  else if ev_Schema e =? 3 then
    match pd_CapacityGroupID d, pd_SharedCapacity d with
    | Some group, Some shared =>
        if bool_decide (group = uuid_Nil) || (shared <=? 0) then Err Invalid
        else Ok (quantity_input (pd_OrganizerID d) group shared)
    | _, _ => Err Invalid
    end
  else if ev_Schema e =? 1 then resolved_publication resolver d
  else Err Invalid.

(** ** Handlers *)

Definition parkAfterDeliveries : Z := 5.

(** Handling ends in a state, a disposition, and whether it withdrew readiness. *)
Record Handled (S : Type) := { hd_state : S; hd_disposition : Disposition; hd_unready : bool }.
Arguments hd_state {S} _.
Arguments hd_disposition {S} _.
Arguments hd_unready {S} _.

Definition settle {S} (s : S) (d : Disposition) : Handled S := {| hd_state := s; hd_disposition := d; hd_unready := false |}.

Section Handlers.
Context {S : Type} (st : catalogStore S) (resolver : option Resolver) (msg : Message).

Definition recordMoot (eventID org slot : uuid) (source : MootSource) (s : S) : Handled S :=
  let '(s, r) := cs_RecordMootSlot st eventID org slot source s in
  match r with Ok _ => settle s Ack | Err _ => settle s NakWithDelay end.

Definition unusableAnswer (env : Decoded string) (slot org : uuid) (cause : ResolveError) (s : S) : Handled S :=
  match ms_NumDelivered msg with
  | None => settle s NakWithDelay
  | Some n =>
      if n <? parkAfterDeliveries then settle s NakWithDelay
      else
        let '(s, r) := cs_ParkCatalogEvent st {| pe_Subject := ms_Subject msg; pe_EventID := ev_ID env; pe_OrganizerID := org;
          pe_SlotID := slot; pe_Schema := ev_Schema env; pe_Envelope := ms_Data msg; pe_Deliveries := n; pe_Reason := cause |} s in
        match r with
        | Ok _ | Err ErrCatalogParkedCollision => settle s Term
        | Err _ => settle s NakWithDelay
        end
  end.

Definition applyOffering (eventID org slot pool : uuid) (apply : S → S * result EventError unit) (s : S) : Handled S :=
  let '(s, r) := apply s in
  match r with
  | Ok _ => settle s Ack
  | Err (StoreError ErrNotFound) =>
      let '(s, moot) := cs_ConsumeMootOffering st eventID org slot pool s in
      match moot with Ok true => settle s Ack | Ok false | Err _ => settle s NakWithDelay end
  | Err _ => settle s Nak
  end.

Definition handlePublication (env : Decoded string) (s : S) : Handled S :=
  match unmarshalPublication (ms_Data msg) with
  | None => settle s Term
  | Some e =>
      let d := ev_Data e in
      match provisionInput resolver e with
      | Err (Unresolved ErrPerformanceNotFound) => recordMoot (ev_ID e) (pd_OrganizerID d) (pd_PerformanceID d) MootSourcePublication s
      | Err (Unresolved errResolveUnavailable) => settle s NakWithDelay
      | Err (Unresolved errCatalogUnusable) => unusableAnswer env (pd_PerformanceID d) (pd_OrganizerID d) errCatalogUnusable s
      | Err _ => settle s Term
      | Ok i =>
          if negb (bool_decide (pi_seatMapID i = uuid_Nil)) then
            let '(s, r) := cs_ProvisionSeated st (ev_ID e) (pi_poolID i) (pi_organizerID i) (pi_seatMapID i) (pi_capacity i)
              (pi_orphanPrevention i) (pi_adjacency i) s in
            match r with
            | Ok _ => settle s Ack
            | Err (StoreError ErrSeatProjectionIncomplete) => settle s Term
            | Err _ => settle s Nak
            end
          else
            let '(s, r) := cs_Provision st (ev_ID e) (pi_poolID i) (pi_organizerID i) (pi_capacity i) s in
            match r with Ok _ => settle s Ack | Err _ => settle s Nak end
      end
  end.

Definition handleArchived (env : Decoded string) (s : S) : Handled S :=
  match unmarshalArchived (ev_Data env) with
  | None => settle s Term
  | Some d =>
      let archive pool := applyOffering (ev_ID env) (ad_OrganizerID d) (ad_PerformanceID d) pool (cs_ApplyArchive st (ev_ID env) pool) s in
      if bool_decide (ev_ID env = uuid_Nil) || bool_decide (ad_PerformanceID d = uuid_Nil) || bool_decide (ad_OrganizerID d = uuid_Nil)
      then settle s Term
      else if (ev_Schema env =? 2) && negb (is_None (ad_CapacityGroupID d)) then settle s Term
      else if ev_Schema env =? 3 then
        match ad_CapacityGroupID d with
        | Some group => if bool_decide (group = uuid_Nil) then settle s Term else archive group
        | None => settle s Term
        end
      else archive (ad_PerformanceID d)
  end.

Definition closure_pool (d : closureData) (p : PublishedPerformance) : uuid :=
  match pp_CapacityGroupID p with
  | Some group => if bool_decide (group = uuid_Nil) then cd_PerformanceID d else group
  | None => cd_PerformanceID d
  end.

Definition handleClosure (env : Decoded string) (closed : bool) (s : S) : Handled S :=
  match unmarshalClosure (ev_Data env) with
  | None => settle s Term
  | Some d =>
      if bool_decide (ev_ID env = uuid_Nil) || bool_decide (cd_PerformanceID d = uuid_Nil) || bool_decide (cd_OrganizerID d = uuid_Nil) ||
         (cd_Version d <? 1)
      then settle s Term
      else
        match resolver with
        | None => settle s NakWithDelay
        | Some rs =>
            match rs_PublishedPerformance rs (cd_PerformanceID d) with
            | Err ErrPerformanceNotFound => recordMoot (ev_ID env) (cd_OrganizerID d) (cd_PerformanceID d) MootSourceClosure s
            | Err errCatalogUnusable => unusableAnswer env (cd_PerformanceID d) (cd_OrganizerID d) errCatalogUnusable s
            | Err _ => settle s NakWithDelay
            | Ok p =>
                if negb (bool_decide (pp_OrganizerID p = cd_OrganizerID d)) then settle s Term
                else
                  let pool := closure_pool d p in
                  applyOffering (ev_ID env) (cd_OrganizerID d) (cd_PerformanceID d) pool
                    (cs_ApplyClosure st (ev_ID env) pool (cd_PerformanceID d) closed (cd_Version d)) s
            end
        end
  end.

(** A variant from the future is kept as it came, and readiness is withdrawn. *)
Definition quarantine (env : Decoded string) (s : S) : Handled S :=
  let '(s, r) := cs_QuarantineCatalogEvent st (ms_Subject msg) (ev_ID env) (ev_Schema env) (ms_Data msg) s in
  match r with
  | Err ErrCatalogQuarantineCollision => settle s Term
  | Err _ => {| hd_state := s; hd_disposition := NakWithDelay; hd_unready := true |}
  | Ok _ => {| hd_state := s; hd_disposition := Ack; hd_unready := true |}
  end.

Definition handle (s : S) : Handled S :=
  match unmarshalEnvelope (ms_Data msg) with
  | None => settle s Term
  | Some env =>
      match knownSchemas (ms_Subject msg) with
      | None => settle s Term
      | Some (lo, hi) =>
          if ev_Schema env <=? 0 then settle s Term
          else if bool_decide (ev_ID env = uuid_Nil) then settle s Term
          else if negb (bool_decide (ev_Type env = ms_Subject msg)) then settle s Term
          else if ev_Schema env >? hi then quarantine env s
          else if ev_Schema env <? lo then settle s Term
          else if bool_decide (ms_Subject msg = subjectArchived) then handleArchived env s
          else if bool_decide (ms_Subject msg = subjectClosed) || bool_decide (ms_Subject msg = subjectReopened)
          then handleClosure env (bool_decide (ms_Subject msg = subjectClosed)) s
          else handlePublication env s
      end
  end.
End Handlers.

(** ** reprocess.go

    The store a quarantined event is handled with notes the first failure of the
    writes whose failure would read as a deferral, and refuses to quarantine. *)

Definition note {A} (run : EventDB → EventDB * result EventError A) (s : EventDB * option EventError)
    : (EventDB * option EventError) * result EventError A :=
  let '(db, r) := run s.1 in
  (db, match r, s.2 with Err e, None => Some e | _, _ => s.2 end, r).

Definition unobserved {A} (run : EventDB → EventDB * result EventError A) (s : EventDB * option EventError)
    : (EventDB * option EventError) * result EventError A :=
  let '(db, r) := run s.1 in (db, s.2, r).

Definition observingStore (st : catalogStore EventDB) : catalogStore (EventDB * option EventError) := {|
  cs_Provision e slot org capacity := unobserved (cs_Provision st e slot org capacity);
  cs_ProvisionSeated e slot org seatMap capacity orphan adjacency :=
    unobserved (cs_ProvisionSeated st e slot org seatMap capacity orphan adjacency);
  cs_ApplyArchive e pool := unobserved (cs_ApplyArchive st e pool);
  cs_ApplyClosure e pool perf closed version := unobserved (cs_ApplyClosure st e pool perf closed version);
  cs_QuarantineCatalogEvent _ _ _ _ := note (λ db, (db, Err errRequarantineRefused));
  cs_RecordMootSlot e org slot source := note (cs_RecordMootSlot st e org slot source);
  cs_ConsumeMootOffering e org slot pool := note (cs_ConsumeMootOffering st e org slot pool);
  cs_ParkCatalogEvent p := note (cs_ParkCatalogEvent st p) |}.

Inductive Outcome := OutcomeApplied | OutcomeTerminal | OutcomeDeferred.

#[export] Instance Outcome_eq_dec : EqDecision Outcome.
Proof. solve_decision. Defined.

Inductive ReprocessError := StoreFailure (e : option EventError).

Definition classifyReprocess (d : Disposition) (storeErr : option EventError) : result ReprocessError Outcome :=
  match d with
  | Ack => Ok OutcomeApplied
  | Term => Ok OutcomeTerminal
  | Nak => Err (StoreFailure None)
  | NakWithDelay => match storeErr with Some e => Err (StoreFailure (Some e)) | None => Ok OutcomeDeferred end
  end.

Definition Reprocessor (st : catalogStore EventDB) (resolver : Resolver) (subject envelope : string) (db : EventDB)
    : EventDB * result ReprocessError Outcome :=
  let h := handle (observingStore st) (Some resolver) {| ms_Subject := subject; ms_Data := envelope; ms_NumDelivered := None |} (db, None) in
  ((hd_state h).1, classifyReprocess (hd_disposition h) (hd_state h).2).
End CatalogConsumer.
Arguments hd_state {S} _.
Arguments hd_disposition {S} _.
Arguments hd_unready {S} _.
