(* ===== verification/ConsumerRuns.v ===== *)
(** * What a delivery does

    What a handler asks of its store is decided by the bytes of the message and
    by catalog's answers alone; the store decides how it ends. The requests are
    read off the handlers themselves, run against a store that records what it is
    asked. Runs of deliveries: any messages, in any order and any number of
    times, with any answers of catalog and any failures of the database. *)

From stdpp Require Import pretty.
From S2P Require Import Prelude Text Sha256 Format Tables Inventory Claims SeatMap Availability Geometry CatalogEvents CatalogConsumer.
From S2P Require Import SeatClaims InventoryMoves ClaimMoves SeatMoves InventorySafety.
#[local] Open Scope Z_scope.

Section ConsumerRuns.
Context `{UU : UUID} {DD : Decoder}.

Inductive StoreRequest :=
| AskProvision (eventID slot org : uuid) (capacity : Z)
| AskProvisionSeated (eventID slot org seatMap : uuid) (capacity : Z) (orphan : bool) (adjacency : list SeatAdjacencyRow)
| AskArchive (eventID pool : uuid)
| AskClosure (eventID pool perf : uuid) (closed : bool) (version : Z)
| AskQuarantine (subject : string) (eventID : uuid) (schema : Z) (envelope : string)
| AskMoot (eventID org slot : uuid) (source : MootSource)
| AskConsumeMoot (eventID org slot pool : uuid)
| AskPark (p : ParkedCatalogEvent).

Definition record_ask {A} (a : StoreRequest) (l : list StoreRequest) : list StoreRequest * result EventError A :=
  (l ++ [a], Err (StoreError ErrNotFound)).

Definition recorder : catalogStore (list StoreRequest) := {|
  cs_Provision e slot org capacity := record_ask (AskProvision e slot org capacity);
  cs_ProvisionSeated e slot org m capacity orphan adjacency := record_ask (AskProvisionSeated e slot org m capacity orphan adjacency);
  cs_ApplyArchive e pool := record_ask (AskArchive e pool);
  cs_ApplyClosure e pool perf closed version := record_ask (AskClosure e pool perf closed version);
  cs_QuarantineCatalogEvent subject e schema envelope := record_ask (AskQuarantine subject e schema envelope);
  cs_RecordMootSlot e org slot source := record_ask (AskMoot e org slot source);
  cs_ConsumeMootOffering e org slot pool := record_ask (AskConsumeMoot e org slot pool);
  cs_ParkCatalogEvent p := record_ask (AskPark p) |}.

(** The requests of a message, and its disposition where there are none. *)
Definition asked (resolver : option Resolver) (msg : Message) : list StoreRequest := hd_state (handle recorder resolver msg []).
Definition unasked (resolver : option Resolver) (msg : Message) : Disposition := hd_disposition (handle recorder resolver msg []).

Definition on_result {S A} (sr : S * result EventError A) (ok : Disposition) (err : EventError → Disposition) : Handled S :=
  settle sr.1 match sr.2 with Ok _ => ok | Err e => err e end.

(** How a store that is asked these things ends the handling. *)
Definition reply {S} (st : catalogStore S) (asks : list StoreRequest) (d : Disposition) (s : S) : Handled S :=
  let offer sr e org slot pool :=
    match sr.2 with
    | Err (StoreError ErrNotFound) =>
        let sm := cs_ConsumeMootOffering st e org slot pool sr.1 in
        settle sm.1 match sm.2 with Ok true => Ack | _ => NakWithDelay end
    | r => on_result (A := unit) (sr.1, r) Ack (λ _, Nak)
    end in
  match asks with
  | [AskProvision e slot org capacity] => on_result (cs_Provision st e slot org capacity s) Ack (λ _, Nak)
  | [AskProvisionSeated e slot org m capacity orphan adjacency] =>
      on_result (cs_ProvisionSeated st e slot org m capacity orphan adjacency s) Ack
        (λ e, if bool_decide (e = StoreError ErrSeatProjectionIncomplete) then Term else Nak)
  | [AskArchive e pool; AskConsumeMoot _ org slot _] => offer (cs_ApplyArchive st e pool s) e org slot pool
  | [AskClosure e pool perf closed version; AskConsumeMoot _ org slot _] => offer (cs_ApplyClosure st e pool perf closed version s) e org slot pool
  | [AskQuarantine subject e schema envelope] =>
      let sr := cs_QuarantineCatalogEvent st subject e schema envelope s in
      {| hd_state := sr.1;
         hd_disposition := match sr.2 with Ok _ => Ack | Err ErrCatalogQuarantineCollision => Term | Err _ => NakWithDelay end;
         hd_unready := match sr.2 with Err ErrCatalogQuarantineCollision => false | _ => true end |}
  | [AskMoot e org slot source] => on_result (cs_RecordMootSlot st e org slot source s) Ack (λ _, NakWithDelay)
  | [AskPark p] =>
      on_result (cs_ParkCatalogEvent st p s) Term (λ e, if bool_decide (e = ErrCatalogParkedCollision) then Term else NakWithDelay)
  | _ => settle s d
  end.

(** ** The shapes of what is asked *)

Inductive Asks (msg : Message) (env : Decoded string) : list StoreRequest → Prop :=
| as_provision slot org capacity : Asks msg env [AskProvision (ev_ID env) slot org capacity]
| as_seated slot org m capacity orphan adjacency : Asks msg env [AskProvisionSeated (ev_ID env) slot org m capacity orphan adjacency]
| as_archive pool org slot : Asks msg env [AskArchive (ev_ID env) pool; AskConsumeMoot (ev_ID env) org slot pool]
| as_closure pool perf closed version org slot :
    1 ≤ version → Asks msg env [AskClosure (ev_ID env) pool perf closed version; AskConsumeMoot (ev_ID env) org slot pool]
| as_moot org slot source : Asks msg env [AskMoot (ev_ID env) org slot source]
| as_park p : pe_Subject p = ms_Subject msg → pe_EventID p = ev_ID env → pe_Envelope p = ms_Data msg → pe_Schema p = ev_Schema env →
    parkAfterDeliveries ≤ pe_Deliveries p → Asks msg env [AskPark p]
| as_quarantine : SupportsCatalogSchema (ms_Subject msg) (ev_Schema env) = false →
    Asks msg env [AskQuarantine (ms_Subject msg) (ev_ID env) (ev_Schema env) (ms_Data msg)].

Section Shapes.
Context `{!DecoderLaws} (resolver : option Resolver) (msg : Message).

(** A handler that asks nothing, or one of the shapes, and ends as [reply] has it. *)
Definition Replies (env : Decoded string) (h : ∀ S, catalogStore S → S → Handled S) : Prop :=
  (∃ d, d ≠ Ack ∧ d ≠ Nak ∧ ∀ S (st : catalogStore S) s, h S st s = settle s d) ∨
  ∃ asks, Asks msg env asks ∧ (h _ recorder []).(hd_state) = asks ∧ ∀ d S (st : catalogStore S) s, h S st s = reply st asks d s.

Lemma replies_term env : Replies env (λ S st s, settle s Term).
Proof. left. by exists Term. Qed.
Lemma replies_delay env : Replies env (λ S st s, settle s NakWithDelay).
Proof. left. by exists NakWithDelay. Qed.

Lemma recordMoot_replies env org slot source :
  Replies env (λ S st s, recordMoot st (ev_ID env) org slot source s).
Proof.
  right. exists [AskMoot (ev_ID env) org slot source]. split_and!; [constructor|done|].
  intros d S st s. unfold recordMoot, reply, on_result. destruct (cs_RecordMootSlot _ _ _ _ _ _) as [s' []]; done.
Qed.

Lemma unusable_replies env slot org cause : Replies env (λ S st s, unusableAnswer st msg env slot org cause s).
Proof.
  unfold unusableAnswer. destruct (ms_NumDelivered msg) as [n|]; [|apply replies_delay].
  destruct (Z.ltb_spec n parkAfterDeliveries); [apply replies_delay|]. right.
  exists [AskPark {| pe_Subject := ms_Subject msg; pe_EventID := ev_ID env; pe_OrganizerID := org; pe_SlotID := slot;
    pe_Schema := ev_Schema env; pe_Envelope := ms_Data msg; pe_Deliveries := n; pe_Reason := cause |}]. split_and!; [by apply as_park|done|].
  - intros d S st s. unfold reply, on_result. destruct (cs_ParkCatalogEvent _ _ _) as [s' [?|[]]]; done.
Qed.

Lemma archive_replies env pool org slot :
  Replies env (λ S st s, applyOffering st (ev_ID env) org slot pool (cs_ApplyArchive st (ev_ID env) pool) s).
Proof.
  right. exists [AskArchive (ev_ID env) pool; AskConsumeMoot (ev_ID env) org slot pool]. split_and!; [constructor|done|].
  intros d S st s. unfold applyOffering, reply, on_result. destruct (cs_ApplyArchive _ _ _ _) as [s' [?|[[]| | | | |]]]; cbn; try done.
  destruct (cs_ConsumeMootOffering _ _ _ _ _ _) as [s2 [[]|]]; done.
Qed.

Lemma closure_replies env pool perf closed version org slot : 1 ≤ version →
  Replies env (λ S st s, applyOffering st (ev_ID env) org slot pool (cs_ApplyClosure st (ev_ID env) pool perf closed version) s).
Proof.
  intros Hv. right. exists [AskClosure (ev_ID env) pool perf closed version; AskConsumeMoot (ev_ID env) org slot pool].
  split_and!; [by constructor|done|]. intros d S st s. unfold applyOffering, reply, on_result.
  destruct (cs_ApplyClosure _ _ _ _ _ _ _) as [s' [?|[[]| | | | |]]]; cbn; try done.
  destruct (cs_ConsumeMootOffering _ _ _ _ _ _) as [s2 [[]|]]; done.
Qed.

Lemma publication_replies env : unmarshalEnvelope (ms_Data msg) = Some env →
  Replies env (λ S st s, handlePublication st resolver msg env s).
Proof.
  intros He. unfold handlePublication. destruct (unmarshalPublication (ms_Data msg)) as [e|] eqn:Hp; [|apply replies_term].
  destruct (unmarshal_same_header _ _ _ He Hp) as [Hid _]. rewrite Hid.
  destruct (provisionInput resolver e) as [i|[|[]]]; try apply replies_term; try apply replies_delay;
    [|apply recordMoot_replies|apply unusable_replies].
  destruct (bool_decide (pi_seatMapID i = uuid_Nil)); cbn [negb].
  - right. exists [AskProvision (ev_ID env) (pi_poolID i) (pi_organizerID i) (pi_capacity i)]. split_and!; [constructor|done|].
    intros d S st s. unfold reply, on_result. destruct (cs_Provision _ _ _ _ _ _) as [s' []]; done.
  - right. exists [AskProvisionSeated (ev_ID env) (pi_poolID i) (pi_organizerID i) (pi_seatMapID i) (pi_capacity i)
      (pi_orphanPrevention i) (pi_adjacency i)]. split_and!; [constructor|done|]. intros d S st s. unfold reply, on_result.
    destruct (cs_ProvisionSeated _ _ _ _ _ _ _ _ _) as [s' [?|[[]| | | | |]]]; done.
Qed.

Lemma archived_replies env : Replies env (λ S st s, handleArchived st env s).
Proof.
  unfold handleArchived. destruct (unmarshalArchived (ev_Data env)) as [d|]; [|apply replies_term].
  destruct (_ || _); [apply replies_term|]. destruct (_ && _); [apply replies_term|].
  destruct (ev_Schema env =? 3); [|apply archive_replies].
  destruct (ad_CapacityGroupID d) as [g|]; [|apply replies_term]. destruct (bool_decide (g = uuid_Nil)); [apply replies_term|apply archive_replies].
Qed.

Lemma closed_replies env closed : Replies env (λ S st s, handleClosure st resolver msg env closed s).
Proof.
  unfold handleClosure. destruct (unmarshalClosure (ev_Data env)) as [d|]; [|apply replies_term].
  destruct (_ || _) eqn:E; [apply replies_term|]. apply orb_false_iff in E as [_ Hv].
  destruct resolver as [rs|]; [|apply replies_delay].
  destruct (rs_PublishedPerformance rs _) as [p|[]]; try apply replies_delay; [|apply recordMoot_replies|apply unusable_replies].
  destruct (negb _); [apply replies_term|]. apply closure_replies. zbool. lia.
Qed.

Lemma quarantine_replies env : SupportsCatalogSchema (ms_Subject msg) (ev_Schema env) = false →
  Replies env (λ S st s, quarantine st msg env s).
Proof.
  intros Hs. right. exists [AskQuarantine (ms_Subject msg) (ev_ID env) (ev_Schema env) (ms_Data msg)]. split_and!; [by apply as_quarantine|done|]. intros d S st s. unfold quarantine, reply.
  destruct (cs_QuarantineCatalogEvent _ _ _ _ _ _) as [s' [?|[]]]; done.
Qed.

Lemma handle_unreadable : unmarshalEnvelope (ms_Data msg) = None → ∀ S (st : catalogStore S) s, handle st resolver msg s = settle s Term.
Proof. intros Hu S st s. unfold handle. by rewrite Hu. Qed.

Lemma handle_replies env : unmarshalEnvelope (ms_Data msg) = Some env → Replies env (λ S st s, handle st resolver msg s).
Proof.
  intros He. unfold handle. rewrite He. destruct (knownSchemas (ms_Subject msg)) as [[lo hi]|] eqn:Hk; [|apply replies_term].
  destruct (ev_Schema env <=? 0) eqn:E0; [apply replies_term|]. destruct (bool_decide (ev_ID env = uuid_Nil)) eqn:E1; [apply replies_term|].
  destruct (negb _) eqn:E2; [apply replies_term|]. destruct (ev_Schema env >? hi) eqn:E3.
  { apply quarantine_replies. unfold SupportsCatalogSchema. rewrite Hk. zbool. destruct (Z.leb_spec (ev_Schema env) hi); [lia|]. apply andb_false_r. }
  destruct (ev_Schema env <? lo) eqn:E4; [apply replies_term|].
  destruct (bool_decide (ms_Subject msg = subjectArchived)); [apply archived_replies|].
  destruct (_ || _); [apply closed_replies|by apply publication_replies].
Qed.
End Shapes.
End ConsumerRuns.
