(* ===== verification/ConsumerSafety.v ===== *)
(** * What the consumer of catalog events guarantees

    Deliveries, retried and repeated as the broker likes, with calls to the
    database that fail or lose their answer: a message that is settled is
    accounted for, and an event changes the inventory once. *)

From stdpp Require Import pretty.
From S2P Require Import Prelude Text Sha256 Format Tables Inventory Claims SeatMap Availability Geometry CatalogEvents CatalogConsumer.
From S2P Require Import SeatClaims InventoryMoves ClaimMoves SeatMoves InventorySafety ConsumerRuns.
#[local] Open Scope Z_scope.

Section ConsumerSafety.
Context `{UU : UUID} {DD : Decoder}.
Implicit Types (db : EventDB) (msg : Message).

Record World := { wd_limit : Z; wd_now : time; wd_fault : StoreCall → Fault; wd_resolver : option Resolver }.

Definition deliver (w : World) msg db : Handled EventDB :=
  handle (Postgres (wd_limit w) (wd_now w) (wd_fault w)) (wd_resolver w) msg db.

Fixpoint deliveries (l : list (World * Message)) db : EventDB :=
  match l with [] => db | (w, msg) :: l => deliveries l (hd_state (deliver w msg db)) end.

(** ** Calls *)

Lemma attempt_ends {A} fault (body : EventDB → result EventError (EventDB * A)) db db' r : attempt fault body db = (db', r) →
  (db' = db ∧ ∃ e, r = Err e ∧ (e = ErrOutage ∨ body db = Err e)) ∨
  (∃ a, body db = Ok (db', a) ∧ (r = Ok a ∨ (fault = Lost ∧ r = Err ErrOutage))).
Proof.
  unfold attempt. destruct fault.
  - destruct (body db) as [[db1 a]|e] eqn:H; intros [= <- <-]; [right; eauto|left; eauto].
  - intros [= <- <-]. left; eauto.
  - destruct (body db) as [[db1 a]|e] eqn:H; intros [= <- <-]; [right; eauto|left; eauto].
Qed.

Lemma attempt_Ok {A} fault (body : EventDB → result EventError (EventDB * A)) db db' a :
  attempt fault body db = (db', Ok a) → body db = Ok (db', a).
Proof. intros [(_ & e & ? & _)|(a' & H & [[= <-]|[_ ?]])]%attempt_ends; done. Qed.

Lemma attempt_kept {A} fault (body : EventDB → result EventError (EventDB * A)) db db' e :
  attempt fault body db = (db', Err e) → fault ≠ Lost → db' = db.
Proof. intros [(-> & _)|(a' & _ & [?|[? _]])]%attempt_ends ?; done. Qed.

(** ** Transactions that consume an event *)

Definition consumes {A} (eventID : uuid) (body : InventoryDB → tx A) : Prop := ∀ inv inv' r, body inv = Ok (inv', r) →
  is_ok r = true ∧ (eventID ∈ in_events inv ∧ inv' = inv ∨ (eventID ∉ in_events inv) ∧ in_events inv' = {[eventID]} ∪ in_events inv).

Lemma Provision_consumes e slot org capacity : consumes e (Provision e slot org capacity).
Proof.
  intros db db' r. unfold Provision. destruct (_ <=? _); [done|]. case_bool_decide as He; [intros [= <- <-]; split; [done|by left]|].
  destruct (in_pools _ !! slot) as [pool|].
  - destruct (untouched _ _ _ _); [destruct (match po_Target pool with Some _ => _ | None => _ end); [done|]|]; intros [= <- <-]; split; try done; by right.
  - intros [= <- <-]. split; [done|by right].
Qed.

Lemma upsert_events slot l : ∀ (db db' : InventoryDB), fold_result (upsert_adjacency slot) db l = Ok db' → in_events db' = in_events db.
Proof.
  induction l as [|a l IH]; cbn; intros db db'; [by intros [= <-]|]. intros (db1 & H1 & H2)%bind_Ok. rewrite (IH _ _ H2).
  unfold upsert_adjacency in H1. destruct (_ && _); [|done]. by injection H1 as <-.
Qed.

Lemma ProvisionSeated_consumes e slot org m capacity orphan adjacency :
  consumes e (ProvisionSeated e slot org m capacity orphan adjacency).
Proof.
  intros db db' r. unfold ProvisionSeated. intros (u & _ & H)%bind_Ok. revert H. destruct (_ <=? _); [done|].
  destruct (bool_decide (m = _)); [done|]. destruct (_ && _); [done|]. case_bool_decide as He; [intros [= <- <-]; split; [done|by left]|].
  intros (db1 & H1 & H)%bind_Ok. revert H. destruct (negb _); [done|]. intros (db2 & H2 & [= <- <-])%bind_Ok. split; [done|]. right.
  split; [done|]. rewrite (upsert_events _ _ _ _ H2). unfold seat_pool in H1. destruct (in_pools _ !! slot) as [pool|]; [|by injection H1 as <-].
  destruct (_ || _); [done|]. destruct orphan; by injection H1 as <-.
Qed.

Lemma ApplyArchive_consumes e pool : consumes e (ApplyArchive e pool).
Proof.
  intros db db' r. unfold ApplyArchive. destruct (in_pools db !! pool) as [row|]; [|done].
  case_bool_decide as He; intros [= <- <-]; split; try done; [by left|by right].
Qed.

Lemma ApplyClosure_consumes e pool perf closed version : consumes e (ApplyClosure e pool perf closed version).
Proof.
  intros db db' r. unfold ApplyClosure. destruct (in_pools db !! pool) as [row|]; [|done].
  case_bool_decide as He; [intros [= <- <-]; split; [done|by left]|]. destruct (_ <? 1); [done|].
  intros [= <- <-]. split; [done|by right].
Qed.

(** What a request, committed, does to the inventory. *)
Definition change (a : StoreRequest) : InventoryDB → InventoryDB :=
  match a with
  | AskProvision e slot org capacity => effect (Provision e slot org capacity)
  | AskProvisionSeated e slot org m capacity orphan adjacency => effect (ProvisionSeated e slot org m capacity orphan adjacency)
  | AskArchive e pool => effect (ApplyArchive e pool)
  | AskClosure e pool perf closed version => effect (ApplyClosure e pool perf closed version)
  | AskMoot e _ _ _ | AskConsumeMoot e _ _ _ => with_events (λ s, {[e]} ∪ s)
  | AskQuarantine _ _ _ _ | AskPark _ => λ inv, inv
  end.

Definition request_event (a : StoreRequest) : uuid :=
  match a with
  | AskProvision e _ _ _ | AskProvisionSeated e _ _ _ _ _ _ | AskArchive e _ | AskClosure e _ _ _ _
  | AskMoot e _ _ _ | AskConsumeMoot e _ _ _ | AskQuarantine _ e _ _ => e
  | AskPark p => pe_EventID p
  end.

(** A committed call leaves the inventory alone or makes the change of its event,
    which was new and is consumed after. *)
Definition advances db db' (a : StoreRequest) : Prop :=
  ed_Inv db' = ed_Inv db ∨
  consumed db (request_event a) = false ∧ ed_Inv db' = change a (ed_Inv db) ∧
  in_events (ed_Inv db') = {[request_event a]} ∪ in_events (ed_Inv db).

Lemma lift_Ok {A} (body : InventoryDB → tx A) db db' a : lift body db = Ok (db', a) →
  body (ed_Inv db) = Ok (ed_Inv db', Ok a) ∧ db' = with_inv (λ _, ed_Inv db') db.
Proof. unfold lift. destruct (body (ed_Inv db)) as [[inv [x|e]]|e]; try done. by intros [= <- <-]. Qed.

Lemma lift_advances {A} (body : InventoryDB → tx A) r db db' a : consumes (request_event r) body → change r = effect body →
  lift body db = Ok (db', a) → advances db db' r.
Proof.
  intros Hc Hr [H _]%lift_Ok. destruct (Hc _ _ _ H) as [_ [[_ ?]|[Hn He]]]; [by left|]. right.
  split_and!; [by apply bool_decide_eq_false|rewrite Hr; unfold effect, transaction; by rewrite H|done].
Qed.

Lemma lift_consumed {A} (body : InventoryDB → tx A) e db db' a : consumes e body → lift body db = Ok (db', a) → consumed db' e = true.
Proof.
  intros Hc [H _]%lift_Ok. apply bool_decide_eq_true. destruct (Hc _ _ _ H) as [_ [[? He]|[_ He]]]; rewrite He; set_solver.
Qed.

Lemma consume_advances db db' r : change r = with_events (λ s, {[request_event r]} ∪ s) →
  ed_Inv db' = ed_Inv (consume (request_event r) db) → advances db db' r.
Proof.
  intros Hr He. destruct (consumed db (request_event r)) eqn:Hc.
  - left. rewrite He. unfold consume, with_inv, consumed in *. cbn. destruct (ed_Inv db). unfold with_events. cbn in *. f_equal.
    apply bool_decide_eq_true in Hc. set_solver.
  - right. split_and!; [done|by rewrite Hr|]. by rewrite He.
Qed.

Lemma consume_consumed db e : consumed (consume e db) e = true.
Proof. apply bool_decide_eq_true. cbn. set_solver. Qed.

(** ** One delivery *)

Context {DL : DecoderLaws}.

Definition store_of (w : World) : catalogStore EventDB := Postgres (wd_limit w) (wd_now w) (wd_fault w).

Lemma deliver_cases w msg db :
  (asked (wd_resolver w) msg = [] ∧ ∃ d, d ≠ Ack ∧ d ≠ Nak ∧
     ∀ w' db', wd_resolver w' = wd_resolver w → deliver w' msg db' = settle db' d) ∨
  ∃ env, unmarshalEnvelope (ms_Data msg) = Some env ∧ Asks msg env (asked (wd_resolver w) msg) ∧
    deliver w msg db = reply (store_of w) (asked (wd_resolver w) msg) Term db.
Proof.
  destruct (unmarshalEnvelope (ms_Data msg)) as [env|] eqn:He.
  - destruct (handle_replies (wd_resolver w) msg env He) as [(d & Ha & Hn & Hd)|(asks & Hsh & Has & Hr)].
    + left. split; [unfold asked; by rewrite Hd|]. exists d. split_and!; [done..|]. intros w' db' Hw. unfold deliver. by rewrite Hw, Hd.
    + right. exists env. assert (asked (wd_resolver w) msg = asks) as -> by done. split_and!; [done..|]. apply Hr.
  - left. split; [unfold asked; by rewrite handle_unreadable|]. exists Term. split_and!; [done..|].
    intros w' db' _. by apply handle_unreadable.
Qed.

Lemma asks_event msg env asks a : Asks msg env asks → a ∈ asks → request_event a = ev_ID env.
Proof. intros Hs. destruct Hs; cbn; set_unfold; naive_solver. Qed.

(** A call that answers is a call that committed; one that does not may have. *)
Lemma call_advances {A} fault (body : EventDB → result EventError (EventDB * A)) db r : (∀ db' a, body db = Ok (db', a) → advances db db' r) →
  advances db (attempt fault body db).1 r.
Proof.
  intros Hb. destruct (attempt fault body db) as [db' x] eqn:H. cbn.
  apply attempt_ends in H as [[-> _]|(a & H & _)]; [by left|by eapply Hb].
Qed.

Lemma not_found_kept {A} fault (body : EventDB → result EventError (EventDB * A)) db :
  (attempt fault body db).2 = Err (StoreError ErrNotFound) → (attempt fault body db).1 = db.
Proof.
  destruct (attempt fault body db) as [db' x] eqn:H. cbn. intros ->.
  by apply attempt_ends in H as [[-> _]|(a & H & [?|[_ ?]])].
Qed.

Lemma moot_advances e org slot pool db db' b : ConsumeMootOffering e org slot pool db = Ok (db', b) →
  advances db db' (AskConsumeMoot e org slot pool).
Proof.
  unfold ConsumeMootOffering. destruct (moot_without_pool _ _ _ _ && _); [intros [= <- _]; by apply consume_advances|].
  destruct (consumed db e && _); intros [= <- _]; by left.
Qed.

Lemma deliver_advances w msg db : ed_Inv (hd_state (deliver w msg db)) = ed_Inv db ∨
  ∃ a, a ∈ asked (wd_resolver w) msg ∧ advances db (hd_state (deliver w msg db)) a.
Proof.
  destruct (deliver_cases w msg db) as [(_ & d & _ & _ & H)|(env & _ & Hs & ->)]; [left; by rewrite H|].
  assert (Hpair : ∀ a e (body : EventDB → result EventError (EventDB * unit)) org slot pool,
    (∀ db' x, body db = Ok (db', x) → advances db db' a) →
    let sr := attempt (wd_fault w CallApply) body db in
    let h := match sr.2 with
             | Err (StoreError ErrNotFound) =>
                 let sm := cs_ConsumeMootOffering (store_of w) e org slot pool sr.1 in
                 settle sm.1 match sm.2 with Ok true => Ack | _ => NakWithDelay end
             | r => on_result (A := unit) (sr.1, r) Ack (λ _, Nak)
             end in
    advances db (hd_state h) a ∨ advances db (hd_state h) (AskConsumeMoot e org slot pool)).
  { intros a e body org slot pool Hb sr h. pose proof (call_advances (wd_fault w CallApply) body db a Hb) as Ha. fold sr in Ha.
    subst h. destruct sr.2 as [?|[[]| | | | |]] eqn:Hr; cbn; try by left.
    right. pose proof (not_found_kept _ _ _ Hr) as Hk. fold sr in Hk. rewrite Hk. apply call_advances. intros db' b. apply moot_advances. }
  destruct Hs; cbn [reply]; right; try (eexists; split; [apply list_elem_of_here|]; apply call_advances).
  - intros db' []. apply lift_advances; [apply Provision_consumes|done].
  - intros db' []. apply lift_advances; [apply ProvisionSeated_consumes|done].
  - edestruct (Hpair (AskArchive (ev_ID env) pool)) as [Hh|Hh]; [| |];
      [intros db' []; apply lift_advances; [apply ApplyArchive_consumes|done]|eexists; split; [apply list_elem_of_here|exact Hh]|].
    eexists. split; [apply list_elem_of_further, list_elem_of_here|exact Hh].
  - edestruct (Hpair (AskClosure (ev_ID env) pool perf closed version)) as [Hh|Hh]; [| |];
      [intros db' []; apply lift_advances; [apply ApplyClosure_consumes|done]|eexists; split; [apply list_elem_of_here|exact Hh]|].
    eexists. split; [apply list_elem_of_further, list_elem_of_here|exact Hh].
  - intros db' []. unfold RecordMootSlot. intros [= <-]. apply consume_advances; [done|]. by destruct (ed_Moot _ !! _).
  - intros db' b. unfold ParkCatalogEvent. destruct (ed_Parked db !! _); [destruct (bool_decide _)|destruct (_ || _)]; intros [= <- _]; by left.
  - intros db' []. unfold QuarantineCatalogEvent. destruct (prune _ _ !! _); [destruct (_ || _)|destruct (_ >=? _); [|destruct (_ <=? 0)]];
      intros [= <-]; by left.
Qed.

(** ** What a delivery writes to the quarantine *)

Lemma attempt_quarantine {A} fault (body : EventDB → result EventError (EventDB * A)) db :
  (∀ db' a, body db = Ok (db', a) → ed_Quarantine db' = ed_Quarantine db) → ed_Quarantine (attempt fault body db).1 = ed_Quarantine db.
Proof.
  intros Hb. destruct (attempt fault body db) as [db' r] eqn:H. apply attempt_ends in H as [[-> _]|(a & H & _)]; [done|by eapply Hb].
Qed.

Lemma lift_quarantine {A} (body : InventoryDB → tx A) db db' a : lift body db = Ok (db', a) → ed_Quarantine db' = ed_Quarantine db.
Proof. intros [_ ->]%lift_Ok. done. Qed.

Lemma moot_quarantine e org slot pool db db' b : ConsumeMootOffering e org slot pool db = Ok (db', b) → ed_Quarantine db' = ed_Quarantine db.
Proof. unfold ConsumeMootOffering. destruct (_ && _); [by intros [= <- _]|]. by destruct (_ && _); intros [= <- _]. Qed.

Lemma on_result_state {S A} (sr : S * result EventError A) ok err : hd_state (on_result sr ok err) = sr.1 ∧ hd_unready (on_result sr ok err) = false.
Proof. done. Qed.

(** Only the quarantine of an event withdraws readiness, and only it writes there. *)
Lemma deliver_quarantines w msg db :
  let h := deliver w msg db in
  if hd_unready h then hd_state h = db ∨ ∃ subject e schema envelope,
    QuarantineCatalogEvent (wd_limit w) (wd_now w) subject e schema envelope db = Ok (hd_state h, tt)
  else ed_Quarantine (hd_state h) = ed_Quarantine db.
Proof.
  cbv zeta. destruct (deliver_cases w msg db) as [(_ & d & _ & _ & H)|(env & _ & Hs & ->)]; [by rewrite H|].
  destruct Hs; cbn [reply]; try (apply attempt_quarantine; intros db' []; apply lift_quarantine).
  - destruct (cs_ApplyArchive _ _ _ _).2 as [?|[[]| | | | |]] eqn:Hr; cbn -[attempt]; try (apply attempt_quarantine; intros db' []; apply lift_quarantine).
    rewrite (not_found_kept _ _ _ Hr). apply attempt_quarantine. intros db' b. apply moot_quarantine.
  - destruct (cs_ApplyClosure _ _ _ _ _ _ _).2 as [?|[[]| | | | |]] eqn:Hr; cbn -[attempt]; try (apply attempt_quarantine; intros db' []; apply lift_quarantine).
    rewrite (not_found_kept _ _ _ Hr). apply attempt_quarantine. intros db' b. apply moot_quarantine.
  - apply attempt_quarantine. intros db' []. unfold RecordMootSlot. intros [= <-]. by destruct (ed_Moot _ !! _).
  - apply attempt_quarantine. intros db' b. unfold ParkCatalogEvent. destruct (ed_Parked db !! _); [destruct (bool_decide _)|destruct (_ || _)]; by intros [= <- _].
  - cbn -[attempt QuarantineCatalogEvent]. destruct (attempt _ _ _) as [db' r] eqn:Ha. cbn -[QuarantineCatalogEvent].
    apply attempt_ends in Ha as [[-> (e & -> & _)]|([] & Ha & Hr)].
    + destruct e; auto.
    + destruct Hr as [-> |[_ ->]]; eauto 10.
Qed.

(** ** Runs of deliveries *)

Definition some_clock : Clock := {| ck_now := 0; ck_window := 0; ck_code := 0; ck_reserve := 0; ck_insert := 0 |}.

Lemma change_sound a inv : Sound inv → Sound (change a inv).
Proof.
  intros Hs. destruct a; cbn [change]; try done.
  - by apply (perform_sound 0 some_clock (OpProvision eventID slot org capacity)).
  - by apply (perform_sound 0 some_clock (OpProvisionSeated eventID slot org seatMap capacity orphan adjacency)).
  - by apply (perform_sound 0 some_clock (OpArchive eventID pool)).
  - by apply (perform_sound 0 some_clock (OpClosure eventID pool perf closed version)).
  - by apply (steps_sound free some_clock inv); [apply idle_steps|].
  - by apply (steps_sound free some_clock inv); [apply idle_steps|].
Qed.

(** C15 (safety). An event changes the inventory once. Deliver messages in any
    order, each any number of times, with any answers of catalog and any calls to
    the database failing before or after they commit. What is left of the
    inventory is what the changes of some of the events make of it, one after
    another, each event's once and never again, each as one of its deliveries
    asked for; the events marked consumed are those and no others; and the
    invariants of the inventory's operations hold as before. *)
Theorem each_event_applies_once l : ∀ db, ∃ asks,
  NoDup (map request_event asks) ∧
  (∀ a, a ∈ asks → (request_event a ∉ in_events (ed_Inv db)) ∧ ∃ w msg, (w, msg) ∈ l ∧ a ∈ asked (wd_resolver w) msg) ∧
  ed_Inv (deliveries l db) = foldl (λ inv a, change a inv) (ed_Inv db) asks ∧
  in_events (ed_Inv (deliveries l db)) = list_to_set (map request_event asks) ∪ in_events (ed_Inv db) ∧
  (Sound (ed_Inv db) → Sound (ed_Inv (deliveries l db))).
Proof.
  induction l as [|[w msg] l IH]; intros db; cbn [deliveries].
  - exists []. split_and!; [constructor|intros a Ha; by apply not_elem_of_nil in Ha|done|set_solver|done].
  - destruct (IH (hd_state (deliver w msg db))) as (asks & Hnd & Hin & Hfold & Hev & Hsound).
    assert (Hold : ed_Inv (hd_state (deliver w msg db)) = ed_Inv db → ∃ asks, NoDup (map request_event asks) ∧
      (∀ a, a ∈ asks → (request_event a ∉ in_events (ed_Inv db)) ∧ ∃ w' msg', (w', msg') ∈ (w, msg) :: l ∧ a ∈ asked (wd_resolver w') msg') ∧
      ed_Inv (deliveries l (hd_state (deliver w msg db))) = foldl (λ inv a, change a inv) (ed_Inv db) asks ∧
      in_events (ed_Inv (deliveries l (hd_state (deliver w msg db)))) = list_to_set (map request_event asks) ∪ in_events (ed_Inv db) ∧
      (Sound (ed_Inv db) → Sound (ed_Inv (deliveries l (hd_state (deliver w msg db)))))).
    { intros He. rewrite He in *. exists asks. split_and!; try done. intros a Ha. destruct (Hin a Ha) as (? & w' & msg' & ? & ?).
      split; [done|]. exists w', msg'. split; [by apply list_elem_of_further|done]. }
    destruct (deliver_advances w msg db) as [He|(a & Ha & [He|(Hc & He & Hs)])]; [by apply Hold..|].
    exists (a :: asks). cbn [map foldl list_to_set]. rewrite <-He. split_and!.
    + apply list.NoDup_cons. split; [|done]. intros (x & Hx & Hxin)%list_elem_of_In%in_map_iff. apply list_elem_of_In, Hin in Hxin as [Hnew _].
      rewrite Hx, Hs in Hnew. set_solver.
    + intros x [->|Hx]%list.elem_of_cons.
      * split; [by apply bool_decide_eq_false in Hc|]. exists w, msg. split; [apply list_elem_of_here|done].
      * destruct (Hin x Hx) as (Hnew & w' & msg' & ? & ?). rewrite Hs in Hnew. split; [set_solver|].
        exists w', msg'. split; [by apply list_elem_of_further|done].
    + done.
    + change (list_to_set (request_event a :: map request_event asks)) with ({[request_event a]} ∪ list_to_set (C := gset uuid) (map request_event asks)).
      rewrite Hev, Hs. set_solver.
    + intros Hsd. apply Hsound. rewrite He. by apply change_sound.
Qed.

(** ** How a delivery is settled *)

(** Whatever the database holds and however its calls go, the message ends the same. *)
Definition hopeless (w : World) msg : Prop :=
  ∀ w' db', wd_resolver w' = wd_resolver w → hd_disposition (deliver w' msg db') = Term.

Definition quarantined db msg (env : Decoded string) : Prop := ∃ row,
  ed_Quarantine db !! (ms_Subject msg, ev_ID env) = Some row ∧ qr_Envelope row = ms_Data msg ∧ qr_Schema row = ev_Schema env.

Definition parked db msg (env : Decoded string) : Prop := ∃ row,
  ed_Parked db !! (ms_Subject msg, ev_ID env) = Some row ∧ pe_Envelope row = ms_Data msg.

(** The id is filed with other content, or the projection is not one that can be stored. *)
Definition disputed (w : World) db msg (env : Decoded string) : Prop :=
  (∃ row, ed_Parked db !! (ms_Subject msg, ev_ID env) = Some row ∧ pe_Envelope row ≠ ms_Data msg) ∨
  (∃ row, ed_Quarantine db !! (ms_Subject msg, ev_ID env) = Some row ∧ (qr_Envelope row ≠ ms_Data msg ∨ qr_Schema row ≠ ev_Schema env)) ∨
  (∃ slot org m capacity orphan adjacency,
     asked (wd_resolver w) msg = [AskProvisionSeated (ev_ID env) slot org m capacity orphan adjacency] ∧
     ProvisionSeated (ev_ID env) slot org m capacity orphan adjacency (ed_Inv db) = Err ErrSeatProjectionIncomplete).

Definition accounted (w : World) msg db (h : Handled EventDB) : Prop :=
  match hd_disposition h with
  | Ack => ∃ env, unmarshalEnvelope (ms_Data msg) = Some env ∧ (consumed (hd_state h) (ev_ID env) = true ∨ quarantined (hd_state h) msg env)
  | Term => hopeless w msg ∨ ∃ env, unmarshalEnvelope (ms_Data msg) = Some env ∧ (parked (hd_state h) msg env ∨ hd_state h = db ∧ disputed w db msg env)
  | Nak | NakWithDelay => (∀ call, wd_fault w call ≠ Lost) → hd_state h = db
  end.

Section Accounts.
Context (w : World) (msg : Message) (db : EventDB) (env : Decoded string).
Hypothesis Henv : unmarshalEnvelope (ms_Data msg) = Some env.

(** A call whose success is an ack and whose failure is a retry. *)
Lemma call_accounted {A} call (body : EventDB → result EventError (EventDB * A)) (retry : EventError → Disposition) :
  (∀ db' a, body db = Ok (db', a) → consumed db' (ev_ID env) = true) →
  (∀ e, retry e = Nak ∨ retry e = NakWithDelay) →
  accounted w msg db (on_result (attempt (wd_fault w call) body db) Ack retry).
Proof.
  intros Hb Hr. destruct (attempt (wd_fault w call) body db) as [db' [a|e]] eqn:H; unfold on_result, accounted; cbn.
  - exists env. split; [done|]. left. eapply Hb. by eapply attempt_Ok.
  - pose proof (attempt_kept _ _ _ _ _ H) as Hk. destruct (Hr e) as [-> | ->]; intros Hf; by apply Hk.
Qed.

Lemma offer_accounted e (body : EventDB → result EventError (EventDB * unit)) org slot pool : e = ev_ID env →
  (∀ db' a, body db = Ok (db', a) → consumed db' (ev_ID env) = true) →
  let sr := attempt (wd_fault w CallApply) body db in
  accounted w msg db match sr.2 with
    | Err (StoreError ErrNotFound) =>
        let sm := cs_ConsumeMootOffering (store_of w) e org slot pool sr.1 in
        settle sm.1 match sm.2 with Ok true => Ack | _ => NakWithDelay end
    | r => on_result (A := unit) (sr.1, r) Ack (λ _, Nak)
    end.
Proof.
  intros -> Hb sr. assert (Hplain : accounted w msg db (on_result sr Ack (λ _, Nak))).
  { unfold sr. apply call_accounted; [done|]. intros _. by left. }
  destruct sr as [db1 r] eqn:Hsr. cbn [fst snd]. destruct r as [a|[[]| | | | |]]; try exact Hplain.
  assert (Hk : db1 = db). { pose proof (not_found_kept (wd_fault w CallApply) body db) as Hk. fold sr in Hk. rewrite Hsr in Hk. by apply Hk. }
  rewrite Hk. cbn -[attempt]. destruct (attempt (wd_fault w CallConsumeMoot) _ db) as [db2 [b|x]] eqn:Hm; unfold accounted; cbn.
  - pose proof Hm as Hm'. apply attempt_Ok in Hm'. unfold ConsumeMootOffering in Hm'.
    destruct (moot_without_pool _ _ _ _ && _) eqn:E1; [injection Hm' as <- <-; exists env; split; [done|left; apply consume_consumed]|].
    destruct (consumed db (ev_ID env) && _) eqn:E2; injection Hm' as <- <-; [|done].
    apply andb_prop in E2 as [E2 _]. exists env. split; [done|by left].
  - intros Hf. by apply (attempt_kept _ _ _ _ _ Hm).
Qed.

Lemma seated_accounted slot org m capacity orphan adjacency :
  asked (wd_resolver w) msg = [AskProvisionSeated (ev_ID env) slot org m capacity orphan adjacency] →
  accounted w msg db (reply (store_of w) [AskProvisionSeated (ev_ID env) slot org m capacity orphan adjacency] Term db).
Proof.
  intros Ha. cbn -[attempt]. destruct (attempt _ _ _) as [db' [a|e]] eqn:H; unfold on_result, accounted; cbn.
  - exists env. split; [done|]. left. apply attempt_Ok in H. eapply lift_consumed; [apply ProvisionSeated_consumes|exact H].
  - case_bool_decide as He; [|intros Hf; by eapply attempt_kept]. right. exists env. split; [done|]. right. subst e.
    apply attempt_ends in H as [(-> & e & [= <-] & [?|Hl])|(a & _ & [?|[_ ?]])]; try done. split; [done|]. right; right.
    exists slot, org, m, capacity, orphan, adjacency. split; [done|]. unfold lift in Hl.
    destruct (ProvisionSeated _ _ _ _ _ _ _ _) as [[inv [x|e]]|e] eqn:Hp; [done| |].
    + apply ProvisionSeated_consumes in Hp as [? _]. done.
    + by injection Hl as ->.
Qed.

Lemma quarantine_accounted :
  accounted w msg db (reply (store_of w) [AskQuarantine (ms_Subject msg) (ev_ID env) (ev_Schema env) (ms_Data msg)] Term db).
Proof.
  cbn -[attempt]. destruct (attempt _ _ _) as [db' [a|e]] eqn:H; unfold accounted; cbn -[QuarantineCatalogEvent].
  - exists env. split; [done|]. right. apply attempt_Ok in H. unfold QuarantineCatalogEvent in H. unfold quarantined.
    destruct (prune _ _ !! _) as [row|].
    + destruct (_ || _) eqn:E; [done|]. apply orb_false_iff in E as [E1 E2]. injection H as <- _. cbn. rewrite lookup_insert_eq.
      eexists. split; [done|]. cbn. zbool. done.
    + destruct (_ >=? _); [done|]. destruct (_ <=? 0); [done|]. injection H as <- _. cbn. rewrite lookup_insert_eq. by eexists.
  - assert (Hk : (∀ call, wd_fault w call ≠ Lost) → db' = db) by (intros Hf; by eapply attempt_kept).
    destruct e; try exact Hk. right. exists env. split; [done|]. right.
    apply attempt_ends in H as [(-> & e & [= <-] & [?|Hq])|(a & _ & [?|[_ ?]])]; try done. split; [done|]. right; left.
    unfold QuarantineCatalogEvent in Hq. destruct (prune _ _ !! _) as [row|] eqn:Hrow; [|destruct (_ >=? _); [done|]; by destruct (_ <=? 0)].
    apply map_lookup_filter_Some in Hrow as [Hrow _]. exists row. split; [done|].
    destruct (_ || _) eqn:E; [|done]. apply orb_prop in E as [E|E]; [right|left]; zbool; done.
Qed.

Lemma park_accounted p : pe_Subject p = ms_Subject msg → pe_EventID p = ev_ID env → pe_Envelope p = ms_Data msg →
  accounted w msg db (reply (store_of w) [AskPark p] Term db).
Proof.
  intros Hs Hi He. cbn -[attempt]. destruct (attempt _ _ _) as [db' [a|e]] eqn:H; unfold on_result, accounted; cbn -[ParkCatalogEvent].
  - right. exists env. split; [done|]. left. apply attempt_Ok in H. unfold ParkCatalogEvent in H. unfold parked. rewrite <-Hs, <-Hi, <-He.
    destruct (ed_Parked db !! _) as [row|] eqn:Hrow.
    + case_bool_decide as Hb; [|done]. injection H as <- _. by exists row.
    + destruct (_ || _); [done|]. injection H as <- _. cbn. exists p. by rewrite lookup_insert_eq.
  - case_bool_decide as Hc; [|intros Hf; by eapply attempt_kept]. subst e. right. exists env. split; [done|]. right.
    apply attempt_ends in H as [(-> & e & [= <-] & [?|Hq])|(a & _ & [?|[_ ?]])]; try done. split; [done|]. left.
    unfold ParkCatalogEvent in Hq. rewrite Hs, Hi, He in Hq. destruct (ed_Parked db !! _) as [row|] eqn:Hrow; [|by destruct (_ || _)].
    exists row. split; [done|]. by case_bool_decide.
Qed.
End Accounts.

(** C29 (error). Nothing is settled unaccounted for. However the calls to the
    database go, an acked event is marked consumed, or its exact bytes are in the
    quarantine; a terminated one is parked with its exact bytes, or its id is
    filed with other content, or its projection cannot be stored, or no database
    and no outcome of its calls would have ended it otherwise; and a message that
    is to be retried has changed nothing, unless a call committed whose answer
    was lost. *)
Theorem settlement_is_accounted_for w msg db : accounted w msg db (deliver w msg db).
Proof.
  destruct (deliver_cases w msg db) as [(_ & d & Ha & Hn & Hd)|(env & He & Hs & ->)].
  - rewrite (Hd w) by done. unfold accounted. cbn. destruct d; try done. left. intros w' db' Hw. by rewrite Hd.
  - remember (asked (wd_resolver w) msg) as asks eqn:Hasks. destruct Hs.
    + apply (call_accounted w msg db env He CallApply); [|by left]. intros db' []. apply lift_consumed, Provision_consumes.
    + by apply seated_accounted.
    + apply (offer_accounted w msg db env He); [done|]. intros db' []. apply lift_consumed, ApplyArchive_consumes.
    + apply (offer_accounted w msg db env He); [done|]. intros db' []. apply lift_consumed, ApplyClosure_consumes.
    + apply (call_accounted w msg db env He CallMoot); [|by right]. intros db' []. unfold RecordMootSlot. intros [= <-].
      pose proof (consume_consumed db (ev_ID env)). by destruct (ed_Moot _ !! _).
    + by apply (park_accounted w msg db env He).
    + by apply quarantine_accounted.
Qed.
End ConsumerSafety.

#[local] Existing Instance text_uuid.

(** ** A stream of four messages

    A publication, the archive of its slot, a toggle, and a publication of a
    schema that is not known yet; messages are their own names. *)
Definition sample_header (id type : string) (schema : Z) (data : string) : Decoded string :=
  {| ev_ID := (id : uuid); ev_Type := type; ev_Schema := schema; ev_Data := data |}.

Definition sample_publication : Decoded publicationData := {|
  ev_ID := ("e1"%string : uuid); ev_Type := subjectPublished; ev_Schema := 2;
  ev_Data := {| pd_PerformanceID := ("slot"%string : uuid); pd_OrganizerID := ("org"%string : uuid); pd_Capacity := 10;
    pd_CapacityGroupID := None; pd_SharedCapacity := None; pd_SeatMapID := None; pd_OrphanPreventionEnabled := false |} |}.

Definition sample_decoder : Decoder := {|
  unmarshalEnvelope raw :=
    if bool_decide (raw = "publish"%string) then Some (sample_header "e1" subjectPublished 2 "")
    else if bool_decide (raw = "archive"%string) then Some (sample_header "e2" subjectArchived 2 "slot")
    else if bool_decide (raw = "close"%string) then Some (sample_header "e3" subjectClosed 1 "slot")
    else if bool_decide (raw = "future"%string) then Some (sample_header "e4" subjectPublished 9 "")
    else None;
  unmarshalPublication raw := if bool_decide (raw = "publish"%string) then Some sample_publication else None;
  unmarshalArchived data := Some {| ad_PerformanceID := (data : uuid); ad_OrganizerID := ("org"%string : uuid); ad_CapacityGroupID := None |};
  unmarshalClosure data := Some {| cd_PerformanceID := (data : uuid); cd_OrganizerID := ("org"%string : uuid); cd_Version := 1 |} |}.

#[local] Existing Instance sample_decoder.

Lemma sample_decoder_laws : DecoderLaws.
Proof.
  split. intros raw e p. cbn. case_bool_decide as Hr; [|done]. intros [= <-] [= <-]. done.
Qed.

Definition sample_resolver : Resolver := {|
  rs_PublishedPerformance _ := Ok {| pp_OrganizerID := ("org"%string : uuid); pp_Capacity := 10; pp_CapacityGroupID := None; pp_SharedCapacity := None |};
  rs_PoolOfferState _ := Ok {| os_Kind := "performance"; os_Lifecycle := "archived"; os_ClosureStatus := "open"; os_ClosureVersion := 0 |};
  rs_SeatMapAdjacency _ := Err errUnclassified |}.

Definition sample_world (fault : Fault) : World :=
  {| wd_limit := 10; wd_now := 0; wd_fault := λ _, fault; wd_resolver := Some sample_resolver |}.

Definition sample_message (subject data : string) : Message := {| ms_Subject := subject; ms_Data := data; ms_NumDelivered := Some 1 |}.

Definition publish_msg : Message := sample_message subjectPublished "publish".
Definition archive_msg : Message := sample_message subjectArchived "archive".
Definition close_msg : Message := sample_message subjectClosed "close".
Definition future_msg : Message := sample_message subjectPublished "future".

Definition no_events : EventDB := {| ed_Inv := empty_inventory; ed_Quarantine := ∅; ed_Parked := ∅; ed_Moot := ∅ |}.

(** An archive that comes early waits; a commit whose answer is lost is not made twice. *)
Definition sample_day : list (World * Message) := [
  (sample_world Clean, archive_msg); (sample_world Lost, publish_msg); (sample_world Refused, publish_msg); (sample_world Clean, publish_msg);
  (sample_world Clean, close_msg); (sample_world Clean, archive_msg); (sample_world Clean, future_msg); (sample_world Clean, archive_msg)].

Fixpoint dispositions (l : list (World * Message)) (db : EventDB) : list Disposition :=
  match l with [] => [] | (w, msg) :: l => hd_disposition (deliver w msg db) :: dispositions l (hd_state (deliver w msg db)) end.

Example sample_dispositions : dispositions sample_day no_events = [NakWithDelay; Nak; Nak; Ack; Ack; Ack; Ack; Ack].
Proof. vm_compute. reflexivity. Qed.

Lemma each_event_applies_once_witness : ∃ asks, NoDup (map request_event asks) ∧
  in_events (ed_Inv (deliveries sample_day no_events)) = list_to_set (map request_event asks) ∪ ∅.
Proof.
  destruct (@each_event_applies_once text_uuid sample_decoder sample_decoder_laws sample_day no_events) as (asks & H1 & _ & _ & H2 & _).
  exists asks. split; [exact H1|exact H2].
Defined.

Lemma settlement_is_accounted_for_witness : accounted (sample_world Lost) publish_msg no_events (deliver (sample_world Lost) publish_msg no_events).
Proof. exact (@settlement_is_accounted_for text_uuid sample_decoder sample_decoder_laws (sample_world Lost) publish_msg no_events). Defined.
