(* ===== verification/Offering.v ===== *)
(** * The offer of a pool converges

    Archives and closures reach a pool in whatever order the broker, its
    redeliveries and catalog's answers leave them. What the pool offers in the end
    does not depend on it: it is archived once any archive was applied, and closed
    when the last toggle, by catalog's count, of some performance closed it. *)

From stdpp Require Import pretty.
From S2P Require Import Prelude Text Sha256 Format Tables Inventory Claims SeatMap Availability Geometry CatalogEvents CatalogConsumer.
From S2P Require Import SeatClaims InventoryMoves ClaimMoves SeatMoves InventorySafety ConsumerRuns ConsumerSafety.
#[local] Open Scope Z_scope.

Section Offering.
Context `{UU : UUID} {DD : Decoder}.
Context (p : uuid).
Implicit Types (inv : InventoryDB) (asks : list StoreRequest).

(** The toggle of a performance with the highest version among the requests. *)
Definition last_toggle asks perf (closed : bool) (version : Z) : Prop :=
  (∃ e, AskClosure e p perf closed version ∈ asks) ∧
  ∀ e c v, AskClosure e p perf c v ∈ asks → v ≤ version.

(** Catalog gives one version of a performance one meaning. *)
Definition unambiguous asks : Prop := ∀ e1 e2 perf c1 c2 v,
  AskClosure e1 p perf c1 v ∈ asks → AskClosure e2 p perf c2 v ∈ asks → c1 = c2.

Record Offers (pool : Pool) asks inv : Prop := {
  of_pool : ∃ pool', in_pools inv !! p = Some pool' ∧
    (po_Archived pool' = true ↔ po_Archived pool = true ∨ ∃ e, AskArchive e p ∈ asks) ∧
    po_Closed pool' = any_closed p (in_closures inv);
  of_toggle perf c v : in_closures inv !! (p, perf) = Some (c, v) ↔ last_toggle asks perf c v;
}.

Lemma any_closed_iff m : any_closed p m = true ↔ ∃ perf v, m !! (p, perf) = Some (true, v).
Proof.
  unfold any_closed. rewrite existsb_exists. split.
  - intros ([[q perf] [c v]] & Hin%list_elem_of_In%elem_of_map_to_list & [Hq Hc]%andb_prop). cbn in *. zbool. subst. by exists perf, v.
  - intros (perf & v & H). exists ((p, perf), (true, v)). split; [by apply list_elem_of_In, elem_of_map_to_list|]. cbn. by rewrite bool_decide_true.
Qed.

Lemma any_closed_ext m m' : (∀ perf, m' !! (p, perf) = m !! (p, perf)) → any_closed p m' = any_closed p m.
Proof.
  intros H. apply eq_true_iff_eq. rewrite !any_closed_iff. by setoid_rewrite H.
Qed.

(** A request of another kind, or of another pool, leaves the offer alone. *)
Definition offers_same inv inv' : Prop :=
  (∀ pool, in_pools inv !! p = Some pool → ∃ pool', in_pools inv' !! p = Some pool' ∧ po_Archived pool' = po_Archived pool ∧ po_Closed pool' = po_Closed pool) ∧
  ∀ perf, in_closures inv' !! (p, perf) = in_closures inv !! (p, perf).

Definition of_other (a : StoreRequest) : Prop :=
  match a with AskArchive _ q | AskClosure _ q _ _ _ => q ≠ p | _ => True end.

#[local] Instance of_other_dec a : Decision (of_other a).
Proof. destruct a; apply _. Defined.

Lemma offers_same_refl inv : offers_same inv inv.
Proof. split; [eauto|done]. Qed.

Lemma events_offers_same inv f : offers_same inv (with_events f inv).
Proof. split; [eauto|done]. Qed.

Lemma pool_offers_same inv slot q : (slot = p → ∀ pool, in_pools inv !! p = Some pool → po_Archived q = po_Archived pool ∧ po_Closed q = po_Closed pool) →
  offers_same inv (set_pool slot q inv).
Proof.
  intros Hq. split; [|done]. intros pool Hp. cbn. destruct (decide (slot = p)) as [->|Hn].
  - rewrite lookup_insert_eq. exists q. split; [done|by apply Hq].
  - rewrite lookup_insert_ne by done. eauto.
Qed.

Lemma upsert_offers slot l : ∀ inv inv', fold_result (upsert_adjacency slot) inv l = Ok inv' → in_pools inv' = in_pools inv ∧ in_closures inv' = in_closures inv.
Proof.
  induction l as [|a l IH]; cbn; intros inv inv'; [by intros [= <-]|]. intros (inv1 & H1 & [Hp Hc]%IH)%bind_Ok. rewrite Hp, Hc.
  unfold upsert_adjacency in H1. destruct (_ && _); [|done]. by injection H1 as <-.
Qed.

Lemma change_offers_same a inv : of_other a → offers_same inv (change a inv).
Proof.
  destruct a; cbn [of_other change]; intros Ho; try apply offers_same_refl.
  - unfold effect, transaction, Provision. destruct (_ <=? _); [apply offers_same_refl|]. case_bool_decide; [apply offers_same_refl|].
    cbn [in_pools with_events]. destruct (in_pools inv !! slot) as [pool|] eqn:Hp.
    + destruct (untouched _ _ _ _); [|apply events_offers_same].
      destruct (match po_Target pool with Some _ => _ | None => _ end); [apply offers_same_refl|].
      apply (pool_offers_same (with_events _ inv)). intros -> pool' Hp'. cbn in Hp'. rewrite Hp in Hp'. by injection Hp' as <-.
    + apply (pool_offers_same (with_events _ inv)). intros -> pool' Hp'. cbn in Hp'. by rewrite Hp in Hp'.
  - unfold effect, transaction. destruct (ProvisionSeated _ _ _ _ _ _ _ inv) as [[inv' r]|] eqn:H; [|apply offers_same_refl]. cbn [fst].
    unfold ProvisionSeated in H. apply bind_Ok in H as (u & _ & H). revert H. destruct (_ <=? _); [done|].
    destruct (bool_decide _); [done|]. destruct (_ && _); [done|]. destruct (bool_decide _); [intros [= <- _]; apply offers_same_refl|].
    intros (inv1 & H1 & H)%bind_Ok. revert H. destruct (negb _); [done|]. intros (inv2 & [H2 H3]%upsert_offers & [= <- _])%bind_Ok.
    assert (Hs : offers_same inv inv1).
    { unfold seat_pool in H1. cbn [in_pools with_events] in H1. destruct (in_pools inv !! slot) as [pool|] eqn:Hp.
      - destruct (_ || _); [done|]. destruct orphan; injection H1 as <-; [|apply events_offers_same].
        apply (pool_offers_same (with_events _ inv)). intros -> pool' Hp'. cbn in Hp'. rewrite Hp in Hp'. by injection Hp' as <-.
      - injection H1 as <-. apply (pool_offers_same (with_events _ inv)). intros -> pool' Hp'. cbn in Hp'. by rewrite Hp in Hp'. }
    destruct Hs as [Hs1 Hs2]. split; [by rewrite H2|by rewrite H3].
  - unfold effect, transaction, ApplyArchive. destruct (in_pools inv !! pool) as [row|] eqn:Hp; [|apply offers_same_refl].
    destruct (bool_decide _); [apply offers_same_refl|]. by apply (pool_offers_same (with_events _ inv)).
  - unfold effect, transaction, ApplyClosure. destruct (in_pools inv !! pool) as [row|] eqn:Hp; [|apply offers_same_refl].
    destruct (bool_decide _); [apply offers_same_refl|]. destruct (_ <? 1); [apply offers_same_refl|]. cbn [fst commit].
    split; [cbn; intros pool' Hp'; rewrite lookup_insert_ne by done; eauto|]. intros perf'. cbn. unfold upsert_closure.
    assert (Hne : (pool, perf) ≠ (p, perf')) by congruence.
    destruct (in_closures inv !! (pool, perf)) as [[c v]|]; [destruct (v <? version)|]; try done; by rewrite lookup_insert_ne.
  - apply events_offers_same.
  - apply events_offers_same.
Qed.

(** Some toggle of a performance that has one has the highest version. *)
Lemma toggle_exists perf asks : (∀ e c v, AskClosure e p perf c v ∉ asks) ∨ ∃ c v, last_toggle asks perf c v.
Proof.
  induction asks as [|x asks IH]; [left; intros e c v; apply not_elem_of_nil|].
  assert (Hx : (∀ e c v, x ≠ AskClosure e p perf c v) ∨ ∃ e c v, x = AskClosure e p perf c v).
  { destruct x; try by left. destruct (decide (pool = p)) as [->|]; [|left; congruence]. destruct (decide (perf0 = perf)) as [->|]; [|left; congruence].
    right. eauto. }
  destruct Hx as [Hx|(e & c & v & ->)].
  - destruct IH as [Hn|(c & v & (e & He) & Hmax)].
    + left. intros e c v [H|H]%list.elem_of_cons; [by eapply Hx|by eapply Hn].
    + right. exists c, v. split; [exists e; by apply list_elem_of_further|]. intros e' c' v' [H|H]%list.elem_of_cons; [by edestruct Hx|by eapply Hmax].
  - right. destruct IH as [Hn|(c0 & v0 & (e0 & He0) & Hmax)].
    + exists c, v. split; [exists e; apply list_elem_of_here|]. intros e' c' v' [[= _ _ ->]|H]%list.elem_of_cons; [lia|by edestruct Hn].
    + destruct (Z.le_gt_cases v0 v) as [Hle|Hgt].
      * exists c, v. split; [exists e; apply list_elem_of_here|]. intros e' c' v' [[= _ _ ->]|H]%list.elem_of_cons; [lia|]. apply Hmax in H. lia.
      * exists c0, v0. split; [exists e0; by apply list_elem_of_further|]. intros e' c' v' [[= _ _ ->]|H]%list.elem_of_cons; [lia|by eapply Hmax].
Qed.

Lemma snoc_toggle asks a perf c v : (∀ e c v, a ≠ AskClosure e p perf c v) → last_toggle (asks ++ [a]) perf c v ↔ last_toggle asks perf c v.
Proof.
  intros Ha. unfold last_toggle. setoid_rewrite elem_of_app. setoid_rewrite list_elem_of_singleton. split.
  - intros [(e & [He|He]) Hmax]; [split; [by exists e|]; eauto|]. by edestruct Ha.
  - intros [(e & He) Hmax]. split; [exists e; by left|]. intros e' c' v' [H|H]; [eauto|]. by edestruct Ha.
Qed.

Lemma offers_other pool asks a inv : of_other a → Offers pool asks inv → Offers pool (asks ++ [a]) (change a inv).
Proof.
  intros Ho [(pool1 & Hp & Harch & Hcl) Ht]. destruct (change_offers_same a inv Ho) as [H1 H2].
  destruct (H1 _ Hp) as (pool2 & Hp2 & Ha2 & Hc2). split.
  - exists pool2. split_and!; [done| |].
    + rewrite Ha2, Harch. setoid_rewrite elem_of_app. setoid_rewrite list_elem_of_singleton. split; [naive_solver|].
      intros [?|(e & [He|He])]; [naive_solver..|]. subst a. by destruct Ho.
    + rewrite Hc2, Hcl. symmetry. by apply any_closed_ext.
  - intros perf c v. rewrite H2, Ht, snoc_toggle; [done|]. intros e c' v' ->. by destruct Ho.
Qed.

Lemma offers_archive pool asks e inv : (e ∉ in_events inv) → Offers pool asks inv → Offers pool (asks ++ [AskArchive e p]) (change (AskArchive e p) inv).
Proof.
  intros Hn [(pool1 & Hp & Harch & Hcl) Ht]. cbn [change]. unfold effect, transaction, ApplyArchive. rewrite Hp, bool_decide_false by done.
  cbn [fst commit]. split.
  - eexists. split; [cbn; apply lookup_insert_eq|]. split; [|done]. cbn. split; [|done]. intros _. right. exists e.
    apply elem_of_app. right. apply list_elem_of_here.
  - intros perf c v. rewrite snoc_toggle by done. apply Ht.
Qed.

Lemma offers_closure pool asks e perf closed version inv : unambiguous (asks ++ [AskClosure e p perf closed version]) →
  (e ∉ in_events inv) → 1 ≤ version → Offers pool asks inv →
  Offers pool (asks ++ [AskClosure e p perf closed version]) (change (AskClosure e p perf closed version) inv).
Proof.
  intros Hu Hn Hv [(pool1 & Hp & Harch & Hcl) Ht]. cbn [change]. unfold effect, transaction, ApplyClosure. rewrite Hp, bool_decide_false by done.
  destruct (Z.ltb_spec version 1) as [Hlt1|_]; [lia|]. cbn [fst commit]. split.
  - eexists. split; [cbn; apply lookup_insert_eq|]. split; [|done]. cbn. rewrite Harch. setoid_rewrite elem_of_app. setoid_rewrite list_elem_of_singleton.
    split; [intros [?|(e' & ?)]; [by left|right; exists e'; by left]|intros [?|(e' & [?|?])]; [by left|right; by exists e'|done]].
  - intros perf' c v. cbn [in_closures set_pool with_pools with_closures with_events]. unfold upsert_closure.
    assert (Hin : ∀ x, x ∈ asks ++ [AskClosure e p perf closed version] ↔ x ∈ asks ∨ x = AskClosure e p perf closed version).
    { intros x. by rewrite elem_of_app, list_elem_of_singleton. }
    assert (Hother : perf' ≠ perf → last_toggle (asks ++ [AskClosure e p perf closed version]) perf' c v ↔ last_toggle asks perf' c v).
    { intros Hne. apply snoc_toggle. intros e' c' v' [= _ ? _ _]. congruence. }
    destruct (decide (perf' = perf)) as [->|Hne].
    2: { rewrite Hother by done. rewrite <-Ht. destruct (in_closures inv !! (p, perf)) as [[c0 v0]|]; [destruct (v0 <? version)|]; try done;
         rewrite lookup_insert_ne; done || congruence. }
    destruct (in_closures inv !! (p, perf)) as [[c0 v0]|] eqn:Hold.
    + apply Ht in Hold as [(e0 & He0) Hmax0]. destruct (Z.ltb_spec v0 version) as [Hlt|Hge].
      * rewrite lookup_insert_eq. unfold last_toggle. setoid_rewrite Hin. split.
        -- intros [= <- <-]. split; [exists e; by right|]. intros e' c' v' [H|[= _ _ ->]]; [apply Hmax0 in H; lia|lia].
        -- intros [(e1 & [He1|[= -> -> ->]]) Hmax]; [|done]. specialize (Hmax e closed version (or_intror eq_refl)). apply Hmax0 in He1. lia.
      * assert (Hin0 : in_closures inv !! (p, perf) = Some (c0, v0)) by (apply Ht; split; [by exists e0|done]). rewrite Hin0. unfold last_toggle. setoid_rewrite Hin. split.
        -- intros [= <- <-]. split; [exists e0; by left|]. intros e' c' v' [H|[= _ _ ->]]; [by eapply Hmax0|lia].
        -- intros [(e1 & He1) Hmax]. assert (v = v0) as ->.
           { pose proof (Hmax e0 c0 v0 (or_introl He0)). destruct He1 as [He1|[= _ _ ->]]; [apply Hmax0 in He1; lia|lia]. }
           f_equal. f_equal. apply (Hu e0 e1 perf c0 c v0); rewrite Hin; [by left|done].
    + destruct (toggle_exists perf asks) as [Hnone|(c1 & v1 & H1)]; [|apply Ht in H1; congruence].
      rewrite lookup_insert_eq. unfold last_toggle. setoid_rewrite Hin. split.
      * intros [= <- <-]. split; [exists e; by right|]. intros e' c' v' [H|[= _ _ ->]]; [by edestruct Hnone|lia].
      * intros [(e1 & [He1|[= -> -> ->]]) Hmax]; [by edestruct Hnone|done].
Qed.

Definition valid_version (a : StoreRequest) : Prop := match a with AskClosure _ _ _ _ v => 1 ≤ v | _ => True end.

Lemma change_events a inv e : e ≠ request_event a → (e ∉ in_events inv) → e ∉ in_events (change a inv).
Proof.
  intros Hne Hn. assert (Hc : ∀ (body : InventoryDB → tx unit), consumes (request_event a) body → e ∉ in_events (effect body inv)).
  { intros body Hb. unfold effect, transaction. destruct (body inv) as [[inv' r]|] eqn:H; [|done].
    cbn [fst].
    destruct (Hb _ _ _ H) as [_ [[_ He]|[_ He]]]; [by subst inv'|]. rewrite He. set_solver. }
  destruct a; cbn [change request_event] in *; try done; try (cbn; set_solver).
  - apply Hc, Provision_consumes.
  - apply Hc, ProvisionSeated_consumes.
  - apply Hc, ApplyArchive_consumes.
  - apply Hc, ApplyClosure_consumes.
Qed.

Lemma unambiguous_prefix l1 l2 : unambiguous (l1 ++ l2) → unambiguous l1.
Proof. intros H e1 e2 perf c1 c2 v H1 H2. apply (H e1 e2 perf c1 c2 v); apply elem_of_app; by left. Qed.

Lemma offers_change pool asks a inv : unambiguous (asks ++ [a]) → valid_version a → (request_event a ∉ in_events inv) →
  Offers pool asks inv → Offers pool (asks ++ [a]) (change a inv).
Proof.
  intros Hu Hv Hn Ho. destruct (decide (of_other a)) as [Hoth|Hoth]; [by apply offers_other|].
  destruct a; cbn [of_other] in Hoth; try by destruct Hoth.
  - apply dec_stable in Hoth as ->. by apply offers_archive.
  - apply dec_stable in Hoth as ->. by apply offers_closure.
Qed.

Lemma offers_fold pool l : ∀ asks inv, unambiguous (asks ++ l) → Forall valid_version l → NoDup (map request_event l) →
  (∀ a, a ∈ l → request_event a ∉ in_events inv) → Offers pool asks inv → Offers pool (asks ++ l) (foldl (λ inv a, change a inv) inv l).
Proof.
  induction l as [|a l IH]; cbn; intros asks inv Hu Hv Hnd Hn Ho; [by rewrite app_nil_r|].
  apply list.Forall_cons in Hv as [Ha Hv]. apply list.NoDup_cons in Hnd as [Hnew Hnd]. rewrite cons_middle, app_assoc in *.
  apply IH; [done..| |].
  - intros x Hx. apply change_events; [|by apply Hn, list_elem_of_further]. intros He. apply Hnew. rewrite <-He.
    apply list_elem_of_In, in_map, list_elem_of_In, Hx.
  - apply offers_change; [by eapply unambiguous_prefix|done|by apply Hn, list_elem_of_here|done].
Qed.

(** C25 (functional). What a pool offers converges. Starting from a pool nothing
    was toggled on, apply the requests of any distinct events, its archives, the
    toggles of its performances and whatever else, in any order. In the end the
    pool is archived if it was or if one of the events was its archive, and it is
    closed exactly if, for some performance, the toggle that catalog numbered
    highest is a closing one. Neither mentions the order. *)
Theorem offering_converges pool asks inv :
  in_pools inv !! p = Some pool → po_Closed pool = false → (∀ perf, in_closures inv !! (p, perf) = None) →
  NoDup (map request_event asks) → (∀ a, a ∈ asks → request_event a ∉ in_events inv) → Forall valid_version asks → unambiguous asks →
  ∃ pool', in_pools (foldl (λ inv a, change a inv) inv asks) !! p = Some pool' ∧
    (po_Archived pool' = true ↔ po_Archived pool = true ∨ ∃ e, AskArchive e p ∈ asks) ∧
    (po_Closed pool' = true ↔ ∃ perf version, last_toggle asks perf true version).
Proof.
  intros Hp Hcl Hno Hnd Hn Hv Hu. destruct (offers_fold pool asks [] inv) as [(pool' & Hp' & Ha & Hc) Ht]; try done.
  - split.
    + exists pool. split_and!; [done| |].
      * split; [by left|]. intros [?|(e & He)]; [done|by apply not_elem_of_nil in He].
      * rewrite Hcl. symmetry. apply not_true_iff_false. intros (perf & v & H)%any_closed_iff. by rewrite Hno in H.
    + intros perf c v. rewrite Hno. split; [done|]. intros [(e & He) _]. by apply not_elem_of_nil in He.
  - exists pool'. cbn [app] in *. split_and!; [done..|]. rewrite Hc, any_closed_iff. by setoid_rewrite Ht.
Qed.
End Offering.

#[local] Existing Instance text_uuid.

(** Two performances share a pool: the first is closed and reopened, the second
    closed; the reopening arrives before the closing it undoes. *)
Definition toggles : list StoreRequest := [
  AskClosure ("e2"%string : uuid) slot ("p1"%string : uuid) false 2;
  AskClosure ("e1"%string : uuid) slot ("p1"%string : uuid) true 1;
  AskClosure ("e3"%string : uuid) slot ("p2"%string : uuid) true 1;
  AskArchive ("e4"%string : uuid) slot].

Definition shared_pool : Pool := new_pool ("org"%string : uuid) 10.
Definition shared_db : InventoryDB := set_pool slot shared_pool empty_inventory.

Lemma toggles_unambiguous : unambiguous slot toggles.
Proof.
  intros e1 e2 perf c1 c2 v H1 H2. unfold toggles in *. repeat setoid_rewrite list.elem_of_cons in H1. repeat setoid_rewrite list.elem_of_cons in H2.
  destruct H1 as [[=]|[[=]|[[=]|[[=]|H1]]]]; destruct H2 as [[=]|[[=]|[[=]|[[=]|H2]]]]; try (by apply not_elem_of_nil in H1); try (by apply not_elem_of_nil in H2); congruence.
Qed.

Lemma offering_converges_witness : ∃ pool', in_pools (foldl (λ inv a, change a inv) shared_db toggles) !! slot = Some pool' ∧
  (po_Closed pool' = true ↔ ∃ perf version, last_toggle slot toggles perf true version).
Proof.
  destruct (offering_converges slot shared_pool toggles shared_db) as (pool' & H1 & _ & H2).
  - exact (lookup_insert_eq ∅ slot shared_pool).
  - exact eq_refl.
  - intros perf. exact (lookup_empty (slot, perf)).
  - apply (bool_decide_unpack _). vm_compute. exact I.
  - intros a _ H. exact (not_elem_of_empty (C := gset uuid) _ H).
  - repeat constructor; cbn; lia.
  - exact toggles_unambiguous.
  - exists pool'. split; [exact H1|exact H2].
Defined.
