(* ===== verification/Paging.v ===== *)
(** * Draining a table page by page

    Both operator commands of inventory, [reprocess-quarantine] and
    [reconcile-pins], read a table in key order, a page after the key of the last
    row of the page before, work on the page, and stop at an empty one. The table
    changes under them, by their own work, which keeps an invariant. The loop is stated once: it ends, and
    works through the rows that were there at the start, each once, in order. *)

From S2P Require Import Prelude.
#[local] Open Scope Z_scope.

Lemma filter_none {A} (g : A → bool) l : (∀ x, x ∈ l → g x = false) → List.filter g l = [].
Proof.
  induction l as [|x l IH]; cbn; intros H; [done|]. rewrite H by apply list_elem_of_here. apply IH. intros y Hy. by apply H, list_elem_of_further.
Qed.

Lemma filter_twice {A} (g h : A → bool) l : List.filter g (List.filter h l) = List.filter (λ x, h x && g x) l.
Proof. induction l as [|x l IH]; cbn; [done|]. destruct (h x); cbn; [destruct (g x); by rewrite IH|done]. Qed.

Section Paging.
Context {A K T E P : Type} (key : A → K) (before : K → K → bool).
Context (rows : T → list A) (fetch : P → option K → T → result E (P * list A)) (process : T → list A → result E T).

(** The rows past a key. *)
Definition after (c : option K) (l : list A) : list A :=
  match c with Some k => List.filter (λ a, before k (key a)) l | None => l end.

(** [None] is out of fuel. *)
Fixpoint paged (fuel : nat) (p : P) (c : option K) (s : T) : option (result E T) :=
  match fuel with
  | O => None
  | S fuel =>
      match fetch p c s with
      | Err e => Some (Err e)
      | Ok (p', page) =>
          match list.last page with
          | None => Some (Ok s)
          | Some x => match process s page with Err e => Some (Err e) | Ok s' => paged fuel p' (Some (key x)) s' end
          end
      end
  end.

Definition in_order (a b : A) : Prop := before (key a) (key b) = true.

Context `{!LessOrder before} (I : T → Prop).
Hypothesis rows_sorted : ∀ s, StronglySorted in_order (rows s).
Hypothesis fetch_prefix : ∀ p c s p' page, I s → fetch p c s = Ok (p', page) →
  page `prefix_of` after c (rows s) ∧ (page = [] → after c (rows s) = []).
Hypothesis process_keeps : ∀ s c page s' x, I s → page `prefix_of` after c (rows s) → list.last page = Some x → process s page = Ok s' →
  I s' ∧ after (Some (key x)) (rows s') = after (Some (key x)) (rows s).

Lemma after_sorted c s : StronglySorted in_order (after c (rows s)).
Proof.
  destruct c as [k|]; [|apply rows_sorted]. by apply StronglySorted_bool_filter.
Qed.

(** Past the last row of a page are the rows that follow the page. *)
Lemma after_page c s page rest x : after c (rows s) = page ++ rest → list.last page = Some x → after (Some (key x)) (rows s) = rest.
Proof.
  intros Hc Hx. apply last_Some in Hx as [front ->]. rewrite <-app_assoc in Hc. cbn in Hc.
  pose proof (after_sorted c s) as Hs. rewrite Hc in Hs.
  assert (Hfront : ∀ a, a ∈ front ++ [x] → before (key x) (key a) = false).
  { intros a [Ha| ->%list_elem_of_singleton]%elem_of_app; [|by apply (less_irrefl before)].
    apply (less_asym (less := before) _ _). apply (StronglySorted_app_1_elem_of _ _ _ _ _ Hs Ha). apply list_elem_of_here. }
  assert (Hrest : ∀ a, a ∈ rest → before (key x) (key a) = true).
  { apply StronglySorted_app in Hs as (_ & _ & Hs). apply StronglySorted_inv in Hs as [_ Hs]. by rewrite list.Forall_forall in Hs. }
  assert (Hf : List.filter (λ a, before (key x) (key a)) (after c (rows s)) = rest).
  { rewrite Hc, cons_middle, app_assoc, List.filter_app.
    rewrite filter_none by (intros a Ha; by apply Hfront). by apply bool_filter_all. }
  cbn. rewrite <-Hf. destruct c as [k|]; [|done]. cbn. cbn in Hc. rewrite filter_twice. apply List.filter_ext. intros a.
  destruct (before (key x) (key a)) eqn:Hxa; [|by rewrite andb_false_r]. rewrite andb_true_r. symmetry. apply (less_trans before k (key x)); [|done].
  assert (Hxk : x ∈ List.filter (λ a, before k (key a)) (rows s)).
  { rewrite Hc. apply elem_of_app. right. apply list_elem_of_here. }
  by apply list_elem_of_In, filter_In in Hxk as [_ ?].
Qed.

(** How a drain ends: an error of a read after some pages, or none. *)
Definition ending (e : option E) (s : T) : result E T := match e with Some e => Err e | None => Ok s end.

(** The pages are the rows, from the first on, none of them empty; all of them
    where no read fails. One unit of fuel per row and one more are enough. *)
Lemma paged_drains n : ∀ p c s fuel, I s → (length (after c (rows s)) <= n)%nat → (n < fuel)%nat → ∃ pages e,
  mjoin pages `prefix_of` after c (rows s) ∧ Forall (λ page, page ≠ []) pages ∧
  (∀ s', fold_result process s pages = Ok s' →
     match e with
     | None => mjoin pages = after c (rows s) ∧ ∃ p' c' p'', fetch p' c' s' = Ok (p'', [])
     | Some err => ∃ p' c', fetch p' c' s' = Err err
     end) ∧
  paged fuel p c s = Some (s' ← fold_result process s pages; ending e s').
Proof.
  induction n as [n IH] using lt_wf_ind. intros p c s fuel HI Hn Hfuel. destruct fuel as [|fuel]; [lia|]. cbn [paged].
  destruct (fetch p c s) as [[p' page]|e] eqn:Hf.
  2: { exists [], (Some e). split_and!; [apply prefix_nil|constructor| |done]. intros s' [= <-]. by exists p, c. }
  destruct (fetch_prefix _ _ _ _ _ HI Hf) as [[rest Hrest] Hempty]. destruct (list.last page) as [x|] eqn:Hx.
  2: { apply last_None in Hx as ->. exists [], None. split_and!; [apply prefix_nil|constructor| |done].
       intros s' [= <-]. split; [by rewrite Hempty|]. by exists p, c, p'. }
  destruct (process s page) as [s'|e] eqn:Hp.
  2: { exists [page], None. cbn. rewrite app_nil_r, Hp. split_and!; [by exists rest| |done|done].
       constructor; [|constructor]. by intros ->. }
  destruct (process_keeps s c page s' x) as [HI' Hkeep]; [done|by exists rest|done..|].
  assert (Hafter : after (Some (key x)) (rows s') = rest) by (rewrite Hkeep; by eapply after_page).
  assert (Hlen : (length rest < length (after c (rows s)))%nat).
  { rewrite Hrest, length_app. destruct page; [done|cbn; lia]. }
  destruct (IH (length rest) ltac:(lia) p' (Some (key x)) s' fuel) as (pages & e & Hpre & Hne & Hall & Heq); [done|by rewrite Hafter|lia|].
  exists (page :: pages), e. rewrite Hafter in *. cbn. rewrite Hp. split_and!.
  - rewrite Hrest. by apply prefix_app.
  - constructor; [|done]. by intros ->.
  - intros s2 Hs2. specialize (Hall s2 Hs2). destruct e as [e|]; [done|]. destruct Hall as [Hall Hend]. split; [|done].
    rewrite Hrest. f_equal. by apply Hall.
  - done.
Qed.
End Paging.

(** ** Rows sorted by a key of their own *)

Section Keyed.
Context {A K : Type} (key : A → K) (before : K → K → bool) `{!LessOrder before}.
Hypothesis before_total : ∀ a b, before a b = false → before b a = false → a = b.

Definition keyed (l : list A) : Prop := NoDup l ∧ ∀ a b, a ∈ l → b ∈ l → key a = key b → a = b.

Lemma keyed_tie l a b : keyed l → a ∈ l → b ∈ l → on_key key before a b = false → on_key key before b a = false → a = b.
Proof. intros [_ Hk] Ha Hb H1 H2. apply Hk; [done..|]. by apply before_total. Qed.

Lemma isort_keyed_sorted l : keyed l → StronglySorted (in_order key before) (isort (on_key key before) l).
Proof.
  intros Hk. assert (Hnd : NoDup (isort (on_key key before) l)) by (rewrite isort_perm; apply Hk).
  assert (Hin : ∀ a, a ∈ isort (on_key key before) l → a ∈ l) by (intros a; by rewrite elem_of_isort).
  pose proof (isort_sorted (on_key key before) l) as Hs. induction Hs as [|x r _ IH Hx]; [constructor|].
  apply list.NoDup_cons in Hnd as [Hnew Hnd]. constructor.
  - apply IH; [done|]. intros a Ha. by apply Hin, list_elem_of_further.
  - rewrite list.Forall_forall in Hx |- *. intros y Hy. unfold in_order. destruct (before (key x) (key y)) eqn:E; [done|]. exfalso. apply Hnew.
    assert (x = y) as ->; [|done]. apply (keyed_tie l); [done|apply Hin, list_elem_of_here|by apply Hin, list_elem_of_further|done|by apply Hx].
Qed.

(** Two tables with the same rows past a key are read the same past it. *)
Lemma after_same_rows l1 l2 k : keyed l1 → keyed l2 → (∀ a, before k (key a) = true → a ∈ l1 ↔ a ∈ l2) →
  after key before (Some k) (isort (on_key key before) l1) = after key before (Some k) (isort (on_key key before) l2).
Proof.
  intros H1 H2 Heq. unfold after. rewrite !(filter_isort (on_key key before)). apply (isort_perm_eq (on_key key before)).
  - intros a b Ha Hb. apply (keyed_tie l1); [done|..]; by apply elem_of_bool_filter in Ha as [? _], Hb as [? _].
  - apply NoDup_Permutation.
    + apply base.NoDup_ListNoDup, NoDup_filter, base.NoDup_ListNoDup, H1.
    + apply base.NoDup_ListNoDup, NoDup_filter, base.NoDup_ListNoDup, H2.
    + intros a. rewrite !elem_of_bool_filter. split; intros [Ha Hb]; split; try done; by apply Heq.
Qed.
End Keyed.
