(* ===== verification/Readiness.v ===== *)
(** * Readiness

    [consumer.go]: who decides that inventory is ready, and the pass of
    reconcile.go before it. Three parties write the latch while messages are
    handled: a handler that quarantined an event of a future schema, the check of
    the quarantine at startup, and the observer of the subscription's end. The
    first two take a mutex; the commit of a quarantined event takes none, nor
    does the observer. The interleavings are a step relation over the table, the
    latch and the places where each party stands. *)

From stdpp Require Import pretty.
From S2P Require Import Prelude Text Sha256 Format Tables Inventory Claims SeatMap Availability Geometry CatalogEvents CatalogConsumer.
From S2P Require Import SeatClaims InventoryMoves ClaimMoves SeatMoves InventorySafety ConsumerRuns ConsumerSafety.
#[local] Open Scope Z_scope.

Section Readiness.
Context `{UU : UUID} {DD : Decoder}.
Implicit Types (db : EventDB).

(** ** reconcile.go: the pass over the live pools

    A pool's answer and how the call that applies it goes; the fresh event ids
    the pass draws are an argument. *)

Record ReconcileEnv := {
  rc_resolver : Resolver;
  rc_fault : uuid → Fault;
  rc_event : uuid → uuid;
}.

Definition reconcilePool (env : ReconcileEnv) (slot : uuid) (closedNow : bool) (state : PoolOfferState) db : EventDB * result EventError unit :=
  if bool_decide (os_Kind state = "festival"%string) then (db, Ok tt)
  else if negb (bool_decide (os_Kind state = "performance"%string)) then (db, Ok tt)
  else if bool_decide (os_Lifecycle state = "archived"%string) then
    attempt (rc_fault env slot) (lift (ApplyArchive (rc_event env slot) slot)) db
  else if negb (bool_decide (os_Lifecycle state = "published"%string)) then (db, Ok tt)
  else if (1 <=? os_ClosureVersion state) &&
          negb (bool_decide (os_ClosureStatus state = (if closedNow then "closed" else "open")%string)) then
    attempt (rc_fault env slot)
      (lift (ApplyClosure (rc_event env slot) slot slot (bool_decide (os_ClosureStatus state = "closed"%string)) (os_ClosureVersion state))) db
  else (db, Ok tt).

Definition reconcile_one (env : ReconcileEnv) (st : EventDB * bool) (pool : uuid * bool) : EventDB * bool :=
  match rs_PoolOfferState (rc_resolver env) pool.1 with
  | Err ErrPoolStateNotFound => st
  | Err _ => (st.1, false)
  | Ok state =>
      let '(db, r) := reconcilePool env pool.1 pool.2 state st.1 in
      (db, match r with Ok _ => st.2 | Err _ => false end)
  end.

(** The pass, and whether it went without an error. *)
Definition reconcile (env : ReconcileEnv) db : EventDB * bool :=
  foldl (reconcile_one env) (db, true) (ListPublishedPoolOfferings (ed_Inv db)).

Definition reconcileAttempts : nat := 3.

(** [startupConverge] tries the pass at most three times and goes on after. *)
Fixpoint converge (env : nat → ReconcileEnv) (attempts : nat) db : EventDB :=
  match attempts with
  | O => db
  | S n => let '(db, ok) := reconcile (env n) db in if ok then db else converge env n db
  end.

Definition startupReconcile (env : nat → ReconcileEnv) db : EventDB := converge env reconcileAttempts db.

(** Catalog says of a pool what it is, and the pool differs. *)
Definition asserted (env : ReconcileEnv) (slot : uuid) : Prop := ∃ state,
  rs_PoolOfferState (rc_resolver env) slot = Ok state ∧ os_Kind state = "performance"%string ∧
  (os_Lifecycle state = "archived"%string ∨ os_Lifecycle state = "published"%string ∧ 1 ≤ os_ClosureVersion state).

(** What a call on one pool does to the pools. *)
Definition only_pool (slot : uuid) (inv inv' : InventoryDB) : Prop := ∀ q, q ≠ slot → in_pools inv' !! q = in_pools inv !! q.

Lemma archive_only e slot inv inv' r : ApplyArchive e slot inv = Ok (inv', r) → only_pool slot inv inv'.
Proof.
  unfold ApplyArchive. destruct (in_pools inv !! slot); [|done]. destruct (bool_decide _); intros [= <- _] q Hq; [done|].
  cbn. by rewrite lookup_insert_ne.
Qed.

Lemma closure_only e slot perf closed version inv inv' r : ApplyClosure e slot perf closed version inv = Ok (inv', r) → only_pool slot inv inv'.
Proof.
  unfold ApplyClosure. destruct (in_pools inv !! slot); [|done]. destruct (bool_decide _); [by intros [= <- _]|]. destruct (_ <? 1); [done|].
  intros [= <- _] q Hq. cbn. by rewrite lookup_insert_ne.
Qed.

Lemma attempt_lift_only {A} fault (body : InventoryDB → tx A) slot db : (∀ inv inv' r, body inv = Ok (inv', r) → only_pool slot inv inv') →
  only_pool slot (ed_Inv db) (ed_Inv (attempt fault (lift body) db).1).
Proof.
  intros Hb. destruct (attempt fault (lift body) db) as [db' r] eqn:H. apply attempt_ends in H as [[-> _]|(a & [Hl _]%lift_Ok & _)]; [done|by eapply Hb].
Qed.

Lemma reconcilePool_only env slot closedNow state db : only_pool slot (ed_Inv db) (ed_Inv (reconcilePool env slot closedNow state db).1).
Proof.
  unfold reconcilePool. destruct (bool_decide _); [done|]. destruct (negb _); [done|]. destruct (bool_decide _).
  { apply attempt_lift_only. intros inv inv' r. apply archive_only. }
  destruct (negb _); [done|]. destruct (_ && _); [|done]. apply attempt_lift_only. intros inv inv' r. apply closure_only.
Qed.

(** Where catalog asserts nothing, no call is made. *)
Lemma reconcilePool_unasserted env slot closedNow state db : rs_PoolOfferState (rc_resolver env) slot = Ok state → ¬ asserted env slot →
  reconcilePool env slot closedNow state db = (db, Ok tt).
Proof.
  intros Hs Hn. unfold reconcilePool. destruct (bool_decide _); [done|].
  destruct (decide (os_Kind state = "performance"%string)) as [Hk|Hk]; [|by rewrite (bool_decide_false _ Hk)]. rewrite (bool_decide_true _ Hk). cbn [negb].
  case_bool_decide as Ha; [destruct Hn; exists state; auto|]. case_bool_decide as Hp; [|done]. cbn [negb].
  destruct (Z.leb_spec 1 (os_ClosureVersion state)); [|done]. destruct Hn. exists state. auto.
Qed.

Lemma reconcile_one_other env st pool q : q ≠ pool.1 ∨ ¬ asserted env q →
  in_pools (ed_Inv (reconcile_one env st pool).1) !! q = in_pools (ed_Inv st.1) !! q.
Proof.
  unfold reconcile_one. intros Hq. destruct (rs_PoolOfferState _ pool.1) as [state|e] eqn:Hs; [|by destruct e].
  pose proof (reconcilePool_only env pool.1 pool.2 state st.1) as Ho. destruct (decide (q = pool.1)) as [->|Hne].
  - destruct Hq as [?|Hq]; [done|]. by rewrite (reconcilePool_unasserted env pool.1 pool.2 state st.1 Hs Hq).
  - destruct (reconcilePool _ _ _ _ _) as [db r]. by apply Ho.
Qed.

Lemma reconcile_fold_other env q l : (∀ pool, pool ∈ l → q ≠ pool.1) ∨ ¬ asserted env q → ∀ st,
  in_pools (ed_Inv (foldl (reconcile_one env) st l).1) !! q = in_pools (ed_Inv st.1) !! q.
Proof.
  induction l as [|pool l IH]; cbn; intros Hq st; [done|]. rewrite IH.
  - apply reconcile_one_other. destruct Hq as [Hq|?]; [left; apply Hq, list_elem_of_here|by right].
  - destruct Hq as [Hq|?]; [left|by right]. intros x Hx. by apply Hq, list_elem_of_further.
Qed.

Lemma reconcile_one_events env st pool e : e ≠ rc_event env pool.1 → (e ∉ in_events (ed_Inv st.1)) →
  e ∉ in_events (ed_Inv (reconcile_one env st pool).1).
Proof.
  intros Hne Hn. unfold reconcile_one. destruct (rs_PoolOfferState _ pool.1) as [state|[]]; try done.
  assert (Hc : ∀ (body : InventoryDB → tx unit), consumes (rc_event env pool.1) body →
    e ∉ in_events (ed_Inv (attempt (rc_fault env pool.1) (lift body) st.1).1)).
  { intros body Hb. destruct (attempt _ _ _) as [db r] eqn:H. apply attempt_ends in H as [[-> _]|(a & [Hl _]%lift_Ok & _)]; [done|].
    cbn [fst]. destruct (Hb _ _ _ Hl) as [_ [[_ He]|[_ He]]]; rewrite He; set_solver. }
  unfold reconcilePool. destruct (bool_decide _); [done|]. destruct (negb _); [done|]. destruct (bool_decide (os_Lifecycle state = "archived"%string)).
  { specialize (Hc _ (ApplyArchive_consumes (rc_event env pool.1) pool.1)). by destruct (attempt _ _ _). }
  destruct (negb _); [done|]. destruct (_ && _); [|done].
  specialize (Hc _ (ApplyClosure_consumes (rc_event env pool.1) pool.1 pool.1 (bool_decide (os_ClosureStatus state = "closed"%string)) (os_ClosureVersion state))).
  by destruct (attempt _ _ _).
Qed.

Section Archives.
Context (env : ReconcileEnv) (slot : uuid) (state : PoolOfferState).
Hypothesis events_inj : Inj (=) (=) (rc_event env).
Hypothesis answer : rs_PoolOfferState (rc_resolver env) slot = Ok state.
Hypothesis dead : os_Kind state = "performance"%string ∧ os_Lifecycle state = "archived"%string.
Hypothesis reached : rc_fault env slot ≠ Refused.

Lemma reconcile_archives_one st c pool : (rc_event env slot ∉ in_events (ed_Inv st.1)) → in_pools (ed_Inv st.1) !! slot = Some pool →
  ∃ pool', in_pools (ed_Inv (reconcile_one env st (slot, c)).1) !! slot = Some pool' ∧ po_Archived pool' = true.
Proof.
  intros Hn Hp. unfold reconcile_one. cbn [fst snd]. rewrite answer. unfold reconcilePool. destruct dead as [-> ->].
  rewrite (bool_decide_false ("performance"%string = "festival"%string)) by done. rewrite !bool_decide_true by done. cbn [negb].
  assert (Hl : lift (ApplyArchive (rc_event env slot) slot) st.1 = Ok (with_inv (effect (ApplyArchive (rc_event env slot) slot)) st.1, tt)).
  { unfold lift, with_inv, effect, transaction, ApplyArchive. rewrite Hp, bool_decide_false by done. done. }
  assert (Ha : (attempt (rc_fault env slot) (lift (ApplyArchive (rc_event env slot) slot)) st.1).1 = with_inv (effect (ApplyArchive (rc_event env slot) slot)) st.1).
  { unfold attempt. rewrite Hl. by destruct (rc_fault env slot). }
  destruct (attempt _ _ _) as [db r]. cbn in Ha. rewrite Ha. cbn. unfold effect, transaction, ApplyArchive. rewrite Hp, bool_decide_false by done.
  cbn. rewrite lookup_insert_eq. by eexists.
Qed.

Lemma reconcile_archives_fold l pool c : NoDup l.*1 → (slot, c) ∈ l → ∀ st, (rc_event env slot ∉ in_events (ed_Inv st.1)) →
  in_pools (ed_Inv st.1) !! slot = Some pool →
  ∃ pool', in_pools (ed_Inv (foldl (reconcile_one env) st l).1) !! slot = Some pool' ∧ po_Archived pool' = true.
Proof.
  induction l as [|[q d] l IH]; cbn; intros Hnd Hin st Hn Hp; [by apply not_elem_of_nil in Hin|]. apply list.NoDup_cons in Hnd as [Hq Hnd].
  apply list.elem_of_cons in Hin as [[= <- <-]|Hin].
  - destruct (reconcile_archives_one st c pool Hn Hp) as (pool' & Hp' & Ha). exists pool'. split; [|done]. rewrite reconcile_fold_other; [done|].
    left. intros [x y] Hx ->. apply Hq. by apply (list_elem_of_fmap_2 fst) in Hx.
  - assert (Hne : slot ≠ q) by (intros ->; apply Hq; by apply (list_elem_of_fmap_2 fst) in Hin).
    apply IH; [done|done| |by rewrite reconcile_one_other by (by left)].
    apply reconcile_one_events; [|done]. cbn. intros He. by apply (inj (rc_event env)) in He.
Qed.
End Archives.

Lemma offerings_nodup inv : NoDup (ListPublishedPoolOfferings inv).*1.
Proof.
  unfold ListPublishedPoolOfferings. change (NoDup (map fst (map (λ kv : uuid * Pool, (kv.1, po_Closed kv.2))
    (List.filter (λ kv : uuid * Pool, negb (po_Archived kv.2)) (map_to_list (in_pools inv)))))).
  rewrite map_map. apply (NoDup_map_filter (λ kv : uuid * Pool, kv.1)), NoDup_fst_map_to_list.
Qed.

Lemma offering_listed inv slot pool : in_pools inv !! slot = Some pool → po_Archived pool = false →
  (slot, po_Closed pool) ∈ ListPublishedPoolOfferings inv.
Proof.
  intros Hp Ha. unfold ListPublishedPoolOfferings. apply list_elem_of_In, in_map_iff. exists (slot, pool). split; [done|].
  apply filter_In. rewrite <-list_elem_of_In, elem_of_map_to_list. cbn. by rewrite Ha.
Qed.

(** The pass at startup believes only what catalog says outright. A
    pool for which catalog asserts nothing, be it unknown, a festival, unpublished
    or without an answer, is left exactly as it was; and a live pool that catalog
    says is archived is archived after the pass, unless the database was not
    reached, whatever became of the other pools. *)
Theorem reconciliation_needs_an_assertion env db slot : Inj (=) (=) (rc_event env) →
  (¬ asserted env slot → in_pools (ed_Inv (reconcile env db).1) !! slot = in_pools (ed_Inv db) !! slot) ∧
  (∀ pool state, in_pools (ed_Inv db) !! slot = Some pool → po_Archived pool = false → (rc_event env slot ∉ in_events (ed_Inv db)) →
     rs_PoolOfferState (rc_resolver env) slot = Ok state → os_Kind state = "performance"%string ∧ os_Lifecycle state = "archived"%string →
     rc_fault env slot ≠ Refused →
     ∃ pool', in_pools (ed_Inv (reconcile env db).1) !! slot = Some pool' ∧ po_Archived pool' = true).
Proof.
  intros Hinj. split.
  - intros Hn. unfold reconcile. apply reconcile_fold_other. by right.
  - intros pool state Hp Ha He Hs Hd Hf. unfold reconcile. eapply reconcile_archives_fold; try done; [apply offerings_nodup|by apply offering_listed].
Qed.

(** ** The latch *)

(** Where the check of the quarantine stands: before it, holding the mutex, with
    its answer, past the look at the termination flag, done. *)
Inductive StartupPhase := StartupBefore | StartupLocked | StartupRead (pending : bool) | StartupChecked | StartupDone.

Definition about_to_store (ph : StartupPhase) : bool :=
  match ph with StartupRead b => negb b | StartupChecked => true | _ => false end.

Record Node := {
  nd_db : EventDB;
  nd_ready : bool;
  nd_terminated : bool;
  nd_startup : StartupPhase;
  nd_latching : nat;   (** handlers that wrote to the quarantine and have not withdrawn readiness yet *)
}.

Definition Ready (n : Node) : bool := nd_ready n && negb (nd_terminated n).

Definition startup_holds_mutex (ph : StartupPhase) : bool :=
  match ph with StartupLocked | StartupRead _ | StartupChecked => true | StartupBefore | StartupDone => false end.

Definition node (db : EventDB) (ready terminated : bool) (startup : StartupPhase) (latching : nat) : Node := {|
  nd_db := db; nd_ready := ready; nd_terminated := terminated; nd_startup := startup; nd_latching := latching |}.

Definition booted (db : EventDB) : Node := node db false false StartupBefore 0.

Inductive node_step (n : Node) : Node → Prop :=
| ns_quarantine limit now subject e schema envelope db' :
    QuarantineCatalogEvent limit now subject e schema envelope (nd_db n) = Ok (db', tt) →
    node_step n (node db' (nd_ready n) (nd_terminated n) (nd_startup n) (S (nd_latching n)))
| ns_quarantine_failed :
    node_step n (node (nd_db n) (nd_ready n) (nd_terminated n) (nd_startup n) (S (nd_latching n)))
| ns_latch k :
    nd_latching n = S k → startup_holds_mutex (nd_startup n) = false →
    node_step n (node (nd_db n) false (nd_terminated n) (nd_startup n) k)
| ns_other db' :
    (HasPendingCatalogQuarantine db' = true → HasPendingCatalogQuarantine (nd_db n) = true) →
    node_step n (node db' (nd_ready n) (nd_terminated n) (nd_startup n) (nd_latching n))
| ns_lock :
    nd_startup n = StartupBefore → node_step n (node (nd_db n) (nd_ready n) (nd_terminated n) StartupLocked (nd_latching n))
| ns_read :
    nd_startup n = StartupLocked →
    node_step n (node (nd_db n) (nd_ready n) (nd_terminated n) (StartupRead (HasPendingCatalogQuarantine (nd_db n))) (nd_latching n))
| ns_unready :
    nd_startup n = StartupRead true → node_step n (node (nd_db n) (nd_ready n) (nd_terminated n) StartupDone (nd_latching n))
| ns_check :
    nd_startup n = StartupRead false → nd_terminated n = false →
    node_step n (node (nd_db n) (nd_ready n) (nd_terminated n) StartupChecked (nd_latching n))
| ns_abandon :
    startup_holds_mutex (nd_startup n) = true → node_step n (node (nd_db n) (nd_ready n) (nd_terminated n) StartupDone (nd_latching n))
| ns_store :
    nd_startup n = StartupChecked → node_step n (node (nd_db n) true (nd_terminated n) StartupDone (nd_latching n))
| ns_wait :
    node_step n (node (nd_db n) false (nd_terminated n) (nd_startup n) (nd_latching n))
| ns_terminated :
    node_step n (node (nd_db n) (nd_ready n) true (nd_startup n) (nd_latching n))
| ns_restart :
    node_step n (booted (nd_db n)).

(** A latch that is set, or about to be, on a quarantine that is not empty has a
    handler on its way to withdraw it. *)
Record LatchInv (n : Node) : Prop := {
  li_ready : nd_ready n = true → HasPendingCatalogQuarantine (nd_db n) = true → (0 < nd_latching n)%nat;
  li_startup : about_to_store (nd_startup n) = true → HasPendingCatalogQuarantine (nd_db n) = true → (0 < nd_latching n)%nat;
}.

Lemma booted_inv db : LatchInv (booted db).
Proof. by split. Qed.

Lemma step_inv n n' : node_step n n' → LatchInv n → LatchInv n'.
Proof.
  intros Hstep [Hr Hs]. destruct Hstep as [| |k Hk Hfree|db' Hdb|Hph|Hph|Hph|Hph Ht|Hph|Hph| | |]; try apply booted_inv; split; cbn; try done; try (intros; lia).
  - intros Hst. by destruct (nd_startup n).
  - intros H1 H2. auto.
  - intros H1 H2. auto.
  - intros H1 H2. rewrite Hph in *. destruct (HasPendingCatalogQuarantine (nd_db n)); done.
  - intros _. apply Hs. by rewrite Hph.
  - intros _. apply Hs. by rewrite Hph.
Qed.

Lemma steps_inv n n' : rtc node_step n n' → LatchInv n → LatchInv n'.
Proof. induction 1; [done|]. intros. eauto using step_inv. Qed.

(** ** A handled message is such steps *)

Context {DL : DecoderLaws}.

Lemma delivery_steps n w msg : startup_holds_mutex (nd_startup n) = false →
  let h := deliver w msg (nd_db n) in
  rtc node_step n (node (hd_state h) (nd_ready n && negb (hd_unready h)) (nd_terminated n) (nd_startup n) (nd_latching n)).
Proof.
  intros Hfree h. pose proof (deliver_quarantines w msg (nd_db n)) as Hq. fold h in Hq. cbv zeta in Hq. destruct (hd_unready h); cbn [negb].
  - rewrite andb_false_r. destruct Hq as [Hq|(subject & e & schema & envelope & Hq)].
    + rewrite Hq. eapply rtc_l; [apply ns_quarantine_failed|]. apply rtc_once. by apply (ns_latch (node _ _ _ _ _) (nd_latching n)).
    + eapply rtc_l; [by eapply ns_quarantine|]. apply rtc_once. by apply (ns_latch (node _ _ _ _ _) (nd_latching n)).
  - rewrite andb_true_r. apply rtc_once, ns_other. unfold HasPendingCatalogQuarantine, pending_rows. by rewrite Hq.
Qed.

(** Readiness is never quietly wrong. In every interleaving of
    handlers that quarantine events, of the check at startup, of the end of the
    subscription, of whatever else writes to the database and of restarts: while
    the service says it is ready, either nothing is pending in the quarantine or a
    handler that has just written there is about to withdraw readiness; and a
    service whose subscription has ended never says so before its next start. *)
Theorem ready_means_nothing_pending db n : rtc node_step (booted db) n → Ready n = true →
  nd_terminated n = false ∧ (HasPendingCatalogQuarantine (nd_db n) = true → (0 < nd_latching n)%nat).
Proof.
  intros Hrun [Hready Hterm%negb_true_iff]%andb_prop. split; [done|]. by apply (steps_inv _ _ Hrun (booted_inv db)).
Qed.
End Readiness.

#[local] Existing Instance text_uuid.
#[local] Existing Instance sample_decoder.

(** The check at startup finds nothing, and then an event of a future schema is
    quarantined; its handler has not withdrawn readiness yet. *)
Definition quarantined_db : EventDB := hd_state (deliver (sample_world Clean) future_msg no_events).
Definition just_quarantined : Node := node quarantined_db true false StartupDone 1.

Lemma just_quarantined_reached : rtc node_step (booted no_events) just_quarantined.
Proof.
  apply (rtc_l _ _ (node no_events false false StartupLocked 0)); [apply ns_lock; reflexivity|].
  apply (rtc_l _ _ (node no_events false false (StartupRead false) 0)); [exact (ns_read (node no_events false false StartupLocked 0) eq_refl)|].
  apply (rtc_l _ _ (node no_events false false StartupChecked 0)); [exact (ns_check (node no_events false false (StartupRead false) 0) eq_refl eq_refl)|].
  apply (rtc_l _ _ (node no_events true false StartupDone 0)); [exact (ns_store (node no_events false false StartupChecked 0) eq_refl)|].
  apply rtc_once, (ns_quarantine (node no_events true false StartupDone 0) 10 0 subjectPublished ("e4"%string : @uuid text_uuid) 9 "future").
  vm_compute. reflexivity.
Qed.

Lemma ready_means_nothing_pending_witness :
  HasPendingCatalogQuarantine quarantined_db = true ∧
  nd_terminated just_quarantined = false ∧ (HasPendingCatalogQuarantine (nd_db just_quarantined) = true → (0 < nd_latching just_quarantined)%nat).
Proof.
  split; [vm_compute; reflexivity|]. apply (ready_means_nothing_pending no_events just_quarantined).
  - exact just_quarantined_reached.
  - vm_compute. reflexivity.
Defined.

(** A pool whose slot catalog says is archived, after a publication alone. *)
Definition published_db : EventDB := hd_state (deliver (sample_world Clean) publish_msg no_events).

Definition sample_reconcile : ReconcileEnv := {| rc_resolver := sample_resolver; rc_fault := λ _, Lost; rc_event := λ slot, slot |}.

Definition first_pool : Pool := new_pool ("org"%string : uuid) 10.

Lemma reconciliation_needs_an_assertion_witness :
  in_pools (ed_Inv published_db) !! slot = Some first_pool ∧
  ∃ pool', in_pools (ed_Inv (reconcile sample_reconcile published_db).1) !! slot = Some pool' ∧ po_Archived pool' = true.
Proof.
  assert (Hp : in_pools (ed_Inv published_db) !! slot = Some first_pool) by (vm_compute; reflexivity).
  assert (He : slot ∉ in_events (ed_Inv published_db)) by (apply (bool_decide_unpack _); vm_compute; exact I).
  split; [exact Hp|].
  assert (Hi : Inj (=) (=) (rc_event sample_reconcile)) by (intros x y H; exact H).
  assert (Hd : rc_fault sample_reconcile slot ≠ Refused) by discriminate.
  exact (proj2 (reconciliation_needs_an_assertion sample_reconcile published_db slot Hi) first_pool _ Hp eq_refl He eq_refl (conj eq_refl eq_refl) Hd).
Defined.
