(* ===== verification/Reprocess.v ===== *)
(** * Draining the quarantine

    [services/inventory/cmd/inventory/reprocess.go]: the command that hands each
    quarantined event, oldest first, to the live handler in its own process, and
    marks the rows the handler settled. A row this binary cannot read, and one the
    handler put off, stays pending. *)

From stdpp Require Import pretty.
From S2P Require Import Prelude Text Sha256 Format Tables Inventory Claims SeatMap Availability Geometry CatalogEvents CatalogConsumer.
From S2P Require Import SeatClaims InventoryMoves ClaimMoves SeatMoves InventorySafety ConsumerRuns ConsumerSafety Paging.
#[local] Open Scope Z_scope.

Definition reprocessBatchSize : nat := 100.

Section Reprocess.
Context `{UU : UUID} {DD : Decoder}.
Implicit Types (db : EventDB).

Abbreviation row := (string * uuid * QuarantineRow)%type.

(** How the calls made for each row go; the moments the run is found cancelled and
    the reads that fail, by the number of rows examined before. *)
Record ReprocessEnv := {
  re_now : string * uuid → time;
  re_fault : string * uuid → StoreCall → Fault;
  re_mark : string * uuid → Fault;
  re_resolver : Resolver;
  re_cancelled : nat → bool;
  re_list_fails : nat → bool;
}.

Record RunState := { rs_db : EventDB; rs_applied : nat; rs_terminal : nat; rs_unsupported : nat; rs_deferred : nat }.

Definition started db : RunState := {| rs_db := db; rs_applied := 0; rs_terminal := 0; rs_unsupported := 0; rs_deferred := 0 |}.

Definition examined (s : RunState) : nat := rs_applied s + rs_terminal s + rs_unsupported s + rs_deferred s.

Inductive RunError := Interrupted | ListFailed | ProcessFailed (e : ReprocessError) | MarkFailed.

Definition at_db db (s : RunState) : RunState := {|
  rs_db := db; rs_applied := rs_applied s; rs_terminal := rs_terminal s; rs_unsupported := rs_unsupported s; rs_deferred := rs_deferred s |}.

Definition count (o : option Outcome) (s : RunState) : RunState :=
  match o with
  | Some OutcomeApplied => {| rs_db := rs_db s; rs_applied := S (rs_applied s); rs_terminal := rs_terminal s;
                              rs_unsupported := rs_unsupported s; rs_deferred := rs_deferred s |}
  | Some OutcomeTerminal => {| rs_db := rs_db s; rs_applied := rs_applied s; rs_terminal := S (rs_terminal s);
                               rs_unsupported := rs_unsupported s; rs_deferred := rs_deferred s |}
  | None => {| rs_db := rs_db s; rs_applied := rs_applied s; rs_terminal := rs_terminal s;
               rs_unsupported := S (rs_unsupported s); rs_deferred := rs_deferred s |}
  | Some OutcomeDeferred => {| rs_db := rs_db s; rs_applied := rs_applied s; rs_terminal := rs_terminal s;
                               rs_unsupported := rs_unsupported s; rs_deferred := S (rs_deferred s) |}
  end.

(** An error ends the run with what was done until then. *)
Definition reprocess_row (env : ReprocessEnv) (s : RunState) (r : row) : result (RunState * RunError) RunState :=
  if re_cancelled env (examined s) then Err (s, Interrupted)
  else if negb (SupportsCatalogSchema r.1.1 (qr_Schema r.2)) then Ok (count None s)
  else
    let '(db, outcome) := Reprocessor (Postgres MaxCatalogQuarantinePending (re_now env r.1) (re_fault env r.1)) (re_resolver env)
      r.1.1 (qr_Envelope r.2) (rs_db s) in
    let s := at_db db s in
    match outcome with
    | Err e => Err (s, ProcessFailed e)
    | Ok OutcomeDeferred => Ok (count (Some OutcomeDeferred) s)
    | Ok o =>
        let '(db, marked) := attempt (re_mark env r.1) (λ db, Ok (MarkCatalogEventReinjected (re_now env r.1) r.1.1 r.1.2 db, tt)) db in
        match marked with Err _ => Err (at_db db s, MarkFailed) | Ok _ => Ok (count (Some o) (at_db db s)) end
    end.

Definition reprocess_page (env : ReprocessEnv) (s : RunState) (page : list row) : result (RunState * RunError) RunState :=
  fold_result (reprocess_row env) s page.

Definition reprocess_fetch (env : ReprocessEnv) (_ : unit) (c : option (time * string * uuid)) (s : RunState)
    : result (RunState * RunError) (unit * list row) :=
  if re_cancelled env (examined s) then Err (s, Interrupted)
  else if re_list_fails env (examined s) then Err (s, ListFailed)
  else Ok (tt, ListCatalogQuarantine c reprocessBatchSize (rs_db s)).

(** [quarantineReprocessor.run]. *)
Definition reprocess_run (fuel : nat) (env : ReprocessEnv) db : option (result (RunState * RunError) RunState) :=
  paged quarantine_key (reprocess_fetch env) (reprocess_page env) fuel tt None (started db).

(** ** A reprocessed event is a delivered one *)

Context {DL : DecoderLaws}.

(** But for the quarantine, which it refuses, the observing store changes nothing. *)
Lemma observed_reply (st : catalogStore EventDB) asks (d : Disposition) db msg env : Asks msg env asks →
  let h := reply (observingStore st) asks d (db, None) in
  ((hd_state h).1 = hd_state (reply st asks d db) ∧ hd_disposition h = hd_disposition (reply st asks d db) ∧ hd_unready (reply st asks d db) = false) ∨
  ((hd_state h).1 = db ∧ SupportsCatalogSchema (ms_Subject msg) (ev_Schema env) = false).
Proof.
  intros Hs. destruct Hs; cbn; unfold on_result, unobserved, note; cbn.
  - left. by destruct (cs_Provision _ _ _ _ _ _).
  - left. by destruct (cs_ProvisionSeated _ _ _ _ _ _ _ _ _).
  - left. destruct (cs_ApplyArchive _ _ _ _) as [db1 [?|[[]| | | | |]]]; cbn; try done. by destruct (cs_ConsumeMootOffering _ _ _ _ _ _) as [db2 []].
  - left. destruct (cs_ApplyClosure _ _ _ _ _ _ _) as [db1 [?|[[]| | | | |]]]; cbn; try done. by destruct (cs_ConsumeMootOffering _ _ _ _ _ _) as [db2 []].
  - left. by destruct (cs_RecordMootSlot _ _ _ _ _ _).
  - left. by destruct (cs_ParkCatalogEvent _ _ _).
  - by right.
Qed.

Section OneRow.
Context (limit : Z) (now : time) (fault : StoreCall → Fault) (rs : Resolver) (subject envelope : string) (db : EventDB).
Abbreviation w := {| wd_limit := limit; wd_now := now; wd_fault := fault; wd_resolver := Some rs |}.
Abbreviation msg := {| ms_Subject := subject; ms_Data := envelope; ms_NumDelivered := None |}.
Abbreviation answer := (Reprocessor (Postgres limit now fault) rs subject envelope db).

(** It leaves what the delivery would, and is applied or terminal as the delivery
    would be acked or terminated; it never writes to the quarantine. *)
Lemma reprocess_delivers : (∀ env, unmarshalEnvelope envelope = Some env → SupportsCatalogSchema subject (ev_Schema env) = true) →
  answer.1 = hd_state (deliver w msg db) ∧
  (answer.2 = Ok OutcomeApplied ↔ hd_disposition (deliver w msg db) = Ack) ∧
  (answer.2 = Ok OutcomeTerminal ↔ hd_disposition (deliver w msg db) = Term).
Proof.
  intros Hsup. unfold Reprocessor, deliver. cbn [fst snd wd_limit wd_now wd_fault wd_resolver].
  assert (Hd : ∀ d e, (classifyReprocess d e = Ok OutcomeApplied ↔ d = Ack) ∧ (classifyReprocess d e = Ok OutcomeTerminal ↔ d = Term)).
  { intros [] [e|]; cbn; split; split; done. }
  destruct (unmarshalEnvelope envelope) as [env|] eqn:He.
  2: { rewrite !handle_unreadable by done. by split; [|apply Hd]. }
  destruct (handle_replies (Some rs) msg env He) as [(d & _ & _ & Hh)|(asks & Hs & _ & Hh)].
  - rewrite !Hh. by split; [|apply Hd].
  - rewrite !(Hh Term). destruct (observed_reply (Postgres limit now fault) asks Term db msg env Hs) as [(-> & -> & _)|[_ Hn]].
    + by split; [|apply Hd].
    + cbn in Hn. by rewrite (Hsup env eq_refl) in Hn.
Qed.

Lemma reprocess_quarantine : ed_Quarantine answer.1 = ed_Quarantine db.
Proof.
  unfold Reprocessor. cbn [fst]. destruct (unmarshalEnvelope envelope) as [env|] eqn:He; [|by rewrite handle_unreadable].
  destruct (handle_replies (Some rs) msg env He) as [(d & _ & _ & Hh)|(asks & Hs & Ha & Hh)]; [by rewrite Hh|].
  rewrite (Hh Term). destruct (observed_reply (Postgres limit now fault) asks Term db msg env Hs) as [(-> & _ & Hu)|[-> _]]; [|done].
  pose proof (deliver_quarantines w msg db) as Hq. cbv zeta in Hq. unfold deliver in Hq. cbn [wd_limit wd_now wd_fault wd_resolver] in Hq.
  rewrite (Hh Term), Hu in Hq. done.
Qed.
End OneRow.

(** ** The rows of a page *)

Lemma marked_lookup now subject e db k : ed_Quarantine (MarkCatalogEventReinjected now subject e db) !! k =
  match ed_Quarantine db !! k with
  | Some q => if bool_decide (k = (subject, e)) && pending q
              then Some {| qr_Schema := qr_Schema q; qr_Envelope := qr_Envelope q; qr_FirstSeen := qr_FirstSeen q;
                           qr_LastSeen := qr_LastSeen q; qr_ReinjectedAt := Some now |}
              else Some q
  | None => None
  end.
Proof.
  unfold MarkCatalogEventReinjected. destruct (decide (k = (subject, e))) as [->|Hne].
  - rewrite bool_decide_true by done. destruct (ed_Quarantine db !! (subject, e)) as [q|] eqn:Hq; [|by rewrite Hq].
    cbn. destruct (pending q); [cbn; apply lookup_insert_eq|done].
  - rewrite bool_decide_false by done. cbn. destruct (ed_Quarantine db !! (subject, e)) as [q|]; [destruct (pending q)|];
      cbn; rewrite ?lookup_insert_ne by done; by destruct (ed_Quarantine db !! k).
Qed.

(** A row that is settled is resolved, one that is not stays as it was. *)
Definition resolves (r : row) db db' : Prop :=
  ed_Quarantine db' = ed_Quarantine db ∨
  ∃ now, ed_Quarantine db' = ed_Quarantine (MarkCatalogEventReinjected now r.1.1 r.1.2 db).

Lemma row_resolves env s r s' : reprocess_row env s r = Ok s' → resolves r (rs_db s) (rs_db s').
Proof.
  unfold reprocess_row. destruct (re_cancelled env _); [done|]. destruct (negb _); [intros [= <-]; by left|].
  pose proof (reprocess_quarantine MaxCatalogQuarantinePending (re_now env r.1) (re_fault env r.1) (re_resolver env) r.1.1 (qr_Envelope r.2) (rs_db s)) as Hq.
  destruct (Reprocessor _ _ _ _ _) as [db o]. cbn [fst] in Hq.
  assert (Hmark : ∀ o', (let '(db2, marked) := attempt (re_mark env r.1) (λ db, Ok (MarkCatalogEventReinjected (re_now env r.1) r.1.1 r.1.2 db, tt)) db in
     match marked with Err _ => Err (at_db db2 (at_db db s), MarkFailed) | Ok _ => Ok (count (Some o') (at_db db2 (at_db db s))) end) = Ok s' →
     resolves r (rs_db s) (rs_db s')).
  { intros o'. destruct (attempt _ _ _) as [db2 m] eqn:Ha. destruct m as [[]|]; [|done]. apply attempt_Ok in Ha. injection Ha as <-.
    intros [= <-]. right. exists (re_now env r.1). destruct o'; cbn -[MarkCatalogEventReinjected]; apply map_eq; intros k; by rewrite !marked_lookup, Hq. }
  destruct o as [[]|e]; [apply Hmark|apply Hmark|intros [= <-]; by left|done].
Qed.

Lemma page_resolves env page : ∀ s s' k, reprocess_page env s page = Ok s' →
  ((∀ q, (k, q) ∉ page) → ed_Quarantine (rs_db s') !! k = ed_Quarantine (rs_db s) !! k) ∧
  (∀ q, ed_Quarantine (rs_db s') !! k = Some q → pending q = true → ed_Quarantine (rs_db s) !! k = Some q) ∧
  (∀ q, ed_Quarantine (rs_db s) !! k = Some q → ∃ q', ed_Quarantine (rs_db s') !! k = Some q').
Proof.
  induction page as [|r page IH]; cbn; intros s s' k H; [injection H as <-; eauto|].
  apply bind_Ok in H as (s1 & H1%row_resolves & H). destruct (IH _ _ k H) as (Ha & Hb & Hc).
  assert (Hr : ∀ now, let q' := ed_Quarantine (MarkCatalogEventReinjected now r.1.1 r.1.2 (rs_db s)) in
    (k ≠ r.1 → q' !! k = ed_Quarantine (rs_db s) !! k) ∧
    (∀ q, q' !! k = Some q → pending q = true → ed_Quarantine (rs_db s) !! k = Some q) ∧
    (∀ q, ed_Quarantine (rs_db s) !! k = Some q → ∃ x, q' !! k = Some x)).
  { intros now q'. unfold q'. rewrite !marked_lookup. destruct (ed_Quarantine (rs_db s) !! k) as [x|]; [|done].
    case_bool_decide as Hk; cbn; [|split_and!; eauto].
    split_and!; [intros Hn; destruct Hn; rewrite Hk; by destruct r.1|destruct (pending x) eqn:Hp; [intros q [= <-] [=]|done]|destruct (pending x); eauto]. }
  assert (Hone : (k ≠ r.1 → ed_Quarantine (rs_db s1) !! k = ed_Quarantine (rs_db s) !! k) ∧
    (∀ q, ed_Quarantine (rs_db s1) !! k = Some q → pending q = true → ed_Quarantine (rs_db s) !! k = Some q) ∧
    (∀ q, ed_Quarantine (rs_db s) !! k = Some q → ∃ x, ed_Quarantine (rs_db s1) !! k = Some x)).
  { destruct H1 as [-> |[now ->]]; [split_and!; eauto|apply Hr]. }
  destruct Hone as (H2 & H3 & H4). split_and!.
  - intros Hn. rewrite Ha by (intros q Hq; by apply (Hn q), list_elem_of_further). apply H2. intros ->. apply (Hn r.2).
    rewrite <-surjective_pairing. apply list_elem_of_here.
  - eauto.
  - intros q Hq. destruct (H4 q Hq) as [x Hx]. eauto.
Qed.

(** ** The pages of a run *)

Context {UL : UUIDLaws}.

Lemma key_total a b : key_before a b = false → key_before b a = false → a = b.
Proof.
  unfold key_before, lex, on_key. destruct a as [[t1 s1] i1], b as [[t2 s2] i2]. cbn.
  destruct (Z.ltb_spec t1 t2), (Z.ltb_spec t2 t1); try done; try lia. destruct (String.ltb s1 s2) eqn:E1, (String.ltb s2 s1) eqn:E2; try done.
  intros. f_equal; [f_equal; [lia|by apply string_ltb_total]|by apply uuid_ltb_total].
Qed.

Lemma elem_of_pending db k q : (k, q) ∈ pending_rows db ↔ ed_Quarantine db !! k = Some q ∧ pending q = true.
Proof. unfold pending_rows. by rewrite elem_of_bool_filter, elem_of_map_to_list. Qed.

Lemma pending_keyed db : keyed quarantine_key (pending_rows db).
Proof.
  split.
  - apply base.NoDup_ListNoDup, NoDup_filter, base.NoDup_ListNoDup, NoDup_map_to_list.
  - intros [[s1 i1] q1] [[s2 i2] q2] [H1 _]%elem_of_pending [H2 _]%elem_of_pending [= _ -> ->]. rewrite H1 in H2. by injection H2 as ->.
Qed.

Definition pending_in_order (s : RunState) : list row := isort (on_key quarantine_key key_before) (pending_rows (rs_db s)).

Lemma fetch_is_prefix env p c s p' page : reprocess_fetch env p c s = Ok (p', page) →
  page `prefix_of` after quarantine_key key_before c (pending_in_order s) ∧
  (page = [] → after quarantine_key key_before c (pending_in_order s) = []).
Proof.
  unfold reprocess_fetch. destruct (re_cancelled env _); [done|]. destruct (re_list_fails env _); [done|]. intros [= _ <-].
  assert (Hl : ListCatalogQuarantine c reprocessBatchSize (rs_db s) = take reprocessBatchSize (after quarantine_key key_before c (pending_in_order s))).
  { unfold ListCatalogQuarantine, pending_in_order. f_equal. destruct c as [k|]; cbn.
    - by rewrite (filter_isort (on_key quarantine_key key_before)).
    - by rewrite bool_filter_all by done. }
  rewrite Hl. split; [apply prefix_take|]. destruct (after _ _ _ _); done.
Qed.

Lemma page_keeps env s c page s' x : page `prefix_of` after quarantine_key key_before c (pending_in_order s) →
  list.last page = Some x → reprocess_page env s page = Ok s' →
  after quarantine_key key_before (Some (quarantine_key x)) (pending_in_order s') =
  after quarantine_key key_before (Some (quarantine_key x)) (pending_in_order s).
Proof.
  intros [rest Hpre] Hx Hp. apply (after_same_rows _ _ key_total); [apply pending_keyed..|]. intros [k q] Hk.
  assert (Hout : ∀ q', (k, q') ∈ page → on_key quarantine_key key_before x (k, q') = false).
  { intros q' Hin. assert (Hs : StronglySorted (in_order quarantine_key key_before) (after quarantine_key key_before c (pending_in_order s))).
    { apply (after_sorted _ _ pending_in_order). intros s0. apply (isort_keyed_sorted _ _ key_total), pending_keyed. }
    rewrite Hpre in Hs. apply StronglySorted_app in Hs as (_ & Hs & _). apply last_Some in Hx as [front ->].
    apply elem_of_app in Hin as [Hin| ->%list_elem_of_singleton]; [|unfold on_key; by apply (less_irrefl key_before)].
    unfold on_key. apply (less_asym (less := key_before) _ _). apply (StronglySorted_app_1_elem_of _ _ _ _ _ Hs Hin). apply list_elem_of_here. }
  destruct (page_resolves env page s s' k Hp) as (Hkeep & Hold & _). rewrite !elem_of_pending. split.
  - intros [H1 H2]. split; [by apply Hold|done].
  - intros [H1 H2]. split; [|done]. rewrite Hkeep; [done|]. intros q' Hin. pose proof (Hout q' Hin) as Hno.
    assert (Hq : q' = q); [|subst q'; unfold on_key in Hno; congruence].
    assert (Hin' : (k, q') ∈ pending_in_order s).
    { assert (Ha : (k, q') ∈ after quarantine_key key_before c (pending_in_order s)) by (rewrite Hpre; apply elem_of_app; by left).
      destruct c; [|done]. by apply elem_of_bool_filter in Ha as [Ha _]. }
    apply elem_of_isort, elem_of_pending in Hin' as [Hin' _]. rewrite H1 in Hin'. by injection Hin'.
Qed.

(** The rows pending at the start, oldest first, one after another. *)
Definition one_pass (env : ReprocessEnv) db : result (RunState * RunError) RunState :=
  s ← fold_result (reprocess_row env) (started db) (isort (on_key quarantine_key key_before) (pending_rows db));
  if re_cancelled env (examined s) then Err (s, Interrupted) else Ok s.

Lemma fold_pages env pages : ∀ s, fold_result (reprocess_page env) s pages = fold_result (reprocess_row env) s (mjoin pages).
Proof.
  induction pages as [|page pages IH]; intros s; [done|]. cbn. rewrite fold_result_app. unfold reprocess_page at 1.
  destruct (fold_result (reprocess_row env) s page); [apply IH|done].
Qed.

Lemma cancelled_fold env s l : re_cancelled env (examined s) = true →
  (s' ← fold_result (reprocess_row env) s l; if re_cancelled env (examined s') then Err (s', Interrupted) else Ok s') = Err (s, Interrupted).
Proof. intros Hc. destruct l as [|r l]; cbn; [by rewrite Hc|]. unfold reprocess_row at 1. by rewrite Hc. Qed.

(** ** What a pass leaves *)

Definition settled (s : RunState) : nat := rs_applied s + rs_terminal s.

Lemma row_counts env s r s' : reprocess_row env s r = Ok s' → examined s' = S (examined s) ∧
  (settled s' = settled s ∧ ed_Quarantine (rs_db s') = ed_Quarantine (rs_db s) ∨
   settled s' = S (settled s) ∧ ∃ now, ed_Quarantine (rs_db s') = ed_Quarantine (MarkCatalogEventReinjected now r.1.1 r.1.2 (rs_db s))).
Proof.
  unfold reprocess_row. destruct (re_cancelled env _); [done|].
  destruct (negb _); [intros [= <-]; unfold examined, settled; cbn; split; [lia|by left]|].
  pose proof (reprocess_quarantine MaxCatalogQuarantinePending (re_now env r.1) (re_fault env r.1) (re_resolver env) r.1.1 (qr_Envelope r.2) (rs_db s)) as Hq.
  destruct (Reprocessor _ _ _ _ _) as [db o]. cbn [fst] in Hq. destruct o as [o|e]; [|done].
  destruct (decide (o = OutcomeDeferred)) as [->|Ho]; [intros [= <-]; unfold examined, settled; cbn; split; [lia|by left]|].
  assert (Hmark : (let '(db2, marked) := attempt (re_mark env r.1) (λ db, Ok (MarkCatalogEventReinjected (re_now env r.1) r.1.1 r.1.2 db, tt)) db in
     match marked with Err _ => Err (at_db db2 (at_db db s), MarkFailed) | Ok _ => Ok (count (Some o) (at_db db2 (at_db db s))) end) = Ok s' →
     examined s' = S (examined s) ∧ settled s' = S (settled s) ∧
     ∃ now, ed_Quarantine (rs_db s') = ed_Quarantine (MarkCatalogEventReinjected now r.1.1 r.1.2 (rs_db s))).
  { destruct (attempt _ _ _) as [db2 m] eqn:Ha. destruct m as [[]|]; [|done]. apply attempt_Ok in Ha. injection Ha as <-. intros [= <-].
    split_and!; [destruct o; unfold examined; cbn; done || lia|destruct o; unfold settled; cbn; done || lia|].
    exists (re_now env r.1). destruct o; cbn -[MarkCatalogEventReinjected]; apply map_eq; intros k; by rewrite !marked_lookup, Hq. }
  destruct o; [|..|done]; intros (? & ? & ?)%Hmark; auto.
Qed.

(** A mark takes one row out of the pending ones. *)
Lemma mark_pending now db r : r ∈ pending_rows db →
  pending_rows db ≡ₚ r :: pending_rows (MarkCatalogEventReinjected now r.1.1 r.1.2 db).
Proof.
  destruct r as [k q]. cbn [fst snd]. intros Hr. pose proof (marked_lookup now k.1 k.2 db) as Hm. rewrite <-surjective_pairing in Hm.
  apply elem_of_pending in Hr as [Hk Hp]. apply NoDup_Permutation.
  - apply base.NoDup_ListNoDup, NoDup_filter, base.NoDup_ListNoDup, NoDup_map_to_list.
  - apply list.NoDup_cons. split; [|apply base.NoDup_ListNoDup, NoDup_filter, base.NoDup_ListNoDup, NoDup_map_to_list].
    rewrite elem_of_pending, Hm, Hk, bool_decide_true, Hp by done. cbn. intros [[= Hq] _]. rewrite <-Hq in Hp. done.
  - intros [k' q']. rewrite list.elem_of_cons, !elem_of_pending, Hm. destruct (decide (k' = k)) as [->|Hne].
    + rewrite Hk, bool_decide_true, Hp by done. cbn. split; [intros [[= <-] _]; by left|]. intros [[= ->]|[[= Hq] Hq']]; [done|]. rewrite <-Hq in Hq'. done.
    + rewrite bool_decide_false by done. cbn. split.
      * intros [H1 H2]. right. by rewrite H1.
      * intros [[= ? ?]|[H1 H2]]; [done|]. destruct (ed_Quarantine db !! k'); [|done]. done.
Qed.

Lemma pass_counts env l : ∀ s s', NoDup (map fst l) → (∀ r, r ∈ l → r ∈ pending_rows (rs_db s)) →
  fold_result (reprocess_row env) s l = Ok s' →
  examined s' = (examined s + length l)%nat ∧
  (length (pending_rows (rs_db s')) + settled s' = length (pending_rows (rs_db s)) + settled s)%nat.
Proof.
  induction l as [|r l IH]; cbn; intros s s' Hnd Hin H; [injection H as <-; lia|]. apply list.NoDup_cons in Hnd as [Hr Hnd].
  apply bind_Ok in H as (s1 & H1 & H). pose proof (row_counts env s r s1 H1) as [He Hc].
  assert (Hrest : ∀ x, x ∈ l → x ∈ pending_rows (rs_db s1)).
  { intros [k q] Hx. apply elem_of_pending. assert (Hne : k ≠ r.1).
    { intros ->. apply Hr, list_elem_of_In, in_map_iff. exists (r.1, q). split; [done|by apply list_elem_of_In]. }
    assert (Hp : (k, q) ∈ pending_rows (rs_db s)) by by apply Hin, list_elem_of_further. apply elem_of_pending in Hp as [Hp1 Hp2].
    split; [|done]. destruct Hc as [[_ ->]|[_ [now ->]]]; [done|]. rewrite marked_lookup, Hp1, bool_decide_false; [done|]. by destruct r.1. }
  destruct (IH s1 s' Hnd Hrest H) as [He' Hc']. split; [lia|]. rewrite Hc'. destruct Hc as [[Hs Hq]|[Hs [now Hq]]].
  - rewrite Hs. unfold pending_rows. by rewrite Hq.
  - rewrite Hs. assert (Hlen : length (pending_rows (rs_db s)) = S (length (pending_rows (rs_db s1)))).
    { rewrite (mark_pending now (rs_db s) r) by apply Hin, list_elem_of_here. cbn. unfold pending_rows at 2. by rewrite Hq. }
    lia.
Qed.

(** C30 (termination). The drain of the quarantine ends, and is one pass. A run
    over pages of a hundred rows, each page read after the last row of the page
    before while the handlers write to the database, works through the rows that
    were pending at its start, oldest first, each once, and stops, within as many
    pages as there were rows, provided that no read of a page fails. If it comes to its end, every row has been counted
    once, and those that stay pending are the ones it counts as unsupported or put
    off. *)
Theorem reprocess_is_one_pass env db : (∀ n, re_list_fails env n = false) →
  reprocess_run (S (length (pending_rows db))) env db = Some (one_pass env db) ∧
  ∀ s, one_pass env db = Ok s → examined s = length (pending_rows db) ∧
    length (pending_rows (rs_db s)) = (rs_unsupported s + rs_deferred s)%nat.
Proof.
  intros Hlist. set (rows := isort (on_key quarantine_key key_before) (pending_rows db)).
  assert (Hlen : length rows = length (pending_rows db)) by (unfold rows; by rewrite isort_perm). split.
  - destruct (paged_drains quarantine_key key_before pending_in_order (reprocess_fetch env) (reprocess_page env)) with
      (I := λ _ : RunState, True) (n := length rows) (p := tt) (c := @None (time * string * uuid)) (s := started db) (fuel := S (length (pending_rows db)))
      as (pages & e & [rest Hpre] & _ & Hend & Hrun).
    + intros s. apply (isort_keyed_sorted _ _ key_total), pending_keyed.
    + intros p c s p' page _. apply fetch_is_prefix.
    + intros s c page s' x _ ? ? ?. split; [done|]. by eapply page_keeps.
    + done.
    + done.
    + lia.
    + unfold reprocess_run. rewrite Hrun. clear Hrun. f_equal. cbn in Hpre. change (pending_in_order (started db)) with rows in Hpre.
      unfold one_pass. fold rows. rewrite Hpre, fold_result_app, fold_pages. rewrite fold_pages in Hend.
      destruct (fold_result (reprocess_row env) (started db) (mjoin pages)) as [s|err]; [|done]. cbn [mbind result_bind].
      specialize (Hend s eq_refl). destruct e as [err|]; cbn [ending].
      * destruct Hend as (p' & c' & Hf). unfold reprocess_fetch in Hf. destruct (re_cancelled env (examined s)) eqn:Hc.
        -- injection Hf as <-. symmetry. by apply cancelled_fold.
        -- by rewrite Hlist in Hf.
      * destruct Hend as [Hall (p' & c' & p'' & Hf)]. cbn in Hall. change (pending_in_order (started db)) with rows in Hall.
        rewrite Hpre in Hall. assert (Hnil : rest = []).
        { apply (f_equal length) in Hall. rewrite length_app in Hall. destruct rest; [done|cbn in Hall; lia]. }
        rewrite Hnil. cbn. unfold reprocess_fetch in Hf. by destruct (re_cancelled env (examined s)).
  - intros s (s1 & Hs & Hgate)%bind_Ok. destruct (re_cancelled env (examined s1)); [done|]. injection Hgate as ->. fold rows in Hs.
    destruct (pass_counts env rows (started db) s) as [He Hc]; [| |done|].
    + unfold rows. rewrite isort_perm. unfold pending_rows. apply NoDup_map_filter, NoDup_fst_map_to_list.
    + intros r Hr. by apply elem_of_isort in Hr.
    + unfold examined, settled in *. cbn in He, Hc. lia.
Qed.
End Reprocess.

#[local] Existing Instance text_uuid.
#[local] Existing Instance sample_decoder.

(** A quarantine of three rows: an archive whose pool is there, one of a schema
    still unknown, and a publication the binary knows by now. *)
Definition quarantine_row (schema : Z) (envelope : string) (t : time) : QuarantineRow :=
  {| qr_Schema := schema; qr_Envelope := envelope; qr_FirstSeen := t; qr_LastSeen := t; qr_ReinjectedAt := None |}.

Definition three_rows : EventDB := with_quarantine (list_to_map [
  ((subjectPublished, ("e1"%string : uuid)), quarantine_row 2 "publish" 30);
  ((subjectPublished, ("e4"%string : uuid)), quarantine_row 9 "future" 20);
  ((subjectArchived, ("e2"%string : uuid)), quarantine_row 2 "archive" 10)]) no_events.

Definition sample_run : ReprocessEnv := {|
  re_now := λ _, 100; re_fault := λ _ _, Clean; re_mark := λ _, Clean; re_resolver := sample_resolver;
  re_cancelled := λ _, false; re_list_fails := λ _, false |}.

Definition counts (r : result (RunState * RunError) RunState) : option (nat * nat * nat * nat) :=
  match r with Ok s => Some (rs_applied s, rs_terminal s, rs_unsupported s, rs_deferred s) | Err _ => None end.

(** The archive comes before its pool and is put off; the publication is applied. *)
Example three_rows_counted : counts (one_pass sample_run three_rows) = Some (1, 0, 1, 1)%nat.
Proof. vm_compute. reflexivity. Qed.

Lemma reprocess_is_one_pass_witness :
  reprocess_run (S (length (pending_rows three_rows))) sample_run three_rows = Some (one_pass sample_run three_rows).
Proof.
  apply (@reprocess_is_one_pass text_uuid sample_decoder sample_decoder_laws text_uuid_laws sample_run three_rows).
  intros n. reflexivity.
Defined.
