(* ===== verification/SeatMaps.v ===== *)
(** * Catalog's seat maps

    [services/catalog/internal/store/postgres_seat_maps.go]: the authoring of a
    seat map while it is a draft, its publication, the edit that makes a new
    published version of its family, and the pins by which a hold or a sale keeps
    an edit from dropping its seats. With the constraints of migrations 0009 to
    0011, 0022 and 0023, and [ComposeSeatIdentity] of store.go.

    An operation is one transaction, or one statement, over the tables; a refused
    one leaves no trace. The three statements that add to a draft read the draft
    first and write after, and take no lock on it: each is a reading and a writing
    half, between which others may run (SeatMapSafety.v). The tables of organizers
    and their foreign keys are not modelled. *)

From S2P Require Import Prelude Text Tables.
#[local] Open Scope Z_scope.

Inductive SeatMapError :=
| ErrNotFound
| ErrSeatMapConflict
| ErrSeatMapSeatless
| ErrIllegalTransition
| ErrSeatMapEditOrphansPinned
| ErrSeatMapFamilyNotFound
| ErrSeatIdentityNotFound
| ErrSeatIdentityTooLong
| ErrPageLimit
| ErrConstraint.

#[export] Instance SeatMapError_eq_dec : EqDecision SeatMapError.
Proof. solve_decision. Defined.

Inductive SeatMapStatus := StatusDraft | StatusPublished | StatusArchived.

#[export] Instance SeatMapStatus_eq_dec : EqDecision SeatMapStatus.
Proof. solve_decision. Defined.

(** What a constraint refuses an INSERT for. *)
Inductive InsertError := UniqueViolation | CheckViolation.

Definition MaxSeatIdentityCharacters : nat := 200.
Definition MaxPinnedByCharacters : nat := 45.
Definition MaxSeatMapPinPage : Z := 500.

(** The identity by which a seat is sold: its labels, joined. *)
Definition joined (section row seat : string) : string := section +:+ "/" +:+ row +:+ "/" +:+ seat.

Definition ComposeSeatIdentity (section row seat : string) : result SeatMapError string :=
  let identity := joined section row seat in
  if (MaxSeatIdentityCharacters <? char_count identity)%nat then Err ErrSeatIdentityTooLong else Ok identity.

(** [NOT LIKE '%/%']. *)
Definition no_slash (s : string) : bool := negb (existsb (Ascii.eqb (Ascii.ascii_of_nat 47)) (list_ascii_of_string s)).

(** The ids the database draws, in the order it draws them. *)
Class RandomIDs `{UUID} : Type := { gen_random_uuid : nat → uuid }.

Section SeatMaps.
Context `{UU : UUID} {RI : RandomIDs}.

(** ** The tables *)

Record Venue := { vn_OrganizerID : uuid; vn_Name : string; vn_GACapacity : Z; vn_CreatedAt : time }.

Record SeatMap := {
  sm_OrganizerID : uuid;
  sm_VenueID : uuid;
  sm_Name : string;
  sm_Version : Z;
  sm_Status : SeatMapStatus;
  sm_PublishedAt : option time;
  sm_EmittedAt : option time;
  sm_Family : uuid;
  sm_Orphan : bool;
  sm_CreatedAt : time;
}.

Record SectionRow := { sc_OrganizerID : uuid; sc_Map : uuid; sc_Name : string; sc_Position : Z }.
Record RowRow := { rw_OrganizerID : uuid; rw_Map : uuid; rw_Section : uuid; rw_Label : string; rw_Position : Z }.
Record SeatRow := { se_OrganizerID : uuid; se_Map : uuid; se_Row : uuid; se_Identity : string; se_Label : string; se_Position : Z }.
Record PinRow := { pn_OrganizerID : uuid; pn_Family : uuid; pn_Identity : string; pn_PinnedBy : string }.

Record MapDB := {
  ct_Venues : gmap uuid Venue;
  ct_Maps : gmap uuid SeatMap;
  ct_Sections : gmap uuid SectionRow;
  ct_Rows : gmap uuid RowRow;
  ct_Seats : gmap uuid SeatRow;
  ct_Pins : gmap uuid PinRow;
  ct_Drawn : nat;
}.
Implicit Types (db : MapDB).

Definition next_id db : uuid := gen_random_uuid (ct_Drawn db).

Definition drawn (n : nat) db : MapDB := {|
  ct_Venues := ct_Venues db; ct_Maps := ct_Maps db; ct_Sections := ct_Sections db; ct_Rows := ct_Rows db; ct_Seats := ct_Seats db;
  ct_Pins := ct_Pins db; ct_Drawn := n |}.
Definition with_venues (f : gmap uuid Venue → gmap uuid Venue) db : MapDB := {|
  ct_Venues := f (ct_Venues db); ct_Maps := ct_Maps db; ct_Sections := ct_Sections db; ct_Rows := ct_Rows db; ct_Seats := ct_Seats db;
  ct_Pins := ct_Pins db; ct_Drawn := ct_Drawn db |}.
Definition with_maps (f : gmap uuid SeatMap → gmap uuid SeatMap) db : MapDB := {|
  ct_Venues := ct_Venues db; ct_Maps := f (ct_Maps db); ct_Sections := ct_Sections db; ct_Rows := ct_Rows db; ct_Seats := ct_Seats db;
  ct_Pins := ct_Pins db; ct_Drawn := ct_Drawn db |}.
Definition with_sections (f : gmap uuid SectionRow → gmap uuid SectionRow) db : MapDB := {|
  ct_Venues := ct_Venues db; ct_Maps := ct_Maps db; ct_Sections := f (ct_Sections db); ct_Rows := ct_Rows db; ct_Seats := ct_Seats db;
  ct_Pins := ct_Pins db; ct_Drawn := ct_Drawn db |}.
Definition with_rows (f : gmap uuid RowRow → gmap uuid RowRow) db : MapDB := {|
  ct_Venues := ct_Venues db; ct_Maps := ct_Maps db; ct_Sections := ct_Sections db; ct_Rows := f (ct_Rows db); ct_Seats := ct_Seats db;
  ct_Pins := ct_Pins db; ct_Drawn := ct_Drawn db |}.
Definition with_seats (f : gmap uuid SeatRow → gmap uuid SeatRow) db : MapDB := {|
  ct_Venues := ct_Venues db; ct_Maps := ct_Maps db; ct_Sections := ct_Sections db; ct_Rows := ct_Rows db; ct_Seats := f (ct_Seats db);
  ct_Pins := ct_Pins db; ct_Drawn := ct_Drawn db |}.
Definition with_pins (f : gmap uuid PinRow → gmap uuid PinRow) db : MapDB := {|
  ct_Venues := ct_Venues db; ct_Maps := ct_Maps db; ct_Sections := ct_Sections db; ct_Rows := ct_Rows db; ct_Seats := ct_Seats db;
  ct_Pins := f (ct_Pins db); ct_Drawn := ct_Drawn db |}.

(** ** INSERTs, with the constraints of the tables

    The CHECKs first, then the unique indexes. *)

Definition insert_into {R} (table : MapDB → gmap uuid R) (put : (gmap uuid R → gmap uuid R) → MapDB → MapDB)
    (check : R → bool) (clash : R → R → bool) (r : R) db : result InsertError (MapDB * uuid) :=
  let id := next_id db in
  if negb (check r) then Err CheckViolation
  else if negb (bool_decide (table db !! id = None)) || some_row (clash r) (table db) then Err UniqueViolation
  else Ok (put (<[id := r]>) (drawn (S (ct_Drawn db)) db), id).

Definition map_check (m : SeatMap) : bool := 0 <? sm_Version m.
Definition map_clash (m o : SeatMap) : bool := bool_decide (sm_Family o = sm_Family m) && (sm_Version o =? sm_Version m).

Definition section_check (s : SectionRow) : bool := no_slash (sc_Name s) && (0 <? sc_Position s).
Definition section_clash (s o : SectionRow) : bool :=
  bool_decide (sc_Map o = sc_Map s) && (bool_decide (sc_Name o = sc_Name s) || (sc_Position o =? sc_Position s)).

Definition row_check (r : RowRow) : bool := no_slash (rw_Label r) && (0 <? rw_Position r).
Definition row_clash (r o : RowRow) : bool :=
  bool_decide (rw_Section o = rw_Section r) && (bool_decide (rw_Label o = rw_Label r) || (rw_Position o =? rw_Position r)).

Definition length_between (lo hi : nat) (s : string) : bool := (lo <=? char_count s)%nat && (char_count s <=? hi)%nat.

Definition seat_check (s : SeatRow) : bool :=
  no_slash (se_Label s) && (0 <? se_Position s) && length_between 1 MaxSeatIdentityCharacters (se_Identity s).
Definition seat_clash (s o : SeatRow) : bool :=
  bool_decide (se_Map o = se_Map s) && bool_decide (se_Identity o = se_Identity s) ||
  bool_decide (se_Row o = se_Row s) && (se_Position o =? se_Position s).

Definition pin_check (p : PinRow) : bool :=
  length_between 1 MaxSeatIdentityCharacters (pn_Identity p) && length_between 1 MaxPinnedByCharacters (pn_PinnedBy p).
Definition pin_clash (p o : PinRow) : bool :=
  bool_decide (pn_Family o = pn_Family p) && bool_decide (pn_Identity o = pn_Identity p) && bool_decide (pn_PinnedBy o = pn_PinnedBy p).

Definition insert_map := insert_into ct_Maps with_maps map_check map_clash.
Definition insert_section := insert_into ct_Sections with_sections section_check section_clash.
Definition insert_row := insert_into ct_Rows with_rows row_check row_clash.
Definition insert_seat := insert_into ct_Seats with_seats seat_check seat_clash.

(** [ON CONFLICT ... DO NOTHING]. *)
Definition insert_pin (p : PinRow) db : result SeatMapError MapDB :=
  match insert_into ct_Pins with_pins pin_check pin_clash p db with
  | Ok (db, _) => Ok db
  | Err CheckViolation => Err ErrConstraint
  | Err UniqueViolation => if some_row (pin_clash p) (ct_Pins db) then Ok db else Err ErrConstraint
  end.

Definition conflict {A} (r : result InsertError A) : result SeatMapError A :=
  match r with Ok a => Ok a | Err UniqueViolation => Err ErrSeatMapConflict | Err CheckViolation => Err ErrConstraint end.

(** ** Drafts *)

Definition CreateSeatMap (now : time) (org venue : uuid) (name : string) (orphan : bool) db : result SeatMapError (MapDB * uuid) :=
  match ct_Venues db !! venue with
  | Some v =>
      if negb (bool_decide (vn_OrganizerID v = org)) then Err ErrNotFound
      else
        let family := next_id db in
        match insert_map {| sm_OrganizerID := org; sm_VenueID := venue; sm_Name := name; sm_Version := 1; sm_Status := StatusDraft;
                            sm_PublishedAt := None; sm_EmittedAt := None; sm_Family := family; sm_Orphan := orphan; sm_CreatedAt := now |}
                         (drawn (S (ct_Drawn db)) db) with
        | Ok r => Ok r
        | Err _ => Err ErrConstraint
        end
  | None => Err ErrNotFound
  end.

(** The map, if it is the organizer's and a draft. *)
Definition draft_of (org map : uuid) db : bool :=
  match ct_Maps db !! map with
  | Some m => bool_decide (sm_OrganizerID m = org) && bool_decide (sm_Status m = StatusDraft)
  | None => false
  end.

(** What a SELECT of an INSERT found: the row that is to be written. *)
Inductive Insertion :=
| InsertSection (s : SectionRow)
| InsertRow (r : RowRow)
| InsertSeat (s : SeatRow).

Definition read_section (org map : uuid) (name : string) (position : Z) db : result SeatMapError Insertion :=
  if draft_of org map db
  then Ok (InsertSection {| sc_OrganizerID := org; sc_Map := map; sc_Name := name; sc_Position := position |})
  else Err ErrNotFound.

(** Drafts are looked up by the map of the section, which is the map that was named. *)
Definition draft_map (map : uuid) db : bool :=
  match ct_Maps db !! map with Some m => bool_decide (sm_Status m = StatusDraft) | None => false end.

Definition read_row (org map section : uuid) (label : string) (position : Z) db : result SeatMapError Insertion :=
  match ct_Sections db !! section with
  | Some s =>
      if bool_decide (sc_Map s = map) && bool_decide (sc_OrganizerID s = org) && draft_map (sc_Map s) db
      then Ok (InsertRow {| rw_OrganizerID := org; rw_Map := sc_Map s; rw_Section := section; rw_Label := label; rw_Position := position |})
      else Err ErrNotFound
  | None => Err ErrNotFound
  end.

Definition row_of (org map row : uuid) db : option RowRow :=
  match ct_Rows db !! row with
  | Some r => if bool_decide (rw_Map r = map) && bool_decide (rw_OrganizerID r = org) && draft_map (rw_Map r) db then Some r else None
  | None => None
  end.

(** The first statement of [AddSeatMapSeat], and the identity made of what it read. *)
Definition resolve_seat (org map row : uuid) (label : string) db : result SeatMapError string :=
  match row_of org map row db with
  | Some r =>
      match ct_Sections db !! rw_Section r with
      | Some s => ComposeSeatIdentity (sc_Name s) (rw_Label r) label
      | None => Err ErrNotFound
      end
  | None => Err ErrNotFound
  end.

Definition read_seat (org map row : uuid) (identity label : string) (position : Z) db : result SeatMapError Insertion :=
  match row_of org map row db with
  | Some r => Ok (InsertSeat {| se_OrganizerID := org; se_Map := rw_Map r; se_Row := row; se_Identity := identity; se_Label := label; se_Position := position |})
  | None => Err ErrNotFound
  end.

Definition write (i : Insertion) db : result SeatMapError (MapDB * uuid) :=
  conflict (match i with
            | InsertSection s => insert_section s db
            | InsertRow r => insert_row r db
            | InsertSeat s => insert_seat s db
            end).

Definition AddSeatMapSection (org map : uuid) (name : string) (position : Z) db : result SeatMapError (MapDB * uuid) :=
  i ← read_section org map name position db; write i db.

Definition AddSeatMapRow (org map section : uuid) (label : string) (position : Z) db : result SeatMapError (MapDB * uuid) :=
  i ← read_row org map section label position db; write i db.

Definition AddSeatMapSeat (org map row : uuid) (label : string) (position : Z) db : result SeatMapError (MapDB * uuid) :=
  identity ← resolve_seat org map row label db;
  i ← read_seat org map row identity label position db; write i db.

(** ** Publication *)

Definition set_published (now : time) (m : SeatMap) : SeatMap := {|
  sm_OrganizerID := sm_OrganizerID m; sm_VenueID := sm_VenueID m; sm_Name := sm_Name m; sm_Version := sm_Version m;
  sm_Status := StatusPublished; sm_PublishedAt := Some now; sm_EmittedAt := sm_EmittedAt m; sm_Family := sm_Family m;
  sm_Orphan := sm_Orphan m; sm_CreatedAt := sm_CreatedAt m |}.

Definition set_emitted (now : time) (m : SeatMap) : SeatMap := {|
  sm_OrganizerID := sm_OrganizerID m; sm_VenueID := sm_VenueID m; sm_Name := sm_Name m; sm_Version := sm_Version m;
  sm_Status := sm_Status m; sm_PublishedAt := sm_PublishedAt m; sm_EmittedAt := Some now; sm_Family := sm_Family m;
  sm_Orphan := sm_Orphan m; sm_CreatedAt := sm_CreatedAt m |}.

Definition has_seats (map : uuid) db : bool := some_row (λ s, bool_decide (se_Map s = map)) (ct_Seats db).

Definition flip (now : time) (org map : uuid) db : MapDB :=
  match ct_Maps db !! map with
  | Some m => if draft_of org map db && has_seats map db then with_maps (<[map := set_published now m]>) db else db
  | None => db
  end.

(** The map as it is then, and whether its event is still owed. *)
Definition PublishSeatMap (now : time) (org map : uuid) db : MapDB * result SeatMapError (SeatMap * bool) :=
  let db := flip now org map db in
  (db, match ct_Maps db !! map with
       | Some m =>
           if negb (bool_decide (sm_OrganizerID m = org)) then Err ErrNotFound
           else match sm_Status m with
                | StatusPublished => Ok (m, is_None (sm_EmittedAt m))
                | StatusDraft => Err ErrSeatMapSeatless
                | StatusArchived => Err ErrIllegalTransition
                end
       | None => Err ErrNotFound
       end).

Definition MarkSeatMapEventEmitted (now : time) (map : uuid) db : MapDB :=
  match ct_Maps db !! map with Some m => with_maps (<[map := set_emitted now m]>) db | None => db end.

(** ** The family's current version *)

Definition version_before : uuid * SeatMap → uuid * SeatMap → bool := on_key (λ v, - sm_Version v.2) Z.ltb.

Definition family_versions (family org : uuid) (published : bool) db : list (uuid * SeatMap) :=
  List.filter (λ v : uuid * SeatMap, bool_decide (sm_Family v.2 = family) && bool_decide (sm_OrganizerID v.2 = org) &&
                (negb published || bool_decide (sm_Status v.2 = StatusPublished))) (map_to_list (ct_Maps db)).

Definition current_version (family org : uuid) db : option (uuid * SeatMap) :=
  head (isort version_before (family_versions family org true db)).

Definition resolve_family (map org : uuid) db : option uuid :=
  match ct_Maps db !! map with
  | Some m => if bool_decide (sm_OrganizerID m = org) then Some (sm_Family m) else None
  | None => None
  end.

(** The lock on the family makes what follows one step; only the answer is modelled. *)
Definition lockCurrentPublishedVersion (map org : uuid) db : result SeatMapError (uuid * Z * uuid) :=
  match resolve_family map org db with
  | Some family =>
      match current_version family org db with
      | Some (id, m) => Ok (id, sm_Version m, family)
      | None => Err ErrNotFound
      end
  | None => Err ErrNotFound
  end.

(** ** Edits *)

Record EditSeatInput := { ei_Label : string; ei_Position : Z }.
Record EditRowInput := { er_Label : string; er_Position : Z; er_Seats : list EditSeatInput }.
Record EditSectionInput := { es_Name : string; es_Position : Z; es_Rows : list EditRowInput }.

Record EditSeatMapInput := {
  ed_OrganizerID : uuid;
  ed_SeatMapID : uuid;
  ed_Sections : list EditSectionInput;
  ed_Orphan : option bool;
}.

(** The identities of a submission, one for each seat. *)
Definition row_submitted (section : string) (r : EditRowInput) : list string :=
  map (λ seat, joined section (er_Label r) (ei_Label seat)) (er_Seats r).
Definition section_submitted (s : EditSectionInput) : list string := List.concat (map (row_submitted (es_Name s)) (es_Rows s)).
Definition submitted (sections : list EditSectionInput) : list string := List.concat (map section_submitted sections).

Definition compose_all (sections : list EditSectionInput) : result SeatMapError (gset string) :=
  fold_result (λ seen s, fold_result (λ seen r, fold_result (λ seen seat,
    identity ← ComposeSeatIdentity (es_Name s) (er_Label r) (ei_Label seat); Ok ({[identity]} ∪ seen)) seen (er_Seats r)) seen (es_Rows s)) ∅ sections.

Definition clone_seat (org map : uuid) (section label : string) (row : uuid) db (seat : EditSeatInput) : result SeatMapError MapDB :=
  r ← conflict (insert_seat {| se_OrganizerID := org; se_Map := map; se_Row := row; se_Identity := joined section label (ei_Label seat);
                               se_Label := ei_Label seat; se_Position := ei_Position seat |} db);
  Ok r.1.

Definition clone_row (org map : uuid) (name : string) (section : uuid) db (r : EditRowInput) : result SeatMapError MapDB :=
  row ← conflict (insert_row {| rw_OrganizerID := org; rw_Map := map; rw_Section := section; rw_Label := er_Label r; rw_Position := er_Position r |} db);
  fold_result (clone_seat org map name (er_Label r) row.2) row.1 (er_Seats r).

Definition clone_section (org map : uuid) db (s : EditSectionInput) : result SeatMapError MapDB :=
  section ← conflict (insert_section {| sc_OrganizerID := org; sc_Map := map; sc_Name := es_Name s; sc_Position := es_Position s |} db);
  fold_result (clone_row org map (es_Name s) section.2) section.1 (es_Rows s).

Definition pinned_in (family : uuid) db : list string := map pn_Identity (rows_where (λ p, bool_decide (pn_Family p = family)) (ct_Pins db)).

(** The row of the new version, copied from the current one. *)
Definition next_version (now : time) (flag : option bool) (cur : SeatMap) : SeatMap := {|
  sm_OrganizerID := sm_OrganizerID cur; sm_VenueID := sm_VenueID cur; sm_Name := sm_Name cur; sm_Version := wrap32 (sm_Version cur + 1);
  sm_Status := StatusPublished; sm_PublishedAt := Some now; sm_EmittedAt := None; sm_Family := sm_Family cur;
  sm_Orphan := default (sm_Orphan cur) flag; sm_CreatedAt := now |}.

Definition EditSeatMap (now : time) (i : EditSeatMapInput) db : result SeatMapError (MapDB * uuid) :=
  identities ← compose_all (ed_Sections i);
  if bool_decide (identities = ∅) then Err ErrSeatMapSeatless
  else
    cur ← lockCurrentPublishedVersion (ed_SeatMapID i) (ed_OrganizerID i) db;
    let '(curID, _, family) := cur in
    if negb (forallb (λ identity, bool_decide (identity ∈ identities)) (pinned_in family db)) then Err ErrSeatMapEditOrphansPinned
    else
      match ct_Maps db !! curID with
      | Some m =>
          match insert_map (next_version now (ed_Orphan i) m) db with
          | Ok (db, newMap) => db ← fold_result (clone_section (ed_OrganizerID i) newMap) db (ed_Sections i); Ok (db, newMap)
          | Err _ => Err ErrConstraint
          end
      | None => Err ErrConstraint
      end.

(** ** Pins *)

Definition has_seat (map : uuid) (identity : string) db : bool :=
  some_row (λ s, bool_decide (se_Map s = map) && bool_decide (se_Identity s = identity)) (ct_Seats db).

(** One identity, under the lock of the family. *)
Definition pin_one (org cur family : uuid) (pinnedBy : string) db (identity : string) : result SeatMapError MapDB :=
  if negb (has_seat cur identity db) then Err ErrSeatIdentityNotFound
  else insert_pin {| pn_OrganizerID := org; pn_Family := family; pn_Identity := identity; pn_PinnedBy := pinnedBy |} db.

Definition PinSeat (org map : uuid) (identity pinnedBy : string) db : result SeatMapError MapDB :=
  cur ← lockCurrentPublishedVersion map org db;
  let '(curID, _, family) := cur in pin_one org curID family pinnedBy db identity.

Definition PinSeats (org map : uuid) (identities : list string) (pinnedBy : string) db : result SeatMapError MapDB :=
  if bool_decide (length identities = 0%nat) then Ok db
  else
    cur ← lockCurrentPublishedVersion map org db;
    let '(curID, _, family) := cur in fold_result (pin_one org curID family pinnedBy) db identities.

Definition is_pin (org family : uuid) (pinnedBy identity : string) (p : PinRow) : bool :=
  bool_decide (pn_OrganizerID p = org) && bool_decide (pn_Family p = family) && bool_decide (pn_PinnedBy p = pinnedBy) &&
  bool_decide (pn_Identity p = identity).

Definition unpin_one (org family : uuid) (pinnedBy : string) db (identity : string) : MapDB :=
  with_pins (filter (λ kp, is_pin org family pinnedBy identity kp.2 = false)) db.

Definition UnpinSeat (org map : uuid) (identity pinnedBy : string) db : result SeatMapError MapDB :=
  match resolve_family map org db with
  | Some family => Ok (unpin_one org family pinnedBy db identity)
  | None => Err ErrSeatMapFamilyNotFound
  end.

Definition UnpinSeats (org map : uuid) (identities : list string) (pinnedBy : string) db : result SeatMapError MapDB :=
  if bool_decide (length identities = 0%nat) then Ok db
  else
    match resolve_family map org db with
    | Some family => Ok (foldl (unpin_one org family pinnedBy) db identities)
    | None => Err ErrSeatMapFamilyNotFound
    end.

(** A listed pin: its id, its organizer, the newest version of its family, the seat and its holder. *)
Record SeatMapPin := { lp_ID : uuid; lp_OrganizerID : uuid; lp_SeatMapID : uuid; lp_SeatIdentity : string; lp_PinnedBy : string }.

Definition newest_version (family org : uuid) db : option uuid := fst <$> head (isort version_before (family_versions family org false db)).

Definition listed_pin db (kp : uuid * PinRow) : option SeatMapPin :=
  (λ m, {| lp_ID := kp.1; lp_OrganizerID := pn_OrganizerID kp.2; lp_SeatMapID := m; lp_SeatIdentity := pn_Identity kp.2; lp_PinnedBy := pn_PinnedBy kp.2 |}) <$>
    newest_version (pn_Family kp.2) (pn_OrganizerID kp.2) db.

Definition listed_pins db : list SeatMapPin := omap (listed_pin db) (map_to_list (ct_Pins db)).

Definition ListSeatMapPins (after : uuid) (limit : Z) db : result SeatMapError (list SeatMapPin) :=
  if (limit <=? 0) || (MaxSeatMapPinPage <? limit) then Err ErrPageLimit
  else Ok (take (Z.to_nat limit) (isort (on_key lp_ID uuid_ltb) (List.filter (λ p, uuid_ltb after (lp_ID p)) (listed_pins db)))).

(** ** Reads *)

Definition map_before : uuid * SeatMap → uuid * SeatMap → bool :=
  lex (on_key (λ v, sm_Version v.2) Z.ltb) (lex (on_key (λ v, sm_Name v.2) String.ltb) (on_key fst uuid_ltb)).

Definition ListVenueSeatMaps (venue : uuid) db : list (uuid * SeatMap) :=
  isort map_before (List.filter (λ v : uuid * SeatMap, bool_decide (sm_VenueID v.2 = venue)) (map_to_list (ct_Maps db))).

Definition ListSeatMapVersions (map : uuid) db : result SeatMapError (list (uuid * SeatMap)) :=
  match ct_Maps db !! map with
  | Some m => Ok (isort version_before (List.filter (λ v : uuid * SeatMap, bool_decide (sm_Family v.2 = sm_Family m)) (map_to_list (ct_Maps db))))
  | None => Err ErrNotFound
  end.

Definition UpdateVenueGACapacity (org venue : uuid) (capacity : Z) db : result SeatMapError MapDB :=
  match ct_Venues db !! venue with
  | Some v =>
      if negb (bool_decide (vn_OrganizerID v = org)) then Err ErrNotFound
      else if capacity <=? 0 then Err ErrConstraint
      else Ok (with_venues (<[venue := {| vn_OrganizerID := vn_OrganizerID v; vn_Name := vn_Name v; vn_GACapacity := capacity;
                                          vn_CreatedAt := vn_CreatedAt v |}]>) db)
  | None => Err ErrNotFound
  end.

(** Seats under their row, rows under their section, each level by position. *)
Record SeatNode := { sn_ID : uuid; sn_Identity : string; sn_Label : string; sn_Position : Z }.
Record RowNode := { rn_ID : uuid; rn_Label : string; rn_Position : Z; rn_Seats : list SeatNode }.
Record SectionNode := { cn_ID : uuid; cn_Name : string; cn_Position : Z; cn_Rows : list RowNode }.

Definition kept {R} (f : R → bool) (table : gmap uuid R) : list (uuid * R) := map_to_list (filter (λ kr : uuid * R, f kr.2 = true) table).

Definition seat_node (ks : uuid * SeatRow) : SeatNode := {|
  sn_ID := ks.1; sn_Identity := se_Identity ks.2; sn_Label := se_Label ks.2; sn_Position := se_Position ks.2 |}.

Definition map_seats (map : uuid) db : list (uuid * SeatRow) :=
  isort (on_key (λ ks : uuid * SeatRow, se_Position ks.2) Z.ltb) (kept (λ s, bool_decide (se_Map s = map)) (ct_Seats db)).
Definition map_rows (map : uuid) db : list (uuid * RowRow) :=
  isort (on_key (λ kr : uuid * RowRow, rw_Position kr.2) Z.ltb) (kept (λ r, bool_decide (rw_Map r = map)) (ct_Rows db)).
Definition map_sections (map : uuid) db : list (uuid * SectionRow) :=
  isort (on_key (λ ks : uuid * SectionRow, sc_Position ks.2) Z.ltb) (kept (λ s, bool_decide (sc_Map s = map)) (ct_Sections db)).

Definition row_node (map : uuid) db (kr : uuid * RowRow) : RowNode := {|
  rn_ID := kr.1; rn_Label := rw_Label kr.2; rn_Position := rw_Position kr.2;
  rn_Seats := List.map seat_node (List.filter (λ ks : uuid * SeatRow, bool_decide (se_Row ks.2 = kr.1)) (map_seats map db)) |}.

Definition section_read (map : uuid) (at_rows at_seats : MapDB) (ks : uuid * SectionRow) : SectionNode := {|
  cn_ID := ks.1; cn_Name := sc_Name ks.2; cn_Position := sc_Position ks.2;
  cn_Rows := List.map (row_node map at_seats) (List.filter (λ kr : uuid * RowRow, bool_decide (rw_Section kr.2 = ks.1)) (map_rows map at_rows)) |}.
Definition section_node (map : uuid) db (ks : uuid * SectionRow) : SectionNode := section_read map db db ks.

(** [GetSeatMapGeometry]: four statements, each of the tables as they are when it runs. *)
Definition ReadSeatMapGeometry (map : uuid) (at_map at_sections at_rows at_seats : MapDB) : result SeatMapError (SeatMap * list SectionNode) :=
  match ct_Maps at_map !! map with
  | Some m => Ok (m, List.map (section_read map at_rows at_seats) (map_sections map at_sections))
  | None => Err ErrNotFound
  end.

(** With nothing between them. *)
Definition GetSeatMapGeometry (map : uuid) db : result SeatMapError (SeatMap * list SectionNode) := ReadSeatMapGeometry map db db db db.
End SeatMaps.
