(* ===== verification/SeatMapSafety.v ===== *)
(** * What seat maps keep

    Requests on catalog's seat maps, interleaved: an operation is one step but for
    the three that add to a draft, whose reading half and writing half are steps of
    their own with whatever runs between them. Kept by every run: a pinned seat is
    in the version of its family that is current, and the versions, the trees and
    the unique constraints are sound. *)

From S2P Require Import Prelude Text Tables SeatMaps.
#[local] Open Scope Z_scope.

Class RandomIDsLaws `{RandomIDs} : Prop := { gen_random_inj :: Inj (=) (=) gen_random_uuid }.

Section SeatMapSafety.
Context `{UU : UUID} {RI : RandomIDs}.
Implicit Types (db : MapDB).

(** ** Requests and runs *)

(** A seat whose identity was composed and that has not been looked up again. *)
Record Resolved := { rv_Org : uuid; rv_Map : uuid; rv_Row : uuid; rv_Label : string; rv_Position : Z; rv_Identity : string }.

Record MapNode := { mn_db : MapDB; mn_resolved : list Resolved; mn_writing : list Insertion }.

Inductive MapOp :=
| OpVenues (venues : gmap uuid Venue)
| OpCreate (now : time) (org venue : uuid) (name : string) (orphan : bool)
| OpReadSection (org map : uuid) (name : string) (position : Z)
| OpReadRow (org map section : uuid) (label : string) (position : Z)
| OpResolveSeat (org map row : uuid) (label : string) (position : Z)
| OpReadSeat (k : nat)
| OpWrite (k : nat)
| OpPublish (now : time) (org map : uuid)
| OpMark (now : time) (map : uuid)
| OpEdit (now : time) (i : EditSeatMapInput)
| OpPin (org map : uuid) (seat pinnedBy : string)
| OpPins (org map : uuid) (identities : list string) (pinnedBy : string)
| OpUnpin (org map : uuid) (seat pinnedBy : string)
| OpUnpins (org map : uuid) (identities : list string) (pinnedBy : string).

Definition at_map_db (n : MapNode) db : MapNode := {| mn_db := db; mn_resolved := mn_resolved n; mn_writing := mn_writing n |}.

(** A refused request changes nothing. *)
Definition after_result (n : MapNode) (r : result SeatMapError MapDB) : MapNode := match r with Ok db => at_map_db n db | Err _ => n end.

Definition read_half (n : MapNode) (r : result SeatMapError Insertion) : MapNode :=
  match r with Ok i => {| mn_db := mn_db n; mn_resolved := mn_resolved n; mn_writing := mn_writing n ++ [i] |} | Err _ => n end.

Definition perform_map (op : MapOp) (n : MapNode) : MapNode :=
  let db := mn_db n in
  match op with
  | OpVenues v => at_map_db n (with_venues (λ _, v) db)
  | OpCreate now org venue name orphan => after_result n (r ← CreateSeatMap now org venue name orphan db; Ok r.1)
  | OpReadSection org map name position => read_half n (read_section org map name position db)
  | OpReadRow org map section label position => read_half n (read_row org map section label position db)
  | OpResolveSeat org map row label position =>
      match resolve_seat org map row label db with
      | Ok seat => {| mn_db := db; mn_resolved := mn_resolved n ++ [{| rv_Org := org; rv_Map := map; rv_Row := row; rv_Label := label;
                            rv_Position := position; rv_Identity := seat |}]; mn_writing := mn_writing n |}
      | Err _ => n
      end
  | OpReadSeat k =>
      match mn_resolved n !! k with
      | Some v => read_half {| mn_db := db; mn_resolved := delete k (mn_resolved n); mn_writing := mn_writing n |}
                    (read_seat (rv_Org v) (rv_Map v) (rv_Row v) (rv_Identity v) (rv_Label v) (rv_Position v) db)
      | None => n
      end
  | OpWrite k =>
      match mn_writing n !! k with
      | Some i => after_result {| mn_db := db; mn_resolved := mn_resolved n; mn_writing := delete k (mn_writing n) |} (r ← write i db; Ok r.1)
      | None => n
      end
  | OpPublish now org map => at_map_db n (PublishSeatMap now org map db).1
  | OpMark now map => at_map_db n (MarkSeatMapEventEmitted now map db)
  | OpEdit now i => after_result n (r ← EditSeatMap now i db; Ok r.1)
  | OpPin org map seat pinnedBy => after_result n (PinSeat org map seat pinnedBy db)
  | OpPins org map identities pinnedBy => after_result n (PinSeats org map identities pinnedBy db)
  | OpUnpin org map seat pinnedBy => after_result n (UnpinSeat org map seat pinnedBy db)
  | OpUnpins org map identities pinnedBy => after_result n (UnpinSeats org map identities pinnedBy db)
  end.

Definition run_maps (l : list MapOp) (n : MapNode) : MapNode := foldl (λ n op, perform_map op n) n l.

Definition no_maps : MapNode := {|
  mn_db := {| ct_Venues := ∅; ct_Maps := ∅; ct_Sections := ∅; ct_Rows := ∅; ct_Seats := ∅; ct_Pins := ∅; ct_Drawn := 0 |};
  mn_resolved := []; mn_writing := [] |}.

(** ** What an INSERT leaves *)

Lemma insert_into_Ok {R} (table : MapDB → gmap uuid R) put check clash r db db' id : insert_into table put check clash r db = Ok (db', id) →
  check r = true ∧ table db !! id = None ∧ (∀ k o, table db !! k = Some o → clash r o = false) ∧ id = next_id db ∧
  db' = put (<[id := r]>) (drawn (S (ct_Drawn db)) db).
Proof.
  unfold insert_into. destruct (check r); cbn [negb]; [|done]. case_bool_decide as Hn; cbn [negb orb]; [|done].
  destruct (some_row (clash r) (table db)) eqn:Hc; [done|]. intros [= <- <-]. split_and!; try done. by apply some_row_false.
Qed.

Lemma conflict_Ok {A} (r : result InsertError A) a : conflict r = Ok a → r = Ok a.
Proof. destruct r as [x|[]]; cbn; [by intros [= ->]|done..]. Qed.

(** Two rows of a table never clash. *)
Definition Distinct {R} (clash : R → R → bool) (t : gmap uuid R) : Prop :=
  ∀ i j a b, t !! i = Some a → t !! j = Some b → i ≠ j → clash a b = false.

Lemma distinct_insert {R} (clash : R → R → bool) t i r : (∀ a b, clash a b = clash b a) → Distinct clash t → t !! i = None →
  (∀ k o, t !! k = Some o → clash r o = false) → Distinct clash (<[i := r]> t).
Proof.
  intros Hsym Hd Hi Hr j k a b Hj Hk Hne. destruct (decide (j = i)) as [->|Hji]; destruct (decide (k = i)) as [->|Hki]; try done.
  - rewrite lookup_insert_eq in Hj. injection Hj as <-. rewrite lookup_insert_ne in Hk by done. by eapply Hr.
  - rewrite lookup_insert_eq in Hk. injection Hk as <-. rewrite lookup_insert_ne in Hj by done. rewrite Hsym. by eapply Hr.
  - rewrite lookup_insert_ne in Hj, Hk by done. by eapply Hd.
Qed.

Lemma map_clash_sym a b : map_clash a b = map_clash b a.
Proof. unfold map_clash. rewrite Z.eqb_sym. f_equal. apply bool_decide_ext. split; congruence. Qed.

Lemma section_clash_sym a b : section_clash a b = section_clash b a.
Proof. unfold section_clash. rewrite Z.eqb_sym. repeat f_equal; apply bool_decide_ext; split; congruence. Qed.

Lemma row_clash_sym a b : row_clash a b = row_clash b a.
Proof. unfold row_clash. rewrite Z.eqb_sym. repeat f_equal; apply bool_decide_ext; split; congruence. Qed.

Lemma seat_clash_sym a b : seat_clash a b = seat_clash b a.
Proof. unfold seat_clash. rewrite Z.eqb_sym. repeat f_equal; apply bool_decide_ext; split; congruence. Qed.

(** ** Growth of the trees *)

Record Grow db db' : Prop := {
  gw_maps : ct_Maps db' = ct_Maps db;
  gw_sections : ct_Sections db ⊆ ct_Sections db';
  gw_rows : ct_Rows db ⊆ ct_Rows db';
  gw_seats : ct_Seats db ⊆ ct_Seats db';
  gw_pins : ct_Pins db' = ct_Pins db;
  gw_drawn : (ct_Drawn db ≤ ct_Drawn db')%nat;
}.

#[export] Instance Grow_refl : Reflexive Grow.
Proof. by split. Qed.

#[export] Instance Grow_trans : Transitive Grow.
Proof. intros a b c [] []. split; [congruence|by etrans..|congruence|lia]. Qed.

Lemma insert_section_Grow s db db' id : insert_section s db = Ok (db', id) → Grow db db'.
Proof. intros (_ & Hn & _ & _ & ->)%insert_into_Ok. split; cbn; try done; [by apply insert_subseteq|lia]. Qed.

Lemma insert_row_Grow r db db' id : insert_row r db = Ok (db', id) → Grow db db'.
Proof. intros (_ & Hn & _ & _ & ->)%insert_into_Ok. split; cbn; try done; [by apply insert_subseteq|lia]. Qed.

Lemma insert_seat_Grow s db db' id : insert_seat s db = Ok (db', id) → Grow db db'.
Proof. intros (_ & Hn & _ & _ & ->)%insert_into_Ok. split; cbn; try done; [by apply insert_subseteq|lia]. Qed.

Lemma write_Grow i db db' id : write i db = Ok (db', id) → Grow db db'.
Proof. unfold write. destruct i; intros H%conflict_Ok; [by eapply insert_section_Grow|by eapply insert_row_Grow|by eapply insert_seat_Grow]. Qed.

Lemma fold_Grow {A} (step : MapDB → A → result SeatMapError MapDB) l : (∀ db x db', step db x = Ok db' → Grow db db') →
  ∀ db db', fold_result step db l = Ok db' → Grow db db'.
Proof.
  intros Hs. induction l as [|x l IH]; cbn; intros db db'; [by intros [= <-]|]. destruct (step db x) as [db1|] eqn:H; [|done].
  intros H2. etrans; [by eapply Hs|by apply IH].
Qed.

Lemma clone_seat_Grow org map section label row db seat db' : clone_seat org map section label row db seat = Ok db' → Grow db db'.
Proof. unfold clone_seat. intros ([db1 id] & H%conflict_Ok & [= <-])%bind_Ok. by eapply insert_seat_Grow. Qed.

Lemma clone_row_Grow org map name section db r db' : clone_row org map name section db r = Ok db' → Grow db db'.
Proof.
  unfold clone_row. intros ([db1 id] & H%conflict_Ok & Hf)%bind_Ok. etrans; [by eapply insert_row_Grow|].
  eapply fold_Grow, Hf. intros *. apply clone_seat_Grow.
Qed.

Lemma clone_section_Grow org map db s db' : clone_section org map db s = Ok db' → Grow db db'.
Proof.
  unfold clone_section. intros ([db1 id] & H%conflict_Ok & Hf)%bind_Ok. etrans; [by eapply insert_section_Grow|].
  eapply fold_Grow, Hf. intros *. apply clone_row_Grow.
Qed.

Lemma has_seat_mono map identity db db' : ct_Seats db ⊆ ct_Seats db' → has_seat map identity db = true → has_seat map identity db' = true.
Proof. unfold has_seat. apply some_row_subseteq. Qed.

(** ** Versions *)

Record Versions db : Prop := {
  vs_drawn id m : ct_Maps db !! id = Some m → ∃ k, (k < ct_Drawn db)%nat ∧ sm_Family m = gen_random_uuid k;
  vs_distinct : Distinct map_clash (ct_Maps db);
  vs_range id m : ct_Maps db !! id = Some m → 0 < sm_Version m ≤ MaxInt32;
  vs_org i j a b : ct_Maps db !! i = Some a → ct_Maps db !! j = Some b → sm_Family a = sm_Family b → sm_OrganizerID a = sm_OrganizerID b;
  vs_draft i j a b : ct_Maps db !! i = Some a → ct_Maps db !! j = Some b → sm_Family a = sm_Family b → sm_Status a = StatusDraft → i = j;
}.

(** The version of a family that a pin is judged by. *)
Record Current (family org : uuid) db (id : uuid) (m : SeatMap) : Prop := {
  cu_map : ct_Maps db !! id = Some m;
  cu_family : sm_Family m = family;
  cu_org : sm_OrganizerID m = org;
  cu_published : sm_Status m = StatusPublished;
  cu_newest j o : ct_Maps db !! j = Some o → sm_Family o = family → sm_OrganizerID o = org → sm_Status o = StatusPublished →
    sm_Version o ≤ sm_Version m;
}.

Lemma elem_of_versions family org published db v : v ∈ family_versions family org published db ↔
  ct_Maps db !! v.1 = Some v.2 ∧ sm_Family v.2 = family ∧ sm_OrganizerID v.2 = org ∧ (published = true → sm_Status v.2 = StatusPublished).
Proof.
  unfold family_versions. rewrite elem_of_bool_filter. destruct v as [id m]. rewrite elem_of_map_to_list. cbn.
  rewrite !andb_true_iff, orb_true_iff, negb_true_iff, !bool_decide_eq_true. destruct published; naive_solver.
Qed.

Lemma sorted_head {A} (less : A → A → bool) `{!LessOrder less} l x : head (isort less l) = Some x → x ∈ l ∧ ∀ y, y ∈ l → less y x = false.
Proof.
  intros Hh. destruct (isort less l) as [|z k] eqn:E; [done|]. injection Hh as ->.
  assert (Hx : x ∈ isort less l) by (rewrite E; apply list_elem_of_here). rewrite elem_of_isort in Hx. split; [done|].
  intros y Hy. rewrite <-(elem_of_isort less), E in Hy. pose proof (isort_sorted less l) as Hs. rewrite E in Hs. apply StronglySorted_inv in Hs as [_ Hs].
  apply list.elem_of_cons in Hy as [->|Hy]; [by apply less_irrefl|]. rewrite List.Forall_forall in Hs. by apply Hs, list_elem_of_In.
Qed.

#[local] Instance version_before_less : LessOrder version_before.
Proof. apply on_key_less, _. Qed.

Lemma current_version_Some family org db id m : current_version family org db = Some (id, m) → Current family org db id m.
Proof.
  intros [Hin Hmax]%(sorted_head version_before). apply elem_of_versions in Hin as (Hm & Hf & Ho & Hp). cbn in *. split; [done..|by apply Hp|].
  intros j o Hj Hfo Hoo Hpo. specialize (Hmax (j, o)). unfold version_before, on_key in Hmax. cbn in Hmax.
  apply Z.ltb_ge in Hmax; [lia|]. by apply elem_of_versions.
Qed.

Lemma current_version_iff family org db id m : Versions db → current_version family org db = Some (id, m) ↔ Current family org db id m.
Proof.
  intros Hv. split; [apply current_version_Some|]. intros Hc. destruct (current_version family org db) as [[j o]|] eqn:E.
  - apply current_version_Some in E. destruct (decide (j = id)) as [->|Hne]; [destruct Hc, E; congruence|]. exfalso.
    pose proof (cu_newest _ _ _ _ _ Hc j o (cu_map _ _ _ _ _ E) (cu_family _ _ _ _ _ E) (cu_org _ _ _ _ _ E) (cu_published _ _ _ _ _ E)) as H1.
    pose proof (cu_newest _ _ _ _ _ E id m (cu_map _ _ _ _ _ Hc) (cu_family _ _ _ _ _ Hc) (cu_org _ _ _ _ _ Hc) (cu_published _ _ _ _ _ Hc)) as H2.
    pose proof (vs_distinct _ Hv j id o m (cu_map _ _ _ _ _ E) (cu_map _ _ _ _ _ Hc) Hne) as Hd. unfold map_clash in Hd.
    rewrite (cu_family _ _ _ _ _ Hc), (cu_family _ _ _ _ _ E), bool_decide_true in Hd by done. cbn in Hd. lia.
  - exfalso. unfold current_version in E. destruct (isort version_before _) eqn:Hs; [|done].
    assert (Hin : (id, m) ∈ family_versions family org true db) by (apply elem_of_versions; destruct Hc; cbn; auto).
    rewrite <-(elem_of_isort version_before), Hs in Hin. by apply not_elem_of_nil in Hin.
Qed.

Lemma current_unique family org db i j a b : Versions db → Current family org db i a → Current family org db j b → i = j ∧ a = b.
Proof. intros Hv H1%(current_version_iff _ _ _ _ _ Hv) H2%(current_version_iff _ _ _ _ _ Hv). rewrite H1 in H2. by injection H2. Qed.

(** ** What pins hold on to *)

Definition Pinned db (p : PinRow) : Prop := ∃ id m, Current (pn_Family p) (pn_OrganizerID p) db id m ∧ has_seat id (pn_Identity p) db = true.

Record MapInv db : Prop := {
  mi_versions : Versions db;
  mi_pins k p : ct_Pins db !! k = Some p → Pinned db p;
}.

Lemma Current_same family org db db' id m : ct_Maps db' = ct_Maps db → Current family org db id m → Current family org db' id m.
Proof. intros Hm []. split; rewrite ?Hm; done. Qed.

Lemma Versions_same db db' : ct_Maps db' = ct_Maps db → (ct_Drawn db ≤ ct_Drawn db')%nat → Versions db → Versions db'.
Proof.
  intros Hm Hd [H1 H2 H3 H4 H5]. split; rewrite ?Hm; try done. intros id m H. destruct (H1 id m H) as (k & ? & ?). exists k. split; [lia|done].
Qed.

Lemma Pinned_same db db' p : ct_Maps db' = ct_Maps db → ct_Seats db ⊆ ct_Seats db' → Pinned db p → Pinned db' p.
Proof. intros Hm Hs (id & m & Hc & Hh). exists id, m. split; [by eapply Current_same|by eapply has_seat_mono]. Qed.

(** What leaves the maps alone and only adds seats keeps pinned what was. *)
Lemma MapInv_quiet db db' : ct_Maps db' = ct_Maps db → ct_Seats db ⊆ ct_Seats db' → (ct_Drawn db ≤ ct_Drawn db')%nat →
  (∀ k p, ct_Pins db' !! k = Some p → ct_Pins db !! k = Some p ∨ Pinned db' p) → MapInv db → MapInv db'.
Proof.
  intros Hm Hs Hd Hp [Hv Hpin]. split; [by eapply Versions_same|]. intros k p H. destruct (Hp k p H) as [Hold|?]; [|done].
  eapply Pinned_same; [done|done|by eapply Hpin].
Qed.

Lemma MapInv_grow db db' : Grow db db' → MapInv db → MapInv db'.
Proof. intros [Hm _ _ Hs Hp Hd]. apply MapInv_quiet; try done. intros k p. rewrite Hp. by left. Qed.

(** ** One request *)

Lemma fold_result_keeps {E S A} (P : S → Prop) (step : S → A → result E S) l : (∀ s x s', P s → step s x = Ok s' → P s') →
  ∀ s s', P s → fold_result step s l = Ok s' → P s'.
Proof.
  intros Hs. induction l as [|x l IH]; cbn; intros s s' Hp; [by intros [= <-]|]. destruct (step s x) as [s1|] eqn:H; [|done].
  apply IH. by eapply Hs.
Qed.

(** A row of the maps that stays in its family, at its version. *)
Lemma Versions_retouch db map m m' : ct_Maps db !! map = Some m → sm_Family m' = sm_Family m → sm_Version m' = sm_Version m →
  sm_OrganizerID m' = sm_OrganizerID m → (sm_Status m' = StatusDraft → sm_Status m = StatusDraft) → Versions db →
  Versions (with_maps (<[map := m']>) db).
Proof.
  intros Hm Hf Hve Ho Hst [H1 H2 H3 H4 H5].
  assert (Hold : ∀ i a', <[map := m']> (ct_Maps db) !! i = Some a' → ∃ a, ct_Maps db !! i = Some a ∧ sm_Family a' = sm_Family a ∧
    sm_Version a' = sm_Version a ∧ sm_OrganizerID a' = sm_OrganizerID a ∧ (sm_Status a' = StatusDraft → sm_Status a = StatusDraft)).
  { intros i a'. destruct (decide (i = map)) as [->|Hne]; [rewrite lookup_insert_eq; intros [= <-]; by exists m|rewrite lookup_insert_ne by done; by exists a']. }
  split; cbn.
  - intros i a' (a & Ha & -> & _)%Hold. by eapply H1.
  - intros i j a' b' (a & Ha & Hfa & Hva & _)%Hold (b & Hb & Hfb & Hvb & _)%Hold Hne. unfold map_clash. rewrite Hfa, Hfb, Hva, Hvb.
    exact (H2 i j a b Ha Hb Hne).
  - intros i a' (a & Ha & _ & -> & _)%Hold. by eapply H3.
  - intros i j a' b' (a & Ha & Hfa & _ & Hoa & _)%Hold (b & Hb & Hfb & _ & Hob & _)%Hold. rewrite Hfa, Hfb, Hoa, Hob. by apply (H4 i j).
  - intros i j a' b' (a & Ha & Hfa & _ & _ & Hda)%Hold (b & Hb & Hfb & _)%Hold. rewrite Hfa, Hfb. intros Hff Hd. by apply (H5 i j a b); auto.
Qed.

Lemma Versions_new db db' id m : Versions db → ct_Maps db !! id = None → ct_Maps db' = <[id := m]> (ct_Maps db) → (ct_Drawn db ≤ ct_Drawn db')%nat →
  (∃ k, (k < ct_Drawn db')%nat ∧ sm_Family m = gen_random_uuid k) → 0 < sm_Version m ≤ MaxInt32 →
  (∀ j o, ct_Maps db !! j = Some o → map_clash m o = false) →
  (∀ j o, ct_Maps db !! j = Some o → sm_Family o = sm_Family m → sm_OrganizerID o = sm_OrganizerID m ∧ sm_Status o ≠ StatusDraft ∧ sm_Status m ≠ StatusDraft) →
  Versions db'.
Proof.
  intros [H1 H2 H3 H4 H5] Hn Hm Hd Hk Hr Hc Hf. split; rewrite ?Hm.
  - intros i a. destruct (decide (i = id)) as [->|Hne]; [by rewrite lookup_insert_eq; intros [= <-]|rewrite lookup_insert_ne by done].
    intros (k & ? & ?)%H1. exists k. split; [lia|done].
  - apply distinct_insert; [apply map_clash_sym|done..].
  - intros i a. destruct (decide (i = id)) as [->|Hne]; [by rewrite lookup_insert_eq; intros [= <-]|rewrite lookup_insert_ne by done; apply H3].
  - intros i j a b. destruct (decide (i = id)) as [->|Hi], (decide (j = id)) as [->|Hj]; rewrite ?lookup_insert_eq, ?(lookup_insert_ne _ id) by done.
    + congruence.
    + intros [= <-] Hb Hff. symmetry. by eapply Hf.
    + intros Ha [= <-] Hff. by eapply Hf.
    + apply (H4 i j).
  - intros i j a b. destruct (decide (i = id)) as [->|Hi], (decide (j = id)) as [->|Hj]; rewrite ?lookup_insert_eq, ?(lookup_insert_ne _ id) by done.
    + done.
    + intros [= <-] Hb Hff Hda. by destruct (Hf j b Hb (eq_sym Hff)) as (_ & _ & ?).
    + intros Ha [= <-] Hff Hda. by destruct (Hf i a Ha Hff) as (_ & ? & _).
    + apply (H5 i j).
Qed.

Lemma create_inv `{!RandomIDsLaws} now org venue name orphan db db' id : CreateSeatMap now org venue name orphan db = Ok (db', id) → MapInv db → MapInv db'.
Proof.
  unfold CreateSeatMap. intros Hcr [Hv Hp]. destruct (ct_Venues db !! venue) as [v|]; [|done]. destruct (negb _); [done|].
  destruct (insert_map _ _) as [[db1 id1]|] eqn:Hi; [|done]. injection Hcr as <- <-. apply insert_into_Ok in Hi as (_ & Hn & Hc & _ & ->). cbn in Hn, Hc.
  set (m := {| sm_OrganizerID := org |}) in *. set (db' := with_maps _ _).
  assert (Hfresh : ∀ j o, ct_Maps db !! j = Some o → sm_Family o ≠ sm_Family m).
  { intros j o (k & Hk & ->)%(vs_drawn _ Hv). cbn. intros He%(inj gen_random_uuid). lia. }
  assert (Hnew : Versions db').
  { apply (Versions_new db db' id1 m); try done; cbn; try lia.
    - exists (ct_Drawn db). split; [lia|done].
    - intros j o Hj Hf. by destruct (Hfresh j o Hj). }
  split; [done|]. intros k p Hk. destruct (Hp k p Hk) as (cur & mc & [Hcm Hcf Hco Hcp Hcn] & Hs). exists cur, mc. split; [|done]. split; try done.
  - cbn. rewrite lookup_insert_ne; [done|]. intros ->. by rewrite Hn in Hcm.
  - cbn. intros j o. destruct (decide (j = id1)) as [->|Hne]; [by rewrite lookup_insert_eq; intros [= <-]|rewrite lookup_insert_ne by done; apply Hcn].
Qed.

Lemma flip_inv now org map db : MapInv db → MapInv (flip now org map db).
Proof.
  intros [Hv Hp]. unfold flip. destruct (ct_Maps db !! map) as [m|] eqn:Hm; [|done]. destruct (draft_of org map db && _) eqn:Hd; [|done].
  apply andb_prop in Hd as [Hd _]. unfold draft_of in Hd. rewrite Hm in Hd. apply andb_prop in Hd as [_ Hd%bool_decide_eq_true].
  split; [by apply (Versions_retouch db map m)|]. intros k p Hk. destruct (Hp k p Hk) as (cur & mc & [Hcm Hcf Hco Hcp Hcn] & Hs).
  assert (Hother : ∀ o, ct_Maps db !! cur = Some o → sm_Family m ≠ pn_Family p).
  { intros o Ho Hf. assert (map = cur) as -> by (apply (vs_draft _ Hv map cur m mc); congruence). congruence. }
  exists cur, mc. split; [|done]. split; try done; cbn.
  - rewrite lookup_insert_ne; [done|]. intros ->. congruence.
  - intros j o. destruct (decide (j = map)) as [->|Hne]; [|rewrite lookup_insert_ne by done; apply Hcn].
    rewrite lookup_insert_eq. intros [= <-]. cbn. intros Hf. by destruct (Hother mc Hcm).
Qed.

Lemma mark_inv now map db : MapInv db → MapInv (MarkSeatMapEventEmitted now map db).
Proof.
  intros [Hv Hp]. unfold MarkSeatMapEventEmitted. destruct (ct_Maps db !! map) as [m|] eqn:Hm; [|done].
  split; [by apply (Versions_retouch db map m)|]. intros k p Hk. destruct (Hp k p Hk) as (cur & mc & [Hcm Hcf Hco Hcp Hcn] & Hs).
  assert (Hn : ∀ mc', sm_Version mc' = sm_Version mc → ∀ j o, <[map := set_emitted now m]> (ct_Maps db) !! j = Some o → sm_Family o = pn_Family p →
    sm_OrganizerID o = pn_OrganizerID p → sm_Status o = StatusPublished → sm_Version o ≤ sm_Version mc').
  { intros mc' -> j o. destruct (decide (j = map)) as [->|Hne]; [rewrite lookup_insert_eq; intros [= <-]; cbn; by apply (Hcn map m)|].
    rewrite lookup_insert_ne by done. apply Hcn. }
  destruct (decide (cur = map)) as [->|Hne].
  - assert (mc = m) as -> by congruence. exists map, (set_emitted now m). split; [|done]. split; try done; [cbn; apply lookup_insert_eq|by apply Hn].
  - exists cur, mc. split; [|done]. split; try done; [cbn; by rewrite lookup_insert_ne|by apply Hn].
Qed.

(** ** Pins *)

Lemma lock_Current map org db id v family : lockCurrentPublishedVersion map org db = Ok (id, v, family) → ∃ m, Current family org db id m ∧ sm_Version m = v.
Proof.
  unfold lockCurrentPublishedVersion. destruct (resolve_family map org db); [|done]. destruct (current_version _ _ _) as [[j m]|] eqn:Hc; [|done].
  intros [= <- <- <-]. exists m. split; [by apply current_version_Some|done].
Qed.

Lemma pin_one_inv org cur family pinnedBy m db seat db' : pin_one org cur family pinnedBy db seat = Ok db' →
  MapInv db ∧ Current family org db cur m → MapInv db' ∧ Current family org db' cur m.
Proof.
  unfold pin_one, insert_pin. destruct (has_seat cur seat db) eqn:Hs; [|done]. cbn [negb].
  destruct (insert_into _ _ _ _ _ _) as [[db1 id]|[]] eqn:Hin; [|destruct (some_row _ _); [by intros [= <-]|done]|done].
  intros [= <-] [Hi Hc]. apply insert_into_Ok in Hin as (_ & Hn & _ & _ & ->). split; [|by apply (Current_same _ _ db)].
  eapply (MapInv_quiet db); try done; cbn; [lia|]. intros k p. destruct (decide (k = id)) as [->|Hne].
  - rewrite lookup_insert_eq. intros [= <-]. right. exists cur, m. split; [by apply (Current_same _ _ db)|done].
  - rewrite lookup_insert_ne by done. by left.
Qed.

Lemma PinSeats_inv org map identities pinnedBy db db' : PinSeats org map identities pinnedBy db = Ok db' → MapInv db → MapInv db'.
Proof.
  unfold PinSeats. case_bool_decide; [by intros [= <-]|]. intros (((cur & v) & family) & (m & Hc & _)%lock_Current & Hf)%bind_Ok Hi.
  eapply (fold_result_keeps (λ db, MapInv db ∧ Current family org db cur m)) in Hf; [apply Hf| |done].
  intros s x s' Hp Hst. by eapply pin_one_inv.
Qed.

Lemma PinSeat_inv org map seat pinnedBy db db' : PinSeat org map seat pinnedBy db = Ok db' → MapInv db → MapInv db'.
Proof.
  unfold PinSeat. intros (((cur & v) & family) & (m & Hc & _)%lock_Current & Hf)%bind_Ok Hi. by eapply pin_one_inv.
Qed.

Lemma unpin_one_inv org family pinnedBy db seat : MapInv db → MapInv (unpin_one org family pinnedBy db seat).
Proof. apply MapInv_quiet; try done. intros k p [Hk _]%map_lookup_filter_Some. by left. Qed.

Lemma unpins_inv org family pinnedBy l : ∀ db, MapInv db → MapInv (foldl (unpin_one org family pinnedBy) db l).
Proof. induction l as [|x l IH]; cbn; intros db Hi; [done|]. by apply IH, unpin_one_inv. Qed.

(** ** Edits *)

Lemma fold_result_union {A} (step : gset string → A → result SeatMapError (gset string)) (f : A → list string) l :
  (∀ seen x seen', step seen x = Ok seen' → seen' = list_to_set (f x) ∪ seen) →
  ∀ seen seen', fold_result step seen l = Ok seen' → seen' = list_to_set (List.concat (map f l)) ∪ seen.
Proof.
  intros Hs. induction l as [|x l IH]; cbn; intros seen seen'; [intros [= <-]; set_solver|]. destruct (step seen x) as [s1|] eqn:Hx; [|done].
  intros ->%IH. rewrite (Hs _ _ _ Hx), list_to_set_app_L. set_solver.
Qed.

Lemma list_concat_single {A B} (f : A → B) l : List.concat (map (λ x, [f x]) l) = map f l.
Proof. induction l as [|x l IH]; cbn; [done|]. by rewrite IH. Qed.

Lemma ComposeSeatIdentity_Ok section row seat x : ComposeSeatIdentity section row seat = Ok x → x = joined section row seat.
Proof. unfold ComposeSeatIdentity. destruct (_ <? _)%nat; [done|]. by intros [= <-]. Qed.

Lemma compose_all_Ok sections identities : compose_all sections = Ok identities → identities = list_to_set (submitted sections).
Proof.
  unfold compose_all. intros Hf. apply (fold_result_union _ section_submitted) in Hf; [set_solver|]. clear. intros seen s seen' Hf.
  apply (fold_result_union _ (row_submitted (es_Name s))) in Hf; [done|]. clear. intros seen r seen' Hf.
  apply (fold_result_union _ (λ seat, [joined (es_Name s) (er_Label r) (ei_Label seat)])) in Hf; [by rewrite list_concat_single in Hf|].
  clear. intros seen seat seen' (x & ->%ComposeSeatIdentity_Ok & [= <-])%bind_Ok. set_solver.
Qed.

(** Every seat that was submitted is a seat of the new version. *)
Lemma fold_result_reaches {A} (step : MapDB → A → result SeatMapError MapDB) (Q : A → MapDB → Prop) l :
  (∀ db x db', step db x = Ok db' → Grow db db' ∧ Q x db') → (∀ x db db', Grow db db' → Q x db → Q x db') →
  ∀ db db', fold_result step db l = Ok db' → ∀ x, x ∈ l → Q x db'.
Proof.
  intros Hs Hq. induction l as [|y l IH]; cbn; intros db db' Hf x; [by intros ?%not_elem_of_nil|]. destruct (step db y) as [db1|] eqn:Hy; [|done].
  intros [->|Hx]%list.elem_of_cons; [|by eapply IH]. eapply Hq; [|by eapply Hs]. eapply fold_Grow; [|exact Hf]. intros *. apply Hs.
Qed.

Lemma clone_seat_has org map section label row db seat db' : clone_seat org map section label row db seat = Ok db' →
  has_seat map (joined section label (ei_Label seat)) db' = true.
Proof.
  unfold clone_seat. intros ([db1 id] & Hi%conflict_Ok & [= <-])%bind_Ok. apply insert_into_Ok in Hi as (_ & _ & _ & _ & ->).
  unfold has_seat. apply some_row_true. eexists id, _. cbn. rewrite lookup_insert_eq. split; [done|]. cbn. by rewrite !bool_decide_true.
Qed.

Lemma clone_row_has org map name section db r db' : clone_row org map name section db r = Ok db' →
  ∀ x, x ∈ row_submitted name r → has_seat map x db' = true.
Proof.
  unfold clone_row. intros ([db1 id] & _ & Hf)%bind_Ok x (seat & <- & Hseat%list_elem_of_In)%list_elem_of_In%in_map_iff.
  eapply (fold_result_reaches _ (λ seat db, has_seat map (joined name (er_Label r) (ei_Label seat)) db = true)); [| |exact Hf|exact Hseat].
  - intros d y d' Hs. split; [by eapply clone_seat_Grow|by eapply clone_seat_has].
  - intros y d d' Hg. apply has_seat_mono, Hg.
Qed.

Lemma clone_section_has org map db s db' : clone_section org map db s = Ok db' → ∀ x, x ∈ section_submitted s → has_seat map x db' = true.
Proof.
  unfold clone_section. intros ([db1 id] & _ & Hf)%bind_Ok x (xs & (r & <- & Hr%list_elem_of_In)%in_map_iff & Hx%list_elem_of_In)%list_elem_of_In%in_concat.
  eapply (fold_result_reaches _ (λ r db, ∀ x, x ∈ row_submitted (es_Name s) r → has_seat map x db = true)); [| |exact Hf|exact Hr|exact Hx].
  - intros d y d' Hs. split; [by eapply clone_row_Grow|by eapply clone_row_has].
  - intros y d d' Hg Hy z Hz. eapply has_seat_mono; [apply Hg|by apply Hy].
Qed.

Lemma clone_all_has org map sections db db' : fold_result (clone_section org map) db sections = Ok db' →
  ∀ x, x ∈ submitted sections → has_seat map x db' = true.
Proof.
  intros Hf x (xs & (s & <- & Hs%list_elem_of_In)%in_map_iff & Hx%list_elem_of_In)%list_elem_of_In%in_concat.
  eapply (fold_result_reaches _ (λ s db, ∀ x, x ∈ section_submitted s → has_seat map x db = true)); [| |exact Hf|exact Hs|exact Hx].
  - intros d y d' Hc. split; [by eapply clone_section_Grow|by eapply clone_section_has].
  - intros y d d' Hg Hy z Hz. eapply has_seat_mono; [apply Hg|by apply Hy].
Qed.

(** An edit that goes through: the version it replaced, the pins it was judged by,
    the new version's row, and the tree under it. *)
Lemma EditSeatMap_Ok now i db db' new : EditSeatMap now i db = Ok (db', new) → ∃ cur m family db1,
  Current family (ed_OrganizerID i) db cur m ∧
  (∀ p k, ct_Pins db !! k = Some p → pn_Family p = family → pn_Identity p ∈ submitted (ed_Sections i)) ∧
  submitted (ed_Sections i) ≠ [] ∧
  insert_map (next_version now (ed_Orphan i) m) db = Ok (db1, new) ∧
  fold_result (clone_section (ed_OrganizerID i) new) db1 (ed_Sections i) = Ok db'.
Proof.
  unfold EditSeatMap. intros (identities & Hids%compose_all_Ok & Hr)%bind_Ok. case_bool_decide as Hne; [done|].
  apply bind_Ok in Hr as (((cur & v) & family) & (m & Hc & _)%lock_Current & Hr). destruct (forallb _ _) eqn:Hp; [|done]. cbn [negb] in Hr.
  rewrite (cu_map _ _ _ _ _ Hc) in Hr. destruct (insert_map _ _) as [[db1 id]|] eqn:Hi; [|done]. apply bind_Ok in Hr as (db2 & Hf & [= -> ->]).
  exists cur, m, family, db1. split_and!; try done.
  - intros p k Hk Hfam. rewrite forallb_forall in Hp. specialize (Hp (pn_Identity p)). rewrite bool_decide_eq_true, Hids, elem_of_list_to_set in Hp.
    apply Hp, in_map, list_elem_of_In, elem_of_rows_where. split; [by apply bool_decide_eq_true|by exists k].
  - intros Hs. apply Hne. by rewrite Hids, Hs.
Qed.

Lemma next_version_step now flag m : sm_Version m ≤ MaxInt32 → 0 < sm_Version (next_version now flag m) → 0 ≤ sm_Version m →
  sm_Version (next_version now flag m) = sm_Version m + 1 ∧ sm_Version m + 1 ≤ MaxInt32.
Proof.
  cbn. intros Hmax Hpos Hnn. destruct (decide (sm_Version m + 1 ≤ MaxInt32)) as [Hle|Hgt].
  - split; [|done]. apply wrap32_id. unfold int32, MinInt32 in *. lia.
  - exfalso. replace (sm_Version m + 1) with 2147483648 in Hpos by (unfold MaxInt32 in *; lia). vm_compute in Hpos. done.
Qed.

Lemma edit_inv now i db db' new : EditSeatMap now i db = Ok (db', new) → MapInv db → MapInv db'.
Proof.
  intros (cur & m & family & db1 & Hc & Hpins & _ & Hi & Hf)%EditSeatMap_Ok [Hv Hp]. pose proof Hc as [Hcm Hcf Hco Hcp Hcn].
  assert (Hg : Grow db1 db') by (eapply fold_Grow; [|exact Hf]; intros *; apply clone_section_Grow).
  apply insert_into_Ok in Hi as (Hcheck & Hn & Hclash & Hid & ->). apply Z.ltb_lt in Hcheck.
  destruct (next_version_step now (ed_Orphan i) m) as [Hver Hmax]; [by eapply vs_range|done|by apply Z.lt_le_incl; eapply vs_range|].
  set (m' := next_version now (ed_Orphan i) m) in *. set (db1 := with_maps _ _) in *.
  assert (Hmaps : ct_Maps db' = <[new := m']> (ct_Maps db)) by apply Hg.
  assert (Hother : ∀ j o, ct_Maps db !! j = Some o → sm_Family o = family → sm_OrganizerID o = ed_OrganizerID i ∧ sm_Status o ≠ StatusDraft).
  { intros j o Hj Hfo. split; [rewrite <-Hco; apply (vs_org _ Hv j cur o m); congruence|]. intros Hd.
    assert (j = cur) as -> by (apply (vs_draft _ Hv j cur o m); congruence). congruence. }
  split.
  - apply (Versions_new db db' new m'); try done.
    + pose proof (gw_drawn _ _ Hg) as Hd. cbn in Hd. lia.
    + destruct (vs_drawn _ Hv cur m Hcm) as (k & Hk & Hfk). exists k. split; [|by rewrite <-Hfk]. pose proof (gw_drawn _ _ Hg) as Hd. cbn in Hd. lia.
    + lia.
    + intros j o Hj Hfo. cbn in Hfo. rewrite Hcf in Hfo. destruct (Hother j o Hj Hfo). split_and!; [by cbn; rewrite Hco|done|done].
  - intros k p Hk. rewrite (gw_pins _ _ Hg) in Hk. cbn in Hk. destruct (Hp k p Hk) as (cur0 & m0 & Hc0 & Hs0).
    destruct (decide (pn_Family p = family)) as [Hpf|Hpf].
    + exists new, m'. split.
      * assert (Hpo : pn_OrganizerID p = ed_OrganizerID i).
        { rewrite <-(cu_org _ _ _ _ _ Hc0). apply (Hother cur0 m0 (cu_map _ _ _ _ _ Hc0)). by rewrite (cu_family _ _ _ _ _ Hc0). }
        split; try done; [by rewrite Hmaps, lookup_insert_eq|by cbn; rewrite Hcf|by cbn; rewrite Hco|].
        rewrite Hmaps, Hpf, Hpo. intros j o. destruct (decide (j = new)) as [->|Hne]; [by rewrite lookup_insert_eq; intros [= <-]|].
        rewrite lookup_insert_ne by done. intros Hj Hfo Hoo Hpub. specialize (Hcn j o Hj Hfo Hoo Hpub). lia.
      * eapply clone_all_has; [exact Hf|by eapply Hpins].
    + exists cur0, m0. destruct Hc0 as [H1 H2 H3 H4 H5]. split; [split; try done|].
      * rewrite Hmaps, lookup_insert_ne; [done|]. intros ->. congruence.
      * rewrite Hmaps. intros j o. destruct (decide (j = new)) as [->|Hne]; [|rewrite lookup_insert_ne by done; apply H5].
        rewrite lookup_insert_eq. intros [= <-]. cbn. intros Hff. congruence.
      * eapply has_seat_mono; [|exact Hs0]. apply (gw_seats _ _ Hg).
Qed.

(** ** Every run *)

Lemma after_result_inv n r : MapInv (mn_db n) → (∀ db, r = Ok db → MapInv db) → MapInv (mn_db (after_result n r)).
Proof. destruct r; cbn; auto. Qed.

Lemma perform_map_inv `{RL : !RandomIDsLaws} op n : MapInv (mn_db n) → MapInv (mn_db (perform_map op n)).
Proof.
  intros Hi. destruct op; cbn -[write]; try (apply after_result_inv; [done|intros db Hdb]).
  - by apply (MapInv_quiet (mn_db n)); auto.
  - apply bind_Ok in Hdb as ([db1 id] & Hc & [= <-]). by eapply create_inv.
  - by destruct (read_section _ _ _ _ _).
  - by destruct (read_row _ _ _ _ _ _).
  - by destruct (resolve_seat _ _ _ _ _).
  - destruct (mn_resolved n !! k) as [v|]; [|done]. by destruct (read_seat _ _ _ _ _ _ _).
  - destruct (mn_writing n !! k) as [i|]; [|done]. apply after_result_inv; [done|]. intros db ([db1 id] & Hw & [= <-])%bind_Ok.
    eapply MapInv_grow; [by eapply write_Grow|done].
  - by apply flip_inv.
  - by apply mark_inv.
  - apply bind_Ok in Hdb as ([db1 id] & Hc & [= <-]). by eapply edit_inv.
  - by eapply PinSeat_inv.
  - by eapply PinSeats_inv.
  - unfold UnpinSeat in Hdb. destruct (resolve_family _ _ _); [|done]. injection Hdb as <-. by apply unpin_one_inv.
  - unfold UnpinSeats in Hdb. case_bool_decide; [by injection Hdb as <-|]. destruct (resolve_family _ _ _); [|done]. injection Hdb as <-. by apply unpins_inv.
Qed.

Lemma no_maps_inv : MapInv (mn_db no_maps).
Proof. split; [split|]; cbn; intros *; by rewrite ?lookup_empty. Qed.

Lemma run_maps_inv `{RL : !RandomIDsLaws} l : ∀ n, MapInv (mn_db n) → MapInv (mn_db (run_maps l n)).
Proof. induction l as [|op l IH]; cbn; intros n Hi; [done|]. by apply IH, perform_map_inv. Qed.

(** C7 (invariant). A pinned seat stays on the map. In every run of requests on
    seat maps, whatever pins, edits, publications and half-finished additions lie
    between, the seat of every pin is a seat of the version of its family that is
    current: that version exists, it is published, it is the newest of the
    published ones, and it holds a seat of exactly this identity. *)
Theorem pinned_seat_is_published `{RL : !RandomIDsLaws} l k p : ct_Pins (mn_db (run_maps l no_maps)) !! k = Some p →
  ∃ id m, current_version (pn_Family p) (pn_OrganizerID p) (mn_db (run_maps l no_maps)) = Some (id, m) ∧
    sm_Status m = StatusPublished ∧ has_seat id (pn_Identity p) (mn_db (run_maps l no_maps)) = true.
Proof.
  intros Hk. destruct (run_maps_inv l no_maps no_maps_inv) as [Hv Hp]. destruct (Hp k p Hk) as (id & m & Hc & Hs).
  exists id, m. split; [by apply current_version_iff|]. split; [apply Hc|done].
Qed.
End SeatMapSafety.

#[local] Existing Instance text_uuid.

(** The n-th id is n strokes. *)
Fixpoint strokes (n : nat) : string := match n with O => "" | S n => String (Ascii.ascii_of_nat 124) (strokes n) end.

#[local] Instance stroke_ids : @RandomIDs text_uuid := {| gen_random_uuid := strokes |}.

Lemma stroke_ids_laws : @RandomIDsLaws text_uuid stroke_ids.
Proof.
  split. intros a b H. assert (Hl : ∀ n, String.length (strokes n) = n) by (intros n; induction n; cbn; congruence).
  rewrite <-(Hl a), <-(Hl b). exact (f_equal String.length H).
Qed.

Definition arena : uuid := "arena"%string.
Definition house : uuid := "house"%string.
Definition hall : Venue := {| vn_OrganizerID := house; vn_Name := "hall"; vn_GACapacity := 10; vn_CreatedAt := 0 |}.

(** A map of two seats, written by hand: the map is the second id drawn, its
    section the third, its row the fourth, its seats the fifth and the sixth. *)
Definition drafted : list MapOp := [
  OpVenues {[arena := hall]}; OpCreate 1 house arena "hall" false;
  OpReadSection house (strokes 1) "S" 1; OpWrite 0; OpReadRow house (strokes 1) (strokes 2) "1" 1; OpWrite 0;
  OpResolveSeat house (strokes 1) (strokes 3) "1" 1; OpReadSeat 0; OpWrite 0;
  OpResolveSeat house (strokes 1) (strokes 3) "2" 2; OpReadSeat 0; OpWrite 0].

Definition edit_to (labels : list (string * Z)) : EditSeatMapInput := {|
  ed_OrganizerID := house; ed_SeatMapID := strokes 1; ed_Orphan := None; ed_Sections := [
    {| es_Name := "S"; es_Position := 1; es_Rows := [
      {| er_Label := "1"; er_Position := 1; er_Seats := map (λ l, {| ei_Label := l.1; ei_Position := l.2 |}) labels |}] |}] |}.

(** Two edits of a map with a pinned seat: one drops it and is refused, one keeps it. *)
Definition pinned_run : list MapOp := drafted ++ [
  OpPublish 2 house (strokes 1); OpPin house (strokes 1) "S/1/2" "hold:a";
  OpEdit 3 (edit_to [("1", 1)]); OpEdit 4 (edit_to [("3", 1); ("2", 2)])].

Example pinned_run_versions :
  map (λ v : uuid * SeatMap, (v.1, sm_Version v.2)) (isort version_before (map_to_list (ct_Maps (mn_db (run_maps pinned_run no_maps))))) =
    [(strokes 7, 2); (strokes 1, 1)] ∧
  EditSeatMap 5 (edit_to [("1", 1)]) (mn_db (run_maps pinned_run no_maps)) = Err ErrSeatMapEditOrphansPinned ∧
  PinSeat house (strokes 1) "S/1/1" "hold:b" (mn_db (run_maps pinned_run no_maps)) = Err ErrSeatIdentityNotFound.
Proof. vm_compute. auto. Qed.

Definition held_pin : PinRow := {| pn_OrganizerID := house; pn_Family := strokes 0; pn_Identity := "S/1/2"; pn_PinnedBy := "hold:a" |}.

Lemma pinned_seat_is_published_witness : ∃ id m,
  current_version (strokes 0 : uuid) house (mn_db (run_maps pinned_run no_maps)) = Some (id, m) ∧ sm_Status m = StatusPublished ∧
  has_seat id "S/1/2" (mn_db (run_maps pinned_run no_maps)) = true.
Proof.
  assert (Hk : ct_Pins (mn_db (run_maps pinned_run no_maps)) !! (strokes 6 : uuid) = Some held_pin) by (vm_compute; reflexivity).
  exact (@pinned_seat_is_published text_uuid stroke_ids stroke_ids_laws pinned_run (strokes 6) held_pin Hk).
Defined.
