(* ===== verification/SeatMapTrees.v ===== *)
(** * The trees of catalog's seat maps

    In every run of SeatMapSafety.v: parents are there and of the same map,
    positions and identities are unique, a published map has a seat. And a
    published version does not change any more, once no write half is on its way
    to it. *)

From S2P Require Import Prelude Text Tables.
From S2P Require Import SeatMaps SeatMapSafety.
#[local] Open Scope Z_scope.

Section SeatMapTrees.
Context `{UU : UUID} {RI : RandomIDs}.
Implicit Types (db : MapDB).

(** ** Trees *)

Definition section_there (section map : uuid) db : Prop := ∃ s, ct_Sections db !! section = Some s ∧ sc_Map s = map.
Definition row_there (row map : uuid) db : Prop := ∃ r, ct_Rows db !! row = Some r ∧ rw_Map r = map.

Record Trees db : Prop := {
  tr_section id s : ct_Sections db !! id = Some s → section_check s = true;
  tr_sections : Distinct section_clash (ct_Sections db);
  tr_row id r : ct_Rows db !! id = Some r → row_check r = true ∧ section_there (rw_Section r) (rw_Map r) db;
  tr_rows : Distinct row_clash (ct_Rows db);
  tr_seat id s : ct_Seats db !! id = Some s → seat_check s = true ∧ row_there (se_Row s) (se_Map s) db;
  tr_seats : Distinct seat_clash (ct_Seats db);
}.

(** What is about to be written has its parent. *)
Definition parent_there db (i : Insertion) : Prop :=
  match i with
  | InsertSection _ => True
  | InsertRow r => section_there (rw_Section r) (rw_Map r) db
  | InsertSeat s => row_there (se_Row s) (se_Map s) db
  end.

Lemma section_there_mono section map db db' : ct_Sections db ⊆ ct_Sections db' → section_there section map db → section_there section map db'.
Proof. intros Hs (s & Hl & Hm). exists s. split; [by eapply lookup_weaken|done]. Qed.

Lemma row_there_mono row map db db' : ct_Rows db ⊆ ct_Rows db' → row_there row map db → row_there row map db'.
Proof. intros Hs (s & Hl & Hm). exists s. split; [by eapply lookup_weaken|done]. Qed.

Lemma parent_mono i db db' : ct_Sections db ⊆ ct_Sections db' → ct_Rows db ⊆ ct_Rows db' → parent_there db i → parent_there db' i.
Proof. destruct i; cbn; eauto using section_there_mono, row_there_mono. Qed.

Lemma Trees_same db db' : ct_Sections db' = ct_Sections db → ct_Rows db' = ct_Rows db → ct_Seats db' = ct_Seats db → Trees db → Trees db'.
Proof.
  intros H1 H2 H3 []. split; rewrite ?H1, ?H2, ?H3; try done; unfold section_there, row_there; rewrite ?H1, ?H2; done.
Qed.

Lemma insert_section_trees s db db' id : insert_section s db = Ok (db', id) → Trees db → Trees db' ∧ section_there id (sc_Map s) db'.
Proof.
  intros Hi. pose proof (insert_section_Grow _ _ _ _ Hi) as Hg. apply insert_into_Ok in Hi as (Hc & Hn & Hcl & _ & ->). intros [T1 T2 T3 T4 T5 T6].
  split; [|exists s; split; [apply lookup_insert_eq|done]]. split; cbn; try done.
  - intros k x. destruct (decide (k = id)) as [->|Hne]; [by rewrite lookup_insert_eq; intros [= <-]|rewrite lookup_insert_ne by done; apply T1].
  - apply distinct_insert; [apply section_clash_sym|done..].
  - intros k r Hr. destruct (T3 k r Hr) as [? Ht]. split; [done|]. eapply section_there_mono, Ht. apply Hg.
Qed.

Lemma insert_row_trees r db db' id : insert_row r db = Ok (db', id) → section_there (rw_Section r) (rw_Map r) db → Trees db →
  Trees db' ∧ row_there id (rw_Map r) db'.
Proof.
  intros Hi. pose proof (insert_row_Grow _ _ _ _ Hi) as Hg. apply insert_into_Ok in Hi as (Hc & Hn & Hcl & _ & ->). intros Hp [T1 T2 T3 T4 T5 T6].
  split; [|exists r; split; [apply lookup_insert_eq|done]]. split; cbn; try done.
  - intros k x. destruct (decide (k = id)) as [->|Hne]; [by rewrite lookup_insert_eq; intros [= <-]|rewrite lookup_insert_ne by done; apply T3].
  - apply distinct_insert; [apply row_clash_sym|done..].
  - intros k s Hs. destruct (T5 k s Hs) as [? Ht]. split; [done|]. eapply row_there_mono, Ht. apply Hg.
Qed.

Lemma insert_seat_trees s db db' id : insert_seat s db = Ok (db', id) → row_there (se_Row s) (se_Map s) db → Trees db → Trees db'.
Proof.
  intros (Hc & Hn & Hcl & _ & ->)%insert_into_Ok Hp [T1 T2 T3 T4 T5 T6]. split; cbn; try done.
  - intros k x. destruct (decide (k = id)) as [->|Hne]; [by rewrite lookup_insert_eq; intros [= <-]|rewrite lookup_insert_ne by done; apply T5].
  - apply distinct_insert; [apply seat_clash_sym|done..].
Qed.

Lemma write_trees i db db' id : write i db = Ok (db', id) → parent_there db i → Trees db → Trees db'.
Proof.
  unfold write. destruct i; cbn; intros Hi%conflict_Ok Hp Ht.
  - by eapply insert_section_trees.
  - by eapply insert_row_trees.
  - by eapply insert_seat_trees.
Qed.

Lemma clone_row_trees org map name section db r db' : clone_row org map name section db r = Ok db' → section_there section map db ∧ Trees db →
  section_there section map db' ∧ Trees db'.
Proof.
  intros Hcl [Hs Ht]. pose proof (clone_row_Grow _ _ _ _ _ _ _ Hcl) as Hg. split; [by eapply section_there_mono; [apply Hg|]|].
  unfold clone_row in Hcl. apply bind_Ok in Hcl as ([db1 id] & Hi%conflict_Ok & Hf). apply insert_row_trees in Hi as [Ht1 Hr]; [|done..].
  apply (fold_result_keeps (λ db, row_there id map db ∧ Trees db)) in Hf; [apply Hf| |done].
  clear. intros db seat db' [Hr Ht] Hc. pose proof (clone_seat_Grow _ _ _ _ _ _ _ _ Hc) as Hg. unfold clone_seat in Hc.
  apply bind_Ok in Hc as ([db2 sid] & Hi%conflict_Ok & [= <-]). split; [by eapply row_there_mono; [apply Hg|]|by eapply insert_seat_trees].
Qed.

Lemma clone_sections_trees org map sections db db' : fold_result (clone_section org map) db sections = Ok db' → Trees db → Trees db'.
Proof.
  intros Hf Ht. eapply (fold_result_keeps Trees); [|exact Ht|exact Hf]. clear. intros db s db' Ht Hc. unfold clone_section in Hc.
  apply bind_Ok in Hc as ([db1 id] & Hi%conflict_Ok & Hf). cbn [fst snd] in Hf. apply insert_section_trees in Hi as [Ht1 Hs]; [|done].
  apply (fold_result_keeps (λ db, section_there id map db ∧ Trees db)) in Hf; [apply Hf| |done].
  intros d r d' Hp Hr. by eapply clone_row_trees.
Qed.

(** ** Every run *)

Definition Seated db : Prop := ∀ id m, ct_Maps db !! id = Some m → sm_Status m ≠ StatusDraft → has_seats id db = true.

Record TreeInv (n : MapNode) : Prop := {
  ti_trees : Trees (mn_db n);
  ti_seated : Seated (mn_db n);
  ti_writing i : i ∈ mn_writing n → parent_there (mn_db n) i;
}.

Lemma has_seats_mono map db db' : ct_Seats db ⊆ ct_Seats db' → has_seats map db = true → has_seats map db' = true.
Proof. apply some_row_subseteq. Qed.

Lemma has_seat_has_seats map seat db : has_seat map seat db = true → has_seats map db = true.
Proof.
  unfold has_seat, has_seats. rewrite !some_row_true. intros (k & s & Hk & [Hm _]%andb_prop). by exists k, s.
Qed.

Lemma Seated_grow db db' : Grow db db' → Seated db → Seated db'.
Proof. intros Hg Hs id m. rewrite (gw_maps _ _ Hg). intros Hm Hst. eapply has_seats_mono; [apply Hg|by eapply Hs]. Qed.

(** What leaves the trees alone keeps them. *)
Lemma TreeInv_same n db' : ct_Sections db' = ct_Sections (mn_db n) → ct_Rows db' = ct_Rows (mn_db n) → ct_Seats db' = ct_Seats (mn_db n) →
  Seated db' → TreeInv n → TreeInv (at_map_db n db').
Proof.
  intros H1 H2 H3 Hs [Ht _ Hw]. split; cbn; [by eapply Trees_same|done|]. intros i Hi. apply (parent_mono i (mn_db n)); [by rewrite H1|by rewrite H2|auto].
Qed.

Lemma TreeInv_grow n db' : Grow (mn_db n) db' → Trees db' → TreeInv n → TreeInv (at_map_db n db').
Proof.
  intros Hg Ht [_ Hs Hw]. split; cbn; [done|by eapply Seated_grow|]. intros i Hi. eapply parent_mono; [apply Hg|apply Hg|auto].
Qed.

Lemma TreeInv_writing n i : TreeInv n → parent_there (mn_db n) i →
  TreeInv {| mn_db := mn_db n; mn_resolved := mn_resolved n; mn_writing := mn_writing n ++ [i] |}.
Proof. intros [Ht Hs Hw] Hp. split; cbn; try done. intros j [Hj|Hj]%elem_of_app; [auto|]. apply list_elem_of_singleton in Hj as ->. done. Qed.

Lemma TreeInv_queue n resolved writing : writing ⊆ mn_writing n → TreeInv n → TreeInv {| mn_db := mn_db n; mn_resolved := resolved; mn_writing := writing |}.
Proof. intros Hsub [Ht Hs Hw]. split; cbn; auto. Qed.

Lemma delete_subset {A} (l : list A) k : delete k l ⊆ l.
Proof. intros x. rewrite !list_elem_of_lookup. intros (i & Hi). destruct (decide (i < k)%nat).
  - exists i. by rewrite list_lookup_delete_lt in Hi.
  - exists (S i). rewrite list_lookup_delete_ge in Hi by lia. done.
Qed.

Lemma draft_seated now org map db : Seated db → Seated (flip now org map db).
Proof.
  intros Hs. unfold flip. destruct (ct_Maps db !! map) as [m|]; [|done]. destruct (draft_of org map db && has_seats map db) eqn:Hd; [|done].
  apply andb_prop in Hd as [_ Hd]. intros id m'. cbn. destruct (decide (id = map)) as [->|Hne]; [done|]. rewrite lookup_insert_ne by done. apply Hs.
Qed.

Lemma mark_seated now map db : Seated db → Seated (MarkSeatMapEventEmitted now map db).
Proof.
  intros Hs. unfold MarkSeatMapEventEmitted. destruct (ct_Maps db !! map) as [m|] eqn:Hm; [|done]. intros id m'. cbn.
  destruct (decide (id = map)) as [->|Hne]; [rewrite lookup_insert_eq; intros [= <-]; exact (Hs map m Hm)|rewrite lookup_insert_ne by done; apply Hs].
Qed.

Lemma create_trees now org venue name orphan n db' id : CreateSeatMap now org venue name orphan (mn_db n) = Ok (db', id) → TreeInv n → TreeInv (at_map_db n db').
Proof.
  unfold CreateSeatMap. destruct (ct_Venues _ !! venue); [|done]. destruct (negb _); [done|]. destruct (insert_map _ _) as [[db1 id1]|] eqn:Hi; [|done].
  intros [= <- <-] Ht. apply insert_into_Ok in Hi as (_ & Hn & _ & _ & ->). apply TreeInv_same; try done. intros i m. cbn.
  destruct (decide (i = id1)) as [->|Hne]; [by rewrite lookup_insert_eq; intros [= <-]|rewrite lookup_insert_ne by done; apply (ti_seated _ Ht)].
Qed.

Lemma edit_trees now i n db' new : EditSeatMap now i (mn_db n) = Ok (db', new) → TreeInv n → TreeInv (at_map_db n db').
Proof.
  intros (cur & m & family & db1 & _ & _ & Hne & Hi & Hf)%EditSeatMap_Ok [Ht Hs Hw].
  assert (Hg : Grow db1 db') by (eapply fold_Grow; [|exact Hf]; intros *; apply clone_section_Grow).
  apply insert_into_Ok in Hi as (_ & Hn & _ & _ & ->). set (db1 := with_maps _ _) in *.
  assert (Ht' : Trees db') by (eapply clone_sections_trees; [exact Hf|by apply (Trees_same (mn_db n))]).
  assert (Hsub : ct_Sections (mn_db n) ⊆ ct_Sections db' ∧ ct_Rows (mn_db n) ⊆ ct_Rows db' ∧ ct_Seats (mn_db n) ⊆ ct_Seats db') by (split_and!; apply Hg).
  split; cbn; [done| |].
  - intros id x. rewrite (gw_maps _ _ Hg). cbn. destruct (decide (id = new)) as [->|Hid].
    + intros _ _. destruct (submitted (ed_Sections i)) as [|s l] eqn:E; [done|]. apply (has_seat_has_seats new s).
      eapply clone_all_has; [exact Hf|]. rewrite E. apply list_elem_of_here.
    + rewrite lookup_insert_ne by done. intros Hx Hst. eapply has_seats_mono; [apply Hsub|by eapply Hs].
  - intros j Hj. eapply parent_mono; [apply Hsub|apply Hsub|auto].
Qed.

Lemma pins_same db db' : ct_Maps db' = ct_Maps db → ct_Seats db' = ct_Seats db → Seated db → Seated db'.
Proof. intros H1 H2 Hs id m. rewrite H1. unfold has_seats. rewrite H2. apply Hs. Qed.

(** Pins leave everything but the pins alone. *)
Record OnlyPins db db' : Prop := {
  op_maps : ct_Maps db' = ct_Maps db;
  op_sections : ct_Sections db' = ct_Sections db;
  op_rows : ct_Rows db' = ct_Rows db;
  op_seats : ct_Seats db' = ct_Seats db;
}.

Lemma only_pins_trees n db' : OnlyPins (mn_db n) db' → TreeInv n → TreeInv (at_map_db n db').
Proof. intros [H1 H2 H3 H4] Ht. apply TreeInv_same; try done. eapply pins_same; [exact H1|exact H4|apply Ht]. Qed.

Lemma pin_one_only org cur family pinnedBy db seat db' : pin_one org cur family pinnedBy db seat = Ok db' → OnlyPins db db'.
Proof.
  unfold pin_one, insert_pin. destruct (negb _); [done|]. destruct (insert_into _ _ _ _ _ _) as [[db1 id]|[]] eqn:Hin; [|destruct (some_row _ _); [by intros [= <-]|done]|done].
  intros [= <-]. by apply insert_into_Ok in Hin as (_ & Hn & _ & _ & ->).
Qed.

Lemma PinSeats_only org map l pinnedBy db db' : PinSeats org map l pinnedBy db = Ok db' → OnlyPins db db'.
Proof.
  unfold PinSeats. case_bool_decide; [by intros [= <-]|]. intros (((cur & v) & family) & _ & Hf)%bind_Ok.
  apply (fold_result_keeps (OnlyPins db)) in Hf; [done| |by split]. intros d x d' [] Hx%pin_one_only. destruct Hx. split; congruence.
Qed.

Lemma PinSeat_only org map seat pinnedBy db db' : PinSeat org map seat pinnedBy db = Ok db' → OnlyPins db db'.
Proof. unfold PinSeat. intros (((cur & v) & family) & _ & Hf)%bind_Ok. by eapply pin_one_only. Qed.

Lemma unpins_only org family pinnedBy l : ∀ db, OnlyPins db (foldl (unpin_one org family pinnedBy) db l).
Proof. induction l as [|x l IH]; cbn; intros db; [done|]. destruct (IH (unpin_one org family pinnedBy db x)). by split. Qed.

Lemma UnpinSeats_only org map l pinnedBy db db' : UnpinSeats org map l pinnedBy db = Ok db' → OnlyPins db db'.
Proof.
  unfold UnpinSeats. case_bool_decide; [by intros [= <-]|]. destruct (resolve_family _ _ _); [|done]. intros [= <-]. apply unpins_only.
Qed.

Lemma UnpinSeat_only org map seat pinnedBy db db' : UnpinSeat org map seat pinnedBy db = Ok db' → OnlyPins db db'.
Proof. unfold UnpinSeat. destruct (resolve_family _ _ _); [|done]. by intros [= <-]. Qed.

(** The parent of an insertion is read with it. *)
Lemma read_section_parent org map name position db i : read_section org map name position db = Ok i → parent_there db i ∧ draft_map map db = true ∧ i = InsertSection {| sc_OrganizerID := org; sc_Map := map; sc_Name := name; sc_Position := position |}.
Proof.
  unfold read_section, draft_of, draft_map. destruct (ct_Maps db !! map); [|done]. destruct (_ && _) eqn:Hd; [|done].
  apply andb_prop in Hd as [_ Hd]. intros [= <-]. by rewrite Hd.
Qed.

Lemma read_row_parent org map section label position db i : read_row org map section label position db = Ok i →
  parent_there db i ∧ ∃ r, i = InsertRow r ∧ draft_map (rw_Map r) db = true.
Proof.
  unfold read_row. destruct (ct_Sections db !! section) as [s|] eqn:Hs; [|done]. destruct (_ && _) eqn:Hd; [|done].
  apply andb_prop in Hd as [_ Hd]. intros [= <-]. split; [by exists s|]. by eexists.
Qed.

Lemma read_seat_parent org map row seat label position db i : read_seat org map row seat label position db = Ok i →
  parent_there db i ∧ ∃ s, i = InsertSeat s ∧ draft_map (se_Map s) db = true.
Proof.
  unfold read_seat, row_of. destruct (ct_Rows db !! row) as [r|] eqn:Hr; [|done]. destruct (_ && _) eqn:Hd; [|done].
  apply andb_prop in Hd as [_ Hd]. intros [= <-]. split; [by exists r|]. by eexists.
Qed.

Lemma perform_trees op n : TreeInv n → TreeInv (perform_map op n).
Proof.
  intros Ht. destruct op; cbn -[write CreateSeatMap EditSeatMap].
  - apply TreeInv_same; try done. apply Ht.
  - destruct (CreateSeatMap _ _ _ _ _ _) as [[db1 id]|] eqn:Hc; [|done]. by eapply create_trees.
  - destruct (read_section _ _ _ _ _) as [i|] eqn:Hr; [|done]. apply TreeInv_writing; [done|]. by apply read_section_parent in Hr as [? _].
  - destruct (read_row _ _ _ _ _ _) as [i|] eqn:Hr; [|done]. apply TreeInv_writing; [done|]. by apply read_row_parent in Hr as [? _].
  - destruct (resolve_seat _ _ _ _ _); [|done]. by apply TreeInv_queue.
  - destruct (mn_resolved n !! k) as [v|]; [|done]. destruct (read_seat _ _ _ _ _ _ _) as [i|] eqn:Hr; cbn; [|by apply TreeInv_queue].
    apply (TreeInv_writing {| mn_db := mn_db n; mn_resolved := delete k (mn_resolved n); mn_writing := mn_writing n |}); [by apply TreeInv_queue|].
    by apply read_seat_parent in Hr as [? _].
  - destruct (mn_writing n !! k) as [i|] eqn:Hk; [|done].
    assert (Hq : TreeInv {| mn_db := mn_db n; mn_resolved := mn_resolved n; mn_writing := delete k (mn_writing n) |}) by (apply TreeInv_queue; [apply delete_subset|done]).
    destruct (write i (mn_db n)) as [[db1 id]|] eqn:Hw; cbn; [|done].
    apply (TreeInv_grow _ db1) in Hq; [done|by eapply write_Grow|]. eapply write_trees; [exact Hw|apply (ti_writing _ Ht); by eapply list_elem_of_lookup_2|apply Ht].
  - assert (Hsame : ct_Sections (flip now org map (mn_db n)) = ct_Sections (mn_db n) ∧ ct_Rows (flip now org map (mn_db n)) = ct_Rows (mn_db n) ∧ ct_Seats (flip now org map (mn_db n)) = ct_Seats (mn_db n)).
    { unfold flip. destruct (ct_Maps _ !! map); [|done]. by destruct (_ && _). }
    destruct Hsame as (? & ? & ?). apply TreeInv_same; try done. apply draft_seated, Ht.
  - assert (Hsame : ct_Sections (MarkSeatMapEventEmitted now map (mn_db n)) = ct_Sections (mn_db n) ∧ ct_Rows (MarkSeatMapEventEmitted now map (mn_db n)) = ct_Rows (mn_db n) ∧ ct_Seats (MarkSeatMapEventEmitted now map (mn_db n)) = ct_Seats (mn_db n)).
    { unfold MarkSeatMapEventEmitted. by destruct (ct_Maps _ !! map). }
    destruct Hsame as (? & ? & ?). apply TreeInv_same; try done. apply mark_seated, Ht.
  - destruct (EditSeatMap _ _ _) as [[db1 id]|] eqn:Hc; [|done]. by eapply edit_trees.
  - destruct (PinSeat _ _ _ _ _) eqn:Hc; [|done]. by eapply only_pins_trees, Ht; eapply PinSeat_only.
  - destruct (PinSeats _ _ _ _ _) eqn:Hc; [|done]. by eapply only_pins_trees, Ht; eapply PinSeats_only.
  - destruct (UnpinSeat _ _ _ _ _) eqn:Hc; [|done]. by eapply only_pins_trees, Ht; eapply UnpinSeat_only.
  - destruct (UnpinSeats _ _ _ _ _) eqn:Hc; [|done]. by eapply only_pins_trees, Ht; eapply UnpinSeats_only.
Qed.

Lemma no_maps_trees : TreeInv no_maps.
Proof. split; [split| |]; cbn; try (intros *; by rewrite ?lookup_empty). by intros i ?%not_elem_of_nil. Qed.

Lemma run_trees l : ∀ n, TreeInv n → TreeInv (run_maps l n).
Proof. induction l as [|op l IH]; cbn; intros n Ht; [done|]. by apply IH, perform_trees. Qed.

(** ** A published version does not change *)

Definition insertion_map (i : Insertion) : uuid :=
  match i with InsertSection s => sc_Map s | InsertRow r => rw_Map r | InsertSeat s => se_Map s end.

Definition of_map {R} (k : R → uuid) (map : uuid) (t : gmap uuid R) : gmap uuid R := filter (λ kr : uuid * R, bool_decide (k kr.2 = map) = true) t.

Definition tree_of (map : uuid) db := (of_map sc_Map map (ct_Sections db), of_map rw_Map map (ct_Rows db), of_map se_Map map (ct_Seats db)).

Lemma of_map_insert {R} (k : R → uuid) map t id (r : R) : t !! id = None → k r ≠ map → of_map k map (<[id := r]> t) = of_map k map t.
Proof.
  intros Hn Hk. unfold of_map. rewrite map_filter_insert_False, delete_id; [done|done|]. cbn. by rewrite (bool_decide_false _ Hk).
Qed.

Lemma geometry_of_tree map db dbc dbr dbs : tree_of map dbc = tree_of map db → tree_of map dbr = tree_of map db → tree_of map dbs = tree_of map db →
  List.map (section_read map dbr dbs) (map_sections map dbc) = List.map (section_read map db db) (map_sections map db).
Proof.
  unfold tree_of, of_map. intros [= H1 _ _] [= _ H2 _] [= _ _ H3].
  assert (Hseats : map_seats map dbs = map_seats map db) by (unfold map_seats, kept; by rewrite H3).
  assert (Hrows : map_rows map dbr = map_rows map db) by (unfold map_rows, kept; by rewrite H2).
  assert (Hsections : map_sections map dbc = map_sections map db) by (unfold map_sections, kept; by rewrite H1).
  rewrite Hsections. apply map_ext. intros ks. unfold section_read. rewrite Hrows. f_equal. apply map_ext. intros kr. unfold row_node. by rewrite Hseats.
Qed.

Lemma write_elsewhere i map db db' id : write i db = Ok (db', id) → insertion_map i ≠ map → tree_of map db' = tree_of map db ∧ ct_Maps db' = ct_Maps db.
Proof.
  unfold write. destruct i; cbn; intros (_ & Hn & _ & _ & ->)%conflict_Ok%insert_into_Ok Hm; (split; [|done]); unfold tree_of; cbn;
    by rewrite of_map_insert.
Qed.

Lemma clone_sections_elsewhere org new map sections db db' : new ≠ map → fold_result (clone_section org new) db sections = Ok db' →
  tree_of map db' = tree_of map db.
Proof.
  intros Hne Hf. apply (fold_result_keeps (λ d, tree_of map d = tree_of map db)) in Hf; [done| |done]. clear Hf. intros d s d' Hd Hc.
  unfold clone_section in Hc. apply bind_Ok in Hc as ([d1 id] & Hi%conflict_Ok & Hf). cbn [fst snd] in Hf.
  assert (Hd1 : tree_of map d1 = tree_of map db) by (apply insert_into_Ok in Hi as (_ & Hn & _ & _ & ->); unfold tree_of in *; cbn; by rewrite of_map_insert).
  apply (fold_result_keeps (λ d, tree_of map d = tree_of map db)) in Hf; [done| |done]. clear Hi Hf Hd Hd1. intros e r e' He Hc.
  unfold clone_row in Hc. apply bind_Ok in Hc as ([e1 rid] & Hi%conflict_Ok & Hf). cbn [fst snd] in Hf.
  assert (He1 : tree_of map e1 = tree_of map db) by (apply insert_into_Ok in Hi as (_ & Hn & _ & _ & ->); unfold tree_of in *; cbn; by rewrite of_map_insert).
  apply (fold_result_keeps (λ d, tree_of map d = tree_of map db)) in Hf; [done| |done]. clear Hi Hf He He1. intros f t f' Hf Hc.
  unfold clone_seat in Hc. apply bind_Ok in Hc as ([f1 sid] & Hi%conflict_Ok & [= <-]). apply insert_into_Ok in Hi as (_ & Hn & _ & _ & ->).
  unfold tree_of in *. cbn. by rewrite of_map_insert.
Qed.

(** The version as it was published, and nothing on its way to it. *)
Record Frozen (map : uuid) (m : SeatMap) (db0 : MapDB) (n : MapNode) : Prop := {
  fz_map : ∃ m', ct_Maps (mn_db n) !! map = Some m' ∧ sm_Status m' = StatusPublished ∧ sm_Version m' = sm_Version m ∧ sm_Orphan m' = sm_Orphan m ∧
    sm_Family m' = sm_Family m ∧ sm_OrganizerID m' = sm_OrganizerID m;
  fz_tree : tree_of map (mn_db n) = tree_of map db0;
  fz_writing i : i ∈ mn_writing n → insertion_map i ≠ map;
}.

Lemma Frozen_draft map m db0 n : Frozen map m db0 n → draft_map map (mn_db n) = false.
Proof. intros [(m' & Hm & Hp & _) _ _]. unfold draft_map. by rewrite Hm, Hp. Qed.

Lemma Frozen_db map m db0 n db' : ct_Maps db' = ct_Maps (mn_db n) → tree_of map db' = tree_of map (mn_db n) → Frozen map m db0 n → Frozen map m db0 (at_map_db n db').
Proof. intros Hm Ht [H1 H2 H3]. split; cbn; [by rewrite Hm|congruence|done]. Qed.

Lemma Frozen_writing map m db0 n i : insertion_map i ≠ map → Frozen map m db0 n →
  Frozen map m db0 {| mn_db := mn_db n; mn_resolved := mn_resolved n; mn_writing := mn_writing n ++ [i] |}.
Proof. intros Hi [H1 H2 H3]. split; cbn; try done. intros j [Hj|Hj]%elem_of_app; [auto|]. by apply list_elem_of_singleton in Hj as ->. Qed.

Lemma Frozen_queue map m db0 n resolved writing : writing ⊆ mn_writing n → Frozen map m db0 n →
  Frozen map m db0 {| mn_db := mn_db n; mn_resolved := resolved; mn_writing := writing |}.
Proof. intros Hsub [H1 H2 H3]. split; cbn; auto. Qed.

Lemma only_pins_frozen map m db0 n db' : OnlyPins (mn_db n) db' → Frozen map m db0 n → Frozen map m db0 (at_map_db n db').
Proof. intros [H1 H2 H3 H4]. apply Frozen_db; [done|]. unfold tree_of. by rewrite H2, H3, H4. Qed.

Lemma perform_frozen map m db0 op n : Frozen map m db0 n → Frozen map m db0 (perform_map op n).
Proof.
  intros Hf. pose proof (Frozen_draft _ _ _ _ Hf) as Hd. destruct op; cbn -[write CreateSeatMap EditSeatMap].
  - by apply Frozen_db.
  - unfold CreateSeatMap. destruct (ct_Venues _ !! venue); [|done]. destruct (negb _); [done|]. destruct (insert_map _ _) as [[db1 id1]|] eqn:Hi; [|done].
    cbn. apply insert_into_Ok in Hi as (_ & Hn & _ & _ & ->). destruct Hf as [(m' & Hm & Hrest) Ht Hw]. split; cbn; [|done|done].
    exists m'. rewrite lookup_insert_ne; [done|]. intros ->. cbn in Hn. congruence.
  - destruct (read_section _ _ _ _ _) as [i|] eqn:Hr; [|done]. apply read_section_parent in Hr as (_ & Hdr & ->).
    apply Frozen_writing; [|done]. cbn. congruence.
  - destruct (read_row _ _ _ _ _ _) as [i|] eqn:Hr; [|done]. apply read_row_parent in Hr as (_ & r & -> & Hdr).
    apply Frozen_writing; [|done]. cbn. congruence.
  - destruct (resolve_seat _ _ _ _ _); [|done]. by apply Frozen_queue.
  - destruct (mn_resolved n !! k) as [v|]; [|done]. destruct (read_seat _ _ _ _ _ _ _) as [i|] eqn:Hr; cbn; [|by apply Frozen_queue].
    apply read_seat_parent in Hr as (_ & s & -> & Hdr).
    apply (Frozen_writing _ _ _ {| mn_db := mn_db n; mn_resolved := delete k (mn_resolved n); mn_writing := mn_writing n |}); [cbn; congruence|by apply Frozen_queue].
  - destruct (mn_writing n !! k) as [i|] eqn:Hk; [|done].
    assert (Hq : Frozen map m db0 {| mn_db := mn_db n; mn_resolved := mn_resolved n; mn_writing := delete k (mn_writing n) |}) by (apply Frozen_queue; [apply delete_subset|done]).
    destruct (write i (mn_db n)) as [[db1 id]|] eqn:Hw; cbn; [|done].
    apply (write_elsewhere i map) in Hw as [Ht Hm]; [|apply (fz_writing _ _ _ _ Hf); by eapply list_elem_of_lookup_2].
    by apply (Frozen_db map m db0 _ db1) in Hq.
  - destruct Hf as [(m' & Hm & Hp & Hrest) Ht Hw]. unfold flip. destruct (ct_Maps (mn_db n) !! map0) as [m0|] eqn:Hm0; [|by split; eauto].
    destruct (draft_of org map0 (mn_db n) && _) eqn:Hdr; [|by split; eauto]. apply andb_prop in Hdr as [Hdr _]. unfold draft_of in Hdr. rewrite Hm0 in Hdr.
    apply andb_prop in Hdr as [_ Hdr%bool_decide_eq_true]. split; cbn; [|done|done]. exists m'. rewrite lookup_insert_ne; [done|]. intros ->. congruence.
  - destruct Hf as [(m' & Hm & Hp & Hrest) Ht Hw]. unfold MarkSeatMapEventEmitted. destruct (ct_Maps (mn_db n) !! map0) as [m0|] eqn:Hm0; [|by split; eauto].
    split; cbn; [|done|done]. destruct (decide (map0 = map)) as [->|Hne]; [|exists m'; by rewrite lookup_insert_ne].
    exists (set_emitted now m0). rewrite lookup_insert_eq. assert (m0 = m') as -> by congruence. done.
  - destruct (EditSeatMap _ _ _) as [[db1 new]|] eqn:Hc; [|done]. cbn. apply EditSeatMap_Ok in Hc as (cur & mc & family & db2 & _ & _ & _ & Hi & Hcl).
    assert (Hg : Grow db2 db1) by (eapply fold_Grow; [|exact Hcl]; intros *; apply clone_section_Grow).
    apply insert_into_Ok in Hi as (_ & Hn & _ & _ & ->). destruct Hf as [(m' & Hm & Hrest) Ht Hw].
    assert (Hne : new ≠ map) by congruence. split; cbn; [| |done].
    + exists m'. rewrite (gw_maps _ _ Hg). cbn. by rewrite lookup_insert_ne.
    + by rewrite (clone_sections_elsewhere _ _ _ _ _ _ Hne Hcl).
  - destruct (PinSeat _ _ _ _ _) eqn:Hc; [|done]. by eapply only_pins_frozen, Hf; eapply PinSeat_only.
  - destruct (PinSeats _ _ _ _ _) eqn:Hc; [|done]. by eapply only_pins_frozen, Hf; eapply PinSeats_only.
  - destruct (UnpinSeat _ _ _ _ _) eqn:Hc; [|done]. by eapply only_pins_frozen, Hf; eapply UnpinSeat_only.
  - destruct (UnpinSeats _ _ _ _ _) eqn:Hc; [|done]. by eapply only_pins_frozen, Hf; eapply UnpinSeats_only.
Qed.

(** C28 (safety). A published version does not change. Take a published version of
    a map towards which no addition to a draft is on its way any more. Whatever
    requests follow, edits of its family, pins and further additions among them,
    the version stays published, with its number, its rule and its family, and the
    geometry that is read of it is the same, row by row and seat by seat, even when
    other requests run between the four statements of the read. *)
Theorem published_version_is_immutable n l map m sections : ct_Maps (mn_db n) !! map = Some m → sm_Status m = StatusPublished →
  (∀ i, i ∈ mn_writing n → insertion_map i ≠ map) → GetSeatMapGeometry map (mn_db n) = Ok (m, sections) →
  ∃ m', GetSeatMapGeometry map (mn_db (run_maps l n)) = Ok (m', sections) ∧ sm_Status m' = StatusPublished ∧
    sm_Version m' = sm_Version m ∧ sm_Orphan m' = sm_Orphan m ∧ sm_Family m' = sm_Family m ∧
    ∀ l2 l3 l4, ReadSeatMapGeometry map (mn_db (run_maps l n)) (mn_db (run_maps l2 n)) (mn_db (run_maps l3 n)) (mn_db (run_maps l4 n)) = Ok (m', sections).
Proof.
  intros Hm Hp Hw Hg.
  assert (Hf : ∀ l n', Frozen map m (mn_db n) n' → Frozen map m (mn_db n) (run_maps l n')).
  { clear. induction l as [|op l IH]; cbn; intros n' Hf; [done|]. by apply IH, perform_frozen. }
  assert (H0 : Frozen map m (mn_db n) n) by (split; [by exists m|done|done]).
  destruct (Hf l n H0) as [(m' & Hm' & Hp' & Hv & Ho & Hfam & _) Ht _].
  assert (Hread : ∀ l2 l3 l4, ReadSeatMapGeometry map (mn_db (run_maps l n)) (mn_db (run_maps l2 n)) (mn_db (run_maps l3 n)) (mn_db (run_maps l4 n)) = Ok (m', sections)).
  { intros l2 l3 l4. unfold GetSeatMapGeometry, ReadSeatMapGeometry in *. rewrite Hm in Hg. injection Hg as <-. rewrite Hm'.
    by rewrite (geometry_of_tree map (mn_db n)) by apply fz_tree with (1 := Hf _ _ H0). }
  exists m'. split_and!; [apply Hread|done..].
Qed.
End SeatMapTrees.

#[local] Existing Instance text_uuid.
#[local] Existing Instance stroke_ids.

#[local] Abbreviation published := (run_maps (drafted ++ [OpPublish 2 house (strokes 1)]) no_maps).

Definition seat_identities (sections : list SectionNode) : list string :=
  List.concat (map (λ c, List.concat (map (λ r, map sn_Identity (rn_Seats r)) (cn_Rows c))) sections).

Definition identities_of (map : uuid) db : option (SeatMapStatus * list string) :=
  match GetSeatMapGeometry map db with Ok (m, sections) => Some (sm_Status m, seat_identities sections) | Err _ => None end.

Definition published_sections : list SectionNode :=
  match GetSeatMapGeometry (strokes 1 : uuid) (mn_db published) with Ok g => g.2 | Err _ => [] end.

Definition published_map : SeatMap :=
  default {| sm_OrganizerID := house; sm_VenueID := arena; sm_Name := ""; sm_Version := 0; sm_Status := StatusDraft; sm_PublishedAt := None;
             sm_EmittedAt := None; sm_Family := house; sm_Orphan := false; sm_CreatedAt := 0 |} (ct_Maps (mn_db published) !! (strokes 1 : uuid)).

(** An edit of the family and an addition to the published version. *)
Definition afterwards : list MapOp := [
  OpEdit 3 (edit_to [("7", 1)]); OpReadSection house (strokes 1) "T" 2; OpWrite 0; OpPin house (strokes 1) "S/1/7" "hold:a"].

Lemma published_version_is_immutable_witness : ∃ m',
  GetSeatMapGeometry (strokes 1 : uuid) (mn_db (run_maps afterwards published)) = Ok (m', published_sections) ∧ sm_Status m' = StatusPublished.
Proof.
  assert (Hm : ct_Maps (mn_db published) !! (strokes 1 : uuid) = Some published_map) by (vm_compute; reflexivity).
  assert (Hp : sm_Status published_map = StatusPublished) by (vm_compute; reflexivity).
  assert (Hg : GetSeatMapGeometry (strokes 1 : uuid) (mn_db published) = Ok (published_map, published_sections)) by (vm_compute; reflexivity).
  assert (Hw : ∀ i, i ∈ mn_writing published → insertion_map i ≠ strokes 1).
  { assert (Hn : mn_writing published = []) by (vm_compute; reflexivity). rewrite Hn. intros i Hi. destruct (not_elem_of_nil _ Hi). }
  destruct (@published_version_is_immutable text_uuid stroke_ids published afterwards (strokes 1) published_map published_sections Hm Hp Hw Hg) as (m' & H1 & H2 & _).
  exists m'. split; [exact H1|exact H2].
Defined.

(** The additions are refused once the map is published, but not those that had
    read it as a draft: a third seat lands in the version that was published. *)
Example late_seat_lands_in_a_published_version :
  identities_of (strokes 1) (mn_db published) = Some (StatusPublished, ["S/1/1"; "S/1/2"]%string) ∧
  identities_of (strokes 1) (mn_db (run_maps (drafted ++ [
    OpResolveSeat house (strokes 1) (strokes 3) "3" 3; OpReadSeat 0; OpPublish 2 house (strokes 1); OpWrite 0]) no_maps)) =
    Some (StatusPublished, ["S/1/1"; "S/1/2"; "S/1/3"]%string) ∧
  identities_of (strokes 1) (mn_db (run_maps (drafted ++ [
    OpResolveSeat house (strokes 1) (strokes 3) "3" 3; OpPublish 2 house (strokes 1); OpReadSeat 0; OpWrite 0]) no_maps)) =
    Some (StatusPublished, ["S/1/1"; "S/1/2"]%string).
Proof. vm_compute. auto. Qed.
