(* ===== verification/SeatMapSale.v ===== *)
(** * What a published map is to inventory

    Two services composed. The geometry that catalog serves of a published map
    ([GetPublicSeatMapGeometry] of services/catalog/internal/api/server_seat_maps.go
    over SeatMaps.v), if it is within the 8 MiB that inventory reads, is one that
    inventory derives a projection from (Geometry.v), whose seats are the seats of the
    map, and with which a publication provisions a pool (SeatMap.v). The text of the
    geometry and its decoder are any: the text decodes to the document. *)

From stdpp Require Import pretty.
From S2P Require Import Prelude Text Sha256 Format Tables Inventory Claims SeatMap SeatOrder Projections Geometry GeometryOrder.
From S2P Require Import SeatMaps SeatMapSafety SeatMapTrees.
#[local] Open Scope Z_scope.

Section SeatMapSale.
Context `{UU : UUID} {RI : RandomIDs}.
Implicit Types (db : MapDB).

Definition status_text (s : SeatMapStatus) : string :=
  match s with StatusDraft => "draft" | StatusPublished => "published" | StatusArchived => "archived" end.

(** The document that is served, as inventory decodes it. *)
Definition wire_seat (s : SeatNode) : geometrySeat := {| gs_SeatIdentity := sn_Identity s; gs_Position := sn_Position s |}.
Definition wire_row (r : RowNode) : geometryRow := {| gr_ID := rn_ID r; gr_Position := rn_Position r; gr_Seats := List.map wire_seat (rn_Seats r) |}.
Definition wire_section (c : SectionNode) : geometrySection := {| ge_Position := cn_Position c; ge_Rows := List.map wire_row (cn_Rows c) |}.
Definition wire (map : uuid) (m : SeatMaps.SeatMap) (sections : list SectionNode) : Geometry := {|
  ge_ID := map; ge_Status := status_text (sm_Status m); ge_Sections := List.map wire_section sections |}.

(** ** The lists of a map *)

Lemma elem_of_kept {R} (f : R → bool) (t : gmap uuid R) kr : kr ∈ kept f t ↔ t !! kr.1 = Some kr.2 ∧ f kr.2 = true.
Proof. unfold kept. destruct kr as [k r]. by rewrite elem_of_map_to_list, map_lookup_filter_Some. Qed.

Lemma NoDup_kept {R B} (f : R → bool) (k : uuid * R → B) (t : gmap uuid R) :
  (∀ i j a b, t !! i = Some a → t !! j = Some b → f a = true → f b = true → k (i, a) = k (j, b) → i = j) → NoDup (List.map k (kept f t)).
Proof.
  intros Hk. unfold kept. assert (Hin : ∀ kr, kr ∈ map_to_list (filter (λ kr : uuid * R, f kr.2 = true) t) → t !! kr.1 = Some kr.2 ∧ f kr.2 = true).
  { intros kr. apply (elem_of_kept f t). }
  pose proof (NoDup_fst_map_to_list (filter (λ kr : uuid * R, f kr.2 = true) t)) as Hnd. revert Hnd Hin.
  generalize (map_to_list (filter (λ kr : uuid * R, f kr.2 = true) t)). intros l. induction l as [|[i a] l IH]; cbn; intros Hnd Hin; [constructor|].
  apply list.NoDup_cons in Hnd as [Hi Hnd]. apply list.NoDup_cons. split; [|apply IH; [done|]; intros kr Hkr; apply Hin; by apply list_elem_of_further].
  intros ([j b] & Hb & Hj%list_elem_of_In)%list_elem_of_In%in_map_iff. apply Hi.
  destruct (Hin (i, a) (list_elem_of_here _ _)) as [Ha Hfa]. destruct (Hin (j, b) (list_elem_of_further _ _ _ Hj)) as [Hbt Hfb]. cbn in *.
  rewrite (Hk i j a b Ha Hbt Hfa Hfb (eq_sym Hb)). by apply (list_elem_of_fmap_2 fst) in Hj.
Qed.

Lemma NoDup_concat {A B} (f : A → list B) l : NoDup l → (∀ x, x ∈ l → NoDup (f x)) →
  (∀ x y z, x ∈ l → y ∈ l → z ∈ f x → z ∈ f y → x = y) → NoDup (List.concat (List.map f l)).
Proof.
  induction l as [|x l IH]; cbn; intros Hnd Hf Hd; [constructor|]. apply list.NoDup_cons in Hnd as [Hx Hnd]. apply list.NoDup_app. split_and!.
  - apply Hf, list_elem_of_here.
  - intros z Hz (ys & (y & <- & Hy%list_elem_of_In)%in_map_iff & Hzy%list_elem_of_In)%list_elem_of_In%in_concat.
    apply Hx. rewrite (Hd x y z); [done|apply list_elem_of_here|by apply list_elem_of_further|done..].
  - apply IH; [done| |].
    + intros y Hy. apply Hf. by apply list_elem_of_further.
    + intros y z w Hy Hz. apply Hd; by apply list_elem_of_further.
Qed.

Section OneMap.
Context (db : MapDB) (trees : Trees db) (map : uuid) (m : SeatMaps.SeatMap).

Definition served : Geometry := wire map m (List.map (section_node map db) (map_sections map db)).

Lemma elem_of_sections c : c ∈ map_sections map db ↔ ct_Sections db !! c.1 = Some c.2 ∧ sc_Map c.2 = map.
Proof. unfold map_sections. by rewrite elem_of_isort, elem_of_kept, bool_decide_eq_true. Qed.

Lemma elem_of_rows r : r ∈ map_rows map db ↔ ct_Rows db !! r.1 = Some r.2 ∧ rw_Map r.2 = map.
Proof. unfold map_rows. by rewrite elem_of_isort, elem_of_kept, bool_decide_eq_true. Qed.

Lemma elem_of_seats s : s ∈ map_seats map db ↔ ct_Seats db !! s.1 = Some s.2 ∧ se_Map s.2 = map.
Proof. unfold map_seats. by rewrite elem_of_isort, elem_of_kept, bool_decide_eq_true. Qed.

Definition served_row (r : uuid * RowRow) : geometryRow := wire_row (row_node map db r).

Lemma elem_of_section_rows c g : c ∈ map_sections map db →
  g ∈ ge_Rows (wire_section (section_node map db c)) ↔ ∃ r, r ∈ map_rows map db ∧ rw_Section r.2 = c.1 ∧ g = served_row r.
Proof.
  intros _. cbn. rewrite map_map, list_elem_of_In, in_map_iff. split.
  - intros (r & <- & [Hr Hs%bool_decide_eq_true]%filter_In). exists r. by rewrite list_elem_of_In.
  - intros (r & Hr & Hs & ->). exists r. split; [done|]. apply filter_In. rewrite bool_decide_eq_true, <-list_elem_of_In. done.
Qed.

Lemma elem_of_served_sections s : s ∈ ge_Sections served ↔ ∃ c, c ∈ map_sections map db ∧ s = wire_section (section_node map db c).
Proof.
  cbn. rewrite map_map, list_elem_of_In, in_map_iff. split; [intros (c & <- & Hc)|intros (c & Hc & ->)]; exists c; by rewrite list_elem_of_In in *.
Qed.

Lemma elem_of_served g : g ∈ declared_rows served ↔ ∃ r, r ∈ map_rows map db ∧ g = served_row r.
Proof.
  unfold declared_rows. rewrite list_elem_of_In, in_concat. split.
  - intros (rows & (s & <- & Hs%list_elem_of_In)%in_map_iff & Hg%list_elem_of_In). rewrite elem_of_isort in Hg. rewrite elem_of_isort in Hs.
    apply elem_of_served_sections in Hs as (c & Hc & ->). apply elem_of_section_rows in Hg as (r & Hr & _ & ->); [by exists r|done].
  - intros (r & Hr & ->). pose proof Hr as [Hl Hm]%elem_of_rows. destruct (tr_row _ trees _ _ Hl) as (_ & s & Hs & Hsm).
    assert (Hc : (rw_Section r.2, s) ∈ map_sections map db) by (apply elem_of_sections; cbn; split; [exact Hs|congruence]).
    exists (isort (on_key gr_Position Z.ltb) (ge_Rows (wire_section (section_node map db (rw_Section r.2, s))))). split.
    + apply (in_map (λ s, isort (on_key gr_Position Z.ltb) (ge_Rows s))), list_elem_of_In. rewrite elem_of_isort. apply elem_of_served_sections. by eexists.
    + apply list_elem_of_In. rewrite elem_of_isort. apply elem_of_section_rows; [done|]. by exists r.
Qed.

(** ** Nothing is declared twice *)

Lemma sections_apart : NoDup (map_sections map db).
Proof.
  unfold map_sections. rewrite isort_perm. unfold kept. apply NoDup_map_to_list.
Qed.

Lemma NoDup_selected {R B} (f : R → bool) (less : uuid * R → uuid * R → bool) (g : uuid * R → bool) (k : uuid * R → B) (t : gmap uuid R) :
  (∀ i j a b, t !! i = Some a → t !! j = Some b → f a = true → f b = true → g (i, a) = true → g (j, b) = true → k (i, a) = k (j, b) → i = j) →
  NoDup (List.map k (List.filter g (isort less (kept f t)))).
Proof.
  intros Hk. assert (Hin : ∀ kr, kr ∈ List.filter g (isort less (kept f t)) → t !! kr.1 = Some kr.2 ∧ f kr.2 = true ∧ g kr = true).
  { intros kr. rewrite elem_of_bool_filter, elem_of_isort, elem_of_kept. tauto. }
  assert (Hnd : NoDup (List.map fst (List.filter g (isort less (kept f t))))).
  { apply NoDup_map_filter. rewrite isort_perm. apply NoDup_fst_map_to_list. }
  revert Hnd Hin. generalize (List.filter g (isort less (kept f t))). intros l. induction l as [|[i a] l IH]; cbn; intros Hnd Hin; [constructor|].
  apply list.NoDup_cons in Hnd as [Hi Hnd]. apply list.NoDup_cons. split; [|apply IH; [done|]; intros kr Hkr; apply Hin; by apply list_elem_of_further].
  intros ([j b] & Hb & Hj%list_elem_of_In)%list_elem_of_In%in_map_iff. apply Hi.
  destruct (Hin (i, a) (list_elem_of_here _ _)) as (Ha & Hfa & Hga). destruct (Hin (j, b) (list_elem_of_further _ _ _ Hj)) as (Hbt & Hfb & Hgb). cbn in *.
  rewrite (Hk i j a b Ha Hbt Hfa Hfb Hga Hgb (eq_sym Hb)). by apply (list_elem_of_fmap_2 fst) in Hj.
Qed.

Lemma section_positions : NoDup (List.map ge_Position (ge_Sections served)) ∧ ∀ s, s ∈ ge_Sections served → 0 < ge_Position s.
Proof.
  split.
  - cbn. rewrite !map_map. cbn. unfold map_sections. rewrite isort_perm. apply NoDup_kept. cbn. intros i j a b Ha Hb Hfa%bool_decide_eq_true Hfb%bool_decide_eq_true Hp.
    destruct (decide (i = j)) as [|Hne]; [done|]. pose proof (tr_sections _ trees i j a b Ha Hb Hne) as Hc. unfold section_clash in Hc.
    rewrite Hfa, Hfb, Hp, Z.eqb_refl, orb_true_r, bool_decide_true in Hc; done.
  - intros s (c & [Hc _]%elem_of_sections & ->)%elem_of_served_sections. cbn. apply (tr_section _ trees) in Hc. apply andb_prop in Hc as [_ Hc]. lia.
Qed.

Lemma row_positions s : s ∈ ge_Sections served → NoDup (List.map gr_Position (ge_Rows s)) ∧ ∀ row, row ∈ ge_Rows s → 0 < gr_Position row.
Proof.
  intros (c & Hc & ->)%elem_of_served_sections. split.
  - cbn. rewrite !map_map. cbn. apply NoDup_selected. cbn. intros i j a b Ha Hb _ _ Hsa%bool_decide_eq_true Hsb%bool_decide_eq_true Hp.
    destruct (decide (i = j)) as [|Hne]; [done|]. pose proof (tr_rows _ trees i j a b Ha Hb Hne) as Hcl. unfold row_clash in Hcl.
    rewrite Hsa, Hsb, Hp, Z.eqb_refl, orb_true_r, bool_decide_true in Hcl; done.
  - intros row (r & [Hr _]%elem_of_rows & _ & ->)%elem_of_section_rows; [|done]. cbn. apply (tr_row _ trees) in Hr as [Hr _].
    apply andb_prop in Hr as [_ Hr]. lia.
Qed.

Lemma elem_of_row_seats r seat : seat ∈ gr_Seats (served_row r) ↔
  ∃ k s, ct_Seats db !! k = Some s ∧ se_Map s = map ∧ se_Row s = r.1 ∧ seat = wire_seat (seat_node (k, s)).
Proof.
  cbn. rewrite map_map, list_elem_of_In, in_map_iff. split.
  - intros ([k s] & <- & [Hs%list_elem_of_In Hr%bool_decide_eq_true]%filter_In). apply elem_of_seats in Hs as [Hs Hm]. by exists k, s.
  - intros (k & s & Hs & Hm & Hr & ->). exists (k, s). split; [done|]. apply filter_In. rewrite bool_decide_eq_true, <-list_elem_of_In, elem_of_seats. done.
Qed.

Lemma seat_positions row : row ∈ declared_rows served → NoDup (List.map gs_Position (gr_Seats row)) ∧ ∀ seat, seat ∈ gr_Seats row → 0 < gs_Position seat.
Proof.
  intros (r & Hr & ->)%elem_of_served. split.
  - cbn. rewrite !map_map. cbn. apply NoDup_selected. cbn. intros i j a b Ha Hb _ _ Hsa%bool_decide_eq_true Hsb%bool_decide_eq_true Hp.
    destruct (decide (i = j)) as [|Hne]; [done|]. pose proof (tr_seats _ trees i j a b Ha Hb Hne) as Hcl. unfold seat_clash in Hcl.
    rewrite Hsa, Hsb, Hp, Z.eqb_refl, (bool_decide_true (r.1 = r.1)), orb_true_r in Hcl; done.
  - intros seat (k & s & Hs & _ & _ & ->)%elem_of_row_seats. cbn. apply (tr_seat _ trees) in Hs as [Hs _].
    apply andb_prop in Hs as [[_ Hs]%andb_prop _]. lia.
Qed.

Lemma row_ids_apart : NoDup (List.map gr_ID (declared_rows served)).
Proof.
  unfold declared_rows. rewrite concat_map, map_map. apply NoDup_concat.
  - rewrite isort_perm. destruct section_positions as [Hp _]. by apply (NoDup_fmap_1 ge_Position).
  - intros s Hs. rewrite elem_of_isort in Hs. apply elem_of_served_sections in Hs as (c & Hc & ->). rewrite isort_perm. cbn. rewrite !map_map. cbn.
    apply NoDup_selected. cbn. congruence.
  - intros s t id Hs Ht. rewrite elem_of_isort in Hs, Ht. apply elem_of_served_sections in Hs as (c & Hc & ->).
    apply elem_of_served_sections in Ht as (c' & Hc' & ->). rewrite !isort_perm.
    intros (x & <- & (r & [Hr _]%elem_of_rows & Hrc & ->)%list_elem_of_In%elem_of_section_rows)%list_elem_of_In%in_map_iff; [|done].
    intros (y & Hid & (r' & [Hr' _]%elem_of_rows & Hrc' & ->)%list_elem_of_In%elem_of_section_rows)%list_elem_of_In%in_map_iff; [|done].
    cbn in Hid. rewrite Hid, Hr in Hr'. injection Hr' as Hr'. assert (Hk : c.1 = c'.1) by congruence.
    apply elem_of_sections in Hc as [Hc _]. apply elem_of_sections in Hc' as [Hc' _]. destruct c as [k a], c' as [k' a']. cbn in *.
    rewrite <-Hk in Hc' |- *. rewrite Hc in Hc'. by injection Hc' as ->.
Qed.

(** ** The seats *)

Hypothesis trimmed : ∀ k s, ct_Seats db !! k = Some s → se_Map s = map → TrimSpace (se_Identity s) = se_Identity s.

Lemma elem_of_row_identities r id : id ∈ row_identities (served_row r) ↔
  ∃ k s, ct_Seats db !! k = Some s ∧ se_Map s = map ∧ se_Row s = r.1 ∧ se_Identity s = id.
Proof.
  unfold row_identities. rewrite isort_perm, list_elem_of_In, in_map_iff. split.
  - intros (x & <- & (k & s & Hs & Hm & Hr & ->)%list_elem_of_In%elem_of_row_seats). exists k, s. split_and!; [done..|]. symmetry. by apply (trimmed k s).
  - intros (k & s & Hs & Hm & Hr & <-). exists (wire_seat (seat_node (k, s))). split; [by apply (trimmed k s)|].
    apply list_elem_of_In, elem_of_row_seats. by exists k, s.
Qed.

Lemma seats_apart k k' s s' : ct_Seats db !! k = Some s → ct_Seats db !! k' = Some s' → se_Map s = map → se_Map s' = map →
  se_Identity s = se_Identity s' → k = k'.
Proof.
  intros Hs Hs' Hm Hm' Hi. destruct (decide (k = k')) as [|Hne]; [done|]. pose proof (tr_seats _ trees k k' s s' Hs Hs' Hne) as Hc. unfold seat_clash in Hc.
  rewrite Hm, Hm', Hi, !(bool_decide_true (_ = _)) in Hc; done.
Qed.

Lemma identities_apart : NoDup (List.concat (List.map row_identities (declared_rows served))).
Proof.
  apply NoDup_concat.
  - apply (NoDup_fmap_1 gr_ID), row_ids_apart.
  - intros row (r & Hr & ->)%elem_of_served. unfold row_identities, served_row, wire_row, row_node. cbn [gr_Seats rn_Seats].
    rewrite isort_perm, !map_map. apply NoDup_selected. intros i j a b Ha Hb Hma%bool_decide_eq_true Hmb%bool_decide_eq_true _ _ Hid.
    change (TrimSpace (se_Identity a) = TrimSpace (se_Identity b)) in Hid. rewrite (trimmed i a Ha Hma), (trimmed j b Hb Hmb) in Hid. by apply (seats_apart i j a b).
  - intros x y id (r & [Hr Hrm]%elem_of_rows & ->)%elem_of_served (r' & [Hr' _]%elem_of_rows & ->)%elem_of_served.
    intros (k & s & Hs & Hm & Hsr & Hi)%elem_of_row_identities (k' & s' & Hs' & Hm' & Hsr' & Hi')%elem_of_row_identities.
    assert (k = k') as -> by (apply (seats_apart k k' s s'); congruence). rewrite Hs in Hs'. injection Hs' as <-.
    destruct r as [i a], r' as [j b]. cbn in *. subst i j. rewrite Hr in Hr'. by injection Hr' as ->.
Qed.

Lemma elem_of_identities id : id ∈ List.concat (List.map row_identities (declared_rows served)) ↔ has_seat map id db = true.
Proof.
  unfold has_seat. rewrite some_row_true, list_elem_of_In, in_concat. split.
  - intros (ids & (row & <- & (r & Hr & ->)%list_elem_of_In%elem_of_served)%in_map_iff & (k & s & Hs & Hm & _ & Hi)%list_elem_of_In%elem_of_row_identities).
    exists k, s. by rewrite !bool_decide_true.
  - intros (k & s & Hs & [Hm%bool_decide_eq_true Hi%bool_decide_eq_true]%andb_prop). destruct (tr_seat _ trees _ _ Hs) as (_ & r & Hr & Hrm).
    exists (row_identities (served_row (se_Row s, r))). split.
    + apply in_map, list_elem_of_In, elem_of_served. exists (se_Row s, r). split; [|done]. apply elem_of_rows. cbn. split; [done|congruence].
    + apply list_elem_of_In, elem_of_row_identities. by exists k, s.
Qed.

Lemma length_declared : (length (declared_rows served) ≤ length (map_rows map db))%nat.
Proof.
  rewrite <-(length_map gr_ID), <-(length_map fst (map_rows _ _)). apply NoDup_incl_length; [apply NoDup_ListNoDup, row_ids_apart|].
  intros id (row & <- & (r & Hr & ->)%list_elem_of_In%elem_of_served)%in_map_iff.
  by apply (in_map fst _ r), list_elem_of_In.
Qed.

Lemma length_identities : (length (List.concat (List.map row_identities (declared_rows served))) ≤ length (map_seats map db))%nat.
Proof.
  rewrite <-(length_map (λ ks : uuid * SeatRow, se_Identity ks.2) (map_seats _ _)). apply NoDup_incl_length; [apply NoDup_ListNoDup, identities_apart|].
  intros id (k & s & Hs & [Hm%bool_decide_eq_true Hi%bool_decide_eq_true]%andb_prop)%list_elem_of_In%elem_of_identities%some_row_true. subst id.
  apply (in_map (λ ks : uuid * SeatRow, se_Identity ks.2) _ (k, s)), list_elem_of_In, elem_of_seats. by subst.
Qed.

Hypothesis named : ∀ k r, ct_Rows db !! k = Some r → rw_Map r = map → k ≠ uuid_Nil ∧ printable k.

Lemma served_proper : has_seats map db = true → Proper served.
Proof.
  intros Hsome. split.
  - apply section_positions.
  - apply row_positions.
  - apply seat_positions.
  - intros row (r & [Hr Hm]%elem_of_rows & ->)%elem_of_served. by eapply named.
  - apply identities_apart.
  - intros id (k & s & Hs & [_ Hi%bool_decide_eq_true]%andb_prop)%elem_of_identities%some_row_true ->.
    apply (tr_seat _ trees) in Hs as [[_ Hc]%andb_prop _]. rewrite Hi in Hc. by vm_compute in Hc.
  - unfold has_seats in Hsome. apply some_row_true in Hsome as (k & s & Hs & Hm%bool_decide_eq_true). intros Hnil.
    destruct (tr_seat _ trees _ _ Hs) as (_ & r & Hr & Hrm). assert (Hin : served_row (se_Row s, r) ∈ seated_rows served).
    { unfold seated_rows. apply elem_of_bool_filter. split; [apply elem_of_served; exists (se_Row s, r); split; [apply elem_of_rows; cbn; split; [done|congruence]|done]|].
      unfold seated. assert (Hseat : wire_seat (seat_node (k, s)) ∈ gr_Seats (served_row (se_Row s, r))) by (apply elem_of_row_seats; by exists k, s).
      destruct (gr_Seats _); [by apply not_elem_of_nil in Hseat|done]. }
    rewrite Hnil in Hin. by apply not_elem_of_nil in Hin.
Qed.
End OneMap.

(** C26 (functional). What catalog publishes, inventory can sell, up to its read limit.
    Take a published map of any run, no identity of whose seats begins or ends in
    blanks, with no more rows and seats than an int32 counts and with ids as catalog
    makes them, not nil and printed without blanks. There is one projection
    that inventory derives from any text of at most 8 MiB that decodes to the geometry
    catalog serves of the map; it is valid and has exactly the seats of the map, and a
    publication that names the map then provisions a fresh pool with it. A longer text
    is cut at the limit: when what is left no longer decodes, it is refused as an
    invalid geometry, which is what the map is then to inventory. *)
Theorem published_map_is_sellable `{!UUIDLaws} l map m sections :
  let db := mn_db (run_maps l no_maps) in
  GetSeatMapGeometry map db = Ok (m, sections) → sm_Status m = StatusPublished → map ≠ uuid_Nil →
  (∀ k s, ct_Seats db !! k = Some s → se_Map s = map → TrimSpace (se_Identity s) = se_Identity s) →
  (∀ k r, ct_Rows db !! k = Some r → rw_Map r = map → k ≠ uuid_Nil ∧ printable k) →
  Z.of_nat (length (map_rows map db)) ≤ MaxInt32 → Z.of_nat (length (map_seats map db)) ≤ MaxInt32 →
  (∀ decode text, decode (read_limited maxGeometryBytes text) = None →
     SeatMapAdjacency decode map (Replied StatusOK text true) = Err ErrGeometryInvalid) ∧
  ∃ out,
    (∀ decode text, decode text = Some (wire map m sections, true) → Z.of_nat (String.length text) ≤ maxGeometryBytes →
       SeatMapAdjacency decode map (Replied StatusOK text true) = Ok out) ∧
    validateAdjacency (List.map stored_row out) = Ok tt ∧
    (∀ id, id ∈ List.map sj_SeatIdentity (List.map stored_row out) ↔ has_seat map id db = true) ∧
    ∀ eventID slot org capacity inv, 0 < capacity → (eventID ∉ in_events inv) → in_pools inv !! slot = None →
      (∀ s, in_adjacency inv !! (slot, s) = None) →
      ∃ inv', ProvisionSeated eventID slot org map capacity (sm_Orphan m) (List.map stored_row out) inv = Ok (inv', Ok tt).
Proof.
  intros db Hg Hpub Hmap Htrim Hnamed Hrows Hseats. destruct (run_trees l no_maps no_maps_trees) as [Ht Hseated _]. fold db in Ht, Hseated.
  clearbody db. clear l.
  split; [intros decode text Hd; unfold SeatMapAdjacency; cbn [read_geometry negb andb]; by rewrite Z.eqb_refl, Hd|].
  unfold GetSeatMapGeometry, ReadSeatMapGeometry in Hg. destruct (ct_Maps db !! map) as [m'|] eqn:Hm; [|done]. injection Hg as -> <-.
  fold (served db map m). assert (Hfew : Z.of_nat (length (declared_rows (served db map m))) ≤ MaxInt32) by (pose proof (length_declared db Ht map m); lia).
  destruct (derive_proper (served db map m)) as [out Hout]; [|done|].
  { apply served_proper; try done. apply (Hseated map m Hm). by rewrite Hpub. }
  assert (Hshown : ∀ row, row ∈ declared_rows (served db map m) → printable (gr_ID row)).
  { intros row (r & [Hr Hrm]%elem_of_rows & ->)%elem_of_served; [|done]. by apply (Hnamed r.1 r.2). }
  pose proof (derived_identities _ _ Hout Hfew) as Hids.
  assert (Hfewout : Z.of_nat (length out) ≤ MaxInt32).
  { pose proof (length_identities db Ht map m Htrim) as Hl. rewrite <-Hids, !length_map in Hl. lia. }
  assert (Hnd : NoDup (List.map gr_ID (seated_rows (served db map m)))) by (apply NoDup_map_filter, row_ids_apart, Ht).
  exists out. split_and!.
  - intros decode text Hd Hl. rewrite (SeatMapAdjacency_whole decode map text _ Hl Hd). unfold resolveSeatMapGeometry. cbn [negb]. rewrite bool_decide_true by done. cbn [negb]. by rewrite bool_decide_true by (cbn; by rewrite Hpub).
  - by apply (derived_valid _ _ Hout).
  - intros id. rewrite Hids. by apply elem_of_identities.
  - intros eventID slot org capacity inv Hc He Hp Ha. destruct (derived_provisions _ _ Hout Hfew Hfewout Hshown eventID slot org map capacity (sm_Orphan m) inv) as (inv' & Hprov & _); try done.
    by exists inv'.
Qed.
End SeatMapSale.

#[local] Existing Instance text_uuid.
#[local] Existing Instance stroke_ids.

(** The map of two seats of SeatMapSafety.v, published. *)
Definition opened_run : list MapOp := drafted ++ [OpPublish 2 house (strokes 1)].
#[local] Abbreviation opened := (mn_db (run_maps opened_run no_maps)).

Definition opened_geometry : SeatMaps.SeatMap * list SectionNode :=
  match GetSeatMapGeometry (strokes 1 : uuid) opened with
  | Ok g => g
  | Err _ => ({| sm_OrganizerID := house; sm_VenueID := arena; sm_Name := ""; sm_Version := 0; sm_Status := StatusDraft; sm_PublishedAt := None;
                 sm_EmittedAt := None; sm_Family := house; sm_Orphan := false; sm_CreatedAt := 0 |}, [])
  end.

Example opened_is_resolved :
  match resolveSeatMapGeometry (strokes 1 : uuid) (Document (wire (strokes 1) opened_geometry.1 opened_geometry.2) true) with
  | Ok out => map (λ a, (sa_SeatIdentity a, sa_Right a, sa_Position a, sa_RowRank a)) out
  | Err _ => []
  end = [("S/1/1", Some "S/1/2", 1, 1); ("S/1/2", None, 2, 1)]%string.
Proof. vm_compute. reflexivity. Qed.

(** A decoder of the one text that is served. *)
Definition opened_text : string := "the geometry of the opened map".
Definition opened_decode (text : string) : option (Geometry * bool) :=
  if bool_decide (text = opened_text) then Some (wire (strokes 1) opened_geometry.1 opened_geometry.2, true) else None.

Lemma published_map_is_sellable_witness : ∃ out,
  SeatMapAdjacency opened_decode (strokes 1 : uuid) (Replied StatusOK opened_text true) = Ok out ∧
  validateAdjacency (map stored_row out) = Ok tt.
Proof.
  assert (Hg : GetSeatMapGeometry (strokes 1 : uuid) opened = Ok (opened_geometry.1, opened_geometry.2)) by (vm_compute; reflexivity).
  assert (Hp : sm_Status opened_geometry.1 = StatusPublished) by (vm_compute; reflexivity).
  assert (Hn : (strokes 1 : uuid) ≠ uuid_Nil) by (apply (bool_decide_unpack _); vm_compute; exact I).
  assert (Ht : ∀ k s, ct_Seats opened !! k = Some s → se_Map s = strokes 1 → TrimSpace (se_Identity s) = se_Identity s).
  { assert (Hf : map_Forall (λ _ s, TrimSpace (se_Identity s) = se_Identity s) (ct_Seats opened)) by (apply (bool_decide_unpack _); vm_compute; exact I).
    intros k s Hs _. exact (Hf k s Hs). }
  assert (Hr : ∀ k r, ct_Rows opened !! k = Some r → rw_Map r = strokes 1 → k ≠ uuid_Nil ∧ printable k).
  { assert (Hf : map_Forall (λ k _, k ≠ uuid_Nil ∧ printable k) (ct_Rows opened)) by (apply (bool_decide_unpack _); vm_compute; exact I).
    intros k r Hr _. exact (Hf k r Hr). }
  assert (H1 : Z.of_nat (length (map_rows (strokes 1 : uuid) opened)) ≤ MaxInt32) by (vm_compute; discriminate).
  assert (H2 : Z.of_nat (length (map_seats (strokes 1 : uuid) opened)) ≤ MaxInt32) by (vm_compute; discriminate).
  destruct (@published_map_is_sellable text_uuid stroke_ids text_uuid_laws opened_run (strokes 1) opened_geometry.1 opened_geometry.2 Hg Hp Hn Ht Hr H1 H2)
    as (_ & out & Hout & Hv & _).
  exists out. split; [|exact Hv]. apply Hout; [reflexivity|vm_compute; discriminate].
Defined.
