(* ===== verification/PinDrain.v ===== *)
(** * Draining catalog's pins

    [services/inventory/cmd/inventory/reconcile_pins.go]: the command that reads
    every pin of catalog, page by page, asks inventory about the claims behind the
    holds' pins, and unpins the seats of the dead ones. Its three collaborators are
    a record of functions, as in the code; [Services] fills it with the two
    services: the client of consumer/catalog.go (Geometry.v) over the handlers and
    the store of catalog (SeatMaps.v), and the store of inventory (SeatClaims.v). *)

From stdpp Require Import pretty.
From S2P Require Import Prelude Text Sha256 Format Tables Inventory Claims SeatMap SeatClaims Geometry CatalogEvents SeatMaps Paging.
#[local] Open Scope Z_scope.

Definition reconcilePinPageSize : nat := 100.

Definition holdPinPrefix : string := "hold:".

(** [strings.TrimPrefix]. *)
Definition TrimPrefix (s p : string) : string :=
  if String.prefix p s then String.substring (String.length p) (String.length s - String.length p) s else s.

(** Every pin that was scanned is counted in one bucket. *)
Inductive Bucket := Reclaimed | Live | Unknown | Malformed | Other.

#[export] Instance Bucket_eq_dec : EqDecision Bucket.
Proof. solve_decision. Defined.

Record pinReconcileStats := { ps_Scanned : nat; ps_Reclaimed : nat; ps_Live : nat; ps_Unknown : nat; ps_Malformed : nat; ps_Other : nat }.

Definition no_stats : pinReconcileStats := {| ps_Scanned := 0; ps_Reclaimed := 0; ps_Live := 0; ps_Unknown := 0; ps_Malformed := 0; ps_Other := 0 |}.

Definition scanned (n : nat) (s : pinReconcileStats) : pinReconcileStats := {|
  ps_Scanned := ps_Scanned s + n; ps_Reclaimed := ps_Reclaimed s; ps_Live := ps_Live s; ps_Unknown := ps_Unknown s;
  ps_Malformed := ps_Malformed s; ps_Other := ps_Other s |}.

Definition tally (b : Bucket) (n : nat) (s : pinReconcileStats) : pinReconcileStats :=
  let plus c k := if bool_decide (b = c) then (k + n)%nat else k in {|
  ps_Scanned := ps_Scanned s; ps_Reclaimed := plus Reclaimed (ps_Reclaimed s); ps_Live := plus Live (ps_Live s);
  ps_Unknown := plus Unknown (ps_Unknown s); ps_Malformed := plus Malformed (ps_Malformed s); ps_Other := plus Other (ps_Other s) |}.

Definition bucketed (s : pinReconcileStats) : nat := ps_Reclaimed s + ps_Live s + ps_Unknown s + ps_Malformed s + ps_Other s.

Inductive PinRunError := ListPinsFailed (e : ResolveError) | LivenessFailed | NoVerdict | UnpinFailed.

Section PinDrain.
Context `{UU : UUID}.

Record unpinGroup := { ug_org : uuid; ug_seatMap : uuid; ug_pinnedBy : string; ug_seats : list string }.

Record pinReconciler (S : Type) := {
  pr_listPins : uuid → nat → S → result ResolveError (list SeatPin);
  pr_liveness : list uuid → S → S * option (gmap uuid SeatClaimState);
  pr_unpin : uuid → uuid → list string → string → S → S * option unit;
}.
Arguments pr_listPins {S}.
Arguments pr_liveness {S}.
Arguments pr_unpin {S}.

(** Which claim a pin stands for, where it is a hold's. *)
Inductive PinKind := OtherPin | MalformedPin | HoldPin (claim : uuid).

Definition pin_kind (pinnedBy : string) : PinKind :=
  if negb (String.prefix holdPinPrefix pinnedBy) then OtherPin
  else
    match uuid_Parse (TrimPrefix pinnedBy holdPinPrefix) with
    | Some id => if bool_decide (id = uuid_Nil) then MalformedPin else HoldPin id
    | None => MalformedPin
    end.

Definition group_key (p : SeatPin) : string :=
  uuid_String (sp_OrganizerID p) +:+ "|" +:+ uuid_String (sp_SeatMapID p) +:+ "|" +:+ sp_PinnedBy p.

(** The groups, in the order in which they were first met. *)
Definition add_seat (p : SeatPin) (groups : list (string * unpinGroup)) : list (string * unpinGroup) :=
  if bool_decide (group_key p ∈ map fst groups)
  then map (λ g, if bool_decide (g.1 = group_key p)
                 then (g.1, {| ug_org := ug_org g.2; ug_seatMap := ug_seatMap g.2; ug_pinnedBy := ug_pinnedBy g.2;
                               ug_seats := ug_seats g.2 ++ [sp_SeatIdentity p] |}) else g) groups
  else groups ++ [(group_key p, {| ug_org := sp_OrganizerID p; ug_seatMap := sp_SeatMapID p; ug_pinnedBy := sp_PinnedBy p;
                                   ug_seats := [sp_SeatIdentity p] |})].

(** The holds of a page with their claims, and the claims to ask about, each once. *)
Definition sort_pin (st : pinReconcileStats * list (SeatPin * uuid) * list uuid) (p : SeatPin) :=
  let '(stats, holds, claimIDs) := st in
  match pin_kind (sp_PinnedBy p) with
  | OtherPin => (tally Other 1 stats, holds, claimIDs)
  | MalformedPin => (tally Malformed 1 stats, holds, claimIDs)
  | HoldPin id => (stats, holds ++ [(p, id)], if bool_decide (id ∈ claimIDs) then claimIDs else claimIDs ++ [id])
  end.

Definition judge (states : gmap uuid SeatClaimState) (st : pinReconcileStats * list (string * unpinGroup)) (h : SeatPin * uuid)
    : result pinReconcileStats (pinReconcileStats * list (string * unpinGroup)) :=
  match states !! h.2 with
  | Some SeatClaimLive => Ok (tally Live 1 st.1, st.2)
  | Some SeatClaimUnknown => Ok (tally Unknown 1 st.1, st.2)
  | Some SeatClaimDead => Ok (st.1, add_seat h.1 st.2)
  | None => Err st.1
  end.

Section Run.
Context {S : Type} (r : pinReconciler S).

Record PinRun := { rn_store : S; rn_stats : pinReconcileStats }.

(** A page too large is asked for again at half the size, down to one row. *)
Fixpoint list_page (fuel pageSize : nat) (after : uuid) (s : S) : result ResolveError (nat * list SeatPin) :=
  match pr_listPins r after pageSize s with
  | Ok page => Ok (pageSize, page)
  | Err e =>
      match fuel with
      | O => Err e
      | Datatypes.S fuel =>
          if bool_decide (e = ErrSeatPinPageTooLarge) && (1 <? pageSize)%nat then list_page fuel (pageSize / 2) after s else Err e
      end
  end.

Definition pin_fetch (pageSize : nat) (after : option uuid) (n : PinRun) : result (PinRun * PinRunError) (nat * list SeatPin) :=
  match list_page pageSize pageSize (default uuid_Nil after) (rn_store n) with
  | Ok page => Ok page
  | Err e => Err (n, ListPinsFailed e)
  end.

Definition unpin_group (n : PinRun) (g : string * unpinGroup) : result (PinRun * PinRunError) PinRun :=
  let '(s, answer) := pr_unpin r (ug_org g.2) (ug_seatMap g.2) (ug_seats g.2) (ug_pinnedBy g.2) (rn_store n) in
  match answer with
  | None => Err ({| rn_store := s; rn_stats := rn_stats n |}, UnpinFailed)
  | Some _ => Ok {| rn_store := s; rn_stats := tally Reclaimed (length (ug_seats g.2)) (rn_stats n) |}
  end.

Definition pin_page (n : PinRun) (page : list SeatPin) : result (PinRun * PinRunError) PinRun :=
  let '(stats, holds, claimIDs) := foldl sort_pin (scanned (length page) (rn_stats n), [], []) page in
  if bool_decide (length holds = 0%nat) then Ok {| rn_store := rn_store n; rn_stats := stats |}
  else
    let '(s, answer) := pr_liveness r claimIDs (rn_store n) in
    match answer with
    | None => Err ({| rn_store := s; rn_stats := stats |}, LivenessFailed)
    | Some states =>
        match fold_result (judge states) (stats, []) holds with
        | Err stats => Err ({| rn_store := s; rn_stats := stats |}, NoVerdict)
        | Ok (stats, groups) => fold_result unpin_group {| rn_store := s; rn_stats := stats |} groups
        end
    end.

(** [pinReconciler.run]. *)
Definition pin_run (fuel : nat) (s : S) : option (result (PinRun * PinRunError) PinRun) :=
  paged sp_ID pin_fetch pin_page fuel reconcilePinPageSize None {| rn_store := s; rn_stats := no_stats |}.
End Run.
Arguments rn_store {S}.
Arguments rn_stats {S}.

(** ** The two services *)

Record PinWorld := { pw_catalog : MapDB; pw_inventory : InventoryDB }.

(** How the calls go: what is answered where catalog does not answer a list, whether
    a call reaches its service and its answer comes back, and the clocks of the
    transactions of inventory. *)
Record PinEnv := {
  pe_list : uuid → nat → option (Answer (option (list SeatPin)));
  pe_liveness : list uuid → Fault;
  pe_clock : list uuid → uuid → Clock;
  pe_unpin : uuid → uuid → list string → string → Fault;
}.

(** [writeStoreError], of the errors these handlers meet. *)
Definition store_status (e : SeatMapError) : Z :=
  match e with
  | ErrNotFound => 404
  | ErrSeatMapConflict | ErrSeatMapSeatless | ErrIllegalTransition | ErrSeatMapEditOrphansPinned | ErrSeatIdentityNotFound => 409
  | ErrSeatIdentityTooLong => 400
  | ErrSeatMapFamilyNotFound | ErrPageLimit | ErrConstraint => 500
  end.

Definition pin_payload (p : SeatMapPin) : SeatPin := {|
  sp_ID := lp_ID p; sp_OrganizerID := lp_OrganizerID p; sp_SeatMapID := lp_SeatMapID p; sp_SeatIdentity := lp_SeatIdentity p;
  sp_PinnedBy := lp_PinnedBy p |}.

(** Catalog's handlers of the list and of the unpins. *)
Definition handle_list_pins (after : uuid) (limit : Z) (db : MapDB) : Answer (option (list SeatPin)) :=
  match ListSeatMapPins after limit db with
  | Ok pins => Document (Some (map pin_payload pins)) true
  | Err e => StatusOf (store_status e)
  end.

Definition decodeSeatPinRequest (org : uuid) (identities : list string) (pinnedBy : string) : bool :=
  negb (bool_decide (org = uuid_Nil) || bool_decide (length identities = 0%nat) || bool_decide (TrimSpace pinnedBy = ""%string)) &&
  forallb (λ id, negb (bool_decide (TrimSpace id = ""%string))) identities.

Definition handle_unpins (org seatMap : uuid) (identities : list string) (pinnedBy : string) (db : MapDB) : MapDB * Z :=
  if negb (decodeSeatPinRequest org identities pinnedBy) then (db, 400)
  else match UnpinSeats org seatMap identities pinnedBy db with
       | Ok db => (db, StatusOK)
       | Err ErrSeatMapFamilyNotFound => (db, StatusOK)
       | Err e => (db, store_status e)
       end.

Definition Services (env : PinEnv) : pinReconciler PinWorld := {|
  pr_listPins after limit w :=
    listSeatPins after (Z.of_nat limit) (default (handle_list_pins after (Z.of_nat limit) (pw_catalog w)) (pe_list env after limit));
  pr_liveness claimIDs w :=
    match pe_liveness env claimIDs with
    | Refused => (w, None)
    | fault =>
        let '(inv, verdicts) := ReconcileSeatClaimStates (pe_clock env claimIDs) claimIDs (pw_inventory w) in
        ({| pw_catalog := pw_catalog w; pw_inventory := inv |},
         match fault, verdicts with Clean, Ok v => Some v | _, _ => None end)
    end;
  pr_unpin org seatMap seats pinnedBy w :=
    match pe_unpin env org seatMap seats pinnedBy with
    | Refused => (w, None)
    | fault =>
        let '(db, status) := handle_unpins org seatMap seats pinnedBy (pw_catalog w) in
        ({| pw_catalog := db; pw_inventory := pw_inventory w |},
         match fault, batchPin seats (Some status) with Clean, Ok _ => Some tt | _, _ => None end)
    end |}.

Definition reconcilePins (fuel : nat) (env : PinEnv) (w : PinWorld) := pin_run (Services env) fuel w.
End PinDrain.
Arguments pr_listPins {UU S}.
Arguments pr_liveness {UU S}.
Arguments pr_unpin {UU S}.
Arguments rn_store {S}.
Arguments rn_stats {S}.
