(* ===== verification/PinSafety.v ===== *)
(** * What the drain of the pins does

    The command of PinDrain.v over the two services: it ends; whatever fails on the
    way, it takes no pin but those of dead claims, whose seats nothing holds any
    more and nothing will; and where it comes to its end, every pin is counted once
    and those of the claims that were dead at its start are gone. *)

From stdpp Require Import pretty.
From S2P Require Import Prelude Text Sha256 Format Tables Inventory Claims SeatMap SeatClaims InventoryMoves ClaimMoves SeatMoves InventorySafety ClaimLife.
From S2P Require Import SeatSafety SeatReads Geometry CatalogEvents SeatMaps SeatMapSafety SeatMapTrees Paging PinDrain.
#[local] Open Scope Z_scope.

#[local] Instance SeatClaimState_eq_dec : EqDecision SeatClaimState.
Proof. solve_decision. Defined.

Section PinSafety.
Context `{UU : UUID} {RI : RandomIDs}.

(** ** The verdicts of a page *)

Section Verdicts.
Implicit Types (db : InventoryDB) (out v : gmap uuid SeatClaimState).

Record Settled db db' : Prop := {
  sl_sound : Sound db';
  sl_seats : SeatsOk db';
  sl_freed slot id : Freed slot id db → Freed slot id db';
}.

Lemma Settled_refl db : Sound db → SeatsOk db → Settled db db.
Proof. by split. Qed.

Lemma Settled_trans db1 db2 db3 : Settled db1 db2 → Settled db2 db3 → Settled db1 db3.
Proof. intros [] []. split; auto. Qed.

Lemma classified_settled ck slot ids out db db' v : Sound db → SeatsOk db → classifySeatClaimsInPool ck slot ids out db = Ok (db', Ok v) → Settled db db'.
Proof.
  intros Hs Hk Hc. pose proof (proj1 (classified_spec _ _ _ _ _ _ _ Hc)) as Hsw. apply (sweep_steps free ck) in Hsw as [Hst _]. split.
  - by eapply steps_sound.
  - eapply (steps_keep free ck SeatsOk); [|done..]. intros d d'. apply move_seats.
  - intros s id. eapply (steps_keep free ck (Freed s id)); [|done..]. intros d d'. apply move_freed.
Qed.

Lemma classified_dead ck slot ids out db db' v s id : classifySeatClaimsInPool ck slot ids out db = Ok (db', Ok v) → Sound db' → Freed s id db' →
  out !! id = Some SeatClaimDead ∨ (slot = s ∧ id ∈ ids) → v !! id = Some SeatClaimDead.
Proof.
  unfold classifySeatClaimsInPool. intros (d & _ & [= <- <-])%bind_Ok Hs Hf. pose proof (finished_dead _ _ _ Hs Hf) as Hdead.
  destruct Hf as [(r & Hr & Hp & _) _].
  assert (Hset : ∀ l out, out !! id = Some SeatClaimDead → foldl (λ m id, match in_claims d !! id with
    | Some r => if in_pool slot r then <[id := claim_state slot id d]> m else m | None => m end) out l !! id = Some SeatClaimDead).
  { induction l as [|x l IH]; cbn; intros o Ho; [done|]. apply IH. destruct (in_claims d !! x) as [rx|] eqn:Hx; [|done].
    destruct (in_pool slot rx) eqn:Hpx; [|done]. destruct (decide (x = id)) as [->|Hne]; [|by rewrite lookup_insert_ne].
    rewrite lookup_insert_eq. rewrite Hr in Hx. injection Hx as <-. unfold in_pool in Hpx. apply bool_decide_eq_true in Hpx.
    by rewrite <-Hpx, Hp, Hdead. }
  intros [Ho|[-> Hin]]; [by apply Hset|]. revert out. induction ids as [|x ids IH]; cbn; intros out; [by apply not_elem_of_nil in Hin|].
  apply list.elem_of_cons in Hin as [<-|Hin]; [|by apply IH]. apply Hset. rewrite Hr. unfold in_pool. rewrite bool_decide_true by done.
  by rewrite lookup_insert_eq, Hdead.
Qed.

Lemma pools_settled clock pools : ∀ out db db' r, classify_pools clock pools out db = (db', r) → Sound db → SeatsOk db →
  (∀ id, out !! id = Some SeatClaimDead → ∃ slot, Freed slot id db) →
  Settled db db' ∧ ∀ v, r = Ok v →
    (∀ id, v !! id = Some SeatClaimDead → ∃ slot, Freed slot id db') ∧
    (∀ slot id, Freed slot id db → out !! id = Some SeatClaimDead ∨ (∃ ids, (slot, ids) ∈ pools ∧ id ∈ ids) → v !! id = Some SeatClaimDead).
Proof.
  induction pools as [|[slot ids] pools IH]; cbn; intros out db db' r Hc Hs Hk Ho.
  { injection Hc as <- <-. split; [by apply Settled_refl|]. intros v [= <-]. split; [done|]. by intros slot id _ [?|(ids & ?%not_elem_of_nil & _)]. }
  unfold transaction in Hc. destruct (classifySeatClaimsInPool _ _ _ _ _) as [[d [v|e]]|e] eqn:Hcl.
  - pose proof (classified_settled _ _ _ _ _ _ _ Hs Hk Hcl) as Hset. destruct Hset as [Hs' Hk' Hf'].
    apply IH in Hc as [Hset2 Hv]; [|done|done|].
    + split; [eapply Settled_trans; [|exact Hset2]; by split|]. intros v' Hr. destruct (Hv v' Hr) as [H1 H2]. split; [done|].
      intros s id Hf Hin. apply (H2 s id); [by apply Hf'|]. destruct Hin as [Hin|(l & [[= -> ->]|Hl]%list.elem_of_cons & Hid)].
      * left. eapply classified_dead; [exact Hcl|done|by apply Hf'|]. by left.
      * left. eapply classified_dead; [exact Hcl|done|by apply Hf'|]. by right.
      * right. by exists l.
    + intros id Hid. destruct (decide (out !! id = Some SeatClaimDead)) as [Hold|Hnew].
      * destruct (Ho id Hold) as [s Hf]. exists s. by apply Hf'.
      * exists slot. by apply (verdict_freed (clock slot) slot id ids out v SeatClaimDead db d).
  - unfold classifySeatClaimsInPool in Hcl. by apply bind_Ok in Hcl as (x & _ & [=]).
  - injection Hc as <- <-. split; [by apply Settled_refl|done].
Qed.

Lemma add_to_pool_keeps slot id l s ids x : (s, ids) ∈ l → x ∈ ids → ∃ ids', (s, ids') ∈ add_to_pool slot id l ∧ x ∈ ids'.
Proof.
  intros Hin Hx. unfold add_to_pool. case_bool_decide.
  - destruct (decide (s = slot)) as [->|Hne].
    + exists (ids ++ [id]). split; [|apply elem_of_app; by left]. apply list_elem_of_In, in_map_iff. exists (slot, ids).
      cbn. rewrite bool_decide_true by done. split; [done|by apply list_elem_of_In].
    + exists ids. split; [|done]. apply list_elem_of_In, in_map_iff. exists (s, ids). cbn. rewrite bool_decide_false by done. split; [done|by apply list_elem_of_In].
  - exists ids. split; [|done]. apply elem_of_app. by left.
Qed.

Lemma add_to_pool_adds slot id l : ∃ ids, (slot, ids) ∈ add_to_pool slot id l ∧ id ∈ ids.
Proof.
  unfold add_to_pool. case_bool_decide as Hin.
  - apply list_elem_of_In, in_map_iff in Hin as ([s ids] & <- & Hin). exists (ids ++ [id]). split; [|apply elem_of_app; right; apply list_elem_of_here].
    apply list_elem_of_In, in_map_iff. exists (s, ids). cbn. by rewrite bool_decide_true.
  - exists [id]. split; [apply elem_of_app; right|]; apply list_elem_of_here.
Qed.

Lemma grouped db ids : let st := foldl (group_claim db) (∅, []) ids in
  (∀ id s, st.1 !! id = Some s → s = SeatClaimUnknown) ∧
  ∀ id r, id ∈ ids → in_claims db !! id = Some r → ∃ l, (cl_PoolID r, l) ∈ st.2 ∧ id ∈ l.
Proof.
  assert (H : ∀ st, (∀ id s, st.1 !! id = Some s → s = SeatClaimUnknown) →
    (∀ id r, is_Some (st.1 !! id) → in_claims db !! id = Some r → ∃ l, (cl_PoolID r, l) ∈ st.2 ∧ id ∈ l) →
    let st' := foldl (group_claim db) st ids in
    (∀ id s, st'.1 !! id = Some s → s = SeatClaimUnknown) ∧
    ∀ id r, id ∈ ids ∨ is_Some (st.1 !! id) → in_claims db !! id = Some r → ∃ l, (cl_PoolID r, l) ∈ st'.2 ∧ id ∈ l).
  { induction ids as [|x ids IH]; intros st H1 H2; cbn; [split; [done|]; intros id r [?%not_elem_of_nil|?]; [done|by apply H2]|].
    assert (Hx : (∀ id s, (group_claim db st x).1 !! id = Some s → s = SeatClaimUnknown) ∧
      (∀ id r, is_Some ((group_claim db st x).1 !! id) → in_claims db !! id = Some r → ∃ l, (cl_PoolID r, l) ∈ (group_claim db st x).2 ∧ id ∈ l) ∧
      (∀ id, id = x ∨ is_Some (st.1 !! id) → is_Some ((group_claim db st x).1 !! id))).
    { unfold group_claim. destruct (st.1 !! x) as [sx|] eqn:Hsx; cbn [is_None negb].
      - split_and!; [done..|]. intros id [->|?]; [by eexists|done].
      - assert (Hlook : ∀ id, <[x := SeatClaimUnknown]> st.1 !! id = if decide (id = x) then Some SeatClaimUnknown else st.1 !! id).
        { intros id. case_decide as Hd; [subst; by rewrite lookup_insert_eq|by rewrite lookup_insert_ne]. }
        destruct (in_claims db !! x) as [r|] eqn:Hr; cbn [fst snd]; split_and!.
        + intros id s. rewrite Hlook. case_decide; [by intros [= <-]|by apply H1].
        + intros id r'. rewrite Hlook. case_decide as Hd.
          * subst. intros _. rewrite Hr. intros [= <-]. apply add_to_pool_adds.
          * intros Hi Hl. destruct (H2 id r' Hi Hl) as (l & Hin & Hid). by eapply add_to_pool_keeps.
        + intros id. rewrite Hlook. case_decide; [by eexists|]. by intros [?|?].
        + intros id s. rewrite Hlook. case_decide; [by intros [= <-]|by apply H1].
        + intros id r'. rewrite Hlook. case_decide as Hd; [subst; congruence|apply H2].
        + intros id. rewrite Hlook. case_decide; [by eexists|]. by intros [?|?]. }
    destruct Hx as (Hx1 & Hx2 & Hx3). destruct (IH (group_claim db st x) Hx1 Hx2) as [IH1 IH2]. split; [done|].
    intros id r Hin. apply IH2. destruct Hin as [[->|Hin]%list.elem_of_cons|Hin]; [right; apply Hx3; by left|by left|right; apply Hx3; by right]. }
  destruct (H (∅, [])) as [Ha Hb].
  - cbn. intros id s. by rewrite lookup_empty.
  - cbn. intros id r [x Hx]. by rewrite lookup_empty in Hx.
  - split; [done|]. intros id r Hin. apply Hb. by left.
Qed.

Lemma ReconcileSeatClaimStates_spec clock ids db db' r : ReconcileSeatClaimStates clock ids db = (db', r) → Sound db → SeatsOk db →
  Settled db db' ∧ ∀ v, r = Ok v →
    (∀ id, v !! id = Some SeatClaimDead → ∃ slot, Freed slot id db') ∧
    (∀ slot id, Freed slot id db → id ∈ ids → v !! id = Some SeatClaimDead).
Proof.
  unfold ReconcileSeatClaimStates. intros Hc Hs Hk. destruct (grouped db ids) as [Hun Hin]. apply pools_settled in Hc as [Hset Hv]; [|done|done|].
  - split; [done|]. intros v Hr. destruct (Hv v Hr) as [H1 H2]. split; [done|]. intros slot id Hf Hid. apply (H2 slot id Hf). right.
    destruct Hf as [(r0 & Hr0 & <- & _) _]. by apply Hin.
  - intros id Hid. by apply Hun in Hid.
Qed.
End Verdicts.

(** ** The listed pins *)

Section Listed.
Implicit Types (db : MapDB).

Definition pin_rows db : list SeatPin := map pin_payload (listed_pins db).

Definition payload (k : uuid) (p : PinRow) (m : uuid) : SeatPin := {|
  sp_ID := k; sp_OrganizerID := pn_OrganizerID p; sp_SeatMapID := m; sp_SeatIdentity := pn_Identity p; sp_PinnedBy := pn_PinnedBy p |}.

Lemma elem_of_pin_rows db q : q ∈ pin_rows db ↔ ∃ p m, ct_Pins db !! sp_ID q = Some p ∧
  newest_version (pn_Family p) (pn_OrganizerID p) db = Some m ∧ q = payload (sp_ID q) p m.
Proof.
  unfold pin_rows, listed_pins. rewrite list_elem_of_In, in_map_iff. split.
  - intros (lp & <- & ([k p] & Hk%elem_of_map_to_list & Hl)%list_elem_of_In%list_elem_of_omap). unfold listed_pin in Hl. cbn in Hl.
    apply fmap_Some in Hl as (m & Hm & ->). by exists p, m.
  - intros (p & m & Hk & Hm & Hq). exists {| lp_ID := sp_ID q; lp_OrganizerID := pn_OrganizerID p; lp_SeatMapID := m;
      lp_SeatIdentity := pn_Identity p; lp_PinnedBy := pn_PinnedBy p |}. split; [by rewrite Hq|].
    apply list_elem_of_In, list_elem_of_omap. exists (sp_ID q, p). rewrite elem_of_map_to_list. split; [done|]. unfold listed_pin. cbn. by rewrite Hm.
Qed.

Lemma newest_version_Some family org db m : newest_version family org db = Some m →
  ∃ x, ct_Maps db !! m = Some x ∧ sm_Family x = family ∧ sm_OrganizerID x = org.
Proof.
  unfold newest_version. intros ([id x] & Hh & Hm)%fmap_Some. cbn in Hm. subst m.
  assert (Hin : (id, x) ∈ family_versions family org false db).
  { rewrite <-(elem_of_isort version_before). by apply head_Some_elem_of. }
  apply elem_of_versions in Hin as (? & ? & ? & _). by exists x.
Qed.

Lemma newest_version_there family org db id x : ct_Maps db !! id = Some x → sm_Family x = family → sm_OrganizerID x = org →
  ∃ m, newest_version family org db = Some m.
Proof.
  intros Hx Hf Ho. unfold newest_version. destruct (isort version_before _) as [|v l] eqn:E; [|by eexists].
  assert (Hin : (id, x) ∈ family_versions family org false db) by by apply elem_of_versions.
  rewrite <-(elem_of_isort version_before), E in Hin. by apply not_elem_of_nil in Hin.
Qed.

(** The family that an unpin of a listed pin resolves is the pin's. *)
Lemma listed_family db q p : q ∈ pin_rows db → ct_Pins db !! sp_ID q = Some p →
  resolve_family (sp_SeatMapID q) (sp_OrganizerID q) db = Some (pn_Family p) ∧ sp_OrganizerID q = pn_OrganizerID p ∧
  sp_SeatIdentity q = pn_Identity p ∧ sp_PinnedBy q = pn_PinnedBy p.
Proof.
  intros (p' & m & Hp & Hm & Hq)%elem_of_pin_rows Hp'. rewrite Hp in Hp'. injection Hp' as <-. rewrite Hq. cbn. split; [|done].
  apply newest_version_Some in Hm as (x & Hx & Hf & Ho). unfold resolve_family. by rewrite Hx, bool_decide_true, Hf by done.
Qed.

Lemma pin_rows_ids db : NoDup (map sp_ID (pin_rows db)).
Proof.
  unfold pin_rows, listed_pins. rewrite map_map. cbn. pose proof (NoDup_fst_map_to_list (ct_Pins db)) as Hnd. revert Hnd.
    generalize (map_to_list (ct_Pins db)). intros l. induction l as [|[k p] l IH]; cbn; [constructor|]. intros [Hk Hl]%list.NoDup_cons.
    unfold listed_pin at 1. cbn. destruct (newest_version _ _ db) as [m|]; cbn; [|by apply IH]. apply list.NoDup_cons. split; [|by apply IH].
    intros (lp & Hid & ([k' p'] & Hin & Hlp)%list_elem_of_In%list_elem_of_omap)%list_elem_of_In%in_map_iff. apply Hk.
    unfold listed_pin in Hlp. apply fmap_Some in Hlp as (m' & _ & ->). cbn in Hid. subst k'. by apply (list_elem_of_fmap_2 fst) in Hin.
Qed.

Lemma pin_rows_keyed db : keyed sp_ID (pin_rows db).
Proof.
  split; [apply (NoDup_fmap_1 sp_ID), pin_rows_ids|]. intros a b Ha Hb Hab.
  apply elem_of_pin_rows in Ha as (p & m & Hp & Hm & Ha). apply elem_of_pin_rows in Hb as (p' & m' & Hp' & Hm' & Hb).
  rewrite Hab, Hp' in Hp. injection Hp as ->. rewrite Hm in Hm'. injection Hm' as ->. by rewrite Ha, Hb, Hab.
Qed.

Lemma accept_pins l : ∀ st st', fold_result accept_pin st l = Ok st' → st'.2 = st.2 ++ l.
Proof.
  induction l as [|q l IH]; cbn; intros st st'; [intros [= <-]; by rewrite app_nil_r|]. unfold accept_pin at 1. destruct (negb (pin_complete q)); [done|].
  destruct (_ && _); [done|]. intros ->%IH. cbn. by rewrite <-app_assoc.
Qed.

Lemma served_page after k db page : listSeatPins after (Z.of_nat k) (handle_list_pins after (Z.of_nat k) db) = Ok page →
  (0 < k)%nat ∧ page = take k (isort (on_key sp_ID uuid_ltb) (List.filter (λ q, uuid_ltb after (sp_ID q)) (pin_rows db))).
Proof.
  unfold listSeatPins, handle_list_pins, ListSeatMapPins. destruct (Z.leb_spec (Z.of_nat k) 0); [done|]. cbn [orb].
  destruct (_ <? _); [done|]. cbn [negb]. destruct (_ >? _); [done|]. intros (st & Hst & [= <-])%bind_Ok. split; [lia|].
  apply accept_pins in Hst as ->. cbn [snd app]. rewrite Nat2Z.id, <-firstn_map. f_equal.
  rewrite <-(isort_map (on_key lp_ID uuid_ltb) (on_key sp_ID uuid_ltb) pin_payload) by done. f_equal.
  unfold pin_rows. by rewrite (bool_filter_map (λ p, uuid_ltb after (lp_ID p))).
Qed.
End Listed.

(** ** The groups of a page *)

Definition keys_tell (l : list SeatPin) : Prop := ∀ q q', q ∈ l → q' ∈ l → group_key q = group_key q' →
  sp_OrganizerID q = sp_OrganizerID q' ∧ sp_SeatMapID q = sp_SeatMapID q' ∧ sp_PinnedBy q = sp_PinnedBy q'.

Definition seat_count (groups : list (string * unpinGroup)) : nat := list_sum (map (λ g, length (ug_seats g.2)) groups).

Lemma seat_count_cons g groups : seat_count (g :: groups) = (length (ug_seats g.2) + seat_count groups)%nat.
Proof. done. Qed.

Record InGroup (l : list SeatPin) (g : string * unpinGroup) (q : SeatPin) : Prop := {
  ig_in : q ∈ l;
  ig_key : g.1 = group_key q;
  ig_org : ug_org g.2 = sp_OrganizerID q;
  ig_map : ug_seatMap g.2 = sp_SeatMapID q;
  ig_by : ug_pinnedBy g.2 = sp_PinnedBy q;
}.

Record Grouped (l : list SeatPin) (groups : list (string * unpinGroup)) : Prop := {
  gp_keys : NoDup (map fst groups);
  gp_seats g seat : g ∈ groups → seat ∈ ug_seats g.2 → ∃ q, InGroup l g q ∧ sp_SeatIdentity q = seat;
  gp_all q : q ∈ l → ∃ g, g ∈ groups ∧ InGroup l g q ∧ sp_SeatIdentity q ∈ ug_seats g.2;
  gp_some g : g ∈ groups → ∃ q, InGroup l g q;
  gp_count : seat_count groups = length l;
}.

Lemma InGroup_more l l' g q : l ⊆ l' → InGroup l g q → InGroup l' g q.
Proof. intros Hl []. split; auto. Qed.

Lemma add_seat_grouped l q groups : Grouped l groups → keys_tell (l ++ [q]) → Grouped (l ++ [q]) (add_seat q groups).
Proof.
  intros [Hk Hs Ha Hso Hc] Ht. assert (Hsub : l ⊆ l ++ [q]) by (intros x; rewrite elem_of_app; by left).
  assert (Hq : q ∈ l ++ [q]) by (apply elem_of_app; right; apply list_elem_of_here).
  unfold add_seat. case_bool_decide as Hin.
  - set (ext := λ g : string * unpinGroup, if bool_decide (g.1 = group_key q) then (g.1, {| ug_org := ug_org g.2; ug_seatMap := ug_seatMap g.2;
      ug_pinnedBy := ug_pinnedBy g.2; ug_seats := ug_seats g.2 ++ [sp_SeatIdentity q] |}) else g).
    assert (Hext : ∀ g x, InGroup l g x → InGroup (l ++ [q]) (ext g) x).
    { intros g x Hx. apply (InGroup_more _ (l ++ [q])) in Hx; [|done]. unfold ext. case_bool_decide; [|done]. by destruct Hx. }
    assert (Hown : ∀ g, g ∈ groups → g.1 = group_key q → InGroup (l ++ [q]) (ext g) q).
    { intros g Hg Hkey. destruct (Hso g Hg) as [x Hx]. apply Hext in Hx. destruct Hx as [Hx1 Hx2 Hx3 Hx4 Hx5]. unfold ext in *.
      rewrite bool_decide_true in * by done. cbn in *. destruct (Ht x q Hx1 Hq) as (Ho & Hm & Hb); [congruence|]. split; cbn; congruence. }
    split.
    + rewrite map_map. rewrite (map_ext _ fst); [done|]. intros g. unfold ext. by case_bool_decide.
    + intros g' seat (g & <- & Hg)%list_elem_of_In%in_map_iff. apply list_elem_of_In in Hg. fold (ext g). intros Hseat.
      assert (Hcase : seat ∈ ug_seats g.2 ∨ (g.1 = group_key q ∧ seat = sp_SeatIdentity q)).
      { unfold ext in Hseat. case_bool_decide; [|by left]. cbn in Hseat. apply elem_of_app in Hseat as [?| ->%list_elem_of_singleton]; auto. }
      destruct Hcase as [Hold|[Hkey ->]]; [|exists q; split; [by apply Hown|done]]. destruct (Hs g seat Hg Hold) as (x & Hx & <-). exists x. auto.
    + intros x [Hx| ->%list_elem_of_singleton]%elem_of_app.
      * destruct (Ha x Hx) as (g & Hg & Hgx & Hseat). exists (ext g). split_and!; [apply list_elem_of_In, (in_map ext); by apply list_elem_of_In|auto|].
        unfold ext. case_bool_decide; [|done]. cbn. apply elem_of_app. by left.
      * apply list_elem_of_In, in_map_iff in Hin as (g & Hkey & Hg%list_elem_of_In). exists (ext g).
        split_and!; [by apply list_elem_of_In, in_map, list_elem_of_In|by apply Hown|]. unfold ext. rewrite bool_decide_true by done. cbn.
        apply elem_of_app. right. apply list_elem_of_here.
    + intros g' (g & <- & Hg)%list_elem_of_In%in_map_iff. apply list_elem_of_In in Hg. destruct (Hso g Hg) as [x Hx]. exists x. by apply Hext.
    + rewrite length_app, <-Hc. cbn [length]. clear -Hk Hin. induction groups as [|g groups IH]; [by apply not_elem_of_nil in Hin|].
      cbn in Hk, Hin. apply list.NoDup_cons in Hk as [Hg Hk]. cbn [map]. rewrite !seat_count_cons. unfold ext at 1. case_bool_decide as Hkey.
      * cbn [snd ug_seats]. rewrite length_app. cbn [length]. assert (Hsame : map ext groups = groups); [|rewrite Hsame; lia].
        rewrite <-(map_id groups) at 2. apply map_ext_in. intros x Hx. unfold ext. rewrite bool_decide_false; [done|]. intros He. apply Hg.
        rewrite Hkey, <-He. by apply list_elem_of_In, in_map.
      * apply list.elem_of_cons in Hin as [He|Hin]; [congruence|]. rewrite IH by done. lia.
  - split.
    + rewrite map_app. cbn. apply list.NoDup_app. split_and!; [done| |apply NoDup_singleton]. by intros x Hx ->%list_elem_of_singleton.
    + intros g seat [Hg| ->%list_elem_of_singleton]%elem_of_app Hseat.
      * destruct (Hs g seat Hg Hseat) as (x & Hx & <-). exists x. split; [by eapply InGroup_more|done].
      * cbn in Hseat. apply list_elem_of_singleton in Hseat as ->. exists q. split; [by split|done].
    + intros x [Hx| ->%list_elem_of_singleton]%elem_of_app.
      * destruct (Ha x Hx) as (g & Hg & Hgx & Hseat). exists g. split_and!; [apply elem_of_app; by left|by eapply InGroup_more|done].
      * eexists. split_and!; [apply elem_of_app; right; apply list_elem_of_here|by split|apply list_elem_of_here].
    + intros g [Hg| ->%list_elem_of_singleton]%elem_of_app; [|exists q; by split]. destruct (Hso g Hg) as [x Hx]. exists x. by eapply InGroup_more.
    + unfold seat_count in *. rewrite map_app, list_sum_app, Hc, length_app. cbn. lia.
Qed.

Lemma grouped_all l : ∀ pre groups, Grouped pre groups → keys_tell (pre ++ l) → Grouped (pre ++ l) (foldl (λ gs q, add_seat q gs) groups l).
Proof.
  induction l as [|q l IH]; cbn; intros pre groups Hg Ht; [by rewrite app_nil_r|]. rewrite cons_middle, app_assoc. apply IH.
  - apply add_seat_grouped; [done|]. intros a b Ha Hb. apply Ht; rewrite elem_of_app in *; rewrite list.elem_of_cons; set_solver.
  - by rewrite <-app_assoc.
Qed.

Lemma grouped_nil : Grouped [] [].
Proof. split; cbn; try done; [constructor|..]; intros *; by intros ?%not_elem_of_nil. Qed.

(** ** The keys *)

Definition no_bar (s : string) : bool := negb (existsb (Ascii.eqb (Ascii.ascii_of_nat 124)) (list_ascii_of_string s)).

Lemma bar_split a : ∀ a' s s', no_bar a = true → no_bar a' = true → a +:+ "|" +:+ s = a' +:+ "|" +:+ s' → a = a' ∧ s = s'.
Proof.
  unfold no_bar. induction a as [|c a IH]; intros [|c' a'] s s' Ha Ha' He; rewrite negb_true_iff in Ha, Ha'.
  - injection He as He. exact (conj eq_refl He).
  - injection He as Hc _. cbn in Ha'. apply orb_false_iff in Ha' as [Ha' _]. rewrite <-Hc in Ha'. done.
  - injection He as Hc _. cbn in Ha. apply orb_false_iff in Ha as [Ha _]. rewrite Hc in Ha. done.
  - injection He as Hc He. cbn in Ha, Ha'. apply orb_false_iff in Ha as [_ Ha]. apply orb_false_iff in Ha' as [_ Ha'].
    destruct (IH a' s s') as [-> ->]; rewrite ?negb_true_iff; [done..|]. by rewrite Hc.
Qed.

Definition plain (u : uuid) : Prop := no_bar (uuid_String u) = true.

Lemma plain_keys_tell `{!UUIDLaws} l : (∀ q, q ∈ l → plain (sp_OrganizerID q) ∧ plain (sp_SeatMapID q)) → keys_tell l.
Proof.
  intros Hp q q' Hq Hq' Hk. destruct (Hp q Hq) as [H1 H2]. destruct (Hp q' Hq') as [H1' H2']. unfold group_key in Hk.
  apply bar_split in Hk as [Ho Hk]; [|done..]. apply bar_split in Hk as [Hm Hb]; [|done..].
  split_and!; [by apply (inj uuid_String)..|done].
Qed.

(** ** A page *)

Record PinInv (w : PinWorld) : Prop := {
  pi_maps : MapInv (pw_catalog w);
  pi_pins : Distinct pin_clash (ct_Pins (pw_catalog w));
  pi_ids k p : ct_Pins (pw_catalog w) !! k = Some p → uuid_ltb uuid_Nil k = true;
  pi_plain id m : ct_Maps (pw_catalog w) !! id = Some m → plain id ∧ plain (sm_OrganizerID m);
  pi_sound : Sound (pw_inventory w);
  pi_seats : SeatsOk (pw_inventory w);
}.

(** The pin stands for a claim that is finished for good. *)
Definition dead_pin (inv : InventoryDB) (pinnedBy : string) : Prop := ∃ claim slot, pin_kind pinnedBy = HoldPin claim ∧ Freed slot claim inv.

Lemma dead_pin_settled db db' s : Settled db db' → dead_pin db s → dead_pin db' s.
Proof. intros Hs (claim & slot & Hk & Hf). exists claim, slot. split; [done|]. by apply (sl_freed _ _ Hs). Qed.

(** What is taken is a pin of the page, and dead. *)
Record Drains (page : list SeatPin) (w w' : PinWorld) : Prop := {
  dr_inv : PinInv w';
  dr_tables : OnlyPins (pw_catalog w) (pw_catalog w');
  dr_subset : ct_Pins (pw_catalog w') ⊆ ct_Pins (pw_catalog w);
  dr_dead k p : ct_Pins (pw_catalog w) !! k = Some p → ct_Pins (pw_catalog w') !! k = None →
    (∃ q, q ∈ page ∧ sp_ID q = k) ∧ dead_pin (pw_inventory w') (pn_PinnedBy p);
  dr_settled : Settled (pw_inventory w) (pw_inventory w');
}.

Lemma Drains_refl page w : PinInv w → Drains page w w.
Proof. intros Hi. split; try done; [|by apply Settled_refl; apply Hi]. intros k p H1 H2. congruence. Qed.

Lemma Drains_trans page w1 w2 w3 : Drains page w1 w2 → Drains page w2 w3 → Drains page w1 w3.
Proof.
  intros [I1 [T1 T2 T3 T4] S1 D1 L1] [I2 [U1 U2 U3 U4] S2 D2 L2]. split; [done|split; congruence|by etrans| |by eapply Settled_trans].
  intros k p Hk Hn. destruct (ct_Pins (pw_catalog w2) !! k) as [p2|] eqn:H2.
  - assert (p2 = p) as -> by (pose proof (lookup_weaken _ _ _ _ H2 S1); congruence). by apply D2.
  - destruct (D1 k p Hk H2) as [Hq Hd]. split; [done|]. by eapply dead_pin_settled.
Qed.

Lemma Drains_more page page' w w' : page ⊆ page' → Drains page w w' → Drains page' w w'.
Proof. intros Hp []. split; try done. intros k p Hk Hn. destruct (dr_dead0 k p Hk Hn) as [(q & Hq & Hid) ?]. split; [|done]. exists q. auto. Qed.

Definition end_of {A B} (r : result (A * B) A) : A := match r with Ok n => n | Err (n, _) => n end.

(** An unpin of one claim's seats under one map. *)
Lemma unpins_lookup org family pinnedBy l : ∀ db k p, ct_Pins (foldl (unpin_one org family pinnedBy) db l) !! k = Some p ↔
  ct_Pins db !! k = Some p ∧ ¬ (pn_OrganizerID p = org ∧ pn_Family p = family ∧ pn_PinnedBy p = pinnedBy ∧ pn_Identity p ∈ l).
Proof.
  induction l as [|x l IH]; cbn; intros db k p.
  - split; [|by intros [? _]]. intros Hk. split; [done|]. by intros (_ & _ & _ & ?%not_elem_of_nil).
  - rewrite IH. unfold unpin_one. cbn. rewrite map_lookup_filter_Some. cbn. unfold is_pin. rewrite list.elem_of_cons.
    rewrite <-not_true_iff_false, !andb_true_iff, !bool_decide_eq_true. tauto.
Qed.

Section Page.
Context `{!UUIDLaws} (env : PinEnv) (w0 : PinWorld) (page : list SeatPin).
Hypothesis inv0 : PinInv w0.
Hypothesis listed : ∀ q, q ∈ page → q ∈ pin_rows (pw_catalog w0).

Abbreviation step := (unpin_group (Services env)).

Lemma page_keys : keys_tell page.
Proof.
  apply plain_keys_tell. intros q Hq. apply listed, elem_of_pin_rows in Hq as (p & m & _ & (x & Hx & _ & Ho)%newest_version_Some & Hq).
  rewrite Hq. cbn. rewrite <-Ho. split; by eapply pi_plain.
Qed.

Lemma unpins_inv_world w : PinInv w → ∀ db', MapInv db' → ct_Maps db' = ct_Maps (pw_catalog w) → ct_Pins db' ⊆ ct_Pins (pw_catalog w) →
  PinInv {| pw_catalog := db'; pw_inventory := pw_inventory w |}.
Proof.
  intros [] db' Hm Hmaps Hsub. split; cbn; try done.
  - intros i j a b Ha Hb. apply (pi_pins0 i j); by eapply lookup_weaken.
  - intros k p Hk. eapply pi_ids0. by eapply lookup_weaken.
  - by rewrite Hmaps.
Qed.

(** A call that unpins does what the store does, or nothing. *)
Lemma unpin_call org seatMap seats pinnedBy w w' a : pr_unpin (Services env) org seatMap seats pinnedBy w = (w', a) →
  (w' = w ∨ ∃ db', UnpinSeats org seatMap seats pinnedBy (pw_catalog w) = Ok db' ∧ w' = {| pw_catalog := db'; pw_inventory := pw_inventory w |}) ∧
  (a = Some tt → seats ≠ [] → resolve_family seatMap org (pw_catalog w) ≠ None →
     ∃ db', UnpinSeats org seatMap seats pinnedBy (pw_catalog w) = Ok db' ∧ w' = {| pw_catalog := db'; pw_inventory := pw_inventory w |}).
Proof.
  cbn. unfold handle_unpins, batchPin. destruct w as [db inv]. cbn [pw_catalog pw_inventory].
  destruct (decodeSeatPinRequest org seats pinnedBy); cbn [negb].
  - destruct (UnpinSeats org seatMap seats pinnedBy db) as [db'|e] eqn:Hun.
    + destruct (pe_unpin env _ _ _ _); intros [= <- <-]; (split; [eauto|]); intros Ha; try done. by exists db'.
    + assert (Hnone : resolve_family seatMap org db ≠ None → seats ≠ [] → False).
      { revert Hun. unfold UnpinSeats. case_bool_decide; [done|]. by destruct (resolve_family _ _ _). }
      destruct (pe_unpin env _ _ _ _); destruct e; intros [= <- <-]; (split; [by left|]); intros Ha Hs Hr; by destruct (Hnone Hr Hs).
  - destruct (pe_unpin env _ _ _ _); intros [= <- <-]; (split; [by left|]); intros Ha Hs Hr; try done. exfalso.
    revert Ha. by rewrite bool_decide_false by (by destruct seats).
Qed.

Lemma UnpinSeats_pins org seatMap seats pinnedBy db db' : UnpinSeats org seatMap seats pinnedBy db = Ok db' → MapInv db →
  MapInv db' ∧ OnlyPins db db' ∧ (∀ k p, ct_Pins db' !! k = Some p → ct_Pins db !! k = Some p) ∧
  (∀ k p, ct_Pins db !! k = Some p → ct_Pins db' !! k = None ↔
     pn_OrganizerID p = org ∧ resolve_family seatMap org db = Some (pn_Family p) ∧ pn_PinnedBy p = pinnedBy ∧ pn_Identity p ∈ seats).
Proof.
  intros Hun Hm. split_and!; [|by eapply UnpinSeats_only|..]; revert Hun; unfold UnpinSeats; case_bool_decide as Hlen; intros Hun.
  - by injection Hun as <-.
  - destruct (resolve_family _ _ _); [|done]. injection Hun as <-. by apply unpins_inv.
  - by injection Hun as <-.
  - destruct (resolve_family _ _ _); [|done]. injection Hun as <-. by intros k p [? _]%unpins_lookup.
  - injection Hun as <-. intros k p Hk. rewrite Hk. split; [done|]. intros (_ & _ & _ & Hin). destruct seats; [by apply not_elem_of_nil in Hin|done].
  - destruct (resolve_family _ _ _) as [family|]; [|done]. injection Hun as <-. intros k p Hk.
    destruct (ct_Pins (foldl _ db seats) !! k) as [p'|] eqn:Hp.
    + split; [done|]. intros (H1 & [= H2] & H3 & H4). apply unpins_lookup in Hp as [Hp Hn]. rewrite Hk in Hp. injection Hp as <-. by destruct Hn.
    + split; [|done]. intros _. destruct (decide (pn_OrganizerID p = org ∧ pn_Family p = family ∧ pn_PinnedBy p = pinnedBy ∧ pn_Identity p ∈ seats)) as [(H1 & H2 & H3 & H4)|Hn].
      * by rewrite H2.
      * exfalso. assert (Hsome : ct_Pins (foldl (unpin_one org family pinnedBy) db seats) !! k = Some p) by by apply unpins_lookup. congruence.
Qed.

(** A group whose claim is dead: only its pins go, and all of them if it succeeds. *)
Lemma unpin_group_drains n g l : Drains page w0 (rn_store n) → l ⊆ page → (∀ q, q ∈ l → dead_pin (pw_inventory (rn_store n)) (sp_PinnedBy q)) →
  (∀ seat, seat ∈ ug_seats g.2 → ∃ q, InGroup l g q ∧ sp_SeatIdentity q = seat) →
  let w' := rn_store (end_of (step n g)) in
  Drains page w0 w' ∧ pw_inventory w' = pw_inventory (rn_store n) ∧ ct_Pins (pw_catalog w') ⊆ ct_Pins (pw_catalog (rn_store n)) ∧
  ∀ n', step n g = Ok n' → rn_stats n' = tally Reclaimed (length (ug_seats g.2)) (rn_stats n) ∧
    ∀ q, InGroup l g q → sp_SeatIdentity q ∈ ug_seats g.2 → ct_Pins (pw_catalog (rn_store n')) !! sp_ID q = None.
Proof.
  intros Hd Hl Hdead Hg. set (w := rn_store n) in *. unfold unpin_group. fold w.
  destruct (pr_unpin (Services env) _ _ _ _ w) as [w' a] eqn:Hcall. apply unpin_call in Hcall as [Heither Hdone].
  pose proof (dr_inv _ _ _ Hd) as Hinv.
  assert (Hresolve : ∀ q p, InGroup l g q → ct_Pins (pw_catalog w) !! sp_ID q = Some p →
    resolve_family (ug_seatMap g.2) (ug_org g.2) (pw_catalog w) = Some (pn_Family p) ∧ ug_org g.2 = pn_OrganizerID p ∧
    sp_SeatIdentity q = pn_Identity p ∧ ug_pinnedBy g.2 = pn_PinnedBy p).
  { intros q p [Hq _ -> -> ->] Hp. pose proof (lookup_weaken _ _ _ _ Hp (dr_subset _ _ _ Hd)) as Hp0.
    destruct (listed_family _ _ _ (listed q (Hl q Hq)) Hp0) as (H1 & H2 & H3 & H4). split_and!; [|done..].
    unfold resolve_family in *. by rewrite (op_maps _ _ (dr_tables _ _ _ Hd)). }
  assert (Hstep : ∀ db', UnpinSeats (ug_org g.2) (ug_seatMap g.2) (ug_seats g.2) (ug_pinnedBy g.2) (pw_catalog w) = Ok db' →
    Drains page w {| pw_catalog := db'; pw_inventory := pw_inventory w |} ∧ ct_Pins db' ⊆ ct_Pins (pw_catalog w) ∧
    ∀ q, InGroup l g q → sp_SeatIdentity q ∈ ug_seats g.2 → ct_Pins db' !! sp_ID q = None).
  { intros db' Hun. apply UnpinSeats_pins in Hun as (Hm & Ho & Hsub & Hgone); [|apply Hinv].
    assert (Hsub' : ct_Pins db' ⊆ ct_Pins (pw_catalog w)) by (apply map_subseteq_spec; exact Hsub).
    split_and!; [|done|].
    - split; cbn; [|done|done| |apply Settled_refl; apply Hinv].
      + by apply (unpins_inv_world w); [|..|apply Ho|].
      + intros k p Hk Hn. apply (Hgone k p Hk) in Hn as (H1 & H2 & H3 & H4). destruct (Hg _ H4) as (q & Hq & Hid).
        pose proof (listed q (Hl q (ig_in _ _ _ Hq))) as Hlq. apply elem_of_pin_rows in Hlq as (p0 & m & Hp0 & Hm0 & Hq0).
        destruct (listed_family _ _ _ (listed q (Hl q (ig_in _ _ _ Hq))) Hp0) as (F1 & F2 & F3 & F4).
        assert (Hf : pn_Family p = pn_Family p0).
        { rewrite (ig_map _ _ _ Hq), (ig_org _ _ _ Hq) in H2. unfold resolve_family in H2, F1.
          rewrite (op_maps _ _ (dr_tables _ _ _ Hd)) in H2. congruence. }
        assert (k = sp_ID q) as ->.
        { destruct (decide (k = sp_ID q)) as [|Hne]; [done|].
          pose proof (pi_pins _ inv0 k (sp_ID q) p p0 (lookup_weaken _ _ _ _ Hk (dr_subset _ _ _ Hd)) Hp0 Hne) as Hc. unfold pin_clash in Hc.
          rewrite Hf, H3, (ig_by _ _ _ Hq), F4, <-Hid, F3, !bool_decide_true in Hc; done. }
        split; [exists q; split; [apply Hl, Hq|done]|]. rewrite H3, (ig_by _ _ _ Hq). apply Hdead, Hq.
    - intros q Hq Hin. destruct (ct_Pins (pw_catalog w) !! sp_ID q) as [p|] eqn:Hp.
      + apply (Hgone _ _ Hp). destruct (Hresolve q p Hq Hp) as (R1 & R2 & R3 & R4). rewrite <-R3. done.
      + destruct (ct_Pins db' !! sp_ID q) eqn:Hp'; [|done]. apply Hsub in Hp'. congruence. }
  assert (Hend : ∀ n'' : PinRun, rn_store n'' = w' → Drains page w0 (rn_store n'') ∧ pw_inventory (rn_store n'') = pw_inventory w ∧
    ct_Pins (pw_catalog (rn_store n'')) ⊆ ct_Pins (pw_catalog w)).
  { intros n'' ->. destruct Heither as [->|(db' & Hun & ->)]; [done|]. destruct (Hstep db' Hun) as (H1 & H2 & _).
    split_and!; [by eapply Drains_trans|done|done]. }
  destruct a as [[]|]; cbn; (split; [|split; [|split]]); try (by apply (Hend {| rn_store := w'; rn_stats := rn_stats n |})); [|done].
  intros n' [= <-]. cbn. split; [done|]. intros q Hq Hin. destruct (ct_Pins (pw_catalog w) !! sp_ID q) as [p|] eqn:Hp.
  - destruct (Hresolve q p Hq Hp) as (R1 & _). destruct Hdone as (db' & Hun & ->); [done|by intros Hn; rewrite Hn in Hin; apply not_elem_of_nil in Hin|congruence|].
    destruct (Hstep db' Hun) as (_ & _ & H3). by apply H3.
  - destruct (ct_Pins (pw_catalog w') !! sp_ID q) eqn:Hp'; [|done]. destruct (Hend {| rn_store := w'; rn_stats := rn_stats n |} eq_refl) as (_ & _ & Hsub).
    pose proof (lookup_weaken _ _ _ _ Hp' Hsub). congruence.
Qed.

Lemma bucketed_tally b n s : bucketed (tally b n s) = (bucketed s + n)%nat.
Proof. unfold bucketed, tally. cbn. destruct b; repeat case_bool_decide; try done; lia. Qed.

Lemma unpins_drain l groups : l ⊆ page → ∀ n, Drains page w0 (rn_store n) → (∀ q, q ∈ l → dead_pin (pw_inventory (rn_store n)) (sp_PinnedBy q)) →
  (∀ g seat, g ∈ groups → seat ∈ ug_seats g.2 → ∃ q, InGroup l g q ∧ sp_SeatIdentity q = seat) →
  let r := fold_result step n groups in let w' := rn_store (end_of r) in
  Drains page w0 w' ∧ pw_inventory w' = pw_inventory (rn_store n) ∧ ct_Pins (pw_catalog w') ⊆ ct_Pins (pw_catalog (rn_store n)) ∧
  ∀ n', r = Ok n' → ps_Scanned (rn_stats n') = ps_Scanned (rn_stats n) ∧ bucketed (rn_stats n') = (bucketed (rn_stats n) + seat_count groups)%nat ∧
    ∀ g q, g ∈ groups → InGroup l g q → sp_SeatIdentity q ∈ ug_seats g.2 → ct_Pins (pw_catalog (rn_store n')) !! sp_ID q = None.
Proof.
  intros Hl. induction groups as [|g groups IH]; cbn zeta; cbn [fold_result]; intros n Hd Hdead Hg.
  { cbn. split_and!; [done..|]. intros n' [= <-]. split_and!; [done|unfold seat_count; cbn; lia|]. by intros g q ?%not_elem_of_nil. }
  destruct (unpin_group_drains n g l Hd Hl Hdead (λ seat, Hg g seat (list_elem_of_here _ _))) as (H1 & H2 & H3 & H4).
  destruct (step n g) as [n1|[n1 e]]; cbn [end_of] in H1, H2, H3 |- *; [|by split_and!].
  destruct (H4 n1 eq_refl) as [Hs Hgone]. rewrite <-H2 in Hdead.
  destruct (IH n1 H1 Hdead (λ g seat Hin, Hg g seat (list_elem_of_further _ _ _ Hin))) as (I1 & I2 & I3 & I4).
  split_and!; [done|congruence|by etrans|]. intros n' Hok. destruct (I4 n' Hok) as (J1 & J2 & J3). rewrite Hs in J1, J2. rewrite bucketed_tally in J2.
  split_and!; [done|rewrite seat_count_cons; lia|]. intros g' q [->|Hin]%list.elem_of_cons Hq Hseat; [|by eapply J3].
  destruct (ct_Pins (pw_catalog (rn_store n')) !! sp_ID q) eqn:Hp; [|done]. rewrite Hok in I3. cbn in I3.
  pose proof (lookup_weaken _ _ _ _ Hp I3) as Hc. by rewrite (Hgone q Hq Hseat) in Hc.
Qed.

Definition hold_of (q : SeatPin) : option (SeatPin * uuid) := match pin_kind (sp_PinnedBy q) with HoldPin id => Some (q, id) | _ => None end.

Lemma sorted_pins l : ∀ st, let st' := foldl sort_pin st l in
  st'.1.2 = st.1.2 ++ omap hold_of l ∧ ps_Scanned st'.1.1 = ps_Scanned st.1.1 ∧
  (bucketed st'.1.1 + length (omap hold_of l))%nat = (bucketed st.1.1 + length l)%nat ∧ st.2 ⊆ st'.2 ∧ ∀ h, h ∈ omap hold_of l → h.2 ∈ st'.2.
Proof.
  induction l as [|q l IH]; intros [[st hs] ids]; cbn zeta.
  { cbn. rewrite app_nil_r. split_and!; [done..|]. by intros h ?%not_elem_of_nil. }
  change (foldl sort_pin (st, hs, ids) (q :: l)) with (foldl sort_pin (sort_pin (st, hs, ids) q) l).
  pose proof (IH (sort_pin (st, hs, ids) q)) as Hrest. clear IH. change (omap hold_of (q :: l)) with (match hold_of q with Some h => h :: omap hold_of l | None => omap hold_of l end).
  assert (Hq : sort_pin (st, hs, ids) q = match pin_kind (sp_PinnedBy q) with
    | OtherPin => (tally Other 1 st, hs, ids) | MalformedPin => (tally Malformed 1 st, hs, ids)
    | HoldPin id => (st, hs ++ [(q, id)], if bool_decide (id ∈ ids) then ids else ids ++ [id]) end) by done.
  rewrite Hq in *. clear Hq.
  assert (Hh : hold_of q = match pin_kind (sp_PinnedBy q) with HoldPin id => Some (q, id) | _ => None end) by done. rewrite Hh. clear Hh. destruct (pin_kind (sp_PinnedBy q)) as [| |id]; destruct Hrest as (I1 & I2 & I3 & I4 & I5); cbn [fst snd length] in *.
  - rewrite bucketed_tally in I3. split_and!; [done..|lia|done|done].
  - rewrite bucketed_tally in I3. split_and!; [done..|lia|done|done].
  - rewrite I1, <-app_assoc. split_and!; [done..|lia| |].
    + etrans; [|exact I4]. case_bool_decide; [done|]. intros x Hx. apply elem_of_app. by left.
    + intros h [->|Hh]%list.elem_of_cons; [|by apply I5]. apply I4. cbn. case_bool_decide; [done|]. apply elem_of_app. right. apply list_elem_of_here.
Qed.

Definition dead_holds (states : gmap uuid SeatClaimState) (hs : list (SeatPin * uuid)) : list SeatPin :=
  map fst (List.filter (λ h : SeatPin * uuid, bool_decide (states !! h.2 = Some SeatClaimDead)) hs).

Lemma judged states hs : ∀ st st', fold_result (judge states) st hs = Ok st' →
  st'.2 = foldl (λ gs q, add_seat q gs) st.2 (dead_holds states hs) ∧ ps_Scanned st'.1 = ps_Scanned st.1 ∧
  (bucketed st'.1 + length (dead_holds states hs))%nat = (bucketed st.1 + length hs)%nat.
Proof.
  induction hs as [|h hs IH]; cbn [fold_result]; intros st st'; [intros [= <-]; cbn; split_and!; [done..|lia]|].
  unfold dead_holds, judge at 1. cbn [List.filter]. destruct (states !! h.2) as [[]|] eqn:Hh; [| | |done]; cbn [mbind result_bind];
    intros (I1 & I2 & I3)%IH; cbn [fst snd] in *; rewrite ?bucketed_tally in I3; unfold dead_holds in *.
  - rewrite (bool_decide_false (Some SeatClaimLive = Some SeatClaimDead)) by done. split_and!; [done..|cbn [length]; lia].
  - rewrite bool_decide_true by done. cbn [map foldl length]. split_and!; [done..|lia].
  - rewrite (bool_decide_false (Some SeatClaimUnknown = Some SeatClaimDead)) by done. split_and!; [done..|cbn [length]; lia].
Qed.

Lemma elem_of_dead_holds states l q : q ∈ dead_holds states (omap hold_of l) ↔
  q ∈ l ∧ ∃ id, pin_kind (sp_PinnedBy q) = HoldPin id ∧ states !! id = Some SeatClaimDead.
Proof.
  unfold dead_holds. rewrite list_elem_of_In, in_map_iff. split.
  - intros ([q' id] & <- & [Hh%list_elem_of_In Hd%bool_decide_eq_true]%filter_In). apply list_elem_of_omap in Hh as (x & Hx & Hhx).
    unfold hold_of in Hhx. destruct (pin_kind (sp_PinnedBy x)) eqn:Hk; [done|done|]. injection Hhx as -> ->. cbn. split; [done|]. by exists id.
  - intros (Hq & id & Hk & Hd). exists (q, id). split; [done|]. apply filter_In. rewrite bool_decide_eq_true. split; [|done].
    apply list_elem_of_In, list_elem_of_omap. exists q. split; [done|]. unfold hold_of. by rewrite Hk.
Qed.

(** One page of pins. *)
Lemma pin_page_drains n : rn_store n = w0 →
  Drains page w0 (rn_store (end_of (pin_page (Services env) n page))) ∧ ∀ n', pin_page (Services env) n page = Ok n' →
    ps_Scanned (rn_stats n') = (ps_Scanned (rn_stats n) + length page)%nat ∧ bucketed (rn_stats n') = (bucketed (rn_stats n) + length page)%nat ∧
    ∀ q, q ∈ page → dead_pin (pw_inventory w0) (sp_PinnedBy q) → ct_Pins (pw_catalog (rn_store n')) !! sp_ID q = None.
Proof.
  intros Hw. unfold pin_page. pose proof (sorted_pins page (scanned (length page) (rn_stats n), [], [])) as Hsort.
  destruct (foldl sort_pin _ page) as [[stats hs] ids]. cbn zeta in Hsort. cbn [fst snd app] in Hsort. destruct Hsort as (-> & Hscan & Hcount & _ & Hids).
  cbn in Hscan. change (bucketed (scanned _ _)) with (bucketed (rn_stats n)) in Hcount. rewrite Hw.
  assert (Hdeadid : ∀ q, q ∈ page → dead_pin (pw_inventory w0) (sp_PinnedBy q) → ∃ id slot, (q, id) ∈ omap hold_of page ∧
    pin_kind (sp_PinnedBy q) = HoldPin id ∧ Freed slot id (pw_inventory w0)).
  { intros q Hq (id & slot & Hk & Hf). exists id, slot. split_and!; [|done..]. apply list_elem_of_omap. exists q. unfold hold_of. by rewrite Hk. }
  case_bool_decide as Hnone.
  { cbn. split; [by apply Drains_refl|]. intros n' [= <-]. cbn. split_and!; [done|rewrite Hnone in Hcount; lia|].
    intros q Hq (id & slot & Hin & _)%Hdeadid; [|done]. apply length_zero_iff_nil in Hnone. rewrite Hnone in Hin. by apply not_elem_of_nil in Hin. }
  destruct (pr_liveness (Services env) ids w0) as [w1 answer] eqn:Hlive.
  assert (Hw1 : Drains page w0 w1 ∧ pw_catalog w1 = pw_catalog w0 ∧ ∀ v, answer = Some v →
    (∀ id, v !! id = Some SeatClaimDead → ∃ slot, Freed slot id (pw_inventory w1)) ∧
    (∀ slot id, Freed slot id (pw_inventory w0) → id ∈ ids → v !! id = Some SeatClaimDead)).
  { cbn in Hlive. destruct (ReconcileSeatClaimStates (pe_clock env ids) ids (pw_inventory w0)) as [inv r] eqn:Hrec.
    apply ReconcileSeatClaimStates_spec in Hrec as [Hset Hv]; [|apply inv0..].
    assert (Hdr : Drains page w0 {| pw_catalog := pw_catalog w0; pw_inventory := inv |}).
    { split; [|done|done|intros k p H1 H2; cbn in H2; congruence|done]. destruct inv0. split; try done; apply Hset. }
    destruct (pe_liveness env ids); [|injection Hlive as <- <-; split_and!; [by apply Drains_refl|done|done]|]; injection Hlive as <- <-; split_and!; try done.
    destruct r as [v'|]; [|done]. intros v [= <-]. by apply Hv. }
  destruct Hw1 as (Hd1 & Hc1 & Hv). destruct answer as [states|]; [|by cbn; split]. destruct (Hv states eq_refl) as [Hdead Hall].
  destruct (fold_result (judge states) (stats, []) (omap hold_of page)) as [[stats2 groups]|stats2] eqn:Hj; [|by cbn; split].
  apply judged in Hj as (Hg & Hs2 & Hc2). cbn [fst snd] in *. set (l := dead_holds states (omap hold_of page)) in *.
  assert (Hl : l ⊆ page) by (intros q Hq; by apply elem_of_dead_holds in Hq as [? _]).
  assert (Hgr : Grouped l groups).
  { rewrite Hg. apply (grouped_all l [] []); [apply grouped_nil|]. intros a b Ha Hb. by apply page_keys; apply Hl. }
  destruct (unpins_drain l groups Hl {| rn_store := w1; rn_stats := stats2 |}) as (U1 & _ & _ & U4); cbn; [done| | |].
  - intros q (_ & id & Hk & Hst)%elem_of_dead_holds. destruct (Hdead id Hst) as [slot Hf]. by exists id, slot.
  - intros g seat Hgin Hseat. by apply (gp_seats _ _ Hgr).
  - split; [done|]. intros n' Hok. destruct (U4 n' Hok) as (V1 & V2 & V3). cbn in V1, V2. rewrite (gp_count _ _ Hgr) in V2. split_and!; [congruence|lia|].
    intros q Hq Hqd. destruct (Hdeadid q Hq Hqd) as (id & slot & Hin & Hk & Hf).
    destruct (gp_all _ _ Hgr q) as (g & Hgin & Hig & Hseat); [|by apply (V3 g q)].
    apply elem_of_dead_holds. split; [done|]. exists id. split; [done|]. apply (Hall slot id Hf). by apply (Hids (q, id)).
Qed.
End Page.

(** ** The pins of a run are distinct *)

Lemma pin_clash_sym a b : pin_clash a b = pin_clash b a.
Proof. unfold pin_clash. f_equal; [f_equal|]; apply bool_decide_ext; split; congruence. Qed.

Abbreviation distinct_pins db := (Distinct pin_clash (ct_Pins db)).

Lemma pin_one_distinct org cur family pinnedBy db seat db' : pin_one org cur family pinnedBy db seat = Ok db' → distinct_pins db → distinct_pins db'.
Proof.
  unfold pin_one, insert_pin. destruct (has_seat cur seat db); [|done]. cbn [negb].
  destruct (insert_into _ _ _ _ _ _) as [[db1 id]|[]] eqn:Hin; [|destruct (some_row _ _); [by intros [= <-]|done]|done].
  intros [= <-] Hd. apply insert_into_Ok in Hin as (_ & Hn & Hc & _ & ->). cbn. apply distinct_insert; [apply pin_clash_sym|done..].
Qed.

Lemma unpins_distinct org family pinnedBy l db : distinct_pins db → distinct_pins (foldl (unpin_one org family pinnedBy) db l).
Proof. intros Hd i j a b [Ha _]%unpins_lookup [Hb _]%unpins_lookup. by apply (Hd i j). Qed.

Lemma flip_pins now org map db : ct_Pins (flip now org map db) = ct_Pins db.
Proof. unfold flip. destruct (ct_Maps db !! map); [|done]. by destruct (_ && _). Qed.

Lemma perform_distinct op n : distinct_pins (mn_db n) → distinct_pins (mn_db (perform_map op n)).
Proof.
  intros Hd. assert (Hr : ∀ r, (∀ db, r = Ok db → distinct_pins db) → distinct_pins (mn_db (after_result n r))) by (intros [db|e] H; cbn; auto).
  destruct op; cbn -[write]; try (apply Hr; intros db Hdb).
  - done.
  - apply bind_Ok in Hdb as ([db1 id] & Hc & [= <-]). unfold CreateSeatMap in Hc. destruct (ct_Venues _ !! venue); [|done]. destruct (negb _); [done|].
    destruct (insert_map _ _) as [[db2 id2]|] eqn:Hi; [|done]. injection Hc as <- <-. apply insert_into_Ok in Hi as (_ & _ & _ & _ & ->). done.
  - by destruct (read_section _ _ _ _ _).
  - by destruct (read_row _ _ _ _ _ _).
  - by destruct (resolve_seat _ _ _ _ _).
  - destruct (mn_resolved n !! k) as [v|]; [|done]. by destruct (read_seat _ _ _ _ _ _ _).
  - destruct (mn_writing n !! k) as [i|]; [|done]. destruct (write i (mn_db n)) as [[db1 id]|] eqn:Hw; [|done]. cbn. by rewrite (gw_pins _ _ (write_Grow _ _ _ _ Hw)).
  - unfold PublishSeatMap. cbn. by rewrite flip_pins.
  - unfold MarkSeatMapEventEmitted. by destruct (ct_Maps _ !! map).
  - apply bind_Ok in Hdb as ([db1 id] & Hc & [= <-]). apply EditSeatMap_Ok in Hc as (cur & m & family & db2 & _ & _ & _ & Hi & Hf). cbn.
    assert (Hg : Grow db2 db1) by (eapply fold_Grow; [|exact Hf]; intros *; apply clone_section_Grow). rewrite (gw_pins _ _ Hg).
    apply insert_into_Ok in Hi as (_ & _ & _ & _ & ->). done.
  - unfold PinSeat in Hdb. apply bind_Ok in Hdb as (((cur & v) & family) & _ & Hp). by eapply pin_one_distinct.
  - revert Hdb. unfold PinSeats. case_bool_decide; [by intros [= <-]|]. intros (((cur & v) & family) & _ & Hf)%bind_Ok.
    eapply (fold_result_keeps (λ db, distinct_pins db)) in Hf; [exact Hf| |done]. intros s x s' Hp Hst. by eapply pin_one_distinct.
  - revert Hdb. unfold UnpinSeat. destruct (resolve_family _ _ _); [|done]. intros [= <-]. by apply (unpins_distinct _ _ _ [seat]).
  - revert Hdb. unfold UnpinSeats. case_bool_decide; [by intros [= <-]|]. destruct (resolve_family _ _ _); [|done]. intros [= <-]. by apply unpins_distinct.
Qed.

Lemma run_maps_distinct l : ∀ n, distinct_pins (mn_db n) → distinct_pins (mn_db (run_maps l n)).
Proof. induction l as [|op l IH]; cbn; intros n Hi; [done|]. by apply IH, perform_distinct. Qed.

(** ** The run *)

(** Where catalog does not answer, what comes instead is no page. *)
Definition no_forged_page (env : PinEnv) : Prop := ∀ after n a, pe_list env after n = Some a → match a with Document _ _ => False | _ => True end.

Section Run.
Context `{!UUIDLaws} (env : PinEnv).
Hypothesis honest : no_forged_page env.

Definition pins_in_order (n : PinRun) : list SeatPin := isort (on_key sp_ID uuid_ltb) (pin_rows (pw_catalog (rn_store n))).
Abbreviation past := (after sp_ID uuid_ltb).

Lemma list_page_Ok fuel : ∀ size cursor (s : PinWorld) size' page, list_page (Services env) fuel size cursor s = Ok (size', page) →
  ∃ k, listSeatPins cursor (Z.of_nat k) (handle_list_pins cursor (Z.of_nat k) (pw_catalog s)) = Ok page.
Proof.
  induction fuel as [|fuel IH]; intros size cursor s size' page; cbn.
  all: destruct (pe_list env cursor size) as [a|] eqn:Ha; cbn.
  all: destruct (listSeatPins _ _ _) as [pins|e] eqn:Hp; [|try done].
  1,3: intros [= _ <-]; exfalso; specialize (honest _ _ _ Ha); unfold listSeatPins in Hp; destruct (_ <=? _); [done|]; by destruct a.
  1,3: intros [= _ <-]; by exists size.
  all: destruct (_ && _); [apply IH|done].
Qed.

Lemma fetch_is_page p c n p' page : PinInv (rn_store n) → pin_fetch (Services env) p c n = Ok (p', page) →
  page `prefix_of` past c (pins_in_order n) ∧ (page = [] → past c (pins_in_order n) = []).
Proof.
  intros Hi. unfold pin_fetch. destruct (list_page _ _ _ _ _) as [[p1 page1]|] eqn:Hl; [|done]. intros [= -> ->].
  apply list_page_Ok in Hl as [k [Hk ->]%served_page].
  assert (Hp : isort (on_key sp_ID uuid_ltb) (List.filter (λ q, uuid_ltb (default uuid_Nil c) (sp_ID q)) (pin_rows (pw_catalog (rn_store n)))) = past c (pins_in_order n)).
  { unfold after, pins_in_order. destruct c as [c|]; cbn [default]; [by rewrite (filter_isort (on_key sp_ID uuid_ltb))|]. rewrite bool_filter_all; [done|].
    intros q (x & m & Hx & _)%elem_of_pin_rows. by eapply pi_ids. }
  rewrite Hp. split; [apply prefix_take|]. destruct (past c (pins_in_order n)); [done|]. destruct k; [lia|done].
Qed.

Lemma same_listing db db' q : OnlyPins db db' → ct_Pins db' !! sp_ID q = ct_Pins db !! sp_ID q → q ∈ pin_rows db' ↔ q ∈ pin_rows db.
Proof.
  intros [Hm _ _ _] Hq. rewrite !elem_of_pin_rows, Hq. unfold newest_version, family_versions. by rewrite Hm.
Qed.

Lemma page_of_rows c n page : page `prefix_of` past c (pins_in_order n) → ∀ q, q ∈ page → q ∈ pin_rows (pw_catalog (rn_store n)).
Proof.
  intros [rest Hr] q Hq. assert (Hin : q ∈ past c (pins_in_order n)) by (rewrite Hr; apply elem_of_app; by left).
  destruct c; [apply elem_of_bool_filter in Hin as [Hin _]|]; by apply elem_of_isort in Hin.
Qed.

Lemma page_keeps_rest n c page n' x : PinInv (rn_store n) → page `prefix_of` past c (pins_in_order n) → list.last page = Some x →
  pin_page (Services env) n page = Ok n' → PinInv (rn_store n') ∧ past (Some (sp_ID x)) (pins_in_order n') = past (Some (sp_ID x)) (pins_in_order n).
Proof.
  intros Hi Hpre Hx Hp. destruct (pin_page_drains env (rn_store n) page Hi (page_of_rows _ _ _ Hpre) n eq_refl) as [Hd _]. rewrite Hp in Hd. cbn in Hd.
  split; [apply Hd|]. apply (after_same_rows _ _ uuid_ltb_total); [apply pin_rows_keyed..|]. intros q Hq. apply same_listing; [apply Hd|].
  destruct (ct_Pins (pw_catalog (rn_store n)) !! sp_ID q) as [p|] eqn:Hk.
  - destruct (ct_Pins (pw_catalog (rn_store n')) !! sp_ID q) as [p'|] eqn:Hk'; [by rewrite <-Hk; symmetry; apply (lookup_weaken _ _ _ _ Hk'), Hd|].
    exfalso. destruct (dr_dead _ _ _ Hd _ _ Hk Hk') as [(y & Hy & Hid) _].
    assert (Hs : StronglySorted (in_order sp_ID uuid_ltb) (past c (pins_in_order n))).
    { apply (after_sorted _ _ pins_in_order). intros s0. apply (isort_keyed_sorted _ _ uuid_ltb_total), pin_rows_keyed. }
    destruct Hpre as [rest Hpre]. rewrite Hpre in Hs. apply StronglySorted_app in Hs as (_ & Hs & _). apply last_Some in Hx as [front ->].
    apply elem_of_app in Hy as [Hy| ->%list_elem_of_singleton]; [|rewrite Hid in Hq; rewrite (less_irrefl uuid_ltb) in Hq; done].
    pose proof (StronglySorted_app_1_elem_of _ _ _ _ _ Hs Hy (list_elem_of_here _ _)) as Ho. unfold in_order in Ho. rewrite Hid in Ho.
    rewrite (less_asym (less := uuid_ltb) _ _ Ho) in Hq. done.
  - destruct (ct_Pins (pw_catalog (rn_store n')) !! sp_ID q) as [p'|] eqn:Hk'; [|done].
    pose proof (lookup_weaken _ _ _ _ Hk' (dr_subset _ _ _ Hd)). congruence.
Qed.

Lemma pages_drain pages : ∀ n, PinInv (rn_store n) → NoDup (map sp_ID (mjoin pages)) → (∀ q, q ∈ mjoin pages → q ∈ pin_rows (pw_catalog (rn_store n))) →
  let r := fold_result (pin_page (Services env)) n pages in
  Drains (mjoin pages) (rn_store n) (rn_store (end_of r)) ∧ ∀ n', r = Ok n' →
    ps_Scanned (rn_stats n') = (ps_Scanned (rn_stats n) + length (mjoin pages))%nat ∧
    bucketed (rn_stats n') = (bucketed (rn_stats n) + length (mjoin pages))%nat ∧
    ∀ q, q ∈ mjoin pages → dead_pin (pw_inventory (rn_store n)) (sp_PinnedBy q) → ct_Pins (pw_catalog (rn_store n')) !! sp_ID q = None.
Proof.
  induction pages as [|page pages IH]; cbn zeta; intros n Hi Hnd Hin.
  { cbn. split; [by apply Drains_refl|]. intros n' [= <-]. split_and!; [lia..|]. by intros q ?%not_elem_of_nil. }
  change (mjoin (page :: pages)) with (page ++ mjoin pages) in *. rewrite map_app in Hnd. apply list.NoDup_app in Hnd as (_ & Hdis & Hnd).
  destruct (pin_page_drains env (rn_store n) page Hi (λ q Hq, Hin q (proj2 (elem_of_app _ _ _) (or_introl Hq))) n eq_refl) as [Hd Hok].
  assert (Hsub : page ⊆ page ++ mjoin pages) by (intros q Hq; apply elem_of_app; by left).
  cbn [fold_result]. destruct (pin_page (Services env) n page) as [n1|[n1 e]]; cbn [end_of] in Hd |- *; [|split; [by eapply Drains_more|done]].
  destruct (Hok n1 eq_refl) as (P1 & P2 & P3). destruct (IH n1) as [Hd2 Hok2]; [apply Hd|done| |].
  { intros q Hq. apply (same_listing (pw_catalog (rn_store n))); [apply Hd| |apply Hin, elem_of_app; by right].
    destruct (ct_Pins (pw_catalog (rn_store n)) !! sp_ID q) as [p|] eqn:Hk.
    - destruct (ct_Pins (pw_catalog (rn_store n1)) !! sp_ID q) as [p'|] eqn:Hk'; [by rewrite <-Hk; symmetry; apply (lookup_weaken _ _ _ _ Hk'), Hd|].
      exfalso. destruct (dr_dead _ _ _ Hd _ _ Hk Hk') as [(y & Hy & Hid) _]. apply (Hdis (sp_ID q)).
      + rewrite <-Hid. by apply list_elem_of_In, in_map, list_elem_of_In.
      + by apply list_elem_of_In, in_map, list_elem_of_In.
    - destruct (ct_Pins (pw_catalog (rn_store n1)) !! sp_ID q) as [p'|] eqn:Hk'; [|done].
      pose proof (lookup_weaken _ _ _ _ Hk' (dr_subset _ _ _ Hd)). congruence. }
  split.
  - eapply Drains_trans; [by eapply Drains_more|]. eapply Drains_more; [|exact Hd2]. intros q Hq. apply elem_of_app. by right.
  - intros n' Hn'. destruct (Hok2 n' Hn') as (Q1 & Q2 & Q3). rewrite length_app. split_and!; [lia..|]. intros q [Hq|Hq]%elem_of_app Hdead.
    + destruct (ct_Pins (pw_catalog (rn_store n')) !! sp_ID q) as [p'|] eqn:Hk'; [|done]. rewrite Hn' in Hd2. cbn in Hd2.
      pose proof (lookup_weaken _ _ _ _ Hk' (dr_subset _ _ _ Hd2)) as Hc. by rewrite (P3 q Hq Hdead) in Hc.
    + apply (Q3 q Hq). eapply dead_pin_settled; [apply Hd|done].
Qed.

Lemma all_listed w : PinInv w → ∀ k p, ct_Pins (pw_catalog w) !! k = Some p → ∃ m, payload k p m ∈ pin_rows (pw_catalog w).
Proof.
  intros Hi k p Hk. destruct (mi_pins _ (pi_maps _ Hi) k p Hk) as (id & x & Hc & _).
  destruct (newest_version_there (pn_Family p) (pn_OrganizerID p) _ id x (cu_map _ _ _ _ _ Hc) (cu_family _ _ _ _ _ Hc) (cu_org _ _ _ _ _ Hc)) as [m Hm].
  exists m. apply elem_of_pin_rows. by exists p, m.
Qed.

Lemma length_omap_all {A B} (f : A → option B) l : (∀ x, x ∈ l → is_Some (f x)) → length (omap f l) = length l.
Proof.
  induction l as [|x l IH]; cbn; intros Hf; [done|]. destruct (Hf x (list_elem_of_here _ _)) as [y ->]. cbn. f_equal. apply IH.
  intros z Hz. by apply Hf, list_elem_of_further.
Qed.

Lemma length_pin_rows w : PinInv w → length (pin_rows (pw_catalog w)) = size (ct_Pins (pw_catalog w)).
Proof.
  intros Hi. unfold pin_rows, listed_pins. rewrite length_map, <-length_map_to_list. apply length_omap_all. intros [k p] Hk%elem_of_map_to_list.
  unfold listed_pin. cbn. destruct (all_listed w Hi k p Hk) as [m (p' & m' & Hp' & Hm' & Hq)%elem_of_pin_rows]. cbn in Hp'. rewrite Hk in Hp'.
  injection Hp' as <-. rewrite Hm'. by eexists.
Qed.

(** The run from any world in order: it ends, and is its pages. *)
Lemma run_drains w : PinInv w → ∃ r, reconcilePins (S (size (ct_Pins (pw_catalog w)))) env w = Some r ∧
  Drains (pin_rows (pw_catalog w)) w (rn_store (end_of r)) ∧ ∀ n, r = Ok n →
    ps_Scanned (rn_stats n) = size (ct_Pins (pw_catalog w)) ∧ bucketed (rn_stats n) = size (ct_Pins (pw_catalog w)) ∧
    ∀ q, q ∈ pin_rows (pw_catalog w) → dead_pin (pw_inventory w) (sp_PinnedBy q) → ct_Pins (pw_catalog (rn_store n)) !! sp_ID q = None.
Proof.
  intros Hi. set (n0 := {| rn_store := w; rn_stats := no_stats |}).
  assert (Hlen : length (pins_in_order n0) = size (ct_Pins (pw_catalog w))) by (unfold pins_in_order; rewrite isort_perm; by apply length_pin_rows).
  destruct (paged_drains sp_ID uuid_ltb pins_in_order (pin_fetch (Services env)) (pin_page (Services env))) with
    (I := λ n : PinRun, PinInv (rn_store n)) (n := length (pins_in_order n0)) (p := reconcilePinPageSize) (c := @None uuid) (s := n0)
    (fuel := S (size (ct_Pins (pw_catalog w)))) as (pages & e & Hpre & _ & Hend & Hrun).
  - intros s. apply (isort_keyed_sorted _ _ uuid_ltb_total), pin_rows_keyed.
  - intros p c s p' page Hs. by apply fetch_is_page.
  - intros s c page s' x Hs. by apply page_keeps_rest.
  - done.
  - done.
  - lia.
  - unfold reconcilePins, pin_run. fold n0. rewrite Hrun. eexists. split; [done|].
    destruct (pages_drain pages n0 Hi) as [Hd Hok].
    + assert (Hnd : NoDup (map sp_ID (pins_in_order n0))).
      { unfold pins_in_order. rewrite isort_perm. apply pin_rows_ids. }
      destruct Hpre as [rest Hpre]. cbn in Hpre. rewrite Hpre, map_app in Hnd. by apply list.NoDup_app in Hnd as (? & _ & _).
    + by apply (page_of_rows None n0).
    + assert (Hsub : mjoin pages ⊆ pin_rows (pw_catalog w)) by (intros q Hq; by apply (page_of_rows None n0 _ Hpre)).
      apply (Drains_more _ (pin_rows (pw_catalog w))) in Hd; [|done]. cbn [rn_store n0] in Hd.
      destruct (fold_result (pin_page (Services env)) n0 pages) as [n1|[n1 err]]; cbn [mbind result_bind end_of] in *; [|by split].
      specialize (Hend n1 eq_refl). destruct e as [[n2 err]|]; cbn [ending end_of].
      * split; [|done]. destruct Hend as (p' & c' & Hf). unfold pin_fetch in Hf. destruct (list_page _ _ _ _ _); [done|]. by injection Hf as <- _.
      * split; [done|]. intros n [= <-]. destruct Hend as [Hall _]. cbn in Hall. destruct (Hok n1 eq_refl) as (P1 & P2 & P3). rewrite Hall, Hlen in P1, P2.
        split_and!; [done..|]. intros q Hq. apply P3. rewrite Hall. unfold pins_in_order. by rewrite elem_of_isort.
Qed.
End Run.

(** C8 (safety). The drain takes the pins of dead claims and no others. Run the
    command over any states of the two services, with any calls failing, refused or
    losing their answers on the way. It ends, within as many pages as there are
    pins. It changes no map and adds no pin, and each pin it takes is a hold's,
    whose claim inventory has finished with: no live seat is left under it, and
    none ever will be. If it comes to its end, every pin was scanned and counted
    once, and all the pins of the claims that were finished at its start are gone. *)
Theorem pin_drain_takes_only_the_dead `{!UUIDLaws} `{RL : !RandomIDsLaws} env ttl lm li :
  let w := {| pw_catalog := mn_db (run_maps lm no_maps); pw_inventory := run ttl li empty_inventory |} in
  let pins := ct_Pins (pw_catalog w) in
  along well_formed ttl li empty_inventory = true → no_forged_page env →
  (∀ k p, pins !! k = Some p → uuid_ltb uuid_Nil k = true) →
  (∀ id m, ct_Maps (pw_catalog w) !! id = Some m → plain id ∧ plain (sm_OrganizerID m)) →
  ∃ r, reconcilePins (S (size pins)) env w = Some r ∧ let w' := rn_store (end_of r) in
    OnlyPins (pw_catalog w) (pw_catalog w') ∧ ct_Pins (pw_catalog w') ⊆ pins ∧
    (∀ k p, pins !! k = Some p → ct_Pins (pw_catalog w') !! k = None → dead_pin (pw_inventory w') (pn_PinnedBy p)) ∧
    ∀ n, r = Ok n → ps_Scanned (rn_stats n) = size pins ∧ bucketed (rn_stats n) = size pins ∧
      ∀ k p, pins !! k = Some p → dead_pin (pw_inventory w) (pn_PinnedBy p) → ct_Pins (pw_catalog w') !! k = None.
Proof.
  intros w pins Hw Hhonest Hids Hplain.
  assert (Hs : Sound (pw_inventory w)) by (apply run_sound; [done|apply empty_sound]).
  assert (Hi : PinInv w).
  { split; [apply run_maps_inv, no_maps_inv| |done|done|done|apply run_seats; [done|apply empty_sound|apply empty_seats]].
    apply run_maps_distinct. cbn. intros i j a b. by rewrite lookup_empty. }
  destruct (run_drains env Hhonest w Hi) as (r & Hr & Hd & Hok). exists r. split; [done|]. cbn zeta. split_and!; [apply Hd|apply Hd| |].
  - intros k p Hk Hn. by apply (dr_dead _ _ _ Hd k p Hk Hn).
  - intros n Hn. destruct (Hok n Hn) as (H1 & H2 & H3). split_and!; [done..|]. intros k p Hk Hdead. destruct (all_listed w Hi k p Hk) as [m Hm].
    rewrite Hn. by apply (H3 _ Hm).
Qed.
End PinSafety.

#[local] Existing Instance text_uuid.

(** The n-th id is n crosses and one more. *)
Fixpoint crosses (n : nat) : string := match n with O => "x" | S n => String (Ascii.ascii_of_nat 120) (crosses n) end.

#[local] Instance cross_ids : @RandomIDs text_uuid := {| gen_random_uuid := crosses |}.

Lemma cross_ids_laws : @RandomIDsLaws text_uuid cross_ids.
Proof.
  split. intros a b Hab. assert (Hl : ∀ n, String.length (crosses n) = S n) by (intros n; induction n; cbn; congruence).
  apply (f_equal String.length) in Hab. cbn in Hab. rewrite !Hl in Hab. by injection Hab.
Qed.

Definition spent_claim : string := "aaaaaaaa-aaaa-4aaa-8aaa-aaaaaaaaaaaa".
Definition standing_claim : string := "bbbbbbbb-bbbb-4bbb-8bbb-bbbbbbbbbbbb".

(** Two holds of a row of six; the first was let go. *)
Definition two_holds : trace := [
  (at_time 0, OpProvisionSeated "e1" "slot" "org" "map" 6 false row_a);
  (at_time 10, OpSeatHold spent_claim (seat_request "k1") ["A2"; "A1"]);
  (at_time 20, OpSeatHold standing_claim (seat_request "k2") ["A3"]);
  (at_time 30, OpTransition "org" spent_claim Released)]%string.

(** A published map of two seats with a pin of each hold, and two of others. *)
Definition pinned_map : list MapOp := [
  OpVenues {[arena := hall]}; OpCreate 1 house arena "hall" false;
  OpReadSection house (crosses 1) "S" 1; OpWrite 0; OpReadRow house (crosses 1) (crosses 2) "1" 1; OpWrite 0;
  OpResolveSeat house (crosses 1) (crosses 3) "1" 1; OpReadSeat 0; OpWrite 0;
  OpResolveSeat house (crosses 1) (crosses 3) "2" 2; OpReadSeat 0; OpWrite 0;
  OpPublish 2 house (crosses 1);
  OpPins house (crosses 1) ["S/1/1"; "S/1/2"] (holdPinPrefix +:+ spent_claim);
  OpPin house (crosses 1) "S/1/1" (holdPinPrefix +:+ standing_claim);
  OpPin house (crosses 1) "S/1/1" "sale:17"; OpPin house (crosses 1) "S/1/2" "hold:17"]%string.

Definition all_answered : PinEnv := {|
  pe_list := λ _ _, None; pe_liveness := λ _, Clean; pe_clock := λ _ _, at_time 40; pe_unpin := λ _ _ _ _, Clean |}.

#[local] Abbreviation pinned_world := ({| pw_catalog := mn_db (run_maps pinned_map no_maps); pw_inventory := run 100 two_holds empty_inventory |}).

Example pinned_world_drained :
  (λ r, let n := end_of r in
     (rn_stats n,
      isort String.ltb (map (λ kp, pn_PinnedBy kp.2) (map_to_list (ct_Pins (pw_catalog (rn_store n))))))) <$> reconcilePins 6 all_answered pinned_world =
    Some ({| ps_Scanned := 5; ps_Reclaimed := 2; ps_Live := 1; ps_Unknown := 0; ps_Malformed := 1; ps_Other := 1 |},
          [holdPinPrefix +:+ "17"; holdPinPrefix +:+ standing_claim; "sale:17"])%string.
Proof. vm_compute. reflexivity. Qed.

Lemma pin_drain_takes_only_the_dead_witness : ∃ r, reconcilePins (S (size (ct_Pins (pw_catalog pinned_world)))) all_answered pinned_world = Some r ∧
  (∀ k p, ct_Pins (pw_catalog pinned_world) !! k = Some p → ct_Pins (pw_catalog (rn_store (end_of r))) !! k = None →
     dead_pin (pw_inventory (rn_store (end_of r))) (pn_PinnedBy p)).
Proof.
  assert (Hw : along well_formed 100 two_holds empty_inventory = true) by (vm_compute; reflexivity).
  assert (Hh : no_forged_page all_answered) by (intros a n x Hx; discriminate Hx).
  assert (Hids : ∀ k p, ct_Pins (mn_db (run_maps pinned_map no_maps)) !! k = Some p → uuid_ltb uuid_Nil k = true).
  { assert (Hf : map_Forall (λ k _, uuid_ltb uuid_Nil k = true) (ct_Pins (mn_db (run_maps pinned_map no_maps)))) by (apply (bool_decide_unpack _); vm_compute; exact I).
    exact Hf. }
  assert (Hp : ∀ id m, ct_Maps (mn_db (run_maps pinned_map no_maps)) !! id = Some m → plain id ∧ plain (sm_OrganizerID m)).
  { assert (Hf : map_Forall (λ id m, no_bar (uuid_String id) = true ∧ no_bar (uuid_String (sm_OrganizerID m)) = true) (ct_Maps (mn_db (run_maps pinned_map no_maps)))) by (apply (bool_decide_unpack _); vm_compute; exact I).
    exact Hf. }
  destruct (@pin_drain_takes_only_the_dead text_uuid cross_ids text_uuid_laws cross_ids_laws all_answered 100 pinned_map two_holds Hw Hh Hids Hp)
    as (r & Hr & _ & _ & Hdead & _).
  exists r. split; [exact Hr|exact Hdead].
Defined.
