(* ===== verification/Admission.v ===== *)
(** * Pass admission: the gate and the conflict projection

    [services/access/internal/store]: the pure rules of conflicts.go — the live
    verdict, the conflicts derived from every known admission, the alarms that
    follow a change of them (with [evaluatePolicyAlarms] of scan.go) — and the
    validity a ticket's history gives it (validity.go). *)

From S2P Require Import Prelude.
#[local] Open Scope Z_scope.

Section Admission.
Context `{UU : UUID}.

(** ** Policies and facts *)

Inductive AdmissionEventType := AdmissionEntry | AdmissionExit | AdmissionDuplicateAdmit.

#[export] Instance AdmissionEventType_eq_dec : EqDecision AdmissionEventType.
Proof. solve_decision. Defined.

Inductive Decision :=
| DecisionAccepted
| DecisionAlreadyRedeemed
| DecisionAdmittedDegraded
| DecisionIntegrityQuarantined
| DecisionIntegrityOperatorControlled
| DecisionEntryLimitReached
| DecisionExitRequired
| DecisionNotInside
| DecisionExitNotApplicable
| DecisionExitUnverified
| DecisionOccurrenceRequired
| DecisionRefunded
| DecisionExchanged.

#[export] Instance Decision_eq_dec : EqDecision Decision.
Proof. solve_decision. Defined.

Inductive ReEntryMode := Single | Multi | CountLimited.

#[export] Instance ReEntryMode_eq_dec : EqDecision ReEntryMode.
Proof. solve_decision. Defined.

Record ReEntryPolicy := {
  re_Mode : ReEntryMode;
  re_MaxEntries : option Z;
  re_RequiresExit : bool;
}.

Definition IsPass (p : ReEntryPolicy) : bool :=
  match re_Mode p with Multi | CountLimited => true | Single => false end.

Inductive PolicyConflictRule := ConflictEntryLimitReached | ConflictExitRequired.

#[export] Instance PolicyConflictRule_eq_dec : EqDecision PolicyConflictRule.
Proof. solve_decision. Defined.
#[export] Instance PolicyConflictRule_countable : Countable PolicyConflictRule.
Proof.
  refine (inj_countable' (λ r, match r with ConflictEntryLimitReached => true | ConflictExitRequired => false end)
    (λ b, if b : bool then ConflictEntryLimitReached else ConflictExitRequired) _). by intros [].
Defined.

(** A conflict is its rule and the offending occurrence. *)
Record PolicyConflict := { cf_Rule : PolicyConflictRule; cf_OccurrenceID : uuid }.

#[export] Instance PolicyConflict_eq_dec : EqDecision PolicyConflict.
Proof. solve_decision. Defined.
#[export] Instance PolicyConflict_countable : Countable PolicyConflict.
Proof.
  refine (inj_countable' (λ c, (cf_Rule c, cf_OccurrenceID c)) (λ x, {| cf_Rule := x.1; cf_OccurrenceID := x.2 |}) _). by intros [].
Defined.

Record AdmissionFact := {
  fa_OccurrenceID : uuid;
  fa_Type : AdmissionEventType;
  fa_OccurredAt : time;
  fa_Sequence : Z;
  fa_Undirected : bool;
}.

(** Claimed time first, then the order of the trail, then the id. *)
Definition fact_before : AdmissionFact → AdmissionFact → bool :=
  lex (on_key fa_OccurredAt Z.ltb) (lex (on_key fa_Sequence Z.ltb) (on_key fa_OccurrenceID uuid_ltb)).

Definition orderFacts (facts : list AdmissionFact) : list AdmissionFact := isort fact_before facts.

(** ** The two walks *)

Definition over_limit (p : ReEntryPolicy) (reached : Z → bool) : bool :=
  bool_decide (re_Mode p = CountLimited) && match re_MaxEntries p with Some m => reached m | None => false end.

Record Walk := { wk_entries : Z; wk_inside : bool }.

Definition liveStep (w : Walk) (f : AdmissionFact) : Walk :=
  match fa_Type f with
  | AdmissionExit => {| wk_entries := wk_entries w; wk_inside := false |}
  | _ => {| wk_entries := wk_entries w + 1; wk_inside := true |}
  end.

Definition EvaluateLiveAdmission (p : ReEntryPolicy) (facts : list AdmissionFact) (direction : AdmissionEventType) : Decision :=
  let w := foldl liveStep {| wk_entries := 0; wk_inside := false |} (orderFacts facts) in
  if bool_decide (direction = AdmissionExit) then
    if negb (wk_inside w) then DecisionNotInside else DecisionAccepted
  else if over_limit p (λ m, wk_entries w >=? m) then DecisionEntryLimitReached
  else if re_RequiresExit p && wk_inside w then DecisionExitRequired
  else DecisionAccepted.

(** What one more entry offends, when [entries] already counts it. *)
Definition offends (p : ReEntryPolicy) (entries : Z) (inside : bool) (f : AdmissionFact) : list PolicyConflict :=
  if over_limit p (λ m, entries >? m) then [{| cf_Rule := ConflictEntryLimitReached; cf_OccurrenceID := fa_OccurrenceID f |}]
  else if re_RequiresExit p && inside && negb (fa_Undirected f) then [{| cf_Rule := ConflictExitRequired; cf_OccurrenceID := fa_OccurrenceID f |}]
  else [].

Definition conflictStep (p : ReEntryPolicy) (s : list PolicyConflict * Walk) (f : AdmissionFact) : list PolicyConflict * Walk :=
  let w := s.2 in
  if bool_decide (fa_Type f = AdmissionExit) then (s.1, {| wk_entries := wk_entries w; wk_inside := false |})
  else if fa_Undirected f || bool_decide (fa_Type f = AdmissionEntry) then
    (s.1 ++ offends p (wk_entries w + 1) (wk_inside w) f, {| wk_entries := wk_entries w + 1; wk_inside := true |})
  else s.

Definition DerivePolicyConflicts (p : ReEntryPolicy) (facts : list AdmissionFact) : list PolicyConflict :=
  if negb (IsPass p) then []
  else (foldl (conflictStep p) ([], {| wk_entries := 0; wk_inside := false |}) (orderFacts facts)).1.

(** ** The projection's transitions *)

Inductive ConflictStatus := Raised | Withdrawn.

#[export] Instance ConflictStatus_eq_dec : EqDecision ConflictStatus.
Proof. solve_decision. Defined.

(** The rows of [pass_policy_conflicts] of one ticket: status and version. *)
Abbreviation ConflictTable := (gmap PolicyConflict (ConflictStatus * Z)).

Definition raised (t : ConflictTable) (c : PolicyConflict) : bool := bool_decide (fst <$> t !! c = Some Raised).

Definition DiffPolicyConflicts (current : ConflictTable) (derived : list PolicyConflict)
    : list PolicyConflict * list PolicyConflict :=
  (List.filter (λ c, negb (raised current c)) derived,
   List.filter (λ c, negb (bool_decide (c ∈ derived)))
     (map fst (List.filter (λ row : PolicyConflict * (ConflictStatus * Z), bool_decide (row.2.1 = Raised)) (map_to_list current)))).

(** A row rewritten and its alarm owed, both at the version after the stored one. *)
Definition next_version (t : ConflictTable) (c : PolicyConflict) : Z := default 0 (snd <$> t !! c) + 1.

Definition transition (stored : ConflictTable) (st : ConflictStatus) (t : ConflictTable) (c : PolicyConflict) : ConflictTable :=
  <[c := (st, next_version stored c)]> t.

Definition evaluatePolicyAlarms (p : ReEntryPolicy) (facts : list AdmissionFact) (t : ConflictTable)
    : ConflictTable * list (PolicyConflict * ConflictStatus * Z) :=
  let (raises, withdraws) := DiffPolicyConflicts t (DerivePolicyConflicts p facts) in
  (foldl (transition t Withdrawn) (foldl (transition t Raised) t raises) withdraws,
   map (λ c, (c, Raised, next_version t c)) raises ++ map (λ c, (c, Withdrawn, next_version t c)) withdraws).

(** ** Validity *)

Inductive LifecycleType :=
| Issued | Delivered | Redelivered | Redeemed | Entry | Exit | DuplicateAdmit | Refunded | Exchanged.

Inductive lifecycleEffect := keepsVerdict | voidsByRefund | voidsByExchange.

Definition lifecycleEffects (t : LifecycleType) : lifecycleEffect :=
  match t with Refunded => voidsByRefund | Exchanged => voidsByExchange | _ => keepsVerdict end.

Inductive TicketValidity := ValidityValid | VoidRefunded | VoidExchanged.

Definition voids (e : lifecycleEffect) (seen : bool * bool) : bool * bool :=
  match e with voidsByRefund => (true, seen.2) | voidsByExchange => (seen.1, true) | keepsVerdict => seen end.

Definition DeriveTicketValidity (history : list LifecycleType) : TicketValidity :=
  let seen := foldl (λ s t, voids (lifecycleEffects t) s) (false, false) history in
  if fst seen then VoidRefunded else if snd seen then VoidExchanged else ValidityValid.
End Admission.

Section Projection.
Context `{UU : UUID}.
Abbreviation ConflictTable := (gmap PolicyConflict (ConflictStatus * Z)).
Implicit Types (p : ReEntryPolicy) (facts : list AdmissionFact) (t : ConflictTable) (c : PolicyConflict).

(** ** Alarms follow the derived conflicts *)

Lemma elem_of_raises t derived c : c ∈ (DiffPolicyConflicts t derived).1 ↔ c ∈ derived ∧ raised t c = false.
Proof. cbn. rewrite elem_of_bool_filter, negb_true_iff. tauto. Qed.

Lemma elem_of_withdraws t derived c : c ∈ (DiffPolicyConflicts t derived).2 ↔ (c ∉ derived) ∧ raised t c = true.
Proof.
  cbn. rewrite elem_of_bool_filter, negb_true_iff, bool_decide_eq_false. unfold raised. rewrite bool_decide_eq_true, fmap_Some.
  assert (Hm : c ∈ map fst (List.filter (λ row : PolicyConflict * (ConflictStatus * Z), bool_decide (row.2.1 = Raised)) (map_to_list t)) ↔
               (∃ x, t !! c = Some x ∧ Raised = x.1)); [|tauto].
  change (map fst ?l) with (fst <$> l). rewrite list_elem_of_fmap. split.
  - intros ([c' x] & -> & [Hx%elem_of_map_to_list Hs]%elem_of_bool_filter). exists x. apply bool_decide_eq_true in Hs. by split.
  - intros (x & Hx & Hs). exists (c, x). split; [done|]. rewrite elem_of_bool_filter.
    split; [by apply elem_of_map_to_list|by apply bool_decide_eq_true].
Qed.

Lemma transitions_lookup stored st l : ∀ t c,
  foldl (transition stored st) t l !! c = if bool_decide (c ∈ l) then Some (st, next_version stored c) else t !! c.
Proof.
  induction l as [|d l IH]; intros t c; cbn [foldl]; [done|]. rewrite IH. unfold transition.
  destruct (decide (c ∈ l)) as [Hin|Hin].
  - rewrite !bool_decide_true by (done || by apply list_elem_of_further). done.
  - rewrite (bool_decide_false _ Hin). destruct (decide (d = c)) as [->|Hne].
    + rewrite lookup_insert_eq, bool_decide_true; [done|apply list_elem_of_here].
    + rewrite lookup_insert_ne, bool_decide_false; [done| |done]. by intros [->|?]%list.elem_of_cons.
Qed.

Lemma raised_evaluate p facts t c :
  raised (evaluatePolicyAlarms p facts t).1 c = bool_decide (c ∈ DerivePolicyConflicts p facts).
Proof.
  unfold evaluatePolicyAlarms. destruct (DiffPolicyConflicts t _) as [rs ws] eqn:E. cbn [fst].
  pose proof (elem_of_raises t (DerivePolicyConflicts p facts) c) as Hr.
  pose proof (elem_of_withdraws t (DerivePolicyConflicts p facts) c) as Hw. rewrite E in Hr, Hw. cbn [fst snd] in Hr, Hw.
  unfold raised at 1. rewrite !transitions_lookup.
  destruct (raised t c) eqn:Ht, (decide (c ∈ DerivePolicyConflicts p facts)) as [Hd|Hd].
  - rewrite (bool_decide_false (c ∈ ws)), (bool_decide_false (c ∈ rs)) by naive_solver. rewrite (bool_decide_true _ Hd). exact Ht.
  - rewrite (bool_decide_true (c ∈ ws)) by naive_solver. by rewrite (bool_decide_false _ Hd).
  - rewrite (bool_decide_false (c ∈ ws)), (bool_decide_true (c ∈ rs)) by naive_solver. by rewrite (bool_decide_true _ Hd).
  - rewrite (bool_decide_false (c ∈ ws)), (bool_decide_false (c ∈ rs)) by naive_solver. rewrite (bool_decide_false _ Hd). exact Ht.
Qed.

Lemma evaluate_settled p facts t : (∀ c, raised t c = bool_decide (c ∈ DerivePolicyConflicts p facts)) →
  (evaluatePolicyAlarms p facts t).2 = [].
Proof.
  intros Ht. unfold evaluatePolicyAlarms. destruct (DiffPolicyConflicts t _) as [rs ws] eqn:E. cbn [snd].
  assert (rs = [] ∧ ws = []) as [-> ->]; [|done].
  pose proof (elem_of_raises t (DerivePolicyConflicts p facts)) as Hr.
  pose proof (elem_of_withdraws t (DerivePolicyConflicts p facts)) as Hw. rewrite E in Hr, Hw. cbn [fst snd] in Hr, Hw.
  split; apply elem_of_nil_inv; intros c Hc.
  - apply Hr in Hc as [Hd Hc]. rewrite Ht, bool_decide_true in Hc; done.
  - apply Hw in Hc as [Hd Hc]. rewrite Ht, bool_decide_false in Hc; done.
Qed.

(** ** The two walks see the same *)

(** Facts as [admissionFacts] loads them: an entry or an exit. *)
Definition directed_type (f : AdmissionFact) : Prop := fa_Type f ≠ AdmissionDuplicateAdmit.

Lemma walks_agree p facts : (∀ f, f ∈ facts → directed_type f) → ∀ s,
  (foldl (conflictStep p) s facts).2 = foldl liveStep s.2 facts.
Proof.
  induction facts as [|f facts IH]; intros Hf s; cbn; [done|].
  rewrite IH by (intros g Hg; apply Hf; by apply list_elem_of_further). f_equal.
  specialize (Hf f (list_elem_of_here _ _)). unfold directed_type in Hf.
  unfold conflictStep, liveStep. destruct (fa_Type f); [|done|done]. cbn. by rewrite orb_true_r.
Qed.

(** One more fact, no earlier than the others. *)
Definition latest f facts : Prop := ∀ g, g ∈ facts → fact_before f g = false.

Lemma derive_latest p facts f : IsPass p = true → latest f facts → (∀ g, g ∈ facts → directed_type g) →
  fa_Type f = AdmissionEntry → fa_Undirected f = false →
  DerivePolicyConflicts p (facts ++ [f]) = DerivePolicyConflicts p facts ++
    match EvaluateLiveAdmission p facts AdmissionEntry with
    | DecisionEntryLimitReached => [{| cf_Rule := ConflictEntryLimitReached; cf_OccurrenceID := fa_OccurrenceID f |}]
    | DecisionExitRequired => [{| cf_Rule := ConflictExitRequired; cf_OccurrenceID := fa_OccurrenceID f |}]
    | _ => []
    end.
Proof.
  intros Hp Hl Hd Ht Hu. unfold DerivePolicyConflicts, EvaluateLiveAdmission, orderFacts. rewrite Hp. cbn [negb].
  rewrite (isort_snoc fact_before) by exact Hl. rewrite foldl_app. cbn [foldl].
  set (s := foldl (conflictStep p) _ (isort fact_before facts)).
  assert (Hw : s.2 = foldl liveStep {| wk_entries := 0; wk_inside := false |} (isort fact_before facts)).
  { apply walks_agree. intros g Hg. rewrite elem_of_isort in Hg. by apply Hd. }
  rewrite <-Hw. unfold conflictStep, offends. rewrite Ht, Hu. rewrite bool_decide_false by done.
  rewrite (bool_decide_true (AdmissionEntry = AdmissionEntry)) by done. cbn [orb fst negb]. f_equal.
  assert (over_limit p (λ m, wk_entries s.2 >=? m) = over_limit p (λ m, wk_entries s.2 + 1 >? m)) as ->.
  { unfold over_limit. destruct (re_MaxEntries p) as [m|]; [|done]. f_equal. rewrite Z.geb_leb, Z.gtb_ltb.
    destruct (Z.leb_spec m (wk_entries s.2)), (Z.ltb_spec m (wk_entries s.2 + 1)); lia. }
  destruct (over_limit _ _); [done|]. rewrite andb_true_r. by destruct (_ && _).
Qed.

Lemma offending_occurrence p entries inside f c : c ∈ offends p entries inside f → cf_OccurrenceID c = fa_OccurrenceID f.
Proof. unfold offends. repeat case_match; rewrite ?list_elem_of_singleton; try (by intros ->); by intros ?%not_elem_of_nil. Qed.

Lemma derived_occurrence p facts c : c ∈ DerivePolicyConflicts p facts → cf_OccurrenceID c ∈ map fa_OccurrenceID facts.
Proof.
  unfold DerivePolicyConflicts. destruct (negb _); [by intros ?%not_elem_of_nil|].
  assert (Hs : ∀ l s, (∀ d, d ∈ s.1 → cf_OccurrenceID d ∈ map fa_OccurrenceID facts) → (∀ g, g ∈ l → fa_OccurrenceID g ∈ map fa_OccurrenceID facts) →
    c ∈ (foldl (conflictStep p) s l).1 → cf_OccurrenceID c ∈ map fa_OccurrenceID facts).
  { induction l as [|f l IH]; intros s Hs Hl; cbn [foldl]; [apply Hs|].
    apply IH; [|intros g Hg; apply Hl; by apply list_elem_of_further]. unfold conflictStep.
    repeat case_match; cbn [fst]; try done. intros d [Hd|Hd%offending_occurrence]%elem_of_app; [by apply Hs|].
    rewrite Hd. apply Hl, list_elem_of_here. }
  apply Hs; [intros d Hd; by apply not_elem_of_nil in Hd|].
  intros g Hg. unfold orderFacts in Hg. rewrite elem_of_isort in Hg. by apply list_elem_of_In, List.in_map, list_elem_of_In.
Qed.
End Projection.

Section Gate.
Context `{UU : UUIDLaws}.
Abbreviation ConflictTable := (gmap PolicyConflict (ConflictStatus * Z)).
Implicit Types (p : ReEntryPolicy) (facts : list AdmissionFact) (t : ConflictTable).

(** The projection does not depend on the order the facts were learned in. *)
Lemma derive_perm p facts facts' : NoDup (map fa_OccurrenceID facts) → facts ≡ₚ facts' →
  DerivePolicyConflicts p facts = DerivePolicyConflicts p facts'.
Proof.
  intros Hnd Hp. unfold DerivePolicyConflicts, orderFacts.
  rewrite (isort_perm_eq fact_before facts facts'); [done| |done]. intros a b Ha Hb Hab Hba.
  assert (fa_OccurrenceID a = fa_OccurrenceID b) as Hid.
  { unfold fact_before, lex, on_key in Hab, Hba. repeat case_match; try done. by apply uuid_ltb_total. }
  apply list_elem_of_lookup in Ha as [i Hi], Hb as [j Hj].
  assert (i = j) as ->; [|congruence]. eapply NoDup_lookup; [exact Hnd|..];
    change (map fa_OccurrenceID facts) with (fa_OccurrenceID <$> facts); rewrite list_lookup_fmap, ?Hi, ?Hj; cbn; [done|by rewrite Hid].
Qed.

Lemma entry_verdicts p facts : EvaluateLiveAdmission p facts AdmissionEntry ∈
  [DecisionAccepted; DecisionEntryLimitReached; DecisionExitRequired].
Proof. unfold EvaluateLiveAdmission. rewrite bool_decide_false by done. repeat case_match; set_solver. Qed.

(** The gate of a pass admits exactly what the conflict
    projection will not hold against it. For an entry no earlier than the known
    admissions of the ticket, recorded in whatever order reconciliation learns
    them, the live verdict is acceptance if and only if evaluating the alarms
    with the entry included leaves no conflict raised for it, whatever was raised
    before; the rule raised is the one the gate would have refused it for; and
    evaluating again owes no alarm. *)
Theorem gate_agrees_with_projection p facts f learned t :
  IsPass p = true → (∀ g, g ∈ facts → directed_type g) → latest f facts →
  fa_Type f = AdmissionEntry → fa_Undirected f = false →
  NoDup (map fa_OccurrenceID (f :: facts)) → learned ≡ₚ f :: facts →
  let verdict := EvaluateLiveAdmission p facts AdmissionEntry in
  let t' := (evaluatePolicyAlarms p learned t).1 in
  (verdict = DecisionAccepted ↔ ∀ rule, raised t' {| cf_Rule := rule; cf_OccurrenceID := fa_OccurrenceID f |} = false) ∧
  (raised t' {| cf_Rule := ConflictEntryLimitReached; cf_OccurrenceID := fa_OccurrenceID f |} = true ↔ verdict = DecisionEntryLimitReached) ∧
  (raised t' {| cf_Rule := ConflictExitRequired; cf_OccurrenceID := fa_OccurrenceID f |} = true ↔ verdict = DecisionExitRequired) ∧
  (evaluatePolicyAlarms p learned t').2 = [].
Proof.
  intros Hp Hd Hl Ht Hu Hnd Hlearned verdict t'.
  assert (Hdr : DerivePolicyConflicts p learned = DerivePolicyConflicts p (facts ++ [f])).
  { apply derive_perm; [by rewrite Hlearned|]. rewrite Hlearned. apply Permutation_cons_append. }
  rewrite (derive_latest p facts f) in Hdr by done. fold verdict in Hdr.
  assert (Hfresh : ∀ rule, {| cf_Rule := rule; cf_OccurrenceID := fa_OccurrenceID f |} ∉ DerivePolicyConflicts p facts).
  { intros rule Hin%derived_occurrence. cbn in Hnd. apply list.NoDup_cons in Hnd as [Hn _]. by apply Hn. }
  assert (Hr : ∀ rule, raised t' {| cf_Rule := rule; cf_OccurrenceID := fa_OccurrenceID f |} = bool_decide (verdict =
    match rule with ConflictEntryLimitReached => DecisionEntryLimitReached | ConflictExitRequired => DecisionExitRequired end)).
  { intros rule. unfold t'. rewrite raised_evaluate, Hdr. apply bool_decide_ext. rewrite elem_of_app. specialize (Hfresh rule).
    destruct rule, verdict; rewrite ?list_elem_of_singleton, ?elem_of_nil; naive_solver. }
  split_and!.
  - setoid_rewrite Hr. split.
    + intros -> rule. by destruct rule.
    + intros Hn. pose proof (Hn ConflictEntryLimitReached) as H1. pose proof (Hn ConflictExitRequired) as H2.
      apply bool_decide_eq_false in H1, H2.
      pose proof (entry_verdicts p facts) as Hv. fold verdict in Hv. set_solver.
  - by rewrite Hr, bool_decide_eq_true.
  - by rewrite Hr, bool_decide_eq_true.
  - apply evaluate_settled. intros c. unfold t'. apply raised_evaluate.
Qed.
End Gate.

(** ** A pass of two entries, left before coming back *)
#[local] Existing Instance text_uuid.
#[local] Existing Instance text_uuid_laws.

Definition two_entries : ReEntryPolicy := {| re_Mode := CountLimited; re_MaxEntries := Some 2; re_RequiresExit := true |}.
Definition at_gate (id : string) (ty : AdmissionEventType) (t seq : Z) : AdmissionFact := {|
  fa_OccurrenceID := id; fa_Type := ty; fa_OccurredAt := t; fa_Sequence := seq; fa_Undirected := false |}.

Definition morning : AdmissionFact := at_gate "a" AdmissionEntry 10 1.
Definition lunch : AdmissionFact := at_gate "b" AdmissionExit 20 2.
Definition afternoon : AdmissionFact := at_gate "c" AdmissionEntry 30 3.

Example back_after_lunch : EvaluateLiveAdmission two_entries [lunch; morning] AdmissionEntry = DecisionAccepted.
Proof. vm_compute. reflexivity. Qed.
Example still_inside : EvaluateLiveAdmission two_entries [morning] AdmissionEntry = DecisionExitRequired.
Proof. vm_compute. reflexivity. Qed.

(** The exit reaches the server after the re-entry it allowed: the conflict that
    was raised is withdrawn. *)
Example late_exit_withdraws :
  let t := (evaluatePolicyAlarms two_entries [morning; afternoon] ∅).1 in
  (evaluatePolicyAlarms two_entries [morning; afternoon; lunch] t).2 =
  [({| cf_Rule := ConflictExitRequired; cf_OccurrenceID := "c"%string : uuid |}, Withdrawn, 2)].
Proof. vm_compute. reflexivity. Qed.

Lemma gate_agrees_with_projection_witness :
  NoDup (map fa_OccurrenceID [afternoon; morning; lunch]) ∧
  let verdict := EvaluateLiveAdmission two_entries [morning; lunch] AdmissionEntry in
  let t' := (evaluatePolicyAlarms two_entries [lunch; afternoon; morning] ∅).1 in
  (verdict = DecisionAccepted ↔ ∀ rule, raised t' {| cf_Rule := rule; cf_OccurrenceID := fa_OccurrenceID afternoon |} = false) ∧
  (raised t' {| cf_Rule := ConflictEntryLimitReached; cf_OccurrenceID := fa_OccurrenceID afternoon |} = true
     ↔ verdict = DecisionEntryLimitReached) ∧
  (raised t' {| cf_Rule := ConflictExitRequired; cf_OccurrenceID := fa_OccurrenceID afternoon |} = true
     ↔ verdict = DecisionExitRequired) ∧
  (evaluatePolicyAlarms two_entries [lunch; afternoon; morning] t').2 = [].
Proof.
  assert (Hd : ∀ g, g ∈ [morning; lunch] → directed_type g).
  { intros g [->|[->|[]%elem_of_nil]%list.elem_of_cons]%list.elem_of_cons; discriminate. }
  assert (Hl : latest afternoon [morning; lunch]).
  { intros g [->|[->|[]%elem_of_nil]%list.elem_of_cons]%list.elem_of_cons; vm_compute; reflexivity. }
  assert (Hnd : NoDup (map fa_OccurrenceID [afternoon; morning; lunch])).
  { apply (proj1 (bool_decide_eq_true _)). vm_compute. reflexivity. }
  pose proof (Permutation_cons_append [afternoon; morning] lunch) as Hp.
  exact (conj Hnd (gate_agrees_with_projection two_entries [morning; lunch] afternoon [lunch; afternoon; morning] ∅
    eq_refl Hd Hl eq_refl eq_refl Hnd Hp)).
Defined.
