(* ===== verification/Lifecycle.v ===== *)
(** * The integrity scheme of the ticket trail

    [services/access/internal/lifecycle]: canonical.go (the signed forms, the
    hash chain of a ticket and the Merkle root of a checkpoint) and keys.go (the
    signer and the public-key ring). Ed25519 is the class [Ed25519], of which only
    what RFC 8032 promises of an honest signer is used. *)

From Stdlib Require Import Ascii.
From stdpp Require Import pretty.
From S2P Require Import Prelude Text Sha256 Format Keyring.
#[local] Open Scope Z_scope.

(** ** What the uuid library adds in this service

    [uuid.NewSHA1(uuid.NameSpaceOID, name)], and whether a uuid is a version 4 of
    RFC 4122, which a name-based one is not. *)
Class UUIDSource `{UUID} : Type := {
  NewSHA1 : string → uuid;
  is_v4 : uuid → bool;
}.

(** ** crypto/ed25519 *)

Class Ed25519 : Type := {
  ed_PublicKey : bytes → bytes;
  ed_Sign : bytes → bytes → bytes;
  ed_Verify : bytes → bytes → bytes → bool;
}.

(** A signature verifies under the key of the seed that made it, and is 64 bytes. *)
Class Ed25519Laws `{Ed25519} : Prop := {
  ed_Verify_Sign seed m : ed_Verify (ed_PublicKey seed) m (ed_Sign seed m) = true;
  ed_Sign_length seed m : String.length (ed_Sign seed m) = 64%nat;
  ed_PublicKey_length seed : String.length (ed_PublicKey seed) = 32%nat;
}.

Section Canonical.
Context `{UU : UUID}.

(** ** Canonical forms *)

Definition HashSize : nat := 32.

Definition domainEvent : string := "access-lifecycle/event/v1".
Definition domainHead : string := "access-lifecycle/head/v1".
Definition domainLeaf : string := "access-lifecycle/leaf/v1".
Definition domainNode : string := "access-lifecycle/node/v1".
Definition domainCheckpoint : string := "access-lifecycle/checkpoint/v1".

Definition CanonicalVersion : Z := 1.

Record Event := {
  le_TicketID : uuid;
  le_OrderID : uuid;
  le_OrganizerID : uuid;
  le_SlotID : uuid;
  le_Sequence : Z;
  le_EventID : uuid;
  le_Type : string;
  le_OccurredAt : time;
}.

(** Microseconds, what [timestamptz] keeps. *)
Definition Normalize (t : time) : time := t - t mod 1000.

Definition stamp (t : time) : string := RFC3339Nano (Normalize t).

Definition CanonicalEvent (e : Event) : bytes := join newline [
  domainEvent; uuid_String (le_TicketID e); uuid_String (le_OrderID e); uuid_String (le_OrganizerID e);
  uuid_String (le_SlotID e); pretty (le_Sequence e); uuid_String (le_EventID e); le_Type e; stamp (le_OccurredAt e)].

Definition CanonicalHead (ticketID : uuid) (sequence : Z) (keyID : string) (headHash : bytes) : bytes :=
  join newline [domainHead; uuid_String ticketID; pretty sequence; keyID; Hex headHash].

Definition CanonicalLeaf (ticketID : uuid) (sequence : Z) (headHash : bytes) : bytes :=
  join newline [domainLeaf; uuid_String ticketID; pretty sequence; Hex headHash].

Record Checkpoint := {
  cp_OrganizerID : uuid;
  cp_Sequence : Z;
  cp_PreviousRoot : bytes;
  cp_Root : bytes;
  cp_LeafCount : Z;
  cp_KeyID : string;
  cp_CreatedAt : time;
}.

Definition CanonicalCheckpoint (c : Checkpoint) : bytes := join newline [
  domainCheckpoint; uuid_String (cp_OrganizerID c); pretty (cp_Sequence c); Hex (cp_PreviousRoot c); Hex (cp_Root c);
  pretty (cp_LeafCount c); cp_KeyID c; stamp (cp_CreatedAt c)].

Definition GenesisHash : bytes := bytes_of_list (repeat 0 HashSize).

Definition HashEntry (previous canonical : bytes) : bytes := Sum256 (previous +:+ canonical).

(** ** The Merkle root of a checkpoint *)

Definition nodeText (left right : bytes) : bytes := join newline [domainNode; Hex left; Hex right].

Definition hashNode (left right : bytes) : bytes := HashEntry nil_bytes (nodeText left right).

Record Leaf := {
  lf_TicketID : uuid;
  lf_Sequence : Z;
  lf_HeadHash : bytes;
}.

Inductive MerkleError := ZeroLeaves | HeadHashSize (ticket : uuid) | DuplicateLeaf (ticket : uuid).

(** The bytes of a uuid order as its canonical text does. *)
Definition sortedLeaves (leaves : list Leaf) : list Leaf := isort (on_key lf_TicketID uuid_ltb) leaves.

Definition leafText (l : Leaf) : bytes := CanonicalLeaf (lf_TicketID l) (lf_Sequence l) (lf_HeadHash l).

(** The first level; [previous] is the ticket of the leaf before. *)
Fixpoint leafLevel (previous : option uuid) (l : list Leaf) : result MerkleError (list bytes) :=
  match l with
  | [] => Ok []
  | x :: l' =>
      if negb (String.length (lf_HeadHash x) =? HashSize)%nat then Err (HeadHashSize (lf_TicketID x))
      else if bool_decide (previous = Some (lf_TicketID x)) then Err (DuplicateLeaf (lf_TicketID x))
      else level ← leafLevel (Some (lf_TicketID x)) l'; Ok (HashEntry nil_bytes (leafText x) :: level)
  end.

(** The next level: pairs, the last node paired with itself when it is alone. *)
Fixpoint nextLevel (level : list bytes) : list bytes :=
  match level with
  | l :: r :: level' => hashNode l r :: nextLevel level'
  | [l] => [hashNode l l]
  | [] => []
  end.

(** [for len(level) > 1]. A level is at most half the one before, rounded up. *)
Fixpoint climb (fuel : nat) (level : list bytes) : list bytes :=
  match fuel, level with
  | S fuel', _ :: _ :: _ => climb fuel' (nextLevel level)
  | _, _ => level
  end.

Definition MerkleRoot (leaves : list Leaf) : result MerkleError bytes :=
  if bool_decide (length leaves = 0%nat) then Err ZeroLeaves
  else
    level ← leafLevel None (sortedLeaves leaves);
    Ok (List.hd nil_bytes (climb (length level) level)).
End Canonical.

Section Keys.
Context `{UU : UUID} `{ED : Ed25519}.

(** ** Keys *)

Definition KeyNamespace : string := "access-lifecycle/".

Record Signer := { sg_seed : bytes; sg_kid : string }.

Record Keyring := { lk_keys : gmap string bytes }.

Inductive KeyError :=
| KIDNamespace (kid : string)
| KIDDelimiter (kid : string)
| SeedEncoding
| SeedSize
| KeyringEntry (item : string)
| PublicKeyInvalid (kid : string)
| DuplicateKey (kid : string)
| NoKeys
| UnknownKey (kid : string)
| InvalidSignature (kid : string).

Definition IsUnknownKeyError (e : KeyError) : bool := match e with UnknownKey _ => true | _ => false end.

(** The bytes [strings.ContainsAny(kid, "\n\r=,")] looks for. *)
Definition kid_delimiter (c : ascii) : bool := existsb (Z.eqb (Z_of_byte c)) [10; 13; 61; 44].

Definition validKID (kid : string) : result KeyError unit :=
  if negb (String.prefix KeyNamespace kid) || bool_decide (kid = KeyNamespace) then Err (KIDNamespace kid)
  else if existsb kid_delimiter (list_ascii_of_string kid) then Err (KIDDelimiter kid)
  else Ok tt.

Definition NewSigner (seedBase64 kid : string) : result KeyError Signer :=
  _ ← validKID kid;
  match RawStdEncoding_DecodeString seedBase64 with
  | None => Err SeedEncoding
  | Some seed =>
      if negb (String.length seed =? 32)%nat then Err SeedSize else Ok {| sg_seed := seed; sg_kid := kid |}
  end.

Definition SignHead (s : Signer) (ticketID : uuid) (sequence : Z) (headHash : bytes) : bytes :=
  ed_Sign (sg_seed s) (CanonicalHead ticketID sequence (sg_kid s) headHash).

Definition named (s : Signer) (c : Checkpoint) : Checkpoint := {|
  cp_OrganizerID := cp_OrganizerID c; cp_Sequence := cp_Sequence c; cp_PreviousRoot := cp_PreviousRoot c;
  cp_Root := cp_Root c; cp_LeafCount := cp_LeafCount c; cp_KeyID := sg_kid s; cp_CreatedAt := cp_CreatedAt c |}.

Definition SignCheckpoint (s : Signer) (c : Checkpoint) : bytes :=
  ed_Sign (sg_seed s) (CanonicalCheckpoint (named s c)).

(** One item of [ACCESS_LIFECYCLE_PUBLIC_KEYS]; an empty one is skipped. *)
Definition addKey (item : string) (m : gmap string bytes) : result KeyError (gmap string bytes) :=
  let item := TrimSpace item in
  if bool_decide (item = ""%string) then Ok m
  else
    match cut_on equals_sign item with
    | None => Err (KeyringEntry item)
    | Some (kid, encoded) =>
        if bool_decide (encoded = ""%string) then Err (KeyringEntry item)
        else
          _ ← validKID kid;
          match RawStdEncoding_DecodeString encoded with
          | None => Err (PublicKeyInvalid kid)
          | Some key =>
              if negb (String.length key =? 32)%nat then Err (PublicKeyInvalid kid)
              else match m !! kid with Some _ => Err (DuplicateKey kid) | None => Ok (<[kid := key]> m) end
          end
    end.

Definition comma : ascii := ","%char.

Definition NewKeyring (raw : string) : result KeyError Keyring :=
  m ← fold_result (λ m item, addKey item m) ∅ (split_on comma raw);
  if bool_decide (m = ∅) then Err NoKeys else Ok {| lk_keys := m |}.

Definition key_of (k : Keyring) (kid : string) : bytes := default nil_bytes (lk_keys k !! kid).

Definition Has (k : Keyring) (kid : string) : bool := (String.length (key_of k kid) =? 32)%nat.

Definition keyring_verify (k : Keyring) (kid : string) (message sig : bytes) : result KeyError unit :=
  if negb (Has k kid) then Err (UnknownKey kid)
  else if negb (ed_Verify (key_of k kid) message sig) then Err (InvalidSignature kid)
  else Ok tt.

Definition VerifyHead (k : Keyring) (ticketID : uuid) (sequence : Z) (keyID : string) (headHash sig : bytes)
    : result KeyError unit :=
  keyring_verify k keyID (CanonicalHead ticketID sequence keyID headHash) sig.

Definition VerifyCheckpoint (k : Keyring) (c : Checkpoint) (sig : bytes) : result KeyError unit :=
  keyring_verify k (cp_KeyID c) (CanonicalCheckpoint c) sig.

(** The ring knows a signer's public key under its id. *)
Definition Trusts (k : Keyring) (s : Signer) : Prop := lk_keys k !! sg_kid s = Some (ed_PublicKey (sg_seed s)).
End Keys.

Section KeyFacts.
Context `{UU : UUID} `{EL : Ed25519Laws}.
Implicit Types (k : Keyring) (s : Signer).

Lemma trusted_Has k s : Trusts k s → Has k (sg_kid s) = true.
Proof. unfold Trusts, Has, key_of. intros ->. cbn. by rewrite ed_PublicKey_length. Qed.

Lemma trusted_verify k s m : Trusts k s → keyring_verify k (sg_kid s) m (ed_Sign (sg_seed s) m) = Ok tt.
Proof.
  intros Ht. unfold keyring_verify. rewrite (trusted_Has k s Ht). cbn [negb].
  unfold Trusts in Ht. unfold key_of. rewrite Ht. cbn. by rewrite ed_Verify_Sign.
Qed.

Lemma VerifyHead_SignHead k s ticket seq h :
  Trusts k s → VerifyHead k ticket seq (sg_kid s) h (SignHead s ticket seq h) = Ok tt.
Proof. apply trusted_verify. Qed.

Lemma VerifyCheckpoint_SignCheckpoint k s c :
  Trusts k s → VerifyCheckpoint k (named s c) (SignCheckpoint s c) = Ok tt.
Proof. intros Ht. unfold VerifyCheckpoint, SignCheckpoint. by apply trusted_verify. Qed.
End KeyFacts.

Section Merkle.
Context `{UL : UUIDLaws}.
Implicit Types (l : list Leaf) (level : list bytes).

Lemma Normalize_idem (x : time) : Normalize (Normalize x) = Normalize x.
Proof. unfold Normalize. rewrite Zminus_mod_idemp_r, Z.sub_diag, Z.mod_0_l by lia. lia. Qed.

(** ** The loop ends at the root *)

Lemma length_nextLevel level : length (nextLevel level) = Nat.div2 (S (length level)).
Proof.
  induction level as [level IH] using (induction_ltof1 _ (@length _)). unfold ltof in IH.
  destruct level as [|a [|b level]]; [done..|]. cbn [nextLevel length]. rewrite IH by (cbn; lia). done.
Qed.

Lemma climb_root fuel level : (length level ≤ fuel)%nat → level ≠ [] → ∃ r, climb fuel level = [r].
Proof.
  revert level. induction fuel as [|fuel IH]; intros [|a [|b level]] Hf Hne; cbn in *; try done; try lia; [by exists a|].
  apply IH; [|done]. cbn. rewrite length_nextLevel. pose proof (Nat.div2_decr (S (length level)) (length level)). lia.
Qed.

(** ** The root commits to the leaves *)

(** The texts hashed on the way to the root. *)
Fixpoint nodeTexts (level : list bytes) : list bytes :=
  match level with
  | a :: b :: level' => nodeText a b :: nodeTexts level'
  | [a] => [nodeText a a]
  | [] => []
  end.

Fixpoint climbTexts (fuel : nat) (level : list bytes) : list bytes :=
  match fuel, level with
  | S fuel', _ :: _ :: _ => nodeTexts level ++ climbTexts fuel' (nextLevel level)
  | _, _ => []
  end.

Definition hashedTexts l : list bytes :=
  map leafText (sortedLeaves l) ++
  climbTexts (length l) (map (λ x, HashEntry nil_bytes (leafText x)) (sortedLeaves l)).

(** A text of one tree and a text of the other with one hash. *)
Definition texts_collide (t1 t2 : list bytes) : Prop := ∃ a b, a ∈ t1 ∧ b ∈ t2 ∧ Collision a b.

Lemma texts_collide_mono t1 t2 u1 u2 : t1 ⊆ u1 → t2 ⊆ u2 → texts_collide t1 t2 → texts_collide u1 u2.
Proof. intros H1 H2 (a & b & Ha & Hb & Hc). exists a, b. auto. Qed.

Lemma hex_char_one_line c :
  one_line (String (hex_digit (Z_of_byte c / 16)) (String (hex_digit (Z_of_byte c `mod` 16)) "")) = true.
Proof. destruct c as [[] [] [] [] [] [] [] []]; vm_compute; reflexivity. Qed.

Lemma one_line_Hex b : one_line (Hex b) = true.
Proof.
  unfold Hex. induction (list_ascii_of_string b) as [|c cs IH]; [done|]. cbn [map concat app string_of_list_ascii].
  rewrite (one_line_app (String _ (String _ "")) _ : one_line (String _ (String _ _)) = _). by rewrite hex_char_one_line.
Qed.

Lemma nodeText_inj a b a' b' : nodeText a b = nodeText a' b' → a = a' ∧ b = b'.
Proof.
  unfold nodeText. intros E. apply join_inj in E; [|done|done|..].
  - injection E as E1 E2. split; by apply (inj Hex).
  - by repeat (constructor; [first [done|apply one_line_Hex]|]).
  - by repeat (constructor; [first [done|apply one_line_Hex]|]).
Qed.

Lemma same_hash t1 t2 a b :
  a ∈ t1 → b ∈ t2 → HashEntry nil_bytes a = HashEntry nil_bytes b → a = b ∨ texts_collide t1 t2.
Proof.
  intros Ha Hb He. destruct (decide (a = b)) as [|Hne]; [by left|right]. exists a, b. split_and!; [done..|]. by split.
Qed.

Lemma pairs_ind (P : list bytes → Prop) :
  P [] → (∀ a, P [a]) → (∀ a b level, P level → P (a :: b :: level)) → ∀ level, P level.
Proof.
  intros H0 H1 H2. enough (Hall : ∀ level, P level ∧ ∀ a, P (a :: level)) by (intros level; apply Hall).
  induction level as [|b level [IH1 IH2]]; [by split|]. split; [done|]. intros a. by apply H2.
Qed.

Lemma nextLevel_inj level1 : ∀ level2, length level1 = length level2 → nextLevel level1 = nextLevel level2 →
  level1 = level2 ∨ texts_collide (nodeTexts level1) (nodeTexts level2).
Proof.
  induction level1 as [|a|a b l1 IH] using pairs_ind; intros [|a' [|b' l2]] Hlen Hn; try done; [by left|..];
    cbn [nextLevel nodeTexts] in *.
  - injection Hn as Hh. destruct (same_hash [nodeText a a] [nodeText a' a'] _ _ (list_elem_of_here _ _) (list_elem_of_here _ _) Hh) as [E|];
      [|by right]. apply nodeText_inj in E as [-> _]. by left.
  - injection Hn as Hh Hn. injection Hlen as Hlen.
    destruct (same_hash (nodeText a b :: nodeTexts l1) (nodeText a' b' :: nodeTexts l2) _ _
      (list_elem_of_here _ _) (list_elem_of_here _ _) Hh) as [E|]; [|by right].
    apply nodeText_inj in E as [-> ->]. destruct (IH l2 Hlen Hn) as [->|Hc]; [by left|right].
    eapply texts_collide_mono; [| |exact Hc]; intros x; by apply list_elem_of_further.
Qed.

Lemma climb_inj fuel : ∀ level1 level2, length level1 = length level2 → climb fuel level1 = climb fuel level2 →
  level1 = level2 ∨ texts_collide (climbTexts fuel level1) (climbTexts fuel level2).
Proof.
  induction fuel as [|fuel IH]; intros level1 level2 Hlen Hc; [by left|].
  destruct level1 as [|a [|b l1]], level2 as [|a' [|b' l2]]; try done; try (by left).
  set (level1 := a :: b :: l1) in *. set (level2 := a' :: b' :: l2) in *.
  destruct (IH (nextLevel level1) (nextLevel level2)) as [E|Ht].
  - rewrite !length_nextLevel. by rewrite Hlen.
  - exact Hc.
  - destruct (nextLevel_inj level1 level2 Hlen E) as [|Ht]; [by left|right].
    eapply texts_collide_mono; [| |exact Ht]; intros x Hx; apply elem_of_app; by left.
  - right. eapply texts_collide_mono; [| |exact Ht]; intros x Hx; apply elem_of_app; by right.
Qed.

Lemma texts_inj texts1 : ∀ texts2,
  map (HashEntry nil_bytes) texts1 = map (HashEntry nil_bytes) texts2 → texts1 = texts2 ∨ texts_collide texts1 texts2.
Proof.
  induction texts1 as [|a texts1 IH]; intros [|b texts2] E; try done; [by left|]. cbn in E. injection E as Hh E.
  destruct (same_hash (a :: texts1) (b :: texts2) a b) as [->|]; [apply list_elem_of_here..|exact Hh| |by right].
  destruct (IH texts2 E) as [->|Hc]; [by left|right].
  eapply texts_collide_mono; [| |exact Hc]; intros x; by apply list_elem_of_further.
Qed.

Lemma leafLevel_Ok l : ∀ previous level, leafLevel previous l = Ok level →
  level = map (HashEntry nil_bytes) (map leafText l) ∧ Forall (λ x, String.length (lf_HeadHash x) = HashSize) l.
Proof.
  induction l as [|x l IH]; intros previous level Hl; cbn in Hl; [by injection Hl as <-|].
  destruct (Nat.eqb_spec (String.length (lf_HeadHash x)) HashSize); [|done]. cbn [negb] in Hl.
  case_bool_decide; [done|]. apply bind_Ok in Hl as (level' & Hl%IH & [= <-]). destruct Hl as [-> Hall].
  by split; [|constructor].
Qed.

(** A ticket's text is a single line of hexadecimal digits and dashes. *)
Definition single_line_uuids : Prop := ∀ u : uuid, one_line (uuid_String u) = true.

Lemma leafText_inj x y : single_line_uuids → leafText x = leafText y → x = y.
Proof.
  intros Hu E. unfold leafText, CanonicalLeaf in E. apply join_inj in E; [|done|done|..].
  - injection E as Ht Hs Hh. destruct x, y; cbn in *. f_equal; [by apply (inj uuid_String)|by apply (inj pretty)|by apply (inj Hex)].
  - by repeat (constructor; [first [done|apply Hu|apply one_line_pretty|apply one_line_Hex]|]).
  - by repeat (constructor; [first [done|apply Hu|apply one_line_pretty|apply one_line_Hex]|]).
Qed.

Lemma length_sortedLeaves l : length (sortedLeaves l) = length l.
Proof. unfold sortedLeaves. by rewrite isort_perm. Qed.

Lemma MerkleRoot_Ok l root : MerkleRoot l = Ok root →
  l ≠ [] ∧ climb (length l) (map (HashEntry nil_bytes) (map leafText (sortedLeaves l))) = [root].
Proof.
  unfold MerkleRoot. case_bool_decide as Hn; [done|]. intros (level & Hl & [= <-])%bind_Ok.
  assert (l ≠ []) as Hne by (by intros ->). split; [done|].
  apply leafLevel_Ok in Hl as [-> _]. rewrite !length_map, length_sortedLeaves.
  destruct (climb_root (length l) (map (HashEntry nil_bytes) (map leafText (sortedLeaves l)))) as [r ->]; [| |done].
  - by rewrite !length_map, length_sortedLeaves.
  - intros E%(f_equal length). rewrite !length_map, length_sortedLeaves in E. by apply length_zero_iff_nil in E.
Qed.

(** The signed root and leaf count of a checkpoint commit to its leaves: two
    sets of as many leaves with one root are the same leaves, or two of the
    texts hashed for them are a collision of SHA-256. *)
Theorem merkle_root_commits l1 l2 root :
  single_line_uuids → length l1 = length l2 → MerkleRoot l1 = Ok root → MerkleRoot l2 = Ok root →
  l1 ≡ₚ l2 ∨ texts_collide (hashedTexts l1) (hashedTexts l2).
Proof.
  intros Hu Hlen [_ H1]%MerkleRoot_Ok [_ H2]%MerkleRoot_Ok. rewrite <-Hlen in H2. rewrite <-H1 in H2. symmetry in H2.
  unfold hashedTexts. rewrite !(map_map leafText) in *.
  apply climb_inj in H2 as [E|Hc]; [| |by rewrite !length_map, !length_sortedLeaves].
  - rewrite <-!(map_map leafText) in E. apply texts_inj in E as [E|Hc].
    + left. rewrite <-(isort_perm (on_key lf_TicketID uuid_ltb) l1), <-(isort_perm (on_key lf_TicketID uuid_ltb) l2).
      assert (Inj (=) (=) leafText) as Hinj by (intros x y; by apply leafText_inj).
      apply (inj (fmap leafText)) in E. unfold sortedLeaves in E. by rewrite E.
    + right. eapply texts_collide_mono; [| |exact Hc]; intros x Hx; apply elem_of_app; by left.
  - right. rewrite Hlen in Hc at 2. eapply texts_collide_mono; [| |exact Hc]; intros x Hx; apply elem_of_app; by right.
Qed.
End Merkle.

(** ** Concrete libraries for the witnesses

    Identifiers are numbers, a name's identifier is the even number its bytes
    spell and a random one is odd; a signature is a keyed SHA-256,
    verified with the seed. *)
Definition number_uuid : UUID := {|
  uuid := N;
  uuid_Nil := 0%N;
  uuid_String := λ n, pretty n;
  uuid_Parse := λ _, None;
|}.

Lemma number_uuid_laws : @UUIDLaws number_uuid.
Proof. split. intros x y E. by apply (inj (pretty : N → string)). Qed.

Lemma number_uuid_single_line : @single_line_uuids number_uuid.
Proof. intros [|n]; [reflexivity|exact (one_line_pretty (Z.pos n))]. Qed.

Definition number_of_text (s : string) : N :=
  foldl (λ n c, (256 * n + Z.to_N (Z_of_byte c))%N) 1%N (list_ascii_of_string s).

Definition number_source : @UUIDSource number_uuid :=
  @Build_UUIDSource number_uuid (λ name, (2 * number_of_text name)%N) N.odd.

Lemma length_append (a b : string) : String.length (a +:+ b) = (String.length a + String.length b)%nat.
Proof. induction a as [|c a IH]; cbn; [done|by rewrite <-IH]. Qed.

Definition keyed_hash (key m : bytes) : bytes := Sum256 (key +:+ m) +:+ Sum256 key.

Definition mac_ed25519 : Ed25519 := {|
  ed_PublicKey := λ seed, Sum256 seed;
  ed_Sign := λ seed m, keyed_hash (Sum256 seed) m;
  ed_Verify := λ key m sig, bool_decide (sig = keyed_hash key m);
|}.

Lemma mac_ed25519_laws : @Ed25519Laws mac_ed25519.
Proof.
  split; intros; cbn.
  - by apply bool_decide_true.
  - unfold keyed_hash. by rewrite length_append, !Sum256_length.
  - apply Sum256_length.
Qed.

#[local] Existing Instances number_uuid number_source mac_ed25519.

Definition example_leaves : list Leaf := map (λ n : N, {| lf_TicketID := n; lf_Sequence := Z.of_N n; lf_HeadHash := GenesisHash |} : Leaf) [5; 3; 8]%N.

Definition example_root : bytes := match MerkleRoot example_leaves with Ok r => r | Err _ => nil_bytes end.

Lemma merkle_root_commits_witness :
  MerkleRoot example_leaves = Ok example_root ∧
  (example_leaves ≡ₚ rev example_leaves ∨ texts_collide (hashedTexts example_leaves) (hashedTexts (rev example_leaves))).
Proof.
  assert (H1 : MerkleRoot example_leaves = Ok example_root) by (vm_compute; reflexivity).
  assert (H2 : MerkleRoot (rev example_leaves) = Ok example_root) by (vm_compute; reflexivity).
  exact (conj H1 (@merkle_root_commits number_uuid number_uuid_laws example_leaves (rev example_leaves) _ number_uuid_single_line eq_refl H1 H2)).
Defined.
