(* ===== verification/Trail.v ===== *)
(** * The ticket trail

    [services/access/internal/store]: the tables of the trail (migrations 0001 to
    0011), the append every writer goes through ([appendLifecycle] of lifecycle.go)
    and the verification the gate runs before it decides ([verifyTicketChain]).
    Each writer holds the ticket's row lock, so an append is one atomic step. *)

From S2P Require Import Prelude Tables Sha256 Lifecycle Admission.
#[local] Open Scope Z_scope.

Section Trail.
Context `{UU : UUID}.

(** ** Data *)

Record Ticket := {
  tk_ID : uuid;
  tk_OrderID : uuid;
  tk_GuestOrderRef : uuid;
  tk_OrganizerID : uuid;
  tk_BuyerID : uuid;
  tk_SlotID : uuid;
  tk_TicketTypeID : uuid;
  tk_SeatIdentity : option string;
  tk_Payload : string;
  tk_IssuedAt : time;
}.

Record TicketIdentity := { ti_OrderID : uuid; ti_OrganizerID : uuid; ti_SlotID : uuid }.

#[export] Instance TicketIdentity_eq_dec : EqDecision TicketIdentity.
Proof. solve_decision. Defined.

Definition identity (t : Ticket) : TicketIdentity :=
  {| ti_OrderID := tk_OrderID t; ti_OrganizerID := tk_OrganizerID t; ti_SlotID := tk_SlotID t |}.

#[export] Instance LifecycleType_eq_dec : EqDecision LifecycleType.
Proof. solve_decision. Defined.

Definition type_text (ty : LifecycleType) : string :=
  match ty with
  | Issued => "issued" | Delivered => "delivered" | Redelivered => "redelivered" | Redeemed => "redeemed"
  | Entry => "entry" | Exit => "exit" | DuplicateAdmit => "duplicate_admit"
  | Refunded => "refunded" | Exchanged => "exchanged"
  end.

(** [lifecycle_events_singleton_type_uidx]: the types a ticket carries once. *)
Definition singleton (ty : LifecycleType) : bool :=
  match ty with Issued | Delivered | Redeemed | Refunded | Exchanged => true | _ => false end.

Record EventRow := { ev_Ticket : uuid; ev_Type : LifecycleType; ev_OccurredAt : time }.

Record IntegrityRow := {
  ig_Ticket : uuid;
  ig_Sequence : Z;
  ig_Version : Z;
  ig_PreviousHash : bytes;
  ig_EntryHash : bytes;
}.

Record HeadRow := {
  hd_Organizer : uuid;
  hd_Sequence : Z;
  hd_Version : Z;
  hd_Hash : bytes;
  hd_KeyID : string;
  hd_Signature : bytes;
  hd_ChangedAt : time;
}.

(** A signed head snapshot; its [change_id] is its place in the table. *)
Record HeadChange := {
  hc_Ticket : uuid;
  hc_Organizer : uuid;
  hc_Sequence : Z;
  hc_Hash : bytes;
  hc_Version : Z;
  hc_KeyID : string;
  hc_Signature : bytes;
  hc_Checkpoint : option nat;
  hc_CreatedAt : time;
}.

(** A checkpoint; its [checkpoint_id] is its place in the table. *)
Record CheckpointRow := { cr_Checkpoint : Checkpoint; cr_Version : Z; cr_Signature : bytes }.

Record EpochRow := { ep_Sequence : Z; ep_Version : Z; ep_Hash : bytes; ep_Signature : bytes; ep_SealedAt : time }.

Record TrailDB := {
  td_tickets : gmap uuid Ticket;
  td_events : gmap uuid EventRow;
  td_integrity : gmap uuid IntegrityRow;
  td_heads : gmap uuid HeadRow;
  td_changes : list HeadChange;
  td_checkpoints : list CheckpointRow;
  td_epochs : gmap (uuid * string) EpochRow;
}.

Inductive AccessError :=
| ErrDatabase
| ErrInvalid (what : string)
| ErrLifecycleUnsigned
| errEventIDTaken
| ErrTicketCredential
| ErrOccurrenceCollision
| ErrExitNotApplicable
| ErrRefundBatchConflict
| ErrTicketsNotIssued
| ErrExchangeTicketsNotIssued
| ErrSourceTicketsAlreadyVoided
| ErrSourceTicketsAlreadyAdmitted
| ErrRedeliveryKeyConflict
| ErrRedeliveryBoundExceeded
| ErrCheckpointRegression
| ErrCheckpoint (what : string)
| ErrMerkle (e : MerkleError).

Definition ensure (b : bool) (e : AccessError) : result AccessError unit := refuse_if (negb b) e.

(** ** The statements of an append *)

(** A [timestamptz] column keeps microseconds. *)
Definition timestamptz (t : time) : time := Normalize t.

Definition has_event (ticket : uuid) (ty : LifecycleType) (t : TrailDB) : bool :=
  some_row (λ e, bool_decide (ev_Ticket e = ticket) && bool_decide (ev_Type e = ty)) (td_events t).

Definition set_events m (t : TrailDB) : TrailDB := {|
  td_tickets := td_tickets t; td_events := m; td_integrity := td_integrity t; td_heads := td_heads t;
  td_changes := td_changes t; td_checkpoints := td_checkpoints t; td_epochs := td_epochs t |}.

Definition set_integrity m (t : TrailDB) : TrailDB := {|
  td_tickets := td_tickets t; td_events := td_events t; td_integrity := m; td_heads := td_heads t;
  td_changes := td_changes t; td_checkpoints := td_checkpoints t; td_epochs := td_epochs t |}.

Definition set_heads m (t : TrailDB) : TrailDB := {|
  td_tickets := td_tickets t; td_events := td_events t; td_integrity := td_integrity t; td_heads := m;
  td_changes := td_changes t; td_checkpoints := td_checkpoints t; td_epochs := td_epochs t |}.

Definition set_changes l (t : TrailDB) : TrailDB := {|
  td_tickets := td_tickets t; td_events := td_events t; td_integrity := td_integrity t; td_heads := td_heads t;
  td_changes := l; td_checkpoints := td_checkpoints t; td_epochs := td_epochs t |}.

(** The foreign key, the primary key and the singleton index; a unique violation
    of this statement is [errEventIDTaken]. *)
Definition insert_event (id : uuid) (row : EventRow) (t : TrailDB) : result AccessError TrailDB :=
  _ ← ensure (bool_decide (is_Some (td_tickets t !! ev_Ticket row))) ErrDatabase;
  _ ← ensure (bool_decide (td_events t !! id = None)) errEventIDTaken;
  _ ← refuse_if (singleton (ev_Type row) && has_event (ev_Ticket row) (ev_Type row) t) errEventIDTaken;
  Ok (set_events (<[id := row]> (td_events t)) t).

Definition octets (n : nat) (b : bytes) : bool := (String.length b =? n)%nat.

Definition insert_integrity (id : uuid) (row : IntegrityRow) (t : TrailDB) : result AccessError TrailDB :=
  _ ← ensure (bool_decide (td_integrity t !! id = None) &&
              negb (some_row (λ i, bool_decide (ig_Ticket i = ig_Ticket row) && (ig_Sequence i =? ig_Sequence row))
                     (td_integrity t)) &&
              (0 <? ig_Sequence row) && octets 32 (ig_PreviousHash row) && octets 32 (ig_EntryHash row)) ErrDatabase;
  Ok (set_integrity (<[id := row]> (td_integrity t)) t).

(** The insert, or the update of [ON CONFLICT(ticket_id)], which leaves the
    organizer as it was. *)
Definition upsert_head (ticket : uuid) (row : HeadRow) (t : TrailDB) : result AccessError TrailDB :=
  _ ← ensure ((0 <? hd_Sequence row) && octets 32 (hd_Hash row) && octets 64 (hd_Signature row)) ErrDatabase;
  let row := {|
    hd_Organizer := match td_heads t !! ticket with Some old => hd_Organizer old | None => hd_Organizer row end;
    hd_Sequence := hd_Sequence row; hd_Version := hd_Version row; hd_Hash := hd_Hash row; hd_KeyID := hd_KeyID row;
    hd_Signature := hd_Signature row; hd_ChangedAt := hd_ChangedAt row |} in
  Ok (set_heads (<[ticket := row]> (td_heads t)) t).

Definition queue_change (c : HeadChange) (t : TrailDB) : result AccessError TrailDB :=
  _ ← ensure ((0 <? hc_Sequence c) && octets 32 (hc_Hash c) && octets 64 (hc_Signature c)) ErrDatabase;
  Ok (set_changes (td_changes t ++ [c]) t).
End Trail.

Section Appending.
Context `{UU : UUID} `{ED : Ed25519}.

(** ** Appending *)

Definition loadHead (t : TrailDB) (ticket : uuid) : Z * bytes :=
  match td_heads t !! ticket with Some h => (hd_Sequence h, hd_Hash h) | None => (0, GenesisHash) end.

Record appendInput := {
  ai_TicketID : uuid;
  ai_Identity : TicketIdentity;
  ai_EventID : uuid;
  ai_Type : LifecycleType;
  ai_OccurredAt : time;
}.

(** The canonical bytes of an event of a ticket at a place of its chain. *)
Definition event_canonical (ticket : uuid) (id : TicketIdentity) (seq : Z) (event : uuid) (ty : LifecycleType) (at_ : time) : bytes :=
  CanonicalEvent {|
    le_TicketID := ticket; le_OrderID := ti_OrderID id; le_OrganizerID := ti_OrganizerID id; le_SlotID := ti_SlotID id;
    le_Sequence := seq; le_EventID := event; le_Type := type_text ty; le_OccurredAt := at_ |}.

(** The three writes after the event itself. *)
Definition chain_event (sg : Signer) (db_now : time) (inp : appendInput) (head : Z * bytes) (occurredAt : time)
    (t : TrailDB) : result AccessError TrailDB :=
  let ticket := ai_TicketID inp in
  let org := ti_OrganizerID (ai_Identity inp) in
  let seq := add64 head.1 1 in
  let entryHash := HashEntry head.2 (event_canonical ticket (ai_Identity inp) seq (ai_EventID inp) (ai_Type inp) occurredAt) in
  t ← insert_integrity (ai_EventID inp)
        {| ig_Ticket := ticket; ig_Sequence := seq; ig_Version := CanonicalVersion; ig_PreviousHash := head.2; ig_EntryHash := entryHash |} t;
  let signature := SignHead sg ticket seq entryHash in
  t ← upsert_head ticket
        {| hd_Organizer := org; hd_Sequence := seq; hd_Version := CanonicalVersion; hd_Hash := entryHash;
           hd_KeyID := sg_kid sg; hd_Signature := signature; hd_ChangedAt := occurredAt |} t;
  queue_change {| hc_Ticket := ticket; hc_Organizer := org; hc_Sequence := seq; hc_Hash := entryHash; hc_Version := CanonicalVersion;
                  hc_KeyID := sg_kid sg; hc_Signature := signature; hc_Checkpoint := None; hc_CreatedAt := timestamptz db_now |} t.

(** [db_now] is the transaction's [now()]. *)
Definition appendLifecycle (signer : option Signer) (db_now : time) (inp : appendInput) (t : TrailDB)
    : result AccessError (TrailDB * time) :=
  match signer with
  | None => Err ErrLifecycleUnsigned
  | Some sg =>
      let head := loadHead t (ai_TicketID inp) in
      let stored := timestamptz (if is_zero_time (ai_OccurredAt inp) then db_now else ai_OccurredAt inp) in
      t ← insert_event (ai_EventID inp)
            {| ev_Ticket := ai_TicketID inp; ev_Type := ai_Type inp; ev_OccurredAt := stored |} t;
      let occurredAt := Normalize stored in
      t ← chain_event sg db_now inp head occurredAt t;
      Ok (t, occurredAt)
  end.

(** ** Verifying a ticket's chain *)

Inductive AlarmReason :=
| AlarmReasonMissingIntegrityRow
| AlarmReasonUnsupportedCanonicalVersion
| AlarmReasonSequenceGap
| AlarmReasonBrokenChainLink
| AlarmReasonEntryHashMismatch
| AlarmReasonOrphanIntegrityRow
| AlarmReasonMissingHead
| AlarmReasonHeadWithoutEvents
| AlarmReasonHeadMismatch
| AlarmReasonMissingKeyring
| AlarmReasonUnknownKey
| AlarmReasonInvalidHeadSignature
| AlarmReasonVerificationUnavailable
| AlarmReasonVerificationUnclassified
| AlarmReasonLegacyQuarantine.

(** An event joined with its integrity row, when that names the same ticket. *)
Record ChainRow := { rw_ID : uuid; rw_Event : EventRow; rw_Integrity : option IntegrityRow }.

Definition join_integrity (t : TrailDB) (id : uuid) (e : EventRow) : ChainRow := {|
  rw_ID := id; rw_Event := e;
  rw_Integrity := i ← td_integrity t !! id; if bool_decide (ig_Ticket i = ev_Ticket e) then Some i else None |}.

(** [ORDER BY i.sequence], nulls last. *)
Definition seq_less (a b : option Z) : bool :=
  match a, b with Some x, Some y => x <? y | Some _, None => true | None, _ => false end.

Definition row_seq (r : ChainRow) : option Z := ig_Sequence <$> rw_Integrity r.

Definition ticket_events (ticket : uuid) (t : TrailDB) : list ChainRow :=
  map (λ p, join_integrity t p.1 p.2) (List.filter (λ p, bool_decide (ev_Ticket p.2 = ticket)) (map_to_list (td_events t))).

Definition ticket_rows (ticket : uuid) (t : TrailDB) : list ChainRow := isort (on_key row_seq seq_less) (ticket_events ticket t).

(** One row against the count and the hash the chain reached. *)
Definition verifyRow (ticket : uuid) (id : TicketIdentity) (st : Z * bytes) (r : ChainRow) : result AlarmReason (Z * bytes) :=
  match rw_Integrity r with
  | None => Err AlarmReasonMissingIntegrityRow
  | Some i =>
      if negb (ig_Version i =? CanonicalVersion) then Err AlarmReasonUnsupportedCanonicalVersion
      else
        let count := add64 st.1 1 in
        if negb (ig_Sequence i =? count) then Err AlarmReasonSequenceGap
        else if negb (bool_decide (ig_PreviousHash i = st.2)) then Err AlarmReasonBrokenChainLink
        else
          let want := HashEntry st.2 (event_canonical ticket id (ig_Sequence i) (rw_ID r) (ev_Type (rw_Event r))
                                        (Normalize (ev_OccurredAt (rw_Event r)))) in
          if negb (bool_decide (want = ig_EntryHash i)) then Err AlarmReasonEntryHashMismatch
          else Ok (count, want)
  end.

Definition orphans (ticket : uuid) (t : TrailDB) : bool :=
  existsb (λ p, bool_decide (ig_Ticket p.2 = ticket) &&
                negb (bool_decide (ev_Ticket <$> td_events t !! p.1 = Some (ig_Ticket p.2)))) (map_to_list (td_integrity t)).

Definition verifyTicketHead (ring : option Keyring) (ticket : uuid) (st : Z * bytes) (h : option HeadRow) : result AlarmReason unit :=
  match h with
  | None => if st.1 =? 0 then Ok tt else Err AlarmReasonMissingHead
  | Some h =>
      if st.1 =? 0 then Err AlarmReasonHeadWithoutEvents
      else if negb (hd_Version h =? CanonicalVersion) then Err AlarmReasonUnsupportedCanonicalVersion
      else if negb (hd_Sequence h =? st.1) || negb (bool_decide (hd_Hash h = st.2)) then Err AlarmReasonHeadMismatch
      else
        match ring with
        | None => Err AlarmReasonMissingKeyring
        | Some k =>
            match VerifyHead k ticket (hd_Sequence h) (hd_KeyID h) (hd_Hash h) (hd_Signature h) with
            | Ok _ => Ok tt
            | Err e => Err (if IsUnknownKeyError e then AlarmReasonUnknownKey else AlarmReasonInvalidHeadSignature)
            end
        end
  end.

Definition verifyTicketChain (ring : option Keyring) (ticket : uuid) (id : TicketIdentity) (t : TrailDB) : result AlarmReason unit :=
  st ← fold_result (verifyRow ticket id) (0, GenesisHash) (ticket_rows ticket t);
  if orphans ticket t then Err AlarmReasonOrphanIntegrityRow
  else verifyTicketHead ring ticket st (td_heads t !! ticket).
End Appending.
