(* ===== verification/Gate.v ===== *)
(** * The gate

    [services/access/internal/store]: the live scan (scan.go, [redeemSingle] of
    postgres.go, [degradedScan] of lifecycle.go), the recording of offline
    admissions and refusals (reconcile.go, [RecordAdmission]), the slot policies
    (policy.go) and the organizer's mode. A transaction holds its ticket's row
    lock from the first statement on and is one atomic step; the policy a scan
    obeys was read before it, and is an argument. What the operation reads from
    its configuration and clocks, and the random ids it draws, is in [Env].
    [ErrDatabase] stands for the constraints of the migrations. *)

From stdpp Require Import pretty.
From S2P Require Import Prelude Tables Sha256 Lifecycle Admission Trail.
#[local] Open Scope Z_scope.

Section State.
Context `{UU : UUID}.
Abbreviation ConflictTable := (gmap PolicyConflict (ConflictStatus * Z)).

(** ** Tables *)

(** A row records a live degraded admission when [qr_AdmittedAt] is set, an
    occurrence learned later otherwise. The free text of the reason is not
    modelled. *)
Record Quarantine := {
  qr_ID : uuid;
  qr_Ticket : uuid;
  qr_Organizer : uuid;
  qr_ReasonCode : option AlarmReason;
  qr_AdmittedAt : option time;
  qr_OccurrenceID : option uuid;
  qr_OccurredAt : option time;
  qr_Type : LifecycleType;
}.

Inductive Mode := ModeNormal | ModeOperatorDeny | ModeOperatorAdmit.

#[export] Instance Mode_eq_dec : EqDecision Mode.
Proof. solve_decision. Defined.

Record ModeRow := { mo_Mode : Mode; mo_SetAt : time; mo_SetBy : string }.

(** The alarms of the three classes, as the outbox owes them. *)
Inductive Alarm :=
| IntegrityAlarm (id org ticket : uuid) (reason : AlarmReason) (disposition : Decision) (mode : Mode) (at_ : time)
| ConflictAlarm (id org ticket occurrence : uuid) (device_at : time) (skewFlagged : bool)
| PolicyAlarm (id conflict org ticket slot : uuid) (c : PolicyConflict) (status : ConflictStatus) (version : Z).

Definition alarm_id (a : Alarm) : uuid :=
  match a with IntegrityAlarm id _ _ _ _ _ _ | ConflictAlarm id _ _ _ _ _ | PolicyAlarm id _ _ _ _ _ _ _ => id end.

Record SlotPolicyRow := { sp_Organizer : uuid; sp_Policy : ReEntryPolicy }.

(** [scanner_local_decisions]; the only decision is [revocation_refused]. *)
Record Refusal := { rf_Ticket : uuid; rf_Organizer : uuid; rf_OccurredAt : time }.

Record GateDB := {
  gd_quarantine : list Quarantine;
  gd_modes : gmap uuid ModeRow;
  gd_outbox : list Alarm;
  gd_conflicts : gmap uuid ConflictTable;
  gd_policies : gmap uuid SlotPolicyRow;
  gd_refusals : gmap uuid Refusal;
}.

(** The receipts of consumed events and requests, and the deliveries. *)
Record RedeliveryRequest := { rq_Order : uuid; rq_Count : Z; rq_RequestedAt : time }.
Record DeliveryAttempt := { da_MessageID : uuid; da_AcceptedAt : option time }.

Record ReceiptDB := {
  rd_consumed : gset uuid;
  rd_batches : gmap (uuid * uuid) (uuid * Z);
  rd_deliveries : gmap uuid DeliveryAttempt;
  rd_requests : gmap (uuid * string) RedeliveryRequest;
  rd_attempts : gmap (uuid * string * uuid) DeliveryAttempt;
}.

Record AccessDB := { ad_trail : TrailDB; ad_gate : GateDB; ad_receipts : ReceiptDB }.

Definition upd_trail (db : AccessDB) (t : TrailDB) : AccessDB := {| ad_trail := t; ad_gate := ad_gate db; ad_receipts := ad_receipts db |}.
Definition upd_gate (db : AccessDB) (g : GateDB) : AccessDB := {| ad_trail := ad_trail db; ad_gate := g; ad_receipts := ad_receipts db |}.
Definition upd_receipts (db : AccessDB) (r : ReceiptDB) : AccessDB := {| ad_trail := ad_trail db; ad_gate := ad_gate db; ad_receipts := r |}.

Definition set_quarantine l (g : GateDB) : GateDB := {| gd_quarantine := l; gd_modes := gd_modes g; gd_outbox := gd_outbox g;
  gd_conflicts := gd_conflicts g; gd_policies := gd_policies g; gd_refusals := gd_refusals g |}.
Definition set_modes m (g : GateDB) : GateDB := {| gd_quarantine := gd_quarantine g; gd_modes := m; gd_outbox := gd_outbox g;
  gd_conflicts := gd_conflicts g; gd_policies := gd_policies g; gd_refusals := gd_refusals g |}.
Definition set_outbox l (g : GateDB) : GateDB := {| gd_quarantine := gd_quarantine g; gd_modes := gd_modes g; gd_outbox := l;
  gd_conflicts := gd_conflicts g; gd_policies := gd_policies g; gd_refusals := gd_refusals g |}.
Definition set_conflicts m (g : GateDB) : GateDB := {| gd_quarantine := gd_quarantine g; gd_modes := gd_modes g; gd_outbox := gd_outbox g;
  gd_conflicts := m; gd_policies := gd_policies g; gd_refusals := gd_refusals g |}.
Definition set_policies m (g : GateDB) : GateDB := {| gd_quarantine := gd_quarantine g; gd_modes := gd_modes g; gd_outbox := gd_outbox g;
  gd_conflicts := gd_conflicts g; gd_policies := m; gd_refusals := gd_refusals g |}.
Definition set_refusals m (g : GateDB) : GateDB := {| gd_quarantine := gd_quarantine g; gd_modes := gd_modes g; gd_outbox := gd_outbox g;
  gd_conflicts := gd_conflicts g; gd_policies := gd_policies g; gd_refusals := m |}.

(** ** Inserts *)

Definition is_set {A} (o : option A) : bool := match o with Some _ => true | None => false end.

(** The foreign key, the primary key, the two partial unique indexes and the
    checks of migrations 0003, 0005 and 0006. *)
Definition quarantine_insertable (q : Quarantine) (db : AccessDB) : bool :=
  is_set (td_tickets (ad_trail db) !! qr_Ticket q) &&
  forallb (λ o, negb (bool_decide (qr_ID o = qr_ID q)) &&
                negb (bool_decide (qr_Ticket o = qr_Ticket q) && is_set (qr_AdmittedAt o) && is_set (qr_AdmittedAt q)) &&
                negb (is_set (qr_OccurrenceID q) && bool_decide (qr_OccurrenceID o = qr_OccurrenceID q)))
    (gd_quarantine (ad_gate db)) &&
  (is_set (qr_AdmittedAt q) || is_set (qr_OccurredAt q)) &&
  match qr_Type q with Redeemed | Entry | Exit => true | _ => false end.

Definition insert_quarantine (q : Quarantine) (db : AccessDB) : result AccessError AccessDB :=
  _ ← ensure (quarantine_insertable q db) ErrDatabase;
  Ok (upd_gate db (set_quarantine (gd_quarantine (ad_gate db) ++ [q]) (ad_gate db))).

Definition insert_alarm (a : Alarm) (db : AccessDB) : result AccessError AccessDB :=
  _ ← ensure (negb (existsb (λ b, bool_decide (alarm_id b = alarm_id a)) (gd_outbox (ad_gate db)))) ErrDatabase;
  Ok (upd_gate db (set_outbox (gd_outbox (ad_gate db) ++ [a]) (ad_gate db))).
End State.

Section Gate.
Context `{UU : UUID} `{US : !UUIDSource} `{ED : Ed25519}.
Abbreviation ConflictTable := (gmap PolicyConflict (ConflictStatus * Z)).

(** ** What an operation reads besides the tables *)

Record Env := {
  en_Signer : option Signer;
  en_Keyring : option Keyring;
  en_FailureThreshold : Z;
  en_Window : Z;
  en_Now : time;
  en_AlarmNow : time;
  en_DBNow : time;
  en_AlarmID : uuid;
  en_QuarantineID : uuid;
}.

Definition p_now (en : Env) : time := Normalize (en_Now en).

(** [policy()]: the configured bounds, or three failures in a minute. *)
Definition degraded_policy (en : Env) : Z * Z :=
  if (en_FailureThreshold en <=? 0) || (en_Window en <=? 0) then (3, 60000000000)
  else (en_FailureThreshold en, en_Window en).

Record RedeemInput := {
  ri_TicketID : uuid;
  ri_Identity : TicketIdentity;
  ri_OccurrenceID : uuid;
  ri_OccurredAt : time;
}.

Record RedeemResult := {
  rr_Accepted : bool;
  rr_Decision : Decision;
  rr_OccurredAt : time;
  rr_Replayed : bool;
}.

Definition verdict (d : Decision) (t : time) : RedeemResult := {| rr_Accepted := false; rr_Decision := d; rr_OccurredAt := t; rr_Replayed := false |}.
Definition admission (d : Decision) (t : time) : RedeemResult := {| rr_Accepted := true; rr_Decision := d; rr_OccurredAt := t; rr_Replayed := false |}.
Definition replay_of (d : Decision) (t : time) : RedeemResult := {| rr_Accepted := true; rr_Decision := d; rr_OccurredAt := t; rr_Replayed := true |}.

Abbreviation outcome := (result AccessError (AccessDB * RedeemResult)).

(** The locked read of the ticket and the check of the credential. *)
Definition lock_ticket (ticket : uuid) (claimed : TicketIdentity) (db : AccessDB) : result AccessError TicketIdentity :=
  match td_tickets (ad_trail db) !! ticket with
  | None => Err ErrTicketCredential
  | Some t => if bool_decide (identity t = claimed) then Ok (identity t) else Err ErrTicketCredential
  end.

Definition ticketRefunded (ticket : uuid) (db : AccessDB) : bool := has_event ticket Refunded (ad_trail db).
Definition ticketExchanged (ticket : uuid) (db : AccessDB) : bool := has_event ticket Exchanged (ad_trail db).
Definition ticketCommerciallyVoid (ticket : uuid) (db : AccessDB) : bool := ticketRefunded ticket db || ticketExchanged ticket db.

Definition admitting (ty : LifecycleType) : bool := match ty with Redeemed | Entry => true | _ => false end.

(** The ticket-level question, over the trail and the quarantine. *)
Definition ticketAdmittedUnion (ticket : uuid) (db : AccessDB) : bool :=
  some_row (λ e, bool_decide (ev_Ticket e = ticket) && admitting (ev_Type e)) (td_events (ad_trail db)) ||
  existsb (λ q, bool_decide (qr_Ticket q = ticket) && (is_set (qr_AdmittedAt q) || admitting (qr_Type q))) (gd_quarantine (ad_gate db)).

(** ** The policy of a slot *)

Definition single_policy : ReEntryPolicy := {| re_Mode := Single; re_MaxEntries := None; re_RequiresExit := false |}.

Definition slotPolicy (slot : uuid) (db : AccessDB) : ReEntryPolicy :=
  match gd_policies (ad_gate db) !! slot with Some r => sp_Policy r | None => single_policy end.

(** ** Occurrences already recorded *)

Definition refusedOccurrence (occ : uuid) (db : AccessDB) : result AccessError unit :=
  refuse_if (is_set (gd_refusals (ad_gate db) !! occ)) ErrOccurrenceCollision.

Definition quarantinedOccurrence (occ : uuid) (db : AccessDB) : option Quarantine :=
  List.find (λ q, bool_decide (qr_OccurrenceID q = Some occ)) (gd_quarantine (ad_gate db)).

(** What the callers share: the trail first, then the quarantine, then the
    scanner's refusals; an occurrence of another ticket, or of a type the
    matcher refuses, is a collision. *)
Definition replay_with (matches : LifecycleType → bool) (ticket occ : uuid) (db : AccessDB) : result AccessError (option RedeemResult) :=
  match td_events (ad_trail db) !! occ with
  | Some e =>
      if negb (bool_decide (ev_Ticket e = ticket)) || negb (matches (ev_Type e)) then Err ErrOccurrenceCollision
      else Ok (Some (replay_of DecisionAccepted (ev_OccurredAt e)))
  | None =>
      match quarantinedOccurrence occ db with
      | Some q =>
          if negb (bool_decide (qr_Ticket q = ticket)) then Err ErrOccurrenceCollision
          else
            match qr_AdmittedAt q with
            | Some at_ => Ok (Some (replay_of DecisionAdmittedDegraded at_))
            | None =>
                if negb (matches (qr_Type q)) then Err ErrOccurrenceCollision
                else Ok (Some (replay_of DecisionAccepted (default zero_time (qr_OccurredAt q))))
            end
      | None => _ ← refusedOccurrence occ db; Ok None
      end
  end.

Definition gate_matches (direction : AdmissionEventType) (stored : LifecycleType) : bool :=
  match direction, stored with
  | AdmissionExit, Exit => true
  | AdmissionExit, _ => false
  | _, (Entry | Redeemed) => true
  | _, _ => false
  end.

Definition pass_matches (direction : AdmissionEventType) (stored : LifecycleType) : bool :=
  match direction, stored with
  | AdmissionExit, Exit => true
  | AdmissionExit, _ => false
  | _, (Entry | Redeemed | DuplicateAdmit) => true
  | _, _ => false
  end.

Definition replayByOccurrence (ticket occ : uuid) (direction : AdmissionEventType) :=
  replay_with (gate_matches direction) ticket occ.

Definition replayAdmissionOccurrence (ticket occ : uuid) (direction : AdmissionEventType) :=
  replay_with (pass_matches direction) ticket occ.

Definition reconcileReplay (ticket occ : uuid) (direction : AdmissionEventType) (db : AccessDB) : result AccessError (option time) :=
  found ← replay_with (pass_matches direction) ticket occ db; Ok (option_map rr_OccurredAt found).

(** ** Alarms and modes *)

Definition organizerMode (org : uuid) (db : AccessDB) : Mode :=
  match gd_modes (ad_gate db) !! org with Some r => mo_Mode r | None => ModeNormal end.

Definition oweAlarm (en : Env) (org ticket : uuid) (reason : AlarmReason) (disposition : Decision) (mode : Mode) (db : AccessDB)
    : result AccessError AccessDB :=
  insert_alarm (IntegrityAlarm (en_AlarmID en) org ticket reason disposition mode (Normalize (en_AlarmNow en))) db.

Definition oweConflictAlarm (en : Env) (org ticket occ : uuid) (device_at : time) (skewFlagged : bool) (db : AccessDB)
    : result AccessError AccessDB :=
  insert_alarm (ConflictAlarm (en_AlarmID en) org ticket occ device_at skewFlagged) db.

Definition SetMode (now : time) (org : uuid) (mode : Mode) (by_ : string) (db : AccessDB) : result AccessError AccessDB :=
  _ ← refuse_if (bool_decide (by_ = ""%string)) (ErrInvalid "operator");
  Ok (upd_gate db (set_modes (<[org := {| mo_Mode := mode; mo_SetAt := Normalize now; mo_SetBy := by_ |}]> (gd_modes (ad_gate db))) (ad_gate db))).

(** The row of the one degraded admission a ticket took. *)
Definition degraded_row (ticket : uuid) (db : AccessDB) : option Quarantine :=
  List.find (λ q, bool_decide (qr_Ticket q = ticket) && is_set (qr_AdmittedAt q)) (gd_quarantine (ad_gate db)).

(** The deny-and-escalate answer both scan paths give to a ticket that took it. *)
Definition deny_quarantined (en : Env) (ticket : uuid) (id : TicketIdentity) (q : Quarantine) (reason : AlarmReason) (db : AccessDB) : outcome :=
  db ← oweAlarm en (ti_OrganizerID id) ticket reason DecisionIntegrityQuarantined (organizerMode (ti_OrganizerID id) db) db;
  Ok (db, verdict DecisionIntegrityQuarantined (default zero_time (qr_AdmittedAt q))).

Definition reason_of (q : Quarantine) : AlarmReason := default AlarmReasonLegacyQuarantine (qr_ReasonCode q).

(** ** The degraded posture *)

Definition recent_failures (org : uuid) (since : time) (db : AccessDB) : Z :=
  Z.of_nat (length (List.filter (λ q, bool_decide (qr_Organizer q = org) &&
    match qr_AdmittedAt q with Some at_ => since <? at_ | None => false end) (gd_quarantine (ad_gate db)))).

(** The flip out of normal, which leaves a mode a human set alone. *)
Definition flip_mode (org : uuid) (now : time) (db : AccessDB) : AccessDB :=
  if bool_decide (organizerMode org db = ModeNormal) then
    upd_gate db (set_modes (<[org := {| mo_Mode := ModeOperatorDeny; mo_SetAt := now; mo_SetBy := "system" |}]> (gd_modes (ad_gate db))) (ad_gate db))
  else db.

(** What follows the replay and the quarantine checks: admit once and record it. *)
Definition degraded_admission (en : Env) (ticket : uuid) (id : TicketIdentity) (occ : uuid) (cause : AlarmReason) (db : AccessDB) : outcome :=
  let now := p_now en in
  let org := ti_OrganizerID id in
  let (threshold, window) := degraded_policy en in
  db ← insert_quarantine {| qr_ID := en_QuarantineID en; qr_Ticket := ticket; qr_Organizer := org; qr_ReasonCode := Some cause;
         qr_AdmittedAt := Some now; qr_OccurrenceID := if bool_decide (occ = uuid_Nil) then None else Some occ;
         qr_OccurredAt := None; qr_Type := Redeemed |} db;
  let db := if recent_failures org (now - window) db >=? threshold then flip_mode org now db else db in
  db ← oweAlarm en org ticket cause DecisionAdmittedDegraded (organizerMode org db) db;
  Ok (db, admission DecisionAdmittedDegraded now).

Definition degradedScan (en : Env) (ticket : uuid) (id : TicketIdentity) (occ : uuid) (direction : AdmissionEventType)
    (cause : AlarmReason) (db : AccessDB) : outcome :=
  replayed ← (if bool_decide (occ = uuid_Nil) then Ok None else replayByOccurrence ticket occ direction db);
  match replayed with
  | Some r => Ok (db, r)
  | None =>
      let mode := organizerMode (ti_OrganizerID id) db in
      match degraded_row ticket db with
      | Some q => deny_quarantined en ticket id q cause db
      | None =>
          if bool_decide (mode = ModeOperatorDeny) then
            db ← oweAlarm en (ti_OrganizerID id) ticket cause DecisionIntegrityOperatorControlled mode db;
            Ok (db, verdict DecisionIntegrityOperatorControlled (p_now en))
          else degraded_admission en ticket id occ cause db
      end
  end.

(** The occurrence checks that open every path that takes one. *)
Definition check_occurrence (occ : uuid) (at_ : time) : result AccessError unit :=
  _ ← ensure (is_v4 occ) (ErrInvalid "occurrence id");
  refuse_if (is_zero_time at_) (ErrInvalid "occurred at").

Definition collision_of (e : AccessError) : AccessError := match e with errEventIDTaken => ErrOccurrenceCollision | _ => e end.

(** An append on the ticket of the transaction. *)
Definition append_on (en : Env) (ticket : uuid) (id : TicketIdentity) (event : uuid) (ty : LifecycleType) (at_ : time) (db : AccessDB)
    : result AccessError (AccessDB * time) :=
  x ← appendLifecycle (en_Signer en) (en_DBNow en)
        {| ai_TicketID := ticket; ai_Identity := id; ai_EventID := event; ai_Type := ty; ai_OccurredAt := at_ |} (ad_trail db);
  Ok (upd_trail db x.1, x.2).

(** Of an occurrence: an event id already taken is a collision. *)
Definition append_occurrence (en : Env) (ticket : uuid) (id : TicketIdentity) (occ : uuid) (ty : LifecycleType) (at_ : time) (db : AccessDB)
    : result AccessError (AccessDB * time) :=
  match append_on en ticket id occ ty at_ db with Err e => Err (collision_of e) | ok => ok end.

(** ** The single-entry scan *)

Definition redeemed_at (ticket : uuid) (db : AccessDB) : option time :=
  ev_OccurredAt <$> head (rows_where (λ e, bool_decide (ev_Ticket e = ticket) && bool_decide (ev_Type e = Redeemed)) (td_events (ad_trail db))).

(** The deterministic id of an old scanner's redemption. *)
Definition redeemed_id (ticket : uuid) : uuid := NewSHA1 (uuid_String ticket +:+ ":redeemed").

Definition redeem_verified (en : Env) (inp : RedeemInput) (id : TicketIdentity) (db : AccessDB) : outcome :=
  let ticket := ri_TicketID inp in
  let occ := ri_OccurrenceID inp in
  let old := bool_decide (occ = uuid_Nil) in
  replayed ← (if old then Ok None else replayByOccurrence ticket occ AdmissionEntry db);
  match replayed with
  | Some r => Ok (db, r)
  | None =>
      match degraded_row ticket db with
      | Some q => deny_quarantined en ticket id q (reason_of q) db
      | None =>
          match redeemed_at ticket db with
          | Some at_ => Ok (db, verdict DecisionAlreadyRedeemed at_)
          | None =>
              x ← (if old then append_on en ticket id (redeemed_id ticket) Redeemed zero_time db
                   else append_occurrence en ticket id occ Redeemed (ri_OccurredAt inp) db);
              Ok (x.1, admission DecisionAccepted x.2)
          end
      end
  end.

Definition redeemSingle (en : Env) (inp : RedeemInput) (db : AccessDB) : outcome :=
  let ticket := ri_TicketID inp in
  _ ← (if bool_decide (ri_OccurrenceID inp = uuid_Nil) then Ok tt else check_occurrence (ri_OccurrenceID inp) (ri_OccurredAt inp));
  id ← lock_ticket ticket (ri_Identity inp) db;
  if ticketRefunded ticket db then Ok (db, verdict DecisionRefunded (p_now en))
  else if ticketExchanged ticket db then Ok (db, verdict DecisionExchanged (p_now en))
  else
    match verifyTicketChain (en_Keyring en) ticket id (ad_trail db) with
    | Err cause => degradedScan en ticket id (ri_OccurrenceID inp) AdmissionEntry cause db
    | Ok _ => redeem_verified en inp id db
    end.

(** ** The pass scan *)

(** The facts the policy is evaluated over: the trail and the quarantine. *)
Definition fact_type (ty : LifecycleType) : AdmissionEventType := match ty with Exit => AdmissionExit | _ => AdmissionEntry end.
Definition undirected_type (ty : LifecycleType) : bool := match ty with Redeemed | DuplicateAdmit => true | _ => false end.

Definition trail_facts (ticket : uuid) (t : TrailDB) : list AdmissionFact :=
  map (λ p : uuid * EventRow, {|
    fa_OccurrenceID := p.1; fa_Type := fact_type (ev_Type p.2); fa_OccurredAt := ev_OccurredAt p.2;
    fa_Sequence := default 0 (ig_Sequence <$> rw_Integrity (join_integrity t p.1 p.2));
    fa_Undirected := undirected_type (ev_Type p.2) |})
    (List.filter (λ p, bool_decide (ev_Ticket p.2 = ticket) &&
       match ev_Type p.2 with Entry | Exit | Redeemed | DuplicateAdmit => true | _ => false end) (map_to_list (td_events t))).

Definition quarantine_facts (ticket : uuid) (db : AccessDB) : list AdmissionFact :=
  map (λ q, {|
    fa_OccurrenceID := default (qr_ID q) (qr_OccurrenceID q); fa_Type := fact_type (qr_Type q);
    fa_OccurredAt := default (default zero_time (qr_OccurredAt q)) (qr_AdmittedAt q); fa_Sequence := 0;
    fa_Undirected := is_set (qr_AdmittedAt q) || undirected_type (qr_Type q) |})
    (List.filter (λ q, bool_decide (qr_Ticket q = ticket) &&
       (is_set (qr_AdmittedAt q) || match qr_Type q with Entry | Exit | Redeemed => true | _ => false end)) (gd_quarantine (ad_gate db))).

Definition admissionFacts (ticket : uuid) (db : AccessDB) : list AdmissionFact := trail_facts ticket (ad_trail db) ++ quarantine_facts ticket db.

Definition rule_text (r : PolicyConflictRule) : string :=
  match r with ConflictEntryLimitReached => "entry_limit_reached" | ConflictExitRequired => "exit_required" end.

Definition SubjectAdmissionPolicyConflictAlarm : string := "platform.access.admission-policy-conflict.alarm".

Definition policyConflictID (ticket : uuid) (c : PolicyConflict) : uuid :=
  NewSHA1 (SubjectAdmissionPolicyConflictAlarm +:+ ":" +:+ uuid_String ticket +:+ ":" +:+ rule_text (cf_Rule c) +:+ ":" +:+ uuid_String (cf_OccurrenceID c)).

Definition policy_alarm (ticket : uuid) (id : TicketIdentity) (x : PolicyConflict * ConflictStatus * Z) : Alarm :=
  let conflict := policyConflictID ticket x.1.1 in
  PolicyAlarm (NewSHA1 (uuid_String conflict +:+ ":" +:+ pretty x.2)) conflict (ti_OrganizerID id) ticket (ti_SlotID id) x.1.1 x.1.2 x.2.

(** [evaluatePolicyAlarms] over the tables: the ticket's rows rewritten and one
    alarm owed per transition. *)
Definition evaluateAlarms (ticket : uuid) (id : TicketIdentity) (policy : ReEntryPolicy) (db : AccessDB) : result AccessError AccessDB :=
  let stored := default ∅ (gd_conflicts (ad_gate db) !! ticket) in
  let (rows, owed) := evaluatePolicyAlarms policy (admissionFacts ticket db) stored in
  let db := upd_gate db (set_conflicts (<[ticket := rows]> (gd_conflicts (ad_gate db))) (ad_gate db)) in
  fold_result (λ db x, insert_alarm (policy_alarm ticket id x) db) db owed.

Definition direction_type (direction : AdmissionEventType) : LifecycleType :=
  match direction with AdmissionEntry => Entry | AdmissionExit => Exit | AdmissionDuplicateAdmit => DuplicateAdmit end.

Definition pass_verified (en : Env) (inp : RedeemInput) (direction : AdmissionEventType) (policy : ReEntryPolicy) (id : TicketIdentity)
    (db : AccessDB) : outcome :=
  let ticket := ri_TicketID inp in
  replayed ← replayAdmissionOccurrence ticket (ri_OccurrenceID inp) direction db;
  match replayed with
  | Some r => Ok (db, r)
  | None =>
      match degraded_row ticket db with
      | Some q => deny_quarantined en ticket id q (reason_of q) db
      | None =>
          let v := EvaluateLiveAdmission policy (admissionFacts ticket db) direction in
          if negb (bool_decide (v = DecisionAccepted)) then Ok (db, verdict v (p_now en))
          else
            x ← append_occurrence en ticket id (ri_OccurrenceID inp) (direction_type direction) (ri_OccurredAt inp) db;
            db ← evaluateAlarms ticket id policy x.1;
            Ok (db, admission DecisionAccepted x.2)
      end
  end.

(** An exit whose chain does not verify consumes no degraded admission. *)
Definition exit_unverified (en : Env) (inp : RedeemInput) (id : TicketIdentity) (cause : AlarmReason) (db : AccessDB) : outcome :=
  replayed ← replayAdmissionOccurrence (ri_TicketID inp) (ri_OccurrenceID inp) AdmissionExit db;
  match replayed with
  | Some r => Ok (db, r)
  | None =>
      db ← oweAlarm en (ti_OrganizerID id) (ri_TicketID inp) cause DecisionExitUnverified (organizerMode (ti_OrganizerID id) db) db;
      Ok (db, verdict DecisionExitUnverified (p_now en))
  end.

Definition admitPass (en : Env) (inp : RedeemInput) (direction : AdmissionEventType) (policy : ReEntryPolicy) (db : AccessDB) : outcome :=
  let ticket := ri_TicketID inp in
  if bool_decide (ri_OccurrenceID inp = uuid_Nil) then Ok (db, verdict DecisionOccurrenceRequired (p_now en))
  else
    _ ← check_occurrence (ri_OccurrenceID inp) (ri_OccurredAt inp);
    id ← lock_ticket ticket (ri_Identity inp) db;
    if ticketRefunded ticket db then Ok (db, verdict DecisionRefunded (p_now en))
    else if ticketExchanged ticket db then Ok (db, verdict DecisionExchanged (p_now en))
    else
      match verifyTicketChain (en_Keyring en) ticket id (ad_trail db) with
      | Err cause =>
          if bool_decide (direction = AdmissionExit) then exit_unverified en inp id cause db
          else degradedScan en ticket id (ri_OccurrenceID inp) direction cause db
      | Ok _ => pass_verified en inp direction policy id db
      end.

(** ** The scan *)

(** [policy] is what [livePolicy] read before the transaction. An empty direction
    is an entry. *)
Definition Scan (en : Env) (policy : ReEntryPolicy) (inp : RedeemInput) (direction : option AdmissionEventType) (db : AccessDB) : outcome :=
  let direction := default AdmissionEntry direction in
  if bool_decide (direction = AdmissionDuplicateAdmit) then Err (ErrInvalid "direction")
  else if negb (IsPass policy) then
    if bool_decide (direction = AdmissionExit) then Ok (db, verdict DecisionExitNotApplicable (p_now en))
    else redeemSingle en inp db
  else admitPass en inp direction policy db.

Definition Redeem (en : Env) (policy : ReEntryPolicy) (inp : RedeemInput) (db : AccessDB) : outcome :=
  Scan en policy inp (Some AdmissionEntry) db.
End Gate.
