(* ===== verification/Reconcile.v ===== *)
(** * Recording what scanners did offline

    [services/access/internal/store]: reconcile.go, [RecordAdmission] of
    postgres.go and the slot policies of policy.go, over the tables of [Gate]. *)

From S2P Require Import Prelude Tables Sha256 Lifecycle Admission Trail Gate.
#[local] Open Scope Z_scope.

Section Reconcile.
Context `{UU : UUID} `{US : !UUIDSource} `{ED : Ed25519}.

(** ** Admissions *)

Record LifecycleEvent := { lv_ID : uuid; lv_Type : LifecycleType; lv_Sequence : option Z; lv_OccurredAt : time }.

Definition event_of (t : TrailDB) (id : uuid) (e : EventRow) : LifecycleEvent := {|
  lv_ID := id; lv_Type := ev_Type e; lv_Sequence := row_seq (join_integrity t id e); lv_OccurredAt := ev_OccurredAt e |}.

Record RecordAdmissionInput := {
  ra_TicketID : uuid;
  ra_Identity : TicketIdentity;
  ra_OccurrenceID : uuid;
  ra_Type : AdmissionEventType;
  ra_OccurredAt : time;
}.

Definition RecordAdmission (en : Env) (inp : RecordAdmissionInput) (db : AccessDB)
    : result AccessError (AccessDB * LifecycleEvent * bool) :=
  let ticket := ra_TicketID inp in
  let occ := ra_OccurrenceID inp in
  let ty := direction_type (ra_Type inp) in
  _ ← check_occurrence occ (ra_OccurredAt inp);
  id ← lock_ticket ticket (ra_Identity inp) db;
  match td_events (ad_trail db) !! occ with
  | Some e =>
      if negb (bool_decide (ev_Ticket e = ticket)) || negb (bool_decide (ev_Type e = ty)) then Err ErrOccurrenceCollision
      else Ok (db, event_of (ad_trail db) occ e, true)
  | None =>
      _ ← refusedOccurrence occ db;
      x ← append_occurrence en ticket id occ ty (ra_OccurredAt inp) db;
      match td_integrity (ad_trail x.1) !! occ with
      | None => Err ErrDatabase
      | Some i => Ok (x.1, {| lv_ID := occ; lv_Type := ty; lv_Sequence := Some (ig_Sequence i); lv_OccurredAt := x.2 |}, false)
      end
  end.

(** ** Refusals *)

Inductive ReconcileOutcome := ReconcileRecorded | ReconcileConflict | ReconcileSynced.

#[export] Instance ReconcileOutcome_eq_dec : EqDecision ReconcileOutcome.
Proof. solve_decision. Defined.

Record ReconcileResult := { rc_Outcome : ReconcileOutcome; rc_OccurredAt : time; rc_SkewFlagged : bool }.

Definition RecordRevocationRefusal (ticket : uuid) (claimed : TicketIdentity) (occ : uuid) (at_ : time) (decision : string)
    (db : AccessDB) : result AccessError (AccessDB * ReconcileResult) :=
  _ ← ensure (bool_decide (decision = "revocation_refused"%string) && is_v4 occ && negb (is_zero_time at_)) ErrOccurrenceCollision;
  id ← lock_ticket ticket claimed db;
  match gd_refusals (ad_gate db) !! occ with
  | Some r =>
      if bool_decide (rf_Ticket r = ticket) && bool_decide (rf_Organizer r = ti_OrganizerID id) && (rf_OccurredAt r =? at_)
      then Ok (db, {| rc_Outcome := ReconcileSynced; rc_OccurredAt := rf_OccurredAt r; rc_SkewFlagged := false |})
      else Err ErrOccurrenceCollision
  | None =>
      _ ← refuse_if (is_set (td_events (ad_trail db) !! occ) || is_set (quarantinedOccurrence occ db)) ErrOccurrenceCollision;
      let r := {| rf_Ticket := ticket; rf_Organizer := ti_OrganizerID id; rf_OccurredAt := timestamptz at_ |} in
      Ok (upd_gate db (set_refusals (<[occ := r]> (gd_refusals (ad_gate db))) (ad_gate db)),
          {| rc_Outcome := ReconcileRecorded; rc_OccurredAt := at_; rc_SkewFlagged := false |})
  end.

(** ** Reconciliation *)

Record ReconcileOccurrence := {
  ro_TicketID : uuid;
  ro_Identity : TicketIdentity;
  ro_OccurrenceID : uuid;
  ro_OccurredAt : time;
  ro_Type : option AdmissionEventType;
}.

(** Twenty-four hours. *)
Definition AdmissionSkewBound : Z := 86400000000000.

Definition quarantineEventType (policy : ReEntryPolicy) (direction : AdmissionEventType) : LifecycleType :=
  if IsPass policy then direction_type direction else Redeemed.

(** The chain does not verify: a quarantine-side record, and the projection. *)
Definition reconcile_quarantined (en : Env) (inp : ReconcileOccurrence) (id : TicketIdentity) (policy : ReEntryPolicy)
    (direction : AdmissionEventType) (cause : AlarmReason) (skewFlagged : bool) (db : AccessDB)
    : result AccessError (AccessDB * ReconcileResult) :=
  let ticket := ro_TicketID inp in
  db ← insert_quarantine {| qr_ID := en_QuarantineID en; qr_Ticket := ticket; qr_Organizer := ti_OrganizerID id;
         qr_ReasonCode := Some cause; qr_AdmittedAt := None; qr_OccurrenceID := Some (ro_OccurrenceID inp);
         qr_OccurredAt := Some (timestamptz (ro_OccurredAt inp)); qr_Type := quarantineEventType policy direction |} db;
  db ← (if IsPass policy then evaluateAlarms ticket id policy db else Ok db);
  Ok (db, {| rc_Outcome := ReconcileRecorded; rc_OccurredAt := ro_OccurredAt inp; rc_SkewFlagged := skewFlagged |}).

(** A pass records the factual entry or exit. *)
Definition reconcile_pass (en : Env) (inp : ReconcileOccurrence) (id : TicketIdentity) (policy : ReEntryPolicy)
    (direction : AdmissionEventType) (skewFlagged : bool) (db : AccessDB) : result AccessError (AccessDB * ReconcileResult) :=
  x ← append_occurrence en (ro_TicketID inp) id (ro_OccurrenceID inp) (direction_type direction) (ro_OccurredAt inp) db;
  db ← evaluateAlarms (ro_TicketID inp) id policy x.1;
  Ok (db, {| rc_Outcome := ReconcileRecorded; rc_OccurredAt := x.2; rc_SkewFlagged := skewFlagged |}).

(** A single-entry ticket: its redemption, alarmed when it was voided, or a
    duplicate admission, always alarmed. *)
Definition reconcile_single (en : Env) (inp : ReconcileOccurrence) (id : TicketIdentity) (skewFlagged : bool) (db : AccessDB)
    : result AccessError (AccessDB * ReconcileResult) :=
  let ticket := ro_TicketID inp in
  let occ := ro_OccurrenceID inp in
  if ticketAdmittedUnion ticket db then
    x ← append_occurrence en ticket id occ DuplicateAdmit (ro_OccurredAt inp) db;
    db ← oweConflictAlarm en (ti_OrganizerID id) ticket occ (ro_OccurredAt inp) skewFlagged x.1;
    Ok (db, {| rc_Outcome := ReconcileConflict; rc_OccurredAt := x.2; rc_SkewFlagged := skewFlagged |})
  else
    x ← append_occurrence en ticket id occ Redeemed (ro_OccurredAt inp) db;
    db ← (if ticketRefunded ticket x.1 || ticketExchanged ticket x.1
          then oweConflictAlarm en (ti_OrganizerID id) ticket occ (ro_OccurredAt inp) skewFlagged x.1 else Ok x.1);
    Ok (db, {| rc_Outcome := ReconcileRecorded; rc_OccurredAt := x.2; rc_SkewFlagged := skewFlagged |}).

Definition ReconcileAdmission (en : Env) (inp : ReconcileOccurrence) (db : AccessDB) : result AccessError (AccessDB * ReconcileResult) :=
  let ticket := ro_TicketID inp in
  let direction := default AdmissionEntry (ro_Type inp) in
  _ ← check_occurrence (ro_OccurrenceID inp) (ro_OccurredAt inp);
  _ ← refuse_if (bool_decide (direction = AdmissionDuplicateAdmit)) (ErrInvalid "direction");
  let skewFlagged := Z.abs (ro_OccurredAt inp - p_now en) >? AdmissionSkewBound in
  id ← lock_ticket ticket (ro_Identity inp) db;
  let policy := slotPolicy (ti_SlotID id) db in
  _ ← refuse_if (negb (IsPass policy) && bool_decide (direction = AdmissionExit)) ErrExitNotApplicable;
  synced ← reconcileReplay ticket (ro_OccurrenceID inp) direction db;
  match synced with
  | Some at_ => Ok (db, {| rc_Outcome := ReconcileSynced; rc_OccurredAt := at_; rc_SkewFlagged := skewFlagged |})
  | None =>
      match verifyTicketChain (en_Keyring en) ticket id (ad_trail db) with
      | Err cause => reconcile_quarantined en inp id policy direction cause skewFlagged db
      | Ok _ =>
          if IsPass policy then reconcile_pass en inp id policy direction skewFlagged db
          else reconcile_single en inp id skewFlagged db
      end
  end.

(** ** Slot policies *)

(** The [ON CONFLICT DO NOTHING] insert of a receipt: whether it is new. *)
Definition consume (event : uuid) (db : AccessDB) : option AccessDB :=
  if bool_decide (event ∈ rd_consumed (ad_receipts db)) then None
  else Some (upd_receipts db {|
    rd_consumed := {[event]} ∪ rd_consumed (ad_receipts db); rd_batches := rd_batches (ad_receipts db);
    rd_deliveries := rd_deliveries (ad_receipts db); rd_requests := rd_requests (ad_receipts db);
    rd_attempts := rd_attempts (ad_receipts db) |}).

Definition policy_valid (p : ReEntryPolicy) : bool :=
  match re_Mode p, re_MaxEntries p with
  | CountLimited, Some m => 0 <? m
  | CountLimited, None => false
  | _, m => negb (is_set m)
  end.

Definition UpsertSlotPolicy (event slot org : uuid) (p : ReEntryPolicy) (db : AccessDB) : result AccessError AccessDB :=
  _ ← ensure (policy_valid p) (ErrInvalid "re_entry policy");
  _ ← refuse_if (bool_decide (slot = uuid_Nil) || bool_decide (org = uuid_Nil) || bool_decide (event = uuid_Nil)) (ErrInvalid "ids");
  match consume event db with
  | None => Ok db
  | Some db => Ok (upd_gate db (set_policies (<[slot := {| sp_Organizer := org; sp_Policy := p |}]> (gd_policies (ad_gate db))) (ad_gate db)))
  end.
End Reconcile.
