(* ===== verification/TicketOps.v ===== *)
(** * What happens to tickets away from the gate

    [services/access/internal/store]: issuance, delivery and the reads of
    postgres.go, refunds.go, exchanges.go, redeliveries.go and voided_feed.go, over
    the tables of [Gate]. Every transaction that decides over an order's tickets
    locks them all in id order first. *)

From stdpp Require Import pretty.
From S2P Require Import Prelude Tables Sha256 Lifecycle Admission Trail Gate Reconcile.
#[local] Open Scope Z_scope.

Section TicketOps.
Context `{UU : UUID} `{US : !UUIDSource} `{ED : Ed25519}.

(** ** Issuance *)

(** [char_length] counts runes, the bytes that do not continue one. *)
Definition char_length (s : string) : Z :=
  Z.of_nat (length (List.filter (λ c, let n := Z_of_byte c in (n <? 128) || (192 <=? n)) (list_ascii_of_string s))).

Definition all_spaces (s : string) : bool := forallb (λ c, Z_of_byte c =? 32) (list_ascii_of_string s).

(** The check of migration 0013. *)
Definition seat_identity_ok (s : option string) : bool :=
  match s with Some s => (1 <=? char_length s) && (char_length s <=? 200) && negb (all_spaces s) | None => true end.

Definition set_tickets m (t : TrailDB) : TrailDB := {|
  td_tickets := m; td_events := td_events t; td_integrity := td_integrity t; td_heads := td_heads t;
  td_changes := td_changes t; td_checkpoints := td_checkpoints t; td_epochs := td_epochs t |}.

(** The row as the [timestamptz] column keeps it. *)
Definition stored_ticket (k : Ticket) : Ticket := {|
  tk_ID := tk_ID k; tk_OrderID := tk_OrderID k; tk_GuestOrderRef := tk_GuestOrderRef k; tk_OrganizerID := tk_OrganizerID k;
  tk_BuyerID := tk_BuyerID k; tk_SlotID := tk_SlotID k; tk_TicketTypeID := tk_TicketTypeID k; tk_SeatIdentity := tk_SeatIdentity k;
  tk_Payload := tk_Payload k; tk_IssuedAt := timestamptz (tk_IssuedAt k) |}.

Definition insert_ticket (k : Ticket) (db : AccessDB) : result AccessError AccessDB :=
  _ ← ensure (bool_decide (td_tickets (ad_trail db) !! tk_ID k = None) && seat_identity_ok (tk_SeatIdentity k)) ErrDatabase;
  Ok (upd_trail db (set_tickets (<[tk_ID k := stored_ticket k]> (td_tickets (ad_trail db))) (ad_trail db))).

(** The ticket row and its first event. *)
Definition insertIssuedTicket (en : Env) (k : Ticket) (db : AccessDB) : result AccessError AccessDB :=
  db ← insert_ticket k db;
  x ← append_on en (tk_ID k) (identity k) (NewSHA1 (uuid_String (tk_ID k) +:+ ":issued")) Issued (tk_IssuedAt k) db;
  Ok x.1.

Definition insertIssuedTickets (en : Env) (ks : list Ticket) (db : AccessDB) : result AccessError AccessDB :=
  fold_result (λ db k, insertIssuedTicket en k db) db ks.

Definition Issue (en : Env) (event : uuid) (ks : list Ticket) (db : AccessDB) : result AccessError AccessDB :=
  match consume event db with
  | None => Ok db
  | Some db => insertIssuedTickets en ks db
  end.

Definition Consumed (event : uuid) (db : AccessDB) : bool := bool_decide (event ∈ rd_consumed (ad_receipts db)).

(** ** Delivery *)

Definition ticket_before (a b : Ticket) : bool := lex (on_key tk_IssuedAt Z.ltb) (on_key tk_ID uuid_ltb) a b.

Definition tickets_where (f : Ticket → bool) (db : AccessDB) : list Ticket := rows_where f (td_tickets (ad_trail db)).

Definition Tickets (ref : uuid) (db : AccessDB) : list Ticket :=
  isort ticket_before (tickets_where (λ k, bool_decide (tk_GuestOrderRef k = ref)) db).

Definition PendingDeliveries (order : uuid) (db : AccessDB) : list Ticket :=
  isort (on_key tk_IssuedAt Z.ltb)
    (tickets_where (λ k, bool_decide (tk_OrderID k = order) && negb (has_event (tk_ID k) Delivered (ad_trail db))) db).

Definition TicketForQR (ref ticket : uuid) (db : AccessDB) : option string :=
  k ← td_tickets (ad_trail db) !! ticket; if bool_decide (tk_GuestOrderRef k = ref) then Some (tk_Payload k) else None.

(** A ticket's history: the chain's order, then time and id for rows of old. *)
Definition history_less : ChainRow → ChainRow → bool :=
  lex (on_key row_seq seq_less) (lex (on_key (λ r, ev_OccurredAt (rw_Event r)) Z.ltb) (on_key rw_ID uuid_ltb)).

Definition History (ticket : uuid) (db : AccessDB) : list LifecycleEvent :=
  map (λ r, event_of (ad_trail db) (rw_ID r) (rw_Event r)) (isort history_less (ticket_events ticket (ad_trail db))).

Definition set_deliveries m (db : AccessDB) : AccessDB := upd_receipts db {|
  rd_consumed := rd_consumed (ad_receipts db); rd_batches := rd_batches (ad_receipts db); rd_deliveries := m;
  rd_requests := rd_requests (ad_receipts db); rd_attempts := rd_attempts (ad_receipts db) |}.

(** The foreign key and the unique message id. *)
Definition DeliveryID (ticket : uuid) (db : AccessDB) : result AccessError (AccessDB * uuid) :=
  let id := NewSHA1 (uuid_String ticket +:+ ":delivery") in
  match rd_deliveries (ad_receipts db) !! ticket with
  | Some _ => Ok (db, id)
  | None =>
      _ ← ensure (is_set (td_tickets (ad_trail db) !! ticket) &&
                  negb (some_row (λ d, bool_decide (da_MessageID d = id)) (rd_deliveries (ad_receipts db)))) ErrDatabase;
      Ok (set_deliveries (<[ticket := {| da_MessageID := id; da_AcceptedAt := None |}]> (rd_deliveries (ad_receipts db))) db, id)
  end.

Definition accept_delivery (now : time) (ticket message : uuid) (db : AccessDB) : AccessDB :=
  match rd_deliveries (ad_receipts db) !! ticket with
  | Some d =>
      if bool_decide (da_MessageID d = message)
      then set_deliveries (<[ticket := {| da_MessageID := message; da_AcceptedAt := Some now |}]> (rd_deliveries (ad_receipts db))) db
      else db
  | None => db
  end.

Definition MarkDelivered (en : Env) (ticket message : uuid) (db : AccessDB) : result AccessError AccessDB :=
  match td_tickets (ad_trail db) !! ticket with
  | None => Err ErrTicketCredential
  | Some k =>
      let db := accept_delivery (timestamptz (en_DBNow en)) ticket message db in
      if has_event ticket Delivered (ad_trail db) then Ok db
      else
        x ← append_on en ticket (identity k) (NewSHA1 (uuid_String ticket +:+ ":delivered")) Delivered zero_time db;
        Ok x.1
  end.

(** ** Refunds *)

(** An order's tickets of an organizer, in id order. *)
Definition order_tickets (org order : uuid) (db : AccessDB) : list uuid :=
  isort uuid_ltb (map tk_ID (tickets_where (λ k, bool_decide (tk_OrderID k = order) && bool_decide (tk_OrganizerID k = org)) db)).

Definition refundEventID (refund ticket : uuid) : uuid :=
  NewSHA1 ("refunded:" +:+ uuid_String refund +:+ ":" +:+ uuid_String ticket).

(** The id of the event that voided a ticket; nil when none did. *)
Definition refundThatVoided (ticket : uuid) (db : AccessDB) : uuid :=
  default uuid_Nil (head (map fst (List.filter
    (λ p, bool_decide (ev_Ticket p.2 = ticket) && bool_decide (ev_Type p.2 = Refunded)) (map_to_list (td_events (ad_trail db)))))).

Record TicketRefundBatch := { tb_TicketIDs : list uuid; tb_Replay : bool }.

Definition refund_free (db : AccessDB) (all : list uuid) : list uuid :=
  List.filter (λ k, bool_decide (refundThatVoided k db = uuid_Nil)) all.

Definition refund_mine (refund : uuid) (db : AccessDB) (all : list uuid) : list uuid :=
  List.filter (λ k, negb (bool_decide (refundThatVoided k db = uuid_Nil)) &&
                    bool_decide (refundThatVoided k db = refundEventID refund k)) all.

Definition set_batches m (db : AccessDB) : AccessDB := upd_receipts db {|
  rd_consumed := rd_consumed (ad_receipts db); rd_batches := m; rd_deliveries := rd_deliveries (ad_receipts db);
  rd_requests := rd_requests (ad_receipts db); rd_attempts := rd_attempts (ad_receipts db) |}.

(** A unique violation of the binding is the conflict, a check is the database's. *)
Definition bind_batch (org refund order : uuid) (q : Z) (db : AccessDB) : result AccessError AccessDB :=
  _ ← ensure ((1 <=? q) && (q <=? 50)) ErrDatabase;
  _ ← refuse_if (is_set (rd_batches (ad_receipts db) !! (org, refund))) ErrRefundBatchConflict;
  Ok (set_batches (<[(org, refund) := (order, q)]> (rd_batches (ad_receipts db))) db).

(** The identity both batch operations read of their first ticket. *)
Definition first_identity (selected : list uuid) (db : AccessDB) : result AccessError TicketIdentity :=
  match head selected ≫= λ k, td_tickets (ad_trail db) !! k with
  | Some k => Ok (identity k)
  | None => Err ErrDatabase
  end.

(** One event of a type on each ticket, under the ids [event_id] derives. *)
Definition append_all (en : Env) (id : TicketIdentity) (event_id : uuid → uuid) (ty : LifecycleType) (tickets : list uuid) (db : AccessDB)
    : result AccessError AccessDB :=
  fold_result (λ db k, x ← append_on en k id (event_id k) ty zero_time db; Ok x.1) db tickets.

Definition RefundOrderTickets (en : Env) (org order refund : uuid) (quantity : Z) (db : AccessDB)
    : result AccessError (AccessDB * TicketRefundBatch) :=
  if quantity <? 1 then Err (ErrInvalid "quantity")
  else
    let all := order_tickets org order db in
    _ ← match rd_batches (ad_receipts db) !! (org, refund) with
        | Some b => ensure (bool_decide (b = (order, quantity))) ErrRefundBatchConflict
        | None => Ok tt
        end;
    let free := refund_free db all in
    let mine := refund_mine refund db all in
    if (0 <? Z.of_nat (length mine)) then
      if negb (wrap32 (Z.of_nat (length mine)) =? quantity) then Err ErrRefundBatchConflict
      else Ok (db, {| tb_TicketIDs := mine; tb_Replay := true |})
    else if wrap32 (Z.of_nat (length free)) <? quantity then Err ErrTicketsNotIssued
    else
      let selected := take (Z.to_nat quantity) free in
      db ← bind_batch org refund order quantity db;
      id ← first_identity selected db;
      db ← append_all en id (refundEventID refund) Refunded selected db;
      Ok (db, {| tb_TicketIDs := selected; tb_Replay := false |}).

(** ** Exchanges *)

Definition exchangedEventID (exchange ticket : uuid) : uuid :=
  NewSHA1 ("exchanged:" +:+ uuid_String exchange +:+ ":" +:+ uuid_String ticket).

Fixpoint check_sources (source : list uuid) (db : AccessDB) : result AccessError unit :=
  match source with
  | [] => Ok tt
  | k :: source' =>
      if ticketCommerciallyVoid k db then Err ErrSourceTicketsAlreadyVoided
      else if ticketAdmittedUnion k db then Err ErrSourceTicketsAlreadyAdmitted
      else check_sources source' db
  end.

Definition SwitchExchange (en : Env) (event exchange sourceOrder org : uuid) (replacement : list Ticket) (db : AccessDB)
    : result AccessError AccessDB :=
  match consume event db with
  | None => Ok db
  | Some db =>
      let source := order_tickets org sourceOrder db in
      if bool_decide (length source = 0%nat) || (length source <? length replacement)%nat then Err ErrExchangeTicketsNotIssued
      else
        _ ← check_sources source db;
        id ← first_identity source db;
        db ← append_all en id (exchangedEventID exchange) Exchanged source db;
        insertIssuedTickets en replacement db
  end.

(** The summary commerce reads before it accepts an exchange. *)
Definition OrderAdmission (org order : uuid) (db : AccessDB) : bool * Z :=
  let ids := order_tickets org order db in
  (existsb (λ k, ticketAdmittedUnion k db) ids, wrap32 (Z.of_nat (length ids))).
End TicketOps.

Section Redelivery.
Context `{UU : UUID} `{US : !UUIDSource} `{ED : Ed25519}.

(** ** Redelivery *)

Definition RedeliveryBound : Z := 5.
Definition RedeliveryWindow : Z := 86400000000000.

Record RedeliveryTicket := {
  rt_TicketID : uuid;
  rt_BuyerID : uuid;
  rt_GuestOrderRef : uuid;
  rt_MessageID : uuid;
  rt_Accepted : bool;
}.

Record RedeliveryClaim := { rx_Tickets : list RedeliveryTicket; rx_Replay : bool }.

Definition Outstanding (c : RedeliveryClaim) : list RedeliveryTicket := List.filter (λ t, negb (rt_Accepted t)) (rx_Tickets c).

Definition redeliveryEventID (org : uuid) (key : string) (ticket : uuid) : uuid :=
  NewSHA1 ("redelivered:" +:+ uuid_String org +:+ ":" +:+ key +:+ ":" +:+ uuid_String ticket).

Definition redeliveryMessageID (org : uuid) (key : string) (ticket : uuid) : uuid :=
  NewSHA1 ("redelivery:" +:+ uuid_String org +:+ ":" +:+ key +:+ ":" +:+ uuid_String ticket).

Definition set_redelivery q a (db : AccessDB) : AccessDB := upd_receipts db {|
  rd_consumed := rd_consumed (ad_receipts db); rd_batches := rd_batches (ad_receipts db);
  rd_deliveries := rd_deliveries (ad_receipts db); rd_requests := q; rd_attempts := a |}.

(** The order's tickets as the claim reads them, before any message id. *)
Definition claim_tickets (org order : uuid) (db : AccessDB) : list RedeliveryTicket :=
  map (λ k, {| rt_TicketID := tk_ID k; rt_BuyerID := tk_BuyerID k; rt_GuestOrderRef := tk_GuestOrderRef k;
               rt_MessageID := uuid_Nil; rt_Accepted := false |})
    (isort (on_key tk_ID uuid_ltb)
      (tickets_where (λ k, bool_decide (tk_OrderID k = order) && bool_decide (tk_OrganizerID k = org)) db)).

Definition with_attempt (message : uuid) (accepted : bool) (t : RedeliveryTicket) : RedeliveryTicket := {|
  rt_TicketID := rt_TicketID t; rt_BuyerID := rt_BuyerID t; rt_GuestOrderRef := rt_GuestOrderRef t;
  rt_MessageID := message; rt_Accepted := accepted |}.

(** A ticket without its attempt row is left out. *)
Definition loadRedeliveryAttempts (org : uuid) (key : string) (all : list RedeliveryTicket) (db : AccessDB) : list RedeliveryTicket :=
  omap (λ t, (λ a, with_attempt (da_MessageID a) (is_set (da_AcceptedAt a)) t) <$>
             rd_attempts (ad_receipts db) !! (org, key, rt_TicketID t)) all.

Definition recent_requests (order : uuid) (since : time) (db : AccessDB) : Z :=
  Z.of_nat (length (rows_where (λ q, bool_decide (rq_Order q = order) && (since <? rq_RequestedAt q)) (rd_requests (ad_receipts db)))).

(** The primary key, the foreign keys and the unique message id of an attempt. *)
Definition insert_attempt (org : uuid) (key : string) (db : AccessDB) (t : RedeliveryTicket) : result AccessError AccessDB :=
  let attempts := rd_attempts (ad_receipts db) in
  _ ← ensure (negb (is_set (attempts !! (org, key, rt_TicketID t))) &&
              negb (some_row (λ a, bool_decide (da_MessageID a = rt_MessageID t)) attempts)) ErrDatabase;
  Ok (set_redelivery (rd_requests (ad_receipts db))
        (<[(org, key, rt_TicketID t) := {| da_MessageID := rt_MessageID t; da_AcceptedAt := None |}]> attempts) db).

Definition ClaimRedelivery (en : Env) (org order : uuid) (key : string) (db : AccessDB) : result AccessError (AccessDB * RedeliveryClaim) :=
  _ ← refuse_if (bool_decide (key = ""%string)) (ErrInvalid "idempotency key");
  let all := claim_tickets org order db in
  _ ← refuse_if (bool_decide (length all = 0%nat)) ErrTicketsNotIssued;
  match rd_requests (ad_receipts db) !! (org, key) with
  | Some q =>
      _ ← ensure (bool_decide (rq_Order q = order)) ErrRedeliveryKeyConflict;
      Ok (db, {| rx_Tickets := loadRedeliveryAttempts org key all db; rx_Replay := true |})
  | None =>
      _ ← refuse_if (recent_requests order (p_now en - RedeliveryWindow) db >=? RedeliveryBound) ErrRedeliveryBoundExceeded;
      let n := Z.of_nat (length all) in
      _ ← ensure ((char_length key <=? 200) && (1 <=? n) && (n <=? 50)) ErrDatabase;
      let q := {| rq_Order := order; rq_Count := n; rq_RequestedAt := timestamptz (en_DBNow en) |} in
      let db := set_redelivery (<[(org, key) := q]> (rd_requests (ad_receipts db))) (rd_attempts (ad_receipts db)) db in
      let claimed := map (λ t, with_attempt (redeliveryMessageID org key (rt_TicketID t)) false t) all in
      db ← fold_result (insert_attempt org key) db claimed;
      Ok (db, {| rx_Tickets := claimed; rx_Replay := false |})
  end.

Definition MarkRedelivered (en : Env) (org : uuid) (key : string) (ticket message : uuid) (db : AccessDB) : result AccessError AccessDB :=
  match td_tickets (ad_trail db) !! ticket with
  | None => Err ErrTicketCredential
  | Some k =>
      if negb (bool_decide (tk_OrganizerID k = org)) then Err ErrTicketCredential
      else
        match rd_attempts (ad_receipts db) !! (org, key, ticket) with
        | None => Ok db
        | Some a =>
            if negb (bool_decide (da_MessageID a = message)) || is_set (da_AcceptedAt a) then Ok db
            else
              let accepted := {| da_MessageID := message; da_AcceptedAt := Some (timestamptz (en_DBNow en)) |} in
              let db := set_redelivery (rd_requests (ad_receipts db)) (<[(org, key, ticket) := accepted]> (rd_attempts (ad_receipts db))) db in
              x ← append_on en ticket (identity k) (redeliveryEventID org key ticket) Redelivered zero_time db;
              Ok x.1
        end
  end.
End Redelivery.

Section Feed.
Context `{UU : UUID}.

(** ** The feed of voided tickets *)

Record VoidedTicket := { vt_TicketID : uuid; vt_OccurredAt : time; vt_EventID : uuid }.

Record VoidedCursor := { vc_OccurredAt : time; vc_EventID : uuid; vc_OrganizerID : uuid }.

Definition VoidedFeedPageLimit : Z := 100.

(** Newest first: the row-value order [(occurred_at, id)], descending. *)
Definition voided_key_ltb (t1 : time) (e1 : uuid) (t2 : time) (e2 : uuid) : bool :=
  (t1 <? t2) || ((t1 =? t2) && uuid_ltb e1 e2).

Definition voided_newer (a b : VoidedTicket) : bool :=
  voided_key_ltb (vt_OccurredAt b) (vt_EventID b) (vt_OccurredAt a) (vt_EventID a).

Definition voiding (ty : LifecycleType) : bool := match ty with Refunded | Exchanged => true | _ => false end.

Definition organizer_of (ticket : uuid) (db : AccessDB) : option uuid := tk_OrganizerID <$> td_tickets (ad_trail db) !! ticket.

Definition voided_of (org : uuid) (db : AccessDB) : list VoidedTicket :=
  isort voided_newer (map (λ p : uuid * EventRow, {| vt_TicketID := ev_Ticket p.2; vt_OccurredAt := ev_OccurredAt p.2; vt_EventID := p.1 |})
    (List.filter (λ p, voiding (ev_Type p.2) && bool_decide (organizer_of (ev_Ticket p.2) db = Some org))
      (map_to_list (td_events (ad_trail db))))).

(** [IsZero]: no cursor. *)
Definition no_cursor (c : VoidedCursor) : bool := is_zero_time (vc_OccurredAt c) && bool_decide (vc_EventID c = uuid_Nil).

(** The year 9999's last second and the largest uuid, [uuid_Max], above every
    event; and the cursor of the last page. *)
Definition feed_top : time := 253402300799000000000.
Definition zero_cursor : VoidedCursor := {| vc_OccurredAt := zero_time; vc_EventID := uuid_Nil; vc_OrganizerID := uuid_Nil |}.

Definition below (uuid_Max : uuid) (c : VoidedCursor) (v : VoidedTicket) : bool :=
  if no_cursor c then voided_key_ltb (vt_OccurredAt v) (vt_EventID v) feed_top uuid_Max
  else voided_key_ltb (vt_OccurredAt v) (vt_EventID v) (vc_OccurredAt c) (vc_EventID c).

Definition page_limit (limit : Z) : Z := if (limit <=? 0) || (VoidedFeedPageLimit <? limit) then VoidedFeedPageLimit else limit.

Definition VoidedTickets (uuid_Max org : uuid) (after : VoidedCursor) (limit : Z) (db : AccessDB)
    : result AccessError (list VoidedTicket * VoidedCursor) :=
  _ ← refuse_if (bool_decide (org = uuid_Nil)) (ErrInvalid "organizer");
  let limit := page_limit limit in
  _ ← refuse_if (negb (no_cursor after) && negb (bool_decide (vc_OrganizerID after = uuid_Nil)) &&
                 negb (bool_decide (vc_OrganizerID after = org))) (ErrInvalid "cursor");
  let rows := take (Z.to_nat (limit + 1)) (List.filter (below uuid_Max after) (voided_of org db)) in
  let page := take (Z.to_nat limit) rows in
  let next :=
    if (limit <? Z.of_nat (length rows)) then
      match list.last page with
      | Some v => {| vc_OccurredAt := vt_OccurredAt v; vc_EventID := vt_EventID v; vc_OrganizerID := org |}
      | None => zero_cursor
      end
    else zero_cursor in
  Ok (page, next).
End Feed.
