(* ===== verification/TrailRuns.v ===== *)
(** * What the operations of the access service keep

    [grows]: the trail, the quarantine and the receipts only grow, so that what an
    operation decided on can be relied on afterwards. [framed]: a preorder on
    databases that every statement of the operations of [Gate], [Reconcile] and
    [TicketOps] stays in is one every operation stays in; the appends may be asked
    to be signed for the right identity. *)

From S2P Require Import Prelude Tables Sha256 Lifecycle Admission Trail Gate Reconcile TicketOps.
#[local] Open Scope Z_scope.

Section Growth.
Context `{UU : UUID}.
Implicit Types (db : AccessDB) (t : TrailDB).

(** ** Growth *)

Record grows db db' : Prop := {
  gr_tickets : td_tickets (ad_trail db) ⊆ td_tickets (ad_trail db');
  gr_events : td_events (ad_trail db) ⊆ td_events (ad_trail db');
  gr_quarantine : gd_quarantine (ad_gate db) `prefix_of` gd_quarantine (ad_gate db');
  gr_outbox : gd_outbox (ad_gate db) `prefix_of` gd_outbox (ad_gate db');
  gr_refusals : gd_refusals (ad_gate db) ⊆ gd_refusals (ad_gate db');
  gr_consumed : rd_consumed (ad_receipts db) ⊆ rd_consumed (ad_receipts db');
  gr_batches : rd_batches (ad_receipts db) ⊆ rd_batches (ad_receipts db');
}.

#[export] Instance grows_preorder : PreOrder grows.
Proof. split; [intros db; by split|]. intros a b c [] []. split; by etrans. Qed.

Lemma grows_trail db t :
  td_tickets (ad_trail db) ⊆ td_tickets t → td_events (ad_trail db) ⊆ td_events t → grows db (upd_trail db t).
Proof. by split. Qed.

Lemma grows_gate db g :
  gd_quarantine (ad_gate db) `prefix_of` gd_quarantine g → gd_outbox (ad_gate db) `prefix_of` gd_outbox g →
  gd_refusals (ad_gate db) ⊆ gd_refusals g → grows db (upd_gate db g).
Proof. by split. Qed.

Lemma grows_receipts db r :
  rd_consumed (ad_receipts db) ⊆ rd_consumed r → rd_batches (ad_receipts db) ⊆ rd_batches r → grows db (upd_receipts db r).
Proof. by split. Qed.

Lemma ensure_Ok b (e : AccessError) u : ensure b e = Ok u ↔ b = true.
Proof. unfold ensure. rewrite refuse_if_Ok. apply negb_false_iff. Qed.

Lemma insert_alarm_Ok a db db' : insert_alarm a db = Ok db' →
  db' = upd_gate db (set_outbox (gd_outbox (ad_gate db) ++ [a]) (ad_gate db)).
Proof. unfold insert_alarm. by intros (u & _ & [= <-])%bind_Ok. Qed.

Lemma insert_alarm_grows a db db' : insert_alarm a db = Ok db' → grows db db'.
Proof. intros ->%insert_alarm_Ok. apply grows_gate; cbn; [done|by apply prefix_app_r|done]. Qed.

Lemma insert_quarantine_Ok q db db' : insert_quarantine q db = Ok db' →
  quarantine_insertable q db = true ∧ db' = upd_gate db (set_quarantine (gd_quarantine (ad_gate db) ++ [q]) (ad_gate db)).
Proof. unfold insert_quarantine. by intros (u & ?%ensure_Ok & [= <-])%bind_Ok. Qed.

Lemma insert_quarantine_grows q db db' : insert_quarantine q db = Ok db' → grows db db'.
Proof. intros [_ ->]%insert_quarantine_Ok. apply grows_gate; cbn; [by apply prefix_app_r|done|done]. Qed.

Lemma flip_mode_grows org now db : grows db (flip_mode org now db).
Proof. unfold flip_mode. case_bool_decide; [by apply grows_gate|done]. Qed.

Lemma consume_grows event db db' : consume event db = Some db' → grows db db'.
Proof.
  unfold consume. case_bool_decide; [done|]. intros [= <-]. apply grows_receipts; cbn; [set_solver|done].
Qed.
End Growth.

Section Appends.
Context `{UU : UUID} `{ED : Ed25519}.
Implicit Types (t : TrailDB).

(** What an append did: one event, one integrity row, the head, one change. *)
Lemma insert_event_Ok id row t t' : insert_event id row t = Ok t' ↔
  is_Some (td_tickets t !! ev_Ticket row) ∧ td_events t !! id = None ∧
  (singleton (ev_Type row) && has_event (ev_Ticket row) (ev_Type row) t) = false ∧
  t' = set_events (<[id := row]> (td_events t)) t.
Proof.
  unfold insert_event. split.
  - intros ([] & H1%ensure_Ok & ([] & H2%ensure_Ok & ([] & H3%refuse_if_Ok & [= <-])%bind_Ok)%bind_Ok)%bind_Ok.
    rewrite bool_decide_eq_true in H1, H2. done.
  - intros (H1 & H2 & H3 & ->). unfold ensure. rewrite !bool_decide_true by done. by rewrite H3.
Qed.

Lemma chain_event_rest sg now inp head at_ t t' : chain_event sg now inp head at_ t = Ok t' →
  td_tickets t' = td_tickets t ∧ td_events t' = td_events t ∧ td_checkpoints t' = td_checkpoints t ∧ td_epochs t' = td_epochs t.
Proof.
  unfold chain_event, insert_integrity, upsert_head, queue_change. cbn zeta.
  intros (t1 & (u1 & _ & [= <-])%bind_Ok & (t2 & (u2 & _ & [= <-])%bind_Ok & (u3 & _ & [= <-])%bind_Ok)%bind_Ok)%bind_Ok. done.
Qed.

Lemma appendLifecycle_Ok signer now inp t t' at_ : appendLifecycle signer now inp t = Ok (t', at_) →
  ∃ row, ev_Ticket row = ai_TicketID inp ∧ ev_Type row = ai_Type inp ∧ ev_OccurredAt row = at_ ∧
    is_Some (td_tickets t !! ai_TicketID inp) ∧ td_events t !! ai_EventID inp = None ∧
    (singleton (ai_Type inp) && has_event (ai_TicketID inp) (ai_Type inp) t) = false ∧
    td_tickets t' = td_tickets t ∧ td_events t' = <[ai_EventID inp := row]> (td_events t).
Proof.
  unfold appendLifecycle. destruct signer as [sg|]; [|done]. cbn zeta.
  intros (t1 & (Ht & Hn & Hs & ->)%insert_event_Ok & (t2 & H2%chain_event_rest & [= <- <-])%bind_Ok)%bind_Ok.
  destruct H2 as (Hk & He & _). eexists. split_and!; [..|exact Hk|exact He]; try done. cbn.
  unfold timestamptz. by rewrite Normalize_idem.
Qed.
End Appends.

Section Operations.
Context `{UU : UUID} `{US : !UUIDSource} `{ED : Ed25519}.
Implicit Types (db : AccessDB) (en : Env) (ticket : uuid).

(** What an append on a ticket did to the tables. *)
Record appended ticket (event : uuid) (ty : LifecycleType) (at_ : time) db db' : Prop := {
  ap_ticket : is_Some (td_tickets (ad_trail db) !! ticket);
  ap_new : td_events (ad_trail db) !! event = None;
  ap_once : singleton ty = true → has_event ticket ty (ad_trail db) = false;
  ap_tickets : td_tickets (ad_trail db') = td_tickets (ad_trail db);
  ap_events : td_events (ad_trail db') =
    <[event := {| ev_Ticket := ticket; ev_Type := ty; ev_OccurredAt := at_ |}]> (td_events (ad_trail db));
  ap_gate : ad_gate db' = ad_gate db;
  ap_receipts : ad_receipts db' = ad_receipts db;
}.

Lemma append_on_Ok en ticket id event ty at_ db db' stored :
  append_on en ticket id event ty at_ db = Ok (db', stored) → appended ticket event ty stored db db'.
Proof.
  unfold append_on. intros ([t' st] & (row & Hr1 & Hr2 & Hr3 & Ht & Hn & Hs & Htk & Hev)%appendLifecycle_Ok & [= <- <-])%bind_Ok.
  cbn in *. split; cbn; try done.
  - intros Hsg. by rewrite Hsg in Hs.
  - rewrite Hev. destruct row; cbn in *. by subst.
Qed.

Lemma append_occurrence_Ok en ticket id event ty at_ db db' stored :
  append_occurrence en ticket id event ty at_ db = Ok (db', stored) → appended ticket event ty stored db db'.
Proof. unfold append_occurrence. destruct (append_on _ _ _ _ _ _ _) as [[]|] eqn:E; [|done]. intros [= <- <-]. by eapply append_on_Ok. Qed.

Lemma appended_grows ticket event ty at_ db db' : appended ticket event ty at_ db db' → grows db db'.
Proof.
  intros []. split; rewrite ?ap_gate0, ?ap_receipts0, ?ap_tickets0, ?ap_events0; try done. by apply insert_subseteq.
Qed.

Lemma append_on_grows en ticket id event ty at_ db x :
  append_on en ticket id event ty at_ db = Ok x → grows db x.1.
Proof. destruct x. intros H%append_on_Ok. by eapply appended_grows. Qed.

Lemma append_occurrence_grows en ticket id event ty at_ db x :
  append_occurrence en ticket id event ty at_ db = Ok x → grows db x.1.
Proof. destruct x. intros H%append_occurrence_Ok. by eapply appended_grows. Qed.

Lemma append_occurrence_on en ticket id event ty at_ db x :
  append_occurrence en ticket id event ty at_ db = Ok x → append_on en ticket id event ty at_ db = Ok x.
Proof. unfold append_occurrence. by destruct (append_on _ _ _ _ _ _ _). Qed.

Lemma lock_ticket_Ok ticket claimed db id : lock_ticket ticket claimed db = Ok id →
  id = claimed ∧ ∃ k, td_tickets (ad_trail db) !! ticket = Some k ∧ identity k = claimed.
Proof.
  unfold lock_ticket. destruct (td_tickets _ !! _) as [k|]; [|done]. case_bool_decide as Hi; [|done].
  intros [= <-]. split; [done|]. by exists k.
Qed.

Lemma insert_ticket_Ok k db db' : insert_ticket k db = Ok db' ↔
  td_tickets (ad_trail db) !! tk_ID k = None ∧ seat_identity_ok (tk_SeatIdentity k) = true ∧
  db' = upd_trail db (set_tickets (<[tk_ID k := stored_ticket k]> (td_tickets (ad_trail db))) (ad_trail db)).
Proof.
  unfold insert_ticket. split.
  - intros ([] & H%ensure_Ok & [= <-])%bind_Ok. zbool. done.
  - intros (H1 & H2 & ->). unfold ensure. by rewrite H2, bool_decide_true.
Qed.

Lemma insert_ticket_grows k db db' : insert_ticket k db = Ok db' → grows db db'.
Proof. intros (Hn & _ & ->)%insert_ticket_Ok. apply grows_trail; cbn; [by apply insert_subseteq|done]. Qed.
End Operations.

(** ** What every statement keeps, every operation keeps

    A preorder on databases that the statements of the operations stay in. An
    append stays in it when it is signed as [signs] asks: by whom, over which
    tickets, for which ticket and identity. *)
Section Frames.
Context `{UU : UUID} `{US : !UUIDSource} `{ED : Ed25519}.
Implicit Types (db : AccessDB) (en : Env) (ticket : uuid).

Abbreviation signature_rule := (Env → gmap uuid Ticket → uuid → TicketIdentity → Prop).

Record framed (R : AccessDB → AccessDB → Prop) (signs : signature_rule) : Prop := {
  fr_preorder : PreOrder R;
  fr_alarm a db db' : insert_alarm a db = Ok db' → R db db';
  fr_quarantine q db db' : insert_quarantine q db = Ok db' → R db db';
  fr_gate db g : gd_quarantine g = gd_quarantine (ad_gate db) → gd_outbox g = gd_outbox (ad_gate db) →
    gd_refusals (ad_gate db) ⊆ gd_refusals g → R db (upd_gate db g);
  fr_receipts db r : rd_consumed (ad_receipts db) ⊆ rd_consumed r → rd_batches (ad_receipts db) ⊆ rd_batches r →
    R db (upd_receipts db r);
  fr_ticket k db db' : insert_ticket k db = Ok db' → R db db';
  fr_append en ticket id event ty at_ db x : signs en (td_tickets (ad_trail db)) ticket id →
    append_on en ticket id event ty at_ db = Ok x → R db x.1;
}.

(** The operation signs for the identity its ticket's row has. *)
Definition own_identity (signs : signature_rule) en : Prop :=
  ∀ m ticket k, m !! ticket = Some k → signs en m ticket (identity k).

(** A batch signs for each of an order's tickets with the identity of one. *)
Definition order_identity (signs : signature_rule) en (org order : uuid) db : Prop :=
  ∀ k1 k2 t, k1 ∈ order_tickets org order db → k2 ∈ order_tickets org order db →
    td_tickets (ad_trail db) !! k1 = Some t → signs en (td_tickets (ad_trail db)) k2 (identity t).
End Frames.

Section Framed.
Context `{UU : UUID} `{US : !UUIDSource} `{ED : Ed25519}.
Context (R : AccessDB → AccessDB → Prop) (signs : Env → gmap uuid Ticket → uuid → TicketIdentity → Prop) (FR : framed R signs).
Implicit Types (db : AccessDB) (en : Env) (ticket : uuid).

#[local] Instance framed_preorder : PreOrder R.
Proof. exact (fr_preorder R signs FR). Qed.

Lemma append_occurrence_frame en ticket id event ty at_ db x : signs en (td_tickets (ad_trail db)) ticket id →
  append_occurrence en ticket id event ty at_ db = Ok x → R db x.1.
Proof. intros Hs Ho%append_occurrence_on. by eapply fr_append. Qed.

Lemma fold_frame {A} (step : AccessDB → A → result AccessError AccessDB) :
  (∀ db x db', step db x = Ok db' → R db db') → ∀ l db db', fold_result step db l = Ok db' → R db db'.
Proof.
  intros Hs. induction l as [|x l IH]; intros db db'; cbn; [by intros [= <-]|].
  destruct (step db x) as [db1|] eqn:E; [|done]. intros Hf. etrans; [by eapply Hs|by apply IH].
Qed.

Lemma flip_mode_frame org now db : R db (flip_mode org now db).
Proof. unfold flip_mode. case_bool_decide; [by eapply fr_gate|done]. Qed.

Lemma consume_frame event db db' : consume event db = Some db' → R db db'.
Proof. unfold consume. case_bool_decide; [done|]. intros [= <-]. apply (fr_receipts R signs FR); cbn; [set_solver|done]. Qed.

Lemma evaluateAlarms_frame ticket id policy db db' : evaluateAlarms ticket id policy db = Ok db' → R db db'.
Proof.
  unfold evaluateAlarms. cbn zeta. destruct (evaluatePolicyAlarms _ _ _) as [rows owed]. intros Hf.
  etrans; [|eapply fold_frame; [|exact Hf]]; [by eapply fr_gate|]. intros d x d'. by eapply fr_alarm.
Qed.

(** Turns the statements a run of an operation went through into facts of the
    preorder, and chains them. *)
Ltac frame_fact :=
  match goal with
  | H : insert_alarm _ _ = Ok _ |- _ => eapply (fr_alarm R signs FR) in H
  | H : oweAlarm _ _ _ _ _ _ _ = Ok _ |- _ => eapply (fr_alarm R signs FR) in H
  | H : oweConflictAlarm _ _ _ _ _ _ _ = Ok _ |- _ => eapply (fr_alarm R signs FR) in H
  | H : insert_quarantine _ _ = Ok _ |- _ => eapply (fr_quarantine R signs FR) in H
  | H : append_on _ _ _ _ _ _ _ = Ok _ |- _ => eapply (fr_append R signs FR) in H; [|by auto]
  | H : append_occurrence _ _ _ _ _ _ _ = Ok _ |- _ => eapply append_occurrence_frame in H; [|by auto]
  | H : evaluateAlarms _ _ _ _ = Ok _ |- _ => apply evaluateAlarms_frame in H
  | H : consume _ _ = Some _ |- _ => apply consume_frame in H
  end.
Ltac chain_frame :=
  lazymatch goal with
  | |- R ?a ?b =>
      first [reflexivity | assumption |
             match goal with H : R a ?c |- _ => transitivity c; [exact H|clear H; chain_frame] end]
  end.
Ltac frame := ok_inv; repeat frame_fact; cbn [fst snd] in *; try chain_frame.

(** *** At the gate *)

Lemma deny_quarantined_frame en ticket id q reason db x : deny_quarantined en ticket id q reason db = Ok x → R db x.1.
Proof. unfold deny_quarantined. intros H. frame. Qed.

Lemma degraded_admission_frame en ticket id occ cause db x : degraded_admission en ticket id occ cause db = Ok x → R db x.1.
Proof.
  unfold degraded_admission. destruct (degraded_policy en) as [th w]. intros H. frame.
  transitivity x0; [done|]. etrans; [|eassumption]. destruct (_ >=? _); [apply flip_mode_frame|done].
Qed.

Lemma degradedScan_frame en ticket id occ direction cause db x :
  degradedScan en ticket id occ direction cause db = Ok x → R db x.1.
Proof.
  unfold degradedScan. intros (r & _ & H)%bind_Ok. destruct r; [by injection H as <-|].
  destruct (degraded_row _ _); [by eapply deny_quarantined_frame|]. case_bool_decide; [frame|by eapply degraded_admission_frame].
Qed.

Lemma redeem_verified_frame en inp id db x : signs en (td_tickets (ad_trail db)) (ri_TicketID inp) id →
  redeem_verified en inp id db = Ok x → R db x.1.
Proof.
  unfold redeem_verified. cbn zeta. intros Hs (r & _ & H)%bind_Ok. destruct r; [by injection H as <-|].
  destruct (degraded_row _ _); [by eapply deny_quarantined_frame|]. destruct (redeemed_at _ _); [by injection H as <-|].
  case_bool_decide as Hc; frame.
Qed.

(** The identity a locked ticket is signed for. *)
Lemma locked_signs en ticket claimed db id : own_identity signs en →
  lock_ticket ticket claimed db = Ok id → signs en (td_tickets (ad_trail db)) ticket id.
Proof. intros Hown (-> & k & Hk & <-)%lock_ticket_Ok. by apply Hown. Qed.

Lemma redeemSingle_frame en inp db x : own_identity signs en → redeemSingle en inp db = Ok x → R db x.1.
Proof.
  unfold redeemSingle. cbn zeta. intros Hown (u & _ & (id & Hs%(locked_signs en) & H)%bind_Ok)%bind_Ok; [|done].
  destruct (ticketRefunded _ _); [by injection H as <-|]. destruct (ticketExchanged _ _); [by injection H as <-|].
  destruct (verifyTicketChain _ _ _ _); [by eapply redeem_verified_frame|by eapply degradedScan_frame].
Qed.

Lemma pass_verified_frame en inp direction policy id db x : signs en (td_tickets (ad_trail db)) (ri_TicketID inp) id →
  pass_verified en inp direction policy id db = Ok x → R db x.1.
Proof.
  unfold pass_verified. cbn zeta. intros Hs (r & _ & H)%bind_Ok. destruct r; [by injection H as <-|].
  destruct (degraded_row _ _); [by eapply deny_quarantined_frame|].
  destruct (negb _); [by injection H as <-|]. frame.
Qed.

Lemma admitPass_frame en inp direction policy db x : own_identity signs en →
  admitPass en inp direction policy db = Ok x → R db x.1.
Proof.
  unfold admitPass. cbn zeta. intros Hown. case_bool_decide as Hc; [by intros [= <-]|].
  intros (u & _ & (id & Hs%(locked_signs en) & H)%bind_Ok)%bind_Ok; [|done].
  destruct (ticketRefunded _ _); [by injection H as <-|]. destruct (ticketExchanged _ _); [by injection H as <-|].
  destruct (verifyTicketChain _ _ _ _); [by eapply pass_verified_frame|].
  case_bool_decide as Hd; [|by eapply degradedScan_frame].
  unfold exit_unverified in H. apply bind_Ok in H as (r & _ & H). destruct r; [by injection H as <-|]. frame.
Qed.

Lemma Scan_frame en policy inp direction db x : own_identity signs en → Scan en policy inp direction db = Ok x → R db x.1.
Proof.
  unfold Scan. cbn zeta. intros Hown. case_bool_decide as Hc; [done|]. destruct (negb _); [|by apply admitPass_frame].
  case_bool_decide as Hd; [by intros [= <-]|by apply redeemSingle_frame].
Qed.

Lemma RecordAdmission_frame en inp db x : own_identity signs en → RecordAdmission en inp db = Ok x → R db x.1.1.
Proof.
  unfold RecordAdmission. cbn zeta. intros Hown (u & _ & (id & Hs%(locked_signs en) & H)%bind_Ok)%bind_Ok; [|done].
  destruct (td_events _ !! _); [destruct (_ || _); [done|by injection H as <-]|]. frame.
Qed.

Lemma RecordRevocationRefusal_frame ticket claimed occ at_ decision db x :
  RecordRevocationRefusal ticket claimed occ at_ decision db = Ok x → R db x.1.
Proof.
  unfold RecordRevocationRefusal. intros (u & _ & (id & _ & H)%bind_Ok)%bind_Ok.
  destruct (gd_refusals _ !! _) eqn:E; [destruct (_ && _); [by injection H as <-|done]|].
  apply bind_Ok in H as ([] & _ & [= <-]). eapply fr_gate; cbn; [done..|]. by apply insert_subseteq.
Qed.

Lemma ReconcileAdmission_frame en inp db x : own_identity signs en → ReconcileAdmission en inp db = Ok x → R db x.1.
Proof.
  unfold ReconcileAdmission. cbn zeta. intros Hown
    (u & _ & (u1 & _ & (id & Hs%(locked_signs en) & (u2 & _ & (r & _ & H)%bind_Ok)%bind_Ok)%bind_Ok)%bind_Ok)%bind_Ok; [|done].
  destruct r; [by injection H as <-|]. destruct (verifyTicketChain _ _ _ _).
  - destruct (IsPass _); unfold reconcile_pass, reconcile_single in H; [frame|]. cbn zeta in H.
    destruct (ticketAdmittedUnion _ _); [frame|]. apply bind_Ok in H as (y & Hy & H). destruct (_ || _); frame.
  - unfold reconcile_quarantined in H. destruct (IsPass _); frame.
Qed.

Lemma UpsertSlotPolicy_frame event slot org p db db' : UpsertSlotPolicy event slot org p db = Ok db' → R db db'.
Proof.
  unfold UpsertSlotPolicy. intros (u & _ & (u1 & _ & H)%bind_Ok)%bind_Ok. destruct (consume _ _) eqn:E; [|by injection H as <-].
  injection H as <-. apply consume_frame in E. etrans; [exact E|]. by eapply fr_gate.
Qed.

Lemma SetMode_frame now org mode by_ db db' : SetMode now org mode by_ db = Ok db' → R db db'.
Proof. unfold SetMode. intros ([] & _ & [= <-])%bind_Ok. by eapply fr_gate. Qed.

(** *** Away from the gate *)

Lemma insertIssuedTicket_frame en k db db' : own_identity signs en → insertIssuedTicket en k db = Ok db' → R db db'.
Proof.
  unfold insertIssuedTicket. intros Hown (db1 & Hi & (x & Ha & [= <-])%bind_Ok)%bind_Ok.
  assert (signs en (td_tickets (ad_trail db1)) (tk_ID k) (identity k)).
  { apply insert_ticket_Ok in Hi as (_ & _ & ->). apply (Hown _ (tk_ID k) (stored_ticket k)). cbn. apply lookup_insert_eq. }
  eapply (fr_ticket R signs FR) in Hi. frame.
Qed.

Lemma insertIssuedTickets_frame en ks db db' : own_identity signs en → insertIssuedTickets en ks db = Ok db' → R db db'.
Proof. intros Hown. apply fold_frame. intros d k d'. by apply insertIssuedTicket_frame. Qed.

Lemma Issue_frame en event ks db db' : own_identity signs en → Issue en event ks db = Ok db' → R db db'.
Proof.
  unfold Issue. intros Hown. destruct (consume _ _) eqn:E; [|by intros [= <-]]. intros H%insertIssuedTickets_frame; [|done]. frame.
Qed.

Lemma DeliveryID_frame ticket db x : DeliveryID ticket db = Ok x → R db x.1.
Proof.
  unfold DeliveryID. cbn zeta. destruct (rd_deliveries _ !! _); [by intros [= <-]|].
  intros ([] & _ & [= <-])%bind_Ok. by apply (fr_receipts R signs FR).
Qed.

Lemma accept_delivery_frame now ticket message db : R db (accept_delivery now ticket message db).
Proof. unfold accept_delivery. destruct (rd_deliveries _ !! _); [|done]. case_bool_decide as Hc; [by apply (fr_receipts R signs FR)|done]. Qed.

Lemma accept_delivery_trail now ticket message db : ad_trail (accept_delivery now ticket message db) = ad_trail db.
Proof. unfold accept_delivery. destruct (rd_deliveries _ !! _); [|done]. by case_bool_decide as Hc. Qed.

Lemma MarkDelivered_frame en ticket message db db' : own_identity signs en → MarkDelivered en ticket message db = Ok db' → R db db'.
Proof.
  unfold MarkDelivered. intros Hown. destruct (td_tickets _ !! _) as [k|] eqn:Ek; [|done]. cbn zeta.
  pose proof (accept_delivery_frame (timestamptz (en_DBNow en)) ticket message db).
  set (db1 := accept_delivery _ _ _ _) in *. destruct (has_event _ _ _); [by intros [= <-]|]. intros Ho.
  assert (signs en (td_tickets (ad_trail db1)) ticket (identity k)).
  { unfold db1. rewrite accept_delivery_trail. by apply Hown. }
  frame.
Qed.

Lemma append_all_frame en id event_id ty tickets db db' : (∀ k, k ∈ tickets → signs en (td_tickets (ad_trail db)) k id) →
  append_all en id event_id ty tickets db = Ok db' → R db db'.
Proof.
  revert db. induction tickets as [|k tickets IH]; intros db Hs Ho; [by injection Ho as <-|]. cbn [append_all fold_result] in Ho.
  destruct (append_on _ _ _ _ _ _ _) as [[db1 at_]|] eqn:E; [|done]. cbn [mbind result_bind] in Ho.
  transitivity db1; [eapply (fr_append R signs FR _ _ _ _ _ _ _ (db1, at_)); [|exact E]; apply Hs, list_elem_of_here|].
  apply IH; [|exact Ho]. rewrite (ap_tickets _ _ _ _ _ _ (append_on_Ok _ _ _ _ _ _ _ _ _ E)).
  intros j Hj. by apply Hs, list_elem_of_further.
Qed.

Lemma bind_batch_Ok org refund order q db db' : bind_batch org refund order q db = Ok db' →
  rd_batches (ad_receipts db) !! (org, refund) = None ∧ 1 ≤ q ≤ 50 ∧
  db' = set_batches (<[(org, refund) := (order, q)]> (rd_batches (ad_receipts db))) db.
Proof.
  unfold bind_batch. intros ([] & Hq%ensure_Ok & ([] & Hb%refuse_if_Ok & [= <-])%bind_Ok)%bind_Ok. zbool.
  split_and!; [|lia|lia|done]. by destruct (rd_batches _ !! _).
Qed.

Lemma bind_batch_frame org refund order q db db' : bind_batch org refund order q db = Ok db' → R db db'.
Proof. intros (Hn & _ & ->)%bind_batch_Ok. apply (fr_receipts R signs FR); cbn; [done..|]. by apply insert_subseteq. Qed.

(** The tickets of a batch are signed for as the order's are. *)
Lemma first_signs en org order db selected id : order_identity signs en org order db → selected ⊆ order_tickets org order db →
  first_identity selected db = Ok id → ∀ k, k ∈ selected → signs en (td_tickets (ad_trail db)) k id.
Proof.
  intros Ho Hsub Hid k Hk. unfold first_identity in Hid. destruct selected as [|k1 selected]; [by apply elem_of_nil in Hk|]. cbn in Hid.
  destruct (td_tickets _ !! k1) as [t|] eqn:E; [|done]. injection Hid as <-.
  eapply Ho; [apply Hsub, list_elem_of_here|by apply Hsub|exact E].
Qed.

Lemma refund_free_sub db all n : take n (refund_free db all) ⊆ all.
Proof.
  intros k Hk. assert (k ∈ refund_free db all) as [Hin _]%elem_of_bool_filter; [|done].
  rewrite <-(take_drop n). apply elem_of_app. by left.
Qed.

Lemma RefundOrderTickets_frame en org order refund q db x : order_identity signs en org order db →
  RefundOrderTickets en org order refund q db = Ok x → R db x.1.
Proof.
  unfold RefundOrderTickets. intros Hord. destruct (q <? 1); [done|]. cbn zeta. intros (u & _ & H)%bind_Ok.
  destruct (0 <? _); [destruct (negb _); [done|by injection H as <-]|]. destruct (_ <? q); [done|].
  apply bind_Ok in H as (db1 & Hb & (id & Hid & (db2 & Ha & [= <-])%bind_Ok)%bind_Ok). cbn.
  pose proof (bind_batch_frame _ _ _ _ _ _ Hb) as Hb1. apply bind_batch_Ok in Hb as (_ & _ & ->).
  etrans; [exact Hb1|]. eapply append_all_frame; [|exact Ha]. cbn.
  eapply first_signs; [exact Hord|apply refund_free_sub|exact Hid].
Qed.

Lemma consume_trail event db db' : consume event db = Some db' → ad_trail db' = ad_trail db ∧ ad_gate db' = ad_gate db.
Proof. unfold consume. case_bool_decide; [done|]. by intros [= <-]. Qed.

Lemma order_tickets_trail org order db db' : ad_trail db' = ad_trail db → order_tickets org order db' = order_tickets org order db.
Proof. unfold order_tickets, tickets_where. by intros ->. Qed.

Lemma SwitchExchange_frame en event exchange source org ks db db' : order_identity signs en org source db → own_identity signs en →
  SwitchExchange en event exchange source org ks db = Ok db' → R db db'.
Proof.
  unfold SwitchExchange. intros Hord Hown. destruct (consume _ _) as [db1|] eqn:E; [|by intros [= <-]]. cbn zeta. destruct (_ || _); [done|].
  intros (u & _ & (id & Hid & (db2 & Ha & Hi%insertIssuedTickets_frame)%bind_Ok)%bind_Ok)%bind_Ok; [|done].
  destruct (consume_trail _ _ _ E) as [Et _]. apply append_all_frame in Ha; [frame|].
  rewrite (order_tickets_trail org source db db1 Et) in Hid |- *. unfold first_identity in Hid. rewrite Et in Hid |- *.
  by eapply first_signs.
Qed.

Lemma set_redelivery_frame q a db : R db (set_redelivery q a db).
Proof. by apply (fr_receipts R signs FR). Qed.

Lemma ClaimRedelivery_frame en org order key db x : ClaimRedelivery en org order key db = Ok x → R db x.1.
Proof.
  unfold ClaimRedelivery. cbn zeta. intros (u & _ & (u1 & _ & H)%bind_Ok)%bind_Ok.
  destruct (rd_requests _ !! _); [by apply bind_Ok in H as (? & _ & [= <-])|].
  apply bind_Ok in H as (u2 & _ & (u3 & _ & (db1 & Hf & [= <-])%bind_Ok)%bind_Ok). cbn.
  etrans; [apply set_redelivery_frame|]. eapply fold_frame; [|exact Hf]. intros d t d'. unfold insert_attempt.
  intros (? & _ & [= <-])%bind_Ok. apply set_redelivery_frame.
Qed.

Lemma MarkRedelivered_frame en org key ticket message db db' : own_identity signs en →
  MarkRedelivered en org key ticket message db = Ok db' → R db db'.
Proof.
  unfold MarkRedelivered. intros Hown. destruct (td_tickets _ !! _) as [k|] eqn:Ek; [|done]. destruct (negb _); [done|].
  destruct (rd_attempts _ !! _); [|by intros [= <-]]. destruct (_ || _); [by intros [= <-]|]. cbn zeta.
  intros (y & Hy & [= <-])%bind_Ok. etrans; [apply set_redelivery_frame|]. eapply (fr_append R signs FR); [|exact Hy]. by apply Hown.
Qed.
End Framed.
