(* ===== verification/AccessRuns.v ===== *)
(** * Runs of the access service

    Requests one after the other, each with its own configuration, clock and
    scanner, and with damage done to the tables the database does not protect. *)

From S2P Require Import Prelude Tables Sha256 Lifecycle Admission Trail Gate Reconcile TicketOps TrailRuns.
#[local] Open Scope Z_scope.

Section Runs.
Context `{UU : UUID} `{US : !UUIDSource} `{ED : Ed25519}.
Implicit Types (db : AccessDB) (en : Env) (ticket : uuid).

(** ** Requests and runs

    Damage is what a writer with access to the database, or a bug, can do to the
    tables no trigger protects: the integrity rows, the heads and what derives
    from them change at will, and events are inserted. Events and quarantine rows
    are append-only by trigger. Checkpoints, seals and the adoption of old history
    write those same tables. *)
Record Damage := {
  dm_events : gmap uuid EventRow;
  dm_integrity : gmap uuid IntegrityRow;
  dm_heads : gmap uuid HeadRow;
  dm_changes : list HeadChange;
  dm_checkpoints : list CheckpointRow;
  dm_epochs : gmap (uuid * string) EpochRow;
}.

Definition damage (d : Damage) (t : TrailDB) : TrailDB := {|
  td_tickets := td_tickets t; td_events := td_events t ∪ dm_events d; td_integrity := dm_integrity d;
  td_heads := dm_heads d; td_changes := dm_changes d; td_checkpoints := dm_checkpoints d; td_epochs := dm_epochs d |}.

Inductive AccessRequest :=
| OpIssue (event : uuid) (ks : list Ticket)
| OpDeliveryID (ticket : uuid)
| OpMarkDelivered (ticket message : uuid)
| OpScan (policy : ReEntryPolicy) (inp : RedeemInput) (direction : option AdmissionEventType)
| OpRecord (inp : RecordAdmissionInput)
| OpRefusal (ticket : uuid) (claimed : TicketIdentity) (occ : uuid) (at_ : time) (decision : string)
| OpReconcile (inp : ReconcileOccurrence)
| OpPolicy (event slot org : uuid) (p : ReEntryPolicy)
| OpMode (org : uuid) (mode : Mode) (by_ : string)
| OpRefund (org order refund : uuid) (quantity : Z)
| OpExchange (event exchange source org : uuid) (replacement : list Ticket)
| OpClaimRedelivery (org order : uuid) (key : string)
| OpMarkRedelivered (org : uuid) (key : string) (ticket message : uuid)
| OpDamage (d : Damage).

Inductive Answer :=
| AnDone
| AnID (id : uuid)
| AnScan (r : RedeemResult)
| AnRecord (e : LifecycleEvent) (replayed : bool)
| AnReconcile (r : ReconcileResult)
| AnRefund (b : TicketRefundBatch)
| AnClaim (c : RedeliveryClaim).

Abbreviation performed := (result AccessError (AccessDB * Answer)).

Definition done_ (m : result AccessError AccessDB) : performed := db ← m; Ok (db, AnDone).
Definition answering {A} (f : A → Answer) (m : result AccessError (AccessDB * A)) : performed := x ← m; Ok (x.1, f x.2).

Definition perform (en : Env) (q : AccessRequest) (db : AccessDB) : performed :=
  match q with
  | OpIssue event ks => done_ (Issue en event ks db)
  | OpDeliveryID ticket => answering AnID (DeliveryID ticket db)
  | OpMarkDelivered ticket message => done_ (MarkDelivered en ticket message db)
  | OpScan policy inp direction => answering AnScan (Scan en policy inp direction db)
  | OpRecord inp => x ← RecordAdmission en inp db; Ok (x.1.1, AnRecord x.1.2 x.2)
  | OpRefusal ticket claimed occ at_ decision => answering AnReconcile (RecordRevocationRefusal ticket claimed occ at_ decision db)
  | OpReconcile inp => answering AnReconcile (ReconcileAdmission en inp db)
  | OpPolicy event slot org p => done_ (UpsertSlotPolicy event slot org p db)
  | OpMode org mode by_ => done_ (SetMode (en_Now en) org mode by_ db)
  | OpRefund org order refund q => answering AnRefund (RefundOrderTickets en org order refund q db)
  | OpExchange event exchange source org ks => done_ (SwitchExchange en event exchange source org ks db)
  | OpClaimRedelivery org order key => answering AnClaim (ClaimRedelivery en org order key db)
  | OpMarkRedelivered org key ticket message => done_ (MarkRedelivered en org key ticket message db)
  | OpDamage d => Ok (upd_trail db (damage d (ad_trail db)), AnDone)
  end.

(** A refused operation rolls back. *)
Definition after (en : Env) (q : AccessRequest) (db : AccessDB) : AccessDB :=
  match perform en q db with Ok x => x.1 | Err _ => db end.

Abbreviation trace := (list (Env * AccessRequest)).

Fixpoint run (l : trace) (db : AccessDB) : AccessDB :=
  match l with [] => db | (en, q) :: l => run l (after en q db) end.

(** What each request of a run was answered. *)
Fixpoint answers (l : trace) (db : AccessDB) : list (AccessRequest * result AccessError Answer) :=
  match l with
  | [] => []
  | (en, q) :: l => (q, snd <$> perform en q db) :: answers l (after en q db)
  end.

Lemma access_run_app l1 l2 db : run (l1 ++ l2) db = run l2 (run l1 db).
Proof. revert db. induction l1 as [|[en q] l1 IH]; intros db; cbn; [done|apply IH]. Qed.

Lemma answers_app l1 l2 db : answers (l1 ++ l2) db = answers l1 db ++ answers l2 (run l1 db).
Proof. revert db. induction l1 as [|[en q] l1 IH]; intros db; cbn; [done|by rewrite IH]. Qed.

(** How a request's appends must be signed. *)
Definition request_signs (signs : Env → gmap uuid Ticket → uuid → TicketIdentity → Prop) (en : Env) (q : AccessRequest) (db : AccessDB) : Prop :=
  match q with
  | OpRefund org order _ _ => order_identity signs en org order db
  | OpExchange _ _ source org _ => order_identity signs en org source db ∧ own_identity signs en
  | _ => own_identity signs en
  end.

Definition is_damage (q : AccessRequest) : bool := match q with OpDamage _ => true | _ => false end.

Lemma perform_frame R signs en q db x : framed R signs → request_signs signs en q db → is_damage q = false →
  perform en q db = Ok x → R db x.1.
Proof.
  intros FR Hs Hd. destruct q; cbn in *; unfold done_, answering; intros Ho; ok_inv; cbn [fst snd].
  - by eapply Issue_frame.
  - by eapply DeliveryID_frame.
  - by eapply MarkDelivered_frame.
  - by eapply Scan_frame.
  - by eapply RecordAdmission_frame.
  - by eapply RecordRevocationRefusal_frame.
  - by eapply ReconcileAdmission_frame.
  - by eapply UpsertSlotPolicy_frame.
  - by eapply SetMode_frame.
  - by eapply RefundOrderTickets_frame.
  - destruct Hs. by eapply SwitchExchange_frame.
  - by eapply ClaimRedelivery_frame.
  - by eapply MarkRedelivered_frame.
Qed.

(** *** Everything recorded stays recorded *)

Definition any_signature (_ : Env) (_ : gmap uuid Ticket) (_ : uuid) (_ : TicketIdentity) : Prop := True.

Lemma grows_framed : framed grows any_signature.
Proof.
  split; [exact _|exact insert_alarm_grows|exact insert_quarantine_grows|..].
  - intros db g Hq Ho Hr. apply grows_gate; [by rewrite Hq|by rewrite Ho|done].
  - exact grows_receipts.
  - exact insert_ticket_grows.
  - intros en ticket id event ty at_ db x _. apply append_on_grows.
Qed.

Lemma any_request en q db : request_signs any_signature en q db.
Proof. by destruct q. Qed.

Lemma Scan_grows en policy inp direction db x : Scan en policy inp direction db = Ok x → grows db x.1.
Proof. by apply (Scan_frame _ _ grows_framed). Qed.

Lemma ReconcileAdmission_grows en inp db x : ReconcileAdmission en inp db = Ok x → grows db x.1.
Proof. by apply (ReconcileAdmission_frame _ _ grows_framed). Qed.

Lemma evaluateAlarms_grows ticket id policy db db' : evaluateAlarms ticket id policy db = Ok db' → grows db db'.
Proof. apply (evaluateAlarms_frame _ _ grows_framed). Qed.

Lemma append_all_grows en id event_id ty tickets db db' : append_all en id event_id ty tickets db = Ok db' → grows db db'.
Proof. by apply (append_all_frame _ _ grows_framed). Qed.

Lemma insertIssuedTickets_grows en ks db db' : insertIssuedTickets en ks db = Ok db' → grows db db'.
Proof. by apply (insertIssuedTickets_frame _ _ grows_framed). Qed.

Lemma perform_grows en q db x : perform en q db = Ok x → grows db x.1.
Proof.
  destruct (is_damage q) eqn:E; [|by apply (perform_frame _ _ _ _ _ _ grows_framed (any_request en q db))].
  destruct q; try done. cbn. intros [= <-]. apply grows_trail; cbn; [done|]. apply map_union_subseteq_l.
Qed.

Lemma after_grows en q db : grows db (after en q db).
Proof. unfold after. destruct (perform en q db) as [x|] eqn:E; [by eapply perform_grows|done]. Qed.

Lemma run_grows l db : grows db (run l db).
Proof. revert db. induction l as [|[en q] l IH]; intros db; cbn; [done|]. etrans; [apply after_grows|apply IH]. Qed.
End Runs.
