(* ===== verification/GateSafety.v ===== *)
(** * What the gate never does

    Over any run of the access service, from any database and with damage done to
    the chain: a ticket is let in within its allowance and at most once more on a
    chain that does not verify; an exchanged ticket was not let in before its
    exchange and is not after; a voided one is refused. *)

From S2P Require Import Prelude Tables Sha256 Lifecycle Admission Trail Gate Reconcile TicketOps TrailRuns AccessRuns.
#[local] Open Scope Z_scope.

Section Admissions.
Context `{UU : UUID} `{US : !UUIDSource} `{ED : Ed25519}.
Implicit Types (db : AccessDB) (en : Env) (ticket : uuid).
Abbreviation trace := (list (Env * AccessRequest)).

(** ** What a fresh admission is *)

Definition fresh (r : RedeemResult) : bool := rr_Accepted r && negb (rr_Replayed r).

Lemma replay_with_not_fresh matches ticket occ db r : replay_with matches ticket occ db = Ok (Some r) → fresh r = false.
Proof.
  unfold replay_with. intros Ho. repeat case_match; ok_inv; try done; by injection Ho as <-.
Qed.

Lemma deny_not_fresh en ticket id q reason db db' r : deny_quarantined en ticket id q reason db = Ok (db', r) → fresh r = false.
Proof. unfold deny_quarantined. by intros (d & _ & [= _ <-])%bind_Ok. Qed.

(** The clean admission appends the event it answers with, under the occurrence
    id when the scanner sent one. *)
Record clean_admission (policy : ReEntryPolicy) (ticket occ : uuid) (direction : AdmissionEventType) (r : RedeemResult) db db' : Prop := {
  ca_decision : rr_Decision r = DecisionAccepted;
  ca_event : ∃ event ty db1, appended ticket event ty (rr_OccurredAt r) db db1 ∧ grows db1 db' ∧
    (occ ≠ uuid_Nil → event = occ) ∧
    if IsPass policy
    then EvaluateLiveAdmission policy (admissionFacts ticket db) direction = DecisionAccepted ∧ ty = direction_type direction
    else redeemed_at ticket db = None ∧ ty = Redeemed;
}.

(** The degraded one writes the ticket's quarantine row, under the occurrence id
    too. *)
Definition recorded_degraded ticket occ (at_ : time) db : Prop :=
  ∃ q, quarantinedOccurrence occ db = Some q ∧ qr_Ticket q = ticket ∧ qr_AdmittedAt q = Some at_.

Record degraded (ticket occ : uuid) (r : RedeemResult) db db' : Prop := {
  de_decision : rr_Decision r = DecisionAdmittedDegraded;
  de_row : is_Some (degraded_row ticket db');
  de_occurrence : occ ≠ uuid_Nil → recorded_degraded ticket occ (rr_OccurredAt r) db' ∧ td_events (ad_trail db) !! occ = None;
  de_trail : ad_trail db' = ad_trail db;
}.

Lemma degraded_row_grows ticket db db' : grows db db' → is_Some (degraded_row ticket db) → is_Some (degraded_row ticket db').
Proof.
  intros [_ _ [k Hk] _ _ _ _] [q Hq]. unfold degraded_row in *. exists q. rewrite Hk. revert Hq.
  generalize (gd_quarantine (ad_gate db)). intros l. induction l as [|x l IH]; cbn; [done|]. destruct (_ && _); [done|exact IH].
Qed.

Lemma quarantine_row ticket q db db' : insert_quarantine q db = Ok db' → qr_Ticket q = ticket → is_set (qr_AdmittedAt q) = true →
  is_Some (degraded_row ticket db').
Proof.
  intros [_ ->]%insert_quarantine_Ok Ht Ha. unfold degraded_row. cbn. set (P := λ x : Quarantine, _).
  destruct (List.find P (gd_quarantine (ad_gate db))) as [o|] eqn:E.
  - exists o. apply (find_prefix P (gd_quarantine (ad_gate db))); [by apply prefix_app_r|done].
  - exists q. apply find_snoc_new; [done|]. unfold P. by rewrite bool_decide_true, Ha.
Qed.

Lemma quarantine_found q occ db db' : insert_quarantine q db = Ok db' → qr_OccurrenceID q = Some occ →
  quarantinedOccurrence occ db' = Some q.
Proof.
  intros [Hi ->]%insert_quarantine_Ok Hq. unfold quarantinedOccurrence. cbn. apply find_snoc_new; [|by rewrite bool_decide_true].
  destruct (List.find _ _) as [o|] eqn:E; [|done]. exfalso. apply List.find_some in E as [Hin Ho]. apply bool_decide_eq_true in Ho.
  unfold quarantine_insertable in Hi. zbool. rewrite forallb_forall in H2. specialize (H2 o Hin).
  rewrite Hq, (bool_decide_true _ Ho) in H2. cbn in H2. by rewrite andb_false_r in H2.
Qed.

Lemma quarantined_grows occ q db db' : grows db db' → quarantinedOccurrence occ db = Some q → quarantinedOccurrence occ db' = Some q.
Proof. intros Hg. apply find_prefix, gr_quarantine, Hg. Qed.

Lemma replay_none matches ticket occ db : replay_with matches ticket occ db = Ok None → td_events (ad_trail db) !! occ = None.
Proof. unfold replay_with. by destruct (td_events _ !! _); [destruct (_ || _)|]. Qed.

Lemma flip_mode_trail org now db : ad_trail (flip_mode org now db) = ad_trail db.
Proof. unfold flip_mode. by case_bool_decide. Qed.

Lemma degradedScan_fresh en ticket id occ direction cause db db' r :
  degradedScan en ticket id occ direction cause db = Ok (db', r) → fresh r = true →
  degraded_row ticket db = None ∧ degraded ticket occ r db db'.
Proof.
  unfold degradedScan. intros (rep & Hrep & Ho)%bind_Ok Hf. destruct rep as [r'|].
  { injection Ho as <- <-. case_bool_decide; [done|]. apply replay_with_not_fresh in Hrep. congruence. }
  destruct (degraded_row ticket db) eqn:Eq; [apply deny_not_fresh in Ho; congruence|]. split; [done|].
  case_bool_decide as Hm; [by apply bind_Ok in Ho as (d & _ & [= _ <-])|].
  unfold degraded_admission in Ho. destruct (degraded_policy en) as [th w].
  apply bind_Ok in Ho as (db1 & Hi & (db2 & Ha & [= <- <-])%bind_Ok).
  set (db1' := if _ >=? th then _ else _) in Ha.
  assert (Hg : grows db1 db2).
  { transitivity db1'; [|by eapply insert_alarm_grows]. unfold db1'. destruct (_ >=? _); [apply flip_mode_grows|done]. }
  split; [done| | |].
  - eapply degraded_row_grows; [exact Hg|]. by eapply (quarantine_row ticket).
  - intros Hocc. rewrite (bool_decide_false _ Hocc) in Hi, Hrep. split; [|by eapply replay_none].
    eexists. split; [eapply quarantined_grows; [exact Hg|by eapply quarantine_found]|done].
  - apply insert_alarm_Ok in Ha as ->. cbn. unfold db1'. destruct (_ >=? _); [rewrite flip_mode_trail|];
      by apply insert_quarantine_Ok in Hi as [_ ->].
Qed.

Lemma Scan_fresh en policy inp direction db db' r :
  Scan en policy inp direction db = Ok (db', r) → fresh r = true →
  ticketRefunded (ri_TicketID inp) db = false ∧ ticketExchanged (ri_TicketID inp) db = false ∧
  degraded_row (ri_TicketID inp) db = None ∧
  (clean_admission policy (ri_TicketID inp) (ri_OccurrenceID inp) (default AdmissionEntry direction) r db db' ∨
   degraded (ri_TicketID inp) (ri_OccurrenceID inp) r db db').
Proof.
  unfold Scan. cbn zeta. set (dir := default AdmissionEntry direction). set (ticket := ri_TicketID inp).
  case_bool_decide as H1; [done|]. destruct (IsPass policy) eqn:Ep; cbn [negb].
  - unfold admitPass. cbn zeta. case_bool_decide as H2; [by intros [= <- <-]|]. fold ticket.
    intros (u & _ & (id & _ & Ho)%bind_Ok)%bind_Ok Hf.
    destruct (ticketRefunded _ _); [by injection Ho as <- <-|]. destruct (ticketExchanged _ _); [by injection Ho as <- <-|].
    do 2 (split; [done|]). destruct (verifyTicketChain _ _ _ _).
    + unfold pass_verified in Ho. cbn zeta in Ho. fold ticket in Ho. apply bind_Ok in Ho as (rep & Hrep & Ho). destruct rep.
      { injection Ho as <- <-. apply replay_with_not_fresh in Hrep. congruence. }
      destruct (degraded_row ticket db); [apply deny_not_fresh in Ho; congruence|]. split; [done|left].
      case_bool_decide as Hv; cbn [negb] in Ho; [|by injection Ho as <- <-].
      apply bind_Ok in Ho as ([db1 at_] & Ha%append_occurrence_Ok & (db2 & He%evaluateAlarms_grows & [= <- <-])%bind_Ok).
      split; [done|]. exists (ri_OccurrenceID inp), (direction_type dir), db1. by rewrite Ep.
    + destruct (bool_decide (dir = AdmissionExit)) in Ho.
      * unfold exit_unverified in Ho. apply bind_Ok in Ho as (rep & Hrep & Ho). destruct rep.
        { injection Ho as <- <-. apply replay_with_not_fresh in Hrep. congruence. }
        apply bind_Ok in Ho as (d & _ & [= _ <-]). done.
      * apply degradedScan_fresh in Ho as [? ?]; [|done]. auto.
  - case_bool_decide as H2; [by intros [= <- <-]|]. unfold redeemSingle. cbn zeta. fold ticket.
    intros (u & _ & (id & _ & Ho)%bind_Ok)%bind_Ok Hf.
    destruct (ticketRefunded _ _); [by injection Ho as <- <-|]. destruct (ticketExchanged _ _); [by injection Ho as <- <-|].
    do 2 (split; [done|]). destruct (verifyTicketChain _ _ _ _).
    + unfold redeem_verified in Ho. cbn zeta in Ho. fold ticket in Ho. apply bind_Ok in Ho as (rep & Hrep & Ho). destruct rep.
      { injection Ho as <- <-. case_bool_decide; [done|]. apply replay_with_not_fresh in Hrep. congruence. }
      destruct (degraded_row ticket db); [apply deny_not_fresh in Ho; congruence|]. split; [done|left].
      destruct (redeemed_at ticket db) eqn:Er; [by injection Ho as <- <-|].
      apply bind_Ok in Ho as ([db1 at_] & Ha & [= <- <-]). split; [done|].
      case_bool_decide as H3; [apply append_on_Ok in Ha|apply append_occurrence_Ok in Ha];
        (do 3 eexists; split; [exact Ha|]; by rewrite Ep).
    + apply degradedScan_fresh in Ho as [? ?]; [|done]. auto.
Qed.

(** ** The allowance of a ticket *)

(** Physical entries on record: what the policy of a pass counts. *)
Definition entry_type (ty : LifecycleType) : bool := match ty with Entry | Redeemed | DuplicateAdmit => true | _ => false end.

Definition counts_entry ticket (e : EventRow) : bool := bool_decide (ev_Ticket e = ticket) && entry_type (ev_Type e).

Definition quarantine_entry ticket (q : Quarantine) : bool :=
  bool_decide (qr_Ticket q = ticket) &&
  match qr_Type q with Entry | Redeemed => true | Exit => false | _ => is_set (qr_AdmittedAt q) end.

Definition entries ticket db : Z :=
  total (λ e, if counts_entry ticket e then 1 else 0) (td_events (ad_trail db)) +
  Z.of_nat (length (List.filter (quarantine_entry ticket) (gd_quarantine (ad_gate db)))).

Definition redemptions ticket db : Z :=
  total (λ e, if bool_decide (ev_Ticket e = ticket) && bool_decide (ev_Type e = Redeemed) then 1 else 0) (td_events (ad_trail db)).

(** What a policy has let in, of what it lets in at all. *)
Definition used (policy : ReEntryPolicy) ticket db : Z := if IsPass policy then entries ticket db else redemptions ticket db.

Definition allowance (policy : ReEntryPolicy) : option Z :=
  match re_Mode policy with Single => Some 1 | Multi => None | CountLimited => re_MaxEntries policy end.

Definition entry_fact (f : AdmissionFact) : bool := negb (bool_decide (fa_Type f = AdmissionExit)).

Lemma filter_filter {A} (f g : A → bool) l : List.filter f (List.filter g l) = List.filter (λ x, g x && f x) l.
Proof. induction l as [|x l IH]; cbn; [done|]. destruct (g x); cbn; [|done]. destruct (f x); by rewrite IH. Qed.

Lemma entries_facts ticket db : Z.of_nat (length (List.filter entry_fact (admissionFacts ticket db))) = entries ticket db.
Proof.
  unfold admissionFacts. rewrite List.filter_app, length_app, Nat2Z.inj_add. unfold entries. f_equal.
  - rewrite <-count_rows. unfold trail_facts.
    rewrite (bool_filter_map (λ p : uuid * EventRow, negb (bool_decide (fact_type (ev_Type p.2) = AdmissionExit)))) by done.
    rewrite length_map, filter_filter. do 2 f_equal. apply List.filter_ext. intros [k e]. cbn. unfold counts_entry.
    by destruct (bool_decide _), (ev_Type e).
  - unfold quarantine_facts.
    rewrite (bool_filter_map (λ q, negb (bool_decide (fact_type (qr_Type q) = AdmissionExit)))) by done.
    rewrite length_map, filter_filter. do 2 f_equal. apply List.filter_ext. intros q. unfold quarantine_entry.
    by destruct (bool_decide _), (is_set _), (qr_Type q).
Qed.

Lemma live_entries l w : wk_entries (foldl liveStep w l) = wk_entries w + Z.of_nat (length (List.filter entry_fact l)).
Proof.
  revert w. induction l as [|f l IH]; intros w; cbn [foldl List.filter]; [cbn; lia|]. rewrite IH. unfold liveStep, entry_fact.
  destruct (fa_Type f); first [rewrite bool_decide_true by done|rewrite bool_decide_false by done]; cbn; lia.
Qed.

Lemma ordered_entries ticket db w :
  wk_entries (foldl liveStep w (orderFacts (admissionFacts ticket db))) = wk_entries w + entries ticket db.
Proof. rewrite live_entries, <-entries_facts. unfold orderFacts. by rewrite (isort_perm fact_before). Qed.

Lemma verdict_entries policy ticket db n :
  EvaluateLiveAdmission policy (admissionFacts ticket db) AdmissionEntry = DecisionAccepted →
  IsPass policy = true → allowance policy = Some n → entries ticket db < n.
Proof.
  unfold EvaluateLiveAdmission, allowance, IsPass, over_limit. cbn zeta. rewrite bool_decide_false by done.
  rewrite ordered_entries. cbn [wk_entries]. intros Hv Hp Ha. destruct (re_Mode policy); [done|done|].
  rewrite bool_decide_true, Ha in Hv by done. cbn [andb] in Hv. revert Hv.
  destruct (Z.geb_spec (0 + entries ticket db) n) as [|Hlt]; [done|]. intros _. lia.
Qed.

Lemma count_grows (f : EventRow → bool) db db' : grows db db' →
  total (λ e, if f e then 1 else 0) (td_events (ad_trail db)) ≤ total (λ e, if f e then 1 else 0) (td_events (ad_trail db')).
Proof. intros Hg. apply total_subseteq; [intros r; by destruct (f r)|apply gr_events, Hg]. Qed.

Lemma used_grows policy ticket db db' : grows db db' → used policy ticket db ≤ used policy ticket db'.
Proof.
  intros Hg. unfold used, entries, redemptions. destruct (IsPass policy); [|by apply count_grows].
  pose proof (count_grows (counts_entry ticket) db db' Hg). destruct (gr_quarantine _ _ Hg) as [k Hk].
  rewrite Hk, List.filter_app, length_app. lia.
Qed.

Lemma used_appended policy ticket event ty at_ db db' :
  appended ticket event ty at_ db db' → (if IsPass policy then ty = Entry else ty = Redeemed) →
  used policy ticket db' = used policy ticket db + 1.
Proof.
  intros [_ Hn _ _ He Hg _] Hty. unfold used, entries, redemptions, counts_entry. rewrite He, Hg.
  destruct (IsPass policy); subst ty; rewrite total_fresh by done; cbn; rewrite !bool_decide_true by done; cbn; lia.
Qed.

Lemma no_redemption ticket db : redeemed_at ticket db = None → redemptions ticket db = 0.
Proof.
  unfold redeemed_at, redemptions. intros Hr. rewrite <-count_rows.
  set (f := λ e, _) in Hr. unfold rows_where in Hr. rewrite (bool_filter_map (λ p : uuid * EventRow, f p.2)) in Hr by done.
  unfold f in Hr. by destruct (List.filter _ _).
Qed.

(** ** Admissions of a run *)

(** A first-time answer that let the holder of a ticket in. *)
Definition live_admission ticket (x : AccessRequest * result AccessError Answer) : option Decision :=
  match x with
  | (OpScan _ inp direction, Ok (AnScan r)) =>
      if bool_decide (ri_TicketID inp = ticket) && negb (bool_decide (default AdmissionEntry direction = AdmissionExit)) && fresh r
      then Some (rr_Decision r) else None
  | _ => None
  end.

Definition live_admissions ticket (l : trace) db : list Decision := omap (live_admission ticket) (answers l db).

(** Every scan of the ticket obeyed one policy. *)
Definition scanned_under ticket (policy : ReEntryPolicy) (l : trace) : Prop :=
  ∀ en p inp direction, (en, OpScan p inp direction) ∈ l → ri_TicketID inp = ticket → p = policy.

Lemma live_admissions_cons ticket en q l db :
  live_admissions ticket ((en, q) :: l) db =
  option_list (live_admission ticket (q, snd <$> perform en q db)) ++ live_admissions ticket l (after en q db).
Proof. unfold live_admissions. cbn. by case_match. Qed.

(** A first-time admission of a run's first request, and where it leaves the ticket. *)
Lemma live_admission_step ticket en q db d :
  live_admission ticket (q, snd <$> perform en q db) = Some d →
  ticketRefunded ticket db = false ∧ ticketExchanged ticket db = false ∧ degraded_row ticket db = None ∧
  ∃ policy inp direction r, q = OpScan policy inp direction ∧ ri_TicketID inp = ticket ∧ rr_Decision r = d ∧
    (clean_admission policy ticket (ri_OccurrenceID inp) AdmissionEntry r db (after en q db) ∨
     degraded ticket (ri_OccurrenceID inp) r db (after en q db)).
Proof.
  destruct q as [| | |policy inp direction| | | | | | | | | |]; cbn [live_admission]; try done. unfold after. cbn [perform].
  unfold answering. destruct (Scan en policy inp direction db) as [[db' r]|] eqn:E; [|done].
  cbn. destruct (_ && _) eqn:Ec; [|done]. intros [= <-]. zbool. subst ticket.
  pose proof (Scan_fresh en policy inp direction db db' r E H0) as (H2 & H3 & H4 & H5). split_and!; [done..|].
  exists policy, inp, direction, r. split_and!; [done..|].
  destruct (default AdmissionEntry direction) eqn:Ed; [done| |].
  - done.
  - unfold Scan in E. cbn zeta in E. rewrite Ed in E. by rewrite bool_decide_true in E.
Qed.

Lemma scanned_under_tail ticket policy x l : scanned_under ticket policy (x :: l) → scanned_under ticket policy l.
Proof. intros Hs en p inp direction Hin. by eapply Hs, list_elem_of_further. Qed.

Lemma after_degraded ticket l : ∀ db, is_Some (degraded_row ticket db) → live_admissions ticket l db = [].
Proof.
  induction l as [|[en q] l IH]; intros db Hd; [done|]. rewrite live_admissions_cons.
  destruct (live_admission _ _) as [d|] eqn:E.
  - apply live_admission_step in E as (_ & _ & Hn & _). rewrite Hn in Hd. by destruct Hd.
  - cbn. apply IH. eapply degraded_row_grows; [apply after_grows|done].
Qed.

(** C14 (safety). The gate lets a ticket in within its allowance: once for a single-entry
    slot, the allowed number of times for a counted pass, whatever happens to the
    chain and however the requests of a run are mixed; one more admission is
    possible, the last, on a chain that does not verify. *)
Theorem gate_admits_within_allowance ticket policy n l db :
  allowance policy = Some n → 0 ≤ n → scanned_under ticket policy l →
  ∃ clean degraded : nat, Z.of_nat clean ≤ n ∧ (degraded ≤ 1)%nat ∧
    live_admissions ticket l db = replicate clean DecisionAccepted ++ replicate degraded DecisionAdmittedDegraded.
Proof.
  intros Ha Hn. enough (Hg : ∀ l db, scanned_under ticket policy l → ∃ clean degraded : nat,
    Z.of_nat clean ≤ Z.max 0 (n - used policy ticket db) ∧ (degraded ≤ 1)%nat ∧
    live_admissions ticket l db = replicate clean DecisionAccepted ++ replicate degraded DecisionAdmittedDegraded).
  { intros Hs. destruct (Hg l db Hs) as (c & d & Hc & Hd & Hl). exists c, d. split_and!; [|done..].
    enough (0 ≤ used policy ticket db) by lia. unfold used, entries, redemptions.
    assert (Hp : ∀ f : EventRow → bool, 0 ≤ total (λ e, if f e then 1 else 0) (td_events (ad_trail db))).
    { intros f. apply total_nonneg. intros i r _. by destruct (f r). }
    pose proof (Hp (counts_entry ticket)). destruct (IsPass policy); [lia|apply Hp]. }
  clear l db. induction l as [|[en q] l IH]; intros db Hs; [exists 0%nat, 0%nat; split_and!; [lia|lia|done]|].
  rewrite live_admissions_cons. pose proof (used_grows policy ticket _ _ (after_grows en q db)) as Hu.
  destruct (IH (after en q db) (scanned_under_tail _ _ _ _ Hs)) as (c & d & Hc & Hd & Hl).
  destruct (live_admission ticket _) as [dec|] eqn:E; [|exists c, d; cbn; split_and!; [lia|done..]].
  apply live_admission_step in E as (_ & _ & _ & p & inp & direction & r & -> & Ht & <- & [Hca|Hde]).
  - destruct Hca as [Hdec (event & ty & db1 & Hap & Hg1 & _ & Hv)].
    assert (p = policy) as -> by (eapply Hs; [apply list_elem_of_here|done]).
    exists (S c), d. rewrite Hdec, Hl. split_and!; [|done|done].
    assert (used policy ticket db < n ∧ used policy ticket db1 = used policy ticket db + 1) as [Hlt Hone].
    { destruct (IsPass policy) eqn:Ep.
      - destruct Hv as [Hv ->]. split; [unfold used; rewrite Ep; by eapply verdict_entries|].
        eapply used_appended; [exact Hap|by rewrite Ep].
      - destruct Hv as [Hv ->]. split; [|eapply used_appended; [exact Hap|by rewrite Ep]].
        unfold used. rewrite Ep, (no_redemption ticket db Hv). unfold allowance in Ha.
        unfold IsPass in Ep. destruct (re_Mode policy); [injection Ha as <-; lia|done|done]. }
    pose proof (used_grows policy ticket _ _ Hg1). lia.
  - destruct Hde as [Hdec Hrow _ _]. rewrite (after_degraded ticket l _ Hrow). exists 0%nat, 1%nat. rewrite Hdec. split_and!; [lia|lia|done].
Qed.

(** ** Voided tickets *)

Definition ticket_voided ticket db : Prop := ticketCommerciallyVoid ticket db = true.

Lemma voided_grows ticket db db' : grows db db' → ticket_voided ticket db → ticket_voided ticket db'.
Proof.
  unfold ticket_voided, ticketCommerciallyVoid, ticketRefunded, ticketExchanged, has_event. intros Hg.
  rewrite !orb_true_iff. intros [Hv|Hv]; [left|right]; (eapply some_row_subseteq; [apply gr_events, Hg|exact Hv]).
Qed.

Lemma after_voided ticket l : ∀ db, ticket_voided ticket db → live_admissions ticket l db = [].
Proof.
  induction l as [|[en q] l IH]; intros db Hd; [done|]. rewrite live_admissions_cons.
  destruct (live_admission _ _) as [d|] eqn:E.
  - apply live_admission_step in E as (Hr & Hx & _). unfold ticket_voided, ticketCommerciallyVoid in Hd. by rewrite Hr, Hx in Hd.
  - cbn. apply IH. eapply voided_grows; [apply after_grows|done].
Qed.

Lemma union_grows ticket db db' : grows db db' → ticketAdmittedUnion ticket db = true → ticketAdmittedUnion ticket db' = true.
Proof.
  unfold ticketAdmittedUnion. intros Hg. rewrite !orb_true_iff. intros [Hv|Hv]; [left|right].
  - eapply some_row_subseteq; [apply gr_events, Hg|exact Hv].
  - destruct (gr_quarantine _ _ Hg) as [k ->]. by rewrite existsb_app, Hv.
Qed.

Lemma admission_recorded ticket en q db d :
  live_admission ticket (q, snd <$> perform en q db) = Some d → ticketAdmittedUnion ticket (after en q db) = true.
Proof.
  intros E. apply live_admission_step in E as (_ & _ & _ & p & inp & direction & r & -> & Ht & <- & [Hca|Hde]).
  - destruct Hca as [_ (event & ty & db1 & [_ _ _ _ He _ _] & Hg & _ & Hv)]. eapply union_grows; [exact Hg|].
    unfold ticketAdmittedUnion. apply orb_true_iff. left. apply some_row_true.
    exists event, {| ev_Ticket := ticket; ev_Type := ty; ev_OccurredAt := rr_OccurredAt r |}. rewrite He, lookup_insert_eq. split; [done|].
    cbn. rewrite bool_decide_true by done. destruct (IsPass p); by destruct Hv as [_ ->].
  - destruct Hde as [_ [o Ho] _ _]. unfold degraded_row in Ho. apply List.find_some in Ho as [Hin Hq]. zbool.
    unfold ticketAdmittedUnion. apply orb_true_iff. right. apply existsb_exists. exists o. split; [done|]. cbn in *. subst.
    rewrite bool_decide_true by done. by rewrite H0.
Qed.

Lemma not_admitted_before ticket l : ∀ db, ticketAdmittedUnion ticket (run l db) = false → live_admissions ticket l db = [].
Proof.
  induction l as [|[en q] l IH]; intros db Hu; [done|]. rewrite live_admissions_cons. cbn in Hu.
  destruct (live_admission _ _) as [d|] eqn:E; [|by apply IH]. apply admission_recorded in E.
  apply (union_grows _ _ _ (run_grows l _)) in E. congruence.
Qed.

(** ** Exchanges *)

Lemma check_sources_Ok source db u : check_sources source db = Ok u →
  ∀ k, k ∈ source → ticketCommerciallyVoid k db = false ∧ ticketAdmittedUnion k db = false.
Proof.
  induction source as [|x source IH]; cbn; [by intros _ k ?%elem_of_nil|].
  destruct (ticketCommerciallyVoid x db) eqn:Ev; [done|]. destruct (ticketAdmittedUnion x db) eqn:Ea; [done|].
  intros Ho k [->|Hk]%elem_of_cons; [done|by apply IH].
Qed.

Lemma appended_has_event ticket event ty at_ db db' : appended ticket event ty at_ db db' → has_event ticket ty (ad_trail db') = true.
Proof.
  intros Ha. unfold has_event. apply some_row_true. exists event, {| ev_Ticket := ticket; ev_Type := ty; ev_OccurredAt := at_ |}.
  rewrite (ap_events _ _ _ _ _ _ Ha), lookup_insert_eq. split; [done|]. cbn. by rewrite !bool_decide_true.
Qed.

Lemma has_event_grows ticket ty db db' : grows db db' → has_event ticket ty (ad_trail db) = true → has_event ticket ty (ad_trail db') = true.
Proof. intros Hg. apply some_row_subseteq, gr_events, Hg. Qed.

Lemma append_all_Ok en id event_id ty tickets : ∀ db db', append_all en id event_id ty tickets db = Ok db' →
  ∀ k, k ∈ tickets → has_event k ty (ad_trail db') = true.
Proof.
  induction tickets as [|x tickets IH]; intros db db' Ho k Hk; [by apply elem_of_nil in Hk|]. cbn [append_all fold_result] in Ho.
  destruct (append_on _ _ _ _ _ _ _) as [[db1 at_]|] eqn:E; [|done]. cbn [mbind result_bind] in Ho.
  apply elem_of_cons in Hk as [->|Hk]; [|by eapply IH]. apply append_on_Ok, appended_has_event in E.
  eapply has_event_grows; [|exact E]. by eapply append_all_grows.
Qed.

Lemma insertIssuedTickets_Ok en ks : ∀ db db', insertIssuedTickets en ks db = Ok db' →
  ∀ k, k ∈ ks → td_tickets (ad_trail db') !! tk_ID k = Some (stored_ticket k) ∧ has_event (tk_ID k) Issued (ad_trail db') = true.
Proof.
  induction ks as [|x ks IH]; intros db db' Ho k Hk; [by apply elem_of_nil in Hk|].
  unfold insertIssuedTickets in Ho. cbn [fold_result] in Ho. destruct (insertIssuedTicket en x db) as [db1|] eqn:E; [|done].
  apply elem_of_cons in Hk as [->|Hk]; [|by eapply IH]. pose proof (insertIssuedTickets_grows en ks db1 db' Ho) as Hg.
  unfold insertIssuedTicket in E. apply bind_Ok in E as (db2 & (_ & _ & ->)%insert_ticket_Ok & ([db3 at_] & Ha%append_on_Ok & [= <-])%bind_Ok).
  cbn in Hg. split.
  - eapply lookup_weaken; [|apply gr_tickets, Hg]. rewrite (ap_tickets _ _ _ _ _ _ Ha). cbn. apply lookup_insert_eq.
  - eapply has_event_grows; [exact Hg|]. by eapply appended_has_event.
Qed.

(** A switch that was not a redelivery: nothing voided and nobody let in before,
    every source ticket voided and every replacement issued after. *)
Lemma SwitchExchange_Ok en event exchange source org ks db db' :
  SwitchExchange en event exchange source org ks db = Ok db' → Consumed event db = false →
  (length ks ≤ length (order_tickets org source db))%nat ∧
  (∀ k, k ∈ order_tickets org source db →
    ticketCommerciallyVoid k db = false ∧ ticketAdmittedUnion k db = false ∧ ticketExchanged k db' = true) ∧
  (∀ t, t ∈ ks → td_tickets (ad_trail db') !! tk_ID t = Some (stored_ticket t) ∧ has_event (tk_ID t) Issued (ad_trail db') = true).
Proof.
  unfold SwitchExchange, Consumed. intros Ho Hc. destruct (consume event db) as [db1|] eqn:E.
  2: { unfold consume in E. by rewrite Hc in E. }
  apply consume_trail in E as [Et Eg]. cbn zeta in Ho. rewrite (order_tickets_trail org source db db1 Et) in Ho.
  destruct (_ || _) eqn:El; [done|]. apply orb_false_iff in El as [_ El%Nat.ltb_ge].
  apply bind_Ok in Ho as (u & Hs & (id & _ & (db2 & Ha & Hi)%bind_Ok)%bind_Ok). split; [done|]. split.
  - intros k Hk. destruct (check_sources_Ok _ _ _ Hs k Hk) as [Hv Hu].
    unfold ticketCommerciallyVoid, ticketRefunded, ticketExchanged, ticketAdmittedUnion in *. rewrite Et, Eg in *.
    split_and!; [done..|]. eapply has_event_grows; [by eapply insertIssuedTickets_grows|]. by eapply append_all_Ok.
  - intros t Ht. by eapply insertIssuedTickets_Ok.
Qed.

(** C37 (safety). An exchange admits one side. A ticket whose order is exchanged was let in at
    no live gate before the switch, is let in at none after it, whatever else the
    run does and whatever damage is done to the chain; the replacements exist and
    are issued from the switch on, and are no more than what they replace. *)
Theorem exchange_admits_one_side en event exchange source org ks l1 l2 db db' :
  let switch := (en, OpExchange event exchange source org ks) in
  SwitchExchange en event exchange source org ks (run l1 db) = Ok db' → Consumed event (run l1 db) = false →
  (∀ k, k ∈ order_tickets org source (run l1 db) → live_admissions k (l1 ++ switch :: l2) db = []) ∧
  (∀ t, t ∈ ks → td_tickets (ad_trail db') !! tk_ID t = Some (stored_ticket t) ∧ has_event (tk_ID t) Issued (ad_trail db') = true) ∧
  (length ks ≤ length (order_tickets org source (run l1 db)))%nat.
Proof.
  intros switch Ho Hc. destruct (SwitchExchange_Ok _ _ _ _ _ _ _ _ Ho Hc) as (Hlen & Hsrc & Hks). split_and!; [|done..].
  intros k Hk. destruct (Hsrc k Hk) as (_ & Hu & Hx). unfold live_admissions. rewrite answers_app, omap_app.
  change (live_admissions k l1 db ++ live_admissions k (switch :: l2) (run l1 db) = []).
  rewrite (not_admitted_before k l1 db Hu). unfold switch. rewrite live_admissions_cons. cbn [live_admission option_list app].
  apply after_voided. unfold after. cbn [perform]. unfold done_. rewrite Ho. cbn.
  unfold ticket_voided, ticketCommerciallyVoid. rewrite Hx. apply orb_true_r.
Qed.
End Admissions.

(** ** A day at the gate

    Order 20 has tickets 1 and 3 of slot 30. Ticket 1 is scanned, the chains are
    damaged, and it is scanned twice again. *)
#[local] Existing Instances number_uuid number_source mac_ed25519.

Definition door_signer : Signer := {| sg_seed := "seed"; sg_kid := "access-lifecycle/k1" |}.
Definition door_ring : Keyring := {| lk_keys := {["access-lifecycle/k1"%string := ed_PublicKey "seed"]} |}.

Definition noon : time := 1709210096000000000.

Definition door (n : Z) : Env := {|
  en_Signer := Some door_signer; en_Keyring := Some door_ring; en_FailureThreshold := 0; en_Window := 0;
  en_Now := noon + n * 1000000; en_AlarmNow := noon + n * 1000000; en_DBNow := noon + n * 1000000;
  en_AlarmID := Z.to_N (1000 + n); en_QuarantineID := Z.to_N (2000 + n) |}.

Definition door_ticket (n order : N) : Ticket := {|
  tk_ID := n : uuid; tk_OrderID := order : uuid; tk_GuestOrderRef := 0%N : uuid; tk_OrganizerID := 10%N : uuid; tk_BuyerID := 11%N : uuid;
  tk_SlotID := 30%N : uuid; tk_TicketTypeID := 31%N : uuid; tk_SeatIdentity := None; tk_Payload := "qr"; tk_IssuedAt := noon |}.

Definition show_ticket (n : N) (order occ : N) : AccessRequest :=
  OpScan single_policy {| ri_TicketID := n : uuid; ri_Identity := identity (door_ticket n order); ri_OccurrenceID := occ : uuid; ri_OccurredAt := noon |} None.

Definition empty_access : AccessDB := {|
  ad_trail := {| td_tickets := ∅; td_events := ∅; td_integrity := ∅; td_heads := ∅; td_changes := []; td_checkpoints := []; td_epochs := ∅ |};
  ad_gate := {| gd_quarantine := []; gd_modes := ∅; gd_outbox := []; gd_conflicts := ∅; gd_policies := ∅; gd_refusals := ∅ |};
  ad_receipts := {| rd_consumed := ∅; rd_batches := ∅; rd_deliveries := ∅; rd_requests := ∅; rd_attempts := ∅ |} |}.

Definition heads_lost : Damage := {| dm_events := ∅; dm_integrity := ∅; dm_heads := ∅; dm_changes := []; dm_checkpoints := []; dm_epochs := ∅ |}.

Definition doors_open : list (Env * AccessRequest) :=
  [(door 0, OpIssue (50%N : uuid) [door_ticket 1 20; door_ticket 3 20]); (door 1, show_ticket 1 20 101)].

Definition door_day : list (Env * AccessRequest) :=
  doors_open ++ [(door 2, OpDamage heads_lost); (door 3, show_ticket 1 20 103); (door 4, show_ticket 1 20 105)].

Lemma gate_admits_within_allowance_witness :
  live_admissions (1%N : uuid) door_day empty_access = [DecisionAccepted; DecisionAdmittedDegraded] ∧
  ∃ clean degraded : nat, Z.of_nat clean ≤ 1 ∧ (degraded ≤ 1)%nat ∧
    live_admissions (1%N : uuid) door_day empty_access = replicate clean DecisionAccepted ++ replicate degraded DecisionAdmittedDegraded.
Proof.
  assert (H : live_admissions (1%N : uuid) door_day empty_access = [DecisionAccepted; DecisionAdmittedDegraded]) by (vm_compute; reflexivity).
  refine (conj H (gate_admits_within_allowance (1%N : uuid) single_policy 1 door_day empty_access eq_refl _ _)); [lia|].
  intros en p inp direction Hin _. set (scan_policy := λ x : Env * AccessRequest, match x.2 with OpScan p' _ _ => Some p' | _ => None end).
  apply (list_elem_of_fmap_2 scan_policy) in Hin. change (scan_policy <$> door_day) with
    [None; Some single_policy; None; Some single_policy; Some single_policy] in Hin.
  change (scan_policy (en, OpScan p inp direction)) with (Some p) in Hin. clear H.
  repeat (apply elem_of_cons in Hin as [Hin|Hin]; [first [discriminate Hin|injection Hin as ->; reflexivity]|]). by apply elem_of_nil in Hin.
Defined.

(** Order 20 is exchanged for order 21, which gets ticket 5. *)
Definition swap : Env * AccessRequest := (door 2, OpExchange (51%N : uuid) (60%N : uuid) (20%N : uuid) (10%N : uuid) [door_ticket 5 21]).

Definition doors_closed : list (Env * AccessRequest) := take 1 doors_open.
Definition after_swap : list (Env * AccessRequest) := [(door 3, show_ticket 1 20 103); (door 4, show_ticket 5 21 105)].

Lemma exchange_admits_one_side_witness :
  live_admissions (5%N : uuid) (doors_closed ++ swap :: after_swap) empty_access = [DecisionAccepted] ∧
  live_admissions (1%N : uuid) (doors_closed ++ swap :: after_swap) empty_access = [].
Proof.
  assert (H : live_admissions (5%N : uuid) (doors_closed ++ swap :: after_swap) empty_access = [DecisionAccepted]) by (vm_compute; reflexivity).
  assert (H1 : is_ok (SwitchExchange (door 2) (51%N : uuid) (60%N : uuid) (20%N : uuid) (10%N : uuid) [door_ticket 5 21] (run doors_closed empty_access)) = true)
    by (vm_compute; reflexivity).
  assert (H2 : Consumed (51%N : uuid) (run doors_closed empty_access) = false) by (vm_compute; reflexivity).
  assert (H3 : order_tickets (10%N : uuid) (20%N : uuid) (run doors_closed empty_access) = [1%N; 3%N]) by (vm_compute; reflexivity).
  destruct (SwitchExchange _ _ _ _ _ _ _) as [swapped|] eqn:E; [|discriminate H1].
  refine (conj H (proj1 (exchange_admits_one_side (door 2) (51%N : uuid) (60%N : uuid) (20%N : uuid) (10%N : uuid) [door_ticket 5 21]
    doors_closed after_swap empty_access swapped E H2) (1%N : uuid) _)).
  rewrite H3. apply list_elem_of_here.
Defined.
