(* ===== verification/Retries.v ===== *)
(** * Retries and offline records

    A scanner that lost the answer sends the scan again, and one that was offline
    sends its record when it is back: what the gate answers then, and what
    reconciliation writes. *)

From S2P Require Import Prelude Tables Sha256 Lifecycle Admission Trail Gate Reconcile TicketOps TrailRuns AccessRuns GateSafety.
#[local] Open Scope Z_scope.

Section Retries.
Context `{UU : UUID} `{US : !UUIDSource} `{ED : Ed25519}.
Implicit Types (db : AccessDB) (en : Env) (ticket occ : uuid).

(** ** Retries of a live scan *)

(** What a first-time admission left under its occurrence id. *)
Definition recorded_clean ticket occ (direction : AdmissionEventType) (at_ : time) db : Prop :=
  ∃ ty, td_events (ad_trail db) !! occ = Some {| ev_Ticket := ticket; ev_Type := ty; ev_OccurredAt := at_ |} ∧
        gate_matches direction ty = true.

Definition recorded ticket occ direction (r : RedeemResult) db : Prop :=
  (rr_Decision r = DecisionAccepted ∧ recorded_clean ticket occ direction (rr_OccurredAt r) db) ∨
  (rr_Decision r = DecisionAdmittedDegraded ∧ recorded_degraded ticket occ (rr_OccurredAt r) db ∧
   td_events (ad_trail db) !! occ = None).

(** The same answer, marked as a replay. *)
Definition replayed (r : RedeemResult) : RedeemResult := replay_of (rr_Decision r) (rr_OccurredAt r).

Lemma pass_matches_gate direction ty : gate_matches direction ty = true → pass_matches direction ty = true.
Proof. by destruct direction, ty. Qed.

Lemma replay_recorded matches ticket occ direction r db :
  (∀ ty, gate_matches direction ty = true → matches ty = true) → recorded ticket occ direction r db →
  replay_with matches ticket occ db = Ok (Some (replayed r)).
Proof.
  intros Hm [[Hd (ty & He & Hty)]|(Hd & (q & Hq & Ht & Ha) & He)]; unfold replay_with, replayed; rewrite He, Hd.
  - cbn. rewrite bool_decide_true by done. by rewrite (Hm ty Hty).
  - rewrite Hq, Ht, bool_decide_true, Ha by done. done.
Qed.

Lemma lock_ticket_grows ticket claimed db db' id : grows db db' →
  lock_ticket ticket claimed db = Ok id → lock_ticket ticket claimed db' = Ok id.
Proof.
  intros Hg (-> & k & Hk & Hi)%lock_ticket_Ok. unfold lock_ticket.
  by rewrite (lookup_weaken _ _ _ _ Hk (gr_tickets _ _ Hg)), Hi, bool_decide_true.
Qed.

(** What a scan that let someone in had checked. *)
Lemma Scan_checked en policy inp direction db db' r :
  Scan en policy inp direction db = Ok (db', r) → fresh r = true → ri_OccurrenceID inp ≠ uuid_Nil →
  check_occurrence (ri_OccurrenceID inp) (ri_OccurredAt inp) = Ok tt ∧
  lock_ticket (ri_TicketID inp) (ri_Identity inp) db = Ok (ri_Identity inp) ∧
  default AdmissionEntry direction ≠ AdmissionDuplicateAdmit ∧
  (IsPass policy = false → default AdmissionEntry direction = AdmissionEntry).
Proof.
  unfold Scan. cbn zeta. case_bool_decide as H1; [done|]. intros Ho Hf Hocc.
  enough (check_occurrence (ri_OccurrenceID inp) (ri_OccurredAt inp) = Ok tt ∧
    ∃ id, lock_ticket (ri_TicketID inp) (ri_Identity inp) db = Ok id) as [Hck [id Hid]].
  { split; [done|]. split; [|split; [done|]].
    - by pose proof (lock_ticket_Ok _ _ _ _ Hid) as [-> _].
    - intros Ep. rewrite Ep in Ho. cbn [negb] in Ho. destruct (default AdmissionEntry direction); try done.
      rewrite bool_decide_true in Ho by done. by injection Ho as <- <-. }
  destruct (negb (IsPass policy)).
  - case_bool_decide as H2; [by injection Ho as <- <-|]. unfold redeemSingle in Ho. cbn zeta in Ho.
    rewrite (bool_decide_false _ Hocc) in Ho. apply bind_Ok in Ho as ([] & Hck & (id & Hid & _)%bind_Ok). eauto.
  - unfold admitPass in Ho. cbn zeta in Ho. rewrite (bool_decide_false _ Hocc) in Ho.
    apply bind_Ok in Ho as ([] & Hck & (id & Hid & _)%bind_Ok). eauto.
Qed.

Lemma Scan_recorded en policy inp direction db db' r :
  Scan en policy inp direction db = Ok (db', r) → fresh r = true → ri_OccurrenceID inp ≠ uuid_Nil →
  recorded (ri_TicketID inp) (ri_OccurrenceID inp) (default AdmissionEntry direction) r db'.
Proof.
  intros Ho Hf Hocc. destruct (Scan_checked _ _ _ _ _ _ _ Ho Hf Hocc) as (_ & _ & Hd & Hs).
  destruct (Scan_fresh _ _ _ _ _ _ _ Ho Hf) as (_ & _ & _ & [[Hdec (event & ty & db1 & Hap & Hg & He & Hv)]|[Hdec _ Hrec Htr]]).
  - left. split; [done|]. exists ty. rewrite (He Hocc) in Hap. split.
    + eapply lookup_weaken; [|apply gr_events, Hg]. rewrite (ap_events _ _ _ _ _ _ Hap). apply lookup_insert_eq.
    + destruct (IsPass policy); destruct Hv as [_ ->]; [|by rewrite Hs]. by destruct (default _ _).
  - right. destruct (Hrec Hocc) as [Hq He]. by rewrite Htr.
Qed.

Lemma recorded_grows ticket occ direction r db db' :
  grows db db' → (rr_Decision r = DecisionAdmittedDegraded → td_events (ad_trail db') !! occ = None) →
  recorded ticket occ direction r db → recorded ticket occ direction r db'.
Proof.
  intros Hg Hn [[Hd (ty & He & Hty)]|(Hd & (q & Hq & Ht & Ha) & He)]; [left|right].
  - split; [done|]. exists ty. split; [|done]. eapply lookup_weaken; [exact He|apply gr_events, Hg].
  - split; [done|]. split; [|by apply Hn]. exists q. split; [|done]. by eapply quarantined_grows.
Qed.

(** A scan is retried safely. Once an occurrence let someone in, sending the same
    scan again at any later moment answers that admission as a replay, with the
    same decision and time, and changes nothing: whatever the chain, the policy,
    the keys and the quarantine are by then, as long as the ticket is not voided
    and, for an admission that only the quarantine records, no event took its id. *)
Theorem scan_retry_replays en policy inp direction db db1 r :
  Scan en policy inp direction db = Ok (db1, r) → fresh r = true → ri_OccurrenceID inp ≠ uuid_Nil →
  ∀ en' policy' db2, grows db1 db2 →
    (default AdmissionEntry direction = AdmissionExit → IsPass policy' = true) →
    ticketCommerciallyVoid (ri_TicketID inp) db2 = false →
    (rr_Decision r = DecisionAdmittedDegraded → td_events (ad_trail db2) !! ri_OccurrenceID inp = None) →
    Scan en' policy' inp direction db2 = Ok (db2, replayed r).
Proof.
  intros Ho Hf Hocc en' policy' db2 Hg Hx Hv Hn.
  destruct (Scan_checked _ _ _ _ _ _ _ Ho Hf Hocc) as (Hck & Hlock & Hd & _).
  pose proof (recorded_grows _ _ _ _ _ _ Hg Hn (Scan_recorded _ _ _ _ _ _ _ Ho Hf Hocc)) as Hrec.
  pose proof (lock_ticket_grows _ _ _ _ _ (transitivity (Scan_grows _ _ _ _ _ _ Ho) Hg) Hlock) as Hlock2.
  unfold ticketCommerciallyVoid in Hv. apply orb_false_iff in Hv as [Hv1 Hv2].
  pose proof (replay_recorded (gate_matches (default AdmissionEntry direction)) _ _ _ _ _ (λ ty Hty, Hty) Hrec) as Hgate.
  pose proof (replay_recorded (pass_matches (default AdmissionEntry direction)) _ _ _ _ _ (pass_matches_gate _) Hrec) as Hpass.
  unfold Scan. cbn zeta. rewrite (bool_decide_false _ Hd). destruct (IsPass policy') eqn:Ep; cbn [negb].
  - unfold admitPass. cbn zeta. rewrite (bool_decide_false _ Hocc), Hck. cbn [mbind result_bind]. rewrite Hlock2.
    cbn [mbind result_bind]. rewrite Hv1, Hv2. destruct (verifyTicketChain _ _ _ _).
    + unfold pass_verified, replayAdmissionOccurrence. by rewrite Hpass.
    + case_bool_decide as He.
      * unfold exit_unverified, replayAdmissionOccurrence. rewrite He in Hpass. by rewrite Hpass.
      * unfold degradedScan, replayByOccurrence. by rewrite (bool_decide_false _ Hocc), Hgate.
  - rewrite bool_decide_false by (intros He; by specialize (Hx He)). unfold redeemSingle. cbn zeta.
    rewrite (bool_decide_false _ Hocc), Hck. cbn [mbind result_bind]. rewrite Hlock2. cbn [mbind result_bind]. rewrite Hv1, Hv2.
    assert (default AdmissionEntry direction = AdmissionEntry) as He by (destruct (default _ _); [done|by specialize (Hx eq_refl)|done]).
    rewrite He in Hgate. destruct (verifyTicketChain _ _ _ _).
    + unfold redeem_verified, replayByOccurrence. by rewrite (bool_decide_false _ Hocc), Hgate.
    + unfold degradedScan, replayByOccurrence. by rewrite (bool_decide_false _ Hocc), Hgate.
Qed.

(** ** Offline admissions of single-entry tickets *)

Lemma oweConflictAlarm_Ok en org ticket occ at_ skew db db' : oweConflictAlarm en org ticket occ at_ skew db = Ok db' →
  db' = upd_gate db (set_outbox (gd_outbox (ad_gate db) ++ [ConflictAlarm (en_AlarmID en) org ticket occ at_ skew]) (ad_gate db)).
Proof. apply insert_alarm_Ok. Qed.

Lemma appended_void ticket event ty at_ db db' : appended ticket event ty at_ db db' → voiding ty = false →
  ∀ k, ticketRefunded k db' || ticketExchanged k db' = ticketCommerciallyVoid k db.
Proof.
  intros [_ Hn _ _ He _ _] Hty k. unfold ticketCommerciallyVoid, ticketRefunded, ticketExchanged, has_event.
  assert (Hsome : ∀ t, voiding t = true → ∀ m, m !! event = None →
    some_row (λ e, bool_decide (ev_Ticket e = k) && bool_decide (ev_Type e = t))
      (<[event := {| ev_Ticket := ticket; ev_Type := ty; ev_OccurredAt := at_ |}]> m) =
    some_row (λ e, bool_decide (ev_Ticket e = k) && bool_decide (ev_Type e = t)) m).
  { intros t Ht m Hm. apply eq_true_iff_eq. rewrite !some_row_true. split.
    - intros (j & e & Hj & Hf). apply lookup_insert_Some in Hj as [[<- <-]|[Hne Hj]]; [|by exists j, e].
      cbn in Hf. zbool. congruence.
    - intros (j & e & Hj & Hf). exists j, e. split; [|done]. rewrite lookup_insert_ne by congruence. done. }
  by rewrite He, !Hsome.
Qed.

(** An offline admission of a single-entry ticket whose chain verifies is always
    recorded, whatever else is known of the ticket: as its redemption, or as a
    duplicate when the trail or the quarantine already let it in. Exactly one
    alarm is owed for it when it was a duplicate or the ticket had been refunded or
    exchanged, none otherwise. Sent again at any later moment it is synced, and
    nothing changes. *)
Theorem offline_admission_recorded_once en inp db db' r :
  let ticket := ro_TicketID inp in
  let occ := ro_OccurrenceID inp in
  let org := ti_OrganizerID (ro_Identity inp) in
  let direction := default AdmissionEntry (ro_Type inp) in
  let admitted := ticketAdmittedUnion ticket db in
  ReconcileAdmission en inp db = Ok (db', r) →
  IsPass (slotPolicy (ti_SlotID (ro_Identity inp)) db) = false →
  verifyTicketChain (en_Keyring en) ticket (ro_Identity inp) (ad_trail db) = Ok tt →
  reconcileReplay ticket occ direction db = Ok None →
  rc_Outcome r = (if admitted then ReconcileConflict else ReconcileRecorded) ∧
  td_events (ad_trail db') = <[occ := {| ev_Ticket := ticket; ev_Type := if admitted then DuplicateAdmit else Redeemed;
                                         ev_OccurredAt := rc_OccurredAt r |}]> (td_events (ad_trail db)) ∧
  td_events (ad_trail db) !! occ = None ∧
  gd_outbox (ad_gate db') = gd_outbox (ad_gate db) ++
    (if admitted || ticketCommerciallyVoid ticket db
     then [ConflictAlarm (en_AlarmID en) org ticket occ (ro_OccurredAt inp) (rc_SkewFlagged r)] else []) ∧
  ∀ en' db2, grows db' db2 →
    ∃ skew, ReconcileAdmission en' inp db2 =
      Ok (db2, {| rc_Outcome := ReconcileSynced; rc_OccurredAt := rc_OccurredAt r; rc_SkewFlagged := skew |}).
Proof.
  intros ticket occ org direction admitted Ho Hp Hc Hr. pose proof (ReconcileAdmission_grows _ _ _ _ Ho) as Hg1. cbn [fst] in Hg1.
  unfold ReconcileAdmission in Ho. cbn zeta in Ho. fold ticket occ direction in Ho.
  apply bind_Ok in Ho as ([] & Hck & ([] & Hdir & (id & Hlock & ([] & Hexit%refuse_if_Ok & (rep & Hrep & Ho)%bind_Ok)%bind_Ok)%bind_Ok)%bind_Ok).
  pose proof (lock_ticket_Ok _ _ _ _ Hlock) as [-> _].
  rewrite Hr in Hrep. injection Hrep as <-. rewrite Hp in Hexit, Ho. cbn [negb andb] in Hexit. rewrite Hc in Ho.
  apply bool_decide_eq_false in Hexit. apply refuse_if_Ok, bool_decide_eq_false in Hdir as Hdir'.
  assert (direction = AdmissionEntry) as Hentry by (unfold direction in *; by destruct (default AdmissionEntry (ro_Type inp))).
  unfold reconcile_single in Ho. cbn zeta in Ho. fold ticket occ org in Ho.
  enough (Hmain : rc_Outcome r = (if admitted then ReconcileConflict else ReconcileRecorded) ∧
    appended ticket occ (if admitted then DuplicateAdmit else Redeemed) (rc_OccurredAt r) db (upd_gate db' (ad_gate db)) ∧
    gd_outbox (ad_gate db') = gd_outbox (ad_gate db) ++
      (if admitted || ticketCommerciallyVoid ticket db
       then [ConflictAlarm (en_AlarmID en) org ticket occ (ro_OccurredAt inp) (rc_SkewFlagged r)] else [])).
  { destruct Hmain as (H1 & Ha & H2). pose proof (ap_events _ _ _ _ _ _ Ha) as He. cbn in He.
    split_and!; [done|done|exact (ap_new _ _ _ _ _ _ Ha)|done|]. intros en' db2 Hg. eexists. unfold ReconcileAdmission. cbn zeta.
    fold ticket occ direction. rewrite Hck. cbn [mbind result_bind]. rewrite Hdir. cbn [mbind result_bind].
    rewrite (lock_ticket_grows _ _ _ _ _ (transitivity Hg1 Hg) Hlock).
    cbn [mbind result_bind]. rewrite (bool_decide_false (direction = AdmissionExit)), andb_false_r by (by rewrite Hentry).
    cbn [refuse_if mbind result_bind]. unfold reconcileReplay, replay_with.
    assert (td_events (ad_trail db2) !! occ = Some {| ev_Ticket := ticket; ev_Type := if admitted then DuplicateAdmit else Redeemed;
      ev_OccurredAt := rc_OccurredAt r |}) as ->.
    { eapply lookup_weaken; [|apply gr_events, Hg]. rewrite He. apply lookup_insert_eq. }
    cbn [ev_Ticket ev_Type ev_OccurredAt]. rewrite bool_decide_true, Hentry by done. by destruct admitted. }
  unfold admitted. destruct (ticketAdmittedUnion ticket db) eqn:Eu; cbn [orb].
  - apply bind_Ok in Ho as ([db1 at_] & [? ? ? ? ? ? ?]%append_occurrence_Ok & (db2 & ->%oweConflictAlarm_Ok & [= <- <-])%bind_Ok).
    cbn in *. split_and!; [done|by split|by rewrite ap_gate].
  - apply bind_Ok in Ho as ([db1 at_] & Ha%append_occurrence_Ok & (db2 & Hal & [= <- <-])%bind_Ok). cbn in *.
    rewrite (appended_void _ _ _ _ _ _ Ha ltac:(done)) in Hal. destruct Ha.
    destruct (ticketCommerciallyVoid ticket db); [apply oweConflictAlarm_Ok in Hal as ->|injection Hal as <-]; cbn.
    + split_and!; [done|by split|by rewrite ap_gate].
    + split_and!; [done|by split|by rewrite ap_gate, app_nil_r].
Qed.
End Retries.

(** ** A day at the gate, retried *)
#[local] Existing Instances number_uuid number_source mac_ed25519.

#[local] Abbreviation issued_db := (run (take 1 doors_open) empty_access).

Definition shown : RedeemInput :=
  {| ri_TicketID := 1%N : uuid; ri_Identity := identity (door_ticket 1 20); ri_OccurrenceID := 101%N : uuid; ri_OccurredAt := noon |}.

(** The answer was lost, the heads too, and the slot became a pass meanwhile. *)
Definition damaged (db : AccessDB) : AccessDB := after (door 2) (OpDamage heads_lost) db.
Definition multi_policy : ReEntryPolicy := {| re_Mode := Multi; re_MaxEntries := None; re_RequiresExit := false |}.

Lemma scan_retry_replays_witness :
  ∃ db1 r, Scan (door 1) single_policy shown None issued_db = Ok (db1, r) ∧ fresh r = true ∧
    Scan (door 3) multi_policy shown None (damaged db1) = Ok (damaged db1, replayed r).
Proof.
  assert (Hok : match Scan (door 1) single_policy shown None issued_db with
                | Ok (db1, r) => fresh r && bool_decide (rr_Decision r = DecisionAccepted) && negb (ticketCommerciallyVoid (1%N : uuid) (damaged db1))
                | Err _ => false end = true) by (vm_compute; reflexivity).
  destruct (Scan (door 1) single_policy shown None issued_db) as [[db1 r]|] eqn:E; [|discriminate Hok].
  apply andb_true_iff in Hok as [[Hf Hd%bool_decide_eq_true]%andb_true_iff Hv%negb_true_iff].
  exists db1, r. refine (conj eq_refl (conj Hf _)).
  apply (scan_retry_replays (door 1) single_policy shown None issued_db db1 r E Hf); [discriminate|apply after_grows|discriminate|exact Hv|].
  rewrite Hd. discriminate.
Defined.

(** A scanner was offline when it let ticket 1 in at the same time as the door. *)
Definition offline : ReconcileOccurrence :=
  {| ro_TicketID := 1%N : uuid; ro_Identity := identity (door_ticket 1 20); ro_OccurrenceID := 107%N : uuid; ro_OccurredAt := noon; ro_Type := None |}.

#[local] Abbreviation opened_db := (run doors_open empty_access).

Lemma offline_admission_recorded_once_witness :
  ∃ db1 r, ReconcileAdmission (door 5) offline opened_db = Ok (db1, r) ∧ rc_Outcome r = ReconcileConflict ∧
    ∃ skew, ReconcileAdmission (door 6) offline db1 = Ok (db1, {| rc_Outcome := ReconcileSynced; rc_OccurredAt := rc_OccurredAt r; rc_SkewFlagged := skew |}).
Proof.
  assert (Hok : is_ok (ReconcileAdmission (door 5) offline opened_db) = true) by (vm_compute; reflexivity).
  assert (H1 : IsPass (slotPolicy (ti_SlotID (ro_Identity offline)) opened_db) = false) by (vm_compute; reflexivity).
  assert (H2 : verifyTicketChain (en_Keyring (door 5)) (1%N : uuid) (ro_Identity offline) (ad_trail opened_db) = Ok tt) by (vm_compute; reflexivity).
  assert (H3 : reconcileReplay (1%N : uuid) (107%N : uuid) AdmissionEntry opened_db = Ok None) by (vm_compute; reflexivity).
  assert (H4 : ticketAdmittedUnion (1%N : uuid) opened_db = true) by (vm_compute; reflexivity).
  destruct (ReconcileAdmission (door 5) offline opened_db) as [[db1 r]|] eqn:E; [|discriminate Hok].
  destruct (offline_admission_recorded_once (door 5) offline opened_db db1 r E H1 H2 H3) as (Ho & _ & _ & _ & Hs).
  cbn [offline ro_TicketID] in Ho. rewrite H4 in Ho. exists db1, r. exact (conj eq_refl (conj Ho (Hs (door 6) db1 (reflexivity _)))).
Defined.
