(* ===== verification/TrailIntegrity.v ===== *)
(** * The trail of an honest service verifies

    Every append of [Trail] signed by a key the ring trusts extends the ticket's
    chain, and leaves every other ticket's as it was: the chain of each ticket
    keeps verifying, whatever the operations and however they are mixed. Read the
    other way, a head that verifies commits to the ticket's history. *)

From stdpp Require Import pretty.
From S2P Require Import Prelude Tables Text Sha256 Format Lifecycle Admission Trail Gate Reconcile TicketOps TrailRuns AccessRuns GateSafety.
#[local] Open Scope Z_scope.

Section Rows.
Context `{UU : UUID}.
Implicit Types (t : TrailDB) (ticket : uuid) (rows : list ChainRow).

(** ** The rows of a ticket, in the order of their sequence *)

(** Numbered from one, without a gap. *)
Definition numbered rows : Prop := map row_seq rows = map (λ n, Some (Z.of_nat n)) (List.seq 1 (length rows)).

Lemma seq_less_total a b : seq_less a b = false → seq_less b a = false → a = b.
Proof. destruct a, b; cbn; try done. rewrite !Z.ltb_ge. intros. f_equal. lia. Qed.

#[export] Instance seq_less_order : LessOrder seq_less.
Proof.
  split.
  - intros [a|] [b|]; cbn; try done. rewrite Z.ltb_lt, Z.ltb_ge. lia.
  - intros [a|] [b|] [c|]; cbn; try done. rewrite !Z.ltb_ge. lia.
Qed.

Lemma numbered_NoDup rows : numbered rows → NoDup (map row_seq rows).
Proof.
  unfold numbered. intros ->. apply (NoDup_fmap_2_strong (λ n, Some (Z.of_nat n))); [intros x y _ _ [= E]; lia|].
  apply base.NoDup_ListNoDup, seq_NoDup.
Qed.

Lemma numbered_below rows r : numbered rows → r ∈ rows → ∃ n, row_seq r = Some n ∧ n ≤ Z.of_nat (length rows).
Proof.
  intros Hn Hr. assert (row_seq r ∈ map row_seq rows) as Hin by (by apply list_elem_of_In, List.in_map, list_elem_of_In).
  rewrite Hn in Hin. apply list_elem_of_In, List.in_map_iff in Hin as (n & Hs & Hlt%in_seq). exists (Z.of_nat n). split; [done|lia].
Qed.

Lemma numbered_snoc rows r : numbered rows → row_seq r = Some (Z.of_nat (length rows) + 1) → numbered (rows ++ [r]).
Proof.
  unfold numbered. intros Hn Hr. rewrite length_app, map_app, Hn. cbn [length map]. rewrite Nat.add_1_r, seq_S, map_app. cbn [map].
  do 2 f_equal. rewrite Hr. f_equal. lia.
Qed.

Lemma sort_rows_eq l1 l2 : NoDup (map row_seq l1) → l1 ≡ₚ l2 → isort (on_key row_seq seq_less) l1 = isort (on_key row_seq seq_less) l2.
Proof.
  intros Hnd Hp. apply (isort_perm_eq (on_key row_seq seq_less)); [|done]. unfold on_key. intros a b Ha Hb H1 H2.
  eapply NoDup_map_eq; [exact Hnd|exact Ha|exact Hb|]. by apply seq_less_total.
Qed.

(** An event inserted in a ticket's chain, or in another's. *)
Lemma ticket_events_insert ticket t t' i e :
  td_events t !! i = None → td_events t' = <[i := e]> (td_events t) →
  (∀ j e', td_events t !! j = Some e' → join_integrity t' j e' = join_integrity t j e') →
  ticket_events ticket t' ≡ₚ
    (if bool_decide (ev_Ticket e = ticket) then [join_integrity t' i e] else []) ++ ticket_events ticket t.
Proof.
  intros Hi He Hj. unfold ticket_events. rewrite He, map_to_list_insert by done. cbn [List.filter snd].
  assert (Hm : map (λ p, join_integrity t' p.1 p.2) (List.filter (λ p, bool_decide (ev_Ticket p.2 = ticket)) (map_to_list (td_events t))) =
    map (λ p, join_integrity t p.1 p.2) (List.filter (λ p, bool_decide (ev_Ticket p.2 = ticket)) (map_to_list (td_events t)))).
  { apply List.map_ext_in. intros [j e'] [Hin _]%List.filter_In. apply Hj. by apply elem_of_map_to_list, list_elem_of_In. }
  destruct (bool_decide _); cbn [map app fst snd]; by rewrite Hm.
Qed.

Lemma ticket_rows_other ticket t t' i e : numbered (ticket_rows ticket t) →
  td_events t !! i = None → td_events t' = <[i := e]> (td_events t) →
  (∀ j e', td_events t !! j = Some e' → join_integrity t' j e' = join_integrity t j e') →
  ev_Ticket e ≠ ticket → ticket_rows ticket t' = ticket_rows ticket t.
Proof.
  intros Hn Hi He Hj Hne. symmetry. apply sort_rows_eq.
  - apply numbered_NoDup in Hn. unfold ticket_rows in Hn. by rewrite (isort_perm (on_key row_seq seq_less)) in Hn.
  - rewrite (ticket_events_insert ticket t t' i e) by done. by rewrite bool_decide_false.
Qed.

Lemma ticket_rows_snoc ticket t t' i e : numbered (ticket_rows ticket t) →
  td_events t !! i = None → td_events t' = <[i := e]> (td_events t) →
  (∀ j e', td_events t !! j = Some e' → join_integrity t' j e' = join_integrity t j e') →
  ev_Ticket e = ticket → row_seq (join_integrity t' i e) = Some (Z.of_nat (length (ticket_rows ticket t)) + 1) →
  ticket_rows ticket t' = ticket_rows ticket t ++ [join_integrity t' i e].
Proof.
  intros Hn Hi He Hj Ht Hs. unfold ticket_rows at 1.
  rewrite <-(sort_rows_eq (ticket_rows ticket t ++ [join_integrity t' i e])).
  - rewrite isort_snoc.
    + f_equal. unfold ticket_rows. apply (isort_unique (on_key row_seq seq_less)); [|done|apply isort_sorted, _].
      intros a b Ha Hb H1 H2. apply numbered_NoDup in Hn. eapply NoDup_map_eq; [exact Hn|exact Ha|exact Hb|]. by apply seq_less_total.
    + intros y Hy. unfold on_key. rewrite Hs. destruct (numbered_below _ _ Hn Hy) as (n & -> & Hle). cbn. apply Z.ltb_ge. lia.
  - by apply numbered_NoDup, numbered_snoc.
  - unfold ticket_rows. rewrite (ticket_events_insert ticket t t' i e Hi He Hj), (bool_decide_true (ev_Ticket e = ticket) Ht).
    rewrite (isort_perm (on_key row_seq seq_less)). symmetry. apply Permutation_cons_append.
Qed.
End Rows.

Section Chains.
Context `{UU : UUID} `{EL : Ed25519Laws} (ring : Keyring).
Implicit Types (t : TrailDB) (ticket : uuid) (inp : appendInput).

(** ** A chain that verifies, and its extension *)

Record chained ticket (id : TicketIdentity) t : Prop := {
  ch_rows : fold_result (verifyRow ticket id) (0, GenesisHash) (ticket_rows ticket t) = Ok (loadHead t ticket);
  ch_numbered : numbered (ticket_rows ticket t);
  ch_count : (loadHead t ticket).1 = Z.of_nat (length (ticket_rows ticket t));
  ch_range : (loadHead t ticket).1 ≤ MaxInt64;
  ch_head : verifyTicketHead (Some ring) ticket (loadHead t ticket) (td_heads t !! ticket) = Ok tt;
}.

(** The tables of a trail every append of which was honest. *)
Record trail_ok t : Prop := {
  to_keys u k : td_tickets t !! u = Some k → tk_ID k = u;
  to_events i e : td_events t !! i = Some e → is_Some (td_tickets t !! ev_Ticket e);
  to_integrity i r : td_integrity t !! i = Some r → ev_Ticket <$> td_events t !! i = Some (ig_Ticket r);
  to_heads u h : td_heads t !! u = Some h → is_Some (td_tickets t !! u);
  to_chains u k : td_tickets t !! u = Some k → chained u (identity k) t;
}.

Lemma chained_verifies ticket k t : trail_ok t → td_tickets t !! ticket = Some k →
  verifyTicketChain (Some ring) ticket (identity k) t = Ok tt.
Proof.
  intros Hok Hk. destruct (to_chains t Hok _ _ Hk) as [Hr _ _ _ Hh]. unfold verifyTicketChain. rewrite Hr. cbn [mbind result_bind].
  enough (orphans ticket t = false) as -> by done. unfold orphans. apply not_true_iff_false. intros (p & Hp & Hb)%existsb_exists. zbool.
  destruct p as [i r]. cbn in *. apply list_elem_of_In, elem_of_map_to_list in Hp. by apply H1, to_integrity.
Qed.

(** What an append writes. *)
Definition append_hash inp (head : Z * bytes) (at_ : time) : bytes :=
  HashEntry head.2 (event_canonical (ai_TicketID inp) (ai_Identity inp) (add64 head.1 1) (ai_EventID inp) (ai_Type inp) at_).

Record append_writes (sg : Signer) inp (at_ : time) t t' : Prop := {
  aw_ticket : is_Some (td_tickets t !! ai_TicketID inp);
  aw_new : td_events t !! ai_EventID inp = None;
  aw_seq : 0 < add64 (loadHead t (ai_TicketID inp)).1 1;
  aw_at : Normalize at_ = at_;
  aw_tickets : td_tickets t' = td_tickets t;
  aw_events : td_events t' =
    <[ai_EventID inp := {| ev_Ticket := ai_TicketID inp; ev_Type := ai_Type inp; ev_OccurredAt := at_ |}]> (td_events t);
  aw_integrity : td_integrity t' =
    <[ai_EventID inp := {| ig_Ticket := ai_TicketID inp; ig_Sequence := add64 (loadHead t (ai_TicketID inp)).1 1; ig_Version := CanonicalVersion;
       ig_PreviousHash := (loadHead t (ai_TicketID inp)).2; ig_EntryHash := append_hash inp (loadHead t (ai_TicketID inp)) at_ |}]> (td_integrity t);
  aw_head : ∃ org at', td_heads t' = <[ai_TicketID inp := {| hd_Organizer := org; hd_Sequence := add64 (loadHead t (ai_TicketID inp)).1 1;
    hd_Version := CanonicalVersion; hd_Hash := append_hash inp (loadHead t (ai_TicketID inp)) at_; hd_KeyID := sg_kid sg;
    hd_Signature := SignHead sg (ai_TicketID inp) (add64 (loadHead t (ai_TicketID inp)).1 1) (append_hash inp (loadHead t (ai_TicketID inp)) at_);
    hd_ChangedAt := at' |}]> (td_heads t);
  aw_changes : ∃ at', td_changes t' = td_changes t ++ [{| hc_Ticket := ai_TicketID inp; hc_Organizer := ti_OrganizerID (ai_Identity inp);
    hc_Sequence := add64 (loadHead t (ai_TicketID inp)).1 1; hc_Hash := append_hash inp (loadHead t (ai_TicketID inp)) at_;
    hc_Version := CanonicalVersion; hc_KeyID := sg_kid sg;
    hc_Signature := SignHead sg (ai_TicketID inp) (add64 (loadHead t (ai_TicketID inp)).1 1) (append_hash inp (loadHead t (ai_TicketID inp)) at_);
    hc_Checkpoint := None; hc_CreatedAt := at' |}];
  aw_rest : td_checkpoints t' = td_checkpoints t ∧ td_epochs t' = td_epochs t;
}.

Lemma appendLifecycle_writes sg now inp t t' at_ :
  appendLifecycle (Some sg) now inp t = Ok (t', at_) → append_writes sg inp at_ t t'.
Proof.
  unfold appendLifecycle. cbn zeta. set (stored := timestamptz _).
  intros (t1 & (Ht & Hn & Hs & ->)%insert_event_Ok & (t2 & Hc & [= <- <-])%bind_Ok)%bind_Ok. cbn in Ht, Hn.
  unfold chain_event, insert_integrity, upsert_head, queue_change in Hc. cbn zeta in Hc.
  apply bind_Ok in Hc as (t3 & (u1 & H1%ensure_Ok & [= <-])%bind_Ok & (t4 & (u2 & _ & [= <-])%bind_Ok & (u3 & _ & [= <-])%bind_Ok)%bind_Ok).
  zbool. cbn [ig_Sequence] in *.
  assert (Hat : stored = Normalize stored) by (unfold stored, timestamptz; by rewrite Normalize_idem).
  split; cbn; try done; rewrite <-?Hat; try done.
  - eexists _, _. reflexivity.
  - eexists. reflexivity.
Qed.

(** A row the chain has not got to yet leaves the others as they were joined. *)
Lemma joined_before sg inp at_ t t' j e : append_writes sg inp at_ t t' →
  td_events t !! j = Some e → join_integrity t' j e = join_integrity t j e.
Proof.
  intros Ha Hj. unfold join_integrity. rewrite (aw_integrity _ _ _ _ _ Ha), lookup_insert_ne; [done|].
  intros <-. by rewrite (aw_new _ _ _ _ _ Ha) in Hj.
Qed.

Lemma next_sequence n : 0 ≤ n → n ≤ MaxInt64 → 0 < add64 n 1 → add64 n 1 = n + 1 ∧ n + 1 ≤ MaxInt64.
Proof.
  intros H0 H1 H2. destruct (decide (n = MaxInt64)) as [->|Hn]; [by vm_compute in H2|].
  assert (n + 1 ≤ MaxInt64) by lia. split; [|done]. unfold add64. apply wrap64_id. unfold int64, MinInt64, MaxInt64 in *. lia.
Qed.

Lemma verify_appended sg inp at_ t t' : append_writes sg inp at_ t t' →
  verifyRow (ai_TicketID inp) (ai_Identity inp) (loadHead t (ai_TicketID inp))
    (join_integrity t' (ai_EventID inp) {| ev_Ticket := ai_TicketID inp; ev_Type := ai_Type inp; ev_OccurredAt := at_ |}) =
  Ok (add64 (loadHead t (ai_TicketID inp)).1 1, append_hash inp (loadHead t (ai_TicketID inp)) at_).
Proof.
  intros Ha. unfold verifyRow, join_integrity. cbn [rw_Integrity rw_ID rw_Event ev_Ticket ev_Type ev_OccurredAt].
  rewrite (aw_integrity _ _ _ _ _ Ha), lookup_insert_eq. cbn [mbind option_bind]. rewrite bool_decide_true by done.
  cbn [ig_Version ig_Sequence ig_PreviousHash ig_EntryHash]. rewrite (aw_at _ _ _ _ _ Ha).
  fold (append_hash inp (loadHead t (ai_TicketID inp)) at_). rewrite !Z.eqb_refl.
  by rewrite (bool_decide_true (_ = (loadHead t _).2)), (bool_decide_true (append_hash _ _ _ = _)).
Qed.

Lemma chained_extended sg inp at_ t t' : chained (ai_TicketID inp) (ai_Identity inp) t →
  append_writes sg inp at_ t t' → Trusts ring sg → chained (ai_TicketID inp) (ai_Identity inp) t'.
Proof.
  intros [Hr Hn Hc Hm Hh] Ha Htr. set (ticket := ai_TicketID inp) in *. set (head := loadHead t ticket) in *.
  destruct (next_sequence head.1) as [Hs Hmax]; [lia|done|apply (aw_seq _ _ _ _ _ Ha)|].
  set (e := {| ev_Ticket := ticket; ev_Type := ai_Type inp; ev_OccurredAt := at_ |}).
  assert (Hrow : row_seq (join_integrity t' (ai_EventID inp) e) = Some (add64 head.1 1)).
  { unfold row_seq, join_integrity. cbn [rw_Integrity]. rewrite (aw_integrity _ _ _ _ _ Ha), lookup_insert_eq. cbn.
    by rewrite bool_decide_true. }
  assert (Hrows : ticket_rows ticket t' = ticket_rows ticket t ++ [join_integrity t' (ai_EventID inp) e]).
  { apply ticket_rows_snoc; [done|apply (aw_new _ _ _ _ _ Ha)|apply (aw_events _ _ _ _ _ Ha)| |done|].
    - intros j e' Hj. by eapply joined_before.
    - rewrite Hrow, Hs. by rewrite Hc. }
  destruct (aw_head _ _ _ _ _ Ha) as (org & at' & Hhd). fold ticket head in Hhd.
  assert (Hload : loadHead t' ticket = (add64 head.1 1, append_hash inp head at_)).
  { unfold loadHead. by rewrite Hhd, lookup_insert_eq. }
  split.
  - rewrite Hrows, fold_result_app, Hr. cbn [fold_result].
    pose proof (verify_appended sg inp at_ t t' Ha) as Hv. fold ticket e head in Hv. fold head. by rewrite Hv, Hload.
  - rewrite Hrows. apply numbered_snoc; [done|]. by rewrite Hrow, Hs, Hc.
  - rewrite Hload, Hrows, length_app. cbn. rewrite Hs, Hc. lia.
  - rewrite Hload. cbn. by rewrite Hs.
  - rewrite Hload, Hhd, lookup_insert_eq. unfold verifyTicketHead. cbn [fst snd hd_Version hd_Sequence hd_Hash hd_KeyID hd_Signature].
    pose proof (aw_seq _ _ _ _ _ Ha) as Hpos. fold ticket head in Hpos. destruct (Z.eqb_spec (add64 head.1 1) 0); [lia|].
    rewrite !Z.eqb_refl, bool_decide_true by done. cbn [negb orb]. by rewrite VerifyHead_SignHead.
Qed.

Lemma chained_other sg inp at_ t t' ticket id : chained ticket id t →
  append_writes sg inp at_ t t' → ai_TicketID inp ≠ ticket → chained ticket id t'.
Proof.
  intros [Hr Hn Hc Hm Hh] Ha Hne.
  assert (Hrows : ticket_rows ticket t' = ticket_rows ticket t).
  { eapply ticket_rows_other; [done|apply (aw_new _ _ _ _ _ Ha)|apply (aw_events _ _ _ _ _ Ha)| |done].
    intros j e' Hj. by eapply joined_before. }
  assert (Hhd : td_heads t' !! ticket = td_heads t !! ticket).
  { destruct (aw_head _ _ _ _ _ Ha) as (org & at' & ->). by rewrite lookup_insert_ne. }
  assert (Hload : loadHead t' ticket = loadHead t ticket) by (unfold loadHead; by rewrite Hhd).
  split; rewrite ?Hrows, ?Hload, ?Hhd; done.
Qed.

(** ** Every honest step keeps the trail verifiable *)

Inductive trail_step : TrailDB → TrailDB → Prop :=
| step_ticket t k : td_tickets t !! tk_ID k = None → trail_step t (set_tickets (<[tk_ID k := k]> (td_tickets t)) t)
| step_append t t' sg inp at_ k : append_writes sg inp at_ t t' → Trusts ring sg →
    td_tickets t !! ai_TicketID inp = Some k → identity k = ai_Identity inp → trail_step t t'.

Lemma trail_ok_ticket t k : trail_ok t → td_tickets t !! tk_ID k = None →
  trail_ok (set_tickets (<[tk_ID k := k]> (td_tickets t)) t).
Proof.
  intros [H1 H2 H3 H4 H5] Hk. assert (Hmono : ∀ u, is_Some (td_tickets t !! u) → is_Some (<[tk_ID k := k]> (td_tickets t) !! u)).
  { intros u [k' Hu]. destruct (decide (tk_ID k = u)) as [<-|]; [by rewrite lookup_insert_eq|by rewrite lookup_insert_ne, Hu]. }
  split; cbn; [|by eauto..|].
  - intros u k' [[<- <-]|[_ Hu]]%lookup_insert_Some; [done|by apply H1].
  - intros u k' [[<- <-]|[_ Hu]]%lookup_insert_Some; [|destruct (H5 u k' Hu); by split].
    assert (Hev : ticket_events (tk_ID k) t = []).
    { unfold ticket_events. destruct (List.filter _ _) as [|[i e] l] eqn:E; [done|]. exfalso.
      assert (In (i, e) (List.filter (λ p : uuid * EventRow, bool_decide (ev_Ticket p.2 = tk_ID k)) (map_to_list (td_events t)))) as Hin by (rewrite E; by left).
      apply List.filter_In in Hin as [Hin Hb]. apply list_elem_of_In, elem_of_map_to_list in Hin. cbn in Hb. zbool.
      apply H2 in Hin. rewrite Hb, Hk in Hin. by destruct Hin. }
    assert (Hhd : td_heads t !! tk_ID k = None).
    { destruct (td_heads t !! tk_ID k) eqn:E; [|done]. apply H4 in E. rewrite Hk in E. by destruct E. }
    assert (Hrows : ticket_rows (tk_ID k) (set_tickets (<[tk_ID k := k]> (td_tickets t)) t) = []).
    { unfold ticket_rows. change (ticket_events (tk_ID k) (set_tickets _ t)) with (ticket_events (tk_ID k) t). by rewrite Hev. }
    assert (Hload : loadHead (set_tickets (<[tk_ID k := k]> (td_tickets t)) t) (tk_ID k) = (0, GenesisHash)).
    { unfold loadHead. cbn [set_tickets td_heads]. by rewrite Hhd. }
    split; rewrite ?Hrows, ?Hload; cbn [set_tickets td_heads]; rewrite ?Hhd; done.
Qed.

Lemma trail_ok_append sg inp at_ t t' k : trail_ok t → append_writes sg inp at_ t t' → Trusts ring sg →
  td_tickets t !! ai_TicketID inp = Some k → identity k = ai_Identity inp → trail_ok t'.
Proof.
  intros [H1 H2 H3 H4 H5] Ha Htr Hk Hid. pose proof (aw_tickets _ _ _ _ _ Ha) as Htk. split; rewrite ?Htk.
  - done.
  - rewrite (aw_events _ _ _ _ _ Ha). intros i e [[<- <-]|[_ Hi]]%lookup_insert_Some; [by exists k|by eapply H2].
  - rewrite (aw_events _ _ _ _ _ Ha), (aw_integrity _ _ _ _ _ Ha). intros i r [[<- <-]|[Hne Hi]]%lookup_insert_Some.
    + by rewrite lookup_insert_eq.
    + rewrite lookup_insert_ne by done. by apply H3.
  - destruct (aw_head _ _ _ _ _ Ha) as (org & at' & ->). intros u h [[<- _]|[_ Hu]]%lookup_insert_Some; [by exists k|by eapply H4].
  - intros u k' Hu. destruct (decide (ai_TicketID inp = u)) as [<-|Hne].
    + rewrite Hk in Hu. injection Hu as <-. rewrite Hid. eapply chained_extended; [|exact Ha|exact Htr]. rewrite <-Hid. by apply H5.
    + eapply chained_other; [by apply H5|exact Ha|done].
Qed.

Lemma trail_step_ok t t' : trail_step t t' → trail_ok t → trail_ok t'.
Proof. intros [] Hok; [by apply trail_ok_ticket|by eapply trail_ok_append]. Qed.

Lemma trail_steps_ok t t' : rtc trail_step t t' → trail_ok t → trail_ok t'.
Proof. induction 1 as [|? ? ? Hs _ IH]; [done|]. intros Hok. by eapply IH, trail_step_ok. Qed.
End Chains.

Section Honest.
Context `{UU : UUID} `{US : !UUIDSource} `{EL : Ed25519Laws} (ring : Keyring).
Implicit Types (db : AccessDB) (en : Env) (ticket : uuid) (t : TrailDB).

(** ** Honest runs *)

(** An operation signs with a key the ring trusts, if it signs at all. *)
Definition trusted en : Prop := ∀ sg, en_Signer en = Some sg → Trusts ring sg.

Definition trusted_signature en (m : gmap uuid Ticket) ticket (id : TicketIdentity) : Prop :=
  trusted en ∧ ∃ k, m !! ticket = Some k ∧ identity k = id.

Definition trailed db db' : Prop := rtc (trail_step ring) (ad_trail db) (ad_trail db').

Lemma trailed_framed : framed trailed trusted_signature.
Proof.
  split.
  - split; [intros db; apply rtc_refl|intros a b c Hab Hbc; unfold trailed in *; by etrans].
  - intros a db db' ->%insert_alarm_Ok. apply rtc_refl.
  - intros q db db' [_ ->]%insert_quarantine_Ok. apply rtc_refl.
  - intros db g _ _ _. apply rtc_refl.
  - intros db r _ _. apply rtc_refl.
  - intros k db db' (Hk & _ & ->)%insert_ticket_Ok. apply rtc_once. by apply (step_ticket _ _ (stored_ticket k)).
  - intros en ticket id event ty at_ db x [Ht (k & Hk & Hid)]. unfold append_on. intros ([t' st] & Ha & [= <-])%bind_Ok. cbn.
    destruct (en_Signer en) as [sg|] eqn:E; [|done]. apply appendLifecycle_writes in Ha. apply rtc_once.
    eapply step_append; [exact Ha|by apply Ht|exact Hk|exact Hid].
Qed.

Lemma trusted_own en : trusted en → own_identity trusted_signature en.
Proof. intros Ht m ticket k Hk. split; [done|]. by exists k. Qed.

(** An order sells one slot: its tickets have one identity. *)
Definition one_slot t : Prop := ∀ u1 u2 k1 k2, td_tickets t !! u1 = Some k1 → td_tickets t !! u2 = Some k2 →
  tk_OrganizerID k1 = tk_OrganizerID k2 → tk_OrderID k1 = tk_OrderID k2 → tk_SlotID k1 = tk_SlotID k2.

Lemma elem_of_order_tickets org order db u : trail_ok ring (ad_trail db) → u ∈ order_tickets org order db →
  ∃ k, td_tickets (ad_trail db) !! u = Some k ∧ tk_OrderID k = order ∧ tk_OrganizerID k = org.
Proof.
  intros Hok. unfold order_tickets. rewrite elem_of_isort. intros Hu%list_elem_of_In%List.in_map_iff. destruct Hu as (k & <- & Hk).
  apply list_elem_of_In, elem_of_rows_where in Hk as [Hb [i Hi]]. zbool. rewrite (to_keys _ _ Hok _ _ Hi). by exists k.
Qed.

Lemma trusted_order en org order db : trusted en → trail_ok ring (ad_trail db) → one_slot (ad_trail db) →
  order_identity trusted_signature en org order db.
Proof.
  intros Ht Hok Hone k1 k2 t H1 H2 Hk. split; [done|].
  apply elem_of_order_tickets in H1 as (a & Ha & Hao & Hag), H2 as (b & Hb & Hbo & Hbg); [|done..].
  rewrite Hk in Ha. injection Ha as ->. exists b. split; [done|]. unfold identity. rewrite Hao, Hag, Hbo, Hbg. f_equal.
  symmetry. eapply Hone; [exact Hk|exact Hb|congruence..].
Qed.

Definition honest_request (x : Env * AccessRequest) : Prop := trusted x.1 ∧ is_damage x.2 = false.

Lemma honest_signs en q db : honest_request (en, q) → trail_ok ring (ad_trail db) → one_slot (ad_trail db) →
  request_signs trusted_signature en q db.
Proof.
  intros [Ht _] Hok Hone. pose proof (trusted_own en Ht). destruct q; cbn in *; try done; [by apply trusted_order|].
  split; [by apply trusted_order|done].
Qed.

Lemma one_slot_before db db' : grows db db' → one_slot (ad_trail db') → one_slot (ad_trail db).
Proof.
  intros Hg Hone u1 u2 k1 k2 H1 H2. apply (Hone u1 u2); (eapply lookup_weaken; [|apply gr_tickets, Hg]); done.
Qed.

Lemma honest_after en q db : honest_request (en, q) → trail_ok ring (ad_trail db) → one_slot (ad_trail (after en q db)) →
  trail_ok ring (ad_trail (after en q db)).
Proof.
  intros Hh Hok Hone. assert (one_slot (ad_trail db)) as Hone0 by (eapply one_slot_before; [apply after_grows|exact Hone]).
  unfold after in *. destruct (perform en q db) as [x|] eqn:E; [|done].
  eapply trail_steps_ok; [|exact Hok]. eapply (perform_frame trailed _ _ _ _ _ trailed_framed); [|apply Hh|exact E].
  by apply honest_signs.
Qed.

Lemma honest_run_ok l : ∀ db, Forall honest_request l → trail_ok ring (ad_trail db) → one_slot (ad_trail (run l db)) →
  trail_ok ring (ad_trail (run l db)).
Proof.
  induction l as [|[en q] l IH]; intros db Hl Hok Hone; [done|]. apply list.Forall_cons in Hl as [Hq Hl]. cbn in *.
  apply IH; [done| |done]. apply honest_after; [done..|]. eapply one_slot_before; [apply run_grows|exact Hone].
Qed.

Definition empty_trail : TrailDB := {|
  td_tickets := ∅; td_events := ∅; td_integrity := ∅; td_heads := ∅; td_changes := []; td_checkpoints := []; td_epochs := ∅ |}.

Lemma empty_trail_ok : trail_ok ring empty_trail.
Proof. split; cbn; intros u x; by rewrite lookup_empty. Qed.

(** The decisions of a gate that could not verify a chain. *)
Definition integrity_decision (d : Decision) : bool :=
  match d with
  | DecisionAdmittedDegraded | DecisionIntegrityQuarantined | DecisionIntegrityOperatorControlled | DecisionExitUnverified => true
  | _ => false
  end.

Lemma live_verdict_plain policy facts direction : integrity_decision (EvaluateLiveAdmission policy facts direction) = false.
Proof. unfold EvaluateLiveAdmission. repeat case_match; done. Qed.

(** A replay answers a degraded admission only for one the quarantine holds. *)
Lemma replay_plain matches ticket occ db r : gd_quarantine (ad_gate db) = [] →
  replay_with matches ticket occ db = Ok (Some r) → integrity_decision (rr_Decision r) = false.
Proof.
  intros Hq. unfold replay_with, quarantinedOccurrence. rewrite Hq. cbn.
  destruct (td_events _ !! _); [destruct (_ || _); [done|]; by intros [= <-]|]. by intros (? & _ & ?)%bind_Ok.
Qed.

(** A scan of a ticket whose chain verifies, with nothing in quarantine. *)
Lemma verified_scan_plain en policy inp direction db db' r :
  (∀ id, lock_ticket (ri_TicketID inp) (ri_Identity inp) db = Ok id →
     verifyTicketChain (en_Keyring en) (ri_TicketID inp) id (ad_trail db) = Ok tt) →
  gd_quarantine (ad_gate db) = [] → Scan en policy inp direction db = Ok (db', r) →
  integrity_decision (rr_Decision r) = false.
Proof.
  intros Hv Hq. unfold Scan. cbn zeta. case_bool_decide as H1; [done|].
  assert (Hrow : degraded_row (ri_TicketID inp) db = None) by (unfold degraded_row; by rewrite Hq).
  destruct (negb (IsPass policy)).
  - case_bool_decide as H2; [by intros [= _ <-]|]. unfold redeemSingle. cbn zeta. intros (u & _ & (id & Hid & Ho)%bind_Ok)%bind_Ok.
    destruct (ticketRefunded _ _); [by injection Ho as _ <-|]. destruct (ticketExchanged _ _); [by injection Ho as _ <-|].
    rewrite (Hv id Hid) in Ho. unfold redeem_verified in Ho. cbn zeta in Ho. apply bind_Ok in Ho as (rep & Hrep & Ho). destruct rep.
    { injection Ho as _ <-. case_bool_decide; [done|]. by eapply replay_plain. }
    rewrite Hrow in Ho. destruct (redeemed_at _ _); [by injection Ho as _ <-|]. by apply bind_Ok in Ho as (x & _ & [= _ <-]).
  - unfold admitPass. cbn zeta. case_bool_decide as H2; [by intros [= _ <-]|]. intros (u & _ & (id & Hid & Ho)%bind_Ok)%bind_Ok.
    destruct (ticketRefunded _ _); [by injection Ho as _ <-|]. destruct (ticketExchanged _ _); [by injection Ho as _ <-|].
    rewrite (Hv id Hid) in Ho. unfold pass_verified in Ho. cbn zeta in Ho. apply bind_Ok in Ho as (rep & Hrep & Ho). destruct rep.
    { injection Ho as _ <-. by eapply replay_plain. }
    rewrite Hrow in Ho. destruct (negb _); [injection Ho as _ <-; apply live_verdict_plain|].
    by apply bind_Ok in Ho as (x & _ & (db2 & _ & [= _ <-])%bind_Ok).
Qed.

(** C23 (invariant). The trail of an honest service verifies. From an empty trail, after any run
    of issues, deliveries, scans, records, reconciliations, refunds, exchanges and
    redeliveries signed with keys the ring trusts, whatever their order and their
    outcome, provided that the tickets of one order of an organizer are all of one slot
    (as commerce issues them; a refund or an exchange signs every ticket of its order
    with the slot of the first): every ticket's chain verifies, under the ring, as the gate and the
    audit check it; and a scan then decides on the ticket and its policy alone,
    never on integrity, unless the quarantine already holds something. *)
Theorem honest_trail_verifies l db : ad_trail db = empty_trail →
  Forall honest_request l → one_slot (ad_trail (run l db)) →
  (∀ ticket k, td_tickets (ad_trail (run l db)) !! ticket = Some k →
     verifyTicketChain (Some ring) ticket (identity k) (ad_trail (run l db)) = Ok tt) ∧
  ∀ en policy inp direction db' r, en_Keyring en = Some ring → gd_quarantine (ad_gate (run l db)) = [] →
    Scan en policy inp direction (run l db) = Ok (db', r) → integrity_decision (rr_Decision r) = false.
Proof.
  intros He Hl Hone. assert (Hok : trail_ok ring (ad_trail (run l db))).
  { apply honest_run_ok; [done| |done]. rewrite He. apply empty_trail_ok. }
  assert (Hall : ∀ ticket k, td_tickets (ad_trail (run l db)) !! ticket = Some k →
    verifyTicketChain (Some ring) ticket (identity k) (ad_trail (run l db)) = Ok tt) by (intros; by apply chained_verifies).
  split; [done|]. intros en policy inp direction db' r Hk Hq. apply verified_scan_plain; [|done].
  rewrite Hk. intros id (-> & k & Hkk & <-)%lock_ticket_Ok. by apply Hall.
Qed.
End Honest.

Section Commitment.
Context `{UL : UUIDLaws} `{ED : Ed25519}.
Implicit Types (t : TrailDB) (ticket : uuid) (rows : list ChainRow).

(** ** A verified head commits to the history *)

(** What a history says of an event. *)
Definition told (r : ChainRow) : uuid * LifecycleType * time :=
  (rw_ID r, ev_Type (rw_Event r), Normalize (ev_OccurredAt (rw_Event r))).

(** What the entry hash of a row is the digest of. *)
Definition row_bytes ticket (id : TicketIdentity) (r : ChainRow) : bytes :=
  match rw_Integrity r with
  | Some i => ig_PreviousHash i +:+ event_canonical ticket id (ig_Sequence i) (rw_ID r) (ev_Type (rw_Event r)) (Normalize (ev_OccurredAt (rw_Event r)))
  | None => nil_bytes
  end.

Definition datable (r : ChainRow) : Prop := four_digit_year (Normalize (ev_OccurredAt (rw_Event r))) = true.

Lemma type_text_inj a b : type_text a = type_text b → a = b.
Proof. by destruct a, b. Qed.

Lemma type_text_one_line ty : one_line (type_text ty) = true.
Proof. by destruct ty. Qed.

Lemma event_canonical_inj ticket id1 id2 n1 n2 e1 e2 ty1 ty2 at1 at2 : single_line_uuids →
  four_digit_year (Normalize at1) = true → four_digit_year (Normalize at2) = true →
  event_canonical ticket id1 n1 e1 ty1 (Normalize at1) = event_canonical ticket id2 n2 e2 ty2 (Normalize at2) →
  id1 = id2 ∧ n1 = n2 ∧ e1 = e2 ∧ ty1 = ty2 ∧ Normalize at1 = Normalize at2.
Proof.
  intros Hu Y1 Y2 E. unfold event_canonical, CanonicalEvent, stamp in E.
  cbn [le_TicketID le_OrderID le_OrganizerID le_SlotID le_Sequence le_EventID le_Type le_OccurredAt] in E. rewrite !Normalize_idem in E.
  apply join_inj in E; [|done|done|..].
  2,3: by repeat (constructor; [first [done|apply Hu|apply one_line_pretty|apply type_text_one_line|by apply RFC3339Nano_one_line]|]).
  injection E as Eo Eg Es En Ee Et Ea. destruct id1, id2; cbn in *. apply (inj uuid_String) in Eo, Eg, Es, Ee. apply (inj pretty) in En.
  apply type_text_inj in Et. apply RFC3339Nano_inj in Ea; [|done..]. by subst.
Qed.

Lemma verifyRow_Ok ticket id st r st' : verifyRow ticket id st r = Ok st' →
  ∃ i, rw_Integrity r = Some i ∧ ig_PreviousHash i = st.2 ∧ ig_Sequence i = add64 st.1 1 ∧
    st' = (add64 st.1 1, Sum256 (row_bytes ticket id r)).
Proof.
  unfold verifyRow, row_bytes. destruct (rw_Integrity r) as [i|]; [|done]. intros Hv. cbn zeta in Hv.
  destruct (negb (ig_Version i =? CanonicalVersion)); [done|]. destruct (Z.eqb_spec (ig_Sequence i) (add64 st.1 1)); [|done]. cbn [negb] in Hv.
  case_bool_decide as Hp; [|done]. cbn [negb] in Hv. case_bool_decide as Hw; [|done]. cbn [negb] in Hv. injection Hv as <-.
  exists i. split_and!; [done..|]. unfold HashEntry. by rewrite Hp.
Qed.

Lemma fold_count ticket id rows : ∀ st, Z.of_nat (length rows) ≤ MaxInt64 →
  fold_result (verifyRow ticket id) (0, GenesisHash) rows = Ok st →
  st.1 = Z.of_nat (length rows) ∧ String.length st.2 = HashSize.
Proof.
  induction rows as [|r rows IH] using rev_ind; intros st Hlen Hf; [by injection Hf as <-|].
  rewrite length_app in Hlen. cbn in Hlen. rewrite fold_result_app in Hf. destruct (fold_result _ _ rows) as [st1|] eqn:E; [|done].
  cbn [fold_result] in Hf. destruct (verifyRow _ _ st1 r) as [st2|] eqn:Ev; [|done]. injection Hf as <-.
  destruct (IH st1) as [Hc _]; [lia|done|]. apply verifyRow_Ok in Ev as (i & _ & _ & _ & ->). cbn. rewrite length_app, Hc. cbn.
  split; [|apply Sum256_length]. rewrite add64_id; [lia|]. unfold int64, MinInt64, MaxInt64 in *. lia.
Qed.

(** Two rows of the two histories whose digests agree and whose bytes do not. *)
Definition rows_collide ticket id1 id2 rows1 rows2 : Prop :=
  ∃ r1 r2, r1 ∈ rows1 ∧ r2 ∈ rows2 ∧ Collision (row_bytes ticket id1 r1) (row_bytes ticket id2 r2).

Lemma rows_commit ticket id1 id2 rows1 : ∀ rows2 st, single_line_uuids →
  Forall datable rows1 → Forall datable rows2 →
  Z.of_nat (length rows1) ≤ MaxInt64 → Z.of_nat (length rows2) ≤ MaxInt64 →
  fold_result (verifyRow ticket id1) (0, GenesisHash) rows1 = Ok st →
  fold_result (verifyRow ticket id2) (0, GenesisHash) rows2 = Ok st →
  map told rows1 = map told rows2 ∧ (rows1 ≠ [] → id1 = id2) ∨ rows_collide ticket id1 id2 rows1 rows2.
Proof.
  induction rows1 as [|r1 rows1 IH] using rev_ind; intros rows2 st Hu D1 D2 L1 L2 F1 F2.
  { left. split; [|done]. pose proof (fold_count _ _ _ _ L1 F1) as [C1 _]. pose proof (fold_count _ _ _ _ L2 F2) as [C2 _].
    cbn in C1. destruct rows2; [done|]. cbn in C2. lia. }
  destruct rows2 as [|r2 rows2 _] using rev_ind.
  { pose proof (fold_count _ _ _ _ L1 F1) as [C1 _]. pose proof (fold_count _ _ _ _ L2 F2) as [C2 _].
    rewrite length_app in C1. cbn in C1, C2. lia. }
  rewrite length_app in L1, L2. cbn in L1, L2. apply Forall_app in D1 as [D1 [Dr1 _]%list.Forall_cons], D2 as [D2 [Dr2 _]%list.Forall_cons].
  rewrite fold_result_app in F1, F2. destruct (fold_result _ _ rows1) as [st1|] eqn:E1; [|done]. destruct (fold_result _ _ rows2) as [st2|] eqn:E2; [|done].
  pose proof (fold_count ticket id1 rows1 st1 ltac:(lia) E1) as [C1 W1]. pose proof (fold_count ticket id2 rows2 st2 ltac:(lia) E2) as [C2 W2].
  cbn [fold_result] in F1, F2. destruct (verifyRow ticket id1 st1 r1) as [x1|] eqn:V1; [|done]. injection F1 as ->.
  destruct (verifyRow ticket id2 st2 r2) as [x2|] eqn:V2; [|done]. injection F2 as ->.
  apply verifyRow_Ok in V1 as (i1 & I1 & P1 & Q1 & ->), V2 as (i2 & I2 & P2 & Q2 & [= Hn Hh]).
  rewrite !add64_id in Hn by (unfold int64, MinInt64, MaxInt64 in *; lia).
  assert (Hsame : row_bytes ticket id1 r1 = row_bytes ticket id2 r2 ∨ Collision (row_bytes ticket id1 r1) (row_bytes ticket id2 r2)).
  { destruct (decide (row_bytes ticket id1 r1 = row_bytes ticket id2 r2)); [by left|right]. by split. }
  destruct Hsame as [Hb|Hcol].
  2: { right. exists r1, r2. split_and!; [apply elem_of_app; right; apply list_elem_of_here..|done]. }
  unfold row_bytes in Hb. rewrite I1, I2 in Hb.
  destruct (chained_digest_inj _ _ _ _ (eq_trans (f_equal String.length P1) (eq_trans W1 (eq_sym (eq_trans (f_equal String.length P2) W2)))) (f_equal Sum256 Hb))
    as [[Hp Hc]|[Hne _]]; [|by rewrite Hb in Hne].
  apply event_canonical_inj in Hc as (Hid & _ & He & Hty & Hat); [|done..].
  destruct (IH rows2 st1 Hu D1 D2 ltac:(lia) ltac:(lia) eq_refl) as [[Hm _]|(a & b & Ha & Hb' & Hcol)].
  - rewrite E2. f_equal. destruct st1, st2; cbn in *. f_equal; [lia|congruence].
  - left. split; [|done]. rewrite !map_app, Hm. cbn [map]. do 2 f_equal. unfold told. by rewrite He, Hty, Hat.
  - right. exists a, b. split_and!; [apply elem_of_app; by left..|done].
Qed.

Lemma verified_rows ring ticket id t : verifyTicketChain ring ticket id t = Ok tt → is_Some (td_heads t !! ticket) →
  fold_result (verifyRow ticket id) (0, GenesisHash) (ticket_rows ticket t) = Ok (loadHead t ticket).
Proof.
  unfold verifyTicketChain, loadHead. intros (st & Hf & Hv)%bind_Ok [h Hh]. rewrite Hf. f_equal. destruct (orphans _ _); [done|].
  rewrite Hh in Hv |- *. unfold verifyTicketHead in Hv. destruct (st.1 =? 0); [done|]. destruct (negb _); [done|].
  destruct (_ || _) eqn:E; [done|]. zbool. destruct st; cbn in *. by subst.
Qed.

(** The signed head of a ticket commits to its history. If a ticket's chain
    verifies in two databases, under whatever rings, and its heads there have one
    sequence and one hash, then its identity is the same and its events are: their
    ids, types, instants and order; or two rows hash different bytes to one
    SHA-256. *)
Theorem ticket_head_commits_to_history ring1 ring2 ticket id1 id2 t1 t2 h1 h2 : single_line_uuids →
  verifyTicketChain ring1 ticket id1 t1 = Ok tt → verifyTicketChain ring2 ticket id2 t2 = Ok tt →
  td_heads t1 !! ticket = Some h1 → td_heads t2 !! ticket = Some h2 → hd_Sequence h1 = hd_Sequence h2 → hd_Hash h1 = hd_Hash h2 →
  Forall datable (ticket_rows ticket t1 ++ ticket_rows ticket t2) →
  Z.of_nat (length (ticket_rows ticket t1)) ≤ MaxInt64 → Z.of_nat (length (ticket_rows ticket t2)) ≤ MaxInt64 →
  id1 = id2 ∧ map told (ticket_rows ticket t1) = map told (ticket_rows ticket t2) ∨
  rows_collide ticket id1 id2 (ticket_rows ticket t1) (ticket_rows ticket t2).
Proof.
  intros Hu V1 V2 H1 H2 Hs Hh [D1 D2]%Forall_app L1 L2.
  assert (Hne : ticket_rows ticket t1 ≠ []).
  { intros E. unfold verifyTicketChain in V1. rewrite E, H1 in V1. cbn in V1. by destruct (orphans _ _). }
  apply verified_rows in V1, V2; [|by eauto..]. unfold loadHead in V1, V2. rewrite H1 in V1. rewrite H2, <-Hs, <-Hh in V2.
  destruct (rows_commit ticket id1 id2 _ _ _ Hu D1 D2 L1 L2 V1 V2) as [[Hm Hid]|]; [left|by right]. split; [by apply Hid|done].
Qed.
End Commitment.

(** ** An honest day *)
#[local] Existing Instances number_uuid number_source mac_ed25519.

(** The decidable form of [one_slot], for concrete tables. *)
Definition one_slot_b (t : TrailDB) : bool :=
  let ks := map snd (map_to_list (td_tickets t)) in
  forallb (λ k1 : Ticket, forallb (λ k2 : Ticket, negb (bool_decide (tk_OrganizerID k1 = tk_OrganizerID k2)) || negb (bool_decide (tk_OrderID k1 = tk_OrderID k2)) ||
    bool_decide (tk_SlotID k1 = tk_SlotID k2)) ks) ks.

Lemma one_slot_b_true t : one_slot_b t = true → one_slot t.
Proof.
  unfold one_slot_b. intros Hb u1 u2 k1 k2 H1 H2 Hg Ho. rewrite forallb_forall in Hb.
  assert (Hin : ∀ (u : uuid) k, td_tickets t !! u = Some k → In k (map snd (map_to_list (td_tickets t)))).
  { intros u k Hu. apply List.in_map_iff. exists (u, k). split; [done|]. by apply list_elem_of_In, elem_of_map_to_list. }
  specialize (Hb k1 (Hin _ _ H1)). rewrite forallb_forall in Hb. specialize (Hb k2 (Hin _ _ H2)).
  rewrite (bool_decide_true _ Hg), (bool_decide_true _ Ho) in Hb. by apply bool_decide_eq_true in Hb.
Qed.

Definition honest_day : list (Env * AccessRequest) :=
  doors_open ++ [(door 2, OpRefund (10%N : uuid) (20%N : uuid) (70%N : uuid) 1); (door 3, show_ticket 3 20 103)].

Lemma honest_day_honest : Forall (honest_request door_ring) honest_day.
Proof.
  repeat (apply list.Forall_cons; split; [split; [intros sg E; injection E as <-; vm_compute; reflexivity|reflexivity]|]). constructor.
Qed.

#[local] Abbreviation third := (3%N : @uuid number_uuid).
#[local] Abbreviation evening := (ad_trail (run honest_day empty_access)).

Lemma honest_trail_verifies_witness :
  match td_tickets evening !! third with
  | Some k => verifyTicketChain (Some door_ring) third (identity k) evening = Ok tt
  | None => False
  end.
Proof.
  assert (Hone : one_slot_b evening = true) by (vm_compute; reflexivity).
  assert (Hin : bool_decide (is_Some (td_tickets evening !! third)) = true) by (vm_compute; reflexivity).
  apply bool_decide_eq_true in Hin as [k E]. rewrite E.
  exact (proj1 (@honest_trail_verifies number_uuid number_source mac_ed25519 mac_ed25519_laws door_ring honest_day empty_access
    eq_refl honest_day_honest (one_slot_b_true _ Hone)) _ k E).
Defined.

Lemma ticket_head_commits_to_history_witness :
  verifyTicketChain (Some door_ring) third (identity (door_ticket 3 20)) evening = Ok tt ∧
  (identity (door_ticket 3 20) = identity (door_ticket 3 20) ∧
     map told (ticket_rows third evening) = map told (ticket_rows third evening) ∨
   rows_collide third (identity (door_ticket 3 20)) (identity (door_ticket 3 20)) (ticket_rows third evening) (ticket_rows third evening)).
Proof.
  assert (Hv : verifyTicketChain (Some door_ring) third (identity (door_ticket 3 20)) evening = Ok tt) by (vm_compute; reflexivity).
  assert (Hl : (Z.of_nat (length (ticket_rows third evening)) <=? MaxInt64) = true) by (vm_compute; reflexivity).
  assert (Hd : forallb (λ r, four_digit_year (Normalize (ev_OccurredAt (rw_Event r)))) (ticket_rows third evening) = true) by (vm_compute; reflexivity).
  assert (Hh : bool_decide (is_Some (td_heads evening !! third)) = true) by (vm_compute; reflexivity).
  apply bool_decide_eq_true in Hh as [h E].
  apply Z.leb_le in Hl. assert (Hf : Forall datable (ticket_rows third evening)).
  { apply list.Forall_forall. rewrite forallb_forall in Hd. intros r Hr. exact (Hd r (proj1 (list_elem_of_In _ _) Hr)). }
  exact (conj Hv (@ticket_head_commits_to_history number_uuid number_uuid_laws mac_ed25519 (Some door_ring) (Some door_ring) third _ _
    evening evening h h number_uuid_single_line Hv Hv E E eq_refl eq_refl (proj2 (list.Forall_app _ _ _) (conj Hf Hf)) Hl Hl)).
Defined.
