(* ===== verification/TrailAudit.v ===== *)
(** * Checkpoints and the audit of the trail

    [services/access/internal/store]: lifecycle_checkpoint.go (the checkpoint of an
    organizer, the adoption of old history, the sealing of an epoch) and
    lifecycle_verify.go (the offline verifier), over the tables of [Trail]. A
    change's id and a checkpoint's are their places in their tables. *)

From S2P Require Import Prelude Tables Sha256 Lifecycle Admission Trail Gate Reconcile TicketOps.
#[local] Open Scope Z_scope.

Section Checkpoints.
Context `{UU : UUID} `{US : !UUIDSource} `{ED : Ed25519}.
Implicit Types (t : TrailDB) (en : Env).

(** ** Checkpointing an organizer *)

(** A position of an organizer's chain; zero is "never observed". *)
Record LastRoot := { lr_Sequence : Z; lr_Root : bytes }.

Record CheckpointResult := { kr_OrganizerID : uuid; kr_Sequence : Z; kr_Root : bytes; kr_LeafCount : Z }.

(** A change joined with the organizer of its ticket. *)
Record Change := { ch_ID : nat; ch_Row : HeadChange; ch_Owner : uuid }.

Definition join_ticket (f : HeadChange → bool) t (p : nat * HeadChange) : option Change :=
  if f p.2 then (λ k, {| ch_ID := p.1; ch_Row := p.2; ch_Owner := tk_OrganizerID k |}) <$> td_tickets t !! hc_Ticket p.2 else None.

Definition changes_where (f : HeadChange → bool) t : list Change := omap (join_ticket f t) (imap pair (td_changes t)).

Definition is_pending (c : HeadChange) : bool := bool_decide (hc_Checkpoint c = None).

Definition PendingCheckpointOrganizers t : gset uuid :=
  list_to_set (map hc_Organizer (List.filter is_pending (td_changes t))).

Definition pending_changes (org : uuid) t : list Change :=
  changes_where (λ c, bool_decide (hc_Organizer c = org) && is_pending c) t.

(** Every snapshot is authenticated before a root is signed over it. *)
Definition authenticate (k : Keyring) (org : uuid) (c : Change) : result AccessError unit :=
  if negb (bool_decide (ch_Owner c = org)) then Err (ErrCheckpoint "owner")
  else
    let r := ch_Row c in
    match VerifyHead k (hc_Ticket r) (hc_Sequence r) (hc_KeyID r) (hc_Hash r) (hc_Signature r) with
    | Ok _ => Ok tt
    | Err _ => Err (ErrCheckpoint "not a signed head")
    end.

Definition checkpoints_of (org : uuid) t : list Checkpoint :=
  List.filter (λ c, bool_decide (cp_OrganizerID c = org)) (map cr_Checkpoint (td_checkpoints t)).

Definition genesis_root : LastRoot := {| lr_Sequence := 0; lr_Root := GenesisHash |}.
Definition root_of (c : Checkpoint) : LastRoot := {| lr_Sequence := cp_Sequence c; lr_Root := cp_Root c |}.

(** [ORDER BY sequence DESC LIMIT 1]. *)
Definition lastCheckpoint (org : uuid) t : LastRoot :=
  match isort (on_key cp_Sequence (λ a b, b <? a)) (checkpoints_of org t) with c :: _ => root_of c | [] => genesis_root end.

(** What the process saw last is not gone. *)
Definition check_observed (observed prev : LastRoot) : result AccessError unit :=
  refuse_if ((0 <? lr_Sequence observed) &&
             ((lr_Sequence prev <? lr_Sequence observed) ||
              ((lr_Sequence prev =? lr_Sequence observed) && negb (bool_decide (lr_Root prev = lr_Root observed))))) ErrCheckpointRegression.

(** One change per ticket, the latest: the worker's map, the audit's
    [DISTINCT ON (ticket_id) ... ORDER BY ticket_id, change_id DESC]. *)
Definition keep_latest (m : gmap uuid Change) (c : Change) : gmap uuid Change :=
  match m !! hc_Ticket (ch_Row c) with
  | Some old => if (ch_ID old <? ch_ID c)%nat then <[hc_Ticket (ch_Row c) := c]> m else m
  | None => <[hc_Ticket (ch_Row c) := c]> m
  end.

Definition latest (l : list Change) : list Change := map snd (map_to_list (foldl keep_latest ∅ l)).

Definition leaf_of (c : Change) : Leaf :=
  {| lf_TicketID := hc_Ticket (ch_Row c); lf_Sequence := hc_Sequence (ch_Row c); lf_HeadHash := hc_Hash (ch_Row c) |}.

Definition insert_checkpoint (r : CheckpointRow) t : result AccessError TrailDB :=
  let c := cr_Checkpoint r in
  _ ← ensure ((0 <? cp_Sequence c) && octets 32 (cp_PreviousRoot c) && octets 32 (cp_Root c) && (0 <? cp_LeafCount c) &&
              octets 64 (cr_Signature r) &&
              negb (existsb (λ d, cp_Sequence d =? cp_Sequence c) (checkpoints_of (cp_OrganizerID c) t))) ErrDatabase;
  Ok {| td_tickets := td_tickets t; td_events := td_events t; td_integrity := td_integrity t; td_heads := td_heads t;
        td_changes := td_changes t; td_checkpoints := td_checkpoints t ++ [r]; td_epochs := td_epochs t |}.

Definition assigned (id : nat) (c : HeadChange) : HeadChange := {|
  hc_Ticket := hc_Ticket c; hc_Organizer := hc_Organizer c; hc_Sequence := hc_Sequence c; hc_Hash := hc_Hash c;
  hc_Version := hc_Version c; hc_KeyID := hc_KeyID c; hc_Signature := hc_Signature c; hc_Checkpoint := Some id;
  hc_CreatedAt := hc_CreatedAt c |}.

Definition assign_changes (id : nat) (ids : list nat) t : TrailDB :=
  set_changes (imap (λ i c, if bool_decide (i ∈ ids) then assigned id c else c) (td_changes t)) t.

Definition merkle (leaves : list Leaf) : result AccessError bytes :=
  match MerkleRoot leaves with Ok r => Ok r | Err e => Err (ErrMerkle e) end.

Definition nothing_pending : CheckpointResult := {| kr_OrganizerID := uuid_Nil; kr_Sequence := 0; kr_Root := nil_bytes; kr_LeafCount := 0 |}.

(** The checkpoint over a set of changes, chained to the last one. *)
Definition next_checkpoint (sg : Signer) (now : time) (org : uuid) (prev : LastRoot) (root : bytes) (n : Z) : CheckpointRow :=
  let cp := {| cp_OrganizerID := org; cp_Sequence := add64 (lr_Sequence prev) 1; cp_PreviousRoot := lr_Root prev; cp_Root := root;
               cp_LeafCount := n; cp_KeyID := sg_kid sg; cp_CreatedAt := now |} in
  {| cr_Checkpoint := cp; cr_Version := CanonicalVersion; cr_Signature := SignCheckpoint sg cp |}.

Definition CheckpointOrganizer en (org : uuid) (observed : LastRoot) t : result AccessError (TrailDB * CheckpointResult) :=
  match en_Signer en with
  | None => Err ErrLifecycleUnsigned
  | Some sg =>
      let changes := pending_changes org t in
      if bool_decide (length changes = 0%nat) then Ok (t, nothing_pending)
      else
        match en_Keyring en with
        | None => Err (ErrCheckpoint "keyring")
        | Some k =>
            _ ← fold_result (λ _ c, authenticate k org c) tt changes;
            let prev := lastCheckpoint org t in
            _ ← check_observed observed prev;
            let leaves := map leaf_of (latest changes) in
            root ← merkle leaves;
            let row := next_checkpoint sg (p_now en) org prev root (Z.of_nat (length leaves)) in
            let id := length (td_checkpoints t) in
            t ← insert_checkpoint row t;
            Ok (assign_changes id (map ch_ID changes) t,
                {| kr_OrganizerID := org; kr_Sequence := cp_Sequence (cr_Checkpoint row); kr_Root := root;
                   kr_LeafCount := Z.of_nat (length leaves) |})
        end
  end.

Definition OldestPendingChange t : option time :=
  match isort Z.ltb (map hc_CreatedAt (List.filter is_pending (td_changes t))) with x :: _ => Some x | [] => None end.

(** ** Adopting history *)

Definition unchained t : list uuid :=
  isort uuid_ltb (map fst (List.filter (λ p : uuid * Ticket,
    some_row (λ e, bool_decide (ev_Ticket e = p.1)) (td_events t) && negb (is_set (td_heads t !! p.1))) (map_to_list (td_tickets t)))).

Definition event_before : uuid * EventRow → uuid * EventRow → bool :=
  lex (on_key (λ p, ev_OccurredAt p.2) Z.ltb) (on_key fst uuid_ltb).

(** A ticket's events in the order the trail has always presented. *)
Definition legacy_events (ticket : uuid) t : list (uuid * EventRow) :=
  isort event_before (List.filter (λ p, bool_decide (ev_Ticket p.2 = ticket)) (map_to_list (td_events t))).

Definition adopt_event (ticket : uuid) (id : TicketIdentity) (st : TrailDB * (Z * bytes)) (p : uuid * EventRow)
    : result AccessError (TrailDB * (Z * bytes)) :=
  let seq := add64 st.2.1 1 in
  let hash := HashEntry st.2.2 (event_canonical ticket id seq p.1 (ev_Type p.2) (Normalize (ev_OccurredAt p.2))) in
  t ← insert_integrity p.1 {| ig_Ticket := ticket; ig_Sequence := seq; ig_Version := CanonicalVersion;
                              ig_PreviousHash := st.2.2; ig_EntryHash := hash |} st.1;
  Ok (t, (seq, hash)).

(** The plain insert: a head already there is the database's refusal. *)
Definition insert_head (ticket : uuid) (row : HeadRow) t : result AccessError TrailDB :=
  _ ← ensure (bool_decide (td_heads t !! ticket = None)) ErrDatabase;
  upsert_head ticket row t.

Definition backfillTicket en (sg : Signer) (ticket : uuid) t : result AccessError TrailDB :=
  match td_tickets t !! ticket with
  | None => Err ErrDatabase
  | Some k =>
      _ ← refuse_if (some_row (λ i, bool_decide (ig_Ticket i = ticket)) (td_integrity t)) (ErrInvalid "partial coverage");
      let events := legacy_events ticket t in
      if bool_decide (length events = 0%nat) then Ok t
      else
        st ← fold_result (adopt_event ticket (identity k)) (t, (0, GenesisHash)) events;
        let seq := st.2.1 in
        let hash := st.2.2 in
        let signature := SignHead sg ticket seq hash in
        t ← insert_head ticket {| hd_Organizer := tk_OrganizerID k; hd_Sequence := seq; hd_Version := CanonicalVersion; hd_Hash := hash;
                                  hd_KeyID := sg_kid sg; hd_Signature := signature; hd_ChangedAt := p_now en |} st.1;
        queue_change {| hc_Ticket := ticket; hc_Organizer := tk_OrganizerID k; hc_Sequence := seq; hc_Hash := hash;
                        hc_Version := CanonicalVersion; hc_KeyID := sg_kid sg; hc_Signature := signature; hc_Checkpoint := None;
                        hc_CreatedAt := timestamptz (en_DBNow en) |} t
  end.

(** One transaction per ticket: what went before an error stays. *)
Fixpoint backfill_all en (sg : Signer) (ids : list uuid) (total_ : Z) t : TrailDB * Z * option AccessError :=
  match ids with
  | [] => (t, total_, None)
  | u :: ids' =>
      match backfillTicket en sg u t with
      | Ok t => backfill_all en sg ids' (total_ + 1) t
      | Err e => (t, total_, Some e)
      end
  end.

(** The batches, until none is left; [None] when the fuel is not enough. *)
Fixpoint backfill_batches (fuel : nat) en (sg : Signer) (batch : nat) (total_ : Z) t : option (TrailDB * Z * option AccessError) :=
  let ids := take batch (unchained t) in
  match ids, fuel with
  | [], _ => Some (t, total_, None)
  | _, O => None
  | _, S fuel' =>
      match backfill_all en sg ids total_ t with
      | (t, n, None) => backfill_batches fuel' en sg batch n t
      | stopped => Some stopped
      end
  end.

Definition BackfillLifecycle en (batch : Z) t : option (TrailDB * Z * option AccessError) :=
  match en_Signer en with
  | None => Some (t, 0, Some ErrLifecycleUnsigned)
  | Some sg => backfill_batches (S (size (td_tickets t))) en sg (if batch <=? 0 then 128%nat else Z.to_nat batch) 0 t
  end.

(** ** Sealing an epoch *)

Definition seal_head (now : time) (p : uuid * HeadRow) (m : gmap (uuid * string) EpochRow) : gmap (uuid * string) EpochRow :=
  let h := p.2 in
  match m !! (p.1, hd_KeyID h) with
  | Some _ => m
  | None => <[(p.1, hd_KeyID h) := {| ep_Sequence := hd_Sequence h; ep_Version := hd_Version h; ep_Hash := hd_Hash h;
                                     ep_Signature := hd_Signature h; ep_SealedAt := now |}]> m
  end.

Definition SealEpoch en t : TrailDB * Z :=
  let sealed := foldr (seal_head (p_now en)) (td_epochs t) (map_to_list (td_heads t)) in
  ({| td_tickets := td_tickets t; td_events := td_events t; td_integrity := td_integrity t; td_heads := td_heads t;
      td_changes := td_changes t; td_checkpoints := td_checkpoints t; td_epochs := sealed |},
   Z.of_nat (size sealed) - Z.of_nat (size (td_epochs t))).
End Checkpoints.

Section Audit.
Context `{UU : UUID} `{ED : Ed25519}.
Implicit Types (t : TrailDB).

(** ** The offline verifier *)

Record VerifyOptions := { vo_MaxPendingAge : Z; vo_RequireCoverage : bool }.

Inductive AuditError :=
| AuditNoKeyring
| AuditChain (ticket : uuid) (reason : AlarmReason)
| AuditHead (ticket : uuid) (reason : AlarmReason)
| AuditOrphan
| AuditEpoch (ticket : uuid) (kid : string)
| AuditCheckpoint (org : uuid) (sequence : Z) (what : string)
| AuditPending (age : Z).

(** An event with its ticket's identity, joined with the integrity row of its id,
    whichever ticket that names. *)
Record AuditRow := { ar_Ticket : uuid; ar_Identity : TicketIdentity; ar_Row : ChainRow }.

Definition audit_row t (p : uuid * EventRow) : option AuditRow :=
  (λ k, {| ar_Ticket := ev_Ticket p.2; ar_Identity := identity k;
           ar_Row := {| rw_ID := p.1; rw_Event := p.2; rw_Integrity := td_integrity t !! p.1 |} |}) <$> td_tickets t !! ev_Ticket p.2.

Definition audit_before : AuditRow → AuditRow → bool :=
  lex (on_key ar_Ticket uuid_ltb) (on_key (λ r, row_seq (ar_Row r)) seq_less).

Definition audit_rows t : list AuditRow := isort audit_before (omap (audit_row t) (map_to_list (td_events t))).

Record AuditState := { as_current : uuid; as_state : Z * bytes; as_computed : gmap uuid (Z * bytes) }.

Definition audit_start : AuditState := {| as_current := uuid_Nil; as_state := (0, GenesisHash); as_computed := ∅ |}.

(** One row of the ordered pass; a row without coverage is skipped when that is
    not required. *)
Definition auditRow (coverage : bool) (st : AuditState) (r : AuditRow) : result AuditError AuditState :=
  let ticket := ar_Ticket r in
  let state := if bool_decide (ticket = as_current st) then as_state st else (0, GenesisHash) in
  match rw_Integrity (ar_Row r), coverage with
  | None, false => Ok {| as_current := ticket; as_state := state; as_computed := as_computed st |}
  | _, _ =>
      match verifyRow ticket (ar_Identity r) state (ar_Row r) with
      | Ok state' => Ok {| as_current := ticket; as_state := state'; as_computed := <[ticket := state']> (as_computed st) |}
      | Err reason => Err (AuditChain ticket reason)
      end
  end.

Definition verifyChains (opts : VerifyOptions) t : result AuditError (gmap uuid (Z * bytes)) :=
  st ← fold_result (auditRow (vo_RequireCoverage opts)) audit_start (audit_rows t); Ok (as_computed st).

Definition auditHead (k : Keyring) (computed : gmap uuid (Z * bytes)) (p : uuid * HeadRow) : result AuditError unit :=
  let h := p.2 in
  if negb (hd_Version h =? CanonicalVersion) then Err (AuditHead p.1 AlarmReasonUnsupportedCanonicalVersion)
  else
    match computed !! p.1 with
    | None => Err (AuditHead p.1 AlarmReasonHeadWithoutEvents)
    | Some want =>
        if negb (want.1 =? hd_Sequence h) || negb (bool_decide (want.2 = hd_Hash h)) then Err (AuditHead p.1 AlarmReasonHeadMismatch)
        else
          match VerifyHead k p.1 (hd_Sequence h) (hd_KeyID h) (hd_Hash h) (hd_Signature h) with
          | Ok _ => Ok tt
          | Err _ => Err (AuditHead p.1 AlarmReasonInvalidHeadSignature)
          end
    end.

(** Every row of a table passes; the first that does not, in some order, is the error. *)
Definition check_all {A} (f : A → result AuditError unit) (l : list A) : result AuditError unit :=
  fold_result (λ _ x, f x) tt l.

Definition headSeen t (p : uuid * (Z * bytes)) : result AuditError unit :=
  if is_set (td_heads t !! p.1) then Ok tt else Err (AuditHead p.1 AlarmReasonMissingHead).

Definition verifyHeads (k : Keyring) (computed : gmap uuid (Z * bytes)) t : result AuditError unit :=
  _ ← check_all (auditHead k computed) (map_to_list (td_heads t));
  check_all (headSeen t) (map_to_list computed).

Definition matching_event t (p : uuid * IntegrityRow) : bool :=
  bool_decide (ev_Ticket <$> td_events t !! p.1 = Some (ig_Ticket p.2)).

Definition verifyOrphanIntegrity t : result AuditError unit :=
  if forallb (matching_event t) (map_to_list (td_integrity t)) then Ok tt else Err AuditOrphan.

Definition auditEpoch (k : Keyring) (p : uuid * string * EpochRow) : result AuditError unit :=
  let e := p.2 in
  if negb (ep_Version e =? CanonicalVersion) then Err (AuditEpoch p.1.1 p.1.2)
  else
    match VerifyHead k p.1.1 (ep_Sequence e) p.1.2 (ep_Hash e) (ep_Signature e) with
    | Ok _ => Ok tt
    | Err _ => Err (AuditEpoch p.1.1 p.1.2)
    end.

Definition verifyEpochSignatures (k : Keyring) t : result AuditError unit := check_all (auditEpoch k) (map_to_list (td_epochs t)).

(** ** Checkpoints *)

(** A checkpoint with its id. *)
Definition numbered_checkpoints t : list (nat * CheckpointRow) := imap pair (td_checkpoints t).

Definition cp_of (p : nat * CheckpointRow) : Checkpoint := cr_Checkpoint p.2.

Definition checkpoint_before : nat * CheckpointRow → nat * CheckpointRow → bool :=
  lex (on_key (λ p, cp_OrganizerID (cp_of p)) uuid_ltb) (on_key (λ p, cp_Sequence (cp_of p)) Z.ltb).

Definition with_time (c : Checkpoint) : Checkpoint := {|
  cp_OrganizerID := cp_OrganizerID c; cp_Sequence := cp_Sequence c; cp_PreviousRoot := cp_PreviousRoot c; cp_Root := cp_Root c;
  cp_LeafCount := cp_LeafCount c; cp_KeyID := cp_KeyID c; cp_CreatedAt := Normalize (cp_CreatedAt c) |}.

Definition auditLeaf (k : Keyring) (cp : Checkpoint) (c : Change) : result AuditError unit :=
  let r := ch_Row c in
  let fail what := Err (AuditCheckpoint (cp_OrganizerID cp) (cp_Sequence cp) what) in
  if negb (hc_Version r =? CanonicalVersion) then fail "leaf version"%string
  else if negb (bool_decide (ch_Owner c = cp_OrganizerID cp)) then fail "leaf owner"%string
  else
    match VerifyHead k (hc_Ticket r) (hc_Sequence r) (hc_KeyID r) (hc_Hash r) (hc_Signature r) with
    | Ok _ => Ok tt
    | Err _ => fail "leaf signature"%string
    end.

Definition assigned_changes (id : nat) t : list Change := changes_where (λ c, bool_decide (hc_Checkpoint c = Some id)) t.

Definition checkpointLeaves (k : Keyring) (p : nat * CheckpointRow) t : result AuditError (list Leaf) :=
  let changes := isort (on_key (λ c, hc_Ticket (ch_Row c)) uuid_ltb) (latest (assigned_changes p.1 t)) in
  _ ← check_all (auditLeaf k (cp_of p)) changes;
  Ok (map leaf_of changes).

(** The organizer and the position the walk is at. *)
Definition auditCheckpoint (k : Keyring) t (st : uuid * LastRoot) (p : nat * CheckpointRow) : result AuditError (uuid * LastRoot) :=
  let cp := with_time (cp_of p) in
  let prev := if bool_decide (cp_OrganizerID cp = st.1) then st.2 else genesis_root in
  let fail {A} what : result AuditError A := Err (AuditCheckpoint (cp_OrganizerID cp) (cp_Sequence cp) what) in
  if negb (cp_Sequence cp =? add64 (lr_Sequence prev) 1) then fail "gap"%string
  else if negb (bool_decide (cp_PreviousRoot cp = lr_Root prev)) then fail "link"%string
  else
    leaves ← checkpointLeaves k p t;
    if negb (Z.of_nat (length leaves) =? cp_LeafCount cp) then fail "leaf count"%string
    else
      match MerkleRoot leaves with
      | Err _ => fail "merkle"%string
      | Ok root =>
          if negb (bool_decide (root = cp_Root cp)) then fail "root"%string
          else
            match VerifyCheckpoint k cp (cr_Signature p.2) with
            | Ok _ => Ok (cp_OrganizerID cp, root_of cp)
            | Err _ => fail "signature"%string
            end
      end.

Definition checkpoint_version (p : nat * CheckpointRow) : result AuditError unit :=
  if cr_Version p.2 =? CanonicalVersion then Ok tt
  else Err (AuditCheckpoint (cp_OrganizerID (cp_of p)) (cp_Sequence (cp_of p)) "version"%string).

Definition verifyCheckpoints (k : Keyring) t : result AuditError unit :=
  let all := isort checkpoint_before (numbered_checkpoints t) in
  _ ← check_all checkpoint_version all;
  _ ← fold_result (auditCheckpoint k t) (uuid_Nil, genesis_root) all;
  Ok tt.

Definition verifyPendingAge (opts : VerifyOptions) (now : time) t : result AuditError unit :=
  if vo_MaxPendingAge opts <=? 0 then Ok tt
  else
    match OldestPendingChange t with
    | None => Ok tt
    | Some oldest => refuse_if (now - oldest >? vo_MaxPendingAge opts) (AuditPending (now - oldest))
    end.

(** [now] is [p.now()]. *)
Definition VerifyLifecycle (ring : option Keyring) (now : time) (opts : VerifyOptions) t : result AuditError unit :=
  match ring with
  | None => Err AuditNoKeyring
  | Some k =>
      computed ← verifyChains opts t;
      _ ← verifyHeads k computed t;
      _ ← verifyOrphanIntegrity t;
      _ ← verifyEpochSignatures k t;
      _ ← verifyCheckpoints k t;
      verifyPendingAge opts now t
  end.
End Audit.
