(* ===== verification/AuditSafety.v ===== *)
(** * What the audit and the gate agree on

    The offline verifier walks all tickets in one ordered pass; the gate verifies
    one ticket. They accept the same trails. *)

From S2P Require Import Prelude Tables Sha256 Lifecycle Admission Trail Gate Reconcile TicketOps TrailRuns AccessRuns GateSafety TrailIntegrity TrailAudit.
#[local] Open Scope Z_scope.

(** ** Walking a table that is sorted by a key

    A walk that starts afresh whenever the key changes, and notes the state it
    reached for each key, does for every key what a walk over that key's rows
    alone would do. *)
Section Walks.
Context {A K S E : Type} `{Countable K} (key : A → K) (less : K → K → bool) (step : S → A → result E S) (init : S).
Context `{!LessOrder less} (less_total : ∀ a b, less a b = false → less b a = false → a = b).

Definition group (k : K) (l : list A) : list A := List.filter (λ x, bool_decide (key x = k)) l.

Definition walk (st : K * S * gmap K S) (x : A) : result E (K * S * gmap K S) :=
  let s := if bool_decide (key x = st.1.1) then st.1.2 else init in
  s' ← step s x; Ok (key x, s', <[key x := s']> st.2).

Definition started (cur : K) (s : S) (k : K) : S := if bool_decide (k = cur) then s else init.

Definition walk_outcome (cur : K) (s : S) (m : gmap K S) (l : list A) (r : result E (K * S * gmap K S)) : Prop :=
  match r with
  | Ok st => ∀ k, ∃ s', fold_result step (started cur s k) (group k l) = Ok s' ∧
                        st.2 !! k = if bool_decide (group k l = []) then m !! k else Some s'
  | Err _ => ∃ k e, fold_result step (started cur s k) (group k l) = Err e
  end.

Lemma group_nil k l : (∀ x, x ∈ l → key x ≠ k) → group k l = [].
Proof.
  induction l as [|x l IH]; [done|]. intros Hl. unfold group. cbn. rewrite bool_decide_false by apply Hl, list_elem_of_here.
  apply IH. intros y Hy. by apply Hl, list_elem_of_further.
Qed.

Lemma walk_spec l : ∀ cur s m, StronglySorted (not_after (on_key key less)) l →
  (s = init ∨ ∀ x, x ∈ l → less (key x) cur = false) →
  walk_outcome cur s m l (fold_result walk (cur, s, m) l).
Proof.
  induction l as [|x l IH]; intros cur s m Hs Hcur.
  { unfold walk_outcome. cbn [fold_result]. intros k. exists (started cur s k). split; [done|]. by rewrite bool_decide_true. }
  apply StronglySorted_inv in Hs as [Hs Hx]. rewrite list.Forall_forall in Hx.
  assert (Hle : ∀ y, y ∈ l → less (key y) (key x) = false) by (intros y Hy; by apply Hx).
  assert (Hother : ∀ k, k ≠ key x → (started cur s k = init ∨ group k l = [])).
  { intros k Hk. unfold started. case_bool_decide as Hc; [|by left]. subst k. destruct Hcur as [|Hcur]; [by left|right].
    apply group_nil. intros y Hy Hyc. apply Hk. rewrite <-Hyc. apply less_total; [by apply Hle|]. rewrite Hyc. apply Hcur, list_elem_of_here. }
  assert (Hgx : group (key x) (x :: l) = x :: group (key x) l) by (unfold group; cbn; by rewrite bool_decide_true).
  assert (Hgo : ∀ k, k ≠ key x → group k (x :: l) = group k l) by (intros k Hk; unfold group; cbn; by rewrite bool_decide_false).
  cbn [fold_result]. unfold walk at 1. cbn [fst snd]. fold (started cur s (key x)).
  destruct (step (started cur s (key x)) x) as [s'|e] eqn:Es; cbn [mbind result_bind].
  2: { exists (key x), e. rewrite Hgx. cbn. by rewrite Es. }
  pose proof (IH (key x) s' (<[key x := s']> m) Hs (or_intror Hle)) as Hout.
  unfold walk_outcome in *. destruct (fold_result walk _ l) as [st|e].
  - intros k. destruct (Hout k) as (sk & Hf & Hm). destruct (decide (k = key x)) as [->|Hk].
    + exists sk. unfold started in Hf. rewrite bool_decide_true in Hf by done. rewrite Hgx. cbn [fold_result]. rewrite Es, Hf. split; [done|].
      rewrite (bool_decide_false (_ :: _ = [])) by done. rewrite Hm. case_bool_decide as Hg; [|done].
      rewrite Hg in Hf. injection Hf as <-. apply lookup_insert_eq.
    + unfold started in Hf at 1. rewrite bool_decide_false in Hf by done. rewrite Hgo by done.
      rewrite lookup_insert_ne in Hm by done. destruct (Hother k Hk) as [->|Hg]; [by exists sk|].
      exists (started cur s k). rewrite Hg in *. split; [done|]. by rewrite Hm.
  - destruct Hout as (k & e' & Hf). destruct (decide (k = key x)) as [->|Hk].
    + exists (key x), e'. unfold started in Hf. rewrite bool_decide_true in Hf by done. rewrite Hgx. cbn. by rewrite Es.
    + exists k, e'. unfold started in Hf at 1. rewrite bool_decide_false in Hf by done. rewrite Hgo by done.
      destruct (Hother k Hk) as [->|Hg]; [done|]. rewrite Hg in Hf. done.
Qed.

(** From the start. *)
Lemma walk_each k0 l st : StronglySorted (not_after (on_key key less)) l → fold_result walk (k0, init, ∅) l = Ok st →
  ∀ k, ∃ s, fold_result step init (group k l) = Ok s ∧ st.2 !! k = if bool_decide (group k l = []) then None else Some s.
Proof.
  intros Hs Hf k. pose proof (walk_spec l k0 init ∅ Hs (or_introl eq_refl)) as Hout. rewrite Hf in Hout. destruct (Hout k) as (s & Hk & Hm).
  exists s. unfold started in Hk. by destruct (bool_decide _).
Qed.

Lemma walk_all k0 l : StronglySorted (not_after (on_key key less)) l →
  (∀ k, ∃ s, fold_result step init (group k l) = Ok s) → ∃ st, fold_result walk (k0, init, ∅) l = Ok st.
Proof.
  intros Hs Hall. pose proof (walk_spec l k0 init ∅ Hs (or_introl eq_refl)) as Hout.
  destruct (fold_result walk _ l) as [st|e]; [by exists st|]. destruct Hout as (k & e' & Hf). unfold started in Hf.
  destruct (Hall k) as [s Hk]. destruct (bool_decide _); congruence.
Qed.
End Walks.

Section Chains.
Context `{UL : UUIDLaws} `{ED : Ed25519} (ring : Keyring).
Implicit Types (t : TrailDB) (ticket : uuid).

(** ** The pass over all tickets, ticket by ticket *)

Definition audit_step (st : Z * bytes) (r : AuditRow) : result AuditError (Z * bytes) :=
  match verifyRow (ar_Ticket r) (ar_Identity r) st (ar_Row r) with Ok st' => Ok st' | Err e => Err (AuditChain (ar_Ticket r) e) end.

(** With coverage required, the verifier's loop is the walk. *)
Lemma audit_walk l : ∀ st, fold_result (auditRow true) st l =
  match fold_result (walk ar_Ticket audit_step (0, GenesisHash)) (as_current st, as_state st, as_computed st) l with
  | Ok s => Ok {| as_current := s.1.1; as_state := s.1.2; as_computed := s.2 |}
  | Err e => Err e
  end.
Proof.
  induction l as [|r l IH]; intros st; [by destruct st|]. cbn [fold_result]. unfold auditRow at 1, walk at 1, audit_step at 1. cbn [fst snd].
  set (s := if bool_decide _ then _ else _). destruct (rw_Integrity (ar_Row r)); (destruct (verifyRow _ _ s _); [apply IH|done]).
Qed.

(** The database's foreign keys. *)
Record references_ok t : Prop := {
  rf_events i e : td_events t !! i = Some e → is_Some (td_tickets t !! ev_Ticket e);
  rf_integrity i r : td_integrity t !! i = Some r → is_Some (td_tickets t !! ig_Ticket r);
  rf_heads u h : td_heads t !! u = Some h → is_Some (td_tickets t !! u);
}.

(** Every integrity row is of its event's ticket. *)
Definition no_orphans t : Prop := ∀ i r, td_integrity t !! i = Some r → ev_Ticket <$> td_events t !! i = Some (ig_Ticket r).

Lemma verifyOrphanIntegrity_Ok t : verifyOrphanIntegrity t = Ok tt ↔ no_orphans t.
Proof.
  unfold verifyOrphanIntegrity, no_orphans. destruct (forallb _ _) eqn:E; split; try done.
  - intros _ i r Hi. rewrite forallb_forall in E. specialize (E (i, r)). unfold matching_event in E. cbn in E.
    eapply bool_decide_eq_true, E. by apply list_elem_of_In, elem_of_map_to_list.
  - intros Hall. apply not_true_iff_false in E. exfalso. apply E, forallb_forall. intros [i r] Hin. unfold matching_event.
    apply bool_decide_true, Hall. by apply elem_of_map_to_list, list_elem_of_In.
Qed.

Lemma orphans_false t ticket : no_orphans t → orphans ticket t = false.
Proof.
  intros Hno. unfold orphans. apply not_true_iff_false. intros ([i r] & Hin & Hb)%existsb_exists. cbn in Hb. zbool.
  apply list_elem_of_In, elem_of_map_to_list in Hin. by apply H1, Hno.
Qed.

(** A ticket's rows of the audit are the rows the gate reads. *)
Definition audit_of (ticket : uuid) (id : TicketIdentity) (r : ChainRow) : AuditRow :=
  {| ar_Ticket := ticket; ar_Identity := id; ar_Row := r |}.

Lemma omap_group t ticket k : no_orphans t → td_tickets t !! ticket = Some k → ∀ l, (∀ p, p ∈ l → td_events t !! p.1 = Some p.2) →
  List.filter (λ r, bool_decide (ar_Ticket r = ticket)) (omap (audit_row t) l) =
  map (audit_of ticket (identity k)) (map (λ p, join_integrity t p.1 p.2) (List.filter (λ p, bool_decide (ev_Ticket p.2 = ticket)) l)).
Proof.
  intros Hno Hk. induction l as [|p l IH]; intros Hl; [done|].
  assert (Hrest := IH (λ q Hq, Hl q (list_elem_of_further _ _ _ Hq))). pose proof (Hl p (list_elem_of_here _ _)) as Hp.
  cbn [omap list_omap List.filter]. unfold audit_row at 1. destruct (decide (ev_Ticket p.2 = ticket)) as [Ht|Ht].
  - rewrite (bool_decide_true (ev_Ticket p.2 = ticket)) by done. rewrite Ht, Hk. cbn [fmap option_fmap option_map List.filter ar_Ticket map].
    rewrite (bool_decide_true (ticket = ticket)), Hrest by done. f_equal. unfold audit_of, join_integrity. f_equal. f_equal.
    destruct (td_integrity t !! p.1) as [r|] eqn:Er; [|done]. cbn. rewrite bool_decide_true; [done|].
    pose proof (Hno _ _ Er) as Hr. rewrite Hp in Hr. cbn in Hr. by injection Hr.
  - rewrite (bool_decide_false (ev_Ticket p.2 = ticket)) by done. destruct (td_tickets t !! ev_Ticket p.2); cbn [fmap option_fmap option_map]; [|done].
    cbn [List.filter ar_Ticket]. by rewrite bool_decide_false.
Qed.

Lemma uuid_ltb_irrefl u : uuid_ltb u u = false.
Proof. apply (less_irrefl uuid_ltb). Qed.

Lemma group_audit_rows t ticket k : no_orphans t → td_tickets t !! ticket = Some k →
  group ar_Ticket ticket (audit_rows t) = map (audit_of ticket (identity k)) (ticket_rows ticket t).
Proof.
  intros Hno Hk. unfold group, audit_rows. rewrite filter_isort by (unfold audit_before; apply _).
  rewrite (omap_group t ticket k Hno Hk); [|intros p Hp; by apply elem_of_map_to_list; destruct p].
  unfold ticket_rows, ticket_events. apply isort_map. intros a b. unfold audit_before, lex, on_key, audit_of. cbn. by rewrite uuid_ltb_irrefl.
Qed.

Lemma group_no_ticket t ticket : td_tickets t !! ticket = None → group ar_Ticket ticket (audit_rows t) = [].
Proof.
  intros Hk. apply group_nil. intros r. unfold audit_rows. rewrite elem_of_isort. intros (p & Hp & Hr)%list_elem_of_omap Ht.
  unfold audit_row in Hr. destruct (td_tickets t !! ev_Ticket p.2) eqn:E; [|done]. injection Hr as <-. cbn in Ht. congruence.
Qed.

Lemma fold_audit_step ticket id rows : ∀ st s, fold_result audit_step st (map (audit_of ticket id) rows) = Ok s ↔
  fold_result (verifyRow ticket id) st rows = Ok s.
Proof.
  induction rows as [|r rows IH]; intros st s; [by split; intros [= ->]|]. cbn. unfold audit_step at 1. cbn [ar_Ticket ar_Identity ar_Row audit_of].
  destruct (verifyRow ticket id st r) as [st'|]; [apply IH|by split].
Qed.

Lemma audit_rows_sorted t : StronglySorted (not_after (on_key ar_Ticket uuid_ltb)) (audit_rows t).
Proof.
  assert (Hs : StronglySorted (not_after audit_before) (audit_rows t)) by (apply isort_sorted; unfold audit_before; apply _).
  induction Hs as [|r l _ IH Hr]; constructor; [done|]. rewrite list.Forall_forall in *. intros x Hx. specialize (Hr x Hx).
  unfold not_after, audit_before, lex in Hr. unfold not_after. by destruct (on_key ar_Ticket uuid_ltb x r).
Qed.

Definition covered : VerifyOptions := {| vo_MaxPendingAge := 0; vo_RequireCoverage := true |}.

(** What the chain pass finds, when it accepts. *)
Lemma verifyChains_Ok t computed : no_orphans t → verifyChains covered t = Ok computed → ∀ ticket k, td_tickets t !! ticket = Some k →
  ∃ st, fold_result (verifyRow ticket (identity k)) (0, GenesisHash) (ticket_rows ticket t) = Ok st ∧
        computed !! ticket = if bool_decide (ticket_rows ticket t = []) then None else Some st.
Proof.
  intros Hno Hv ticket k Hk. unfold verifyChains in Hv. rewrite audit_walk in Hv. apply bind_Ok in Hv as (st & Hv & [= <-]).
  destruct (fold_result (walk _ _ _) _ _) as [s|] eqn:E; [|done]. injection Hv as <-. cbn.
  destruct (walk_each ar_Ticket uuid_ltb audit_step (0, GenesisHash) uuid_ltb_total _ _ _ (audit_rows_sorted t) E ticket) as (x & Hf & Hc).
  rewrite (group_audit_rows t ticket k Hno Hk) in Hf, Hc. apply fold_audit_step in Hf. exists x. split; [done|]. rewrite Hc.
  by destruct (ticket_rows ticket t).
Qed.

Lemma computed_tickets t computed ticket : verifyChains covered t = Ok computed → is_Some (computed !! ticket) → is_Some (td_tickets t !! ticket).
Proof.
  intros Hv Hc. destruct (td_tickets t !! ticket) eqn:E; [done|]. unfold verifyChains in Hv. rewrite audit_walk in Hv.
  apply bind_Ok in Hv as (st & Hv & [= <-]). destruct (fold_result (walk _ _ _) _ _) as [s|] eqn:Ef; [|done]. injection Hv as <-. cbn in Hc.
  destruct (walk_each ar_Ticket uuid_ltb audit_step (0, GenesisHash) uuid_ltb_total _ _ _ (audit_rows_sorted t) Ef ticket) as (x & _ & Hx).
  rewrite (group_no_ticket t ticket E), bool_decide_true in Hx by done. rewrite Hx in Hc. by destruct Hc.
Qed.

Lemma verifyChains_accepts t : no_orphans t →
  (∀ ticket k, td_tickets t !! ticket = Some k → ∃ st, fold_result (verifyRow ticket (identity k)) (0, GenesisHash) (ticket_rows ticket t) = Ok st) →
  ∃ computed, verifyChains covered t = Ok computed.
Proof.
  intros Hno Hall. unfold verifyChains. rewrite audit_walk.
  destruct (walk_all ar_Ticket uuid_ltb audit_step (0, GenesisHash) uuid_ltb_total uuid_Nil (audit_rows t) (audit_rows_sorted t)) as [st Hst].
  - intros ticket. destruct (td_tickets t !! ticket) as [k|] eqn:E.
    + rewrite (group_audit_rows t ticket k Hno E). destruct (Hall ticket k E) as [st Hst]. exists st. by apply fold_audit_step.
    + rewrite (group_no_ticket t ticket E). by eexists.
  - cbn [as_current as_state as_computed audit_start covered vo_RequireCoverage]. rewrite Hst. by eexists.
Qed.

(** ** Heads *)

Lemma check_all_Ok {A} (f : A → result AuditError unit) l : check_all f l = Ok tt ↔ ∀ x, x ∈ l → f x = Ok tt.
Proof.
  unfold check_all. induction l as [|x l IH]; cbn; [split; [intros _ x Hx; by apply elem_of_nil in Hx|done]|].
  destruct (f x) as [[]|e] eqn:E; split.
  - intros Hl y [->|Hy]%elem_of_cons; [done|by apply IH].
  - intros Hall. apply IH. intros y Hy. by apply Hall, list_elem_of_further.
  - done.
  - intros Hall. rewrite (Hall x) in E by apply list_elem_of_here. done.
Qed.

Lemma verifyHeads_Ok computed t : verifyHeads ring computed t = Ok tt ↔
  (∀ u h, td_heads t !! u = Some h → auditHead ring computed (u, h) = Ok tt) ∧ (∀ u, is_Some (computed !! u) → is_Some (td_heads t !! u)).
Proof.
  unfold verifyHeads. split.
  - intros ([] & H1 & H2)%bind_Ok. rewrite check_all_Ok in H1. rewrite check_all_Ok in H2. split.
    + intros u h Hu. apply H1. by apply elem_of_map_to_list.
    + intros u [st Hu]. specialize (H2 (u, st) ltac:(by apply elem_of_map_to_list)). unfold headSeen in H2. cbn in H2.
      by destruct (td_heads t !! u).
  - intros [H1 H2]. assert (check_all (auditHead ring computed) (map_to_list (td_heads t)) = Ok tt) as ->.
    { apply check_all_Ok. intros [u h] Hu. apply H1. by apply elem_of_map_to_list. }
    cbn. apply check_all_Ok. intros [u st] Hu%elem_of_map_to_list. unfold headSeen. cbn. destruct (H2 u ltac:(by eexists)) as [h ->]. done.
Qed.

Lemma auditHead_Ok computed u h : auditHead ring computed (u, h) = Ok tt ↔
  hd_Version h = CanonicalVersion ∧ computed !! u = Some (hd_Sequence h, hd_Hash h) ∧
  VerifyHead ring u (hd_Sequence h) (hd_KeyID h) (hd_Hash h) (hd_Signature h) = Ok tt.
Proof.
  unfold auditHead. cbn [fst snd]. destruct (Z.eqb_spec (hd_Version h) CanonicalVersion) as [Hv|Hv]; cbn [negb]; [|split; [done|by intros [? _]]].
  destruct (computed !! u) as [[n b]|]; [|split; [done|by intros (_ & ? & _)]]. cbn [fst snd].
  destruct (Z.eqb_spec n (hd_Sequence h)) as [->|Hn]; cbn [negb orb]; [|split; [done|intros (_ & [= ? ?] & _); congruence]].
  case_bool_decide as Hb; cbn [negb]; [subst b|split; [done|intros (_ & [= ?] & _); congruence]].
  destruct (VerifyHead _ _ _ _ _ _) as [[]|]; split; try done. by intros (_ & _ & ?).
Qed.

Lemma verifyTicketHead_Ok ticket st h : verifyTicketHead (Some ring) ticket st h = Ok tt ↔
  match h with
  | None => st.1 = 0
  | Some h => st.1 ≠ 0 ∧ hd_Version h = CanonicalVersion ∧ st = (hd_Sequence h, hd_Hash h) ∧
              VerifyHead ring ticket (hd_Sequence h) (hd_KeyID h) (hd_Hash h) (hd_Signature h) = Ok tt
  end.
Proof.
  unfold verifyTicketHead. destruct h as [h|]; destruct (Z.eqb_spec st.1 0) as [H0|H0]; try (split; done); [split; [done|by intros [? _]]|].
  destruct (Z.eqb_spec (hd_Version h) CanonicalVersion) as [Hv|Hv]; cbn [negb]; [|split; [done|by intros (_ & ? & _)]].
  destruct st as [n b]. cbn [fst snd] in *.
  destruct (Z.eqb_spec (hd_Sequence h) n) as [<-|Hn]; cbn [negb orb]; [|split; [done|intros (_ & _ & [= ? ?] & _); congruence]].
  case_bool_decide as Hb; cbn [negb]; [subst b|split; [done|intros (_ & _ & [= ?] & _); congruence]].
  destruct (VerifyHead _ _ _ _ _ _) as [[]|]; split; try done. by intros (_ & _ & _ & ?).
Qed.

(** The chain part of the offline verifier. *)
Definition verifyTickets t : result AuditError unit :=
  computed ← verifyChains covered t; _ ← verifyHeads ring computed t; verifyOrphanIntegrity t.

(** C24 (equivalence). The audit and the gate agree. The offline verifier's pass over all tickets
    (chains with coverage, heads, orphans) accepts a trail exactly when the gate's
    verification accepts every one of its tickets: nothing the audit clears makes
    a door degrade, and nothing a door would reject escapes the audit. *)
Theorem audit_agrees_with_gate t : references_ok t → Z.of_nat (size (td_events t)) ≤ MaxInt64 →
  verifyTickets t = Ok tt ↔
  ∀ ticket k, td_tickets t !! ticket = Some k → verifyTicketChain (Some ring) ticket (identity k) t = Ok tt.
Proof.
  intros Href Hsize.
  assert (Hlen : ∀ ticket, Z.of_nat (length (ticket_rows ticket t)) ≤ MaxInt64).
  { intros ticket. etrans; [|exact Hsize]. unfold ticket_rows, ticket_events. rewrite (isort_perm (on_key row_seq seq_less)), length_map.
    rewrite <-length_map_to_list. apply inj_le. apply List.filter_length_le. }
  split.
  - intros (computed & Hc & ([] & Hh & Ho%verifyOrphanIntegrity_Ok)%bind_Ok)%bind_Ok ticket k Hk. apply verifyHeads_Ok in Hh as [H1 H2].
    destruct (verifyChains_Ok t computed Ho Hc ticket k Hk) as (st & Hf & Hcomp). unfold verifyTicketChain. rewrite Hf. cbn [mbind result_bind].
    rewrite (orphans_false t ticket Ho). apply verifyTicketHead_Ok. pose proof (fold_count _ _ _ _ (Hlen ticket) Hf) as [Hn _].
    destruct (td_heads t !! ticket) as [h|] eqn:Eh.
    + apply H1 in Eh as (Hv & Hcs & Hs)%auditHead_Ok. rewrite Hcs in Hcomp. case_bool_decide as He; [done|]. injection Hcomp as <-.
      split_and!; [|done..]. rewrite Hn. destruct (ticket_rows ticket t); [done|cbn; lia].
    + case_bool_decide as He; [by rewrite Hn, He|]. destruct (H2 ticket) as [h Hh]; [by rewrite Hcomp|congruence].
  - intros Hall. assert (Ho : no_orphans t).
    { intros i r Hi. destruct (rf_integrity t Href _ _ Hi) as [k Hk]. specialize (Hall _ _ Hk). unfold verifyTicketChain in Hall.
      apply bind_Ok in Hall as (st & _ & Hv). destruct (orphans (ig_Ticket r) t) eqn:Eo; [done|]. unfold orphans in Eo.
      destruct (decide (ev_Ticket <$> td_events t !! i = Some (ig_Ticket r))) as [|Hne]; [done|]. exfalso. apply not_true_iff_false in Eo. apply Eo.
      apply existsb_exists. exists (i, r). split; [by apply list_elem_of_In, elem_of_map_to_list|]. cbn.
      by rewrite bool_decide_true, bool_decide_false. }
    assert (Hst : ∀ ticket k, td_tickets t !! ticket = Some k → ∃ st, fold_result (verifyRow ticket (identity k)) (0, GenesisHash) (ticket_rows ticket t) = Ok st ∧
      verifyTicketHead (Some ring) ticket st (td_heads t !! ticket) = Ok tt).
    { intros ticket k Hk. specialize (Hall _ _ Hk). unfold verifyTicketChain in Hall. apply bind_Ok in Hall as (st & Hf & Hv). exists st.
      split; [done|]. by rewrite (orphans_false t ticket Ho) in Hv. }
    destruct (verifyChains_accepts t Ho) as [computed Hc]; [intros ticket k Hk; destruct (Hst _ _ Hk) as (st & ? & _); by exists st|].
    unfold verifyTickets. rewrite Hc. cbn [mbind result_bind]. assert (verifyHeads ring computed t = Ok tt) as ->.
    { apply verifyHeads_Ok. split.
      - intros u h Hu. destruct (rf_heads t Href _ _ Hu) as [k Hk]. destruct (Hst u k Hk) as (st & Hf & Hv). rewrite Hu in Hv.
        apply verifyTicketHead_Ok in Hv as (H0 & Hver & -> & Hs). apply auditHead_Ok. split_and!; [done| |done].
        destruct (verifyChains_Ok t computed Ho Hc u k Hk) as (st' & Hf' & ->). rewrite Hf in Hf'. injection Hf' as <-.
        case_bool_decide as He; [|done]. rewrite He in Hf. injection Hf as Hn _. by rewrite <-Hn in H0.
      - intros u Hu. destruct (computed_tickets t computed u Hc Hu) as [k Hk]. destruct (Hst u k Hk) as (st & Hf & Hv).
        destruct (td_heads t !! u) as [h|] eqn:Eh; [done|]. apply verifyTicketHead_Ok in Hv.
        destruct (verifyChains_Ok t computed Ho Hc u k Hk) as (st' & Hf' & Hcu). case_bool_decide as He; [rewrite Hcu in Hu; by destruct Hu|].
        pose proof (fold_count _ _ _ _ (Hlen u) Hf) as [Hn _]. rewrite Hv in Hn. destruct (ticket_rows u t); [done|cbn in Hn; lia]. }
    cbn. by apply verifyOrphanIntegrity_Ok.
Qed.
End Chains.

(** ** The audit of an honest day *)
Section HonestTrails.
Context `{UL : UUIDLaws} `{EL : Ed25519Laws} (ring : Keyring).

Lemma trail_references t : trail_ok ring t → references_ok t.
Proof.
  intros [_ He Hi Hh _]. split; [done| |done]. intros i r Hr. apply Hi in Hr. destruct (td_events t !! i) as [e|] eqn:E; [|done].
  cbn in Hr. injection Hr as <-. by eapply He.
Qed.
End HonestTrails.

#[local] Existing Instances number_uuid number_source mac_ed25519.
#[local] Abbreviation evening := (ad_trail (run honest_day empty_access)).

Lemma evening_ok : trail_ok door_ring evening.
Proof.
  apply (@honest_run_ok number_uuid number_source mac_ed25519 mac_ed25519_laws); [exact honest_day_honest|exact (empty_trail_ok _)|].
  apply one_slot_b_true. vm_compute. reflexivity.
Qed.

Lemma audit_agrees_with_gate_witness :
  verifyTickets door_ring evening = Ok tt ∧
  match td_tickets evening !! (3%N : @uuid number_uuid) with
  | Some k => verifyTicketChain (Some door_ring) (3%N : @uuid number_uuid) (identity k) evening = Ok tt
  | None => False
  end.
Proof.
  assert (Hv : verifyTickets door_ring evening = Ok tt) by (vm_compute; reflexivity).
  assert (Hs : (Z.of_nat (size (td_events evening)) <=? MaxInt64) = true) by (vm_compute; reflexivity).
  assert (Hin : bool_decide (is_Some (td_tickets evening !! (3%N : @uuid number_uuid))) = true) by (vm_compute; reflexivity).
  apply bool_decide_eq_true in Hin as [k E]. rewrite E. apply Z.leb_le in Hs.
  exact (conj Hv (proj1 (@audit_agrees_with_gate number_uuid number_uuid_laws mac_ed25519 door_ring evening
    (trail_references door_ring _ evening_ok) Hs) Hv _ k E)).
Defined.
