(* ===== verification/Orders.v ===== *)
(** * Commerce: reservations, orders and what they owe

    The tables of [services/commerce/internal/store/migrations] as one record, and the
    statements that move an order: the reserve and checkout statements of
    [internal/api/server.go], the completion with its outbox (store.go), the recovery
    queue (recovery.go). A transaction is one atomic step under the row lock it takes;
    an error leaves the tables as they were. The reversals of completed orders are in
    [Reversals].

    Section [Leases] is the work queue four of the tables carry, [Orders] the tables
    and statements, [Recovery] the recovery of orders whose checkout stopped half-way.

    [ErrDatabase] stands for any error of the driver, a violated constraint among
    them. The snapshots of price, fees and seats are written and not read here; the
    account of a customer and its attribution are not modelled. *)

From S2P Require Import Prelude Text Format Sha256 Tables Lifecycle.
#[local] Open Scope Z_scope.

(** ** Work queues in tables

    Four queues of commerce keep the same columns beside their rows: the outbox of
    store.go, the recovery of recovery.go, the reversals of refund_reversal.go and of
    exchange_reversal.go. A row is due, is leased under a claim, and is finished,
    handed back, or released with a backoff that grows until the row is parked for an
    operator (dead-lettered, in the outbox). *)

Section Leases.
Context `{UU : UUID}.

Record Lease := {
  ls_ClaimID : option uuid;
  ls_Until : option time;
  ls_Attempts : Z;
  ls_NextAttemptAt : time;
  ls_ParkedAt : option time;
  ls_LastError : option string;
}.

Definition seconds (n : Z) : Z := n * 1000000000.

(** The columns' defaults. *)
Definition fresh_lease (now : time) : Lease := {|
  ls_ClaimID := None; ls_Until := None; ls_Attempts := 0; ls_NextAttemptAt := now; ls_ParkedAt := None; ls_LastError := None |}.

(** Not parked, due, and not under a lease that runs. *)
Definition due (now : time) (l : Lease) : bool :=
  is_None (ls_ParkedAt l) && (ls_NextAttemptAt l <=? now) &&
  match ls_Until l with Some t => t <=? now | None => true end.

Definition take_lease (now : time) (lease : Z) (claim : uuid) (l : Lease) : Lease := {|
  ls_ClaimID := Some claim; ls_Until := Some (now + lease); ls_Attempts := ls_Attempts l;
  ls_NextAttemptAt := ls_NextAttemptAt l; ls_ParkedAt := ls_ParkedAt l; ls_LastError := ls_LastError l |}.

Definition hand_back (l : Lease) : Lease := {|
  ls_ClaimID := None; ls_Until := None; ls_Attempts := ls_Attempts l;
  ls_NextAttemptAt := ls_NextAttemptAt l; ls_ParkedAt := ls_ParkedAt l; ls_LastError := ls_LastError l |}.

Definition held_by (claim : uuid) (l : Lease) : bool := bool_decide (ls_ClaimID l = Some claim).

(** [least(make_interval(secs => power(2, least(n, 8))), interval '5 minutes')]. *)
Definition backoff (n : Z) : Z := Z.min (seconds (2 ^ Z.min n 8)) (seconds 300).

(** [ORDER BY next_attempt_at LIMIT n FOR UPDATE SKIP LOCKED]: of the rows that are
    eligible and that no other transaction has locked, those longest due. *)
Definition longest_due {K R} `{Countable K} (lease_of : R → Lease) (locked : K → bool) (eligible : K * R → bool) (limit : nat)
    (m : gmap K R) : list (K * R) :=
  take limit (isort (on_key (λ kr : K * R, ls_NextAttemptAt (lease_of kr.2)) Z.ltb)
                    (List.filter (λ kr, negb (locked kr.1) && eligible kr) (map_to_list m))).

Lemma elem_of_longest_due {K R} `{Countable K} lease_of locked (eligible : K * R → bool) limit (m : gmap K R) k r :
  (k, r) ∈ longest_due lease_of locked eligible limit m → m !! k = Some r ∧ eligible (k, r) = true ∧ locked k = false.
Proof.
  intros Hin%elem_of_take. destruct Hin as (i & Hi & _). apply list_elem_of_lookup_2, elem_of_isort, elem_of_bool_filter in Hi as [Hin Hf].
  apply elem_of_map_to_list in Hin. zbool. done.
Qed.

Lemma NoDup_longest_due {K R} `{Countable K} lease_of locked (eligible : K * R → bool) limit (m : gmap K R) :
  NoDup (map fst (longest_due lease_of locked eligible limit m)).
Proof.
  unfold longest_due. rewrite <-firstn_map.
  set (l := isort _ _). assert (Hnd : NoDup (map fst l)).
  { assert (Hp : map fst l ≡ₚ map fst (List.filter (λ kr : K * R, negb (locked kr.1) && eligible kr) (map_to_list m)))
      by apply Permutation_map, isort_perm.
    rewrite Hp. apply NoDup_map_filter, NoDup_fst_map_to_list. }
  eapply sublist_NoDup; [exact Hnd|apply sublist_take].
Qed.
End Leases.

(** ** Rows *)

Inductive ReservationStatus := ResHeld | ResFinalizing | ResCompleted | ResFailed | ResUnknown.
Inductive OrderStatus := OrdCreated | OrdPaymentUnknown | OrdConfirmationPending | OrdReleasePending | OrdCompleted
  | OrdDeclined | OrdTimeout | OrdReconciliationRequired | OrdRefunded.
Inductive RefundStatus := NothingRefunded | PartlyRefunded | WhollyRefunded.
Inductive TerminalOutcome := OutDeclined | OutTimeout | OutNotAttempted | OutNoSideEffect.

#[export] Instance ReservationStatus_eq_dec : EqDecision ReservationStatus.
Proof. solve_decision. Defined.
#[export] Instance OrderStatus_eq_dec : EqDecision OrderStatus.
Proof. solve_decision. Defined.
#[export] Instance RefundStatus_eq_dec : EqDecision RefundStatus.
Proof. solve_decision. Defined.
#[export] Instance TerminalOutcome_eq_dec : EqDecision TerminalOutcome.
Proof. solve_decision. Defined.

(** The named errors of the package, and the two of the checkout's claim. *)
Inductive CommerceError :=
| ErrNoRows | ErrDatabase | ErrBadRequest
| ErrCompletionConflict | ErrNoGuestReference | ErrEventOwner
| ErrCheckoutConflict | ErrRecoveryInProgress
| ErrRecoveryConflict | ErrOutcomeNotTerminal | ErrReasonRequired
| ErrRecoveryOrderNotFound | ErrRecoveryOrderNotParked | ErrRecoveryOrderStatusNotClaimable
| ErrOrderNotRefundable | ErrRefundExceedsOrder | ErrRefundConflict | ErrRefundNoMoney
| ErrOrderNotVoidable | ErrVoidHasMoney
| ErrOrderNotExchangeable | ErrExchangeConflict
| ErrExchangeNotFound | ErrExchangeSettled | ErrExchangeMoneyMoved | ErrExchangeUnwindConflict
| ErrExchangeSettling | ErrExchangeUnwound | ErrExchangeNotSettled.

Section Orders.
Context `{UU : UUID} `{US : !UUIDSource}.

Record ReservationRow := {
  rs_OrganizerID : uuid; rs_HoldID : uuid; rs_SlotID : uuid; rs_TicketTypeID : uuid; rs_BuyerID : uuid;
  rs_Quantity : Z; rs_UnitAmount : Z; rs_TotalAmount : Z; rs_FaceValueAmount : Z; rs_Currency : string;
  rs_Status : ReservationStatus; rs_ChannelCode : option string; rs_ResellerID : option uuid;
}.

Record OrderRow := {
  or_ReservationID : uuid; or_Status : OrderStatus; or_IdempotencyKey : string; or_RequestFingerprint : string;
  or_GuestOrderRef : option uuid;
  or_RefundStatus : RefundStatus; or_RefundedQuantity : Z; or_RefundedAmount : Z;
  or_TerminalOutcome : option TerminalOutcome; or_Recovery : Lease; or_UpdatedAt : time;
}.

(** [OrderCompletedData] and [OrderExchangedData] of events/events.go. *)
Record OrderCompletedData := {
  oc_OrderID : uuid; oc_GuestOrderRef : uuid; oc_OrganizerID : uuid; oc_BuyerID : uuid;
  oc_SlotID : uuid; oc_TicketTypeID : uuid; oc_Quantity : Z;
}.

Record OrderExchangedData := {
  ox_ExchangeID : uuid; ox_SourceOrderID : uuid; ox_ReplacementOrderID : uuid; ox_GuestOrderRef : uuid;
  ox_OrganizerID : uuid; ox_BuyerID : uuid; ox_SlotID : uuid; ox_TicketTypeID : uuid; ox_Quantity : Z;
}.

(** A frozen envelope, as what its bytes say; the subject is its type. *)
Inductive EventData := OrderCompletedEvent (d : OrderCompletedData) | OrderExchangedEvent (d : OrderExchangedData).
Record Envelope := { ev_ID : uuid; ev_Data : EventData; ev_Occurred : time }.

Record OutboxRow := {
  ob_OrderID : uuid; ob_Envelope : Envelope; ob_PublishedAt : option time; ob_Lease : Lease;
}.

(** A completed refund has its payment fact and its instant; a pending one neither
    (the check of migration 0007). *)
Record RefundRow := {
  rf_OrderID : uuid; rf_IdempotencyKey : string; rf_RequestFingerprint : string;
  rf_Quantity : Z; rf_UnitAmount : Z; rf_Amount : Z; rf_Currency : string; rf_Actor : string; rf_Reason : string;
  rf_Completion : option (uuid * time);
  rf_CreatedAt : time; rf_TicketsVoidedAt : option time; rf_CapacityReturnedAt : option time; rf_Reversal : Lease;
}.

Record VoidRow := {
  vd_OrderID : uuid; vd_RequestFingerprint : string; vd_Quantity : Z; vd_Actor : string; vd_Reason : string;
  vd_TicketsVoidedAt : option time; vd_CapacityReturnedAt : option time;
}.

(** The columns that are set together with [basis_at] (migration 0010). *)
Record ExchangeBasis := {
  bs_TargetHoldID : uuid; bs_ReplacementReservationID : uuid; bs_TargetSlotID : uuid;
  bs_TargetTotal : Z; bs_DeltaAmount : Z; bs_TargetUnitAmount : Z;
}.

Record ExchangeRow := {
  ex_SourceOrderID : uuid; ex_TargetTicketTypeID : uuid; ex_IdempotencyKey : string; ex_RequestFingerprint : string;
  ex_Quantity : Z; ex_SourceTotal : Z; ex_SourceGrossTotal : Z; ex_Currency : string; ex_Actor : string; ex_Reason : string;
  ex_Basis : option ExchangeBasis;
  ex_Settlement : option (uuid * time);
  ex_SettlingAt : option time; ex_TicketsExchangedAt : option time; ex_CapacityReturnedAt : option time;
  ex_CreatedAt : time; ex_Reversal : Lease;
}.

Record UnwindRow := {
  uw_OrganizerID : uuid; uw_ExchangeID : uuid; uw_SourceOrderID : uuid; uw_Reason : string; uw_Actor : string;
  uw_Basis : option (uuid * Z * Z); uw_SourceTotal : Z;
}.

Record UnparkRow := { up_OrderID : uuid; up_Reason : string; up_Attempts : Z; up_ParkedAt : time; up_LastError : option string }.

Record CommerceDB := {
  cm_Reservations : gmap uuid ReservationRow;
  cm_Orders : gmap uuid OrderRow;
  cm_Outbox : gmap uuid OutboxRow;
  cm_Refunds : gmap (uuid * uuid) RefundRow;
  cm_Voids : gmap (uuid * uuid) VoidRow;
  cm_Exchanges : gmap (uuid * uuid) ExchangeRow;
  cm_Unwinds : gmap (uuid * uuid) UnwindRow;
  cm_Unparks : list UnparkRow;
}.
Implicit Types (db : CommerceDB).

Definition no_commerce : CommerceDB := {|
  cm_Reservations := ∅; cm_Orders := ∅; cm_Outbox := ∅; cm_Refunds := ∅; cm_Voids := ∅; cm_Exchanges := ∅; cm_Unwinds := ∅; cm_Unparks := [] |}.

Definition with_reservations m db : CommerceDB := {|
  cm_Reservations := m; cm_Orders := cm_Orders db; cm_Outbox := cm_Outbox db; cm_Refunds := cm_Refunds db;
  cm_Voids := cm_Voids db; cm_Exchanges := cm_Exchanges db; cm_Unwinds := cm_Unwinds db; cm_Unparks := cm_Unparks db |}.
Definition with_orders m db : CommerceDB := {|
  cm_Reservations := cm_Reservations db; cm_Orders := m; cm_Outbox := cm_Outbox db; cm_Refunds := cm_Refunds db;
  cm_Voids := cm_Voids db; cm_Exchanges := cm_Exchanges db; cm_Unwinds := cm_Unwinds db; cm_Unparks := cm_Unparks db |}.
Definition with_outbox m db : CommerceDB := {|
  cm_Reservations := cm_Reservations db; cm_Orders := cm_Orders db; cm_Outbox := m; cm_Refunds := cm_Refunds db;
  cm_Voids := cm_Voids db; cm_Exchanges := cm_Exchanges db; cm_Unwinds := cm_Unwinds db; cm_Unparks := cm_Unparks db |}.
Definition with_refunds m db : CommerceDB := {|
  cm_Reservations := cm_Reservations db; cm_Orders := cm_Orders db; cm_Outbox := cm_Outbox db; cm_Refunds := m;
  cm_Voids := cm_Voids db; cm_Exchanges := cm_Exchanges db; cm_Unwinds := cm_Unwinds db; cm_Unparks := cm_Unparks db |}.
Definition with_voids m db : CommerceDB := {|
  cm_Reservations := cm_Reservations db; cm_Orders := cm_Orders db; cm_Outbox := cm_Outbox db; cm_Refunds := cm_Refunds db;
  cm_Voids := m; cm_Exchanges := cm_Exchanges db; cm_Unwinds := cm_Unwinds db; cm_Unparks := cm_Unparks db |}.
Definition with_exchanges m u db : CommerceDB := {|
  cm_Reservations := cm_Reservations db; cm_Orders := cm_Orders db; cm_Outbox := cm_Outbox db; cm_Refunds := cm_Refunds db;
  cm_Voids := cm_Voids db; cm_Exchanges := m; cm_Unwinds := u; cm_Unparks := cm_Unparks db |}.
Definition with_unparks l db : CommerceDB := {|
  cm_Reservations := cm_Reservations db; cm_Orders := cm_Orders db; cm_Outbox := cm_Outbox db; cm_Refunds := cm_Refunds db;
  cm_Voids := cm_Voids db; cm_Exchanges := cm_Exchanges db; cm_Unwinds := cm_Unwinds db; cm_Unparks := l |}.

Abbreviation tx A := (result CommerceError (CommerceDB * A)).

Definition set_res_status (st : ReservationStatus) (r : ReservationRow) : ReservationRow := {|
  rs_OrganizerID := rs_OrganizerID r; rs_HoldID := rs_HoldID r; rs_SlotID := rs_SlotID r; rs_TicketTypeID := rs_TicketTypeID r;
  rs_BuyerID := rs_BuyerID r; rs_Quantity := rs_Quantity r; rs_UnitAmount := rs_UnitAmount r; rs_TotalAmount := rs_TotalAmount r;
  rs_FaceValueAmount := rs_FaceValueAmount r; rs_Currency := rs_Currency r; rs_Status := st;
  rs_ChannelCode := rs_ChannelCode r; rs_ResellerID := rs_ResellerID r |}.

Definition set_order (st : OrderStatus) (ref : option uuid) (outcome : option TerminalOutcome) (recovery : Lease) (updated : time)
    (o : OrderRow) : OrderRow := {|
  or_ReservationID := or_ReservationID o; or_Status := st; or_IdempotencyKey := or_IdempotencyKey o;
  or_RequestFingerprint := or_RequestFingerprint o; or_GuestOrderRef := ref; or_RefundStatus := or_RefundStatus o;
  or_RefundedQuantity := or_RefundedQuantity o; or_RefundedAmount := or_RefundedAmount o;
  or_TerminalOutcome := outcome; or_Recovery := recovery; or_UpdatedAt := updated |}.

Definition set_status (now : time) (st : OrderStatus) (o : OrderRow) : OrderRow :=
  set_order st (or_GuestOrderRef o) (or_TerminalOutcome o) (or_Recovery o) now o.
Definition set_recovery (l : Lease) (o : OrderRow) : OrderRow :=
  set_order (or_Status o) (or_GuestOrderRef o) (or_TerminalOutcome o) l (or_UpdatedAt o) o.

(** [UPDATE t SET ... WHERE id=$1 AND cond]: the rows affected. *)
Definition update_where {R} (k : uuid) (cond : R → bool) (f : R → R) (m : gmap uuid R) : gmap uuid R * bool :=
  match m !! k with
  | Some r => if cond r then (<[k := f r]> m, true) else (m, false)
  | None => (m, false)
  end.

Definition update_orders (k : uuid) (cond : OrderRow → bool) (f : OrderRow → OrderRow) db : CommerceDB * bool :=
  let u := update_where k cond f (cm_Orders db) in (with_orders u.1 db, u.2).
Definition update_reservations (k : uuid) (cond : ReservationRow → bool) (f : ReservationRow → ReservationRow) db : CommerceDB * bool :=
  let u := update_where k cond f (cm_Reservations db) in (with_reservations u.1 db, u.2).

(** ** Reserving *)

Definition unused_hold (h : uuid) db : bool := negb (some_row (λ r, bool_decide (rs_HoldID r = h)) (cm_Reservations db)).

(** The checks of migrations 0001, 0014 and 0020. *)
Definition reservation_check (r : ReservationRow) : bool :=
  (0 <? rs_Quantity r) && (0 <=? rs_UnitAmount r) && (0 <=? rs_FaceValueAmount r) &&
  (rs_FaceValueAmount r <=? rs_TotalAmount r) && (String.length (rs_Currency r) <=? 3)%nat &&
  (is_None (rs_ResellerID r) || negb (is_None (rs_ChannelCode r))).

(** [INSERT INTO reservations ... ON CONFLICT(id) DO NOTHING]; false when it was there. *)
Definition insert_reservation (id : uuid) (r : ReservationRow) db : tx bool :=
  match cm_Reservations db !! id with
  | Some _ => Ok (db, false)
  | None =>
      _ ← refuse_if (negb (reservation_check r && unused_hold (rs_HoldID r) db)) ErrDatabase;
      Ok (with_reservations (<[id := r]> (cm_Reservations db)) db, true)
  end.

(** What a checkout makes of a reservation's columns. *)
Definition reserve (id : uuid) (r : ReservationRow) db : tx bool :=
  insert_reservation id (set_res_status ResHeld r) db.

(** ** Checkout's statements *)

Definition live_statuses : list OrderStatus := [OrdCreated; OrdPaymentUnknown; OrdConfirmationPending].
Definition live (o : OrderRow) : bool := bool_decide (or_Status o ∈ live_statuses).
Definition open_reservation (r : ReservationRow) : bool := bool_decide (rs_Status r ∈ [ResHeld; ResFinalizing; ResUnknown]).

Definition orders_of (reservation : uuid) db : list (uuid * OrderRow) :=
  List.filter (λ ko, bool_decide (or_ReservationID ko.2 = reservation)) (map_to_list (cm_Orders db)).

Definition new_order (now : time) (reservation : uuid) (st : OrderStatus) (key fingerprint : string) : OrderRow := {|
  or_ReservationID := reservation; or_Status := st; or_IdempotencyKey := key; or_RequestFingerprint := fingerprint;
  or_GuestOrderRef := None; or_RefundStatus := NothingRefunded; or_RefundedQuantity := 0; or_RefundedAmount := 0;
  or_TerminalOutcome := None; or_Recovery := fresh_lease now; or_UpdatedAt := now |}.

Definition orderID (org : uuid) (key : string) : uuid := NewSHA1 ("order:" +:+ uuid_String org +:+ ":" +:+ key).

Record CheckoutClaim := { cc_OrderID : uuid; cc_Status : OrderStatus; cc_Parked : bool; cc_Inserted : bool }.

(** The handler has loaded the reservation; [INSERT ... SELECT] inserts nothing when
    it is gone. A unique violation is a conflict of checkouts. [at_] is the reading of
    the service's clock that the lease is compared with. *)
Definition claimOrder (now at_ : time) (reservation org : uuid) (amount : Z) (key fingerprint : string) db : tx CheckoutClaim :=
  match orders_of reservation db with
  | [] =>
      let id := orderID org key in
      match cm_Reservations db !! reservation with
      | None => Ok (db, {| cc_OrderID := id; cc_Status := OrdCreated; cc_Parked := false; cc_Inserted := true |})
      | Some _ =>
          if bool_decide (is_Some (cm_Orders db !! id)) then Err ErrCheckoutConflict
          else Ok (with_orders (<[id := new_order now reservation OrdCreated key fingerprint]> (cm_Orders db)) db,
                   {| cc_OrderID := id; cc_Status := OrdCreated; cc_Parked := false; cc_Inserted := true |})
      end
  | (id, o) :: _ =>
      if negb (bool_decide (or_IdempotencyKey o = key) && bool_decide (or_RequestFingerprint o = fingerprint)) then Err ErrCheckoutConflict
      else if negb (is_None (ls_ClaimID (or_Recovery o))) &&
              match ls_Until (or_Recovery o) with Some t => at_ <? t | None => false end then Err ErrRecoveryInProgress
      else
        let db := if is_None (ls_ClaimID (or_Recovery o)) then db
                  else fst (update_orders id (λ _, true) (λ o, set_recovery (hand_back (or_Recovery o)) o) db) in
        let db := if amount =? 0 then db
                  else fst (update_orders id live (λ o, set_status now (or_Status o) o) db) in
        Ok (db, {| cc_OrderID := id; cc_Status := or_Status o; cc_Parked := negb (is_None (ls_ParkedAt (or_Recovery o))); cc_Inserted := false |})
  end.

(** The hold was finalized. *)
Definition markFinalizing (reservation : uuid) db : CommerceDB :=
  fst (update_reservations reservation (λ r, bool_decide (rs_Status r ∈ [ResHeld; ResFinalizing])) (set_res_status ResFinalizing) db).

(** The two statements of [markUnknown], each its own transaction. *)
Definition reservationUnknown (reservation : uuid) db : CommerceDB :=
  fst (update_reservations reservation open_reservation (set_res_status ResUnknown) db).
Definition orderUnknown (now : time) (order : uuid) db : CommerceDB * bool :=
  update_orders order live (set_status now OrdPaymentUnknown) db.
Definition confirmationPending (now : time) (order : uuid) db : CommerceDB * bool :=
  update_orders order live (set_status now OrdConfirmationPending) db.

Definition markTerminalFailure (now : time) (reservation order : uuid) (st : OrderStatus) db : CommerceDB :=
  let db := fst (update_reservations reservation open_reservation (set_res_status ResFailed) db) in
  fst (update_orders order live (set_status now st) db).

(** ** Completion and the outbox (store.go) *)

Record Completion := {
  co_ReservationID : uuid; co_OrderID : uuid; co_OrganizerID : uuid; co_BuyerID : uuid;
  co_SlotID : uuid; co_TicketTypeID : uuid; co_Quantity : Z;
}.

Definition SubjectOrderCompleted : string := "platform.commerce.order.completed".
Definition SubjectOrderExchanged : string := "platform.commerce.order.exchanged".
Definition EventID (order : uuid) : uuid := NewSHA1 (SubjectOrderCompleted +:+ ":" +:+ uuid_String order).
Definition ExchangedEventID (exchange : uuid) : uuid := NewSHA1 (SubjectOrderExchanged +:+ ":" +:+ uuid_String exchange).

Definition completionEnvelope (c : Completion) (guestRef : uuid) (occurredAt : time) : Envelope := {|
  ev_ID := EventID (co_OrderID c);
  ev_Data := OrderCompletedEvent {|
    oc_OrderID := co_OrderID c; oc_GuestOrderRef := guestRef; oc_OrganizerID := co_OrganizerID c; oc_BuyerID := co_BuyerID c;
    oc_SlotID := co_SlotID c; oc_TicketTypeID := co_TicketTypeID c; oc_Quantity := co_Quantity c |};
  ev_Occurred := occurredAt |}.

Definition owed (now : time) (order : uuid) (e : Envelope) : OutboxRow := {|
  ob_OrderID := order; ob_Envelope := e; ob_PublishedAt := None; ob_Lease := fresh_lease now |}.

Definition owes (order : uuid) db : bool := some_row (λ x, bool_decide (ob_OrderID x = order)) (cm_Outbox db).

(** [ON CONFLICT (event_id) DO UPDATE SET event_id=event_id RETURNING order_id], and
    the check that the event is this order's. *)
Definition owe (now : time) (order : uuid) (e : Envelope) db : result CommerceError CommerceDB :=
  match cm_Outbox db !! ev_ID e with
  | Some x => _ ← refuse_if (negb (bool_decide (ob_OrderID x = order))) ErrEventOwner; Ok db
  | None =>
      _ ← refuse_if (owes order db || negb (bool_decide (is_Some (cm_Orders db !! order)))) ErrDatabase;
      Ok (with_outbox (<[ev_ID e := owed now order e]> (cm_Outbox db)) db)
  end.

Definition unused_ref (ref : uuid) db : bool := negb (some_row (λ o, bool_decide (or_GuestOrderRef o = Some ref)) (cm_Orders db)).

(** [at_] is the reading of the service's clock that the envelope is stamped with. *)
Definition CompleteOrder (now at_ : time) (c : Completion) (candidate : uuid) db : tx uuid :=
  if bool_decide (candidate = uuid_Nil) then Err ErrNoGuestReference
  else
    match cm_Orders db !! co_OrderID c with
    | None => Err ErrNoRows
    | Some o =>
        if negb (bool_decide (or_ReservationID o = co_ReservationID c)) then Err ErrNoRows
        else if bool_decide (or_Status o = OrdCompleted) then
          match or_GuestOrderRef o with
          | Some ref => if bool_decide (ref = uuid_Nil) then Err ErrNoGuestReference else Ok (db, ref)
          | None => Err ErrNoGuestReference
          end
        else if negb (live o) then Err ErrCompletionConflict
        else
          let u := update_reservations (co_ReservationID c) open_reservation (set_res_status ResCompleted) db in
          if negb u.2 then Err ErrCompletionConflict
          else
            _ ← refuse_if (negb (unused_ref candidate db)) ErrDatabase;
            let db := fst (update_orders (co_OrderID c) live
                             (λ o, set_order OrdCompleted (Some candidate) (or_TerminalOutcome o) (or_Recovery o) now o) u.1) in
            db ← owe now (co_OrderID c) (completionEnvelope c candidate at_) db;
            Ok (db, candidate)
    end.

(** Every completed order with a reference that owes nothing, as the join reads it. *)
Definition needs_backfill db : list (uuid * Completion * uuid * time) :=
  omap (λ ko, ref ← or_GuestOrderRef ko.2; r ← cm_Reservations db !! or_ReservationID ko.2;
    if bool_decide (or_Status ko.2 = OrdCompleted) && negb (owes ko.1 db) then
      Some (ko.1, {| co_ReservationID := or_ReservationID ko.2; co_OrderID := ko.1; co_OrganizerID := rs_OrganizerID r;
                     co_BuyerID := rs_BuyerID r; co_SlotID := rs_SlotID r; co_TicketTypeID := rs_TicketTypeID r;
                     co_Quantity := rs_Quantity r |}, ref, or_UpdatedAt ko.2)
    else None) (map_to_list (cm_Orders db)).

(** One row of the backfill, [ON CONFLICT DO NOTHING] on either key. *)
Definition backfill_one (p : uuid * Completion * uuid * time) db : CommerceDB :=
  let '(order, c, ref, at_) := p in
  let e := completionEnvelope c ref at_ in
  if bool_decide (is_Some (cm_Outbox db !! ev_ID e)) || owes order db then db
  else with_outbox (<[ev_ID e := owed at_ order e]> (cm_Outbox db)) db.

Definition BackfillCompletionOutbox db : CommerceDB := foldl (λ db p, backfill_one p db) db (needs_backfill db).

Definition MaxOutboxAttempts : Z := 10.

Definition set_outbox (published : option time) (l : Lease) (x : OutboxRow) : OutboxRow := {|
  ob_OrderID := ob_OrderID x; ob_Envelope := ob_Envelope x; ob_PublishedAt := published; ob_Lease := l |}.

Definition claimable_message (now : time) (x : OutboxRow) : bool := is_None (ob_PublishedAt x) && due now (ob_Lease x).

(** A claim of the outbox charges its attempt when it is taken. *)
Definition charge_attempt (l : Lease) : Lease := {|
  ls_ClaimID := ls_ClaimID l; ls_Until := ls_Until l; ls_Attempts := ls_Attempts l + 1;
  ls_NextAttemptAt := ls_NextAttemptAt l; ls_ParkedAt := ls_ParkedAt l; ls_LastError := ls_LastError l |}.

Definition claim_message (now : time) (lease : Z) (claim : uuid) (x : OutboxRow) : OutboxRow :=
  set_outbox (ob_PublishedAt x) (charge_attempt (take_lease now lease claim (ob_Lease x))) x.

Definition ClaimOutbox (now : time) (locked : uuid → bool) (limit : nat) (lease : Z) (claim : uuid) db
    : CommerceDB * list (uuid * OutboxRow) :=
  let rows := map (λ kx, (kx.1, claim_message now lease claim kx.2)) (longest_due ob_Lease locked (λ kx, claimable_message now kx.2) limit (cm_Outbox db)) in
  (with_outbox (list_to_map rows ∪ cm_Outbox db) db, rows).

Definition published (now : time) (x : OutboxRow) : OutboxRow :=
  set_outbox (Some now) {| ls_ClaimID := None; ls_Until := None; ls_Attempts := ls_Attempts (ob_Lease x);
    ls_NextAttemptAt := ls_NextAttemptAt (ob_Lease x); ls_ParkedAt := ls_ParkedAt (ob_Lease x); ls_LastError := None |} x.

Definition MarkPublished (now : time) (event claim : uuid) db : CommerceDB * bool :=
  let u := update_where event (λ x, held_by claim (ob_Lease x) && is_None (ob_PublishedAt x)) (published now) (cm_Outbox db) in
  (with_outbox u.1 db, u.2).

Definition FrozenEnvelope (order : uuid) db : option (uuid * Envelope) :=
  head (map (λ kx, (kx.1, ob_Envelope kx.2))
    (List.filter (λ kx, bool_decide (ob_OrderID kx.2 = order) && is_None (ob_PublishedAt kx.2)) (map_to_list (cm_Outbox db)))).

Definition MarkPublishedByOrder (now : time) (order : uuid) db : CommerceDB :=
  with_outbox ((λ x, if bool_decide (ob_OrderID x = order) && is_None (ob_PublishedAt x) &&
                        match ls_Until (ob_Lease x) with Some t => t <=? now | None => true end
                     then published now x else x) <$> cm_Outbox db) db.

Definition ReleaseOutbox (now : time) (event claim : uuid) (cause : string) db : CommerceDB :=
  with_outbox (fst (update_where event (λ x, held_by claim (ob_Lease x) && is_None (ob_PublishedAt x))
    (λ x, set_outbox (ob_PublishedAt x) {|
       ls_ClaimID := None; ls_Until := None; ls_Attempts := ls_Attempts (ob_Lease x);
       ls_NextAttemptAt := now + backoff (ls_Attempts (ob_Lease x));
       ls_ParkedAt := if MaxOutboxAttempts <=? ls_Attempts (ob_Lease x) then Some now else None;
       ls_LastError := Some cause |} x) (cm_Outbox db))) db.
End Orders.

(** ** The recovery of stuck orders

    [recovery.go]: orders whose checkout stopped half-way are claimed under a lease and
    moved on, parked when they make no progress, and unparked by an operator. What the
    recovery decides from the answers of inventory and payments is in
    [RecoveryRunner]. *)

Section Recovery.
Context `{UU : UUID} `{US : !UUIDSource}.
Implicit Types (db : CommerceDB).
Abbreviation tx A := (result CommerceError (CommerceDB * A)).

Definition MaxRecoveryAttempts : Z := 10.

Definition claimableRecoveryStatuses : list OrderStatus :=
  [OrdCreated; OrdPaymentUnknown; OrdConfirmationPending; OrdReleasePending; OrdReconciliationRequired].

(** [recoveryClaimablePredicate]. *)
Definition stuck (now : time) (o : OrderRow) : bool :=
  bool_decide (or_Status o ∈ claimableRecoveryStatuses) && due now (or_Recovery o) && (or_UpdatedAt o <? now - seconds 120).

Record StuckOrder := {
  so_OrderID : uuid; so_ReservationID : uuid; so_OrganizerID : uuid; so_HoldID : uuid; so_BuyerID : uuid; so_SlotID : uuid;
  so_TicketTypeID : uuid; so_Quantity : Z; so_Amount : Z; so_Currency : string; so_Status : OrderStatus;
  so_IdempotencyKey : string; so_TerminalOutcome : option TerminalOutcome; so_ClaimID : uuid; so_Attempts : Z;
}.

Definition so_Completion (s : StuckOrder) : Completion := {|
  co_ReservationID := so_ReservationID s; co_OrderID := so_OrderID s; co_OrganizerID := so_OrganizerID s;
  co_BuyerID := so_BuyerID s; co_SlotID := so_SlotID s; co_TicketTypeID := so_TicketTypeID s; co_Quantity := so_Quantity s |}.

(** A claimed row joined with its reservation. *)
Definition stuck_order (claim : uuid) db (ko : uuid * OrderRow) : option StuckOrder :=
  r ← cm_Reservations db !! or_ReservationID ko.2;
  Some {| so_OrderID := ko.1; so_ReservationID := or_ReservationID ko.2; so_OrganizerID := rs_OrganizerID r; so_HoldID := rs_HoldID r;
          so_BuyerID := rs_BuyerID r; so_SlotID := rs_SlotID r; so_TicketTypeID := rs_TicketTypeID r; so_Quantity := rs_Quantity r;
          so_Amount := rs_TotalAmount r; so_Currency := rs_Currency r; so_Status := or_Status ko.2;
          so_IdempotencyKey := or_IdempotencyKey ko.2; so_TerminalOutcome := or_TerminalOutcome ko.2; so_ClaimID := claim;
          so_Attempts := ls_Attempts (or_Recovery ko.2) |}.

Definition claim_order (now : time) (lease : Z) (claim : uuid) (o : OrderRow) : OrderRow :=
  set_recovery (take_lease now lease claim (or_Recovery o)) o.

(** The claim takes the lease and charges no attempt. *)
Definition ClaimStuckOrders (now : time) (locked : uuid → bool) (limit : nat) (lease : Z) (claim : uuid) db
    : CommerceDB * list StuckOrder :=
  let rows := map (λ ko, (ko.1, claim_order now lease claim ko.2)) (longest_due or_Recovery locked (λ ko, stuck now ko.2) limit (cm_Orders db)) in
  (with_orders (list_to_map rows ∪ cm_Orders db) db, omap (stuck_order claim db) rows).

(** An UPDATE fenced by the claim; no row is [ErrRecoveryConflict]. *)
Definition fenced (claim : uuid) (statuses : list OrderStatus) (o : OrderRow) : bool :=
  held_by claim (or_Recovery o) && bool_decide (or_Status o ∈ statuses).
Definition fenced_update (order : uuid) (cond : OrderRow → bool) (f : OrderRow → OrderRow) db : result CommerceError CommerceDB :=
  let u := update_orders order cond f db in
  _ ← refuse_if (negb u.2) ErrRecoveryConflict; Ok u.1.

Definition spend_attempt (now : time) (cause : string) (l : Lease) : Lease := {|
  ls_ClaimID := None; ls_Until := None; ls_Attempts := ls_Attempts l + 1;
  ls_NextAttemptAt := now + backoff (ls_Attempts l + 1);
  ls_ParkedAt := if MaxRecoveryAttempts <=? ls_Attempts l + 1 then Some now else None;
  ls_LastError := Some cause |}.

(** Whether the order is parked now. *)
Definition ReleaseStuckOrder (now : time) (order claim : uuid) (cause : string) db : tx bool :=
  match cm_Orders db !! order with
  | Some o =>
      if held_by claim (or_Recovery o)
      then let l := spend_attempt now cause (or_Recovery o) in
           Ok (with_orders (<[order := set_recovery l o]> (cm_Orders db)) db, negb (is_None (ls_ParkedAt l)))
      else Err ErrRecoveryConflict
  | None => Err ErrRecoveryConflict
  end.

Definition park (now : time) (reason : string) (l : Lease) : Lease := {|
  ls_ClaimID := None; ls_Until := None; ls_Attempts := ls_Attempts l; ls_NextAttemptAt := ls_NextAttemptAt l;
  ls_ParkedAt := Some now; ls_LastError := Some reason |}.

Definition ParkForReconciliation (now : time) (order claim : uuid) (reason : string) db : result CommerceError CommerceDB :=
  fenced_update order (fenced claim claimableRecoveryStatuses)
    (λ o, set_order OrdReconciliationRequired (or_GuestOrderRef o) (or_TerminalOutcome o) (park now reason (or_Recovery o)) now o) db.

Definition TerminalStatus (o : option TerminalOutcome) : OrderStatus :=
  match o with Some OutDeclined => OrdDeclined | _ => OrdTimeout end.

(** Every value of the column proves that nothing was charged; a text that is none of
    them is refused before the statement. *)
Definition RecordTerminalOutcome (now : time) (order claim : uuid) (outcome : option TerminalOutcome) db : result CommerceError CommerceDB :=
  match outcome with
  | None => Err ErrOutcomeNotTerminal
  | Some out =>
      fenced_update order
        (λ o, fenced claim [OrdCreated; OrdPaymentUnknown; OrdReleasePending; OrdReconciliationRequired] o && is_None (or_TerminalOutcome o))
        (λ o, set_order OrdReleasePending (or_GuestOrderRef o) (Some out) (or_Recovery o) now o) db
  end.

Definition note_error (reason : option string) (l : Lease) : Lease := {|
  ls_ClaimID := ls_ClaimID l; ls_Until := ls_Until l; ls_Attempts := ls_Attempts l; ls_NextAttemptAt := ls_NextAttemptAt l;
  ls_ParkedAt := ls_ParkedAt l; ls_LastError := reason |}.

Definition QueueForCompensation (now : time) (order claim : uuid) (reason : string) db : result CommerceError CommerceDB :=
  fenced_update order (fenced claim live_statuses)
    (λ o, set_order OrdReconciliationRequired (or_GuestOrderRef o) (or_TerminalOutcome o) (note_error (Some reason) (or_Recovery o)) now o) db.

Definition fail_reservation (reservation : uuid) db : CommerceDB :=
  fst (update_reservations reservation open_reservation (set_res_status ResFailed) db).

Definition MarkRefunded (now : time) (s : StuckOrder) db : result CommerceError CommerceDB :=
  db ← fenced_update (so_OrderID s) (fenced (so_ClaimID s) (OrdReconciliationRequired :: live_statuses))
         (λ o, set_order OrdRefunded (or_GuestOrderRef o) (or_TerminalOutcome o) (hand_back (or_Recovery o)) now o) db;
  Ok (fail_reservation (so_ReservationID s) db).

Definition MarkReleased (now : time) (s : StuckOrder) db : result CommerceError CommerceDB :=
  db ← fenced_update (so_OrderID s) (fenced (so_ClaimID s) [OrdCreated; OrdReleasePending])
         (λ o, set_order (TerminalStatus (so_TerminalOutcome s)) (or_GuestOrderRef o) (or_TerminalOutcome o) (hand_back (or_Recovery o)) now o) db;
  Ok (fail_reservation (so_ReservationID s) db).

Definition AbandonRecoveryClaim (order claim : uuid) db : result CommerceError CommerceDB :=
  fenced_update order (λ o, held_by claim (or_Recovery o)) (λ o, set_recovery (hand_back (or_Recovery o)) o) db.

Definition ClearRecoveryClaim (order claim : uuid) db : CommerceDB :=
  fst (update_orders order (λ o, held_by claim (or_Recovery o)) (λ o, set_recovery (note_error None (hand_back (or_Recovery o))) o) db).

(** ** The operator *)

Record ParkedOrder := { pk_OrderID : uuid; pk_Status : OrderStatus; pk_Attempts : Z; pk_ParkedAt : time;
  pk_LastError : option string; pk_TerminalOutcome : option TerminalOutcome }.

Definition parked_order (ko : uuid * OrderRow) : option ParkedOrder :=
  at_ ← ls_ParkedAt (or_Recovery ko.2);
  Some {| pk_OrderID := ko.1; pk_Status := or_Status ko.2; pk_Attempts := ls_Attempts (or_Recovery ko.2); pk_ParkedAt := at_;
          pk_LastError := ls_LastError (or_Recovery ko.2); pk_TerminalOutcome := or_TerminalOutcome ko.2 |}.

Definition ListParkedOrders db : list ParkedOrder :=
  isort (lex (on_key pk_ParkedAt Z.ltb) (on_key pk_OrderID uuid_ltb)) (omap parked_order (map_to_list (cm_Orders db))).

(** The columns as they were are evidence (migration 0023); the reason is kept trimmed. *)
Definition UnparkOrder (now : time) (order : uuid) (reason : string) db : result CommerceError CommerceDB :=
  let reason := TrimSpace reason in
  if bool_decide (reason = ""%string) then Err ErrReasonRequired
  else
    match cm_Orders db !! order with
    | None => Err ErrRecoveryOrderNotFound
    | Some o =>
        match ls_ParkedAt (or_Recovery o) with
        | None => Err ErrRecoveryOrderNotParked
        | Some parked =>
            if negb (bool_decide (or_Status o ∈ claimableRecoveryStatuses)) then Err ErrRecoveryOrderStatusNotClaimable
            else
              _ ← refuse_if (500 <? char_count reason)%nat ErrDatabase;
              Ok (with_unparks (cm_Unparks db ++ [{| up_OrderID := order; up_Reason := reason; up_Attempts := ls_Attempts (or_Recovery o);
                                                     up_ParkedAt := parked; up_LastError := ls_LastError (or_Recovery o) |}])
                   (with_orders (<[order := set_recovery {|
                      ls_ClaimID := None; ls_Until := None; ls_Attempts := 0; ls_NextAttemptAt := now; ls_ParkedAt := None;
                      ls_LastError := ls_LastError (or_Recovery o) |} o]> (cm_Orders db)) db))
        end
    end.
End Recovery.
