(* ===== verification/Reversals.v ===== *)
(** * What undoes a completed order

    Refunds, voids and exchanges of [services/commerce/internal/store]: refunds.go,
    voids.go, exchanges.go, exchange_unwind.go, with the replacement of
    api/exchanges.go, and the two queues that drive what they still owe,
    refund_reversal.go and exchange_reversal.go. All three are bound under the row
    lock of the order they undo. The source organizer of a queue row, which a trigger
    keeps (migration 0026), is read from the reservation it is derived from. *)

From stdpp Require Import pretty.
From S2P Require Import Prelude Text Format Sha256 Tables Lifecycle Composition Orders.
#[local] Open Scope Z_scope.

Section Reversals.
Context `{UU : UUID} `{US : !UUIDSource}.
Implicit Types (db : CommerceDB).
Abbreviation tx A := (result CommerceError (CommerceDB * A)).

(** ** What the three share *)

Definition NUL : string := String (Ascii.ascii_of_nat 0) EmptyString.
Definition text_between (lo hi : nat) (s : string) : bool := (lo <=? char_count s)%nat && (char_count s <=? hi)%nat.
Definition fits_bigint (z : Z) : bool := (MinInt64 <=? z) && (z <=? MaxInt64).

(** The order joined with its reservation, for the organizer of the reservation. *)
Definition order_line (org order : uuid) db : result CommerceError (OrderRow * ReservationRow) :=
  match cm_Orders db !! order with
  | Some o =>
      match cm_Reservations db !! or_ReservationID o with
      | Some r => if bool_decide (rs_OrganizerID r = org) then Ok (o, r) else Err ErrNoRows
      | None => Err ErrNoRows
      end
  | None => Err ErrNoRows
  end.

Definition exchanged_order (order : uuid) db : bool := some_row (λ x, bool_decide (ex_SourceOrderID x = order)) (cm_Exchanges db).
Definition refunded_order (order : uuid) db : bool := some_row (λ x, bool_decide (rf_OrderID x = order)) (cm_Refunds db).
Definition voided_order (order : uuid) db : bool := some_row (λ x, bool_decide (vd_OrderID x = order)) (cm_Voids db).

(** ** Refunds (refunds.go) *)

Record RefundRequest := {
  rq_OrderID : uuid; rq_OrganizerID : uuid; rq_Quantity : Z; rq_IdempotencyKey : string; rq_Actor : string; rq_Reason : string }.

Record Refund := {
  re_ID : uuid; re_OrderID : uuid; re_OrganizerID : uuid; re_Quantity : Z; re_UnitAmount : Z; re_Amount : Z; re_Currency : string;
  re_Completed : bool; re_TicketsVoided : bool; re_CapacityReturned : bool; re_HoldID : uuid; re_BuyerID : uuid;
  re_PaymentFactID : uuid; re_Projection : Z * Z * RefundStatus; re_PaymentSourceKey : string; re_CreatedAt : time }.

Definition RefundID (org : uuid) (key : string) : uuid := NewSHA1 ("refund:" +:+ uuid_String org +:+ ":" +:+ key).
Definition RefundFactID (refund : uuid) : uuid := NewSHA1 (uuid_String refund +:+ ":order.refunded").

Definition refundFingerprint (rq : RefundRequest) : string :=
  Hex (Sum256 (join NUL [uuid_String (rq_OrderID rq); pretty (rq_Quantity rq); rq_Actor rq; rq_Reason rq])).

Definition orderProjection (o : OrderRow) : Z * Z * RefundStatus := (or_RefundedQuantity o, or_RefundedAmount o, or_RefundStatus o).

(** [lookupRefund], with what its callers fill in. *)
Definition stored_refund (org id : uuid) (row : RefundRow) (o : OrderRow) (r : ReservationRow) : Refund := {|
  re_ID := id; re_OrderID := rf_OrderID row; re_OrganizerID := org; re_Quantity := rf_Quantity row; re_UnitAmount := rf_UnitAmount row;
  re_Amount := rf_Amount row; re_Currency := rf_Currency row; re_Completed := negb (is_None (rf_Completion row));
  re_TicketsVoided := negb (is_None (rf_TicketsVoidedAt row)); re_CapacityReturned := negb (is_None (rf_CapacityReturnedAt row));
  re_HoldID := rs_HoldID r; re_BuyerID := rs_BuyerID r; re_PaymentFactID := from_option fst uuid_Nil (rf_Completion row);
  re_Projection := orderProjection o; re_PaymentSourceKey := or_IdempotencyKey o; re_CreatedAt := rf_CreatedAt row - rf_CreatedAt row `mod` 1000 |}.

Definition refund_quantity (order : uuid) db : Z := total (λ x, if bool_decide (rf_OrderID x = order) then rf_Quantity x else 0) (cm_Refunds db).

(** The checks and the second unique key of migration 0007. *)
Definition refund_check (org : uuid) (row : RefundRow) db : bool :=
  (0 <? rf_Quantity row) && (0 <? rf_UnitAmount row) && (0 <? rf_Amount row) && (rf_Amount row =? rf_Quantity row * rf_UnitAmount row) &&
  isISOCurrency (rf_Currency row) && text_between 1 200 (rf_Actor row) && text_between 1 500 (rf_Reason row) &&
  forallb (λ kx : uuid * uuid * RefundRow, negb (bool_decide (kx.1.1 = org) && bool_decide (rf_IdempotencyKey kx.2 = rf_IdempotencyKey row)))
          (map_to_list (cm_Refunds db)).

(** The sum is scanned into an [int32], and the ceiling compared in [int32]. *)
Definition BindOrderRefund (now : time) (rq : RefundRequest) db : tx Refund :=
  if rq_Quantity rq <? 1 then Err ErrBadRequest
  else
    line ← order_line (rq_OrganizerID rq) (rq_OrderID rq) db;
    let '(o, r) := line in
    let id := RefundID (rq_OrganizerID rq) (rq_IdempotencyKey rq) in
    match cm_Refunds db !! (rq_OrganizerID rq, id) with
    | Some row =>
        if negb (bool_decide (rf_RequestFingerprint row = refundFingerprint rq)) then Err ErrRefundConflict
        else Ok (db, stored_refund (rq_OrganizerID rq) id row o r)
    | None =>
        if negb (bool_decide (or_Status o = OrdCompleted)) then Err ErrOrderNotRefundable
        else if exchanged_order (rq_OrderID rq) db then Err ErrOrderNotRefundable
        else if rs_UnitAmount r <=? 0 then Err ErrRefundNoMoney
        else
          let refunded := refund_quantity (rq_OrderID rq) db in
          _ ← refuse_if (MaxInt32 <? refunded) ErrDatabase;
          if wrap32 (refunded + rq_Quantity rq) >? rs_Quantity r then Err ErrRefundExceedsOrder
          else
            let row := {| rf_OrderID := rq_OrderID rq; rf_IdempotencyKey := rq_IdempotencyKey rq; rf_RequestFingerprint := refundFingerprint rq;
                          rf_Quantity := rq_Quantity rq; rf_UnitAmount := rs_UnitAmount r; rf_Amount := mul64 (rq_Quantity rq) (rs_UnitAmount r);
                          rf_Currency := rs_Currency r; rf_Actor := rq_Actor rq; rf_Reason := rq_Reason rq; rf_Completion := None;
                          rf_CreatedAt := now; rf_TicketsVoidedAt := None; rf_CapacityReturnedAt := None; rf_Reversal := fresh_lease now |} in
            _ ← refuse_if (negb (refund_check (rq_OrganizerID rq) row db)) ErrDatabase;
            Ok (with_refunds (<[(rq_OrganizerID rq, id) := row]> (cm_Refunds db)) db, stored_refund (rq_OrganizerID rq) id row o r)
    end.

Definition set_refund (completion : option (uuid * time)) (voided returned : option time) (l : Lease) (row : RefundRow) : RefundRow := {|
  rf_OrderID := rf_OrderID row; rf_IdempotencyKey := rf_IdempotencyKey row; rf_RequestFingerprint := rf_RequestFingerprint row;
  rf_Quantity := rf_Quantity row; rf_UnitAmount := rf_UnitAmount row; rf_Amount := rf_Amount row; rf_Currency := rf_Currency row;
  rf_Actor := rf_Actor row; rf_Reason := rf_Reason row; rf_Completion := completion; rf_CreatedAt := rf_CreatedAt row;
  rf_TicketsVoidedAt := voided; rf_CapacityReturnedAt := returned; rf_Reversal := l |}.

Definition add_refund (now : time) (q amount sold : Z) (o : OrderRow) : OrderRow := {|
  or_ReservationID := or_ReservationID o; or_Status := or_Status o; or_IdempotencyKey := or_IdempotencyKey o;
  or_RequestFingerprint := or_RequestFingerprint o; or_GuestOrderRef := or_GuestOrderRef o;
  or_RefundStatus := if sold <=? or_RefundedQuantity o + q then WhollyRefunded else PartlyRefunded;
  or_RefundedQuantity := or_RefundedQuantity o + q; or_RefundedAmount := or_RefundedAmount o + amount;
  or_TerminalOutcome := or_TerminalOutcome o; or_Recovery := or_Recovery o; or_UpdatedAt := now |}.

Definition CompleteOrderRefund (now : time) (org refund paymentFact : uuid) db : result CommerceError CommerceDB :=
  match cm_Refunds db !! (org, refund) with
  | None => Err ErrNoRows
  | Some row =>
      match rf_Completion row with
      | Some _ => Ok db
      | None =>
          match cm_Orders db !! rf_OrderID row with
          | None => Err ErrNoRows
          | Some o =>
              match cm_Reservations db !! or_ReservationID o with
              | None => Err ErrNoRows
              | Some r =>
                  _ ← refuse_if (negb (fits_bigint (or_RefundedAmount o + rf_Amount row)) || (MaxInt32 <? or_RefundedQuantity o + rf_Quantity row)) ErrDatabase;
                  Ok (with_orders (<[rf_OrderID row := add_refund now (rf_Quantity row) (rf_Amount row) (rs_Quantity r) o]> (cm_Orders db))
                       (with_refunds (<[(org, refund) := set_refund (Some (paymentFact, now)) (rf_TicketsVoidedAt row)
                                                            (rf_CapacityReturnedAt row) (rf_Reversal row) row]> (cm_Refunds db)) db))
              end
          end
      end
  end.

Definition update_refund (org refund : uuid) (cond : RefundRow → bool) (f : RefundRow → RefundRow) db : CommerceDB :=
  match cm_Refunds db !! (org, refund) with
  | Some row => if cond row then with_refunds (<[(org, refund) := f row]> (cm_Refunds db)) db else db
  | None => db
  end.

Definition MarkRefundTicketsVoided (now : time) (org refund : uuid) db : CommerceDB :=
  update_refund org refund (λ x, is_None (rf_TicketsVoidedAt x))
    (λ x, set_refund (rf_Completion x) (Some now) (rf_CapacityReturnedAt x) (rf_Reversal x) x) db.

Definition MarkRefundCapacityReturned (now : time) (org refund : uuid) db : CommerceDB :=
  update_refund org refund (λ x, is_None (rf_CapacityReturnedAt x) && negb (is_None (rf_TicketsVoidedAt x)))
    (λ x, set_refund (rf_Completion x) (rf_TicketsVoidedAt x) (Some now) (rf_Reversal x) x) db.

(** ** Voids (voids.go) *)

Record VoidRequest := { vq_OrderID : uuid; vq_OrganizerID : uuid; vq_Actor : string; vq_Reason : string }.

Record OrderVoid := {
  ov_ID : uuid; ov_OrderID : uuid; ov_OrganizerID : uuid; ov_Quantity : Z; ov_Actor : string; ov_Reason : string;
  ov_TicketsVoided : bool; ov_CapacityReturned : bool; ov_HoldID : uuid }.

Definition VoidID (org order : uuid) : uuid := NewSHA1 ("order-void:" +:+ uuid_String org +:+ ":" +:+ uuid_String order).

Definition voidFingerprint (vq : VoidRequest) : string :=
  Hex (Sum256 (join NUL [uuid_String (vq_OrderID vq); vq_Actor vq; vq_Reason vq])).

Definition stored_void (org id hold : uuid) (row : VoidRow) : OrderVoid := {|
  ov_ID := id; ov_OrderID := vd_OrderID row; ov_OrganizerID := org; ov_Quantity := vd_Quantity row; ov_Actor := vd_Actor row;
  ov_Reason := vd_Reason row; ov_TicketsVoided := negb (is_None (vd_TicketsVoidedAt row));
  ov_CapacityReturned := negb (is_None (vd_CapacityReturnedAt row)); ov_HoldID := hold |}.

(** The checks and the unique order of migration 0025. *)
Definition void_check (org : uuid) (row : VoidRow) db : bool :=
  (0 <? vd_Quantity row) && text_between 1 200 (vd_Actor row) && text_between 1 500 (vd_Reason row) &&
  forallb (λ kx : uuid * uuid * VoidRow, negb (bool_decide (kx.1.1 = org) && bool_decide (vd_OrderID kx.2 = vd_OrderID row))) (map_to_list (cm_Voids db)).

(** A void that is there is adopted, whoever bound it. *)
Definition BindOrderVoid (vq : VoidRequest) db : tx OrderVoid :=
  line ← order_line (vq_OrganizerID vq) (vq_OrderID vq) db;
  let '(o, r) := line in
  let id := VoidID (vq_OrganizerID vq) (vq_OrderID vq) in
  match cm_Voids db !! (vq_OrganizerID vq, id) with
  | Some row => Ok (db, stored_void (vq_OrganizerID vq) id (rs_HoldID r) row)
  | None =>
      if negb (bool_decide (or_Status o = OrdCompleted)) then Err ErrOrderNotVoidable
      else if exchanged_order (vq_OrderID vq) db then Err ErrOrderNotVoidable
      else if negb (rs_UnitAmount r =? 0) || negb (rs_TotalAmount r =? 0) then Err ErrVoidHasMoney
      else
        let row := {| vd_OrderID := vq_OrderID vq; vd_RequestFingerprint := voidFingerprint vq; vd_Quantity := rs_Quantity r;
                      vd_Actor := vq_Actor vq; vd_Reason := vq_Reason vq; vd_TicketsVoidedAt := None; vd_CapacityReturnedAt := None |} in
        _ ← refuse_if (negb (void_check (vq_OrganizerID vq) row db)) ErrDatabase;
        Ok (with_voids (<[(vq_OrganizerID vq, id) := row]> (cm_Voids db)) db, stored_void (vq_OrganizerID vq) id (rs_HoldID r) row)
  end.

Definition LookupOrderVoid (org order : uuid) db : option VoidRow := cm_Voids db !! (org, VoidID org order).

Definition set_void (voided returned : option time) (row : VoidRow) : VoidRow := {|
  vd_OrderID := vd_OrderID row; vd_RequestFingerprint := vd_RequestFingerprint row; vd_Quantity := vd_Quantity row;
  vd_Actor := vd_Actor row; vd_Reason := vd_Reason row; vd_TicketsVoidedAt := voided; vd_CapacityReturnedAt := returned |}.

Definition update_void (org id : uuid) (cond : VoidRow → bool) (f : VoidRow → VoidRow) db : CommerceDB :=
  match cm_Voids db !! (org, id) with
  | Some row => if cond row then with_voids (<[(org, id) := f row]> (cm_Voids db)) db else db
  | None => db
  end.

Definition MarkVoidTicketsVoided (now : time) (org id : uuid) db : CommerceDB :=
  update_void org id (λ x, is_None (vd_TicketsVoidedAt x)) (λ x, set_void (Some now) (vd_CapacityReturnedAt x) x) db.

Definition MarkVoidCapacityReturned (now : time) (org id : uuid) db : CommerceDB :=
  update_void org id (λ x, is_None (vd_CapacityReturnedAt x) && negb (is_None (vd_TicketsVoidedAt x)))
    (λ x, set_void (vd_TicketsVoidedAt x) (Some now) x) db.

(** ** Exchanges (exchanges.go) *)

Record ExchangeRequest := {
  xq_SourceOrderID : uuid; xq_OrganizerID : uuid; xq_TargetTicketTypeID : uuid; xq_IdempotencyKey : string; xq_Actor : string; xq_Reason : string }.

(** The row, with the columns of the source line its callers read beside it. *)
Record Exchange := {
  xc_ID : uuid; xc_OrganizerID : uuid; xc_Row : ExchangeRow;
  xc_SourceReservation : uuid; xc_BuyerID : uuid; xc_HoldID : uuid; xc_SlotID : uuid; xc_PaymentSourceKey : string }.

Definition ExchangeID (org : uuid) (key : string) : uuid := NewSHA1 ("exchange:" +:+ uuid_String org +:+ ":" +:+ key).
Definition ExchangeReversedFactID (id : uuid) : uuid := NewSHA1 (uuid_String id +:+ ":order.exchange.reversed").
Definition ExchangeSoldFactID (id : uuid) : uuid := NewSHA1 (uuid_String id +:+ ":order.exchange.sold").
Definition ExchangeDelta (sourceTotal targetTotal : Z) : Z := sub64 targetTotal sourceTotal.

Definition exchangeFingerprint (xq : ExchangeRequest) : string :=
  Hex (Sum256 (join NUL [uuid_String (xq_SourceOrderID xq); uuid_String (xq_TargetTicketTypeID xq); xq_Actor xq; xq_Reason xq])).

Definition with_line (org id : uuid) (row : ExchangeRow) (o : OrderRow) (r : ReservationRow) : Exchange := {|
  xc_ID := id; xc_OrganizerID := org; xc_Row := row; xc_SourceReservation := or_ReservationID o; xc_BuyerID := rs_BuyerID r;
  xc_HoldID := rs_HoldID r; xc_SlotID := rs_SlotID r; xc_PaymentSourceKey := or_IdempotencyKey o |}.

(** The source line, before anything is bound. *)
Definition LoadExchangeSource (org order : uuid) db : result CommerceError (OrderRow * ReservationRow) :=
  line ← order_line org order db;
  if negb (bool_decide (or_Status line.1 = OrdCompleted)) then Err ErrOrderNotExchangeable else Ok line.

Definition exchange_check (row : ExchangeRow) : bool :=
  (0 <? ex_Quantity row) && (0 <=? ex_SourceTotal row) && (ex_SourceTotal row <=? ex_SourceGrossTotal row) &&
  isISOCurrency (ex_Currency row) && text_between 1 200 (ex_Actor row) && text_between 1 500 (ex_Reason row).

(** [mapBindInsertError]: a source that is taken is another exchange's, any other
    unique key this one's. *)
Definition insert_exchange (org id : uuid) (row : ExchangeRow) db : result CommerceError CommerceDB :=
  _ ← refuse_if (negb (exchange_check row)) ErrDatabase;
  _ ← refuse_if (existsb (λ kx : uuid * uuid * ExchangeRow, bool_decide (kx.1.1 = org) && bool_decide (ex_IdempotencyKey kx.2 = ex_IdempotencyKey row))
                   (map_to_list (cm_Exchanges db))) ErrExchangeConflict;
  _ ← refuse_if (exchanged_order (ex_SourceOrderID row) db) ErrOrderNotExchangeable;
  Ok (with_exchanges (<[(org, id) := row]> (cm_Exchanges db)) (cm_Unwinds db) db).

Definition BindOrderExchange (now : time) (xq : ExchangeRequest) db : tx Exchange :=
  if bool_decide (xq_TargetTicketTypeID xq = uuid_Nil) then Err ErrBadRequest
  else
    line ← order_line (xq_OrganizerID xq) (xq_SourceOrderID xq) db;
    let '(o, r) := line in
    let id := ExchangeID (xq_OrganizerID xq) (xq_IdempotencyKey xq) in
    match cm_Exchanges db !! (xq_OrganizerID xq, id) with
    | Some row =>
        if negb (bool_decide (ex_RequestFingerprint row = exchangeFingerprint xq)) then Err ErrExchangeConflict
        else Ok (db, with_line (xq_OrganizerID xq) id row o r)
    | None =>
        if negb (bool_decide (or_Status o = OrdCompleted)) then Err ErrOrderNotExchangeable
        else if refunded_order (xq_SourceOrderID xq) db then Err ErrOrderNotExchangeable
        else if voided_order (xq_SourceOrderID xq) db then Err ErrOrderNotExchangeable
        else
          let row := {| ex_SourceOrderID := xq_SourceOrderID xq; ex_TargetTicketTypeID := xq_TargetTicketTypeID xq;
                        ex_IdempotencyKey := xq_IdempotencyKey xq; ex_RequestFingerprint := exchangeFingerprint xq;
                        ex_Quantity := rs_Quantity r; ex_SourceTotal := rs_FaceValueAmount r; ex_SourceGrossTotal := rs_TotalAmount r;
                        ex_Currency := rs_Currency r; ex_Actor := xq_Actor xq; ex_Reason := xq_Reason xq; ex_Basis := None;
                        ex_Settlement := None; ex_SettlingAt := None; ex_TicketsExchangedAt := None; ex_CapacityReturnedAt := None;
                        ex_CreatedAt := now; ex_Reversal := fresh_lease now |} in
          db ← insert_exchange (xq_OrganizerID xq) id row db;
          Ok (db, with_line (xq_OrganizerID xq) id row o r)
    end.

Definition LookupExchangeFor (xq : ExchangeRequest) db : result CommerceError (option ExchangeRow) :=
  match cm_Exchanges db !! (xq_OrganizerID xq, ExchangeID (xq_OrganizerID xq) (xq_IdempotencyKey xq)) with
  | Some row => if bool_decide (ex_RequestFingerprint row = exchangeFingerprint xq) then Ok (Some row) else Err ErrExchangeConflict
  | None => Ok None
  end.

Definition set_exchange (basis : option ExchangeBasis) (settlement : option (uuid * time)) (settling switched returned : option time)
    (l : Lease) (row : ExchangeRow) : ExchangeRow := {|
  ex_SourceOrderID := ex_SourceOrderID row; ex_TargetTicketTypeID := ex_TargetTicketTypeID row; ex_IdempotencyKey := ex_IdempotencyKey row;
  ex_RequestFingerprint := ex_RequestFingerprint row; ex_Quantity := ex_Quantity row; ex_SourceTotal := ex_SourceTotal row;
  ex_SourceGrossTotal := ex_SourceGrossTotal row; ex_Currency := ex_Currency row; ex_Actor := ex_Actor row; ex_Reason := ex_Reason row;
  ex_Basis := basis; ex_Settlement := settlement; ex_SettlingAt := settling; ex_TicketsExchangedAt := switched;
  ex_CapacityReturnedAt := returned; ex_CreatedAt := ex_CreatedAt row; ex_Reversal := l |}.

Definition update_exchange (org id : uuid) (cond : ExchangeRow → bool) (f : ExchangeRow → ExchangeRow) db : CommerceDB * bool :=
  match cm_Exchanges db !! (org, id) with
  | Some row => if cond row then (with_exchanges (<[(org, id) := f row]> (cm_Exchanges db)) (cm_Unwinds db) db, true) else (db, false)
  | None => (db, false)
  end.

Definition basis_check (row : ExchangeRow) (b : ExchangeBasis) : bool :=
  (0 <=? bs_TargetTotal b) && (0 <=? bs_TargetUnitAmount b) && (bs_DeltaAmount b =? bs_TargetTotal b - ex_SourceTotal row) &&
  (bs_TargetTotal b =? bs_TargetUnitAmount b * ex_Quantity row).

(** Record or load: the basis of the row, and whether this call wrote it. *)
Definition RecordExchangeBasis (org id : uuid) (b : ExchangeBasis) db : tx (ExchangeBasis * bool) :=
  match cm_Exchanges db !! (org, id) with
  | None => Err ErrNoRows
  | Some row =>
      match ex_Basis row with
      | Some old => Ok (db, (old, false))
      | None =>
          _ ← refuse_if (negb (basis_check row b)) ErrDatabase;
          Ok (fst (update_exchange org id (λ _, true)
                (λ x, set_exchange (Some b) (ex_Settlement x) (ex_SettlingAt x) (ex_TicketsExchangedAt x) (ex_CapacityReturnedAt x) (ex_Reversal x) x) db), (b, true))
      end
  end.

(** [order.exchanged] as the persisted rows have it; a reference that is not set is
    scanned as the nil id. *)
Definition exchanged_data (org id : uuid) (row : ExchangeRow) (replacement : uuid) db : result CommerceError OrderExchangedData :=
  match ex_Basis row, cm_Orders db !! ex_SourceOrderID row, cm_Orders db !! replacement with
  | Some b, Some o, Some ro =>
      match cm_Reservations db !! or_ReservationID ro with
      | Some r => Ok {| ox_ExchangeID := id; ox_SourceOrderID := ex_SourceOrderID row; ox_ReplacementOrderID := replacement;
                        ox_GuestOrderRef := default uuid_Nil (or_GuestOrderRef o); ox_OrganizerID := org; ox_BuyerID := rs_BuyerID r;
                        ox_SlotID := bs_TargetSlotID b; ox_TicketTypeID := ex_TargetTicketTypeID row; ox_Quantity := ex_Quantity row |}
      | None => Err ErrNoRows
      end
  | _, _, _ => Err ErrNoRows
  end.

Definition exchangedEnvelope (d : OrderExchangedData) (occurred : time) : Envelope :=
  {| ev_ID := ExchangedEventID (ox_ExchangeID d); ev_Data := OrderExchangedEvent d; ev_Occurred := occurred |}.

(** The settlement and the event it owes; a settled exchange keeps its replacement. *)
Definition CompleteExchangeSettlement (now : time) (org id replacement : uuid) db : result CommerceError CommerceDB :=
  match cm_Exchanges db !! (org, id) with
  | Some row =>
      match ex_Basis row with
      | None => if bool_decide (is_Some (cm_Unwinds db !! (org, id))) then Err ErrExchangeUnwound else Ok db
      | Some b =>
          s ← match ex_Settlement row with
              | Some s => Ok (s, db)
              | None =>
                  _ ← refuse_if (negb (bool_decide (is_Some (cm_Orders db !! replacement)))) ErrDatabase;
                  Ok ((replacement, now), fst (update_exchange org id (λ _, true)
                        (λ x, set_exchange (ex_Basis x) (Some (replacement, now)) (ex_SettlingAt x) (ex_TicketsExchangedAt x) (ex_CapacityReturnedAt x) (ex_Reversal x) x) db))
              end;
          let '((replacement, at_), db) := s in
          d ← exchanged_data org id row replacement db;
          owe now replacement (exchangedEnvelope d at_) db
      end
  | None => if bool_decide (is_Some (cm_Unwinds db !! (org, id))) then Err ErrExchangeUnwound else Ok db
  end.

Definition MarkExchangeTicketsSwitched (now : time) (org id : uuid) db : CommerceDB :=
  fst (update_exchange org id (λ x, is_None (ex_TicketsExchangedAt x) && negb (is_None (ex_Settlement x)))
         (λ x, set_exchange (ex_Basis x) (ex_Settlement x) (ex_SettlingAt x) (Some now) (ex_CapacityReturnedAt x) (ex_Reversal x) x) db).

Definition MarkExchangeCapacityReturned (now : time) (org id : uuid) db : CommerceDB :=
  fst (update_exchange org id (λ x, is_None (ex_CapacityReturnedAt x) && negb (is_None (ex_TicketsExchangedAt x)))
         (λ x, set_exchange (ex_Basis x) (ex_Settlement x) (ex_SettlingAt x) (ex_TicketsExchangedAt x) (Some now) (ex_Reversal x) x) db).

Record ExchangeSwitch := {
  es_ID : uuid; es_OrganizerID : uuid; es_SourceHoldID : uuid; es_Quantity : Z; es_TicketsExchanged : bool; es_CapacityReturned : bool }.

Definition exchange_switch (org id hold : uuid) (row : ExchangeRow) : ExchangeSwitch := {|
  es_ID := id; es_OrganizerID := org; es_SourceHoldID := hold; es_Quantity := ex_Quantity row;
  es_TicketsExchanged := negb (is_None (ex_TicketsExchangedAt row)); es_CapacityReturned := negb (is_None (ex_CapacityReturnedAt row)) |}.

Definition LoadExchangeSwitch (org id : uuid) db : result CommerceError ExchangeSwitch :=
  match cm_Exchanges db !! (org, id) with
  | None => Err ErrExchangeNotSettled
  | Some row =>
      match order_line org (ex_SourceOrderID row) db with
      | Ok (_, r) => if is_None (ex_Settlement row) then Err ErrExchangeNotSettled else Ok (exchange_switch org id (rs_HoldID r) row)
      | Err _ => Err ErrExchangeNotSettled
      end
  end.

(** ** The replacement (api/exchanges.go) *)

(** The target's price and the fees that the source retains. *)
Definition replacementGross (row : ExchangeRow) (targetTotal : Z) : result SaleError Z :=
  retained ← checkedSub (ex_SourceGrossTotal row) (ex_SourceTotal row);
  checkedAdd targetTotal retained.

Definition replacementOrderID (exchange : uuid) : uuid := NewSHA1 ("exchange-order:" +:+ uuid_String exchange).
Definition replacementReservationID (exchange : uuid) : uuid := NewSHA1 ("exchange-reservation:" +:+ uuid_String exchange).
Definition replacementKey (exchange : uuid) : string := "exchange:" +:+ uuid_String exchange.

(** The first of two statements, each its own transaction; the channel and the
    reseller are the source's. *)
Definition insert_replacement_reservation (x : Exchange) (b : ExchangeBasis) (gross : Z) db : result CommerceError CommerceDB :=
  match cm_Reservations db !! xc_SourceReservation x with
  | None => Ok db
  | Some src =>
      y ← insert_reservation (bs_ReplacementReservationID b) {|
             rs_OrganizerID := xc_OrganizerID x; rs_HoldID := bs_TargetHoldID b; rs_SlotID := bs_TargetSlotID b;
             rs_TicketTypeID := ex_TargetTicketTypeID (xc_Row x); rs_BuyerID := xc_BuyerID x; rs_Quantity := ex_Quantity (xc_Row x);
             rs_UnitAmount := bs_TargetUnitAmount b; rs_TotalAmount := gross; rs_FaceValueAmount := bs_TargetTotal b;
             rs_Currency := ex_Currency (xc_Row x); rs_Status := ResCompleted; rs_ChannelCode := rs_ChannelCode src; rs_ResellerID := rs_ResellerID src |} db;
      Ok y.1
  end.

Definition insert_replacement_order (now : time) (x : Exchange) (b : ExchangeBasis) db : result CommerceError CommerceDB :=
  let id := replacementOrderID (xc_ID x) in
  match cm_Orders db !! ex_SourceOrderID (xc_Row x), cm_Reservations db !! bs_ReplacementReservationID b, cm_Orders db !! id with
  | Some _, Some _, None =>
      _ ← refuse_if (negb (bool_decide (orders_of (bs_ReplacementReservationID b) db = []))) ErrDatabase;
      Ok (with_orders (<[id := new_order now (bs_ReplacementReservationID b) OrdCompleted (replacementKey (xc_ID x)) "exchange"]> (cm_Orders db)) db)
  | _, _, _ => Ok db
  end.

(** ** Unwinding a wedged exchange (exchange_unwind.go) *)

Definition MarkExchangeSettling (now : time) (org id : uuid) db : result CommerceError CommerceDB :=
  let u := update_exchange org id (λ x, is_None (ex_SettlingAt x))
             (λ x, set_exchange (ex_Basis x) (ex_Settlement x) (Some now) (ex_TicketsExchangedAt x) (ex_CapacityReturnedAt x) (ex_Reversal x) x) db in
  if u.2 then Ok u.1
  else if bool_decide (is_Some (cm_Exchanges db !! (org, id))) then Ok db else Err ErrExchangeUnwound.

(** [LoadWedgedExchange] refuses what is settled; the row is the answer. *)
Definition LoadWedgedExchange (org id : uuid) db : result CommerceError (ExchangeRow * string) :=
  match cm_Exchanges db !! (org, id) with
  | Some row =>
      match cm_Orders db !! ex_SourceOrderID row with
      | Some o => if is_None (ex_Settlement row) then Ok (row, or_IdempotencyKey o) else Err ErrExchangeSettled
      | None => Err ErrExchangeNotFound
      end
  | None => Err ErrExchangeNotFound
  end.

Definition ListWedgedExchanges db : list (uuid * uuid * ExchangeRow) :=
  isort (on_key (λ kx : uuid * uuid * ExchangeRow, ex_CreatedAt kx.2) Z.ltb)
    (List.filter (λ kx, is_None (ex_Settlement kx.2) && bool_decide (is_Some (cm_Orders db !! ex_SourceOrderID kx.2))) (map_to_list (cm_Exchanges db))).

Definition SettlingGraceWindow : Z := seconds 300.

Definition settling_fresh (now : time) (row : ExchangeRow) : bool :=
  match ex_SettlingAt row with Some t => now - SettlingGraceWindow <? t | None => false end.

(** The evidence first, then the row; [moneyMoved] is what payments answered. *)
Definition UnwindWedgedExchange (now : time) (org id : uuid) (reason : string) (moneyMoved : bool) db : result CommerceError CommerceDB :=
  let reason := TrimSpace reason in
  if bool_decide (reason = ""%string) then Err ErrReasonRequired
  else
    match cm_Exchanges db !! (org, id) with
    | Some row =>
        match cm_Orders db !! ex_SourceOrderID row with
        | None => Err ErrExchangeNotFound
        | Some _ =>
            if negb (is_None (ex_Settlement row)) then Err ErrExchangeSettled
            else if settling_fresh now row then Err ErrExchangeSettling
            else if moneyMoved then Err ErrExchangeMoneyMoved
            else
              _ ← refuse_if ((500 <? char_count reason)%nat || bool_decide (is_Some (cm_Unwinds db !! (org, id))) ||
                             (200 <? char_count (ex_IdempotencyKey row))%nat || bool_decide (ex_IdempotencyKey row = ""%string)) ErrDatabase;
              Ok (with_exchanges (delete (org, id) (cm_Exchanges db))
                    (<[(org, id) := {| uw_OrganizerID := org; uw_ExchangeID := id; uw_SourceOrderID := ex_SourceOrderID row; uw_Reason := reason;
                                       uw_Actor := ex_Actor row; uw_SourceTotal := ex_SourceTotal row;
                                       uw_Basis := (λ b, (bs_TargetHoldID b, bs_DeltaAmount b, bs_TargetTotal b)) <$> ex_Basis row |}]> (cm_Unwinds db)) db)
        end
    | None => Err ErrExchangeNotFound
    end.

(** ** The queues of owed reversals (refund_reversal.go, exchange_reversal.go) *)

Definition source_organizer (order : uuid) db : option uuid :=
  o ← cm_Orders db !! order; rs_OrganizerID <$> cm_Reservations db !! or_ReservationID o.

(** What the driver of a reversal works on (refunds/service.go). *)
Record reversal := {
  rv_OperationID : uuid; rv_OrderID : uuid; rv_OrganizerID : uuid; rv_HoldID : uuid; rv_Quantity : Z;
  rv_TicketsVoided : bool; rv_CapacityReturned : bool }.

Definition MaxReversalAttempts : Z := 10.
Definition MaxExchangeReversalAttempts : Z := 10.
Definition progressedFloorSeconds : Z := 5.
Definition awaitingSwitchFloorSeconds : Z := 60.

Record ClaimedReversal := { cr_Refund : reversal; cr_ClaimID : uuid; cr_Attempts : Z }.

Definition refund_outstanding (x : RefundRow) : bool := is_None (rf_TicketsVoidedAt x) || is_None (rf_CapacityReturnedAt x).

Definition owed_refund (now : time) db (kx : uuid * uuid * RefundRow) : bool :=
  negb (is_None (rf_Completion kx.2)) && refund_outstanding kx.2 && due now (rf_Reversal kx.2) &&
  bool_decide (source_organizer (rf_OrderID kx.2) db = Some kx.1.1).

Definition lease_refund (now : time) (lease : Z) (claim : uuid) (x : RefundRow) : RefundRow :=
  set_refund (rf_Completion x) (rf_TicketsVoidedAt x) (rf_CapacityReturnedAt x) (take_lease now lease claim (rf_Reversal x)) x.

Definition claimed_refund (claim : uuid) db (kx : uuid * uuid * RefundRow) : option ClaimedReversal :=
  match order_line kx.1.1 (rf_OrderID kx.2) db with
  | Ok (_, r) => Some {| cr_Refund := {| rv_OperationID := kx.1.2; rv_OrderID := rf_OrderID kx.2; rv_OrganizerID := kx.1.1; rv_HoldID := rs_HoldID r;
                                         rv_Quantity := rf_Quantity kx.2; rv_TicketsVoided := negb (is_None (rf_TicketsVoidedAt kx.2));
                                         rv_CapacityReturned := negb (is_None (rf_CapacityReturnedAt kx.2)) |};
                         cr_ClaimID := claim; cr_Attempts := ls_Attempts (rf_Reversal kx.2) |}
  | Err _ => None
  end.

Definition ClaimOutstandingReversals (now : time) (locked : uuid * uuid → bool) (limit : nat) (lease : Z) (claim : uuid) db
    : CommerceDB * list ClaimedReversal :=
  let rows := map (λ kx, (kx.1, lease_refund now lease claim kx.2)) (longest_due rf_Reversal locked (owed_refund now db) limit (cm_Refunds db)) in
  (with_refunds (list_to_map rows ∪ cm_Refunds db) db, omap (claimed_refund claim db) rows).

(** How a drive that did not finish is recorded: progress, judged by the row as it
    is, gives the budget back; otherwise an attempt is spent. *)
Definition release_lease (now : time) (max : Z) (progressed outstanding : bool) (cause : string) (l : Lease) : Lease := {|
  ls_ClaimID := None; ls_Until := None;
  ls_Attempts := if progressed || negb outstanding then 0 else ls_Attempts l + 1;
  ls_NextAttemptAt := now + (if progressed then seconds progressedFloorSeconds else backoff (ls_Attempts l + 1));
  ls_ParkedAt := if negb progressed && outstanding && (max <=? ls_Attempts l + 1) then Some now else None;
  ls_LastError := if outstanding then Some cause else None |}.

Definition finish_lease (now : time) (l : Lease) : Lease := {|
  ls_ClaimID := None; ls_Until := None; ls_Attempts := 0; ls_NextAttemptAt := now; ls_ParkedAt := ls_ParkedAt l; ls_LastError := None |}.

Definition set_reversal (l : Lease) (x : RefundRow) : RefundRow :=
  set_refund (rf_Completion x) (rf_TicketsVoidedAt x) (rf_CapacityReturnedAt x) l x.

Definition refund_progressed (voidedAtClaim capacityAtClaim : bool) (x : RefundRow) : bool :=
  (negb (is_None (rf_TicketsVoidedAt x)) && negb voidedAtClaim) || (negb (is_None (rf_CapacityReturnedAt x)) && negb capacityAtClaim).

Definition ReleaseReversalClaim (now : time) (org refund claim : uuid) (voidedAtClaim capacityAtClaim : bool) (cause : string) db : CommerceDB :=
  update_refund org refund (λ x, held_by claim (rf_Reversal x))
    (λ x, set_reversal (release_lease now MaxReversalAttempts (refund_progressed voidedAtClaim capacityAtClaim x)
                          (refund_outstanding x) cause (rf_Reversal x)) x) db.

Definition FinishReversalClaim (now : time) (org refund claim : uuid) db : CommerceDB :=
  update_refund org refund (λ x, held_by claim (rf_Reversal x)) (λ x, set_reversal (finish_lease now (rf_Reversal x)) x) db.

Definition AbandonReversalClaim (org refund claim : uuid) db : CommerceDB :=
  update_refund org refund (λ x, held_by claim (rf_Reversal x)) (λ x, set_reversal (hand_back (rf_Reversal x)) x) db.

Record ClaimedExchangeReversal := { ce_Exchange : ExchangeSwitch; ce_ClaimID : uuid; ce_Attempts : Z }.

Definition owed_exchange (now : time) db (kx : uuid * uuid * ExchangeRow) : bool :=
  negb (is_None (ex_Settlement kx.2)) && negb (is_None (ex_TicketsExchangedAt kx.2)) && is_None (ex_CapacityReturnedAt kx.2) &&
  due now (ex_Reversal kx.2) && bool_decide (source_organizer (ex_SourceOrderID kx.2) db = Some kx.1.1).

Definition set_exchange_reversal (l : Lease) (x : ExchangeRow) : ExchangeRow :=
  set_exchange (ex_Basis x) (ex_Settlement x) (ex_SettlingAt x) (ex_TicketsExchangedAt x) (ex_CapacityReturnedAt x) l x.

Definition claimed_exchange (claim : uuid) db (kx : uuid * uuid * ExchangeRow) : option ClaimedExchangeReversal :=
  match order_line kx.1.1 (ex_SourceOrderID kx.2) db with
  | Ok (_, r) => Some {| ce_Exchange := exchange_switch kx.1.1 kx.1.2 (rs_HoldID r) kx.2; ce_ClaimID := claim; ce_Attempts := ls_Attempts (ex_Reversal kx.2) |}
  | Err _ => None
  end.

Definition ClaimOutstandingExchangeReversals (now : time) (locked : uuid * uuid → bool) (limit : nat) (lease : Z) (claim : uuid) db
    : CommerceDB * list ClaimedExchangeReversal :=
  let rows := map (λ kx, (kx.1, set_exchange_reversal (take_lease now lease claim (ex_Reversal kx.2)) kx.2))
                (longest_due ex_Reversal locked (owed_exchange now db) limit (cm_Exchanges db)) in
  (with_exchanges (list_to_map rows ∪ cm_Exchanges db) (cm_Unwinds db) db, omap (claimed_exchange claim db) rows).

(** While access has not confirmed the switch, waiting costs no attempt. *)
Definition release_exchange_lease (now : time) (progressed outstanding awaiting : bool) (cause : string) (l : Lease) : Lease := {|
  ls_ClaimID := None; ls_Until := None;
  ls_Attempts := if progressed || negb outstanding then 0 else if awaiting then ls_Attempts l else ls_Attempts l + 1;
  ls_NextAttemptAt := now + (if progressed then seconds progressedFloorSeconds
                             else if awaiting then seconds awaitingSwitchFloorSeconds else backoff (ls_Attempts l + 1));
  ls_ParkedAt := if negb progressed && outstanding && negb awaiting && (MaxExchangeReversalAttempts <=? ls_Attempts l + 1) then Some now else None;
  ls_LastError := if outstanding && negb awaiting then Some cause else None |}.

Definition ReleaseExchangeReversalClaim (now : time) (org id claim : uuid) (switchedAtClaim capacityAtClaim : bool) (cause : string) db : CommerceDB :=
  fst (update_exchange org id (λ x, held_by claim (ex_Reversal x))
    (λ x, set_exchange_reversal (release_exchange_lease now
       ((negb (is_None (ex_TicketsExchangedAt x)) && negb switchedAtClaim) || (negb (is_None (ex_CapacityReturnedAt x)) && negb capacityAtClaim))
       (is_None (ex_TicketsExchangedAt x) || is_None (ex_CapacityReturnedAt x)) (is_None (ex_TicketsExchangedAt x)) cause (ex_Reversal x)) x) db).

Definition FinishExchangeReversalClaim (now : time) (org id claim : uuid) db : CommerceDB :=
  fst (update_exchange org id (λ x, held_by claim (ex_Reversal x)) (λ x, set_exchange_reversal (finish_lease now (ex_Reversal x)) x) db).

Definition AbandonExchangeReversalClaim (org id claim : uuid) db : CommerceDB :=
  fst (update_exchange org id (λ x, held_by claim (ex_Reversal x)) (λ x, set_exchange_reversal (hand_back (ex_Reversal x)) x) db).
End Reversals.
