(* ===== verification/OrderMoves.v ===== *)
(** * Runs of commerce's statements, and what a statement does to the tables

    Every statement and transaction of [Orders] and [Reversals] as a request, in any
    order and with any clocks: the handlers, the runners and the operators interleave at
    these. What the handlers pass is [handlers_pass].

    Most requests are [Quiet]: they add and delete no row, and of a row they change the
    status, a mark or the lease. The others are a few moves, each with its condition.
    Invariants are proved of these in [OrderSafety]. *)

From S2P Require Import Prelude Text Tables Lifecycle Orders Reversals.
#[local] Open Scope Z_scope.

Section Runs.
Context `{UU : UUID} `{US : !UUIDSource}.
Implicit Types (db : CommerceDB) (o : OrderRow) (r : ReservationRow).

Inductive CommerceRequest :=
| OpReserve (id : uuid) (r : ReservationRow)
| OpClaimOrder (at_ : time) (reservation org : uuid) (amount : Z) (key fingerprint : string)
| OpFinalizing (reservation : uuid)
| OpReservationUnknown (reservation : uuid)
| OpOrderUnknown (order : uuid)
| OpConfirmationPending (order : uuid)
| OpTerminalFailure (reservation order : uuid) (st : OrderStatus)
| OpComplete (at_ : time) (c : Completion) (candidate : uuid)
| OpBackfill
| OpClaimOutbox (locked : uuid → bool) (limit : nat) (lease : Z) (claim : uuid)
| OpPublished (event claim : uuid)
| OpPublishedByOrder (order : uuid)
| OpReleaseOutbox (event claim : uuid) (cause : string)
| OpClaimStuck (locked : uuid → bool) (limit : nat) (lease : Z) (claim : uuid)
| OpReleaseStuck (order claim : uuid) (cause : string)
| OpPark (order claim : uuid) (reason : string)
| OpOutcome (order claim : uuid) (outcome : option TerminalOutcome)
| OpQueueCompensation (order claim : uuid) (reason : string)
| OpMarkRefunded (s : StuckOrder)
| OpMarkReleased (s : StuckOrder)
| OpAbandonRecovery (order claim : uuid)
| OpClearRecovery (order claim : uuid)
| OpUnpark (order : uuid) (reason : string)
| OpBindRefund (rq : RefundRequest)
| OpCompleteRefund (org refund fact : uuid)
| OpRefundVoided (org refund : uuid)
| OpRefundReturned (org refund : uuid)
| OpBindVoid (vq : VoidRequest)
| OpVoidVoided (org id : uuid)
| OpVoidReturned (org id : uuid)
| OpBindExchange (xq : ExchangeRequest)
| OpRecordBasis (org id : uuid) (b : ExchangeBasis)
| OpSettling (org id : uuid)
| OpReplacementReservation (x : Exchange) (b : ExchangeBasis) (gross : Z)
| OpReplacementOrder (x : Exchange) (b : ExchangeBasis)
| OpSettle (org id replacement : uuid)
| OpSwitched (org id : uuid)
| OpExchangeReturned (org id : uuid)
| OpUnwind (org id : uuid) (reason : string) (moneyMoved : bool)
| OpClaimReversals (locked : uuid * uuid → bool) (limit : nat) (lease : Z) (claim : uuid)
| OpReleaseReversal (org refund claim : uuid) (voided returned : bool) (cause : string)
| OpFinishReversal (org refund claim : uuid)
| OpAbandonReversal (org refund claim : uuid)
| OpClaimExchangeReversals (locked : uuid * uuid → bool) (limit : nat) (lease : Z) (claim : uuid)
| OpReleaseExchangeReversal (org id claim : uuid) (switched returned : bool) (cause : string)
| OpFinishExchangeReversal (org id claim : uuid)
| OpAbandonExchangeReversal (org id claim : uuid).

(** An error leaves the tables as they were. *)
Definition kept_on_error (db : CommerceDB) (m : result CommerceError CommerceDB) : CommerceDB := match m with Ok db' => db' | Err _ => db end.
Definition effect {A} (db : CommerceDB) (m : result CommerceError (CommerceDB * A)) : CommerceDB := match m with Ok x => x.1 | Err _ => db end.

Definition perform (now : time) (q : CommerceRequest) (db : CommerceDB) : CommerceDB :=
  match q with
  | OpReserve id r => effect db (reserve id r db)
  | OpClaimOrder at_ reservation org amount key fp => effect db (claimOrder now at_ reservation org amount key fp db)
  | OpFinalizing reservation => markFinalizing reservation db
  | OpReservationUnknown reservation => reservationUnknown reservation db
  | OpOrderUnknown order => fst (orderUnknown now order db)
  | OpConfirmationPending order => fst (confirmationPending now order db)
  | OpTerminalFailure reservation order st => markTerminalFailure now reservation order st db
  | OpComplete at_ c candidate => effect db (CompleteOrder now at_ c candidate db)
  | OpBackfill => BackfillCompletionOutbox db
  | OpClaimOutbox locked limit lease claim => fst (ClaimOutbox now locked limit lease claim db)
  | OpPublished event claim => fst (MarkPublished now event claim db)
  | OpPublishedByOrder order => MarkPublishedByOrder now order db
  | OpReleaseOutbox event claim cause => ReleaseOutbox now event claim cause db
  | OpClaimStuck locked limit lease claim => fst (ClaimStuckOrders now locked limit lease claim db)
  | OpReleaseStuck order claim cause => effect db (ReleaseStuckOrder now order claim cause db)
  | OpPark order claim reason => kept_on_error db (ParkForReconciliation now order claim reason db)
  | OpOutcome order claim outcome => kept_on_error db (RecordTerminalOutcome now order claim outcome db)
  | OpQueueCompensation order claim reason => kept_on_error db (QueueForCompensation now order claim reason db)
  | OpMarkRefunded s => kept_on_error db (MarkRefunded now s db)
  | OpMarkReleased s => kept_on_error db (MarkReleased now s db)
  | OpAbandonRecovery order claim => kept_on_error db (AbandonRecoveryClaim order claim db)
  | OpClearRecovery order claim => ClearRecoveryClaim order claim db
  | OpUnpark order reason => kept_on_error db (UnparkOrder now order reason db)
  | OpBindRefund rq => effect db (BindOrderRefund now rq db)
  | OpCompleteRefund org refund fact => kept_on_error db (CompleteOrderRefund now org refund fact db)
  | OpRefundVoided org refund => MarkRefundTicketsVoided now org refund db
  | OpRefundReturned org refund => MarkRefundCapacityReturned now org refund db
  | OpBindVoid vq => effect db (BindOrderVoid vq db)
  | OpVoidVoided org id => MarkVoidTicketsVoided now org id db
  | OpVoidReturned org id => MarkVoidCapacityReturned now org id db
  | OpBindExchange xq => effect db (BindOrderExchange now xq db)
  | OpRecordBasis org id b => effect db (RecordExchangeBasis org id b db)
  | OpSettling org id => kept_on_error db (MarkExchangeSettling now org id db)
  | OpReplacementReservation x b gross => kept_on_error db (insert_replacement_reservation x b gross db)
  | OpReplacementOrder x b => kept_on_error db (insert_replacement_order now x b db)
  | OpSettle org id replacement => kept_on_error db (CompleteExchangeSettlement now org id replacement db)
  | OpSwitched org id => MarkExchangeTicketsSwitched now org id db
  | OpExchangeReturned org id => MarkExchangeCapacityReturned now org id db
  | OpUnwind org id reason moneyMoved => kept_on_error db (UnwindWedgedExchange now org id reason moneyMoved db)
  | OpClaimReversals locked limit lease claim => fst (ClaimOutstandingReversals now locked limit lease claim db)
  | OpReleaseReversal org refund claim voided returned cause => ReleaseReversalClaim now org refund claim voided returned cause db
  | OpFinishReversal org refund claim => FinishReversalClaim now org refund claim db
  | OpAbandonReversal org refund claim => AbandonReversalClaim org refund claim db
  | OpClaimExchangeReversals locked limit lease claim => fst (ClaimOutstandingExchangeReversals now locked limit lease claim db)
  | OpReleaseExchangeReversal org id claim switched returned cause => ReleaseExchangeReversalClaim now org id claim switched returned cause db
  | OpFinishExchangeReversal org id claim => FinishExchangeReversalClaim now org id claim db
  | OpAbandonExchangeReversal org id claim => AbandonExchangeReversalClaim org id claim db
  end.

Abbreviation trace := (list (time * CommerceRequest)).

Fixpoint run (l : trace) (db : CommerceDB) : CommerceDB :=
  match l with [] => db | (now, q) :: l => run l (perform now q db) end.

(** A condition on each request of a run and the tables it meets. *)
Fixpoint along (P : CommerceRequest → CommerceDB → bool) (l : trace) (db : CommerceDB) : bool :=
  match l with [] => true | (now, q) :: l => P q db && along P l (perform now q db) end.

(** ** What the handlers pass

    Quantities are those the handlers accept; a failure is one of two statuses; a
    completion carries the reservation's columns; a replacement is built from an
    exchange's row and its basis. *)
Definition MaxQuantity : Z := 50.

Definition completion_of (order : uuid) o r : Completion := {|
  co_ReservationID := or_ReservationID o; co_OrderID := order; co_OrganizerID := rs_OrganizerID r; co_BuyerID := rs_BuyerID r;
  co_SlotID := rs_SlotID r; co_TicketTypeID := rs_TicketTypeID r; co_Quantity := rs_Quantity r |}.

#[export] Instance Completion_eq_dec : EqDecision Completion.
Proof. solve_decision. Defined.
#[export] Instance ExchangeBasis_eq_dec : EqDecision ExchangeBasis.
Proof. solve_decision. Defined.

Definition handlers_pass (q : CommerceRequest) (db : CommerceDB) : bool :=
  match q with
  | OpReserve _ r => rs_Quantity r <=? MaxQuantity
  | OpTerminalFailure _ _ st => bool_decide (st ∈ [OrdDeclined; OrdTimeout])
  | OpComplete _ c _ =>
      match cm_Orders db !! co_OrderID c with
      | Some o => match cm_Reservations db !! or_ReservationID o with
                  | Some r => bool_decide (c = completion_of (co_OrderID c) o r)
                  | None => true
                  end
      | None => true
      end
  | OpBindRefund rq => rq_Quantity rq <=? MaxQuantity
  | OpReplacementReservation x b _ | OpReplacementOrder x b => ex_Quantity (xc_Row x) <=? MaxQuantity
  | _ => true
  end.
End Runs.

(** ** Tables that change row by row *)

Section Evolves.
Context {K R : Type} `{Countable K} (step : R → R → Prop).
Implicit Types (m : gmap K R).

Definition evolves m m' : Prop := ∀ k, option_Forall2 step (m !! k) (m' !! k).

Lemma evolves_back m m' k x' : evolves m m' → m' !! k = Some x' → ∃ x, m !! k = Some x ∧ step x x'.
Proof. intros He Hk. pose proof (He k) as Hs. rewrite Hk in Hs. inversion Hs; subst. eauto. Qed.

Lemma evolves_at m m' k x : evolves m m' → m !! k = Some x → ∃ x', m' !! k = Some x' ∧ step x x'.
Proof. intros He Hk. pose proof (He k) as Hs. rewrite Hk in Hs. inversion Hs; subst. eauto. Qed.

Lemma evolves_fmap (f : R → R) m : (∀ x, step x (f x)) → evolves m (f <$> m).
Proof. intros Hf k. rewrite lookup_fmap. destruct (m !! k); constructor. apply Hf. Qed.

Context `{!Reflexive step}.

#[export] Instance evolves_refl : Reflexive evolves.
Proof. intros m k. destruct (m !! k); constructor. done. Qed.

Lemma evolves_insert m k x x' : m !! k = Some x → step x x' → evolves m (<[k := x']> m).
Proof.
  intros Hk Hs j. destruct (decide (j = k)) as [->|].
  - rewrite Hk, lookup_insert_eq. by constructor.
  - rewrite lookup_insert_ne by done. apply evolves_refl.
Qed.

(** A bulk update through the rows a claim has picked. *)
Lemma evolves_picked (f : R → R) (l : list (K * R)) m :
  (∀ k x, (k, x) ∈ l → m !! k = Some x ∧ step x (f x)) → evolves m (list_to_map (map (λ kx, (kx.1, f kx.2)) l) ∪ m).
Proof.
  intros Hl k. rewrite lookup_union.
  destruct (list_to_map (M := gmap K R) (map (λ kx, (kx.1, f kx.2)) l) !! k) as [y|] eqn:E.
  - apply elem_of_list_to_map_2, list_elem_of_fmap in E as ([k' x] & Heq & Hin). cbn in Heq. simplify_eq.
    destruct (Hl _ _ Hin) as [Hm Hs]. rewrite Hm. by constructor.
  - rewrite (left_id_L None _). apply evolves_refl.
Qed.

Lemma total_evolves (g : R → Z) m m' : (∀ x x', step x x' → g x = g x') → evolves m m' → total g m = total g m'.
Proof.
  intros Hg. revert m'. induction m as [|k x m Hk IH] using map_ind; intros m' He.
  - replace m' with (∅ : gmap K R); [done|]. apply map_eq. intros k. pose proof (He k) as Hs. rewrite lookup_empty in Hs.
    rewrite lookup_empty. by inversion Hs.
  - destruct (evolves_at _ _ k x He ltac:(apply lookup_insert_eq)) as (x' & Hx' & Hs).
    rewrite total_fresh, (total_delete g m' k x' Hx'), (Hg x x' Hs) by done. f_equal. apply IH. intros j.
    destruct (decide (j = k)) as [->|].
    + rewrite lookup_delete_eq, Hk. constructor.
    + pose proof (He j) as Hj. rewrite lookup_insert_ne in Hj by done. by rewrite lookup_delete_ne by done.
Qed.
End Evolves.

Section Moves.
Context `{UU : UUID} `{US : !UUIDSource}.
Implicit Types (db : CommerceDB) (o : OrderRow) (r : ReservationRow) (l : Lease).

(** ** Leases *)

(** A lease that runs after [clock] and is not of the claim [who]. *)
Definition anothers (clock : time) (who : option uuid) l : Prop :=
  ls_ParkedAt l = None ∧ ∃ c t, ls_ClaimID l = Some c ∧ ls_Until l = Some t ∧ who ≠ Some c ∧ clock < t.

(** What may happen to a lease: nothing, if it is another's. *)
Definition lease_step (clock : time) (who : option uuid) l l' : Prop :=
  anothers clock who l → ls_ClaimID l' = ls_ClaimID l ∧ ls_Until l' = ls_Until l ∧ ls_ParkedAt l' = ls_ParkedAt l.

#[export] Instance lease_step_refl clock who : Reflexive (lease_step clock who).
Proof. intros l _. done. Qed.

Lemma due_step now clock who l l' : now ≤ clock → due now l = true → lease_step clock who l l'.
Proof.
  unfold due. intros Hc Hd (_ & c & t & _ & Hu & _ & Ht). zbool. rewrite Hu in *. zbool. lia.
Qed.

Lemma held_step clock c l l' : held_by c l = true → lease_step clock (Some c) l l'.
Proof. unfold held_by. intros Hh (_ & c' & t & Hc & _ & Hn & _). zbool. congruence. Qed.

Lemma parked_step clock who l l' at_ : ls_ParkedAt l = Some at_ → lease_step clock who l l'.
Proof. intros Hp [Hn _]. congruence. Qed.

(** ** Rows *)

Definition same_line r r' : Prop := ∃ st, r' = set_res_status st r.

(** An order that has ended keeps its status; only the completion completes one. *)
Definition ended (st : OrderStatus) : bool := bool_decide (st ∈ [OrdCompleted; OrdDeclined; OrdTimeout; OrdRefunded]).
Definition status_step (st st' : OrderStatus) : Prop := (st' = OrdCompleted ↔ st = OrdCompleted) ∧ (ended st = true → st' = st).

Definition order_step (clock : time) (who : option uuid) o o' : Prop :=
  ∃ st outcome l t, o' = set_order st (or_GuestOrderRef o) outcome l t o ∧
    status_step (or_Status o) st ∧ (∀ x, or_TerminalOutcome o = Some x → outcome = Some x) ∧ lease_step clock who (or_Recovery o) l.

Definition message_step (x x' : OutboxRow) : Prop := ∃ p l, x' = set_outbox p l x.

(** Marks stay, and the places are marked returned only after the tickets. *)
Definition marks_step (v v' w w' : option time) : Prop :=
  (is_Some v → is_Some v') ∧ (is_Some w → is_Some w') ∧ (is_Some w' → is_Some w ∨ is_Some v').

Definition refund_step (clock : time) (who : option uuid) (x x' : RefundRow) : Prop :=
  ∃ v w l, x' = set_refund (rf_Completion x) v w l x ∧
    marks_step (rf_TicketsVoidedAt x) v (rf_CapacityReturnedAt x) w ∧ lease_step clock who (rf_Reversal x) l.

Definition void_step (x x' : VoidRow) : Prop :=
  ∃ v w, x' = set_void v w x ∧ marks_step (vd_TicketsVoidedAt x) v (vd_CapacityReturnedAt x) w.

Definition exchange_step (clock : time) (who : option uuid) (x x' : ExchangeRow) : Prop :=
  ∃ b s v w l, x' = set_exchange b (ex_Settlement x) s v w l x ∧ (ex_Basis x = None ∨ b = ex_Basis x) ∧
    (is_Some v → is_Some (ex_TicketsExchangedAt x) ∨ is_Some (ex_Settlement x)) ∧
    marks_step (ex_TicketsExchangedAt x) v (ex_CapacityReturnedAt x) w ∧ lease_step clock who (ex_Reversal x) l.

#[export] Instance same_line_refl : Reflexive same_line.
Proof. intros []. by eexists. Qed.
Lemma marks_step_refl v w : marks_step v v w w.
Proof. by split_and!; auto. Qed.
#[export] Instance order_step_refl clock who : Reflexive (order_step clock who).
Proof. intros []. do 4 eexists. by split_and!. Qed.
#[export] Instance message_step_refl : Reflexive message_step.
Proof. intros []. by do 2 eexists. Qed.
#[export] Instance refund_step_refl clock who : Reflexive (refund_step clock who).
Proof. intros []. do 3 eexists. split_and!; [done|apply marks_step_refl|done]. Qed.
#[export] Instance void_step_refl : Reflexive void_step.
Proof. intros []. do 2 eexists. split; [done|apply marks_step_refl]. Qed.
#[export] Instance exchange_step_refl clock who : Reflexive (exchange_step clock who).
Proof. intros []. do 5 eexists. split_and!; [done|by right|by left|apply marks_step_refl|done]. Qed.

(** ** Quiet requests *)

Record Quiet (clock : time) (who : option uuid) db db' : Prop := {
  qt_reservations : evolves same_line (cm_Reservations db) (cm_Reservations db');
  qt_orders : evolves (order_step clock who) (cm_Orders db) (cm_Orders db');
  qt_outbox : evolves message_step (cm_Outbox db) (cm_Outbox db');
  qt_refunds : evolves (refund_step clock who) (cm_Refunds db) (cm_Refunds db');
  qt_voids : evolves void_step (cm_Voids db) (cm_Voids db');
  qt_exchanges : evolves (exchange_step clock who) (cm_Exchanges db) (cm_Exchanges db');
}.

#[export] Instance Quiet_refl clock who : Reflexive (Quiet clock who).
Proof. intros db. by split. Qed.

Lemma quiet_reservations clock who m db : evolves same_line (cm_Reservations db) m → Quiet clock who db (with_reservations m db).
Proof. by split. Qed.
Lemma quiet_orders clock who m db : evolves (order_step clock who) (cm_Orders db) m → Quiet clock who db (with_orders m db).
Proof. by split. Qed.
Lemma quiet_outbox clock who m db : evolves message_step (cm_Outbox db) m → Quiet clock who db (with_outbox m db).
Proof. by split. Qed.
Lemma quiet_refunds clock who m db : evolves (refund_step clock who) (cm_Refunds db) m → Quiet clock who db (with_refunds m db).
Proof. by split. Qed.
Lemma quiet_voids clock who m db : evolves void_step (cm_Voids db) m → Quiet clock who db (with_voids m db).
Proof. by split. Qed.
Lemma quiet_exchanges clock who m u db : evolves (exchange_step clock who) (cm_Exchanges db) m → Quiet clock who db (with_exchanges m u db).
Proof. by split. Qed.

(** The updates of one row. *)
Lemma quiet_update_reservations clock who k cond st db :
  Quiet clock who db (fst (update_reservations k cond (set_res_status st) db)).
Proof.
  unfold update_reservations, update_where. destruct (cm_Reservations db !! k) as [r|] eqn:E; [|by apply quiet_reservations].
  destruct (cond r); [|by apply quiet_reservations]. apply quiet_reservations. eapply evolves_insert; [apply _|exact E|by exists st].
Qed.

Lemma quiet_update_orders_at clock who k cond f db :
  (∀ o, cm_Orders db !! k = Some o → cond o = true → order_step clock who o (f o)) → Quiet clock who db (fst (update_orders k cond f db)).
Proof.
  intros Hf. unfold update_orders, update_where. destruct (cm_Orders db !! k) as [o|] eqn:E; [|by apply quiet_orders].
  destruct (cond o) eqn:Ec; [|by apply quiet_orders]. apply quiet_orders. eapply evolves_insert; [apply _|exact E|by apply Hf].
Qed.

Lemma quiet_update_orders clock who k cond f db :
  (∀ o, cond o = true → order_step clock who o (f o)) → Quiet clock who db (fst (update_orders k cond f db)).
Proof. intros Hf. apply quiet_update_orders_at. auto. Qed.

Lemma quiet_fenced_update clock who k cond f db :
  (∀ o, cond o = true → order_step clock who o (f o)) → Quiet clock who db (kept_on_error db (fenced_update k cond f db)).
Proof.
  intros Hf. unfold fenced_update. pose proof (quiet_update_orders clock who k cond f db Hf) as Hq.
  destruct (update_orders k cond f db) as [db' []]; [exact Hq|by cbn].
Qed.

Lemma quiet_update_refund clock who org k cond f db :
  (∀ x, cond x = true → refund_step clock who x (f x)) → Quiet clock who db (update_refund org k cond f db).
Proof.
  intros Hf. unfold update_refund. destruct (cm_Refunds db !! (org, k)) as [x|] eqn:E; [|done].
  destruct (cond x) eqn:Ec; [|done]. apply quiet_refunds. eapply evolves_insert; [apply _|exact E|by apply Hf].
Qed.

Lemma quiet_update_void clock who org k cond f db :
  (∀ x, cond x = true → void_step x (f x)) → Quiet clock who db (update_void org k cond f db).
Proof.
  intros Hf. unfold update_void. destruct (cm_Voids db !! (org, k)) as [x|] eqn:E; [|done].
  destruct (cond x) eqn:Ec; [|done]. apply quiet_voids. eapply evolves_insert; [apply _|exact E|by apply Hf].
Qed.

Lemma quiet_update_exchange clock who org k cond f db :
  (∀ x, cond x = true → exchange_step clock who x (f x)) → Quiet clock who db (fst (update_exchange org k cond f db)).
Proof.
  intros Hf. unfold update_exchange. destruct (cm_Exchanges db !! (org, k)) as [x|] eqn:E; [|done].
  destruct (cond x) eqn:Ec; [|done]. apply quiet_exchanges. eapply evolves_insert; [apply _|exact E|by apply Hf].
Qed.

Lemma lease_step_trans clock who l1 l2 l3 : lease_step clock who l1 l2 → lease_step clock who l2 l3 → lease_step clock who l1 l3.
Proof.
  intros H12 H23 Ha. destruct (H12 Ha) as (E1 & E2 & E3). destruct Ha as (Hp & c & t & Hc & Ht & Hw & Hl).
  destruct H23 as (F1 & F2 & F3); [|by rewrite F1, F2, F3]. split; [congruence|]. exists c, t. split_and!; try done; congruence.
Qed.

Lemma order_step_trans clock who o1 o2 o3 : order_step clock who o1 o2 → order_step clock who o2 o3 → order_step clock who o1 o3.
Proof.
  intros (st & out & l & t & -> & [Hst He] & Hx & Hl) (st' & out' & l' & t' & -> & [Hst' He'] & Hx' & Hl'). cbn in *. exists st', out', l', t'.
  split_and!; [done| |by eauto|by eapply lease_step_trans]. split; [by rewrite Hst', <-Hst|].
  intros H. rewrite He' by (by rewrite He). by apply He.
Qed.

Lemma same_line_trans r1 r2 r3 : same_line r1 r2 → same_line r2 r3 → same_line r1 r3.
Proof. intros [st ->] [st' ->]. by exists st'. Qed.

Lemma evolves_trans {K R} `{Countable K} (step : R → R → Prop) (m1 m2 m3 : gmap K R) :
  (∀ x y z, step x y → step y z → step x z) → evolves step m1 m2 → evolves step m2 m3 → evolves step m1 m3.
Proof.
  intros Ht H12 H23 k. specialize (H12 k). specialize (H23 k).
  destruct H12; inversion H23; subst; constructor; eauto.
Qed.

Lemma quiet_then_reservation clock who k cond st db db' :
  Quiet clock who db db' → Quiet clock who db (fst (update_reservations k cond (set_res_status st) db')).
Proof.
  intros []. destruct (quiet_update_reservations clock who k cond st db') as [Hr _ _ _ _ _]. split; try done.
  eapply evolves_trans; [exact same_line_trans|done|done].
Qed.

(** ** Which requests are quiet *)

Definition loud (q : CommerceRequest) : bool :=
  match q with
  | OpReserve _ _ | OpClaimOrder _ _ _ _ _ _ | OpComplete _ _ _ | OpBackfill | OpBindRefund _ | OpCompleteRefund _ _ _ | OpBindVoid _
  | OpBindExchange _ | OpReplacementReservation _ _ _ | OpReplacementOrder _ _ | OpSettle _ _ _ | OpUnwind _ _ _ _ => true
  | _ => false
  end.

(** The claim that a request is fenced by. *)
Definition claim_named (q : CommerceRequest) : option uuid :=
  match q with
  | OpReleaseStuck _ c _ | OpPark _ c _ | OpOutcome _ c _ | OpQueueCompensation _ c _ | OpAbandonRecovery _ c | OpClearRecovery _ c
  | OpReleaseReversal _ _ c _ _ _ | OpFinishReversal _ _ c | OpAbandonReversal _ _ c
  | OpReleaseExchangeReversal _ _ c _ _ _ | OpFinishExchangeReversal _ _ c | OpAbandonExchangeReversal _ _ c => Some c
  | OpMarkRefunded s | OpMarkReleased s => Some (so_ClaimID s)
  | _ => None
  end.

(** The latest of the clocks a request reads. *)
Definition latest_clock (now : time) (q : CommerceRequest) : time :=
  match q with OpClaimOrder at_ _ _ _ _ _ => Z.max now at_ | _ => now end.

Lemma not_ended (sts : list OrderStatus) st : forallb (λ st, negb (ended st)) sts = true → st ∈ sts → ended st = false.
Proof. intros Hn Hin. rewrite forallb_forall in Hn. apply list_elem_of_In, Hn in Hin. by zbool. Qed.

Lemma ended_false st : ended st = false → st ≠ OrdCompleted.
Proof. by intros ? ->. Qed.

Lemma status_step_open st st' : ended st = false → st' ≠ OrdCompleted → status_step st st'.
Proof. intros He Hn. split; [|congruence]. split; [done|]. intros ->. discriminate He. Qed.

Lemma fenced_inv c sts o : fenced c sts o = true → held_by c (or_Recovery o) = true ∧ or_Status o ∈ sts.
Proof. unfold fenced. intros ?. zbool. done. Qed.

Lemma step_status clock who st now o : ended (or_Status o) = false → st ≠ OrdCompleted → order_step clock who o (set_status now st o).
Proof. intros Ho Hst. do 4 eexists. split_and!; [reflexivity|by apply status_step_open|done|done]. Qed.

Lemma step_recovery clock who l o : lease_step clock who (or_Recovery o) l → order_step clock who o (set_recovery l o).
Proof. intros Hl. do 4 eexists. by split_and!. Qed.

(** A step of the claim that holds the order. *)
Lemma step_held clock c st out l t o :
  held_by c (or_Recovery o) = true → ended (or_Status o) = false → st ≠ OrdCompleted → (∀ x, or_TerminalOutcome o = Some x → out = Some x) →
  order_step clock (Some c) o (set_order st (or_GuestOrderRef o) out l t o).
Proof. intros Hh Ho Hst Hx. do 4 eexists. split_and!; [reflexivity|by apply status_step_open|done|by eapply held_step]. Qed.

Lemma live_open o : live o = true → ended (or_Status o) = false.
Proof. unfold live. intros H. zbool. by apply (not_ended live_statuses). Qed.

Lemma quiet_orderUnknown clock who now k db : Quiet clock who db (fst (orderUnknown now k db)).
Proof. apply quiet_update_orders. intros o Ho%live_open. by apply step_status. Qed.

Lemma quiet_confirmationPending clock who now k db : Quiet clock who db (fst (confirmationPending now k db)).
Proof. apply quiet_update_orders. intros o Ho%live_open. by apply step_status. Qed.

Lemma Quiet_trans clock who db1 db2 db3 : Quiet clock who db1 db2 → Quiet clock who db2 db3 → Quiet clock who db1 db3.
Proof.
  intros [R1 O1 X1 F1 V1 E1] [R2 O2 X2 F2 V2 E2]. split.
  - eapply evolves_trans; [exact same_line_trans|done|done].
  - eapply evolves_trans; [apply order_step_trans|done|done].
  - eapply evolves_trans; [|done|done]. intros x y z (p & l & ->) (p' & l' & ->). by exists p', l'.
  - eapply evolves_trans; [|done|done]. intros x y z (v & w & l & -> & Hm & Hl) (v' & w' & l' & -> & Hm' & Hl').
    exists v', w', l'. split_and!; [done| |by eapply lease_step_trans]. unfold marks_step in *. cbn in *. naive_solver.
  - eapply evolves_trans; [|done|done]. intros x y z (v & w & -> & Hm) (v' & w' & -> & Hm').
    exists v', w'. split; [done|]. unfold marks_step in *. cbn in *. naive_solver.
  - eapply evolves_trans; [|done|done]. intros x y z (b & s & v & w & l & -> & Hb & Hs & Hm & Hl) (b' & s' & v' & w' & l' & -> & Hb' & Hs' & Hm' & Hl').
    exists b', s', v', w', l'. unfold marks_step in *. cbn in *.
    split_and!; [done|destruct Hb; [by left|destruct Hb'; [left; congruence|right; congruence]]|naive_solver..|by eapply lease_step_trans].
Qed.

(** The bulk claims. *)
Lemma quiet_ClaimStuckOrders clock who now locked n lease c db :
  now ≤ clock → Quiet clock who db (fst (ClaimStuckOrders now locked n lease c db)).
Proof.
  intros Hn. apply quiet_orders. unfold ClaimStuckOrders. cbn [fst cm_Orders with_orders].
  apply (evolves_picked (order_step clock who) (claim_order now lease c)). intros k o (Ho & Hs & _)%elem_of_longest_due.
  split; [done|]. apply step_recovery. unfold stuck in Hs. zbool. by eapply due_step.
Qed.

Lemma quiet_ClaimOutbox clock who now locked n lease c db : Quiet clock who db (fst (ClaimOutbox now locked n lease c db)).
Proof.
  apply quiet_outbox. apply (evolves_picked message_step (claim_message now lease c)).
  intros k x (Hx & _)%elem_of_longest_due. split; [done|]. by do 2 eexists.
Qed.

Lemma quiet_ClaimOutstandingReversals clock who now locked n lease c db :
  now ≤ clock → Quiet clock who db (fst (ClaimOutstandingReversals now locked n lease c db)).
Proof.
  intros Hn. apply quiet_refunds. apply (evolves_picked (refund_step clock who) (lease_refund now lease c)).
  intros k x (Hx & Hs & _)%elem_of_longest_due. split; [done|]. do 3 eexists. split_and!; [done|apply marks_step_refl|].
  unfold owed_refund in Hs. zbool. by eapply due_step.
Qed.

Lemma quiet_ClaimOutstandingExchangeReversals clock who now locked n lease c db :
  now ≤ clock → Quiet clock who db (fst (ClaimOutstandingExchangeReversals now locked n lease c db)).
Proof.
  intros Hn. apply quiet_exchanges.
  apply (evolves_picked (exchange_step clock who) (λ x, set_exchange_reversal (take_lease now lease c (ex_Reversal x)) x)).
  intros k x (Hx & Hs & _)%elem_of_longest_due. split; [done|]. do 5 eexists.
  split_and!; [done|by right|by left|apply marks_step_refl|]. unfold owed_exchange in Hs. zbool. by eapply due_step.
Qed.

(** The marks. *)
Lemma refund_lease clock c l x : held_by c (rf_Reversal x) = true → refund_step clock (Some c) x (set_reversal l x).
Proof. intros Hh. do 3 eexists. split_and!; [done|apply marks_step_refl|by eapply held_step]. Qed.

Lemma exchange_lease clock c l x : held_by c (ex_Reversal x) = true → exchange_step clock (Some c) x (set_exchange_reversal l x).
Proof. intros Hh. do 5 eexists. split_and!; [done|by right|by left|apply marks_step_refl|by eapply held_step]. Qed.

Lemma mark_first v w now : is_None v = true → marks_step v (Some now) w w.
Proof. intros _. split; [by eexists|split; [done|by left]]. Qed.
Lemma mark_second v w now : is_None w && negb (is_None v) = true → marks_step v v w (Some now).
Proof. intros ?. zbool. destruct v, w; try done. unfold marks_step. naive_solver. Qed.

Lemma quiet_finished clock c org id (f : RefundRow → Lease) db :
  Quiet clock (Some c) db (update_refund org id (λ x, held_by c (rf_Reversal x)) (λ x, set_reversal (f x) x) db).
Proof. apply quiet_update_refund. intros x. apply refund_lease. Qed.

Lemma quiet_exchange_finished clock c org id (f : ExchangeRow → Lease) db :
  Quiet clock (Some c) db (fst (update_exchange org id (λ x, held_by c (ex_Reversal x)) (λ x, set_exchange_reversal (f x) x) db)).
Proof. apply quiet_update_exchange. intros x. apply exchange_lease. Qed.

Lemma quiet_order_marks now c k sts st out (f : OrderRow → Lease) (at_ : OrderRow → time) (P : OrderRow → bool) db :
  (∀ o, P o = true → fenced c sts o = true ∧ ∀ x, or_TerminalOutcome o = Some x → out o = Some x) →
  forallb (λ st, negb (ended st)) sts = true → st ≠ OrdCompleted →
  Quiet now (Some c) db (kept_on_error db (fenced_update k P (λ o, set_order st (or_GuestOrderRef o) (out o) (f o) (at_ o) o) db)).
Proof.
  intros HP Hsts Hst. apply quiet_fenced_update. intros o [Hf Hx]%HP. apply fenced_inv in Hf as [Hh Hin].
  apply step_held; [done| |done|done]. by eapply not_ended.
Qed.

(** The two that end a claimed order, with its reservation. *)
Lemma quiet_ended now c k sts st t reservation db :
  forallb (λ st, negb (ended st)) sts = true → st ≠ OrdCompleted →
  Quiet now (Some c) db (kept_on_error db (
    db ← fenced_update k (fenced c sts) (λ o, set_order st (or_GuestOrderRef o) (or_TerminalOutcome o) (hand_back (or_Recovery o)) t o) db;
    Ok (fail_reservation reservation db))).
Proof.
  intros Hsts Hst. pose proof (quiet_order_marks now c k sts st or_TerminalOutcome (λ o, hand_back (or_Recovery o)) (λ _, t) (fenced c sts) db (λ _ Ho, conj Ho (λ _ Hx, Hx)) Hsts Hst) as Hq.
  cbn beta in Hq. destruct (fenced_update _ _ _ db) as [db'|e]; [|done]. cbn in *. by apply quiet_then_reservation.
Qed.

Lemma quiet_ReleaseStuckOrder now k c cause db : Quiet now (Some c) db (effect db (ReleaseStuckOrder now k c cause db)).
Proof.
  unfold ReleaseStuckOrder. destruct (cm_Orders db !! k) as [o|] eqn:E; [|done]. destruct (held_by _ _) eqn:Eh; [|done].
  apply quiet_orders. eapply evolves_insert; [apply _|exact E|]. apply step_recovery. by eapply held_step.
Qed.

Lemma quiet_UnparkOrder now k reason db : Quiet now None db (kept_on_error db (UnparkOrder now k reason db)).
Proof.
  destruct (UnparkOrder now k reason db) as [db'|e] eqn:E; [|done]. unfold UnparkOrder in E. cbv zeta in E. ok_inv. cbn.
  destruct (quiet_orders now None (<[k := set_recovery {| ls_ClaimID := None; ls_Until := None; ls_Attempts := 0; ls_NextAttemptAt := now;
    ls_ParkedAt := None; ls_LastError := ls_LastError (or_Recovery o) |} o]> (cm_Orders db)) db) as [R O X F V Ex]; [|by split].
  eapply evolves_insert; [apply _|done|]. apply step_recovery. by eapply parked_step.
Qed.

Lemma quiet_MarkExchangeSettling now org id db : Quiet now None db (kept_on_error db (MarkExchangeSettling now org id db)).
Proof.
  unfold MarkExchangeSettling. cbv zeta.
  pose proof (quiet_update_exchange now None org id (λ x, is_None (ex_SettlingAt x))
    (λ x, set_exchange (ex_Basis x) (ex_Settlement x) (Some now) (ex_TicketsExchangedAt x) (ex_CapacityReturnedAt x) (ex_Reversal x) x) db) as Hq.
  destruct (snd _); [|case_bool_decide; done]. apply Hq. intros x _. do 5 eexists.
  split_and!; [done|by right|by left|apply marks_step_refl|done].
Qed.

Lemma quiet_RecordExchangeBasis now org id b db : Quiet now None db (effect db (RecordExchangeBasis org id b db)).
Proof.
  unfold RecordExchangeBasis, update_exchange. destruct (cm_Exchanges db !! (org, id)) as [x|] eqn:E; [|done].
  destruct (ex_Basis x) eqn:Eb; [done|]. destruct (basis_check x b); [|done]. cbn. apply quiet_exchanges.
  eapply evolves_insert; [apply _|exact E|]. do 5 eexists. split_and!; [done|by left|by left|apply marks_step_refl|done].
Qed.

Theorem quiet_requests now q db :
  loud q = false → handlers_pass q db = true → Quiet (latest_clock now q) (claim_named q) db (perform now q db).
Proof.
  destruct q; cbn [loud handlers_pass perform claim_named latest_clock]; intros Hl Hp; try discriminate Hl.
  - apply quiet_update_reservations.
  - apply quiet_update_reservations.
  - apply quiet_orderUnknown.
  - apply quiet_confirmationPending.
  - unfold markTerminalFailure. eapply Quiet_trans; [apply quiet_update_reservations|]. apply quiet_update_orders.
    intros o Ho%live_open. apply step_status; [done|]. intros ->. discriminate Hp.
  - by apply quiet_ClaimOutbox.
  - apply quiet_outbox. unfold update_where. destruct (cm_Outbox db !! event) as [x|] eqn:E; [|done].
    destruct (_ && _); [|done]. eapply evolves_insert; [apply _|exact E|by do 2 eexists].
  - apply quiet_outbox, evolves_fmap. intros x. destruct (_ && _); [by do 2 eexists|done].
  - apply quiet_outbox. unfold update_where. destruct (cm_Outbox db !! event) as [x|] eqn:E; [|done].
    destruct (_ && _); [|done]. eapply evolves_insert; [apply _|exact E|by do 2 eexists].
  - by apply quiet_ClaimStuckOrders.
  - apply quiet_ReleaseStuckOrder.
  - by apply (quiet_order_marks now claim order claimableRecoveryStatuses OrdReconciliationRequired or_TerminalOutcome _ (λ _, now)).
  - unfold RecordTerminalOutcome. destruct outcome as [out|]; [|done].
    apply (quiet_order_marks now claim order [OrdCreated; OrdPaymentUnknown; OrdReleasePending; OrdReconciliationRequired]
             OrdReleasePending (λ _, Some out) or_Recovery (λ _, now)); [|done..].
    intros o Ho. apply andb_prop in Ho as [Hf Hn]. split; [done|]. intros x Hx. by rewrite Hx in Hn.
  - by apply (quiet_order_marks now claim order live_statuses OrdReconciliationRequired or_TerminalOutcome _ (λ _, now)).
  - by apply quiet_ended.
  - apply quiet_ended; [done|]. by destruct (so_TerminalOutcome s) as [[]|].
  - apply quiet_fenced_update. intros o Ho. apply step_recovery. by eapply held_step.
  - apply quiet_update_orders. intros o Ho. apply step_recovery. by eapply held_step.
  - apply quiet_UnparkOrder.
  - apply quiet_update_refund. intros x Hx. do 3 eexists. split_and!; [done|by apply mark_first|done].
  - apply quiet_update_refund. intros x Hx. do 3 eexists. split_and!; [done|by apply mark_second|done].
  - apply quiet_update_void. intros x Hx. do 2 eexists. split_and!; [done|by apply mark_first].
  - apply quiet_update_void. intros x Hx. do 2 eexists. split_and!; [done|by apply mark_second].
  - apply quiet_RecordExchangeBasis.
  - apply quiet_MarkExchangeSettling.
  - apply quiet_update_exchange. intros x Hx. zbool. do 5 eexists.
    split_and!; [done|by right| |by apply mark_first|done]. intros _. right. by destruct (ex_Settlement x).
  - apply quiet_update_exchange. intros x Hx. do 5 eexists. split_and!; [done|by right|by left|by apply mark_second|done].
  - by apply quiet_ClaimOutstandingReversals.
  - apply (quiet_finished now claim org refund).
  - apply (quiet_finished now claim org refund).
  - apply (quiet_finished now claim org refund).
  - by apply quiet_ClaimOutstandingExchangeReversals.
  - apply (quiet_exchange_finished now claim org id).
  - apply (quiet_exchange_finished now claim org id).
  - apply (quiet_exchange_finished now claim org id).
Qed.

(** A checkout that finds its order takes it back once the recovery's lease ran out. *)
Lemma quiet_claimed_again now at_ id o amount db :
  cm_Orders db !! id = Some o →
  negb (is_None (ls_ClaimID (or_Recovery o))) && match ls_Until (or_Recovery o) with Some t => at_ <? t | None => false end = false →
  let db1 := if is_None (ls_ClaimID (or_Recovery o)) then db
             else fst (update_orders id (λ _, true) (λ o, set_recovery (hand_back (or_Recovery o)) o) db) in
  Quiet (Z.max now at_) None db (if amount =? 0 then db1 else fst (update_orders id live (λ o, set_status now (or_Status o) o) db1)).
Proof.
  intros Ho Hb db1.
  assert (H1 : Quiet (Z.max now at_) None db db1).
  { unfold db1. destruct (is_None _); [done|]. apply quiet_update_orders_at. intros o' Ho' _. simplify_eq.
    apply step_recovery. intros (_ & c & t & Hc & Ht & _ & Hlt). rewrite Hc, Ht in *. cbn in Hb. zbool. lia. }
  destruct (amount =? 0); [done|]. eapply Quiet_trans; [exact H1|]. apply quiet_update_orders.
  intros o' Hl%live_open. apply step_status; [done|]. intros E. by rewrite E in Hl.
Qed.
End Moves.
