(* ===== verification/OrderSafety.v ===== *)
(** * What the tables of commerce keep

    An order is undone once and within what it sold: by refunds that add up to no
    more than its tickets, or by a void, or by one exchange. The outbox says what the
    orders and the settled exchanges say. Both hold of every run of the requests of
    [OrderMoves], and are proved of the moves they are made of. *)

From S2P Require Import Prelude Text Format Sha256 Tables Lifecycle Orders Reversals OrderMoves.
#[local] Open Scope Z_scope.

Section Safety.
Context `{UU : UUID} `{US : !UUIDSource}.
Implicit Types (db : CommerceDB) (o : OrderRow) (r : ReservationRow).

(** ** An order and its reservation *)

Definition line db (k : uuid) o r : Prop := cm_Orders db !! k = Some o ∧ cm_Reservations db !! or_ReservationID o = Some r.

Lemma line_det db k o o' r r' : line db k o r → line db k o' r' → o' = o ∧ r' = r.
Proof. intros [Ho Hr] [Ho' Hr']. simplify_eq. done. Qed.

Definition completed_quantity (k : uuid) db : Z :=
  total (λ x, if bool_decide (rf_OrderID x = k) && negb (is_None (rf_Completion x)) then rf_Quantity x else 0) (cm_Refunds db).

Definition projected_status (sold refunded : Z) : RefundStatus :=
  if refunded =? 0 then NothingRefunded else if sold <=? refunded then WhollyRefunded else PartlyRefunded.

Definition marks_ordered (v w : option time) : Prop := is_Some w → is_Some v.

(** What a row that undoes an order says of it. *)
Definition refund_of org (x : RefundRow) o r : Prop :=
  or_Status o = OrdCompleted ∧ org = rs_OrganizerID r ∧ 0 < rf_Quantity x ∧ 0 < rs_UnitAmount r ∧
  rf_Amount x = rf_Quantity x * rs_UnitAmount r ∧ marks_ordered (rf_TicketsVoidedAt x) (rf_CapacityReturnedAt x).
Definition void_of (key : uuid * uuid) (x : VoidRow) o r : Prop :=
  or_Status o = OrdCompleted ∧ key = (rs_OrganizerID r, VoidID (rs_OrganizerID r) (vd_OrderID x)) ∧
  rs_UnitAmount r = 0 ∧ rs_TotalAmount r = 0 ∧ vd_Quantity x = rs_Quantity r ∧
  marks_ordered (vd_TicketsVoidedAt x) (vd_CapacityReturnedAt x).
Definition exchange_of org (x : ExchangeRow) o r : Prop :=
  or_Status o = OrdCompleted ∧ org = rs_OrganizerID r ∧ ex_Quantity x = rs_Quantity r ∧
  (is_Some (ex_TicketsExchangedAt x) → is_Some (ex_Settlement x)) ∧ marks_ordered (ex_TicketsExchangedAt x) (ex_CapacityReturnedAt x).

(** [order.exchanged] of an exchange: the order it replaces and its guest reference, the
    basis' slot, the exchange's type and quantity, and the buyer of the replacement. *)
Definition exchanged_says db (org id : uuid) (x : ExchangeRow) (d : OrderExchangedData) : Prop :=
  ∃ b o r ro rr, ex_Basis x = Some b ∧ line db (ex_SourceOrderID x) o r ∧ or_Status o = OrdCompleted ∧
    line db (ox_ReplacementOrderID d) ro rr ∧
    d = {| ox_ExchangeID := id; ox_SourceOrderID := ex_SourceOrderID x; ox_ReplacementOrderID := ox_ReplacementOrderID d;
           ox_GuestOrderRef := default uuid_Nil (or_GuestOrderRef o); ox_OrganizerID := org; ox_BuyerID := rs_BuyerID rr;
           ox_SlotID := bs_TargetSlotID b; ox_TicketTypeID := ex_TargetTicketTypeID x; ox_Quantity := ex_Quantity x |}.

(** What a message says, and of which rows it is true. *)
Definition tells db (key : uuid) (x : OutboxRow) : Prop :=
  key = ev_ID (ob_Envelope x) ∧
  match ev_Data (ob_Envelope x) with
  | OrderCompletedEvent d =>
      ∃ o r ref, line db (ob_OrderID x) o r ∧ or_Status o = OrdCompleted ∧ or_GuestOrderRef o = Some ref ∧
        ob_Envelope x = completionEnvelope (completion_of (ob_OrderID x) o r) ref (ev_Occurred (ob_Envelope x))
  | OrderExchangedEvent d =>
      key = ExchangedEventID (ox_ExchangeID d) ∧ ob_OrderID x = ox_ReplacementOrderID d ∧
      ∃ row at_, cm_Exchanges db !! (ox_OrganizerID d, ox_ExchangeID d) = Some row ∧ ex_Settlement row = Some (ob_OrderID x, at_) ∧
        exchanged_says db (ox_OrganizerID d) (ox_ExchangeID d) row d ∧ ob_Envelope x = exchangedEnvelope d at_
  end.

Record Core db : Prop := {
  cr_quantity k r : cm_Reservations db !! k = Some r → 0 < rs_Quantity r ≤ MaxQuantity;
  cr_hold k k' r r' : cm_Reservations db !! k = Some r → cm_Reservations db !! k' = Some r' → rs_HoldID r = rs_HoldID r' → k = k';
  cr_line k o : cm_Orders db !! k = Some o → is_Some (cm_Reservations db !! or_ReservationID o);
  cr_one k k' o o' : cm_Orders db !! k = Some o → cm_Orders db !! k' = Some o' → or_ReservationID o = or_ReservationID o' → k = k';
  cr_ref k o : cm_Orders db !! k = Some o → or_Status o = OrdCompleted → or_GuestOrderRef o = None → ∃ x, k = replacementOrderID x;
  cr_early k o : cm_Orders db !! k = Some o → or_Status o ≠ OrdCompleted → or_GuestOrderRef o = None;
}.

Record Undone db : Prop := {
  un_refund org id x : cm_Refunds db !! (org, id) = Some x → ∃ o r, line db (rf_OrderID x) o r ∧ refund_of org x o r;
  un_void key x : cm_Voids db !! key = Some x → ∃ o r, line db (vd_OrderID x) o r ∧ void_of key x o r;
  un_exchange org id x : cm_Exchanges db !! (org, id) = Some x → ∃ o r, line db (ex_SourceOrderID x) o r ∧ exchange_of org x o r;
  un_ceiling k o r : line db k o r → refund_quantity k db ≤ rs_Quantity r;
  un_projection k o r : line db k o r →
    or_RefundedQuantity o = completed_quantity k db ∧ or_RefundedAmount o = completed_quantity k db * rs_UnitAmount r ∧
    or_RefundStatus o = projected_status (rs_Quantity r) (completed_quantity k db);
  un_source key key' x x' : cm_Exchanges db !! key = Some x → cm_Exchanges db !! key' = Some x' →
    ex_SourceOrderID x = ex_SourceOrderID x' → key = key';
  un_exclusive key x : cm_Exchanges db !! key = Some x →
    refunded_order (ex_SourceOrderID x) db = false ∧ voided_order (ex_SourceOrderID x) db = false;
}.

Record Told db : Prop := {
  td_tells k x : cm_Outbox db !! k = Some x → tells db k x;
  td_completed k o ref : cm_Orders db !! k = Some o → or_GuestOrderRef o = Some ref → is_Some (cm_Outbox db !! EventID k);
  td_settled org id x s : cm_Exchanges db !! (org, id) = Some x → ex_Settlement x = Some s →
    ∃ m, cm_Outbox db !! ExchangedEventID id = Some m ∧ ob_OrderID m = s.1;
}.

(** ** The moves *)

Inductive move (clock : time) (who : option uuid) db : CommerceDB → Prop :=
| mv_quiet db' : Quiet clock who db db' → move clock who db db'
| mv_reserve k r : cm_Reservations db !! k = None → unused_hold (rs_HoldID r) db = true → 0 < rs_Quantity r ≤ MaxQuantity →
    move clock who db (with_reservations (<[k := r]> (cm_Reservations db)) db)
| mv_order now k reservation st key fp : cm_Orders db !! k = None → is_Some (cm_Reservations db !! reservation) → orders_of reservation db = [] →
    st = OrdCreated ∨ (∃ x, k = replacementOrderID x) →
    move clock who db (with_orders (<[k := new_order now reservation st key fp]> (cm_Orders db)) db)
| mv_complete now at_ k o r ref : line db k o r → ended (or_Status o) = false → cm_Outbox db !! EventID k = None →
    move clock who db (with_outbox (<[EventID k := owed now k (completionEnvelope (completion_of k o r) ref at_)]> (cm_Outbox db))
      (with_orders (<[k := set_order OrdCompleted (Some ref) (or_TerminalOutcome o) (or_Recovery o) now o]> (cm_Orders db)) db))
| mv_refund org id x o r : cm_Refunds db !! (org, id) = None → line db (rf_OrderID x) o r → refund_of org x o r →
    exchanged_order (rf_OrderID x) db = false → refund_quantity (rf_OrderID x) db + rf_Quantity x ≤ rs_Quantity r → rf_Completion x = None →
    move clock who db (with_refunds (<[(org, id) := x]> (cm_Refunds db)) db)
| mv_refunded now org id x o r fact : cm_Refunds db !! (org, id) = Some x → rf_Completion x = None → line db (rf_OrderID x) o r →
    move clock who db (with_orders (<[rf_OrderID x := add_refund now (rf_Quantity x) (rf_Amount x) (rs_Quantity r) o]> (cm_Orders db))
      (with_refunds (<[(org, id) := set_refund (Some (fact, now)) (rf_TicketsVoidedAt x) (rf_CapacityReturnedAt x) (rf_Reversal x) x]> (cm_Refunds db)) db))
| mv_void key x o r : cm_Voids db !! key = None → line db (vd_OrderID x) o r → void_of key x o r → exchanged_order (vd_OrderID x) db = false →
    move clock who db (with_voids (<[key := x]> (cm_Voids db)) db)
| mv_exchange org id x o r : cm_Exchanges db !! (org, id) = None → line db (ex_SourceOrderID x) o r → exchange_of org x o r →
    exchanged_order (ex_SourceOrderID x) db = false → refunded_order (ex_SourceOrderID x) db = false → voided_order (ex_SourceOrderID x) db = false →
    ex_Settlement x = None → move clock who db (with_exchanges (<[(org, id) := x]> (cm_Exchanges db)) (cm_Unwinds db) db)
| mv_settle now org id x replacement m e : cm_Exchanges db !! (org, id) = Some x → ex_Settlement x = None →
    let x' := set_exchange (ex_Basis x) (Some (replacement, now)) (ex_SettlingAt x) (ex_TicketsExchangedAt x) (ex_CapacityReturnedAt x) (ex_Reversal x) x in
    let db' := with_exchanges (<[(org, id) := x']> (cm_Exchanges db)) (cm_Unwinds db) db in
    (∃ y, cm_Outbox db !! ExchangedEventID id = Some y ∧ ob_OrderID y = replacement ∧ m = cm_Outbox db) ∨
    (cm_Outbox db !! ExchangedEventID id = None ∧ m = <[ExchangedEventID id := owed now replacement e]> (cm_Outbox db) ∧
     ∃ d, e = exchangedEnvelope d now ∧ ox_ReplacementOrderID d = replacement ∧ exchanged_says db org id x d) →
    move clock who db (with_outbox m db')
| mv_unwind org id x u : cm_Exchanges db !! (org, id) = Some x → ex_Settlement x = None →
    move clock who db (with_exchanges (delete (org, id) (cm_Exchanges db)) u db).

(** ** The loud requests as moves *)

Lemma owe_moves now k e db db' : owe now k e db = Ok db' →
  (∃ x, cm_Outbox db !! ev_ID e = Some x ∧ ob_OrderID x = k ∧ db' = db) ∨
  (cm_Outbox db !! ev_ID e = None ∧ db' = with_outbox (<[ev_ID e := owed now k e]> (cm_Outbox db)) db).
Proof.
  unfold owe. intros H. destruct (cm_Outbox db !! ev_ID e) as [x|] eqn:E; ok_inv; zbool; [left; by exists x|by right].
Qed.

Lemma quiet_moves clock who db db' : Quiet clock who db db' → rtc (move clock who) db db'.
Proof. intros Hq. apply rtc_once. by eapply mv_quiet. Qed.

Lemma reserve_moves clock who id r db : rs_Quantity r ≤ MaxQuantity → rtc (move clock who) db (effect db (reserve id r db)).
Proof.
  intros Hq. unfold reserve, insert_reservation. destruct (cm_Reservations db !! id) eqn:E; [by apply rtc_refl|].
  destruct (negb _) eqn:Eg; [by apply rtc_refl|]. cbn. apply rtc_once. zbool. apply mv_reserve; [done|done|].
  unfold reservation_check in *. zbool. cbn in *. lia.
Qed.

Lemma replacement_reservation_moves clock who x b gross db :
  ex_Quantity (xc_Row x) ≤ MaxQuantity → rtc (move clock who) db (kept_on_error db (insert_replacement_reservation x b gross db)).
Proof.
  intros Hq. unfold insert_replacement_reservation. destruct (cm_Reservations db !! xc_SourceReservation x) as [src|]; [|by apply rtc_refl].
  unfold insert_reservation. destruct (cm_Reservations db !! bs_ReplacementReservationID b) eqn:E; [by apply rtc_refl|].
  destruct (negb _) eqn:Eg; [by apply rtc_refl|]. cbn -[reservation_check] in *. apply rtc_once. zbool. apply mv_reserve; [done|done|].
  unfold reservation_check in *. zbool. cbn in *. lia.
Qed.

Lemma replacement_order_moves clock who now x b db : rtc (move clock who) db (kept_on_error db (insert_replacement_order now x b db)).
Proof.
  unfold insert_replacement_order. destruct (cm_Orders db !! ex_SourceOrderID _); [|by apply rtc_refl].
  destruct (cm_Reservations db !! _) eqn:Er; [|by apply rtc_refl]. destruct (cm_Orders db !! replacementOrderID _) eqn:E; [by apply rtc_refl|].
  destruct (negb _) eqn:Eg; [by apply rtc_refl|]. cbn. apply rtc_once. zbool. apply mv_order; [done|by eexists|done|by right; eexists].
Qed.

Lemma claimOrder_moves now at_ reservation org amount key fp db :
  rtc (move (Z.max now at_) None) db (effect db (claimOrder now at_ reservation org amount key fp db)).
Proof.
  unfold claimOrder. destruct (orders_of reservation db) as [|[id o] rest] eqn:El.
  - destruct (cm_Reservations db !! reservation) eqn:Er; [|by apply rtc_refl]. case_bool_decide as Hk; [by apply rtc_refl|].
    cbn. apply rtc_once. apply mv_order; [by apply eq_None_not_Some|by eexists|done|by left].
  - destruct (negb _); [by apply rtc_refl|]. destruct (_ && _) eqn:Eb; [by apply rtc_refl|]. cbn -[update_orders].
    assert (Ho : cm_Orders db !! id = Some o).
    { assert (Hin : (id, o) ∈ orders_of reservation db) by (rewrite El; left).
      apply elem_of_bool_filter in Hin as [Hin _]. by apply elem_of_map_to_list in Hin. }
    apply quiet_moves. by apply quiet_claimed_again.
Qed.

(** A completion changes the reservation, the order and the outbox, or nothing. *)
Lemma CompleteOrder_shape now at_ c candidate db db' ref :
  handlers_pass (OpComplete at_ c candidate) db = true → CompleteOrder now at_ c candidate db = Ok (db', ref) →
  db' = db ∨ ∃ o r, line db (co_OrderID c) o r ∧ ended (or_Status o) = false ∧ c = completion_of (co_OrderID c) o r ∧
    owe now (co_OrderID c) (completionEnvelope c ref at_)
      (with_orders (<[co_OrderID c := set_order OrdCompleted (Some ref) (or_TerminalOutcome o) (or_Recovery o) now o]> (cm_Orders db))
        (with_reservations (<[co_ReservationID c := set_res_status ResCompleted r]> (cm_Reservations db)) db)) = Ok db'.
Proof.
  intros Hp E. unfold CompleteOrder in E. cbn [handlers_pass] in Hp.
  destruct (bool_decide (candidate = uuid_Nil)); [done|]. destruct (cm_Orders db !! co_OrderID c) as [o|] eqn:Eo; [|done].
  destruct (negb _) eqn:Er; [done|]. destruct (bool_decide (or_Status o = OrdCompleted)) eqn:Es.
  { destruct (or_GuestOrderRef o); [|done]. case_bool_decide; [done|]. simplify_eq. by left. }
  destruct (live o) eqn:El; cbn [negb] in E; [|done]. cbv zeta in E. zbool.
  unfold update_reservations, update_where in E. destruct (cm_Reservations db !! co_ReservationID c) as [r|] eqn:Ers; [|done].
  destruct (open_reservation r); [|done]. cbn [fst snd negb] in E. rewrite Er, Ers in Hp. zbool.
  right. exists o, r. ok_inv.
  match goal with H : owe _ _ _ _ = Ok _ |- _ => rename H into Hw end.
  unfold update_orders, update_where in Hw. cbn [cm_Orders with_reservations] in Hw. rewrite Eo, El in Hw.
  split_and!; [by split; rewrite ?Er|by apply live_open|done|done].
Qed.

(** The completed order in tables that owe nothing for it yet. *)
Lemma completed_moves clock who now at_ c o r ref db : line db (co_OrderID c) o r → ended (or_Status o) = false → c = completion_of (co_OrderID c) o r →
  cm_Outbox db !! EventID (co_OrderID c) = None →
  rtc (move clock who) db (with_outbox (<[EventID (co_OrderID c) := owed now (co_OrderID c) (completionEnvelope c ref at_)]> (cm_Outbox db))
    (with_orders (<[co_OrderID c := set_order OrdCompleted (Some ref) (or_TerminalOutcome o) (or_Recovery o) now o]> (cm_Orders db))
      (with_reservations (<[co_ReservationID c := set_res_status ResCompleted r]> (cm_Reservations db)) db))).
Proof.
  intros [Ho Hr] Hs Hp Hno. assert (Er : or_ReservationID o = co_ReservationID c) by (by rewrite Hp).
  eapply rtc_l with (y := with_reservations (<[co_ReservationID c := set_res_status ResCompleted r]> (cm_Reservations db)) db).
  { apply mv_quiet, quiet_reservations. eapply evolves_insert; [apply _|by rewrite <-Er|by eexists]. }
  apply rtc_once.
  replace (completionEnvelope c ref at_) with (completionEnvelope (completion_of (co_OrderID c) o (set_res_status ResCompleted r)) ref at_)
    by (by rewrite Hp at 2).
  apply (mv_complete clock who (with_reservations (<[co_ReservationID c := set_res_status ResCompleted r]> (cm_Reservations db)) db) now at_ (co_OrderID c) o (set_res_status ResCompleted r) ref); [|done|done].
  split; [done|]. cbn. rewrite Er. apply lookup_insert_eq.
Qed.

Lemma owes_false k db key x : owes k db = false → cm_Outbox db !! key = Some x → ob_OrderID x ≠ k.
Proof. intros H Hx. by apply (proj1 (bool_decide_eq_false _)), (proj1 (some_row_false _ _) H key x Hx). Qed.

Lemma exchanged_order_false k db key x : exchanged_order k db = false → cm_Exchanges db !! key = Some x → ex_SourceOrderID x ≠ k.
Proof. intros H Hx. by apply (proj1 (bool_decide_eq_false _)), (proj1 (some_row_false _ _) H key x Hx). Qed.
Lemma refunded_order_false k db key x : refunded_order k db = false → cm_Refunds db !! key = Some x → rf_OrderID x ≠ k.
Proof. intros H Hx. by apply (proj1 (bool_decide_eq_false _)), (proj1 (some_row_false _ _) H key x Hx). Qed.

Lemma order_line_Ok org k db o r : order_line org k db = Ok (o, r) → line db k o r ∧ org = rs_OrganizerID r.
Proof. unfold order_line. intros H. ok_inv. zbool. done. Qed.

Lemma BindOrderRefund_moves clock who now rq db :
  Core db → Undone db → rq_Quantity rq ≤ MaxQuantity → rtc (move clock who) db (effect db (BindOrderRefund now rq db)).
Proof.
  intros Hc Hu Hq. destruct (BindOrderRefund now rq db) as [[db' x]|e] eqn:E; [|by apply rtc_refl]. cbn [effect fst].
  unfold BindOrderRefund in E. cbv zeta in E. ok_inv; try by apply rtc_refl. zbool.
  match goal with H : order_line _ _ _ = Ok _ |- _ => apply order_line_Ok in H as [Hl Horg] end.
  pose proof (cr_quantity db Hc _ _ (proj2 Hl)) as Hrq. pose proof (un_ceiling db Hu _ _ _ Hl) as Hce.
  assert (0 ≤ refund_quantity (rq_OrderID rq) db).
  { apply total_nonneg. intros [org' id'] x' Hx'. destruct (un_refund db Hu _ _ _ Hx') as (? & ? & _ & Hf). destruct Hf as (_ & _ & Hf & _).
    case_bool_decide; lia. }
  unfold MaxQuantity in *. rewrite wrap32_id in * by (unfold int32, MinInt32, MaxInt32; lia).
  match goal with H : refund_check _ _ _ = true |- _ => unfold refund_check in H; cbn in H end. zbool.
  apply rtc_once. eapply mv_refund; [done|exact Hl|..|done|cbn; lia|done].
  unfold refund_of, marks_ordered. cbn. split_and!; try done; lia.
Qed.

Lemma CompleteOrderRefund_moves clock who now org refund fact db : rtc (move clock who) db (kept_on_error db (CompleteOrderRefund now org refund fact db)).
Proof.
  destruct (CompleteOrderRefund now org refund fact db) as [db'|e] eqn:E; [|by apply rtc_refl]. cbn [kept_on_error].
  unfold CompleteOrderRefund in E. ok_inv; try by apply rtc_refl. apply rtc_once. by eapply mv_refunded.
Qed.

Lemma BindOrderVoid_moves clock who vq db : rtc (move clock who) db (effect db (BindOrderVoid vq db)).
Proof.
  destruct (BindOrderVoid vq db) as [[db' x]|e] eqn:E; [|by apply rtc_refl]. cbn [effect fst].
  unfold BindOrderVoid in E. cbv zeta in E. ok_inv; try by apply rtc_refl. zbool.
  match goal with H : order_line _ _ _ = Ok _ |- _ => apply order_line_Ok in H as [Hl Horg] end.
  apply rtc_once. eapply mv_void; [done|exact Hl|..|done]. unfold void_of, marks_ordered. cbn. split_and!; congruence || done.
Qed.

Lemma BindOrderExchange_moves clock who now xq db : rtc (move clock who) db (effect db (BindOrderExchange now xq db)).
Proof.
  destruct (BindOrderExchange now xq db) as [[db' x]|e] eqn:E; [|by apply rtc_refl]. cbn [effect fst].
  unfold BindOrderExchange, insert_exchange in E. cbv zeta in E. ok_inv; try by apply rtc_refl. zbool.
  match goal with H : order_line _ _ _ = Ok _ |- _ => apply order_line_Ok in H as [Hl Horg] end.
  apply rtc_once. eapply mv_exchange; [done|exact Hl|..]; try done. unfold exchange_of, marks_ordered. cbn. split_and!; done.
Qed.

Lemma UnwindWedgedExchange_moves clock who now org id reason moved db :
  rtc (move clock who) db (kept_on_error db (UnwindWedgedExchange now org id reason moved db)).
Proof.
  destruct (UnwindWedgedExchange now org id reason moved db) as [db'|e] eqn:E; [|by apply rtc_refl]. cbn [kept_on_error].
  unfold UnwindWedgedExchange in E. cbv zeta in E. ok_inv. zbool. apply rtc_once. eapply mv_unwind; [done|].
  match goal with H : is_None ?a = true |- _ => by destruct a end.
Qed.

Lemma exchanged_data_ids org id row k db d : exchanged_data org id row k db = Ok d → ox_ExchangeID d = id ∧ ox_ReplacementOrderID d = k.
Proof. unfold exchanged_data. intros H. ok_inv. done. Qed.

Lemma exchanged_data_says org id row k db d : Undone db → cm_Exchanges db !! (org, id) = Some row →
  exchanged_data org id row k db = Ok d → exchanged_says db org id row d.
Proof.
  intros Hu Hrow H. destruct (un_exchange db Hu _ _ _ Hrow) as (o & r & [Ho Hr] & Hst & _). unfold exchanged_data in H.
  destruct (ex_Basis row) as [b|] eqn:Eb; [|done]. rewrite Ho in H. destruct (cm_Orders db !! k) as [ro|] eqn:Ek; [|done].
  destruct (cm_Reservations db !! or_ReservationID ro) as [rr|] eqn:Er; [|done]. injection H as <-. by exists b, o, r, ro, rr.
Qed.

(** ** What every move keeps *)

(** The lines there were, and a completed one as it was. *)
Definition line_kept db db' : Prop := ∀ k o r, line db k o r → ∃ o' r', line db' k o' r' ∧ same_line r r' ∧
  or_ReservationID o' = or_ReservationID o ∧
  (or_Status o = OrdCompleted → or_Status o' = OrdCompleted ∧ or_GuestOrderRef o' = or_GuestOrderRef o).

(** The rest of a line's columns, in either direction. *)
Definition line_back db db' : Prop := ∀ k o' r', line db' k o' r' →
  (∃ o r, line db k o r ∧ same_line r r' ∧ or_RefundedQuantity o' = or_RefundedQuantity o ∧
     or_RefundedAmount o' = or_RefundedAmount o ∧ or_RefundStatus o' = or_RefundStatus o) ∨
  (cm_Orders db !! k = None ∧ or_RefundedQuantity o' = 0 ∧ or_RefundedAmount o' = 0 ∧ or_RefundStatus o' = NothingRefunded).

Lemma quiet_line_kept clock who db db' : Quiet clock who db db' → line_kept db db'.
Proof.
  intros Hq k o r [Ho Hr]. destruct (evolves_at _ _ _ _ _ (qt_orders _ _ _ _ Hq) Ho) as (o' & Ho' & st & out & l & t & -> & [Hst _] & _).
  destruct (evolves_at _ _ _ _ _ (qt_reservations _ _ _ _ Hq) Hr) as (r' & Hr' & Hs).
  exists (set_order st (or_GuestOrderRef o) out l t o), r'. split_and!; [by split|done|done|]. intros Hc. cbn. by split; [apply Hst|].
Qed.

Lemma quiet_line_back clock who db db' : Quiet clock who db db' → line_back db db'.
Proof.
  intros Hq k o' r' [Ho' Hr']. left. destruct (evolves_back _ _ _ _ _ (qt_orders _ _ _ _ Hq) Ho') as (o & Ho & st & out & l & t & -> & [Hst _] & _).
  destruct (evolves_back _ _ _ _ _ (qt_reservations _ _ _ _ Hq) Hr') as (r & Hr & Hs). by exists o, r.
Qed.

Lemma core_quiet clock who db db' : Quiet clock who db db' → Core db → Core db'.
Proof.
  intros Hq Hc. pose proof (qt_reservations _ _ _ _ Hq) as HR. pose proof (qt_orders _ _ _ _ Hq) as HO. split.
  - intros k r' (r & Hr & st & ->)%(evolves_back _ _ _ _ _ HR). by apply (cr_quantity db Hc k r).
  - intros k k' r1 r2 (r & Hr & st & ->)%(evolves_back _ _ _ _ _ HR) (r' & Hr' & st' & ->)%(evolves_back _ _ _ _ _ HR). cbn.
    by apply (cr_hold db Hc).
  - intros k o' (o & Ho & st & out & l & t & -> & _)%(evolves_back _ _ _ _ _ HO). cbn.
    destruct (cr_line db Hc _ _ Ho) as [r Hr]. destruct (evolves_at _ _ _ _ _ HR Hr) as (r' & Hr' & _). by exists r'.
  - intros k k' o1 o2 (o & Ho & st & out & l & t & -> & _)%(evolves_back _ _ _ _ _ HO)
      (o' & Ho' & st' & out' & l' & t' & -> & _)%(evolves_back _ _ _ _ _ HO). cbn. by apply (cr_one db Hc).
  - intros k o' (o & Ho & st & out & l & t & -> & [Hst _] & _)%(evolves_back _ _ _ _ _ HO). cbn. intros Hs%Hst. by apply (cr_ref db Hc k o).
  - intros k o' (o & Ho & st & out & l & t & -> & [Hst _] & _)%(evolves_back _ _ _ _ _ HO). cbn. rewrite Hst. by apply (cr_early db Hc k o).
Qed.

Lemma unused_hold_true h db k r : unused_hold h db = true → cm_Reservations db !! k = Some r → rs_HoldID r ≠ h.
Proof. unfold unused_hold. intros H Hr. zbool. by apply (proj1 (bool_decide_eq_false _)), (proj1 (some_row_false _ _) H k r Hr). Qed.

Lemma core_reserve db k r : cm_Reservations db !! k = None → unused_hold (rs_HoldID r) db = true → 0 < rs_Quantity r ≤ MaxQuantity →
  Core db → Core (with_reservations (<[k := r]> (cm_Reservations db)) db).
Proof.
  intros Hk Hh Hq Hc. split; cbn.
  - intros j r' [[<- <-]|[_ Hr]]%lookup_insert_Some; [done|by apply (cr_quantity db Hc j)].
  - intros j j' r1 r2 [[<- <-]|[_ Hr]]%lookup_insert_Some [[<- <-]|[_ Hr']]%lookup_insert_Some He; [done| | |by apply (cr_hold db Hc j j' r1 r2)].
    + by destruct (unused_hold_true _ _ _ _ Hh Hr').
    + by destruct (unused_hold_true _ _ _ _ Hh Hr).
  - intros j o Ho. destruct (cr_line db Hc _ _ Ho) as [r' Hr']. rewrite lookup_insert_ne by congruence. by exists r'.
  - apply (cr_one db Hc).
  - apply (cr_ref db Hc).
  - apply (cr_early db Hc).
Qed.

Lemma orders_of_nil reservation db k o : orders_of reservation db = [] → cm_Orders db !! k = Some o → or_ReservationID o ≠ reservation.
Proof.
  intros Hn Ho He. assert (Hin : (k, o) ∈ orders_of reservation db); [|rewrite Hn in Hin; by apply not_elem_of_nil in Hin].
  apply elem_of_bool_filter. split; [by apply elem_of_map_to_list|by apply bool_decide_eq_true].
Qed.

Lemma core_order db now k reservation st key fp : cm_Orders db !! k = None → is_Some (cm_Reservations db !! reservation) → orders_of reservation db = [] →
  st = OrdCreated ∨ (∃ x, k = replacementOrderID x) → Core db → Core (with_orders (<[k := new_order now reservation st key fp]> (cm_Orders db)) db).
Proof.
  intros Hk Hr Hn Hst Hc. split; cbn.
  - apply (cr_quantity db Hc).
  - apply (cr_hold db Hc).
  - intros j o [[<- <-]|[_ Ho]]%lookup_insert_Some; [done|by apply (cr_line db Hc j)].
  - intros j j' o1 o2 [[<- <-]|[_ Ho]]%lookup_insert_Some [[<- <-]|[_ Ho']]%lookup_insert_Some He; [done| | |by apply (cr_one db Hc j j' o1 o2)].
    + by destruct (orders_of_nil _ _ _ _ Hn Ho').
    + by destruct (orders_of_nil _ _ _ _ Hn Ho).
  - intros j o [[<- <-]|[_ Ho]]%lookup_insert_Some; [|by apply (cr_ref db Hc j)]. cbn. intros -> _. by destruct Hst.
  - intros j o [[<- <-]|[_ Ho]]%lookup_insert_Some; [done|by apply (cr_early db Hc j)].
Qed.

(** An order whose row changes in place. *)
Lemma core_changed db k o o' : cm_Orders db !! k = Some o → or_ReservationID o' = or_ReservationID o →
  (or_Status o' = OrdCompleted → or_GuestOrderRef o' = None → ∃ x, k = replacementOrderID x) →
  (or_Status o' ≠ OrdCompleted → or_GuestOrderRef o' = None) → Core db → Core (with_orders (<[k := o']> (cm_Orders db)) db).
Proof.
  intros Hk Hr H1 H2 Hc. split; cbn.
  - apply (cr_quantity db Hc).
  - apply (cr_hold db Hc).
  - intros j x [[<- <-]|[_ Ho]]%lookup_insert_Some; [rewrite Hr; by apply (cr_line db Hc k)|by apply (cr_line db Hc j)].
  - intros j j' o1 o2 [[<- <-]|[_ Ho]]%lookup_insert_Some [[<- <-]|[_ Ho']]%lookup_insert_Some He; [done|..|by apply (cr_one db Hc j j' o1 o2)].
    + apply (cr_one db Hc k j' o o2); [done..|congruence].
    + apply (cr_one db Hc j k o1 o); [done..|congruence].
  - intros j x [[<- <-]|[_ Ho]]%lookup_insert_Some; [done|by apply (cr_ref db Hc j)].
  - intros j x [[<- <-]|[_ Ho]]%lookup_insert_Some; [done|by apply (cr_early db Hc j)].
Qed.

Lemma core_move clock who db db' : move clock who db db' → Core db → Core db'.
Proof.
  intros Hm Hc. destruct Hm as [db' Hq|k r Hk Hh Hq|now k reservation st key fp Hk Hr Hn Hst|now at_ k o r ref [Hl _] _ _| |
    now org id x o r fact _ _ [Hl _]| | | |].
  - by eapply core_quiet.
  - by apply core_reserve.
  - by apply core_order.
  - destruct (core_changed db k o (set_order OrdCompleted (Some ref) (or_TerminalOutcome o) (or_Recovery o) now o) Hl) as []; done || by split.
  - by destruct Hc; split.
  - assert (Hc' : Core (with_orders (<[rf_OrderID x := add_refund now (rf_Quantity x) (rf_Amount x) (rs_Quantity r) o]> (cm_Orders db)) db)).
    { apply (core_changed db _ o); [done|done| | |done]; [apply (cr_ref db Hc _ o Hl)|apply (cr_early db Hc _ o Hl)]. }
    by destruct Hc'; split.
  - by destruct Hc; split.
  - by destruct Hc; split.
  - by destruct Hc; split.
  - by destruct Hc; split.
Qed.

Lemma insert_line_kept db db' k o o' : cm_Orders db !! k = Some o → cm_Orders db' = <[k := o']> (cm_Orders db) →
  cm_Reservations db' = cm_Reservations db → or_ReservationID o' = or_ReservationID o →
  (or_Status o = OrdCompleted → or_Status o' = OrdCompleted ∧ or_GuestOrderRef o' = or_GuestOrderRef o) → line_kept db db'.
Proof.
  intros Hk Ho' Hr' Hr Hs j o1 r [Ho Hres]. destruct (decide (j = k)) as [->|].
  - simplify_eq. exists o', r. split_and!; [split; rewrite ?Ho', ?Hr', ?Hr, ?lookup_insert_eq; done|done..].
  - exists o1, r. split_and!; [split; rewrite ?Ho', ?Hr', ?lookup_insert_ne; done|done..].
Qed.

Lemma same_tables_line db db' : cm_Orders db' = cm_Orders db → cm_Reservations db' = cm_Reservations db → line_kept db db'.
Proof. intros Ho Hr k o r [? ?]. exists o, r. split_and!; [split; by rewrite ?Ho, ?Hr|done..]. Qed.

Lemma move_line_kept clock who db db' : move clock who db db' → line_kept db db'.
Proof.
  intros Hm. destruct Hm as [db' Hq|k r Hk Hh Hq|now k reservation st key fp Hk Hr Hn Hst|now at_ k o r ref [Hl _] Hs _| |
    now org id x o r fact _ _ [Hl _]| | |now org id x replacement m e Hx Hs x' db'' Hm|]; try by apply same_tables_line.
  - by eapply quiet_line_kept.
  - intros j o r' [Ho Hr]. exists o, r'. split_and!; [split; [done|]|done..]. cbn. rewrite lookup_insert_ne by congruence. done.
  - intros j o r' [Ho Hr']. exists o, r'. split_and!; [split; [|done]|done..]. cbn. rewrite lookup_insert_ne by congruence. done.
  - eapply insert_line_kept; [exact Hl|reflexivity|done|done|]. intros Hc. by apply ended_false in Hs.
  - eapply insert_line_kept; [exact Hl|reflexivity|done..].
Qed.

Lemma insert_line_back db db' k o o' : cm_Orders db !! k = Some o → cm_Orders db' = <[k := o']> (cm_Orders db) →
  cm_Reservations db' = cm_Reservations db → or_ReservationID o' = or_ReservationID o →
  or_RefundedQuantity o' = or_RefundedQuantity o → or_RefundedAmount o' = or_RefundedAmount o → or_RefundStatus o' = or_RefundStatus o →
  line_back db db'.
Proof.
  intros Hk Ho' Hr' Hr H1 H2 H3 j oj rj [Ho Hres]. left. rewrite Hr' in Hres. rewrite Ho' in Ho.
  apply lookup_insert_Some in Ho as [[<- <-]|[_ Ho]].
  - exists o, rj. split_and!; [split; [done|congruence]|done..].
  - by exists oj, rj.
Qed.

Lemma same_tables_back db db' : cm_Orders db' = cm_Orders db → cm_Reservations db' = cm_Reservations db → line_back db db'.
Proof. intros Ho Hr k o r [? ?]. left. exists o, r. split_and!; [split; by rewrite <-?Ho, <-?Hr|done..]. Qed.

(** What is said of a completed order stays said. *)
Lemma keep_said (P : OrderRow → ReservationRow → Prop) db db' k o r :
  (∀ o o' r r', same_line r r' → or_Status o' = or_Status o → P o r → P o' r') →
  line_kept db db' → line db k o r → or_Status o = OrdCompleted → P o r → ∃ o' r', line db' k o' r' ∧ P o' r'.
Proof.
  intros HP Hk Hl Hs Hp. destruct (Hk _ _ _ Hl) as (o' & r' & Hl' & Hr & _ & Hc). destruct (Hc Hs) as [Hs' _].
  exists o', r'. split; [done|]. eapply HP; [done| |done]. congruence.
Qed.

Lemma refund_said org x o o' r r' : same_line r r' → or_Status o' = or_Status o → refund_of org x o r → refund_of org x o' r'.
Proof. intros [st ->] Hs. unfold refund_of. rewrite Hs. done. Qed.
Lemma void_said key x o o' r r' : same_line r r' → or_Status o' = or_Status o → void_of key x o r → void_of key x o' r'.
Proof. intros [st ->] Hs. unfold void_of. rewrite Hs. done. Qed.
Lemma exchange_said org x o o' r r' : same_line r r' → or_Status o' = or_Status o → exchange_of org x o r → exchange_of org x o' r'.
Proof. intros [st ->] Hs. unfold exchange_of. rewrite Hs. done. Qed.

(** The three tables of a move that undoes nothing: their rows are the old ones, up to marks. *)
Lemma marks_step_ordered v v' w w' : marks_step v v' w w' → marks_ordered v w → marks_ordered v' w'.
Proof. unfold marks_step, marks_ordered. naive_solver. Qed.

Lemma refund_step_of clock who org x x' o r : refund_step clock who x x' → refund_of org x o r → refund_of org x' o r ∧ rf_OrderID x' = rf_OrderID x.
Proof.
  intros (v & w & l & -> & Hm & _) (? & ? & ? & ? & ? & Hw). split; [|done]. unfold refund_of. cbn. split_and!; try done. by eapply marks_step_ordered.
Qed.

Lemma void_step_of key x x' o r : void_step x x' → void_of key x o r → void_of key x' o r ∧ vd_OrderID x' = vd_OrderID x.
Proof.
  intros (v & w & -> & Hm) (? & ? & ? & ? & ? & Hw). split; [|done]. unfold void_of. cbn. split_and!; try done. by eapply marks_step_ordered.
Qed.

Lemma exchange_step_of clock who org x x' o r : exchange_step clock who x x' → exchange_of org x o r →
  exchange_of org x' o r ∧ ex_SourceOrderID x' = ex_SourceOrderID x.
Proof.
  intros (b & s & v & w & l & -> & _ & Hv & Hm & _) (? & ? & ? & Hs & Hw). split; [|done]. unfold exchange_of. cbn. split_and!; try done.
  - intros Hv'. by destruct (Hv Hv') as [?%Hs|].
  - by eapply marks_step_ordered.
Qed.

Definition keeps_refund (x x' : RefundRow) : Prop :=
  rf_OrderID x' = rf_OrderID x ∧ rf_Quantity x' = rf_Quantity x ∧ is_None (rf_Completion x') = is_None (rf_Completion x) ∧
  ∀ org o r, refund_of org x o r → refund_of org x' o r.
Definition keeps_void (x x' : VoidRow) : Prop := vd_OrderID x' = vd_OrderID x ∧ ∀ key o r, void_of key x o r → void_of key x' o r.
Definition keeps_exchange (x x' : ExchangeRow) : Prop :=
  ex_SourceOrderID x' = ex_SourceOrderID x ∧ ∀ org o r, exchange_of org x o r → exchange_of org x' o r.

#[local] Instance keeps_refund_refl : Reflexive keeps_refund.
Proof. intros x. unfold keeps_refund. by split_and!. Qed.
#[local] Instance keeps_void_refl : Reflexive keeps_void.
Proof. intros x. unfold keeps_void. by split_and!. Qed.
#[local] Instance keeps_exchange_refl : Reflexive keeps_exchange.
Proof. intros x. unfold keeps_exchange. by split_and!. Qed.

Lemma evolves_mono {K R} `{Countable K} (step step' : R → R → Prop) (m m' : gmap K R) :
  (∀ x x', step x x' → step' x x') → evolves step m m' → evolves step' m m'.
Proof. intros Hs He k. destruct (He k); constructor; auto. Qed.

Lemma some_row_evolves {K R} `{Countable K} (step : R → R → Prop) (f : R → bool) (m m' : gmap K R) :
  (∀ x x', step x x' → f x' = f x) → evolves step m m' → some_row f m' = some_row f m.
Proof.
  intros Hf He. apply eq_bool_prop_intro. rewrite !Is_true_true, !some_row_true. split.
  - intros (k & x' & Hx' & Hfx). destruct (evolves_back _ _ _ _ _ He Hx') as (x & Hx & Hs). exists k, x. split; [done|].
    by rewrite <-(Hf _ _ Hs).
  - intros (k & x & Hx & Hfx). destruct (evolves_at _ _ _ _ _ He Hx) as (x' & Hx' & Hs). exists k, x'. split; [done|].
    by rewrite (Hf _ _ Hs).
Qed.

Lemma unknown_order_zero k db : Undone db → cm_Orders db !! k = None → refund_quantity k db = 0 ∧ completed_quantity k db = 0.
Proof.
  intros Hu Hk.
  assert (Hn : ∀ key x, cm_Refunds db !! key = Some x → rf_OrderID x ≠ k).
  { intros [org id] x Hx <-. destruct (un_refund db Hu _ _ _ Hx) as (o & r & [Ho _] & _). congruence. }
  split; (etrans; [|apply (total_zero (cm_Refunds db))]); apply total_ext; intros key x Hx; by rewrite bool_decide_eq_false_2 by eauto.
Qed.

Lemma undone_frame db db' : Core db' → line_kept db db' → line_back db db' →
  evolves keeps_refund (cm_Refunds db) (cm_Refunds db') → evolves keeps_void (cm_Voids db) (cm_Voids db') →
  evolves keeps_exchange (cm_Exchanges db) (cm_Exchanges db') → Undone db → Undone db'.
Proof.
  intros Hc Hk Hb HF HV HE Hu.
  assert (HT : ∀ k, refund_quantity k db' = refund_quantity k db ∧ completed_quantity k db' = completed_quantity k db).
  { intros k. split; symmetry; (eapply total_evolves; [|exact HF]); intros x x' (-> & -> & H3 & _); rewrite ?H3; done. }
  split.
  - intros org id x' (x & Hx & Hid & _ & _ & Hs)%(evolves_back _ _ _ _ _ HF). destruct (un_refund db Hu _ _ _ Hx) as (o & r & Hl & Hf).
    rewrite Hid. pose proof (proj1 Hf) as Hst. by eapply (keep_said (refund_of org x')); [apply refund_said|done..|auto].
  - intros key x' (x & Hx & Hid & Hs)%(evolves_back _ _ _ _ _ HV). destruct (un_void db Hu _ _ Hx) as (o & r & Hl & Hf).
    rewrite Hid. pose proof (proj1 Hf) as Hst. by eapply (keep_said (void_of key x')); [apply void_said|done..|auto].
  - intros org id x' (x & Hx & Hid & Hs)%(evolves_back _ _ _ _ _ HE). destruct (un_exchange db Hu _ _ _ Hx) as (o & r & Hl & Hf).
    rewrite Hid. pose proof (proj1 Hf) as Hst. by eapply (keep_said (exchange_of org x')); [apply exchange_said|done..|auto].
  - intros k o' r' Hl'. rewrite (proj1 (HT k)). destruct (Hb _ _ _ Hl') as [(o & r & Hl & [st ->] & _)|(Hn & _)]; [by apply (un_ceiling db Hu k o r)|].
    rewrite (proj1 (unknown_order_zero k db Hu Hn)). pose proof (cr_quantity db' Hc _ _ (proj2 Hl')). lia.
  - intros k o' r' Hl'. rewrite (proj2 (HT k)). destruct (Hb _ _ _ Hl') as [(o & r & Hl & [st ->] & -> & -> & ->)|(Hn & -> & -> & ->)];
      [by apply (un_projection db Hu k o r)|]. by rewrite (proj2 (unknown_order_zero k db Hu Hn)).
  - intros key key' x1 x2 (x & Hx & Hid & _)%(evolves_back _ _ _ _ _ HE) (x' & Hx' & Hid' & _)%(evolves_back _ _ _ _ _ HE).
    rewrite Hid, Hid'. by apply (un_source db Hu key key' x x').
  - intros key x' (x & Hx & Hid & _)%(evolves_back _ _ _ _ _ HE). rewrite Hid. destruct (un_exclusive db Hu _ _ Hx) as [HR HVo].
    unfold refunded_order, voided_order in *. split.
    + rewrite <-HR. eapply some_row_evolves; [|exact HF]. by intros y y' (-> & _).
    + rewrite <-HVo. eapply some_row_evolves; [|exact HV]. by intros y y' (-> & _).
Qed.

Lemma some_row_insert_false {K R} `{Countable K} (f : R → bool) (m : gmap K R) k x :
  some_row f m = false → f x = false → some_row f (<[k := x]> m) = false.
Proof. rewrite !some_row_false. intros Hm Hx j y [[_ <-]|[_ Hy]]%lookup_insert_Some; eauto. Qed.

Lemma undone_refund db org id x o r : cm_Refunds db !! (org, id) = None → line db (rf_OrderID x) o r → refund_of org x o r →
  exchanged_order (rf_OrderID x) db = false → refund_quantity (rf_OrderID x) db + rf_Quantity x ≤ rs_Quantity r → rf_Completion x = None →
  Undone db → Undone (with_refunds (<[(org, id) := x]> (cm_Refunds db)) db).
Proof.
  intros Hn Hl Hf He Hq Hc Hu. split.
  - intros org' id' x'; cbn; intros [[[= <- <-] <-]|[_ Hx]]%lookup_insert_Some; [by exists o, r|by apply (un_refund db Hu _ id')].
  - apply (un_void db Hu).
  - apply (un_exchange db Hu).
  - intros k o' r' Hl'. change (line db k o' r') in Hl'. unfold refund_quantity. cbn [cm_Refunds with_refunds]. rewrite total_fresh by done.
    pose proof (un_ceiling db Hu _ _ _ Hl') as Hce. unfold refund_quantity in *. case_bool_decide as Hk; [|lia]. subst k.
    destruct (line_det _ _ _ _ _ _ Hl Hl') as [-> ->]. lia.
  - intros k o' r' Hl'. replace (completed_quantity k _) with (completed_quantity k db); [by apply (un_projection db Hu)|].
    unfold completed_quantity. cbn [cm_Refunds with_refunds]. rewrite total_fresh by done. rewrite Hc. cbn. by rewrite andb_false_r.
  - apply (un_source db Hu).
  - intros key y Hy. destruct (un_exclusive db Hu _ _ Hy) as [HR HV]. split; [|done]. apply some_row_insert_false; [done|].
    apply bool_decide_eq_false. intros Hxy. by apply (exchanged_order_false _ _ _ _ He Hy).
Qed.

Lemma undone_void db key x o r : cm_Voids db !! key = None → line db (vd_OrderID x) o r → void_of key x o r →
  exchanged_order (vd_OrderID x) db = false → Undone db → Undone (with_voids (<[key := x]> (cm_Voids db)) db).
Proof.
  intros Hn Hl Hf He Hu. split; try by destruct Hu.
  - intros key' x'; cbn; intros [[<- <-]|[_ Hx]]%lookup_insert_Some; [by exists o, r|by apply (un_void db Hu)].
  - intros key' y Hy. destruct (un_exclusive db Hu _ _ Hy) as [HR HV]. split; [done|]. apply some_row_insert_false; [done|].
    apply bool_decide_eq_false. intros Hxy. by apply (exchanged_order_false _ _ _ _ He Hy).
Qed.

Lemma undone_exchange db org id x o r : cm_Exchanges db !! (org, id) = None → line db (ex_SourceOrderID x) o r → exchange_of org x o r →
  exchanged_order (ex_SourceOrderID x) db = false → refunded_order (ex_SourceOrderID x) db = false → voided_order (ex_SourceOrderID x) db = false →
  Undone db → Undone (with_exchanges (<[(org, id) := x]> (cm_Exchanges db)) (cm_Unwinds db) db).
Proof.
  intros Hn Hl Hf He HR HV Hu. split; try by destruct Hu.
  - intros org' id' x'; cbn; intros [[[= <- <-] <-]|[_ Hx]]%lookup_insert_Some; [by exists o, r|by apply (un_exchange db Hu _ id')].
  - intros k k' y y'; cbn; intros [[<- <-]|[_ Hy]]%lookup_insert_Some [[<- <-]|[_ Hy']]%lookup_insert_Some Hs; [done| | |by apply (un_source db Hu k k' y y')].
    + symmetry in Hs. by destruct (exchanged_order_false _ _ _ _ He Hy' Hs).
    + by destruct (exchanged_order_false _ _ _ _ He Hy Hs).
  - intros k y; cbn; intros [[<- <-]|[_ Hy]]%lookup_insert_Some; [done|by apply (un_exclusive db Hu k y)].
Qed.

Lemma undone_unwind db org id u : Undone db → Undone (with_exchanges (delete (org, id) (cm_Exchanges db)) u db).
Proof.
  intros Hu. split; try by destruct Hu.
  - intros org' id' y; cbn; intros [_ Hy]%lookup_delete_Some. by apply (un_exchange db Hu _ id').
  - intros k k' y y'; cbn; intros [_ Hy]%lookup_delete_Some [_ Hy']%lookup_delete_Some. by apply (un_source db Hu).
  - intros k y; cbn; intros [_ Hy]%lookup_delete_Some. by apply (un_exclusive db Hu k y).
Qed.

(** A completed refund is added to the projection of its order. *)
Lemma undone_refunded db now org id x o r fact : cm_Refunds db !! (org, id) = Some x → rf_Completion x = None → line db (rf_OrderID x) o r →
  Undone db →
  Undone (with_orders (<[rf_OrderID x := add_refund now (rf_Quantity x) (rf_Amount x) (rs_Quantity r) o]> (cm_Orders db))
    (with_refunds (<[(org, id) := set_refund (Some (fact, now)) (rf_TicketsVoidedAt x) (rf_CapacityReturnedAt x) (rf_Reversal x) x]> (cm_Refunds db)) db)).
Proof.
  intros Hx Hc Hl Hu. set (db' := with_orders _ _).
  destruct (un_refund db Hu _ _ _ Hx) as (o0 & r0 & Hl0 & Hf). destruct (line_det _ _ _ _ _ _ Hl Hl0) as [-> ->].
  assert (Hkept : line_kept db db') by (eapply insert_line_kept; [exact (proj1 Hl)|reflexivity|done..]).
  assert (HQ : ∀ k, refund_quantity k db' = refund_quantity k db) by (intros k; by apply (total_insert_same _ _ _ x)).
  assert (HC : ∀ k, completed_quantity k db' = completed_quantity k db + if bool_decide (rf_OrderID x = k) then rf_Quantity x else 0).
  { intros k. unfold completed_quantity. cbn. rewrite (total_insert _ _ _ x) by done. cbn. rewrite Hc. cbn. rewrite andb_true_r, andb_false_r. lia. }
  assert (HRO : ∀ k, refunded_order k db = false → refunded_order k db' = false).
  { intros k Hk. apply some_row_insert_false; [done|]. apply bool_decide_eq_false. cbn. by apply (refunded_order_false _ _ _ _ Hk Hx). }
  split.
  - intros org' id' x'; cbn; intros [[[= <- <-] <-]|[_ Hx']]%lookup_insert_Some.
    + cbn. pose proof (proj1 Hf) as Hst. by eapply (keep_said (refund_of org _)); [apply refund_said|done..].
    + destruct (un_refund db Hu _ _ _ Hx') as (o' & r' & Hl' & Hf'). pose proof (proj1 Hf') as Hst.
      by eapply (keep_said (refund_of org' x')); [apply refund_said|done..].
  - intros key y Hy. destruct (un_void db Hu _ _ Hy) as (o' & r' & Hl' & Hf'). pose proof (proj1 Hf') as Hst.
    by eapply (keep_said (void_of key y)); [apply void_said|done..].
  - intros org' id' y Hy. destruct (un_exchange db Hu _ _ _ Hy) as (o' & r' & Hl' & Hf'). pose proof (proj1 Hf') as Hst.
    by eapply (keep_said (exchange_of org' y)); [apply exchange_said|done..].
  - intros k o' r' [Ho' Hr']; cbn in Ho'. rewrite HQ. apply lookup_insert_Some in Ho' as [[<- <-]|[_ Ho']]; [|by apply (un_ceiling db Hu k o' r')].
    apply (un_ceiling db Hu _ o r'). split; [apply Hl|exact Hr'].
  - intros k o' r' [Ho' Hr']; cbn in Ho'. rewrite HC. apply lookup_insert_Some in Ho' as [[<- <-]|[Hne Ho']].
    + rewrite bool_decide_eq_true_2 by done. destruct (un_projection db Hu _ _ _ Hl) as (E1 & E2 & _).
      destruct Hf as (_ & _ & Hq & Hun & Ha & _). cbn in Hr'. rewrite (proj2 Hl) in Hr'. injection Hr' as <-. cbn. rewrite E1, E2, Ha.
      assert (0 ≤ completed_quantity (rf_OrderID x) db).
      { apply total_nonneg. intros [org' id'] y Hy. destruct (un_refund db Hu _ _ _ Hy) as (? & ? & _ & (_ & _ & Hy' & _)).
        destruct (_ && _); lia. }
      split_and!; [lia|lia|]. unfold projected_status. rewrite (proj2 (Z.eqb_neq _ 0)) by lia. done.
    + rewrite bool_decide_eq_false_2, Z.add_0_r by done. by apply (un_projection db Hu k o' r').
  - apply (un_source db Hu).
  - intros key y Hy. destruct (un_exclusive db Hu _ _ Hy) as [HR HV]. split; [by apply HRO|done].
Qed.

Lemma undone_quiet clock who db db' : Quiet clock who db db' → Core db' → Undone db → Undone db'.
Proof.
  intros Hq Hc. apply undone_frame; [done|by eapply quiet_line_kept|by eapply quiet_line_back|..].
  - eapply evolves_mono; [|exact (qt_refunds _ _ _ _ Hq)]. intros x x' Hx. pose proof Hx as (v & w & l & E & _). unfold keeps_refund.
    split_and!; [by rewrite E..|]. intros org o r Hf. by destruct (refund_step_of _ _ _ _ _ _ _ Hx Hf).
  - eapply evolves_mono; [|exact (qt_voids _ _ _ _ Hq)]. intros x x' Hx. pose proof Hx as (v & w & E & _). unfold keeps_void.
    split; [by rewrite E|]. intros key o r Hf. by destruct (void_step_of _ _ _ _ _ Hx Hf).
  - eapply evolves_mono; [|exact (qt_exchanges _ _ _ _ Hq)]. intros x x' Hx. pose proof Hx as (b & s & v & w & l & E & _). unfold keeps_exchange.
    split; [by rewrite E|]. intros org o r Hf. by destruct (exchange_step_of _ _ _ _ _ _ _ Hx Hf).
Qed.

Lemma reserve_line_back db k r : cm_Reservations db !! k = None → Core db → line_back db (with_reservations (<[k := r]> (cm_Reservations db)) db).
Proof.
  intros Hn Hc j o r' [Ho Hr]. left. cbn in *. exists o, r'. destruct (cr_line _ Hc j o Ho) as [r0 Hr0].
  rewrite lookup_insert_ne in Hr by congruence. done.
Qed.

Lemma order_line_back db now k reservation st key fp : cm_Orders db !! k = None →
  line_back db (with_orders (<[k := new_order now reservation st key fp]> (cm_Orders db)) db).
Proof.
  intros Hn j o' r' [Ho' Hr']. cbn in *. apply lookup_insert_Some in Ho' as [[<- <-]|[_ Ho']]; [by right|]. left. by exists o', r'.
Qed.

Lemma undone_move clock who db db' : move clock who db db' → Core db → Core db' → Undone db → Undone db'.
Proof.
  intros Hm Hc Hc' Hu. pose proof (move_line_kept _ _ _ _ Hm) as Hk.
  destruct Hm as [db' Hq|k r Hn Hh Hq|now k reservation st key fp Hn Hr Ho Hst|now at_ k o r ref [Hl Hlr] Hs Hno| | | | |
    now org id x replacement m e Hx Hs x' db'' Hm|].
  - by eapply undone_quiet.
  - apply (undone_frame db); try done. by apply reserve_line_back.
  - apply (undone_frame db); try done. by apply order_line_back.
  - apply (undone_frame db); try done. eapply insert_line_back; [exact Hl|reflexivity|done..].
  - by eapply undone_refund.
  - by eapply undone_refunded.
  - by eapply undone_void.
  - by eapply undone_exchange.
  - apply (undone_frame db); try done; [by apply same_tables_back|]. eapply evolves_insert; [apply _|exact Hx|].
    split; [done|]. intros org' o r (? & ? & ? & Hsw & ?). unfold exchange_of. cbn. by split_and!.
  - by apply undone_unwind.
Qed.

(** ** The outbox *)

(** What was agreed is kept, and the settlement of what is settled. *)
Definition terms_step (x x' : ExchangeRow) : Prop :=
  ∃ b t s v w l, x' = set_exchange b t s v w l x ∧ (ex_Basis x = None ∨ b = ex_Basis x).
Definition settled_step (x x' : ExchangeRow) : Prop := terms_step x x' ∧ ex_Settlement x' = ex_Settlement x.
#[export] Instance settled_step_refl : Reflexive settled_step.
Proof. intros []. split; [|done]. do 6 eexists. split; [done|by right]. Qed.

Definition settled_kept db db' : Prop := ∀ key x s, cm_Exchanges db !! key = Some x → ex_Settlement x = Some s →
  ∃ x', cm_Exchanges db' !! key = Some x' ∧ settled_step x x'.

Lemma says_kept db db' org id x x' d : line_kept db db' → terms_step x x' → exchanged_says db org id x d → exchanged_says db' org id x' d.
Proof.
  intros Hk (b' & t & s & v & w & l & -> & Hb') (b & o & r & ro & rr & Hb & Hl & Hst & Hlr & Hd).
  destruct (Hk _ _ _ Hl) as (o' & r' & Hl' & _ & _ & Hc). destruct (Hc Hst) as [Hst' Href].
  destruct (Hk _ _ _ Hlr) as (ro' & rr' & Hlr' & [st ->] & _ & _). destruct Hb' as [Hn| ->]; [congruence|].
  exists b, o', r', ro', (set_res_status st rr). split_and!; try done. rewrite Href. exact Hd.
Qed.

Lemma tells_kept db db' key x p l : line_kept db db' → settled_kept db db' → tells db key x → tells db' key (set_outbox p l x).
Proof.
  intros Hk Hs [He Ht]. split; [done|]. cbn. destruct (ev_Data (ob_Envelope x)).
  - destruct Ht as (o & r & ref & Hl & Hc & Href & Hev). destruct (Hk _ _ _ Hl) as (o' & r' & Hl' & [st ->] & Hres & Hcc).
    destruct (Hcc Hc) as [Hc' Href']. exists o', (set_res_status st r), ref. split_and!; [done|done|congruence|].
    rewrite Hev at 1. unfold completion_of. by rewrite Hres.
  - destruct Ht as (Hkey & Hob & row & at_ & Hrow & Hset & Hsay & Hev). split_and!; [done|done|].
    destruct (Hs _ _ _ Hrow Hset) as (row' & Hrow' & Hstep). destruct Hstep as [Hstep Heq]. exists row', at_.
    split_and!; [done|by rewrite Heq|by eapply says_kept|done].
Qed.

Lemma tells_same db db' key x : line_kept db db' → settled_kept db db' → tells db key x → tells db' key x.
Proof. intros Hk Hs Ht. destruct x as [k e p l]. exact (tells_kept db db' key _ p l Hk Hs Ht). Qed.

(** A move that sends nothing and settles nothing. *)
Lemma told_frame db db' : line_kept db db' → settled_kept db db' → evolves message_step (cm_Outbox db) (cm_Outbox db') →
  (∀ k o' ref, cm_Orders db' !! k = Some o' → or_GuestOrderRef o' = Some ref → ∃ o, cm_Orders db !! k = Some o ∧ or_GuestOrderRef o = Some ref) →
  (∀ key x' s, cm_Exchanges db' !! key = Some x' → ex_Settlement x' = Some s → ∃ x, cm_Exchanges db !! key = Some x ∧ ex_Settlement x = Some s) →
  Told db → Told db'.
Proof.
  intros Hk Hs HX Hr He Ht. split.
  - intros k x' (x & Hx & p & l & ->)%(evolves_back _ _ _ _ _ HX). by eapply tells_kept, (td_tells db Ht).
  - intros k o' ref Ho' Href. destruct (Hr _ _ _ Ho' Href) as (o & Ho & Href0). destruct (td_completed db Ht _ _ _ Ho Href0) as [x Hx].
    destruct (evolves_at _ _ _ _ _ HX Hx) as (x' & Hx' & _). by exists x'.
  - intros org id x' s Hx' Hset. destruct (He _ _ _ Hx' Hset) as (x & Hx & Hset0). destruct (td_settled db Ht _ _ _ _ Hx Hset0) as (m & Hm & Hob).
    destruct (evolves_at _ _ _ _ _ HX Hm) as (m' & Hm' & p & l & ->). by exists (set_outbox p l m).
Qed.

Lemma told_quiet clock who db db' : Quiet clock who db db' → Told db → Told db'.
Proof.
  intros Hq. apply told_frame; [by eapply quiet_line_kept| |exact (qt_outbox _ _ _ _ Hq)|..].
  - intros key x s Hx Hs. destruct (evolves_at _ _ _ _ _ (qt_exchanges _ _ _ _ Hq) Hx) as (x' & Hx' & b & t & v & w & l & -> & Hb & _).
    exists (set_exchange b (ex_Settlement x) t v w l x). split; [done|]. split; [|done]. by exists b, (ex_Settlement x), t, v, w, l.
  - intros k o' ref Ho' Href. destruct (evolves_back _ _ _ _ _ (qt_orders _ _ _ _ Hq) Ho') as (o & Ho & st & out & l & t & -> & _). by exists o.
  - intros key x' s Hx' Hs. destruct (evolves_back _ _ _ _ _ (qt_exchanges _ _ _ _ Hq) Hx') as (x & Hx & b & t & v & w & l & -> & _). by exists x.
Qed.

(** A message that is new. *)
Lemma told_sent db db' key x : line_kept db db' → settled_kept db db' → cm_Outbox db !! key = None → cm_Outbox db' = <[key := x]> (cm_Outbox db) →
  tells db' key x →
  (∀ k o' ref, cm_Orders db' !! k = Some o' → or_GuestOrderRef o' = Some ref →
     key = EventID k ∨ ∃ o, cm_Orders db !! k = Some o ∧ or_GuestOrderRef o = Some ref) →
  (∀ org id x' s, cm_Exchanges db' !! (org, id) = Some x' → ex_Settlement x' = Some s →
     key = ExchangedEventID id ∧ ob_OrderID x = s.1 ∨ ∃ x, cm_Exchanges db !! (org, id) = Some x ∧ ex_Settlement x = Some s) →
  Told db → Told db'.
Proof.
  intros Hk Hs Hn HX Hx Hr He Ht. split.
  - intros j y Hy. rewrite HX in Hy. apply lookup_insert_Some in Hy as [[<- <-]|[_ Hy]]; [done|]. by eapply tells_same, (td_tells db Ht).
  - intros k o' ref Ho' Href. rewrite HX. destruct (Hr _ _ _ Ho' Href) as [<-|(o & Ho & Href0)]; [rewrite lookup_insert_eq; by eexists|].
    destruct (td_completed db Ht _ _ _ Ho Href0) as [y Hy]. rewrite lookup_insert_ne by congruence. by exists y.
  - intros org id x' s Hx' Hset. rewrite HX. destruct (He _ _ _ _ Hx' Hset) as [[<- Hob]|(x0 & Hx0 & Hset0)]; [exists x; by rewrite lookup_insert_eq|].
    destruct (td_settled db Ht _ _ _ _ Hx0 Hset0) as (m & Hm & Hob). exists m. by rewrite lookup_insert_ne by congruence.
Qed.

Lemma settled_kept_refl db db' : cm_Exchanges db' = cm_Exchanges db → settled_kept db db'.
Proof. intros E key x s Hx Hs. exists x. rewrite E. by split. Qed.

Lemma told_settle db now org id x replacement m e : cm_Exchanges db !! (org, id) = Some x → ex_Settlement x = None →
  let x' := set_exchange (ex_Basis x) (Some (replacement, now)) (ex_SettlingAt x) (ex_TicketsExchangedAt x) (ex_CapacityReturnedAt x) (ex_Reversal x) x in
  let db' := with_exchanges (<[(org, id) := x']> (cm_Exchanges db)) (cm_Unwinds db) db in
  (∃ y, cm_Outbox db !! ExchangedEventID id = Some y ∧ ob_OrderID y = replacement ∧ m = cm_Outbox db) ∨
  (cm_Outbox db !! ExchangedEventID id = None ∧ m = <[ExchangedEventID id := owed now replacement e]> (cm_Outbox db) ∧
   ∃ d, e = exchangedEnvelope d now ∧ ox_ReplacementOrderID d = replacement ∧ exchanged_says db org id x d) →
  Told db → Told (with_outbox m db').
Proof.
  intros Hx Hs x' db' Hm Ht.
  assert (Hk : line_kept db (with_outbox m db')) by by apply same_tables_line.
  assert (HS : settled_kept db (with_outbox m db')).
  { intros key y s Hy Hset. exists y. split; [|done]. cbn. rewrite lookup_insert_ne; [done|]. intros <-. congruence. }
  assert (Hback : ∀ key y s, cm_Exchanges (with_outbox m db') !! key = Some y → ex_Settlement y = Some s →
    key = (org, id) ∧ s = (replacement, now) ∨ ∃ y, cm_Exchanges db !! key = Some y ∧ ex_Settlement y = Some s).
  { intros key y s Hy Hset. cbn in Hy. apply lookup_insert_Some in Hy as [[<- <-]|[_ Hy]]; [|right; by exists y]. left. split; [done|]. by injection Hset. }
  destruct Hm as [(y & Hy & Hob & ->)|(Hn & -> & d & -> & Hrep & Hsay)].
  - split.
    + intros k z Hz. by eapply tells_same, (td_tells db Ht).
    + apply (td_completed db Ht).
    + intros org' id' z s Hz Hset. destruct (Hback _ _ _ Hz Hset) as [[[= -> ->] ->]|(z0 & Hz0 & Hset0)]; [by exists y|by eapply (td_settled db Ht)].
  - eapply (told_sent db); [done|done|exact Hn|reflexivity| | | |done].
    + assert (Hids : ox_ExchangeID d = id ∧ ox_OrganizerID d = org) by (destruct Hsay as (? & ? & ? & ? & ? & _ & _ & _ & _ & ->); done).
      destruct Hids as [Hid Horg]. split; [cbn; by rewrite Hid|]. cbn. rewrite Hid, Horg, Hrep. split_and!; [done|done|]. exists x', now.
      split_and!; [apply lookup_insert_eq|done| |done]. eapply says_kept; [exact Hk| |exact Hsay]. eexists _, _, _, _, _, _. split; [reflexivity|by right].
    + intros k o ref Ho Href. right. by exists o.
    + intros org' id' z s Hz Hset. destruct (Hback _ _ _ Hz Hset) as [[[= -> ->] ->]|?]; [by left|by right].
Qed.

Lemma told_move clock who db db' : move clock who db db' → Core db → Told db → Told db'.
Proof.
  intros Hm Hc Ht. pose proof (move_line_kept _ _ _ _ Hm) as Hk.
  destruct Hm as [db' Hq|k r Hn Hh Hq|now k reservation st key fp Hn Hr Ho Hst|now at_ k o r ref [Hl Hlr] Hs Hno| |
    now org id x o r fact Hx Hcp [Hl Hlr]| |org id x o r Hn _ _ _ _ _ Hset|now org id x replacement m e Hx Hs x' db'' Hm|org id x u Hx Hset];
    try by (destruct Ht; split).
  - by eapply told_quiet.
  - eapply told_frame; try done; [by apply settled_kept_refl| |].
    + intros j o ref Ho Href. by exists o.
    + intros j x s Hx Hset. by exists x.
  - eapply told_frame; try done; [by apply settled_kept_refl| |].
    + intros j o ref; cbn; intros [[<- <-]|[_ Hj]]%lookup_insert_Some Href; [done|by exists o].
    + intros j x s Hx Hset. by exists x.
  - eapply (told_sent db); [done|by apply settled_kept_refl|exact Hno|reflexivity| | | |done].
    + split; [done|]. cbn. eexists _, r, ref. split_and!; [split; cbn; [by rewrite lookup_insert_eq|done]|done..].
    + intros j o' ref' Ho' Href. cbn in Ho'. apply lookup_insert_Some in Ho' as [[<- <-]|[_ Hj]]; [by left|right; by exists o'].
    + intros org id y s Hy Hset. right. by exists y.
  - eapply told_frame; try done; [by apply settled_kept_refl| |].
    + intros j o' ref Ho' Href. cbn in Ho'. apply lookup_insert_Some in Ho' as [[<- <-]|[_ Hj]]; [by exists o|by exists o'].
    + intros j y s Hy Hset. by exists y.
  - eapply told_frame; try done.
    + intros key y s Hy Hs. exists y. split; [|reflexivity]. cbn. rewrite lookup_insert_ne by congruence. done.
    + intros j o' ref Ho' Href. by exists o'.
    + intros j y s; cbn; intros [[<- <-]|[_ Hj]]%lookup_insert_Some Hs; [congruence|by exists y].
  - by eapply told_settle.
  - eapply told_frame; try done.
    + intros key y s Hy Hs. exists y. split; [|reflexivity]. cbn. rewrite lookup_delete_ne by congruence. done.
    + intros j o' ref Ho' Href. by exists o'.
    + intros j y s; cbn; intros [_ Hj]%lookup_delete_Some Hs. by exists y.
Qed.

(** ** Every request is made of moves, but for what it sends *)

Definition sends (q : CommerceRequest) : bool := match q with OpComplete _ _ _ | OpBackfill | OpSettle _ _ _ => true | _ => false end.

Lemma request_moves now q db : Core db → Undone db → handlers_pass q db = true → sends q = false → rtc (move (latest_clock now q) (claim_named q)) db (perform now q db).
Proof.
  intros Hc Hu Hp Hs. destruct (loud q) eqn:El.
  - destruct q; try discriminate El; try discriminate Hs; cbn [perform]; cbn [handlers_pass] in Hp; zbool.
    + by apply reserve_moves.
    + apply claimOrder_moves.
    + by apply BindOrderRefund_moves.
    + apply CompleteOrderRefund_moves.
    + apply BindOrderVoid_moves.
    + apply BindOrderExchange_moves.
    + by apply replacement_reservation_moves.
    + apply replacement_order_moves.
    + apply UnwindWedgedExchange_moves.
  - by eapply quiet_moves, quiet_requests.
Qed.

Definition Kept db : Prop := Core db ∧ Undone db.

Lemma kept_moves clock who db db' : rtc (move clock who) db db' → Kept db → Kept db'.
Proof.
  induction 1 as [|x y z Hxy _ IH]; [done|]. intros [Hc Hu]. apply IH. assert (Hc' : Core y) by by eapply core_move.
  split; [done|by eapply undone_move].
Qed.

(** The outbox is nothing to them. *)
Lemma kept_outbox m db : Kept db → Kept (with_outbox m db).
Proof. intros [[] []]. by split; split. Qed.

Lemma kept_owe now k e db db' : owe now k e db = Ok db' → Kept db → Kept db'.
Proof. intros [(x & _ & _ & ->)|[_ ->]]%owe_moves; [done|apply kept_outbox]. Qed.

Lemma kept_complete now at_ c candidate db : handlers_pass (OpComplete at_ c candidate) db = true → Kept db →
  Kept (effect db (CompleteOrder now at_ c candidate db)).
Proof.
  intros Hp Hk. destruct (CompleteOrder now at_ c candidate db) as [[db' ref]|e] eqn:E; [|done]. cbn.
  destruct (CompleteOrder_shape _ _ _ _ _ _ _ Hp E) as [->|(o & r & Hl & Hs & Hc & Hw)]; [done|].
  eapply kept_owe; [exact Hw|].
  pose proof (kept_moves _ _ _ _ (completed_moves 0 None now at_ c o r ref (with_outbox ∅ db) Hl Hs Hc eq_refl) (kept_outbox _ _ Hk)) as H.
  exact (kept_outbox (cm_Outbox db) _ H).
Qed.

Lemma backfill_outbox db : ∃ m, BackfillCompletionOutbox db = with_outbox m db.
Proof.
  unfold BackfillCompletionOutbox. generalize (needs_backfill db). intros l. revert db. induction l as [|[[[k c] ref] at_] l IH]; intros db.
  - exists (cm_Outbox db). by destruct db.
  - cbn [foldl]. assert (Hb : ∃ m, backfill_one (k, c, ref, at_) db = with_outbox m db).
    { unfold backfill_one. destruct (_ || _); [exists (cm_Outbox db); by destruct db|by eexists]. }
    destruct Hb as [m ->]. destruct (IH (with_outbox m db)) as [m' ->]. by exists m'.
Qed.

Lemma kept_backfill db : Kept db → Kept (BackfillCompletionOutbox db).
Proof. destruct (backfill_outbox db) as [m ->]. apply kept_outbox. Qed.

(** A settlement changes the exchange and the outbox. *)
Lemma settlement_shape now org id replacement db db' : CompleteExchangeSettlement now org id replacement db = Ok db' →
  db' = db ∨ ∃ row, cm_Exchanges db !! (org, id) = Some row ∧
    ((∃ k at_ d db1, ex_Settlement row = Some (k, at_) ∧ db1 = db ∧ ox_ExchangeID d = id ∧ owe now k (exchangedEnvelope d at_) db1 = Ok db') ∨
     (ex_Settlement row = None ∧ ∃ d, exchanged_data org id row replacement db = Ok d ∧
      owe now replacement (exchangedEnvelope d now)
        (with_exchanges (<[(org, id) := set_exchange (ex_Basis row) (Some (replacement, now)) (ex_SettlingAt row) (ex_TicketsExchangedAt row)
           (ex_CapacityReturnedAt row) (ex_Reversal row) row]> (cm_Exchanges db)) (cm_Unwinds db) db) = Ok db')).
Proof.
  intros E. unfold CompleteExchangeSettlement in E. destruct (cm_Exchanges db !! (org, id)) as [row|] eqn:Ex.
  2: { case_bool_decide; [done|]. simplify_eq. by left. }
  destruct (ex_Basis row) as [b|] eqn:Eb.
  2: { case_bool_decide; [done|]. simplify_eq. by left. }
  right. exists row. split; [done|].
  destruct (ex_Settlement row) as [[k at_]|] eqn:Es; cbn in E.
  - apply bind_Ok in E as (d & Hd & E). apply exchanged_data_ids in Hd as [Hid _]. left. exists k, at_, d, db. done.
  - apply bind_Ok in E as ([[k at_] db1] & H1 & E). apply bind_Ok in H1 as (_ & _ & H1). injection H1 as <- <- <-.
    apply bind_Ok in E as (d & Hd & E). right. split; [done|]. exists d. unfold update_exchange in Hd, E. rewrite Ex in Hd, E. by split.
Qed.

Lemma kept_settlement now org id replacement db : Kept db → Kept (kept_on_error db (CompleteExchangeSettlement now org id replacement db)).
Proof.
  intros Hk. destruct (CompleteExchangeSettlement now org id replacement db) as [db'|e] eqn:E; [|done]. cbn.
  destruct (settlement_shape _ _ _ _ _ _ E) as [->|(row & Hrow & [(k & at_ & d & db1 & _ & -> & _ & Hw)|(Hs & d & Hd & Hw)])];
    [done|by eapply kept_owe|]. eapply kept_owe; [exact Hw|].
  pose proof (exchanged_data_says _ _ _ _ _ _ (proj2 Hk) Hrow Hd) as Hsay. apply exchanged_data_ids in Hd as [_ Hrep].
  pose proof (mv_settle 0 None (with_outbox ∅ db) now org id row replacement _ (exchangedEnvelope d now) Hrow Hs
    (or_intror (conj eq_refl (conj eq_refl (ex_intro _ d (conj eq_refl (conj Hrep Hsay))))))) as Hm.
  exact (kept_outbox (cm_Outbox db) _ (kept_moves _ _ _ _ (rtc_once _ _ Hm) (kept_outbox _ _ Hk))).
Qed.

Lemma kept_perform now q db : handlers_pass q db = true → Kept db → Kept (perform now q db).
Proof.
  intros Hp Hk. destruct (sends q) eqn:Es.
  - destruct q; try discriminate Es; cbn [perform]; [by apply kept_complete|by apply kept_backfill|by apply kept_settlement].
  - eapply kept_moves; [|exact Hk]. by apply request_moves; [apply Hk|apply Hk|..].
Qed.

Lemma kept_run l db : along handlers_pass l db = true → Kept db → Kept (run l db).
Proof.
  revert db. induction l as [|[now q] l IH]; intros db Ha Hk; [done|]. cbn in *. zbool. apply IH; [done|]. by apply kept_perform.
Qed.

Lemma kept_empty : Kept no_commerce.
Proof. split; split; intros; by simplify_map_eq || (unfold line in *; naive_solver). Qed.

(** ** What has ended *)

(** An order that has ended keeps its status and its reference; an outcome is kept. *)
Definition ends_kept db db' : Prop := ∀ k o, cm_Orders db !! k = Some o → ∃ o', cm_Orders db' !! k = Some o' ∧
  (ended (or_Status o) = true → or_Status o' = or_Status o ∧ or_GuestOrderRef o' = or_GuestOrderRef o) ∧
  (∀ x, or_TerminalOutcome o = Some x → or_TerminalOutcome o' = Some x).

Lemma ends_kept_same db db' : cm_Orders db' = cm_Orders db → ends_kept db db'.
Proof. intros E k o Ho. exists o. by rewrite E. Qed.

Lemma ends_kept_trans db1 db2 db3 : ends_kept db1 db2 → ends_kept db2 db3 → ends_kept db1 db3.
Proof.
  intros H12 H23 k o Ho. destruct (H12 _ _ Ho) as (o2 & Ho2 & He2 & Hx2). destruct (H23 _ _ Ho2) as (o3 & Ho3 & He3 & Hx3).
  exists o3. split_and!; [done| |by eauto]. intros He. destruct (He2 He) as [E1 E2]. rewrite <-E1, <-E2. apply He3. by rewrite E1.
Qed.

Lemma ends_kept_insert db db' k o' : cm_Orders db' = <[k := o']> (cm_Orders db) →
  (∀ o, cm_Orders db !! k = Some o → (ended (or_Status o) = true → or_Status o' = or_Status o ∧ or_GuestOrderRef o' = or_GuestOrderRef o) ∧
     or_TerminalOutcome o' = or_TerminalOutcome o) → ends_kept db db'.
Proof.
  intros E Hk j o Ho. rewrite E. destruct (decide (j = k)) as [->|].
  - destruct (Hk _ Ho) as [He Hx]. exists o'. rewrite lookup_insert_eq, Hx. done.
  - exists o. by rewrite lookup_insert_ne.
Qed.

Lemma move_ends_kept clock who db db' : move clock who db db' → ends_kept db db'.
Proof.
  intros Hm. destruct Hm as [db' Hq|k r Hn Hh Hq|now k reservation st key fp Hn Hr Ho Hst|now at_ k o r ref [Hl Hlr] Hs Hno| |
    now org id x o r fact Hx Hcp [Hl Hlr]| | |now org id x replacement m e Hx Hs x' db'' Hm|]; try by apply ends_kept_same.
  - intros k o Ho. destruct (evolves_at _ _ _ _ _ (qt_orders _ _ _ _ Hq) Ho) as (o' & Ho' & st & out & l & t & -> & [_ He] & Hx & _).
    eexists. split_and!; [exact Ho'|intros H; by split; [apply He|]|exact Hx].
  - eapply ends_kept_insert; [reflexivity|]. intros o Hk. congruence.
  - eapply ends_kept_insert; [reflexivity|]. intros o' Hk. simplify_eq. split; [intros He; congruence|done].
  - eapply ends_kept_insert; [reflexivity|]. intros o' Hk. by simplify_eq.
Qed.

Lemma ends_kept_moves clock who db db' : rtc (move clock who) db db' → ends_kept db db'.
Proof. induction 1 as [db|x y z Hxy _ IH]; [by apply ends_kept_same|]. eapply ends_kept_trans; [by eapply move_ends_kept|done]. Qed.

Lemma ends_kept_owe now k e db db' : owe now k e db = Ok db' → ends_kept db db'.
Proof. intros [(x & _ & _ & ->)|[_ ->]]%owe_moves; by apply ends_kept_same. Qed.

Lemma ends_perform now q db : handlers_pass q db = true → Kept db → ends_kept db (perform now q db).
Proof.
  intros Hp Hk. destruct (sends q) eqn:Es.
  2: { eapply ends_kept_moves. by apply request_moves; [apply Hk|apply Hk|..]. }
  destruct q; try discriminate Es; cbn [perform].
  - destruct (CompleteOrder now at_ c candidate db) as [[db' ref]|e] eqn:E; [|by apply ends_kept_same]. cbn.
    destruct (CompleteOrder_shape _ _ _ _ _ _ _ Hp E) as [->|(o & r & Hl & Hs & Hc & Hw)]; [by apply ends_kept_same|].
    eapply ends_kept_trans; [|by eapply ends_kept_owe]. eapply ends_kept_insert; [reflexivity|].
    intros o' Ho'. rewrite (proj1 Hl) in Ho'. simplify_eq. split; [intros He; congruence|done].
  - destruct (backfill_outbox db) as [m ->]. by apply ends_kept_same.
  - destruct (CompleteExchangeSettlement now org id replacement db) as [db'|e] eqn:E; [|by apply ends_kept_same]. cbn.
    destruct (settlement_shape _ _ _ _ _ _ E) as [->|(row & Hrow & [(k & at_ & d & db1 & _ & -> & _ & Hw)|(Hs & d & Hd & Hw)])];
      [by apply ends_kept_same|by eapply ends_kept_owe|]. eapply ends_kept_trans; [|by eapply ends_kept_owe]. by apply ends_kept_same.
Qed.

Lemma ends_run l db : along handlers_pass l db = true → Kept db → ends_kept db (run l db).
Proof.
  revert db. induction l as [|[now q] l IH]; intros db Ha Hk; [by apply ends_kept_same|]. cbn in *. zbool.
  eapply ends_kept_trans; [by apply ends_perform|]. apply IH; [done|by apply kept_perform].
Qed.

(** C18 (invariant). An order ends once. Whatever ran before and whatever runs after,
    whoever runs it, of requests as the handlers pass them: an order that is completed, declined, timed out or refunded stays
    so and keeps its guest reference, so that a late capture, a recovery that lost its
    lease or an operator's unparking cannot reopen it; and the proof that nothing was
    charged, once recorded, is never replaced by another. *)
Theorem order_ends_once (l0 l : list (time * CommerceRequest)) (Hl0 : along handlers_pass l0 no_commerce = true)
    (Hl : along handlers_pass l (run l0 no_commerce) = true) (k : uuid) (o : OrderRow)
    (Ho : cm_Orders (run l0 no_commerce) !! k = Some o) :
  ∃ o', cm_Orders (run l (run l0 no_commerce)) !! k = Some o' ∧
    (ended (or_Status o) = true → or_Status o' = or_Status o ∧ or_GuestOrderRef o' = or_GuestOrderRef o) ∧
    (∀ x, or_TerminalOutcome o = Some x → or_TerminalOutcome o' = Some x).
Proof. exact (ends_run l _ Hl (kept_run l0 no_commerce Hl0 kept_empty) k o Ho). Qed.

(** Refunded, voided, exchanged: how many of the three an order is. *)
Definition ways_undone (k : uuid) db : nat :=
  (Nat.b2n (refunded_order k db) + Nat.b2n (voided_order k db) + Nat.b2n (exchanged_order k db))%nat.

Lemma refunded_order_row k db : refunded_order k db = true → ∃ org id x, cm_Refunds db !! (org, id) = Some x ∧ rf_OrderID x = k.
Proof. intros ([org id] & x & Hx & Hk)%some_row_true. zbool. by exists org, id, x. Qed.
Lemma voided_order_row k db : voided_order k db = true → ∃ key x, cm_Voids db !! key = Some x ∧ vd_OrderID x = k.
Proof. intros (key & x & Hx & Hk)%some_row_true. zbool. by exists key, x. Qed.
Lemma exchanged_order_row k db : exchanged_order k db = true → ∃ org id x, cm_Exchanges db !! (org, id) = Some x ∧ ex_SourceOrderID x = k.
Proof. intros ([org id] & x & Hx & Hk)%some_row_true. zbool. by exists org, id, x. Qed.

Lemma undone_one_way db k : Undone db → (ways_undone k db ≤ 1)%nat.
Proof.
  intros Hu. unfold ways_undone. destruct (exchanged_order k db) eqn:Ee.
  - destruct (exchanged_order_row _ _ Ee) as (org & id & x & Hx & <-). destruct (un_exclusive db Hu _ _ Hx) as [-> ->]. done.
  - destruct (refunded_order k db) eqn:Er; [|by destruct (voided_order k db); cbn; lia].
    destruct (voided_order k db) eqn:Ev; [|cbn; lia]. exfalso.
    destruct (refunded_order_row _ _ Er) as (org & id & x & Hx & Hk). destruct (un_refund db Hu _ _ _ Hx) as (o & r & Hl & (_ & _ & _ & Hun & _)).
    destruct (voided_order_row _ _ Ev) as (key & y & Hy & Hk'). destruct (un_void db Hu _ _ Hy) as (o' & r' & Hl' & (_ & _ & Hun' & _)).
    rewrite Hk in Hl. rewrite Hk' in Hl'. destruct (line_det _ _ _ _ _ _ Hl Hl') as [-> ->]. lia.
Qed.

Lemma undone_completed db k o r : Undone db → line db k o r → ways_undone k db ≠ 0%nat → or_Status o = OrdCompleted.
Proof.
  intros Hu Hl Hw. unfold ways_undone in Hw. destruct (refunded_order k db) eqn:Er; [|destruct (voided_order k db) eqn:Ev; [|destruct (exchanged_order k db) eqn:Ee; [|done]]].
  - destruct (refunded_order_row _ _ Er) as (org & id & x & Hx & Hk). destruct (un_refund db Hu _ _ _ Hx) as (o' & r' & Hl' & (Hs & _)).
    rewrite Hk in Hl'. by destruct (line_det _ _ _ _ _ _ Hl Hl') as [-> ->].
  - destruct (voided_order_row _ _ Ev) as (key & x & Hx & Hk). destruct (un_void db Hu _ _ Hx) as (o' & r' & Hl' & (Hs & _)).
    rewrite Hk in Hl'. by destruct (line_det _ _ _ _ _ _ Hl Hl') as [-> ->].
  - destruct (exchanged_order_row _ _ Ee) as (org & id & x & Hx & Hk). destruct (un_exchange db Hu _ _ _ Hx) as (o' & r' & Hl' & (Hs & _)).
    rewrite Hk in Hl'. by destruct (line_det _ _ _ _ _ _ Hl Hl') as [-> ->].
Qed.

Lemma void_key_unique db key key' x x' : Undone db → cm_Voids db !! key = Some x → cm_Voids db !! key' = Some x' →
  vd_OrderID x = vd_OrderID x' → key = key'.
Proof.
  intros Hu Hx Hx' He. destruct (un_void db Hu _ _ Hx) as (o & r & Hl & (_ & -> & _)). destruct (un_void db Hu _ _ Hx') as (o' & r' & Hl' & (_ & -> & _)).
  rewrite He in *. by destruct (line_det _ _ _ _ _ _ Hl Hl') as [-> ->].
Qed.

(** C3 (safety). An order is undone once. In every run of commerce's statements as the
    handlers pass them, from empty tables and with any interleaving of checkouts, refunds, voids, exchanges,
    their unwinding, the recovery and the queues: what is refunded of an order, pending
    refunds included, is no more than its tickets; the projection on the order is the
    sum of its completed refunds, at the price that was paid; an order is refunded, or
    voided, or exchanged, never two of the three, by one void and one exchange at most,
    and only once it is completed; and the places of a refund are marked returned only
    after its tickets are. *)
Theorem order_is_undone_once (l : list (time * CommerceRequest)) (Hl : along handlers_pass l no_commerce = true) :
  let db := run l no_commerce in
  ∀ k o r, line db k o r →
    refund_quantity k db ≤ rs_Quantity r ∧
    or_RefundedQuantity o = completed_quantity k db ∧
    or_RefundedAmount o = completed_quantity k db * rs_UnitAmount r ∧
    or_RefundStatus o = projected_status (rs_Quantity r) (completed_quantity k db) ∧
    (ways_undone k db ≤ 1)%nat ∧
    (ways_undone k db ≠ 0%nat → or_Status o = OrdCompleted) ∧
    (∀ key key' x x', cm_Voids db !! key = Some x → cm_Voids db !! key' = Some x' → vd_OrderID x = vd_OrderID x' → key = key') ∧
    (∀ key key' x x', cm_Exchanges db !! key = Some x → cm_Exchanges db !! key' = Some x' →
       ex_SourceOrderID x = ex_SourceOrderID x' → key = key') ∧
    (∀ key x, cm_Refunds db !! key = Some x → rf_OrderID x = k → is_Some (rf_CapacityReturnedAt x) → is_Some (rf_TicketsVoidedAt x)).
Proof.
  intros db k o r Hline. destruct (kept_run l no_commerce Hl kept_empty) as [Hc Hu]. fold db in Hc, Hu.
  destruct (un_projection db Hu _ _ _ Hline) as (H1 & H2 & H3).
  split_and!; [by eapply un_ceiling|done..|by apply undone_one_way|by eapply undone_completed| |by apply un_source|].
  - intros key key' x x'. by apply void_key_unique.
  - intros [org id] x Hx _. destruct (un_refund db Hu _ _ _ Hx) as (? & ? & _ & (_ & _ & _ & _ & _ & Hm)). exact Hm.
Qed.

(** ** What it sends *)

(** Version 5 ids of different names differ. *)
Context (event_apart : ∀ k x : uuid, EventID k ≠ ExchangedEventID x) (event_inj : Inj (=) (=) EventID).

(** The message of an order that is not completed cannot be there yet. *)
Lemma no_early_event db k o r : Told db → line db k o r → ended (or_Status o) = false → cm_Outbox db !! EventID k = None.
Proof.
  intros Ht [Ho _] Hn%ended_false. destruct (cm_Outbox db !! EventID k) as [x|] eqn:E; [|done]. exfalso.
  destruct (td_tells db Ht _ _ E) as [Hk He]. destruct (ev_Data (ob_Envelope x)) eqn:Ed.
  - destruct He as (o' & r' & ref & [Ho' _] & Hs & _ & He). rewrite He in Hk. cbn in Hk. apply event_inj in Hk.
    rewrite <-Hk in Ho'. congruence.
  - destruct He as [He _]. by apply event_apart in He.
Qed.

Lemma CompleteOrder_moves clock who now at_ c candidate db :
  Told db → handlers_pass (OpComplete at_ c candidate) db = true → rtc (move clock who) db (effect db (CompleteOrder now at_ c candidate db)).
Proof.
  intros Ht Hp. destruct (CompleteOrder now at_ c candidate db) as [[db' ref]|e] eqn:E; [|by apply rtc_refl]. cbn.
  destruct (CompleteOrder_shape _ _ _ _ _ _ _ Hp E) as [->|(o & r & Hl & Hs & Hc & Hw)]; [by apply rtc_refl|].
  pose proof (no_early_event _ _ _ _ Ht Hl Hs) as Hno.
  destruct (owe_moves _ _ _ _ _ Hw) as [(y & Hy & _)|[_ ->]]; [cbn in Hy; congruence|].
  exact (completed_moves clock who now at_ c o r ref db Hl Hs Hc Hno).
Qed.

(** Told tables need no backfill. *)
Lemma backfill_still db : Core db → Told db → BackfillCompletionOutbox db = db.
Proof.
  intros Hc Ht. unfold BackfillCompletionOutbox. replace (needs_backfill db) with (@nil (uuid * Completion * uuid * time)); [done|].
  symmetry. unfold needs_backfill. apply elem_of_nil_inv. intros p (ko & Hko & Hp)%list_elem_of_omap.
  destruct ko as [k o]. apply elem_of_map_to_list in Hko. cbn [fst snd] in Hp.
  destruct (or_GuestOrderRef o) as [ref|] eqn:Eref; [|done]. cbn in Hp.
  destruct (cm_Reservations db !! or_ReservationID o) as [r|] eqn:Er; [|done]. cbn in Hp.
  destruct (td_completed db Ht k o ref Hko Eref) as [x Hx].
  destruct (_ && _) eqn:E; [|done]. zbool.
  destruct (td_tells db Ht _ _ Hx) as [Hk Hd]. destruct (ev_Data (ob_Envelope x)).
  - destruct Hd as (o' & r' & ref' & _ & _ & _ & He). rewrite He in Hk. cbn in Hk. apply event_inj in Hk.
    by apply (owes_false _ _ _ _ ltac:(done) Hx).
  - destruct Hd as [Hd _]. by apply event_apart in Hd.
Qed.

Lemma CompleteExchangeSettlement_moves clock who now org id replacement db : Undone db →
  Told db → rtc (move clock who) db (kept_on_error db (CompleteExchangeSettlement now org id replacement db)).
Proof.
  intros Hu Ht. destruct (CompleteExchangeSettlement now org id replacement db) as [db'|e] eqn:E; [|by apply rtc_refl]. cbn [kept_on_error].
  destruct (settlement_shape _ _ _ _ _ _ E) as [->|(row & Hrow & [(k & at_ & d & db1 & Hs & -> & Hid & Hw)|(Hs & d & Hd & Hw)])];
    [by apply rtc_refl|..].
  - destruct (td_settled db Ht _ _ _ _ Hrow Hs) as (m & Hm & _).
    destruct (owe_moves _ _ _ _ _ Hw) as [(y & _ & _ & ->)|[Hn _]]; [by apply rtc_refl|]. cbn in Hn. rewrite Hid in Hn. congruence.
  - pose proof (exchanged_data_says _ _ _ _ _ _ Hu Hrow Hd) as Hsay. apply exchanged_data_ids in Hd as [Hid Hrep].
    apply rtc_once. destruct (owe_moves _ _ _ _ _ Hw) as [(y & Hy & Hob & ->)|[Hn ->]]; cbn [ev_ID exchangedEnvelope] in *; rewrite Hid in *.
    + eapply (mv_settle clock who db now org id row replacement (cm_Outbox db) (exchangedEnvelope d now)); [done|done|]. left. by exists y.
    + eapply (mv_settle clock who db now org id row replacement); [done|done|]. right.
      split_and!; [done|reflexivity|]. by exists d.
Qed.

Lemma told_moves clock who db db' : rtc (move clock who) db db' → Core db → Told db → Told db'.
Proof.
  induction 1 as [|x y z Hxy _ IH]; [done|]. intros Hc Ht. apply IH; [by eapply core_move|by eapply told_move].
Qed.

Lemma told_perform now q db : handlers_pass q db = true → Kept db → Told db → Told (perform now q db).
Proof.
  intros Hp [Hc Hu] Ht. eapply told_moves; [|exact Hc|exact Ht]. destruct (sends q) eqn:Es.
  - destruct q; try discriminate Es; cbn [perform]; [by apply CompleteOrder_moves|by rewrite backfill_still|by apply CompleteExchangeSettlement_moves].
  - by apply request_moves.
Qed.

Lemma told_run l db : along handlers_pass l db = true → Kept db → Told db → Told (run l db).
Proof.
  revert db. induction l as [|[now q] l IH]; intros db Ha Hk Ht; [done|]. cbn in *. zbool.
  apply IH; [done|by apply kept_perform|by apply told_perform].
Qed.

Lemma told_empty : Told no_commerce.
Proof. split; intros; by simplify_map_eq. Qed.

(** C6 (invariant). Every completed order owes its event, and the outbox says nothing
    else. In every run from empty tables of requests as the handlers pass them (a
    completion with the columns of the order's line, a failure that is a decline or a
    timeout, quantities up to the limit), and if version 5 ids of different names
    differ: a completed order has its guest reference and the message that carries
    exactly its reservation's columns, unless it is the replacement of an exchange; a
    settled exchange has the message that names its replacement; and every message is
    true of the tables, whatever was retried, backfilled, claimed or released since: one
    of a completion has all the columns of its order's line, one of an exchange names
    the order it replaces with its guest reference, the slot of the basis, the type and
    the quantity of the exchange, the buyer of the replacement and the time of the
    settlement. *)
Theorem outbox_says_what_happened (l : list (time * CommerceRequest)) (Hl : along handlers_pass l no_commerce = true) :
  let db := run l no_commerce in
  (∀ k o r, line db k o r → or_Status o = OrdCompleted →
     (∃ x, k = replacementOrderID x) ∨
     ∃ ref m at_, or_GuestOrderRef o = Some ref ∧ cm_Outbox db !! EventID k = Some m ∧ ob_OrderID m = k ∧
       ob_Envelope m = completionEnvelope (completion_of k o r) ref at_) ∧
  (∀ org id x k at_, cm_Exchanges db !! (org, id) = Some x → ex_Settlement x = Some (k, at_) →
     ∃ m d, cm_Outbox db !! ExchangedEventID id = Some m ∧ ev_Data (ob_Envelope m) = OrderExchangedEvent d ∧ ox_ReplacementOrderID d = k) ∧
  (∀ key m, cm_Outbox db !! key = Some m → tells db key m).
Proof.
  intros db. pose proof (kept_run l no_commerce Hl kept_empty) as [Hc Hu]. pose proof (told_run l no_commerce Hl kept_empty told_empty) as Ht.
  fold db in Hc, Hu, Ht. split_and!.
  - intros k o r [Ho Hr] Hs. destruct (or_GuestOrderRef o) as [ref|] eqn:Er; [|left; by apply (cr_ref db Hc k o)]. right.
    destruct (td_completed db Ht _ _ _ Ho Er) as [m Hm]. destruct (td_tells db Ht _ _ Hm) as [Hkey Hd].
    destruct (ev_Data (ob_Envelope m)).
    + destruct Hd as (o' & r' & ref' & [Ho' Hr'] & _ & Href & He). rewrite He in Hkey. cbn in Hkey. apply event_inj in Hkey. symmetry in Hkey.
      rewrite Hkey in *. simplify_eq. by exists ref, m, (ev_Occurred (ob_Envelope m)).
    + destruct Hd as [Hd _]. by apply event_apart in Hd.
  - intros org id x k at_ Hx Hs. destruct (td_settled db Ht _ _ _ _ Hx Hs) as (m & Hm & Hob). cbn in Hob.
    destruct (td_tells db Ht _ _ Hm) as [Hkey Hd]. destruct (ev_Data (ob_Envelope m)) as [d|d] eqn:Ed.
    + destruct Hd as (o' & r' & ref' & _ & _ & _ & He). rewrite He in Hkey. cbn in Hkey. by symmetry in Hkey; apply event_apart in Hkey.
    + exists m, d. split_and!; [done|done|]. destruct Hd as (_ & Hd & _). congruence.
  - apply (td_tells db Ht).
Qed.
End Safety.

(** ** Witnesses *)

#[local] Existing Instance text_uuid.

(** Ids that are their names. *)
#[local] Instance named_ids : UUIDSource := {| NewSHA1 := λ s, s; is_v4 := λ _, true |}.

Definition two_places (hold : string) (unit_amount total : Z) : ReservationRow := {|
  rs_OrganizerID := "org"%string; rs_HoldID := hold; rs_SlotID := "slot"%string; rs_TicketTypeID := "type"%string; rs_BuyerID := "buyer"%string;
  rs_Quantity := 2; rs_UnitAmount := unit_amount; rs_TotalAmount := total; rs_FaceValueAmount := unit_amount * 2; rs_Currency := "EUR";
  rs_Status := ResHeld; rs_ChannelCode := None; rs_ResellerID := None |}.

Definition sold_line (order reservation : string) : Completion := {|
  co_ReservationID := reservation; co_OrderID := order; co_OrganizerID := "org"%string; co_BuyerID := "buyer"%string;
  co_SlotID := "slot"%string; co_TicketTypeID := "type"%string; co_Quantity := 2 |}.

(** An order of two places at 1000, completed. *)
Definition sale (reservation key hold ref : string) (unit_amount total : Z) : list (time * CommerceRequest) :=
  [(1, OpReserve reservation (two_places hold unit_amount total));
   (2, OpClaimOrder 2 reservation "org"%string total key "fp");
   (3, OpFinalizing reservation);
   (4, OpComplete 4 (sold_line (orderID "org"%string key) reservation) ref)].

Definition first_order : string := orderID "org"%string "k1".
Definition second_order : string := orderID "org"%string "k2".
Definition one_refund : RefundRequest := {|
  rq_OrderID := first_order; rq_OrganizerID := "org"%string; rq_Quantity := 1; rq_IdempotencyKey := "r1"; rq_Actor := "staff"; rq_Reason := "ill" |}.
Definition too_many : RefundRequest := {|
  rq_OrderID := first_order; rq_OrganizerID := "org"%string; rq_Quantity := 2; rq_IdempotencyKey := "r2"; rq_Actor := "staff"; rq_Reason := "ill" |}.
Definition other_type : ExchangeRequest := {|
  xq_SourceOrderID := second_order; xq_OrganizerID := "org"%string; xq_TargetTicketTypeID := "type2"%string; xq_IdempotencyKey := "x1";
  xq_Actor := "staff"; xq_Reason := "moved" |}.
Definition second_refund : RefundRequest := {|
  rq_OrderID := second_order; rq_OrganizerID := "org"%string; rq_Quantity := 1; rq_IdempotencyKey := "r3"; rq_Actor := "staff"; rq_Reason := "ill" |}.

Definition first_refund : string := RefundID "org"%string "r1".
Definition exchange_id : string := ExchangeID "org"%string "x1".
Definition same_price : ExchangeBasis := {|
  bs_TargetHoldID := "hold3"%string; bs_ReplacementReservationID := replacementReservationID exchange_id; bs_TargetSlotID := "slot2"%string;
  bs_TargetTotal := 2000; bs_DeltaAmount := 0; bs_TargetUnitAmount := 1000 |}.

(** The exchange of the second order as its handler loads it. *)
Definition loaded (db : CommerceDB) : Exchange :=
  match cm_Exchanges db !! ("org"%string, exchange_id), order_line "org"%string second_order db with
  | Some row, Ok (o, r) => with_line "org"%string exchange_id row o r
  | _, _ => {| xc_ID := exchange_id; xc_OrganizerID := "org"%string; xc_SourceReservation := ""%string; xc_BuyerID := ""%string; xc_HoldID := ""%string;
               xc_SlotID := ""%string; xc_PaymentSourceKey := "";
               xc_Row := {| ex_SourceOrderID := second_order; ex_TargetTicketTypeID := ""%string; ex_IdempotencyKey := ""; ex_RequestFingerprint := "";
                 ex_Quantity := 2; ex_SourceTotal := 0; ex_SourceGrossTotal := 0; ex_Currency := ""; ex_Actor := ""; ex_Reason := ""; ex_Basis := None;
                 ex_Settlement := None; ex_SettlingAt := None; ex_TicketsExchangedAt := None; ex_CapacityReturnedAt := None; ex_CreatedAt := 0;
                 ex_Reversal := fresh_lease 0 |} |}
  end.

(** One order partly refunded, with a refund that is too large; one exchanged, with a
    refund that comes too late. *)
Definition undoing : list (time * CommerceRequest) :=
  sale "res1" "k1" "hold1" "guest1" 1000 2100 ++ sale "res2" "k2" "hold2" "guest2" 1000 2000 ++
  [(10, OpBindRefund one_refund); (11, OpBindRefund too_many); (12, OpCompleteRefund "org"%string first_refund "fact"%string);
   (13, OpRefundVoided "org"%string first_refund); (14, OpBindExchange other_type); (15, OpBindRefund second_refund);
   (16, OpRecordBasis "org"%string exchange_id same_price)].
Definition replacing : list (time * CommerceRequest) :=
  let x := loaded (run undoing no_commerce) in
  [(17, OpReplacementReservation x same_price 2000); (18, OpReplacementOrder x same_price);
   (19, OpSettle "org"%string exchange_id (replacementOrderID exchange_id)); (20, OpBackfill)].
Definition order_day : list (time * CommerceRequest) := undoing ++ replacing.

Lemma order_is_undone_once_witness :
  let db := run order_day no_commerce in
  (completed_quantity first_order db, ways_undone first_order db, exchanged_order second_order db, refunded_order second_order db) = (1, 1%nat, true, false) ∧
  (∀ o r, line db first_order o r → refund_quantity first_order db ≤ rs_Quantity r).
Proof.
  intros db. split; [vm_compute; reflexivity|].
  assert (H : along handlers_pass order_day no_commerce = true) by (vm_compute; reflexivity).
  intros o r Hl. exact (proj1 (@order_is_undone_once text_uuid named_ids order_day H first_order o r Hl)).
Defined.

Lemma named_apart : ∀ k x : uuid, EventID k ≠ ExchangedEventID x.
Proof. intros k x H. discriminate H. Qed.
Lemma named_inj : Inj (=) (=) EventID.
Proof. intros x y H. cbn in H. by injection H. Qed.

Lemma outbox_says_what_happened_witness :
  let db := run order_day no_commerce in
  (map (λ k, bool_decide (is_Some (cm_Outbox db !! k))) [EventID first_order; EventID second_order; ExchangedEventID exchange_id]) = [true; true; true] ∧
  (∀ key m, cm_Outbox db !! key = Some m → tells db key m).
Proof.
  intros db. split; [vm_compute; reflexivity|].
  assert (H : along handlers_pass order_day no_commerce = true) by (vm_compute; reflexivity).
  exact (proj2 (proj2 (@outbox_says_what_happened text_uuid named_ids named_apart named_inj order_day H))).
Defined.

(** A late failure and a late refund of a completed order. *)
Definition too_late : list (time * CommerceRequest) :=
  [(20, OpTerminalFailure "res1"%string first_order OrdDeclined); (21, OpClaimStuck (λ _, false) 10 (seconds 60) "c1"%string);
   (22, OpOrderUnknown first_order)].

Lemma order_ends_once_witness :
  let db := run (sale "res1" "k1" "hold1" "guest1" 1000 2100) no_commerce in
  or_Status <$> cm_Orders db !! first_order = Some OrdCompleted ∧
  (∀ o, cm_Orders db !! first_order = Some o → ∃ o', cm_Orders (run too_late db) !! first_order = Some o' ∧
     (ended (or_Status o) = true → or_Status o' = or_Status o ∧ or_GuestOrderRef o' = or_GuestOrderRef o) ∧
     (∀ x, or_TerminalOutcome o = Some x → or_TerminalOutcome o' = Some x)).
Proof.
  intros db. split; [vm_compute; reflexivity|].
  assert (H0 : along handlers_pass (sale "res1" "k1" "hold1" "guest1" 1000 2100) no_commerce = true) by (vm_compute; reflexivity).
  assert (H : along handlers_pass too_late db = true) by (vm_compute; reflexivity).
  intros o Ho. exact (@order_ends_once text_uuid named_ids _ too_late H0 H first_order o Ho).
Defined.

(** An exchange that is unwound between a resume's lookup and its bind is bound afresh,
    without a basis. *)
Definition unwound_and_resumed : list (time * CommerceRequest) :=
  sale "res2" "k2" "hold2" "guest2" 1000 2000 ++
  [(14, OpBindExchange other_type); (16, OpRecordBasis "org"%string exchange_id same_price);
   (17, OpUnwind "org"%string exchange_id "stuck" false); (18, OpBindExchange other_type)].

Example resume_binds_after_an_unwind :
  let db := run unwound_and_resumed no_commerce in
  (ex_Basis <$> cm_Exchanges db !! ("org"%string, exchange_id), bool_decide (is_Some (cm_Unwinds db !! ("org"%string, exchange_id)))) = (Some None, true).
Proof. vm_compute. reflexivity. Qed.

(** The order of [order_day]'s replacement is exchanged in turn. *)
Definition exchange_again : string := ExchangeID "org"%string "x2".
Definition another_type : ExchangeRequest := {|
  xq_SourceOrderID := replacementOrderID exchange_id; xq_OrganizerID := "org"%string; xq_TargetTicketTypeID := "type3"%string;
  xq_IdempotencyKey := "x2"; xq_Actor := "staff"; xq_Reason := "moved" |}.
Definition same_price_again : ExchangeBasis := {|
  bs_TargetHoldID := "hold4"%string; bs_ReplacementReservationID := replacementReservationID exchange_again; bs_TargetSlotID := "slot3"%string;
  bs_TargetTotal := 2000; bs_DeltaAmount := 0; bs_TargetUnitAmount := 1000 |}.
Definition rebound (db : CommerceDB) : list (time * CommerceRequest) :=
  match BindOrderExchange 31 another_type db with
  | Ok (_, x) => [(33, OpReplacementReservation x same_price_again 2000); (34, OpReplacementOrder x same_price_again)]
  | Err _ => []
  end.
Definition exchanged_twice : list (time * CommerceRequest) :=
  order_day ++ [(30, OpBindExchange another_type); (32, OpRecordBasis "org"%string exchange_again same_price_again)] ++
  rebound (run (order_day ++ [(30, OpBindExchange another_type)]) no_commerce) ++
  [(35, OpSettle "org"%string exchange_again (replacementOrderID exchange_again))].

(** Its event names no guest reference, since a replacement has none. *)
Example second_exchange_names_nobody :
  match cm_Outbox (run exchanged_twice no_commerce) !! ExchangedEventID exchange_again with
  | Some m => match ev_Data (ob_Envelope m) with OrderExchangedEvent d => ox_GuestOrderRef d = uuid_Nil | _ => False end
  | None => False
  end.
Proof. vm_compute. reflexivity. Qed.
