(* ===== verification/OrderLeases.v ===== *)
(** * The leases of commerce's queues

    A claim hands an order, a refund or an exchange to one worker: while its lease
    runs, no other claim hands it out and no request of another claim changes the
    lease. *)

From S2P Require Import Prelude Text Format Sha256 Tables Lifecycle Orders Reversals OrderMoves OrderSafety.
#[local] Open Scope Z_scope.

Section Claims.
Context `{UU : UUID} `{US : !UUIDSource}.
Implicit Types (db : CommerceDB) (o : OrderRow) (r : ReservationRow).

(** ** Leases *)

(** A lease that is another's is as it was, in each of the three queues. *)
Record leases_left (clock : time) (who : option uuid) db db' : Prop := {
  ll_order k o : cm_Orders db !! k = Some o →
    ∃ o', cm_Orders db' !! k = Some o' ∧ lease_step clock who (or_Recovery o) (or_Recovery o');
  ll_refund key x : cm_Refunds db !! key = Some x →
    ∃ x', cm_Refunds db' !! key = Some x' ∧ lease_step clock who (rf_Reversal x) (rf_Reversal x');
  ll_exchange key x : cm_Exchanges db !! key = Some x → is_Some (ex_Settlement x) →
    ∃ x', cm_Exchanges db' !! key = Some x' ∧ is_Some (ex_Settlement x') ∧ lease_step clock who (ex_Reversal x) (ex_Reversal x');
}.

Lemma leases_left_same clock who db db' : cm_Orders db' = cm_Orders db → cm_Refunds db' = cm_Refunds db → cm_Exchanges db' = cm_Exchanges db →
  leases_left clock who db db'.
Proof. intros Ho Hf He. split; [intros k o ?; exists o; by rewrite Ho|intros k x ?; exists x; by rewrite Hf|intros k x ? ?; exists x; by rewrite He]. Qed.

Lemma leases_left_trans clock who db1 db2 db3 : leases_left clock who db1 db2 → leases_left clock who db2 db3 → leases_left clock who db1 db3.
Proof.
  intros [O1 F1 E1] [O2 F2 E2]. split.
  - intros k o Ho. destruct (O1 _ _ Ho) as (o2 & Ho2 & H12). destruct (O2 _ _ Ho2) as (o3 & Ho3 & H23). exists o3.
    split; [done|by eapply lease_step_trans].
  - intros k x Hx. destruct (F1 _ _ Hx) as (x2 & Hx2 & H12). destruct (F2 _ _ Hx2) as (x3 & Hx3 & H23). exists x3.
    split; [done|by eapply lease_step_trans].
  - intros k x Hx Hs. destruct (E1 _ _ Hx Hs) as (x2 & Hx2 & Hs2 & H12). destruct (E2 _ _ Hx2 Hs2) as (x3 & Hx3 & Hs3 & H23). exists x3.
    split_and!; [done|done|by eapply lease_step_trans].
Qed.

(** A table in which one row was added or changed under its lease. *)
Lemma insert_kept_lease {K R} `{Countable K} (lease : R → Lease) clock who (m : gmap K R) k x' j x :
  (∀ x, m !! k = Some x → lease x' = lease x) → m !! j = Some x →
  ∃ y, <[k := x']> m !! j = Some y ∧ lease_step clock who (lease x) (lease y).
Proof.
  intros Hl Hx. destruct (decide (j = k)) as [->|].
  - exists x'. rewrite lookup_insert_eq, (Hl _ Hx). done.
  - exists x. by rewrite lookup_insert_ne.
Qed.

Lemma move_leases clock who db db' : move clock who db db' → leases_left clock who db db'.
Proof.
  intros Hm. destruct Hm as [db' Hq|k r Hn Hh Hq|now k reservation st key fp Hn Hr Ho Hst|now at_ k o r ref [Hl Hlr] Hs Hno|org id x o r Hn|
    now org id x o r fact Hx Hcp [Hl Hlr]|key x o r Hn|org id x o r Hn _ _ _ _ _ Hset|now org id x replacement m e Hx Hs x' db'' Hm|org id x u Hx Hset];
    try by apply leases_left_same.
  - split.
    + intros k o Ho. destruct (evolves_at _ _ _ _ _ (qt_orders _ _ _ _ Hq) Ho) as (o' & Ho' & st & out & l & t & -> & _ & _ & Hl).
      eexists. split; [exact Ho'|exact Hl].
    + intros k x Hx. destruct (evolves_at _ _ _ _ _ (qt_refunds _ _ _ _ Hq) Hx) as (x' & Hx' & v & w & l & -> & _ & Hl).
      eexists. split; [exact Hx'|exact Hl].
    + intros k x Hx Hs. destruct (evolves_at _ _ _ _ _ (qt_exchanges _ _ _ _ Hq) Hx) as (x' & Hx' & b & t & v & w & l & -> & _ & _ & _ & Hl).
      eexists. split_and!; [exact Hx'|exact Hs|exact Hl].
  - split; [|intros j y Hy; by exists y|intros j y Hy ?; by exists y].
    intros j y Hy. apply insert_kept_lease; [|done]. intros z Hz. congruence.
  - split; [|intros j y Hy; by exists y|intros j y Hy ?; by exists y].
    intros j y Hy. apply insert_kept_lease; [|done]. intros z Hz. by simplify_eq.
  - split; [intros j y Hy; by exists y| |intros j y Hy ?; by exists y].
    intros j y Hy. apply insert_kept_lease; [|done]. intros z Hz. congruence.
  - split; [| |intros j y Hy ?; by exists y].
    + intros j y Hy. apply insert_kept_lease; [|done]. intros z Hz. by simplify_eq.
    + intros j y Hy. apply insert_kept_lease; [|done]. intros z Hz. by simplify_eq.
  - split; [intros j y Hy; by exists y|intros j y Hy; by exists y|]. intros j y Hy Hs. exists y.
    split_and!; [|done|done]. cbn. rewrite lookup_insert_ne by congruence. done.
  - split; [intros j y Hy; by exists y|intros j y Hy; by exists y|]. intros j y Hy Hsy. exists y.
    split_and!; [|done|done]. cbn. rewrite lookup_insert_ne; [done|]. intros <-. rewrite Hx in Hy. simplify_eq. rewrite Hs in Hsy. by destruct Hsy.
  - split; [intros j y Hy; by exists y|intros j y Hy; by exists y|]. intros j y Hy Hsy. exists y.
    split_and!; [|done|done]. cbn. rewrite lookup_delete_ne; [done|]. intros <-. rewrite Hx in Hy. simplify_eq. rewrite Hset in Hsy. by destruct Hsy.
Qed.

Lemma leases_left_moves clock who db db' : rtc (move clock who) db db' → leases_left clock who db db'.
Proof.
  induction 1 as [db|x y z Hxy _ IH]; [by apply leases_left_same|]. eapply leases_left_trans; [by apply move_leases|done].
Qed.

Lemma leases_left_owe clock who now k e db db' : owe now k e db = Ok db' → leases_left clock who db db'.
Proof. intros [(x & _ & _ & ->)|[_ ->]]%owe_moves; by apply leases_left_same. Qed.

Lemma leases_perform now q db : handlers_pass q db = true → Kept db →
  leases_left (latest_clock now q) (claim_named q) db (perform now q db).
Proof.
  intros Hp Hk. destruct (sends q) eqn:Es.
  2: { apply leases_left_moves. by apply request_moves; [apply Hk|apply Hk|..]. }
  destruct q; try discriminate Es; cbn [perform latest_clock claim_named].
  - destruct (CompleteOrder now at_ c candidate db) as [[db' ref]|e] eqn:E; [|by apply leases_left_same]. cbn.
    destruct (CompleteOrder_shape _ _ _ _ _ _ _ Hp E) as [->|(o & r & Hl & Hs & Hc & Hw)]; [by apply leases_left_same|].
    eapply leases_left_trans; [|by eapply leases_left_owe].
    split; [|intros j y Hy; by exists y|intros j y Hy ?; by exists y].
    intros j y Hy. apply insert_kept_lease; [|done]. intros z Hz. rewrite (proj1 Hl) in Hz. by simplify_eq.
  - destruct (backfill_outbox db) as [m ->]. by apply leases_left_same.
  - destruct (CompleteExchangeSettlement now org id replacement db) as [db'|e] eqn:E; [|by apply leases_left_same]. cbn.
    destruct (settlement_shape _ _ _ _ _ _ E) as [->|(row & Hrow & [(k & at_ & d & db1 & _ & -> & _ & Hw)|(Hs & d & Hd & Hw)])];
      [by apply leases_left_same|by eapply leases_left_owe|]. eapply leases_left_trans; [|by eapply leases_left_owe].
    split; [intros j y Hy; by exists y|intros j y Hy; by exists y|]. intros j y Hy Hsy. exists y.
    split_and!; [|done|done]. cbn. rewrite lookup_insert_ne; [done|]. intros <-. rewrite Hrow in Hy. simplify_eq. rewrite Hs in Hsy. by destruct Hsy.
Qed.

(** A lease of the claim [c] until [t]. *)
Definition leased (c : uuid) (t : time) (l : Lease) : Prop := ls_ClaimID l = Some c ∧ ls_Until l = Some t ∧ ls_ParkedAt l = None.

(** A run before [t] none of whose requests is of the claim [c]. *)
Definition others_until (c : uuid) (t : time) (l : list (time * CommerceRequest)) : bool :=
  forallb (λ e, (latest_clock e.1 e.2 <? t) && negb (bool_decide (claim_named e.2 = Some c))) l.

Lemma leased_step clock who c t l l' : leased c t l → clock < t → who ≠ Some c → lease_step clock who l l' → leased c t l'.
Proof.
  intros (Hc & Ht & Hp) Hlt Hw Hs. destruct Hs as (E1 & E2 & E3); [split; [done|by exists c, t]|]. unfold leased. by rewrite E1, E2, E3.
Qed.

Lemma leased_due c t l now : leased c t l → now < t → due now l = false.
Proof. intros (_ & Hu & _) Hlt. unfold due. rewrite Hu. destruct (t <=? now) eqn:E; [zbool; lia|]. by rewrite andb_false_r. Qed.

Record leases_held (c : uuid) (t : time) db db' : Prop := {
  lh_order k o : cm_Orders db !! k = Some o → leased c t (or_Recovery o) → ∃ o', cm_Orders db' !! k = Some o' ∧ leased c t (or_Recovery o');
  lh_refund key x : cm_Refunds db !! key = Some x → leased c t (rf_Reversal x) → ∃ x', cm_Refunds db' !! key = Some x' ∧ leased c t (rf_Reversal x');
  lh_exchange key x : cm_Exchanges db !! key = Some x → is_Some (ex_Settlement x) → leased c t (ex_Reversal x) →
    ∃ x', cm_Exchanges db' !! key = Some x' ∧ is_Some (ex_Settlement x') ∧ leased c t (ex_Reversal x');
}.

Lemma held_run c t l db : along handlers_pass l db = true → Kept db → others_until c t l = true → leases_held c t db (run l db).
Proof.
  revert db. induction l as [|[now q] l IH]; intros db Ha Hk Ho; [by split; eauto|]. cbn in *. zbool.
  destruct (IH (perform now q db)) as [O2 F2 E2]; [done|by apply kept_perform|done|].
  destruct (leases_perform now q db) as [O1 F1 E1]; [done|done|]. split.
  - intros k o Hko Hl. destruct (O1 _ _ Hko) as (o' & Ho' & Hs). apply (O2 k o' Ho'). by eapply leased_step.
  - intros k x Hx Hl. destruct (F1 _ _ Hx) as (x' & Hx' & Hs). apply (F2 k x' Hx'). by eapply leased_step.
  - intros k x Hx Hset Hl. destruct (E1 _ _ Hx Hset) as (x' & Hx' & Hset' & Hs). apply (E2 k x' Hx' Hset'). by eapply leased_step.
Qed.

Lemma picked_lookup {K R} `{Countable K} (f : R → R) (l : list (K * R)) (m : gmap K R) k x :
  NoDup (map fst l) → (k, x) ∈ l → (list_to_map (map (λ kx, (kx.1, f kx.2)) l) ∪ m) !! k = Some (f x).
Proof.
  intros Hnd Hin. apply lookup_union_Some_l, elem_of_list_to_map_1.
  - change (NoDup (map fst (map (λ kx : K * R, (kx.1, f kx.2)) l))). by rewrite map_map.
  - apply list_elem_of_fmap. by exists (k, x).
Qed.

Lemma claimed_order_leased now locked n lease c db s : s ∈ (ClaimStuckOrders now locked n lease c db).2 →
  ∃ o, cm_Orders (ClaimStuckOrders now locked n lease c db).1 !! so_OrderID s = Some o ∧ leased c (now + lease) (or_Recovery o).
Proof.
  unfold ClaimStuckOrders. cbn [fst snd cm_Orders with_orders]. intros ([k o'] & Hin & Hs)%list_elem_of_omap.
  apply list_elem_of_fmap in Hin as ([k' o] & [= -> ->] & Hin). unfold stuck_order in Hs. cbn in Hs.
  destruct (cm_Reservations db !! or_ReservationID o); [|done]. cbn in Hs. injection Hs as <-. cbn.
  exists (claim_order now lease c o). split.
  - apply picked_lookup; [apply NoDup_longest_due|done].
  - apply elem_of_longest_due in Hin as (_ & Hd & _). unfold stuck, due in Hd. zbool. repeat split; cbn. by destruct (ls_ParkedAt _).
Qed.

Lemma claimed_order_stuck now locked n lease c db s : s ∈ (ClaimStuckOrders now locked n lease c db).2 →
  ∃ o, cm_Orders db !! so_OrderID s = Some o ∧ due now (or_Recovery o) = true.
Proof.
  unfold ClaimStuckOrders. cbn [fst snd]. intros ([k o'] & Hin & Hs)%list_elem_of_omap.
  apply list_elem_of_fmap in Hin as ([k' o] & [= -> ->] & Hin). unfold stuck_order in Hs. cbn in Hs.
  destruct (cm_Reservations db !! or_ReservationID o); [|done]. cbn in Hs. injection Hs as <-. cbn.
  apply elem_of_longest_due in Hin as (Ho & Hd & _). exists o. split; [done|]. unfold stuck in Hd. by zbool.
Qed.

(** The keys of a refund and of an exchange that a queue hands out. *)
Definition refund_key (x : ClaimedReversal) : uuid * uuid := (rv_OrganizerID (cr_Refund x), rv_OperationID (cr_Refund x)).
Definition exchange_key (x : ClaimedExchangeReversal) : uuid * uuid := (es_OrganizerID (ce_Exchange x), es_ID (ce_Exchange x)).

Lemma claimed_refund_row now locked n lease c db s : s ∈ (ClaimOutstandingReversals now locked n lease c db).2 →
  ∃ x, cm_Refunds db !! refund_key s = Some x ∧ due now (rf_Reversal x) = true ∧
    cm_Refunds (ClaimOutstandingReversals now locked n lease c db).1 !! refund_key s = Some (lease_refund now lease c x) ∧
    leased c (now + lease) (rf_Reversal (lease_refund now lease c x)).
Proof.
  unfold ClaimOutstandingReversals. cbn [fst snd cm_Refunds with_refunds]. intros ([[org id] x'] & Hin & Hs)%list_elem_of_omap.
  apply list_elem_of_fmap in Hin as ([k' x] & [= <- ->] & Hin). unfold claimed_refund in Hs. cbn in Hs.
  destruct (order_line _ _ db) as [[o r]|]; [|done]. injection Hs as <-. cbn. exists x.
  pose proof Hin as (Hx & Hd & _)%elem_of_longest_due. unfold owed_refund in Hd. cbn in Hd. zbool.
  split_and!; [done|done|apply picked_lookup; [apply NoDup_longest_due|done]|].
  repeat split; cbn. unfold due in *. zbool. by destruct (ls_ParkedAt _).
Qed.

Lemma claimed_exchange_row now locked n lease c db s : s ∈ (ClaimOutstandingExchangeReversals now locked n lease c db).2 →
  ∃ x, cm_Exchanges db !! exchange_key s = Some x ∧ due now (ex_Reversal x) = true ∧ is_Some (ex_Settlement x) ∧
    cm_Exchanges (ClaimOutstandingExchangeReversals now locked n lease c db).1 !! exchange_key s =
      Some (set_exchange_reversal (take_lease now lease c (ex_Reversal x)) x) ∧ leased c (now + lease) (take_lease now lease c (ex_Reversal x)).
Proof.
  unfold ClaimOutstandingExchangeReversals. cbn [fst snd cm_Exchanges with_exchanges]. intros ([[org id] x'] & Hin & Hs)%list_elem_of_omap.
  apply list_elem_of_fmap in Hin as ([k' x] & [= <- ->] & Hin). unfold claimed_exchange in Hs. cbn in Hs.
  destruct (order_line _ _ db) as [[o r]|]; [|done]. injection Hs as <-. cbn. exists x.
  pose proof Hin as (Hx & Hd & _)%elem_of_longest_due. unfold owed_exchange in Hd. cbn in Hd. zbool.
  split_and!; [done|done|by destruct (ex_Settlement x)|apply (picked_lookup (λ x, set_exchange_reversal (take_lease now lease c (ex_Reversal x)) x)); [apply NoDup_longest_due|done]|].
  repeat split; cbn. unfold due in *. zbool. by destruct (ls_ParkedAt _).
Qed.

(** C19 (safety). No two workers hold a row at once. Whatever ran before, and whatever
    runs while the lease lasts, on any connections and without naming the claim: what
    was claimed of the stuck orders, of the owed refunds or of the owed exchanges is
    in no batch that another claim is given before the lease ends. *)
Theorem claims_never_overlap l0 l now now' lease lease' c c' n n' (Hl0 : along handlers_pass l0 no_commerce = true)
    (Hnow : now' < now + lease) (Hl : others_until c (now + lease) l = true) :
  let db := run l0 no_commerce in
  (∀ locked locked' s s', let p := ClaimStuckOrders now locked n lease c db in along handlers_pass l p.1 = true →
     s ∈ p.2 → s' ∈ (ClaimStuckOrders now' locked' n' lease' c' (run l p.1)).2 → so_OrderID s' ≠ so_OrderID s) ∧
  (∀ locked locked' s s', let p := ClaimOutstandingReversals now locked n lease c db in along handlers_pass l p.1 = true →
     s ∈ p.2 → s' ∈ (ClaimOutstandingReversals now' locked' n' lease' c' (run l p.1)).2 → refund_key s' ≠ refund_key s) ∧
  (∀ locked locked' s s', let p := ClaimOutstandingExchangeReversals now locked n lease c db in along handlers_pass l p.1 = true →
     s ∈ p.2 → s' ∈ (ClaimOutstandingExchangeReversals now' locked' n' lease' c' (run l p.1)).2 → exchange_key s' ≠ exchange_key s).
Proof.
  intros db. pose proof (kept_run l0 no_commerce Hl0 kept_empty) as Hk. fold db in Hk. split_and!; intros locked locked' s s' p Ha Hs Hs' He.
  - assert (Hp : Kept p.1) by by apply (kept_perform now (OpClaimStuck locked n lease c)).
    destruct (claimed_order_leased _ _ _ _ _ _ _ Hs) as (o & Ho & Hlo). fold p in Ho.
    destruct (lh_order _ _ _ _ (held_run _ _ l p.1 Ha Hp Hl) _ _ Ho Hlo) as (o' & Ho' & Hlo').
    destruct (claimed_order_stuck _ _ _ _ _ _ _ Hs') as (o2 & Ho2 & Hd). rewrite He in Ho2. simplify_eq.
    by rewrite (leased_due _ _ _ _ Hlo' Hnow) in Hd.
  - assert (Hp : Kept p.1) by by apply (kept_perform now (OpClaimReversals locked n lease c)).
    destruct (claimed_refund_row _ _ _ _ _ _ _ Hs) as (x & _ & _ & Hx & Hlx). fold p in Hx.
    destruct (lh_refund _ _ _ _ (held_run _ _ l p.1 Ha Hp Hl) _ _ Hx Hlx) as (x' & Hx' & Hlx').
    destruct (claimed_refund_row _ _ _ _ _ _ _ Hs') as (x2 & Hx2 & Hd & _). rewrite He in Hx2. simplify_eq.
    by rewrite (leased_due _ _ _ _ Hlx' Hnow) in Hd.
  - assert (Hp : Kept p.1) by by apply (kept_perform now (OpClaimExchangeReversals locked n lease c)).
    destruct (claimed_exchange_row _ _ _ _ _ _ _ Hs) as (x & _ & _ & Hset & Hx & Hlx). fold p in Hx.
    destruct (lh_exchange _ _ _ _ (held_run _ _ l p.1 Ha Hp Hl) _ _ Hx Hset Hlx) as (x' & Hx' & _ & Hlx').
    destruct (claimed_exchange_row _ _ _ _ _ _ _ Hs') as (x2 & Hx2 & Hd & _). rewrite He in Hx2. simplify_eq.
    by rewrite (leased_due _ _ _ _ Hlx' Hnow) in Hd.
Qed.
End Claims.

(** ** Witness *)

#[local] Existing Instance text_uuid.
#[local] Existing Instance named_ids.

(** A checkout that stopped half-way, claimed by "c1" for a minute; "c2" tries before the end. *)
Definition left_behind : list (time * CommerceRequest) := take 3 (sale "res1" "k1" "hold1" "guest1" 1000 2100).
Definition meanwhile : list (time * CommerceRequest) :=
  [(seconds 210, OpClaimStuck (λ _, false) 10 (seconds 60) "c2"%string); (seconds 215, OpReleaseStuck first_order "c2"%string "slow")].

Lemma claims_never_overlap_witness :
  let p := ClaimStuckOrders (seconds 200) (λ _, false) 10 (seconds 60) "c1"%string (run left_behind no_commerce) in
  map so_OrderID p.2 = [first_order] ∧
  (∀ s s', s ∈ p.2 → s' ∈ (ClaimStuckOrders (seconds 250) (λ _, false) 10 (seconds 60) "c2"%string (run meanwhile p.1)).2 →
     so_OrderID s' ≠ so_OrderID s).
Proof.
  intros p. split; [vm_compute; reflexivity|].
  assert (H0 : along handlers_pass left_behind no_commerce = true) by (vm_compute; reflexivity).
  assert (H1 : seconds 250 < seconds 200 + seconds 60) by (vm_compute; reflexivity).
  assert (H2 : others_until "c1"%string (seconds 200 + seconds 60) meanwhile = true) by (vm_compute; reflexivity).
  assert (H3 : along handlers_pass meanwhile p.1 = true) by (vm_compute; reflexivity).
  intros s s'. exact (proj1 (@claims_never_overlap text_uuid named_ids left_behind meanwhile (seconds 200) (seconds 250) (seconds 60) (seconds 60)
    "c1"%string "c2"%string 10 10 H0 H1 H2) (λ _, false) (λ _, false) s s' H3).
Defined.
