(* ===== verification/SalePlan.v ===== *)
(** * The plan a checkout sends with its charge

    [services/commerce/internal/api/catalog_fees.go]: the fee snapshot that a
    reservation stores, and the settlement plan that checkout builds from it, which
    payments turns into ledger lines ([Settlement]) by way of its own request type
    ([PaymentFlows]). The two services meet here: what commerce computed from a
    validated quote is what payments accepts. Payee ids are uuids on the wire. *)

From S2P Require Import Prelude Text Allocation Settlement PaymentFlows Composition.
#[local] Open Scope Z_scope.

Section SalePlan.
Context `{UU : UUID}.

(** ** The snapshot *)

(** What the code reads back of [feeSnapshotEnvelope]: commerce's arithmetic, and of
    catalog's document each fee code with the parts of its split, if it has one. *)
Record FeeSnapshot := {
  fs_Breakdown : list feeBreakdownItem; fs_PassedOnFees : Z; fs_AbsorbedFees : Z;
  fs_Splits : list (string * option (list planPart)) }.

Inductive StoredSnapshot := NoSnapshot | UnreadableSnapshot | StoredFees (f : FeeSnapshot).

Definition feeSnapshotEnvelope (splits : list (string * option (list planPart))) (c : feeComposition) : FeeSnapshot := {|
  fs_Breakdown := cp_Items c; fs_PassedOnFees := cp_PassedOnTotal c; fs_AbsorbedFees := cp_AbsorbedTotal c; fs_Splits := splits |}.

(** ** The plan *)

Definition splitByCode (splits : list (string * option (list planPart))) : gmap string (list planPart) :=
  fold_left (λ m f, match f.2 with Some parts => <[f.1 := parts]> m | None => m end) splits ∅.

Definition plan_fee (m : gmap string (list planPart)) (b : feeBreakdownItem) : planFee := {|
  pf_FeeCode := fb_FeeCode b; pf_Incidence := fb_Incidence b; pf_Amount := fb_Amount b; pf_Currency := fb_Currency b;
  pf_Parts := default [] (m !! fb_FeeCode b) |}.

Definition settlementPlanFromSnapshot (face amount : Z) (currency : string) (snapshot : StoredSnapshot)
    : result SaleError settlementPlanRequest :=
  match snapshot with
  | NoSnapshot =>
      if negb (face =? amount) then Err (errResolveUnusable "reservation charged over its face with no fee snapshot")
      else Ok {| pr_FaceValue := face; pr_PassedOn := 0; pr_Absorbed := 0; pr_TotalAmount := amount; pr_Currency := currency; pr_Fees := [] |}
  | UnreadableSnapshot => Err (errResolveUnusable "fee snapshot is unreadable")
  | StoredFees s =>
      Ok {| pr_FaceValue := face; pr_PassedOn := fs_PassedOnFees s; pr_Absorbed := fs_AbsorbedFees s; pr_TotalAmount := amount;
            pr_Currency := currency; pr_Fees := map (plan_fee (splitByCode (fs_Splits s))) (fs_Breakdown s) |}
  end.

(** ** What payments makes of it *)

(** The parts of a split that catalog adjudicated. *)
Definition sound_parts (parts : list planPart) : Prop :=
  let shares := map (λ q, {| sh_PayeeID := pp_PayeeID q; sh_ShareBps := pp_ShareBps q |}) parts in
  parts = [] ∨ ValidShares shares ∧ addressable shares.

Definition sound_splits (splits : list (string * option (list planPart))) : Prop := ∀ code parts, (code, Some parts) ∈ splits → sound_parts parts.

Lemma splitByCode_sound splits code : sound_splits splits → sound_parts (default [] (splitByCode splits !! code)).
Proof.
  intros Hs. unfold splitByCode.
  assert (H : ∀ m : gmap string (list planPart), (∀ k parts, m !! k = Some parts → sound_parts parts) →
    ∀ k parts, fold_left (λ m (f : string * option (list planPart)), match f.2 with Some p => <[f.1 := p]> m | None => m end) splits m !! k = Some parts →
    sound_parts parts).
  { induction splits as [|[c [p|]] l IH]; intros m Hm; cbn; [exact Hm| |].
    - apply IH; [intros c' p' Hin; apply (Hs c'); by right|]. intros k parts. destruct (decide (c = k)) as [->|].
      + rewrite lookup_insert_eq. intros [= <-]. apply (Hs k). left.
      + rewrite lookup_insert_ne by done. apply Hm.
    - apply IH; [intros c' p' Hin; apply (Hs c'); by right|exact Hm]. }
  destruct (fold_left _ _ _ !! code) as [parts|] eqn:E; [|by left]. exact (H ∅ (λ k p Hk, ltac:(by rewrite lookup_empty in Hk)) code parts E).
Qed.

Lemma named_payees (parts : list planPart) (q : planPart) : q ∈ parts →
  is_Some (fold_left (λ (m : gmap uuid PayeeRef) p, <[pp_PayeeID p := part_payee p]> m) parts ∅ !! pp_PayeeID q).
Proof.
  assert (H : ∀ (m : gmap uuid PayeeRef), q ∈ parts ∨ is_Some (m !! pp_PayeeID q) →
    is_Some (fold_left (λ m p, <[pp_PayeeID p := part_payee p]> m) parts m !! pp_PayeeID q)).
  { induction parts as [|p l IH]; intros m Hq; cbn; [by destruct Hq as [Hq|Hq]; [apply elem_of_nil in Hq|]|].
    apply IH. destruct (decide (pp_PayeeID p = pp_PayeeID q)) as [E|E].
    - right. rewrite E, lookup_insert_eq. by eexists.
    - destruct Hq as [[->|Hq]%elem_of_cons|Hq]; [done|by left|right]. by rewrite lookup_insert_ne. }
  intros Hq. apply H. by left.
Qed.

Definition store_line (m : gmap string (list planPart)) (b : feeBreakdownItem) : FeeLine := {|
  fl_FeeCode := fb_FeeCode b; fl_Incidence := fb_Incidence b; fl_Amount := fb_Amount b; fl_Currency := fb_Currency b;
  fl_Shares := map (λ q, {| sh_PayeeID := pp_PayeeID q; sh_ShareBps := pp_ShareBps q |}) (default [] (m !! fb_FeeCode b));
  fl_Payees := fold_left (λ m q, <[pp_PayeeID q := part_payee q]> m) (default [] (m !! fb_FeeCode b)) ∅ |}.

Lemma store_lines (face total passed absorbed : Z) cur m items :
  sp_Fees (toStorePlan {| pr_FaceValue := face; pr_PassedOn := passed; pr_Absorbed := absorbed; pr_TotalAmount := total;
    pr_Currency := cur; pr_Fees := map (plan_fee m) items |}) = map (store_line m) items.
Proof. cbn. rewrite map_map. by apply map_ext. Qed.

Lemma charged_borne m inc items : charged inc (map (store_line m) items) = borne inc items.
Proof.
  unfold charged, borne. induction items as [|b items IH]; [done|]. cbn [map List.filter store_line fl_Incidence]. unfold seqb at 1.
  destruct (bool_decide (fb_Incidence b = inc)); cbn [map sumZ store_line fl_Amount]; by rewrite IH.
Qed.

(** The item of a rule that was charged. *)
Lemma charged_item face q cur w a : 0 ≤ q → Charged face q cur w a →
  fb_Currency (breakdownItem w a) = cur ∧ 0 ≤ fb_Amount (breakdownItem w a) ∧
  (fb_Incidence (breakdownItem w a) = "passed_on"%string ∨ fb_Incidence (breakdownItem w a) = "absorbed"%string).
Proof. intros Hq (Hc & He & Hk). split_and!; [done|by apply exactFee_nonneg in He|exact Hk]. Qed.

Lemma charged_all face q cur ws amounts : 0 ≤ q → Forall2 (Charged face q cur) ws amounts →
  Forall (λ b, fb_Currency b = cur ∧ 0 ≤ fb_Amount b ∧ (fb_Incidence b = "passed_on"%string ∨ fb_Incidence b = "absorbed"%string))
    (zip_with breakdownItem ws amounts).
Proof. intros Hq. induction 1 as [|w a ws l Hwa _ IH]; constructor; [exact (charged_item _ _ _ _ _ Hq Hwa)|exact IH]. Qed.

Lemma item_codes ws amounts : length ws = length amounts → map fb_FeeCode (zip_with breakdownItem ws amounts) = map rf_FeeCode ws.
Proof. revert amounts. induction ws as [|w ws IH]; intros [|a l] H; try done. cbn. f_equal. apply IH. by injection H. Qed.

Lemma borne_total items : Forall (λ b, fb_Incidence b = "passed_on"%string ∨ fb_Incidence b = "absorbed"%string) items →
  sumZ (map fb_Amount items) = borne incidencePassedOn items + borne incidenceAbsorbed items.
Proof.
  induction 1 as [|b items Hb _ IH]; [done|]. unfold borne in *. cbn [map sumZ List.filter]. unfold seqb, incidencePassedOn, incidenceAbsorbed in *.
  destruct Hb as [-> | ->]; repeat case_bool_decide; try discriminate; try done; cbn [map sumZ]; lia.
Qed.

(** The winners of a validated resolution carry their entries' codes. *)
Lemma winner_codes seen fees : checkFeeCodes seen fees = Ok tt →
  map rf_FeeCode (winners fees) `sublist_of` map rc_FeeCode fees ∧ Forall (λ c, c ≠ ""%string) (map rf_FeeCode (winners fees)).
Proof.
  revert seen. induction fees as [|c fees IH]; intros seen; cbn; [by split|].
  intros ([] & He & ([] & _ & ([] & Hw & Hrest)%bind_Ok)%bind_Ok)%bind_Ok.
  apply refuse_if_Ok, bool_decide_eq_false in He. destruct (IH _ Hrest) as [Hs Hne]. unfold winners in *. cbn.
  destruct (rc_Winner c) as [w|]; cbn; [|split; [by constructor|done]].
  unfold checkFeeWinner in Hw. apply bind_Ok in Hw as ([] & Hc & _). apply refuse_if_Ok, negb_false_iff, seqb_true in Hc.
  rewrite Hc. split; by constructor.
Qed.

Lemma validated_codes f org perf ch : feeResolution_validate f org perf ch = Ok tt →
  NoDup (map rf_FeeCode (winners (fz_Fees f))) ∧ Forall (λ c, c ≠ ""%string) (map rf_FeeCode (winners (fz_Fees f))).
Proof.
  intros H. destruct (feeResolution_validate_Ok _ _ _ _ H) as [_ Hnd]. unfold feeResolution_validate in H.
  repeat match type of H with (_ ≫= _) = Ok _ => apply bind_Ok in H as (? & _ & H) end.
  destruct (winner_codes _ _ H) as [Hs Hne]. split; [|done]. by eapply sublist_NoDup.
Qed.

Lemma chargeAfterHold_Ok p f q c : chargeAfterHold p f q = Ok c →
  ch_FaceValue c = priceResolution_total p q ∧
  computeFeeBreakdown (fz_Fees f) (rm_Amount (pz_ResolvedPrice p)) q (rm_Currency (pz_ResolvedPrice p)) = Ok (ch_Composition c) ∧
  composedTotal (ch_FaceValue c) (cp_PassedOnTotal (ch_Composition c)) = Ok (ch_Total c).
Proof.
  unfold chargeAfterHold, refuse. destruct (computeFeeBreakdown _ _ _ _) as [o|] eqn:Eo; [|done].
  destruct (composedTotal _ _) as [t|] eqn:Et; [|done]. by intros [= <-].
Qed.

(** What a charge of a validated quote consists of. *)
Lemma charged_for pa fa org units ch p f q c : int32 units → answers_typed p f →
  quoteBeforeHold pa fa org units ch = Ok (p, f) → 1 ≤ q ≤ units → chargeAfterHold p f q = Ok c →
  rm_Currency (pz_ResolvedPrice p) = "EUR"%string ∧ 0 ≤ rm_Amount (pz_ResolvedPrice p) ∧
  ch_FaceValue c = rm_Amount (pz_ResolvedPrice p) * q ∧ ch_Total c = ch_FaceValue c + cp_PassedOnTotal (ch_Composition c) ∧
  0 ≤ ch_FaceValue c ≤ ch_Total c ∧ ch_Total c ≤ MaxInt64 ∧
  ∃ amounts, Forall2 (Charged (rm_Amount (pz_ResolvedPrice p)) q "EUR") (winners (fz_Fees f)) amounts ∧
    ch_Composition c = composition_of (zip_with breakdownItem (winners (fz_Fees f)) amounts).
Proof.
  intros Hu [Hp Hf] (Hvp & _)%quote_Ok Hq (Hface & Ho & Htot)%chargeAfterHold_Ok.
  destruct (validated_price _ _ _ _ Hu Hvp) as (_ & Hp0 & Hmax & Heur). rewrite Heur in Ho.
  assert (Hq32 : int32 q) by (unfold int32, MinInt32 in *; lia).
  assert (H64 : 0 ≤ rm_Amount (pz_ResolvedPrice p) * q ≤ MaxInt64) by nia. apply int64_nonneg in H64 as Hi.
  unfold priceResolution_total in Hface. rewrite mul64_id in Hface by done.
  apply computeFeeBreakdown_Ok in Ho as (_ & amounts & Hall & Hcomp & Hpm & _); [|done..].
  pose proof (borne_nonneg incidencePassedOn _ (charged_items_nonneg _ q _ _ _ ltac:(lia) Hall)) as Hpos.
  assert (Hb : 0 ≤ cp_PassedOnTotal (ch_Composition c)) by (by rewrite Hcomp).
  unfold composedTotal in Htot. apply checkedAdd_Ok in Htot as (_ & _ & ? & ?); [|by rewrite Hface|apply int64_nonneg; lia].
  split_and!; try done; [lia|lia|lia|]. by exists amounts.
Qed.

(** A fee line of the plan that payments can attribute. *)
Lemma line_settleable m cur b : (∀ code, sound_parts (default [] (m !! code))) →
  fb_Currency b = cur → 0 ≤ fb_Amount b → (fb_Incidence b = "passed_on"%string ∨ fb_Incidence b = "absorbed"%string) →
  SettleableFee cur (store_line m b) ∧ addressable (fl_Shares (store_line m b)).
Proof.
  intros Hs Hc Ha Hi. destruct (Hs (fb_FeeCode b)) as [Hn|[Hv Had]].
  - split; [|unfold store_line; cbn; rewrite Hn; cbn; unfold addressable, TotalBps, MaxInt64; cbn; lia].
    split; [done..|]. cbn. by rewrite Hn.
  - split; [|exact Had]. split; [done..|]. intros _. split; [exact Hv|]. intros s Hin. cbn in Hin.
    apply list_elem_of_fmap in Hin as (q & -> & Hq). cbn. by apply named_payees.
Qed.

(** C13 (functional). A checkout's plan settles. Whatever commerce charges for a
    validated quote, once the hold is taken and its quantity is known: the snapshot that
    it stores yields a plan, and payments builds its ledger from that plan for exactly
    the amount charged, so that a capture is not left without a settlement. The plan is
    in the charge's currency and names each fee code once, which the ledger requires of
    its caller. What catalog has to keep is that a split adds up; what no side checks is
    that passed-on and absorbed fees together fit 64 bits. *)
Theorem sale_plan_settles pa fa org units ch p f q c splits
    (Hu : int32 units) (Ht : answers_typed p f) (Hquote : quoteBeforeHold pa fa org units ch = Ok (p, f)) (Hq : 1 ≤ q ≤ units)
    (Hc : chargeAfterHold p f q = Ok c) (Hs : sound_splits splits)
    (Hfit : cp_PassedOnTotal (ch_Composition c) + cp_AbsorbedTotal (ch_Composition c) ≤ MaxInt64) :
  ∃ plan entries,
    settlementPlanFromSnapshot (ch_FaceValue c) (ch_Total c) "EUR" (StoredFees (feeSnapshotEnvelope splits (ch_Composition c))) = Ok plan ∧
    BuildSettlementEntries (toStorePlan plan) (ch_Total c) = Ok entries ∧ amounts entries = ch_Total c ∧
    plan_typed (toStorePlan plan) ∧ pr_Currency plan = "EUR"%string ∧
    NoDup (map pf_FeeCode (pr_Fees plan)) ∧ Forall (λ x, pf_FeeCode x ≠ ""%string) (pr_Fees plan).
Proof.
  destruct (charged_for _ _ _ _ _ _ _ _ _ Hu Ht Hquote Hq Hc) as (_ & _ & _ & Htt & Hf0 & Htm & amts & Hall & Hcomp).
  destruct (quote_Ok _ _ _ _ _ _ _ Hquote) as (_ & Hvf & _ & _).
  assert (Hf64 : int64 (ch_FaceValue c)) by (apply int64_nonneg; lia).
  set (items := cp_Items (ch_Composition c)) in *. set (m := splitByCode splits).
  assert (Hi : items = zip_with breakdownItem (winners (fz_Fees f)) amts) by (unfold items; by rewrite Hcomp).
  assert (Hpo : cp_PassedOnTotal (ch_Composition c) = borne incidencePassedOn items) by (rewrite Hcomp, Hi; done).
  assert (Hab : cp_AbsorbedTotal (ch_Composition c) = borne incidenceAbsorbed items) by (rewrite Hcomp, Hi; done).
  pose proof (charged_all _ q _ _ _ ltac:(lia) Hall) as Hitems. rewrite <-Hi in Hitems.
  assert (Hnn : Forall (λ b, 0 ≤ fb_Amount b) items) by (eapply List.Forall_impl; [|exact Hitems]; tauto).
  pose proof (borne_nonneg incidencePassedOn _ Hnn) as Hp1. pose proof (borne_nonneg incidenceAbsorbed _ Hnn) as Ha1.
  assert (Hsum : sumZ (map fb_Amount items) = borne incidencePassedOn items + borne incidenceAbsorbed items).
  { apply borne_total. eapply List.Forall_impl; [|exact Hitems]. tauto. }
  assert (Hcodes : map fb_FeeCode items = map rf_FeeCode (winners (fz_Fees f))).
  { rewrite Hi. apply item_codes. by eapply list.Forall2_length. }
  destruct (validated_codes _ _ _ _ Hvf) as [Hnd Hne]. rewrite <-Hcodes in Hnd, Hne.
  set (plan := {| pr_FaceValue := ch_FaceValue c; pr_PassedOn := cp_PassedOnTotal (ch_Composition c);
    pr_Absorbed := cp_AbsorbedTotal (ch_Composition c); pr_TotalAmount := ch_Total c; pr_Currency := "EUR"%string;
    pr_Fees := map (plan_fee m) items |}).
  pose proof (λ code, splitByCode_sound splits code Hs) as Hparts. fold m in Hparts.
  assert (Hlines : Forall (λ b, SettleableFee "EUR" (store_line m b) ∧ addressable (fl_Shares (store_line m b))) items).
  { eapply List.Forall_impl; [|exact Hitems]. intros b (? & ? & ?). by apply line_settleable. }
  assert (Hbound : Forall (λ b, fb_Amount b ≤ MaxInt64) items).
  { assert (Hle : sumZ (map fb_Amount items) ≤ MaxInt64) by lia. clear -Hnn Hle. induction Hnn as [|b l Hb Hl IH]; [constructor|].
    cbn in Hle. assert (0 ≤ sumZ (map fb_Amount l)) by (apply sumZ_nonneg, Forall_map; exact Hl). constructor; [lia|apply IH; lia]. }
  assert (Htyped : plan_typed (toStorePlan plan)).
  { split; [exact Hf64|apply int64_nonneg; cbn; lia|apply int64_nonneg; cbn; lia|apply int64_nonneg; cbn; lia|].
    unfold plan. rewrite store_lines. apply Forall_map. rewrite list.Forall_forall. intros b Hb. rewrite list.Forall_forall in Hlines, Hbound, Hnn.
    split; [apply int64_nonneg; cbn; split; [by apply Hnn|by apply Hbound]|exact (proj2 (Hlines b Hb))]. }
  assert (Hset : Settleable (toStorePlan plan) (ch_Total c)).
  { split; cbn -[toStorePlan charged]; [done|cbn; lia|split; [done|cbn; lia]|..]; unfold plan; rewrite store_lines.
    - apply Forall_map. eapply List.Forall_impl; [|exact Hlines]. tauto.
    - rewrite charged_borne. cbn. exact Hpo.
    - rewrite charged_borne. cbn. exact Hab.
    - rewrite map_map. cbn [store_line fl_Amount]. rewrite <-(map_ext fb_Amount) by done. lia. }
  assert (Hcap : int64 (ch_Total c)) by (apply int64_nonneg; lia).
  destruct (feeEntries_exist _ _ Htyped Hset) as [ess Hess].
  assert (Hbuild : BuildSettlementEntries (toStorePlan plan) (ch_Total c) = Ok (concat ess ++ [organizerEntry (toStorePlan plan)])).
  { apply Build_Ok; [done..|]. split; [done|by exists ess]. }
  exists plan, (concat ess ++ [organizerEntry (toStorePlan plan)]). split_and!; [done|exact Hbuild| |done|done| |].
  - by apply (settled_amounts (toStorePlan plan)).
  - unfold plan. cbn. rewrite map_map. cbn. exact Hnd.
  - apply list.Forall_forall. intros x Hx. apply list_elem_of_fmap in Hx as (b & -> & Hb). cbn.
    rewrite list.Forall_forall in Hne. apply Hne, list_elem_of_fmap. by exists b.
Qed.
End SalePlan.

(** ** Two tickets with three fees, one of them split *)
#[local] Existing Instance text_uuid.

Definition venue_part (payee : string) (bps : Z) : planPart := {|
  pp_PayeeID := payee; pp_Kind := "venue"; pp_DisplayName := "Hall"; pp_ExternalReference := None; pp_ShareBps := bps |}.
Definition sale_splits : list (string * option (list planPart)) :=
  [("service"%string, Some [venue_part "p1" 6000; venue_part "p2" 4000]); ("levy"%string, None)].
Definition sale_charge : Charge :=
  match chargeAfterHold example_price (example_resolution example_order_fees) 2 with
  | Ok c => c
  | Err _ => {| ch_FaceValue := 0; ch_Composition := composition_of []; ch_Total := 0 |}
  end.

Lemma sale_splits_sound : sound_splits sale_splits.
Proof.
  intros code parts [E|[E|[]%elem_of_nil]%elem_of_cons]%elem_of_cons; [|discriminate E].
  injection E as -> ->. right. split; [|vm_compute; discriminate]. split; [discriminate| | |reflexivity].
  - repeat apply List.Forall_cons; [split; vm_compute; discriminate..|apply List.Forall_nil].
  - apply list.NoDup_cons. split; [|apply NoDup_singleton]. intros [H|[]%elem_of_nil]%elem_of_cons. discriminate H.
Defined.

Lemma sale_plan_settles_witness :
  ch_Total sale_charge = 608 ∧
  ∃ plan entries,
    settlementPlanFromSnapshot (ch_FaceValue sale_charge) (ch_Total sale_charge) "EUR"
      (StoredFees (feeSnapshotEnvelope sale_splits (ch_Composition sale_charge))) = Ok plan ∧
    BuildSettlementEntries (toStorePlan plan) (ch_Total sale_charge) = Ok entries ∧ length (pr_Fees plan) = 3%nat ∧ amounts entries = 608.
Proof.
  split; [vm_compute; reflexivity|].
  destruct (sale_plan_settles (Document example_price) (Document (example_resolution example_order_fees)) "org"%string 3 None example_price
    (example_resolution example_order_fees) 2 sale_charge sale_splits) as (plan & entries & Hp & Hb & Ha & _).
  - in_range.
  - split; [vm_compute; split; discriminate|exact example_fees_typed].
  - vm_compute. reflexivity.
  - lia.
  - vm_compute. reflexivity.
  - exact sale_splits_sound.
  - vm_compute. discriminate.
  - exists plan, entries. split; [exact Hp|]. split; [exact Hb|]. split.
    + vm_compute in Hp. injection Hp as <-. reflexivity.
    + rewrite Ha. vm_compute. reflexivity.
Defined.
