(* ===== verification/Protocol.v ===== *)
(** * Programs over the ports of a worker

    The background workers of commerce are written against interfaces: other services
    over HTTP, the store, the clock. A worker is a tree of calls with typed answers.
    What it does is its traces: every call with the answer that came back, whatever
    the answers are. [obeys] says that every call is allowed by the trace before it.

    Section [Drain] is [services/commerce/internal/worklease/lifecycle.go]: the loop the
    reversal runner and the exchange sweep share, over the operations of an [Adapter].
    It claims batches, drives each key once per pass, hands back what it does not drive,
    and stops on shutdown, on a short batch, on a batch of duplicates, and after
    [MaxBatchesPerPass]. [translate] runs it over a runner's own ports. *)

From Stdlib Require Import Permutation.
From S2P Require Import Prelude.

(** An HTTP exchange: a status code and a body that decodes or does not. Nothing came
    back when the transport failed. *)
Inductive Wire (B : Type) : Type := NoAnswer | Answered (code : Z) (body : option B).
Arguments NoAnswer {B}.
Arguments Answered {B} code body.

Section Protocol.
Context {E : Type → Type}.

Inductive protocol (A : Type) : Type :=
| Done (a : A)
| Call (X : Type) (e : E X) (k : X → protocol A).
#[global] Arguments Done {A} a.
#[global] Arguments Call {A X} e k.

Fixpoint protocol_bind_ {A B} (p : protocol A) (k : A → protocol B) : protocol B :=
  match p with
  | Done a => k a
  | Call e c => Call e (λ x, protocol_bind_ (c x) k)
  end.

#[global] Instance protocol_ret : MRet protocol := @Done.
#[global] Instance protocol_bind : MBind protocol := λ A B k p, protocol_bind_ p k.

Definition call {X} (e : E X) : protocol X := Call e Done.

(** A Go function that returns an error: the rest runs only without one. *)
Definition try {Er A B} (p : protocol (result Er A)) (k : A → protocol (result Er B)) : protocol (result Er B) :=
  x ← p; match x with Ok a => k a | Err e => Done (Err e) end.

Inductive event : Type := Happened (X : Type) (e : E X) (x : X).
#[global] Arguments Happened {X} e x.

(** A call without its answer. *)
Inductive asked : Type := Asked (X : Type) (e : E X).
#[global] Arguments Asked {X} e.
Definition call_of (v : event) : asked := let 'Happened e _ := v in Asked e.

Fixpoint traces {A} (p : protocol A) (tr : list event) (a : A) : Prop :=
  match p with
  | Done b => tr = [] ∧ a = b
  | Call e k => ∃ x tr', tr = Happened e x :: tr' ∧ traces (k x) tr' a
  end.

Lemma traces_bind {A B} (p : protocol A) (k : A → protocol B) tr b :
  traces (p ≫= k) tr b ↔ ∃ tr1 tr2 a, tr = tr1 ++ tr2 ∧ traces p tr1 a ∧ traces (k a) tr2 b.
Proof.
  change (p ≫= k) with (protocol_bind_ p k). revert tr. induction p as [a|X e c IH]; intros tr; cbn; split.
  - intros H. by exists [], tr, a.
  - intros (tr1 & tr2 & a' & -> & [-> ->] & H). exact H.
  - intros (x & tr' & -> & H). apply IH in H as (tr1 & tr2 & a & -> & H1 & H2).
    exists (Happened e x :: tr1), tr2, a. split_and!; [done|by exists x, tr1|done].
  - intros (tr1 & tr2 & a & -> & (x & tr' & -> & H1) & H2). exists x, (tr' ++ tr2). split; [done|]. apply IH. by exists tr', tr2, a.
Qed.

(** The trace of a run against services that answer alike each time. *)
Fixpoint follow (answer : ∀ X, E X → X) {A} (p : protocol A) : list event * A :=
  match p with
  | Done a => ([], a)
  | Call e k => let x := answer _ e in let r := follow answer (k x) in (Happened e x :: r.1, r.2)
  end.

Lemma follow_traces answer {A} (p : protocol A) : traces p (follow answer p).1 (follow answer p).2.
Proof. induction p as [a|X e k IH]; cbn; [done|]. eexists _, _. split; [done|apply IH]. Qed.

(** A past that has gone on. *)
Lemma seen_later (past l : list event) v : v ∈ past → v ∈ past ++ l.
Proof. intros Hv. apply elem_of_app. by left. Qed.
Lemma seen_last (past : list event) v : v ∈ past ++ [v].
Proof. apply elem_of_app. right. by left. Qed.
Lemma grown (past l : list event) : past ⊆ past ++ l.
Proof. intros v. apply seen_later. Qed.
Lemma grown_trans (p1 p2 p3 : list event) : p1 ⊆ p2 → p2 ⊆ p3 → p1 ⊆ p3.
Proof. intros H1 H2 v Hv. auto. Qed.

(** ** Calls that their past allows *)

Section Obeys.
Context (may : list event → asked → Prop).

Fixpoint obeys {A} (p : protocol A) (past : list event) (post : A → list event → Prop) : Prop :=
  match p with
  | Done a => post a past
  | Call e k => may past (Asked e) ∧ ∀ x, obeys (k x) (past ++ [Happened e x]) post
  end.

Lemma obeys_mono {A} (p : protocol A) past (post post' : A → list event → Prop) :
  (∀ a tr, post a tr → post' a tr) → obeys p past post → obeys p past post'.
Proof.
  intros Hp. revert past. induction p as [a|X e k IH]; intros past; cbn; [apply Hp|]. intros [Hm Hk]. split; [done|]. auto.
Qed.

Lemma obeys_bind {A B} (p : protocol A) (k : A → protocol B) past post :
  obeys p past (λ a tr, obeys (k a) tr post) → obeys (p ≫= k) past post.
Proof.
  change (p ≫= k) with (protocol_bind_ p k). revert past. induction p as [a|X e c IH]; intros past; cbn; [done|].
  intros [Hm Hk]. split; [done|]. auto.
Qed.

Lemma obeys_try {Er A B} (p : protocol (result Er A)) (k : A → protocol (result Er B)) past post :
  obeys p past (λ x tr, match x with Ok a => obeys (k a) tr post | Err e => post (Err e) tr end) → obeys (try p k) past post.
Proof. intros H. apply obeys_bind. eapply obeys_mono; [|exact H]. by intros [a|e] tr. Qed.

Lemma obeys_call {X A} (e : E X) (k : X → protocol A) past post :
  may past (Asked e) → (∀ x, obeys (k x) (past ++ [Happened e x]) post) → obeys (call e ≫= k) past post.
Proof. by split. Qed.

(** In every trace, each call is allowed by what came before it. *)
Lemma obeys_traces {A} (p : protocol A) past post tr a :
  obeys p past post → traces p tr a →
  (∀ tr1 v tr2, tr = tr1 ++ v :: tr2 → may (past ++ tr1) (call_of v)) ∧ post a (past ++ tr).
Proof.
  revert past tr. induction p as [b|X e k IH]; intros past tr; cbn.
  - intros Hp [-> ->]. rewrite app_nil_r. split; [|done]. intros [] ? ? ?; discriminate.
  - intros [Hm Hk] (x & tr' & -> & Ht). destruct (IH x _ tr' (Hk x) Ht) as [H1 H2]. rewrite <-(assoc_L (++)) in H2. split; [|exact H2].
    intros [|v' tr1] v tr2 Heq; cbn in Heq; injection Heq as <- Heq.
    + by rewrite app_nil_r.
    + specialize (H1 tr1 v tr2 Heq). by rewrite <-(assoc_L (++)) in H1.
Qed.
End Obeys.

(** ** How many calls *)

Fixpoint at_most (counts : asked → bool) {A} (n : nat) (p : protocol A) : Prop :=
  match p with
  | Done _ => True
  | Call e k => if counts (Asked e) then match n with O => False | S n => ∀ x, at_most counts n (k x) end else ∀ x, at_most counts n (k x)
  end.

Lemma at_most_mono counts {A} n m (p : protocol A) : (n ≤ m)%nat → at_most counts n p → at_most counts m p.
Proof.
  revert n m. induction p as [a|X e k IH]; intros n m Hn; cbn; [done|]. destruct (counts (Asked e)).
  - destruct n, m; try done; [lia|]. intros Hk x. apply (IH x n); [lia|done].
  - intros Hk x. by apply (IH x n).
Qed.

Lemma at_most_bind counts {A B} n m (p : protocol A) (k : A → protocol B) :
  at_most counts n p → (∀ a, at_most counts m (k a)) → at_most counts (n + m) (p ≫= k).
Proof.
  change (p ≫= k) with (protocol_bind_ p k). intros Hp Hk. revert n Hp. induction p as [a|X e c IH]; intros n; cbn.
  - intros _. apply (at_most_mono counts m); [lia|done].
  - destruct (counts (Asked e)); [destruct n as [|n]; [done|]|]; intros Hc x; by apply IH.
Qed.

Lemma at_most_ask counts {X A} (e : E X) n (k : X → protocol A) : counts (Asked e) = true →
  (∀ x, at_most counts n (k x)) → at_most counts (S n) (call e ≫= k).
Proof. intros He Hk. cbn. by rewrite He. Qed.

Lemma at_most_aside counts {X A} (e : E X) n (k : X → protocol A) : counts (Asked e) = false →
  (∀ x, at_most counts n (k x)) → at_most counts n (call e ≫= k).
Proof. intros He Hk. cbn. by rewrite He. Qed.

Lemma at_most_try counts {Er A B} n m (p : protocol (result Er A)) (k : A → protocol (result Er B)) :
  at_most counts n p → (∀ a, at_most counts m (k a)) → at_most counts (n + m) (try p k).
Proof. intros Hp Hk. apply at_most_bind; [done|]. intros [a|e]; [apply Hk|done]. Qed.

Definition counted (counts : asked → bool) (tr : list event) : nat := length (List.filter (λ v, counts (call_of v)) tr).

Lemma at_most_traces counts {A} n (p : protocol A) tr a : at_most counts n p → traces p tr a → (counted counts tr ≤ n)%nat.
Proof.
  revert n tr. induction p as [b|X e k IH]; intros n tr; cbn.
  - intros _ [-> _]. cbn. lia.
  - intros Hn (x & tr' & -> & Ht). unfold counted. cbn [List.filter call_of]. destruct (counts (Asked e)).
    + destruct n as [|n]; [done|]. cbn. specialize (IH x n tr' (Hn x) Ht). unfold counted in IH. lia.
    + exact (IH x n tr' (Hn x) Ht).
Qed.
End Protocol.
Arguments protocol : clear implicits.
Arguments event : clear implicits.
Arguments asked : clear implicits.

(** ** Draining a queue under leases *)

(** A program whose calls are programs of other ports. *)
Fixpoint translate {E F : Type → Type} (h : ∀ X, E X → protocol F X) {A} (p : protocol E A) : protocol F A :=
  match p with
  | Done a => Done a
  | Call e k => x ← h _ e; translate h (k x)
  end.

Section Drain.
Context {T K : Type} `{EqDecision K} (key : T → K).

(** The adapter's functions, and the caller's context. *)
Inductive Queue : Type → Type :=
| QClaim (limit : nat) : Queue (option (list T))
| QProcess (row : T) : Queue bool
| QAbandon (row : T) : Queue bool
| QCancelled : Queue bool.

(** [HandBackUndriven]. *)
Fixpoint HandBackUndriven (l : list T) : protocol Queue unit :=
  match l with
  | [] => Done tt
  | c :: l => _ ← call (QAbandon c); HandBackUndriven l
  end.

Record Pass := { ps_driven : list K; ps_fresh : nat; ps_resolved : Z; ps_stopped : bool }.

(** A duplicate goes straight back; if that fails because the caller was stopped, once
    more on a context of its own. *)
Definition hand_back_duplicate (c : T) : protocol Queue unit :=
  ok ← call (QAbandon c);
  if (ok : bool) then Done tt else stop ← call QCancelled; if (stop : bool) then HandBackUndriven [c] else Done tt.

Fixpoint drain_rows (claimed : list T) (p : Pass) : protocol Queue Pass :=
  match claimed with
  | [] => Done p
  | c :: rest =>
      stop ← call QCancelled;
      if (stop : bool) then
        _ ← HandBackUndriven claimed;
        Done {| ps_driven := ps_driven p; ps_fresh := ps_fresh p; ps_resolved := ps_resolved p; ps_stopped := true |}
      else if bool_decide (key c ∈ ps_driven p) then _ ← hand_back_duplicate c; drain_rows rest p
      else
        ok ← call (QProcess c);
        drain_rows rest {| ps_driven := key c :: ps_driven p; ps_fresh := S (ps_fresh p);
          ps_resolved := if (ok : bool) then ps_resolved p + 1 else ps_resolved p; ps_stopped := false |}
  end.

(** [passes] batches are left of the pass. *)
Fixpoint drain (batch passes : nat) (driven : list K) (resolved : Z) : protocol Queue Z :=
  match passes with
  | O => Done resolved
  | S passes =>
      claimed ← call (QClaim batch);
      match claimed with
      | None | Some [] => Done resolved
      | Some l =>
          p ← drain_rows l {| ps_driven := driven; ps_fresh := 0; ps_resolved := resolved; ps_stopped := false |};
          if ps_stopped p || (length l <? batch)%nat || (ps_fresh p =? 0)%nat then Done (ps_resolved p)
          else drain batch passes (ps_driven p) (ps_resolved p)
      end
  end.

(** [Drain]. *)
Definition Drain (batch passes : nat) : protocol Queue Z := drain batch passes [] 0.

(** ** What a pass does *)

Implicit Types (tr : list (event Queue)).

Definition processed (v : event Queue) : option K :=
  match v with Happened e _ => match e with QProcess c => Some (key c) | _ => None end end.
Definition claims_of (v : event Queue) : list T :=
  match v with Happened e x => match e in Queue X return X → list T with QClaim _ => λ x, default [] x | _ => λ _, [] end x end.
Definition is_claim (c : asked Queue) : bool := match c with Asked e => match e with QClaim _ => true | _ => false end end.

Definition taken_care_of (c : T) tr : Prop := ∃ x, Happened (QProcess c) x ∈ tr ∨ Happened (QAbandon c) x ∈ tr.

Lemma taken_app_l c tr1 tr2 : taken_care_of c tr1 → taken_care_of c (tr1 ++ tr2).
Proof. intros (x & [H|H]); exists x; [left|right]; apply elem_of_app; by left. Qed.
Lemma taken_app_r c tr1 tr2 : taken_care_of c tr2 → taken_care_of c (tr1 ++ tr2).
Proof. intros (x & [H|H]); exists x; [left|right]; apply elem_of_app; by right. Qed.

(** What handing back leaves in a trace. *)
Definition only_hands_back tr : Prop := omap processed tr = [] ∧ concat (map claims_of tr) = [] ∧ counted is_claim tr = 0%nat.

Lemma only_hands_back_app tr1 tr2 : only_hands_back tr1 → only_hands_back tr2 → only_hands_back (tr1 ++ tr2).
Proof.
  intros (A1 & B1 & C1) (A2 & B2 & C2). unfold only_hands_back, counted in *.
  by rewrite omap_app, map_app, concat_app, List.filter_app, length_app, A1, A2, B1, B2, C1, C2.
Qed.

Lemma abandoned_only c x : only_hands_back [Happened (QAbandon c) x].
Proof. done. Qed.

Lemma hand_back_trace l tr u : traces (HandBackUndriven l) tr u → only_hands_back tr ∧ ∀ c, c ∈ l → taken_care_of c tr.
Proof.
  revert tr. induction l as [|c l IH]; intros tr; cbn.
  - intros [-> _]. split; [done|]. intros c Hc. by apply not_elem_of_nil in Hc.
  - intros (x & tr' & -> & Ht). destruct (IH _ Ht) as [Ho Hc]. split; [exact (only_hands_back_app _ _ (abandoned_only c x) Ho)|].
    intros c' Hc'. apply elem_of_cons in Hc' as [->|Hc']; [exists x; right; left|].
    exact (taken_app_r c' [_] tr' (Hc c' Hc')).
Qed.

Lemma duplicate_trace c tr u : traces (hand_back_duplicate c) tr u → only_hands_back tr ∧ taken_care_of c tr.
Proof.
  cbn. intros (ok & tr' & -> & Ht). destruct ok; cbn in Ht.
  - destruct Ht as [-> _]. split; [done|]. exists true. right. left.
  - destruct Ht as (stop & tr2 & -> & Ht). split; [|exists false; right; left].
    destruct stop; cbn in Ht; [destruct Ht as (x & tr3 & -> & -> & _)|destruct Ht as [-> _]]; done.
Qed.

Lemma drain_rows_trace l p tr q : traces (drain_rows l p) tr q →
  (∀ c, c ∈ l → taken_care_of c tr) ∧ concat (map claims_of tr) = [] ∧ counted is_claim tr = 0%nat ∧
  ps_driven q = rev (omap processed tr) ++ ps_driven p ∧ (NoDup (ps_driven p) → NoDup (ps_driven q)).
Proof.
  revert p tr. induction l as [|c l IH]; intros p tr; cbn [drain_rows].
  - intros [-> ->]. split_and!; try done. intros c Hc. by apply not_elem_of_nil in Hc.
  - intros (tr1 & tr2 & s & -> & (stop & tr1' & -> & [-> ->]) & Ht)%traces_bind. destruct stop.
    + apply traces_bind in Ht as (tr3 & tr4 & u & -> & Ht & [-> ->]). rewrite app_nil_r.
      destruct (hand_back_trace _ _ _ Ht) as [(H1 & H2 & H3) Hc]. split_and!; [|done|done| |done].
      * intros c' Hc'. exact (taken_app_r c' [_] tr3 (Hc c' Hc')).
      * cbn. by rewrite H1.
    + case_bool_decide as Hd.
      * apply traces_bind in Ht as (tr3 & tr4 & u & -> & H3 & H4). destruct (duplicate_trace _ _ _ H3) as [(D1 & D2 & D3) Dc].
        destruct (IH _ _ H4) as (Ic & I2 & I3 & I4 & I5). split_and!; [| | | |done].
        -- intros c' Hc'. apply (taken_app_r c' [_]). apply elem_of_cons in Hc' as [->|Hc']; [by apply taken_app_l|apply taken_app_r; auto].
        -- cbn. by rewrite map_app, concat_app, D2, I2.
        -- unfold counted in *. cbn. by rewrite List.filter_app, length_app, D3, I3.
        -- cbn. by rewrite omap_app, D1, I4.
      * apply traces_bind in Ht as (tr3 & tr4 & ok & -> & (x & tr3' & -> & [-> ->]) & H4).
        destruct (IH _ _ H4) as (Ic & I2 & I3 & I4 & I5). split_and!.
        -- intros c' Hc'. apply elem_of_cons in Hc' as [->|Hc'].
           ++ exists x. left. right. left.
           ++ exact (taken_app_r c' [_; _] tr4 (Ic c' Hc')).
        -- exact I2.
        -- exact I3.
        -- rewrite I4. cbn. by rewrite <-(assoc_L (++)).
        -- intros Hnd. apply I5. cbn. by apply list.NoDup_cons.
Qed.

Lemma drain_trace batch passes driven resolved tr r : NoDup driven → traces (drain batch passes driven resolved) tr r →
  NoDup (rev (omap processed tr) ++ driven) ∧ (∀ c, c ∈ concat (map claims_of tr) → taken_care_of c tr) ∧ (counted is_claim tr ≤ passes)%nat.
Proof.
  revert driven resolved tr. induction passes as [|n IH]; intros driven resolved tr Hnd; cbn [drain].
  - intros [-> _]. split_and!; [done| |cbn; lia]. intros c Hc. by apply not_elem_of_nil in Hc.
  - intros (tr1 & tr2 & a & -> & (x & tr1' & -> & [-> ->]) & Ht)%traces_bind.
    assert (Hstop : tr2 = [] → default [] x = [] → NoDup (rev (omap processed ([Happened (QClaim batch) x] ++ tr2)) ++ driven) ∧
      (∀ c, c ∈ concat (map claims_of ([Happened (QClaim batch) x] ++ tr2)) → taken_care_of c ([Happened (QClaim batch) x] ++ tr2)) ∧
      (counted is_claim ([Happened (QClaim batch) x] ++ tr2) ≤ S n)%nat).
    { intros -> Hx. cbn. rewrite Hx. split_and!; [done| |lia]. intros c Hc. by apply not_elem_of_nil in Hc. }
    destruct x as [[|c0 l0]|]; [destruct Ht as [-> _]; by apply Hstop| |destruct Ht as [-> _]; by apply Hstop].
    clear Hstop. set (l := c0 :: l0) in *. apply traces_bind in Ht as (tr3 & tr4 & p & -> & H3 & H4).
    destruct (drain_rows_trace _ _ _ _ H3) as (Hc & H2 & Hn & Hdr & Hnd'). cbn in Hdr, Hnd'. specialize (Hnd' Hnd).
    destruct (_ || _).
    + destruct H4 as [-> _]. rewrite app_nil_r. split_and!.
      * cbn. by rewrite <-Hdr.
      * cbn. rewrite H2, app_nil_r. intros c Hin. exact (taken_app_r c [_] tr3 (Hc c Hin)).
      * unfold counted in *. cbn. rewrite Hn. lia.
    + destruct (IH _ _ _ Hnd' H4) as (I1 & I2 & I3). split_and!.
      * cbn. rewrite omap_app, rev_app_distr, <-(assoc_L (++)), <-Hdr. exact I1.
      * cbn. rewrite map_app, concat_app, H2. cbn. intros c Hin.
        change (c ∈ l ++ concat (map claims_of tr4)) in Hin. apply elem_of_app in Hin as [Hin|Hin].
        -- apply (taken_app_r c [_]), taken_app_l. auto.
        -- apply (taken_app_r c [_]), taken_app_r. auto.
      * unfold counted in *. cbn. rewrite List.filter_app, length_app, Hn. lia.
Qed.

(** A pass of a queue ends, drives each row once and keeps none.
    Whatever the store, the driver and the shutdown do: a pass claims at most
    [passes] batches, a key is driven at most once in it, however often its row comes
    due again meanwhile, and every row that was claimed is driven or handed back. *)
Theorem drain_drives_once (batch passes : nat) (tr : list (event Queue)) (r : Z) (Ht : traces (Drain batch passes) tr r) :
  NoDup (omap processed tr) ∧ (∀ c, c ∈ concat (map claims_of tr) → taken_care_of c tr) ∧ (counted is_claim tr ≤ passes)%nat.
Proof.
  destruct (drain_trace _ _ _ _ _ _ (NoDup_nil_2) Ht) as (H1 & H2 & H3). rewrite app_nil_r in H1. split_and!; [|done|done].
  by rewrite (Permutation.Permutation_rev (omap processed tr)).
Qed.
End Drain.

(** Two rows, one of them claimed twice, come due again at once: the second batch is all
    duplicates and ends the pass. *)
Definition due_again (X : Type) (q : Queue (T := Z) X) : X :=
  match q in Queue X return X with
  | QClaim _ => Some [1; 2; 1]
  | QProcess _ | QAbandon _ => true
  | QCancelled => false
  end.
Definition pass_of_two : list (event (Queue (T := Z))) * Z := follow due_again (Drain (λ c : Z, c) 2 4).

Lemma drain_drives_once_witness :
  omap (processed (λ c : Z, c)) pass_of_two.1 = [1; 2] ∧ pass_of_two.2 = 2 ∧ counted is_claim pass_of_two.1 = 2%nat ∧
  NoDup (omap (processed (λ c : Z, c)) pass_of_two.1) ∧ (∀ c, c ∈ concat (map claims_of pass_of_two.1) → taken_care_of c pass_of_two.1) ∧
  (counted is_claim pass_of_two.1 ≤ 4)%nat.
Proof.
  split; [vm_compute; reflexivity|]. split; [vm_compute; reflexivity|]. split; [vm_compute; reflexivity|].
  exact (drain_drives_once (λ c : Z, c) 2 4 pass_of_two.1 pass_of_two.2 (follow_traces due_again (Drain (λ c : Z, c) 2 4))).
Defined.
