(* ===== verification/RecoveryRunner.v ===== *)
(** * The recovery runner

    [services/commerce/internal/recovery]: clients.go, the runner's ports over the
    other services' HTTP interfaces, and runner.go, which takes a claimed order
    ([Orders]) from the state its checkout stopped in to an end. The calls carry
    what the code sends; an answer is a status code and a decoded body, an
    undecodable one, or nothing. The store's methods are answered by [Orders]'s
    transactions. The text of an error is its class. *)

From S2P Require Import Prelude Text Tables Lifecycle Orders Protocol.
#[local] Open Scope Z_scope.

Section Runner.
Context `{UU : UUID} `{US : !UUIDSource}.
Implicit Types (s : StuckOrder).

(** ** Bodies *)

Record OperationBody := { ob_Resolved : bool; ob_Status : string; ob_OccurredAt : time; ob_StatusReplayDeadlineAt : option time }.

Record PSPStatus := {
  ps_Outcome : string; ps_TerminalNoSideEffect : bool; ps_Captured : bool; ps_Authorized : bool;
  ps_AuthorizedAmount : Z; ps_CapturedAmount : Z; ps_Currency : string }.

Record CompensationResult := { cp_Status : string; cp_Replay : bool; cp_Code : string; cp_ProviderRef : string }.

Inductive FactType := FactOrderCreated | FactOrderCompleted | FactOrderFailed.

(** ** Ports *)

Inductive Port : Type → Type :=
| GetOperation (org : uuid) (key : string) : Port (Wire OperationBody)
| GetStatus (org : uuid) (key : string) : Port (Wire PSPStatus)
| PostVoid (org : uuid) (key : string) : Port (Wire CompensationResult)
| PostRefund (org : uuid) (key : string) : Port (Wire CompensationResult)
| PostConfirm (org hold : uuid) : Port (Wire unit)
| PostRelease (org hold : uuid) : Port (Wire unit)
| PostFact (s : StuckOrder) (fact : FactType) (occurred : time) : Port (Wire unit)
| StRecordOrderFact (s : StuckOrder) (fact : FactType) : Port (option time)
| StOrderFactRecorded (order : uuid) (fact : FactType) : Port (option bool)
| StRecordTerminalOutcome (order claim : uuid) (outcome : TerminalOutcome) : Port (result CommerceError unit)
| StPark (order claim : uuid) (reason : string) : Port (result CommerceError unit)
| StQueueForCompensation (order claim : uuid) (reason : string) : Port (result CommerceError unit)
| StMarkRefunded (s : StuckOrder) : Port (result CommerceError unit)
| StMarkReleased (s : StuckOrder) : Port (result CommerceError unit)
| StClearClaim (order claim : uuid) : Port (result CommerceError unit)
| StAbandonClaim (order claim : uuid) : Port (result CommerceError unit)
| StReleaseStuckOrder (order claim : uuid) (cause : string) : Port (result CommerceError bool)
| StComplete (c : Completion) : Port (result CommerceError uuid)
| ClockNow : Port time
| Cancelled : Port bool.

Abbreviation drives A := (protocol Port (result string A)).

Definition fails {A} (msg : string) : drives A := Done (Err msg).
Definition done : drives unit := Done (Ok tt).

(** A store call whose error is returned. *)
Definition store_call {A} (e : Port (result CommerceError A)) (msg : string) : drives A :=
  x ← call e; match x with Ok a => Done (Ok a) | Err _ => fails msg end.

(** ** clients.go *)

(** Only a 200 and a 422 have their body decoded, and must decode. *)
Definition decoded {B} (w : Wire B) : result (option Z) (Z * option B) :=
  match w with
  | NoAnswer => Err None
  | Answered code body =>
      if (code =? 200) || (code =? 422) then match body with Some b => Ok (code, Some b) | None => Err (Some code) end
      else Ok (code, None)
  end.

Definition consistentStatus (st : PSPStatus) : bool :=
  let o := ps_Outcome st in
  if bool_decide (o = "captured"%string) then ps_Captured st && negb (ps_TerminalNoSideEffect st)
  else if bool_decide (o = "authorized"%string) then ps_Authorized st && negb (ps_Captured st) && negb (ps_TerminalNoSideEffect st)
  else if bool_decide (o ∈ ["declined"; "timeout"; "voided"]%string) then ps_TerminalNoSideEffect st && negb (ps_Captured st) && negb (ps_Authorized st)
  else if bool_decide (o = "refunded"%string) then negb (ps_TerminalNoSideEffect st) && negb (ps_Captured st) && negb (ps_Authorized st)
  else true.

Inductive StatusError := ErrOperationNotFound | ErrReplayWindowExpired | ErrProviderUnresolved | ErrUnexpectedStatus.

Definition status_of (w : Wire PSPStatus) : result StatusError PSPStatus :=
  match decoded w with
  | Err _ => Err ErrUnexpectedStatus
  | Ok (code, body) =>
      if code =? 200 then
        match body with
        | Some st => if consistentStatus st then Ok st else Err ErrProviderUnresolved
        | None => Err ErrUnexpectedStatus
        end
      else if code =? 404 then Err ErrOperationNotFound
      else if code =? 409 then Err ErrReplayWindowExpired
      else if code =? 502 then Err ErrProviderUnresolved
      else Err ErrUnexpectedStatus
  end.

Inductive CompensationError := CErrUnresolved | CErrNotFound | CErrWrongCompensation | CErrRefundFailed (ref : string) | CErrUnexpected.

Definition usableRefundRef (ref : string) : bool := String.prefix "re_" ref && (3 <? String.length ref)%nat.

(** [compensate] of a kind, "void" or "refund". *)
Definition compensation_of (kind : string) (w : Wire CompensationResult) : result CompensationError CompensationResult :=
  match decoded w with
  | Err code => Err (if bool_decide (code = Some 422) then CErrUnresolved else CErrUnexpected)
  | Ok (code, body) =>
      if code =? 200 then
        match body with
        | Some b => if bool_decide (cp_Status b = kind +:+ "ed") then Ok b else Err CErrUnresolved
        | None => Err CErrUnexpected
        end
      else if code =? 404 then Err CErrNotFound
      else if code =? 409 then Err CErrWrongCompensation
      else if code =? 502 then Err CErrUnresolved
      else if code =? 422 then
        match body with
        | Some b => if negb (bool_decide (kind = "refund"%string)) || negb (bool_decide (cp_Code b = "provider_refund_failed"%string)) ||
                       negb (usableRefundRef (cp_ProviderRef b)) then Err CErrUnresolved else Err (CErrRefundFailed (cp_ProviderRef b))
        | None => Err CErrUnexpected
        end
      else Err CErrUnexpected
  end.

(** Nothing, or the operation that payments bound. *)
Definition operation_of (w : Wire OperationBody) : result string (option OperationBody) :=
  match decoded w with
  | Err _ => Err "lookup"%string
  | Ok (code, body) => if code =? 200 then Ok body else if code =? 404 then Ok None else Err "lookup"%string
  end.

(** These pass no destination to decode into. *)
Definition confirm_of (w : Wire unit) : result bool unit :=
  match w with
  | NoAnswer => Err false
  | Answered code _ => if code =? 200 then Ok tt else if (code =? 409) || (code =? 404) then Err true else Err false
  end.
Definition release_of (w : Wire unit) : result bool unit :=
  match w with
  | NoAnswer => Err false
  | Answered code _ => if (code =? 200) || (code =? 404) then Ok tt else if code =? 409 then Err true else Err false
  end.
Definition fact_of (w : Wire unit) : bool := match w with Answered code _ => code =? 200 | NoAnswer => false end.

(** [JournalFact.submit]. *)
Definition submit (s : StuckOrder) (fact : FactType) : drives unit :=
  at_ ← call (StRecordOrderFact s fact);
  match at_ with
  | None => fails "record order fact"
  | Some at_ => w ← call (PostFact s fact at_); if fact_of w then done else fails "journal"
  end.

(** ** runner.go *)

Definition MaxCallsPerOrder : nat := 6.

Definition set_stuck (st : OrderStatus) (outcome : option TerminalOutcome) (s : StuckOrder) : StuckOrder := {|
  so_OrderID := so_OrderID s; so_ReservationID := so_ReservationID s; so_OrganizerID := so_OrganizerID s; so_HoldID := so_HoldID s;
  so_BuyerID := so_BuyerID s; so_SlotID := so_SlotID s; so_TicketTypeID := so_TicketTypeID s; so_Quantity := so_Quantity s;
  so_Amount := so_Amount s; so_Currency := so_Currency s; so_Status := st; so_IdempotencyKey := so_IdempotencyKey s;
  so_TerminalOutcome := outcome; so_ClaimID := so_ClaimID s; so_Attempts := so_Attempts s |}.

Definition park_for (s : StuckOrder) (reason : string) : drives unit := store_call (StPark (so_OrderID s) (so_ClaimID s) reason) "park".

Definition releaseAndFail (s : StuckOrder) : drives unit :=
  w ← call (PostRelease (so_OrganizerID s) (so_HoldID s));
  match release_of w with
  | Err true => park_for s "claim is confirmed but payment did not capture; needs manual reconciliation"
  | Err false => fails "release claim"
  | Ok _ => try (submit s FactOrderFailed) (λ _, store_call (StMarkReleased s) "mark released")
  end.

Definition recordAndRelease (s : StuckOrder) (outcome : TerminalOutcome) : drives unit :=
  try (store_call (StRecordTerminalOutcome (so_OrderID s) (so_ClaimID s) outcome) "record terminal outcome")
    (λ _, releaseAndFail (set_stuck OrdReleasePending (Some outcome) s)).

Definition finishRefunded (s : StuckOrder) : drives unit :=
  w ← call (PostRelease (so_OrganizerID s) (so_HoldID s));
  match release_of w with
  | Err true => park_for s "refunded money against a confirmed claim; manual reconciliation required"
  | Err false => fails "release claim"
  | Ok _ => try (submit s FactOrderFailed) (λ _, store_call (StMarkRefunded s) "mark refunded")
  end.

Definition complete_and_clear (s : StuckOrder) : drives unit :=
  try (store_call (StComplete (so_Completion s)) "complete order")
    (λ _, store_call (StClearClaim (so_OrderID s) (so_ClaimID s)) "clear claim").

(** [actOnProviderStatus] of an outcome; [captured] is what a captured one does, which
    is where the two functions that use it meet. *)
Definition actOnProviderStatus (captured : drives unit) (s : StuckOrder) (st : PSPStatus) : drives unit :=
  let o := ps_Outcome st in
  if bool_decide (o = "captured"%string) then captured
  else if bool_decide (o = "authorized"%string) then
    w ← call (PostVoid (so_OrganizerID s) (so_IdempotencyKey s));
    match compensation_of "void" w with
    | Err _ => fails "void authorized hold"
    | Ok _ => recordAndRelease s OutNoSideEffect
    end
  else if bool_decide (o = "declined"%string) then recordAndRelease s OutDeclined
  else if bool_decide (o = "timeout"%string) then recordAndRelease s OutTimeout
  else if bool_decide (o = "voided"%string) then recordAndRelease s OutNoSideEffect
  else if bool_decide (o = "refunded"%string) then finishRefunded s
  else fails "provider status proves nothing".

(** Money that is captured is refunded here; the shared table is never asked about it. *)
Definition resolveReconciliation (s : StuckOrder) : drives unit :=
  w ← call (GetStatus (so_OrganizerID s) (so_IdempotencyKey s));
  match status_of w with
  | Err ErrReplayWindowExpired => park_for s "status replay window expired; manual reconciliation required"
  | Err ErrOperationNotFound => park_for s "reconciliation_required order has no payment operation; manual reconciliation required"
  | Err _ => fails "psp status"
  | Ok st =>
      if bool_decide (ps_Outcome st = "captured"%string) then
        if ps_CapturedAmount st <=? 0 then park_for s "operation predates durable provider evidence; manual reconciliation required"
        else
          w ← call (PostRefund (so_OrganizerID s) (so_IdempotencyKey s));
          match compensation_of "refund" w with
          | Err (CErrRefundFailed ref) =>
              if usableRefundRef ref then park_for s ("provider_refund_failed: provider refused the refund (" +:+ ref +:+ "); manual reconciliation required")
              else fails "refund captured money"
          | Err _ => fails "refund captured money"
          | Ok _ => finishRefunded s
          end
      else actOnProviderStatus (fails "captured") s st
  end.

Definition confirmAndComplete (s : StuckOrder) : drives unit :=
  w ← call (PostConfirm (so_OrganizerID s) (so_HoldID s));
  match confirm_of w with
  | Err true =>
      try (store_call (StQueueForCompensation (so_OrderID s) (so_ClaimID s) "captured payment whose claim is gone; refunding via PSP port")
             "queue for compensation")
        (λ _, resolveReconciliation (set_stuck OrdReconciliationRequired (so_TerminalOutcome s) s))
  | Err false => fails "confirm claim"
  | Ok _ => complete_and_clear s
  end.

Definition completeZero (s : StuckOrder) : drives unit :=
  try (submit s FactOrderCreated) (λ _,
    w ← call (PostConfirm (so_OrganizerID s) (so_HoldID s));
    match confirm_of w with
    | Err true => park_for s "zero-total order whose claim is gone; nothing was charged; manual reconciliation required"
    | Err false => fails "confirm claim"
    | Ok _ => try (submit s FactOrderCompleted) (λ _, complete_and_clear s)
    end).

Definition resolveZeroCreated (s : StuckOrder) : drives unit :=
  intent ← call (StOrderFactRecorded (so_OrderID s) FactOrderCreated);
  match intent with
  | None => fails "read order.created fact"
  | Some false => recordAndRelease s OutNotAttempted
  | Some true => completeZero s
  end.

Definition resolveWithProviderStatus (s : StuckOrder) (op : OperationBody) : drives unit :=
  now ← call ClockNow;
  if match ob_StatusReplayDeadlineAt op with Some d => d <? now | None => false end
  then park_for s "status replay window expired; manual reconciliation required"
  else
    w ← call (GetStatus (so_OrganizerID s) (so_IdempotencyKey s));
    match status_of w with
    | Err ErrReplayWindowExpired => park_for s "status replay window expired; manual reconciliation required"
    | Err ErrOperationNotFound => park_for s "operation vanished between lookup and status; manual reconciliation required"
    | Err _ => fails "psp status"
    | Ok st => actOnProviderStatus (confirmAndComplete s) s st
    end.

Definition resolveCreated (s : StuckOrder) : drives unit :=
  w ← call (GetOperation (so_OrganizerID s) (so_IdempotencyKey s));
  match operation_of w with
  | Err _ => fails "lookup payment operation"
  | Ok found =>
      match found with
      | Some op =>
          if (so_Amount s =? 0) && bool_decide (so_Status s = OrdConfirmationPending)
          then park_for s "zero-total confirmation_pending order with a payment operation, which no producer creates; manual reconciliation required"
          else if negb (ob_Resolved op) then resolveWithProviderStatus s op
          else if bool_decide (ob_Status op = "captured"%string) then confirmAndComplete s
          else if bool_decide (ob_Status op = "declined"%string) then recordAndRelease s OutDeclined
          else if bool_decide (ob_Status op = "timeout"%string) then recordAndRelease s OutTimeout
          else fails "unrecognized payment status"
      | None =>
          if (so_Amount s =? 0) && bool_decide (so_Status s = OrdCreated) then resolveZeroCreated s
          else if (so_Amount s =? 0) && bool_decide (so_Status s = OrdConfirmationPending) then completeZero s
          else recordAndRelease s OutNotAttempted
      end
  end.

Definition drive (s : StuckOrder) : drives unit :=
  match so_Status s with
  | OrdConfirmationPending => if so_Amount s =? 0 then resolveCreated s else confirmAndComplete s
  | OrdReleasePending =>
      match so_TerminalOutcome s with
      | None => fails "release_pending order has no recorded terminal outcome"
      | Some _ => releaseAndFail s
      end
  | OrdCreated | OrdPaymentUnknown => resolveCreated s
  | OrdReconciliationRequired => resolveReconciliation s
  | _ => fails "order status is not recoverable here"
  end.

(** [fail]: a superseded claim and a failed write are logged. *)
Definition fail (s : StuckOrder) (cause : string) : protocol Port unit :=
  _ ← call (StReleaseStuckOrder (so_OrderID s) (so_ClaimID s) cause); Done tt.

(** One order of the batch; whether it was resolved. *)
Definition drive_one (s : StuckOrder) : protocol Port bool :=
  r ← drive s;
  match r with Ok _ => Done true | Err cause => _ ← fail s cause; Done false end.

Fixpoint hand_back_undriven (l : list StuckOrder) : protocol Port unit :=
  match l with
  | [] => Done tt
  | s :: l => _ ← call (StAbandonClaim (so_OrderID s) (so_ClaimID s)); hand_back_undriven l
  end.

(** [RunOnce], of the batch that was claimed; how many were resolved. *)
Fixpoint run_batch (l : list StuckOrder) (resolved : Z) : protocol Port Z :=
  match l with
  | [] => Done resolved
  | s :: l' =>
      stop ← call Cancelled;
      if (stop : bool) then _ ← hand_back_undriven l; Done resolved
      else ok ← drive_one s; run_batch l' (if (ok : bool) then resolved + 1 else resolved)
  end.

(** ** lease.go *)

Definition maxDuration : Z := MaxInt64.

(** The ints are 64 bits wide. *)
Definition ForBatch (batch callsPerItem callTimeout margin : Z) : result string Z :=
  if batch <=? 0 then Err "batch must be positive"%string
  else if callsPerItem <=? 0 then Err "calls per item must be positive"%string
  else if callTimeout <=? 0 then Err "call timeout must be positive"%string
  else if margin <? 0 then Err "margin must not be negative"%string
  else if Z.quot maxDuration batch <? callsPerItem then Err "batch call count overflows time.Duration"%string
  else
    let batchCalls := mul64 batch callsPerItem in
    if Z.quot (sub64 maxDuration margin) callTimeout <? batchCalls then Err "batch duration overflows time.Duration"%string
    else Ok (add64 (mul64 batchCalls callTimeout) margin).

Definition LeaseFor (batch callTimeout : Z) : result string Z :=
  ForBatch (if batch <=? 0 then 1 else batch) (Z.of_nat MaxCallsPerOrder) (if callTimeout <=? 0 then seconds 10 else callTimeout) (seconds 60).
End Runner.
Arguments Port {UU}.
