(* ===== verification/RecoveryEvidence.v ===== *)
(** * The recovery decides from evidence

    Whatever the other services answer, and whatever else runs meanwhile: each call of
    a drive is allowed by an answer it has already, a drive ends by giving the claim
    back, and makes no more than seven calls to other services. *)

From S2P Require Import Prelude Text Tables Lifecycle Orders Protocol RecoveryRunner.
#[local] Open Scope Z_scope.

Section Evidence.
Context `{UU : UUID} `{US : !UUIDSource}.

Section Of.
(** The order that was claimed. *)
Variable s : StuckOrder.
Implicit Types (past : list (event Port)).

Definition org : uuid := so_OrganizerID s.
Definition key : string := so_IdempotencyKey s.
Definition hold : uuid := so_HoldID s.

(** ** Evidence *)

Definition saw_no_operation past : Prop := ∃ w, Happened (GetOperation org key) w ∈ past ∧ operation_of w = Ok None.
Definition saw_operation past (status : string) : Prop :=
  ∃ w op, Happened (GetOperation org key) w ∈ past ∧ operation_of w = Ok (Some op) ∧ ob_Resolved op = true ∧ ob_Status op = status.
Definition saw_status past (P : PSPStatus → Prop) : Prop := ∃ w st, Happened (GetStatus org key) w ∈ past ∧ status_of w = Ok st ∧ P st.
Definition outcome_is (o : string) (st : PSPStatus) : Prop := ps_Outcome st = o.

(** The money is in. *)
Definition captured past : Prop :=
  (so_Status s = OrdConfirmationPending ∧ so_Amount s ≠ 0) ∨ saw_operation past "captured" ∨
  saw_status past (λ st, outcome_is "captured" st ∧ ps_Captured st = true).

(** A comp that never went to the provider. *)
Definition nothing_to_charge past : Prop := so_Amount s = 0 ∧ saw_no_operation past.

(** No money moved, and what proves it; the provider's answer says so in its flags too. *)
Definition no_live_money (st : PSPStatus) : Prop := ps_Captured st = false ∧ ps_Authorized st = false.
Definition proves past (out : TerminalOutcome) : Prop :=
  match out with
  | OutNotAttempted => saw_no_operation past
  | OutDeclined => saw_operation past "declined" ∨ saw_status past (λ st, outcome_is "declined" st ∧ no_live_money st)
  | OutTimeout => saw_operation past "timeout" ∨ saw_status past (λ st, outcome_is "timeout" st ∧ no_live_money st)
  | OutNoSideEffect =>
      saw_status past (λ st, outcome_is "voided" st ∧ no_live_money st) ∨
      saw_status past (outcome_is "authorized") ∧ ∃ w r, Happened (PostVoid org key) w ∈ past ∧ compensation_of "void" w = Ok r
  end.

(** The money came back. *)
Definition refunded past : Prop :=
  saw_status past (λ st, outcome_is "refunded" st ∧ no_live_money st) ∨
  ∃ w r, Happened (PostRefund org key) w ∈ past ∧ compensation_of "refund" w = Ok r.

(** The outcome is on the row: since before the claim, or by this drive. *)
Definition outcome_recorded past (out : TerminalOutcome) : Prop :=
  (so_Status s = OrdReleasePending ∧ so_TerminalOutcome s = Some out) ∨
  proves past out ∧ Happened (StRecordTerminalOutcome (so_OrderID s) (so_ClaimID s) out) (Ok tt) ∈ past.

Definition confirmed past : Prop := ∃ w, Happened (PostConfirm org hold) w ∈ past ∧ confirm_of w = Ok tt.
Definition claim_gone past : Prop := ∃ w, Happened (PostConfirm org hold) w ∈ past ∧ confirm_of w = Err true.
Definition released past : Prop := ∃ w, Happened (PostRelease org hold) w ∈ past ∧ release_of w = Ok tt.
Definition journalled_fact past (fact : FactType) : Prop :=
  ∃ s' at_ w, Happened (PostFact s' fact at_) w ∈ past ∧ fact_of w = true ∧ so_OrderID s' = so_OrderID s.

(** ** What each call needs *)

Definition allowed past (c : asked Port) : Prop :=
  match c with
  | Asked e =>
      match e with
      | PostVoid o k => o = org ∧ k = key ∧ saw_status past (λ st, outcome_is "authorized" st ∧ ps_Captured st = false)
      | PostRefund o k => o = org ∧ k = key ∧ saw_status past (λ st, outcome_is "captured" st ∧ ps_Captured st = true ∧ 0 < ps_CapturedAmount st)
      | PostConfirm o h => o = org ∧ h = hold ∧ (captured past ∨ nothing_to_charge past)
      | PostRelease o h => o = org ∧ h = hold ∧ (refunded past ∨ ∃ out, outcome_recorded past out)
      | PostFact s' FactOrderFailed _ => so_OrderID s' = so_OrderID s ∧ released past
      | PostFact s' FactOrderCompleted _ => so_OrderID s' = so_OrderID s ∧ confirmed past ∧ nothing_to_charge past
      | PostFact s' FactOrderCreated _ => so_OrderID s' = so_OrderID s ∧ nothing_to_charge past
      | StRecordTerminalOutcome o c out => o = so_OrderID s ∧ c = so_ClaimID s ∧ proves past out
      | StQueueForCompensation o c _ => o = so_OrderID s ∧ c = so_ClaimID s ∧ captured past ∧ claim_gone past
      | StComplete c => c = so_Completion s ∧ confirmed past ∧
          (captured past ∨ nothing_to_charge past ∧ journalled_fact past FactOrderCreated ∧ journalled_fact past FactOrderCompleted)
      | StMarkReleased s' => so_OrderID s' = so_OrderID s ∧ so_ClaimID s' = so_ClaimID s ∧ released past ∧ journalled_fact past FactOrderFailed ∧
          ∃ out, so_TerminalOutcome s' = Some out ∧ outcome_recorded past out
      | StMarkRefunded s' => so_OrderID s' = so_OrderID s ∧ so_ClaimID s' = so_ClaimID s ∧ released past ∧ journalled_fact past FactOrderFailed ∧ refunded past
      | StPark o c _ | StClearClaim o c | StAbandonClaim o c | StReleaseStuckOrder o c _ => o = so_OrderID s ∧ c = so_ClaimID s
      | _ => True
      end
  end.

(** A call that hands the claim back, and was carried out. *)
Definition gives_up (v : event Port) : Prop :=
  match v with
  | Happened e x =>
      match e in Port X return X → Prop with
      | StPark _ _ _ | StMarkRefunded _ | StMarkReleased _ | StClearClaim _ _ => λ x, x = Ok tt
      | StReleaseStuckOrder _ _ _ => λ _, True
      | _ => λ _, False
      end x
  end.
Definition given_up past : Prop := ∃ tr v, past = tr ++ [v] ∧ gives_up v.

Definition resolved_ends (a : result string unit) past : Prop := match a with Ok _ => given_up past | Err _ => True end.

(** ** What is proved stays proved *)

Lemma saw_status_within past past' P : past ⊆ past' → saw_status past P → saw_status past' P.
Proof. intros Hw (w & st & Hin & H). exists w, st. split; [by apply Hw|done]. Qed.
Lemma saw_operation_within past past' o : past ⊆ past' → saw_operation past o → saw_operation past' o.
Proof. intros Hw (w & op & Hin & H). exists w, op. split; [by apply Hw|done]. Qed.
Lemma saw_no_operation_within past past' : past ⊆ past' → saw_no_operation past → saw_no_operation past'.
Proof. intros Hw (w & Hin & H). exists w. split; [by apply Hw|done]. Qed.
Lemma captured_within past past' : past ⊆ past' → captured past → captured past'.
Proof. intros Hw [H|[H|H]]; [by left|right; left; by eapply saw_operation_within|right; right; by eapply saw_status_within]. Qed.
Lemma nothing_within past past' : past ⊆ past' → nothing_to_charge past → nothing_to_charge past'.
Proof. intros Hw [H1 H2]. split; [done|by eapply saw_no_operation_within]. Qed.
Lemma proves_within past past' out : past ⊆ past' → proves past out → proves past' out.
Proof.
  intros Hw. destruct out; cbn.
  - intros [H|H]; [left; by eapply saw_operation_within|right; by eapply saw_status_within].
  - intros [H|H]; [left; by eapply saw_operation_within|right; by eapply saw_status_within].
  - by apply saw_no_operation_within.
  - intros [H|[H (w & r & Hin & Hr)]]; [left; by eapply saw_status_within|right]. split; [by eapply saw_status_within|].
    exists w, r. split; [by apply Hw|done].
Qed.
Lemma refunded_within past past' : past ⊆ past' → refunded past → refunded past'.
Proof. intros Hw [H|(w & r & Hin & Hr)]; [left; by eapply saw_status_within|right]. exists w, r. split; [by apply Hw|done]. Qed.
Lemma outcome_within past past' out : past ⊆ past' → outcome_recorded past out → outcome_recorded past' out.
Proof. intros Hw [H|[H1 H2]]; [by left|right]. split; [by eapply proves_within|by apply Hw]. Qed.
Lemma confirmed_within past past' : past ⊆ past' → confirmed past → confirmed past'.
Proof. intros Hw (w & Hin & H). exists w. split; [by apply Hw|done]. Qed.
Lemma released_within past past' : past ⊆ past' → released past → released past'.
Proof. intros Hw (w & Hin & H). exists w. split; [by apply Hw|done]. Qed.
Lemma journalled_within past past' f : past ⊆ past' → journalled_fact past f → journalled_fact past' f.
Proof. intros Hw (s' & t & w & Hin & H). exists s', t, w. split; [by apply Hw|done]. Qed.
Create HintDb evidence.
#[local] Hint Resolve captured_within nothing_within proves_within refunded_within outcome_within confirmed_within released_within
  journalled_within saw_status_within grown : evidence.

Lemma last_given_up past v : gives_up v → given_up (past ++ [v]).
Proof. intros Hv. by exists past, v. Qed.

(** The copies of the order that a drive makes. *)
Definition same (s' : StuckOrder) : Prop :=
  so_OrderID s' = so_OrderID s ∧ so_ClaimID s' = so_ClaimID s ∧ so_OrganizerID s' = org ∧ so_HoldID s' = hold ∧ so_IdempotencyKey s' = key ∧
  so_Completion s' = so_Completion s.

Lemma same_set st out s' : same s' → same (set_stuck st out s').
Proof. done. Qed.

Abbreviation drives A := (protocol Port (result string A)).
Abbreviation ob := (obeys allowed).

Lemma store_call_obeys {A} (e : Port (result CommerceError A)) msg past (post : result string A → list (event Port) → Prop) :
  allowed past (Asked e) → (∀ a, post (Ok a) (past ++ [Happened e (Ok a)])) → (∀ er, post (Err msg) (past ++ [Happened e (Err er)])) →
  ob (store_call e msg) past post.
Proof. intros Ha Hok Herr. cbn. split; [done|]. intros [a|er]; cbn; auto. Qed.

Lemma park_obeys s' reason past : same s' → ob (park_for s' reason) past resolved_ends.
Proof.
  intros (Ho & Hc & _). apply store_call_obeys; [done| |done]. intros []. by apply last_given_up.
Qed.

(** The fact is submitted, and was accepted if the drive goes on. *)
Lemma submit_obeys s' fact past (post : result string unit → list (event Port) → Prop) : so_OrderID s' = so_OrderID s →
  (∀ t, allowed (past ++ [Happened (StRecordOrderFact s' fact) (Some t)]) (Asked (PostFact s' fact t))) →
  (∀ past', past ⊆ past' → journalled_fact past' fact → post (Ok tt) past') → (∀ past' msg, post (Err msg) past') →
  ob (submit s' fact) past post.
Proof.
  intros Hs Hf Hok Herr. apply obeys_call; [done|]. intros [t|]; [|apply Herr]. apply obeys_call; [apply Hf|].
  intros w. destruct (fact_of w) eqn:Ew; cbn; [|apply Herr]. apply Hok.
  - eapply grown_trans; apply grown.
  - exists s', t, w. split; [apply seen_last|done].
Qed.

Lemma releaseAndFail_obeys s' out past : same s' → so_TerminalOutcome s' = Some out → outcome_recorded past out → ob (releaseAndFail s') past resolved_ends.
Proof.
  intros Hs Ht Ho. pose proof Hs as (Hid & Hc & Horg & Hh & _). unfold releaseAndFail, finishRefunded. apply obeys_call; [cbn; rewrite Horg, Hh; by split_and!; eauto|].
  rewrite Horg, Hh. intros w. destruct (release_of w) as [[]|[]] eqn:Ew; [|by apply park_obeys|done].
  apply obeys_try. set (past1 := past ++ _).
  assert (Hrel : released past1) by (exists w; split; [apply seen_last|done]).
  assert (Hw1 : past ⊆ past1) by apply grown.
  apply submit_obeys; [done| |intros past2 Hw2 Hj|done].
  - intros t. cbn. split; [done|]. eapply released_within; [apply grown|done].
  - apply store_call_obeys; [|intros []; by apply last_given_up|done]. cbn. split_and!; [done|done|by eapply released_within|done|].
    exists out. split; [done|]. by apply (outcome_within past); [apply (grown_trans past past1)|].
Qed.

Lemma recordAndRelease_obeys s' out past : same s' → proves past out → ob (recordAndRelease s' out) past resolved_ends.
Proof.
  intros Hs Hp. pose proof Hs as (Hid & Hc & _). apply obeys_try. apply store_call_obeys; [cbn; by split_and!| |done]. intros [].
  apply (releaseAndFail_obeys _ out); [by apply same_set|done|]. right. rewrite Hid, Hc. split; [|apply seen_last].
  eapply proves_within; [apply grown|done].
Qed.

Lemma finishRefunded_obeys s' past : same s' → refunded past → ob (finishRefunded s') past resolved_ends.
Proof.
  intros Hs Hr. pose proof Hs as (Hid & Hc & Horg & Hh & _). unfold releaseAndFail, finishRefunded. apply obeys_call; [cbn; rewrite Horg, Hh; by split_and!; eauto|].
  rewrite Horg, Hh. intros w. destruct (release_of w) as [[]|[]] eqn:Ew; [|by apply park_obeys|done].
  apply obeys_try. set (past1 := past ++ _).
  assert (Hrel : released past1) by (exists w; split; [apply seen_last|done]).
  assert (Hw1 : past ⊆ past1) by apply grown.
  apply submit_obeys; [done| |intros past2 Hw2 Hj|done].
  - intros t. cbn. split; [done|]. eapply released_within; [apply grown|done].
  - apply store_call_obeys; [|intros []; by apply last_given_up|done]. cbn. split_and!; [done|done|by eapply released_within|done|].
    by apply (refunded_within past); [apply (grown_trans past past1)|].
Qed.

Lemma complete_and_clear_obeys s' past : same s' → confirmed past →
  captured past ∨ nothing_to_charge past ∧ journalled_fact past FactOrderCreated ∧ journalled_fact past FactOrderCompleted →
  ob (complete_and_clear s') past resolved_ends.
Proof.
  intros Hs Hc He. pose proof Hs as (Hid & Hcl & _ & _ & _ & Hco). apply obeys_try.
  apply store_call_obeys; [cbn; by rewrite Hco| |done]. intros ref.
  apply store_call_obeys; [done| |done]. intros []. by apply last_given_up.
Qed.

(** What a status that the client lets through says. *)
Lemma status_consistent w st : status_of w = Ok st → consistentStatus st = true.
Proof.
  unfold status_of. intros H. destruct (decoded w) as [[code [b|]]|]; [| |done].
  - destruct (code =? 200); [destruct (consistentStatus b) eqn:E; by simplify_eq|]. repeat case_match; by simplify_eq.
  - repeat case_match; by simplify_eq.
Qed.

Lemma consistent_outcome st : consistentStatus st = true →
  (ps_Outcome st = "captured"%string → ps_Captured st = true) ∧
  (ps_Outcome st = "authorized"%string → ps_Captured st = false) ∧
  (ps_Outcome st ∈ ["declined"; "timeout"; "voided"; "refunded"]%string → no_live_money st).
Proof.
  unfold consistentStatus, no_live_money. intros H. split_and!.
  - intros E. rewrite E in H. cbn in H. by destruct (ps_Captured st).
  - intros E. rewrite E in H. cbn in H. by destruct (ps_Captured st), (ps_Authorized st).
  - intros E. repeat (apply elem_of_cons in E as [E|E];
      [rewrite E in H; cbn in H; by destruct (ps_Captured st), (ps_Authorized st), (ps_TerminalNoSideEffect st)|]). by apply not_elem_of_nil in E.
Qed.

Lemma saw_captured past w st : Happened (GetStatus org key) w ∈ past → status_of w = Ok st → ps_Outcome st = "captured"%string →
  saw_status past (λ st, outcome_is "captured" st ∧ ps_Captured st = true).
Proof. intros Hin Hw Ho. exists w, st. split_and!; [done|done|done|]. by apply (proj1 (consistent_outcome st (status_consistent w st Hw))). Qed.

Lemma saw_ended past w st o : Happened (GetStatus org key) w ∈ past → status_of w = Ok st → ps_Outcome st = o →
  bool_decide (o ∈ ["declined"; "timeout"; "voided"; "refunded"]%string) = true → saw_status past (λ st, outcome_is o st ∧ no_live_money st).
Proof.
  intros Hin Hw <- He. exists w, st. split_and!; [done|done|done|]. apply (proj2 (proj2 (consistent_outcome st (status_consistent w st Hw)))).
  by apply bool_decide_eq_true in He.
Qed.

(** The shared table of outcomes. *)
Lemma act_obeys (p : drives unit) s' past w st : same s' → Happened (GetStatus org key) w ∈ past → status_of w = Ok st →
  (ps_Outcome st = "captured"%string → ob p past resolved_ends) → ob (actOnProviderStatus p s' st) past resolved_ends.
Proof.
  intros Hs Hin Hw Hp. pose proof Hs as (_ & _ & Horg & _ & Hkey & _). unfold actOnProviderStatus. cbv zeta.
  case_bool_decide as E1; [by apply Hp|]. case_bool_decide as E2.
  { assert (Ha : saw_status past (λ st, outcome_is "authorized" st ∧ ps_Captured st = false)).
    { exists w, st. split_and!; [done|done|done|]. by apply (proj1 (proj2 (consistent_outcome st (status_consistent w st Hw)))). }
    apply obeys_call; [cbn; rewrite Horg, Hkey; by split_and!|]. rewrite Horg, Hkey. intros w'.
    destruct (compensation_of "void" w') as [r|] eqn:Ev; [|done]. apply recordAndRelease_obeys; [done|]. right. split.
    - eapply saw_status_within; [apply grown|]. destruct Ha as (w0 & st0 & H1 & H2 & H3 & _). by exists w0, st0.
    - exists w', r. split; [apply seen_last|done]. }
  case_bool_decide as E3; [apply recordAndRelease_obeys; [done|]; right; by eapply saw_ended|].
  case_bool_decide as E4; [apply recordAndRelease_obeys; [done|]; right; by eapply saw_ended|].
  case_bool_decide as E5; [apply recordAndRelease_obeys; [done|]; left; by eapply saw_ended|].
  case_bool_decide as E6; [apply finishRefunded_obeys; [done|]; left; by eapply saw_ended|]. done.
Qed.

Lemma resolveReconciliation_obeys s' past : same s' → ob (resolveReconciliation s') past resolved_ends.
Proof.
  intros Hs. pose proof Hs as (_ & _ & Horg & _ & Hkey & _). unfold resolveReconciliation. apply obeys_call; [done|]. rewrite Horg, Hkey. intros w.
  destruct (status_of w) as [st|[]] eqn:Ew; [|by apply park_obeys|by apply park_obeys|done|done].
  case_bool_decide as Ec; [|apply (act_obeys _ _ _ w); [done|apply seen_last|done|done]].
  destruct (ps_CapturedAmount st <=? 0) eqn:Ea; [by apply park_obeys|]. zbool.
  apply obeys_call.
  { cbn. split_and!; [done|done|]. destruct (saw_captured (past ++ [Happened (GetStatus org key) w]) w st (seen_last _ _) Ew Ec) as (w0 & st0 & _).
    exists w, st. split_and!; [apply seen_last|done|done| |done]. by apply (proj1 (consistent_outcome st (status_consistent w st Ew))). }
  intros w'. destruct (compensation_of "refund" w') as [r|[]] eqn:Er; try done.
  - apply finishRefunded_obeys; [done|]. right. exists w', r. split; [apply seen_last|done].
  - destruct (usableRefundRef ref); [by apply park_obeys|done].
Qed.

Lemma confirmAndComplete_obeys s' past : same s' → captured past → ob (confirmAndComplete s') past resolved_ends.
Proof.
  intros Hs Hcap. pose proof Hs as (Hid & Hc & Horg & Hh & _). unfold confirmAndComplete.
  apply obeys_call; [cbn; rewrite Horg, Hh; by split_and!; [..|left]|]. rewrite Horg, Hh. intros w.
  assert (Hcap' : captured (past ++ [Happened (PostConfirm org hold) w])) by (eapply captured_within; [apply grown|done]).
  destruct (confirm_of w) as [[]|[]] eqn:Ew; [| |done].
  - apply complete_and_clear_obeys; [done| |by left]. exists w. split; [apply seen_last|done].
  - apply obeys_try. apply store_call_obeys; [| |done].
    + cbn. split_and!; [done|done|done|]. exists w. split; [apply seen_last|done].
    + intros []. by apply resolveReconciliation_obeys, same_set.
Qed.

Lemma completeZero_obeys s' past : same s' → nothing_to_charge past → ob (completeZero s') past resolved_ends.
Proof.
  intros Hs Hn. pose proof Hs as (Hid & Hc & Horg & Hh & _). apply obeys_try.
  apply submit_obeys; [done| |intros p1 Hw1 Hj1|done].
  { intros t. cbn. split; [done|]. eapply nothing_within; [apply grown|done]. }
  assert (Hn1 : nothing_to_charge p1) by by eapply nothing_within.
  apply obeys_call; [cbn; rewrite Horg, Hh; by split_and!; [..|right]|]. rewrite Horg, Hh. intros w.
  destruct (confirm_of w) as [[]|[]] eqn:Ew; [|by apply park_obeys|done].
  set (p2 := p1 ++ _). assert (Hc2 : confirmed p2) by (exists w; split; [apply seen_last|done]).
  assert (Hw2 : p1 ⊆ p2) by apply grown.
  apply obeys_try, submit_obeys; [done| |intros p3 Hw3 Hj3|done].
  { intros t. cbn. split_and!; [done|eapply confirmed_within; [apply grown|done]|].
    eapply nothing_within; [apply grown|]. by apply (nothing_within p1). }
  apply complete_and_clear_obeys; [done|by apply (confirmed_within p2)|]. right.
  split_and!; [|by apply (journalled_within p1); [apply (grown_trans p1 p2)|]|done]. by apply (nothing_within p1); [apply (grown_trans p1 p2)|].
Qed.

Lemma resolveCreated_obeys past : ob (resolveCreated s) past resolved_ends.
Proof.
  assert (Hs : same s) by by split_and!. unfold resolveCreated. apply obeys_call; [done|]. fold org key. intros w. set (p1 := past ++ _).
  assert (Hw : Happened (GetOperation org key) w ∈ p1) by apply seen_last.
  destruct (operation_of w) as [[op|]|] eqn:Ew; [| |done].
  - destruct (_ && _); [by apply park_obeys|]. destruct (ob_Resolved op) eqn:Er; cbn [negb].
    + case_bool_decide as E1; [apply confirmAndComplete_obeys; [done|]; right; left; by exists w, op|].
      case_bool_decide as E2; [apply recordAndRelease_obeys; [done|]; left; by exists w, op|].
      case_bool_decide as E3; [apply recordAndRelease_obeys; [done|]; left; by exists w, op|]. done.
    + apply obeys_call; [done|]. intros now. destruct (match _ with Some _ => _ | None => _ end); [by apply park_obeys|].
      apply obeys_call; [done|]. fold org key. intros w'.
      destruct (status_of w') as [st|[]] eqn:Ew'; [|by apply park_obeys|by apply park_obeys|done|done].
      apply (act_obeys _ _ _ w'); [done|apply seen_last|done|]. intros Hc. apply confirmAndComplete_obeys; [done|]. right. right.
      by eapply saw_captured; [apply seen_last|..].
  - assert (Hno : saw_no_operation p1) by by exists w.
    destruct (so_Amount s =? 0) eqn:Ea; cbn [andb].
    + zbool. case_bool_decide as E1.
      * apply obeys_call; [done|]. intros [[]|]; [| |done].
        -- apply completeZero_obeys; [done|]. split; [done|]. eapply saw_no_operation_within; [apply grown|done].
        -- apply recordAndRelease_obeys; [done|]. eapply proves_within; [apply grown|done].
      * case_bool_decide as E2; [by apply completeZero_obeys|by apply recordAndRelease_obeys].
    + by apply recordAndRelease_obeys.
Qed.

Lemma drive_obeys past : ob (drive s) past resolved_ends.
Proof.
  assert (Hs : same s) by by split_and!. unfold drive. destruct (so_Status s) eqn:Est; try done.
  - apply resolveCreated_obeys.
  - apply resolveCreated_obeys.
  - destruct (so_Amount s =? 0) eqn:Ea; [apply resolveCreated_obeys|]. zbool. apply confirmAndComplete_obeys; [done|]. by left.
  - destruct (so_TerminalOutcome s) as [out|] eqn:Eo; [|done]. apply (releaseAndFail_obeys _ out); [done|done|]. by left.
  - by apply resolveReconciliation_obeys.
Qed.

Lemma drive_one_obeys : ob (drive_one s) [] (λ _ tr, given_up tr).
Proof.
  apply obeys_bind. eapply obeys_mono; [|apply drive_obeys]. intros [[]|cause] tr Hend; [exact Hend|].
  apply obeys_bind. apply obeys_call; [done|]. intros x. by apply last_given_up.
Qed.
End Of.

(** ** Traces of a batch *)

(** The statements that give the claim of [s] back. *)
Definition hands_back (s : StuckOrder) (v : event Port) : Prop :=
  match call_of v with
  | Asked e =>
      match e with
      | StPark o c _ | StClearClaim o c | StAbandonClaim o c | StReleaseStuckOrder o c _ => o = so_OrderID s ∧ c = so_ClaimID s
      | StMarkRefunded s' | StMarkReleased s' => so_OrderID s' = so_OrderID s ∧ so_ClaimID s' = so_ClaimID s
      | _ => False
      end
  end.

(** It was carried out; or it is the last resort, a release or a hand-back, whose own
    failure is logged and leaves the claim to its lease. *)
Definition carried_out (v : event Port) : Prop :=
  match v with
  | Happened e x =>
      match e in Port X return X → Prop with
      | StPark _ _ _ | StMarkRefunded _ | StMarkReleased _ | StClearClaim _ _ => λ x, x = Ok tt
      | StReleaseStuckOrder _ _ _ | StAbandonClaim _ _ => λ _, True
      | _ => λ _, False
      end x
  end.
Definition given_back (s : StuckOrder) (tr : list (event Port)) : Prop := ∃ v, v ∈ tr ∧ hands_back s v ∧ carried_out v.

Lemma gives_up_carried v : gives_up v → carried_out v.
Proof. destruct v as [X e x]. by destruct e. Qed.

Lemma given_back_within s tr tr' : tr ⊆ tr' → given_back s tr → given_back s tr'.
Proof. intros Hw (v & Hv & H). exists v. split; [by apply Hw|done]. Qed.

Lemma allowed_hands_back s past v : allowed s past (call_of v) → gives_up v → hands_back s v.
Proof. destruct v as [X e x]. unfold hands_back. destruct e; cbn; try done; naive_solver. Qed.

Lemma drive_one_hands_back s tr b : traces (drive_one s) tr b → given_back s tr.
Proof.
  intros Ht. destruct (obeys_traces _ _ _ _ _ _ (drive_one_obeys s) Ht) as [Hall (tr' & v & Heq & Hv)]. cbn in Heq, Hall.
  exists v. split; [rewrite Heq; apply elem_of_app; right; by left|]. split; [|by apply gives_up_carried].
  eapply allowed_hands_back; [|exact Hv]. by apply (Hall tr' v []).
Qed.

Lemma hand_back_traces l tr u : traces (hand_back_undriven l) tr u → ∀ s, s ∈ l → given_back s tr.
Proof.
  revert tr. induction l as [|s l IH]; intros tr; [intros _ s Hs; by apply not_elem_of_nil in Hs|]. cbn.
  intros (x & tr' & -> & Ht) s' Hs'. apply elem_of_cons in Hs' as [->|Hs'].
  - eexists. split; [by left|]. by split; [split|].
  - eapply given_back_within; [|by apply (IH _ Ht s' Hs')]. intros v Hv. by right.
Qed.

(** ** How many calls a drive makes *)

Definition external (c : asked Port) : bool :=
  match c with
  | Asked e => match e with
    | GetOperation _ _ | GetStatus _ _ | PostVoid _ _ | PostRefund _ _ | PostConfirm _ _ | PostRelease _ _ | PostFact _ _ _ => true
    | _ => false
    end
  end.

Abbreviation calls := (at_most external).

Lemma store_call_calls {A} (e : Port (result CommerceError A)) msg : external (Asked e) = false → calls 0 (store_call e msg).
Proof. intros He. apply at_most_aside; [done|]. by intros []. Qed.

Lemma submit_calls s fact : calls 1 (submit s fact).
Proof. cbn. intros [t|]; [|done]. cbn. intros w. by destruct (fact_of w). Qed.

Lemma park_calls n s reason : calls n (park_for s reason).
Proof. apply (at_most_mono _ 0); [lia|]. by apply store_call_calls. Qed.

Lemma releaseAndFail_calls s : calls 2 (releaseAndFail s).
Proof.
  unfold releaseAndFail. apply at_most_ask; [done|]. intros w. destruct (release_of w) as [[]|[]]; [|apply park_calls|done].
  apply (at_most_try external 1 0); [apply submit_calls|]. intros _. by apply store_call_calls.
Qed.

Lemma finishRefunded_calls s : calls 2 (finishRefunded s).
Proof.
  unfold finishRefunded. apply at_most_ask; [done|]. intros w. destruct (release_of w) as [[]|[]]; [|apply park_calls|done].
  apply (at_most_try external 1 0); [apply submit_calls|]. intros _. by apply store_call_calls.
Qed.

Lemma recordAndRelease_calls s out : calls 2 (recordAndRelease s out).
Proof. apply (at_most_try external 0 2); [by apply store_call_calls|]. intros _. apply releaseAndFail_calls. Qed.

Lemma complete_and_clear_calls s : calls 0 (complete_and_clear s).
Proof. apply (at_most_try external 0 0); [by apply store_call_calls|]. intros _. by apply store_call_calls. Qed.

Lemma act_calls n p s st : (3 ≤ n)%nat → calls n p → calls n (actOnProviderStatus p s st).
Proof.
  intros Hn Hp. assert (Hr : ∀ out, calls n (recordAndRelease s out)) by (intros out; apply (at_most_mono _ 2); [lia|apply recordAndRelease_calls]).
  unfold actOnProviderStatus. cbv zeta. repeat case_bool_decide; try done.
  - apply (at_most_mono _ 3); [done|]. apply at_most_ask; [done|]. intros w. destruct (compensation_of "void" w); [apply recordAndRelease_calls|done].
  - apply (at_most_mono _ 2); [lia|apply finishRefunded_calls].
Qed.

Lemma resolveReconciliation_calls s : calls 4 (resolveReconciliation s).
Proof.
  unfold resolveReconciliation. apply at_most_ask; [done|]. intros w. destruct (status_of w) as [st|[]]; try done; try apply park_calls.
  case_bool_decide; [|by apply act_calls]. destruct (ps_CapturedAmount st <=? 0); [apply park_calls|].
  apply at_most_ask; [done|]. intros w'. destruct (compensation_of "refund" w') as [|[]]; try done; [apply finishRefunded_calls|].
  destruct (usableRefundRef ref); [apply park_calls|done].
Qed.

Lemma confirmAndComplete_calls s : calls 5 (confirmAndComplete s).
Proof.
  unfold confirmAndComplete. apply at_most_ask; [done|]. intros w. destruct (confirm_of w) as [[]|[]]; [| |done].
  - apply (at_most_mono _ 0); [lia|apply complete_and_clear_calls].
  - apply (at_most_try external 0 4); [by apply store_call_calls|]. intros _. apply resolveReconciliation_calls.
Qed.

Lemma completeZero_calls s : calls 3 (completeZero s).
Proof.
  apply (at_most_try external 1 2); [apply submit_calls|]. intros _. apply at_most_ask; [done|]. intros w.
  destruct (confirm_of w) as [[]|[]]; [|apply park_calls|done]. apply (at_most_try external 1 0); [apply submit_calls|]. intros _. apply complete_and_clear_calls.
Qed.

Lemma resolveCreated_calls s : calls 7 (resolveCreated s).
Proof.
  assert (Hr : ∀ n out, (2 ≤ n)%nat → calls n (recordAndRelease s out)) by (intros n out Hn; apply (at_most_mono _ 2); [done|apply recordAndRelease_calls]).
  unfold resolveCreated. apply at_most_ask; [done|]. intros w. destruct (operation_of w) as [[op|]|]; [| |done].
  - destruct (_ && _); [apply park_calls|]. destruct (negb (ob_Resolved op)).
    + apply at_most_aside; [done|]. intros now. destruct (match _ with Some _ => _ | None => _ end); [apply park_calls|].
      apply at_most_ask; [done|]. intros w'. destruct (status_of w') as [st|[]]; try done; try apply park_calls.
      apply act_calls; [lia|apply confirmAndComplete_calls].
    + repeat case_bool_decide; try done; try (apply Hr; lia). apply (at_most_mono _ 5); [lia|apply confirmAndComplete_calls].
  - destruct (_ && _).
    + apply at_most_aside; [done|]. intros [[]|]; try done; [|apply Hr; lia]. apply (at_most_mono _ 3); [lia|apply completeZero_calls].
    + destruct (_ && _); [apply (at_most_mono _ 3); [lia|apply completeZero_calls]|apply Hr; lia].
Qed.

Lemma drive_one_calls s : calls 7 (drive_one s).
Proof.
  apply (at_most_bind external 7 0); [|by intros []]. unfold drive. destruct (so_Status s); try done; try apply resolveCreated_calls.
  - destruct (so_Amount s =? 0); [apply resolveCreated_calls|]. apply (at_most_mono _ 5); [lia|apply confirmAndComplete_calls].
  - destruct (so_TerminalOutcome s); [|done]. apply (at_most_mono _ 2); [lia|apply releaseAndFail_calls].
  - apply (at_most_mono _ 4); [lia|apply resolveReconciliation_calls].
Qed.

(** C10 (safety). The recovery acts on evidence. Whatever the other services and the
    store answer a drive, each of its calls is allowed by answers it already has: the
    seat is confirmed and the order completed only for money a payment answer proves
    captured, or for a comp without an operation; the seat is released only under a
    recorded proof that no money is live, read from a body whose flags agree, or after
    the money came back; a refund is asked only for captured money and a void only for
    an authorization; and an order is closed only after its release was answered and
    its fact journalled. *)
Theorem recovery_acts_on_evidence (s : StuckOrder) (tr : list (event Port)) (b : bool) (Ht : traces (drive_one s) tr b) :
  ∀ tr1 v tr2, tr = tr1 ++ v :: tr2 → allowed s tr1 (call_of v).
Proof. exact (proj1 (obeys_traces _ _ _ _ _ _ (drive_one_obeys s) Ht)). Qed.

(** C31 (termination). A batch ends and gives every claim back. Whatever the services and
    the store answer, for every order that was claimed the batch has carried out a
    statement that ends its claim: it was closed, completed or parked by a statement that
    succeeded, or, when its drive failed, the failure of that very statement included, it
    was released for a later attempt; when the process is stopping, it was handed back
    undriven. Only the failure of that release or hand-back itself leaves a claim, which
    then ends with its lease. No drive makes more than seven calls to other services. *)
Theorem every_claim_is_given_back (l : list StuckOrder) (n m : Z) (tr : list (event Port)) (Ht : traces (run_batch l n) tr m) :
  (∀ s, s ∈ l → given_back s tr) ∧ (counted external tr ≤ 7 * length l)%nat.
Proof.
  revert n tr Ht. induction l as [|s l IH]; intros n tr; [intros [-> _]; split; [intros s Hs; by apply not_elem_of_nil in Hs|done]|].
  cbn [run_batch]. intros (tr1 & tr2 & stop & -> & (x & tr1' & -> & [-> ->]) & Ht)%traces_bind. destruct x.
  - apply traces_bind in Ht as (tr3 & tr4 & u & -> & Ht & [-> _]). rewrite app_nil_r. split.
    + intros s' Hs'. eapply given_back_within; [|by apply (hand_back_traces _ _ _ Ht s' Hs')]. intros v Hv. by right.
    + change (counted external tr3 ≤ 7 * S (length l))%nat.
      assert (H0 : calls 0 (hand_back_undriven (s :: l))); [|pose proof (at_most_traces _ _ _ _ _ H0 Ht); lia].
      generalize (s :: l). clear. intros l. induction l as [|s l IH]; [done|]. cbn [hand_back_undriven]. apply at_most_aside; [done|]. intros _. exact IH.
  - apply traces_bind in Ht as (tr3 & tr4 & ok & -> & H3 & H4). destruct (IH _ _ H4) as [IH1 IH2]. split.
    + intros s' Hs'. apply elem_of_cons in Hs' as [->|Hs'].
      * eapply given_back_within; [|by apply (drive_one_hands_back _ _ _ H3)]. intros v Hv. right. apply elem_of_app. by left.
      * eapply given_back_within; [|by apply (IH1 s' Hs')]. intros v Hv. right. apply elem_of_app. by right.
    + pose proof (at_most_traces _ _ _ _ _ (drive_one_calls s) H3) as Hc. unfold counted in *. cbn [app List.filter call_of external].
      rewrite List.filter_app, length_app. cbn [length]. lia.
Qed.
End Evidence.

(** ** The lease of a batch *)

Lemma le_quot_mul a b c : 0 < b → 0 ≤ a → c ≤ Z.quot a b → b * c ≤ a.
Proof.
  intros Hb Ha Hc. rewrite Z.quot_div_nonneg in Hc by done. pose proof (Z.mul_div_le a b Hb) as Hd.
  transitivity (b * (a / b)); [apply Z.mul_le_mono_nonneg_l; [by apply Z.lt_le_incl|done]|done].
Qed.

(** A lease that is granted is exact: no product of it has wrapped. *)
Lemma ForBatch_exact batch callsPerItem callTimeout margin lease : int64 margin →
  ForBatch batch callsPerItem callTimeout margin = Ok lease → lease = batch * callsPerItem * callTimeout + margin ∧ 0 < lease.
Proof.
  unfold ForBatch, maxDuration. intros [_ Hm] H. cbv zeta in H.
  destruct (batch <=? 0) eqn:B1; [done|]. destruct (callsPerItem <=? 0) eqn:B2; [done|]. destruct (callTimeout <=? 0) eqn:B3; [done|].
  destruct (margin <? 0) eqn:B4; [done|]. destruct (Z.quot MaxInt64 batch <? callsPerItem) eqn:B5; [done|].
  destruct (Z.quot (sub64 MaxInt64 margin) callTimeout <? mul64 batch callsPerItem) eqn:B6; [done|]. injection H as <-.
  apply Z.leb_gt in B1, B2, B3. apply Z.ltb_ge in B4, B5, B6.
  assert (I1 : batch * callsPerItem ≤ MaxInt64) by by apply le_quot_mul. clear B5.
  assert (P1 : 0 < batch * callsPerItem) by by apply Z.mul_pos_pos.
  assert (E1 : mul64 batch callsPerItem = batch * callsPerItem) by (apply mul64_id, int64_nonneg; split; [by apply Z.lt_le_incl|done]).
  assert (E2 : sub64 MaxInt64 margin = MaxInt64 - margin) by (apply sub64_id, int64_nonneg; clear -Hm B4; lia).
  rewrite E1, E2 in *.
  assert (I2 : callTimeout * (batch * callsPerItem) ≤ MaxInt64 - margin) by (apply le_quot_mul; [done|clear -Hm; lia|done]). clear B6 E1 E2.
  rewrite Z.mul_comm in I2. assert (P2 : 0 < batch * callsPerItem * callTimeout) by by apply Z.mul_pos_pos.
  set (p := batch * callsPerItem * callTimeout) in *. unfold mul64. fold p.
  rewrite (wrap64_id p), add64_id by (apply int64_nonneg; clear -I2 P2 B4; lia). clear -P2 B4. lia.
Qed.

(** ** Witnesses *)

#[local] Existing Instance text_uuid.
#[local] Instance plain_ids : UUIDSource := {| NewSHA1 := λ s, s; is_v4 := λ _, true |}.

Definition lost_order : StuckOrder := {|
  so_OrderID := "order"%string; so_ReservationID := "res"%string; so_OrganizerID := "org"%string; so_HoldID := "hold"%string; so_BuyerID := "buyer"%string;
  so_SlotID := "slot"%string; so_TicketTypeID := "type"%string; so_Quantity := 2; so_Amount := 2100; so_Currency := "EUR"; so_Status := OrdCreated;
  so_IdempotencyKey := "k1"; so_TerminalOutcome := None; so_ClaimID := "c1"%string; so_Attempts := 0 |}.

(** The operation is bound, the provider captured it, and the seat is gone. *)
Definition captured_seat_gone (X : Type) (e : Port X) : X :=
  match e in Port X return X with
  | GetOperation _ _ => Answered 200 (Some {| ob_Resolved := false; ob_Status := ""; ob_OccurredAt := 0; ob_StatusReplayDeadlineAt := None |})
  | GetStatus _ _ => Answered 200 (Some {| ps_Outcome := "captured"; ps_TerminalNoSideEffect := false; ps_Captured := true; ps_Authorized := true;
      ps_AuthorizedAmount := 2100; ps_CapturedAmount := 2100; ps_Currency := "EUR" |})
  | PostVoid _ _ => NoAnswer
  | PostRefund _ _ => Answered 200 (Some {| cp_Status := "refunded"; cp_Replay := false; cp_Code := ""; cp_ProviderRef := "re_1" |})
  | PostConfirm _ _ => Answered 409 None
  | PostRelease _ _ => Answered 200 None
  | PostFact _ _ _ => Answered 200 None
  | StRecordOrderFact _ _ => Some 0
  | StOrderFactRecorded _ _ => Some true
  | StRecordTerminalOutcome _ _ _ | StPark _ _ _ | StQueueForCompensation _ _ _ | StMarkRefunded _ | StMarkReleased _ | StClearClaim _ _
  | StAbandonClaim _ _ => Ok tt
  | StReleaseStuckOrder _ _ _ => Ok false
  | StComplete _ => Ok "guest"%string
  | ClockNow => 0
  | Cancelled => false
  end.

Definition lost_trace : list (event Port) := (follow captured_seat_gone (drive_one lost_order)).1.

Lemma recovery_acts_on_evidence_witness :
  list.last (map call_of lost_trace) = Some (Asked (StMarkRefunded (set_stuck OrdReconciliationRequired None lost_order))) ∧
  (∀ tr1 v tr2, lost_trace = tr1 ++ v :: tr2 → allowed lost_order tr1 (call_of v)).
Proof.
  split; [vm_compute; reflexivity|].
  exact (@recovery_acts_on_evidence text_uuid lost_order lost_trace _ (follow_traces captured_seat_gone (drive_one lost_order))).
Defined.

Lemma every_claim_is_given_back_witness :
  let tr := (follow captured_seat_gone (run_batch [lost_order; lost_order] 0)).1 in
  counted external tr = 14%nat ∧ (∀ s, s ∈ [lost_order; lost_order] → given_back s tr).
Proof.
  split; [vm_compute; reflexivity|].
  exact (proj1 (@every_claim_is_given_back text_uuid [lost_order; lost_order] 0 _ _ (follow_traces captured_seat_gone (run_batch [lost_order; lost_order] 0)))).
Defined.

(** The lease is sized for six calls per order and a drive can make seven: a batch of
    sixteen whose calls take their ten seconds outlives its lease. *)
Example seven_calls_outlive_the_lease :
  counted external lost_trace = S MaxCallsPerOrder ∧
  (λ l, l <? 16 * Z.of_nat (counted external lost_trace) * seconds 10) <$> LeaseFor 16 (seconds 10) = Ok true.
Proof. split; vm_compute; reflexivity. Qed.
