(* ===== verification/CheckoutService.v ===== *)
(** * Checking out a reservation

    [services/commerce/internal/api/server.go], [executeCheckout] and what it shares
    with recovery: the claim of the order, the replays that answer from what is durable,
    the fact, the finalized hold, the one charge, and the tail that confirms, journals
    and completes. The store's statements are those of [Orders]; the charge's plan is
    [SalePlan]'s. The request's fingerprint is an argument, and the buyer's name and
    address are carried as the one row they are written to; the account that an order is
    attributed to is not modelled. *)

From S2P Require Import Prelude Text Tables Lifecycle Orders PaymentFlows Composition SalePlan Protocol RecoveryRunner.
#[local] Open Scope Z_scope.

(** What the buyer is told: a status code and a body. *)
Inductive ReplyBody (U : Type) :=
| BError (why : string)
| BStatus (order : U) (status : string)
| BReconciling (order : U) (status : string)
| BCompleted (order ref : U).
Arguments BError {U}.
Arguments BStatus {U}.
Arguments BReconciling {U}.
Arguments BCompleted {U}.

Definition status_text (st : OrderStatus) : string :=
  match st with
  | OrdCreated => "created" | OrdPaymentUnknown => "payment_unknown" | OrdConfirmationPending => "confirmation_pending"
  | OrdReleasePending => "release_pending" | OrdCompleted => "completed" | OrdDeclined => "declined" | OrdTimeout => "timeout"
  | OrdReconciliationRequired => "reconciliation_required" | OrdRefunded => "refunded"
  end.

Inductive HoldStep := StepFinalize | StepConfirm | StepRelease.

Section Checkout.
Context `{UU : UUID} `{US : !UUIDSource}.
(** Whether a publisher is configured, for the inline send. *)
Context (has_publisher : bool).

Abbreviation Reply := (Z * ReplyBody uuid)%type.

(** A reservation as [load] scans it. *)
Record LoadedReservation := { ld_ID : uuid; ld_Row : ReservationRow; ld_Snapshot : StoredSnapshot }.

Record CheckoutRequest := { ck_Key : string; ck_Fingerprint : string; ck_PaymentToken : string }.

(** The status of a failed payment's body, when it has one. *)
Record PaymentBody := { pb_Status : option string }.

Inductive Till : Type → Type :=
| TClaim (reservation org : uuid) (amount : Z) (key fingerprint : string) : Till (result CommerceError CheckoutClaim)
| TGuestRef (order : uuid) : Till (option uuid)
| TFrozen (order : uuid) : Till (option (uuid * Envelope))
| TPublish (event : uuid) (e : Envelope) : Till bool
| TPublishedByOrder (order : uuid) : Till bool
| TPersistBuyer (buyer : uuid) : Till bool
| TInsertFact (order org buyer : uuid) (fact : FactType) (amount : Z) (currency : string) : Till bool
| TFactTime (order : uuid) (fact : FactType) : Till (option time)
| PostOrderFact (order org buyer : uuid) (fact : FactType) (amount : Z) (currency : string) (occurred : time) : Till (Wire unit)
| PostHold (step : HoldStep) (hold org : uuid) : Till (Wire unit)
| TFinalizing (reservation : uuid) : Till bool
| PostCharge (key : string) (order org buyer : uuid) (amount : Z) (currency token : string) (plan : settlementPlanRequest) : Till (Wire PaymentBody)
| TReservationUnknown (reservation : uuid) : Till bool
| TOrderUnknown (order : uuid) : Till (option bool)
| TReadOrder (order : uuid) : Till (option (OrderStatus * bool))
| TTerminalFailure (reservation order : uuid) (st : OrderStatus) : Till bool
| TConfirmationPending (order : uuid) : Till (option bool)
| TMintRef : Till (option uuid)
| TComplete (c : Completion) (ref : uuid) : Till (result CommerceError uuid).

Abbreviation till A := (protocol Till A).

Definition told (code : Z) (b : ReplyBody uuid) : till Reply := Done (code, b).
Definition told_error (code : Z) (why : string) : till Reply := told code (BError why).

Definition wire_ok {B} (w : Wire B) : bool := match w with Answered code _ => code =? 200 | NoAnswer => false end.

(** ** The parts *)

Definition publishOwed (order : uuid) : till unit :=
  if negb has_publisher then Done tt
  else
    owed ← call (TFrozen order);
    match owed with
    | None => Done tt
    | Some (event, e) =>
        sent ← call (TPublish event e);
        if (sent : bool) then _ ← call (TPublishedByOrder order); Done tt else Done tt
    end.

(** [fact]: false when the journal does not have it. *)
Definition order_fact (x : LoadedReservation) (order : uuid) (fact : FactType) : till bool :=
  let r := ld_Row x in
  ok ← call (TInsertFact order (rs_OrganizerID r) (rs_BuyerID r) fact (rs_TotalAmount r) (rs_Currency r));
  if negb ok then Done false
  else
    at_ ← call (TFactTime order fact);
    match at_ with
    | None => Done false
    | Some t =>
        w ← call (PostOrderFact order (rs_OrganizerID r) (rs_BuyerID r) fact (rs_TotalAmount r) (rs_Currency r) t);
        Done (wire_ok w)
    end.

Definition hold_step (x : LoadedReservation) (step : HoldStep) : till bool :=
  w ← call (PostHold step (rs_HoldID (ld_Row x)) (rs_OrganizerID (ld_Row x))); Done (wire_ok w).

Definition terminalCheckoutCode (st : OrderStatus) : Z := if bool_decide (st = OrdTimeout) then 408 else 402.
Definition awaiting (order : uuid) (st : OrderStatus) : till Reply := told 409 (BReconciling order (status_text st)).

(** The answer for an order that is completed already. *)
Definition answer_completed (order : uuid) : till Reply :=
  ref ← call (TGuestRef order);
  match ref with
  | None => told_error 503 "ticket issuance pending; retry checkout"
  | Some ref => _ ← publishOwed order; told 200 (BCompleted order ref)
  end.

(** The answer for one that failed: the fact again, then the status. *)
Definition answer_failed (x : LoadedReservation) (order : uuid) (st : OrderStatus) : till Reply :=
  ok ← order_fact x order FactOrderFailed;
  if (ok : bool) then told (terminalCheckoutCode st) (BStatus order (status_text st)) else told_error 503 "journal unavailable".

Inductive recoveredClass := RecoveredOptimistic | RecoveredCompleted | RecoveredTerminal | RecoveredPending | RecoveredReconciling.

Definition classifyRecovered (st : OrderStatus) : recoveredClass :=
  match st with
  | OrdCompleted => RecoveredCompleted
  | OrdDeclined | OrdTimeout | OrdRefunded => RecoveredTerminal
  | OrdReleasePending => RecoveredPending
  | OrdReconciliationRequired => RecoveredReconciling
  | OrdCreated | OrdPaymentUnknown | OrdConfirmationPending => RecoveredOptimistic
  end.

(** Nothing when the caller's own answer stands. *)
Definition answerRecovered (x : LoadedReservation) (order : uuid) : till (option Reply) :=
  row ← call (TReadOrder order);
  match row with
  | None => Done None
  | Some (st, parked) =>
      match classifyRecovered st with
      | RecoveredCompleted => r ← answer_completed order; Done (Some r)
      | RecoveredTerminal => r ← answer_failed x order st; Done (Some r)
      | RecoveredPending =>
          r ← if (parked : bool) then awaiting order st else told 202 (BStatus order (status_text st)); Done (Some r)
      | RecoveredReconciling => r ← awaiting order st; Done (Some r)
      | RecoveredOptimistic => Done None
      end
  end.

Definition markUnknown (reservation order : uuid) : till bool :=
  _ ← call (TReservationUnknown reservation);
  n ← call (TOrderUnknown order);
  Done (default false n).

(** A charge whose outcome is not known. *)
Definition payment_unknown (x : LoadedReservation) (order : uuid) : till Reply :=
  marked ← markUnknown (ld_ID x) order;
  if (marked : bool) then told 202 (BStatus order "payment_unknown")
  else
    r ← answerRecovered x order;
    match r with Some r => Done r | None => told 202 (BStatus order "payment_unknown") end.

Definition completion_at (x : LoadedReservation) (order : uuid) : Completion := {|
  co_ReservationID := ld_ID x; co_OrderID := order; co_OrganizerID := rs_OrganizerID (ld_Row x); co_BuyerID := rs_BuyerID (ld_Row x);
  co_SlotID := rs_SlotID (ld_Row x); co_TicketTypeID := rs_TicketTypeID (ld_Row x); co_Quantity := rs_Quantity (ld_Row x) |}.

(** Confirm failed: recovery finishes the order. *)
Definition confirmation_pending (x : LoadedReservation) (order : uuid) : till Reply :=
  n ← call (TConfirmationPending order);
  match n with
  | Some false =>
      r ← answerRecovered x order;
      match r with Some r => Done r | None => told 202 (BStatus order "confirmation_pending") end
  | Some true | None => told 202 (BStatus order "confirmation_pending")
  end.

Definition completeCheckout (x : LoadedReservation) (order : uuid) : till Reply :=
  confirmed ← hold_step x StepConfirm;
  if negb confirmed then confirmation_pending x order
  else
    ok ← order_fact x order FactOrderCompleted;
    if negb ok then told_error 503 "journal unavailable"
    else
      minted ← call TMintRef;
      match minted with
      | None => told_error 500 "mint guest order reference"
      | Some candidate =>
          done ← call (TComplete (completion_at x order) candidate);
          match done with
          | Err _ => told_error 500 "persist completion"
          | Ok ref => _ ← publishOwed order; told 200 (BCompleted order ref)
          end
      end.

(** A declined or timed out payment: the places go back before anything is final. *)
Definition payment_failed (x : LoadedReservation) (order : uuid) (code : Z) (body : option PaymentBody) : till Reply :=
  released ← hold_step x StepRelease;
  if negb released then told 202 (BStatus order "release_pending")
  else
    let st := if code =? 408 then OrdTimeout else OrdDeclined in
    marked ← call (TTerminalFailure (ld_ID x) order st);
    if negb marked then told_error 500 "persist failure"
    else
      ok ← order_fact x order FactOrderFailed;
      if negb ok then told_error 503 "journal unavailable"
      else told code (BStatus order (default (status_text st) (body ≫= pb_Status))).

(** What payments answered to the charge. *)
Definition on_charge (x : LoadedReservation) (order : uuid) (w : Wire PaymentBody) : till Reply :=
  match w with
  | NoAnswer => payment_unknown x order
  | Answered code body =>
      if code =? 409 then told 409 (BStatus order "payment_in_progress")
      else if code =? 400 then _ ← hold_step x StepRelease; told_error 400 "invalid payment token"
      else if (code =? 402) || (code =? 408) then payment_failed x order code body
      else if negb (code =? 200) then payment_unknown x order
      else completeCheckout x order
  end.

(** ** The handler *)

(** From the finalized hold on. *)
Definition charge_and_complete (x : LoadedReservation) (order : uuid) (q : CheckoutRequest) : till Reply :=
  let r := ld_Row x in
  if rs_TotalAmount r =? 0 then completeCheckout x order
  else
    match settlementPlanFromSnapshot (rs_FaceValueAmount r) (rs_TotalAmount r) (rs_Currency r) (ld_Snapshot x) with
    | Err _ => told_error 500 "settlement plan unavailable"
    | Ok plan =>
        w ← call (PostCharge (ck_Key q) order (rs_OrganizerID r) (rs_BuyerID r) (rs_TotalAmount r) (rs_Currency r) (ck_PaymentToken q) plan);
        on_charge x order w
    end.

(** An order that is neither ended nor being recovered. *)
Definition drive_checkout (x : LoadedReservation) (order : uuid) (q : CheckoutRequest) : till Reply :=
  ok ← call (TPersistBuyer (rs_BuyerID (ld_Row x)));
  if negb ok then told_error 500 "persist buyer"
  else
    ok ← order_fact x order FactOrderCreated;
    if negb ok then told_error 503 "journal unavailable"
    else
      finalized ← hold_step x StepFinalize;
      if negb finalized then told_error 409 "hold expired"
      else
        ok ← call (TFinalizing (ld_ID x));
        if negb ok then told_error 500 "persist checkout" else charge_and_complete x order q.

Definition checkoutClaimProblem (e : CommerceError) : Reply :=
  match e with
  | ErrCheckoutConflict => (409, BError "checkout conflicts with an existing request")
  | ErrRecoveryInProgress => (409, BError "this order is being recovered; retry shortly")
  | _ => (500, BError "persist checkout")
  end.

Definition executeCheckout (x : LoadedReservation) (q : CheckoutRequest) : till Reply :=
  let r := ld_Row x in
  claim ← call (TClaim (ld_ID x) (rs_OrganizerID r) (rs_TotalAmount r) (ck_Key q) (ck_Fingerprint q));
  match claim with
  | Err e => Done (checkoutClaimProblem e)
  | Ok c =>
      let order := cc_OrderID c in
      match cc_Status c with
      | OrdCompleted => answer_completed order
      | OrdDeclined | OrdTimeout | OrdRefunded => answer_failed x order (cc_Status c)
      | OrdReleasePending => if cc_Parked c then awaiting order OrdReleasePending else told 202 (BStatus order "release_pending")
      | OrdReconciliationRequired => awaiting order OrdReconciliationRequired
      | OrdCreated | OrdPaymentUnknown | OrdConfirmationPending =>
          if cc_Parked c then awaiting order (cc_Status c)
          else if (rs_TotalAmount r =? 0) && negb (cc_Inserted c) then told 202 (BStatus order (status_text (cc_Status c)))
          else drive_checkout x order q
      end
  end.
End Checkout.
