(* ===== verification/CheckoutOrder.v ===== *)
(** * The order of a checkout

    Whatever inventory, payments and the store answer to [CheckoutService]: the places
    are secured before the one charge, the charge before the confirmation, the
    confirmation before the fact and the completion; places are given back only on a
    payment that failed; and the buyer is told only what is on record. *)

From S2P Require Import Prelude Text Tables Lifecycle Orders PaymentFlows Composition SalePlan Protocol RecoveryRunner CheckoutService.
#[local] Open Scope Z_scope.

Create HintDb till.

Section Order.
Context `{UU : UUID} `{US : !UUIDSource} (has_publisher : bool) (x : LoadedReservation) (q : CheckoutRequest).
Implicit Types (past : list (event Till)).
Abbreviation row := (ld_Row x).

(** The claim found an order that is not ended, nor parked; a free one is new. *)
Definition open_claim past (order : uuid) : Prop :=
  ∃ c, Happened (TClaim (ld_ID x) (rs_OrganizerID row) (rs_TotalAmount row) (ck_Key q) (ck_Fingerprint q)) (Ok c) ∈ past ∧
    cc_OrderID c = order ∧ cc_Status c ∈ live_statuses ∧ cc_Parked c = false ∧ (rs_TotalAmount row = 0 → cc_Inserted c = true).

Definition in_journal past (order : uuid) (fact : FactType) : Prop :=
  ∃ t w, Happened (PostOrderFact order (rs_OrganizerID row) (rs_BuyerID row) fact (rs_TotalAmount row) (rs_Currency row) t) w ∈ past ∧ wire_ok w = true.

Definition stepped past (step : HoldStep) : Prop :=
  ∃ w, Happened (PostHold step (rs_HoldID row) (rs_OrganizerID row)) w ∈ past ∧ wire_ok w = true.

(** The charge of the reservation's own total, with the plan of its snapshot. *)
Definition charge_answered past (order : uuid) (code : Z) : Prop :=
  ∃ plan body, settlementPlanFromSnapshot (rs_FaceValueAmount row) (rs_TotalAmount row) (rs_Currency row) (ld_Snapshot x) = Ok plan ∧
    Happened (PostCharge (ck_Key q) order (rs_OrganizerID row) (rs_BuyerID row) (rs_TotalAmount row) (rs_Currency row) (ck_PaymentToken q) plan)
      (Answered code body) ∈ past.

(** Paid, or nothing to pay. *)
Definition settled past (order : uuid) : Prop := rs_TotalAmount row = 0 ∨ charge_answered past order 200.

Definition failed_statuses : list OrderStatus := [OrdDeclined; OrdTimeout; OrdRefunded].
Definition failed_on_record past (order : uuid) : Prop :=
  (∃ c, Happened (TClaim (ld_ID x) (rs_OrganizerID row) (rs_TotalAmount row) (ck_Key q) (ck_Fingerprint q)) (Ok c) ∈ past ∧
     cc_OrderID c = order ∧ cc_Status c ∈ failed_statuses) ∨
  (∃ st parked, Happened (TReadOrder order) (Some (st, parked)) ∈ past ∧ st ∈ failed_statuses) ∨
  (∃ st, Happened (TTerminalFailure (ld_ID x) order st) true ∈ past ∧ st ∈ failed_statuses).

Definition completed_on_record past (order ref : uuid) : Prop :=
  Happened (TGuestRef order) (Some ref) ∈ past ∨
  ∃ candidate, Happened (TComplete (completion_at x order) candidate) (Ok ref) ∈ past.

(** ** What each call waits for *)

Definition permitted past (c : asked Till) : Prop :=
  match c with
  | Asked e =>
      match e with
      | TPersistBuyer _ => ∃ order, open_claim past order
      | PostOrderFact order _ _ fact _ _ _ =>
          match fact with
          | FactOrderCreated => open_claim past order
          | FactOrderCompleted => open_claim past order ∧ settled past order ∧ stepped past StepConfirm
          | FactOrderFailed => failed_on_record past order
          end
      | PostHold step hold org =>
          hold = rs_HoldID row ∧ org = rs_OrganizerID row ∧ ∃ order, open_claim past order ∧
          match step with
          | StepFinalize => in_journal past order FactOrderCreated
          | StepConfirm => stepped past StepFinalize ∧ settled past order
          | StepRelease => ∃ code, code ∈ [400; 402; 408] ∧ charge_answered past order code
          end
      | PostCharge key order org buyer amount currency token plan =>
          open_claim past order ∧ in_journal past order FactOrderCreated ∧ stepped past StepFinalize ∧
          (key, org, buyer) = (ck_Key q, rs_OrganizerID row, rs_BuyerID row) ∧
          (amount, currency, token) = (rs_TotalAmount row, rs_Currency row, ck_PaymentToken q) ∧ amount ≠ 0 ∧
          settlementPlanFromSnapshot (rs_FaceValueAmount row) amount currency (ld_Snapshot x) = Ok plan
      | TTerminalFailure reservation order st =>
          reservation = ld_ID x ∧ stepped past StepRelease ∧
          (charge_answered past order 402 ∧ st = OrdDeclined ∨ charge_answered past order 408 ∧ st = OrdTimeout)
      | TComplete c _ =>
          ∃ order, c = completion_at x order ∧ settled past order ∧ stepped past StepConfirm ∧ in_journal past order FactOrderCompleted
      | TPublish event e => ∃ order ref, completed_on_record past order ref ∧ Happened (TFrozen order) (Some (event, e)) ∈ past
      | _ => True
      end
  end.

(** What the buyer may be told. *)
Definition on_record past (r : Z * ReplyBody uuid) : Prop :=
  match r.2 with
  | BCompleted order ref => r.1 = 200 ∧ completed_on_record past order ref
  | BStatus order _ => r.1 ≠ 200 ∧ (r.1 = 402 ∨ r.1 = 408 → in_journal past order FactOrderFailed ∧ failed_on_record past order)
  | BError _ | BReconciling _ _ => r.1 ≠ 200 ∧ r.1 ≠ 402 ∧ r.1 ≠ 408
  end.

(** ** What was on record stays on record *)

#[local] Hint Resolve seen_later seen_last : till.

#[local] Hint Resolve grown : till.

Lemma open_claim_grows p p' order : p ⊆ p' → open_claim p order → open_claim p' order.
Proof. intros Hp (c & Hin & H). exists c. split; [by apply Hp|done]. Qed.
Lemma in_journal_grows p p' order fact : p ⊆ p' → in_journal p order fact → in_journal p' order fact.
Proof. intros Hp (t & w & Hin & H). exists t, w. split; [by apply Hp|done]. Qed.
Lemma stepped_grows p p' step : p ⊆ p' → stepped p step → stepped p' step.
Proof. intros Hp (w & Hin & H). exists w. split; [by apply Hp|done]. Qed.
Lemma answered_grows p p' order code : p ⊆ p' → charge_answered p order code → charge_answered p' order code.
Proof. intros Hp (plan & body & H & Hin). exists plan, body. split; [done|by apply Hp]. Qed.
Lemma settled_grows p p' order : p ⊆ p' → settled p order → settled p' order.
Proof. intros Hp [H|H]; [by left|right]. by eapply answered_grows. Qed.
Lemma failed_grows p p' order : p ⊆ p' → failed_on_record p order → failed_on_record p' order.
Proof.
  intros Hp [(c & Hin & H)|[(st & k & Hin & H)|(st & Hin & H)]]; [left; exists c|right; left; exists st, k|right; right; exists st]; (split; [by apply Hp|done]).
Qed.
Lemma completed_grows p p' order ref : p ⊆ p' → completed_on_record p order ref → completed_on_record p' order ref.
Proof. intros Hp [H|(c & H)]; [left; by apply Hp|right; exists c; by apply Hp]. Qed.
#[local] Hint Resolve open_claim_grows in_journal_grows stepped_grows answered_grows settled_grows failed_grows completed_grows grown_trans : till.

Abbreviation post := (Z * ReplyBody uuid → list (event Till) → Prop).
Abbreviation ob := (obeys permitted).

(** ** The parts *)

Lemma order_fact_obeys order fact past (P : bool → list (event Till) → Prop) :
  (∀ p t, past ⊆ p → permitted p (Asked (PostOrderFact order (rs_OrganizerID row) (rs_BuyerID row) fact (rs_TotalAmount row) (rs_Currency row) t))) →
  (∀ ok p, past ⊆ p → (ok = true → in_journal p order fact) → P ok p) → ob (order_fact x order fact) past P.
Proof.
  intros Hmay HP. unfold order_fact. apply obeys_call; [done|]. intros [|]; cbn [negb].
  - apply obeys_call; [done|]. intros [t|]; [|apply HP; [eauto with till|done]].
    apply obeys_call; [apply Hmay; eauto with till|]. intros w. apply HP; [eauto with till|]. intros Hw. exists t, w. eauto with till.
  - apply HP; [eauto with till|done].
Qed.

Lemma hold_step_obeys step past (P : bool → list (event Till) → Prop) :
  permitted past (Asked (PostHold step (rs_HoldID row) (rs_OrganizerID row))) →
  (∀ ok p, past ⊆ p → (ok = true → stepped p step) → P ok p) → ob (hold_step x step) past P.
Proof. intros Hmay HP. apply obeys_call; [exact Hmay|]. intros w. apply HP; [eauto with till|]. intros Hw. exists w. eauto with till. Qed.

Lemma publishOwed_obeys order ref past (P : unit → list (event Till) → Prop) : completed_on_record past order ref →
  (∀ p, past ⊆ p → P tt p) → ob (publishOwed has_publisher order) past P.
Proof.
  intros Hc HP. unfold publishOwed. destruct has_publisher; cbn [negb]; [|by apply HP].
  apply obeys_call; [done|]. intros [[event e]|]; [|apply HP; eauto with till].
  apply obeys_call; [exists order, ref; eauto with till|]. intros [|]; [|apply HP; eauto with till].
  apply obeys_call; [done|]. intros ok. apply HP. eauto with till.
Qed.

Lemma answer_completed_obeys order past : ob (answer_completed has_publisher order) past (λ r p, on_record p r).
Proof.
  unfold answer_completed. apply obeys_call; [done|]. intros [ref|]; [|done].
  assert (Hc : completed_on_record (past ++ [Happened (TGuestRef order) (Some ref)]) order ref) by (left; eauto with till).
  apply obeys_bind, (publishOwed_obeys order ref); [done|]. intros p Hp. split; [done|]. eauto with till.
Qed.

Lemma failure_code st : terminalCheckoutCode st ≠ 200.
Proof. unfold terminalCheckoutCode. by case_bool_decide. Qed.

Lemma answer_failed_obeys order st past : failed_on_record past order → ob (answer_failed x order st) past (λ r p, on_record p r).
Proof.
  intros Hf. apply obeys_bind, order_fact_obeys; [intros p t Hp; cbn; eauto with till|].
  intros [|] p Hp Hj; [|done]. split; [apply failure_code|]. intros _. split; [auto|eauto with till].
Qed.

(** An answer that claims neither an end nor a failure. *)
Ltac open_answer := cbn; first [done | split; [done|intros [?|?]; discriminate] | by eauto with till].

Definition optional past (r : option (Z * ReplyBody uuid)) : Prop := match r with Some r => on_record past r | None => True end.

Lemma answerRecovered_obeys order past : ob (answerRecovered has_publisher x order) past (λ r p, optional p r).
Proof.
  unfold answerRecovered. apply obeys_call; [done|]. intros [[st parked]|]; [|done].
  assert (Hfail : st ∈ failed_statuses → failed_on_record (past ++ [Happened (TReadOrder order) (Some (st, parked))]) order).
  { intros Hst. right. left. exists st, parked. eauto with till. }
  destruct (classifyRecovered st) eqn:Ec; [done|..].
  - apply obeys_bind. eapply obeys_mono; [|apply answer_completed_obeys]. by intros r p Hr.
  - apply obeys_bind. eapply obeys_mono; [|apply answer_failed_obeys, Hfail]; [by intros r p Hr|].
    destruct st; try discriminate; unfold failed_statuses; set_solver.
  - apply obeys_bind. destruct parked; open_answer.
  - apply obeys_bind. done.
Qed.

Lemma payment_unknown_obeys order past : ob (payment_unknown has_publisher x order) past (λ r p, on_record p r).
Proof.
  unfold payment_unknown, markUnknown. apply obeys_bind. apply obeys_call; [done|]. intros u. apply obeys_call; [done|]. intros n. cbn [obeys].
  destruct (default false n); [open_answer|]. apply obeys_bind. eapply obeys_mono; [|apply answerRecovered_obeys]. intros [r|] p Hr; [exact Hr|open_answer].
Qed.

Lemma confirmation_pending_obeys order past : ob (confirmation_pending has_publisher x order) past (λ r p, on_record p r).
Proof.
  unfold confirmation_pending. apply obeys_call; [done|]. intros [[|]|]; [open_answer| |open_answer].
  apply obeys_bind. eapply obeys_mono; [|apply answerRecovered_obeys]. intros [r|] p Hr; [exact Hr|open_answer].
Qed.

Lemma completeCheckout_obeys order past : open_claim past order → stepped past StepFinalize → settled past order →
  ob (completeCheckout has_publisher x order) past (λ r p, on_record p r).
Proof.
  intros Ho Hf Hs. apply obeys_bind, hold_step_obeys; [cbn; split_and!; [done|done|]; eauto|].
  intros confirmed p1 Hp1 Hconf. destruct confirmed; cbn [negb]; [|apply confirmation_pending_obeys]. specialize (Hconf eq_refl).
  apply obeys_bind, order_fact_obeys; [intros p t Hp; cbn; split_and!; eauto with till|].
  intros ok p2 Hp2 Hj. destruct ok; cbn [negb]; [|done]. specialize (Hj eq_refl).
  apply obeys_call; [done|]. intros [candidate|]; [|done].
  apply obeys_call; [exists order; split_and!; [done|..]; eauto 8 with till|]. intros [ref|e]; [|done].
  assert (Hc : completed_on_record ((p2 ++ [Happened TMintRef (Some candidate)]) ++ [Happened (TComplete (completion_at x order) candidate) (Ok ref)]) order ref)
    by (right; exists candidate; eauto with till).
  apply obeys_bind, (publishOwed_obeys order ref); [done|]. intros p Hp. split; [done|]. eauto with till.
Qed.

Lemma payment_failed_obeys order code body past : open_claim past order → charge_answered past order code → code = 402 ∨ code = 408 →
  ob (payment_failed x order code body) past (λ r p, on_record p r).
Proof.
  intros Ho Ha Hcode. unfold payment_failed. apply obeys_bind, hold_step_obeys.
  { cbn. split_and!; [done|done|]. exists order. split; [done|]. exists code. split; [|done]. destruct Hcode as [-> | ->]; set_solver. }
  intros released p1 Hp1 Hrel. destruct released; cbn [negb]; [|open_answer]. specialize (Hrel eq_refl).
  set (st := if code =? 408 then OrdTimeout else OrdDeclined).
  assert (Hst : st ∈ failed_statuses) by (unfold st, failed_statuses; destruct Hcode as [-> | ->]; set_solver).
  apply obeys_call.
  { cbn. split_and!; [done|done|]. unfold st. destruct Hcode as [-> | ->]; [left|right]; eauto with till. }
  intros marked. destruct marked; cbn [negb]; [|done]. set (p2 := p1 ++ _).
  assert (Hf : failed_on_record p2 order) by (right; right; exists st; split; [apply seen_last|done]).
  apply obeys_bind, order_fact_obeys; [intros p t Hp; cbn; eauto with till|].
  intros ok p Hp Hj. destruct ok; cbn [negb]; [|done]. split; cbn; [destruct Hcode as [-> | ->]; done|].
  intros _. split; [auto|eauto with till].
Qed.

Lemma on_charge_obeys order past w : open_claim past order → stepped past StepFinalize →
  (∀ code body, w = Answered code body → charge_answered past order code) → ob (on_charge has_publisher x order w) past (λ r p, on_record p r).
Proof.
  intros Ho Hf Hw. unfold on_charge. destruct w as [|code body]; [apply payment_unknown_obeys|]. specialize (Hw code body eq_refl).
  destruct (Z.eqb_spec code 409) as [->|]; [open_answer|]. destruct (Z.eqb_spec code 400) as [->|].
  { apply obeys_bind, hold_step_obeys; [|done]. cbn. split_and!; [done|done|]. exists order. split; [done|]. exists 400. split; [set_solver|done]. }
  destruct (Z.eqb_spec code 402) as [->|]; cbn [orb]; [apply payment_failed_obeys; auto|].
  destruct (Z.eqb_spec code 408) as [->|]; [apply payment_failed_obeys; auto|].
  destruct (Z.eqb_spec code 200) as [->|]; cbn [negb]; [|apply payment_unknown_obeys].
  apply completeCheckout_obeys; [done|done|]. by right.
Qed.

Lemma charge_and_complete_obeys order past : open_claim past order → in_journal past order FactOrderCreated → stepped past StepFinalize →
  ob (charge_and_complete has_publisher x order q) past (λ r p, on_record p r).
Proof.
  intros Ho Hj Hf. unfold charge_and_complete. destruct (Z.eqb_spec (rs_TotalAmount row) 0) as [H0|H0].
  - apply completeCheckout_obeys; [done|done|]. by left.
  - destruct (settlementPlanFromSnapshot _ _ _ _) as [plan|] eqn:Ep; [|done].
    apply obeys_call; [split_and!; done|]. intros w. apply on_charge_obeys; [eauto with till..|].
    intros code body ->. exists plan, body. split; [done|]. apply seen_last.
Qed.

Lemma drive_checkout_obeys order past : open_claim past order → ob (drive_checkout has_publisher x order q) past (λ r p, on_record p r).
Proof.
  intros Ho. unfold drive_checkout. apply obeys_call; [by exists order|]. intros ok. destruct ok; cbn [negb]; [|done].
  apply obeys_bind, order_fact_obeys; [intros p t Hp; cbn; eauto with till|].
  intros ok p1 Hp1 Hj. destruct ok; cbn [negb]; [|done]. specialize (Hj eq_refl).
  assert (Ho1 : open_claim p1 order) by eauto with till.
  apply obeys_bind, hold_step_obeys; [cbn; split_and!; [done|done|]; eauto|].
  intros finalized p2 Hp2 Hf. destruct finalized; cbn [negb]; [|done]. specialize (Hf eq_refl).
  apply obeys_call; [done|]. intros ok. destruct ok; cbn [negb]; [|done].
  apply charge_and_complete_obeys; eauto with till.
Qed.

Lemma executeCheckout_obeys : ob (executeCheckout has_publisher x q) [] (λ r p, on_record p r).
Proof.
  unfold executeCheckout. apply obeys_call; [done|]. intros [c|e]; [|by destruct e]. cbn [app].
  set (past := [_]). assert (Hin : Happened (TClaim (ld_ID x) (rs_OrganizerID row) (rs_TotalAmount row) (ck_Key q) (ck_Fingerprint q)) (Ok c) ∈ past) by left.
  assert (Hfail : cc_Status c ∈ failed_statuses → failed_on_record past (cc_OrderID c)) by (intros Hst; left; by exists c).
  assert (Hlive : cc_Status c ∈ live_statuses →
    ob (if cc_Parked c then awaiting (cc_OrderID c) (cc_Status c)
        else if (rs_TotalAmount row =? 0) && negb (cc_Inserted c) then told 202 (BStatus (cc_OrderID c) (status_text (cc_Status c)))
        else drive_checkout has_publisher x (cc_OrderID c) q) past (λ r p, on_record p r)).
  { intros Hst. destruct (cc_Parked c) eqn:Ep; [done|]. destruct (_ && _) eqn:Ez; [open_answer|].
    apply drive_checkout_obeys. exists c. split_and!; [done..|]. intros H0. rewrite H0 in Ez. cbn in Ez. by apply negb_false_iff in Ez. }
  destruct (cc_Status c) eqn:Es; try (apply Hlive; unfold live_statuses; set_solver).
  - destruct (cc_Parked c); open_answer.
  - apply answer_completed_obeys.
  - apply answer_failed_obeys, Hfail. unfold failed_statuses. set_solver.
  - apply answer_failed_obeys, Hfail. unfold failed_statuses. set_solver.
  - done.
  - apply answer_failed_obeys, Hfail. unfold failed_statuses. set_solver.
Qed.

(** ** One charge *)

Definition is_charge (c : asked Till) : bool := match c with Asked e => match e with PostCharge _ _ _ _ _ _ _ _ => true | _ => false end end.
Abbreviation charges n p := (at_most is_charge n p).

(** Through a program that asks for no charge. *)
Ltac no_charge :=
  repeat first [done | apply at_most_aside; [reflexivity|intros ?] | progress case_match | apply (at_most_bind is_charge 0 0); [eauto with quiet|intros ?]].
Create HintDb quiet.

Lemma fact_quiet order fact : charges 0 (order_fact x order fact).
Proof. unfold order_fact. no_charge. Qed.
Lemma hold_quiet step : charges 0 (hold_step x step).
Proof. unfold hold_step. no_charge. Qed.
Lemma publish_quiet order : charges 0 (publishOwed has_publisher order).
Proof. unfold publishOwed. no_charge. Qed.
#[local] Hint Resolve fact_quiet hold_quiet publish_quiet : quiet.
Lemma completed_quiet order : charges 0 (answer_completed has_publisher order).
Proof. unfold answer_completed. no_charge. Qed.
Lemma failed_quiet order st : charges 0 (answer_failed x order st).
Proof. unfold answer_failed. no_charge. Qed.
#[local] Hint Resolve completed_quiet failed_quiet : quiet.
Lemma recovered_quiet order : charges 0 (answerRecovered has_publisher x order).
Proof.
  unfold answerRecovered. apply at_most_aside; [reflexivity|]. intros [[st parked]|]; [|done].
  destruct (classifyRecovered st); [done|..]; (apply (at_most_bind is_charge 0 0); [|done]); [eauto with quiet..|by destruct parked|done].
Qed.
#[local] Hint Resolve recovered_quiet : quiet.
Lemma unknown_quiet order : charges 0 (payment_unknown has_publisher x order).
Proof. unfold payment_unknown, markUnknown. apply (at_most_bind is_charge 0 0); [no_charge|]. intros [|]; no_charge. Qed.
Lemma pending_quiet order : charges 0 (confirmation_pending has_publisher x order).
Proof. unfold confirmation_pending. no_charge. Qed.
#[local] Hint Resolve unknown_quiet pending_quiet : quiet.
Lemma complete_quiet order : charges 0 (completeCheckout has_publisher x order).
Proof. unfold completeCheckout. apply (at_most_bind is_charge 0 0); [eauto with quiet|]. intros [|]; cbn [negb]; [no_charge|eauto with quiet]. Qed.
Lemma payment_failed_quiet order code body : charges 0 (payment_failed x order code body).
Proof. unfold payment_failed. no_charge. Qed.
#[local] Hint Resolve complete_quiet payment_failed_quiet : quiet.
Lemma on_charge_quiet order w : charges 0 (on_charge has_publisher x order w).
Proof. unfold on_charge. repeat case_match; eauto with quiet; no_charge. Qed.
Lemma charge_once order : charges 1 (charge_and_complete has_publisher x order q).
Proof.
  unfold charge_and_complete. destruct (_ =? 0); [eapply (at_most_mono _ 0); [lia|eauto with quiet]|]. destruct (settlementPlanFromSnapshot _ _ _ _); [|done].
  apply at_most_ask; [reflexivity|]. intros w. apply on_charge_quiet.
Qed.
Lemma drive_once order : charges 1 (drive_checkout has_publisher x order q).
Proof.
  unfold drive_checkout. apply at_most_aside; [reflexivity|]. intros [|]; [|done]. cbn [negb].
  apply (at_most_bind is_charge 0 1); [eauto with quiet|]. intros [|]; [|done]. cbn [negb].
  apply (at_most_bind is_charge 0 1); [eauto with quiet|]. intros [|]; [|done]. cbn [negb].
  apply at_most_aside; [reflexivity|]. intros [|]; [apply charge_once|done].
Qed.
Lemma checkout_once : charges 1 (executeCheckout has_publisher x q).
Proof.
  unfold executeCheckout. apply at_most_aside; [reflexivity|]. intros [c|e]; [|done].
  assert (Hq : ∀ p : protocol Till (Z * ReplyBody uuid), charges 0 p → charges 1 p) by (intros p; apply at_most_mono; lia).
  assert (Hd : charges 1 (if cc_Parked c then awaiting (cc_OrderID c) (cc_Status c)
        else if (rs_TotalAmount row =? 0) && negb (cc_Inserted c) then told 202 (BStatus (cc_OrderID c) (status_text (cc_Status c)))
        else drive_checkout has_publisher x (cc_OrderID c) q)) by (repeat case_match; [done..|apply drive_once]).
  destruct (cc_Status c); try exact Hd; try (apply Hq; eauto with quiet); by destruct (cc_Parked c).
Qed.

(** C4 (safety). A checkout charges once, for places it holds, and completes only what
    is paid. Whatever the other services and the store answer, in any trace of a request:
    payments is charged at most once, for exactly the reservation's total, with the
    settlement plan of its snapshot, for an order that was claimed open, whose creation
    is in the journal and whose hold is finalized; a reservation that costs nothing is
    never charged. Inventory confirms only after the charge was answered 200 or when
    nothing is due; the completion is journalled only after the confirmation, and
    recorded only after the journal. The places go back only when payments answered that
    the payment failed, and only then is a failure recorded. What is published is the
    frozen envelope of a completed order. *)
Theorem checkout_completes_what_is_paid (tr : list (event Till)) (r : Z * ReplyBody uuid)
    (Ht : traces (executeCheckout has_publisher x q) tr r) :
  (∀ tr1 v tr2, tr = tr1 ++ v :: tr2 → permitted tr1 (call_of v)) ∧ (counted is_charge tr ≤ 1)%nat.
Proof. split; [exact (proj1 (obeys_traces _ _ _ _ _ _ executeCheckout_obeys Ht))|exact (at_most_traces _ _ _ _ _ checkout_once Ht)]. Qed.

(** The buyer is told what is on record. An order is answered as
    completed only with the reference that the completion, this request's or an earlier
    one, returned; a failure (402 or 408) is answered only when its fact is in the
    journal and the order's status says that it failed, before or by this request; and
    200 means nothing else. *)
Theorem buyer_is_told_what_is_on_record (tr : list (event Till)) (r : Z * ReplyBody uuid)
    (Ht : traces (executeCheckout has_publisher x q) tr r) : on_record tr r.
Proof. exact (proj2 (obeys_traces _ _ _ _ _ _ executeCheckout_obeys Ht)). Qed.
End Order.

(** ** Witnesses *)

#[local] Existing Instance text_uuid.
#[local] Instance plain_ids : UUIDSource := {| NewSHA1 := λ s, s; is_v4 := λ _, true |}.

Definition cart : LoadedReservation := {|
  ld_ID := "res"%string; ld_Snapshot := NoSnapshot;
  ld_Row := {| rs_OrganizerID := "org"%string; rs_HoldID := "hold"%string; rs_SlotID := "slot"%string; rs_TicketTypeID := "type"%string;
    rs_BuyerID := "buyer"%string; rs_Quantity := 2; rs_UnitAmount := 1000; rs_TotalAmount := 2000; rs_FaceValueAmount := 2000;
    rs_Currency := "EUR"; rs_Status := ResHeld; rs_ChannelCode := None; rs_ResellerID := None |} |}.
Definition buy : CheckoutRequest := {| ck_Key := "k1"; ck_Fingerprint := "fp"; ck_PaymentToken := "tok" |}.

(** A new order; payments answers [code]. *)
Definition shop (code : Z) (X : Type) (e : Till X) : X :=
  match e in Till X return X with
  | TClaim _ _ _ _ _ => Ok {| cc_OrderID := "order"%string; cc_Status := OrdCreated; cc_Parked := false; cc_Inserted := true |}
  | TGuestRef _ | TMintRef => Some "ref"%string
  | TFrozen _ => None
  | TPublish _ _ | TPublishedByOrder _ | TPersistBuyer _ | TInsertFact _ _ _ _ _ _ | TFinalizing _ | TReservationUnknown _ | TTerminalFailure _ _ _ => true
  | TFactTime _ _ => Some 5
  | PostOrderFact _ _ _ _ _ _ _ | PostHold _ _ _ => Answered 200 None
  | PostCharge _ _ _ _ _ _ _ _ => Answered code (Some {| pb_Status := Some "declined"%string |})
  | TOrderUnknown _ | TConfirmationPending _ => Some true
  | TReadOrder _ => None
  | TComplete _ ref => Ok ref
  end.
Definition shopping (code : Z) : list (event Till) * (Z * ReplyBody string) := follow (shop code) (executeCheckout true cart buy).

Lemma checkout_completes_what_is_paid_witness :
  (shopping 200).2 = (200, BCompleted "order" "ref")%string ∧ counted is_charge (shopping 200).1 = 1%nat ∧
  (∀ tr1 v tr2, (shopping 200).1 = tr1 ++ v :: tr2 → permitted cart buy tr1 (call_of v)).
Proof.
  split; [vm_compute; reflexivity|]. split; [vm_compute; reflexivity|].
  exact (proj1 (@checkout_completes_what_is_paid text_uuid true cart buy (shopping 200).1 (shopping 200).2
    (follow_traces (shop 200) (executeCheckout true cart buy)))).
Defined.

Lemma buyer_is_told_what_is_on_record_witness :
  (shopping 402).2 = (402, BStatus "order" "declined")%string ∧ on_record cart buy (shopping 402).1 (shopping 402).2.
Proof.
  split; [vm_compute; reflexivity|].
  exact (@buyer_is_told_what_is_on_record text_uuid true cart buy (shopping 402).1 (shopping 402).2
    (follow_traces (shop 402) (executeCheckout true cart buy))).
Defined.
