(* ===== verification/RefundService.v ===== *)
(** * Undoing an order, across the services

    [services/commerce/internal]: refunds/service.go, the one unit that refunds or
    voids an order, money first, then the tickets, then the places;
    exchanges/service.go, which returns the places of a switched exchange, called when
    access reports the switch (api/exchanges.go); and the two runners that retry what is
    left, reversal/runner.go and exchangesweep/runner.go, on the loop of [Protocol]. The
    store's methods are answered by the transactions of [Reversals]. *)

From S2P Require Import Prelude Text Tables Lifecycle Orders Reversals Protocol.
#[local] Open Scope Z_scope.

#[export] Instance CommerceError_eq_dec : EqDecision CommerceError.
Proof. solve_decision. Defined.

Section Service.
Context `{UU : UUID} `{US : !UUIDSource}.
(** Whether ACCESS_URL and INVENTORY_URL are set. *)
Context (has_access has_inventory : bool).

(** The fields of payments' answer, absent ones as their zero values. *)
Record PartialRefundBody := { pb_FactID : uuid; pb_Code : string; pb_ProviderRef : string }.

(** Which table an operation's marks are in. *)
Inductive Undoing := ByRefund | ByVoid.

Inductive Service : Type → Type :=
| PostPartialRefund (org : uuid) (key refundKey : string) (amount : Z) (currency : string) : Service (Wire PartialRefundBody)
| PostRefundFact (fact org buyer order : uuid) (amount : Z) (currency : string) (occurred : time) : Service (Wire unit)
| PostTicketsRefund (order org operation : uuid) (quantity : Z) : Service (Wire unit)
| PostCapacityRefund (hold org operation : uuid) (quantity : Z) : Service (Wire unit)
| SvInsertFact (fact order org buyer : uuid) (amount : Z) (currency : string) (occurred : time) : Service bool
| SvBindRefund (rq : RefundRequest) : Service (result CommerceError Refund)
| SvCompleteRefund (org refund fact : uuid) : Service (result CommerceError unit)
| SvLookupVoid (org order : uuid) : Service (result CommerceError (option uuid))
| SvBindVoid (vq : VoidRequest) : Service (result CommerceError OrderVoid)
| SvMarkVoided (by_ : Undoing) (org operation : uuid) : Service bool
| SvMarkReturned (by_ : Undoing) (org operation : uuid) : Service bool
| SvMarkExchangeReturned (org id : uuid) : Service bool
| SvLoadSwitch (org id : uuid) : Service (result CommerceError ExchangeSwitch)
| SvMarkSwitched (org id : uuid) : Service bool
| SvClaimReversals (limit : nat) : Service (option (list ClaimedReversal))
| SvReleaseReversal (org refund claim : uuid) (voidedAtClaim capacityAtClaim : bool) (cause : string) : Service bool
| SvFinishReversal (org refund claim : uuid) : Service bool
| SvAbandonReversal (org refund claim : uuid) : Service bool
| SvClaimExchanges (limit : nat) : Service (option (list ClaimedExchangeReversal))
| SvReleaseExchange (org id claim : uuid) (switchedAtClaim capacityAtClaim : bool) (cause : string) : Service bool
| SvFinishExchange (org id claim : uuid) : Service bool
| SvAbandonExchange (org id claim : uuid) : Service bool
| SvCancelled : Service bool.

Abbreviation serves A := (protocol Service A).

Definition answered_ok {B} (w : Wire B) : bool := match w with Answered code _ => code =? 200 | NoAnswer => false end.

(** ** The ordered driver (refunds/service.go) *)

Definition set_reversal_flags (voided returned : bool) (rv : reversal) : reversal := {|
  rv_OperationID := rv_OperationID rv; rv_OrderID := rv_OrderID rv; rv_OrganizerID := rv_OrganizerID rv; rv_HoldID := rv_HoldID rv;
  rv_Quantity := rv_Quantity rv; rv_TicketsVoided := voided; rv_CapacityReturned := returned |}.

(** [discharge] of the tickets. *)
Definition discharge_tickets (by_ : Undoing) (rv : reversal) : serves reversal :=
  if rv_TicketsVoided rv || negb has_access then Done rv
  else
    w ← call (PostTicketsRefund (rv_OrderID rv) (rv_OrganizerID rv) (rv_OperationID rv) (rv_Quantity rv));
    if answered_ok w then
      ok ← call (SvMarkVoided by_ (rv_OrganizerID rv) (rv_OperationID rv));
      Done (if (ok : bool) then set_reversal_flags true (rv_CapacityReturned rv) rv else rv)
    else Done rv.

(** [discharge] of the capacity. *)
Definition discharge_capacity (by_ : Undoing) (rv : reversal) : serves reversal :=
  if rv_CapacityReturned rv || negb has_inventory || bool_decide (rv_HoldID rv = uuid_Nil) then Done rv
  else
    w ← call (PostCapacityRefund (rv_HoldID rv) (rv_OrganizerID rv) (rv_OperationID rv) (rv_Quantity rv));
    if answered_ok w then
      ok ← call (SvMarkReturned by_ (rv_OrganizerID rv) (rv_OperationID rv));
      Done (if (ok : bool) then set_reversal_flags (rv_TicketsVoided rv) true rv else rv)
    else Done rv.

Definition driveOrderedReversal (by_ : Undoing) (rv : reversal) : serves reversal :=
  rv ← discharge_tickets by_ rv;
  if negb (rv_TicketsVoided rv) then Done rv else discharge_capacity by_ rv.

Definition reversal_of_refund (re : Refund) : reversal := {|
  rv_OperationID := re_ID re; rv_OrderID := re_OrderID re; rv_OrganizerID := re_OrganizerID re; rv_HoldID := re_HoldID re;
  rv_Quantity := re_Quantity re; rv_TicketsVoided := re_TicketsVoided re; rv_CapacityReturned := re_CapacityReturned re |}.
Definition reversal_of_void (v : OrderVoid) : reversal := {|
  rv_OperationID := ov_ID v; rv_OrderID := ov_OrderID v; rv_OrganizerID := ov_OrganizerID v; rv_HoldID := ov_HoldID v;
  rv_Quantity := ov_Quantity v; rv_TicketsVoided := ov_TicketsVoided v; rv_CapacityReturned := ov_CapacityReturned v |}.

(** Of the refund or the void, what the callers read again is its progress. *)
Definition DriveReversal (re : Refund) : serves reversal := driveOrderedReversal ByRefund (reversal_of_refund re).
Definition DriveVoid (v : OrderVoid) : serves reversal := driveOrderedReversal ByVoid (reversal_of_void v).

(** ** Refund and Void *)

Inductive RefundError := RErrStore (e : CommerceError) | ErrPaymentsRefused | ErrProviderRefundFailed | ErrPaymentsUnresolved | ErrJournalUnavailable | ErrPersist.

Definition refund_failed_ref (ref : string) : bool := String.prefix "re_" ref && (3 <? String.length ref)%nat.

(** The answer of payments' partial refund: the fact that was appended. *)
Definition refund_answer (w : Wire PartialRefundBody) : result RefundError uuid :=
  match w with
  | NoAnswer => Err ErrPaymentsUnresolved
  | Answered code body =>
      if code =? 409 then Err ErrPaymentsRefused
      else if code =? 422 then
        match body with
        | Some b => if bool_decide (pb_Code b = "provider_refund_failed"%string) && refund_failed_ref (pb_ProviderRef b)
                    then Err ErrProviderRefundFailed else Err ErrPaymentsUnresolved
        | None => Err ErrPaymentsUnresolved
        end
      else if code =? 200 then
        match body with
        | Some b => if bool_decide (pb_FactID b = uuid_Nil) then Err ErrPaymentsUnresolved else Ok (pb_FactID b)
        | None => Err ErrPaymentsUnresolved
        end
      else Err ErrPaymentsUnresolved
  end.

Definition refundPayment (re : Refund) : serves (result RefundError uuid) :=
  w ← call (PostPartialRefund (re_OrganizerID re) (re_PaymentSourceKey re) (uuid_String (re_ID re)) (re_Amount re) (re_Currency re));
  Done (refund_answer w).

Definition refundFact (re : Refund) : serves (result RefundError unit) :=
  let fact := RefundFactID (re_ID re) in
  ok ← call (SvInsertFact fact (re_OrderID re) (re_OrganizerID re) (re_BuyerID re) (re_Amount re) (re_Currency re) (re_CreatedAt re));
  if (ok : bool) then
    w ← call (PostRefundFact fact (re_OrganizerID re) (re_BuyerID re) (re_OrderID re) (re_Amount re) (re_Currency re) (re_CreatedAt re));
    Done (if answered_ok w then Ok tt else Err ErrJournalUnavailable)
  else Done (Err ErrJournalUnavailable).

(** [Service.Refund]: the progress, and whether the money had moved before. *)
Definition refund_order (rq : RefundRequest) : serves (result RefundError (reversal * bool)) :=
  b ← call (SvBindRefund rq);
  match b with
  | Err e => Done (Err (RErrStore e))
  | Ok re =>
      if re_Completed re then rv ← DriveReversal re; Done (Ok (rv, true))
      else
        try (refundPayment re) (λ fact,
        try (refundFact re) (λ _,
          c ← call (SvCompleteRefund (rq_OrganizerID rq) (re_ID re) fact);
          match c with
          | Err _ => Done (Err ErrPersist)
          | Ok _ => rv ← DriveReversal re; Done (Ok (rv, false))
          end))
  end.

(** [Service.Void]. *)
Definition void_order (vq : VoidRequest) : serves (result CommerceError (reversal * bool)) :=
  found ← call (SvLookupVoid (vq_OrganizerID vq) (vq_OrderID vq));
  match found with
  | Err e => Done (Err e)
  | Ok existing =>
      b ← call (SvBindVoid vq);
      match b with
      | Err e => Done (Err e)
      | Ok v => rv ← DriveVoid v; Done (Ok (rv, bool_decide (existing = Some (ov_ID v))))
      end
  end.

(** ** exchanges/service.go *)

Definition set_switch (switched returned : bool) (x : ExchangeSwitch) : ExchangeSwitch := {|
  es_ID := es_ID x; es_OrganizerID := es_OrganizerID x; es_SourceHoldID := es_SourceHoldID x; es_Quantity := es_Quantity x;
  es_TicketsExchanged := switched; es_CapacityReturned := returned |}.

Definition DriveExchange (x : ExchangeSwitch) : serves ExchangeSwitch :=
  if negb (es_TicketsExchanged x) || es_CapacityReturned x || negb has_inventory || bool_decide (es_SourceHoldID x = uuid_Nil) then Done x
  else
    w ← call (PostCapacityRefund (es_SourceHoldID x) (es_OrganizerID x) (es_ID x) (es_Quantity x));
    if answered_ok w then
      ok ← call (SvMarkExchangeReturned (es_OrganizerID x) (es_ID x));
      Done (if (ok : bool) then set_switch (es_TicketsExchanged x) true x else x)
    else Done x.

(** Access reports that its switch committed; the answer is a status code. *)
Definition exchangeTicketsSwitched (org id : uuid) : serves Z :=
  if bool_decide (org = uuid_Nil) then Done 400
  else
    loaded ← call (SvLoadSwitch org id);
    match loaded with
    | Err e => Done (if bool_decide (e = ErrExchangeNotSettled) then 404 else 500)
    | Ok x =>
        marked ← if es_TicketsExchanged x then Done true else call (SvMarkSwitched (es_OrganizerID x) (es_ID x));
        if negb marked then Done 500
        else x ← DriveExchange (set_switch true (es_CapacityReturned x) x); Done (if es_CapacityReturned x then 200 else 502)
    end.

(** ** reversal/runner.go *)

Definition MaxBatchesPerPass : nat := 64.

Definition drive_reversal (c : ClaimedReversal) : serves bool :=
  rv ← driveOrderedReversal ByRefund (cr_Refund c);
  if rv_TicketsVoided rv && rv_CapacityReturned rv then
    _ ← call (SvFinishReversal (rv_OrganizerID rv) (rv_OperationID rv) (cr_ClaimID c)); Done true
  else
    _ ← call (SvReleaseReversal (rv_OrganizerID (cr_Refund c)) (rv_OperationID (cr_Refund c)) (cr_ClaimID c)
                (rv_TicketsVoided (cr_Refund c)) (rv_CapacityReturned (cr_Refund c))
                (if rv_TicketsVoided rv then "capacity return outstanding" else "ticket voiding outstanding"));
    Done false.

(** The runner's adapter; the key is the refund's id. *)
Definition reversal_adapter (X : Type) (q : Queue (T := ClaimedReversal) X) : serves X :=
  match q in Queue X return serves X with
  | QClaim n => call (SvClaimReversals n)
  | QProcess c => drive_reversal c
  | QAbandon c => call (SvAbandonReversal (rv_OrganizerID (cr_Refund c)) (rv_OperationID (cr_Refund c)) (cr_ClaimID c))
  | QCancelled => call SvCancelled
  end.

Definition reversal_RunOnce (batch : nat) : serves Z :=
  translate reversal_adapter (Drain (λ c, rv_OperationID (cr_Refund c)) batch MaxBatchesPerPass).

(** ** exchangesweep/runner.go *)

Definition drive_exchange (c : ClaimedExchangeReversal) : serves bool :=
  x ← DriveExchange (ce_Exchange c);
  if es_TicketsExchanged x && es_CapacityReturned x then
    _ ← call (SvFinishExchange (es_OrganizerID x) (es_ID x) (ce_ClaimID c)); Done true
  else
    _ ← call (SvReleaseExchange (es_OrganizerID (ce_Exchange c)) (es_ID (ce_Exchange c)) (ce_ClaimID c)
                (es_TicketsExchanged (ce_Exchange c)) (es_CapacityReturned (ce_Exchange c))
                (if es_TicketsExchanged x then "capacity return outstanding" else "awaiting access switch confirmation"));
    Done false.

Definition exchange_adapter (X : Type) (q : Queue (T := ClaimedExchangeReversal) X) : serves X :=
  match q in Queue X return serves X with
  | QClaim n => call (SvClaimExchanges n)
  | QProcess c => drive_exchange c
  | QAbandon c => call (SvAbandonExchange (es_OrganizerID (ce_Exchange c)) (es_ID (ce_Exchange c)) (ce_ClaimID c))
  | QCancelled => call SvCancelled
  end.

Definition sweep_RunOnce (batch : nat) : serves Z :=
  translate exchange_adapter (Drain (λ c, (es_OrganizerID (ce_Exchange c), es_ID (ce_Exchange c))) batch MaxBatchesPerPass).

(** ** The three requests and the two passes as errands *)

Inductive errand := RefundAnOrder (rq : RefundRequest) | VoidAnOrder (vq : VoidRequest) | SwitchReported (org id : uuid)
  | DriveAReversal (c : ClaimedReversal) | DriveAnExchange (c : ClaimedExchangeReversal).

Definition errand_of (e : errand) : serves unit :=
  match e with
  | RefundAnOrder rq => _ ← refund_order rq; Done tt
  | VoidAnOrder vq => _ ← void_order vq; Done tt
  | SwitchReported org id => _ ← exchangeTicketsSwitched org id; Done tt
  | DriveAReversal c => _ ← drive_reversal c; Done tt
  | DriveAnExchange c => _ ← drive_exchange c; Done tt
  end.
End Service.
Arguments Service {UU}.
