(* ===== verification/RefundOrder.v ===== *)
(** * The order in which a sale is undone

    Whatever the other services answer: money first, and asked at most once; then the
    tickets, only of a refund whose money is back or of a void, which moves none; then
    the places, which are asked back only on a record that the tickets are void. *)

From S2P Require Import Prelude Text Tables Lifecycle Orders Reversals Protocol RefundService.
#[local] Open Scope Z_scope.

Section Order.
Context `{UU : UUID} `{US : !UUIDSource} (has_access has_inventory : bool).
Implicit Types (past : list (event Service)).

(** What an errand knows from the row it was handed: the tickets of this operation are
    void, or switched. *)
Definition claimed_as (e : errand) (org op : uuid) : Prop :=
  match e with
  | RefundAnOrder _ | VoidAnOrder _ | SwitchReported _ _ => False
  | DriveAReversal c => rv_OrganizerID (cr_Refund c) = org ∧ rv_OperationID (cr_Refund c) = op ∧ rv_TicketsVoided (cr_Refund c) = true
  | DriveAnExchange c => es_OrganizerID (ce_Exchange c) = org ∧ es_ID (ce_Exchange c) = op ∧ es_TicketsExchanged (ce_Exchange c) = true
  end.

Section Of.
Variable er : errand.

Definition tickets_answered past (org op : uuid) : Prop :=
  ∃ order q w, Happened (PostTicketsRefund order org op q) w ∈ past ∧ answered_ok w = true.
Definition capacity_answered past (org op : uuid) : Prop :=
  ∃ hold q w, Happened (PostCapacityRefund hold org op q) w ∈ past ∧ answered_ok w = true.

(** On record: on the row as it was read, or by a mark of this errand. *)
Definition tickets_on_record past (org op : uuid) : Prop :=
  claimed_as er org op ∨
  (∃ rq re, Happened (SvBindRefund rq) (Ok re) ∈ past ∧ re_OrganizerID re = org ∧ re_ID re = op ∧ re_TicketsVoided re = true) ∨
  (∃ vq v, Happened (SvBindVoid vq) (Ok v) ∈ past ∧ ov_OrganizerID v = org ∧ ov_ID v = op ∧ ov_TicketsVoided v = true) ∨
  (∃ o id x, Happened (SvLoadSwitch o id) (Ok x) ∈ past ∧ es_OrganizerID x = org ∧ es_ID x = op ∧
     (es_TicketsExchanged x = true ∨ Happened (SvMarkSwitched org op) true ∈ past)) ∨
  tickets_answered past org op ∧ ∃ by_, Happened (SvMarkVoided by_ org op) true ∈ past.

(** The refund that was bound, and is not paid yet. *)
Definition bound_unpaid past (re : Refund) : Prop := ∃ rq, Happened (SvBindRefund rq) (Ok re) ∈ past ∧ re_Completed re = false.
Definition paid past (re : Refund) (fact : uuid) : Prop :=
  ∃ w, Happened (PostPartialRefund (re_OrganizerID re) (re_PaymentSourceKey re) (uuid_String (re_ID re)) (re_Amount re) (re_Currency re)) w ∈ past ∧
    refund_answer w = Ok fact.
Definition refund_journalled past (re : Refund) : Prop :=
  ∃ w, Happened (PostRefundFact (RefundFactID (re_ID re)) (re_OrganizerID re) (re_BuyerID re) (re_OrderID re) (re_Amount re) (re_Currency re)
    (re_CreatedAt re)) w ∈ past ∧ answered_ok w = true.

(** The money of a refund is back: since before, or by this errand. *)
Definition money_back past (rq : RefundRequest) (re : Refund) : Prop :=
  re_Completed re = true ∨
  ∃ fact, paid past re fact ∧ refund_journalled past re ∧ Happened (SvCompleteRefund (rq_OrganizerID rq) (re_ID re) fact) (Ok tt) ∈ past.

(** The same operation, whatever its marks. *)
Definition same_operation (rv base : reversal) : Prop :=
  (rv_OperationID rv, rv_OrderID rv, rv_OrganizerID rv, rv_HoldID rv, rv_Quantity rv) =
  (rv_OperationID base, rv_OrderID base, rv_OrganizerID base, rv_HoldID base, rv_Quantity base).

(** What may be undone: a claimed refund, a bound one whose money is back, a void. *)
Definition may_undo past (rv : reversal) : Prop :=
  ∃ base, same_operation rv base ∧
    ((∃ c, er = DriveAReversal c ∧ base = cr_Refund c) ∨
     (∃ rq re, Happened (SvBindRefund rq) (Ok re) ∈ past ∧ money_back past rq re ∧ base = reversal_of_refund re) ∨
     (∃ vq v, Happened (SvBindVoid vq) (Ok v) ∈ past ∧ base = reversal_of_void v)).

(** What was switched: a claimed exchange, or the one that access reports. *)
Definition may_return past (hold org op : uuid) (quantity : Z) : Prop :=
  ∃ x, (hold, org, op, quantity) = (es_SourceHoldID x, es_OrganizerID x, es_ID x, es_Quantity x) ∧
    ((∃ c, er = DriveAnExchange c ∧ x = ce_Exchange c) ∨ ∃ o id, Happened (SvLoadSwitch o id) (Ok x) ∈ past).

Definition allowed past (c : asked Service) : Prop :=
  match c with
  | Asked e =>
      match e with
      | PostTicketsRefund order org op quantity =>
          ∃ rv, may_undo past rv ∧ (order, org, op, quantity) = (rv_OrderID rv, rv_OrganizerID rv, rv_OperationID rv, rv_Quantity rv)
      | PostCapacityRefund hold org op quantity => tickets_on_record past org op ∧
          (may_return past hold org op quantity ∨
           ∃ rv, may_undo past rv ∧ (hold, org, op, quantity) = (rv_HoldID rv, rv_OrganizerID rv, rv_OperationID rv, rv_Quantity rv))
      | SvMarkReturned _ org op => tickets_on_record past org op ∧ capacity_answered past org op
      | SvMarkExchangeReturned org op => tickets_on_record past org op ∧ capacity_answered past org op
      | SvMarkSwitched org op => ∃ o id x, Happened (SvLoadSwitch o id) (Ok x) ∈ past ∧ es_OrganizerID x = org ∧ es_ID x = op
      | SvMarkVoided _ org op => tickets_answered past org op
      | PostPartialRefund org key refundKey amount currency =>
          ∃ re, bound_unpaid past re ∧ org = re_OrganizerID re ∧ key = re_PaymentSourceKey re ∧ refundKey = uuid_String (re_ID re) ∧
            amount = re_Amount re ∧ currency = re_Currency re
      | SvInsertFact fact _ _ _ _ _ _ | PostRefundFact fact _ _ _ _ _ _ => ∃ re f, bound_unpaid past re ∧ paid past re f ∧ fact = RefundFactID (re_ID re)
      | SvCompleteRefund _ refund fact => ∃ re, bound_unpaid past re ∧ refund = re_ID re ∧ paid past re fact ∧ refund_journalled past re
      | _ => True
      end
  end.

Lemma on_record_within past past' org op : past ⊆ past' → tickets_on_record past org op → tickets_on_record past' org op.
Proof.
  intros Hw [H|[(rq & re & Hin & H)|[(vq & v & Hin & H)|[(o & i & x & Hin & H1 & H2 & H)|[(o & q & w & Hin & H) (b & Hb)]]]]];
    [by left|right; left|right; right; left|right; right; right; left|right; right; right; right].
  - exists rq, re. split; [by apply Hw|done].
  - exists vq, v. split; [by apply Hw|done].
  - exists o, i, x. split_and!; [by apply Hw|done|done|]. destruct H as [H|H]; [by left|right; by apply Hw].
  - split; [exists o, q, w; split; [by apply Hw|done]|exists b; by apply Hw].
Qed.
Lemma bound_within past past' re : past ⊆ past' → bound_unpaid past re → bound_unpaid past' re.
Proof. intros Hw (rq & Hin & H). exists rq. split; [by apply Hw|done]. Qed.
Lemma paid_within past past' re f : past ⊆ past' → paid past re f → paid past' re f.
Proof. intros Hw (w & Hin & H). exists w. split; [by apply Hw|done]. Qed.
Lemma undo_within past past' rv : past ⊆ past' → may_undo past rv → may_undo past' rv.
Proof.
  intros Hw (base & Hs & H). exists base. split; [exact Hs|]. destruct H as [H|[(rq & re & Hb & Hm & E)|(vq & v & Hb & E)]].
  - by left.
  - right; left. exists rq, re. split_and!; [by apply Hw| |exact E]. destruct Hm as [Hm|(f & Hp & (w & Hj & Hok) & Hc)]; [by left|right].
    exists f. split_and!; [by eapply paid_within|exists w; split; [by apply Hw|done]|by apply Hw].
  - right; right. exists vq, v. split; [by apply Hw|done].
Qed.
Lemma undo_same past rv rv' : same_operation rv' rv → may_undo past rv → may_undo past rv'.
Proof. unfold same_operation. intros E (base & Hs & H). exists base. split; [congruence|done]. Qed.

Abbreviation ob := (obeys allowed).

(** The tickets' leg: the flag that comes back is on record. *)
Lemma discharge_tickets_obeys by_ rv past (post : reversal → list (event Service) → Prop) :
  may_undo past rv → (rv_TicketsVoided rv = true → tickets_on_record past (rv_OrganizerID rv) (rv_OperationID rv)) →
  (∀ rv' past', past ⊆ past' → same_operation rv' rv →
     (rv_TicketsVoided rv' = true → tickets_on_record past' (rv_OrganizerID rv) (rv_OperationID rv)) → post rv' past') →
  ob (discharge_tickets has_access by_ rv) past post.
Proof.
  intros Hmay Hrec Hpost. unfold discharge_tickets. destruct (_ || _); [by apply Hpost; [done|..]|].
  apply obeys_call; [by exists rv|]. intros w. set (p1 := past ++ _). assert (Hw1 : past ⊆ p1) by apply grown.
  destruct (answered_ok w) eqn:Ew.
  - assert (Ht : tickets_answered p1 (rv_OrganizerID rv) (rv_OperationID rv)) by (eexists _, _, w; split; [apply seen_last|done]).
    apply obeys_call; [exact Ht|]. intros ok. apply Hpost; [by apply (grown_trans past p1), grown|by destruct ok|].
    destruct ok; [|intros Hv; eapply on_record_within; [apply (grown_trans past p1); [done|apply grown]|by apply Hrec]].
    intros _. right. right. right. right. split; [|exists by_; apply seen_last]. destruct Ht as (o & q & w' & Hin & Hok). exists o, q, w'.
    split; [by apply grown|done].
  - apply Hpost; [done|done|]. intros Hv. eapply on_record_within; [exact Hw1|by apply Hrec].
Qed.

Lemma discharge_capacity_obeys by_ rv past (post : reversal → list (event Service) → Prop) :
  may_undo past rv → tickets_on_record past (rv_OrganizerID rv) (rv_OperationID rv) → (∀ rv' past', past ⊆ past' → post rv' past') →
  ob (discharge_capacity has_inventory by_ rv) past post.
Proof.
  intros Hmay Hrec Hpost. unfold discharge_capacity. destruct (_ || _); [by apply Hpost|].
  apply obeys_call; [split; [exact Hrec|right; by exists rv]|]. intros w. destruct (answered_ok w) eqn:Ew; [|apply Hpost, grown].
  apply obeys_call.
  - split; [eapply on_record_within; [apply grown|done]|]. eexists _, _, w. split; [apply seen_last|done].
  - intros ok. apply Hpost. eapply grown_trans; apply grown.
Qed.

Lemma driveOrderedReversal_obeys by_ rv past (post : reversal → list (event Service) → Prop) : may_undo past rv →
  (rv_TicketsVoided rv = true → tickets_on_record past (rv_OrganizerID rv) (rv_OperationID rv)) →
  (∀ rv' past', past ⊆ past' → post rv' past') → ob (driveOrderedReversal has_access has_inventory by_ rv) past post.
Proof.
  intros Hmay Hrec Hpost. apply obeys_bind, discharge_tickets_obeys; [done|done|]. intros rv' p1 Hw1 Hsame Hv.
  destruct (rv_TicketsVoided rv') eqn:Et; cbn [negb]; [|by apply Hpost]. pose proof Hsame as Hids. unfold same_operation in Hids.
  assert (Horg : rv_OrganizerID rv' = rv_OrganizerID rv) by congruence. assert (Hop : rv_OperationID rv' = rv_OperationID rv) by congruence.
  apply discharge_capacity_obeys; [by eapply undo_same, undo_within|rewrite Horg, Hop; by apply Hv|]. intros rv2 p2 Hw2. apply Hpost. by eapply grown_trans.
Qed.

Lemma DriveReversal_obeys re past : may_undo past (reversal_of_refund re) → (re_TicketsVoided re = true → tickets_on_record past (re_OrganizerID re) (re_ID re)) →
  ∀ post : reversal → list (event Service) → Prop, (∀ rv past', post rv past') → ob (DriveReversal has_access has_inventory re) past post.
Proof. intros Hmay Hrec post Hp. apply driveOrderedReversal_obeys; [exact Hmay|exact Hrec|auto]. Qed.

Lemma refund_order_obeys rq : ob (refund_order has_access has_inventory rq) [] (λ _ _, True).
Proof.
  unfold refund_order. apply obeys_call; [done|]. intros [re|e]; [|done]. cbn [app]. set (p0 := [_]).
  assert (Hb : Happened (SvBindRefund rq) (Ok re) ∈ p0) by left.
  assert (Hrec : ∀ past', p0 ⊆ past' → re_TicketsVoided re = true → tickets_on_record past' (re_OrganizerID re) (re_ID re)).
  { intros past' Hw Hv. right. left. exists rq, re. split; [by apply Hw|done]. }
  destruct (re_Completed re) eqn:Ec.
  - apply obeys_bind, DriveReversal_obeys; [|by apply Hrec|done].
    exists (reversal_of_refund re). split; [done|]. right; left. exists rq, re. split_and!; [done|by left|done].
  - assert (Hu : bound_unpaid p0 re) by by exists rq.
    apply obeys_try. unfold refundPayment. apply obeys_call; [by exists re|]. intros w. cbn [obeys]. set (p1 := p0 ++ _).
    assert (Hw1 : p0 ⊆ p1) by apply grown. destruct (refund_answer w) as [fact|e0] eqn:Er; [|done].
    assert (Hp1 : paid p1 re fact) by (exists w; split; [apply seen_last|done]).
    apply obeys_try. unfold refundFact. cbv zeta. apply obeys_call.
    { exists re, fact. split_and!; [by eapply bound_within|done|done]. }
    intros ok. destruct ok; [|done]. set (p2 := p1 ++ _).
    assert (Hw2 : p1 ⊆ p2) by apply grown.
    apply obeys_call.
    { exists re, fact. split_and!; [by eapply bound_within; [apply (grown_trans p0 p1)|]|by eapply paid_within|done]. }
    intros w'. cbn [obeys]. set (p3 := p2 ++ _). assert (Hw3 : p2 ⊆ p3) by apply grown.
    destruct (answered_ok w') eqn:Ew; [|done].
    assert (Hw03 : p0 ⊆ p3) by (apply (grown_trans p0 p1); [done|by apply (grown_trans p1 p2)]).
    apply obeys_call.
    { exists re. split_and!; [by eapply bound_within|done|by eapply paid_within; [apply (grown_trans p1 p2)|]|]. exists w'. split; [apply seen_last|done]. }
    intros [[]|e']; [|done]. assert (Hw4 : p0 ⊆ p3 ++ [Happened (SvCompleteRefund (rq_OrganizerID rq) (re_ID re) fact) (Ok tt)]).
    { apply (grown_trans p0 p3); [done|apply grown]. }
    apply obeys_bind, DriveReversal_obeys; [|by apply Hrec|done].
    exists (reversal_of_refund re). split; [done|]. right; left. exists rq, re. split_and!; [by apply Hw4| |done]. right. exists fact.
    split_and!; [|exists w'; split; [apply seen_later, seen_last|done]|apply seen_last].
    eapply paid_within; [|exact Hp1]. apply (grown_trans p1 p2); [done|]. apply (grown_trans p2 p3); [done|apply grown].
Qed.

Lemma void_order_obeys vq : ob (void_order has_access has_inventory vq) [] (λ _ _, True).
Proof.
  unfold void_order. apply obeys_call; [done|]. intros [existing|e]; [|done]. apply obeys_call; [done|]. intros [v|e]; [|done].
  apply obeys_bind, driveOrderedReversal_obeys; [|cbn; intros Hv|done].
  - exists (reversal_of_void v). split; [done|]. right; right. exists vq, v. split; [right; left|done].
  - right. right. left. exists vq, v. split_and!; [|done..]. right. left.
Qed.

Lemma DriveExchange_obeys x past (post : ExchangeSwitch → list (event Service) → Prop) :
  may_return past (es_SourceHoldID x) (es_OrganizerID x) (es_ID x) (es_Quantity x) →
  (es_TicketsExchanged x = true → tickets_on_record past (es_OrganizerID x) (es_ID x)) → (∀ x' past', post x' past') →
  ob (DriveExchange has_inventory x) past post.
Proof.
  intros Hmay Hrec Hpost. unfold DriveExchange. destruct (es_TicketsExchanged x); cbn [negb orb]; [|apply Hpost]. specialize (Hrec eq_refl).
  destruct (_ || _); [apply Hpost|]. apply obeys_call; [split; [exact Hrec|by left]|]. intros w. destruct (answered_ok w) eqn:Ew; [|apply Hpost].
  apply obeys_call; [|intros ok; apply Hpost].
  split; [eapply on_record_within; [apply grown|done]|]. eexists _, _, w. split; [apply seen_last|done].
Qed.

Lemma switch_obeys org id : ob (exchangeTicketsSwitched has_inventory org id) [] (λ _ _, True).
Proof.
  unfold exchangeTicketsSwitched. case_bool_decide; [done|]. apply obeys_call; [done|]. intros [x|e]; [|done]. cbn [app]. set (p := [_]).
  assert (Hin : Happened (SvLoadSwitch org id) (Ok x) ∈ p) by left.
  assert (Hmay : ∀ p', p ⊆ p' → may_return p' (es_SourceHoldID x) (es_OrganizerID x) (es_ID x) (es_Quantity x)).
  { intros p' Hw. exists x. split; [done|]. right. exists org, id. by apply Hw. }
  apply obeys_bind. destruct (es_TicketsExchanged x) eqn:Et.
  - cbn [obeys negb]. apply obeys_bind, DriveExchange_obeys; [by apply Hmay| |done]. intros _. right. right. right. left. exists org, id, x. split_and!; [done..|by left].
  - apply obeys_call; [by exists org, id, x|]. intros marked. cbn [obeys]. destruct marked; cbn [negb]; [|done].
    apply obeys_bind, DriveExchange_obeys; [apply Hmay, grown| |done]. intros _. right. right. right. left. exists org, id, x.
    split_and!; [by apply grown|done|done|right; apply seen_last].
Qed.
End Of.

Lemma drive_exchange_obeys c : obeys (allowed (DriveAnExchange c)) (drive_exchange has_inventory c) [] (λ _ _, True).
Proof.
  unfold drive_exchange. apply obeys_bind, DriveExchange_obeys; [|intros Hs; by left|].
  { exists (ce_Exchange c). split; [done|]. left. by exists c. }
  intros x past. destruct (_ && _); by split.
Qed.

Lemma drive_reversal_obeys c : obeys (allowed (DriveAReversal c)) (drive_reversal has_access has_inventory c) [] (λ _ _, True).
Proof.
  unfold drive_reversal. apply obeys_bind, driveOrderedReversal_obeys; [|intros Hv; by left|].
  { exists (cr_Refund c). split; [done|]. left. by exists c. }
  intros rv past _. destruct (_ && _); by split.
Qed.

Lemma errand_obeys e : obeys (allowed e) (errand_of has_access has_inventory e) [] (λ _ _, True).
Proof.
  destruct e; cbn [errand_of]; apply obeys_bind; (eapply obeys_mono; [|first [apply refund_order_obeys|apply void_order_obeys|apply switch_obeys|apply drive_reversal_obeys|apply drive_exchange_obeys]]; done).
Qed.

(** ** One payment *)

Definition pays (c : asked Service) : bool := match c with Asked e => match e with PostPartialRefund _ _ _ _ _ => true | _ => false end end.
Abbreviation payments n p := (at_most pays n p).

(** Through a program that asks payments for nothing. *)
Ltac no_payment := repeat first [done | apply at_most_aside; [reflexivity|intros ?] | progress case_match].

Lemma discharge_unpaid by_ rv : payments 0 (discharge_tickets has_access by_ rv) ∧ payments 0 (discharge_capacity has_inventory by_ rv).
Proof. unfold discharge_tickets, discharge_capacity. split; no_payment. Qed.
Lemma driveOrderedReversal_unpaid by_ rv : payments 0 (driveOrderedReversal has_access has_inventory by_ rv).
Proof. apply (at_most_bind pays 0 0); [apply discharge_unpaid|]. intros rv'. destruct (negb _); [done|apply discharge_unpaid]. Qed.
Lemma DriveExchange_unpaid x : payments 0 (DriveExchange has_inventory x).
Proof. unfold DriveExchange. no_payment. Qed.

Lemma refund_order_pays_once rq : payments 1 (refund_order has_access has_inventory rq).
Proof.
  unfold refund_order. apply at_most_aside; [reflexivity|]. intros [re|e]; [|done]. destruct (re_Completed re).
  - apply (at_most_bind pays 0 1); [apply driveOrderedReversal_unpaid|done].
  - apply (at_most_try pays 1 0); [apply at_most_ask; [reflexivity|done]|]. intros fact. apply (at_most_try pays 0 0).
    + unfold refundFact. cbv zeta. no_payment.
    + intros _. apply at_most_aside; [reflexivity|]. intros [[]|e]; [|done]. apply (at_most_bind pays 0 0); [apply driveOrderedReversal_unpaid|done].
Qed.

Lemma errand_pays_once e : payments 1 (errand_of has_access has_inventory e).
Proof.
  destruct e as [rq|vq|org id|c|c]; cbn [errand_of].
  - apply (at_most_bind pays 1 0); [apply refund_order_pays_once|done].
  - apply (at_most_bind pays 0 1); [|done]. unfold void_order. apply at_most_aside; [reflexivity|]. intros [existing|e]; [|done].
    apply at_most_aside; [reflexivity|]. intros [v|e]; [|done]. apply (at_most_bind pays 0 0); [apply driveOrderedReversal_unpaid|done].
  - apply (at_most_bind pays 0 1); [|done]. unfold exchangeTicketsSwitched. case_bool_decide; [done|]. apply at_most_aside; [reflexivity|].
    intros [x|e]; [|done]. apply (at_most_bind pays 0 0); [no_payment|]. intros marked. destruct marked; [|done]. cbn [negb].
    apply (at_most_bind pays 0 0); [apply DriveExchange_unpaid|done].
  - apply (at_most_bind pays 0 1); [|done]. apply (at_most_bind pays 0 0); [apply driveOrderedReversal_unpaid|]. intros rv. no_payment.
  - apply (at_most_bind pays 0 1); [|done]. apply (at_most_bind pays 0 0); [apply DriveExchange_unpaid|]. intros x. no_payment.
Qed.

(** ** The claimed refunds *)

(** The queue hands out refunds whose money is back. *)
Lemma claimed_is_completed now locked limit lease claim db c :
  c ∈ (ClaimOutstandingReversals now locked limit lease claim db).2 →
  ∃ x, cm_Refunds db !! (rv_OrganizerID (cr_Refund c), rv_OperationID (cr_Refund c)) = Some x ∧ is_Some (rf_Completion x).
Proof.
  cbn. intros (kx & Hkx & Hc)%list_elem_of_omap. apply list_elem_of_fmap in Hkx as ([[org op] x] & -> & Hx).
  apply elem_of_longest_due in Hx as (Hx & Howed & _). cbn in *. unfold claimed_refund in Hc. cbn in Hc.
  destruct (order_line _ _ _) as [[o r]|]; [|done]. injection Hc as <-. cbn. exists x. split; [done|].
  unfold owed_refund in Howed. cbn in Howed. destruct (rf_Completion x); [by eexists|done].
Qed.

(** C11 (safety). A sale is undone in order: money, tickets, places. Whatever payments,
    access, inventory and the store answer, for a staff refund or void, for a switch that
    access reports, and for the two runners that retry what is left. Payments is asked
    for exactly the refund that was bound and is not paid, and at most once; the refund
    is recorded as paid only when payments named its fact and the journal took the
    order's own. Access is asked to void the tickets only of a refund whose money is
    back, which is bound as completed, is completed by this very request, or is claimed
    from a queue that hands out completed refunds only; or of a void, which moves no
    money. And inventory is asked for the places of that operation, and they are marked
    returned, only when it is on record that access voided or switched the tickets, so
    that no seat is sold again while its old ticket still admits. *)
Theorem places_wait_for_tickets (e : errand) (tr : list (event Service)) (Ht : traces (errand_of has_access has_inventory e) tr tt) :
  (∀ tr1 v tr2, tr = tr1 ++ v :: tr2 → allowed e tr1 (call_of v)) ∧ (counted pays tr ≤ 1)%nat ∧
  (∀ now locked limit lease claim db c, c ∈ (ClaimOutstandingReversals now locked limit lease claim db).2 →
     ∃ x, cm_Refunds db !! (rv_OrganizerID (cr_Refund c), rv_OperationID (cr_Refund c)) = Some x ∧ is_Some (rf_Completion x)).
Proof.
  split_and!; [exact (proj1 (obeys_traces _ _ _ _ _ _ (errand_obeys e) Ht))|exact (at_most_traces _ _ _ _ _ (errand_pays_once e) Ht)|].
  apply claimed_is_completed.
Qed.
End Order.

(** ** A refund whose every step succeeds *)
#[local] Existing Instance text_uuid.
#[local] Instance plain_ids : UUIDSource := {| NewSHA1 := λ s, s; is_v4 := λ _, true |}.

Definition bound_refund : Refund := {|
  re_ID := "refund"%string; re_OrderID := "order"%string; re_OrganizerID := "org"%string; re_Quantity := 1; re_UnitAmount := 1000; re_Amount := 1000;
  re_Currency := "EUR"; re_Completed := false; re_TicketsVoided := false; re_CapacityReturned := false; re_HoldID := "hold"%string;
  re_BuyerID := "buyer"%string; re_PaymentFactID := ""%string; re_Projection := (0, 0, NothingRefunded); re_PaymentSourceKey := "k1"; re_CreatedAt := 7 |}.
Definition bound_void : OrderVoid := {|
  ov_ID := "void"%string; ov_OrderID := "order"%string; ov_OrganizerID := "org"%string; ov_Quantity := 1; ov_Actor := "staff"; ov_Reason := "";
  ov_TicketsVoided := false; ov_CapacityReturned := false; ov_HoldID := "hold"%string |}.

Definition all_well (X : Type) (e : Service X) : X :=
  match e in Service X return X with
  | PostPartialRefund _ _ _ _ _ => Answered 200 (Some {| pb_FactID := "fact"%string; pb_Code := ""; pb_ProviderRef := "" |})
  | PostRefundFact _ _ _ _ _ _ _ | PostTicketsRefund _ _ _ _ | PostCapacityRefund _ _ _ _ => Answered 200 None
  | SvInsertFact _ _ _ _ _ _ _ | SvMarkVoided _ _ _ | SvMarkReturned _ _ _ | SvMarkExchangeReturned _ _ | SvMarkSwitched _ _
  | SvReleaseReversal _ _ _ _ _ _ | SvFinishReversal _ _ _ | SvAbandonReversal _ _ _
  | SvReleaseExchange _ _ _ _ _ _ | SvFinishExchange _ _ _ | SvAbandonExchange _ _ _ => true
  | SvBindRefund _ => Ok bound_refund
  | SvCompleteRefund _ _ _ => Ok tt
  | SvLookupVoid _ _ => Ok None
  | SvBindVoid _ => Ok bound_void
  | SvLoadSwitch _ _ => Err ErrExchangeNotSettled
  | SvClaimReversals _ => None
  | SvClaimExchanges _ => None
  | SvCancelled => false
  end.

Definition one_ticket : RefundRequest := {|
  rq_OrderID := "order"%string; rq_OrganizerID := "org"%string; rq_Quantity := 1; rq_IdempotencyKey := "r1"; rq_Actor := "staff"; rq_Reason := "ill" |}.
Definition refunded_trace : list (event Service) := (follow all_well (errand_of true true (RefundAnOrder one_ticket))).1.

Lemma places_wait_for_tickets_witness :
  list.last (map call_of refunded_trace) = Some (Asked (SvMarkReturned ByRefund "org"%string "refund"%string)) ∧
  counted pays refunded_trace = 1%nat ∧
  (∀ tr1 v tr2, refunded_trace = tr1 ++ v :: tr2 → allowed (RefundAnOrder one_ticket) tr1 (call_of v)).
Proof.
  split; [vm_compute; reflexivity|]. split; [vm_compute; reflexivity|].
  exact (proj1 (@places_wait_for_tickets text_uuid plain_ids true true (RefundAnOrder one_ticket) refunded_trace
    (follow_traces all_well (errand_of true true (RefundAnOrder one_ticket))))).
Defined.
