(* ===== verification/ExchangeService.v ===== *)
(** * Exchanging an order, and taking back one that is stuck

    [services/commerce/internal]: api/exchanges.go, the staff's exchange of an order for
    another ticket type, from the refusals that leave nothing behind to the one movement
    of money and the settlement; and exchangeunwind, the operator's way out of an
    exchange that cannot settle, which first asks payments whether money moved. Both
    derive payments' keys from the exchange's id. The store's transactions are those of
    [Reversals], catalog's answer is validated by [Composition]. A body that does not
    decode is absent. *)

From S2P Require Import Prelude Text Format Tables Lifecycle Orders Reversals PaymentFlows Composition Protocol RefundService CheckoutService.
#[local] Open Scope Z_scope.

Section Exchanging.
Context `{UU : UUID} `{US : !UUIDSource}.
(** Whether ACCESS_URL is set, and whether the evidence client is configured. *)
Context (has_access has_evidence : bool).

(** ** Ports *)

(** [admission], strictly decoded; absent fields are nil. *)
Record AdmissionBody := { ad_Admitted : option bool; ad_IssuedCount : option Z }.

Inductive Desk : Type → Type :=
| XLookup (xq : ExchangeRequest) : Desk (result CommerceError (option ExchangeRow))
| XBind (xq : ExchangeRequest) : Desk (result CommerceError Exchange)
| XLoadSource (org order : uuid) : Desk (result CommerceError (OrderRow * ReservationRow))
| GetSeating (hold org : uuid) : Desk (Wire bool)
| GetAdmission (order org : uuid) : Desk (Wire AdmissionBody)
| GetPrice (ticketType : uuid) (channel : option string) : Desk (answer priceResolution)
| PostTargetHold (key : string) (org slot ticketType : uuid) (quantity unit_amount : Z) (currency : string)
    (sold_by : option (string * uuid)) : Desk (Wire uuid)
| PostTargetStep (step : HoldStep) (hold org : uuid) : Desk (Wire unit)
| XRecordBasis (org id : uuid) (b : ExchangeBasis) : Desk (result CommerceError ExchangeBasis)
| XSettling (org id : uuid) : Desk (result CommerceError unit)
| PostExchangeCharge (key : string) (order org buyer : uuid) (amount : Z) (currency token : string) (plan : settlementPlanRequest) : Desk (Wire unit)
| PostExchangeRefund (org : uuid) (key refundKey : string) (amount : Z) (currency : string) : Desk (Wire PartialRefundBody)
| XInsertFact (fact order org buyer : uuid) (typ : string) (amount : Z) (currency : string) (occurred : time) : Desk bool
| PostExchangeFact (fact order org buyer : uuid) (typ : string) (amount : Z) (currency : string) (occurred : time) : Desk (Wire unit)
| XReplacementReservation (x : Exchange) (b : ExchangeBasis) (gross : Z) : Desk (result CommerceError unit)
| XReplacementOrder (x : Exchange) (b : ExchangeBasis) : Desk (result CommerceError unit)
| XSettle (org id replacement : uuid) : Desk (result CommerceError unit)
| GetChargeOperation (org : uuid) (key : string) : Desk (Wire (option Z))
| GetRefundLeg (org : uuid) (sourceKey refundKey : string) : Desk (Wire bool)
| XLoadWedged (org id : uuid) : Desk (result CommerceError (ExchangeRow * string))
| XUnwind (org id : uuid) (reason : string) (moneyMoved : bool) : Desk (result CommerceError unit).

Abbreviation desk A := (protocol Desk A).

(** ** What payments' records say (exchangeunwind) *)

Inductive MoneyEvidence := Indeterminate | Absent | Present.

Definition ChargeKey (id : uuid) : string := "exchange-charge:" +:+ uuid_String id.
Definition RefundKey (id : uuid) : string := "exchange-refund:" +:+ uuid_String id.

(** The two lookups: whatever is not a clean answer is indeterminate, and an error. *)
Definition operation_evidence (w : Wire (option Z)) : MoneyEvidence :=
  match w with
  | NoAnswer => Indeterminate
  | Answered code body =>
      if code =? 200 then match body with Some (Some _) => Present | Some None | None => Indeterminate end
      else if code =? 404 then Absent else Indeterminate
  end.
Definition leg_evidence (w : Wire bool) : MoneyEvidence :=
  match w with
  | NoAnswer => Indeterminate
  | Answered code body =>
      if code =? 200 then match body with Some true => Present | Some false | None => Indeterminate end
      else if code =? 404 then Absent else Indeterminate
  end.

(** [Evidence], of a basis that is recorded or not. *)
Definition Evidence (org id : uuid) (delta : option Z) (sourceKey : string) : desk MoneyEvidence :=
  match delta with
  | None => Done Absent
  | Some d =>
      if 0 <? d then w ← call (GetChargeOperation org (ChargeKey id)); Done (operation_evidence w)
      else if d <? 0 then w ← call (GetRefundLeg org sourceKey (RefundKey id)); Done (leg_evidence w)
      else Done Absent
  end.

Inductive UnwindError := UErrStore (e : CommerceError) | ErrMoneyIndeterminate | UErrMoneyMoved.

Definition Unwind (org id : uuid) (reason : string) : desk (result UnwindError unit) :=
  loaded ← call (XLoadWedged org id);
  match loaded with
  | Err e => Done (Err (UErrStore e))
  | Ok (row, sourceKey) =>
      evidence ← Evidence org id (bs_DeltaAmount <$> ex_Basis row) sourceKey;
      match evidence with
      | Present => Done (Err UErrMoneyMoved)
      | Indeterminate => Done (Err ErrMoneyIndeterminate)
      | Absent =>
          done ← call (XUnwind org id reason false);
          match done with Ok _ => Done (Ok tt) | Err e => Done (Err (UErrStore e)) end
      end
  end.

(** ** Replies *)

Inductive ExchangeReply :=
| XError (why : string)
| XConfirmationPending (id : uuid)
| XExchanged (id replacement : uuid) (row : ExchangeRow) (status : string) (replay : bool).
Abbreviation Reply := (Z * ExchangeReply)%type.

Definition says (code : Z) (why : string) : desk Reply := Done (code, XError why).

Definition exchange_status (row : ExchangeRow) : string :=
  match ex_TicketsExchangedAt row, ex_CapacityReturnedAt row with
  | Some _, Some _ => "completed"
  | Some _, None => "capacity_pending"
  | None, _ => "switch_pending"
  end.
Definition writeExchange (id replacement : uuid) (row : ExchangeRow) (replay : bool) : desk Reply :=
  Done (200, XExchanged id replacement row (exchange_status row) replay).

Definition exchangeProblem (e : CommerceError) : desk Reply :=
  match e with
  | ErrOrderNotExchangeable => says 409 "only a completed, unreversed order can be exchanged"
  | ErrExchangeConflict => says 409 "exchange conflicts with an existing request"
  | ErrNoRows => says 404 "not found"
  | _ => says 500 "persist exchange"
  end.

(** ** From a basis on: the money, the facts, the replacement *)

(** A row without a basis scans as zeros. *)
Definition no_basis : ExchangeBasis := {|
  bs_TargetHoldID := uuid_Nil; bs_ReplacementReservationID := uuid_Nil; bs_TargetSlotID := uuid_Nil;
  bs_TargetTotal := 0; bs_DeltaAmount := 0; bs_TargetUnitAmount := 0 |}.
Definition basis_of (x : Exchange) : ExchangeBasis := default no_basis (ex_Basis (xc_Row x)).

Inductive SettleError := ErrUpgradeNeedsInstrument | ErrProviderFailed | ErrSettlementUnresolved.

Definition delta_plan (delta : Z) (currency : string) : settlementPlanRequest := {|
  pr_FaceValue := delta; pr_PassedOn := 0; pr_Absorbed := 0; pr_TotalAmount := delta; pr_Currency := currency; pr_Fees := [] |}.

Definition providerRefundFailure (code : Z) (body : option PartialRefundBody) : bool :=
  (code =? 422) && match body with
                   | Some b => bool_decide (pb_Code b = "provider_refund_failed"%string) && refund_failed_ref (pb_ProviderRef b)
                   | None => false
                   end.

(** The one movement of money. *)
Definition settleExchangeDelta (x : Exchange) (delta : Z) (token : string) : desk (result SettleError unit) :=
  if delta =? 0 then Done (Ok tt)
  else if 0 <? delta then
    if bool_decide (TrimSpace token = ""%string) then Done (Err ErrUpgradeNeedsInstrument)
    else
      w ← call (PostExchangeCharge (ChargeKey (xc_ID x)) (ex_SourceOrderID (xc_Row x)) (xc_OrganizerID x) (xc_BuyerID x) delta
                  (ex_Currency (xc_Row x)) token (delta_plan delta (ex_Currency (xc_Row x))));
      Done (if wire_ok w then Ok tt else Err ErrSettlementUnresolved)
  else
    w ← call (PostExchangeRefund (xc_OrganizerID x) (xc_PaymentSourceKey x) (RefundKey (xc_ID x)) (wrap64 (- delta)) (ex_Currency (xc_Row x)));
    Done (match w with
          | Answered code body => if providerRefundFailure code body then Err ErrProviderFailed
                                  else if code =? 200 then Ok tt else Err ErrSettlementUnresolved
          | NoAnswer => Err ErrSettlementUnresolved
          end).

Definition target_step (x : Exchange) (step : HoldStep) : desk bool :=
  w ← call (PostTargetStep step (bs_TargetHoldID (basis_of x)) (xc_OrganizerID x)); Done (wire_ok w).

Definition exchange_fact (x : Exchange) (fact : uuid) (typ : string) (amount : Z) : desk bool :=
  let row := xc_Row x in
  ok ← call (XInsertFact fact (ex_SourceOrderID row) (xc_OrganizerID x) (xc_BuyerID x) typ amount (ex_Currency row) (ex_CreatedAt row));
  if negb ok then Done false
  else
    w ← call (PostExchangeFact fact (ex_SourceOrderID row) (xc_OrganizerID x) (xc_BuyerID x) typ amount (ex_Currency row) (ex_CreatedAt row));
    Done (wire_ok w).

(** Both gross legs. *)
Definition exchangeFacts (x : Exchange) (sold : Z) : desk bool :=
  ok ← exchange_fact x (ExchangeReversedFactID (xc_ID x)) "order.exchange.reversed" (ex_SourceGrossTotal (xc_Row x));
  if negb ok then Done false else exchange_fact x (ExchangeSoldFactID (xc_ID x)) "order.exchange.sold" sold.

(** The replacement's id, when both rows were written. *)
Definition persistExchangeReplacement (x : Exchange) (gross : Z) : desk (option uuid) :=
  r ← call (XReplacementReservation x (basis_of x) gross);
  match r with
  | Err _ => Done None
  | Ok _ =>
      o ← call (XReplacementOrder x (basis_of x));
      Done (match o with Ok _ => Some (replacementOrderID (xc_ID x)) | Err _ => None end)
  end.

(** What the money, once moved, still owes. *)
Definition finish_exchange (x : Exchange) (gross : Z) (replay : bool) : desk Reply :=
  confirmed ← target_step x StepConfirm;
  if negb confirmed then Done (202, XConfirmationPending (xc_ID x))
  else
    facts ← exchangeFacts x gross;
    if negb facts then says 503 "journal unavailable"
    else
      replacement ← persistExchangeReplacement x gross;
      match replacement with
      | None => says 500 "persist exchange"
      | Some replacement =>
          settled ← call (XSettle (xc_OrganizerID x) (xc_ID x) replacement);
          match settled with
          | Err _ => says 500 "persist exchange"
          | Ok _ => writeExchange (xc_ID x) replacement (xc_Row x) replay
          end
      end.

Definition completeExchangeFromBasis (x : Exchange) (replay : bool) (token : string) : desk Reply :=
  match replacementGross (xc_Row x) (bs_TargetTotal (basis_of x)) with
  | Err _ => says 409 "exchange total out of range"
  | Ok gross =>
      finalized ← target_step x StepFinalize;
      if negb finalized then says 409 "exchange target is unavailable"
      else
        marked ← call (XSettling (xc_OrganizerID x) (xc_ID x));
        match marked with
        | Err ErrExchangeUnwound => says 409 "exchange was unwound"
        | _ =>
            settled ← settleExchangeDelta x (bs_DeltaAmount (basis_of x)) token;
            match settled with
            | Err ErrUpgradeNeedsInstrument => says 409 "exchange upgrade requires a payment instrument"
            | Err ErrProviderFailed => says 422 "provider refund failed"
            | Err ErrSettlementUnresolved => says 502 "exchange settlement unresolved"
            | Ok _ => finish_exchange x gross replay
            end
        end
  end.

(** ** Before anything is durable *)

(** The reply that refuses, if access does not clear the source. *)
Definition admission_refusal (w : Wire AdmissionBody) (quantity : Z) : option Reply :=
  let unavailable := Some (502, XError "access admission unavailable") in
  match w with
  | NoAnswer => unavailable
  | Answered code body =>
      if negb (code =? 200) then unavailable
      else
        match body with
        | Some {| ad_Admitted := Some admitted; ad_IssuedCount := Some issued |} =>
            if (issued <? 0) || (50 <? issued) then unavailable
            else if (issued =? 0) || negb (issued =? quantity) then Some (503, XError "source tickets are not issued yet")
            else if (admitted : bool) then Some (409, XError "source order tickets have already been admitted")
            else None
        | _ => unavailable
        end
  end.

Definition checkSourceAdmission (order org : uuid) (quantity : Z) : desk (option Reply) :=
  if negb has_access then Done (Some (502, XError "access admission unavailable"))
  else w ← call (GetAdmission order org); Done (admission_refusal w quantity).

(** The reseller is the authority: without one, the target is priced and held publicly. *)
Definition repricingChannel (src : ReservationRow) : option string :=
  match rs_ResellerID src with None => None | Some _ => rs_ChannelCode src end.
Definition sold_by (src : ReservationRow) : option (string * uuid) :=
  match rs_ResellerID src, rs_ChannelCode src with Some reseller, Some channel => Some (channel, reseller) | _, _ => None end.

(** The hold that the answer names. *)
Definition hold_answer (w : Wire uuid) : option uuid :=
  match w with
  | Answered code (Some id) => if ((code =? 200) || (code =? 201)) && negb (bool_decide (id = uuid_Nil)) then Some id else None
  | _ => None
  end.

Definition releaseExchangeHold (org hold : uuid) : desk unit :=
  if bool_decide (hold = uuid_Nil) then Done tt else _ ← call (PostTargetStep StepRelease hold org); Done tt.

Definition shouldReleaseHoldOnBindError (e : CommerceError) : bool := match e with ErrExchangeConflict => false | _ => true end.

Definition with_basis (x : Exchange) (b : ExchangeBasis) : Exchange :=
  let r := xc_Row x in {|
  xc_ID := xc_ID x; xc_OrganizerID := xc_OrganizerID x; xc_SourceReservation := xc_SourceReservation x; xc_BuyerID := xc_BuyerID x;
  xc_HoldID := xc_HoldID x; xc_SlotID := xc_SlotID x; xc_PaymentSourceKey := xc_PaymentSourceKey x;
  xc_Row := set_exchange (Some b) (ex_Settlement r) (ex_SettlingAt r) (ex_TicketsExchangedAt r) (ex_CapacityReturnedAt r) (ex_Reversal r) r |}.

(** The fields that the handler takes from the source it has loaded. *)
Definition from_source (o : OrderRow) (r : ReservationRow) (x : Exchange) : Exchange := {|
  xc_ID := xc_ID x; xc_OrganizerID := xc_OrganizerID x; xc_Row := xc_Row x; xc_SourceReservation := xc_SourceReservation x;
  xc_BuyerID := rs_BuyerID r; xc_HoldID := rs_HoldID r; xc_SlotID := xc_SlotID x; xc_PaymentSourceKey := or_IdempotencyKey o |}.

(** The target is held: bind, record the basis, go on from it. *)
Definition bind_and_complete (xq : ExchangeRequest) (token : string) (o : OrderRow) (src : ReservationRow) (p : priceResolution)
    (targetTotal : Z) (hold : uuid) : desk Reply :=
  bound ← call (XBind xq);
  match bound with
  | Err e =>
      _ ← if shouldReleaseHoldOnBindError e then releaseExchangeHold (xq_OrganizerID xq) hold else Done tt;
      exchangeProblem e
  | Ok x =>
      let x := from_source o src x in
      match ex_Basis (xc_Row x) with
      | Some _ => completeExchangeFromBasis x false token
      | None =>
          persisted ← call (XRecordBasis (xc_OrganizerID x) (xc_ID x) {|
            bs_TargetHoldID := hold; bs_ReplacementReservationID := replacementReservationID (xc_ID x); bs_TargetSlotID := pz_PerformanceID p;
            bs_TargetTotal := targetTotal; bs_DeltaAmount := ExchangeDelta (ex_SourceTotal (xc_Row x)) targetTotal;
            bs_TargetUnitAmount := rm_Amount (pz_ResolvedPrice p) |});
          match persisted with
          | Err _ => says 500 "persist exchange"
          | Ok b => completeExchangeFromBasis (with_basis x b) false token
          end
      end
  end.

(** The target's price, and the refusals that it decides. *)
Definition price_and_hold (xq : ExchangeRequest) (token : string) (o : OrderRow) (src : ReservationRow) : desk Reply :=
  let channel := repricingChannel src in
  a ← call (GetPrice (xq_TargetTicketTypeID xq) channel);
  match resolveTicketTypePrice a (xq_OrganizerID xq) (rs_Quantity src) channel with
  | Err (errResolveUnavailable _) => says 502 "catalog unavailable"
  | Err _ => says 500 "price resolution unusable"
  | Ok p =>
      let targetTotal := priceResolution_total p (rs_Quantity src) in
      if negb (seqb (rm_Currency (pz_ResolvedPrice p)) (rs_Currency src)) then says 409 "exchange target is priced in a different currency"
      else if (0 <? ExchangeDelta (rs_FaceValueAmount src) targetTotal) && bool_decide (TrimSpace token = ""%string)
      then says 409 "exchange upgrade requires a payment instrument"
      else
        w ← call (PostTargetHold ("exchange-target:" +:+ uuid_String (ExchangeID (xq_OrganizerID xq) (xq_IdempotencyKey xq)))
                    (xq_OrganizerID xq) (pz_PerformanceID p) (xq_TargetTicketTypeID xq) (rs_Quantity src) (rm_Amount (pz_ResolvedPrice p))
                    (rm_Currency (pz_ResolvedPrice p)) (sold_by src));
        match hold_answer w with
        | None => says 409 "exchange target is unavailable"
        | Some hold => bind_and_complete xq token o src p targetTotal hold
        end
  end.

(** The first drive of an exchange. *)
Definition exchange_forward (xq : ExchangeRequest) (token : string) : desk Reply :=
  loaded ← call (XLoadSource (xq_OrganizerID xq) (xq_SourceOrderID xq));
  match loaded with
  | Err e => exchangeProblem e
  | Ok (o, src) =>
      seated ← call (GetSeating (rs_HoldID src) (xq_OrganizerID xq));
      match seated with
      | Answered code (Some seated) =>
          if negb (code =? 200) then says 502 "inventory unavailable"
          else if (seated : bool) then says 409 "a seated order cannot be exchanged yet (no ticket-to-seat association)"
          else
            refusal ← checkSourceAdmission (xq_SourceOrderID xq) (xq_OrganizerID xq) (rs_Quantity src);
            match refusal with Some r => Done r | None => price_and_hold xq token o src end
      | _ => says 502 "inventory unavailable"
      end
  end.

(** A basis is recorded and the exchange is not settled. *)
Definition exchange_resume (xq : ExchangeRequest) (token : string) (existing : ExchangeRow) : desk Reply :=
  bound ← call (XBind xq);
  match bound with
  | Err e => exchangeProblem e
  | Ok x =>
      evidence ← if is_None (ex_SettlingAt existing) && has_evidence
                 then Evidence (xc_OrganizerID x) (xc_ID x) (Some (bs_DeltaAmount (basis_of x))) (xc_PaymentSourceKey x)
                 else Done Indeterminate;
      refusal ← match evidence with
                | Absent => checkSourceAdmission (ex_SourceOrderID (xc_Row x)) (xc_OrganizerID x) (ex_Quantity (xc_Row x))
                | _ => Done None
                end;
      match refusal with Some r => Done r | None => completeExchangeFromBasis x true token end
  end.

Definition invalid_exchange (xq : ExchangeRequest) : bool :=
  bool_decide (xq_OrganizerID xq = uuid_Nil) || bool_decide (xq_TargetTicketTypeID xq = uuid_Nil) ||
  bool_decide (TrimSpace (xq_Actor xq) = ""%string) || bool_decide (TrimSpace (xq_Reason xq) = ""%string).

(** The handler, for an authenticated call; the request's key is trimmed. *)
Definition exchangeOrder (xq : ExchangeRequest) (token : string) : desk Reply :=
  if bool_decide (xq_IdempotencyKey xq = ""%string) || (200 <? String.length (xq_IdempotencyKey xq))%nat then says 400 "Idempotency-Key required"
  else if invalid_exchange xq then says 400 "invalid exchange"
  else
    found ← call (XLookup xq);
    match found with
    | Err e => exchangeProblem e
    | Ok None => exchange_forward xq token
    | Ok (Some row) =>
        let id := ExchangeID (xq_OrganizerID xq) (xq_IdempotencyKey xq) in
        match ex_Settlement row with
        | Some (replacement, _) =>
            repaired ← call (XSettle (xq_OrganizerID xq) id replacement);
            match repaired with Err _ => says 500 "persist exchange" | Ok _ => writeExchange id replacement row true end
        | None => if is_None (ex_Basis row) then exchange_forward xq token else exchange_resume xq token row
        end
    end.
End Exchanging.
Arguments Desk {UU}.
