(* ===== verification/ExchangeOrder.v ===== *)
(** * The order of an exchange, and of taking one back

    Whatever catalog, access, inventory, payments and the store answer to
    [ExchangeService]: a first drive binds nothing before the source is cleared and the
    target held, and a request that finds its exchange with a recorded basis resumes it;
    the difference moves once, after the target is secured and before anything is
    journalled, replaced or settled; and an operator's unwind removes an exchange only
    when payments has no trace of any movement its settlement could have made. *)

From S2P Require Import Prelude Text Format Tables Lifecycle Orders Reversals PaymentFlows Composition Protocol RefundService CheckoutService ExchangeService.
#[local] Open Scope Z_scope.

Create HintDb desk.

Section Order.
Context `{UU : UUID} `{US : !UUIDSource} (has_access has_evidence : bool).
Implicit Types (past : list (event Desk)) (x : Exchange) (xq : ExchangeRequest).

(** ** What is on record *)

(** The exchange as the handler has it: as it was bound, with the fields of the source
    that was loaded, and with the basis that persisted. *)
Definition in_hand past x : Prop :=
  ∃ xq x0, Happened (XBind xq) (Ok x0) ∈ past ∧
    (x = x0 ∨ ∃ o src, Happened (XLoadSource (xq_OrganizerID xq) (xq_SourceOrderID xq)) (Ok (o, src)) ∈ past ∧
       (x = from_source o src x0 ∨
        ∃ b0 b, Happened (XRecordBasis (xc_OrganizerID x0) (xc_ID x0) b0) (Ok b) ∈ past ∧ x = with_basis (from_source o src x0) b)).

Definition target_done past x (step : HoldStep) : Prop :=
  ∃ w, Happened (PostTargetStep step (bs_TargetHoldID (basis_of x)) (xc_OrganizerID x)) w ∈ past ∧ wire_ok w = true.

(** The store was told that the settlement begins, and did not answer that the exchange
    is unwound. That it could not record it stops nothing. *)
Definition announced past x : Prop :=
  ∃ r, Happened (XSettling (xc_OrganizerID x) (xc_ID x)) r ∈ past ∧ r ≠ Err ErrExchangeUnwound.

Definition delta_of x : Z := bs_DeltaAmount (basis_of x).

(** The difference is paid, one way or the other. *)
Definition difference_moved past x : Prop :=
  delta_of x = 0 ∨
  (∃ token plan w, Happened (PostExchangeCharge (ChargeKey (xc_ID x)) (ex_SourceOrderID (xc_Row x)) (xc_OrganizerID x) (xc_BuyerID x) (delta_of x)
     (ex_Currency (xc_Row x)) token plan) w ∈ past ∧ wire_ok w = true) ∨
  (∃ body, Happened (PostExchangeRefund (xc_OrganizerID x) (xc_PaymentSourceKey x) (RefundKey (xc_ID x)) (wrap64 (- delta_of x))
     (ex_Currency (xc_Row x))) (Answered 200 body) ∈ past).

Definition leg_journalled past x (fact : uuid) (typ : string) (amount : Z) : Prop :=
  ∃ w, Happened (PostExchangeFact fact (ex_SourceOrderID (xc_Row x)) (xc_OrganizerID x) (xc_BuyerID x) typ amount (ex_Currency (xc_Row x))
    (ex_CreatedAt (xc_Row x))) w ∈ past ∧ wire_ok w = true.
Definition reversed_leg past x : Prop :=
  leg_journalled past x (ExchangeReversedFactID (xc_ID x)) "order.exchange.reversed" (ex_SourceGrossTotal (xc_Row x)).
Definition sold_leg past x (gross : Z) : Prop := leg_journalled past x (ExchangeSoldFactID (xc_ID x)) "order.exchange.sold" gross.

Definition hold_taken past (hold : uuid) : Prop :=
  ∃ key org slot ticketType quantity unit_amount currency by_ w,
    Happened (PostTargetHold key org slot ticketType quantity unit_amount currency by_) w ∈ past ∧ hold_answer w = Some hold.

(** The source that the store loads for an exchange is not seated, and its tickets are
    issued and not admitted. *)
Definition source_cleared past xq : Prop :=
  ∃ o src w, Happened (XLoadSource (xq_OrganizerID xq) (xq_SourceOrderID xq)) (Ok (o, src)) ∈ past ∧
    Happened (GetSeating (rs_HoldID src) (xq_OrganizerID xq)) (Answered 200 (Some false)) ∈ past ∧
    Happened (GetAdmission (xq_SourceOrderID xq) (xq_OrganizerID xq)) w ∈ past ∧ admission_refusal w (rs_Quantity src) = None.

Definition resumed past xq : Prop :=
  ∃ row, Happened (XLookup xq) (Ok (Some row)) ∈ past ∧ ex_Basis row ≠ None ∧ ex_Settlement row = None.

(** Payments answered about the one movement of this exchange, and not that it never
    heard of it. *)
Definition money_not_absent past x : Prop :=
  (∃ w, Happened (GetChargeOperation (xc_OrganizerID x) (ChargeKey (xc_ID x))) w ∈ past ∧ operation_evidence w ≠ Absent) ∨
  (∃ w, Happened (GetRefundLeg (xc_OrganizerID x) (xc_PaymentSourceKey x) (RefundKey (xc_ID x))) w ∈ past ∧ leg_evidence w ≠ Absent).

(** A resumed exchange may go on: money may have moved, or the tickets are still not
    admitted. *)
Definition resume_cleared past (row : ExchangeRow) x : Prop :=
  ex_SettlingAt row ≠ None ∨ has_evidence = false ∨ money_not_absent past x ∨
  ∃ w, Happened (GetAdmission (ex_SourceOrderID (xc_Row x)) (xc_OrganizerID x)) w ∈ past ∧ admission_refusal w (ex_Quantity (xc_Row x)) = None.

(** Why this request drives the exchange: it cleared the source and held a target, or it
    found the exchange with a basis and cleared its resumption. *)
Definition entitled past x : Prop :=
  (∃ xq x0 hold, source_cleared past xq ∧ hold_taken past hold ∧ Happened (XBind xq) (Ok x0) ∈ past ∧ xc_ID x = xc_ID x0) ∨
  (∃ xq row, Happened (XLookup xq) (Ok (Some row)) ∈ past ∧ ex_Basis row ≠ None ∧ ex_Settlement row = None ∧
     Happened (XBind xq) (Ok x) ∈ past ∧ resume_cleared past row x).

(** A movement of money, and payments' answer that it never heard of it. *)
Definition moves_money (c : asked Desk) : bool :=
  match c with Asked e => match e with PostExchangeCharge _ _ _ _ _ _ _ _ | PostExchangeRefund _ _ _ _ _ => true | _ => false end end.
Definition never_bound past (c : asked Desk) : Prop :=
  match c with
  | Asked e =>
      match e with
      | PostExchangeCharge key _ org _ _ _ _ _ => ∃ body, Happened (GetChargeOperation org key) (Answered 404 body) ∈ past
      | PostExchangeRefund org key refundKey _ _ => ∃ body, Happened (GetRefundLeg org key refundKey) (Answered 404 body) ∈ past
      | _ => True
      end
  end.

(** Whatever the settlement of this row could have asked of payments, it did not. *)
Definition no_money_moved past (org id : uuid) : Prop :=
  ∃ row key, Happened (XLoadWedged org id) (Ok (row, key)) ∈ past ∧
    ∀ x token tr r, xc_OrganizerID x = org → xc_ID x = id → xc_Row x = row → xc_PaymentSourceKey x = key →
      traces (settleExchangeDelta x (delta_of x) token) tr r → ∀ v, v ∈ tr → moves_money (call_of v) = true ∧ never_bound past (call_of v).

(** ** What each call waits for *)

Definition cleared past (c : asked Desk) : Prop :=
  match c with
  | Asked e =>
      match e with
      | XBind xq => resumed past xq ∨ source_cleared past xq ∧ ∃ hold, hold_taken past hold
      | XRecordBasis org id b =>
          hold_taken past (bs_TargetHoldID b) ∧ ∃ x, in_hand past x ∧ (org, id) = (xc_OrganizerID x, xc_ID x) ∧
          bs_DeltaAmount b = ExchangeDelta (ex_SourceTotal (xc_Row x)) (bs_TargetTotal b)
      | PostTargetStep step hold org =>
          match step with
          | StepRelease => hold_taken past hold ∧ ∃ xq e, Happened (XBind xq) (Err e) ∈ past ∧ e ≠ ErrExchangeConflict
          | StepFinalize => ∃ x gross, in_hand past x ∧ entitled past x ∧ (hold, org) = (bs_TargetHoldID (basis_of x), xc_OrganizerID x) ∧
              replacementGross (xc_Row x) (bs_TargetTotal (basis_of x)) = Ok gross
          | StepConfirm => ∃ x, in_hand past x ∧ (hold, org) = (bs_TargetHoldID (basis_of x), xc_OrganizerID x) ∧ difference_moved past x
          end
      | PostExchangeCharge key order org buyer amount currency token plan =>
          ∃ x, in_hand past x ∧ entitled past x ∧ ex_Basis (xc_Row x) ≠ None ∧ target_done past x StepFinalize ∧ announced past x ∧
            (key, org, buyer) = (ChargeKey (xc_ID x), xc_OrganizerID x, xc_BuyerID x) ∧ amount = delta_of x ∧ 0 < amount ∧
            TrimSpace token ≠ ""%string ∧ plan = delta_plan amount currency
      | PostExchangeRefund org key refundKey amount currency =>
          ∃ x, in_hand past x ∧ entitled past x ∧ ex_Basis (xc_Row x) ≠ None ∧ target_done past x StepFinalize ∧ announced past x ∧
            (org, key, refundKey) = (xc_OrganizerID x, xc_PaymentSourceKey x, RefundKey (xc_ID x)) ∧ amount = wrap64 (- delta_of x) ∧ delta_of x < 0
      | PostExchangeFact fact _ _ _ typ amount _ _ =>
          ∃ x gross, in_hand past x ∧ difference_moved past x ∧ target_done past x StepConfirm ∧
            replacementGross (xc_Row x) (bs_TargetTotal (basis_of x)) = Ok gross ∧
            ((fact, typ, amount) = (ExchangeReversedFactID (xc_ID x), "order.exchange.reversed"%string, ex_SourceGrossTotal (xc_Row x)) ∨
             (fact, typ, amount) = (ExchangeSoldFactID (xc_ID x), "order.exchange.sold"%string, gross))
      | XReplacementReservation x b gross =>
          in_hand past x ∧ b = basis_of x ∧ difference_moved past x ∧ reversed_leg past x ∧ sold_leg past x gross ∧
          replacementGross (xc_Row x) (bs_TargetTotal b) = Ok gross
      | XReplacementOrder x b => ∃ gross, Happened (XReplacementReservation x b gross) (Ok tt) ∈ past
      | XSettle org id replacement =>
          (∃ xq row at_, Happened (XLookup xq) (Ok (Some row)) ∈ past ∧ ex_Settlement row = Some (replacement, at_)) ∨
          (∃ x, in_hand past x ∧ (org, id, replacement) = (xc_OrganizerID x, xc_ID x, replacementOrderID (xc_ID x)) ∧
             difference_moved past x ∧ Happened (XReplacementOrder x (basis_of x)) (Ok tt) ∈ past)
      | XUnwind org id _ moved => moved = false ∧ no_money_moved past org id
      | _ => True
      end
  end.

(** ** What was on record stays on record *)

#[local] Hint Resolve seen_later seen_last grown grown_trans : desk.

Lemma in_hand_grows p p' x : p ⊆ p' → in_hand p x → in_hand p' x.
Proof.
  intros Hp (xq & x0 & Hin & H). exists xq, x0. split; [by apply Hp|].
  destruct H as [H|(o & src & Hs & H)]; [by left|right]. exists o, src. split; [by apply Hp|].
  destruct H as [H|(b0 & b & Hb & H)]; [by left|right]. exists b0, b. split; [by apply Hp|done].
Qed.
Lemma target_grows p p' x step : p ⊆ p' → target_done p x step → target_done p' x step.
Proof. intros Hp (w & Hin & H). exists w. split; [by apply Hp|done]. Qed.
Lemma announced_grows p p' x : p ⊆ p' → announced p x → announced p' x.
Proof. intros Hp (w & Hin & H). exists w. split; [by apply Hp|done]. Qed.
Lemma moved_grows p p' x : p ⊆ p' → difference_moved p x → difference_moved p' x.
Proof.
  intros Hp [H|[(token & plan & w & Hin & H)|(body & Hin)]]; [by left|right; left|right; right].
  - exists token, plan, w. split; [by apply Hp|done].
  - exists body. by apply Hp.
Qed.
Lemma leg_grows p p' x fact typ amount : p ⊆ p' → leg_journalled p x fact typ amount → leg_journalled p' x fact typ amount.
Proof. intros Hp (w & Hin & H). exists w. split; [by apply Hp|done]. Qed.
Lemma hold_grows p p' hold : p ⊆ p' → hold_taken p hold → hold_taken p' hold.
Proof. intros Hp (k & o & s & t & qu & u & c & b & w & Hin & H). exists k, o, s, t, qu, u, c, b, w. split; [by apply Hp|done]. Qed.
Lemma source_grows p p' xq : p ⊆ p' → source_cleared p xq → source_cleared p' xq.
Proof. intros Hp (o & src & w & H1 & H2 & H3 & H). exists o, src, w. split_and!; [by apply Hp..|done]. Qed.
Lemma resume_grows p p' row x : p ⊆ p' → resume_cleared p row x → resume_cleared p' row x.
Proof.
  intros Hp [H|[H|[[(w & Hin & H)|(w & Hin & H)]|(w & Hin & H)]]]; [by left|by right; left|right; right; left; left|right; right; left; right|right; right; right];
    exists w; (split; [by apply Hp|done]).
Qed.
Lemma entitled_grows p p' x : p ⊆ p' → entitled p x → entitled p' x.
Proof.
  intros Hp [(xq & x0 & hold & H1 & H2 & H3 & H)|(xq & row & H1 & H2 & H3 & H4 & H)]; [left|right].
  - exists xq, x0, hold. split_and!; [by eapply source_grows|by eapply hold_grows|by apply Hp|done].
  - exists xq, row. split_and!; [by apply Hp|done|done|by apply Hp|by eapply resume_grows].
Qed.
#[local] Hint Resolve in_hand_grows target_grows announced_grows moved_grows leg_grows hold_grows source_grows entitled_grows : desk.

Lemma delta_basis x : delta_of x ≠ 0 → ex_Basis (xc_Row x) ≠ None.
Proof. intros H Hn. apply H. unfold delta_of, basis_of. by rewrite Hn. Qed.

Abbreviation ob p past := (obeys cleared p past (λ _ _, True)).

(** ** Settling *)

Lemma target_step_obeys x step past (P : bool → list (event Desk) → Prop) :
  cleared past (Asked (PostTargetStep step (bs_TargetHoldID (basis_of x)) (xc_OrganizerID x))) →
  (∀ ok p, past ⊆ p → (ok = true → target_done p x step) → P ok p) → obeys cleared (target_step x step) past P.
Proof. intros Hm HP. apply obeys_call; [exact Hm|]. intros w. apply HP; [eauto with desk|]. intros Hw. exists w. eauto with desk. Qed.

Lemma settle_obeys x token past (P : result SettleError unit → list (event Desk) → Prop) :
  in_hand past x → entitled past x → target_done past x StepFinalize → announced past x →
  (∀ r p, past ⊆ p → (r = Ok tt → difference_moved p x) → P r p) → obeys cleared (settleExchangeDelta x (delta_of x) token) past P.
Proof.
  intros Hx He Hf Ha HP. unfold settleExchangeDelta. destruct (Z.eqb_spec (delta_of x) 0) as [H0|H0]; [apply HP; [done|by left]|].
  pose proof (delta_basis x H0) as Hb.
  destruct (Z.ltb_spec 0 (delta_of x)) as [Hd|Hd].
  - case_bool_decide as Ht; [by apply HP|]. apply obeys_call; [exists x; split_and!; done|]. intros w.
    apply HP; [eauto with desk|]. destruct (wire_ok w) eqn:Ew; [|done]. intros _. right. left. eexists _, _, w. split; [apply seen_last|done].
  - apply obeys_call; [exists x; split_and!; try done; lia|]. intros w. apply HP; [eauto with desk|].
    destruct w as [|code body]; [done|]. destruct (providerRefundFailure code body); [done|]. destruct (Z.eqb_spec code 200) as [->|]; [|done].
    intros _. right. right. exists body. apply seen_last.
Qed.

Lemma fact_obeys x fact typ amount past (P : bool → list (event Desk) → Prop) :
  (∀ p, past ⊆ p → cleared p (Asked (PostExchangeFact fact (ex_SourceOrderID (xc_Row x)) (xc_OrganizerID x) (xc_BuyerID x) typ amount
     (ex_Currency (xc_Row x)) (ex_CreatedAt (xc_Row x))))) →
  (∀ ok p, past ⊆ p → (ok = true → leg_journalled p x fact typ amount) → P ok p) → obeys cleared (exchange_fact x fact typ amount) past P.
Proof.
  intros Hm HP. unfold exchange_fact. cbv zeta. apply obeys_call; [done|]. intros ok. destruct ok; cbn [negb]; [|apply HP; [eauto with desk|done]].
  apply obeys_call; [apply Hm; eauto with desk|]. intros w. apply HP; [eauto with desk|]. intros Hw. exists w. eauto with desk.
Qed.

Lemma finish_obeys x gross replay past : in_hand past x → difference_moved past x →
  replacementGross (xc_Row x) (bs_TargetTotal (basis_of x)) = Ok gross → ob (finish_exchange x gross replay) past.
Proof.
  intros Hx Hd Hg. unfold finish_exchange. apply obeys_bind, target_step_obeys; [by exists x|].
  intros ok p1 Hp1 Hc. destruct ok; cbn [negb]; [|done]. specialize (Hc eq_refl).
  apply obeys_bind, obeys_bind, fact_obeys; [intros p Hp; exists x, gross; split_and!; eauto with desk|].
  intros ok p2 Hp2 Hr. destruct ok; cbn [negb]; [|done]. specialize (Hr eq_refl).
  apply fact_obeys; [intros p Hp; exists x, gross; split_and!; eauto with desk|].
  intros ok p3 Hp3 Hs. destruct ok; cbn [negb]; [|done]. specialize (Hs eq_refl).
  apply obeys_bind, obeys_call.
  { cbn. split_and!; try done; unfold reversed_leg, sold_leg in *; eauto 6 with desk. }
  intros [[]|e]; [|done]. apply obeys_call; [exists gross; apply seen_last|]. intros [[]|e]; [|done]. cbn [obeys].
  apply obeys_call; [right; exists x; split_and!; eauto 8 with desk|]. by intros [[]|e].
Qed.

Lemma complete_obeys x replay token past : in_hand past x → entitled past x → ob (completeExchangeFromBasis x replay token) past.
Proof.
  intros Hx He. unfold completeExchangeFromBasis. destruct (replacementGross _ _) as [gross|] eqn:Hg; [|done].
  apply obeys_bind, target_step_obeys; [by exists x, gross|]. intros ok p1 Hp1 Hf. destruct ok; cbn [negb]; [|done]. specialize (Hf eq_refl).
  apply obeys_call; [done|]. intros marked. set (p2 := p1 ++ _).
  assert (Hgo : marked ≠ Err ErrExchangeUnwound → ob
    (settled ← settleExchangeDelta x (bs_DeltaAmount (basis_of x)) token;
     match settled with
     | Err ErrUpgradeNeedsInstrument => says 409 "exchange upgrade requires a payment instrument"
     | Err ErrProviderFailed => says 422 "provider refund failed"
     | Err ErrSettlementUnresolved => says 502 "exchange settlement unresolved"
     | Ok _ => finish_exchange x gross replay
     end) p2).
  { intros Hne. apply obeys_bind, settle_obeys; [unfold p2; eauto with desk..|exists marked; split; [apply seen_last|done]|].
    intros [[]|e] p3 Hp3 Hd; [|by destruct e]. apply finish_obeys; [|auto|done]. unfold p2 in Hp3. eauto with desk. }
  destruct marked as [[]|e]; [by apply Hgo|]. destruct e; try done; by apply Hgo.
Qed.

(** ** Binding *)

Lemma bind_and_complete_obeys xq token o src pr total hold past : source_cleared past xq → hold_taken past hold →
  Happened (XLoadSource (xq_OrganizerID xq) (xq_SourceOrderID xq)) (Ok (o, src)) ∈ past →
  ob (bind_and_complete xq token o src pr total hold) past.
Proof.
  intros Hs Hh Hsrc. unfold bind_and_complete. apply obeys_call; [right; split; [done|by exists hold]|]. intros [x0|e].
  - set (p1 := past ++ _). assert (Hb : Happened (XBind xq) (Ok x0) ∈ p1) by apply seen_last.
    assert (Hsrc1 : Happened (XLoadSource (xq_OrganizerID xq) (xq_SourceOrderID xq)) (Ok (o, src)) ∈ p1) by (apply seen_later; exact Hsrc).
    assert (Hx : in_hand p1 (from_source o src x0)).
    { exists xq, x0. split; [done|]. right. exists o, src. split; [done|by left]. }
    assert (He : ∀ x, xc_ID x = xc_ID x0 → entitled p1 x).
    { intros x Hid. left. exists xq, x0, hold. unfold p1. split_and!; eauto with desk. }
    cbv zeta. destruct (ex_Basis (xc_Row (from_source o src x0))) eqn:Eb; [apply complete_obeys; [done|by apply He]|].
    apply obeys_call; [split; [unfold p1; eauto with desk|]; exists (from_source o src x0); split_and!; done|].
    intros [b|e]; [|done]. apply complete_obeys; [|eapply entitled_grows; [apply grown|by apply He]]. exists xq, x0. split; [by apply seen_later|]. right. exists o, src. split; [by apply seen_later|].
    right. eexists _, b. split; [apply seen_last|done].
  - apply obeys_bind. destruct (shouldReleaseHoldOnBindError e) eqn:Er; [|by destruct e].
    unfold releaseExchangeHold. case_bool_decide; [by destruct e|]. apply obeys_call; [|intros u; by destruct e].
    split; [eauto with desk|]. exists xq, e. split; [apply seen_last|]. by destruct e.
Qed.

Lemma price_and_hold_obeys xq token o src past : source_cleared past xq →
  Happened (XLoadSource (xq_OrganizerID xq) (xq_SourceOrderID xq)) (Ok (o, src)) ∈ past → ob (price_and_hold xq token o src) past.
Proof.
  intros Hs Hsrc. unfold price_and_hold. cbv zeta. apply obeys_call; [done|]. intros a.
  destruct (resolveTicketTypePrice _ _ _ _) as [pr|e]; [|by destruct e]. destruct (negb _); [done|]. destruct (_ && _); [done|].
  apply obeys_call; [done|]. intros w. destruct (hold_answer w) as [hold|] eqn:Eh; [|done].
  apply bind_and_complete_obeys; [eauto with desk| |by repeat apply seen_later]. eexists _, _, _, _, _, _, _, _, w. split; [apply seen_last|done].
Qed.

Lemma problem_obeys e past : ob (exchangeProblem e) past.
Proof. by destruct e. Qed.

Lemma forward_obeys xq token past : ob (exchange_forward has_access xq token) past.
Proof.
  unfold exchange_forward. apply obeys_call; [done|]. intros [[o src]|e]; [|apply problem_obeys]. set (p1 := past ++ _).
  apply obeys_call; [done|]. intros [|code [seated|]]; [done| |done]. destruct (Z.eqb_spec code 200) as [->|]; cbn [negb]; [|done].
  destruct seated; [done|]. set (p2 := p1 ++ _).
  apply obeys_bind. unfold checkSourceAdmission. destruct has_access; cbn [negb]; [|done].
  apply obeys_call; [done|]. intros w. cbn [obeys]. destruct (admission_refusal w (rs_Quantity src)) as [r|] eqn:Er; [done|]. set (p3 := p2 ++ _).
  assert (H1 : Happened (XLoadSource (xq_OrganizerID xq) (xq_SourceOrderID xq)) (Ok (o, src)) ∈ p3) by (unfold p3, p2, p1; eauto with desk).
  apply price_and_hold_obeys; [|done]. exists o, src, w. split_and!; [done| |apply seen_last|done]. unfold p3, p2. eauto with desk.
Qed.

Lemma Evidence_obeys org id delta key past (P : MoneyEvidence → list (event Desk) → Prop) :
  (∀ m p, past ⊆ p → (m ≠ Absent →
     (∃ w, Happened (GetChargeOperation org (ChargeKey id)) w ∈ p ∧ operation_evidence w ≠ Absent) ∨
     (∃ w, Happened (GetRefundLeg org key (RefundKey id)) w ∈ p ∧ leg_evidence w ≠ Absent)) → P m p) →
  obeys cleared (Evidence org id delta key) past P.
Proof.
  intros HP. unfold Evidence. destruct delta as [d|]; [|by apply HP]. destruct (0 <? d); [|destruct (d <? 0); [|by apply HP]];
    (apply obeys_call; [done|]; intros w; apply HP; [eauto with desk|]; intros Hm).
  - left. exists w. eauto with desk.
  - right. exists w. eauto with desk.
Qed.

Lemma resume_obeys xq token row past : Happened (XLookup xq) (Ok (Some row)) ∈ past → ex_Basis row ≠ None → ex_Settlement row = None →
  ob (exchange_resume has_access has_evidence xq token row) past.
Proof.
  intros Hrow Hb Hns. unfold exchange_resume. apply obeys_call; [left; by exists row|]. intros [x|e]; [|apply problem_obeys]. set (p1 := past ++ _).
  assert (Hx : in_hand p1 x) by (exists xq, x; split; [apply seen_last|by left]).
  assert (He : ∀ p, p1 ⊆ p → resume_cleared p row x → entitled p x).
  { intros p Hp Hc. right. exists xq, row. split_and!; [by apply Hp, grown|done|done|by apply Hp, seen_last|done]. }
  apply obeys_bind.
  assert (Hgo : ∀ m p, p1 ⊆ p → (m ≠ Absent → resume_cleared p row x) → ob (refusal ← match m with
      | Absent => checkSourceAdmission has_access (ex_SourceOrderID (xc_Row x)) (xc_OrganizerID x) (ex_Quantity (xc_Row x))
      | _ => Done None end; match refusal with Some r => Done r | None => completeExchangeFromBasis x true token end) p).
  { intros m p Hp Hc. assert (Hxp : in_hand p x) by eauto with desk. apply obeys_bind.
    destruct m; [apply complete_obeys; auto| |apply complete_obeys; auto].
    unfold checkSourceAdmission. destruct has_access; cbn [negb]; [|done]. apply obeys_call; [done|]. intros w. cbn [obeys].
    destruct (admission_refusal _ _) eqn:Ea; [done|]. apply complete_obeys; [eauto with desk|]. apply He; [eauto with desk|].
    right; right; right. exists w. split; [apply seen_last|done]. }
  destruct (ex_SettlingAt row) eqn:Es; cbn [is_None andb].
  { apply Hgo; [done|]. intros _. left. by rewrite Es. }
  destruct has_evidence eqn:Eh.
  - apply Evidence_obeys. intros m p Hp Hm. apply Hgo; [done|]. intros Hne. right; right; left. by apply Hm.
  - apply Hgo; [done|]. intros _. right; by left.
Qed.

Lemma exchangeOrder_obeys xq token : ob (exchangeOrder has_access has_evidence xq token) [].
Proof.
  unfold exchangeOrder. destruct (_ || _); [done|]. destruct (invalid_exchange xq); [done|].
  apply obeys_call; [done|]. intros [[row|]|e]; [|apply forward_obeys|apply problem_obeys]. cbn [app]. set (p := [_]).
  assert (Hin : Happened (XLookup xq) (Ok (Some row)) ∈ p) by left. cbv zeta.
  destruct (ex_Settlement row) as [[replacement at_]|] eqn:Es.
  - apply obeys_call; [left; by exists xq, row, at_|]. by intros [[]|e].
  - destruct (ex_Basis row) eqn:Eb; cbn [is_None]; [|apply forward_obeys]. apply resume_obeys; [done|by rewrite Eb|done].
Qed.

(** ** Unwinding *)

(** What the settlement of a row can ask. *)
Lemma settle_asks x token tr r : traces (settleExchangeDelta x (delta_of x) token) tr r → ∀ v, v ∈ tr →
  0 < delta_of x ∧ (∃ order buyer amount currency plan w,
     v = Happened (PostExchangeCharge (ChargeKey (xc_ID x)) order (xc_OrganizerID x) buyer amount currency token plan) w) ∨
  delta_of x < 0 ∧ (∃ amount currency w, v = Happened (PostExchangeRefund (xc_OrganizerID x) (xc_PaymentSourceKey x) (RefundKey (xc_ID x)) amount currency) w).
Proof.
  unfold settleExchangeDelta. intros Ht v Hv. destruct (Z.eqb_spec (delta_of x) 0) as [H0|H0].
  { destruct Ht as [-> _]. by apply elem_of_nil in Hv. }
  destruct (Z.ltb_spec 0 (delta_of x)).
  - left. split; [done|]. case_bool_decide; [destruct Ht as [-> _]; by apply elem_of_nil in Hv|].
    destruct Ht as (w & tr' & -> & [-> _]). apply elem_of_cons in Hv as [->|[]%elem_of_nil]. eexists _, _, _, _, _, w. done.
  - right. split; [lia|]. destruct Ht as (w & tr' & -> & [-> _]). apply elem_of_cons in Hv as [->|[]%elem_of_nil]. eexists _, _, w. done.
Qed.

Lemma Unwind_obeys org id reason : ob (Unwind org id reason) [].
Proof.
  unfold Unwind. apply obeys_call; [done|]. intros [[row key]|e]; [|done]. cbn [app]. set (p := [_]).
  assert (Hin : Happened (XLoadWedged org id) (Ok (row, key)) ∈ p) by left.
  assert (Hdelta : ∀ x, xc_Row x = row → delta_of x = default 0 (bs_DeltaAmount <$> ex_Basis row)).
  { intros x Hx. unfold delta_of, basis_of. rewrite Hx. by destruct (ex_Basis row). }
  assert (Hgo : ∀ p', p ⊆ p' →
    (∀ x token tr r, xc_OrganizerID x = org → xc_ID x = id → xc_Row x = row → xc_PaymentSourceKey x = key →
       traces (settleExchangeDelta x (delta_of x) token) tr r → ∀ v, v ∈ tr → moves_money (call_of v) = true ∧ never_bound p' (call_of v)) →
    ob (done ← call (XUnwind org id reason false); match done with Ok _ => Done (Ok tt) | Err e => Done (Err (UErrStore e)) end) p').
  { intros p' Hp Hall. apply obeys_call; [split; [done|]; exists row, key; split; [by apply Hp|done]|]. by intros [[]|e]. }
  apply obeys_bind. unfold Evidence. destruct (bs_DeltaAmount <$> ex_Basis row) as [d|] eqn:Ed; cbn in Hdelta.
  2: { apply Hgo; [done|]. intros x token tr r _ _ Hx _ Ht v Hv. specialize (Hdelta x Hx).
       destruct (settle_asks _ _ _ _ Ht v Hv) as [[? _]|[? _]]; lia. }
  destruct (Z.ltb_spec 0 d); [|destruct (Z.ltb_spec d 0)].
  - apply obeys_call; [done|]. intros w. cbn [obeys]. destruct (operation_evidence w) eqn:Ew; [done| |done].
    apply Hgo; [apply grown|]. intros x token tr r Ho Hid Hx Hk Ht v Hv. specialize (Hdelta x Hx).
    destruct (settle_asks _ _ _ _ Ht v Hv) as [[_ (o & b & a & c & pl & w' & ->)]|[? _]]; [|lia]. split; [done|]. cbn. rewrite Ho, Hid.
    destruct w as [|code body]; [done|]. cbn in Ew. destruct (Z.eqb_spec code 200); [by destruct body as [[]|]|].
    destruct (Z.eqb_spec code 404) as [->|]; [|done]. exists body. right. left.
  - apply obeys_call; [done|]. intros w. cbn [obeys]. destruct (leg_evidence w) eqn:Ew; [done| |done].
    apply Hgo; [apply grown|]. intros x token tr r Ho Hid Hx Hk Ht v Hv. specialize (Hdelta x Hx).
    destruct (settle_asks _ _ _ _ Ht v Hv) as [[? _]|[_ (a & c & w' & ->)]]; [lia|]. split; [done|]. cbn. rewrite Ho, Hid, Hk.
    destruct w as [|code body]; [done|]. cbn in Ew. destruct (Z.eqb_spec code 200); [by destruct body as [[]|]|].
    destruct (Z.eqb_spec code 404) as [->|]; [|done]. exists body. right. left.
  - apply Hgo; [done|]. intros x token tr r _ _ Hx _ Ht v Hv. specialize (Hdelta x Hx).
    destruct (settle_asks _ _ _ _ Ht v Hv) as [[? _]|[? _]]; lia.
Qed.

(** ** One movement *)

Abbreviation moves n p := (at_most moves_money n p).

(** Through a program that moves no money. *)
Ltac no_money :=
  repeat first [done | apply at_most_aside; [reflexivity|intros ?] | progress case_match | apply (at_most_bind moves_money 0 0); [by eauto with still|intros ?]].
Create HintDb still.

Lemma problem_still e : moves 0 (exchangeProblem e).
Proof. by destruct e. Qed.
Lemma evidence_still org id delta key : moves 0 (Evidence org id delta key).
Proof. unfold Evidence. no_money. Qed.
Lemma target_still x step : moves 0 (target_step x step).
Proof. unfold target_step. no_money. Qed.
Lemma fact_still x fact typ amount : moves 0 (exchange_fact x fact typ amount).
Proof. unfold exchange_fact. cbv zeta. no_money. Qed.
Lemma admission_still order org quantity : moves 0 (checkSourceAdmission has_access order org quantity).
Proof. unfold checkSourceAdmission. no_money. Qed.
#[local] Hint Resolve problem_still evidence_still target_still fact_still admission_still : still.
Lemma finish_still x gross replay : moves 0 (finish_exchange x gross replay).
Proof.
  unfold finish_exchange, exchangeFacts, persistExchangeReplacement. apply (at_most_bind moves_money 0 0); [eauto with still|]. intros [|]; [|done]. cbn [negb].
  apply (at_most_bind moves_money 0 0); [apply (at_most_bind moves_money 0 0); [eauto with still|]; intros [|]; cbn [negb]; [by eauto with still|done]|].
  intros [|]; [|done]. cbn [negb]. apply (at_most_bind moves_money 0 0); [no_money|]. intros [replacement|]; no_money.
Qed.
Lemma settle_once x delta token : moves 1 (settleExchangeDelta x delta token).
Proof. unfold settleExchangeDelta. destruct (_ =? _); [done|]. destruct (_ <? _); [case_bool_decide; [done|]|]; (apply at_most_ask; [reflexivity|done]). Qed.
Lemma complete_once x replay token : moves 1 (completeExchangeFromBasis x replay token).
Proof.
  unfold completeExchangeFromBasis. destruct (replacementGross _ _); [|done]. apply (at_most_bind moves_money 0 1); [eauto with still|].
  intros [|]; [|done]. cbn [negb]. apply at_most_aside; [reflexivity|]. intros marked.
  assert (H : ∀ gross, moves 1 (settled ← settleExchangeDelta x (bs_DeltaAmount (basis_of x)) token;
     match settled with
     | Err ErrUpgradeNeedsInstrument => says 409 "exchange upgrade requires a payment instrument"
     | Err ErrProviderFailed => says 422 "provider refund failed"
     | Err ErrSettlementUnresolved => says 502 "exchange settlement unresolved"
     | Ok _ => finish_exchange x gross replay
     end)).
  { intros gross. apply (at_most_bind moves_money 1 0); [apply settle_once|]. intros [[]|[]]; [apply finish_still|done..]. }
  destruct marked as [[]|[]]; try apply H; done.
Qed.
Lemma once_of_still {A} (p : protocol Desk A) : moves 0 p → moves 1 p.
Proof. apply at_most_mono. lia. Qed.
Lemma bind_once xq token o src pr total hold : moves 1 (bind_and_complete xq token o src pr total hold).
Proof.
  unfold bind_and_complete. apply at_most_aside; [reflexivity|]. intros [x|e].
  - cbv zeta. destruct (ex_Basis _); [apply complete_once|]. apply at_most_aside; [reflexivity|]. intros [b|e]; [apply complete_once|done].
  - apply (at_most_bind moves_money 0 1); [unfold releaseExchangeHold; no_money|]. intros _. by destruct e.
Qed.
Lemma forward_once xq token : moves 1 (exchange_forward has_access xq token).
Proof.
  unfold exchange_forward. apply at_most_aside; [reflexivity|]. intros [[o src]|e]; [|apply once_of_still, problem_still].
  apply at_most_aside; [reflexivity|]. intros [|code [[]|]]; [done| | |done]; (destruct (code =? 200); [|done]); [done|]. cbn [negb].
  apply (at_most_bind moves_money 0 1); [eauto with still|]. intros [r|]; [done|]. unfold price_and_hold. cbv zeta.
  apply at_most_aside; [reflexivity|]. intros a. destruct (resolveTicketTypePrice _ _ _ _) as [pr|[]]; [|done..].
  destruct (negb _); [done|]. destruct (_ && _); [done|]. apply at_most_aside; [reflexivity|]. intros w. destruct (hold_answer w); [apply bind_once|done].
Qed.
Lemma resume_once xq token row : moves 1 (exchange_resume has_access has_evidence xq token row).
Proof.
  unfold exchange_resume. apply at_most_aside; [reflexivity|]. intros [x|e]; [|apply once_of_still, problem_still].
  apply (at_most_bind moves_money 0 1); [destruct (_ && _); [eauto with still|done]|]. intros m.
  apply (at_most_bind moves_money 0 1); [destruct m; [done|eauto with still|done]|]. intros [r|]; [done|apply complete_once].
Qed.
Lemma exchange_once xq token : moves 1 (exchangeOrder has_access has_evidence xq token).
Proof.
  unfold exchangeOrder. destruct (_ || _); [done|]. destruct (invalid_exchange xq); [done|]. apply at_most_aside; [reflexivity|].
  intros [[row|]|e]; [|apply forward_once|apply once_of_still, problem_still]. cbv zeta. destruct (ex_Settlement row) as [[replacement at_]|].
  - apply at_most_aside; [reflexivity|]. by intros [[]|e].
  - destruct (ex_Basis row); [apply resume_once|apply forward_once].
Qed.

(** What the store answers of the source, and of an exchange that is gone. *)
Lemma source_completed org order db o src : LoadExchangeSource org order db = Ok (o, src) → or_Status o = OrdCompleted.
Proof. unfold LoadExchangeSource. intros H. ok_inv. zbool. cbn in *. by zbool. Qed.
Lemma settling_unwound now org id db : MarkExchangeSettling now org id db = Err ErrExchangeUnwound ↔ cm_Exchanges db !! (org, id) = None.
Proof.
  unfold MarkExchangeSettling, update_exchange. destruct (cm_Exchanges db !! (org, id)) as [row|]; cbn; [|done].
  by destruct (is_None _).
Qed.


(** C20 (safety). What is unwound has moved no money. Whatever the services answer, an
    operator's unwind removes an exchange only when, for every call by which the
    settlement of that row could move money, with any instrument, payments was asked
    about that very key and answered that it was never bound; an outage, an undecodable
    body, a pending operation and an incomplete refund leg all refuse. *)
Theorem unwind_only_without_money (org id : uuid) (reason : string) (tr : list (event Desk)) (r : result UnwindError unit)
    (Ht : traces (Unwind org id reason) tr r) :
  ∀ tr1 v tr2, tr = tr1 ++ v :: tr2 → cleared tr1 (call_of v).
Proof. exact (proj1 (obeys_traces _ _ _ _ _ _ (Unwind_obeys org id reason) Ht)). Qed.
End Order.

(** ** Witnesses *)

#[local] Existing Instance text_uuid.
#[local] Instance plain_ids : UUIDSource := {| NewSHA1 := λ s, s; is_v4 := λ _, true |}.

Definition swap : ExchangeRequest := {|
  xq_SourceOrderID := "order"%string; xq_OrganizerID := "org"%string; xq_TargetTicketTypeID := "better"%string; xq_IdempotencyKey := "x1";
  xq_Actor := "staff"; xq_Reason := "upgrade" |}.
Definition old_line : OrderRow * ReservationRow :=
  ({| or_ReservationID := "res"%string; or_Status := OrdCompleted; or_IdempotencyKey := "k1"; or_RequestFingerprint := "fp";
      or_GuestOrderRef := Some "ref"%string; or_RefundStatus := NothingRefunded; or_RefundedQuantity := 0; or_RefundedAmount := 0;
      or_TerminalOutcome := None; or_Recovery := fresh_lease 0; or_UpdatedAt := 0 |},
   {| rs_OrganizerID := "org"%string; rs_HoldID := "hold1"%string; rs_SlotID := "slot"%string; rs_TicketTypeID := "type"%string;
      rs_BuyerID := "buyer"%string; rs_Quantity := 2; rs_UnitAmount := 100; rs_TotalAmount := 210; rs_FaceValueAmount := 200;
      rs_Currency := "EUR"; rs_Status := ResCompleted; rs_ChannelCode := None; rs_ResellerID := None |}).
Definition bound_row (basis : option ExchangeBasis) : ExchangeRow := {|
  ex_SourceOrderID := "order"%string; ex_TargetTicketTypeID := "better"%string; ex_IdempotencyKey := "x1"; ex_RequestFingerprint := "";
  ex_Quantity := 2; ex_SourceTotal := 200; ex_SourceGrossTotal := 210; ex_Currency := "EUR"; ex_Actor := "staff"; ex_Reason := "upgrade";
  ex_Basis := basis; ex_Settlement := None; ex_SettlingAt := None; ex_TicketsExchangedAt := None; ex_CapacityReturnedAt := None;
  ex_CreatedAt := 0; ex_Reversal := fresh_lease 0 |}.
Definition dearer : priceResolution := {|
  pz_ResolverVersion := 3; pz_EvaluatedAt := 1; pz_OrganizerID := "org"%string; pz_PerformanceID := "slot2"%string;
  pz_BasePrice := {| rm_Amount := 150; rm_Currency := "EUR" |}; pz_ResolvedPrice := {| rm_Amount := 150; rm_Currency := "EUR" |};
  pz_Winner := None; pz_FallbackReason := Some "no_eligible_rule"%string; pz_ChannelCode := None |}.

(** Everybody agrees; payments knows no operation under the exchange's keys. *)
Definition counter (X : Type) (e : Desk X) : X :=
  match e in Desk X return X with
  | XLookup _ => Ok None
  | XBind q => Ok {| xc_ID := ExchangeID (xq_OrganizerID q) (xq_IdempotencyKey q); xc_OrganizerID := "org"%string; xc_Row := bound_row None;
      xc_SourceReservation := "res"%string; xc_BuyerID := "buyer"%string; xc_HoldID := "hold1"%string; xc_SlotID := "slot"%string; xc_PaymentSourceKey := "k1" |}
  | XLoadSource _ _ => Ok old_line
  | GetSeating _ _ => Answered 200 (Some false)
  | GetAdmission _ _ => Answered 200 (Some {| ad_Admitted := Some false; ad_IssuedCount := Some 2 |})
  | GetPrice _ _ => Document dearer
  | PostTargetHold _ _ _ _ _ _ _ _ => Answered 201 (Some "hold2"%string)
  | PostTargetStep _ _ _ => Answered 200 None
  | XRecordBasis _ _ b => Ok b
  | XSettling _ _ | XReplacementReservation _ _ _ | XReplacementOrder _ _ | XSettle _ _ _ | XUnwind _ _ _ _ => Ok tt
  | PostExchangeCharge _ _ _ _ _ _ _ _ => Answered 200 None
  | PostExchangeRefund _ _ _ _ _ => Answered 200 None
  | XInsertFact _ _ _ _ _ _ _ _ => true
  | PostExchangeFact _ _ _ _ _ _ _ _ => Answered 200 None
  | GetChargeOperation _ _ => Answered 404 None
  | GetRefundLeg _ _ _ => Answered 404 None
  | XLoadWedged _ _ => Ok (bound_row (Some {| bs_TargetHoldID := "hold2"%string; bs_ReplacementReservationID := "res2"%string;
      bs_TargetSlotID := "slot2"%string; bs_TargetTotal := 300; bs_DeltaAmount := 100; bs_TargetUnitAmount := 150 |}), "k1"%string)
  end.

Definition an_upgrade : list (event Desk) * (Z * ExchangeReply) := follow counter (exchangeOrder true true swap "tok").


Definition an_unwind : list (event Desk) * result UnwindError unit := follow counter (Unwind "org"%string "x"%string "stuck").

Lemma unwind_only_without_money_witness :
  an_unwind.2 = Ok tt ∧ length an_unwind.1 = 3%nat ∧ (∀ tr1 v tr2, an_unwind.1 = tr1 ++ v :: tr2 → cleared true tr1 (call_of v)).
Proof.
  split; [vm_compute; reflexivity|]. split; [vm_compute; reflexivity|].
  exact (@unwind_only_without_money text_uuid plain_ids true "org"%string "x"%string "stuck"%string an_unwind.1 an_unwind.2
    (follow_traces counter (Unwind "org"%string "x"%string "stuck"))).
Defined.
