(* ===== verification/ReserveService.v ===== *)
(** * Reserving

    [services/commerce/internal/api/server.go], [reserveWithScope]: the one reserve of
    the public route and of the partners', with the comparison of terms of
    catalog_fees.go. A key that has a reservation is answered from what is persisted; a
    new one is priced, its total proved representable, its hold taken, and the row
    inserted from the claim that inventory answered. Catalog's answers are validated by
    [Composition]; of its fee document the splits are kept for [SalePlan]. An inventory
    body is what the two readings of it find. *)

From S2P Require Import Prelude Text Format Tables Lifecycle Orders PaymentFlows Composition SalePlan Protocol.
#[local] Open Scope Z_scope.

(** The credential's scope of a partner; the public route has none. *)
Record PartnerScope (U : Type) := { ps_ResellerID : U; ps_OrganizerID : U; ps_ChannelCode : string }.
Arguments ps_ResellerID {U}.
Arguments ps_OrganizerID {U}.
Arguments ps_ChannelCode {U}.

Section Reserving.
Context `{UU : UUID} `{US : !UUIDSource}.

Record ReserveRequest := {
  nq_OrganizerID : uuid; nq_TicketTypeID : uuid; nq_Quantity : Z; nq_SeatIdentities : list string; nq_ChannelCode : option string }.

Inductive StoredSeats := NoSeats | UnreadableSeats | SeatsStored (l : list string).

(** A reservation's row as the handler reads it back. *)
Record PinnedReservation := { pn_Row : ReservationRow; pn_Seats : StoredSeats; pn_Snapshot : StoredSnapshot }.

(** The hold of a success, and the refusal of another answer. *)
Record HoldBody := { hb_ID : uuid; hb_ExpiresAt : time; hb_ServerTime : time; hb_Seats : list string; hb_Quantity : Z }.
Record RefusalBody := { fb_Error : option string; fb_Code : option string; fb_Seats : list string }.
Record InventoryBody := { ib_Hold : option HoldBody; ib_Refusal : option RefusalBody; ib_KindMismatch : bool }.

Definition FeeDocument : Type := feeResolution * list (string * option (list planPart)).

Inductive Booth : Type → Type :=
| RFind (id org : uuid) : Booth (result CommerceError PinnedReservation)
| RPrice (ticketType : uuid) (channel : option string) : Booth (answer priceResolution)
| RFees (ticketType : uuid) (channel : option string) : Booth (answer FeeDocument)
| PostHoldQuantity (key : string) (org slot ticketType : uuid) (quantity unit_amount : Z) (currency : string)
    (seller : option (string * uuid)) : Booth (Wire InventoryBody)
| PostHoldSeats (key : string) (org slot ticketType : uuid) (seats : list string) (unit_amount : Z) (currency : string) : Booth (Wire InventoryBody)
| RInsert (id : uuid) (row : ReservationRow) (seats : option (list string)) (snapshot : FeeSnapshot) : Booth (result CommerceError bool).

Abbreviation booth A := (protocol Booth A).

(** ** The request *)

Implicit Types (q : ReserveRequest) (scope : option (PartnerScope uuid)).

Definition is_seated q : bool := (0 <? length (nq_SeatIdentities q))%nat.
Definition canonicalSeatSet q : list string := isort String.ltb (remove_dups (map TrimSpace (nq_SeatIdentities q))).
Definition units q : Z := if is_seated q then Z.of_nat (length (canonicalSeatSet q)) else nq_Quantity q.

Definition usable_seat (s : string) : bool := negb (bool_decide (TrimSpace s = ""%string)) && (String.length s <=? 200)%nat.

Definition validReservationShape q : bool :=
  if bool_decide (nq_OrganizerID q = uuid_Nil) || bool_decide (nq_TicketTypeID q = uuid_Nil) then false
  else if Bool.eqb (negb (nq_Quantity q =? 0)) (is_seated q) then false
  else if is_seated q then (length (nq_SeatIdentities q) <=? 50)%nat && forallb usable_seat (nq_SeatIdentities q)
  else (1 <=? nq_Quantity q) && (nq_Quantity q <=? 50).

(** The channel of the credential, and no other. *)
Definition with_channel (channel : option string) q : ReserveRequest := {|
  nq_OrganizerID := nq_OrganizerID q; nq_TicketTypeID := nq_TicketTypeID q; nq_Quantity := nq_Quantity q;
  nq_SeatIdentities := nq_SeatIdentities q; nq_ChannelCode := channel |}.
Definition seller_of scope : option (string * uuid) := (λ s, (ps_ChannelCode s, ps_ResellerID s)) <$> scope.

Definition reservationID (org : uuid) (key : string) scope : uuid :=
  match scope with
  | None => NewSHA1 ("reservation:" +:+ uuid_String org +:+ ":" +:+ key)
  | Some s => NewSHA1 ("reservation:" +:+ uuid_String org +:+ ":" +:+ uuid_String (ps_ResellerID s) +:+ ":" +:+ key)
  end.

Definition sameChannel (a b : option string) : bool := bool_decide (a = b).
Definition sameSeats (persisted requested : list string) : bool := bool_decide (persisted = requested).

Definition sameTerms q (quantity : Z) (ticketType : uuid) (channel : option string) (seats : list string) : bool :=
  if negb (quantity =? units q) || negb (bool_decide (ticketType = nq_TicketTypeID q)) then false
  else if negb (sameChannel channel (nq_ChannelCode q)) then false
  else if negb (Bool.eqb (0 <? length seats)%nat (is_seated q)) then false
  else negb (is_seated q && negb (sameSeats seats (canonicalSeatSet q))).

(** ** Replies *)

Inductive ReserveReply :=
| RError (why : string) (code : option string) (seats : list string)
| Reserved (id hold buyer : uuid) (amount : Z) (currency : string) (seats : list string) (expires server : time)
    (fees : option (Z * Z * list feeBreakdownItem)).
Abbreviation Reply := (Z * ReserveReply)%type.
Definition refuses (code : Z) (why : string) : booth Reply := Done (code, RError why None []).

(** Persisted seats; nothing when they do not decode. *)
Definition seats_of (s : StoredSeats) : option (list string) :=
  match s with NoSeats => Some [] | UnreadableSeats => None | SeatsStored l => Some l end.

(** [addStoredFeeFields]: nothing when the snapshot does not decode. *)
Definition addStoredFeeFields (face : Z) (s : StoredSnapshot) : option (option (Z * Z * list feeBreakdownItem)) :=
  match s with
  | NoSnapshot => Some None
  | UnreadableSnapshot => None
  | StoredFees f => Some (Some (face, fs_PassedOnFees f, fs_Breakdown f))
  end.

(** ** What inventory refused *)

Definition uniqueSeats (seats : list string) : bool := forallb usable_seat seats && bool_decide (NoDup seats).
Definition disjointFrom (got want : list string) : bool := forallb (λ s, negb (bool_decide (s ∈ want))) got.
Fixpoint subsetOf (got want : list string) : bool :=
  match got with
  | [] => true
  | s :: got => bool_decide (s ∈ want) && subsetOf got (List.filter (λ w, negb (bool_decide (w = s))) want)
  end.

Definition refusal_of {B} (f : InventoryBody → option B) (w : Wire InventoryBody) : option (Z * B) :=
  match w with Answered code (Some b) => (λ x, (code, x)) <$> f b | _ => None end.

Definition seatedInventoryRefusal (w : Wire InventoryBody) (requested : list string) : Reply :=
  match refusal_of ib_Refusal w with
  | Some (409, r) =>
      if bool_decide (fb_Code r = Some "orphaned_seats"%string) then
        if (length (fb_Seats r) =? 0)%nat || (200 <? length (fb_Seats r))%nat || negb (uniqueSeats (fb_Seats r)) || negb (disjointFrom (fb_Seats r) requested)
        then (502, RError "invalid inventory response" None [])
        else (409, RError "the selection would leave a seat with no neighbour" (Some "orphaned_seats"%string) (fb_Seats r))
      else if bool_decide (fb_Code r = Some "seat_taken"%string) then
        if (length (fb_Seats r) =? 0)%nat || negb (subsetOf (fb_Seats r) requested) then (502, RError "invalid inventory response" None [])
        else (409, RError "one or more of the requested seats are no longer available" (Some "seat_taken"%string) (fb_Seats r))
      else (409, RError "inventory unavailable" None [])
  | _ => (409, RError "inventory unavailable" None [])
  end.

Definition publicGASoldOut scope (w : Wire InventoryBody) : bool :=
  match scope, refusal_of ib_Refusal w with
  | None, Some (409, {| fb_Error := Some _; fb_Code := Some code |}) => bool_decide (code = "sold_out"%string)
  | _, _ => false
  end.

(** A success's body; an unreadable one is a bad gateway. *)
Definition held_answer (w : Wire InventoryBody) : option (option HoldBody) :=
  match w with
  | Answered code body => if (code =? 200) || (code =? 201) then Some (body ≫= ib_Hold) else None
  | NoAnswer => None
  end.

Definition quantity_refusal scope (w : Wire InventoryBody) : Reply :=
  if publicGASoldOut scope w then (409, RError "sold out" (Some "sold_out"%string) []) else (409, RError "inventory unavailable" None []).

(** ** A key that has its reservation *)

Definition replay_hold (key : string) q scope (pin : ReservationRow) (seats : list string) : booth (Wire InventoryBody) :=
  if (0 <? length seats)%nat
  then call (PostHoldSeats key (nq_OrganizerID q) (rs_SlotID pin) (rs_TicketTypeID pin) seats (rs_UnitAmount pin) (rs_Currency pin))
  else call (PostHoldQuantity key (nq_OrganizerID q) (rs_SlotID pin) (rs_TicketTypeID pin) (rs_Quantity pin) (rs_UnitAmount pin)
               (rs_Currency pin) (seller_of scope)).

Definition replay_reservation (id : uuid) (key : string) q scope (p : PinnedReservation) : booth Reply :=
  let pin := pn_Row p in
  match seats_of (pn_Seats p) with
  | None => refuses 500 "persist reservation"
  | Some seats =>
      if negb (sameTerms q (rs_Quantity pin) (rs_TicketTypeID pin) (rs_ChannelCode pin) seats)
      then refuses 409 "idempotency key reused with different terms"
      else
        w ← replay_hold key q scope pin seats;
        match held_answer w with
        | None => Done (if (0 <? length seats)%nat then seatedInventoryRefusal w seats else quantity_refusal scope w)
        | Some None => refuses 502 "invalid inventory response"
        | Some (Some h) =>
            if negb (bool_decide (hb_ID h = rs_HoldID pin)) then refuses 409 "hold no longer matches the reservation"
            else
              match addStoredFeeFields (rs_FaceValueAmount pin) (pn_Snapshot p) with
              | None => refuses 500 "persist reservation"
              | Some fees => Done (201, Reserved id (rs_HoldID pin) (rs_BuyerID pin) (rs_TotalAmount pin) (rs_Currency pin) seats
                                          (hb_ExpiresAt h) (hb_ServerTime h) fees)
              end
        end
  end.

(** ** A new one *)

Definition buyerID (id : uuid) : uuid := NewSHA1 ("buyer:" +:+ uuid_String id).

(** The row lost its insertion: the winner's is the answer, if it is the same request. *)
Definition answer_winner (id : uuid) q (h : HoldBody) (currency : string) : booth Reply :=
  stored ← call (RFind id (nq_OrganizerID q));
  match stored with
  | Err _ => refuses 500 "persist reservation"
  | Ok p =>
      let row := pn_Row p in
      match seats_of (pn_Seats p) with
      | None => refuses 500 "persist reservation"
      | Some seats =>
          if negb (sameTerms q (rs_Quantity row) (rs_TicketTypeID row) (rs_ChannelCode row) seats)
          then refuses 409 "idempotency key reused with different terms"
          else
            match addStoredFeeFields (rs_FaceValueAmount row) (pn_Snapshot p) with
            | None => refuses 500 "persist reservation"
            | Some fees => Done (201, Reserved id (hb_ID h) (buyerID id) (rs_TotalAmount row) currency seats (hb_ExpiresAt h) (hb_ServerTime h) fees)
            end
      end
  end.

(** The claim's quantity, checked against what was asked. *)
Definition claimed_quantity q (h : HoldBody) : option Z :=
  if negb (is_seated q) then Some (nq_Quantity q)
  else if (length (hb_Seats h) =? 0)%nat || negb (hb_Quantity h =? Z.of_nat (length (hb_Seats h))) || negb (sameSeats (hb_Seats h) (canonicalSeatSet q))
  then None
  else Some (Z.of_nat (length (hb_Seats h))).

Definition reserved_row (id : uuid) q scope (p : priceResolution) (h : HoldBody) (quantity : Z) (c : Charge) : ReservationRow := {|
  rs_OrganizerID := nq_OrganizerID q; rs_HoldID := hb_ID h; rs_SlotID := pz_PerformanceID p; rs_TicketTypeID := nq_TicketTypeID q;
  rs_BuyerID := buyerID id; rs_Quantity := quantity; rs_UnitAmount := rm_Amount (pz_ResolvedPrice p); rs_TotalAmount := ch_Total c;
  rs_FaceValueAmount := ch_FaceValue c; rs_Currency := rm_Currency (pz_ResolvedPrice p); rs_Status := ResHeld;
  rs_ChannelCode := nq_ChannelCode q; rs_ResellerID := ps_ResellerID <$> scope |}.

Definition persist_reservation (id : uuid) q scope (p : priceResolution) (f : FeeDocument) (h : HoldBody) : booth Reply :=
  match claimed_quantity q h with
  | None => refuses 502 "invalid inventory response"
  | Some quantity =>
      match chargeAfterHold p f.1 quantity with
      | Err r => refuses (status r) (message r)
      | Ok c =>
          inserted ← call (RInsert id (reserved_row id q scope p h quantity c) (if is_seated q then Some (hb_Seats h) else None)
                             (feeSnapshotEnvelope f.2 (ch_Composition c)));
          match inserted with
          | Err _ => refuses 500 "persist reservation"
          | Ok false => answer_winner id q h (rm_Currency (pz_ResolvedPrice p))
          | Ok true => Done (201, Reserved id (hb_ID h) (buyerID id) (ch_Total c) (rm_Currency (pz_ResolvedPrice p))
                                    (if is_seated q then hb_Seats h else []) (hb_ExpiresAt h) (hb_ServerTime h)
                                    (Some (ch_FaceValue c, cp_PassedOnTotal (ch_Composition c), cp_Items (ch_Composition c))))
          end
      end
  end.

Definition take_hold (key : string) q scope (p : priceResolution) : booth (Wire InventoryBody) :=
  let m := pz_ResolvedPrice p in
  if is_seated q
  then call (PostHoldSeats key (nq_OrganizerID q) (pz_PerformanceID p) (nq_TicketTypeID q) (nq_SeatIdentities q) (rm_Amount m) (rm_Currency m))
  else call (PostHoldQuantity key (nq_OrganizerID q) (pz_PerformanceID p) (nq_TicketTypeID q) (nq_Quantity q) (rm_Amount m) (rm_Currency m) (seller_of scope)).

(** The refusal of a hold for a first request. *)
Definition first_refusal q scope (w : Wire InventoryBody) : Reply :=
  if is_seated q then seatedInventoryRefusal w (canonicalSeatSet q)
  else if publicGASoldOut scope w then (409, RError "sold out" (Some "sold_out"%string) [])
  else if match w with Answered _ (Some b) => ib_KindMismatch b | _ => false end
  then (409, RError "this slot is seated and cannot be sold by quantity" (Some "seated_pool_unsupported"%string) [])
  else (409, RError "inventory unavailable" None []).

Definition document_fees (a : answer FeeDocument) : answer feeResolution :=
  match a with Unavailable => Unavailable | Undecodable => Undecodable | Document d => Document d.1 end.
Definition document_splits (a : answer FeeDocument) : list (string * option (list planPart)) := match a with Document d => d.2 | _ => [] end.

(** The price alone decides whether the fees are asked for. *)
Definition quote (q : ReserveRequest) : booth (result Refusal (priceResolution * FeeDocument)) :=
  pa ← call (RPrice (nq_TicketTypeID q) (nq_ChannelCode q));
  match resolveTicketTypePrice pa (nq_OrganizerID q) (units q) (nq_ChannelCode q) with
  | Err e => Done (unresolved e "price resolution unusable")
  | Ok _ =>
      fa ← call (RFees (nq_TicketTypeID q) (nq_ChannelCode q));
      Done (match quoteBeforeHold pa (document_fees fa) (nq_OrganizerID q) (units q) (nq_ChannelCode q) with
            | Ok (p, f) => Ok (p, (f, document_splits fa))
            | Err r => Err r
            end)
  end.

Definition new_reservation (id : uuid) (key : string) q scope : booth Reply :=
  quoted ← quote q;
  match quoted with
  | Err r => refuses (status r) (message r)
  | Ok (p, f) =>
      w ← take_hold key q scope p;
      match held_answer w with
      | None => Done (first_refusal q scope w)
      | Some None => refuses 502 "invalid inventory response"
      | Some (Some h) => persist_reservation id q scope p f h
      end
  end.

(** The handler; the key is trimmed. *)
Definition reserveWithScope (key : string) q scope : booth Reply :=
  if bool_decide (key = ""%string) || (200 <? String.length key)%nat then refuses 400 "Idempotency-Key required"
  else if match scope with Some s => negb (bool_decide (nq_OrganizerID q = ps_OrganizerID s)) | None => false end
  then refuses 403 "credential is not scoped to this organizer"
  else if match scope with Some _ => false | None => negb (is_None (nq_ChannelCode q)) end
  then refuses 400 "channel_code is not accepted on a public reservation"
  else
    let q := match scope with Some s => with_channel (Some (ps_ChannelCode s)) q | None => q end in
    if negb (validReservationShape q) then refuses 400 "invalid reservation"
    else
      let id := reservationID (nq_OrganizerID q) key scope in
      found ← call (RFind id (nq_OrganizerID q));
      match found with
      | Ok p => replay_reservation id key q scope p
      | Err ErrNoRows => new_reservation id key q scope
      | Err _ => refuses 500 "persist reservation"
      end.
End Reserving.
Arguments Booth {UU}.
