(* ===== verification/ReserveOrder.v ===== *)
(** * The order of a reservation

    Whatever catalog, inventory and the store answer to [ReserveService]: a key that has
    a reservation is never priced again, a hold is asked with persisted or validated
    terms, the row that is inserted is the charge of the claim that was taken, and the
    reply is what is on record. *)

From S2P Require Import Prelude Text Format Tables Lifecycle Orders PaymentFlows Composition SalePlan Protocol ReserveService.
#[local] Open Scope Z_scope.

Create HintDb booth.

Section Order.
Context `{UU : UUID} `{US : !UUIDSource} (key : string) (asked_for : ReserveRequest) (scope : option (PartnerScope uuid)).
Implicit Types (past : list (event Booth)).

(** The request with the credential's channel, and its id. *)
Definition scoped : ReserveRequest := match scope with Some s => with_channel (Some (ps_ChannelCode s)) asked_for | None => asked_for end.
Definition its_id : uuid := reservationID (nq_OrganizerID asked_for) key scope.
Abbreviation q := scoped.
Abbreviation org := (nq_OrganizerID scoped).

Definition unreserved past : Prop := Happened (RFind its_id org) (Err ErrNoRows) ∈ past.

(** The persisted row, for the same terms. *)
Definition pinned past (row : ReservationRow) (seats : list string) : Prop :=
  ∃ p, Happened (RFind its_id org) (Ok p) ∈ past ∧ pn_Row p = row ∧ seats_of (pn_Seats p) = Some seats ∧
    sameTerms q (rs_Quantity row) (rs_TicketTypeID row) (rs_ChannelCode row) seats = true.

(** Both of catalog's documents, validated, their charge representable. *)
Definition quoted past (p : priceResolution) (f : FeeDocument) : Prop :=
  ∃ pa fa, Happened (RPrice (nq_TicketTypeID q) (nq_ChannelCode q)) pa ∈ past ∧ Happened (RFees (nq_TicketTypeID q) (nq_ChannelCode q)) fa ∈ past ∧
    quoteBeforeHold pa (document_fees fa) org (units q) (nq_ChannelCode q) = Ok (p, f.1) ∧ f.2 = document_splits fa.

Definition is_hold (c : asked Booth) : bool :=
  match c with Asked e => match e with PostHoldQuantity _ _ _ _ _ _ _ _ | PostHoldSeats _ _ _ _ _ _ _ => true | _ => false end end.

Definition held past (h : HoldBody) : Prop :=
  ∃ w, held_answer w = Some (Some h) ∧
    ((∃ slot ty n u cur, Happened (PostHoldQuantity key org slot ty n u cur (seller_of scope)) w ∈ past) ∨
     (∃ slot ty seats u cur, Happened (PostHoldSeats key org slot ty seats u cur) w ∈ past)).

(** ** What each call waits for *)

Definition permitted past (c : asked Booth) : Prop :=
  match c with
  | Asked e =>
      match e with
      | RFind id o => id = its_id ∧ o = org
      | RPrice ty ch => ty = nq_TicketTypeID q ∧ ch = nq_ChannelCode q ∧ unreserved past
      | RFees ty ch => ty = nq_TicketTypeID q ∧ ch = nq_ChannelCode q ∧ unreserved past
      | PostHoldQuantity k o slot ty n u cur seller =>
          k = key ∧ o = org ∧ seller = seller_of scope ∧ n = units q ∧ ty = nq_TicketTypeID q ∧
          ((∃ row, pinned past row [] ∧ (slot, u, cur) = (rs_SlotID row, rs_UnitAmount row, rs_Currency row)) ∨
           (∃ p f, quoted past p f ∧ is_seated q = false ∧
              (slot, u, cur) = (pz_PerformanceID p, rm_Amount (pz_ResolvedPrice p), rm_Currency (pz_ResolvedPrice p))))
      | PostHoldSeats k o slot ty seats u cur =>
          k = key ∧ o = org ∧ ty = nq_TicketTypeID q ∧
          ((∃ row, pinned past row seats ∧ seats = canonicalSeatSet q ∧ (slot, u, cur) = (rs_SlotID row, rs_UnitAmount row, rs_Currency row)) ∨
           (∃ p f, quoted past p f ∧ is_seated q = true ∧ seats = nq_SeatIdentities q ∧
              (slot, u, cur) = (pz_PerformanceID p, rm_Amount (pz_ResolvedPrice p), rm_Currency (pz_ResolvedPrice p))))
      | RInsert id row seats snapshot =>
          id = its_id ∧ ∃ p f h c, quoted past p f ∧ held past h ∧ chargeAfterHold p f.1 (units q) = Ok c ∧
            row = reserved_row its_id q scope p h (units q) c ∧ snapshot = feeSnapshotEnvelope f.2 (ch_Composition c) ∧
            seats = (if is_seated q then Some (canonicalSeatSet q) else None) ∧
            (answers_typed p f.1 → reservation_check row = true)
      end
  end.

(** What the buyer may be told. *)
Definition on_record past (r : Z * ReserveReply) : Prop :=
  match r.2 with
  | RError why _ _ =>
      r.1 ≠ 201 ∧ (why = "fee composition failed after the hold"%string → ∃ p f, quoted past p f ∧ ¬ answers_typed p f.1)
  | Reserved id hold buyer amount cur seats expires server _ =>
      r.1 = 201 ∧ id = its_id ∧
      ∃ h, held past h ∧ (hb_ID h, hb_ExpiresAt h, hb_ServerTime h) = (hold, expires, server) ∧
        ((∃ row, pinned past row seats ∧ amount = rs_TotalAmount row) ∨
         (∃ row stored snapshot, Happened (RInsert id row stored snapshot) (Ok true) ∈ past ∧
            (hold, buyer, amount, cur, seats) = (rs_HoldID row, rs_BuyerID row, rs_TotalAmount row, rs_Currency row, default [] stored)))
  end.

(** ** What was on record stays on record *)

#[local] Hint Resolve seen_later seen_last grown grown_trans : booth.

Lemma unreserved_grows p p' : p ⊆ p' → unreserved p → unreserved p'.
Proof. intros Hp Hin. by apply Hp. Qed.
Lemma pinned_grows p p' row seats : p ⊆ p' → pinned p row seats → pinned p' row seats.
Proof. intros Hp (x & Hin & H). exists x. split; [by apply Hp|done]. Qed.
Lemma quoted_grows p p' d f : p ⊆ p' → quoted p d f → quoted p' d f.
Proof. intros Hp (pa & fa & H1 & H2 & H). exists pa, fa. split_and!; [by apply Hp..|apply H|apply H]. Qed.
Lemma held_grows p p' h : p ⊆ p' → held p h → held p' h.
Proof.
  intros Hp (w & Hw & [(a & b & c & d & e & H)|(a & b & c & d & e & H)]); exists w; (split; [done|]);
    [left|right]; exists a, b, c, d, e; by apply Hp.
Qed.
#[local] Hint Resolve unreserved_grows pinned_grows quoted_grows held_grows : booth.

(** ** The quantity *)

Lemma canonical_length r : (length (canonicalSeatSet r) ≤ length (nq_SeatIdentities r))%nat.
Proof.
  unfold canonicalSeatSet. rewrite (Permutation_length (isort_perm _ _)). transitivity (length (map TrimSpace (nq_SeatIdentities r))); [|by rewrite length_map].
  apply submseteq_length, NoDup_submseteq; [apply list.NoDup_remove_dups|]. intros s Hs. exact (proj1 (list.elem_of_remove_dups _ _) Hs).
Qed.

Lemma canonical_some r : is_seated r = true → (1 ≤ length (canonicalSeatSet r))%nat.
Proof.
  unfold is_seated, canonicalSeatSet. rewrite (Permutation_length (isort_perm _ _)). destruct (nq_SeatIdentities r) as [|s l]; [done|]. intros _.
  destruct (remove_dups (map TrimSpace (s :: l))) as [|t k] eqn:E; [|cbn; lia].
  assert (Hin : TrimSpace s ∈ remove_dups (map TrimSpace (s :: l))) by (apply list.elem_of_remove_dups; left). rewrite E in Hin. by apply not_elem_of_nil in Hin.
Qed.

Lemma shape_units r : validReservationShape r = true → 1 ≤ units r ≤ 50.
Proof.
  unfold validReservationShape, units. destruct (_ || _); [done|]. destruct (Bool.eqb _ _); [done|].
  destruct (is_seated r) eqn:E; intros H; zbool; [|lia]. apply Nat.leb_le in H. pose proof (canonical_length r). pose proof (canonical_some r E). lia.
Qed.

(** The claim that is taken over is for what was asked. *)
Lemma claimed_units r h n : claimed_quantity r h = Some n → n = units r ∧ (is_seated r = true → hb_Seats h = canonicalSeatSet r).
Proof.
  unfold claimed_quantity, units. destruct (is_seated r); cbn [negb]; [|by intros [= <-]].
  destruct (length (hb_Seats h) =? 0)%nat; [done|]. destruct (_ =? _); [|done]. unfold sameSeats. case_bool_decide as Hs; [|done].
  intros [= <-]. by rewrite Hs.
Qed.

Lemma sameTerms_true r n ty ch seats : sameTerms r n ty ch seats = true →
  n = units r ∧ ty = nq_TicketTypeID r ∧ ((0 <? length seats)%nat = is_seated r) ∧ (is_seated r = true → seats = canonicalSeatSet r).
Proof.
  unfold sameTerms, sameSeats. destruct (Z.eqb_spec n (units r)) as [Hn|]; [|done]. case_bool_decide as Ht; [|done]. cbn [negb orb].
  destruct (sameChannel _ _); [|done]. cbn [negb]. destruct (Bool.eqb _ _) eqn:Eb; [|done]. apply Bool.eqb_prop in Eb. cbn [negb].
  destruct (is_seated r); cbn [andb]; [case_bool_decide as Hs; [|done]|]; intros _; by split_and!.
Qed.
(** ** The parts *)

Abbreviation ob := (obeys permitted).
Abbreviation told := (λ (r : Z * ReserveReply) p, on_record p r).

Lemma refusal_told past code why codes seats : code ≠ 201 → why ≠ "fee composition failed after the hold"%string →
  on_record past (code, RError why codes seats).
Proof. by intros Hc Hw. Qed.

Lemma refuses_obeys past code why : code ≠ 201 → why ≠ "fee composition failed after the hold"%string → ob (refuses code why) past told.
Proof. apply refusal_told. Qed.

(** None of the refusals of a hold is a success. *)
Lemma seated_refusal past w want : on_record past (seatedInventoryRefusal w want).
Proof. unfold seatedInventoryRefusal. repeat case_match; by apply refusal_told. Qed.
Lemma quantity_refusal_told past w : on_record past (quantity_refusal scope w).
Proof. unfold quantity_refusal. repeat case_match; by apply refusal_told. Qed.
Lemma first_refusal_told past r w : on_record past (first_refusal r scope w).
Proof. unfold first_refusal. destruct (is_seated r); [apply seated_refusal|]. repeat case_match; by apply refusal_told. Qed.

#[local] Hint Resolve refuses_obeys refusal_told seated_refusal quantity_refusal_told first_refusal_told : booth.

Lemma replay_obeys past p : Happened (RFind its_id org) (Ok p) ∈ past → ob (replay_reservation its_id key q scope p) past told.
Proof.
  intros Hin. unfold replay_reservation. destruct (seats_of (pn_Seats p)) as [seats|] eqn:Es; [|by apply refuses_obeys].
  destruct (sameTerms _ _ _ _ _) eqn:Et; cbn [negb]; [|by apply refuses_obeys].
  assert (Hpin : pinned past (pn_Row p) seats) by by exists p.
  destruct (sameTerms_true _ _ _ _ _ Et) as (Hn & Htt & Hb & Hs).
  set (goal := λ (w : Wire InventoryBody) p', past ⊆ p' ∧ ∀ h, held_answer w = Some (Some h) → held p' h).
  apply obeys_bind. apply (obeys_mono _ _ _ goal).
  - intros w p' [Hp Hh]. destruct (held_answer w) as [[h|]|] eqn:Ew.
    + case_bool_decide as Hid; cbn [negb]; [|by apply refuses_obeys]. destruct (addStoredFeeFields _ _); [|by apply refuses_obeys].
      split; [done|]. split; [done|]. exists h. split; [auto|]. split; [by rewrite Hid|]. left. exists (pn_Row p). eauto with booth.
    + by apply refuses_obeys.
    + destruct (0 <? length seats)%nat; [apply seated_refusal|apply quantity_refusal_told].
  - unfold replay_hold. destruct (0 <? length seats)%nat eqn:El.
    + split; [cbn; split_and!; [done..|]; left; exists (pn_Row p); eauto with booth|]. intros w. split; [eauto with booth|]. intros h Hh.
      exists w. split; [done|]. right. eexists _, _, _, _, _. apply seen_last.
    + split.
      * cbn. split_and!; [done..|]. left. exists (pn_Row p). destruct seats; [by split|done].
      * intros w. split; [eauto with booth|]. intros h Hh. exists w. split; [done|]. left. eexists _, _, _, _, _. apply seen_last.
Qed.

(** Why a quote is refused. *)
Lemma quote_refused pa fa r : quoteBeforeHold pa fa org (units q) (nq_ChannelCode q) = Err r →
  status r ≠ 201 ∧ message r ≠ "fee composition failed after the hold"%string.
Proof. unfold quoteBeforeHold, unresolved, refuse. intros H. repeat case_match; by simplify_eq. Qed.
Lemma unresolved_refused {T} e (r : Refusal) : unresolved (T := T) e "price resolution unusable" = Err r →
  status r ≠ 201 ∧ message r ≠ "fee composition failed after the hold"%string.
Proof. unfold unresolved, refuse. intros H. repeat case_match; by simplify_eq. Qed.

Lemma quote_obeys past (P : result Refusal (priceResolution * FeeDocument) → list (event Booth) → Prop) : unreserved past →
  (∀ p f p', past ⊆ p' → quoted p' p f → P (Ok (p, f)) p') →
  (∀ r p', past ⊆ p' → status r ≠ 201 → message r ≠ "fee composition failed after the hold"%string → P (Err r) p') →
  ob (quote q) past P.
Proof.
  intros Hu Hok Herr. unfold quote. apply obeys_call; [by split_and!|]. intros pa.
  destruct (resolveTicketTypePrice _ _ _ _) as [p0|e] eqn:Ep.
  - apply obeys_call; [cbn; eauto with booth|]. intros fa. cbn.
    destruct (quoteBeforeHold _ _ _ _ _) as [[p f]|r] eqn:Eq.
    + apply Hok; [eauto with booth|]. exists pa, fa. split_and!; [eauto with booth|apply seen_last|exact Eq|done].
    + apply quote_refused in Eq as [??]. apply Herr; eauto with booth.
  - cbn. destruct (unresolved e _) as [[]|r] eqn:E; [by destruct e|]. apply unresolved_refused in E as [??]. apply Herr; eauto with booth.
Qed.

Lemma take_hold_obeys past p f : quoted past p f →
  ob (take_hold key q scope p) past (λ w p', past ⊆ p' ∧ ∀ h, held_answer w = Some (Some h) → held p' h).
Proof.
  intros Hq. unfold take_hold. destruct (is_seated q) eqn:Es.
  - split; [cbn; split_and!; [done..|]; right; by exists p, f|]. intros w. split; [eauto with booth|]. intros h Hh.
    exists w. split; [done|]. right. eexists _, _, _, _, _. apply seen_last.
  - split; [cbn; unfold units; rewrite Es; split_and!; [done..|]; right; by exists p, f|]. intros w. split; [eauto with booth|]. intros h Hh.
    exists w. split; [done|]. left. eexists _, _, _, _, _. apply seen_last.
Qed.

Lemma winner_obeys past h cur : held past h → ob (answer_winner its_id q h cur) past told.
Proof.
  intros Hh. unfold answer_winner. apply obeys_call; [by split|]. intros [p|e]; [|by apply refuses_obeys].
  destruct (seats_of (pn_Seats p)) as [seats|] eqn:Es; [|by apply refuses_obeys].
  destruct (sameTerms _ _ _ _ _) eqn:Et; cbn [negb]; [|by apply refuses_obeys].
  destruct (addStoredFeeFields _ _); [|by apply refuses_obeys]. split; [done|]. split; [done|]. exists h.
  split; [eauto with booth|]. split; [done|]. left. exists (pn_Row p). split; [|done]. exists p. split_and!; [apply seen_last|done..].
Qed.

(** The row is one that the table takes. *)
Lemma row_checks past p f h c : validReservationShape q = true → quoted past p f → chargeAfterHold p f.1 (units q) = Ok c →
  answers_typed p f.1 → reservation_check (reserved_row its_id q scope p h (units q) c) = true.
Proof.
  intros Hv%shape_units (pa & fa & _ & _ & Hq & _) Hc Ht.
  assert (Hu : int32 (units q)) by (unfold int32, MinInt32, MaxInt32; lia).
  assert (H1 : 1 ≤ units q ≤ units q) by lia. destruct (charged_for _ _ _ _ _ _ _ _ _ Hu Ht Hq H1 Hc) as (Heur & Ha & _ & _ & Hf & _). unfold reservation_check, reserved_row. cbn.
  rewrite Heur. cbn. repeat (apply andb_true_intro; split); try (apply Z.ltb_lt; lia); try (apply Z.leb_le; lia); [done|].
  unfold scoped. by destruct scope.
Qed.

Lemma persist_obeys past p f h : validReservationShape q = true → quoted past p f → held past h →
  ob (persist_reservation its_id q scope p f h) past told.
Proof.
  intros Hv Hq Hh. unfold persist_reservation. destruct (claimed_quantity q h) as [n|] eqn:En; [|by apply refuses_obeys].
  apply claimed_units in En as [-> Hs]. destruct (chargeAfterHold p f.1 (units q)) as [c|r] eqn:Ec.
  - apply obeys_call.
    + split; [done|]. exists p, f, h, c. do 5 (split; [done|]). split; [by destruct (is_seated q); [rewrite Hs|]|].
      intros Ht. by eapply row_checks.
    + intros [[|]|e]; [|eapply winner_obeys; eauto with booth|by apply refuses_obeys].
      split; [done|]. split; [done|]. exists h. split; [eauto with booth|]. split; [done|]. right. eexists _, _, _.
      split; [apply seen_last|]. by destruct (is_seated q).
  - assert (Hr : status r = 500) by (unfold chargeAfterHold, refuse in Ec; by repeat case_match; simplify_eq).
    split; [by rewrite Hr|]. intros _. exists p, f. split; [done|]. intros Ht. destruct Hq as (pa & fa & _ & _ & Hq & _). apply shape_units in Hv.
    assert (Hu : int32 (units q)) by (unfold int32, MinInt32, MaxInt32; lia).
    destruct (composition_never_fails_after_the_hold _ _ _ _ _ _ _ (units q) Hu Ht Hq ltac:(lia)) as (c & Hc & _). by rewrite Hc in Ec.
Qed.

Lemma new_obeys past : validReservationShape q = true → unreserved past → ob (new_reservation its_id key q scope) past told.
Proof.
  intros Hv Hu. apply obeys_bind, quote_obeys; [done| |intros r p' _ Hs Hm; by apply refuses_obeys].
  intros p f p1 H1 Hq. apply obeys_bind. eapply obeys_mono; [|by eapply take_hold_obeys]. intros w p2 [H2 Hh].
  destruct (held_answer w) as [[h|]|] eqn:Ew; [|by apply refuses_obeys|apply first_refusal_told].
  apply persist_obeys; eauto with booth.
Qed.

Lemma reserve_obeys : ob (reserveWithScope key asked_for scope) [] told.
Proof.
  unfold reserveWithScope. destruct (_ || _); [by apply refuses_obeys|].
  destruct (match scope with Some s => negb _ | None => false end); [by apply refuses_obeys|].
  destruct (match scope with Some _ => false | None => negb _ end); [by apply refuses_obeys|]. fold q.
  destruct (validReservationShape q) eqn:Hv; cbn [negb]; [|by apply refuses_obeys].
  assert (Hid : reservationID org key scope = its_id) by (unfold its_id, scoped; by destruct scope). rewrite Hid.
  apply obeys_call; [by split|]. intros [p|e]; [apply replay_obeys, seen_last|].
  destruct e; try by apply refuses_obeys. apply new_obeys; [done|apply seen_last].
Qed.

(** ** One hold *)

Abbreviation holds n := (at_most is_hold n).

Lemma holds_once : holds 1 (reserveWithScope key asked_for scope).
Proof.
  unfold reserveWithScope. do 3 (destruct (_ : bool); [done|]). destruct (validReservationShape _); cbn [negb]; [|done].
  apply at_most_aside; [done|]. intros [p|e].
  - unfold replay_reservation. destruct (seats_of _) as [seats|]; [|done]. destruct (sameTerms _ _ _ _ _); [|done]. cbn [negb].
    apply (at_most_bind _ 1 0); [unfold replay_hold; by destruct (0 <? length seats)%nat|]. intros w. by repeat case_match.
  - destruct e; try done. apply (at_most_bind _ 0 1).
    + unfold quote. apply at_most_aside; [done|]. intros pa. by destruct (resolveTicketTypePrice _ _ _ _).
    + intros [[p f]|r]; [|done]. apply (at_most_bind _ 1 0); [unfold take_hold; by destruct (is_seated _)|]. intros w.
      destruct (held_answer w) as [[h|]|]; [|done..]. unfold persist_reservation. destruct (claimed_quantity _ _); [|done].
      destruct (chargeAfterHold _ _ _); [|done]. apply at_most_aside; [done|]. intros [[|]|]; [done| |done].
      unfold answer_winner. apply at_most_aside; [done|]. intros found. by repeat case_match.
Qed.
(** C5 (safety). A reservation sells what it holds at what it quoted. Whatever catalog,
    inventory and the store answer, in any trace of a reserve: catalog is asked only for
    a key that has no reservation, and a replay holds with the persisted terms, which
    are those of the request; a new hold is asked only after both documents were
    validated and their charge was proved representable, at the quoted unit amount, for
    the credential's seller; at most one hold is asked. The row that is inserted is the
    charge of the claim that inventory answered, which is for what was requested, and
    passes the table's checks when catalog's numbers have their types. A 201 names a
    hold that was taken and the total of a row that was found for the same terms or
    inserted here; and once a hold is taken the composition of the fees does not fail. *)
Theorem reserve_sells_what_it_holds (tr : list (event Booth)) (r : Z * ReserveReply)
    (Ht : traces (reserveWithScope key asked_for scope) tr r)
    (Htyped : ∀ p f, quoted tr p f → answers_typed p f.1) :
  (∀ tr1 v tr2, tr = tr1 ++ v :: tr2 → permitted tr1 (call_of v)) ∧ (counted is_hold tr ≤ 1)%nat ∧
  on_record tr r ∧ (∀ code codes seats, r ≠ (code, RError "fee composition failed after the hold" codes seats)).
Proof.
  destruct (obeys_traces _ _ _ _ _ _ reserve_obeys Ht) as [Hmay Hr]. split; [exact Hmay|].
  split; [exact (at_most_traces _ _ _ _ _ holds_once Ht)|]. split; [exact Hr|]. intros code codes seats ->.
  destruct Hr as [_ Hr]. destruct (Hr eq_refl) as (p & f & Hq & Hn). exact (Hn (Htyped _ _ Hq)).
Qed.
End Order.

(** ** Two tickets, with a fee; then the same request again *)

#[local] Existing Instance text_uuid.
#[local] Instance plain_ids : UUIDSource := {| NewSHA1 := λ s, s; is_v4 := λ _, true |}.

Definition two_tickets : ReserveRequest := {|
  nq_OrganizerID := "org"%string; nq_TicketTypeID := "type"%string; nq_Quantity := 2; nq_SeatIdentities := []; nq_ChannelCode := None |}.
Definition held_two : InventoryBody := {|
  ib_Hold := Some {| hb_ID := "hold"%string; hb_ExpiresAt := 9; hb_ServerTime := 1; hb_Seats := []; hb_Quantity := 2 |};
  ib_Refusal := None; ib_KindMismatch := false |}.
Definition box_office (found : result CommerceError PinnedReservation) (X : Type) (e : Booth X) : X :=
  match e in Booth X return X with
  | RFind _ _ => found
  | RPrice _ _ => Document example_price
  | RFees _ _ => Document (example_resolution example_order_fees, [])
  | PostHoldQuantity _ _ _ _ _ _ _ _ | PostHoldSeats _ _ _ _ _ _ _ => Answered 201 (Some held_two)
  | RInsert _ _ _ _ => Ok true
  end.
Definition reserving (found : result CommerceError PinnedReservation) : list (event Booth) * (Z * ReserveReply) :=
  follow (box_office found) (reserveWithScope "k1" two_tickets None).

(** The documents that catalog answered. *)
Definition price_of (v : event Booth) : option (answer priceResolution) :=
  match v with Happened e x => match e in Booth X return X → _ with RPrice _ _ => Some | _ => λ _, None end x end.
Definition fees_of (v : event Booth) : option (answer FeeDocument) :=
  match v with Happened e x => match e in Booth X return X → _ with RFees _ _ => Some | _ => λ _, None end x end.

Lemma the_only {A} (a b : A) n m : Some a ∈ replicate n None ++ Some b :: replicate m None → a = b.
Proof.
  intros [H|[H|H]%elem_of_cons]%elem_of_app; [|congruence|];
    apply (list_elem_of_fmap_2 is_None) in H; rewrite fmap_replicate in H; by apply elem_of_replicate_inv in H.
Qed.

Lemma the_quote_is_typed p f : quoted two_tickets None (reserving (Err ErrNoRows)).1 p f → answers_typed p f.1.
Proof.
  intros (pa & fa & Hp & Hf & Hq & _).
  apply (list_elem_of_fmap_2 price_of) in Hp. apply (list_elem_of_fmap_2 fees_of) in Hf.
  assert (Ep : price_of <$> (reserving (Err ErrNoRows)).1 = replicate 1 None ++ Some (Document example_price) :: replicate 3 None)
    by (vm_compute; reflexivity).
  assert (Ef : fees_of <$> (reserving (Err ErrNoRows)).1 =
               replicate 2 None ++ Some (Document (example_resolution example_order_fees, [])) :: replicate 2 None) by (vm_compute; reflexivity).
  rewrite Ep in Hp. rewrite Ef in Hf. rewrite (the_only _ _ _ _ Hp), (the_only _ _ _ _ Hf) in Hq.
  assert (Eq : quoteBeforeHold (Document example_price) (document_fees (Document (example_resolution example_order_fees, []))) "org"%string 2 None =
               Ok (example_price, example_resolution example_order_fees)) by (vm_compute; reflexivity).
  assert (E : Ok (E := Refusal) (example_price, example_resolution example_order_fees) = Ok (p, f.1)) by (rewrite <-Eq; exact Hq).
  injection E as <- <-. split; [vm_compute; split; discriminate|exact example_fees_typed].
Qed.

Lemma reserve_sells_what_it_holds_witness :
  (counted is_hold (reserving (Err ErrNoRows)).1 ≤ 1)%nat ∧
  on_record "k1" two_tickets None (reserving (Err ErrNoRows)).1 (reserving (Err ErrNoRows)).2 ∧ (reserving (Err ErrNoRows)).2.1 = 201.
Proof.
  destruct (@reserve_sells_what_it_holds text_uuid plain_ids "k1"%string two_tickets None (reserving (Err ErrNoRows)).1 (reserving (Err ErrNoRows)).2
    (follow_traces (box_office (Err ErrNoRows)) (reserveWithScope "k1" two_tickets None)) the_quote_is_typed) as (_ & Hone & Hr & _).
  split; [exact Hone|]. split; [exact Hr|]. vm_compute. reflexivity.
Defined.

(** The same key afterwards: the terms of the row, the row's total. *)
Definition the_row : ReservationRow := {|
  rs_OrganizerID := "org"%string; rs_HoldID := "hold"%string; rs_SlotID := "slot"%string; rs_TicketTypeID := "type"%string;
  rs_BuyerID := "buyer"%string; rs_Quantity := 2; rs_UnitAmount := 100; rs_TotalAmount := 200; rs_FaceValueAmount := 200; rs_Currency := "EUR";
  rs_Status := ResHeld; rs_ChannelCode := None; rs_ResellerID := None |}.

Example replay_answers_the_row :
  (reserving (Ok {| pn_Row := the_row; pn_Seats := NoSeats; pn_Snapshot := NoSnapshot |})).2 =
  (201, Reserved "reservation:org:k1" "hold" "buyer" 200 "EUR" [] 9 1 None)%string.
Proof. vm_compute. reflexivity. Qed.
